(* ===== verification/_CoqProject ===== *)
-Q . S2P
Prelude.v
Types.v
Codec.v
Text.v
Intent.v
Scan.v
Policy.v
Approval.v
AuditTrail.v
Sanitize.v
Fragment.v
Reliability.v
Queue.v
Router.v
Task.v
Runtime.v
Memory.v
Hal.v
Crypto.v
Did.v
Negotiate.v
Revocation.v
RawSession.v
Attestation.v
CrossTier.v
F32.v
Identity.v
Congestion.v
Flow.v
Secure.v
Announce.v
Frames.v
Dispatch.v
Semantic.v
Agents.v
Checkpoint.v
Mesh.v
Bootstrap.v
Peers.v
Wan.v
Telegram.v
Control.v
Startup.v
Interfaces.v
Hdl.v
Driver.v
HdlSign.v
Compliance.v
Collector.v
