(* ===== verification/Prelude.v ===== *)
(** * Verification of axiom-core

    AXIOM lets software agents call capabilities of real machines.  Machines run
    the daemon [forge-node]; daemons find each other, exchange signed frames and
    relay them.  A request asks a machine to run one of its capabilities: a
    gateway decides which calls run, asks a human before a destructive one,
    records everything in a hash-chained log, and treats all text that comes back
    as untrusted.  This library models the daemon's message handling, the
    gateway, and the wire, delivery, identity and routing layers under them.

    ** The program's parts and how they meet

    A frame ([axiom-types]) is signed by the node's identity ([axiom-crypto]) and
    written by the codec ([axiom-codec]).  On the receiving side the daemon
    decodes it, checks the signature under the claimed sender's key and hands it
    to the handler of its type (network.rs).  A frame addressed to another node is
    re-signed and forwarded along a bounded chain of relays; an announcement
    updates the table of who offers what ([axiom-router]) and is passed on; an
    intent addressed to this node is dispatched: the capability is looked up, the
    policy asked ([axiom-gateway], policy.rs: tier, kill switch, allow list, rate
    limit, concurrency permit), the payload parsed, and the machine's broker
    called.  A Tier 2 call becomes a proposal: its parameters are scanned for
    protected devices, hashed ([axiom-crypto], hash.rs), shown to a human, and
    executed once if approved (approval.rs).  Decisions and finished proposals are
    appended to the audit log (audit.rs); strings returned from devices are
    sanitised (sanitize.rs).  Beside the datagram path, [axiom-transport] has
    fragmentation, acknowledgement and retransmission, send queues, flow and
    congestion control and delegable tokens; [axiom-crypto] has trust negotiation,
    revocation and rolling-key sessions; [axiom-runtime] has the task lifecycle.

    ** Files

    Foundations:
    - [Prelude]: results ([outcome]: a value, an error or a panic), machine
      integers, slices and in-place writes, big-endian bytes, bit fields, tactics.
    - [Types]: axiom-types (clock.rs, crypto.rs, error.rs, frame.rs, lib.rs,
      payload.rs, trust.rs).  Enumerations with their wire codes, frames,
      [HybridClock] with [tick] and [update], payload descriptors.
    - [Codec]: axiom-codec.  [encode] and [decode] follow [Encoder::encode] and
      [Decoder::decode] offset by offset; [wire] is the specification of the
      format, [encodable] the frames it can carry.
    - [Text]: Rust strings as scalar values and their UTF-8 bytes, character
      classes, the hexadecimal interface.
    - [Intent]: intent.rs and hash.rs.  Descriptors, canonical order, the hash
      input.
    - [F32]: single-precision arithmetic and its casts.

    Gateway:
    - [Scan]: policy.rs, the MAC and IPv4 scans over untrusted text and
      [find_protected_match], refined to list-level token specifications.
    - [Policy]: policy.rs, loading, admission ([check_and_acquire]), the kill
      switch, and the interleaving of calls at the source's lock scopes
      ([phase_step], [gate_step]).
    - [Approval]: approval.rs, [propose_with_expiry], [decide_begin] and
      [decide_finish] (the two lock scopes of [decide_and_execute]), the
      interleaving of callers, the command-line channel and its prompt.
    - [AuditTrail]: audit.rs, entries, redaction, append with its I/O failures,
      [verify_chain], [AuditLog_open], the record of a finished intent.
    - [Sanitize]: sanitize.rs.

    Transport:
    - [Fragment]: fragment.rs, [fragment], [process] and the buffers of the
      reassembler.
    - [Reliability]: reliability.rs, [ReliabilityManager] and the send, receive
      and flush loops of [ReliableTransport].
    - [Queue]: queue.rs, priority queues drained by deficit round robin.
    - [Congestion], [Flow]: congestion.rs and flow.rs, with their [f32] factors.
    - [Secure]: secure.rs, sending and receiving with a trust floor, signatures checked
      before anything else, signed acknowledgements, flow control.
    - [CrossTier]: cross_tier_auth.rs, tokens and delegation chains.
    - [Identity]: identity_routing.rs, neighbours, routes, providers of intents and the
      decision taken for a frame.

    Identity and routing:
    - [Crypto]: identity.rs, frame_sign.rs, session tokens.
    - [Negotiate], [Revocation], [RawSession]: negotiate.rs, revocation.rs,
      raw_session.rs.
    - [Did]: did.rs, identifiers, their text form, base 58 and documents.
    - [Attestation]: attestation.rs, challenges, signed reports, their verification, and
      the mesh that collects certificates.
    - [Router]: axiom-router lib.rs, forward.rs, registry.rs and axiom-clock.
    - [Announce]: announce.rs, signed capability announcements and their manager.
    - [Semantic]: semantic.rs, discovery by category, tag and reputation.
    - [Bootstrap]: bootstrap.rs, JOIN and LEAVE and the table of known peers.

    Runtime and daemon:
    - [Task]: axiom-runtime task.rs.
    - [Runtime]: ipc.rs and scheduler.rs, the mailboxes of local agents and the
      work-stealing scheduler, both over priority lanes.
    - [Memory], [Hal]: axiom-hal, memory.rs and tensor_alloc.rs (regions, slabs,
      arena, bump allocator); capability.rs, compute.rs, mover.rs, resource.rs and
      manager.rs (what hardware offers and who holds it).
    - [Hdl], [Driver], [HdlSign]: axiom-hal/src/universal, hardware descriptions and
      their parser, the engine that runs a device from one, and the signatures and
      the secure parser in front of it.
    - [Agents]: agent.rs, context.rs, executor.rs and error.rs, the life of an
      agent, its claims on the resource manager, and its queue of work.
    - [Checkpoint]: checkpoint.rs, the bytes of a checkpoint and their CRC.
    - [Frames]: network.rs, the builders and the verifier of every frame.
    - [Dispatch]: network.rs, from a verified intent to the broker's calls and
      the reply, one handler per capability family, and the background task of an
      approved peer change.
    - [Mesh]: network.rs, forwarding with its duplicate cache and breadcrumbs,
      the handler of every frame type ([handle_axiom_frame]), maintenance, and
      the node as a step function ([mesh_step], [mesh_run]).
    - [Peers]: network.rs, discovery.rs and the event loop of node.rs: the peer
      table, both receive loops, connect, ping, announce and request with their
      waiters, and the daemon as a step function over all of them ([net_step]).
    - [Wan]: wan.rs and the WAN listener and client of node.rs and main.rs: signed
      liveness, connection slots, the requests of one connection.
    - [Telegram]: telegram_approval.rs, the approval channel of the daemon, with
      calls and taps interleaved ([tg_step]).
    - [Compliance]: axiom-audit, event.rs, sensitivity.rs, log.rs and retention.rs, the
      hash-chained log of a node with its indexes, and the retention of data.
    - [Collector]: axiom-audit, external.rs, the writer on a node, the collector its
      entries go to, and the store in a file.
    - [Control]: control.rs and the command side of main.rs, the lines of the
      control socket, their effect on daemon, policy and audit log ([ctl_step]), and
      the reports the client prints.
    - [Startup]: config.rs and [init] of main.rs, which identity a start runs under
      and what an interrupted [init] leaves.
    - [Interfaces]: discovery.rs, which interfaces are announced on.

    ** What the theorems show

    - Wire format: the encoder refines [wire]; decoding inverts encoding; what is
      accepted is canonical; no input makes the decoder panic; a frame built by a
      daemon is accepted by its peer and attributed to its sender.
    - Policy: the decision on every branch; load fails closed; permits are
      conserved and passes are spaced under every interleaving; a suspension or a
      freeze stops every call that had not passed its check.
    - Protected devices: the scans are sound, and complete on tokens not glued to
      others; the gaps that remain are stated as a theorem too.
    - Approval: at most one execution per intent under every interleaving, only
      approved, unexpired and unaltered; the published lifecycle; what the prompt
      shows; the proposal guard.
    - Audit: a successful append keeps the file verifiable; two files with one
      chain state hold the same entries or exhibit a hash collision; sensitive
      values leave no trace; the hazards of failed I/O.
    - Compliance: the log of a node verifies, answers queries exactly and shows what its
      hash covers; a collector holds one signed chain for each node and an honest
      writer gets all receipts; retention only moves forward and respects holds.
    - Dispatch: a request makes the daemon do only what its capability allows and
      only after the policy passed it; a peer change waits for its approval and
      reports every outcome.
    - Mesh: a routed request reaches its destination and its reply comes back
      along the breadcrumbs; a node forwards a frame at most once while it
      remembers it; caches and hop counts stay bounded; an announcement changes
      only the entries of its signer.
    - Peers: the tables agree in every reachable state; every peer is vouched for by
      a datagram it signed; what can change an entry; two daemons meet and a
      request between them is served.  The gaps of this protection are stated as
      lemmas.  Over the WAN, only an authenticated peer's verified request is
      dispatched, its answer comes back, and the slots never leak.  An approval
      by Telegram is a tap of the configured chat on that intent's buttons.
    - Routing data: gossip of an announcement stops and reaches every node in
      hop range; semantic discovery returns exactly the matching nodes; the
      indexes refine a flat table; identity routing forwards only to a present
      neighbour on the way to the destination; what joining and leaving do to the
      tables of both sides.
    - Delivery: fragments come back as the frame in any order; the reassembler and
      the reliability manager stay within their bounds in every reachable state;
      a reliable send is delivered and its acknowledgement clears its entry;
      retransmission stops; queue totals are exact; windows stay in range; over the secure
      transport nothing unverified has an effect, and a signed frame and its
      acknowledgement come through.
    - Identity: an established session names a peer that signed the challenge;
      the handshake completes; a revocation takes effect and only a certificate
      from an authorised issuer or enough witnesses causes one; heartbeats are not
      replayed; delegation never adds rights; an attestation report is found valid
      once per challenge, from the node that was asked, in its registered state.
    - Runtime: messages and work are neither lost nor duplicated and come by
      priority; a checkpoint comes back from its bytes; an agent that starts, fails
      or stops never leaves a resource claimed.
    - Hardware: memory is partitioned into free and allocated; the tensor pool is a
      map from live handles to contents; a claim is exclusive until its release; a driver
      touches its device only as its description declares; a description is accepted
      only under a trusted signature, and the encodings of the header round-trip.
    - Operation: the kill switch follows the operator's commands and nothing else,
      and each is logged; a start runs under the configured identity or not at
      all; announcements stay on admissible interfaces.

    ** Interfaces

    Code outside the repository is a class with the documented behaviour its
    callers rely on, and an instance that shows it can hold: [HexCodec] (hex),
    [Blake3] and [Blake3Keyed] (digest functions; collision freedom is never
    assumed: a theorem that needs it concludes with a collision, or is about a run whose
    own tokens do not collide),
    [Ed25519] (signatures made with a key verify under it; nothing says others do
    not), [TomlPolicy] and [TokioSemaphore], [Lowercase] and [StdFormat] (Unicode
    lower case, Display and Debug output), [SerdeJson] and [JsonPrint].  The
    broker of the local machine is the class [Uai]: a reply for each call, with
    the calls recorded.  [ApprovalChannel] and [Tier2Capability] are the source's
    own traits.  Clock readings, random identifiers and the results of file and
    socket operations are arguments.

    ** Conventions and bounds

    A [usize] is an unbounded integer except where the source's arithmetic can
    wrap; fixed-width arithmetic is written out ([u64_mul], [u8_shl]) with the
    wrap-around of a release build.  Indexing and slicing out of range give
    [Panic].  A hash map is a finite map; where the source iterates over one, the
    order is the map's or an argument and no theorem depends on it.  An [f32] is
    an IEEE binary32 number of [SpecFloat].  Loops: the scans carry the length of
    the text as fuel, and the strip loop of the sanitiser the number of
    characters (each turn consumes at least one); [run_phases] needs five turns,
    one per lock scope; a chain of hops carries at most the seven relays its
    one-byte counter's limit allows; the forwarding cache keeps 4096 entries.
    The theorems are about the functions with that fuel supplied.  The daemon
    handles one frame per step: its maps sit behind separate locks, and the model
    takes the handler of one frame as one transition.

    ** Not modelled

    Display and serde implementations, sockets and files themselves, logging and
    metrics.  Of [axiom-transport]: the bridges to other protocols, the tier
    translators and the socket wrappers.  Of [axiom-crypto]: the AEAD wrappers.  Of
    [axiom-router]: policy.rs, node.rs and agent_card.rs, which its lib.rs does not
    compile.  Of [axiom-hal]: network.rs and the built-in descriptions.  Of [forge-node]:
    process set-up, the Windows interface list and the chat service.  Of
    [axiom-audit]: report.rs.  The monitoring applications, packet capture and the
    demonstration binaries.

    ** What could come next

    The reports of [axiom-audit], then the packet rules of [forge-nic]. *)

From stdpp Require Import base numbers list strings gmap.
From Stdlib Require Import ZArith Lia Ascii.

#[global] Open Scope Z_scope.
#[global] Set Default Goal Selector "!".

(** ** Results of Rust code

    A call returns a value, returns an error value, or panics (an index or a
    slice out of range).  Panics are kept as a third outcome so that their
    absence is a theorem and not a modelling assumption. *)

Inductive outcome (E A : Type) : Type :=
  | Ok (a : A)
  | Err (e : E)
  | Panic.
Arguments Ok {E A} a.
Arguments Err {E A} e.
Arguments Panic {E A}.

#[export] Instance outcome_ret {E} : MRet (outcome E) := λ A a, Ok a.

#[export] Instance outcome_bind {E} : MBind (outcome E) := λ A B k m,
  match m with
  | Ok a => k a
  | Err e => Err e
  | Panic => Panic
  end.

Definition is_ok {E A} (o : outcome E A) : bool :=
  match o with Ok _ => true | _ => false end.

Lemma bind_Ok {E A B} (a : A) (k : A → outcome E B) : (Ok a ≫= k) = k a.
Proof. done. Qed.

Lemma bind_Ok_inv {E A B} (m : outcome E A) (k : A → outcome E B) b :
  (m ≫= k) = Ok b → ∃ a, m = Ok a ∧ k a = Ok b.
Proof. destruct m; simpl; [eauto | discriminate ..]. Qed.

Lemma bind_not_Panic {E A B} (m : outcome E A) (k : A → outcome E B) :
  m ≠ Panic → (∀ a, m = Ok a → k a ≠ Panic) → (m ≫= k) ≠ Panic.
Proof. destruct m; simpl; auto; discriminate. Qed.

(** ** Machine integers *)

Abbreviation u8_max := 255 (only parsing).
Abbreviation u16_max := 65535 (only parsing).
Abbreviation u32_max := 4294967295 (only parsing).
Abbreviation u64_max := 18446744073709551615 (only parsing).

Definition u8_shl (x n : Z) : Z := Z.shiftl x n mod 256.
Definition u16_saturating_add (a b : Z) : Z := Z.min (a + b) u16_max.
Definition u64_add (a b : Z) : Z := (a + b) mod 2 ^ 64.
Definition u64_mul (a b : Z) : Z := (a * b) mod 2 ^ 64.
Definition u64_saturating_sub (a b : Z) : Z := Z.max 0 (a - b).

Abbreviation byte_ok := (λ b : Z, 0 ≤ b < 256).
Abbreviation bytes_ok := (Forall byte_ok).

(** A fixed-size array [[u8; n]]. *)
Definition array_ok (n : nat) (l : list Z) : Prop := length l = n ∧ bytes_ok l.

#[export] Instance byte_ok_dec b : Decision (0 ≤ b < 256).
Proof. apply _. Defined.
#[export] Instance array_ok_dec n l : Decision (array_ok n l).
Proof. unfold array_ok. apply _. Defined.

(** ** Lengths, slices and in-place writes

    A [usize] is a [Z]; a slice expression [buf[a..b]] panics unless
    [a <= b <= buf.len()], an index panics unless it is in range, and
    [copy_from_slice] into [buf[a..a+n]] rewrites exactly that window. *)

Definition len {A} (l : list A) : Z := Z.of_nat (length l).

Definition slice {E A} (l : list A) (a b : Z) : outcome E (list A) :=
  if decide (0 ≤ a ≤ b ∧ b ≤ len l)
  then Ok (take (Z.to_nat (b - a)) (drop (Z.to_nat a) l))
  else Panic.

Definition index {E} (l : list Z) (i : Z) : outcome E Z :=
  if decide (0 ≤ i < len l) then Ok (nth (Z.to_nat i) l 0) else Panic.

Definition copy_at {E} (l : list Z) (a : Z) (src : list Z) : outcome E (list Z) :=
  if decide (0 ≤ a ∧ a + len src ≤ len l)
  then Ok (take (Z.to_nat a) l ++ src ++ drop (Z.to_nat (a + len src)) l)
  else Panic.

(** [f(&mut buf[a..])]: the callee works on the tail, the head is untouched. *)
Definition on_tail {E B} (l : list Z) (a : Z)
    (f : list Z → outcome E (list Z * B)) : outcome E (list Z * B) :=
  t ← slice l a (len l);
  '(t', r) ← f t;
  Ok (take (Z.to_nat a) l ++ t', r).

Lemma len_nonneg {A} (l : list A) : 0 ≤ len l.
Proof. unfold len. lia. Qed.

Lemma len_app {A} (l k : list A) : len (l ++ k) = len l + len k.
Proof. unfold len. rewrite length_app. lia. Qed.

Lemma len_nil {A} : len (@nil A) = 0.
Proof. done. Qed.

Lemma len_cons {A} (x : A) l : len (x :: l) = 1 + len l.
Proof. unfold len. simpl length. lia. Qed.

Lemma len_take {A} n (l : list A) : len (take n l) = Z.min (Z.of_nat n) (len l).
Proof. unfold len. rewrite length_take. lia. Qed.

Lemma len_drop {A} n (l : list A) : len (drop n l) = Z.max 0 (len l - Z.of_nat n).
Proof. unfold len. rewrite length_drop. lia. Qed.

Lemma len_replicate {A} n (x : A) : len (replicate n x) = Z.of_nat n.
Proof. unfold len. by rewrite length_replicate. Qed.

Lemma len_array n l : array_ok n l → len l = Z.of_nat n.
Proof. intros [H _]. unfold len. by rewrite H. Qed.

Lemma array_bytes n l : array_ok n l → bytes_ok l.
Proof. by intros [_ H]. Qed.

Lemma array_ok_replicate n x : 0 ≤ x < 256 → array_ok n (replicate n x).
Proof. intros. split; [apply length_replicate | by apply Forall_replicate]. Qed.

Create HintDb axiom discriminated.
Create Rewrite HintDb len.
#[export] Hint Resolve len_nonneg array_bytes : axiom.
#[export] Hint Rewrite @len_app @len_nil @len_cons @len_take @len_drop
  @len_replicate Nat2Z.inj_add : len.

(** Arithmetic about lengths: normalise [len], then [lia]. *)
Ltac len_facts :=
  repeat match goal with
  | H : array_ok ?n ?l |- _ =>
      lazymatch goal with
      | _ : len l = Z.of_nat n |- _ => fail
      | _ => pose proof (len_array n l H)
      end
  end.
Ltac fold_len :=
  repeat match goal with
  | |- context [Z.of_nat (length ?x)] => change (Z.of_nat (length x)) with (len x)
  | H : context [Z.of_nat (length ?x)] |- _ => change (Z.of_nat (length x)) with (len x) in H
  end.
Ltac solve_len := len_facts; autorewrite with len in *; fold_len; autorewrite with len in *; lia.

(** Split the conditions of [slice], [index] and [copy_at] in the goal. *)
Ltac range_ok :=
  repeat match goal with
  | |- context [decide ?P] =>
      rewrite (decide_True (P := P)) by solve_len
  end.

Lemma take_app_exact {A} n (l k : list A) : Z.of_nat n = len l → take n (l ++ k) = l.
Proof. intros H. apply take_app_length'. unfold len in H. lia. Qed.

Lemma drop_app_exact {A} n (l k : list A) : Z.of_nat n = len l → drop n (l ++ k) = k.
Proof. intros H. apply drop_app_length'. unfold len in H. lia. Qed.

(** The middle of a concatenation, read back by its offsets. *)
Lemma slice_app {E A} (p m s : list A) a b :
  a = len p → b = len p + len m → slice (E:=E) (p ++ m ++ s) a b = Ok m.
Proof.
  intros -> ->. unfold slice. pose proof (len_nonneg p). pose proof (len_nonneg m).
  pose proof (len_nonneg s).
  range_ok. rewrite drop_app_exact by lia. by rewrite take_app_exact by lia.
Qed.

Lemma slice_tail {E A} (p s : list A) a b :
  a = len p → b = len p + len s → slice (E:=E) (p ++ s) a b = Ok s.
Proof. intros Ha Hb. rewrite <- (app_nil_r s) at 1. by apply slice_app. Qed.

Lemma copy_at_app {E} (p m s src : list Z) a :
  a = len p → len src = len m → copy_at (E:=E) (p ++ m ++ s) a src = Ok (p ++ src ++ s).
Proof.
  intros -> Hl. unfold copy_at. pose proof (len_nonneg p). pose proof (len_nonneg m).
  pose proof (len_nonneg s). range_ok.
  rewrite take_app_exact by lia. f_equal. f_equal. f_equal.
  rewrite app_assoc. apply drop_app_exact. solve_len.
Qed.

Lemma on_tail_app {E B} (p s s' : list Z) a (r : B)
    (f : list Z → outcome E (list Z * B)) :
  a = len p → f s = Ok (s', r) → on_tail (p ++ s) a f = Ok (p ++ s', r).
Proof.
  intros -> Hf. unfold on_tail. rewrite slice_tail by solve_len.
  cbn. rewrite Hf. cbn. by rewrite take_app_exact by (pose proof (len_nonneg p); lia).
Qed.

Lemma slice_Ok_inv {E A} (l r : list A) a b :
  slice (E:=E) l a b = Ok r →
  0 ≤ a ≤ b ∧ b ≤ len l ∧ len r = b - a ∧
  r = take (Z.to_nat (b - a)) (drop (Z.to_nat a) l).
Proof.
  unfold slice. case_decide as H; [|done]. intros [= <-].
  rewrite len_take, len_drop. split_and!; try lia. done.
Qed.

Lemma slice_not_Panic {E A} (l : list A) a b :
  0 ≤ a ≤ b → b ≤ len l → slice (E:=E) l a b ≠ Panic.
Proof. intros. unfold slice. by rewrite decide_True by lia. Qed.

Lemma index_not_Panic {E} l i : 0 ≤ i < len l → index (E:=E) l i ≠ Panic.
Proof. intros. unfold index. by rewrite decide_True by lia. Qed.

Lemma split_at {A} (l : list A) n :
  0 ≤ n ≤ len l → ∃ p s, l = p ++ s ∧ len p = n ∧ len s = len l - n.
Proof.
  intros Hn. exists (take (Z.to_nat n) l), (drop (Z.to_nat n) l).
  rewrite take_drop. rewrite len_take, len_drop. split_and!; [done | lia | lia].
Qed.

Lemma bytes_ok_take n l : bytes_ok l → bytes_ok (take n l).
Proof. apply Forall_take. Qed.

Lemma bytes_ok_drop n l : bytes_ok l → bytes_ok (drop n l).
Proof. apply Forall_drop. Qed.
#[export] Hint Resolve bytes_ok_take bytes_ok_drop : axiom.

(** ** Big-endian byte arrays ([to_be_bytes] / [from_be_bytes]) *)

Fixpoint to_be (n : nat) (z : Z) : list Z :=
  match n with
  | O => []
  | S n' => (z / 2 ^ (8 * Z.of_nat n')) mod 256 :: to_be n' z
  end.

Definition from_be (l : list Z) : Z := fold_left (λ acc b, acc * 256 + b) l 0.

Lemma length_to_be n z : length (to_be n z) = n.
Proof. induction n; simpl; auto. Qed.

Lemma len_to_be n z : len (to_be n z) = Z.of_nat n.
Proof. unfold len. by rewrite length_to_be. Qed.
#[export] Hint Rewrite len_to_be : len.

Lemma to_be_bytes_ok n z : bytes_ok (to_be n z).
Proof. induction n; simpl; constructor; auto. apply Z.mod_pos_bound. lia. Qed.
#[export] Hint Resolve to_be_bytes_ok : axiom.

Lemma fold_be_acc l acc :
  fold_left (λ a b, a * 256 + b) l acc = acc * 2 ^ (8 * len l) + from_be l.
Proof.
  unfold from_be. revert acc. induction l as [|b l IH]; intros acc; cbn [fold_left].
  - change (acc = acc * 1 + 0). lia.
  - rewrite IH, (IH (0 * 256 + b)). rewrite len_cons.
    replace (8 * (1 + len l)) with (8 + 8 * len l) by lia.
    rewrite Z.pow_add_r by (pose proof (len_nonneg l); lia).
    change (2 ^ 8) with 256. ring.
Qed.

Lemma from_be_cons b l : from_be (b :: l) = b * 2 ^ (8 * len l) + from_be l.
Proof. apply (fold_be_acc l (0 * 256 + b)). Qed.

Lemma from_be_to_be_mod n z : from_be (to_be n z) = z mod 2 ^ (8 * Z.of_nat n).
Proof.
  induction n as [|n IH]; [by rewrite Z.mod_1_r|].
  cbn [to_be]. rewrite from_be_cons, len_to_be, IH.
  replace (8 * Z.of_nat (S n)) with (8 * Z.of_nat n + 8) by lia.
  rewrite Z.pow_add_r by lia. change (2 ^ 8) with 256.
  rewrite Z.rem_mul_r by lia. ring.
Qed.

Lemma from_be_to_be n z :
  0 ≤ z < 2 ^ (8 * Z.of_nat n) → from_be (to_be n z) = z.
Proof. intros. rewrite from_be_to_be_mod. by apply Z.mod_small. Qed.

Lemma from_be_bound l : bytes_ok l → 0 ≤ from_be l < 2 ^ (8 * len l).
Proof.
  induction 1 as [|b l Hb Hl IH]; [done|].
  rewrite from_be_cons, len_cons.
  replace (8 * (1 + len l)) with (8 + 8 * len l) by lia.
  rewrite Z.pow_add_r by (pose proof (len_nonneg l); lia).
  change (2 ^ 8) with 256. cbn beta in Hb.
  generalize dependent (2 ^ (8 * len l)). intros P IH. nia.
Qed.

Lemma to_be_congr n x y :
  x mod 2 ^ (8 * Z.of_nat n) = y mod 2 ^ (8 * Z.of_nat n) → to_be n x = to_be n y.
Proof.
  revert x y. induction n as [|n IH]; intros x y H; [done|].
  cbn [to_be].
  replace (8 * Z.of_nat (S n)) with (8 * Z.of_nat n + 8) in H by lia.
  rewrite Z.pow_add_r in H by lia. change (2 ^ 8) with 256 in H.
  rewrite !Z.rem_mul_r in H by lia.
  destruct (Z.div_mod_unique (2 ^ (8 * Z.of_nat n))
    ((x / 2 ^ (8 * Z.of_nat n)) mod 256) ((y / 2 ^ (8 * Z.of_nat n)) mod 256)
    (x mod 2 ^ (8 * Z.of_nat n)) (y mod 2 ^ (8 * Z.of_nat n))) as [-> Hm].
  - left. apply Z.mod_pos_bound. lia.
  - left. apply Z.mod_pos_bound. lia.
  - lia.
  - f_equal. by apply IH.
Qed.

Lemma to_be_from_be l : bytes_ok l → to_be (length l) (from_be l) = l.
Proof.
  induction 1 as [|b l Hb Hl IH]; [done|]. cbn [length to_be].
  rewrite from_be_cons. change (Z.of_nat (length l)) with (len l).
  pose proof (from_be_bound l Hl).
  f_equal.
  - rewrite Z.div_add_l by lia. rewrite (Z.div_small (from_be l)) by lia.
    rewrite Z.add_0_r. by apply Z.mod_small.
  - etrans; [|exact IH]. apply to_be_congr. fold (len l).
    by rewrite Z.add_comm, Z.mod_add by lia.
Qed.

(** ** Bit fields *)

Lemma lor_shiftl_add a b n :
  0 ≤ n → 0 ≤ b < 2 ^ n → Z.lor (Z.shiftl a n) b = a * 2 ^ n + b.
Proof.
  intros Hn Hb. rewrite <- Z.add_lor_land, Z.shiftl_mul_pow2 by done.
  enough (Z.land (a * 2 ^ n) b = 0) as -> by lia.
  rewrite <- Z.shiftl_mul_pow2 by done. apply Z.bits_inj'. intros i Hi.
  rewrite Z.land_spec, Z.bits_0. destruct (decide (i < n)).
  - by rewrite Z.shiftl_spec_low by lia.
  - rewrite <- (Z.mod_small b (2 ^ n)) by lia.
    rewrite Z.mod_pow2_bits_high by lia. by rewrite andb_false_r.
Qed.

(** A decidable statement about every integer below a bound, by evaluation. *)
Lemma forall_below (n : nat) (P : Z → Prop) `{∀ z, Decision (P z)} :
  forallb (λ i, bool_decide (P (Z.of_nat i))) (seq 0 n) = true →
  ∀ z, 0 ≤ z < Z.of_nat n → P z.
Proof.
  intros Hall z Hz. rewrite forallb_forall in Hall.
  specialize (Hall (Z.to_nat z)). rewrite Z2Nat.id in Hall by lia.
  apply bool_decide_eq_true in Hall; [done|]. apply in_seq. lia.
Qed.

Lemma forall_below2 (n m : nat) (P : Z → Z → Prop) `{∀ y z, Decision (P y z)} :
  forallb (λ i, forallb (λ j, bool_decide (P (Z.of_nat i) (Z.of_nat j))) (seq 0 m))
    (seq 0 n) = true →
  ∀ y z, 0 ≤ y < Z.of_nat n → 0 ≤ z < Z.of_nat m → P y z.
Proof.
  intros Hall y z Hy Hz. revert z Hz. apply (forall_below m (P y)).
  rewrite forallb_forall in Hall. specialize (Hall (Z.to_nat y)).
  rewrite Z2Nat.id in Hall by lia. apply Hall, in_seq. lia.
Qed.

Lemma forall_below3 (n m k : nat) (P : Z → Z → Z → Prop) `{∀ x y z, Decision (P x y z)} :
  forallb (λ h, forallb (λ i, forallb (λ j,
      bool_decide (P (Z.of_nat h) (Z.of_nat i) (Z.of_nat j))) (seq 0 k)) (seq 0 m))
    (seq 0 n) = true →
  ∀ x y z, 0 ≤ x < Z.of_nat n → 0 ≤ y < Z.of_nat m → 0 ≤ z < Z.of_nat k → P x y z.
Proof.
  intros Hall x y z Hx Hy Hz. revert y z Hy Hz. apply (forall_below2 m k (P x)).
  rewrite forallb_forall in Hall. specialize (Hall (Z.to_nat x)).
  rewrite Z2Nat.id in Hall by lia. apply Hall, in_seq. lia.
Qed.

(** Masks and shifts as arithmetic, for [lia]. *)
Lemma land_mask n x : 0 ≤ n → Z.land x (2 ^ n - 1) = x mod 2 ^ n.
Proof. intros. rewrite <- Z.land_ones by done. by rewrite Z.ones_equiv, Z.sub_1_r. Qed.

Lemma land_3 x : Z.land x 3 = x mod 4.
Proof. by apply (land_mask 2). Qed.
Lemma land_7 x : Z.land x 7 = x mod 8.
Proof. by apply (land_mask 3). Qed.
Lemma land_15 x : Z.land x 15 = x mod 16.
Proof. by apply (land_mask 4). Qed.
Lemma land_255 x : Z.land x 255 = x mod 256.
Proof. by apply (land_mask 8). Qed.

Lemma shiftr_div x n : 0 ≤ n → Z.shiftr x n = x / 2 ^ n.
Proof. apply Z.shiftr_div_pow2. Qed.

Ltac bits_to_arith :=
  rewrite ?land_3, ?land_7, ?land_15, ?land_255;
  rewrite ?(shiftr_div _ 2), ?(shiftr_div _ 3), ?(shiftr_div _ 4), ?(shiftr_div _ 5),
    ?(shiftr_div _ 6), ?(shiftr_div _ 12), ?(shiftr_div _ 20) by lia.

Ltac by_enumeration n :=
  match goal with
  | |- ∀ x, _ → @?P x => apply (forall_below n P); vm_compute; reflexivity
  end.
Ltac by_enumeration2 n m :=
  match goal with
  | |- ∀ x y, _ → _ → @?P x y => apply (@forall_below2 n m P (λ y z, ltac:(cbv beta; apply _))); vm_compute; reflexivity
  end.
Ltac by_enumeration3 n m k :=
  match goal with
  | |- ∀ x y z, _ → _ → _ → @?P x y z =>
      apply (@forall_below3 n m k P (λ x y z, ltac:(cbv beta; apply _)));
      vm_compute; reflexivity
  end.

(** Equality of explicit lists, element by element. *)
Ltac list_eq :=
  lazymatch goal with
  | |- _ :: _ = _ :: _ => apply (f_equal2 cons); [|list_eq]
  | |- _ => try reflexivity
  end.

(** [lia] with division and remainder by constants. *)
Ltac dlia := Z.to_euclidean_division_equations; lia.

(** Consecutive writes: [p] is written, [l] is what remains of the buffer. *)
Lemma copy_at_next {E} (p l src : list Z) a :
  a = len p → len src ≤ len l →
  copy_at (E:=E) (p ++ l) a src = Ok ((p ++ src) ++ drop (length src) l).
Proof.
  intros -> Hl. rewrite <- (take_drop (length src) l) at 1.
  rewrite copy_at_app; [by rewrite app_assoc | done |].
  rewrite len_take. unfold len in *. lia.
Qed.

Lemma on_tail_next {E B} (p l src : list Z) a (r : B)
    (f : list Z → outcome E (list Z * B)) :
  a = len p → f l = Ok (src ++ drop (length src) l, r) →
  on_tail (p ++ l) a f = Ok ((p ++ src) ++ drop (length src) l, r).
Proof. intros Ha Hf. rewrite <- app_assoc. by apply on_tail_app. Qed.

(** Case analysis on the first integer test of the goal; impossible branches are
    closed by arithmetic. *)
Ltac case_ltb :=
  match goal with
  | |- context [?a <? ?b] => destruct (Z.ltb_spec a b)
  | |- context [?a =? ?b] => destruct (Z.eqb_spec a b)
  end; try solve [exfalso; solve_len].

Lemma index_Ok {E} (l : list Z) i b :
  l !! Z.to_nat i = Some b → 0 ≤ i → index (E:=E) l i = Ok b.
Proof.
  intros Hb Hi. unfold index. pose proof (lookup_lt_Some _ _ _ Hb).
  rewrite decide_True by (unfold len; lia).
  by rewrite <- (nth_lookup_Some _ _ 0 _ Hb).
Qed.

Lemma index_at {E} (l p : list Z) b s i :
  l = p ++ b :: s → i = len p → index (E:=E) l i = Ok b.
Proof.
  intros -> ->. apply index_Ok; [|apply len_nonneg]. unfold len.
  rewrite Nat2Z.id. by apply list_lookup_middle.
Qed.

Lemma slice_at {E A} (l p m s : list A) a b :
  l = p ++ m ++ s → a = len p → b = len p + len m → slice (E:=E) l a b = Ok m.
Proof. intros ->. apply slice_app. Qed.

(** ** Little-endian byte arrays ([to_le_bytes] / [from_le_bytes]) *)

Definition to_le (n : nat) (z : Z) : list Z := rev (to_be n z).
Definition from_le (l : list Z) : Z := from_be (rev l).

Lemma len_to_le n z : len (to_le n z) = Z.of_nat n.
Proof. unfold to_le, len. by rewrite length_rev, length_to_be. Qed.
#[export] Hint Rewrite len_to_le : len.

Lemma to_le_bytes_ok n z : bytes_ok (to_le n z).
Proof. apply Forall_rev, to_be_bytes_ok. Qed.

Lemma from_le_to_le n z : 0 ≤ z < 2 ^ (8 * Z.of_nat n) → from_le (to_le n z) = z.
Proof. intros Hz. unfold from_le, to_le. rewrite rev_involutive. by apply from_be_to_be. Qed.

Lemma to_le_inj n x y :
  0 ≤ x < 2 ^ (8 * Z.of_nat n) → 0 ≤ y < 2 ^ (8 * Z.of_nat n) → to_le n x = to_le n y → x = y.
Proof. intros Hx Hy E. apply (f_equal from_le) in E. by rewrite !from_le_to_le in E. Qed.

(** ** Records written field after field *)

(** The [i]-th field of a concatenation, read back by its offsets. *)
Lemma slice_field {E} (fs : list (list Z)) i m a b :
  fs !! i = Some m → a = len (concat (take i fs)) → b = a + len m →
  slice (E:=E) (concat fs) a b = Ok m.
Proof.
  intros Hi Ha Hb. apply (slice_at _ (concat (take i fs)) m (concat (drop (S i) fs))); [|done|lia].
  rewrite <- (take_drop_middle fs i m Hi) at 1. by rewrite concat_app.
Qed.

Lemma index_field {E} (fs : list (list Z)) i x a :
  fs !! i = Some [x] → a = len (concat (take i fs)) → index (E:=E) (concat fs) a = Ok x.
Proof.
  intros Hi Ha. apply (index_at _ (concat (take i fs)) x (concat (drop (S i) fs))); [|done].
  rewrite <- (take_drop_middle fs i [x] Hi) at 1. by rewrite concat_app.
Qed.

(** Two concatenations of fields of the same widths are equal field by field. *)
Lemma concat_fields_inj (fs gs : list (list Z)) :
  length <$> fs = length <$> gs → concat fs = concat gs → fs = gs.
Proof.
  revert gs. induction fs as [|f fs IH]; intros [|g gs]; try done.
  cbn. intros [= Hl Hr] E. apply app_inj_1 in E as [-> E]; [|done]. by rewrite (IH gs).
Qed.

(** A field's place among the fields [l], by their lengths. *)
Ltac field_at l := first [done | try unfold l; cbn [take concat app]; solve_len].

(** ** Slices after a length check *)

(** [data[a..b]] and [data[i]] in a decoder that has checked the length. *)
Definition at_slice (data : list Z) (a b : nat) : list Z := take (b - a) (drop a data).
Definition at_byte (data : list Z) (i : nat) : Z := nth i data 0.

Lemma at_slice_app p m s a b :
  a = length p → b = (length p + length m)%nat → at_slice (p ++ m ++ s) a b = m.
Proof.
  intros -> ->. unfold at_slice. rewrite drop_app_length.
  replace (length p + length m - length p)%nat with (length m) by lia. by rewrite take_app_length.
Qed.

Lemma at_slice_tail p m a b :
  a = length p → b = (length p + length m)%nat → at_slice (p ++ m) a b = m.
Proof. intros Ha Hb. rewrite <- (app_nil_r m) at 1. by apply at_slice_app. Qed.

Lemma at_byte_app p x s i : i = length p → at_byte (p ++ x :: s) i = x.
Proof. intros ->. unfold at_byte. rewrite app_nth2 by lia. by rewrite Nat.sub_diag. Qed.

Lemma at_slice_array data a b n :
  bytes_ok data → (b <= length data)%nat → n = (b - a)%nat → array_ok n (at_slice data a b).
Proof.
  intros Hd Hl ->. split; [unfold at_slice; rewrite length_take, length_drop; lia|].
  by apply Forall_take, Forall_drop.
Qed.
Lemma at_byte_ok data i : bytes_ok data → 0 ≤ at_byte data i < 256.
Proof.
  intros Hd. unfold at_byte. destruct (nth_in_or_default i data 0) as [Hi| ->]; [|lia].
  rewrite Forall_forall in Hd. apply Hd. by apply list_elem_of_In.
Qed.

(** The [i]-th field of a record written field after field. *)
Lemma at_slice_field (fs : list (list Z)) i m a b :
  fs !! i = Some m → a = length (concat (take i fs)) → b = (a + length m)%nat →
  at_slice (concat fs) a b = m.
Proof.
  intros Hi Ha Hb. rewrite <- (take_drop_middle fs i m Hi), concat_app. cbn [concat].
  apply at_slice_app; [done|lia].
Qed.

Lemma existsb_pointwise {A} (f g : A → bool) l : (∀ x, f x = g x) → existsb f l = existsb g l.
Proof. intros Hfg. induction l as [|x l IH]; [done|]. cbn. by rewrite Hfg, IH. Qed.

(** An invariant of each step holds wherever the steps lead. *)
Lemma rtc_preserves {A} (R : A → A → Prop) (P : A → Prop) :
  (∀ x y, R x y → P x → P y) → ∀ x y, rtc R x y → P x → P y.
Proof. intros Hstep x y H. induction H as [|x y z Hxy _ IH]; [done|]. intros Hx. by apply IH, (Hstep x y). Qed.

(** Deleting a key never makes a map larger. *)
Lemma size_delete_le `{Countable K} {V} (m : gmap K V) i : (size (delete i m) <= size m)%nat.
Proof. destruct (m !! i) eqn:E; [rewrite map_size_delete_Some by (by eexists); lia|by rewrite delete_id]. Qed.
