(* ===== verification/Types.v ===== *)
(** * Protocol data types (crate axiom-types)

    Identifiers and keys ([crypto.rs]) are fixed-size byte arrays, kept as
    [list Z] with [array_ok n] as their type invariant.  This file models the
    hybrid logical clock ([clock.rs]), trust levels ([trust.rs]), frames
    ([frame.rs]), payload descriptors ([payload.rs]) and the wire codes of the
    protocol's enumerations, with the laws the codec and the transports use. *)

From stdpp Require Import base numbers list gmap.
From S2P Require Import Prelude.

(** ** Constants (lib.rs) *)

Definition PROTOCOL_VERSION : Z := 1.
Definition MAGIC : Z := 2.
Definition MAX_PAYLOAD_SIZE : Z := 16777215.
Definition FIXED_HEADER_SIZE : Z := 58.
Definition SIGNATURE_SIZE : Z := 64.
Definition SESSION_TOKEN_SIZE : Z := 16.
Definition INTENT_HASH_SIZE : Z := 16.
Definition NODE_ID_SIZE : Z := 32.
Definition TRACE_ID_SIZE : Z := 8.
Definition CLOCK_SIZE : Z := 7.
Definition ROUTING_EXT_SIZE : Z := NODE_ID_SIZE + 1.

(** ** Identifiers (crypto.rs) *)

Definition NodeId := list Z.
Definition Signature := list Z.
Definition IntentHash := list Z.
Definition SessionToken := list Z.
Definition TraceId := list Z.

Definition NodeId_zero : NodeId := replicate 32 0.
Definition NodeId_is_zero (n : NodeId) : bool := forallb (Z.eqb 0) n.
Definition Signature_zero : Signature := replicate 64 0.
Definition IntentHash_zero : IntentHash := replicate 16 0.
Definition IntentHash_is_zero (n : IntentHash) : bool := forallb (Z.eqb 0) n.
Definition SessionToken_zero : SessionToken := replicate 16 0.
Definition TraceId_zero : TraceId := replicate 8 0.
Definition TraceId_from_u64 (v : Z) : TraceId := to_be 8 v.
Definition TraceId_as_u64 (t : TraceId) : Z := from_be t.

(** ** Hybrid logical clock (clock.rs) *)

Record HybridClock := mkClock { physical : Z; logical : Z }.

#[export] Instance HybridClock_eq_dec : EqDecision HybridClock.
Proof. solve_decision. Defined.
#[export] Instance HybridClock_countable : Countable HybridClock.
Proof.
  refine (inj_countable' (λ c, (physical c, logical c)) (λ p, mkClock p.1 p.2) _).
  by intros [].
Defined.

Definition HybridClock_zero : HybridClock := mkClock 0 0.

Definition clock_ok (c : HybridClock) : Prop :=
  0 ≤ physical c < 2 ^ 64 ∧ 0 ≤ logical c < 2 ^ 16.

Definition HybridClock_tick (c : HybridClock) : HybridClock :=
  mkClock (physical c) (u16_saturating_add (logical c) 1).

Definition HybridClock_update (c received : HybridClock) : HybridClock :=
  match physical c ?= physical received with
  | Lt => mkClock (physical received) (u16_saturating_add (logical received) 1)
  | Eq => mkClock (physical c)
            (u16_saturating_add (Z.max (logical c) (logical received)) 1)
  | Gt => mkClock (physical c) (u16_saturating_add (logical c) 1)
  end.

Definition happens_before (c other : HybridClock) : bool :=
  (physical c <? physical other)
  || ((physical c =? physical other) && (logical c <? logical other)).

Definition concurrent_with (c other : HybridClock) : bool :=
  negb (happens_before c other) && negb (happens_before other c).

Definition HybridClock_cmp (c other : HybridClock) : comparison :=
  match physical c ?= physical other with
  | Eq => logical c ?= logical other
  | o => o
  end.

Definition HybridClock_to_bytes (c : HybridClock) : list Z :=
  drop 3 (to_be 8 (physical c)) ++ to_be 2 (logical c).

Definition HybridClock_from_bytes (b : list Z) : HybridClock :=
  mkClock (from_be (replicate 3 0 ++ take 5 b)) (from_be (drop 5 b)).

Definition MAX_PHYSICAL : Z := Z.shiftl 1 40 - 1.

(** ** Trust levels (trust.rs) *)

Inductive TrustLevel := Full | Sig | Compress | Raw.
#[export] Instance TrustLevel_eq_dec : EqDecision TrustLevel.
Proof. solve_decision. Defined.

Definition TrustLevel_from_u8 (v : Z) : TrustLevel :=
  match Z.land v 3 with 0 => Full | 1 => Sig | 2 => Compress | _ => Raw end.

Definition TrustLevel_to_u8 (t : TrustLevel) : Z :=
  match t with Full => 0 | Sig => 1 | Compress => 2 | Raw => 3 end.

Definition auth_overhead (t : TrustLevel) : Z :=
  match t with Full | Sig => 64 | Compress => 16 | Raw => 0 end.

Definition requires_verification (t : TrustLevel) : bool :=
  match t with Raw => false | _ => true end.

Definition uses_signature (t : TrustLevel) : bool :=
  match t with Full | Sig => true | _ => false end.

Definition upgrade_from (t : TrustLevel) : option TrustLevel :=
  match t with
  | Full => None | Sig => Some Full | Compress => Some Sig | Raw => Some Compress
  end.

Inductive TrustAction :=
  | Challenge | Response | ProposeUpgrade | AcceptUpgrade | Reject | Downgrade
  | KeyRotate.

Definition TrustAction_from_u8 (v : Z) : option TrustAction :=
  match v with
  | 0 => Some Challenge | 1 => Some Response | 2 => Some ProposeUpgrade
  | 3 => Some AcceptUpgrade | 4 => Some Reject | 5 => Some Downgrade
  | 6 => Some KeyRotate | _ => None
  end.

Definition TrustAction_to_u8 (a : TrustAction) : Z :=
  match a with
  | Challenge => 0 | Response => 1 | ProposeUpgrade => 2 | AcceptUpgrade => 3
  | Reject => 4 | Downgrade => 5 | KeyRotate => 6
  end.

Inductive TrustRejectReason :=
  | InvalidSignatureReason | ChallengeFailed | UnsupportedLevel | Unauthorized
  | SessionExpired | RateLimitedReason | VersionMismatchReason | OtherReason.

Definition TrustRejectReason_from_u8 (v : Z) : TrustRejectReason :=
  match v with
  | 0 => InvalidSignatureReason | 1 => ChallengeFailed | 2 => UnsupportedLevel
  | 3 => Unauthorized | 4 => SessionExpired | 5 => RateLimitedReason
  | 6 => VersionMismatchReason | _ => OtherReason
  end.

Definition TrustRejectReason_to_u8 (r : TrustRejectReason) : Z :=
  match r with
  | InvalidSignatureReason => 0 | ChallengeFailed => 1 | UnsupportedLevel => 2
  | Unauthorized => 3 | SessionExpired => 4 | RateLimitedReason => 5
  | VersionMismatchReason => 6 | OtherReason => 255
  end.

(** ** Frame types, priorities and flags (frame.rs) *)

Inductive FrameType :=
  | FIntent | FFulfill | FStream | FSync | FTrust | FRoute | FCompress | FBridge
  | FAnnounce | FFlow | FError | FFragment | FPing | FPong | FAck | FNack | FJoin
  | FLeave | FReserved (v : Z).
#[export] Instance FrameType_eq_dec : EqDecision FrameType.
Proof. solve_decision. Defined.

Definition FrameType_from_u8 (value : Z) : FrameType :=
  match value with
  | 0 => FIntent | 1 => FFulfill | 2 => FStream | 3 => FSync | 4 => FTrust
  | 5 => FRoute | 6 => FCompress | 7 => FBridge | 8 => FAnnounce | 9 => FFlow
  | 10 => FError | 11 => FFragment | 12 => FPing | 13 => FPong | 14 => FAck
  | 15 => FNack | 16 => FJoin | 17 => FLeave | v => FReserved v
  end.

Definition FrameType_to_u8 (t : FrameType) : Z :=
  match t with
  | FIntent => 0 | FFulfill => 1 | FStream => 2 | FSync => 3 | FTrust => 4
  | FRoute => 5 | FCompress => 6 | FBridge => 7 | FAnnounce => 8 | FFlow => 9
  | FError => 10 | FFragment => 11 | FPing => 12 | FPong => 13 | FAck => 14
  | FNack => 15 | FJoin => 16 | FLeave => 17 | FReserved v => v
  end.

Definition requires_intent_hash (t : FrameType) : bool :=
  match t with FIntent | FFulfill | FStream | FFlow => true | _ => false end.

Definition is_control (t : FrameType) : bool :=
  match t with
  | FSync | FTrust | FRoute | FCompress | FAnnounce | FFlow | FError | FPing | FPong
  | FAck | FNack | FJoin | FLeave => true
  | _ => false
  end.

Inductive Priority := Low | Normal | High | Critical.
#[export] Instance Priority_eq_dec : EqDecision Priority.
Proof. solve_decision. Defined.

Definition Priority_from_u8 (value : Z) : Priority :=
  match Z.land value 3 with 0 => Low | 1 => Normal | 2 => High | _ => Critical end.

Definition Priority_to_u8 (p : Priority) : Z :=
  match p with Low => 0 | Normal => 1 | High => 2 | Critical => 3 end.

Record FrameFlags := mkFlags { encrypted : bool; compressed : bool; fragmented : bool }.

Definition FrameFlags_default : FrameFlags := mkFlags false false false.

Definition FrameFlags_from_u8 (value : Z) : FrameFlags :=
  mkFlags (negb (Z.land value 1 =? 0)) (negb (Z.land value 2 =? 0))
    (negb (Z.land value 4 =? 0)).

Definition FrameFlags_to_u8 (f : FrameFlags) : Z :=
  let value := 0 in
  let value := if encrypted f then Z.lor value 1 else value in
  let value := if compressed f then Z.lor value 2 else value in
  if fragmented f then Z.lor value 4 else value.

Record FragmentInfo := mkFragInfo { sequence : Z; total : Z }.

Definition is_first (i : FragmentInfo) : bool := sequence i =? 0.
(** [sequence + 1] on [u16] panics at 65535 in a build with overflow checks;
    release builds wrap. *)
Definition is_last (i : FragmentInfo) : bool :=
  (sequence i + 1) mod 2 ^ 16 =? total i.

Record RoutingExt := mkRouting { destination : NodeId; ttl : Z }.

(** ** Payload types (payload.rs) *)

Inductive PayloadType :=
  | PRaw | PTensor | PEmbed | PDelta | PIntentDesc | PGraph | PLegacy | PDictRef
  | PKv | PError | PTrust | PRoute | PFlow | PReserved (v : Z).
#[export] Instance PayloadType_eq_dec : EqDecision PayloadType.
Proof. solve_decision. Defined.

Definition PayloadType_from_u8 (value : Z) : PayloadType :=
  match Z.land value 15 with
  | 0 => PRaw | 1 => PTensor | 2 => PEmbed | 3 => PDelta | 4 => PIntentDesc
  | 5 => PGraph | 6 => PLegacy | 7 => PDictRef | 8 => PKv | 9 => PError
  | 10 => PTrust | 11 => PRoute | 12 => PFlow | v => PReserved v
  end.

Definition PayloadType_to_u8 (t : PayloadType) : Z :=
  match t with
  | PRaw => 0 | PTensor => 1 | PEmbed => 2 | PDelta => 3 | PIntentDesc => 4
  | PGraph => 5 | PLegacy => 6 | PDictRef => 7 | PKv => 8 | PError => 9
  | PTrust => 10 | PRoute => 11 | PFlow => 12 | PReserved v => v
  end.

Inductive DType :=
  | F16 | F32 | F64 | BF16 | I8 | I16 | I32 | I64 | U8 | U16 | U32 | U64
  | DBool | Complex64 | Complex128.

Definition DType_from_u8 (value : Z) : option DType :=
  match value with
  | 0 => Some F16 | 1 => Some F32 | 2 => Some F64 | 3 => Some BF16 | 4 => Some I8
  | 5 => Some I16 | 6 => Some I32 | 7 => Some I64 | 8 => Some U8 | 9 => Some U16
  | 10 => Some U32 | 11 => Some U64 | 12 => Some DBool | 13 => Some Complex64
  | 14 => Some Complex128 | _ => None
  end.

Definition DType_to_u8 (d : DType) : Z :=
  match d with
  | F16 => 0 | F32 => 1 | F64 => 2 | BF16 => 3 | I8 => 4 | I16 => 5 | I32 => 6
  | I64 => 7 | U8 => 8 | U16 => 9 | U32 => 10 | U64 => 11 | DBool => 12
  | Complex64 => 13 | Complex128 => 14
  end.

Definition element_size (d : DType) : Z :=
  match d with
  | F16 | BF16 | I16 | U16 => 2
  | F32 | I32 | U32 => 4
  | F64 | I64 | U64 | Complex64 => 8
  | I8 | U8 | DBool => 1
  | Complex128 => 16
  end.

Definition is_float (d : DType) : bool :=
  match d with F16 | F32 | F64 | BF16 => true | _ => false end.
Definition is_signed_int (d : DType) : bool :=
  match d with I8 | I16 | I32 | I64 => true | _ => false end.
Definition is_unsigned_int (d : DType) : bool :=
  match d with U8 | U16 | U32 | U64 => true | _ => false end.

Record TensorPayload := mkTensor {
  ndim : Z; tensor_dtype : DType; shape : list Z; tensor_data : list Z
}.

Definition TensorPayload_new (dtype : DType) (shape data : list Z) : TensorPayload :=
  mkTensor (len shape mod 256) dtype shape data.

(** [usize] products of a release build (64 bits) wrap. *)
Definition num_elements (t : TensorPayload) : Z :=
  fold_left u64_mul (shape t) 1.

Definition expected_data_size (t : TensorPayload) : Z :=
  u64_mul (num_elements t) (element_size (tensor_dtype t)).

Definition TensorPayload_is_valid (t : TensorPayload) : bool :=
  len (tensor_data t) =? expected_data_size t.

Definition TensorPayload_vector (dtype : DType) (data : list Z) : TensorPayload :=
  mkTensor 1 dtype [(len data / element_size dtype) mod 2 ^ 32] data.

Definition TensorPayload_matrix (dtype : DType) (rows cols : Z) (data : list Z)
  : TensorPayload := mkTensor 2 dtype [rows; cols] data.

Record EmbeddingPayload := mkEmbedding {
  dim : Z; embedding_dtype : DType; model_hash : Z; embedding_data : list Z
}.

Definition EmbeddingPayload_new (dim : Z) (dtype : DType) (data : list Z) :=
  mkEmbedding dim dtype 0 data.

Definition EmbeddingPayload_with_model_hash (e : EmbeddingPayload) (hash : Z) :=
  mkEmbedding (dim e) (embedding_dtype e) hash (embedding_data e).

Definition EmbeddingPayload_is_valid (e : EmbeddingPayload) : bool :=
  len (embedding_data e) =? dim e * element_size (embedding_dtype e).

Inductive LegacyProtocol := TcpRaw | Http1 | Http2 | Grpc | WebSocket | Mqtt | Amqp.

Definition LegacyProtocol_from_u8 (value : Z) : option LegacyProtocol :=
  match value with
  | 0 => Some TcpRaw | 1 => Some Http1 | 2 => Some Http2 | 3 => Some Grpc
  | 4 => Some WebSocket | 5 => Some Mqtt | 6 => Some Amqp | _ => None
  end.

Definition LegacyProtocol_to_u8 (p : LegacyProtocol) : Z :=
  match p with
  | TcpRaw => 0 | Http1 => 1 | Http2 => 2 | Grpc => 3 | WebSocket => 4 | Mqtt => 5
  | Amqp => 6
  end.

Inductive DeltaEncoding := Xor | Sparse | Quantized | Custom.

Definition DeltaEncoding_from_u8 (value : Z) : option DeltaEncoding :=
  match value with
  | 0 => Some Xor | 1 => Some Sparse | 2 => Some Quantized | 3 => Some Custom
  | _ => None
  end.

Definition DeltaEncoding_to_u8 (e : DeltaEncoding) : Z :=
  match e with Xor => 0 | Sparse => 1 | Quantized => 2 | Custom => 3 end.

(** ** Errors (error.rs) *)

Inductive ErrorSeverity := Info | Warn | SevError | Fatal.
#[export] Instance ErrorSeverity_eq_dec : EqDecision ErrorSeverity.
Proof. solve_decision. Defined.

Definition ErrorSeverity_from_u8 (value : Z) : ErrorSeverity :=
  match Z.land value 3 with 0 => Info | 1 => Warn | 2 => SevError | _ => Fatal end.

Definition ErrorSeverity_to_u8 (s : ErrorSeverity) : Z :=
  match s with Info => 0 | Warn => 1 | SevError => 2 | Fatal => 3 end.

Inductive ErrorCategory :=
  | Unknown | CapabilityUnavailable | CapabilityOverloaded | TrustDenied
  | TrustExpired | ClockSkew | PayloadMalformed | CatPayloadTooLarge
  | ResourceExhausted | IntentTimeout | RouteUnreachable | VersionMismatch
  | CompressionFailed | FragmentError | FlowViolation | Internal.

Definition ErrorCategory_from_u8 (value : Z) : ErrorCategory :=
  match value with
  | 0 => Unknown | 1 => CapabilityUnavailable | 2 => CapabilityOverloaded
  | 3 => TrustDenied | 4 => TrustExpired | 5 => ClockSkew | 6 => PayloadMalformed
  | 7 => CatPayloadTooLarge | 8 => ResourceExhausted | 9 => IntentTimeout
  | 10 => RouteUnreachable | 11 => VersionMismatch | 12 => CompressionFailed
  | 13 => FragmentError | 14 => FlowViolation | 255 => Internal | _ => Unknown
  end.

Definition ErrorCategory_to_u8 (c : ErrorCategory) : Z :=
  match c with
  | Unknown => 0 | CapabilityUnavailable => 1 | CapabilityOverloaded => 2
  | TrustDenied => 3 | TrustExpired => 4 | ClockSkew => 5 | PayloadMalformed => 6
  | CatPayloadTooLarge => 7 | ResourceExhausted => 8 | IntentTimeout => 9
  | RouteUnreachable => 10 | VersionMismatch => 11 | CompressionFailed => 12
  | FragmentError => 13 | FlowViolation => 14 | Internal => 255
  end.

Definition default_severity (c : ErrorCategory) : ErrorSeverity :=
  match c with
  | Unknown => SevError | CapabilityUnavailable => SevError
  | CapabilityOverloaded => Warn | TrustDenied => SevError | TrustExpired => Warn
  | ClockSkew => Warn | PayloadMalformed => SevError | CatPayloadTooLarge => SevError
  | ResourceExhausted => Warn | IntentTimeout => Warn | RouteUnreachable => SevError
  | VersionMismatch => Fatal | CompressionFailed => SevError
  | FragmentError => SevError | FlowViolation => Warn | Internal => Fatal
  end.

Inductive CodecError :=
  | InvalidMagic
  | UnsupportedVersion (v : Z)
  | BufferTooSmall (needed have : Z)
  | InvalidFrameType (v : Z)
  | InvalidPayloadType (v : Z)
  | PayloadTooLarge (n : Z)
  | InvalidSignature
  | InvalidToken
  | TruncatedFrame
  | InvalidUtf8
  | InvalidDType (v : Z).

(** ** Frames (frame.rs) *)

Record FrameHeader := mkHeader {
  version : Z;
  frame_type : FrameType;
  flags : FrameFlags;
  trust_level : TrustLevel;
  priority : Priority;
  clock : HybridClock;
  intent_hash : IntentHash;
  sender_id : NodeId
}.

Definition FrameHeader_new (ft : FrameType) (sender : NodeId) : FrameHeader :=
  mkHeader PROTOCOL_VERSION ft FrameFlags_default Full Normal HybridClock_zero
    IntentHash_zero sender.

Definition FrameHeader_default : FrameHeader :=
  mkHeader PROTOCOL_VERSION FIntent FrameFlags_default Full Normal HybridClock_zero
    IntentHash_zero NodeId_zero.

Definition with_trust_level (h : FrameHeader) (t : TrustLevel) : FrameHeader :=
  mkHeader (version h) (frame_type h) (flags h) t (priority h) (clock h)
    (intent_hash h) (sender_id h).

Definition with_flags (h : FrameHeader) (f : FrameFlags) : FrameHeader :=
  mkHeader (version h) (frame_type h) f (trust_level h) (priority h) (clock h)
    (intent_hash h) (sender_id h).

Definition header_with_priority (h : FrameHeader) (p : Priority) : FrameHeader :=
  mkHeader (version h) (frame_type h) (flags h) (trust_level h) p (clock h) (intent_hash h) (sender_id h).

Definition with_intent (h : FrameHeader) (i : IntentHash) : FrameHeader :=
  mkHeader (version h) (frame_type h) (flags h) (trust_level h) (priority h) (clock h) i (sender_id h).

Definition with_clock (h : FrameHeader) (c : HybridClock) : FrameHeader :=
  mkHeader (version h) (frame_type h) (flags h) (trust_level h) (priority h) c (intent_hash h) (sender_id h).

Definition set_fragmented (h : FrameHeader) (b : bool) : FrameHeader :=
  with_flags h (mkFlags (encrypted (flags h)) (compressed (flags h)) b).

Record PayloadHeader := mkPayloadHeader {
  payload_type : PayloadType; ph_length : Z; ph_flags : Z
}.

Definition PayloadHeader_new (t : PayloadType) (n : Z) : PayloadHeader :=
  mkPayloadHeader t n 0.

Definition has_trace_id (p : PayloadHeader) : bool := negb (Z.land (ph_flags p) 1 =? 0).

Definition PayloadHeader_with_trace_id (p : PayloadHeader) : PayloadHeader :=
  mkPayloadHeader (payload_type p) (ph_length p) (Z.lor (ph_flags p) 1).

Inductive Authentication :=
  | AuthSignature (s : Signature)
  | AuthToken (t : SessionToken)
  | AuthNone.

Definition Authentication_wire_size (a : Authentication) : Z :=
  match a with
  | AuthSignature _ => SIGNATURE_SIZE
  | AuthToken _ => SESSION_TOKEN_SIZE
  | AuthNone => 0
  end.

Record Frame := mkFrame {
  header : FrameHeader;
  trace_id : option TraceId;
  routing : option RoutingExt;
  fragment_info : option FragmentInfo;
  payload_header : PayloadHeader;
  payload : list Z;
  auth : Authentication
}.

Definition default_auth (t : TrustLevel) : Authentication :=
  match t with
  | Full | Sig => AuthSignature Signature_zero
  | Compress => AuthToken SessionToken_zero
  | Raw => AuthNone
  end.

Definition Frame_new (h : FrameHeader) (pt : PayloadType) (p : list Z) : Frame :=
  mkFrame h None None None (PayloadHeader_new pt (len p mod 2 ^ 32)) p
    (default_auth (trust_level h)).

Definition with_routing (f : Frame) (dest : NodeId) (t : Z) : Frame :=
  mkFrame (header f) (trace_id f) (Some (mkRouting dest t)) (fragment_info f)
    (payload_header f) (payload f) (auth f).

Definition Frame_with_trace_id (f : Frame) (t : TraceId) : Frame :=
  mkFrame (header f) (Some t) (routing f) (fragment_info f)
    (PayloadHeader_with_trace_id (payload_header f)) (payload f) (auth f).

Definition with_fragment_info (f : Frame) (i : FragmentInfo) : Frame :=
  mkFrame (set_fragmented (header f) true) (trace_id f) (routing f) (Some i)
    (payload_header f) (payload f) (auth f).

Definition is_some {A} (o : option A) : bool :=
  match o with Some _ => true | None => false end.

Definition wire_size (f : Frame) : Z :=
  let size := FIXED_HEADER_SIZE in
  let size := if is_some (trace_id f) then size + TRACE_ID_SIZE else size in
  let size := if is_some (routing f) then size + ROUTING_EXT_SIZE else size in
  let size := if is_some (fragment_info f) then size + 4 else size in
  let size := size + 4 in
  let size := size + len (payload f) in
  size + Authentication_wire_size (auth f).

(** ** Type invariants *)

(** What the field types of [FrameHeader] say of their values. *)
Definition header_ok (h : FrameHeader) : Prop :=
  0 ≤ version h < 256 ∧ 0 ≤ FrameType_to_u8 (frame_type h) < 256 ∧
  clock_ok (clock h) ∧ array_ok 16 (intent_hash h) ∧ array_ok 32 (sender_id h).

Definition auth_ok (a : Authentication) : Prop :=
  match a with
  | AuthSignature s => array_ok 64 s
  | AuthToken t => array_ok 16 t
  | AuthNone => True
  end.

Definition routing_ok (r : RoutingExt) : Prop :=
  array_ok 32 (destination r) ∧ 0 ≤ ttl r < 256.

Definition fragment_info_ok (i : FragmentInfo) : Prop :=
  0 ≤ sequence i < 2 ^ 16 ∧ 0 ≤ total i < 2 ^ 16.

Definition option_ok {A} (P : A → Prop) (o : option A) : Prop :=
  match o with Some a => P a | None => True end.

(** The values the field types of [Frame] admit. *)
Record frame_ok (f : Frame) : Prop := {
  ok_header : header_ok (header f);
  ok_trace : option_ok (array_ok 8) (trace_id f);
  ok_routing : option_ok routing_ok (routing f);
  ok_fragment : option_ok fragment_info_ok (fragment_info f);
  ok_ptype : 0 ≤ PayloadType_to_u8 (payload_type (payload_header f)) < 256;
  ok_plen : 0 ≤ ph_length (payload_header f) < 2 ^ 32;
  ok_pflags : 0 ≤ ph_flags (payload_header f) < 256;
  ok_payload : bytes_ok (payload f);
  ok_auth : auth_ok (auth f)
}.

(** ** Lemmas *)

Lemma default_auth_ok t : auth_ok (default_auth t).
Proof.
  destruct t; [apply (array_ok_replicate 64)|apply (array_ok_replicate 64)|
    apply (array_ok_replicate 16)|done]; lia.
Qed.

Lemma FrameType_to_from v : 0 ≤ v < 256 → FrameType_to_u8 (FrameType_from_u8 v) = v.
Proof. revert v. by_enumeration 256%nat. Qed.

Lemma FrameType_from_to t :
  (∀ v, t = FReserved v → 18 ≤ v) → FrameType_from_u8 (FrameType_to_u8 t) = t.
Proof.
  destruct t as [| | | | | | | | | | | | | | | | | |v]; try reflexivity.
  intros H. specialize (H v eq_refl). simpl.
  destruct v as [|p|p]; try lia.
  do 5 (destruct p as [p|p|]; try reflexivity; try lia).
Qed.

Lemma PayloadType_to_from v : 0 ≤ v < 16 → PayloadType_to_u8 (PayloadType_from_u8 v) = v.
Proof. revert v. by_enumeration 16%nat. Qed.

Lemma TrustLevel_from_to t : TrustLevel_from_u8 (TrustLevel_to_u8 t) = t.
Proof. by destruct t. Qed.

Lemma Priority_from_to p : Priority_from_u8 (Priority_to_u8 p) = p.
Proof. by destruct p. Qed.

Lemma FrameFlags_from_to f : FrameFlags_from_u8 (FrameFlags_to_u8 f) = f.
Proof. by destruct f as [[] [] []]. Qed.

Lemma len_clock_bytes c : len (HybridClock_to_bytes c) = 7.
Proof. unfold HybridClock_to_bytes. by autorewrite with len. Qed.
#[export] Hint Rewrite len_clock_bytes : len.

Lemma clock_bytes_ok c : bytes_ok (HybridClock_to_bytes c).
Proof. apply Forall_app. auto with axiom. Qed.
#[export] Hint Resolve clock_bytes_ok : axiom.

Lemma to_be_split (n m : nat) z :
  to_be (n + m) z = to_be n (z / 2 ^ (8 * Z.of_nat m)) ++ to_be m z.
Proof.
  induction n as [|n IH]; [done|]. simpl to_be. rewrite IH. simpl. f_equal.
  rewrite Z.div_div by lia. rewrite <- Z.pow_add_r by lia. repeat f_equal. lia.
Qed.

Lemma clock_to_bytes_be c :
  HybridClock_to_bytes c = to_be 5 (physical c) ++ to_be 2 (logical c).
Proof. unfold HybridClock_to_bytes. by rewrite (to_be_split 3 5). Qed.

Lemma from_be_zeros n l : from_be (replicate n 0 ++ l) = from_be l.
Proof. induction n as [|n IH]; [done|]. simpl. by rewrite from_be_cons, IH. Qed.

Lemma clock_from_to_bytes c :
  HybridClock_from_bytes (HybridClock_to_bytes c)
  = mkClock (physical c mod 2 ^ 40) (logical c mod 2 ^ 16).
Proof.
  rewrite clock_to_bytes_be. unfold HybridClock_from_bytes.
  rewrite from_be_zeros, take_app_exact, drop_app_exact by (by rewrite len_to_be).
  by rewrite !from_be_to_be_mod.
Qed.

Lemma clock_to_from_bytes b :
  array_ok 7 b → HybridClock_to_bytes (HybridClock_from_bytes b) = b.
Proof.
  intros [Hl Hb]. rewrite clock_to_bytes_be. unfold HybridClock_from_bytes.
  cbn [physical logical]. rewrite from_be_zeros.
  assert (to_be 5 (from_be (take 5 b)) = take 5 b) as ->.
  { rewrite <- (to_be_from_be (take 5 b)) at 2 by auto with axiom.
    by rewrite length_take, Hl. }
  assert (to_be 2 (from_be (drop 5 b)) = drop 5 b) as ->.
  { rewrite <- (to_be_from_be (drop 5 b)) at 2 by auto with axiom.
    by rewrite length_drop, Hl. }
  apply take_drop.
Qed.

Lemma clock_from_bytes_ok b :
  array_ok 7 b →
  clock_ok (HybridClock_from_bytes b) ∧ physical (HybridClock_from_bytes b) ≤ MAX_PHYSICAL.
Proof.
  intros [Hl Hb]. unfold clock_ok, HybridClock_from_bytes. cbn [physical logical].
  rewrite from_be_zeros. change MAX_PHYSICAL with (2 ^ 40 - 1).
  pose proof (from_be_bound (take 5 b) (bytes_ok_take _ _ Hb)) as H1.
  pose proof (from_be_bound (drop 5 b) (bytes_ok_drop _ _ Hb)) as H2.
  unfold len in H1, H2. rewrite length_take, Hl in H1. rewrite length_drop, Hl in H2.
  simpl Z.of_nat in H1, H2. lia.
Qed.

Lemma happens_before_cmp a b : happens_before a b = true ↔ HybridClock_cmp a b = Lt.
Proof.
  unfold happens_before, HybridClock_cmp.
  destruct (Z.compare_spec (physical a) (physical b)) as [E|E|E];
    destruct (Z.compare_spec (logical a) (logical b)) as [F|F|F]; split; intros; try done; lia.
Qed.

Lemma happens_before_spec a b :
  happens_before a b = true ↔
  physical a < physical b ∨ (physical a = physical b ∧ logical a < logical b).
Proof. unfold happens_before. lia. Qed.

Lemma num_elements_acc l a :
  0 ≤ a → Forall (λ d, 0 ≤ d) l →
  a * fold_right Z.mul 1 l < 2 ^ 64 → Forall (λ d, 0 < d) l →
  fold_left u64_mul l a = a * fold_right Z.mul 1 l.
Proof.
  revert a. induction l as [|d l IH]; intros a Ha Hl Hb Hp; simpl in *; [lia|].
  apply Forall_cons in Hl as [Hd Hl]. apply Forall_cons in Hp as [Hd' Hp].
  assert (1 ≤ fold_right Z.mul 1 l).
  { clear -Hp. induction Hp; simpl; nia. }
  assert (u64_mul a d = a * d) as ->.
  { unfold u64_mul. apply Z.mod_small. split; nia. }
  rewrite IH; [ring | nia | done | nia | done].
Qed.

(** ** Properties *)

(** Every wire code of the protocol enumerations decodes to the value it
    encodes: trust levels, trust actions, rejection reasons, priorities, frame
    flags, data types, legacy protocols, delta encodings, error severities and
    error categories; frame and payload types do so for every unreserved value
    and for the reserved codes of their fields. *)
Theorem wire_codes_roundtrip :
  (∀ t, TrustLevel_from_u8 (TrustLevel_to_u8 t) = t) ∧
  (∀ a, TrustAction_from_u8 (TrustAction_to_u8 a) = Some a) ∧
  (∀ r, TrustRejectReason_from_u8 (TrustRejectReason_to_u8 r) = r) ∧
  (∀ p, Priority_from_u8 (Priority_to_u8 p) = p) ∧
  (∀ f, FrameFlags_from_u8 (FrameFlags_to_u8 f) = f) ∧
  (∀ d, DType_from_u8 (DType_to_u8 d) = Some d) ∧
  (∀ p, LegacyProtocol_from_u8 (LegacyProtocol_to_u8 p) = Some p) ∧
  (∀ e, DeltaEncoding_from_u8 (DeltaEncoding_to_u8 e) = Some e) ∧
  (∀ s, ErrorSeverity_from_u8 (ErrorSeverity_to_u8 s) = s) ∧
  (∀ c, ErrorCategory_from_u8 (ErrorCategory_to_u8 c) = c) ∧
  (∀ v, 0 ≤ v < 256 → FrameType_to_u8 (FrameType_from_u8 v) = v) ∧
  (∀ v, 0 ≤ v < 16 → PayloadType_to_u8 (PayloadType_from_u8 v) = v).
Proof.
  split_and!; try (intros []; reflexivity).
  - apply FrameFlags_from_to.
  - apply FrameType_to_from.
  - apply PayloadType_to_from.
Qed.

(** The 7-byte wire form of a clock keeps the logical counter and the low
    40 bits of the physical time, so clocks up to [MAX_PHYSICAL] survive a
    round trip, and every 7-byte string is the encoding of the clock it decodes
    to. *)
Theorem clock_wire_roundtrip :
  (∀ c, clock_ok c → physical c ≤ MAX_PHYSICAL →
     HybridClock_from_bytes (HybridClock_to_bytes c) = c) ∧
  (∀ c, clock_ok c → MAX_PHYSICAL < physical c →
     HybridClock_from_bytes (HybridClock_to_bytes c) ≠ c) ∧
  (∀ b, array_ok 7 b → HybridClock_to_bytes (HybridClock_from_bytes b) = b).
Proof.
  change MAX_PHYSICAL with (2 ^ 40 - 1). split_and!.
  - intros [p l] [Hp Hl] Hmax. rewrite clock_from_to_bytes. simpl in *.
    by rewrite !Z.mod_small by lia.
  - intros [p l] [Hp Hl] Hmax. rewrite clock_from_to_bytes. simpl in *.
    intros [= Heq _]. pose proof (Z.mod_pos_bound p (2 ^ 40)). lia.
  - apply clock_to_from_bytes.
Qed.

Lemma clock_wire_roundtrip_witness :
  HybridClock_from_bytes (HybridClock_to_bytes (mkClock 1700000000 7))
  = mkClock 1700000000 7.
Proof.
  apply (proj1 clock_wire_roundtrip); [|vm_compute; discriminate].
  unfold clock_ok. simpl. lia.
Defined.

(** Causality of the hybrid clock.  Below saturation of the 16-bit counter a
    tick and an update strictly advance the local clock, and an update also
    moves past the received clock; at saturation a tick is the identity; and
    [happens_before] is a strict order whose incomparable elements are equal. *)
Theorem clock_causality :
  (∀ c, clock_ok c → logical c < 65535 → happens_before c (HybridClock_tick c) = true) ∧
  (∀ c, logical c = 65535 → HybridClock_tick c = c) ∧
  (∀ c r, clock_ok c → clock_ok r → logical c < 65535 → logical r < 65535 →
     happens_before c (HybridClock_update c r) = true ∧
     happens_before r (HybridClock_update c r) = true ∧
     clock_ok (HybridClock_update c r)) ∧
  (∀ c d e, happens_before c d = true → happens_before d e = true →
     happens_before c e = true) ∧
  (∀ c, happens_before c c = false) ∧
  (∀ c d, concurrent_with c d = true ↔ c = d).
Proof.
  split_and!.
  - intros c [_ Hl] Hs. apply happens_before_spec. unfold HybridClock_tick,
      u16_saturating_add. simpl. lia.
  - intros [p l] Hl. simpl in Hl. subst. reflexivity.
  - intros c r [Hp Hl] [Hp' Hl'] Hs Hs'. unfold clock_ok. rewrite !happens_before_spec.
    unfold HybridClock_update, u16_saturating_add.
    destruct (Z.compare_spec (physical c) (physical r)); simpl; lia.
  - intros c d e. rewrite !happens_before_spec. lia.
  - intros c. unfold happens_before. lia.
  - intros [p l] [p' l']. unfold concurrent_with, happens_before. simpl. split.
    + intros H. assert (p = p' ∧ l = l') as [-> ->] by lia. done.
    + intros [= -> ->]. lia.
Qed.

Lemma clock_causality_witness :
  happens_before (mkClock 5 3) (HybridClock_update (mkClock 5 3) (mkClock 5 9)) = true.
Proof.
  apply (proj1 (proj2 (proj2 clock_causality))); unfold clock_ok; simpl; lia.
Defined.

(** [TensorPayload::is_valid] is exact while the shape's byte count fits in
    a [usize]; once the product wraps, an impossible shape with no data at all
    is accepted. *)
Theorem tensor_validity :
  (∀ t, Forall (λ d, 0 < d) (shape t) →
     fold_right Z.mul 1 (shape t) * element_size (tensor_dtype t) < 2 ^ 64 →
     TensorPayload_is_valid t = true ↔
     len (tensor_data t) = fold_right Z.mul 1 (shape t) * element_size (tensor_dtype t)) ∧
  TensorPayload_is_valid
    (TensorPayload_new F32 [65536; 65536; 65536; 65536] []) = true.
Proof.
  split; [|reflexivity].
  intros [n d sh data] Hpos Hsz. unfold TensorPayload_is_valid, expected_data_size,
    num_elements. simpl in *.
  assert (1 ≤ fold_right Z.mul 1 sh) by (clear -Hpos; induction Hpos; simpl; nia).
  assert (1 ≤ element_size d) by (by destruct d).
  rewrite num_elements_acc; [|lia| |nia|done].
  - rewrite Z.mul_1_l. unfold u64_mul. rewrite Z.mod_small by nia. lia.
  - eapply Forall_impl; [exact Hpos|]. simpl. lia.
Qed.

Lemma tensor_validity_witness :
  TensorPayload_is_valid (TensorPayload_new U8 [2; 3] [1; 2; 3; 4; 5; 6]) = true.
Proof.
  apply (proj1 tensor_validity); [|reflexivity|reflexivity].
  apply Forall_cons; split; [lia|]. apply Forall_cons; split; [lia|]. by apply Forall_nil.
Defined.
