(* ===== verification/Codec.v ===== *)
(** * The frame codec (crate axiom-codec)

    [Encoder::encode] writes a frame in place into a caller's buffer and
    [Decoder::decode] parses a received buffer.  Both are modelled with the
    source's offsets, slices and early returns; an out-of-range slice is
    [Panic].  [wire] is the specification: the bytes of a frame as one
    concatenation.  The theorems relate the three: encoding refines [wire] and
    leaves the rest of the buffer alone, decoding inverts it, decoding is total
    on arbitrary input, and the signed bytes determine the frame. *)

From stdpp Require Import base numbers list.
From S2P Require Import Prelude Types.

Definition MIN_FRAME_SIZE : Z := FIXED_HEADER_SIZE + 4.

Abbreviation CodecResult A := (outcome CodecError A).

(** ** Encoder (encoder.rs) *)

Definition encode_fixed_header (h : FrameHeader) (has_trace_id has_routing : bool)
    (buffer : list Z) : CodecResult (list Z * Z) :=
  if len buffer <? FIXED_HEADER_SIZE
  then Err (BufferTooSmall FIXED_HEADER_SIZE (len buffer))
  else
    let byte0 := Z.lor (Z.lor (u8_shl MAGIC 6) (u8_shl (Z.land (version h) 15) 2))
                   (Z.land (Z.shiftr (FrameType_to_u8 (frame_type h)) 3) 3) in
    let byte1 := Z.lor (Z.lor (u8_shl (Z.land (FrameType_to_u8 (frame_type h)) 7) 5)
                          (u8_shl (Z.land (FrameFlags_to_u8 (flags h)) 7) 2))
                   (Z.land (TrustLevel_to_u8 (trust_level h)) 3) in
    let trace_flag := if has_trace_id then 32 else 0 in
    let routing_flag := if has_routing then 16 else 0 in
    let byte2 := Z.lor (Z.lor (u8_shl (Z.land (Priority_to_u8 (priority h)) 3) 6)
                          trace_flag) routing_flag in
    b ← copy_at buffer 0 [byte0];
    b ← copy_at b 1 [byte1];
    b ← copy_at b 2 [byte2];
    b ← copy_at b 3 (HybridClock_to_bytes (clock h));
    b ← copy_at b 10 (intent_hash h);
    b ← copy_at b 26 (sender_id h);
    Ok (b, FIXED_HEADER_SIZE).

Definition encode_payload_header (pt : PayloadType) (length flags : Z)
    (buffer : list Z) : CodecResult (list Z * Z) :=
  if len buffer <? 4 then Err (BufferTooSmall 4 (len buffer))
  else
    let type_and_len_high :=
      Z.lor (u8_shl (Z.land (PayloadType_to_u8 pt) 15) 4)
        (Z.land (Z.shiftr length 20 mod 256) 15) in
    let len_mid := Z.land (Z.shiftr length 12) 255 mod 256 in
    let len_low_and_flags_high := Z.land (Z.shiftr length 4) 255 mod 256 in
    let len_lowest_and_flags :=
      Z.lor (Z.shiftl (Z.land length 15) 4) (Z.land flags 15) mod 256 in
    b ← copy_at buffer 0 [type_and_len_high];
    b ← copy_at b 1 [len_mid];
    b ← copy_at b 2 [len_low_and_flags_high];
    b ← copy_at b 3 [len_lowest_and_flags];
    Ok (b, 4).

Definition encode_auth (a : Authentication) (buffer : list Z)
    : CodecResult (list Z * Z) :=
  match a with
  | AuthSignature sig =>
      if len buffer <? 64 then Err (BufferTooSmall 64 (len buffer))
      else b ← copy_at buffer 0 sig; Ok (b, 64)
  | AuthToken token =>
      if len buffer <? 16 then Err (BufferTooSmall 16 (len buffer))
      else b ← copy_at buffer 0 token; Ok (b, 16)
  | AuthNone => Ok (buffer, 0)
  end.

(** The optional extensions between the fixed header and the payload header. *)
Definition encode_extensions (f : Frame) (buffer : list Z) (offset : Z)
    : CodecResult (list Z * Z) :=
  '(b, offset) ← match trace_id f with
    | Some t => b ← copy_at buffer offset t; Ok (b, offset + TRACE_ID_SIZE)
    | None => Ok (buffer, offset)
    end;
  '(b, offset) ← match routing f with
    | Some r =>
        b ← copy_at b offset (destination r);
        let offset := offset + NODE_ID_SIZE in
        b ← copy_at b offset [ttl r];
        Ok (b, offset + 1)
    | None => Ok (b, offset)
    end;
  match fragment_info f with
  | Some i =>
      b ← copy_at b offset (to_be 2 (sequence i));
      b ← copy_at b (offset + 2) (to_be 2 (total i));
      Ok (b, offset + 4)
  | None => Ok (b, offset)
  end.

Definition encode (f : Frame) (buffer : list Z) : CodecResult (list Z * Z) :=
  let required_size := wire_size f in
  if len buffer <? required_size then Err (BufferTooSmall required_size (len buffer))
  else if MAX_PAYLOAD_SIZE <? len (payload f)
  then Err (PayloadTooLarge (len (payload f)))
  else
    let offset := 0 in
    let has_trace_id := is_some (trace_id f) in
    let has_routing := is_some (routing f) in
    '(b, n) ← on_tail buffer offset
                (encode_fixed_header (header f) has_trace_id has_routing);
    let offset := offset + n in
    '(b, offset) ← encode_extensions f b offset;
    '(b, n) ← on_tail b offset
                (encode_payload_header (payload_type (payload_header f))
                   (len (payload f) mod 2 ^ 32) (ph_flags (payload_header f)));
    let offset := offset + n in
    b ← copy_at b offset (payload f);
    let offset := offset + len (payload f) in
    '(b, n) ← on_tail b offset (encode_auth (auth f));
    Ok (b, offset + n).

Definition set_ttl (t : Z) (f : Frame) : Frame :=
  match routing f with
  | Some r =>
      mkFrame (header f) (trace_id f) (Some (mkRouting (destination r) t))
        (fragment_info f) (payload_header f) (payload f) (auth f)
  | None => f
  end.

(** The bytes a signature covers.  [encode]'s result is discarded: on an error
    the buffer keeps its zeroes. *)
Definition signature_data (f : Frame) : list Z :=
  let canonical := set_ttl 0 f in
  let auth_size := Authentication_wire_size (auth canonical) in
  let total_size := wire_size canonical in
  let data_size := total_size - auth_size in
  let buffer := replicate (Z.to_nat total_size) 0 in
  let buffer := match encode canonical buffer with Ok (b, _) => b | _ => buffer end in
  take (Z.to_nat data_size) buffer.

(** [axiom_codec::wire_size]: the size of a frame described by its features. *)
Definition codec_wire_size (payload_len : Z) (t : TrustLevel)
    (has_trace_id is_fragmented : bool) : Z :=
  let size := FIXED_HEADER_SIZE in
  let size := if has_trace_id then size + TRACE_ID_SIZE else size in
  let size := if is_fragmented then size + 4 else size in
  size + 4 + payload_len + auth_overhead t.

(** ** Decoder (decoder.rs) *)

Record DecodedFrame := mkDecoded {
  d_header : FrameHeader;
  d_trace_id : option TraceId;
  d_routing : option RoutingExt;
  d_fragment_info : option FragmentInfo;
  d_payload_header : PayloadHeader;
  d_payload : list Z;
  d_auth : Authentication
}.

Definition decode_fixed_header (buffer : list Z)
    : CodecResult (FrameHeader * bool * bool) :=
  byte0 ← index buffer 0;
  byte1 ← index buffer 1;
  byte2 ← index buffer 2;
  let magic := Z.shiftr byte0 6 in
  if negb (magic =? MAGIC) then Err InvalidMagic
  else
    let version := Z.land (Z.shiftr byte0 2) 15 in
    if negb (version =? PROTOCOL_VERSION) then Err (UnsupportedVersion version)
    else
      let frame_type_raw :=
        Z.lor (u8_shl (Z.land byte0 3) 3) (Z.land (Z.shiftr byte1 5) 7) in
      let frame_type := FrameType_from_u8 frame_type_raw in
      let flags := FrameFlags_from_u8 (Z.land (Z.shiftr byte1 2) 7) in
      let trust_level := TrustLevel_from_u8 (Z.land byte1 3) in
      let priority := Priority_from_u8 (Z.shiftr byte2 6) in
      let has_trace_id := negb (Z.land byte2 32 =? 0) in
      let has_routing := negb (Z.land byte2 16 =? 0) in
      clock_bytes ← slice buffer 3 (3 + CLOCK_SIZE);
      intent_bytes ← slice buffer 10 (10 + INTENT_HASH_SIZE);
      sender_bytes ← slice buffer 26 (26 + NODE_ID_SIZE);
      Ok (mkHeader version frame_type flags trust_level priority
            (HybridClock_from_bytes clock_bytes) intent_bytes sender_bytes,
          has_trace_id, has_routing).

Definition decode_payload_header (buffer : list Z) : CodecResult PayloadHeader :=
  type_and_len_high ← index buffer 0;
  len_mid ← index buffer 1;
  len_low_and_flags_high ← index buffer 2;
  len_lowest_and_flags ← index buffer 3;
  let payload_type := PayloadType_from_u8 (Z.shiftr type_and_len_high 4) in
  let length :=
    Z.lor (Z.lor (Z.lor (Z.shiftl (Z.land type_and_len_high 15) 20)
                    (Z.shiftl len_mid 12))
             (Z.shiftl len_low_and_flags_high 4))
      (Z.shiftr len_lowest_and_flags 4) in
  Ok (mkPayloadHeader payload_type length (Z.land len_lowest_and_flags 15)).

Definition decode_auth (t : TrustLevel) (buffer : list Z) : CodecResult Authentication :=
  match t with
  | Full | Sig =>
      if len buffer <? SIGNATURE_SIZE then Err TruncatedFrame
      else b ← slice buffer 0 SIGNATURE_SIZE; Ok (AuthSignature b)
  | Compress =>
      if len buffer <? SESSION_TOKEN_SIZE then Err TruncatedFrame
      else b ← slice buffer 0 SESSION_TOKEN_SIZE; Ok (AuthToken b)
  | Raw => Ok AuthNone
  end.

Definition decode_trace_id (has : bool) (buffer : list Z) (offset : Z)
    : CodecResult (option TraceId * Z) :=
  if has then
    if len buffer <? offset + TRACE_ID_SIZE then Err TruncatedFrame
    else b ← slice buffer offset (offset + TRACE_ID_SIZE);
         Ok (Some b, offset + TRACE_ID_SIZE)
  else Ok (None, offset).

Definition decode_routing (has : bool) (buffer : list Z) (offset : Z)
    : CodecResult (option RoutingExt * Z) :=
  if has then
    if len buffer <? offset + NODE_ID_SIZE + 1 then Err TruncatedFrame
    else
      dest ← slice buffer offset (offset + NODE_ID_SIZE);
      let offset := offset + NODE_ID_SIZE in
      t ← index buffer offset;
      Ok (Some (mkRouting dest t), offset + 1)
  else Ok (None, offset).

Definition decode_fragment_info (has : bool) (buffer : list Z) (offset : Z)
    : CodecResult (option FragmentInfo * Z) :=
  if has then
    if len buffer <? offset + 4 then Err TruncatedFrame
    else
      b0 ← index buffer offset; b1 ← index buffer (offset + 1);
      b2 ← index buffer (offset + 2); b3 ← index buffer (offset + 3);
      Ok (Some (mkFragInfo (from_be [b0; b1]) (from_be [b2; b3])), offset + 4)
  else Ok (None, offset).

Definition decode (buffer : list Z) : CodecResult DecodedFrame :=
  if len buffer <? MIN_FRAME_SIZE
  then Err (BufferTooSmall MIN_FRAME_SIZE (len buffer))
  else
    let offset := 0 in
    hb ← slice buffer offset (offset + FIXED_HEADER_SIZE);
    '(h, has_trace_id, has_routing) ← decode_fixed_header hb;
    let offset := offset + FIXED_HEADER_SIZE in
    let is_fragmented := fragmented (flags h) in
    '(tid, offset) ← decode_trace_id has_trace_id buffer offset;
    '(r, offset) ← decode_routing has_routing buffer offset;
    '(fi, offset) ← decode_fragment_info is_fragmented buffer offset;
    if len buffer <? offset + 4 then Err TruncatedFrame
    else
      pb ← slice buffer offset (offset + 4);
      ph ← decode_payload_header pb;
      let offset := offset + 4 in
      let payload_len := ph_length ph in
      if MAX_PAYLOAD_SIZE <? payload_len then Err (PayloadTooLarge payload_len)
      else
        let auth_size := auth_overhead (trust_level h) in
        let expected_total := offset + payload_len + auth_size in
        if len buffer <? expected_total then Err TruncatedFrame
        else
          p ← slice buffer offset (offset + payload_len);
          let offset := offset + payload_len in
          ab ← slice buffer offset (offset + auth_size);
          a ← decode_auth (trust_level h) ab;
          Ok (mkDecoded h tid r fi ph p a).

Definition decode_header (buffer : list Z) : CodecResult FrameHeader :=
  if len buffer <? FIXED_HEADER_SIZE
  then Err (BufferTooSmall FIXED_HEADER_SIZE (len buffer))
  else
    hb ← slice buffer 0 FIXED_HEADER_SIZE;
    '(h, _, _) ← decode_fixed_header hb;
    Ok h.

Definition payload_slice (buffer : list Z) : CodecResult (list Z) :=
  if len buffer <? MIN_FRAME_SIZE
  then Err (BufferTooSmall MIN_FRAME_SIZE (len buffer))
  else
    hb ← slice buffer 0 FIXED_HEADER_SIZE;
    '(h, has_trace_id, has_routing) ← decode_fixed_header hb;
    let offset := FIXED_HEADER_SIZE in
    let offset := if (has_trace_id : bool) then offset + TRACE_ID_SIZE else offset in
    let offset := if (has_routing : bool) then offset + (NODE_ID_SIZE + 1) else offset in
    let offset := if fragmented (flags h) then offset + 4 else offset in
    if len buffer <? offset + 4 then Err TruncatedFrame
    else
      pb ← slice buffer offset (offset + 4);
      ph ← decode_payload_header pb;
      let offset := offset + 4 in
      let payload_len := ph_length ph in
      if len buffer <? offset + payload_len then Err TruncatedFrame
      else slice buffer offset (offset + payload_len).

(** [decoded.into()]: the frame a receiver rebuilds from a decoded one. *)
Definition to_frame (d : DecodedFrame) : Frame :=
  mkFrame (d_header d) (d_trace_id d) (d_routing d) (d_fragment_info d)
    (d_payload_header d) (d_payload d) (d_auth d).

Definition of_frame (f : Frame) : DecodedFrame :=
  mkDecoded (header f) (trace_id f) (routing f) (fragment_info f) (payload_header f)
    (payload f) (auth f).

(** ** Specification of the wire format

    The three packed header bytes and the four payload-header bytes are the
    big-endian form of one word each, with the fields of the documented bit
    layout. *)

Definition header_word (v ft fl tl pr : Z) (ht hr : bool) : Z :=
  ((((((MAGIC * 16 + v) * 32 + ft) * 8 + fl) * 4 + tl) * 4 + pr) * 2
     + Z.b2z ht) * 32 + Z.b2z hr * 16.

Definition payload_word (pt n fl : Z) : Z := (pt * 2 ^ 24 + n) * 16 + fl.

Definition wire_header (h : FrameHeader) (ht hr : bool) : list Z :=
  to_be 3 (header_word (version h) (FrameType_to_u8 (frame_type h))
             (FrameFlags_to_u8 (flags h)) (TrustLevel_to_u8 (trust_level h))
             (Priority_to_u8 (priority h)) ht hr)
  ++ HybridClock_to_bytes (clock h) ++ intent_hash h ++ sender_id h.

Definition from_opt {A} (g : A → list Z) (o : option A) : list Z :=
  match o with Some a => g a | None => [] end.

Definition wire_routing (r : RoutingExt) : list Z := destination r ++ [ttl r].
Definition wire_fragment (i : FragmentInfo) : list Z :=
  to_be 2 (sequence i) ++ to_be 2 (total i).

Definition wire_payload_header (f : Frame) : list Z :=
  to_be 4 (payload_word (PayloadType_to_u8 (payload_type (payload_header f)))
             (len (payload f)) (ph_flags (payload_header f))).

Definition wire_auth (a : Authentication) : list Z :=
  match a with AuthSignature s => s | AuthToken t => t | AuthNone => [] end.

(** Everything but the authentication trailer, and the whole frame. *)
Definition wire_body (f : Frame) : list Z :=
  wire_header (header f) (is_some (trace_id f)) (is_some (routing f))
  ++ from_opt id (trace_id f) ++ from_opt wire_routing (routing f)
  ++ from_opt wire_fragment (fragment_info f)
  ++ wire_payload_header f ++ payload f.

Definition wire (f : Frame) : list Z := wire_body f ++ wire_auth (auth f).

(** Frames the wire format can carry: the field types ([frame_ok]), the 4-bit
    version, the 5-bit frame type, the 4-bit payload type and flags, the 40-bit
    clock, the 24-bit payload length, and the two redundancies between fields:
    the trust level fixes the kind of authentication and the [fragmented] flag
    announces the fragment extension. *)
Definition auth_matches (t : TrustLevel) (a : Authentication) : bool :=
  match t, a with
  | (Full | Sig), AuthSignature _ | Compress, AuthToken _ | Raw, AuthNone => true
  | _, _ => false
  end.

Record encodable (f : Frame) : Prop := {
  enc_ok : frame_ok f;
  enc_version : version (header f) = PROTOCOL_VERSION;
  enc_ftype : FrameType_to_u8 (frame_type (header f)) < 32;
  enc_freserved : FrameType_from_u8 (FrameType_to_u8 (frame_type (header f)))
                  = frame_type (header f);
  enc_clock : physical (clock (header f)) ≤ MAX_PHYSICAL;
  enc_frag : fragmented (flags (header f)) = is_some (fragment_info f);
  enc_ptype : PayloadType_from_u8 (PayloadType_to_u8 (payload_type (payload_header f)))
              = payload_type (payload_header f)
              ∧ PayloadType_to_u8 (payload_type (payload_header f)) < 16;
  enc_pflags : ph_flags (payload_header f) < 16;
  enc_plen : len (payload f) = ph_length (payload_header f)
             ∧ len (payload f) ≤ MAX_PAYLOAD_SIZE;
  enc_auth : auth_matches (trust_level (header f)) (auth f) = true
}.

(** *** Packed fields as arithmetic *)

Lemma pack_byte0 v ft :
  0 ≤ v < 16 → 0 ≤ ft < 32 →
  Z.lor (Z.lor (u8_shl MAGIC 6) (u8_shl (Z.land v 15) 2)) (Z.land (Z.shiftr ft 3) 3)
  = 128 + 4 * v + ft / 8.
Proof. revert v ft. by_enumeration2 16%nat 32%nat. Qed.

Lemma pack_byte1 ft fl tl :
  0 ≤ ft < 32 → 0 ≤ fl < 8 → 0 ≤ tl < 4 →
  Z.lor (Z.lor (u8_shl (Z.land ft 7) 5) (u8_shl (Z.land fl 7) 2)) (Z.land tl 3)
  = 32 * (ft mod 8) + 4 * fl + tl.
Proof.
  revert ft fl tl. by_enumeration3 32%nat 8%nat 4%nat.
Qed.

Lemma pack_byte2 pr (ht hr : bool) :
  0 ≤ pr < 4 →
  Z.lor (Z.lor (u8_shl (Z.land pr 3) 6) (if ht then 32 else 0)) (if hr then 16 else 0)
  = 64 * pr + 32 * Z.b2z ht + 16 * Z.b2z hr.
Proof.
  revert pr. destruct ht, hr; by_enumeration 4%nat.
Qed.

Lemma to_be_3 w : to_be 3 w = [(w / 65536) mod 256; (w / 256) mod 256; w mod 256].
Proof. cbn. by rewrite Z.div_1_r. Qed.

Lemma to_be_4 w :
  to_be 4 w = [(w / 16777216) mod 256; (w / 65536) mod 256; (w / 256) mod 256; w mod 256].
Proof. cbn. by rewrite Z.div_1_r. Qed.

Lemma header_word_bytes v ft fl tl pr ht hr :
  0 ≤ v < 16 → 0 ≤ ft < 32 → 0 ≤ fl < 8 → 0 ≤ tl < 4 → 0 ≤ pr < 4 →
  to_be 3 (header_word v ft fl tl pr ht hr)
  = [128 + 4 * v + ft / 8; 32 * (ft mod 8) + 4 * fl + tl;
     64 * pr + 32 * Z.b2z ht + 16 * Z.b2z hr].
Proof.
  intros. rewrite to_be_3. unfold header_word, MAGIC.
  destruct ht, hr; simpl Z.b2z; list_eq; dlia.
Qed.

Lemma payload_word_bytes pt n fl :
  0 ≤ pt < 16 → 0 ≤ n < 2 ^ 24 → 0 ≤ fl < 16 →
  to_be 4 (payload_word pt n fl)
  = [16 * pt + n / 2 ^ 20; (n / 2 ^ 12) mod 256; (n / 2 ^ 4) mod 256;
     16 * (n mod 16) + fl].
Proof. intros. rewrite to_be_4. unfold payload_word. list_eq; dlia. Qed.

Lemma land_small n x : 0 ≤ n → 0 ≤ x < 2 ^ n → Z.land x (2 ^ n - 1) = x.
Proof. intros. rewrite land_mask by done. by apply Z.mod_small. Qed.

Lemma pack_payload0 pt n :
  0 ≤ pt < 16 → 0 ≤ n < 2 ^ 24 →
  Z.lor (u8_shl (Z.land pt 15) 4) (Z.land (Z.shiftr n 20 mod 256) 15)
  = 16 * pt + n / 2 ^ 20.
Proof.
  intros Hp Hn. bits_to_arith. unfold u8_shl.
  assert (Z.shiftl (pt mod 16) 4 mod 256 = Z.shiftl pt 4) as ->.
  { rewrite !Z.shiftl_mul_pow2 by lia. dlia. }
  rewrite lor_shiftl_add by dlia. dlia.
Qed.

Lemma pack_payload3 n fl :
  0 ≤ n < 2 ^ 24 → 0 ≤ fl < 16 →
  Z.lor (Z.shiftl (Z.land n 15) 4) (Z.land fl 15) mod 256 = 16 * (n mod 16) + fl.
Proof.
  intros Hn Hf. bits_to_arith. rewrite lor_shiftl_add by dlia. dlia.
Qed.

(** *** Ranges of encodable fields *)

Lemma flags_range f : 0 ≤ FrameFlags_to_u8 f < 8.
Proof. by destruct f as [[] [] []]. Qed.
Lemma trust_range t : 0 ≤ TrustLevel_to_u8 t < 4.
Proof. by destruct t. Qed.
Lemma priority_range p : 0 ≤ Priority_to_u8 p < 4.
Proof. by destruct p. Qed.
#[export] Hint Resolve flags_range trust_range priority_range : axiom.

Record header_encodable (h : FrameHeader) : Prop := {
  he_version : 0 ≤ version h < 16;
  he_ftype : 0 ≤ FrameType_to_u8 (frame_type h) < 32;
  he_intent : array_ok 16 (intent_hash h);
  he_sender : array_ok 32 (sender_id h)
}.

Lemma encodable_header f : encodable f → header_encodable (header f).
Proof.
  intros [[(Hv & Ht & Hc & Hi & Hs) ????????] Hv' Ht' ???????].
  unfold PROTOCOL_VERSION in *. split; auto; lia.
Qed.

Lemma len_wire_header h ht hr : header_encodable h → len (wire_header h ht hr) = 58.
Proof. intros [? ? ? ?]. unfold wire_header. solve_len. Qed.

Lemma header_bytes h ht hr :
  header_encodable h →
  to_be 3 (header_word (version h) (FrameType_to_u8 (frame_type h))
             (FrameFlags_to_u8 (flags h)) (TrustLevel_to_u8 (trust_level h))
             (Priority_to_u8 (priority h)) ht hr)
  = [128 + 4 * version h + FrameType_to_u8 (frame_type h) / 8;
     32 * (FrameType_to_u8 (frame_type h) mod 8) + 4 * FrameFlags_to_u8 (flags h)
       + TrustLevel_to_u8 (trust_level h);
     64 * Priority_to_u8 (priority h) + 32 * Z.b2z ht + 16 * Z.b2z hr].
Proof. intros [? ? _ _]. apply header_word_bytes; auto with axiom. Qed.

(** A sequence of [copy_at] of the encoder, appended to what is already written;
    the rest of the buffer is what the writes did not reach. *)
Ltac write_all :=
  repeat (rewrite copy_at_next by solve_len; cbn [mbind outcome_bind]);
  rewrite ?drop_drop, <- ?app_assoc; cbn [app];
  try (apply (f_equal Ok), (f_equal2 pair); [|first [reflexivity | lia]]);
  repeat first [apply (f_equal2 cons); [reflexivity|] | apply (f_equal2 app); [reflexivity|]];
  try (apply (f_equal2 drop); [repeat (rewrite length_app || cbn [length]); lia | reflexivity]);
  try reflexivity.

Lemma encode_fixed_header_spec h ht hr l :
  header_encodable h → 58 ≤ len l →
  encode_fixed_header h ht hr l
  = Ok (wire_header h ht hr ++ drop (length (wire_header h ht hr)) l, 58).
Proof.
  intros Hh Hl. pose proof Hh as [Hv Ht Hi Hs].
  unfold encode_fixed_header, FIXED_HEADER_SIZE.
  case_ltb.
  rewrite pack_byte0, pack_byte1, pack_byte2 by auto with axiom lia.
  unfold wire_header. rewrite (header_bytes h ht hr Hh).
  rewrite <- (app_nil_l l) at 1. write_all.
Qed.

Lemma encode_payload_header_spec pt n fl l :
  0 ≤ PayloadType_to_u8 pt < 16 → 0 ≤ n < 2 ^ 24 → 0 ≤ fl < 16 → 4 ≤ len l →
  encode_payload_header pt n fl l
  = Ok (to_be 4 (payload_word (PayloadType_to_u8 pt) n fl) ++ drop 4 l, 4).
Proof.
  intros Hp Hn Hf Hl. unfold encode_payload_header.
  case_ltb.
  rewrite payload_word_bytes by done.
  rewrite pack_payload0, pack_payload3 by done. bits_to_arith. rewrite !Zmod_mod.
  rewrite <- (app_nil_l l) at 1. write_all.
Qed.

Lemma encode_auth_spec a l :
  auth_ok a → Authentication_wire_size a ≤ len l →
  encode_auth a l
  = Ok (wire_auth a ++ drop (length (wire_auth a)) l, Authentication_wire_size a).
Proof.
  destruct a as [s|t|]; cbn [auth_ok Authentication_wire_size encode_auth wire_auth];
    unfold SIGNATURE_SIZE, SESSION_TOKEN_SIZE; intros Ha Hl; [..|done];
    case_ltb; rewrite <- (app_nil_l l) at 1; write_all.
Qed.

Lemma len_wire_payload_header f : len (wire_payload_header f) = 4.
Proof. unfold wire_payload_header. by rewrite len_to_be. Qed.
#[export] Hint Rewrite len_wire_payload_header : len.

Lemma len_wire_auth a : auth_ok a → len (wire_auth a) = Authentication_wire_size a.
Proof. destruct a; intros H; cbn in *; unfold SIGNATURE_SIZE, SESSION_TOKEN_SIZE; solve_len. Qed.

Definition ext_size (f : Frame) : Z :=
  (if is_some (trace_id f) then 8 else 0) + (if is_some (routing f) then 33 else 0)
  + (if is_some (fragment_info f) then 4 else 0).

Definition wire_ext (f : Frame) : list Z :=
  from_opt id (trace_id f) ++ from_opt wire_routing (routing f)
  ++ from_opt wire_fragment (fragment_info f).

Lemma len_wire_ext f : frame_ok f → len (wire_ext f) = ext_size f.
Proof.
  intros [_ Ht Hr _ _ _ _ _ _]. unfold wire_ext, ext_size.
  destruct (trace_id f), (routing f) as [[dst hops]|], (fragment_info f);
    cbn in *; unfold id, wire_fragment, wire_routing; cbn; destruct_and?; try destruct Hr;
    cbn in *; solve_len.
Qed.

Lemma wire_size_eq f :
  wire_size f = 62 + ext_size f + len (payload f) + Authentication_wire_size (auth f).
Proof.
  unfold wire_size, ext_size, FIXED_HEADER_SIZE, TRACE_ID_SIZE, ROUTING_EXT_SIZE,
    NODE_ID_SIZE. destruct (trace_id f), (routing f), (fragment_info f); cbn [is_some]; lia.
Qed.

Lemma ext_size_nonneg f : 0 ≤ ext_size f.
Proof. unfold ext_size. repeat case_match; lia. Qed.
#[export] Hint Resolve ext_size_nonneg : axiom.

Lemma auth_size_nonneg a : 0 ≤ Authentication_wire_size a.
Proof. by destruct a. Qed.
#[export] Hint Resolve auth_size_nonneg : axiom.

Lemma encode_extensions_spec f p l :
  frame_ok f → ext_size f ≤ len l →
  encode_extensions f (p ++ l) (len p)
  = Ok ((p ++ wire_ext f) ++ drop (length (wire_ext f)) l, len p + ext_size f).
Proof.
  intros [_ Ht Hr Hf _ _ _ _ _] Hl. unfold encode_extensions, wire_ext, ext_size,
    TRACE_ID_SIZE, NODE_ID_SIZE in *.
  destruct (trace_id f), (routing f) as [[dst hops]|], (fragment_info f) as [[sq tot]|];
    cbn [is_some from_opt option_ok mbind outcome_bind id] in *;
    unfold wire_fragment, wire_routing; cbn [destination ttl sequence total];
    destruct_and?; try (destruct Hr as [Hr ?]; cbn [destination ttl] in Hr).
  all: write_all.
Qed.

Lemma wire_body_eq f :
  wire_body f
  = wire_header (header f) (is_some (trace_id f)) (is_some (routing f)) ++ wire_ext f
    ++ wire_payload_header f ++ payload f.
Proof. unfold wire_body, wire_ext. by rewrite <- !app_assoc. Qed.

(** Frames whose fields fit their wire widths; weaker than [encodable]. *)
Record writable (f : Frame) : Prop := {
  wr_ok : frame_ok f;
  wr_header : header_encodable (header f);
  wr_ptype : PayloadType_to_u8 (payload_type (payload_header f)) < 16;
  wr_pflags : ph_flags (payload_header f) < 16;
  wr_plen : len (payload f) ≤ MAX_PAYLOAD_SIZE
}.

Lemma encodable_writable f : encodable f → writable f.
Proof.
  intros H. pose proof (encodable_header f H). destruct H as [? ? ? ? ? ? [] ? [] ?].
  by split.
Qed.

Lemma len_wire_body f :
  writable f → len (wire_body f) = wire_size f - Authentication_wire_size (auth f).
Proof.
  intros [Hok Hh _ _ _]. rewrite wire_body_eq, wire_size_eq, !len_app, len_wire_header by done.
  rewrite len_wire_ext by done. rewrite len_wire_payload_header. lia.
Qed.

Lemma len_wire f : writable f → len (wire f) = wire_size f.
Proof.
  intros H. unfold wire. rewrite len_app, len_wire_body, len_wire_auth by
    (done || apply H). lia.
Qed.

Lemma encode_writes_wire f l :
  writable f → wire_size f ≤ len l →
  encode f l = Ok (wire f ++ drop (length (wire f)) l, wire_size f).
Proof.
  intros Hw Hl. pose proof Hw as [Hok Hh Hp Hf Hn].
  pose proof (ok_ptype f Hok). pose proof (ok_pflags f Hok). pose proof (ok_auth f Hok).
  pose proof (ext_size_nonneg f). pose proof (auth_size_nonneg (auth f)).
  pose proof (len_nonneg (payload f)).
  rewrite wire_size_eq in Hl. unfold MAX_PAYLOAD_SIZE in Hn. unfold encode.
  case_ltb; [rewrite wire_size_eq in *; lia|]. unfold MAX_PAYLOAD_SIZE. case_ltb.
  rewrite <- (app_nil_l l) at 1.
  pose proof (len_wire_header (header f) (is_some (trace_id f)) (is_some (routing f)) Hh)
    as HwL.
  rewrite (on_tail_next [] l _ _ _ _ eq_refl
             (encode_fixed_header_spec (header f) _ _ l Hh ltac:(lia))).
  cbn [mbind outcome_bind app]. set (w := wire_header _ _ _) in *.
  replace (0 + 58) with (len w) by lia.
  rewrite encode_extensions_spec by (done || solve_len).
  cbn [mbind outcome_bind]. rewrite drop_drop.
  pose proof (len_wire_ext f Hok) as HeL. set (e := wire_ext f) in *.
  rewrite (on_tail_next (w ++ e) _ (wire_payload_header f) _ 4); [|solve_len|].
  2: { rewrite Z.mod_small by lia. unfold wire_payload_header. rewrite length_to_be.
       apply encode_payload_header_spec; try lia; try solve_len. }
  cbn [mbind outcome_bind]. rewrite drop_drop. set (ph := wire_payload_header f).
  assert (len ph = 4) as HpL by apply len_wire_payload_header.
  rewrite copy_at_next by solve_len. cbn [mbind outcome_bind]. rewrite drop_drop.
  rewrite (on_tail_next _ _ (wire_auth (auth f)) _ (Authentication_wire_size (auth f)));
    [|solve_len|apply encode_auth_spec; [done|solve_len]].
  cbn [mbind outcome_bind]. rewrite drop_drop.
  apply (f_equal Ok), (f_equal2 pair); [|rewrite wire_size_eq; lia].
  unfold wire. rewrite wire_body_eq. subst w e ph. rewrite <- !app_assoc.
  repeat (apply (f_equal2 app); [reflexivity|]).
  apply (f_equal2 drop); [rewrite !length_app; lia | reflexivity].
Qed.

(** *** Decoding what was encoded *)

Lemma unpack_ftype ft fl tl v :
  0 ≤ ft < 32 → 0 ≤ fl < 8 → 0 ≤ tl < 4 → 0 ≤ v < 16 →
  Z.lor (u8_shl (Z.land (128 + 4 * v + ft / 8) 3) 3)
    (Z.land (Z.shiftr (32 * (ft mod 8) + 4 * fl + tl) 5) 7) = ft.
Proof.
  intros. bits_to_arith. unfold u8_shl.
  replace ((128 + 4 * v + ft / 8) mod 4) with (ft / 8) by dlia.
  rewrite Z.shiftl_mul_pow2 by lia.
  replace ((ft / 8 * 2 ^ 3) mod 256) with (Z.shiftl (ft / 8) 3)
    by (rewrite Z.shiftl_mul_pow2 by lia; dlia).
  rewrite lor_shiftl_add by dlia. dlia.
Qed.

Lemma unpack_flag2 pr (ht hr : bool) :
  0 ≤ pr < 4 →
  negb (Z.land (64 * pr + 32 * Z.b2z ht + 16 * Z.b2z hr) 32 =? 0) = ht ∧
  negb (Z.land (64 * pr + 32 * Z.b2z ht + 16 * Z.b2z hr) 16 =? 0) = hr ∧
  Z.shiftr (64 * pr + 32 * Z.b2z ht + 16 * Z.b2z hr) 6 = pr.
Proof. revert pr. destruct ht, hr; by_enumeration 4%nat. Qed.

Lemma decode_wire_header h ht hr :
  header_encodable h → version h = PROTOCOL_VERSION →
  FrameType_from_u8 (FrameType_to_u8 (frame_type h)) = frame_type h →
  clock_ok (clock h) → physical (clock h) ≤ MAX_PHYSICAL →
  decode_fixed_header (wire_header h ht hr) = Ok (h, ht, hr).
Proof.
  intros Hh Hv Ht Hc Hp. pose proof Hh as [Hv' Ht' Hi Hs].
  unfold decode_fixed_header, wire_header, CLOCK_SIZE, INTENT_HASH_SIZE, NODE_ID_SIZE.
  rewrite (header_bytes h ht hr Hh).
  pose proof (flags_range (flags h)). pose proof (trust_range (trust_level h)).
  destruct (unpack_flag2 (Priority_to_u8 (priority h)) ht hr (priority_range _))
    as (U1 & U2 & U3).
  pose proof (unpack_ftype (FrameType_to_u8 (frame_type h)) (FrameFlags_to_u8 (flags h))
                (TrustLevel_to_u8 (trust_level h)) (version h)) as U4.
  set (b0 := 128 + _ + _) in *. set (b1 := 32 * _ + _ + _) in *. set (b2 := 64 * _ + _ + _) in *.
  rewrite (index_Ok _ 0 b0), (index_Ok _ 1 b1), (index_Ok _ 2 b2)
    by first [reflexivity | lia].
  cbn [mbind outcome_bind].
  replace (Z.shiftr b0 6) with MAGIC by (bits_to_arith; unfold b0, MAGIC; dlia).
  replace (Z.land (Z.shiftr b0 2) 15) with (version h) by (bits_to_arith; unfold b0; dlia).
  rewrite Z.eqb_refl. cbn [negb]. rewrite Hv at 1. rewrite Z.eqb_refl. cbn [negb].
  rewrite (slice_app [b0; b1; b2] (HybridClock_to_bytes (clock h)) _ 3 (3 + 7))
    by solve_len.
  cbn [mbind outcome_bind].
  rewrite (slice_at _ ([b0; b1; b2] ++ HybridClock_to_bytes (clock h)) (intent_hash h)
             (sender_id h) 10 (10 + 16)) by (done || solve_len).
  cbn [mbind outcome_bind].
  rewrite (slice_at _ ([b0; b1; b2] ++ HybridClock_to_bytes (clock h) ++ intent_hash h)
             (sender_id h) [] 26 (26 + 32)) by (by rewrite ?app_nil_r, <- ?app_assoc || solve_len).
  cbn [mbind outcome_bind].
  rewrite U1, U2, U3, U4, Ht, Priority_from_to by done.
  replace (Z.land (Z.shiftr b1 2) 7) with (FrameFlags_to_u8 (flags h))
    by (bits_to_arith; unfold b1; dlia).
  replace (Z.land b1 3) with (TrustLevel_to_u8 (trust_level h))
    by (bits_to_arith; unfold b1; dlia).
  rewrite FrameFlags_from_to, TrustLevel_from_to, clock_from_to_bytes.
  destruct Hc as [Hc1 Hc2]. change MAX_PHYSICAL with (2 ^ 40 - 1) in Hp.
  rewrite !Z.mod_small by lia. by destruct h as [? ? ? ? ? [] ? ?].
Qed.

Lemma lor_fields a b c d :
  0 ≤ b < 256 → 0 ≤ c < 256 → 0 ≤ d < 16 →
  Z.lor (Z.lor (Z.lor (Z.shiftl a 20) (Z.shiftl b 12)) (Z.shiftl c 4)) d
  = a * 2 ^ 20 + b * 2 ^ 12 + c * 2 ^ 4 + d.
Proof.
  intros. rewrite (lor_shiftl_add a) by (rewrite ?Z.shiftl_mul_pow2 by lia; lia).
  replace (a * 2 ^ 20 + Z.shiftl b 12) with (Z.shiftl (a * 256 + b) 12)
    by (rewrite !Z.shiftl_mul_pow2 by lia; lia).
  rewrite (lor_shiftl_add _ (Z.shiftl c 4)) by (rewrite ?Z.shiftl_mul_pow2 by lia; lia).
  replace ((a * 256 + b) * 2 ^ 12 + Z.shiftl c 4) with
    (Z.shiftl ((a * 256 + b) * 256 + c) 4) by (rewrite !Z.shiftl_mul_pow2 by lia; lia).
  rewrite lor_shiftl_add by lia. lia.
Qed.

Lemma decode_payload_bytes p0 p1 p2 p3 :
  byte_ok p0 → byte_ok p1 → byte_ok p2 → byte_ok p3 →
  decode_payload_header [p0; p1; p2; p3]
  = Ok (mkPayloadHeader (PayloadType_from_u8 (p0 / 16))
          (p0 mod 16 * 2 ^ 20 + p1 * 2 ^ 12 + p2 * 2 ^ 4 + p3 / 16) (p3 mod 16)).
Proof.
  intros. cbv beta in *. unfold decode_payload_header.
  rewrite (index_Ok _ 0 p0), (index_Ok _ 1 p1), (index_Ok _ 2 p2), (index_Ok _ 3 p3)
    by first [reflexivity | lia].
  cbn [mbind outcome_bind]. bits_to_arith. by rewrite lor_fields by dlia.
Qed.

Lemma decode_wire_payload_header f :
  writable f →
  PayloadType_from_u8 (PayloadType_to_u8 (payload_type (payload_header f)))
  = payload_type (payload_header f) →
  len (payload f) = ph_length (payload_header f) →
  decode_payload_header (wire_payload_header f) = Ok (payload_header f).
Proof.
  intros [Hok _ Hp Hf Hn] Hpt Hl. unfold MAX_PAYLOAD_SIZE in Hn.
  pose proof (ok_ptype f Hok). pose proof (ok_pflags f Hok). pose proof (len_nonneg (payload f)).
  unfold wire_payload_header. rewrite payload_word_bytes by lia.
  set (n := len (payload f)) in *. set (t := PayloadType_to_u8 _) in *.
  rewrite decode_payload_bytes by dlia.
  replace ((16 * t + n / 2 ^ 20) / 16) with t by dlia. rewrite Hpt.
  destruct (payload_header f) as [pt l fl]; cbn [payload_type ph_length ph_flags] in *.
  do 2 f_equal; dlia.
Qed.

Lemma decode_wire_auth t a :
  auth_ok a → auth_matches t a = true →
  len (wire_auth a) = auth_overhead t ∧ decode_auth t (wire_auth a) = Ok a.
Proof.
  intros Ha Hm. destruct t, a; try done; cbn in Ha; len_facts;
    (split; [cbn; lia|]); unfold decode_auth, SIGNATURE_SIZE, SESSION_TOKEN_SIZE;
    cbn [wire_auth]; case_ltb; (erewrite (slice_at _ []); [|symmetry; apply app_nil_r|..]);
    try done; cbn; lia.
Qed.

Lemma decode_trace_at B p t s :
  B = p ++ from_opt id t ++ s → option_ok (array_ok 8) t →
  decode_trace_id (is_some t) B (len p) = Ok (t, len p + len (from_opt id t)).
Proof.
  intros -> Ht. pose proof (len_nonneg s). unfold decode_trace_id, TRACE_ID_SIZE.
  destruct t as [t|]; cbn [is_some from_opt option_ok] in *; unfold id in *;
    [|by rewrite Z.add_0_r].
  case_ltb. rewrite slice_app by solve_len. cbn. do 2 f_equal. solve_len.
Qed.

Lemma decode_routing_at B p r s :
  B = p ++ from_opt wire_routing r ++ s → option_ok routing_ok r →
  decode_routing (is_some r) B (len p) = Ok (r, len p + len (from_opt wire_routing r)).
Proof.
  intros -> Hr. pose proof (len_nonneg s). unfold decode_routing, NODE_ID_SIZE, wire_routing.
  destruct r as [[d h]|]; cbn [is_some from_opt option_ok destination ttl] in *;
    [|by rewrite Z.add_0_r].
  destruct Hr as [Hd _]; cbn [destination] in Hd. case_ltb.
  rewrite <- app_assoc. rewrite slice_app by solve_len. cbn [mbind outcome_bind].
  rewrite (index_at _ (p ++ d) h s) by (by rewrite <- ?app_assoc || solve_len).
  cbn [mbind outcome_bind]. do 2 f_equal. solve_len.
Qed.

Lemma to_be_2 x : to_be 2 x = [(x / 256) mod 256; x mod 256].
Proof. cbn. by rewrite Z.div_1_r. Qed.

Lemma decode_fragment_at B p i s :
  B = p ++ from_opt wire_fragment i ++ s → option_ok fragment_info_ok i →
  decode_fragment_info (is_some i) B (len p) = Ok (i, len p + len (from_opt wire_fragment i)).
Proof.
  intros -> Hi. pose proof (len_nonneg s). unfold decode_fragment_info.
  destruct i as [[sq tot]|]; cbn [is_some from_opt option_ok] in *; [|by rewrite Z.add_0_r].
  destruct Hi as [H1 H2]; cbn [sequence total] in *. unfold wire_fragment.
  cbn [sequence total]. case_ltb. rewrite !to_be_2. cbn [app].
  set (a0 := (sq / 256) mod 256). set (a1 := sq mod 256).
  set (a2 := (tot / 256) mod 256). set (a3 := tot mod 256).
  rewrite (index_at _ p a0 (a1 :: a2 :: a3 :: s) (len p)) by done.
  rewrite (index_at _ (p ++ [a0]) a1 (a2 :: a3 :: s) (len p + 1)) by (by rewrite <- app_assoc || solve_len).
  rewrite (index_at _ (p ++ [a0; a1]) a2 (a3 :: s) (len p + 2)) by (by rewrite <- app_assoc || solve_len).
  rewrite (index_at _ (p ++ [a0; a1; a2]) a3 s (len p + 3)) by (by rewrite <- app_assoc || solve_len).
  cbn [mbind outcome_bind]. subst a0 a1 a2 a3. rewrite <- !to_be_2.
  by rewrite !from_be_to_be by (cbn; lia).
Qed.

Lemma decode_of_wire f rest :
  encodable f → decode (wire f ++ rest) = Ok (of_frame f).
Proof.
  intros He. pose proof (encodable_writable f He) as Hw. pose proof (wr_ok f Hw) as Hok.
  pose proof (len_wire f Hw) as HL. pose proof (len_nonneg rest). pose proof (len_nonneg (payload f)).
  pose proof (ext_size_nonneg f). pose proof (auth_size_nonneg (auth f)).
  destruct He as [_ Hv _ Hft Hc Hfr [Hpt _] _ [Hpl Hmax] Ham].
  destruct (ok_header f Hok) as (_ & _ & Hck & _ & _).
  pose proof (len_wire_header (header f) (is_some (trace_id f)) (is_some (routing f))
                (wr_header f Hw)) as HwL.
  destruct (decode_wire_auth _ _ (ok_auth f Hok) Ham) as [HaL Ha].
  pose proof (decode_wire_payload_header f Hw Hpt Hpl) as Hph.
  pose proof (len_wire_payload_header f) as HpL.
  unfold decode, MIN_FRAME_SIZE, FIXED_HEADER_SIZE.
  rewrite wire_size_eq in HL. case_ltb.
  unfold wire, wire_body in *. set (w := wire_header _ _ _) in *.
  set (ph := wire_payload_header f) in *. set (au := wire_auth (auth f)) in *.
  rewrite <- !app_assoc in *. set (B := w ++ _).
  rewrite (slice_at B [] w _ 0 (0 + 58) eq_refl) by solve_len. cbn [mbind outcome_bind].
  subst w. rewrite decode_wire_header by (done || apply Hw).
  set (w := wire_header _ _ _) in *. cbn [mbind outcome_bind].
  replace (0 + 58) with (len w) by lia.
  erewrite decode_trace_at; [|reflexivity|apply Hok]. cbn [mbind outcome_bind].
  rewrite <- len_app. erewrite decode_routing_at;
    [|subst B; rewrite <- app_assoc; reflexivity|apply Hok]. cbn [mbind outcome_bind].
  rewrite <- len_app, Hfr. erewrite decode_fragment_at;
    [|subst B; rewrite <- !app_assoc; reflexivity|apply Hok]. cbn [mbind outcome_bind].
  rewrite <- len_app. set (pre := _ ++ from_opt wire_fragment _).
  assert (B = pre ++ ph ++ payload f ++ au ++ rest) as HB
    by (subst B pre; by rewrite <- !app_assoc).
  assert (len B = len pre + 4 + len (payload f) + auth_overhead (trust_level (header f))
                  + len rest) as HBL by (rewrite HB; solve_len).
  pose proof (len_nonneg au).
  case_ltb. rewrite (slice_at B pre ph _ _ _ HB) by (done || lia).
  cbn [mbind outcome_bind]. rewrite Hph. cbn [mbind outcome_bind]. rewrite <- Hpl.
  case_ltb. case_ltb.
  rewrite (slice_at B (pre ++ ph) (payload f) (au ++ rest)
             (len pre + 4) (len pre + 4 + len (payload f)));
    [|by rewrite HB, <- ?app_assoc|solve_len|solve_len].
  cbn [mbind outcome_bind].
  rewrite (slice_at B (pre ++ ph ++ payload f) au rest);
    [|by rewrite HB, <- ?app_assoc|solve_len|solve_len].
  cbn [mbind outcome_bind]. by rewrite Ha.
Qed.

(** *** Decoding arbitrary bytes *)

Lemma slice_bytes_ok {E} (l r : list Z) a b :
  bytes_ok l → slice (E:=E) l a b = Ok r → bytes_ok r.
Proof. intros Hl (_ & _ & _ & ->)%slice_Ok_inv. auto with axiom. Qed.

Lemma index_Ok_inv {E} (l : list Z) i b :
  index (E:=E) l i = Ok b → 0 ≤ i < len l ∧ l !! Z.to_nat i = Some b.
Proof.
  unfold index. case_decide as Hi; [|done]. intros [= <-]. split; [done|].
  rewrite nth_lookup. destruct (lookup_lt_is_Some_2 l (Z.to_nat i)) as [x Hx];
    [unfold len in *; lia|]. by rewrite Hx.
Qed.

Lemma index_byte_ok {E} (l : list Z) i b : bytes_ok l → index (E:=E) l i = Ok b → byte_ok b.
Proof. intros Hl [_ Hb]%index_Ok_inv. by apply (Forall_lookup_1 _ _ _ _ Hl Hb). Qed.

Lemma list_of_4 (l : list Z) : len l = 4 → ∃ a b c d, l = [a; b; c; d].
Proof.
  destruct l as [|a [|b [|c [|d [|]]]]]; unfold len; simpl; try lia. intros _. eauto.
Qed.

Lemma decode_payload_header_inv pb ph :
  bytes_ok pb → len pb = 4 → decode_payload_header pb = Ok ph →
  0 ≤ ph_length ph < 2 ^ 24 ∧ 0 ≤ ph_flags ph < 16 ∧
  0 ≤ PayloadType_to_u8 (payload_type ph) < 16 ∧
  PayloadType_from_u8 (PayloadType_to_u8 (payload_type ph)) = payload_type ph ∧
  to_be 4 (payload_word (PayloadType_to_u8 (payload_type ph)) (ph_length ph) (ph_flags ph))
  = pb.
Proof.
  intros Hb Hl. destruct (list_of_4 pb Hl) as (a & b & c & d & ->).
  rewrite !Forall_cons in Hb. destruct Hb as (Ha & Hb & Hc & Hd & _).
  rewrite decode_payload_bytes by done. cbv beta in *. intros [= <-].
  cbn [ph_length ph_flags payload_type]. rewrite PayloadType_to_from by dlia.
  split_and!; try done; try dlia.
  rewrite payload_word_bytes by dlia. list_eq; dlia.
Qed.

Lemma decode_payload_header_total pb :
  len pb = 4 → bytes_ok pb → ∃ ph, decode_payload_header pb = Ok ph.
Proof.
  intros Hl Hb. destruct (list_of_4 pb Hl) as (a & b & c & d & ->).
  rewrite !Forall_cons in Hb. destruct Hb as (Ha & Hb & Hc & Hd & _).
  rewrite decode_payload_bytes by done. eauto.
Qed.

Lemma decode_trace_inv has B o t o' :
  decode_trace_id has B o = Ok (t, o') → 0 ≤ o ≤ len B →
  o ≤ o' ≤ len B ∧ is_some t = has ∧ slice (E:=CodecError) B o o' = Ok (from_opt id t).
Proof.
  unfold decode_trace_id, TRACE_ID_SIZE. destruct has.
  - case_ltb; [done|]. intros (b & Hb & [= <- <-])%bind_Ok_inv ?. split_and!; try done; lia.
  - intros [= <- <-] ?. split_and!; try done; try lia.
    unfold slice. rewrite decide_True by lia. by rewrite Z.sub_diag.
Qed.

Lemma slice_concat {A} (B x y : list A) o m o' :
  slice (E:=CodecError) B o m = Ok x → slice (E:=CodecError) B m o' = Ok y →
  slice (E:=CodecError) B o o' = Ok (x ++ y).
Proof.
  intros (H1 & H2 & _ & ->)%slice_Ok_inv (H3 & H4 & _ & ->)%slice_Ok_inv.
  unfold slice. rewrite decide_True by lia. f_equal.
  replace (Z.to_nat (o' - o)) with (Z.to_nat (m - o) + Z.to_nat (o' - m))%nat by lia.
  rewrite <- take_take_drop, drop_drop. do 3 f_equal. lia.
Qed.

Lemma slice_one {E} (B : list Z) i b :
  index (E:=E) B i = Ok b → slice (E:=CodecError) B i (i + 1) = Ok [b].
Proof.
  intros [Hi Hb]%index_Ok_inv. unfold slice. rewrite decide_True by lia.
  replace (Z.to_nat (i + 1 - i)) with 1%nat by lia.
  by rewrite (drop_S _ _ _ Hb).
Qed.

Lemma decode_routing_inv has B o r o' :
  bytes_ok B → decode_routing has B o = Ok (r, o') → 0 ≤ o ≤ len B →
  o ≤ o' ≤ len B ∧ is_some r = has ∧ option_ok routing_ok r ∧
  slice (E:=CodecError) B o o' = Ok (from_opt wire_routing r).
Proof.
  intros HB. unfold decode_routing, NODE_ID_SIZE. destruct has.
  - case_ltb; [done|].
    intros (d & Hd & (t & Ht & [= <- <-])%bind_Ok_inv)%bind_Ok_inv ?.
    split_and!; try done; try lia.
    + split; cbn; [|by eapply index_byte_ok]. split; [|by eapply slice_bytes_ok].
      apply slice_Ok_inv in Hd. unfold len in *. lia.
    + cbn. eapply slice_concat; [done|]. by eapply slice_one.
  - intros [= <- <-] ?. split_and!; try done; try lia.
    unfold slice. rewrite decide_True by lia. by rewrite Z.sub_diag.
Qed.

Lemma from_be_2 a b : byte_ok a → byte_ok b → to_be 2 (from_be [a; b]) = [a; b].
Proof. intros. apply (to_be_from_be [a; b]). by rewrite !Forall_cons. Qed.

Lemma from_be_2_range a b : byte_ok a → byte_ok b → 0 ≤ from_be [a; b] < 2 ^ 16.
Proof. intros. apply (from_be_bound [a; b]). by rewrite !Forall_cons. Qed.

Lemma decode_fragment_inv has B o i o' :
  bytes_ok B → decode_fragment_info has B o = Ok (i, o') → 0 ≤ o ≤ len B →
  o ≤ o' ≤ len B ∧ is_some i = has ∧ option_ok fragment_info_ok i ∧
  slice (E:=CodecError) B o o' = Ok (from_opt wire_fragment i).
Proof.
  intros HB. unfold decode_fragment_info. destruct has.
  - case_ltb; [done|].
    intros (b0 & H0 & (b1 & H1 & (b2 & H2 & (b3 & H3 & [= <- <-])%bind_Ok_inv)%bind_Ok_inv)%bind_Ok_inv)%bind_Ok_inv ?.
    assert (byte_ok b0) by (by eapply index_byte_ok). assert (byte_ok b1) by (by eapply index_byte_ok).
    assert (byte_ok b2) by (by eapply index_byte_ok). assert (byte_ok b3) by (by eapply index_byte_ok).
    split_and!; try done; try lia.
    + split; cbn [sequence total]; by apply from_be_2_range.
    + cbn [from_opt wire_fragment]. unfold wire_fragment. cbn [sequence total].
      rewrite !from_be_2 by done.
      apply slice_one in H0, H1, H2, H3.
      replace (o + 2) with (o + 1 + 1) in * by lia.
      replace (o + 3) with (o + 1 + 1 + 1) in * by lia.
      replace (o + 4) with (o + 1 + 1 + 1 + 1) by lia.
      change [b0; b1] with ([b0] ++ [b1]). change [b2; b3] with ([b2] ++ [b3]).
      rewrite <- app_assoc. eauto using slice_concat.
  - intros [= <- <-] ?. split_and!; try done; try lia.
    unfold slice. rewrite decide_True by lia. by rewrite Z.sub_diag.
Qed.

Lemma flags_to_from v : 0 ≤ v < 8 → FrameFlags_to_u8 (FrameFlags_from_u8 v) = v.
Proof. revert v. by_enumeration 8%nat. Qed.
Lemma trust_to_from v : 0 ≤ v < 4 → TrustLevel_to_u8 (TrustLevel_from_u8 v) = v.
Proof. revert v. by_enumeration 4%nat. Qed.
Lemma priority_to_from v : 0 ≤ v < 4 → Priority_to_u8 (Priority_from_u8 v) = v.
Proof. revert v. by_enumeration 4%nat. Qed.

Lemma byte2_fields b :
  0 ≤ b < 256 →
  64 * (b / 64) + 32 * Z.b2z (negb (Z.land b 32 =? 0)) + 16 * Z.b2z (negb (Z.land b 16 =? 0))
  = Z.land b 240.
Proof. revert b. by_enumeration 256%nat. Qed.

(** The two fields of byte 0 and the frame type spread over bytes 0 and 1. *)
Lemma unpack_raw_ftype b0 b1 :
  0 ≤ b0 < 256 → 0 ≤ b1 < 256 →
  Z.lor (u8_shl (Z.land b0 3) 3) (Z.land (Z.shiftr b1 5) 7) = 8 * (b0 mod 4) + b1 / 32.
Proof.
  intros. bits_to_arith. unfold u8_shl.
  replace (Z.shiftl (b0 mod 4) 3 mod 256) with (Z.shiftl (b0 mod 4) 3)
    by (rewrite !Z.shiftl_mul_pow2 by lia; dlia).
  rewrite lor_shiftl_add by dlia. dlia.
Qed.

(** What a successful header decode says: the header is in range and its wire
    form is the input with the four reserved bits of byte 2 cleared. *)
Lemma decode_fixed_header_inv hb h ht hr :
  bytes_ok hb → len hb = 58 → decode_fixed_header hb = Ok (h, ht, hr) →
  header_encodable h ∧ version h = PROTOCOL_VERSION ∧
  FrameType_from_u8 (FrameType_to_u8 (frame_type h)) = frame_type h ∧
  clock_ok (clock h) ∧ physical (clock h) ≤ MAX_PHYSICAL ∧
  ∃ b0 b1 b2 t, hb = b0 :: b1 :: b2 :: t ∧
                wire_header h ht hr = b0 :: b1 :: Z.land b2 240 :: t.
Proof.
  intros Hb Hl. destruct hb as [|b0 [|b1 [|b2 t]]]; [done..|].
  rewrite !Forall_cons in Hb. destruct Hb as (Hb0 & Hb1 & Hb2 & Ht). cbv beta in *.
  assert (len t = 55) as Htl by solve_len.
  unfold decode_fixed_header.
  rewrite (index_Ok _ 0 b0), (index_Ok _ 1 b1), (index_Ok _ 2 b2) by first [reflexivity | lia].
  cbn [mbind outcome_bind].
  destruct (Z.eqb_spec (Z.shiftr b0 6) MAGIC) as [Hm|]; [cbn [negb]|done].
  destruct (Z.eqb_spec (Z.land (Z.shiftr b0 2) 15) PROTOCOL_VERSION) as [Hv|]; [cbn [negb]|done].
  unfold CLOCK_SIZE, INTENT_HASH_SIZE, NODE_ID_SIZE.
  destruct (split_at t 7) as (c & t1 & -> & Hc & _); [lia|]. rewrite len_app in Htl.
  destruct (split_at t1 16) as (ih & sid & -> & Hi & _); [lia|]. rewrite len_app in Htl.
  rewrite !Forall_app in Ht. destruct Ht as (Htc & Hti & Hts).
  rewrite (slice_at _ [b0; b1; b2] c (ih ++ sid) 3 (3 + 7)) by (done || solve_len).
  cbn [mbind outcome_bind].
  rewrite (slice_at _ (b0 :: b1 :: b2 :: c) ih sid 10 (10 + 16)) by (done || solve_len).
  cbn [mbind outcome_bind].
  rewrite (slice_at _ (b0 :: b1 :: b2 :: c ++ ih) sid [] 26 (26 + 32));
    [|by rewrite app_nil_r; cbn; rewrite <- app_assoc|solve_len|solve_len].
  cbn [mbind outcome_bind]. intros [= <- <- <-].
  rewrite unpack_raw_ftype by done. revert Hm Hv. bits_to_arith. unfold MAGIC, PROTOCOL_VERSION.
  intros Hm Hv.
  assert (array_ok 7 c) as Hca by (split; [unfold len in Hc; lia|done]).
  assert (FrameType_to_u8 (FrameType_from_u8 (8 * (b0 mod 4) + b1 / 32))
          = 8 * (b0 mod 4) + b1 / 32) as Hft by (apply FrameType_to_from; dlia).
  assert (header_encodable (mkHeader 1 (FrameType_from_u8 (8 * (b0 mod 4) + b1 / 32))
     (FrameFlags_from_u8 ((b1 / 2 ^ 2) mod 8)) (TrustLevel_from_u8 (b1 mod 4))
     (Priority_from_u8 (b2 / 2 ^ 6)) (HybridClock_from_bytes c) ih sid)) as He.
  { split; cbn [version frame_type intent_hash sender_id]; [lia|rewrite Hft; dlia| |];
      (split; [unfold len in *; lia|done]). }
  destruct (clock_from_bytes_ok c Hca) as [Hck Hcm].
  rewrite Hv. split_and!; [done|done|by cbn [frame_type]; rewrite Hft|done|done|].
  exists b0, b1, b2, (c ++ ih ++ sid). split; [done|].
  unfold wire_header. rewrite (header_bytes _ _ _ He).
  cbn [version frame_type flags trust_level priority clock intent_hash sender_id].
  rewrite Hft, flags_to_from, trust_to_from, priority_to_from, clock_to_from_bytes by (done || dlia).
  cbn [app]. list_eq; [dlia|dlia|]. rewrite <- byte2_fields by done. done.
Qed.

Lemma slice_full {E} (l : list Z) n : n = len l → slice (E:=E) l 0 n = Ok l.
Proof. intros ->. apply (slice_at l [] l []); [by rewrite app_nil_r|done|done]. Qed.

Lemma decode_auth_inv t ab :
  bytes_ok ab → len ab = auth_overhead t →
  ∃ a, decode_auth t ab = Ok a ∧ auth_ok a ∧ auth_matches t a = true ∧ wire_auth a = ab.
Proof.
  intros Hb Hl. unfold decode_auth, SIGNATURE_SIZE, SESSION_TOKEN_SIZE.
  destruct t; cbn [auth_overhead] in Hl; try case_ltb; rewrite ?slice_full by lia;
    cbn [mbind outcome_bind]; eexists; (split; [reflexivity|]); cbn;
    unfold array_ok, len in *; split_and!; try done; try lia.
  by destruct ab.
Qed.

Lemma slice_split {E} (B x : list Z) o o' :
  slice (E:=E) B o o' = Ok x → B = take (Z.to_nat o) B ++ x ++ drop (Z.to_nat o') B.
Proof.
  intros (H1 & H2 & _ & ->)%slice_Ok_inv.
  replace (Z.to_nat o') with (Z.to_nat o + Z.to_nat (o' - o))%nat by lia.
  rewrite <- drop_drop, !take_drop. done.
Qed.

Lemma decode_trace_bytes has B o t o' :
  bytes_ok B → decode_trace_id has B o = Ok (t, o') → option_ok (array_ok 8) t.
Proof.
  unfold decode_trace_id, TRACE_ID_SIZE. intros HB. destruct has; [|by intros [= <- <-]].
  case_ltb; [done|]. intros (b & Hb & [= <- <-])%bind_Ok_inv.
  split; [apply slice_Ok_inv in Hb; unfold len in *; lia | by eapply slice_bytes_ok].
Qed.

Lemma decode_inv B d :
  bytes_ok B → decode B = Ok d →
  encodable (to_frame d) ∧
  ∃ b0 b1 b2 t rest, B = (b0 :: b1 :: b2 :: t) ++ rest ∧
                     wire (to_frame d) = b0 :: b1 :: Z.land b2 240 :: t.
Proof.
  intros HB. unfold decode, FIXED_HEADER_SIZE, MIN_FRAME_SIZE. case_ltb; [done|].
  intros (hb & Hhb & H1)%bind_Ok_inv.
  apply bind_Ok_inv in H1 as ([[h ht] hr] & Hh & H1).
  apply bind_Ok_inv in H1 as ([tid o1] & Htr & H1).
  apply bind_Ok_inv in H1 as ([r o2] & Hro & H1).
  apply bind_Ok_inv in H1 as ([fi o3] & Hfi & H1).
  unfold FIXED_HEADER_SIZE in *.
  assert (len hb = 58) as HhbL by (apply slice_Ok_inv in Hhb; lia).
  pose proof (decode_trace_bytes _ _ _ _ _ HB Htr) as Htb.
  apply decode_trace_inv in Htr as (Ho1 & Ht1 & Htr); [|lia].
  apply decode_routing_inv in Hro as (Ho2 & Hr1 & Hr2 & Hro); [|done|lia].
  apply decode_fragment_inv in Hfi as (Ho3 & Hf1 & Hf2 & Hfi); [|done|lia].
  revert H1. case_ltb; [done|]. intros (pb & Hpb & (ph & Hph & H2)%bind_Ok_inv)%bind_Ok_inv.
  assert (len pb = 4) as HpbL by (apply slice_Ok_inv in Hpb; lia).
  apply decode_payload_header_inv in Hph as (Hpl & Hpf & Hpt & Hpt' & Hpw);
    [|by eapply slice_bytes_ok|done].
  revert H2. case_ltb; [done|]. case_ltb; [done|].
  intros (p & Hp & (ab & Hab & (a & Ha & [= <-])%bind_Ok_inv)%bind_Ok_inv)%bind_Ok_inv.
  assert (len p = ph_length ph) as HpL by (apply slice_Ok_inv in Hp; lia).
  destruct (decode_auth_inv (trust_level h) ab) as (a' & Ha' & Hao & Ham & Haw);
    [by eapply slice_bytes_ok|apply slice_Ok_inv in Hab; lia|].
  rewrite Ha in Ha'. injection Ha' as <-.
  apply decode_fixed_header_inv in Hh as (He & Hv & Hft & Hck & Hcm & b0 & b1 & b2 & t & -> & Hw);
    [|by eapply slice_bytes_ok|done].
  assert (bytes_ok p) as Hpb' by (by eapply slice_bytes_ok).
  set (e := auth_overhead (trust_level h)) in *.
  assert (slice (E:=CodecError) B 0 (o3 + 4 + ph_length ph + e) =
          Ok ((b0 :: b1 :: b2 :: t) ++ from_opt id tid ++ from_opt wire_routing r
              ++ from_opt wire_fragment fi ++ pb ++ p ++ ab)) as Hs
    by eauto 12 using slice_concat.
  split.
  - destruct He as [? ? ? ?]. unfold MAX_PAYLOAD_SIZE, to_frame in *.
    split; cbn [header trace_id routing fragment_info payload_header payload auth d_header
      d_trace_id d_routing d_fragment_info d_payload_header d_payload d_auth];
      [|done|lia|done|done|by rewrite Hf1|split; [done|lia]|lia|unfold MAX_PAYLOAD_SIZE; rewrite HpL; split; [done|lia]|done].
    split; cbn [header trace_id routing fragment_info payload_header payload auth d_header
      d_trace_id d_routing d_fragment_info d_payload_header d_payload d_auth];
      try done; try lia. unfold header_ok, PROTOCOL_VERSION in *. split_and!; done || lia.
  - exists b0, b1, b2, (t ++ from_opt id tid ++ from_opt wire_routing r
      ++ from_opt wire_fragment fi ++ pb ++ p ++ ab),
      (drop (Z.to_nat (o3 + 4 + ph_length ph + e)) B).
    split; [apply slice_split in Hs; by rewrite take_0 in Hs|].
    unfold wire, wire_body, wire_payload_header, to_frame.
    cbn [header trace_id routing fragment_info payload_header payload auth d_header
      d_trace_id d_routing d_fragment_info d_payload_header d_payload d_auth].
    rewrite Ht1, Hr1, Hw, HpL, Hpw, Haw. cbn [app]. by rewrite <- !app_assoc.
Qed.

(** *** Totality *)

Ltac no_panic_step :=
  first
    [ discriminate
    | apply bind_not_Panic; [first [apply slice_not_Panic; lia | apply index_not_Panic; lia]|]; intros
    | case_match ].

Lemma decode_fixed_header_no_panic hb : len hb = 58 → decode_fixed_header hb ≠ Panic.
Proof.
  intros Hl. unfold decode_fixed_header, CLOCK_SIZE, INTENT_HASH_SIZE, NODE_ID_SIZE.
  repeat no_panic_step.
Qed.

Lemma decode_trace_no_panic has B o : 0 ≤ o → decode_trace_id has B o ≠ Panic.
Proof.
  intros Ho. unfold decode_trace_id, TRACE_ID_SIZE.
  destruct has; [|done]. case_ltb; [done|]. repeat no_panic_step.
Qed.

Lemma decode_routing_no_panic has B o : 0 ≤ o → decode_routing has B o ≠ Panic.
Proof.
  intros Ho. unfold decode_routing, NODE_ID_SIZE.
  destruct has; [|done]. case_ltb; [done|]. repeat no_panic_step.
Qed.

Lemma decode_fragment_no_panic has B o : 0 ≤ o → decode_fragment_info has B o ≠ Panic.
Proof.
  intros Ho. unfold decode_fragment_info.
  destruct has; [|done]. case_ltb; [done|]. repeat no_panic_step.
Qed.

Lemma decode_no_panic B : bytes_ok B → decode B ≠ Panic.
Proof.
  intros HB. unfold decode, FIXED_HEADER_SIZE, MIN_FRAME_SIZE. case_ltb; [done|].
  unfold FIXED_HEADER_SIZE in *.
  apply bind_not_Panic; [apply slice_not_Panic; lia|]. intros hb Hhb.
  apply bind_not_Panic;
    [apply decode_fixed_header_no_panic; apply slice_Ok_inv in Hhb; lia|]. intros [[h ht] hr] _.
  apply bind_not_Panic; [apply decode_trace_no_panic; lia|]. intros [t o1] H1.
  apply decode_trace_inv in H1 as (? & _); [|lia].
  apply bind_not_Panic; [apply decode_routing_no_panic; lia|]. intros [r o2] H2.
  apply decode_routing_inv in H2 as (? & _); [|done|lia].
  apply bind_not_Panic; [apply decode_fragment_no_panic; lia|]. intros [i o3] H3.
  apply decode_fragment_inv in H3 as (? & _); [|done|lia].
  case_ltb; [done|]. apply bind_not_Panic; [apply slice_not_Panic; lia|]. intros pb Hpb.
  assert (len pb = 4 ∧ bytes_ok pb) as [Hl Hb].
  { split; [apply slice_Ok_inv in Hpb; lia|by eapply slice_bytes_ok]. }
  destruct (decode_payload_header_total pb Hl Hb) as [ph Hph]. rewrite Hph. cbn [mbind outcome_bind].
  apply decode_payload_header_inv in Hph as (Hn & _); [|done|done].
  case_ltb; [done|]. case_ltb; [done|].
  assert (0 ≤ auth_overhead (trust_level h)) by (by destruct (trust_level h)).
  apply bind_not_Panic; [apply slice_not_Panic; lia|]. intros p _.
  apply bind_not_Panic; [apply slice_not_Panic; lia|]. intros ab Hab.
  destruct (decode_auth_inv (trust_level h) ab) as (a & Ha & _);
    [exact (slice_bytes_ok _ _ _ _ HB Hab)|apply slice_Ok_inv in Hab; lia|]. by rewrite Ha.
Qed.

(** *** Signed bytes *)

Lemma set_ttl_set_ttl a b f : set_ttl a (set_ttl b f) = set_ttl a f.
Proof. unfold set_ttl. by destruct f as [h t [[d l]|] fi ph p au]. Qed.

Lemma set_ttl_encodable t f : 0 ≤ t < 256 → encodable f → encodable (set_ttl t f).
Proof.
  intros Ht He. destruct f as [h ti [[d l]|] fi ph p au]; [|done].
  destruct He as [[? ? Hr ? ? ? ? ? ?] ? ? ? ? ? ? ? ? ?]. split; try done. split; try done.
  cbn in *. by destruct Hr.
Qed.

Lemma set_ttl_writable t f : 0 ≤ t < 256 → writable f → writable (set_ttl t f).
Proof.
  intros Ht He. destruct f as [h ti [[d l]|] fi ph p au]; [|done].
  destruct He as [[? ? Hr ? ? ? ? ? ?] ? ? ? ?]. split; try done. split; try done.
  cbn in *. by destruct Hr.
Qed.

Lemma set_ttl_size t f : wire_size (set_ttl t f) = wire_size f.
Proof. by destruct f as [h ti [[d l]|] fi ph p au]. Qed.

Lemma signature_data_wire f : writable f → signature_data f = wire_body (set_ttl 0 f).
Proof.
  intros Hw. apply (set_ttl_writable 0) in Hw; [|lia]. unfold signature_data.
  pose proof (len_wire_body _ Hw) as HL. set (g := set_ttl 0 f) in *.
  assert (0 ≤ wire_size g) by (rewrite <- len_wire by done; apply len_nonneg).
  rewrite encode_writes_wire by (done || rewrite len_replicate; lia).
  unfold wire. rewrite <- app_assoc. apply take_app_exact. rewrite HL.
  pose proof (auth_size_nonneg (auth g)). pose proof (len_nonneg (wire_body g)). lia.
Qed.

(** The authentication-free part of a frame, with its trailer zeroed. *)
Definition unsigned (f : Frame) : Frame :=
  mkFrame (header f) (trace_id f) (routing f) (fragment_info f) (payload_header f)
    (payload f) (default_auth (trust_level (header f))).

Lemma unsigned_encodable f : encodable f → encodable (unsigned f).
Proof.
  intros [[] ? ? ? ? ? ? ? ? ?]. split; try done.
  - split; try done. apply default_auth_ok.
  - cbn. by destruct (trust_level (header f)).
Qed.

Lemma unsigned_wire f :
  ∃ rest, wire_body f ++ replicate 64 0 = wire (unsigned f) ++ rest.
Proof.
  unfold wire. change (wire_body (unsigned f)) with (wire_body f). cbn [auth unsigned].
  destruct (trust_level (header f)).
  - exists []. by rewrite app_nil_r.
  - exists []. by rewrite app_nil_r.
  - exists (replicate 48 0). by rewrite <- app_assoc.
  - exists (replicate 64 0). by rewrite app_nil_r.
Qed.

Lemma wire_body_inj f g :
  encodable f → encodable g → wire_body f = wire_body g → unsigned f = unsigned g.
Proof.
  intros Hf%unsigned_encodable Hg%unsigned_encodable E.
  destruct (unsigned_wire f) as [r1 E1], (unsigned_wire g) as [r2 E2].
  pose proof (decode_of_wire _ r1 Hf) as D1. pose proof (decode_of_wire _ r2 Hg) as D2.
  rewrite <- E1 in D1. rewrite <- E2, <- E in D2. rewrite D1 in D2.
  injection D2. intros. unfold unsigned. congruence.
Qed.

(** ** Properties *)

(** Encoding into a caller's buffer.  A frame whose fields fit the wire
    widths is written exactly as [wire] says, the returned size is
    [Frame::wire_size], and the bytes past it keep their value; a short buffer
    and an oversized payload are refused with the documented errors. *)
Theorem encode_correct f buffer :
  (writable f → wire_size f ≤ len buffer →
     encode f buffer
     = Ok (wire f ++ drop (Z.to_nat (wire_size f)) buffer, wire_size f)) ∧
  (len buffer < wire_size f →
     encode f buffer = Err (BufferTooSmall (wire_size f) (len buffer))) ∧
  (wire_size f ≤ len buffer → MAX_PAYLOAD_SIZE < len (payload f) →
     encode f buffer = Err (PayloadTooLarge (len (payload f)))).
Proof.
  split_and!.
  - intros Hw Hl. rewrite encode_writes_wire by done.
    pose proof (len_wire f Hw) as E. unfold len in E.
    by replace (Z.to_nat (wire_size f)) with (length (wire f)) by lia.
  - intros H. unfold encode. by case_ltb.
  - intros H H'. unfold encode. case_ltb. by case_ltb.
Qed.

(** A small frame with every extension, used by the witnesses. *)
Definition sample_frame : Frame :=
  mkFrame
    (mkHeader 1 FStream (mkFlags true false true) Compress High (mkClock 1700000000 42)
       (replicate 16 7) (replicate 32 9))
    (Some (to_be 8 123456789)) (Some (mkRouting (replicate 32 5) 4))
    (Some (mkFragInfo 1 3)) (mkPayloadHeader PKv 3 1) [10; 20; 30]
    (AuthToken (replicate 16 1)).

Lemma sample_encodable : encodable sample_frame.
Proof.
  split; try (vm_compute; split; reflexivity || discriminate); try (vm_compute; done).
  split; vm_compute; repeat split; try done; repeat constructor; done.
Qed.

Lemma encode_correct_witness :
  encode sample_frame (replicate 130 255)
  = Ok (wire sample_frame ++ replicate 4 255, 126).
Proof.
  exact (proj1 (encode_correct sample_frame (replicate 130 255))
           (encodable_writable _ sample_encodable) ltac:(vm_compute; discriminate)).
Defined.

(** C8: decoding inverts encoding.  An encodable frame written into any buffer
    large enough is decoded back field by field, both from the written prefix
    and from the whole buffer with its stale tail. *)
Theorem decode_encode f buffer :
  encodable f → wire_size f ≤ len buffer →
  ∃ out, encode f buffer = Ok (out, wire_size f) ∧
         decode (take (Z.to_nat (wire_size f)) out) = Ok (of_frame f) ∧
         decode out = Ok (of_frame f) ∧ to_frame (of_frame f) = f.
Proof.
  intros He Hl. pose proof (encodable_writable f He) as Hw.
  eexists. split; [by apply encode_writes_wire|].
  rewrite take_app_exact by (rewrite len_wire by done; pose proof (len_nonneg (wire f));
    rewrite len_wire in * by done; lia).
  split_and!; [|by apply decode_of_wire|by destruct f].
  rewrite <- (app_nil_r (wire f)). by apply decode_of_wire.
Qed.

Lemma decode_encode_witness :
  ∃ out, encode sample_frame (replicate 200 0) = Ok (out, wire_size sample_frame) ∧
         decode (take (Z.to_nat (wire_size sample_frame)) out) = Ok (of_frame sample_frame) ∧
         decode out = Ok (of_frame sample_frame) ∧ to_frame (of_frame sample_frame) = sample_frame.
Proof.
  exact (decode_encode sample_frame (replicate 200 0) sample_encodable
           ltac:(vm_compute; discriminate)).
Defined.

(** No received datagram makes the decoder panic: [decode],
    [decode_header] and [payload_slice] return a value or an error on every
    byte string. *)
Theorem decode_total B :
  bytes_ok B → decode B ≠ Panic ∧ decode_header B ≠ Panic ∧ payload_slice B ≠ Panic.
Proof.
  intros HB. split_and!; [by apply decode_no_panic| |].
  - unfold decode_header, FIXED_HEADER_SIZE. case_ltb; [done|].
    apply bind_not_Panic; [apply slice_not_Panic; lia|]. intros hb Hhb.
    apply bind_not_Panic; [|by intros [[]]].
    apply decode_fixed_header_no_panic. apply slice_Ok_inv in Hhb. lia.
  - unfold payload_slice, MIN_FRAME_SIZE, FIXED_HEADER_SIZE. case_ltb; [done|].
    unfold FIXED_HEADER_SIZE in *. apply bind_not_Panic; [apply slice_not_Panic; lia|]. intros hb Hhb.
    apply bind_not_Panic; [apply decode_fixed_header_no_panic; apply slice_Ok_inv in Hhb; lia|].
    intros [[h ht] hr] _. set (o1 := if ht then _ else _). set (o2 := if hr then _ else _).
    set (o := if fragmented (flags h) then _ else _).
    assert (0 ≤ o) by (unfold o, o2, o1, TRACE_ID_SIZE, NODE_ID_SIZE; repeat case_match; lia).
    case_ltb; [done|]. apply bind_not_Panic; [apply slice_not_Panic; lia|]. intros pb Hpb.
    assert (len pb = 4 ∧ bytes_ok pb) as [Hl Hb].
    { split; [apply slice_Ok_inv in Hpb; lia|exact (slice_bytes_ok _ _ _ _ HB Hpb)]. }
    destruct (decode_payload_header_total pb Hl Hb) as [ph Hph]. rewrite Hph. cbn [mbind outcome_bind].
    apply decode_payload_header_inv in Hph as (Hn & _); [|done|done].
    case_ltb; [done|]. apply slice_not_Panic; lia.
Qed.

Lemma decode_total_witness :
  decode (replicate 62 130) ≠ Panic ∧ decode_header (replicate 62 130) ≠ Panic ∧
  payload_slice (replicate 62 130) ≠ Panic.
Proof. apply decode_total. apply Forall_replicate. lia. Defined.

(** C16: what the decoder accepts is canonical.  A decoded frame is encodable,
    and re-encoding it reproduces the received prefix byte for byte, except for
    the four reserved bits of byte 2, which are cleared. *)
Theorem decode_canonical B d :
  bytes_ok B → decode B = Ok d →
  encodable (to_frame d) ∧
  ∃ b0 b1 b2 t rest, B = (b0 :: b1 :: b2 :: t) ++ rest ∧
                     wire (to_frame d) = b0 :: b1 :: Z.land b2 240 :: t.
Proof. apply decode_inv. Qed.

Lemma decode_canonical_witness :
  encodable (to_frame (of_frame sample_frame)) ∧
  ∃ b0 b1 b2 t rest, wire sample_frame = (b0 :: b1 :: b2 :: t) ++ rest ∧
    wire (to_frame (of_frame sample_frame)) = b0 :: b1 :: Z.land b2 240 :: t.
Proof.
  apply (decode_canonical (wire sample_frame)); [|vm_compute; reflexivity].
  apply (bool_decide_unpack _). vm_compute. exact I.
Defined.

(** The zero-copy payload access and the header-only decode agree with the
    full decoder on every buffer it accepts. *)
Theorem partial_decodes_agree B d :
  bytes_ok B → decode B = Ok d →
  payload_slice B = Ok (d_payload d) ∧ decode_header B = Ok (d_header d).
Proof.
  intros HB. unfold decode, payload_slice, decode_header, FIXED_HEADER_SIZE, MIN_FRAME_SIZE.
  case_ltb; [done|]. unfold FIXED_HEADER_SIZE in *.
  intros (hb & Hhb & H1)%bind_Ok_inv. change (0 + 58) with 58 in *.
  apply bind_Ok_inv in H1 as ([[h ht] hr] & Hh & H1).
  apply bind_Ok_inv in H1 as ([tid o1] & Htr & H1).
  apply bind_Ok_inv in H1 as ([r o2] & Hro & H1).
  apply bind_Ok_inv in H1 as ([fi o3] & Hfi & H1).
  assert (o3 = (if fragmented (flags h) then
      (if hr then (if ht then 58 + TRACE_ID_SIZE else 58) + (NODE_ID_SIZE + 1)
       else if ht then 58 + TRACE_ID_SIZE else 58) + 4
    else if hr then (if ht then 58 + TRACE_ID_SIZE else 58) + (NODE_ID_SIZE + 1)
       else if ht then 58 + TRACE_ID_SIZE else 58)) as Ho.
  { unfold decode_trace_id in Htr. unfold decode_routing in Hro. unfold decode_fragment_info in Hfi.
    destruct ht, hr, (fragmented (flags h)); repeat case_match; try done; simplify_eq;
      repeat match goal with
      | H : (_ ≫= _) = Ok _ |- _ => apply bind_Ok_inv in H as (? & ? & H)
      | H : Ok _ = Ok _ |- _ => injection H as ? ?; subst
      end; lia. }
  revert H1. case_ltb; [done|]. intros (pb & Hpb & (ph & Hph & H2)%bind_Ok_inv)%bind_Ok_inv.
  revert H2. case_ltb; [done|]. case_ltb; [done|].
  intros (p & Hp & (ab & Hab & (a & Ha & [= <-])%bind_Ok_inv)%bind_Ok_inv)%bind_Ok_inv.
  assert (0 ≤ auth_overhead (trust_level h)) by (by destruct (trust_level h)).
  rewrite Hhb. cbn [mbind outcome_bind]. rewrite Hh. cbn [mbind outcome_bind].
  rewrite <- Ho. split; [|case_ltb; done].
  case_ltb. rewrite Hpb. cbn [mbind outcome_bind]. rewrite Hph. cbn [mbind outcome_bind].
  by case_ltb.
Qed.

Lemma partial_decodes_agree_witness :
  payload_slice (wire sample_frame) = Ok [10; 20; 30] ∧
  decode_header (wire sample_frame) = Ok (header sample_frame).
Proof.
  apply (partial_decodes_agree (wire sample_frame) (of_frame sample_frame));
    [|vm_compute; reflexivity].
  apply (bool_decide_unpack _). vm_compute. exact I.
Defined.

(** What a signature covers.  The signed bytes do not depend on the hop
    count of the routing extension nor on the authentication field, so a relay
    may decrement the TTL; and they determine every other field of an encodable
    frame, destination included.  A payload over the limit is never encoded, so
    its signed bytes are all zero. *)
Theorem signature_data_coverage :
  (∀ f t, signature_data (set_ttl t f) = signature_data f) ∧
  (∀ f g, encodable f → encodable g → signature_data f = signature_data g →
     unsigned (set_ttl 0 f) = unsigned (set_ttl 0 g)) ∧
  (∀ f, MAX_PAYLOAD_SIZE < len (payload f) →
     ∃ n, signature_data f = replicate n 0).
Proof.
  split_and!.
  - intros f t. unfold signature_data. by rewrite set_ttl_set_ttl.
  - intros f g Hf Hg E. rewrite !signature_data_wire in E by (by apply encodable_writable).
    apply wire_body_inj; [apply set_ttl_encodable; [lia|done]..|done].
  - intros f Hf. unfold signature_data.
    assert (payload (set_ttl 0 f) = payload f) as Hp
      by (by destruct f as [? ? [[]|] ? ? ? ?]).
    unfold encode. rewrite Hp. case_ltb. case_ltb. eexists. by rewrite take_replicate.
Qed.

Lemma signature_data_coverage_witness :
  unsigned (set_ttl 0 sample_frame) = unsigned (set_ttl 0 (set_ttl 9 sample_frame)).
Proof.
  apply (proj1 (proj2 signature_data_coverage));
    [exact sample_encodable|apply set_ttl_encodable; [lia|exact sample_encodable]|].
  vm_compute. reflexivity.
Defined.

(** The two size functions.  [axiom_codec::wire_size] agrees with
    [Frame::wire_size] on every frame without a routing extension, and is short
    by [ROUTING_EXT_SIZE] on every frame that carries one. *)
Theorem codec_wire_size_gap f :
  auth_matches (trust_level (header f)) (auth f) = true →
  wire_size f = codec_wire_size (len (payload f)) (trust_level (header f))
                  (is_some (trace_id f)) (is_some (fragment_info f))
                + (if is_some (routing f) then ROUTING_EXT_SIZE else 0).
Proof.
  intros Ha. assert (auth_overhead (trust_level (header f)) = Authentication_wire_size (auth f))
    as E by (destruct (trust_level (header f)), (auth f); done).
  unfold wire_size, codec_wire_size. rewrite E. repeat case_match; lia.
Qed.

Lemma codec_wire_size_gap_witness :
  wire_size sample_frame = codec_wire_size 3 Compress true true + 33.
Proof. exact (codec_wire_size_gap sample_frame eq_refl). Defined.
