(* ===== verification/Text.v ===== *)
(** * Rust text

    A Rust [str] is a list of Unicode scalar values ([char]s as [Z]);
    [as_bytes] is its UTF-8 encoding.  The character classes and string
    operations the gateway uses are defined here.  Third-party text codecs are
    interfaces: [HexCodec] states what callers rely on of the [hex] crate, and
    [hex_reference] is a concrete implementation for examples. *)

From stdpp Require Import base numbers list strings.
From Stdlib Require Import Ascii.
From S2P Require Import Prelude.

Abbreviation text := (list Z).

(** String literals of the source (ASCII). *)
Fixpoint str (s : string) : text :=
  match s with
  | EmptyString => []
  | String a s' => Z.of_nat (nat_of_ascii a) :: str s'
  end.
Arguments str s%_string.

(** ** UTF-8 *)

Definition utf8_char (c : Z) : list Z :=
  if c <? 128 then [c]
  else if c <? 2048 then [192 + c / 64; 128 + c mod 64]
  else if c <? 65536 then [224 + c / 4096; 128 + (c / 64) mod 64; 128 + c mod 64]
  else [240 + c / 262144; 128 + (c / 4096) mod 64; 128 + (c / 64) mod 64; 128 + c mod 64].

Definition as_bytes (s : text) : list Z := flat_map utf8_char s.

(** Unicode scalar values. *)
Definition char_ok (c : Z) : Prop := 0 ≤ c < 55296 ∨ 57344 ≤ c < 1114112.
#[export] Instance char_ok_dec c : Decision (char_ok c).
Proof. unfold char_ok. apply _. Defined.

(** ** Characters *)

Definition is_ascii_digit (b : Z) : bool := (48 <=? b) && (b <=? 57).

Definition char_to_ascii_lowercase (c : Z) : Z :=
  if (65 <=? c) && (c <=? 90) then c + 32 else c.
Definition to_ascii_lowercase (s : text) : text := map char_to_ascii_lowercase s.

(** Unicode White_Space. *)
Definition is_whitespace (c : Z) : bool :=
  ((9 <=? c) && (c <=? 13)) || (c =? 32) || (c =? 133) || (c =? 160) || (c =? 5760)
  || ((8192 <=? c) && (c <=? 8202)) || (c =? 8232) || (c =? 8233) || (c =? 8239)
  || (c =? 8287) || (c =? 12288).

(** ** Strings *)

Fixpoint trim_start (s : text) : text :=
  match s with
  | c :: s' => if is_whitespace c then trim_start s' else s
  | [] => []
  end.
Definition trim (s : text) : text := rev (trim_start (rev (trim_start s))).

Definition contains_char (s : text) (c : Z) : bool := existsb (Z.eqb c) s.

(** [s.split(sep)]: the fields between separators, never empty. *)
Fixpoint split_char (sep : Z) (s : text) : list text :=
  match s with
  | [] => [[]]
  | c :: s' =>
      if c =? sep then [] :: split_char sep s'
      else match split_char sep s' with
           | f :: fs => (c :: f) :: fs
           | [] => [[c]]
           end
  end.

Fixpoint starts_with (s p : text) : bool :=
  match p, s with
  | [], _ => true
  | a :: p', b :: s' => (a =? b) && starts_with s' p'
  | _ :: _, [] => false
  end.

(** [s.contains(p)] for a string pattern. *)
Fixpoint contains (s p : text) : bool :=
  starts_with s p || match s with [] => false | _ :: s' => contains s' p end.

Fixpoint join (sep : text) (l : list text) : text :=
  match l with
  | [] => []
  | [x] => x
  | x :: l' => x ++ sep ++ join sep l'
  end.

(** First result of a search with early return. *)
Fixpoint first_some {A B} (f : A → option B) (l : list A) : option B :=
  match l with
  | [] => None
  | a :: l' => match f a with Some b => Some b | None => first_some f l' end
  end.

(** ** Hexadecimal *)

Definition hex_val (b : Z) : option Z :=
  if (48 <=? b) && (b <=? 57) then Some (b - 48)
  else if (97 <=? b) && (b <=? 102) then Some (b - 97 + 10)
  else if (65 <=? b) && (b <=? 70) then Some (b - 65 + 10)
  else None.

Definition hex_digit (n : Z) : Z := if n <? 10 then 48 + n else 97 + n - 10.

(** [format!("{b:02x}")] *)
Definition fmt_02x (b : Z) : text := [hex_digit (b / 16); hex_digit (b mod 16)].

(** What the gateway relies on of the [hex] crate. *)
Class HexCodec := {
  hex_encode : list Z → text;
  hex_decode : text → option (list Z);
  hex_decode_encode : ∀ b, bytes_ok b → hex_decode (hex_encode b) = Some b;
  hex_decode_bytes : ∀ s b, hex_decode s = Some b → bytes_ok b;
  hex_encode_digits : ∀ b, bytes_ok b →
    length (hex_encode b) = (2 * length b)%nat ∧ Forall (λ c, is_Some (hex_val c)) (hex_encode b)
}.

Fixpoint ref_hex_decode (s : text) : option (list Z) :=
  match s with
  | [] => Some []
  | h :: l :: s' =>
      match hex_val h, hex_val l, ref_hex_decode s' with
      | Some a, Some b, Some r => Some (16 * a + b :: r)
      | _, _, _ => None
      end
  | [_] => None
  end.

(** ** Lemmas *)

Lemma hex_val_range b v : hex_val b = Some v → 0 ≤ v < 16.
Proof. unfold hex_val. repeat case_match; intros; simplify_eq; lia. Qed.

Lemma hex_val_digit n : 0 ≤ n < 16 → hex_val (hex_digit n) = Some n.
Proof. revert n. by_enumeration 16%nat. Qed.

Lemma ref_hex_roundtrip b : bytes_ok b → ref_hex_decode (flat_map fmt_02x b) = Some b.
Proof.
  induction 1 as [|x l Hx Hl IH]; [done|]. cbn [flat_map fmt_02x app ref_hex_decode].
  rewrite IH, !hex_val_digit by dlia. do 2 f_equal. dlia.
Qed.

Lemma ref_hex_decode_bytes n s b :
  (length s ≤ n)%nat → ref_hex_decode s = Some b → bytes_ok b.
Proof.
  revert s b. induction n as [|n IH]; intros s b Hn; (destruct s as [|h [|l s]]; cbn in *;
    [intros; simplify_eq; constructor|done|try lia]).
  destruct (hex_val h) eqn:E1, (hex_val l) eqn:E2, (ref_hex_decode s) eqn:E3; try done.
  intros [= <-]. apply hex_val_range in E1, E2. constructor; [lia|]. eapply IH; [|done]. lia.
Qed.

Lemma ref_hex_digits b :
  bytes_ok b → length (flat_map fmt_02x b) = (2 * length b)%nat ∧ Forall (λ c, is_Some (hex_val c)) (flat_map fmt_02x b).
Proof.
  induction 1 as [|x l Hx Hl [IH1 IH2]]; [by split|]. cbn [flat_map fmt_02x app length]. split; [lia|].
  repeat constructor; [..|done]; eexists; apply hex_val_digit; dlia.
Qed.

#[export] Instance hex_reference : HexCodec := {|
  hex_encode := flat_map fmt_02x;
  hex_decode := ref_hex_decode;
  hex_decode_encode := ref_hex_roundtrip;
  hex_decode_bytes s b := ref_hex_decode_bytes (length s) s b (Nat.le_refl _);
  hex_encode_digits := ref_hex_digits
|}.

Lemma hex_encode_inj `{HexCodec} a b :
  bytes_ok a → bytes_ok b → hex_encode a = hex_encode b → a = b.
Proof.
  intros Ha Hb E. apply hex_decode_encode in Ha, Hb. congruence.
Qed.

Lemma first_some_Some {A B} (f : A → option B) l b :
  first_some f l = Some b → ∃ a, a ∈ l ∧ f a = Some b.
Proof.
  induction l as [|a l IH]; [done|]. cbn. destruct (f a) eqn:E.
  - intros [= <-]. exists a. split; [left|done].
  - intros (a' & Ha & Hf)%IH. exists a'. split; [by right|done].
Qed.

Lemma first_some_None {A B} (f : A → option B) l :
  first_some f l = None ↔ ∀ a, a ∈ l → f a = None.
Proof.
  induction l as [|a l IH]; cbn.
  - split; [intros _ a Ha; by apply not_elem_of_nil in Ha|done].
  - destruct (f a) eqn:E.
    + split; [done|]. intros H. specialize (H a (list_elem_of_here _ _)). congruence.
    + rewrite IH. split.
      * intros H x [->|Hx]%elem_of_cons; auto.
      * intros H x Hx. apply H. by right.
Qed.

Lemma as_bytes_app s t : as_bytes (s ++ t) = as_bytes s ++ as_bytes t.
Proof. apply flat_map_app. Qed.

Definition ascii_text (s : text) : Prop := Forall (λ c, 0 ≤ c < 128) s.

Lemma as_bytes_ascii s : ascii_text s → as_bytes s = s.
Proof.
  induction 1 as [|c s Hc Hs IH]; [done|]. cbn [as_bytes flat_map]. unfold utf8_char at 1.
  destruct (Z.ltb_spec c 128); [|lia]. cbn. by f_equal.
Qed.

Lemma utf8_char_bytes c : char_ok c → bytes_ok (utf8_char c).
Proof.
  unfold char_ok, utf8_char. intros Hc. repeat case_match; rewrite ?Forall_cons, ?Forall_nil;
    split_and!; try done; dlia.
Qed.

Lemma as_bytes_ok s : Forall char_ok s → bytes_ok (as_bytes s).
Proof.
  induction 1; [constructor|]. cbn. apply Forall_app. auto using utf8_char_bytes.
Qed.

(** ** Lossy decoding

    [String::from_utf8_lossy]: every maximal invalid sequence becomes U+FFFD. *)

Definition REPLACEMENT : Z := 65533.
Definition in_range (lo hi b : Z) : bool := (lo <=? b) && (b <=? hi).
Definition continuation (b : Z) : bool := in_range 128 191 b.

(** The second byte allowed after a lead byte of a three- or four-byte character. *)
Definition second_of_3 (a b : Z) : bool :=
  ((a =? 224) && in_range 160 191 b) || (in_range 225 236 a && continuation b)
  || ((a =? 237) && in_range 128 159 b) || (in_range 238 239 a && continuation b).
Definition second_of_4 (a b : Z) : bool :=
  ((a =? 240) && in_range 144 191 b) || (in_range 241 243 a && continuation b)
  || ((a =? 244) && in_range 128 143 b).

Fixpoint from_utf8_lossy (l : list Z) : text :=
  match l with
  | [] => []
  | a :: l1 =>
      if a <? 128 then a :: from_utf8_lossy l1
      else if in_range 194 223 a then
        match l1 with
        | b :: l2 =>
            if continuation b then (a - 192) * 64 + (b - 128) :: from_utf8_lossy l2
            else REPLACEMENT :: from_utf8_lossy l1
        | [] => [REPLACEMENT]
        end
      else if in_range 224 239 a then
        match l1 with
        | b :: l2 =>
            if second_of_3 a b then
              match l2 with
              | c :: l3 =>
                  if continuation c
                  then (a - 224) * 4096 + (b - 128) * 64 + (c - 128) :: from_utf8_lossy l3
                  else REPLACEMENT :: from_utf8_lossy l2
              | [] => [REPLACEMENT]
              end
            else REPLACEMENT :: from_utf8_lossy l1
        | [] => [REPLACEMENT]
        end
      else if in_range 240 244 a then
        match l1 with
        | b :: l2 =>
            if second_of_4 a b then
              match l2 with
              | c :: l3 =>
                  if continuation c then
                    match l3 with
                    | d :: l4 =>
                        if continuation d
                        then (a - 240) * 262144 + (b - 128) * 4096 + (c - 128) * 64 + (d - 128)
                             :: from_utf8_lossy l4
                        else REPLACEMENT :: from_utf8_lossy l3
                    | [] => [REPLACEMENT]
                    end
                  else REPLACEMENT :: from_utf8_lossy l2
              | [] => [REPLACEMENT]
              end
            else REPLACEMENT :: from_utf8_lossy l1
        | [] => [REPLACEMENT]
        end
      else REPLACEMENT :: from_utf8_lossy l1
  end.

Ltac bool_lia := rewrite ?andb_true_iff, ?orb_true_iff, ?Z.leb_le, ?Z.eqb_eq, ?Z.ltb_lt; dlia.
Ltac bool_cond H := match goal with |- context [if ?b then _ else _] => replace b with H by (symmetry; unfold second_of_3, second_of_4, continuation, in_range; first [by apply Z.ltb_lt; dlia | apply Z.ltb_ge; dlia | bool_lia]) end.

Lemma lossy_char c r : char_ok c → from_utf8_lossy (utf8_char c ++ r) = c :: from_utf8_lossy r.
Proof.
  unfold char_ok. intros Hc. unfold utf8_char.
  destruct (Z.ltb_spec c 128) as [|H1]; [cbn; by rewrite (proj2 (Z.ltb_lt _ _)) by lia|].
  destruct (Z.ltb_spec c 2048) as [|H2]; [|destruct (Z.ltb_spec c 65536) as [|H3]]; cbn [app from_utf8_lossy].
  - rewrite (proj2 (Z.ltb_ge _ _)) by dlia. bool_cond true. bool_cond true. f_equal. dlia.
  - rewrite (proj2 (Z.ltb_ge _ _)) by dlia.
    assert (E : in_range 194 223 (224 + c / 4096) = false).
    { unfold in_range. apply andb_false_iff. right. apply Z.leb_gt. dlia. }
    rewrite E. clear E. bool_cond true.
    bool_cond true. bool_cond true. f_equal. dlia.
  - rewrite (proj2 (Z.ltb_ge _ _)) by dlia.
    assert (E : in_range 194 223 (240 + c / 262144) = false).
    { unfold in_range. apply andb_false_iff. right. apply Z.leb_gt. dlia. }
    assert (E' : in_range 224 239 (240 + c / 262144) = false).
    { unfold in_range. apply andb_false_iff. right. apply Z.leb_gt. dlia. }
    rewrite E, E'. clear E E'. bool_cond true.
    bool_cond true. bool_cond true. bool_cond true. f_equal. dlia.
Qed.

Lemma lossy_as_bytes s : Forall char_ok s → from_utf8_lossy (as_bytes s) = s.
Proof.
  induction 1 as [|c s Hc _ IH]; [done|]. change (as_bytes (c :: s)) with (utf8_char c ++ as_bytes s).
  by rewrite lossy_char, IH.
Qed.

Lemma lossy_char_ok n l : (length l ≤ n)%nat → bytes_ok l → Forall char_ok (from_utf8_lossy l).
Proof.
  assert (Hr : char_ok REPLACEMENT) by (right; unfold REPLACEMENT; lia).
  revert l. induction n as [|n IH]; intros l Hn Hb; (destruct l as [|a l1]; [constructor|]);
    cbn [length] in Hn; [lia|].
  apply Forall_cons_1 in Hb as [Ha Hb1]. cbn [from_utf8_lossy].
  pose proof (IH l1 ltac:(lia) Hb1) as H1.
  destruct (Z.ltb_spec a 128); [constructor; [left; lia|done]|].
  destruct (in_range 194 223 a) eqn:E2; [|destruct (in_range 224 239 a) eqn:E3; [|destruct (in_range 240 244 a) eqn:E4; [|by constructor]]];
    (destruct l1 as [|b l2]; [by constructor|]); apply Forall_cons_1 in Hb1 as [Hb' Hb2]; cbn [length] in Hn;
    pose proof (IH l2 ltac:(lia) Hb2) as H2.
  - destruct (continuation b) eqn:Ec; [|by constructor]. constructor; [|done].
    unfold continuation, in_range in *. rewrite andb_true_iff, !Z.leb_le in *. left. lia.
  - destruct (second_of_3 a b) eqn:Es; [|by constructor]. destruct l2 as [|c l3]; [by constructor|].
    apply Forall_cons_1 in Hb2 as [Hc Hb3]. cbn [length] in Hn. pose proof (IH l3 ltac:(lia) Hb3) as H3.
    destruct (continuation c) eqn:Ec; [|by constructor]. constructor; [|done].
    unfold second_of_3, continuation, in_range, char_ok in *.
    rewrite ?orb_true_iff, ?andb_true_iff, ?Z.leb_le, ?Z.eqb_eq in *. lia.
  - destruct (second_of_4 a b) eqn:Es; [|by constructor]. destruct l2 as [|c l3]; [by constructor|].
    apply Forall_cons_1 in Hb2 as [Hc Hb3]. cbn [length] in Hn. pose proof (IH l3 ltac:(lia) Hb3) as H3.
    destruct (continuation c) eqn:Ec; [|by constructor]. destruct l3 as [|d l4]; [by constructor|].
    apply Forall_cons_1 in Hb3 as [Hd Hb4]. cbn [length] in Hn. pose proof (IH l4 ltac:(lia) Hb4) as H4.
    destruct (continuation d) eqn:Ed; [|by constructor]. constructor; [|done].
    unfold second_of_4, continuation, in_range, char_ok in *.
    rewrite ?orb_true_iff, ?andb_true_iff, ?Z.leb_le, ?Z.eqb_eq in *. lia.
Qed.

(** ** More string operations *)

(** [s.split_once(sep)] *)
Fixpoint split_once (sep : Z) (s : text) : option (text * text) :=
  match s with
  | [] => None
  | c :: s' =>
      if c =? sep then Some ([], s')
      else match split_once sep s' with Some (a, b) => Some (c :: a, b) | None => None end
  end.

Lemma split_once_Some sep s a b : split_once sep s = Some (a, b) ↔ s = a ++ sep :: b ∧ sep ∉ a.
Proof.
  revert a b. induction s as [|c s IH]; intros a b; cbn.
  - split; [done|]. intros [E _]. by destruct a.
  - destruct (Z.eqb_spec c sep) as [->|Hn].
    + split; [intros [= <- <-]; split; [done|apply not_elem_of_nil]|].
      intros [E Ha]. destruct a as [|x a]; [by injection E as ->|]. injection E as -> _. destruct Ha. left.
    + destruct (split_once sep s) as [[a' b']|] eqn:Es.
      * split.
        -- intros [= <- <-].
           destruct (proj1 (IH a' b') eq_refl) as [-> Ha]. split; [done|].
           intros [?|?]%elem_of_cons; [by destruct Hn|done].
        -- intros [E Ha]. destruct a as [|x a]; [injection E as ? _; by destruct Hn|].
           injection E as -> E. assert (Hab : Some (a', b') = Some (a, b)).
           { apply IH. split; [done|]. intros Hi. apply Ha. by right. }
           by injection Hab as -> ->.
      * split; [done|]. intros [E Ha]. destruct a as [|x a]; [injection E as ? _; by destruct Hn|].
        injection E as -> E. assert (Hab : None = Some (a, b)); [|done].
        apply IH. split; [done|]. intros Hi. apply Ha. by right.
Qed.

Definition is_ascii_alphanumeric (c : Z) : bool :=
  is_ascii_digit c || ((65 <=? c) && (c <=? 90)) || ((97 <=? c) && (c <=? 122)).

Definition eq_ignore_ascii_case (a b : text) : bool :=
  bool_decide (to_ascii_lowercase a = to_ascii_lowercase b).

(** [str::parse::<u32>]: an optional plus sign and decimal digits, in range. *)
Fixpoint parse_digits (acc : Z) (s : text) : option Z :=
  match s with
  | [] => Some acc
  | c :: s' =>
      if is_ascii_digit c then
        let v := acc * 10 + (c - 48) in
        if v <? 2 ^ 32 then parse_digits v s' else None
      else None
  end.
Definition parse_u32 (s : text) : option Z :=
  match s with
  | [] => None
  | c :: s' =>
      if c =? 43 then match s' with [] => None | _ => parse_digits 0 s' end
      else parse_digits 0 s
  end.

Lemma parse_digits_range acc s v : 0 ≤ acc < 2 ^ 32 → parse_digits acc s = Some v → 0 ≤ v < 2 ^ 32.
Proof.
  revert acc. induction s as [|c s IH]; intros acc Ha; cbn [parse_digits].
  - intros [= <-]. done.
  - destruct (is_ascii_digit c) eqn:Ed; [|done]. unfold is_ascii_digit in Ed.
    destruct (Z.ltb_spec (acc * 10 + (c - 48)) (2 ^ 32)); [|done]. apply IH. lia.
Qed.

Lemma parse_u32_range s v : parse_u32 s = Some v → 0 ≤ v < 2 ^ 32.
Proof. unfold parse_u32. repeat case_match; try done; apply parse_digits_range; lia. Qed.

Lemma trim_start_elem c s : c ∈ trim_start s → c ∈ s.
Proof.
  induction s as [|d s IH]; [done|]. cbn. destruct (is_whitespace d); [|done]. intros Hc. right. by apply IH.
Qed.

Lemma elem_of_rev {A} (x : A) l : x ∈ rev l ↔ x ∈ l.
Proof. by rewrite !list_elem_of_In, <- in_rev. Qed.

Lemma trim_elem c s : c ∈ trim s → c ∈ s.
Proof. unfold trim. rewrite elem_of_rev. by intros Hc%trim_start_elem%elem_of_rev%trim_start_elem. Qed.

(** ** Splitting and joining *)

Lemma split_char_app sep a r :
  sep ∉ a → split_char sep (a ++ sep :: r) = a :: split_char sep r.
Proof.
  induction a as [|c a IH]; intros Hn; cbn; [by rewrite Z.eqb_refl|].
  apply not_elem_of_cons in Hn as [Hc Ha]. destruct (Z.eqb_spec c sep); [congruence|].
  by rewrite IH.
Qed.

Lemma split_char_none sep a : sep ∉ a → split_char sep a = [a].
Proof.
  induction a as [|c a IH]; intros Hn; cbn; [done|].
  apply not_elem_of_cons in Hn as [Hc Ha]. destruct (Z.eqb_spec c sep); [congruence|].
  by rewrite IH.
Qed.

Lemma split_char_join sep fs :
  fs ≠ [] → Forall (λ f, sep ∉ f) fs → split_char sep (join [sep] fs) = fs.
Proof.
  intros Hne. induction 1 as [|f fs Hf Hfs IH]; [done|]. destruct fs as [|g fs].
  - by apply split_char_none.
  - cbn [join]. cbn [app]. rewrite split_char_app by done. f_equal. by apply IH.
Qed.
Lemma split_char_ne sep s : split_char sep s ≠ [].
Proof. destruct s as [|c s]; simpl; [done|]. case_match; [done|]. by destruct (split_char sep s). Qed.
Lemma split_char_free sep s : Forall (λ f, sep ∉ f) (split_char sep s).
Proof.
  induction s as [|c s IH]; simpl; [repeat constructor; apply not_elem_of_nil|].
  destruct (Z.eqb_spec c sep); [constructor; [apply not_elem_of_nil|done]|].
  destruct (split_char sep s) as [|f fs]; simpl;
    [|apply Forall_cons in IH as [? ?]]; constructor; try done; apply not_elem_of_cons; auto using not_elem_of_nil.
Qed.
Lemma join_split_char sep s : join [sep] (split_char sep s) = s.
Proof.
  induction s as [|c s IH]; simpl; [done|].
  destruct (split_char sep s) as [|f fs] eqn:E; [by destruct (split_char_ne sep s)|].
  destruct (Z.eqb_spec c sep) as [->|].
  - by rewrite <- IH.
  - rewrite <- IH. by destruct fs.
Qed.
