(* ===== verification/Intent.v ===== *)
(** * Intents and their hashes (axiom-types/src/intent.rs, axiom-crypto/src/hash.rs)

    Constraints, intent descriptors, their builder and canonical order, the
    hierarchical capability match, and [IntentHasher::hash_intent], whose
    digest function (the [blake3] crate) is the interface [Blake3].  An [f64] is
    its 64-bit pattern, an [i64] a [Z] written in two's complement. *)

From stdpp Require Import base numbers list strings.
From Stdlib Require Import Sorting.Sorted.
From S2P Require Import Prelude Types Text.

(** ** Data *)

Inductive ConstraintValue :=
  | CV_String (s : text)
  | CV_Int (i : Z)
  | CV_Float (bits : Z)
  | CV_Bool (b : bool)
  | CV_Range (min max : Z)
  | CV_OneOf (values : list text).

#[export] Instance ConstraintValue_eq_dec : EqDecision ConstraintValue.
Proof. solve_decision. Defined.

Definition type_code (v : ConstraintValue) : Z :=
  match v with
  | CV_String _ => 0 | CV_Int _ => 1 | CV_Float _ => 2
  | CV_Bool _ => 3 | CV_Range _ _ => 4 | CV_OneOf _ => 5
  end.

Record Constraint := mkConstraint { key : text; value : ConstraintValue }.

#[export] Instance Constraint_eq_dec : EqDecision Constraint.
Proof. solve_decision. Defined.

Definition Constraint_string (k v : text) : Constraint := mkConstraint k (CV_String v).
Definition Constraint_int (k : text) (v : Z) : Constraint := mkConstraint k (CV_Int v).
Definition Constraint_float (k : text) (v : Z) : Constraint := mkConstraint k (CV_Float v).
Definition Constraint_bool (k : text) (v : bool) : Constraint := mkConstraint k (CV_Bool v).
Definition Constraint_range (k : text) (lo hi : Z) : Constraint :=
  mkConstraint k (CV_Range lo hi).
Definition Constraint_one_of (k : text) (vs : list text) : Constraint :=
  mkConstraint k (CV_OneOf vs).

Record IntentDescriptor := mkDescriptor {
  capability : text;
  constraints : list Constraint;
  priority : Z;
  ttl_ms : Z;
  fallbacks : list IntentHash
}.

#[export] Instance IntentDescriptor_eq_dec : EqDecision IntentDescriptor.
Proof. solve_decision. Defined.

Definition IntentDescriptor_new (cap : text) : IntentDescriptor :=
  mkDescriptor cap [] 128 30000 [].

Definition with_constraint (d : IntentDescriptor) (c : Constraint) : IntentDescriptor :=
  mkDescriptor (capability d) (constraints d ++ [c]) (priority d) (ttl_ms d) (fallbacks d).
Definition with_priority (d : IntentDescriptor) (p : Z) : IntentDescriptor :=
  mkDescriptor (capability d) (constraints d) p (ttl_ms d) (fallbacks d).
Definition with_ttl_ms (d : IntentDescriptor) (t : Z) : IntentDescriptor :=
  mkDescriptor (capability d) (constraints d) (priority d) t (fallbacks d).
Definition with_fallback (d : IntentDescriptor) (h : IntentHash) : IntentDescriptor :=
  mkDescriptor (capability d) (constraints d) (priority d) (ttl_ms d) (fallbacks d ++ [h]).

(** ** Canonical order

    [str] is ordered by code points.  [sort_by] is stable: an element stays in
    front of the later elements with an equal key. *)

Fixpoint text_leb (a b : text) : bool :=
  match a, b with
  | [], _ => true
  | _ :: _, [] => false
  | x :: a', y :: b' => (x <? y) || ((x =? y) && text_leb a' b')
  end.

Fixpoint insert_by_key (c : Constraint) (l : list Constraint) : list Constraint :=
  match l with
  | [] => [c]
  | d :: l' => if text_leb (key c) (key d) then c :: l else d :: insert_by_key c l'
  end.

Definition sort_by_key (l : list Constraint) : list Constraint :=
  foldr insert_by_key [] l.

Definition canonicalize (d : IntentDescriptor) : IntentDescriptor :=
  mkDescriptor (capability d) (sort_by_key (constraints d)) (priority d) (ttl_ms d)
    (fallbacks d).

Definition capability_matches (d : IntentDescriptor) (other : text) : bool :=
  bool_decide (other = capability d) || starts_with other (capability d ++ str ".").

(** ** Builder *)

Definition IntentBuilder := IntentDescriptor.
Definition Builder_new (cap : text) : IntentBuilder := IntentDescriptor_new cap.
Definition Builder_constraint (b : IntentBuilder) (k : text) (v : ConstraintValue) :
    IntentBuilder := with_constraint b (mkConstraint k v).
Definition Builder_string_constraint (b : IntentBuilder) (k v : text) : IntentBuilder :=
  Builder_constraint b k (CV_String v).
Definition Builder_int_constraint (b : IntentBuilder) (k : text) (v : Z) : IntentBuilder :=
  Builder_constraint b k (CV_Int v).
Definition Builder_priority (b : IntentBuilder) (p : Z) : IntentBuilder := with_priority b p.
Definition Builder_ttl_ms (b : IntentBuilder) (t : Z) : IntentBuilder := with_ttl_ms b t.
Definition Builder_fallback (b : IntentBuilder) (h : IntentHash) : IntentBuilder :=
  with_fallback b h.
Definition Builder_build (b : IntentBuilder) : IntentDescriptor := canonicalize b.

(** ** Hashing *)

(** The [blake3] crate: a function from byte strings to 32 bytes.  The
    streaming hasher digests the concatenation of its updates. *)
Class Blake3 := {
  blake3 : list Z → list Z;
  blake3_array : ∀ m, array_ok 32 (blake3 m)
}.

(** The hash of a capability name in the router's AI interface (ai.rs,
    [Intent::from_str]). *)
Definition capability_hash `{Blake3} (name : text) : IntentHash := take 16 (blake3 (as_bytes name)).

(** The bytes one constraint value feeds to the hasher. *)
Definition hash_value (v : ConstraintValue) : list Z :=
  match v with
  | CV_String s => 0 :: as_bytes s
  | CV_Int i => 1 :: to_be 8 i
  | CV_Float f => 2 :: to_be 8 f
  | CV_Bool b => [3; if b then 1 else 0]
  | CV_Range lo hi => 4 :: to_be 8 lo ++ to_be 8 hi
  | CV_OneOf vs => 5 :: flat_map as_bytes vs
  end.

Definition hash_preimage (d : IntentDescriptor) : list Z :=
  as_bytes (capability d)
  ++ flat_map (λ c, as_bytes (key c) ++ hash_value (value c)) (sort_by_key (constraints d))
  ++ [priority d] ++ to_be 4 (ttl_ms d).

Definition hash_intent `{Blake3} (d : IntentDescriptor) : IntentHash :=
  take 16 (blake3 (hash_preimage d)).

Definition hash_bytes `{Blake3} (data : list Z) : list Z := blake3 data.

(** ** Lemmas *)

Lemma text_leb_refl a : text_leb a a = true.
Proof. induction a as [|x a IH]; [done|]. cbn. rewrite Z.eqb_refl, IH. by rewrite orb_true_r. Qed.

Lemma text_leb_total a b : text_leb a b = false → text_leb b a = true.
Proof.
  revert b. induction a as [|x a IH]; intros [|y b]; try done. cbn.
  destruct (Z.ltb_spec x y), (Z.eqb_spec x y), (Z.ltb_spec y x), (Z.eqb_spec y x);
    try lia; cbn; auto.
Qed.

Lemma text_leb_antisym a b : text_leb a b = true → text_leb b a = true → a = b.
Proof.
  revert b. induction a as [|x a IH]; intros [|y b]; try done. cbn.
  destruct (Z.ltb_spec x y), (Z.eqb_spec x y), (Z.ltb_spec y x), (Z.eqb_spec y x);
    try lia; cbn; try done. intros. f_equal; auto.
Qed.

Lemma text_leb_trans a b c :
  text_leb a b = true → text_leb b c = true → text_leb a c = true.
Proof.
  revert b c. induction a as [|x a IH]; intros [|y b] [|z c]; try done. cbn.
  destruct (Z.ltb_spec x y), (Z.eqb_spec x y), (Z.ltb_spec y z), (Z.eqb_spec y z),
    (Z.ltb_spec x z), (Z.eqb_spec x z); try lia; cbn; eauto.
Qed.

Definition key_le (a b : Constraint) : Prop := text_leb (key a) (key b) = true.

Lemma insert_by_key_Permutation c l : insert_by_key c l ≡ₚ c :: l.
Proof.
  induction l as [|d l IH]; [done|]. cbn. destruct (text_leb _ _); [done|].
  rewrite IH. apply Permutation_swap.
Qed.

Lemma sort_by_key_Permutation l : sort_by_key l ≡ₚ l.
Proof. induction l as [|c l IH]; [done|]. cbn. by rewrite insert_by_key_Permutation, IH. Qed.

Lemma insert_by_key_Sorted c l : StronglySorted key_le l → StronglySorted key_le (insert_by_key c l).
Proof.
  induction 1 as [|d l Hl IH Hd]; cbn; [repeat constructor|].
  destruct (text_leb (key c) (key d)) eqn:E.
  - constructor; [by constructor|]. constructor; [done|].
    eapply Forall_impl; [exact Hd|]. intros e. unfold key_le. by apply text_leb_trans.
  - constructor; [done|]. rewrite insert_by_key_Permutation. constructor; [|done].
    by apply text_leb_total.
Qed.

Lemma sort_by_key_Sorted l : StronglySorted key_le (sort_by_key l).
Proof. induction l; cbn; [constructor|]. by apply insert_by_key_Sorted. Qed.

Lemma insert_by_key_comm a b l :
  key a ≠ key b → insert_by_key a (insert_by_key b l) = insert_by_key b (insert_by_key a l).
Proof.
  intros Hab. induction l as [|d l IH]; cbn.
  - destruct (text_leb (key a) (key b)) eqn:E1, (text_leb (key b) (key a)) eqn:E2; try done.
    + by pose proof (text_leb_antisym _ _ E1 E2).
    + apply text_leb_total in E1. congruence.
  - destruct (text_leb (key b) (key d)) eqn:Eb, (text_leb (key a) (key d)) eqn:Ea; cbn;
      rewrite ?Ea, ?Eb.
    + destruct (text_leb (key a) (key b)) eqn:E1, (text_leb (key b) (key a)) eqn:E2; try done.
      * by pose proof (text_leb_antisym _ _ E1 E2).
      * apply text_leb_total in E1. congruence.
    + destruct (text_leb (key a) (key b)) eqn:E1; [|done].
      pose proof (text_leb_trans _ _ _ E1 Eb). congruence.
    + destruct (text_leb (key b) (key a)) eqn:E1; [|done].
      pose proof (text_leb_trans _ _ _ E1 Ea). congruence.
    + by rewrite IH.
Qed.

(** With distinct keys the sorted list does not depend on the given order. *)
Lemma sort_by_key_unique l k :
  l ≡ₚ k → NoDup (map key l) → sort_by_key l = sort_by_key k.
Proof.
  induction 1 as [|c l k _ IH|a b l|l m k E1 IH1 _ IH2]; intros Hnd; cbn in *.
  - done.
  - apply NoDup_cons in Hnd as [_ Hnd]. f_equal. by apply IH.
  - apply NoDup_cons in Hnd as [Hnd _]. apply insert_by_key_comm. intros E.
    apply Hnd. rewrite E. left.
  - etrans; [by apply IH1|]. apply IH2. by rewrite <- E1.
Qed.

Lemma starts_with_app s p : starts_with s p = true ↔ ∃ t, s = p ++ t.
Proof.
  revert s. induction p as [|a p IH]; intros s.
  - split; [intros _; by exists s|by destruct s].
  - destruct s as [|b s]; [split; [done|by intros [t [=]]]|].
    cbn [starts_with app]. rewrite andb_true_iff, IH, Z.eqb_eq. split.
    + intros [-> [t ->]]. by exists t.
    + intros [t [= <- ->]]. eauto.
Qed.

(** Values of a fixed encoded width. *)
Definition fixed_width (v : ConstraintValue) : Prop :=
  match v with
  | CV_Int i => - 2 ^ 63 ≤ i < 2 ^ 63
  | CV_Float f => 0 ≤ f < 2 ^ 64
  | CV_Bool _ => True
  | CV_Range a b => 0 ≤ a < 2 ^ 64 ∧ 0 ≤ b < 2 ^ 64
  | _ => False
  end.

Lemma to_be_signed_inj i j :
  - 2 ^ 63 ≤ i < 2 ^ 63 → - 2 ^ 63 ≤ j < 2 ^ 63 → to_be 8 i = to_be 8 j → i = j.
Proof.
  intros Hi Hj E%(f_equal from_be). rewrite !from_be_to_be_mod in E.
  change (2 ^ (8 * Z.of_nat 8)) with 18446744073709551616 in E.
  change (2 ^ 63) with 9223372036854775808 in *. dlia.
Qed.

Lemma to_be_inj n i j :
  0 ≤ i < 2 ^ (8 * Z.of_nat n) → 0 ≤ j < 2 ^ (8 * Z.of_nat n) → to_be n i = to_be n j → i = j.
Proof. intros Hi Hj E%(f_equal from_be). rewrite !from_be_to_be in E by done. done. Qed.

Lemma hash_value_inj v w r s :
  type_code v = type_code w → fixed_width v → fixed_width w →
  hash_value v ++ r = hash_value w ++ s → v = w ∧ r = s.
Proof.
  intros Ht Hv Hw E. destruct v, w; cbn in Ht, Hv, Hw; try done; cbn [hash_value app] in E;
    apply (f_equal tail) in E; cbn [tail] in E.
  - apply app_inj_1 in E as [E ->]; [|by rewrite !length_to_be].
    split; [|done]. f_equal. by apply to_be_signed_inj.
  - apply app_inj_1 in E as [E ->]; [|by rewrite !length_to_be].
    split; [|done]. f_equal. by apply (to_be_inj 8).
  - simplify_eq. repeat case_match; simplify_eq; done.
  - rewrite <- !app_assoc in E.
    apply app_inj_1 in E as [E1 E]; [|by rewrite !length_to_be].
    apply app_inj_1 in E as [E2 ->]; [|by rewrite !length_to_be].
    destruct Hv, Hw. split; [|done]. f_equal; by apply (to_be_inj 8).
Qed.

(** ** Properties *)

(** The hash of an intent does not depend on the order in which
    constraints with distinct keys were added, so building (which sorts) and
    not building give the same hash; the canonical form is sorted, holds the
    same constraints and is a fixed point of [canonicalize]. *)
Theorem hash_intent_canonical `{Blake3} d d' :
  capability d = capability d' → priority d = priority d' → ttl_ms d = ttl_ms d' →
  constraints d ≡ₚ constraints d' → NoDup (map key (constraints d)) →
  hash_intent d = hash_intent d' ∧
  hash_intent (Builder_build d) = hash_intent d ∧
  StronglySorted key_le (constraints (canonicalize d)) ∧
  constraints (canonicalize d) ≡ₚ constraints d ∧
  canonicalize (canonicalize d) = canonicalize d.
Proof.
  intros Hc Hp Ht HP Hnd.
  assert (HS : sort_by_key (sort_by_key (constraints d)) = sort_by_key (constraints d)).
  { symmetry. apply sort_by_key_unique; [|done]. by rewrite sort_by_key_Permutation. }
  unfold hash_intent, hash_preimage, Builder_build, canonicalize.
  cbn [capability constraints priority ttl_ms fallbacks].
  rewrite (sort_by_key_unique (constraints d) (constraints d')) in * by done.
  rewrite HS, Hc, Hp, Ht. split_and!; try done.
  - rewrite <- (sort_by_key_unique (constraints d) (constraints d')) by done.
    apply sort_by_key_Sorted.
  - by rewrite sort_by_key_Permutation.
Qed.

Definition identity_digest : Blake3 :=
  {| blake3 m := replicate 32 0; blake3_array m := array_ok_replicate 32 0 ltac:(lia) |}.

(** A digest that tells short inputs apart: the first 32 bytes. *)
Definition prefix_digest : Blake3.
Proof.
  refine {| blake3 m := (λ x, x mod 256) <$> take 32 (m ++ replicate 32 0) |}.
  intros m. split.
  - rewrite length_fmap, length_take, length_app, length_replicate. lia.
  - apply Forall_fmap, Forall_forall. intros x _. apply Z.mod_pos_bound. lia.
Defined.

Definition two_params (a b : Constraint) : IntentDescriptor :=
  with_constraint (with_constraint (IntentDescriptor_new (str "fw.rule")) a) b.

Lemma hash_intent_canonical_witness :
  let a := Constraint_int (str "vlan") 7 in
  let b := Constraint_string (str "host") (str "core") in
  hash_intent (H:=identity_digest) (two_params a b)
  = hash_intent (H:=identity_digest) (two_params b a).
Proof.
  apply (hash_intent_canonical (H:=identity_digest)); try reflexivity.
  - apply Permutation_swap.
  - apply (bool_decide_unpack (NoDup _)). vm_compute. exact I.
Defined.

(** [capability_matches] accepts exactly the capability itself and the
    paths below it, and is transitive along the hierarchy. *)
Theorem capability_matches_spec d other :
  (capability_matches d other = true ↔
   other = capability d ∨ ∃ t, other = capability d ++ str "." ++ t) ∧
  ∀ e, capability e = other → capability_matches d other = true →
  ∀ third, capability_matches e third = true → capability_matches d third = true.
Proof.
  assert (Hs : ∀ e o, capability_matches e o = true ↔
      o = capability e ∨ ∃ t, o = capability e ++ str "." ++ t).
  { intros e o. unfold capability_matches. rewrite orb_true_iff, bool_decide_eq_true, starts_with_app.
    by setoid_rewrite <- app_assoc. }
  split; [apply Hs|]. intros e <- H1%Hs third H2%Hs. apply Hs.
  destruct H1 as [E|[t E]]; rewrite E in H2; [done|]. right.
  destruct H2 as [->|[u ->]]; [by exists t|].
  exists (t ++ str "." ++ u). by rewrite <- !app_assoc.
Qed.

Lemma capability_matches_spec_witness :
  capability_matches (IntentDescriptor_new (str "inference")) (str "inference.llm.chat") = true.
Proof.
  apply (capability_matches_spec (IntentDescriptor_new (str "inference")) (str "inference.llm"))
    with (e := IntentDescriptor_new (str "inference.llm")); reflexivity.
Defined.

(** Two constraint lists of the same keys and types. *)
Definition same_shape (l k : list Constraint) : Prop :=
  Forall2 (λ c d, key c = key d ∧ type_code (value c) = type_code (value d)) l k.
Definition descriptor_ok (d : IntentDescriptor) : Prop :=
  0 ≤ priority d < 256 ∧ 0 ≤ ttl_ms d < 2 ^ 32.

Lemma constraints_preimage_inj l k r s :
  same_shape l k → Forall (fixed_width ∘ value) l → Forall (fixed_width ∘ value) k →
  flat_map (λ c, as_bytes (key c) ++ hash_value (value c)) l ++ r
  = flat_map (λ c, as_bytes (key c) ++ hash_value (value c)) k ++ s → l = k ∧ r = s.
Proof.
  intros HS. revert r s. induction HS as [|c d l k [Hk Ht] _ IH]; intros r s Hl Hk' E; [done|].
  apply Forall_cons in Hl as [Hc Hl], Hk' as [Hd Hk']. cbn [flat_map] in E.
  rewrite <- !app_assoc, Hk in E. apply app_inv_head in E.
  apply hash_value_inj in E as [E1 E2]; [|done..].
  apply IH in E2 as [-> ->]; [|done..]. destruct c, d; cbn in *. by simplify_eq.
Qed.

(** What the intent hash binds.  For parameters of fixed-width types it
    binds every value: two intents with the same capability, keys and types
    that hash the same bytes are equal in every hashed field.  For
    variable-length values it does not: fields are concatenated without
    lengths, so different parameter lists (two lists of allowed values, or a
    string that absorbs the key of the next parameter) have one hash whatever
    the hash function is. *)
Theorem hash_intent_binding :
  (∀ d e, descriptor_ok d → descriptor_ok e → capability d = capability e →
     same_shape (sort_by_key (constraints d)) (sort_by_key (constraints e)) →
     Forall (fixed_width ∘ value) (constraints d) →
     Forall (fixed_width ∘ value) (constraints e) →
     hash_preimage d = hash_preimage e →
     sort_by_key (constraints d) = sort_by_key (constraints e) ∧
     priority d = priority e ∧ ttl_ms d = ttl_ms e) ∧
  (∀ `{Blake3},
     let oneof vs := with_constraint (IntentDescriptor_new (str "fw.rule"))
                       (Constraint_one_of (str "host") vs) in
     hash_intent (oneof [str "ab"; str "c"]) = hash_intent (oneof [str "a"; str "bc"]) ∧
     hash_intent (two_params (Constraint_string (str "a") (str "x"))
                             (Constraint_string (str "b") (str "y")))
     = hash_intent (with_constraint (IntentDescriptor_new (str "fw.rule"))
                     (Constraint_string (str "a") (str "xb" ++ 0 :: str "y")))).
Proof.
  split; [|by intros ?].
  intros d e [Hp Ht] [Hp' Ht'] Hc HS Hd He E. unfold hash_preimage in E. rewrite Hc in E.
  apply app_inv_head in E. apply constraints_preimage_inj in E as [-> E]; [|done|..].
  - apply app_inj_1 in E as [[= ->] E]; [|done]. split_and!; [done..|]. by apply (to_be_inj 4).
  - by rewrite sort_by_key_Permutation.
  - by rewrite sort_by_key_Permutation.
Qed.

Lemma hash_intent_binding_witness :
  let a := Constraint_int (str "vlan") (-7) in
  let b := Constraint_bool (str "up") true in
  sort_by_key (constraints (two_params a b)) = sort_by_key (constraints (two_params b a)).
Proof.
  intros a b. apply (proj1 hash_intent_binding (two_params a b) (two_params b a)); try done.
  - repeat constructor.
  - repeat constructor; done.
  - repeat constructor; done.
Defined.
