(* ===== verification/Scan.v ===== *)
(** * Scanning parameters for protected addresses (axiom-gateway/src/policy.rs)

    MAC and IPv4 recognition over untrusted text: [parse_mac], [format_mac] and
    the two byte-index scans that decide whether an intent mentions a protected
    device.  The scans run on the UTF-8 bytes with indices, as the source does,
    and an index or a slice that is out of range or off a character boundary is
    a [Panic].  They refine list-level specifications ([mac_tokens],
    [ip_tokens]), on which soundness and completeness are stated. *)

From stdpp Require Import base numbers list strings sets.
From S2P Require Import Prelude Types Text Intent.

(** ** Number parsing of the standard library *)

(** Digits of [from_str_radix]: value of the digit string, [None] on an
    invalid digit or on overflow of [max]. *)
Fixpoint radix_digits (digit : Z → option Z) (radix max acc : Z) (s : text) : option Z :=
  match s with
  | [] => Some acc
  | c :: s' =>
      match digit c with
      | Some d =>
          if acc * radix + d <=? max then radix_digits digit radix max (acc * radix + d) s'
          else None
      | None => None
      end
  end.

(** [uN::from_str_radix]: one leading [+] is accepted, the empty string and a
    lone sign are not. *)
Definition from_str_radix (digit : Z → option Z) (radix max : Z) (s : text) : option Z :=
  match s with
  | [] => None
  | c :: s' =>
      if c =? 43 then (if decide (s' = []) then None else radix_digits digit radix max 0 s')
      else radix_digits digit radix max 0 s
  end.

Definition dec_val (c : Z) : option Z := if is_ascii_digit c then Some (c - 48) else None.
Definition u8_from_hex (s : text) : option Z := from_str_radix hex_val 16 255 s.
Definition parse_u16 (s : text) : option Z := from_str_radix dec_val 10 65535 s.

(** ** MAC addresses *)

Fixpoint parse_mac_parts (parts : list text) : option (list Z) :=
  match parts with
  | [] => Some []
  | part :: rest =>
      if len (as_bytes part) =? 2 then
        match u8_from_hex part with
        | Some b => match parse_mac_parts rest with Some out => Some (b :: out) | None => None end
        | None => None
        end
      else None
  end.

Definition parse_mac (s : text) : option (list Z) :=
  let s := trim s in
  let sep := if contains_char s 58 then Some 58
             else if contains_char s 45 then Some 45 else None in
  match sep with
  | None => None
  | Some sep =>
      let parts := split_char sep s in
      if len parts =? 6 then parse_mac_parts parts else None
  end.

Definition format_mac (bytes : list Z) : text := join (str ":") (map fmt_02x bytes).

(** The loop over the six octets of a 17-byte window. *)
Fixpoint parse_octets (w : list Z) (sep : Z) (octets : list Z) (out : list Z) :
    outcome False (option (list Z)) :=
  match octets with
  | [] => Ok (Some out)
  | octet :: rest =>
      let base := octet * 3 in
      bad ← (if octet <? 5 then s ← index w (base + 2); Ok (negb (s =? sep)) else Ok false);
      if bad : bool then Ok None else
      b ← index w base;
      match hex_val b with
      | None => Ok None
      | Some hi =>
          b' ← index w (base + 1);
          match hex_val b' with
          | None => Ok None
          | Some lo => parse_octets w sep rest (out ++ [Z.lor (u8_shl hi 4) lo])
          end
      end
  end.

Definition parse_mac_window (w : list Z) : outcome False (option (list Z)) :=
  sep ← index w 2;
  if negb (sep =? 58) && negb (sep =? 45) then Ok None
  else parse_octets w sep [0; 1; 2; 3; 4; 5] [].

Fixpoint scan_mac_loop (fuel : nat) (bytes : list Z) (i : Z) (found : list (list Z)) :
    outcome False (list (list Z)) :=
  match fuel with
  | O => Ok found
  | S fuel' =>
      if i + 17 <=? len bytes then
        w ← slice bytes i (i + 17);
        r ← parse_mac_window w;
        match r with
        | Some mac => scan_mac_loop fuel' bytes (i + 17) (found ++ [mac])
        | None => scan_mac_loop fuel' bytes (i + 1) found
        end
      else Ok found
  end.

(** Every iteration advances [i], so the length bounds the iterations. *)
Definition scan_mac_candidates (haystack : text) : outcome False (list (list Z)) :=
  let bytes := as_bytes haystack in
  if len bytes <? 17 then Ok []
  else scan_mac_loop (S (length bytes)) bytes 0 [].

Definition scan_mac_candidates_including_whitespace_obfuscated (haystack : text) :
    outcome False (list (list Z)) :=
  found ← scan_mac_candidates haystack;
  let stripped := filter (λ c, is_whitespace c = false) haystack in
  if decide (stripped = haystack) then Ok found
  else more ← scan_mac_candidates stripped; Ok (found ++ more).

(** ** IPv4 addresses *)

Definition is_ipv4_shaped (token : text) : bool :=
  let parts := split_char 46 token in
  if negb (len parts =? 4) then false
  else forallb (λ p,
    if (len (as_bytes p) =? 0) || (3 <? len (as_bytes p)) then false
    else match parse_u16 p with Some v => v <=? 255 | None => false end) parts.

(** [str] slicing panics off a character boundary: a boundary is the end or a
    byte that does not continue a character. *)
Definition is_char_boundary (bytes : list Z) (i : Z) : bool :=
  (i =? len bytes) ||
  match bytes !! Z.to_nat i with
  | Some b => negb ((128 <=? b) && (b <? 192))
  | None => false
  end.
Definition str_slice (bytes : list Z) (a b : Z) : outcome False (list Z) :=
  if is_char_boundary bytes a && is_char_boundary bytes b then slice bytes a b else Panic.

Definition ip_byte (b : Z) : bool := is_ascii_digit b || (b =? 46).

(** [while j < n && (bytes[j].is_ascii_digit() || bytes[j] == b'.') { j += 1 }] *)
Fixpoint ip_run_end (fuel : nat) (bytes : list Z) (j : Z) : outcome False Z :=
  match fuel with
  | O => Ok j
  | S fuel' =>
      if j <? len bytes then
        b ← index bytes j;
        if ip_byte b then ip_run_end fuel' bytes (j + 1) else Ok j
      else Ok j
  end.

Fixpoint scan_ipv4_loop (fuel : nat) (bytes : list Z) (i : Z) (found : list text) :
    outcome False (list text) :=
  match fuel with
  | O => Ok found
  | S fuel' =>
      if i <? len bytes then
        b ← index bytes i;
        if is_ascii_digit b then
          j ← ip_run_end (S (length bytes)) bytes i;
          token ← str_slice bytes i j;
          scan_ipv4_loop fuel' bytes j (if is_ipv4_shaped token then found ++ [token] else found)
        else scan_ipv4_loop fuel' bytes (i + 1) found
      else Ok found
  end.

(** A token is ASCII, so its bytes are its characters. *)
Definition scan_ipv4_candidates (haystack : text) : outcome False (list text) :=
  let bytes := as_bytes haystack in
  scan_ipv4_loop (S (length bytes)) bytes 0 [].

(** ** Protected resources *)

Record ProtectedResource := mkProtected {
  pr_name : option text;
  pr_mac : list Z;
  pr_mac_display : text;
  pr_ip : option text
}.

Definition ProtectedResource_new (name : option text) (mac : text) (ip : option text) :
    option ProtectedResource :=
  match parse_mac mac with
  | Some bytes => Some (mkProtected name bytes (format_mac bytes) ip)
  | None => None
  end.

Record ProtectedMatch := mkMatch {
  resource_name : option text;
  resource_mac : text;
  resource_ip : option text;
  matched_value : text;
  parameter_key : text
}.

Definition scannable_strings (v : ConstraintValue) : list text :=
  match v with
  | CV_String s => [s]
  | CV_OneOf values => values
  | CV_Int _ | CV_Float _ | CV_Bool _ | CV_Range _ _ => []
  end.

(** A [for] loop whose body may [return Some(..)]. *)
Fixpoint for_first {A B} (f : A → outcome False (option B)) (l : list A) :
    outcome False (option B) :=
  match l with
  | [] => Ok None
  | a :: l' => r ← f a; match r with Some b => Ok (Some b) | None => for_first f l' end
  end.

Definition match_of (pr : ProtectedResource) (matched k : text) : ProtectedMatch :=
  mkMatch (pr_name pr) (pr_mac_display pr) (pr_ip pr) matched k.

Definition find_mac (protected : list ProtectedResource) (mac : list Z) :=
  find (λ p, bool_decide (pr_mac p = mac)) protected.
Definition find_ip (protected : list ProtectedResource) (ip : text) :=
  find (λ p, bool_decide (pr_ip p = Some ip)) protected.

(** One scanned text: MAC matches before IP matches. *)
Definition match_text (protected : list ProtectedResource) (k : text) (t : text) :
    outcome False (option ProtectedMatch) :=
  macs ← scan_mac_candidates_including_whitespace_obfuscated t;
  match first_some (λ mac, (λ pr, match_of pr (format_mac mac) k) <$> find_mac protected mac)
          macs with
  | Some m => Ok (Some m)
  | None =>
      ips ← scan_ipv4_candidates t;
      Ok (first_some (λ ip, (λ pr, match_of pr ip k) <$> find_ip protected ip) ips)
  end.

Definition find_protected_match (protected : list ProtectedResource)
    (parameters : list Constraint) : outcome False (option ProtectedMatch) :=
  if decide (protected = []) then Ok None
  else for_first (λ c, for_first (match_text protected (key c)) (scannable_strings (value c)))
         parameters.

(** ** List-level specifications of the scans *)

Definition hex_pair (a b : Z) : option Z :=
  match hex_val a, hex_val b with
  | Some h, Some l => Some (16 * h + l)
  | _, _ => None
  end.

(** Hex pairs separated by [sep]. *)
Fixpoint mac_octets (sep : Z) (w : list Z) : option (list Z) :=
  match w with
  | [a; b] => match hex_pair a b with Some x => Some [x] | None => None end
  | a :: b :: s :: w' =>
      if s =? sep then
        match hex_pair a b, mac_octets sep w' with
        | Some x, Some r => Some (x :: r)
        | _, _ => None
        end
      else None
  | _ => None
  end.

(** [xx:xx:xx:xx:xx:xx] or [xx-xx-xx-xx-xx-xx]. *)
Definition mac_window (w : list Z) : option (list Z) :=
  match w !! 2%nat with
  | Some sep =>
      if (sep =? 58) || (sep =? 45) then
        if decide (length w = 17%nat) then mac_octets sep w else None
      else None
  | None => None
  end.

Fixpoint mac_tokens (fuel : nat) (bytes : list Z) : list (list Z) :=
  match fuel with
  | O => []
  | S fuel' =>
      if decide (17 ≤ length bytes)%nat then
        match mac_window (take 17 bytes) with
        | Some m => m :: mac_tokens fuel' (drop 17 bytes)
        | None => mac_tokens fuel' (drop 1 bytes)
        end
      else []
  end.

Definition macs_in (t : text) : list (list Z) :=
  mac_tokens (S (length (as_bytes t))) (as_bytes t).

Fixpoint ip_prefix (l : list Z) : list Z :=
  match l with
  | [] => []
  | b :: l' => if ip_byte b then b :: ip_prefix l' else []
  end.

Fixpoint ip_tokens (fuel : nat) (bytes : list Z) : list text :=
  match fuel, bytes with
  | S fuel', b :: bytes' =>
      if is_ascii_digit b then
        let tok := ip_prefix bytes in
        (if is_ipv4_shaped tok then [tok] else [])
        ++ ip_tokens fuel' (drop (length tok) bytes)
      else ip_tokens fuel' bytes'
  | _, _ => []
  end.

Definition ips_in (t : text) : list text :=
  ip_tokens (S (length (as_bytes t))) (as_bytes t).

(** ** The index loops refine them *)

Lemma index_lookup {E} l i x : l !! Z.to_nat i = Some x → 0 ≤ i → index (E:=E) l i = Ok x.
Proof.
  intros Hl Hi. unfold index. pose proof (lookup_lt_Some _ _ _ Hl).
  rewrite decide_True by (unfold len; lia). f_equal. by apply nth_lookup_Some.
Qed.

Lemma shl_lor hi lo : 0 ≤ hi < 16 → 0 ≤ lo < 16 → Z.lor (u8_shl hi 4) lo = 16 * hi + lo.
Proof. revert hi lo. by_enumeration2 16%nat 16%nat. Qed.

(** From octet [k] on, the loop reads the rest of the window. *)
Lemma parse_octets_step w sep k rest out a b s w' :
  drop (Z.to_nat (k * 3)) w = a :: b :: s :: w' → 0 ≤ k < 5 →
  parse_octets w sep (k :: rest) out =
    if s =? sep then
      match hex_pair a b with
      | Some x => parse_octets w sep rest (out ++ [x])
      | None => Ok None
      end
    else Ok None.
Proof.
  intros Hd Hk. cbn [parse_octets].
  assert (Ha : w !! Z.to_nat (k * 3) = Some a).
  { rewrite <- (Nat.add_0_r (Z.to_nat (k * 3))), <- lookup_drop, Hd. done. }
  assert (Hb : w !! Z.to_nat (k * 3 + 1) = Some b).
  { rewrite Z2Nat.inj_add, <- lookup_drop, Hd by lia. done. }
  assert (Hs : w !! Z.to_nat (k * 3 + 2) = Some s).
  { rewrite Z2Nat.inj_add, <- lookup_drop, Hd by lia. done. }
  destruct (Z.ltb_spec k 5); [|lia].
  rewrite (index_lookup _ _ _ Hs), (index_lookup _ _ _ Ha) by lia. cbn.
  destruct (s =? sep); cbn; [|done]. unfold hex_pair.
  destruct (hex_val a) as [h|] eqn:Eh; [|done].
  rewrite (index_lookup _ _ _ Hb) by lia. cbn.
  destruct (hex_val b) as [l|] eqn:El; [|done].
  by rewrite shl_lor by eauto using hex_val_range.
Qed.

Lemma parse_octets_last w sep out a b :
  drop 15 w = [a; b] →
  parse_octets w sep [5] out =
    Ok (match hex_pair a b with Some x => Some (out ++ [x]) | None => None end).
Proof.
  intros Hd. cbn [parse_octets Z.ltb Z.compare Pos.compare Pos.compare_cont].
  change (5 <? 5) with false. cbn [mbind outcome_bind].
  assert (Ha : w !! Z.to_nat 15 = Some a) by (change (Z.to_nat 15) with (15 + 0)%nat;
    by rewrite <- lookup_drop, Hd).
  assert (Hb : w !! Z.to_nat 16 = Some b) by (change (Z.to_nat 16) with (15 + 1)%nat;
    by rewrite <- lookup_drop, Hd).
  change (5 * 3) with 15. change (15 + 1) with 16.
  rewrite (index_lookup _ _ _ Ha) by lia. cbn [mbind outcome_bind]. unfold hex_pair.
  destruct (hex_val a) as [h|] eqn:Eh; [|done].
  rewrite (index_lookup _ _ _ Hb) by lia. cbn [mbind outcome_bind].
  destruct (hex_val b) as [l|] eqn:El; [|done].
  by rewrite shl_lor by eauto using hex_val_range.
Qed.

Lemma parse_mac_window_refines w :
  length w = 17%nat → parse_mac_window w = Ok (mac_window w).
Proof.
  intros Hl. do 17 (destruct w as [|? w]; [done|]). destruct w; [|done]. clear Hl.
  unfold parse_mac_window, mac_window. cbn [lookup list_lookup length].
  rewrite (index_lookup _ 2 z1) by done. cbn [mbind outcome_bind].
  rewrite <- negb_orb. destruct ((z1 =? 58) || (z1 =? 45)); cbn [negb]; [|done].
  rewrite decide_True by done. cbn [mac_octets].
  do 5 (erewrite parse_octets_step; [|reflexivity|lia];
    match goal with |- context [if ?b then _ else _] => destruct b end; [|done];
    match goal with |- context [hex_pair ?a ?b] => destruct (hex_pair a b) end; [|done];
    cbn [app]).
  erewrite parse_octets_last by reflexivity. by destruct (hex_pair z14 z15).
Qed.

Lemma scan_mac_loop_refines fuel bytes i found :
  0 ≤ i →
  scan_mac_loop fuel bytes i found = Ok (found ++ mac_tokens fuel (drop (Z.to_nat i) bytes)).
Proof.
  revert i found. induction fuel as [|fuel IH]; intros i found Hi; cbn [scan_mac_loop mac_tokens].
  { by rewrite app_nil_r. }
  destruct (Z.leb_spec (i + 17) (len bytes)) as [Hn|Hn].
  - unfold slice. rewrite decide_True by lia. cbn [mbind outcome_bind].
    replace (Z.to_nat (i + 17 - i)) with 17%nat by lia.
    rewrite decide_True by (rewrite length_drop; unfold len in Hn; lia).
    rewrite parse_mac_window_refines
      by (rewrite length_take, length_drop; unfold len in Hn; lia).
    cbn [mbind outcome_bind]. destruct (mac_window _); rewrite IH, !drop_drop by lia.
    + rewrite <- app_assoc. cbn [app]. do 4 f_equal. f_equal. lia.
    + do 4 f_equal. lia.
  - rewrite decide_False by (rewrite length_drop; unfold len in Hn; lia).
    by rewrite app_nil_r.
Qed.

Lemma mac_tokens_short fuel bytes : (length bytes < 17)%nat → mac_tokens fuel bytes = [].
Proof. intros. destruct fuel; cbn; [done|]. by rewrite decide_False by lia. Qed.

Lemma scan_mac_candidates_refines t : scan_mac_candidates t = Ok (macs_in t).
Proof.
  unfold scan_mac_candidates, macs_in. destruct (Z.ltb_spec (len (as_bytes t)) 17) as [H|H].
  - by rewrite mac_tokens_short by (unfold len in H; lia).
  - by rewrite scan_mac_loop_refines by done.
Qed.

Definition strip_whitespace (t : text) : text := filter (λ c, is_whitespace c = false) t.

(** What the two passes report. *)
Definition all_macs_in (t : text) : list (list Z) :=
  macs_in t ++ if decide (strip_whitespace t = t) then [] else macs_in (strip_whitespace t).

Lemma scan_mac_obfuscated_refines t :
  scan_mac_candidates_including_whitespace_obfuscated t = Ok (all_macs_in t).
Proof.
  unfold scan_mac_candidates_including_whitespace_obfuscated, all_macs_in, strip_whitespace.
  rewrite (scan_mac_candidates_refines t). cbn [mbind outcome_bind]. case_decide.
  - by rewrite app_nil_r.
  - by rewrite scan_mac_candidates_refines.
Qed.

(** No continuation byte follows an ASCII byte of a UTF-8 string. *)
Definition ascii_closed (l : list Z) : Prop :=
  ∀ k a b, l !! k = Some a → l !! S k = Some b → a < 128 → ¬ 128 ≤ b < 192.

Lemma utf8_char_shape c :
  char_ok c → (c < 128 ∧ utf8_char c = [c]) ∨
              (Forall (λ b, 128 ≤ b) (utf8_char c) ∧ ∃ h r, utf8_char c = h :: r ∧ 192 ≤ h).
Proof.
  unfold char_ok, utf8_char. intros Hc. repeat case_ltb; [by left|right..];
    (split; [repeat constructor; dlia | eexists _, _; split; [reflexivity|dlia]]).
Qed.

Lemma as_bytes_head s b r :
  Forall char_ok s → as_bytes s = b :: r → ¬ 128 ≤ b < 192.
Proof.
  destruct 1 as [|c s Hc Hs]; [done|]. cbn [as_bytes flat_map].
  destruct (utf8_char_shape c Hc) as [[Hl ->]|(_ & h & q & -> & Hh)]; intros [= <- _]; lia.
Qed.

Lemma as_bytes_ascii_closed s : Forall char_ok s → ascii_closed (as_bytes s).
Proof.
  induction 1 as [|c s Hc Hs IH]; [by intros []|].
  cbn [as_bytes flat_map]. intros k a b Ha Hb Hlt.
  destruct (utf8_char_shape c Hc) as [[Hl E]|(Hf & h & q & E & Hh)].
  - rewrite E in *. destruct k as [|k]; [|by eapply (IH k a b)].
    cbn in Hb. fold (as_bytes s) in Hb. destruct (as_bytes s) as [|b' r] eqn:Eb; [done|].
    cbn in Hb. simplify_eq. by apply (as_bytes_head s b r).
  - apply lookup_app_Some in Ha as [Ha|[Hk Ha]].
    { apply (Forall_lookup_1 _ _ _ _ Hf) in Ha. lia. }
    apply lookup_app_Some in Hb as [Hb|[_ Hb]]; [apply lookup_lt_Some in Hb; lia|].
    replace (S k - length (utf8_char c))%nat with (S (k - length (utf8_char c))) in Hb by lia.
    by apply (IH _ a b Ha Hb).
Qed.

Lemma ip_prefix_app l : ∃ r, l = ip_prefix l ++ r ∧ ∀ b r', r = b :: r' → ip_byte b = false.
Proof.
  induction l as [|b l (r & E & Hr)]; cbn; [by exists []|].
  destruct (ip_byte b) eqn:Eb.
  - exists r. split; [cbn; by f_equal|done].
  - exists (b :: l). split; [done|]. by intros ?? [= <- <-].
Qed.

Lemma ip_prefix_Forall l : Forall (λ b, ip_byte b = true) (ip_prefix l).
Proof. induction l as [|b l IH]; cbn; [constructor|]. destruct (ip_byte b) eqn:E; by constructor. Qed.

Lemma ip_run_end_refines fuel bytes j :
  0 ≤ j ≤ len bytes → len bytes - j < Z.of_nat fuel →
  ip_run_end fuel bytes j = Ok (j + len (ip_prefix (drop (Z.to_nat j) bytes))).
Proof.
  revert j. induction fuel as [|fuel IH]; intros j Hj Hf; [lia|]. cbn [ip_run_end].
  destruct (Z.ltb_spec j (len bytes)) as [Hl|Hl].
  - destruct (lookup_lt_is_Some_2 bytes (Z.to_nat j)) as [b Hb]; [unfold len in Hl; lia|].
    rewrite (index_lookup _ _ _ Hb) by lia. cbn [mbind outcome_bind].
    rewrite (drop_S _ _ _ Hb). cbn [ip_prefix]. destruct (ip_byte b).
    + rewrite IH by lia. rewrite len_cons. replace (Z.to_nat (j + 1)) with (S (Z.to_nat j)) by lia.
      f_equal. lia.
    + rewrite len_nil. f_equal. lia.
  - rewrite drop_ge by (unfold len in Hl; lia). cbn. rewrite len_nil. f_equal. lia.
Qed.

Lemma ip_byte_ascii b : ip_byte b = true → b < 128 ∧ ¬ 128 ≤ b < 192.
Proof. unfold ip_byte, is_ascii_digit. lia. Qed.

(** The end of a digit run is a character boundary. *)
Lemma run_end_boundary bytes i j tok r :
  ascii_closed bytes → 0 ≤ i → drop (Z.to_nat i) bytes = tok ++ r → tok ≠ [] →
  Forall (λ b, ip_byte b = true) tok → j = i + len tok →
  is_char_boundary bytes i = true ∧ is_char_boundary bytes j = true ∧
  slice (E:=False) bytes i j = Ok tok.
Proof.
  intros Hc Hi Hd Hne Hf ->. pose proof (len_nonneg tok).
  assert (Hlen : len tok + len r = len bytes - i ∧ i ≤ len bytes).
  { assert (E : len (drop (Z.to_nat i) bytes) = len tok + len r) by (rewrite Hd; solve_len).
    rewrite len_drop in E. pose proof (len_nonneg r).
    destruct tok; [done|]. rewrite len_cons in *. pose proof (len_nonneg tok). lia. }
  pose proof (len_nonneg r). split_and!.
  - unfold is_char_boundary. destruct tok as [|b tok]; [done|].
    rewrite <- (Nat.add_0_r (Z.to_nat i)), <- lookup_drop, Hd. cbn.
    apply Forall_cons in Hf as [Hb%ip_byte_ascii _]. lia.
  - unfold is_char_boundary. destruct (Z.eqb_spec (i + len tok) (len bytes)); [done|].
    destruct r as [|c r]; [rewrite len_nil in *; lia|].
    destruct (exists_last Hne) as (tok' & a & ->).
    apply Forall_app in Hf as [_ [Ha%ip_byte_ascii _]%Forall_cons].
    assert (H1 : bytes !! (Z.to_nat i + length tok')%nat = Some a).
    { rewrite <- lookup_drop, Hd, <- app_assoc. by apply list_lookup_middle. }
    assert (H2 : bytes !! (S (Z.to_nat i + length tok'))%nat = Some c).
    { rewrite <- Nat.add_succ_r, <- lookup_drop, Hd. apply list_lookup_middle.
      rewrite length_app. cbn. lia. }
    replace (Z.to_nat (i + len (tok' ++ [a]))) with (S (Z.to_nat i + length tok'))
      by (unfold len; rewrite length_app; cbn; lia).
    rewrite H2. pose proof (Hc _ _ _ H1 H2 ltac:(lia)). cbn. lia.
  - unfold slice. rewrite decide_True by lia. rewrite Hd. f_equal. apply take_app_exact. lia.
Qed.

Lemma scan_ipv4_loop_refines fuel bytes i found :
  ascii_closed bytes → 0 ≤ i →
  scan_ipv4_loop fuel bytes i found = Ok (found ++ ip_tokens fuel (drop (Z.to_nat i) bytes)).
Proof.
  intros Hc. revert i found. induction fuel as [|fuel IH]; intros i found Hi;
    cbn [scan_ipv4_loop ip_tokens]; [by rewrite app_nil_r|].
  destruct (Z.ltb_spec i (len bytes)) as [Hl|Hl].
  - destruct (lookup_lt_is_Some_2 bytes (Z.to_nat i)) as [b Hb]; [unfold len in Hl; lia|].
    rewrite (index_lookup _ _ _ Hb) by lia. cbn [mbind outcome_bind].
    rewrite (drop_S _ _ _ Hb). destruct (is_ascii_digit b) eqn:Eb.
    + rewrite ip_run_end_refines by (unfold len in *; lia). cbn [mbind outcome_bind].
      rewrite <- (drop_S _ _ _ Hb). set (d := drop (Z.to_nat i) bytes) in *.
      destruct (ip_prefix_app d) as (r & Ed & _).
      destruct (run_end_boundary bytes i (i + len (ip_prefix d)) (ip_prefix d) r) as (B1 & B2 & Bs);
        [done|done|done| |apply ip_prefix_Forall|done|].
      { unfold d. rewrite (drop_S _ _ _ Hb). cbn. unfold ip_byte. by rewrite Eb. }
      unfold str_slice. rewrite B1, B2, Bs. cbn [andb mbind outcome_bind].
      rewrite IH by (pose proof (len_nonneg (ip_prefix d)); lia).
      assert (Edd : drop (length (ip_prefix d)) d
        = drop (Z.to_nat i + length (ip_prefix d)) bytes) by (by unfold d at 2; rewrite drop_drop).
      rewrite Edd. replace (Z.to_nat (i + len (ip_prefix d))) with (Z.to_nat i + length (ip_prefix d))%nat
        by (unfold len; lia).
      destruct (is_ipv4_shaped _); [by rewrite <- app_assoc|done].
    + rewrite IH by lia. by replace (Z.to_nat (i + 1)) with (S (Z.to_nat i)) by lia.
  - rewrite drop_ge by (unfold len in Hl; lia). by rewrite app_nil_r.
Qed.

Lemma scan_ipv4_candidates_refines t :
  Forall char_ok t → scan_ipv4_candidates t = Ok (ips_in t).
Proof.
  intros Ht. unfold scan_ipv4_candidates, ips_in.
  apply as_bytes_ascii_closed in Ht. by rewrite scan_ipv4_loop_refines.
Qed.

(** ** Soundness and completeness of the tokens *)

Definition mac_at (bytes : list Z) (i : nat) : option (list Z) :=
  mac_window (take 17 (drop i bytes)).

Lemma mac_window_length w m : mac_window w = Some m → length w = 17%nat.
Proof. unfold mac_window. repeat case_match; done. Qed.

Lemma mac_at_bound bytes i m : mac_at bytes i = Some m → (i + 17 ≤ length bytes)%nat.
Proof. intros H%mac_window_length. rewrite length_take, length_drop in H. lia. Qed.

Lemma mac_at_drop bytes i j : mac_at (drop i bytes) j = mac_at bytes (i + j).
Proof. unfold mac_at. by rewrite drop_drop. Qed.

Lemma mac_tokens_sound fuel bytes m :
  m ∈ mac_tokens fuel bytes → ∃ i, mac_at bytes i = Some m.
Proof.
  revert bytes. induction fuel as [|fuel IH]; intros bytes; cbn; [by intros ?%not_elem_of_nil|].
  case_decide; [|by intros ?%not_elem_of_nil].
  destruct (mac_window (take 17 bytes)) as [m'|] eqn:E.
  - intros [->|[i Hi]%IH]%elem_of_cons; [by exists 0%nat|].
    rewrite mac_at_drop in Hi. eauto.
  - intros [i Hi]%IH. rewrite mac_at_drop in Hi. eauto.
Qed.

Lemma mac_tokens_complete fuel bytes i m :
  (length bytes < fuel)%nat → mac_at bytes i = Some m →
  (∀ j, (j < i < j + 17)%nat → mac_at bytes j = None) → m ∈ mac_tokens fuel bytes.
Proof.
  revert bytes i. induction fuel as [|fuel IH]; intros bytes i Hf Hi Hno; [lia|].
  pose proof (mac_at_bound _ _ _ Hi) as Hb. cbn. rewrite decide_True by lia.
  change (mac_window (take 17 bytes)) with (mac_at bytes 0).
  destruct (mac_at bytes 0) as [m'|] eqn:E0.
  - destruct i as [|i]; [rewrite E0 in Hi; simplify_eq; left|].
    destruct (decide (S i < 17)%nat); [rewrite Hno in E0 by lia; done|].
    right. apply (IH _ (S i - 17)%nat); [rewrite length_drop; lia| |].
    + rewrite mac_at_drop. by replace (17 + (S i - 17))%nat with (S i) by lia.
    + intros j Hj. rewrite mac_at_drop. apply Hno. lia.
  - destruct i as [|i]; [congruence|].
    apply (IH _ i); [rewrite length_drop; lia|by rewrite mac_at_drop|].
    intros j Hj. rewrite mac_at_drop. apply Hno. lia.
Qed.

Lemma mac_tokens_nonempty fuel bytes i m :
  (length bytes < fuel)%nat → mac_at bytes i = Some m → mac_tokens fuel bytes ≠ [].
Proof.
  revert bytes i. induction fuel as [|fuel IH]; intros bytes i Hf Hi; [lia|].
  pose proof (mac_at_bound _ _ _ Hi). cbn. rewrite decide_True by lia.
  change (mac_window (take 17 bytes)) with (mac_at bytes 0).
  destruct (mac_at bytes 0) eqn:E0; [done|]. destruct i as [|i]; [congruence|].
  apply (IH _ i); [rewrite length_drop; lia|by rewrite mac_at_drop].
Qed.

Lemma ip_tokens_sound fuel bytes t :
  t ∈ ip_tokens fuel bytes →
  is_ipv4_shaped t = true ∧ Forall (λ b, ip_byte b = true) t ∧ ∃ p s, bytes = p ++ t ++ s.
Proof.
  revert bytes. induction fuel as [|fuel IH]; intros bytes; cbn; [by intros ?%not_elem_of_nil|].
  destruct bytes as [|b bytes]; [by intros ?%not_elem_of_nil|].
  destruct (is_ascii_digit b) eqn:Eb.
  - destruct (ip_prefix_app (b :: bytes)) as (r & Er & _).
    set (tok := ip_prefix (b :: bytes)) in *. intros [Ht|Ht]%elem_of_app.
    + destruct (is_ipv4_shaped tok) eqn:Es; [|by apply not_elem_of_nil in Ht].
      apply list_elem_of_singleton in Ht as ->. split_and!; [done|apply ip_prefix_Forall|].
      by exists [], r.
    + rewrite Er, drop_app_length in Ht. apply IH in Ht as (? & ? & p & s & ->).
      split_and!; [done..|]. exists (tok ++ p), s. by rewrite Er, <- app_assoc.
  - intros (? & ? & p & s & ->)%IH. split_and!; [done..|]. by exists (b :: p), s.
Qed.

Definition ends_token (s : list Z) : Prop := ∀ b s', s = b :: s' → ip_byte b = false.
Definition starts_token (p : list Z) : Prop := ∀ p' b, p = p' ++ [b] → ip_byte b = false.

Lemma ip_prefix_exact t s :
  Forall (λ b, ip_byte b = true) t → ends_token s → ip_prefix (t ++ s) = t.
Proof.
  intros Ht Hs. induction Ht as [|b t Hb Ht IH]; cbn.
  - destruct s as [|b s]; [done|]. cbn. by rewrite (Hs b s).
  - by rewrite Hb, IH.
Qed.

Lemma ip_prefix_before p q b :
  ip_byte b = false → ip_prefix (p ++ b :: q) = ip_prefix (p ++ [b]) ∧
  ∃ r, p = ip_prefix (p ++ [b]) ++ r.
Proof.
  intros Hb. induction p as [|c p [IH [r Hr]]]; cbn.
  - rewrite Hb. eauto.
  - destruct (ip_byte c); [|by split; [done|exists (c :: p)]].
    rewrite IH. split; [done|]. exists r. cbn. by f_equal.
Qed.

Lemma shaped_head_digit t :
  is_ipv4_shaped t = true → Forall (λ b, ip_byte b = true) t →
  ∃ b t', t = b :: t' ∧ is_ascii_digit b = true.
Proof.
  intros Hs Ht. destruct Ht as [|b t Hb Ht]; [done|]. exists b, t. split; [done|].
  unfold ip_byte in Hb. destruct (is_ascii_digit b) eqn:E; [done|]. cbn in Hb.
  exfalso. unfold is_ipv4_shaped in Hs. cbn [split_char] in Hs. rewrite Hb in Hs.
  by destruct (negb _).
Qed.

Lemma ip_tokens_complete fuel p t s :
  (length (p ++ t ++ s) < fuel)%nat →
  is_ipv4_shaped t = true → Forall (λ b, ip_byte b = true) t →
  starts_token p → ends_token s → t ∈ ip_tokens fuel (p ++ t ++ s).
Proof.
  intros Hf Hsh Ht Hp Hs. revert p Hf Hp.
  induction fuel as [|fuel IH]; intros p Hf Hp; [lia|].
  destruct p as [|c p].
  - destruct (shaped_head_digit t Hsh Ht) as (b & t' & E & Hb).
    cbn [app]. assert (Ep : ip_prefix (t ++ s) = t) by by apply ip_prefix_exact.
    rewrite E in Ep |- *. cbn [ip_tokens app]. rewrite Hb. change (b :: t' ++ s) with ((b :: t') ++ s).
    rewrite Ep, <- E, Hsh. by left.
  - cbn [ip_tokens app].
    destruct (exists_last (l := c :: p) ltac:(done)) as (p' & z & Ez).
    pose proof (Hp _ _ Ez) as Hz. destruct (is_ascii_digit c) eqn:Ec.
    + apply elem_of_app. right. change (c :: p ++ t ++ s) with ((c :: p) ++ t ++ s).
      rewrite Ez, <- app_assoc. cbn [app].
      destruct (ip_prefix_before p' (t ++ s) z Hz) as [-> [r Hr]].
      set (k := ip_prefix (p' ++ [z])) in *.
      assert (k ≠ []).
      { unfold k. rewrite <- Ez. cbn. unfold ip_byte. by rewrite Ec. }
      rewrite Hr, <- app_assoc, drop_app_length.
      change (r ++ z :: t ++ s) with (r ++ [z] ++ t ++ s). rewrite app_assoc.
      apply IH.
      * apply (f_equal length) in Ez, Hr. destruct k; [done|].
        rewrite !length_app in *. cbn [length] in *. lia.
      * intros q b [_ <-]%app_inj_tail. done.
    + apply IH; [cbn in Hf; lia|]. intros q b ->. by apply (Hp (c :: q) b).
Qed.

(** ** Printed addresses *)

Lemma fmt_02x_facts b :
  0 ≤ b < 256 →
  u8_from_hex (fmt_02x b) = Some b ∧ len (as_bytes (fmt_02x b)) = 2 ∧
  forallb (λ c, (0 <=? c) && (c <? 128) && negb (c =? 58) && negb (is_whitespace c)) (fmt_02x b)
  = true ∧
  hex_pair (hex_digit (b / 16)) (hex_digit (b mod 16)) = Some b.
Proof. revert b. by_enumeration 256%nat. Qed.

Lemma join_snoc sep fs f :
  fs ≠ [] → join sep (fs ++ [f]) = join sep fs ++ sep ++ f.
Proof.
  induction fs as [|g fs IH]; intros Hne; [done|]. destruct fs as [|h fs]; [done|].
  change (g ++ sep ++ join sep ((h :: fs) ++ [f]) = (g ++ sep ++ join sep (h :: fs)) ++ sep ++ f).
  rewrite IH by done. by rewrite <- !app_assoc.
Qed.

Definition printable (s : text) : Prop :=
  Forall (λ c, 0 ≤ c < 128 ∧ is_whitespace c = false) s.

Lemma fmt_02x_printable b : 0 ≤ b < 256 → printable (fmt_02x b) ∧ 58 ∉ fmt_02x b.
Proof.
  intros (_ & _ & H & _)%fmt_02x_facts. rewrite forallb_forall in H.
  assert (Hx : ∀ c, c ∈ fmt_02x b → 0 ≤ c < 128 ∧ is_whitespace c = false ∧ c ≠ 58).
  { intros c Hc%list_elem_of_In%H. destruct (is_whitespace c); lia. }
  split.
  - apply Forall_forall. intros c Hc. by destruct (Hx c Hc) as (? & ? & _).
  - intros Hc. by destruct (Hx _ Hc) as (_ & _ & []).
Qed.

Lemma join_printable sep l :
  printable sep → Forall printable l → printable (join sep l).
Proof.
  intros Hs. induction 1 as [|f l Hf Hl IH]; [constructor|]. destruct l; [done|].
  cbn [join]. by repeat (apply Forall_app; split).
Qed.

Lemma format_mac_printable m : bytes_ok m → printable (format_mac m).
Proof.
  intros Hm. apply join_printable; [by repeat constructor|].
  induction Hm; constructor; [|done]. by apply fmt_02x_printable.
Qed.

Lemma printable_ascii s : printable s → ascii_text s.
Proof. intros H. eapply Forall_impl; [exact H|]. by intros c [Hc _]. Qed.

Lemma trim_start_id s : printable s → trim_start s = s.
Proof. destruct 1 as [|c s [_ Hc] Hs]; [done|]. cbn. by rewrite Hc. Qed.

Lemma trim_id s : printable s → trim s = s.
Proof.
  intros Hs. unfold trim. rewrite (trim_start_id s) by done.
  rewrite trim_start_id by by apply Forall_rev. apply rev_involutive.
Qed.

Lemma parse_mac_parts_fmt m : bytes_ok m → parse_mac_parts (map fmt_02x m) = Some m.
Proof.
  induction 1 as [|b m Hb Hm IH]; [done|]. cbn [map parse_mac_parts].
  destruct (fmt_02x_facts b Hb) as (-> & -> & _). by rewrite IH.
Qed.

Lemma parse_mac_format m : array_ok 6 m → parse_mac (format_mac m) = Some m.
Proof.
  intros [Hl Hb]. unfold parse_mac. rewrite trim_id by by apply format_mac_printable.
  assert (Hc : contains_char (format_mac m) 58 = true).
  { unfold contains_char. apply existsb_exists. exists 58. split; [|done].
    do 2 (destruct m as [|? m]; [done|]). unfold format_mac. cbn [map join].
    apply in_or_app. right. by left. }
  rewrite Hc. unfold format_mac. rewrite split_char_join.
  - unfold len. rewrite length_map, Hl. by apply parse_mac_parts_fmt.
  - by destruct m.
  - clear Hl Hc. induction Hb; constructor; [|done]. by apply fmt_02x_printable.
Qed.

Lemma from_str_radix_range digit radix max s v :
  (∀ c d, digit c = Some d → 0 ≤ d) → 0 ≤ radix → 0 ≤ max →
  from_str_radix digit radix max s = Some v → 0 ≤ v ≤ max.
Proof.
  intros Hd Hr Hm. assert (H : ∀ s acc v, 0 ≤ acc ≤ max →
      radix_digits digit radix max acc s = Some v → 0 ≤ v ≤ max).
  { clear s v. induction s as [|c s IH]; intros acc v Ha; cbn; [intros [= <-]; done|].
    destruct (digit c) as [d|] eqn:E; [|done]. apply Hd in E.
    destruct (Z.leb_spec (acc * radix + d) max); [|done]. apply IH. nia. }
  unfold from_str_radix. destruct s as [|c s]; [done|].
  repeat case_match; try done; apply H; lia.
Qed.

Lemma parse_mac_parts_ok parts out :
  parse_mac_parts parts = Some out → length out = length parts ∧ bytes_ok out.
Proof.
  revert out. induction parts as [|p parts IH]; cbn; intros out; [by intros [= <-]|].
  repeat case_match; try done. intros [= <-]. destruct (IH _ eq_refl) as [<- Hb].
  split; [done|]. constructor; [|done].
  apply from_str_radix_range in H0; [lia| |lia..]. intros ?? ?%hex_val_range. lia.
Qed.

Lemma parse_mac_array s m : parse_mac s = Some m → array_ok 6 m.
Proof.
  unfold parse_mac. repeat case_match; try done; intros [Hl Hb]%parse_mac_parts_ok;
    split; try done; rewrite Hl; unfold len in *; lia.
Qed.

(** The bytes of a printed MAC form a window. *)
Lemma mac_window_printed a b c d e f :
  bytes_ok [a; b; c; d; e; f] →
  mac_window (format_mac [a; b; c; d; e; f]) = Some [a; b; c; d; e; f].
Proof.
  intros H. repeat (apply Forall_cons in H as [? H]).
  unfold mac_window, format_mac, fmt_02x. change (str ":") with [58].
  cbn [map join app lookup list_lookup length].
  change (58 =? 58) with true. cbn [orb]. rewrite decide_True by done.
  cbn [mac_octets]. change (58 =? 58) with true. cbn iota.
  by rewrite !(λ b H, proj2 (proj2 (proj2 (fmt_02x_facts b H)))) by done.
Qed.

Lemma ascii_as_bytes_printable s : printable s → as_bytes s = s.
Proof. intros. by apply as_bytes_ascii, printable_ascii. Qed.

(** Decimal display of an octet. *)
Definition fmt_dec (v : Z) : text :=
  if v <? 10 then [48 + v]
  else if v <? 100 then [48 + v / 10; 48 + v mod 10]
  else [48 + v / 100; 48 + (v / 10) mod 10; 48 + v mod 10].
Definition ipv4_display (a b c d : Z) : text := join (str ".") (map fmt_dec [a; b; c; d]).

Definition octet_part_ok (p : text) : bool :=
  if (len (as_bytes p) =? 0) || (3 <? len (as_bytes p)) then false
  else match parse_u16 p with Some v => v <=? 255 | None => false end.

Lemma fmt_dec_facts v :
  0 ≤ v < 256 → octet_part_ok (fmt_dec v) = true ∧ forallb is_ascii_digit (fmt_dec v) = true.
Proof. revert v. by_enumeration 256%nat. Qed.

Lemma fmt_dec_nodot v : 0 ≤ v < 256 → 46 ∉ fmt_dec v.
Proof.
  intros [_ H]%fmt_dec_facts Hd%list_elem_of_In. rewrite forallb_forall in H.
  by apply H in Hd.
Qed.

Lemma fmt_dec_ip v : 0 ≤ v < 256 → Forall (λ b, ip_byte b = true) (fmt_dec v).
Proof.
  intros [_ H]%fmt_dec_facts. rewrite forallb_forall in H. apply Forall_forall.
  intros c Hc%list_elem_of_In%H. unfold ip_byte. by rewrite Hc.
Qed.

Lemma ipv4_display_shaped a b c d :
  bytes_ok [a; b; c; d] →
  is_ipv4_shaped (ipv4_display a b c d) = true ∧
  Forall (λ b, ip_byte b = true) (ipv4_display a b c d).
Proof.
  intros H. assert (Hn : Forall (λ f, 46 ∉ f) (map fmt_dec [a; b; c; d])).
  { apply Forall_map. eapply Forall_impl; [exact H|]. intros v Hv. by apply fmt_dec_nodot. }
  repeat (apply Forall_cons in H as [? H]). split.
  - unfold is_ipv4_shaped, ipv4_display. change (str ".") with [46].
    rewrite split_char_join by done. change (len (map fmt_dec [a; b; c; d])) with 4.
    change (4 =? 4) with true. cbn [negb map forallb].
    fold (octet_part_ok (fmt_dec a)) (octet_part_ok (fmt_dec b))
      (octet_part_ok (fmt_dec c)) (octet_part_ok (fmt_dec d)).
    by rewrite !(λ v H, proj1 (fmt_dec_facts v H)) by done.
  - unfold ipv4_display. change (str ".") with [46]. cbn [map join].
    repeat (apply Forall_app; split); try by apply fmt_dec_ip. all: by repeat constructor.
Qed.

Lemma for_first_pure {A B} (f : A → outcome False (option B)) g l :
  (∀ a, a ∈ l → f a = Ok (g a)) → for_first f l = Ok (first_some g l).
Proof.
  induction l as [|a l IH]; intros H; [done|]. cbn [for_first first_some].
  rewrite (H a) by left. cbn. destruct (g a); [done|]. apply IH. intros b Hb. apply H. by right.
Qed.

(** ** Pure reading of the protected-resource search *)

Definition match_text_spec (protected : list ProtectedResource) (k t : text) :
    option ProtectedMatch :=
  match first_some (λ mac, (λ pr, match_of pr (format_mac mac) k) <$> find_mac protected mac)
          (all_macs_in t) with
  | Some m => Some m
  | None => first_some (λ ip, (λ pr, match_of pr ip k) <$> find_ip protected ip) (ips_in t)
  end.

Definition params_ok (ps : list Constraint) : Prop :=
  Forall (λ c, Forall (Forall char_ok) (scannable_strings (value c))) ps.

Lemma find_protected_match_refines protected ps :
  params_ok ps → protected ≠ [] →
  find_protected_match protected ps = Ok (first_some (λ c,
    first_some (match_text_spec protected (key c)) (scannable_strings (value c))) ps).
Proof.
  intros Hps Hne. unfold find_protected_match. rewrite decide_False by done.
  apply for_first_pure. intros c Hc. apply for_first_pure. intros t Ht.
  unfold params_ok in Hps. rewrite Forall_forall in Hps. specialize (Hps c Hc).
  rewrite Forall_forall in Hps. specialize (Hps t Ht).
  unfold match_text, match_text_spec. rewrite scan_mac_obfuscated_refines.
  cbn [mbind outcome_bind]. destruct (first_some _ (all_macs_in t)); [done|].
  by rewrite scan_ipv4_candidates_refines.
Qed.

Lemma find_mac_Some protected mac pr :
  find_mac protected mac = Some pr → pr ∈ protected ∧ pr_mac pr = mac.
Proof. intros [Hi H]%find_some. rewrite bool_decide_eq_true in H. by rewrite list_elem_of_In. Qed.

Lemma find_ip_Some protected ip pr :
  find_ip protected ip = Some pr → pr ∈ protected ∧ pr_ip pr = Some ip.
Proof. intros [Hi H]%find_some. rewrite bool_decide_eq_true in H. by rewrite list_elem_of_In. Qed.

Lemma find_is_Some {A} (f : A → bool) l a : a ∈ l → f a = true → find f l ≠ None.
Proof. intros Ha Hf Hn. apply list_elem_of_In in Ha. eapply find_none in Hn; [|done]. congruence. Qed.

(** A text mentions a protected device: the device's MAC stands at an offset
    that no earlier MAC-shaped window overlaps, in the text or in the text
    without white space; or its IP address stands between other characters. *)
Definition mentions (pr : ProtectedResource) (t : text) : Prop :=
  (∃ u i, (u = t ∨ u = strip_whitespace t) ∧ mac_at (as_bytes u) i = Some (pr_mac pr) ∧
     ∀ j, (j < i < j + 17)%nat → mac_at (as_bytes u) j = None) ∨
  (∃ ip p s, pr_ip pr = Some ip ∧ as_bytes t = p ++ ip ++ s ∧ is_ipv4_shaped ip = true ∧
     Forall (λ b, ip_byte b = true) ip ∧ starts_token p ∧ ends_token s).

Lemma mentions_scanned pr t :
  mentions pr t → pr_mac pr ∈ all_macs_in t ∨ ∃ ip, pr_ip pr = Some ip ∧ ip ∈ ips_in t.
Proof.
  intros [(u & i & Hu & Hm & Hno)|(ip & p & s & Hip & E & Hsh & Hb & Hp & Hs)].
  - left. assert (Hin : pr_mac pr ∈ macs_in u) by (eapply mac_tokens_complete; [lia|done..]).
    unfold all_macs_in. destruct Hu as [->| ->]; [set_solver|].
    destruct (decide (strip_whitespace t = t)) as [Es|]; [rewrite Es in Hin|]; set_solver.
  - right. exists ip. split; [done|]. unfold ips_in. rewrite E.
    by apply ip_tokens_complete; [lia|..].
Qed.

Lemma mentions_matched protected pr k t :
  pr ∈ protected → mentions pr t → match_text_spec protected k t ≠ None.
Proof.
  intros Hpr [Hm|(ip & Hip & Hin)]%mentions_scanned; unfold match_text_spec.
  - destruct (first_some _ (all_macs_in t)) eqn:E; [done|]. exfalso.
    rewrite first_some_None in E. specialize (E _ Hm).
    apply fmap_None in E. eapply find_is_Some; [exact Hpr| |exact E]. by apply bool_decide_eq_true.
  - destruct (first_some _ (all_macs_in t)); [done|].
    intros E. rewrite first_some_None in E. specialize (E _ Hin).
    apply fmap_None in E. eapply find_is_Some; [exact Hpr| |exact E]. by apply bool_decide_eq_true.
Qed.

(** ** Properties *)

(** The MAC scan never panics; everything it reports stands in the text;
    it reports every MAC-shaped window that no earlier MAC-shaped window
    overlaps, and reports something whenever the text holds one at all. *)
Theorem scan_mac_correct t :
  ∃ l, scan_mac_candidates t = Ok l ∧
    (∀ m, m ∈ l → ∃ i, mac_at (as_bytes t) i = Some m) ∧
    (∀ i m, mac_at (as_bytes t) i = Some m →
       (∀ j, (j < i < j + 17)%nat → mac_at (as_bytes t) j = None) → m ∈ l) ∧
    (∀ i m, mac_at (as_bytes t) i = Some m → l ≠ []).
Proof.
  exists (macs_in t). split_and!.
  - apply scan_mac_candidates_refines.
  - intros m. apply mac_tokens_sound.
  - intros i m. apply mac_tokens_complete. lia.
  - intros i m. apply mac_tokens_nonempty. lia.
Qed.

Lemma scan_mac_correct_witness :
  ∃ l, scan_mac_candidates (str "to 30-C5-99-5e-34-4D!") = Ok l ∧ [48; 197; 153; 94; 52; 77] ∈ l.
Proof.
  destruct (scan_mac_correct (str "to 30-C5-99-5e-34-4D!")) as (l & Hl & _ & Hc & _).
  exists l. split; [exact Hl|]. apply (Hc 3%nat); [reflexivity|].
  intros j Hj. do 3 (destruct j as [|j]; [reflexivity|]). lia.
Defined.

(** The IPv4 scan never panics on a well-formed string (its slices fall on
    character boundaries); it reports exactly dotted quads of the text, and every
    printed address that is not glued to further digits or dots is reported. *)
Theorem scan_ipv4_correct t :
  Forall char_ok t →
  ∃ l, scan_ipv4_candidates t = Ok l ∧
    (∀ ip, ip ∈ l → is_ipv4_shaped ip = true ∧ ∃ p s, as_bytes t = p ++ ip ++ s) ∧
    (∀ a b c d p s, bytes_ok [a; b; c; d] → as_bytes t = p ++ ipv4_display a b c d ++ s →
       starts_token p → ends_token s → ipv4_display a b c d ∈ l).
Proof.
  intros Ht. exists (ips_in t). split_and!.
  - by apply scan_ipv4_candidates_refines.
  - by intros ip (? & _ & ?)%ip_tokens_sound.
  - intros a b c d p s [Hsh Hb]%ipv4_display_shaped E Hp Hs. unfold ips_in. rewrite E.
    by apply ip_tokens_complete; [lia|..].
Qed.

Lemma scan_ipv4_correct_witness :
  ∃ l, scan_ipv4_candidates (8217 :: str " 10.0.0.254,") = Ok l ∧ ipv4_display 10 0 0 254 ∈ l.
Proof.
  destruct (scan_ipv4_correct (8217 :: str " 10.0.0.254,")) as (l & Hl & _ & Hc).
  - apply (bool_decide_unpack (Forall char_ok _)). vm_compute. exact I.
  - exists l. split; [exact Hl|].
    apply (Hc 10 0 0 254 [226; 128; 153; 32] (str ",")); try done.
    + repeat constructor; lia.
    + intros p' b E. change [226; 128; 153; 32] with ([226; 128; 153] ++ [32]) in E.
      apply app_inj_tail in E as [_ <-]. reflexivity.
    + by intros b s' [= <- _].
Defined.

(** MAC text round trip.  [format_mac] prints what [parse_mac] and the window
    scan read back, and whatever [parse_mac] accepts is six bytes; it also accepts
    a sign in front of a digit, which is not a hex byte pair. *)
Theorem mac_text_roundtrip m :
  array_ok 6 m →
  parse_mac (format_mac m) = Some m ∧
  mac_window (as_bytes (format_mac m)) = Some m ∧
  (∀ s m', parse_mac s = Some m' → array_ok 6 m' ∧ parse_mac (format_mac m') = Some m') ∧
  parse_mac (str "+a:bb:cc:dd:ee:ff") = Some [10; 187; 204; 221; 238; 255].
Proof.
  intros Hm. split_and!.
  - by apply parse_mac_format.
  - destruct Hm as [Hl Hb]. rewrite ascii_as_bytes_printable by by apply format_mac_printable.
    do 6 (destruct m as [|? m]; [done|]). destruct m; [|done]. by apply mac_window_printed.
  - intros s m' H%parse_mac_array. split; [done|]. by apply parse_mac_format.
  - reflexivity.
Qed.

Lemma mac_text_roundtrip_witness :
  parse_mac (format_mac [48; 197; 153; 94; 52; 77]) = Some [48; 197; 153; 94; 52; 77].
Proof. apply (mac_text_roundtrip [48; 197; 153; 94; 52; 77]). by vm_compute; repeat constructor. Defined.


Definition core_switch : ProtectedResource :=
  mkProtected (Some (str "core")) [170; 187; 204; 17; 34; 1] (str "aa:bb:cc:11:22:01")
    (Some (str "10.0.0.1")).


(** Two spellings of a protected address that the scans miss.  A MAC preceded
    by one more octet is consumed by the overlapping window in front of it: only
    that window is reported.  An IP followed by a dot is one run of five fields:
    nothing is reported. *)
Theorem protected_scan_gap x m a b c d :
  0 ≤ x < 256 → array_ok 6 m → bytes_ok [a; b; c; d] →
  scan_mac_candidates (fmt_02x x ++ str ":" ++ format_mac m) = Ok [x :: take 5 m] ∧
  scan_ipv4_candidates (ipv4_display a b c d ++ str ".") = Ok [].
Proof.
  intros Hx [Hl Hb] Hip. split.
  - rewrite scan_mac_candidates_refines. unfold macs_in.
    do 6 (destruct m as [|? m]; [done|]). destruct m; [|done]. clear Hl.
    assert (Hp : printable (format_mac [x; z; z0; z1; z2; z3; z4]))
      by (apply format_mac_printable; by constructor).
    change (fmt_02x x ++ str ":" ++ format_mac [z; z0; z1; z2; z3; z4])
      with (format_mac [x; z; z0; z1; z2; z3; z4]).
    rewrite (ascii_as_bytes_printable _ Hp). cbn [mac_tokens length]. rewrite decide_True by (cbn; lia).
    change (take 17 _) with (format_mac [x; z; z0; z1; z2; z3]).
    rewrite mac_window_printed
      by (apply (Forall_take _ 6 [x; z; z0; z1; z2; z3; z4]); by constructor).
    by rewrite mac_tokens_short by (cbn; lia).
  - assert (Hdot : Forall (λ b, ip_byte b = true) (ipv4_display a b c d ++ str ".")).
    { apply Forall_app. split; [by apply ipv4_display_shaped|by repeat constructor]. }
    assert (Ha : ascii_text (ipv4_display a b c d ++ str ".")).
    { eapply Forall_impl; [exact Hdot|]. unfold ip_byte, is_ascii_digit. intros; cbn in *. lia. }
    rewrite scan_ipv4_candidates_refines
      by (eapply Forall_impl; [exact Ha|]; unfold char_ok; cbn; lia).
    unfold ips_in. rewrite as_bytes_ascii by done. do 2 f_equal.
    destruct (shaped_head_digit (ipv4_display a b c d)) as (y & t & E & Hy);
      [by apply ipv4_display_shaped..|].
    assert (Hpre : ip_prefix (ipv4_display a b c d ++ str ".") = ipv4_display a b c d ++ str ".").
    { rewrite <- (app_nil_r (_ ++ str ".")) at 1. by apply ip_prefix_exact. }
    assert (Hns : is_ipv4_shaped (ipv4_display a b c d ++ str ".") = false).
    { unfold ipv4_display. rewrite <- (app_nil_r (str ".")) at 2. rewrite <- join_snoc by done.
      unfold is_ipv4_shaped. change (str ".") with [46]. rewrite split_char_join; [done|done|].
      apply Forall_app. split; [|repeat constructor; apply not_elem_of_nil].
      apply Forall_map. eapply Forall_impl; [exact Hip|]. intros v Hv. by apply fmt_dec_nodot. }
    rewrite E in Hpre, Hns |- *. cbn [ip_tokens app]. rewrite Hy. cbn [app] in Hpre, Hns.
    rewrite Hpre, Hns, drop_ge by done. cbn [app]. by destruct (length _).
Qed.

Lemma protected_scan_gap_witness :
  scan_mac_candidates (str "00:aa:bb:cc:11:22:01") = Ok [[0; 170; 187; 204; 17; 34]].
Proof.
  apply (protected_scan_gap 0 [170; 187; 204; 17; 34; 1] 10 0 0 1); [done|..].
  - by vm_compute; repeat constructor.
  - by repeat constructor.
Defined.
