(* ===== verification/Policy.v ===== *)
(** * Capability policy (axiom-gateway/src/policy.rs)

    The policy file and its fail-closed load, the admission check every
    capability call passes ([check_and_acquire]), and the local kill switch.  The
    clocks ([SystemTime], in seconds, and [Instant], in nanoseconds) are
    arguments.  A semaphore is the number of its free permits; a permit is given
    back when the caller drops it.  TOML parsing, the [tokio] semaphore limit and
    Unicode lower-casing are interfaces.  The calls of several peers interleave
    at the granularity of the source's lock scopes (section [Interleaving]). *)

From stdpp Require Import base numbers list strings gmap.
From Stdlib Require Import Sorting.Sorted.
From S2P Require Import Prelude Types Text Intent Scan.

(** ** Tiers *)

Inductive Tier := Tier0 | Tier1 | Tier2.
#[export] Instance Tier_eq_dec : EqDecision Tier.
Proof. solve_decision. Defined.

Definition from_toml_str (s : text) : option Tier :=
  if decide (s = str "tier0") then Some Tier0
  else if decide (s = str "tier1") then Some Tier1
  else if decide (s = str "tier2") then Some Tier2
  else None.

Definition Tier_as_str (t : Tier) : text :=
  match t with Tier0 => str "tier0" | Tier1 => str "tier1" | Tier2 => str "tier2" end.

(** ** The file *)

Definition POLICY_SCHEMA_VERSION : Z := 2.

Inductive RawAllowedPeer :=
  | Bare (s : text)
  | WithExpiry (peer : text) (expires : option Z).

Definition peer_str (r : RawAllowedPeer) : text :=
  match r with Bare s => s | WithExpiry peer _ => peer end.
Definition RawAllowedPeer_expires (r : RawAllowedPeer) : option Z :=
  match r with Bare _ => None | WithExpiry _ e => e end.

Record RawCapabilityEntry := mkRawEntry {
  raw_allowed_peers : list RawAllowedPeer;
  raw_rate_limit_secs : Z;
  raw_concurrency : Z;
  raw_tier : option text;
  raw_denied_param_substrings : list text
}.

Record RawProtectedResource := mkRawProtected {
  raw_pr_name : option text;
  raw_pr_mac : text;
  raw_pr_ip : option text
}.

(** The [capability] table is a hash map: its entries in iteration order. *)
Record RawPolicyFile := mkRawFile {
  raw_version : Z;
  raw_capability : list (text * RawCapabilityEntry);
  raw_protected_resource : option (list RawProtectedResource)
}.

Definition raw_entry_ok (e : RawCapabilityEntry) : Prop :=
  0 ≤ raw_rate_limit_secs e < 2 ^ 64 ∧ 0 ≤ raw_concurrency e < 2 ^ 64.
Definition raw_file_ok (r : RawPolicyFile) : Prop :=
  NoDup (map fst (raw_capability r)) ∧ Forall (raw_entry_ok ∘ snd) (raw_capability r).

(** [toml::from_str::<RawPolicyFile>]: integers fit their fields and a table has
    each key once. *)
Class TomlPolicy := {
  toml_from_str : text → option RawPolicyFile;
  toml_raw_ok : ∀ s r, toml_from_str s = Some r → raw_file_ok r
}.

(** [tokio::sync::Semaphore::new] panics above [MAX_PERMITS]. *)
Class TokioSemaphore := {
  MAX_PERMITS : Z;
  MAX_PERMITS_pos : 0 < MAX_PERMITS
}.

(** [str::to_lowercase], which on ASCII text is the ASCII lower-casing. *)
Class Lowercase := {
  to_lowercase : text → text;
  to_lowercase_ascii : ∀ s, ascii_text s → to_lowercase s = to_ascii_lowercase s
}.

#[export] Instance ascii_lowercase : Lowercase :=
  {| to_lowercase := to_ascii_lowercase; to_lowercase_ascii s _ := eq_refl |}.

(** ** The loaded policy *)

Record CapabilityEntry := mkEntry {
  allowed_peers : gmap NodeId (option Z);
  rate_limit : Z;
  available : Z;
  concurrency : Z;
  entry_tier : Tier;
  denied_param_substrings : list text
}.

Record KillSwitch := mkKill { ks_frozen : bool; ks_suspended : gset NodeId }.
Definition KillSwitch_new : KillSwitch := mkKill false ∅.

Record CapabilityPolicy := mkPolicy {
  entries : gmap text CapabilityEntry;
  rate_limit_state : gmap (text * NodeId) Z;
  policy_protected : option (list ProtectedResource);
  kill_switch : KillSwitch
}.

Definition with_entries p e :=
  mkPolicy e (rate_limit_state p) (policy_protected p) (kill_switch p).
Definition with_rate_limit_state p r :=
  mkPolicy (entries p) r (policy_protected p) (kill_switch p).
Definition with_kill_switch p k :=
  mkPolicy (entries p) (rate_limit_state p) (policy_protected p) k.

Inductive PolicyOutcome :=
  Allowed | NotAuthorized | RateLimited | AtConcurrencyLimit | Suspended | Frozen.
#[export] Instance PolicyOutcome_eq_dec : EqDecision PolicyOutcome.
Proof. solve_decision. Defined.

Record CapabilitySummary := mkSummary {
  sum_tier : Tier;
  sum_rate_limit_secs : Z;
  sum_concurrency : Z;
  sum_allowed_peers : list (text * option Z)
}.

(** Durations are in nanoseconds. *)
Definition from_secs (s : Z) : Z := s * 1000000000.
Definition as_secs (d : Z) : Z := d / 1000000000.

(** ** Load *)

Definition deny_all : CapabilityPolicy := mkPolicy ∅ ∅ None KillSwitch_new.

Section Load.
Context `{HexCodec} `{TomlPolicy} `{TokioSemaphore} `{Lowercase}.

(** [hex::decode(s).ok().and_then(|b| <[u8; 32]>::try_from(b).ok())] *)
Definition parse_peer (s : text) : option NodeId :=
  match hex_decode s with
  | Some b => if decide (length b = 32%nat) then Some b else None
  | None => None
  end.

Definition load_peers (l : list RawAllowedPeer) : gmap NodeId (option Z) :=
  fold_left (λ m r,
    match parse_peer (peer_str r) with
    | Some id => <[id := RawAllowedPeer_expires r]> m
    | None => m
    end) l ∅.

Definition load_protected (l : list RawProtectedResource) : list ProtectedResource :=
  omap (λ r, ProtectedResource_new (raw_pr_name r) (raw_pr_mac r) (raw_pr_ip r)) l.

(** One turn of the loop over the capability tables: [None] is [continue]. *)
Definition load_entry (protected : option (list ProtectedResource)) (raw : RawCapabilityEntry) :
    outcome unit (option CapabilityEntry) :=
  match raw_tier raw ≫= from_toml_str with
  | None => Ok None
  | Some tier =>
      if negb (bool_decide (tier = Tier0)) && negb (is_some protected) then Ok None
      else if MAX_PERMITS <? raw_concurrency raw then Panic
      else Ok (Some (mkEntry (load_peers (raw_allowed_peers raw))
                       (from_secs (raw_rate_limit_secs raw))
                       (raw_concurrency raw) (raw_concurrency raw) tier
                       (map to_lowercase (raw_denied_param_substrings raw))))
  end.

Fixpoint load_entries (protected : option (list ProtectedResource))
    (l : list (text * RawCapabilityEntry)) (acc : gmap text CapabilityEntry) :
    outcome unit (gmap text CapabilityEntry) :=
  match l with
  | [] => Ok acc
  | (name, raw) :: l' =>
      e ← load_entry protected raw;
      load_entries protected l' (match e with Some e => <[name := e]> acc | None => acc end)
  end.

(** The argument is what [read_to_string] returned, [None] on an I/O error. *)
Definition try_load (contents : option text) : outcome unit CapabilityPolicy :=
  match contents with
  | None => Err tt
  | Some c =>
      match toml_from_str c with
      | None => Err tt
      | Some raw =>
          if negb (raw_version raw =? POLICY_SCHEMA_VERSION) then Err tt
          else
            let protected := load_protected <$> raw_protected_resource raw in
            es ← load_entries protected (raw_capability raw) ∅;
            Ok (mkPolicy es ∅ protected KillSwitch_new)
      end
  end.

Definition load (contents : option text) : outcome False CapabilityPolicy :=
  match try_load contents with
  | Ok policy => Ok policy
  | Err _ => Ok deny_all
  | Panic => Panic
  end.

End Load.

(** ** Admission *)

Definition peer_currently_allowed (now_unix_secs : Z) (peers : gmap NodeId (option Z))
    (sender : NodeId) : bool :=
  match peers !! sender with
  | None => false
  | Some None => true
  | Some (Some expires_at) => now_unix_secs <? expires_at
  end.

(** [Instant::duration_since] saturates at zero. *)
Definition duration_since (now last : Z) : Z := Z.max 0 (now - last).

(** The test made under the rate-limit lock. *)
Definition rate_limited (now : Z) (p : CapabilityPolicy) (entry : CapabilityEntry)
    (cap : text) (sender : NodeId) : bool :=
  match rate_limit_state p !! (cap, sender) with
  | Some last => duration_since now last <? rate_limit entry
  | None => false
  end.

Definition acquire_permit (p : CapabilityPolicy) (cap : text) : CapabilityPolicy :=
  with_entries p (alter (λ e, mkEntry (allowed_peers e) (rate_limit e) (available e - 1)
    (concurrency e) (entry_tier e) (denied_param_substrings e)) cap (entries p)).

(** Dropping an [OwnedSemaphorePermit]. *)
Definition drop_permit (p : CapabilityPolicy) (cap : text) : CapabilityPolicy :=
  with_entries p (alter (λ e, mkEntry (allowed_peers e) (rate_limit e) (available e + 1)
    (concurrency e) (entry_tier e) (denied_param_substrings e)) cap (entries p)).

Definition check_and_acquire (now_unix now : Z) (p : CapabilityPolicy) (cap : text)
    (sender : NodeId) : CapabilityPolicy * PolicyOutcome :=
  match entries p !! cap with
  | None => (p, NotAuthorized)
  | Some entry =>
      if decide (sender ∈ ks_suspended (kill_switch p)) then (p, Suspended)
      else if negb (bool_decide (entry_tier entry = Tier0)) && ks_frozen (kill_switch p)
      then (p, Frozen)
      else if negb (peer_currently_allowed now_unix (allowed_peers entry) sender)
      then (p, NotAuthorized)
      else
        if rate_limited now p entry cap sender then (p, RateLimited)
        else
          let p := with_rate_limit_state p (<[(cap, sender) := now]> (rate_limit_state p)) in
          if 0 <? available entry then (acquire_permit p cap, Allowed)
          else (p, AtConcurrencyLimit)
  end.

(** ** Queries *)

Definition policy_tier (p : CapabilityPolicy) (cap : text) : option Tier :=
  entry_tier <$> entries p !! cap.

Definition capability_names (p : CapabilityPolicy) : list text := (map_to_list (entries p)).*1.

Definition allows (now_unix : Z) (p : CapabilityPolicy) (cap : text) (id : NodeId) : bool :=
  match entries p !! cap with
  | Some entry => peer_currently_allowed now_unix (allowed_peers entry) id
  | None => false
  end.

Section Reports.
Context `{HexCodec}.

Fixpoint insert_peer (x : text * option Z) (l : list (text * option Z)) :=
  match l with
  | [] => [x]
  | y :: l' => if text_leb x.1 y.1 then x :: l else y :: insert_peer x l'
  end.

Definition capability_summary (now_unix : Z) (p : CapabilityPolicy) (cap : text) :
    option CapabilitySummary :=
  (λ entry, mkSummary (entry_tier entry) (as_secs (rate_limit entry)) (concurrency entry)
     (foldr insert_peer []
        (map (λ kv, (hex_encode kv.1, kv.2))
           (List.filter (λ kv, match kv.2 with None => true | Some e => now_unix <? e end)
              (map_to_list (allowed_peers entry)))))) <$> entries p !! cap.

Fixpoint insert_text (x : text) (l : list text) :=
  match l with
  | [] => [x]
  | y :: l' => if text_leb x y then x :: l else y :: insert_text x l'
  end.

Definition suspended_peers (p : CapabilityPolicy) : list text :=
  foldr insert_text [] (map hex_encode (elements (ks_suspended (kill_switch p)))).
End Reports.

(** ** Kill switch *)

Definition set_frozen (p : CapabilityPolicy) (b : bool) : CapabilityPolicy :=
  with_kill_switch p (mkKill b (ks_suspended (kill_switch p))).
Definition freeze (p : CapabilityPolicy) : CapabilityPolicy := set_frozen p true.
Definition unfreeze (p : CapabilityPolicy) : CapabilityPolicy := set_frozen p false.
Definition is_frozen (p : CapabilityPolicy) : bool := ks_frozen (kill_switch p).

Definition suspend_peer (p : CapabilityPolicy) (peer : NodeId) : CapabilityPolicy :=
  with_kill_switch p
    (mkKill (ks_frozen (kill_switch p)) ({[peer]} ∪ ks_suspended (kill_switch p))).
Definition is_suspended (p : CapabilityPolicy) (peer : NodeId) : bool :=
  bool_decide (peer ∈ ks_suspended (kill_switch p)).
Definition unsuspend_peer (p : CapabilityPolicy) (peer : NodeId) : CapabilityPolicy * bool :=
  (with_kill_switch p
     (mkKill (ks_frozen (kill_switch p)) (ks_suspended (kill_switch p) ∖ {[peer]})),
   is_suspended p peer).

(** ** Parameters *)

Definition protected_resources_configured (p : CapabilityPolicy) : bool :=
  is_some (policy_protected p).
Definition protected_resources (p : CapabilityPolicy) : list ProtectedResource :=
  default [] (policy_protected p).

Definition policy_find_protected_match (p : CapabilityPolicy) (ps : list Constraint) :
    outcome False (option ProtectedMatch) :=
  find_protected_match (protected_resources p) ps.

Definition denied_reason (k pattern cap : text) : text :=
  str "parameter '" ++ k ++ str "' value matches denied pattern '" ++ pattern
  ++ str "' configured for capability '" ++ cap ++ str "'".

Definition check_denied_param_substrings `{Lowercase} (p : CapabilityPolicy) (cap : text)
    (ps : list Constraint) : option text :=
  match entries p !! cap with
  | None => None
  | Some entry =>
      if decide (denied_param_substrings entry = []) then None
      else first_some (λ c, first_some (λ t,
             let lower := to_lowercase t in
             first_some (λ pattern,
               if contains lower pattern then Some (denied_reason (key c) pattern cap) else None)
               (denied_param_substrings entry))
             (scannable_strings (value c))) ps
  end.

(** ** Interleaving

    [check_and_acquire] takes its locks one after the other: the suspension
    set, the freeze flag, the allowlist and its clock, the rate-limit map, the
    semaphore.  Between two of them other calls, permit drops and administrator
    commands run.  [phase_step] is one such scope. *)

Inductive phase := PSuspended | PFrozen | PAllow | PRate | PAcquire.

Definition phase_step (now_unix now : Z) (p : CapabilityPolicy) (cap : text)
    (sender : NodeId) (ph : phase) : CapabilityPolicy * (phase + PolicyOutcome) :=
  match entries p !! cap with
  | None => (p, inr NotAuthorized)
  | Some entry =>
      match ph with
      | PSuspended =>
          if decide (sender ∈ ks_suspended (kill_switch p)) then (p, inr Suspended)
          else (p, inl (if bool_decide (entry_tier entry = Tier0) then PAllow else PFrozen))
      | PFrozen => if ks_frozen (kill_switch p) then (p, inr Frozen) else (p, inl PAllow)
      | PAllow =>
          if peer_currently_allowed now_unix (allowed_peers entry) sender then (p, inl PRate)
          else (p, inr NotAuthorized)
      | PRate =>
          if rate_limited now p entry cap sender then (p, inr RateLimited)
          else (with_rate_limit_state p (<[(cap, sender) := now]> (rate_limit_state p)),
                inl PAcquire)
      | PAcquire =>
          if 0 <? available entry then (acquire_permit p cap, inr Allowed)
          else (p, inr AtConcurrencyLimit)
      end
  end.

(** Calls in flight, permits held by served requests, and the times at which
    calls passed the rate limit (newest first). *)
Record gate := mkGate {
  g_policy : CapabilityPolicy;
  g_calls : list (text * NodeId * phase);
  g_held : list text;
  g_passes : list (text * NodeId * Z)
}.

Inductive event :=
  | EStart (cap : text) (sender : NodeId)
  | EPhase (cap : text) (sender : NodeId)
  | EEnd (cap : text) (sender : NodeId) (o : PolicyOutcome)
  | EDrop (cap : text)
  | EFreeze | EUnfreeze
  | ESuspend (peer : NodeId) | EUnsuspend (peer : NodeId).

Inductive gate_step : event → gate → gate → Prop :=
  | step_start cap s p l h t :
      gate_step (EStart cap s) (mkGate p l h t) (mkGate p ((cap, s, PSuspended) :: l) h t)
  | step_phase u now cap s ph ph' p p' l1 l2 h t :
      phase_step u now p cap s ph = (p', inl ph') →
      gate_step (EPhase cap s) (mkGate p (l1 ++ (cap, s, ph) :: l2) h t)
        (mkGate p' (l1 ++ (cap, s, ph') :: l2) h
           (match ph with PRate => (cap, s, now) :: t | _ => t end))
  | step_end u now cap s ph o p p' l1 l2 h t :
      phase_step u now p cap s ph = (p', inr o) →
      gate_step (EEnd cap s o) (mkGate p (l1 ++ (cap, s, ph) :: l2) h t)
        (mkGate p' (l1 ++ l2) (match o with Allowed => cap :: h | _ => h end) t)
  | step_drop cap p l h1 h2 t :
      gate_step (EDrop cap) (mkGate p l (h1 ++ cap :: h2) t)
        (mkGate (drop_permit p cap) l (h1 ++ h2) t)
  | step_freeze p l h t : gate_step EFreeze (mkGate p l h t) (mkGate (freeze p) l h t)
  | step_unfreeze p l h t : gate_step EUnfreeze (mkGate p l h t) (mkGate (unfreeze p) l h t)
  | step_suspend peer p l h t :
      gate_step (ESuspend peer) (mkGate p l h t) (mkGate (suspend_peer p peer) l h t)
  | step_unsuspend peer p l h t :
      gate_step (EUnsuspend peer) (mkGate p l h t) (mkGate (unsuspend_peer p peer).1 l h t).

Inductive gate_run : list event → gate → gate → Prop :=
  | run_nil g : gate_run [] g g
  | run_cons e es g1 g2 g3 : gate_step e g1 g2 → gate_run es g2 g3 → gate_run (e :: es) g1 g3.

(** ** Lemmas on admission *)

(** A call that runs alone. *)
Fixpoint run_phases (fuel : nat) (u now : Z) (p : CapabilityPolicy) (cap : text)
    (s : NodeId) (ph : phase) : option (CapabilityPolicy * PolicyOutcome) :=
  match fuel with
  | O => None
  | S fuel' =>
      match phase_step u now p cap s ph with
      | (p', inr o) => Some (p', o)
      | (p', inl ph') => run_phases fuel' u now p' cap s ph'
      end
  end.

Lemma run_phases_check u now p cap s :
  run_phases 5 u now p cap s PSuspended = Some (check_and_acquire u now p cap s).
Proof.
  unfold check_and_acquire. cbn [run_phases phase_step].
  unfold phase_step at 1. destruct (entries p !! cap) as [e|] eqn:E; [|done].
  case_decide; [done|]. destruct (bool_decide (entry_tier e = Tier0)) eqn:Et; cbn [negb andb];
    unfold phase_step at 1; rewrite E.
  - destruct (peer_currently_allowed _ _ _); [|done]. cbn [negb].
    unfold phase_step at 1; rewrite E. destruct (rate_limited _ _ _ _ _); [done|].
    unfold phase_step at 1; cbn [entries with_rate_limit_state]; rewrite E.
    by destruct (0 <? available e).
  - destruct (ks_frozen _); [done|]. unfold phase_step at 1; rewrite E.
    destruct (peer_currently_allowed _ _ _); [|done]. cbn [negb].
    unfold phase_step at 1; rewrite E. destruct (rate_limited _ _ _ _ _); [done|].
    unfold phase_step at 1; cbn [entries with_rate_limit_state]; rewrite E.
    by destruct (0 <? available e).
Qed.

(** What one scope can change. *)
Lemma phase_step_cases u now p cap s ph p' r :
  phase_step u now p cap s ph = (p', r) →
  (p' = p ∧ r ≠ inr Allowed ∧ ∀ ph', r = inl ph' → ph ≠ PRate) ∨
  (ph = PRate ∧ r = inl PAcquire ∧
   p' = with_rate_limit_state p (<[(cap, s) := now]> (rate_limit_state p)) ∧
   ∃ e, entries p !! cap = Some e ∧ rate_limited now p e cap s = false) ∨
  (ph = PAcquire ∧ r = inr Allowed ∧ p' = acquire_permit p cap ∧
   ∃ e, entries p !! cap = Some e ∧ 0 < available e).
Proof.
  unfold phase_step. destruct (entries p !! cap) as [e|]; [|by intros [= <- <-]; left].
  destruct ph; repeat case_match; intros [= <- <-]; try (by left).
  - right. left. eauto 10.
  - right. right. split_and!; [done..|]. exists e. split; [done|]. lia.
Qed.

(** The configuration of an entry: everything but its free permits. *)
Definition config (e : CapabilityEntry) : CapabilityEntry :=
  mkEntry (allowed_peers e) (rate_limit e) 0 (concurrency e) (entry_tier e)
    (denied_param_substrings e).
Definition same_config (p q : CapabilityPolicy) : Prop :=
  config <$> entries p = config <$> entries q.

#[export] Instance same_config_equiv : Equivalence same_config.
Proof.
  unfold same_config. split.
  - done.
  - intros ?? H. by symmetry.
  - intros ??? H1 H2. by transitivity (config <$> entries y).
Qed.

Lemma same_config_lookup p q cap e :
  same_config p q → entries p !! cap = Some e →
  ∃ e', entries q !! cap = Some e' ∧ config e' = config e.
Proof.
  intros Hs He. apply (f_equal (lookup cap)) in Hs. rewrite !lookup_fmap, He in Hs.
  destruct (entries q !! cap) as [e'|]; [|done]. exists e'. split; [done|]. cbn in Hs. congruence.
Qed.

Lemma alter_config (m : gmap text CapabilityEntry) f cap :
  (∀ e, config (f e) = config e) → config <$> alter f cap m = config <$> m.
Proof.
  intros Hf. apply map_eq. intros k. rewrite !lookup_fmap, lookup_alter.
  case_decide; [subst|done]. by destruct (m !! _); cbn; rewrite ?Hf.
Qed.

Lemma gate_step_config ev g g' : gate_step ev g g' → same_config (g_policy g') (g_policy g).
Proof.
  destruct 1; cbn; try done.
  - apply phase_step_cases in H as [(-> & _)|[(_ & _ & -> & _)|(_ & _ & -> & _)]]; try done.
    by apply alter_config.
  - apply phase_step_cases in H as [(-> & _)|[(_ & _ & -> & _)|(_ & _ & -> & _)]]; try done.
    by apply alter_config.
  - by apply alter_config.
Qed.

(** Permits: free and held ones add up to the configured concurrency. *)
Fixpoint count (cap : text) (l : list text) : Z :=
  match l with
  | [] => 0
  | c :: l' => (if decide (c = cap) then 1 else 0) + count cap l'
  end.

Lemma count_app cap l k : count cap (l ++ k) = count cap l + count cap k.
Proof. induction l as [|c l IH]; [done|]. cbn [count app]. rewrite IH. lia. Qed.

Definition permits_ok (g : gate) : Prop :=
  ∀ cap e, entries (g_policy g) !! cap = Some e →
    0 ≤ available e ∧ available e + count cap (g_held g) = concurrency e.

Lemma count_nonneg cap l : 0 ≤ count cap l.
Proof. induction l as [|c l IH]; cbn [count]; [done|]. case_decide; lia. Qed.

Lemma permits_alter p l h h' t d f cap0 :
  (∀ e, f e = mkEntry (allowed_peers e) (rate_limit e) (available e + d) (concurrency e)
               (entry_tier e) (denied_param_substrings e)) →
  permits_ok (mkGate p l h t) →
  (∀ e, entries p !! cap0 = Some e → 0 ≤ available e + d) →
  (∀ cap, count cap h' + (if decide (cap0 = cap) then d else 0) = count cap h) →
  ∀ l' t', permits_ok (mkGate (with_entries p (alter f cap0 (entries p))) l' h' t').
Proof.
  intros Hf Hok Hd Hc l' t' cap e. cbn. specialize (Hc cap). rewrite lookup_alter.
  destruct (decide (cap0 = cap)) as [->|].
  - destruct (entries p !! cap) as [e0|] eqn:E; [|done]. cbn. intros [= <-].
    rewrite Hf. cbn [available concurrency]. specialize (Hd e0 eq_refl).
    destruct (Hok cap e0 E) as [_ Hs]. cbn in Hs. lia.
  - intros He. destruct (Hok cap e He). cbn in *. lia.
Qed.

Lemma permits_same_entries p p' l h t l' t' :
  entries p' = entries p → permits_ok (mkGate p l h t) → permits_ok (mkGate p' l' h t').
Proof. intros E H cap e. cbn. rewrite E. apply H. Qed.

Lemma gate_step_permits ev g g' : gate_step ev g g' → permits_ok g → permits_ok g'.
Proof.
  intros Hst Hok. destruct Hst.
  - (eapply permits_same_entries; [|exact Hok]; done).
  - apply phase_step_cases in H as [(-> & _)|[(_ & _ & -> & _)|(_ & [=] & _)]];
      (eapply permits_same_entries; [|exact Hok]; done).
  - apply phase_step_cases in H as [(-> & Hr & _)|[(_ & [=] & _)|(_ & [= ->] & -> & e & He & Ha)]].
    + destruct o; try done; (eapply permits_same_entries; [|exact Hok]; done).
    + eapply (permits_alter _ _ _ _ _ (-1)); [done|exact Hok| |].
      * intros e' He'. simplify_eq. lia.
      * intros cap'. cbn [count]. case_decide; lia.
  - eapply (permits_alter _ _ _ _ _ 1); [done|exact Hok| |].
    + intros e He. destruct (Hok cap e He). lia.
    + intros cap'. rewrite !count_app. cbn [count]. case_decide; lia.
  - (eapply permits_same_entries; [|exact Hok]; done).
  - (eapply permits_same_entries; [|exact Hok]; done).
  - (eapply permits_same_entries; [|exact Hok]; done).
  - (eapply permits_same_entries; [|exact Hok]; done).
Qed.

(** Rate limits: the passes of one peer for one capability are spaced. *)
Definition times (cap : text) (s : NodeId) (l : list (text * NodeId * Z)) : list Z :=
  omap (λ x, if decide (x.1 = (cap, s)) then Some x.2 else None) l.

Definition gap (r newer older : Z) : Prop := r = 0 ∨ older + r ≤ newer.

Definition rates_ok (g : gate) : Prop :=
  (∀ cap s, rate_limit_state (g_policy g) !! (cap, s) = head (times cap s (g_passes g))) ∧
  (∀ cap s e, entries (g_policy g) !! cap = Some e →
     0 ≤ rate_limit e ∧ StronglySorted (gap (rate_limit e)) (times cap s (g_passes g))).

Lemma rates_same p p' l l' h h' t :
  same_config p' p → rate_limit_state p' = rate_limit_state p →
  rates_ok (mkGate p l h t) → rates_ok (mkGate p' l' h' t).
Proof.
  intros Hs Hr [H1 H2]. split; cbn in *; intros cap s; [rewrite Hr; apply H1|].
  intros e He. destruct (same_config_lookup _ _ _ _ Hs He) as (e' & He' & Hc).
  specialize (H2 cap s e' He'). by injection Hc as _ <- _ _ _.
Qed.

Lemma spaced_cons r now l :
  0 ≤ r → (∀ last, head l = Some last → gap r now last) →
  StronglySorted (gap r) l → StronglySorted (gap r) (now :: l).
Proof.
  intros Hr Hh Hl. constructor; [done|]. destruct Hl as [|last l Hl Hf]; [constructor|].
  specialize (Hh last eq_refl). constructor; [done|].
  eapply Forall_impl; [exact Hf|]. unfold gap in *. intros x [?|?]; [by left|].
  destruct Hh; [by left|right; lia].
Qed.

Lemma rates_stamp p l h t now cap s e l' h' :
  entries p !! cap = Some e → rate_limited now p e cap s = false →
  rates_ok (mkGate p l h t) →
  rates_ok (mkGate (with_rate_limit_state p (<[(cap, s) := now]> (rate_limit_state p))) l' h'
              ((cap, s, now) :: t)).
Proof.
  intros He Hrl [H1 H2]. split; cbn in *; intros cap' s'.
  - unfold times. cbn. destruct (decide ((cap, s) = (cap', s'))) as [[= <- <-]|].
    + by rewrite lookup_insert_eq.
    + rewrite lookup_insert_ne by done. apply H1.
  - intros e' He'. destruct (H2 cap' s' e' He') as [Hr Hs]. split; [done|].
    unfold times. cbn. destruct (decide ((cap, s) = (cap', s'))) as [[= <- <-]|]; [|done].
    simplify_eq. apply spaced_cons; [done| |done]. intros last Hl.
    assert (Hl' : rate_limit_state p !! (cap, s) = Some last) by (rewrite H1; exact Hl).
    clear Hl. rename Hl' into Hl.
    unfold rate_limited in Hrl. rewrite Hl in Hrl. unfold duration_since in Hrl. unfold gap.
    destruct (decide (rate_limit e = 0)); [by left|right]. lia.
Qed.

Lemma gate_step_rates ev g g' : gate_step ev g g' → rates_ok g → rates_ok g'.
Proof.
  intros Hst Hok. pose proof (gate_step_config _ _ _ Hst) as Hc. destruct Hst; cbn in Hc.
  - by eapply rates_same; [| |exact Hok].
  - apply phase_step_cases in H as [(-> & _ & Hph)|[(-> & _ & -> & e & He & Hr)|(_ & [=] & _)]].
    + specialize (Hph ph' eq_refl). destruct ph; try done; by eapply rates_same; [| |exact Hok].
    + by eapply rates_stamp.
  - apply phase_step_cases in H as [(-> & _)|[(_ & [=] & _)|(_ & _ & -> & _)]];
      by eapply rates_same; [| |exact Hok].
  - by eapply rates_same; [| |exact Hok].
  - by eapply rates_same; [| |exact Hok].
  - by eapply rates_same; [| |exact Hok].
  - by eapply rates_same; [| |exact Hok].
  - by eapply rates_same; [| |exact Hok].
Qed.

Lemma gate_run_ind_inv (P : gate → Prop) :
  (∀ e g g', gate_step e g g' → P g → P g') → ∀ es g g', gate_run es g g' → P g → P g'.
Proof. intros Hstep es g g'. induction 1; eauto. Qed.

Definition policy_fresh (p : CapabilityPolicy) : Prop :=
  rate_limit_state p = ∅ ∧
  map_Forall (λ _ e, 0 ≤ rate_limit e ∧ 0 ≤ concurrency e ∧ available e = concurrency e)
    (entries p).

Definition gate_init (p : CapabilityPolicy) : gate := mkGate p [] [] [].

Lemma gate_init_ok p :
  policy_fresh p → permits_ok (gate_init p) ∧ rates_ok (gate_init p).
Proof.
  intros [Hr Hf]. split; [|split]; cbn.
  - intros cap e He. specialize (Hf cap e He) as (? & ? & ?). cbn. lia.
  - intros cap s. by rewrite Hr, lookup_empty.
  - intros cap s e He. specialize (Hf cap e He) as (? & ? & ?). split; [done|constructor].
Qed.

(** Calls of [peer] that are still before the suspension check. *)
Definition not_past_suspension (peer : NodeId) (g : gate) : Prop :=
  ∀ cap ph, (cap, peer, ph) ∈ g_calls g → ph = PSuspended.
Definition held_back (peer : NodeId) (g : gate) : Prop :=
  peer ∈ ks_suspended (kill_switch (g_policy g)) ∧ not_past_suspension peer g.

Lemma phase_step_kill_switch u now p cap s ph p' r :
  phase_step u now p cap s ph = (p', r) → kill_switch p' = kill_switch p.
Proof.
  intros [(-> & _)|[(_ & _ & -> & _)|(_ & _ & -> & _)]]%phase_step_cases; done.
Qed.

Lemma held_back_step peer ev g g' :
  gate_step ev g g' → ev ≠ EUnsuspend peer → held_back peer g →
  held_back peer g' ∧ ∀ cap, ev ≠ EEnd cap peer Allowed.
Proof.
  intros Hst Hev [Hs Hc]. unfold held_back, not_past_suspension in *. destruct Hst; cbn in *.
  - split; [|done]. split; [done|]. intros c ph [[= _ _ ->]|Hin]%elem_of_cons; eauto.
  - split; [|done]. split; [by erewrite phase_step_kill_switch|].
    intros c q [Hin|[[= -> -> ->]|Hin]%elem_of_cons]%elem_of_app; [set_solver| |set_solver].
    rewrite (Hc cap ph) in H by set_solver. unfold phase_step in H.
    destruct (entries p !! cap); [|done]. rewrite decide_True in H by done. done.
  - split; [split; [by erewrite phase_step_kill_switch|set_solver]|].
    intros c [= -> -> ->]. rewrite (Hc c ph) in H by set_solver. unfold phase_step in H.
    destruct (entries p !! c); [|done]. rewrite decide_True in H by done. done.
  - done.
  - done.
  - done.
  - split; [|done]. split; [set_solver|done].
  - split; [|done]. split; [|done]. assert (peer0 ≠ peer) by congruence. set_solver.
Qed.

(** Calls to Tier 1 and Tier 2 capabilities still before the freeze check. *)
Definition freeze_back (g : gate) : Prop :=
  ks_frozen (kill_switch (g_policy g)) = true ∧
  ∀ cap s ph e, (cap, s, ph) ∈ g_calls g → entries (g_policy g) !! cap = Some e →
    entry_tier e ≠ Tier0 → ph = PSuspended ∨ ph = PFrozen.

Lemma frozen_phase u now p cap s ph p' r e :
  ks_frozen (kill_switch p) = true → entries p !! cap = Some e → entry_tier e ≠ Tier0 →
  ph = PSuspended ∨ ph = PFrozen → phase_step u now p cap s ph = (p', r) →
  p' = p ∧ (r = inl PFrozen ∨ r = inr Suspended ∨ r = inr Frozen).
Proof.
  intros Hf He Ht Hph. unfold phase_step. rewrite He.
  destruct Hph as [-> | ->].
  - case_decide; [intros [= <- <-]; auto|]. rewrite bool_decide_eq_false_2 by done.
    intros [= <- <-]. auto.
  - rewrite Hf. intros [= <- <-]. auto.
Qed.

Lemma freeze_back_step ev g g' :
  gate_step ev g g' → ev ≠ EUnfreeze → freeze_back g →
  freeze_back g' ∧ ∀ cap s e, entries (g_policy g) !! cap = Some e → entry_tier e ≠ Tier0 →
    ev ≠ EEnd cap s Allowed.
Proof.
  intros Hst Hev [Hf Hc]. pose proof (gate_step_config _ _ _ Hst) as Hcfg.
  assert (Htier : ∀ cap e', entries (g_policy g') !! cap = Some e' → entry_tier e' ≠ Tier0 →
            ∃ e, entries (g_policy g) !! cap = Some e ∧ entry_tier e ≠ Tier0).
  { intros cap e' He' Ht. destruct (same_config_lookup _ _ _ _ Hcfg He') as (e & He & E).
    exists e. split; [done|]. by injection E as _ _ _ -> _. }
  unfold freeze_back in *. destruct Hst; cbn in *.
  - split; [|done]. split; [done|]. intros c s' ph e [[= -> -> ->]|Hin]%elem_of_cons; eauto.
  - split; [|done]. split; [by erewrite phase_step_kill_switch|].
    intros c s' q e' Hin He' Ht'. destruct (Htier c e' He' Ht') as (e & He & Ht).
    apply elem_of_app in Hin as [Hin|[[= -> -> ->]|Hin]%elem_of_cons].
    + apply (Hc c s' q e); set_solver.
    + eapply frozen_phase in H; [|done..|apply (Hc cap s ph e); set_solver]. naive_solver.
    + apply (Hc c s' q e); set_solver.
  - split; [split; [by erewrite phase_step_kill_switch|]|].
    + intros c s' q e' Hin He' Ht'. destruct (Htier c e' He' Ht') as (e & He & Ht).
      apply (Hc c s' q e); set_solver.
    + intros c s' e He Ht [= -> -> ->].
      eapply frozen_phase in H; [|done..|apply (Hc c s' ph e); set_solver]. naive_solver.
  - split; [|done]. split; [done|]. intros c s q e' Hin He' Ht'.
    destruct (Htier c e' He' Ht') as (e & He & Ht). by eapply Hc.
  - done.
  - done.
  - done.
  - done.
Qed.

(** ** Lemmas on load *)

Section LoadLemmas.
Context `{HexCodec} `{TomlPolicy} `{TokioSemaphore} `{Lowercase}.

(** The entry a capability table registers, if any. *)
Definition registered (protected : option (list ProtectedResource)) (raw : RawCapabilityEntry) :
    option CapabilityEntry :=
  match raw_tier raw ≫= from_toml_str with
  | Some tier =>
      if decide (tier = Tier0 ∨ is_some protected = true) then
        Some (mkEntry (load_peers (raw_allowed_peers raw)) (from_secs (raw_rate_limit_secs raw))
                (raw_concurrency raw) (raw_concurrency raw) tier
                (map to_lowercase (raw_denied_param_substrings raw)))
      else None
  | None => None
  end.

Definition fits (protected : option (list ProtectedResource)) (raw : RawCapabilityEntry) : Prop :=
  ∀ e, registered protected raw = Some e → raw_concurrency raw ≤ MAX_PERMITS.

Lemma load_entry_spec protected raw :
  load_entry protected raw =
    match registered protected raw with
    | Some e => if MAX_PERMITS <? raw_concurrency raw then Panic else Ok (Some e)
    | None => Ok None
    end.
Proof.
  unfold load_entry, registered. destruct (raw_tier raw ≫= from_toml_str) as [t|]; [|done].
  destruct (decide (t = Tier0)) as [->|Ht]; [by rewrite decide_True by auto|].
  rewrite bool_decide_eq_false_2 by done. destruct (is_some protected) eqn:E; cbn [negb andb].
  - by rewrite decide_True by auto.
  - by rewrite decide_False by naive_solver.
Qed.

Lemma load_entries_spec protected l acc :
  NoDup (map fst l) → Forall (fits protected ∘ snd) l →
  (∀ n, n ∈ map fst l → acc !! n = None) →
  ∃ m, load_entries protected l acc = Ok m ∧
    ∀ n, m !! n = match (list_to_map l : gmap text RawCapabilityEntry) !! n with
                  | Some raw => registered protected raw
                  | None => acc !! n
                  end.
Proof.
  revert acc. induction l as [|[name raw] l IH]; intros acc Hnd Hfit Hacc.
  { exists acc. split; [done|]. intros n. cbn. by rewrite lookup_empty. }
  cbn in Hnd. apply NoDup_cons in Hnd as [Hn Hnd]. apply Forall_cons in Hfit as [Hf Hfit].
  cbn [load_entries]. rewrite load_entry_spec.
  assert (E : load_entries protected ((name, raw) :: l) acc =
    load_entries protected l
      (match registered protected raw with Some e => <[name := e]> acc | None => acc end)).
  { cbn [load_entries]. rewrite load_entry_spec. unfold fits in Hf. cbn in Hf.
    destruct (registered protected raw); [|done]. specialize (Hf _ eq_refl).
    by destruct (Z.ltb_spec MAX_PERMITS (raw_concurrency raw)); [lia|]. }
  cbn [load_entries] in E. rewrite load_entry_spec in E. rewrite E. clear E.
  destruct (IH (match registered protected raw with Some e => <[name := e]> acc | None => acc end))
    as (m & Hm & Hlk); [done|done| |].
  { intros n Hin. assert (n ≠ name) by congruence.
    destruct (registered protected raw); rewrite ?lookup_insert_ne by done; apply Hacc; by right. }
  exists m. split; [done|]. intros n. rewrite Hlk. cbn.
  destruct (decide (name = n)) as [->|Hne].
  - rewrite lookup_insert_eq, not_elem_of_list_to_map_1 by done.
    destruct (registered protected raw); [by rewrite lookup_insert_eq|]. apply Hacc. left.
  - rewrite lookup_insert_ne by done.
    destruct (list_to_map l !! n); [done|].
    destruct (registered protected raw); by rewrite ?lookup_insert_ne.
Qed.

Lemma load_entries_panic protected l acc name raw :
  (name, raw) ∈ l → ¬ fits protected raw → load_entries protected l acc = Panic.
Proof.
  revert acc. induction l as [|[n r] l IH]; intros acc; [by intros ?%not_elem_of_nil|].
  intros Hin Hf. cbn [load_entries]. rewrite load_entry_spec.
  apply elem_of_cons in Hin as [[= <- <-]|Hin].
  - unfold fits in Hf. destruct (registered protected raw) as [e|]; [|by destruct Hf].
    destruct (Z.ltb_spec MAX_PERMITS (raw_concurrency raw)); [done|]. by destruct Hf.
  - destruct (registered protected r); [|by apply IH].
    destruct (_ <? _); [done|]. by apply IH.
Qed.

Lemma registered_fields protected raw e :
  registered protected raw = Some e →
  rate_limit e = from_secs (raw_rate_limit_secs raw) ∧ concurrency e = raw_concurrency raw ∧
  available e = raw_concurrency raw ∧ raw_tier raw = Some (Tier_as_str (entry_tier e)).
Proof.
  unfold registered. destruct (raw_tier raw) as [s|] eqn:Es; [|done]. cbn.
  destruct (from_toml_str s) as [t|] eqn:Et; [|done]. case_decide; [|done]. intros [= <-]. cbn.
  split_and!; [done..|]. f_equal. unfold from_toml_str in Et. repeat case_decide; simplify_eq; done.
Qed.

End LoadLemmas.

(** ** Properties *)

(** C23: fail-closed load.  A file that cannot be read, parsed, or has another
    schema version gives the policy that refuses every call.  Otherwise the
    policy holds exactly the tables with a valid tier, those of tier 1 and 2 only
    if the file has a protected-resource section, with all permits free, no rate
    stamps and the kill switch off.  The one exception is a table whose
    [concurrency] exceeds the semaphore limit: the load panics. *)
Theorem load_correct `{HexCodec} `{TomlPolicy} `{TokioSemaphore} `{Lowercase} contents :
  let parsed := contents ≫= toml_from_str in
  ((parsed = None ∨ ∃ raw, parsed = Some raw ∧ raw_version raw ≠ POLICY_SCHEMA_VERSION) →
     load contents = Ok deny_all ∧
     ∀ u now cap s, check_and_acquire u now deny_all cap s = (deny_all, NotAuthorized)) ∧
  (∀ raw, parsed = Some raw → raw_version raw = POLICY_SCHEMA_VERSION →
     let protected := load_protected <$> raw_protected_resource raw in
     (Forall (fits protected ∘ snd) (raw_capability raw) →
        ∃ p, load contents = Ok p ∧ policy_fresh p ∧ policy_protected p = protected ∧
          kill_switch p = KillSwitch_new ∧
          ∀ name, entries p !! name =
            (list_to_map (raw_capability raw) : gmap text RawCapabilityEntry) !! name
              ≫= registered protected) ∧
     (¬ Forall (fits protected ∘ snd) (raw_capability raw) → load contents = Panic)).
Proof.
  intros parsed. split.
  - intros Hbad. split; [|done]. unfold load, try_load. subst parsed.
    destruct contents as [c|]; [|done]. cbn in Hbad. destruct (toml_from_str c) as [raw|]; [|done].
    destruct Hbad as [?|(? & [= <-] & Hv)]; [done|].
    by destruct (Z.eqb_spec (raw_version raw) POLICY_SCHEMA_VERSION).
  - intros raw Hp Hv protected. subst parsed. destruct contents as [c|]; [|done]. cbn in Hp.
    destruct (toml_raw_ok c raw Hp) as [Hnd Hok].
    unfold load, try_load. rewrite Hp, Hv. cbn [negb Z.eqb POLICY_SCHEMA_VERSION].
    change (negb (2 =? 2)) with false. cbv beta iota. fold protected. split.
    + intros Hfit. destruct (load_entries_spec protected (raw_capability raw) ∅) as (m & -> & Hlk);
        [done|done|by intros; apply lookup_empty|].
      exists (mkPolicy m ∅ protected KillSwitch_new). cbn. split_and!; [done| |done|done|].
      * split; [done|]. intros name e. cbn. rewrite Hlk, lookup_empty.
        destruct (list_to_map _ !! name) as [r|] eqn:Er; [|done].
        intros (-> & -> & -> & _)%registered_fields. apply elem_of_list_to_map_2 in Er.
        rewrite Forall_forall in Hok. specialize (Hok _ Er) as [H1' H2']. unfold from_secs.
        cbn in *. lia.
      * intros name. rewrite Hlk, lookup_empty. by destruct (list_to_map _ !! name).
    + intros Hn. assert (Hx : ∃ x, x ∈ raw_capability raw ∧ ¬ fits protected x.2).
      { apply not_Forall_Exists in Hn as (x & Hx & Hf)%Exists_exists; [by exists x|].
        intros x. unfold fits. cbn. destruct (registered protected x.2) as [e|];
          [destruct (decide (raw_concurrency x.2 ≤ MAX_PERMITS)); [left|right]; naive_solver|by left]. }
      destruct Hx as ([n r] & Hin & Hf). by rewrite (load_entries_panic _ _ _ n r).
Qed.

(** A concrete file: an open Tier 0 capability and a Tier 1 one. *)
Definition peer_a : NodeId := replicate 32 17.
Definition sample_raw : RawPolicyFile :=
  mkRawFile 2
    [ (str "echo", mkRawEntry [Bare (flat_map fmt_02x peer_a)] 0 1 (Some (str "tier0")) []);
      (str "network_clients",
       mkRawEntry [WithExpiry (flat_map fmt_02x peer_a) (Some 500)] 5 1 (Some (str "tier1"))
         [str "OPNsense"]) ]
    (Some [mkRawProtected (Some (str "core")) (str "AA-BB-CC-11-22-01") (Some (str "10.0.0.1"))]).

Lemma sample_raw_ok : raw_file_ok sample_raw.
Proof.
  split; [apply (bool_decide_unpack (NoDup _)); vm_compute; exact I|].
  repeat constructor; cbn; lia.
Qed.

Definition sample_toml : TomlPolicy.
Proof.
  refine {| toml_from_str s := Some sample_raw |}. intros s r [= <-]. exact sample_raw_ok.
Defined.
Definition sample_tokio : TokioSemaphore :=
  {| MAX_PERMITS := 2305843009213693951; MAX_PERMITS_pos := eq_refl |}.

Definition sample_load : outcome False CapabilityPolicy :=
  load (H0 := sample_toml) (H1 := sample_tokio) (Some []).
Definition sample_policy : CapabilityPolicy :=
  match sample_load with Ok p => p | _ => deny_all end.

Lemma load_correct_witness : ∃ p, sample_load = Ok p ∧ policy_fresh p.
Proof.
  destruct (load_correct (H0 := sample_toml) (H1 := sample_tokio) (Some [])) as [_ H].
  destruct (H sample_raw eq_refl eq_refl) as [Hok _].
  destruct Hok as (p & Hp & Hf & _).
  - repeat constructor; intros e _; vm_compute; discriminate.
  - exists p. split; [exact Hp|exact Hf].
Defined.

(** C2: the admission decision.  A call is served exactly when the capability is
    registered, the caller is not suspended, no freeze applies to the tier, the
    caller is allowlisted and not expired, the rate limit has elapsed and a permit
    is free; then one permit is taken and the call time recorded.  A refusal for
    any reason but concurrency changes nothing; the reasons are tried in the
    order suspension, freeze, allowlist, rate limit, concurrency. *)
Theorem check_and_acquire_decision u now p cap s :
  let '(p', o) := check_and_acquire u now p cap s in
  let stamped := with_rate_limit_state p (<[(cap, s) := now]> (rate_limit_state p)) in
  match entries p !! cap with
  | None => o = NotAuthorized ∧ p' = p
  | Some e =>
      let suspended := is_suspended p s = true in
      let freeze_applies := entry_tier e ≠ Tier0 ∧ is_frozen p = true in
      let allowed := allows u p cap s = true in
      let elapsed := rate_limited now p e cap s = false in
      (o = Suspended ↔ suspended) ∧
      (o = Frozen ↔ ¬ suspended ∧ freeze_applies) ∧
      (o = NotAuthorized ↔ ¬ suspended ∧ ¬ freeze_applies ∧ ¬ allowed) ∧
      (o = RateLimited ↔ ¬ suspended ∧ ¬ freeze_applies ∧ allowed ∧ ¬ elapsed) ∧
      (o = AtConcurrencyLimit ↔
         ¬ suspended ∧ ¬ freeze_applies ∧ allowed ∧ elapsed ∧ available e ≤ 0) ∧
      (o = Allowed ↔ ¬ suspended ∧ ¬ freeze_applies ∧ allowed ∧ elapsed ∧ 0 < available e) ∧
      p' = match o with
           | Allowed => acquire_permit stamped cap
           | AtConcurrencyLimit => stamped
           | _ => p
           end
  end.
Proof.
  unfold check_and_acquire, allows, is_suspended, is_frozen.
  destruct (entries p !! cap) as [e|]; [|done].
  destruct (decide (s ∈ ks_suspended (kill_switch p))) as [Hs|Hs].
  { rewrite (bool_decide_eq_true_2 (s ∈ _)) by done. naive_solver. }
  rewrite (bool_decide_eq_false_2 (s ∈ _)) by done.
  destruct (decide (entry_tier e = Tier0)) as [Ht|Ht];
    [rewrite (bool_decide_eq_true_2 (_ = Tier0)) by done
    |rewrite (bool_decide_eq_false_2 (_ = Tier0)) by done];
    destruct (ks_frozen (kill_switch p)); cbn [negb andb];
    try (destruct (peer_currently_allowed u (allowed_peers e) s); cbn [negb];
         [destruct (rate_limited now p e cap s); [|destruct (Z.ltb_spec 0 (available e))]|]);
    split_and!; try done; split; intros; destruct_and?; split_and?; try done; try lia; naive_solver.
Qed.

Lemma refused_at_limit u now p cap s p' e :
  check_and_acquire u now p cap s = (p', AtConcurrencyLimit) → entries p !! cap = Some e →
  (s ∉ ks_suspended (kill_switch p)) ∧
  (negb (bool_decide (entry_tier e = Tier0)) && ks_frozen (kill_switch p)) = false ∧
  p' = with_rate_limit_state p (<[(cap, s) := now]> (rate_limit_state p)).
Proof.
  unfold check_and_acquire. intros Hc He. rewrite He in Hc. case_decide; [done|].
  destruct (negb _ && _); [done|]. destruct (negb _); [done|].
  destruct (rate_limited _ _ _ _ _); [done|]. destruct (0 <? _); [done|]. by simplify_eq.
Qed.

(** A call refused for concurrency still consumes the rate window although
    nothing was served: the same peer's next calls within the window are refused
    as rate limited even after a permit has become free. *)
Theorem concurrency_refusal_stamps u now p cap s p' e now' u' :
  check_and_acquire u now p cap s = (p', AtConcurrencyLimit) →
  entries p !! cap = Some e →
  now ≤ now' < now + rate_limit e → allows u' p cap s = true →
  (check_and_acquire u' now' (drop_permit p' cap) cap s).2 = RateLimited.
Proof.
  intros Hc He Hn Ha. destruct (refused_at_limit _ _ _ _ _ _ _ Hc He) as (Hs & Hfr & ->).
  unfold allows in Ha. rewrite He in Ha.
  unfold check_and_acquire, drop_permit. cbn [entries with_entries with_rate_limit_state kill_switch].
  rewrite lookup_alter_eq, He. cbn [fmap option_fmap option_map entry_tier allowed_peers].
  rewrite decide_False by done.
  rewrite Hfr, Ha. cbn [negb]. unfold rate_limited, with_entries, with_rate_limit_state.
  cbn [rate_limit_state rate_limit]. rewrite lookup_insert_eq. unfold duration_since.
  by destruct (Z.ltb_spec (Z.max 0 (now' - now)) (rate_limit e)); [|lia].
Qed.

Definition busy_policy : CapabilityPolicy :=
  acquire_permit sample_policy (str "network_clients").

Lemma concurrency_refusal_stamps_witness :
  (check_and_acquire 100 3000000000
     (drop_permit (check_and_acquire 100 0 busy_policy (str "network_clients") peer_a).1
        (str "network_clients")) (str "network_clients") peer_a).2 = RateLimited.
Proof.
  destruct (entries busy_policy !! str "network_clients") as [e|] eqn:He;
    [|exfalso; vm_compute in He; discriminate].
  apply (concurrency_refusal_stamps 100 0 busy_policy _ _ _ e); [vm_compute; reflexivity|exact He| |].
  - vm_compute in He. injection He as <-. vm_compute. split; [discriminate|reflexivity].
  - vm_compute. reflexivity.
Defined.

(** C13: running one call's lock scopes without interference is
    [check_and_acquire]; interleaved with anything, starting from a freshly loaded
    policy, free and held permits of every capability add up to its configured
    concurrency, and two calls of one peer that pass the rate limit are at least
    the configured interval apart. *)
Theorem admission_invariant p es g :
  policy_fresh p → gate_run es (gate_init p) g →
  (∀ u now q cap s,
     run_phases 5 u now q cap s PSuspended = Some (check_and_acquire u now q cap s)) ∧
  (∀ cap e, entries p !! cap = Some e → count cap (g_held g) ≤ concurrency e) ∧
  permits_ok g ∧
  (∀ cap s e, entries p !! cap = Some e →
     StronglySorted (gap (rate_limit e)) (times cap s (g_passes g))).
Proof.
  intros [Hp Hr]%gate_init_ok Hrun. split; [apply run_phases_check|].
  assert (Hc : same_config p (g_policy g)).
  { change p with (g_policy (gate_init p)). clear Hp Hr.
    induction Hrun as [|ev es g1 g2 g3 Hst _ IH]; [done|]. rewrite <- IH. symmetry.
    by eapply gate_step_config. }
  eapply gate_run_ind_inv in Hp; [|intros; by eapply gate_step_permits|exact Hrun].
  eapply gate_run_ind_inv in Hr; [|intros; by eapply gate_step_rates|exact Hrun].
  split_and!; [|done|].
  - intros cap e He. destruct (same_config_lookup _ _ _ _ Hc He) as (e' & He' & E).
    destruct (Hp cap e' He'). injection E as _ _ Ec _ _. lia.
  - intros cap s e He. destruct (same_config_lookup _ _ _ _ Hc He) as (e' & He' & E).
    destruct Hr as [_ Hr]. specialize (Hr cap s e' He') as [_ Hr]. by injection E as _ <- _ _ _.
Qed.

Lemma admission_invariant_witness :
  permits_ok (mkGate (freeze sample_policy) [(str "echo", peer_a, PSuspended)] [] []).
Proof.
  apply (admission_invariant sample_policy [EStart (str "echo") peer_a; EFreeze]).
  - split; [reflexivity|]. apply (bool_decide_unpack (map_Forall _ _)). vm_compute. exact I.
  - eapply run_cons; [apply step_start|]. eapply run_cons; [apply step_freeze|]. apply run_nil.
Defined.

(** The kill switch under interleaving.  Once a peer is suspended, no call it
    has not yet started past the suspension check is ever served until the
    explicit un-suspend; likewise a freeze stops every Tier 1 and Tier 2
    capability until the explicit un-freeze. *)
Theorem kill_switch_effective es g g' :
  gate_run es g g' →
  (∀ peer, held_back peer g → EUnsuspend peer ∉ es → ∀ cap, EEnd cap peer Allowed ∉ es) ∧
  (freeze_back g → EUnfreeze ∉ es →
     ∀ cap s e, entries (g_policy g) !! cap = Some e → entry_tier e ≠ Tier0 →
       EEnd cap s Allowed ∉ es).
Proof.
  induction 1 as [|ev es g1 g2 g3 Hst _ [IH1 IH2]].
  { split; intros; apply not_elem_of_nil. }
  split.
  - intros peer Hb Hu cap. apply not_elem_of_cons in Hu as [Hne Hu].
    destruct (held_back_step peer _ _ _ Hst) as [Hb' Hev]; [by apply not_eq_sym|done|].
    apply not_elem_of_cons. split; [by apply not_eq_sym|]. by apply IH1.
  - intros Hb Hu cap s e He Ht. apply not_elem_of_cons in Hu as [Hne Hu].
    destruct (freeze_back_step _ _ _ Hst) as [Hb' Hev]; [by apply not_eq_sym|done|].
    destruct (same_config_lookup (g_policy g1) (g_policy g2) cap e) as (e' & He' & E);
      [symmetry; by eapply gate_step_config|done|].
    apply not_elem_of_cons. split; [apply not_eq_sym; by eapply Hev|].
    eapply IH2; [done|done|exact He'|]. by injection E as _ _ _ -> _.
Qed.

Lemma kill_switch_effective_witness :
  EEnd (str "echo") peer_a Allowed ∉ [EStart (str "echo") peer_a; EEnd (str "echo") peer_a Suspended].
Proof.
  set (p := suspend_peer sample_policy peer_a).
  apply (kill_switch_effective _ (gate_init p) (gate_init p)).
  - eapply run_cons; [apply step_start|]. eapply run_cons; [|apply run_nil].
    apply (step_end 0 0 (str "echo") peer_a PSuspended Suspended p p [] []). vm_compute. reflexivity.
  - split; [unfold p, suspend_peer; cbn; set_solver|]. intros cap ph H. by apply not_elem_of_nil in H.
  - set_solver.
Defined.
