(* ===== verification/Approval.v ===== *)
(** * Tier 2 approval (axiom-gateway/src/approval.rs)

    Propose, approve, execute.  [decide_and_execute] holds the record lock twice,
    with the approval channel in between: the two lock scopes are
    [decide_begin] and [decide_finish], and any number of callers interleave at
    that granularity (section [Interleaving]).  The channel's answer is an
    input; the command-line channel is one implementation of the interface
    [ApprovalChannel].  A Tier 2 capability acts on a world of its own
    (interface [Tier2Capability]).  Instants are nanoseconds, random identifiers
    are arguments. *)

From stdpp Require Import base numbers list strings gmap.
From S2P Require Import Prelude Types Text Intent Scan Policy.

(** ** Data *)

Definition IntentId := list Z.
Definition IntentId_to_hex `{HexCodec} (id : IntentId) : text := hex_encode id.

Record DryRunDiffEntry := mkDiff { diff_key : text; diff_current : text; diff_proposed : text }.

Record Intent := mkIntent {
  i_id : IntentId;
  proposer : NodeId;
  i_capability : text;
  parameters : list Constraint;
  dry_run_diff : option (list DryRunDiffEntry);
  parameter_hash : IntentHash;
  submitted_at : Z;
  expires_at : Z
}.

Record ApprovalRequest := mkRequest {
  req_intent_id : IntentId;
  req_proposer : NodeId;
  req_capability : text;
  req_parameters : list Constraint;
  req_dry_run_diff : option (list DryRunDiffEntry);
  req_parameter_hash : IntentHash;
  req_remaining : Z
}.

Record ApprovalDecision := mkDecision {
  dec_intent_id : IntentId;
  approved : bool;
  channel_name : text
}.

Inductive ApprovalChannelError := Io (msg : text).

Record ExecutionResult := mkExecution {
  exec_intent_id : IntentId;
  exec_outcome : text + text;
  executed_at : Z
}.

Inductive IntentStatus :=
  Pending | InProgress | Denied | Expired | ParameterHashMismatch | Executed | ExecutionFailed.
#[export] Instance IntentStatus_eq_dec : EqDecision IntentStatus.
Proof. solve_decision. Defined.

Record LinkedRecord := mkRecord {
  intent : Intent;
  decision : option ApprovalDecision;
  execution : option ExecutionResult;
  status : IntentStatus
}.

Inductive FlowError :=
  | FE_UnknownIntent
  | FE_Expired
  | FE_ParameterHashMismatch
  | FE_Channel (e : ApprovalChannelError)
  | FE_MismatchedDecision.

Inductive ProposeError :=
  | ProtectedResourceSectionMissing
  | TargetsProtectedResource (m : ProtectedMatch)
  | ArgumentConstraintViolation (reason : text).

(** ** Interfaces *)

(** [trait ApprovalChannel], with the replies it can give to a request: never an
    approval for another intent. *)
Class ApprovalChannel := {
  channel_reply : ApprovalRequest → ApprovalDecision + ApprovalChannelError → Prop;
  channel_bound : ∀ r d, channel_reply r (inl d) → dec_intent_id d = req_intent_id r
}.

(** [trait Tier2Capability] over a world [W]. *)
Class Tier2Capability (W : Type) := {
  capability_name : text;
  dry_run : W → list Constraint → option (list DryRunDiffEntry);
  execute : W → list Constraint → W * (text + text)
}.

(** ** Intents *)

Definition compute_parameter_hash `{Blake3} (cap : text) (ps : list Constraint) : IntentHash :=
  hash_intent (mkDescriptor cap ps (priority (IntentDescriptor_new cap))
                 (ttl_ms (IntentDescriptor_new cap)) []).

Definition Intent_propose `{Blake3} (now : Z) (id : IntentId) (who : NodeId) (cap : text)
    (ps : list Constraint) (diff : option (list DryRunDiffEntry)) (expiry : Z) : Intent :=
  mkIntent id who cap ps diff (compute_parameter_hash cap ps) now (now + expiry).

Definition is_expired (now : Z) (i : Intent) : bool := expires_at i <=? now.
Definition remaining (now : Z) (i : Intent) : Z := Z.max 0 (expires_at i - now).
Definition verify_parameter_hash `{Blake3} (i : Intent) : bool :=
  bool_decide (compute_parameter_hash (i_capability i) (parameters i) = parameter_hash i).
Definition as_approval_request (now : Z) (i : Intent) : ApprovalRequest :=
  mkRequest (i_id i) (proposer i) (i_capability i) (parameters i) (dry_run_diff i)
    (parameter_hash i) (remaining now i).

(** ** The prompt *)

(** Formatting of the standard library: [{s:?}] quotes and escapes, [f64] has a
    shortest decimal form. *)
Class StdFormat := {
  debug_str : text → text;
  fmt_f64 : Z → text
}.

Fixpoint dec_digits (fuel : nat) (n : Z) : text :=
  match fuel with
  | O => []
  | S fuel' => (if n <? 10 then [] else dec_digits fuel' (n / 10)) ++ [48 + n mod 10]
  end.
(** [i64] and [u64] have at most twenty digits. *)
Definition fmt_int (n : Z) : text :=
  if n <? 0 then 45 :: dec_digits 20 (- n) else dec_digits 20 n.
Definition fmt_bool (b : bool) : text := if b then str "true" else str "false".

Section Prompt.
Context `{HexCodec} `{StdFormat}.

Definition format_constraint_value (v : ConstraintValue) : text :=
  match v with
  | CV_String s => debug_str s
  | CV_Int i => fmt_int i
  | CV_Float f => fmt_f64 f
  | CV_Bool b => fmt_bool b
  | CV_Range lo hi => str "[" ++ fmt_f64 lo ++ str ", " ++ fmt_f64 hi ++ str "]"
  | CV_OneOf values => str "one of [" ++ join (str ", ") (map debug_str values) ++ str "]"
  end.

Definition format_duration (d : Z) : text :=
  let secs := as_secs d in
  if 60 <=? secs then fmt_int (secs / 60) ++ str "m" ++ fmt_int (secs mod 60) ++ str "s"
  else fmt_int secs ++ str "s".

Definition newline : text := [10].

Definition param_line (c : Constraint) : text :=
  str "  - " ++ key c ++ str " = " ++ format_constraint_value (value c) ++ newline.
Definition diff_line (e : DryRunDiffEntry) : text :=
  str "  - " ++ diff_key e ++ str ": " ++ diff_current e ++ str " -> " ++ diff_proposed e
  ++ newline.

Definition render_prompt (r : ApprovalRequest) : text :=
  str "=== AXIOM Tier 2 approval required ===" ++ newline
  ++ str "Intent ID:   " ++ IntentId_to_hex (req_intent_id r) ++ newline
  ++ str "Capability:  " ++ req_capability r ++ newline
  ++ str "Proposer:    " ++ hex_encode (req_proposer r) ++ newline
  ++ str "Param hash:  " ++ hex_encode (req_parameter_hash r) ++ newline
  ++ (if decide (req_parameters r = []) then str "Parameters:  (none)" ++ newline
      else str "Parameters:" ++ newline ++ flat_map param_line (req_parameters r))
  ++ match req_dry_run_diff r with
     | Some [] => str "Dry-run diff: (no changes)" ++ newline
     | Some diff => str "Dry-run diff:" ++ newline ++ flat_map diff_line diff
     | None => str "Dry-run diff: (not available for this capability)" ++ newline
     end
  ++ str "Expires in:  " ++ format_duration (req_remaining r) ++ newline
  ++ str "This action is destructive/security-relevant (Tier 2) and requires your explicit, one-time approval."
  ++ newline
  ++ str "No standing approvals, no wildcards - this decision applies to this exact intent only."
  ++ newline
  ++ str "Approve? [y/N]: ".
End Prompt.

(** ** The command-line channel

    [write] and [flush] are the results of the two writes of the prompt, [read]
    what [read_line] returned: the line, empty at end of input, or an error. *)

Definition cli_name : text := str "cli-prompt".

Definition cli_approves (line : text) : bool :=
  let answer := to_ascii_lowercase (trim line) in
  bool_decide (answer = str "y") || bool_decide (answer = str "yes").

Definition cli_request_approval (write flush : option text) (read : text + text)
    (r : ApprovalRequest) : ApprovalDecision + ApprovalChannelError :=
  match write with
  | Some e => inr (Io e)
  | None =>
      match flush with
      | Some e => inr (Io e)
      | None =>
          match read with
          | inr e => inr (Io e)
          | inl line => inl (mkDecision (req_intent_id r) (cli_approves line) cli_name)
          end
      end
  end.

#[export] Instance cli_channel : ApprovalChannel.
Proof.
  refine {| channel_reply r reply :=
              ∃ write flush read, reply = cli_request_approval write flush read r |}.
  intros r d (write & flush & read & E). destruct write, flush, read; cbn in E; simplify_eq. done.
Defined.

(** ** The mock capability *)

#[export] Instance MockDestructiveCapability : Tier2Capability bool := {|
  capability_name := str "mock_destructive_action";
  dry_run flag _ := Some [mkDiff (str "flag") (fmt_bool flag) (str "true")];
  execute _ _ := (true, inl (str "mock_destructive_action: flag flipped true"))
|}.

(** ** The flow *)

(** [DEFAULT_EXPIRY]: fifteen minutes. *)
Definition DEFAULT_EXPIRY : Z := 15 * 60 * 1000000000.

Record flow := mkFlow {
  default_expiry : Z;
  records : gmap IntentId LinkedRecord;
  flow_policy : CapabilityPolicy
}.
Definition with_expiry (expiry : Z) (p : CapabilityPolicy) : flow := mkFlow expiry ∅ p.
Definition flow_new (p : CapabilityPolicy) : flow := with_expiry DEFAULT_EXPIRY p.
Definition with_records (f : flow) r : flow := mkFlow (default_expiry f) r (flow_policy f).

Definition set_status (r : LinkedRecord) (s : IntentStatus) : LinkedRecord :=
  mkRecord (intent r) (decision r) (execution r) s.
Definition set_decision (r : LinkedRecord) (d : ApprovalDecision) : LinkedRecord :=
  mkRecord (intent r) (Some d) (execution r) (status r).
Definition set_execution (r : LinkedRecord) (e : ExecutionResult) : LinkedRecord :=
  mkRecord (intent r) (decision r) (Some e) (status r).
Definition put (f : flow) (id : IntentId) (r : LinkedRecord) : flow :=
  with_records f (<[id := r]> (records f)).

Section Flow.
Context `{Blake3} `{Lowercase} {W : Type} `{!Tier2Capability W}.

Definition propose_with_expiry (now : Z) (id : IntentId) (f : flow) (w : W) (who : NodeId)
    (ps : list Constraint) (expiry : Z) : outcome ProposeError (flow * IntentId) :=
  if negb (protected_resources_configured (flow_policy f))
  then Err ProtectedResourceSectionMissing
  else
    match policy_find_protected_match (flow_policy f) ps with
    | Panic => Panic
    | Err e => match e with end
    | Ok (Some m) => Err (TargetsProtectedResource m)
    | Ok None =>
        match check_denied_param_substrings (flow_policy f) capability_name ps with
        | Some reason => Err (ArgumentConstraintViolation reason)
        | None =>
            let diff := dry_run w ps in
            let i := Intent_propose now id who capability_name ps diff expiry in
            Ok (put f (i_id i) (mkRecord i None None Pending), i_id i)
        end
    end.

Definition propose (now : Z) (id : IntentId) (f : flow) (w : W) (who : NodeId)
    (ps : list Constraint) : outcome ProposeError (flow * IntentId) :=
  propose_with_expiry now id f w who ps (default_expiry f).

(** First lock scope: a request for the channel, or a result. *)
Definition decide_begin (now : Z) (f : flow) (id : IntentId) :
    flow * (ApprovalRequest + outcome FlowError IntentStatus) :=
  match records f !! id with
  | None => (f, inr (Err FE_UnknownIntent))
  | Some r =>
      if negb (bool_decide (status r = Pending)) then (f, inr (Ok (status r)))
      else if is_expired now (intent r) then
        (put f id (set_status r Expired), inr (Err FE_Expired))
      else if negb (verify_parameter_hash (intent r)) then
        (put f id (set_status r ParameterHashMismatch), inr (Err FE_ParameterHashMismatch))
      else (put f id (set_status r InProgress), inl (as_approval_request now (intent r)))
  end.

(** From the channel's reply to the end; [done_at] is the time after [execute]. *)
Definition decide_finish (now done_at : Z) (f : flow) (w : W) (id : IntentId)
    (reply : ApprovalDecision + ApprovalChannelError) :
    flow * W * outcome FlowError IntentStatus :=
  match reply with
  | inr e => (f, w, Err (FE_Channel e))
  | inl d =>
      if negb (bool_decide (dec_intent_id d = id)) then (f, w, Err FE_MismatchedDecision)
      else
        match records f !! id with
        | None => (f, w, Err FE_UnknownIntent)
        | Some r =>
            let r := set_decision r d in
            if negb (approved d) then (put f id (set_status r Denied), w, Ok Denied)
            else if is_expired now (intent r) then
              (put f id (set_status r Expired), w, Err FE_Expired)
            else if negb (verify_parameter_hash (intent r)) then
              (put f id (set_status r ParameterHashMismatch), w, Err FE_ParameterHashMismatch)
            else
              let '(w', out) := execute w (parameters (intent r)) in
              let st := match out with inl _ => Executed | inr _ => ExecutionFailed end in
              (put f id (set_status (set_execution r (mkExecution id out done_at)) st), w', Ok st)
        end
  end.

(** A call that runs alone, with the channel as a function. *)
Definition decide_and_execute (request_approval : ApprovalRequest → ApprovalDecision + ApprovalChannelError)
    (t1 t2 t3 : Z) (f : flow) (w : W) (id : IntentId) : flow * W * outcome FlowError IntentStatus :=
  match decide_begin t1 f id with
  | (f', inr res) => (f', w, res)
  | (f', inl req) => decide_finish t2 t3 f' w id (request_approval req)
  end.

Definition record (f : flow) (id : IntentId) : option LinkedRecord := records f !! id.

(** Parameter drift; the source has it for tests. *)
Definition tamper_parameters_for_test (f : flow) (id : IntentId) (ps : list Constraint) :
    flow * bool :=
  match records f !! id with
  | Some r =>
      let i := intent r in
      (put f id (mkRecord (mkIntent (i_id i) (proposer i) (i_capability i) ps (dry_run_diff i)
          (parameter_hash i) (submitted_at i) (expires_at i)) (decision r) (execution r) (status r)),
       true)
  | None => (f, false)
  end.
End Flow.

(** ** Interleaving

    [calls] are the callers between the two lock scopes, each with the request it
    put to the channel; [executed] logs every invocation of [execute]: the intent,
    the parameters it was given, and the instant of the final check. *)

Section Interleaving.
Context {HB : Blake3} {HL : Lowercase} {HC : ApprovalChannel} {W : Type} {HT : Tier2Capability W}.

Record state := mkState {
  st_flow : flow;
  st_world : W;
  calls : list (IntentId * ApprovalRequest);
  executed : list (IntentId * list Constraint * Z)
}.

(** What [decide_finish] hands to [execute], if anything. *)
Definition execution_of (now : Z) (f : flow) (id : IntentId)
    (reply : ApprovalDecision + ApprovalChannelError) : list (IntentId * list Constraint * Z) :=
  match reply, records f !! id with
  | inl d, Some r =>
      if bool_decide (dec_intent_id d = id) && approved d && negb (is_expired now (intent r))
         && verify_parameter_hash (intent r)
      then [(id, parameters (intent r), now)] else []
  | _, _ => []
  end.

(** Proposed identifiers are 128 random bits: a new one is not in use. *)
Inductive step : state → state → Prop :=
  | step_propose now id who ps expiry f f' id' w cs ex :
      records f !! id = None →
      propose_with_expiry now id f w who ps expiry = Ok (f', id') →
      step (mkState f w cs ex) (mkState f' w cs ex)
  | step_begin_return now id f f' res w cs ex :
      decide_begin now f id = (f', inr res) →
      step (mkState f w cs ex) (mkState f' w cs ex)
  | step_begin_ask now id f f' req w cs ex :
      decide_begin now f id = (f', inl req) →
      step (mkState f w cs ex) (mkState f' w ((id, req) :: cs) ex)
  | step_finish now done_at id req reply f f' w w' res cs1 cs2 ex :
      channel_reply req reply →
      decide_finish now done_at f w id reply = (f', w', res) →
      step (mkState f w (cs1 ++ (id, req) :: cs2) ex)
           (mkState f' w' (cs1 ++ cs2) (execution_of now f id reply ++ ex))
  | step_tamper id ps f w cs ex :
      step (mkState f w cs ex) (mkState (tamper_parameters_for_test f id ps).1 w cs ex).

Definition status_of (f : flow) (id : IntentId) : option IntentStatus := status <$> records f !! id.

(** ** The lifecycle the states promise *)

Inductive lifecycle : IntentStatus → IntentStatus → Prop :=
  | lc_stay s : lifecycle s s
  | lc_claim : lifecycle Pending InProgress
  | lc_expired_early : lifecycle Pending Expired
  | lc_drift_early : lifecycle Pending ParameterHashMismatch
  | lc_denied : lifecycle InProgress Denied
  | lc_expired : lifecycle InProgress Expired
  | lc_drift : lifecycle InProgress ParameterHashMismatch
  | lc_executed : lifecycle InProgress Executed
  | lc_failed : lifecycle InProgress ExecutionFailed.

Definition executions (id : IntentId) (ex : list (IntentId * list Constraint * Z)) : Z :=
  len (filter (λ x, x.1.1 = id) ex).
Definition open_calls (id : IntentId) (cs : list (IntentId * ApprovalRequest)) : Z :=
  len (filter (λ x, x.1 = id) cs).

Definition ran (s : IntentStatus) : Z :=
  match s with Executed | ExecutionFailed => 1 | _ => 0 end.
Definition claimed (s : IntentStatus) : Z :=
  match s with InProgress => 1 | _ => 0 end.

(** Per intent: at most one caller between the scopes, only while the intent is
    in progress; executions are exactly those the status records. *)
Definition once (f : flow) (cs : list (IntentId * ApprovalRequest))
    (ex : list (IntentId * list Constraint * Z)) : Prop :=
  ∀ id, match status_of f id with
        | None => open_calls id cs = 0 ∧ executions id ex = 0
        | Some s => open_calls id cs ≤ claimed s ∧ executions id ex = ran s
        end.

(** Every execution was of an approved, unexpired intent whose parameters hash
    to the value captured when it was proposed. *)
Definition justified (f : flow) (ex : list (IntentId * list Constraint * Z)) : Prop :=
  ∀ id ps t, (id, ps, t) ∈ ex →
    ∃ r d, records f !! id = Some r ∧ decision r = Some d ∧ approved d = true ∧
      dec_intent_id d = id ∧ t < expires_at (intent r) ∧
      compute_parameter_hash (i_capability (intent r)) ps = parameter_hash (intent r).

(** A record holds its own intent, under its identifier, and an execution result
    exactly when its status says so; a request carries its intent's identifier. *)
Definition record_ok (id : IntentId) (r : LinkedRecord) : Prop :=
  i_id (intent r) = id ∧ (ran (status r) = 1 ↔ is_Some (execution r)).
Definition records_ok (f : flow) : Prop := map_Forall record_ok (records f).
Definition requests_ok (cs : list (IntentId * ApprovalRequest)) : Prop :=
  Forall (λ c, req_intent_id c.2 = c.1) cs.

(** ** Lemmas *)

Lemma status_of_put f id r id' :
  status_of (put f id r) id' = if decide (id = id') then Some (status r) else status_of f id'.
Proof.
  unfold status_of, put, with_records. cbn [records]. rewrite lookup_insert. by case_decide.
Qed.

Lemma once_put f id r s cs ex cs' ex' :
  once f cs ex → status_of f id = s →
  (∀ id', id' ≠ id → open_calls id' cs' ≤ open_calls id' cs ∧
     executions id' ex' = executions id' ex) →
  (open_calls id cs' ≤ claimed (status r) ∧ executions id ex' = ran (status r)) →
  once (put f id r) cs' ex'.
Proof.
  intros Ho Hs Hoth Hme id'. rewrite status_of_put. case_decide as E; [by subst|].
  specialize (Ho id'). destruct (Hoth id') as [H1 H2]; [congruence|].
  pose proof (len_nonneg (filter (λ x : IntentId * ApprovalRequest, x.1 = id') cs')) as H3.
  unfold open_calls in *. destruct (status_of f id'); lia.
Qed.

Lemma open_calls_cons id id' req cs :
  open_calls id ((id', req) :: cs) = (if decide (id' = id) then 1 else 0) + open_calls id cs.
Proof. unfold open_calls. rewrite filter_cons. cbn. case_decide; [by rewrite len_cons|done]. Qed.

Lemma open_calls_app id c1 c2 : open_calls id (c1 ++ c2) = open_calls id c1 + open_calls id c2.
Proof. unfold open_calls. rewrite filter_app. by rewrite len_app. Qed.

Lemma open_calls_nonneg id cs : 0 ≤ open_calls id cs.
Proof. apply len_nonneg. Qed.

Lemma executions_cons id id' ps t ex :
  executions id ((id', ps, t) :: ex) = (if decide (id' = id) then 1 else 0) + executions id ex.
Proof. unfold executions. rewrite filter_cons. cbn. case_decide; [by rewrite len_cons|done]. Qed.

Lemma decide_begin_cases now f id f' out :
  decide_begin now f id = (f', out) →
  (f' = f ∧ ∃ res, out = inr res) ∨
  ∃ r st, records f !! id = Some r ∧ status r = Pending ∧ f' = put f id (set_status r st) ∧
    ((st = InProgress ∧ out = inl (as_approval_request now (intent r)) ∧
      now < expires_at (intent r) ∧ verify_parameter_hash (intent r) = true) ∨
     ((st = Expired ∨ st = ParameterHashMismatch) ∧ ∃ res, out = inr res)).
Proof.
  unfold decide_begin. destruct (records f !! id) as [r|] eqn:E; [|by intros [= <- <-]; eauto].
  destruct (bool_decide_reflect (status r = Pending)); [|by intros [= <- <-]; eauto].
  cbn [negb]. destruct (is_expired now (intent r)) eqn:Ex.
  { intros [= <- <-]. right. exists r, Expired. eauto 10. }
  destruct (verify_parameter_hash (intent r)) eqn:Ev; intros [= <- <-]; right.
  - exists r, InProgress. split_and!; [done..|]. left. split_and!; try done.
    unfold is_expired in Ex. lia.
  - exists r, ParameterHashMismatch. eauto 10.
Qed.

Lemma decide_finish_cases now done_at f w id reply f' w' res :
  decide_finish now done_at f w id reply = (f', w', res) →
  (f' = f ∧ w' = w ∧ execution_of now f id reply = [] ∧ ∃ e, res = Err e) ∨
  ∃ r d, records f !! id = Some r ∧ reply = inl d ∧ dec_intent_id d = id ∧
    ((∃ st, f' = put f id (set_status (set_decision r d) st) ∧ w' = w ∧
        execution_of now f id reply = [] ∧
        (st = Denied ∨ st = Expired ∨ st = ParameterHashMismatch)) ∨
     (∃ st e, f' = put f id (set_status (set_execution (set_decision r d) e) st) ∧
        (st = Executed ∨ st = ExecutionFailed) ∧ res = Ok st ∧
        approved d = true ∧ now < expires_at (intent r) ∧
        verify_parameter_hash (intent r) = true ∧
        w' = (execute w (parameters (intent r))).1 ∧
        execution_of now f id reply = [(id, parameters (intent r), now)])).
Proof.
  unfold decide_finish, execution_of. destruct reply as [d|e]; [|intros [= <- <- <-]; eauto 10].
  destruct (bool_decide_reflect (dec_intent_id d = id)) as [Hid|Hid]; cbn [negb andb];
    [|intros [= <- <- <-]; left; destruct (records f !! id); eauto 10].
  destruct (records f !! id) as [r|] eqn:E; [|intros [= <- <- <-]; eauto 10].
  change (intent (set_decision r d)) with (intent r).
  destruct (approved d) eqn:Ea; cbn [negb andb];
    [|intros [= <- <- <-]; right; exists r, d; eauto 15].
  destruct (is_expired now (intent r)) eqn:Ex; cbn [negb andb];
    [intros [= <- <- <-]; right; exists r, d; eauto 15|].
  destruct (verify_parameter_hash (intent r)) eqn:Ev; cbn [negb];
    [|intros [= <- <- <-]; right; exists r, d; eauto 15].
  destruct (execute w (parameters (intent r))) as [w1 out] eqn:Ee. intros [= <- <- <-].
  right. exists r, d. split_and!; [done..|]. right.
  eexists _, _. split_and!; [reflexivity| | |done| |done|by rewrite Ee|done].
  - destruct out; auto.
  - done.
  - unfold is_expired in Ex. lia.
Qed.

(** A caller between the scopes has claimed the intent. *)
Lemma open_call_claimed f cs1 cs2 ex id req :
  once f (cs1 ++ (id, req) :: cs2) ex →
  status_of f id = Some InProgress ∧ open_calls id (cs1 ++ cs2) = 0 ∧ executions id ex = 0.
Proof.
  intros Ho. specialize (Ho id). rewrite open_calls_app, open_calls_cons in Ho.
  rewrite decide_True in Ho by done. rewrite open_calls_app.
  pose proof (open_calls_nonneg id cs1). pose proof (open_calls_nonneg id cs2).
  destruct (status_of f id) as [[]|]; cbn in Ho; split_and!; try done; lia.
Qed.

Lemma open_calls_remove id' id req cs1 cs2 :
  open_calls id' (cs1 ++ cs2) ≤ open_calls id' (cs1 ++ (id, req) :: cs2).
Proof. rewrite !open_calls_app, open_calls_cons. case_decide; lia. Qed.

Lemma tamper_status f id ps id' :
  status_of (tamper_parameters_for_test f id ps).1 id' = status_of f id'.
Proof.
  unfold tamper_parameters_for_test. destruct (records f !! id) as [r|] eqn:E; [|done].
  cbn [fst]. rewrite status_of_put. case_decide; [subst|done]. unfold status_of. by rewrite E.
Qed.

Lemma propose_shape now id f w who ps expiry f' id' :
  propose_with_expiry now id f w who ps expiry = Ok (f', id') →
  ∃ i, f' = put f id (mkRecord i None None Pending) ∧ id' = id ∧ i_id i = id ∧
    parameters i = ps ∧ parameter_hash i = compute_parameter_hash (i_capability i) ps ∧
    expires_at i = now + expiry ∧ proposer i = who.
Proof.
  unfold propose_with_expiry. destruct (negb _); [done|].
  destruct (policy_find_protected_match _ _) as [[]|[]|]; try done.
  destruct (check_denied_param_substrings _ _ _); [done|]. intros [= <- <-].
  eexists. split_and!; [reflexivity|done..].
Qed.

Lemma once_step s s' :
  step s s' → once (st_flow s) (calls s) (executed s) →
  once (st_flow s') (calls s') (executed s').
Proof.
  intros Hst Ho. destruct Hst; cbn [st_flow calls executed] in *.
  - apply propose_shape in H0 as (i & -> & _). eapply once_put; [exact Ho|reflexivity|done|].
    specialize (Ho id). unfold status_of in Ho. rewrite H in Ho. cbn in Ho |- *. lia.
  - apply decide_begin_cases in H as [[-> _]|(r & st & Hr & Hp & -> & Hc)]; [done|].
    eapply once_put; [exact Ho|reflexivity|done|]. specialize (Ho id). unfold status_of in Ho.
    rewrite Hr in Ho. cbn in Ho. rewrite Hp in Ho. cbn in Ho |- *.
    destruct Hc as [(_ & [=] & _)|[[-> | ->] _]]; cbn; lia.
  - apply decide_begin_cases in H as [(_ & ? & [=])|(r & st & Hr & Hp & -> & Hc)].
    destruct Hc as [(-> & _)|[_ [? [=]]]].
    eapply once_put; [exact Ho|reflexivity| |].
    + intros id' Hne. rewrite open_calls_cons, decide_False by congruence. lia.
    + rewrite open_calls_cons, decide_True by done. specialize (Ho id). unfold status_of in Ho.
      rewrite Hr in Ho. cbn in Ho. rewrite Hp in Ho. cbn in Ho |- *. lia.
  - destruct (open_call_claimed _ _ _ _ _ _ Ho) as (Hs & Hz & He).
    apply decide_finish_cases in H0 as [(-> & _ & -> & _)|(r & d & Hr & -> & Hid & Hc)].
    + cbn [app]. intros id'. specialize (Ho id').
      pose proof (open_calls_remove id' id req cs1 cs2).
      pose proof (open_calls_nonneg id' (cs1 ++ cs2)). destruct (status_of f id'); lia.
    + destruct Hc as [(st & -> & _ & -> & Hst)|(st & e & -> & Hst & _ & _ & _ & _ & _ & ->)].
      * eapply once_put; [exact Ho|reflexivity| |].
        -- intros id' Hne. cbn [app]. split; [apply open_calls_remove|done].
        -- cbn. rewrite Hz, He. destruct Hst as [->|[->| ->]]; cbn; lia.
      * eapply once_put; [exact Ho|reflexivity| |].
        -- intros id' Hne. cbn [app]. rewrite executions_cons, decide_False by congruence.
           split; [apply open_calls_remove|lia].
        -- cbn [app]. rewrite executions_cons, decide_True, Hz, He by done.
           destruct Hst as [-> | ->]; cbn; lia.
  - intros id'. rewrite tamper_status. apply Ho.
Qed.

Lemma lifecycle_step s s' id st :
  step s s' → once (st_flow s) (calls s) (executed s) → status_of (st_flow s) id = Some st →
  ∃ st', status_of (st_flow s') id = Some st' ∧ lifecycle st st'.
Proof.
  intros Hst Ho Hs. destruct Hst; cbn [st_flow calls executed] in *.
  - apply propose_shape in H0 as (i & -> & _). rewrite status_of_put. case_decide as E.
    + subst. unfold status_of in Hs. by rewrite H in Hs.
    + eauto using lc_stay.
  - apply decide_begin_cases in H as [[-> _]|(r & st' & Hr & Hp & -> & Hc)]; [eauto using lc_stay|].
    rewrite status_of_put. case_decide as E; [subst|eauto using lc_stay].
    unfold status_of in Hs. rewrite Hr in Hs. cbn in Hs. simplify_eq. rewrite Hp.
    eexists. split; [reflexivity|]. destruct Hc as [(-> & _)|[[-> | ->] _]]; constructor.
  - apply decide_begin_cases in H as [[-> _]|(r & st' & Hr & Hp & -> & Hc)]; [eauto using lc_stay|].
    rewrite status_of_put. case_decide as E; [subst|eauto using lc_stay].
    unfold status_of in Hs. rewrite Hr in Hs. cbn in Hs. simplify_eq. rewrite Hp.
    eexists. split; [reflexivity|]. destruct Hc as [(-> & _)|[[-> | ->] _]]; constructor.
  - destruct (open_call_claimed _ _ _ _ _ _ Ho) as (Hcl & _).
    apply decide_finish_cases in H0 as [(-> & _)|(r & d & Hr & -> & Hid & Hc)];
      [eauto using lc_stay|].
    destruct Hc as [(st' & -> & _ & _ & Hst)|(st' & e & -> & Hst & _)];
      (rewrite status_of_put; case_decide as E; [|eauto using lc_stay];
       rewrite <- E, Hcl in Hs; injection Hs as <-; eexists; split; [reflexivity|]).
    + destruct Hst as [->|[->| ->]]; constructor.
    + destruct Hst as [-> | ->]; constructor.
  - rewrite tamper_status. eauto using lc_stay.
Qed.

Lemma executions_pos id ps t ex : (id, ps, t) ∈ ex → 0 < executions id ex.
Proof.
  intros Hin. unfold executions. destruct (filter _ ex) as [|x l] eqn:E.
  - exfalso. assert (Hf : (id, ps, t) ∈ filter (λ x, x.1.1 = id) ex)
      by (apply list_elem_of_filter; done).
    rewrite E in Hf. by apply not_elem_of_nil in Hf.
  - rewrite len_cons. pose proof (len_nonneg l). lia.
Qed.

(** Records change without losing the justification of past executions. *)
Lemma justified_put f id r r' ex :
  justified f ex → records f !! id = Some r → intent r' = intent r → decision r' = decision r →
  justified (put f id r') ex.
Proof.
  intros Hj Hr Hi Hd id' ps t Hin. destruct (Hj id' ps t Hin) as (q & d & Hq & Hrest).
  unfold put, with_records. cbn [records]. rewrite lookup_insert. case_decide as E; [|eauto 10].
  subst. simplify_eq. exists r', d. rewrite Hi, Hd. done.
Qed.

Lemma justified_put_idle f id r' ex :
  justified f ex → executions id ex = 0 → justified (put f id r') ex.
Proof.
  intros Hj He id' ps t Hin. assert (id ≠ id').
  { intros ->. apply executions_pos in Hin. lia. }
  destruct (Hj id' ps t Hin) as (q & d & Hq & Hrest). exists q, d.
  unfold put, with_records. cbn [records]. by rewrite lookup_insert_ne.
Qed.

Lemma justified_step s s' :
  step s s' → once (st_flow s) (calls s) (executed s) →
  justified (st_flow s) (executed s) → justified (st_flow s') (executed s').
Proof.
  intros Hst Ho Hj. destruct Hst; cbn [st_flow calls executed] in *.
  - apply propose_shape in H0 as (i & -> & _). apply justified_put_idle; [done|].
    specialize (Ho id). unfold status_of in Ho. rewrite H in Ho. cbn in Ho. lia.
  - apply decide_begin_cases in H as [[-> _]|(r & st & Hr & Hp & -> & _)]; [done|].
    by eapply justified_put.
  - apply decide_begin_cases in H as [[-> _]|(r & st & Hr & Hp & -> & _)]; [done|].
    by eapply justified_put.
  - destruct (open_call_claimed _ _ _ _ _ _ Ho) as (_ & _ & He).
    apply decide_finish_cases in H0 as [(-> & _ & -> & _)|(r & d & Hr & -> & Hid & Hc)]; [done|].
    destruct Hc as [(st & -> & _ & -> & _)|(st & e & -> & _ & _ & Ha & Hx & Hv & _ & ->)].
    + by apply justified_put_idle.
    + cbn [app]. intros id' ps t [[= -> -> ->]|Hin]%elem_of_cons.
      * exists (set_status (set_execution (set_decision r d) e) st), d.
        unfold put, with_records. cbn [records]. rewrite lookup_insert_eq. cbn.
        unfold verify_parameter_hash in Hv. rewrite bool_decide_eq_true in Hv. done.
      * by eapply justified_put_idle.
  - unfold tamper_parameters_for_test. destruct (records f !! id) as [r|] eqn:Er; [|done].
    intros id' ps' t Hin. destruct (Hj id' ps' t Hin) as (q & d & Hq & Hrest).
    cbn [fst put with_records records]. rewrite lookup_insert. case_decide as E; [|eauto 10].
    subst. simplify_eq. eexists _, d. split; [reflexivity|]. cbn. done.
Qed.

Lemma records_ok_put f id r' : records_ok f → record_ok id r' → records_ok (put f id r').
Proof. intros Hf Hr. by apply map_Forall_insert_2. Qed.

Lemma record_ok_idle id r st :
  record_ok id r → ran (status r) = 0 → ran st = 0 → record_ok id (set_status r st).
Proof.
  intros [Hi He] H0 H1. split; [done|]. cbn. rewrite H1, <- He, H0. done.
Qed.

Lemma requests_step s s' :
  step s s' → once (st_flow s) (calls s) (executed s) →
  records_ok (st_flow s) → requests_ok (calls s) →
  records_ok (st_flow s') ∧ requests_ok (calls s').
Proof.
  intros Hst Ho Hf Hc. destruct Hst; cbn [st_flow calls executed] in *.
  - apply propose_shape in H0 as (i & -> & _ & Hid & _). split; [|done].
    apply records_ok_put; [done|]. split; [done|]. cbn. split; [done|by intros []].
  - apply decide_begin_cases in H as [[-> _]|(r & st & Hr & Hp & -> & Hx)]; [done|].
    split; [|done]. apply records_ok_put; [done|].
    apply record_ok_idle; [by apply (Hf id r)|by rewrite Hp|]. naive_solver.
  - apply decide_begin_cases in H as [(_ & ? & [=])|(r & st & Hr & Hp & -> & Hx)].
    split.
    + apply records_ok_put; [done|].
      apply record_ok_idle; [by apply (Hf id r)|by rewrite Hp|]. naive_solver.
    + constructor; [|done]. destruct Hx as [(_ & [= ->] & _)|[_ [? [=]]]]. cbn.
      by apply (Hf id r).
  - split; [|unfold requests_ok in *; rewrite Forall_app, Forall_cons in Hc; apply Forall_app; naive_solver].
    destruct (open_call_claimed _ _ _ _ _ _ Ho) as (Hcl & _).
    apply decide_finish_cases in H0 as [(-> & _)|(r & d & Hr & -> & _ & Hx)]; [done|].
    unfold status_of in Hcl. rewrite Hr in Hcl. cbn in Hcl. injection Hcl as Hcl.
    destruct (Hf id r Hr) as [Hid He].
    destruct Hx as [(st & -> & _ & _ & Hst)|(st & e & -> & Hst & _)]; apply records_ok_put; try done.
    + apply (record_ok_idle id (set_decision r d)); [done|by cbn; rewrite Hcl|]. naive_solver.
    + split; [done|]. cbn. split; [eauto|]. naive_solver.
  - split; [|done]. unfold tamper_parameters_for_test.
    destruct (records f !! id) as [r|] eqn:Er; [|done].
    apply records_ok_put; [done|]. by apply (Hf id r).
Qed.

Definition init (expiry : Z) (p : CapabilityPolicy) (w : W) : state :=
  mkState (with_expiry expiry p) w [] [].

Definition good (s : state) : Prop :=
  once (st_flow s) (calls s) (executed s) ∧ justified (st_flow s) (executed s) ∧
  records_ok (st_flow s) ∧ requests_ok (calls s).

Lemma good_init expiry p w : good (init expiry p w).
Proof.
  split_and!.
  - intros id. unfold status_of, init, with_expiry. cbn [st_flow records calls executed].
    by rewrite lookup_empty.
  - by intros id ps t ?%not_elem_of_nil.
  - apply map_Forall_empty.
  - constructor.
Qed.

Lemma good_step s s' : step s s' → good s → good s'.
Proof.
  intros Hst (Ho & Hj & Hr & Hq). destruct (requests_step _ _ Hst Ho Hr Hq).
  split_and!; [by eapply once_step|by eapply justified_step|done|done].
Qed.

Lemma good_reachable expiry p w s : rtc step (init expiry p w) s → good s.
Proof.
  intros Hr. assert (Hg : good (init expiry p w)) by apply good_init. revert Hg.
  induction Hr; eauto using good_step.
Qed.

(** An intent whose only caller came back without a decision. *)
Definition orphaned (id : IntentId) (s : state) : Prop :=
  status_of (st_flow s) id = Some InProgress ∧ open_calls id (calls s) = 0.

Lemma orphaned_step id s s' : step s s' → good s → orphaned id s → orphaned id s'.
Proof.
  intros Hst [Hon _] [Hs Ho].
  assert (Hsame : status_of (st_flow s') id = Some InProgress).
  { destruct Hst; cbn [st_flow calls executed] in *.
    - apply propose_shape in H0 as (i & -> & _). rewrite status_of_put. case_decide; [|done].
      subst. unfold status_of in Hs. by rewrite H in Hs.
    - apply decide_begin_cases in H as [[-> _]|(r & st & Hr & Hp & -> & _)]; [done|].
      rewrite status_of_put. case_decide; [|done]. subst. unfold status_of in Hs.
      rewrite Hr in Hs. cbn in Hs. congruence.
    - apply decide_begin_cases in H as [[-> _]|(r & st & Hr & Hp & -> & _)]; [done|].
      rewrite status_of_put. case_decide; [|done]. subst. unfold status_of in Hs.
      rewrite Hr in Hs. cbn in Hs. congruence.
    - assert (id0 ≠ id).
      { intros ->. rewrite open_calls_app, open_calls_cons, decide_True in Ho by done.
        pose proof (open_calls_nonneg id cs1). pose proof (open_calls_nonneg id cs2). lia. }
      apply decide_finish_cases in H0 as [(-> & _)|(r & d & Hr & -> & _ & Hx)]; [done|].
      destruct Hx as [(st & -> & _)|(st & e & -> & _)]; by rewrite status_of_put, decide_False.
    - by rewrite tamper_status. }
  split; [done|]. destruct Hst; cbn [calls st_flow] in *; try done.
  - apply decide_begin_cases in H as [(_ & ? & [=])|(r & st & Hr & Hp & -> & _)].
    rewrite open_calls_cons. case_decide; [subst|lia]. exfalso. unfold status_of in Hs.
    rewrite Hr in Hs. cbn in Hs. congruence.
  - pose proof (open_calls_remove id id0 req cs1 cs2).
    pose proof (open_calls_nonneg id (cs1 ++ cs2)). lia.
Qed.
End Interleaving.

(** ** Lemmas on text *)

Definition part (a b : text) : Prop := ∃ p s, b = p ++ a ++ s.

Lemma part_refl a : part a a.
Proof. exists [], []. by rewrite app_nil_r. Qed.

Lemma part_app_r a b c : part a c → part a (b ++ c).
Proof. intros (p & s & ->). exists (b ++ p), s. by rewrite <- app_assoc. Qed.

Lemma part_app_l a b c : part a b → part a (b ++ c).
Proof. intros (p & s & ->). exists p, (s ++ c). by rewrite <- !app_assoc. Qed.

Lemma part_flat_map {A} (f : A → text) x l : x ∈ l → part (f x) (flat_map f l).
Proof.
  induction 1 as [|y l Hx IH]; cbn; [apply part_app_l, part_refl|by apply part_app_r].
Qed.

Lemma trim_start_decomp s : ∃ a, s = a ++ trim_start s ∧ Forall (λ c, is_whitespace c = true) a.
Proof.
  induction s as [|c s (a & E & Ha)]; [by exists []|]. cbn. destruct (is_whitespace c) eqn:Ec.
  - exists (c :: a). split; [cbn; by f_equal|by constructor].
  - by exists [].
Qed.

Lemma trim_decomp s :
  ∃ a b, s = a ++ trim s ++ b ∧ Forall (λ c, is_whitespace c = true) (a ++ b).
Proof.
  unfold trim. destruct (trim_start_decomp s) as (a & E & Ha).
  destruct (trim_start_decomp (rev (trim_start s))) as (b & E' & Hb).
  exists a, (rev b). split.
  - rewrite E at 1. f_equal. apply (f_equal (@rev Z)) in E'.
    by rewrite rev_involutive, rev_app_distr in E'.
  - apply Forall_app. split; [done|by apply Forall_rev].
Qed.

Lemma trim_start_skip a s : Forall (λ c, is_whitespace c = true) a → trim_start (a ++ s) = trim_start s.
Proof. induction 1 as [|c a Hc Ha IH]; [done|]. cbn. by rewrite Hc. Qed.

(** White space around a word whose ends are not white space. *)
Lemma trim_word a c b x y z w :
  Forall (λ c, is_whitespace c = true) (a ++ b) → c = x :: z → c = w ++ [y] →
  is_whitespace x = false → is_whitespace y = false → trim (a ++ c ++ b) = c.
Proof.
  intros [Ha Hb]%Forall_app Hx Hy Ex Ey. unfold trim. rewrite trim_start_skip by done.
  assert (E1 : trim_start (c ++ b) = c ++ b) by (rewrite Hx; cbn; by rewrite Ex).
  rewrite E1, rev_app_distr, trim_start_skip by by apply Forall_rev.
  assert (E2 : trim_start (rev c) = rev c).
  { rewrite Hy, rev_app_distr. cbn. by rewrite Ey. }
  rewrite E2. apply rev_involutive.
Qed.

Lemma lowercase_letter c k :
  char_to_ascii_lowercase c = k → 97 ≤ k ≤ 122 → is_whitespace c = false.
Proof.
  unfold char_to_ascii_lowercase, is_whitespace. destruct ((65 <=? c) && (c <=? 90)) eqn:E; lia.
Qed.

(** ** Properties *)

(** C1: no approval is used twice.  However proposals, decisions of several
    concurrent callers, channel failures and parameter drift interleave, each
    intent is executed at most once; every execution followed an approval bound to
    that intent, before its expiry, with parameters that hash to the value
    captured when it was proposed; and the recorded status says exactly which
    intents ran. *)
Theorem approval_at_most_once {HB : Blake3} {HL : Lowercase} {HC : ApprovalChannel} {W}
    {HT : Tier2Capability W} expiry p (w : W) s :
  rtc step (init expiry p w) s →
  (∀ id, executions id (executed s) ≤ 1 ∧ open_calls id (calls s) ≤ 1) ∧
  (∀ id st, status_of (st_flow s) id = Some st → executions id (executed s) = ran st) ∧
  justified (st_flow s) (executed s).
Proof.
  intros (Ho & Hj & _)%good_reachable. split_and!; [| |done].
  - intros id. specialize (Ho id). destruct (status_of _ id) as [[]|]; cbn in Ho; lia.
  - intros id st Hs. specialize (Ho id). rewrite Hs in Ho. lia.
Qed.

Definition no_hash : Blake3 := identity_digest.
Definition open_policy : CapabilityPolicy := mkPolicy ∅ ∅ (Some []) KillSwitch_new.

(** A run of the mock capability up to the channel. *)
Definition demo_id : IntentId := replicate 16 1.
Definition demo_intent : Intent :=
  Intent_propose (H:=no_hash) 0 demo_id peer_a (str "mock_destructive_action") []
    (Some [mkDiff (str "flag") (fmt_bool false) (str "true")]) 100.
Definition demo_proposed : flow :=
  put (with_expiry 100 open_policy) demo_id (mkRecord demo_intent None None Pending).
Definition demo_claimed : LinkedRecord :=
  set_status (mkRecord demo_intent None None Pending) InProgress.
Definition demo_asked : flow := put demo_proposed demo_id demo_claimed.
Definition demo_request : ApprovalRequest := as_approval_request 1 demo_intent.

Lemma demo_run :
  rtc (step (HB:=no_hash) (HC:=cli_channel)) (init 100 open_policy false)
    (mkState demo_asked false [(demo_id, demo_request)] []).
Proof.
  eapply rtc_l; [eapply (step_propose 0 demo_id peer_a [] 100) with (f' := demo_proposed)
    (id' := demo_id); reflexivity|].
  eapply rtc_l; [eapply (step_begin_ask 1 demo_id) with (f' := demo_asked)
    (req := demo_request); vm_compute; reflexivity|].
  apply rtc_refl.
Qed.

Lemma approval_at_most_once_witness :
  ∃ s : state (W:=bool), st_world s = true ∧ executions demo_id (executed s) ≤ 1.
Proof.
  set (d := mkDecision demo_id true cli_name).
  set (out := inl (str "mock_destructive_action: flag flipped true") : text + text).
  set (f3 := put demo_asked demo_id
    (set_status (set_execution (set_decision demo_claimed d) (mkExecution demo_id out 12)) Executed)).
  exists (mkState f3 true [] (execution_of (HB:=no_hash) 11 demo_asked demo_id (inl d) ++ [])).
  split; [reflexivity|].
  apply (approval_at_most_once (HB:=no_hash) (HC:=cli_channel) 100 open_policy false).
  eapply rtc_r; [apply demo_run|].
  apply (step_finish (HC:=cli_channel) 11 12 demo_id demo_request (inl d) demo_asked f3
           false true (Ok Executed) [] [] []).
  - exists None, None, (inl (str "Yes")). vm_compute. reflexivity.
  - vm_compute. reflexivity.
Defined.

(** Every step of the flow moves each intent along the published lifecycle
    and never past a terminal status; a channel that answers for the intent it was
    asked about never yields a mismatched decision.  A call that comes back from
    the channel without a usable decision leaves its intent in progress for ever:
    later calls return that status, and the intent is never executed. *)
Theorem approval_lifecycle {HB : Blake3} {HL : Lowercase} {HC : ApprovalChannel} {W}
    {HT : Tier2Capability W} expiry p (w : W) s :
  rtc step (init expiry p w) s →
  (∀ s' id st, step s s' → status_of (st_flow s) id = Some st →
     ∃ st', status_of (st_flow s') id = Some st' ∧ lifecycle st st') ∧
  (∀ id req reply now t3, (id, req) ∈ calls s → channel_reply req reply →
     (decide_finish now t3 (st_flow s) (st_world s) id reply).2 ≠ Err FE_MismatchedDecision) ∧
  (∀ id, orphaned id s → ∀ s', rtc step s s' →
     (∀ now, decide_begin now (st_flow s') id = (st_flow s', inr (Ok InProgress))) ∧
     executions id (executed s') = 0).
Proof.
  intros Hg%good_reachable. split_and!.
  - intros s' id st Hst Hs. destruct Hg as [Ho _]. by eapply lifecycle_step.
  - destruct Hg as (_ & _ & _ & Hq). intros id req reply now t3 Hin Hr.
    unfold requests_ok in Hq. rewrite Forall_forall in Hq. specialize (Hq _ Hin). cbn in Hq.
    destruct reply as [d|e]; [|done]. apply channel_bound in Hr. cbn [decide_finish].
    rewrite bool_decide_eq_true_2 by congruence. cbn [negb].
    destruct (records (st_flow s) !! id); [|done]. repeat case_match; done.
  - intros id Horph s' Hrun. assert (Hx : good s' ∧ orphaned id s').
    { induction Hrun as [|x y z Hst _ IH]; [done|].
      apply IH; [by eapply good_step|by eapply orphaned_step]. }
    destruct Hx as [[Ho _] [Hs _]]. split.
    + intros now. unfold decide_begin, status_of in *.
      destruct (records (st_flow s') !! id) as [r|]; [|done]. cbn in Hs. injection Hs as Hs.
      rewrite bool_decide_eq_false_2 by congruence. cbn [negb]. by rewrite Hs.
    + specialize (Ho id). rewrite Hs in Ho. cbn in Ho. lia.
Qed.

(** The channel fails: the mock intent stays in progress. *)
Lemma approval_lifecycle_witness :
  decide_begin (H:=no_hash) 13 demo_asked demo_id = (demo_asked, inr (Ok InProgress)).
Proof.
  set (s := mkState (W:=bool) demo_asked false [] []).
  assert (Hrun : rtc (step (HB:=no_hash) (HC:=cli_channel)) (init 100 open_policy false) s).
  { eapply rtc_r; [apply demo_run|].
    apply (step_finish (HC:=cli_channel) 11 12 demo_id demo_request (inr (Io (str "closed")))
             demo_asked demo_asked false false (Err (FE_Channel (Io (str "closed")))) [] [] []).
    - exists (Some (str "closed")), None, (inl []). reflexivity.
    - reflexivity. }
  apply (approval_lifecycle (HB:=no_hash) (HC:=cli_channel) 100 open_policy false s Hrun)
    with (s' := s); [|apply rtc_refl].
  split; vm_compute; reflexivity.
Defined.

(** What a proposal must pass.  On well-formed parameters the checks never
    panic; without a protected-resource section every proposal is refused; a
    parameter that mentions a protected device is refused; a refusal registers
    nothing; and an accepted proposal adds exactly one pending record whose
    parameters match their hash, leaving the others alone. *)
Theorem propose_guard {HB : Blake3} {HL : Lowercase} {W} {HT : Tier2Capability W}
    now id f (w : W) who ps expiry :
  params_ok ps →
  let r := propose_with_expiry now id f w who ps expiry in
  r ≠ Panic ∧
  (protected_resources_configured (flow_policy f) = false →
     r = Err ProtectedResourceSectionMissing) ∧
  (∀ pr c t, pr ∈ protected_resources (flow_policy f) → c ∈ ps →
     t ∈ scannable_strings (value c) → mentions pr t → ¬ is_ok r = true) ∧
  (∀ f' id', r = Ok (f', id') →
     policy_find_protected_match (flow_policy f) ps = Ok None ∧
     check_denied_param_substrings (flow_policy f) capability_name ps = None ∧
     id' = id ∧ flow_policy f' = flow_policy f ∧
     (∀ k, k ≠ id → records f' !! k = records f !! k) ∧
     ∃ q, records f' !! id = Some q ∧ status q = Pending ∧ parameters (intent q) = ps ∧
       decision q = None ∧ verify_parameter_hash (intent q) = true ∧
       expires_at (intent q) = now + expiry).
Proof.
  intros Hps r.
  assert (Hfind : ∃ o, policy_find_protected_match (flow_policy f) ps = Ok o ∧
    ∀ pr c t, pr ∈ protected_resources (flow_policy f) → c ∈ ps →
      t ∈ scannable_strings (value c) → mentions pr t → o ≠ None).
  { unfold policy_find_protected_match.
    destruct (decide (protected_resources (flow_policy f) = [])) as [->|Hne].
    - exists None. split; [done|]. by intros ??? ?%not_elem_of_nil.
    - rewrite find_protected_match_refines by done. eexists. split; [done|].
      intros pr c t Hpr Hc Ht Hm E. rewrite first_some_None in E. specialize (E c Hc).
      rewrite first_some_None in E. by apply (mentions_matched _ pr (key c) t Hpr Hm), E. }
  destruct Hfind as (o & Ho & Hm). subst r. split_and!.
  - unfold propose_with_expiry. destruct (negb _); [done|]. rewrite Ho.
    destruct o; [done|]. by destruct (check_denied_param_substrings _ _ _).
  - intros Hc. unfold propose_with_expiry. by rewrite Hc.
  - intros pr c t Hpr Hc Ht Hmen. unfold propose_with_expiry. destruct (negb _); [done|].
    rewrite Ho. specialize (Hm pr c t Hpr Hc Ht Hmen). by destruct o.
  - intros f' id' Hr. pose proof (propose_shape _ _ _ _ _ _ _ _ _ Hr) as (i & -> & -> & Hi & Hp & Hh & He & _).
    unfold propose_with_expiry in Hr. destruct (negb _); [done|]. rewrite Ho in *.
    destruct o; [done|]. destruct (check_denied_param_substrings _ _ _) eqn:Ed; [done|].
    split_and!; try done.
    + intros k Hk. unfold put, with_records. cbn [records]. by rewrite lookup_insert_ne.
    + exists (mkRecord i None None Pending). unfold put, with_records. cbn [records].
      rewrite lookup_insert_eq. cbn. split_and!; try done.
      unfold verify_parameter_hash. apply bool_decide_eq_true. by rewrite Hp, Hh.
Qed.

Definition guarded_flow : flow :=
  flow_new (mkPolicy ∅ ∅ (Some [core_switch]) KillSwitch_new).

Lemma propose_guard_witness :
  let c := Constraint_string (str "target") (str "10.0.0.1") in
  ¬ is_ok (propose_with_expiry (H:=no_hash) 0 (replicate 16 1) guarded_flow false peer_a [c] 100) = true.
Proof.
  intros c. apply (propose_guard (HB:=no_hash) 0 (replicate 16 1) guarded_flow false peer_a [c] 100)
    with (pr := core_switch) (c := c) (t := str "10.0.0.1"); try (by left).
  - repeat constructor; apply (bool_decide_unpack _); vm_compute; exact I.
  - right. exists (str "10.0.0.1"), [], []. split_and!; try reflexivity.
    + repeat constructor.
    + intros p' b E. by destruct p'.
    + intros b s' E. done.
Defined.

(** The command-line channel.  It decides only when the prompt was written and
    a line (possibly none, at end of input) was read, always for the intent it was
    asked about; it approves exactly the answers "y" and "yes", in any case, with
    white space around; so end of input denies. *)
Theorem cli_channel_decision write flush read r :
  (∀ d, cli_request_approval write flush read r = inl d ↔
     write = None ∧ flush = None ∧ ∃ line, read = inl line ∧
       d = mkDecision (req_intent_id r) (cli_approves line) cli_name) ∧
  (∀ line, cli_approves line = true ↔
     ∃ a word b, line = a ++ word ++ b ∧ Forall (λ c, is_whitespace c = true) (a ++ b) ∧
       (to_ascii_lowercase word = str "y" ∨ to_ascii_lowercase word = str "yes")) ∧
  cli_approves [] = false.
Proof.
  split_and!; [| |done].
  - intros d. destruct write, flush, read; cbn; naive_solver.
  - intros line. unfold cli_approves. rewrite orb_true_iff, !bool_decide_eq_true. split.
    + intros Hw. destruct (trim_decomp line) as (a & b & E & Hab). eauto 10.
    + intros (a & word & b & -> & Hab & Hw).
      assert (Ht : trim (a ++ word ++ b) = word); [|by rewrite Ht].
      destruct Hw as [Hw|Hw]; unfold to_ascii_lowercase in Hw.
      * destruct word as [|x [|]]; try discriminate Hw. injection Hw as Hx.
        apply lowercase_letter in Hx; [|done]. by apply (trim_word a [x] b x x [] []).
      * destruct word as [|x [|y [|z [|]]]]; try discriminate Hw. injection Hw as Hx _ Hz.
        apply lowercase_letter in Hx; [|done]. apply lowercase_letter in Hz; [|done].
        by apply (trim_word a [x; y; z] b x z [y; z] [x; y]).
Qed.

Definition empty_request : ApprovalRequest :=
  mkRequest (replicate 16 1) peer_a (str "fw.rule") [] None IntentHash_zero 0.

Lemma cli_channel_decision_witness : cli_approves (str " YeS" ++ [13; 10]) = true.
Proof.
  apply (cli_channel_decision None None (inl []) empty_request).
  exists (str " "), (str "YeS"), [13; 10]. split; [reflexivity|]. split; [|right; reflexivity].
  repeat constructor.
Defined.

(** The prompt shows what is being approved: the whole identifier, the
    capability, the proposer, the hash, every parameter and every line of the
    dry-run diff appear in it. *)
Theorem prompt_shows_intent `{HexCodec} `{StdFormat} r :
  part (hex_encode (req_intent_id r)) (render_prompt r) ∧
  part (req_capability r) (render_prompt r) ∧
  part (hex_encode (req_proposer r)) (render_prompt r) ∧
  part (hex_encode (req_parameter_hash r)) (render_prompt r) ∧
  (∀ c, c ∈ req_parameters r → part (param_line c) (render_prompt r)) ∧
  (∀ diff e, req_dry_run_diff r = Some diff → e ∈ diff → part (diff_line e) (render_prompt r)).
Proof.
  unfold render_prompt, IntentId_to_hex. split_and!.
  - do 3 apply part_app_r. apply part_app_l, part_refl.
  - do 6 apply part_app_r. apply part_app_l, part_refl.
  - do 9 apply part_app_r. apply part_app_l, part_refl.
  - do 12 apply part_app_r. apply part_app_l, part_refl.
  - intros c Hc. do 14 apply part_app_r. apply part_app_l.
    rewrite decide_False by (intros E; rewrite E in Hc; by apply not_elem_of_nil in Hc).
    do 2 apply part_app_r. by apply part_flat_map.
  - intros diff e -> He. do 15 apply part_app_r. apply part_app_l.
    destruct diff as [|e' diff]; [by apply not_elem_of_nil in He|].
    do 2 apply part_app_r. by apply (part_flat_map diff_line).
Qed.

Definition plain_format : StdFormat :=
  {| debug_str s := str "'" ++ s ++ str "'"; fmt_f64 b := fmt_int b |}.

Lemma prompt_shows_intent_witness :
  part (param_line (H0:=plain_format) (Constraint_int (str "vlan") 7))
    (render_prompt (H0:=plain_format)
       (mkRequest (replicate 16 1) peer_a (str "fw.rule") [Constraint_int (str "vlan") 7] None
          IntentHash_zero 0)).
Proof. apply (prompt_shows_intent (H0:=plain_format)). left. Defined.
