(* ===== verification/AuditTrail.v ===== *)
(** * Audit log (axiom-gateway/src/audit.rs)

    A hash-chained, append-only JSON-lines file: parameter redaction, the entry
    hash, verification of a whole file, opening an existing one and the three
    ways to append.  A file is its text; [serde_json] is the interface
    [SerdeJson], with a concrete implementation for examples.  The result of each
    file operation is an argument, so a failed write or [sync_all] is part of the
    model. *)

From stdpp Require Import base numbers list strings gmap.
From S2P Require Import Prelude Types Text Intent Policy Approval.

(** ** Entries *)

Definition GENESIS_HASH : list Z := replicate 32 0.
Definition LOCAL_ADMIN_CALLER : text := str "local-admin".
Definition ADMIN_ENTRY_TIER : text := str "admin".

Definition SENSITIVE_PARAM_KEY_MARKERS : list text :=
  [ str "password"; str "passwd"; str "secret"; str "token"; str "credential"; str "cred";
    str "api_key"; str "apikey"; str "private_key"; str "privatekey"; str "access_key";
    str "auth"; str "pin"; str "ssn" ].

Definition is_sensitive_param_key (k : text) : bool :=
  let lower := to_ascii_lowercase k in
  existsb (contains lower) SENSITIVE_PARAM_KEY_MARKERS.

Record AuditParam := mkParam { ap_key : text; ap_value : text; ap_redacted : bool }.

Definition from_constraint `{StdFormat} (c : Constraint) : AuditParam :=
  let redacted := is_sensitive_param_key (key c) in
  let v := if redacted then str "[REDACTED]" else format_constraint_value (value c) in
  mkParam (key c) v redacted.

Record AuditDecision := mkAuditDecision { allowed : bool; reason : text }.

Inductive AuditOutcome :=
  | Success (detail : option text)
  | Failure (detail : text).

(** Every field of an entry but its own hash. *)
Record HashableContent := mkContent {
  sequence : Z;
  timestamp_ms : Z;
  caller : text;
  c_capability : text;
  c_tier : text;
  c_parameters : list AuditParam;
  c_decision : AuditDecision;
  c_outcome : option AuditOutcome;
  duration_ms : Z;
  c_intent_id : option text;
  prev_hash : text
}.

Record AuditEntry := mkAuditEntry { content : HashableContent; entry_hash : text }.

Inductive AuditChainBreak :=
  | CorruptEntry (index : Z) (detail : text)
  | ContentTampered (index : Z)
  | ChainLinkBroken (index : Z) (expected_prev found_prev : text)
  | SequenceGap (index expected found : Z).

Record ChainState := mkChain { chain_entries : Z; chain_last_hash : list Z }.

Inductive AuditLogError :=
  | ALE_Io
  | ALE_Serialize
  | ExistingLogCorrupt (b : AuditChainBreak)
  | NotTerminal.

(** What the log relies on of [serde_json]: an entry is written on one line and
    read back; two objects in a row are not one; different contents serialise
    differently. *)
Class SerdeJson := {
  entry_to_string : AuditEntry → text;
  entry_from_str : text → AuditEntry + text;
  content_to_vec : HashableContent → list Z;
  json_roundtrip : ∀ e, entry_from_str (entry_to_string e) = inl e;
  json_one_line : ∀ e, (10 ∉ entry_to_string e) ∧ (13 ∉ entry_to_string e);
  json_no_trailing : ∀ e e', ∃ err,
    entry_from_str (entry_to_string e ++ entry_to_string e') = inr err;
  json_content_inj : ∀ c c', content_to_vec c = content_to_vec c' → c = c'
}.

(** ** Files *)

(** [BufRead::lines]: lines end with a newline, dropped together with a carriage
    return before it; a last line may lack its newline. *)
Definition strip_cr (l : text) : text :=
  match rev l with
  | c :: r => if c =? 13 then rev r else l
  | [] => l
  end.

Fixpoint lines_acc (acc : text) (s : text) : list text :=
  match s with
  | [] => match acc with [] => [] | _ => [rev acc] end
  | c :: s' => if c =? 10 then strip_cr (rev acc) :: lines_acc [] s' else lines_acc (c :: acc) s'
  end.
Definition lines (s : text) : list text := lines_acc [] s.

Inductive file :=
  | Missing
  | Unreadable (detail : text)
  | Contents (t : text).

Section Log.
Context `{HexCodec} `{Blake3} `{SerdeJson} `{StdFormat}.

Definition recompute_entry_hash (e : AuditEntry) : list Z :=
  hash_bytes (content_to_vec (content e)).

Definition decode_hash (s : text) : option (list Z) :=
  match hex_decode s with
  | Some b => if decide (length b = 32%nat) then Some b else None
  | None => None
  end.

(** One turn of the verification loop. *)
Definition verify_line (expected_prev : list Z) (expected_sequence : Z) (line : text) :
    outcome AuditChainBreak (list Z) :=
  let index := expected_sequence in
  match entry_from_str line with
  | inr e => Err (CorruptEntry index (str "not a complete/valid audit entry: " ++ e))
  | inl entry =>
      match decode_hash (entry_hash entry) with
      | None => Err (CorruptEntry index (str "entry_hash is not valid 64-char hex"))
      | Some recorded_hash =>
          if negb (bool_decide (recompute_entry_hash entry = recorded_hash))
          then Err (ContentTampered index)
          else
            match decode_hash (prev_hash (content entry)) with
            | None => Err (CorruptEntry index (str "prev_hash is not valid 64-char hex"))
            | Some found_prev =>
                if negb (bool_decide (found_prev = expected_prev))
                then Err (ChainLinkBroken index (hex_encode expected_prev)
                            (prev_hash (content entry)))
                else if negb (sequence (content entry) =? expected_sequence)
                then Err (SequenceGap index expected_sequence (sequence (content entry)))
                else Ok recorded_hash
            end
      end
  end.

Fixpoint verify_lines (expected_prev : list Z) (expected_sequence : Z) (ls : list text) :
    outcome AuditChainBreak ChainState :=
  match ls with
  | [] => Ok (mkChain expected_sequence expected_prev)
  | line :: ls' =>
      h ← verify_line expected_prev expected_sequence line;
      verify_lines h (expected_sequence + 1) ls'
  end.

Definition verify_chain (f : file) : outcome AuditChainBreak ChainState :=
  match f with
  | Missing => Ok (mkChain 0 GENESIS_HASH)
  | Unreadable detail => Err (CorruptEntry 0 detail)
  | Contents t => verify_lines GENESIS_HASH 0 (lines t)
  end.

(** ** The open log *)

Record AuditLog := mkLog {
  log_text : text;
  last_hash : list Z;
  next_sequence : Z
}.

Definition file_text (f : file) : text := match f with Contents t => t | _ => [] end.

(** [io_ok] is false when opening the file for append, or setting its mode, fails. *)
Definition AuditLog_open (io_ok : bool) (f : file) : outcome AuditLogError AuditLog :=
  match verify_chain f with
  | Err broken => Err (ExistingLogCorrupt broken)
  | Panic => Panic
  | Ok st =>
      if io_ok then Ok (mkLog (file_text f) (chain_last_hash st) (chain_entries st))
      else Err ALE_Io
  end.

Definition AuditLog_len (l : AuditLog) : Z := next_sequence l.
Definition AuditLog_is_empty (l : AuditLog) : bool := AuditLog_len l =? 0.

(** What happened to the two file operations of an append: a failed write may
    leave any prefix of the line. *)
Inductive io := IoDone | IoWriteFailed (written : nat) | IoSyncFailed.

(** The entry appended to a log. *)
Definition new_entry (now_ms : Z) (l : AuditLog) (who cap tier : text)
    (ps : list Constraint) (d : AuditDecision) (o : option AuditOutcome) (duration : Z)
    (iid : option text) : AuditEntry :=
  let c := mkContent (next_sequence l) now_ms who cap tier (map from_constraint ps) d o
             ((duration / 1000000) mod 2 ^ 64) iid (hex_encode (last_hash l)) in
  mkAuditEntry c (hex_encode (recompute_entry_hash (mkAuditEntry c []))).

Definition audit_record (i : io) (now_ms : Z) (l : AuditLog) (who cap tier : text)
    (ps : list Constraint) (d : AuditDecision) (o : option AuditOutcome) (duration : Z)
    (iid : option text) : AuditLog * outcome AuditLogError unit :=
  let entry := new_entry now_ms l who cap tier ps d o duration iid in
  let line := entry_to_string entry ++ [10] in
  match i with
  | IoWriteFailed n =>
      (mkLog (log_text l ++ take n line) (last_hash l) (next_sequence l), Err ALE_Io)
  | IoSyncFailed =>
      (mkLog (log_text l ++ line) (last_hash l) (next_sequence l), Err ALE_Io)
  | IoDone =>
      (mkLog (log_text l ++ line) (recompute_entry_hash entry) (next_sequence l + 1), Ok tt)
  end.

Definition tier1_reason : text :=
  str "capability policy allowlist/rate-limit/concurrency check already passed; Tier 1 requires mandatory full-context audit logging on every call, with no separate approval gate".

Definition log_tier1_call (i : io) (now_ms : Z) (l : AuditLog) (who : NodeId) (cap : text)
    (ps : list Constraint) (o : option text + text) (duration : Z) :
    AuditLog * outcome AuditLogError unit :=
  let o := Some (match o with inl detail => Success detail | inr detail => Failure detail end) in
  audit_record i now_ms l (hex_encode who) cap (Tier_as_str Tier1) ps
    (mkAuditDecision true tier1_reason) o duration None.

Definition log_admin_event (i : io) (now_ms : Z) (l : AuditLog) (action : text)
    (detail : option text) (duration : Z) : AuditLog * outcome AuditLogError unit :=
  let d := mkAuditDecision true (str "local admin action '" ++ action ++
    str "' via forge-node's control socket (physical/SSH access to the box is the authentication boundary)") in
  audit_record i now_ms l LOCAL_ADMIN_CALLER action ADMIN_ENTRY_TIER [] d
    (Some (Success detail)) duration None.

Definition record_channel (r : LinkedRecord) : text :=
  match decision r with Some d => channel_name d | None => str "unknown channel" end.

(** The decision, outcome and duration a terminal record is logged with. *)
Definition linked_summary (now : Z) (r : LinkedRecord) :
    outcome AuditLogError (AuditDecision * option AuditOutcome * Z) :=
  let elapsed := duration_since now (submitted_at (intent r)) in
  match status r with
  | Pending | InProgress => Err NotTerminal
  | Denied => Ok (mkAuditDecision false (str "denied by " ++ record_channel r), None, elapsed)
  | Expired =>
      Ok (mkAuditDecision false (str "expired before an approval decision was reached"), None,
          elapsed)
  | ParameterHashMismatch =>
      Ok (mkAuditDecision false
            (str "parameters drifted from the hash captured at proposal time - rejected rather than approved against parameters that no longer match what was hashed"),
          None, elapsed)
  | Executed | ExecutionFailed =>
      match execution r with
      | None => Err NotTerminal
      | Some e =>
          let o := match exec_outcome e with
                   | inl detail => Success (Some detail)
                   | inr detail => Failure detail
                   end in
          Ok (mkAuditDecision true (str "approved by " ++ record_channel r), Some o,
              duration_since (executed_at e) (submitted_at (intent r)))
      end
  end.

Definition log_tier2_linked_record (i : io) (now_ms now : Z) (l : AuditLog) (r : LinkedRecord) :
    AuditLog * outcome AuditLogError unit :=
  match linked_summary now r with
  | Ok (d, o, duration) =>
      audit_record i now_ms l (hex_encode (proposer (intent r))) (i_capability (intent r))
        (Tier_as_str Tier2) (parameters (intent r)) d o duration
        (Some (IntentId_to_hex (i_id (intent r))))
  | Err e => (l, Err e)
  | Panic => (l, Panic)
  end.
End Log.

(** ** Lemmas on lines *)

Definition terminated (t : text) : Prop := t = [] ∨ ∃ u, t = u ++ [10].

Lemma lines_acc_app acc t s :
  lines_acc acc (t ++ [10] ++ s) = lines_acc acc (t ++ [10]) ++ lines_acc [] s.
Proof.
  revert acc. induction t as [|c t IH]; intros acc; [done|]. cbn.
  destruct (c =? 10); cbn; by rewrite IH.
Qed.

Lemma lines_app t s : terminated t → lines (t ++ s) = lines t ++ lines s.
Proof.
  intros [->|[u ->]]; [done|]. unfold lines. rewrite <- app_assoc. apply lines_acc_app.
Qed.

Lemma strip_cr_id l : 13 ∉ l → strip_cr l = l.
Proof.
  intros Hl. unfold strip_cr. destruct (rev l) as [|c r] eqn:E; [done|].
  destruct (Z.eqb_spec c 13) as [->|]; [|done]. exfalso. apply Hl.
  rewrite <- (rev_involutive l), E. cbn. set_solver.
Qed.

Lemma lines_acc_line acc l s :
  10 ∉ l → lines_acc acc (l ++ 10 :: s) = strip_cr (rev acc ++ l) :: lines_acc [] s.
Proof.
  revert acc. induction l as [|c l IH]; intros acc Hl; cbn; [by rewrite app_nil_r|].
  apply not_elem_of_cons in Hl as [Hc Hl]. destruct (Z.eqb_spec c 10); [congruence|].
  rewrite IH by done. cbn. by rewrite <- app_assoc.
Qed.

Lemma lines_acc_open acc l :
  10 ∉ l → lines_acc acc l = match rev acc ++ l with [] => [] | _ => [rev acc ++ l] end.
Proof.
  revert acc. induction l as [|c l IH]; intros acc Hl; cbn.
  - rewrite app_nil_r. destruct acc as [|a acc]; [done|]. cbn. by destruct (rev acc).
  - apply not_elem_of_cons in Hl as [Hc Hl]. destruct (Z.eqb_spec c 10); [congruence|].
    rewrite IH by done. cbn. by rewrite <- app_assoc.
Qed.

Lemma lines_line l : 10 ∉ l → 13 ∉ l → lines (l ++ [10]) = [l].
Proof. intros H1 H2. unfold lines. rewrite lines_acc_line by done. cbn. by rewrite strip_cr_id. Qed.

Lemma lines_open l : 10 ∉ l → l ≠ [] → lines l = [l].
Proof. intros H1 H2. unfold lines. rewrite lines_acc_open by done. cbn. by destruct l. Qed.

Lemma terminated_line t l : terminated (t ++ l ++ [10]).
Proof. right. exists (t ++ l). by rewrite <- app_assoc. Qed.

(** ** Lemmas on the chain *)

Section Chain.
Context {HX : HexCodec} {HB : Blake3} {HS : SerdeJson} {HF : StdFormat}.

Lemma decode_hash_encode h : array_ok 32 h → decode_hash (hex_encode h) = Some h.
Proof. intros [Hl Hb]. unfold decode_hash. by rewrite hex_decode_encode, decide_True. Qed.

Lemma decode_hash_array s h : decode_hash s = Some h → array_ok 32 h.
Proof.
  unfold decode_hash. destruct (hex_decode s) eqn:E; [|done]. case_decide; [|done].
  intros [= <-]. split; [done|]. by eapply hex_decode_bytes.
Qed.

(** What a verified line says. *)
Lemma verify_line_inv p n line h :
  verify_line p n line = Ok h ↔
  ∃ e, entry_from_str line = inl e ∧ decode_hash (entry_hash e) = Some h ∧
    recompute_entry_hash e = h ∧ decode_hash (prev_hash (content e)) = Some p ∧
    sequence (content e) = n.
Proof.
  unfold verify_line. destruct (entry_from_str line) as [e|]; [|split; [done|by intros (? & ? & _)]].
  destruct (decode_hash (entry_hash e)) as [r|] eqn:E1; [|split; [done|naive_solver]].
  destruct (bool_decide_reflect (recompute_entry_hash e = r)) as [Er|]; cbn [negb];
    [|split; [done|naive_solver]].
  destruct (decode_hash (prev_hash (content e))) as [q|] eqn:E2; [|split; [done|naive_solver]].
  destruct (bool_decide_reflect (q = p)) as [<-|]; cbn [negb]; [|split; [done|naive_solver]].
  destruct (Z.eqb_spec (sequence (content e)) n); cbn [negb]; [|split; [done|naive_solver]].
  split; [intros [= <-]; eauto 10|]. intros (e' & [= <-] & Hd & _). congruence.
Qed.

Lemma verify_lines_app p n l1 l2 :
  verify_lines p n (l1 ++ l2) =
    (st ← verify_lines p n l1; verify_lines (chain_last_hash st) (chain_entries st) l2).
Proof.
  revert p n. induction l1 as [|x l1 IH]; intros p n; [done|]. cbn [app verify_lines].
  destruct (verify_line p n x); [|done..]. cbn [mbind outcome_bind]. apply IH.
Qed.

Lemma verify_lines_inv p n ls st :
  verify_lines p n ls = Ok st →
  chain_entries st = n + len ls ∧ (array_ok 32 p → array_ok 32 (chain_last_hash st)).
Proof.
  revert p n. induction ls as [|x ls IH]; intros p n; cbn [verify_lines].
  - intros [= <-]. rewrite len_nil. cbn [chain_entries]. split; [lia|done].
  - intros (h & Hh & Hv)%bind_Ok_inv. destruct (IH _ _ Hv) as [-> Ha]. rewrite len_cons.
    split; [lia|]. intros _. apply Ha.
    apply verify_line_inv in Hh as (e & _ & Hd & _). by eapply decode_hash_array.
Qed.

Lemma genesis_array : array_ok 32 GENESIS_HASH.
Proof. apply array_ok_replicate. lia. Qed.

(** A log whose memory agrees with its file. *)
Definition log_ok (l : AuditLog) : Prop :=
  terminated (log_text l) ∧
  verify_lines GENESIS_HASH 0 (lines (log_text l)) = Ok (mkChain (next_sequence l) (last_hash l)).

Lemma log_ok_array l : log_ok l → array_ok 32 (last_hash l).
Proof. intros [_ [_ H]%verify_lines_inv]. apply H, genesis_array. Qed.

Lemma new_entry_verifies now_ms l who cap tier ps d o du iid :
  array_ok 32 (last_hash l) →
  let e := new_entry now_ms l who cap tier ps d o du iid in
  verify_line (last_hash l) (next_sequence l) (entry_to_string e) = Ok (recompute_entry_hash e).
Proof.
  intros Ha e. apply verify_line_inv. exists e. split_and!; [apply json_roundtrip| |done| |done].
  - apply decode_hash_encode, blake3_array.
  - by apply decode_hash_encode.
Qed.

Lemma entry_lines e : lines (entry_to_string e ++ [10]) = [entry_to_string e].
Proof. apply lines_line; apply json_one_line. Qed.

(** Appending an entry's line to a file that verifies. *)
Lemma append_verify l e :
  log_ok l →
  verify_lines GENESIS_HASH 0 (lines (log_text l ++ entry_to_string e ++ [10])) =
    (h ← verify_line (last_hash l) (next_sequence l) (entry_to_string e);
     Ok (mkChain (next_sequence l + 1) h)).
Proof.
  intros [Ht Hv]. rewrite lines_app, entry_lines, verify_lines_app, Hv by done. done.
Qed.

Lemma audit_record_ok now_ms l who cap tier ps d o du iid :
  log_ok l →
  let '(l', r) := audit_record IoDone now_ms l who cap tier ps d o du iid in
  let e := new_entry now_ms l who cap tier ps d o du iid in
  r = Ok tt ∧ log_ok l' ∧ next_sequence l' = next_sequence l + 1 ∧
  lines (log_text l') = lines (log_text l) ++ [entry_to_string e].
Proof.
  intros Hl. pose proof (log_ok_array l Hl) as Ha. cbn. split_and!; [done| |done|].
  - split; cbn; [apply terminated_line|]. rewrite append_verify by done.
    by rewrite new_entry_verifies.
  - rewrite lines_app by apply Hl. by rewrite entry_lines.
Qed.

(** The contents of a file, as verification reads them. *)
Definition line_content (line : text) : option HashableContent :=
  match entry_from_str line with inl e => Some (content e) | inr _ => None end.

(** A collision the two files themselves exhibit: entries in one place with different
    hashed bytes and one hash. *)
Definition collision (ls ls' : list text) : Prop :=
  ∃ (i : nat) x y e f, ls !! i = Some x ∧ ls' !! i = Some y ∧ entry_from_str x = inl e ∧ entry_from_str y = inl f ∧
    content_to_vec (content e) ≠ content_to_vec (content f) ∧ recompute_entry_hash e = recompute_entry_hash f.
Lemma collision_app ls ls' k k' : collision ls ls' → collision (ls ++ k) (ls' ++ k').
Proof.
  intros (i & x & y & e & f & Hx & Hy & Hc). exists i, x, y, e, f. split; [by apply lookup_app_l_Some|]. by split; [apply lookup_app_l_Some|].
Qed.

Lemma verify_lines_snoc p n ls x st :
  verify_lines p n (ls ++ [x]) = Ok st →
  ∃ st' e, verify_lines p n ls = Ok st' ∧ entry_from_str x = inl e ∧
    recompute_entry_hash e = chain_last_hash st ∧
    decode_hash (prev_hash (content e)) = Some (chain_last_hash st').
Proof.
  rewrite verify_lines_app. intros (st' & Hs & (h & Hh & [= <-])%bind_Ok_inv)%bind_Ok_inv.
  apply verify_line_inv in Hh as (e & He & _ & Hr & Hp & _). eauto 10.
Qed.

Lemma chain_determines_contents p n ls ls' st :
  verify_lines p n ls = Ok st → verify_lines p n ls' = Ok st →
  map line_content ls = map line_content ls' ∨ collision ls ls'.
Proof.
  revert ls' st. induction ls as [|x ls IH] using rev_ind; intros ls' st H1 H2.
  - pose proof (verify_lines_inv _ _ _ _ H1) as [E1 _].
    pose proof (verify_lines_inv _ _ _ _ H2) as [E2 _].
    destruct ls' as [|y ls']; [by left|]. rewrite len_cons, len_nil in *.
    pose proof (len_nonneg ls'). lia.
  - destruct ls' as [|y ls' _] using rev_ind.
    + pose proof (verify_lines_inv _ _ _ _ H1) as [E1 _].
      pose proof (verify_lines_inv _ _ _ _ H2) as [E2 _].
      rewrite len_app, len_cons, len_nil in *. pose proof (len_nonneg ls). lia.
    + pose proof (verify_lines_inv _ _ _ _ H1) as [E1 _].
      pose proof (verify_lines_inv _ _ _ _ H2) as [E2 _].
      rewrite len_app, len_cons, len_nil in E1, E2.
      apply verify_lines_snoc in H1 as (s1 & e1 & V1 & P1 & R1 & D1).
      apply verify_lines_snoc in H2 as (s2 & e2 & V2 & P2 & R2 & D2).
      destruct (decide (content_to_vec (content e1) = content_to_vec (content e2))) as [E|E].
      * apply json_content_inj in E. rewrite E, D2 in D1. injection D1 as D1.
        assert (s1 = s2) as ->.
        { pose proof (verify_lines_inv _ _ _ _ V1) as [F1 _].
          pose proof (verify_lines_inv _ _ _ _ V2) as [F2 _].
          destruct s1, s2; cbn in *. f_equal; [lia|done]. }
        destruct (IH _ _ V1 V2) as [Hm|Hc]; [|right; by apply collision_app]. left.
        rewrite !map_app, Hm. unfold line_content at 2 4. cbn. by rewrite P1, P2, E.
      * right. exists (length ls), x, y, e1, e2. split; [by apply list_lookup_middle|]. split; [|split_and!; [done..|congruence]].
        replace (length ls) with (length ls') by (unfold len in *; lia). by apply list_lookup_middle.
Qed.
End Chain.

(** ** A concrete serialisation

    Entries as the binary digits of their code between braces. *)

#[export] Instance AuditParam_eq_dec : EqDecision AuditParam.
Proof. solve_decision. Defined.
#[export] Instance AuditDecision_eq_dec : EqDecision AuditDecision.
Proof. solve_decision. Defined.
#[export] Instance AuditOutcome_eq_dec : EqDecision AuditOutcome.
Proof. solve_decision. Defined.
#[export] Instance HashableContent_eq_dec : EqDecision HashableContent.
Proof. solve_decision. Defined.
#[export] Instance AuditEntry_eq_dec : EqDecision AuditEntry.
Proof. solve_decision. Defined.

#[export] Instance AuditParam_countable : Countable AuditParam.
Proof.
  refine (inj_countable' (λ p, (ap_key p, ap_value p, ap_redacted p))
    (λ '(k, v, r), mkParam k v r) _). by intros [].
Defined.
#[export] Instance AuditDecision_countable : Countable AuditDecision.
Proof.
  refine (inj_countable' (λ d, (allowed d, reason d)) (λ '(a, r), mkAuditDecision a r) _).
  by intros [].
Defined.
#[export] Instance AuditOutcome_countable : Countable AuditOutcome.
Proof.
  refine (inj_countable'
    (λ o, match o with Success d => inl d | Failure d => inr d end)
    (λ s, match s with inl d => Success d | inr d => Failure d end) _). by intros [].
Defined.
#[export] Instance HashableContent_countable : Countable HashableContent.
Proof.
  refine (inj_countable'
    (λ c, (sequence c, timestamp_ms c, caller c, c_capability c, (c_tier c, c_parameters c),
           (c_decision c, c_outcome c, duration_ms c, c_intent_id c, prev_hash c)))
    (λ '(a, b, c, d, (e, f), (g, h, i, j, k)), mkContent a b c d e f g h i j k) _).
  by intros [].
Defined.
#[export] Instance AuditEntry_countable : Countable AuditEntry.
Proof.
  refine (inj_countable' (λ e, (content e, entry_hash e)) (λ '(c, h), mkAuditEntry c h) _).
  by intros [].
Defined.

Fixpoint pos_text (p : positive) : text :=
  match p with
  | xH => []
  | xO p => 48 :: pos_text p
  | xI p => 49 :: pos_text p
  end.
Fixpoint read_pos (s : text) : option positive :=
  match s with
  | [] => None
  | c :: s' =>
      if c =? 125 then (match s' with [] => Some xH | _ => None end)
      else if c =? 48 then xO <$> read_pos s'
      else if c =? 49 then xI <$> read_pos s'
      else None
  end.

Lemma read_pos_text p : read_pos (pos_text p ++ [125]) = Some p.
Proof. induction p as [p IH|p IH|]; cbn; [by rewrite IH..|done]. Qed.

Lemma read_pos_trailing p c s : read_pos (pos_text p ++ [125] ++ c :: s) = None.
Proof. induction p as [p IH|p IH|]; cbn in *; [by rewrite IH..|done]. Qed.

Lemma pos_text_chars p : Forall (λ c, c = 48 ∨ c = 49) (pos_text p).
Proof. induction p; cbn; constructor; auto. Qed.

Definition ref_to_string (e : AuditEntry) : text := 123 :: pos_text (encode e) ++ [125].
Definition ref_from_str (s : text) : AuditEntry + text :=
  match s with
  | c :: s' =>
      if c =? 123 then
        match read_pos s' ≫= decode with Some e => inl e | None => inr (str "invalid") end
      else inr (str "invalid")
  | [] => inr (str "EOF")
  end.

#[export] Instance json_reference : SerdeJson.
Proof.
  refine {| entry_to_string := ref_to_string; entry_from_str := ref_from_str;
            content_to_vec c := pos_text (encode c) |}.
  - intros e. unfold ref_from_str, ref_to_string. rewrite Z.eqb_refl, read_pos_text. cbn.
    by rewrite decode_encode.
  - intros e. pose proof (pos_text_chars (encode e)) as Hc. rewrite Forall_forall in Hc.
    unfold ref_to_string. split; intros [|[Hin|Hin%list_elem_of_singleton]%elem_of_app]%elem_of_cons;
      try done; by destruct (Hc _ Hin).
  - intros e e'. unfold ref_to_string, ref_from_str. cbn [app]. rewrite Z.eqb_refl.
    rewrite <- app_assoc. rewrite read_pos_trailing. cbn. eauto.
  - intros c c' E. apply (f_equal (λ l, read_pos (l ++ [125]))) in E.
    rewrite !read_pos_text in E. injection E as E. by apply encode_inj.
Defined.

(** ** Properties *)

(** A successful append, through any of the three entry points, extends a
    verified log by exactly one line, after which the whole file verifies, and
    reopening it gives back the writer's position. *)
Theorem audit_append {HX : HexCodec} {HB : Blake3} {HS : SerdeJson} {HF : StdFormat}
    l l' r now_ms :
  log_ok l →
  (∃ who cap ps o du, log_tier1_call IoDone now_ms l who cap ps o du = (l', r)) ∨
  (∃ action detail du, log_admin_event IoDone now_ms l action detail du = (l', r)) ∨
  (∃ now rec, is_ok (linked_summary now rec) = true ∧
     log_tier2_linked_record IoDone now_ms now l rec = (l', r)) →
  r = Ok tt ∧ log_ok l' ∧ AuditLog_len l' = AuditLog_len l + 1 ∧
  (∃ e, lines (log_text l') = lines (log_text l) ++ [entry_to_string e]) ∧
  verify_chain (Contents (log_text l')) = Ok (mkChain (next_sequence l') (last_hash l')) ∧
  AuditLog_open true (Contents (log_text l')) = Ok l'.
Proof.
  intros Hl Hop.
  assert (Hrec : ∃ who cap tier ps d o du iid,
    audit_record IoDone now_ms l who cap tier ps d o du iid = (l', r)).
  { destruct Hop as [(who & cap & ps & o & du & E)|[(a & d & du & E)|(now & rec & Hs & E)]].
    - eauto 10.
    - eauto 10.
    - unfold log_tier2_linked_record in E. destruct (linked_summary now rec) as [[[d o] du]| |];
        [|done|done]. eauto 10. }
  destruct Hrec as (who & cap & tier & ps & d & o & du & iid & E).
  pose proof (audit_record_ok now_ms l who cap tier ps d o du iid Hl) as Hr. rewrite E in Hr.
  destruct Hr as (-> & Hl' & Hn & Hlines). pose proof Hl' as [_ Hv]. split_and!; eauto.
  unfold AuditLog_open, verify_chain. rewrite Hv. by destruct l'.
Qed.

Lemma empty_log_ok {HX : HexCodec} {HB : Blake3} {HS : SerdeJson} :
  log_ok (mkLog [] GENESIS_HASH 0).
Proof. split; [by left|done]. Qed.

Lemma audit_append_witness :
  let l := mkLog [] GENESIS_HASH 0 in
  let '(l', r) := log_admin_event (H0:=no_hash) (H2:=plain_format) IoDone 5 l
                    (str "kill_switch_freeze") None 0 in
  AuditLog_open (H0:=no_hash) true (Contents (log_text l')) = Ok l'.
Proof.
  intros l. destruct (log_admin_event _ _ _ _ _ _) as [l' r] eqn:E.
  apply (audit_append (HB:=no_hash) (HF:=plain_format) l l' r 5).
  - apply empty_log_ok.
  - right. left. exists (str "kill_switch_freeze"), None, 0. exact E.
Defined.

(** C4: tamper evidence.  Two files that verify to the same chain state hold the
    same entries, field by field, in the same order: otherwise there is a place where the
    two have entries with different bytes and one hash.  Every prefix of a verified file
    verifies, with the number of its lines, so dropping whole entries at the end
    is visible only in the chain state. *)
Theorem audit_tamper_evidence {HX : HexCodec} {HB : Blake3} {HS : SerdeJson} t st :
  verify_chain (Contents t) = Ok st →
  chain_entries st = len (lines t) ∧
  (∀ t', verify_chain (Contents t') = Ok st →
     map line_content (lines t) = map line_content (lines t') ∨ collision (lines t) (lines t')) ∧
  (∀ k, ∃ h, verify_lines GENESIS_HASH 0 (take k (lines t)) = Ok (mkChain (len (take k (lines t))) h)).
Proof.
  cbn [verify_chain]. intros Hv. split_and!.
  - by apply verify_lines_inv in Hv as [-> _].
  - intros t' Hv'. by eapply chain_determines_contents.
  - intros k. rewrite <- (take_drop k (lines t)) in Hv. rewrite verify_lines_app in Hv.
    apply bind_Ok_inv in Hv as (s & Hs & _). exists (chain_last_hash s). rewrite Hs.
    apply verify_lines_inv in Hs as [Hn _]. destruct s; cbn in *. by subst.
Qed.

Lemma audit_tamper_evidence_witness :
  chain_entries (mkChain 0 GENESIS_HASH) = len (lines []).
Proof. apply (audit_tamper_evidence (HB:=no_hash) [] (mkChain 0 GENESIS_HASH)). reflexivity. Defined.

(** Two ways a log that reports no corruption stops verifying.  If [sync_all]
    fails after the line was written, the call reports an error but the line
    stays while the writer's position does not move: the next append breaks the
    link and the log can no longer be opened.  And a file cut by its last byte,
    the newline of a complete entry, verifies and opens, but the next append
    glues its entry to that line. *)
Theorem audit_append_hazards {HX : HexCodec} {HB : Blake3} {HS : SerdeJson} {HF : StdFormat}
    l t1 w1 c1 k1 ps1 d1 o1 u1 i1 t2 w2 c2 k2 ps2 d2 o2 u2 i2 :
  log_ok l →
  (recompute_entry_hash (new_entry t1 l w1 c1 k1 ps1 d1 o1 u1 i1) ≠ last_hash l →
   let '(la, ra) := audit_record IoSyncFailed t1 l w1 c1 k1 ps1 d1 o1 u1 i1 in
   let '(lb, rb) := audit_record IoDone t2 la w2 c2 k2 ps2 d2 o2 u2 i2 in
   ra = Err ALE_Io ∧ rb = Ok tt ∧
   ∃ e f, AuditLog_open true (Contents (log_text lb))
          = Err (ExistingLogCorrupt (ChainLinkBroken (next_sequence l + 1) e f))) ∧
  (let '(la, ra) := audit_record IoDone t1 l w1 c1 k1 ps1 d1 o1 u1 i1 in
   ∃ cut, log_text la = cut ++ [10] ∧
   ∃ lc, AuditLog_open true (Contents cut) = Ok lc ∧ next_sequence lc = next_sequence la ∧
   let '(lb, rb) := audit_record IoDone t2 lc w2 c2 k2 ps2 d2 o2 u2 i2 in
   rb = Ok tt ∧ ∃ detail, verify_chain (Contents (log_text lb))
                          = Err (CorruptEntry (next_sequence l) detail)).
Proof.
  intros Hl. pose proof (log_ok_array l Hl) as Ha.
  set (e1 := new_entry t1 l w1 c1 k1 ps1 d1 o1 u1 i1).
  pose proof (new_entry_verifies t1 l w1 c1 k1 ps1 d1 o1 u1 i1 Ha) as V1. fold e1 in V1. cbn in V1.
  destruct Hl as [Ht Hv]. split.
  - intros Hne. cbn. fold e1. split_and!; [done|done|].
    set (e2 := new_entry t2 _ w2 c2 k2 ps2 d2 o2 u2 i2).
    assert (Hlink : verify_line (recompute_entry_hash e1) (next_sequence l + 1) (entry_to_string e2)
      = Err (ChainLinkBroken (next_sequence l + 1) (hex_encode (recompute_entry_hash e1))
               (prev_hash (content e2)))).
    { unfold verify_line. rewrite json_roundtrip.
      change (entry_hash e2) with (hex_encode (recompute_entry_hash e2)).
      rewrite (decode_hash_encode (recompute_entry_hash e2)) by apply blake3_array.
      rewrite bool_decide_eq_true_2 by done. cbn [negb].
      change (prev_hash (content e2)) with (hex_encode (last_hash l)).
      rewrite decode_hash_encode by done. rewrite bool_decide_eq_false_2; [done|].
      intros E. by apply Hne. }
    eexists _, _. unfold AuditLog_open, verify_chain.
    rewrite (lines_app (log_text l ++ _ ++ [10])) by apply terminated_line.
    rewrite (lines_app (log_text l)), !entry_lines by done.
    rewrite !verify_lines_app, Hv. cbn [mbind outcome_bind chain_last_hash chain_entries verify_lines].
    rewrite V1. cbn [mbind outcome_bind chain_last_hash chain_entries verify_lines].
    rewrite Hlink. done.
  - cbv beta iota zeta delta [audit_record]. fold e1. cbn [log_text next_sequence].
    exists (log_text l ++ entry_to_string e1). split; [by rewrite <- app_assoc|].
    destruct (json_one_line e1) as [N1 R1].
    assert (Hne : entry_to_string e1 ≠ []).
    { intros E. destruct (json_no_trailing e1 e1) as [err Hx]. rewrite E in Hx. cbn in Hx.
      rewrite <- E, json_roundtrip in Hx. done. }
    exists (mkLog (log_text l ++ entry_to_string e1) (recompute_entry_hash e1) (next_sequence l + 1)).
    split_and!; [|done|done|].
    + unfold AuditLog_open, verify_chain. rewrite (lines_app _ _ Ht), (lines_open _ N1 Hne), verify_lines_app, Hv.
      cbn [mbind outcome_bind chain_last_hash chain_entries verify_lines]. by rewrite V1.
    + set (e2 := new_entry t2 _ w2 c2 k2 ps2 d2 o2 u2 i2). destruct (json_one_line e2) as [N2 R2].
      destruct (json_no_trailing e1 e2) as [err Hx]. eexists. cbn [verify_chain log_text].
      rewrite <- !app_assoc, (lines_app _ _ Ht), (app_assoc (entry_to_string e1)).
      rewrite lines_line by set_solver. rewrite verify_lines_app, Hv.
      cbn [mbind outcome_bind chain_last_hash chain_entries verify_lines].
      unfold verify_line. rewrite Hx. done.
Qed.

Definition ones_digest : Blake3 :=
  {| blake3 m := replicate 32 1; blake3_array m := array_ok_replicate 32 1 ltac:(lia) |}.

Lemma audit_append_hazards_witness :
  let l := mkLog [] GENESIS_HASH 0 in
  let record i t l := audit_record (H0:=ones_digest) (H2:=plain_format) i t l
     LOCAL_ADMIN_CALLER (str "freeze") ADMIN_ENTRY_TIER [] (mkAuditDecision true []) None 0 None in
  let '(la, ra) := record IoSyncFailed 5 l in
  let '(lb, rb) := record IoDone 6 la in
  ra = Err ALE_Io ∧ rb = Ok tt ∧
  ∃ e f, AuditLog_open (H0:=ones_digest) true (Contents (log_text lb))
         = Err (ExistingLogCorrupt (ChainLinkBroken 1 e f)).
Proof.
  intros l record.
  apply (audit_append_hazards (HB:=ones_digest) (HF:=plain_format) l).
  - apply empty_log_ok.
  - intros E. change (replicate 32 1 = replicate 32 0) in E. discriminate E.
Defined.

(** Parameter lists that differ only in the values of sensitive keys. *)
Definition same_public (ps ps' : list Constraint) : Prop :=
  Forall2 (λ c d, key c = key d ∧ (is_sensitive_param_key (key c) = false → value c = value d)) ps ps'.

(** Redaction.  Nothing written to the log depends on the value of a
    parameter with a sensitive key: logs made from parameter lists that differ only
    in such values are identical, and the redacted parameter carries a fixed mark. *)
Theorem audit_redaction {HX : HexCodec} {HB : Blake3} {HS : SerdeJson} {HF : StdFormat}
    i now_ms l who cap ps ps' o du :
  same_public ps ps' →
  log_tier1_call i now_ms l who cap ps o du = log_tier1_call i now_ms l who cap ps' o du ∧
  ∀ c, c ∈ ps → is_sensitive_param_key (key c) = true →
    from_constraint c = mkParam (key c) (str "[REDACTED]") true.
Proof.
  intros Hps. split.
  - assert (E : map from_constraint ps = map from_constraint ps').
    { induction Hps as [|c d ps ps' [Hk Hv] _ IH]; [done|]. cbn [map]. f_equal; [|done].
      unfold from_constraint. rewrite <- Hk. destruct (is_sensitive_param_key (key c)); [done|].
      by rewrite Hv. }
    unfold log_tier1_call, audit_record, new_entry. by rewrite E.
  - intros c _ Hs. unfold from_constraint. by rewrite Hs.
Qed.

Lemma audit_redaction_witness :
  let log v := log_tier1_call (H0:=no_hash) (H2:=plain_format) IoDone 5 (mkLog [] GENESIS_HASH 0)
    peer_a (str "network_clients") [Constraint_string (str "API_Key") v] (inl None) 0 in
  log (str "hunter2") = log (str "correct horse").
Proof.
  apply (audit_redaction (HB:=no_hash) (HF:=plain_format)).
  repeat constructor. intros H. vm_compute in H. discriminate H.
Defined.

Definition terminal (s : IntentStatus) : Prop := s ≠ Pending ∧ s ≠ InProgress.

(** The Tier 2 trail.  Every intent of the approval flow that has reached a
    terminal status can be logged, in one entry; the entry says the action was
    allowed exactly when the capability was executed, and carries an outcome
    exactly then.  An intent that is pending or in progress is refused. *)
Theorem tier2_trail {HX : HexCodec} {HB : Blake3} {HS : SerdeJson} {HF : StdFormat}
    {HL : Lowercase} {HC : ApprovalChannel} {W} {HT : Tier2Capability W}
    expiry p (w : W) s id r :
  rtc step (init expiry p w) s → records (st_flow s) !! id = Some r →
  (terminal (status r) →
     ∀ l now_ms now, log_ok l →
       ∃ d o du l', linked_summary now r = Ok (d, o, du) ∧
         log_tier2_linked_record IoDone now_ms now l r = (l', Ok tt) ∧ log_ok l' ∧
         AuditLog_len l' = AuditLog_len l + 1 ∧
         (allowed d = true ↔ executions id (executed s) = 1) ∧
         (is_Some o ↔ executions id (executed s) = 1)) ∧
  (¬ terminal (status r) → ∀ i now_ms now l,
     log_tier2_linked_record i now_ms now l r = (l, Err NotTerminal)).
Proof.
  intros (Ho & _ & Hr & _)%good_reachable Hid. specialize (Ho id). unfold status_of in Ho.
  rewrite Hid in Ho. cbn in Ho. destruct Ho as [_ ->]. destruct (Hr id r Hid) as [_ Hx]. split.
  - intros Hter l now_ms now Hl.
    assert (Hs : ∃ d o du, linked_summary now r = Ok (d, o, du) ∧
      (allowed d = true ↔ ran (status r) = 1) ∧ (is_Some o ↔ ran (status r) = 1)).
    { unfold linked_summary. destruct (status r) eqn:Es; try (by destruct Hter);
        try (eexists _, _, _; split; [reflexivity|]; split; split; cbn; naive_solver).
      all: destruct (proj1 Hx) as [x Hex]; [done|]; rewrite Hex;
        eexists _, _, _; split; [reflexivity|]; split; split; cbn; eauto. }
    destruct Hs as (d & o & du & Hs & Ha & Hso). exists d, o, du.
    unfold log_tier2_linked_record. rewrite Hs.
    pose proof (audit_record_ok now_ms l (hex_encode (proposer (intent r))) (i_capability (intent r))
      (Tier_as_str Tier2) (parameters (intent r)) d o du (Some (IntentId_to_hex (i_id (intent r)))) Hl)
      as Hrec.
    destruct (audit_record _ _ _ _ _ _ _ _ _ _ _) as [l' res]. destruct Hrec as (-> & Hl' & Hn & _).
    exists l'. done.
  - intros Hnt i now_ms now l. unfold log_tier2_linked_record, linked_summary.
    destruct (status r); try done; exfalso; apply Hnt; done.
Qed.

Lemma tier2_trail_witness :
  log_tier2_linked_record (H0:=no_hash) (H2:=plain_format) IoDone 5 6 (mkLog [] GENESIS_HASH 0)
    demo_claimed = (mkLog [] GENESIS_HASH 0, Err NotTerminal).
Proof.
  apply (tier2_trail (HB:=no_hash) (HF:=plain_format) (HC:=cli_channel) 100 open_policy false
    (mkState demo_asked false [(demo_id, demo_request)] []) demo_id demo_claimed).
  - apply demo_run.
  - vm_compute. reflexivity.
  - intros [_ H]. by apply H.
Defined.
