(* ===== verification/Fragment.v ===== *)
(** * Fragmentation and reassembly (axiom-transport/src/fragment.rs)

    [Fragmenter::fragment] cuts a frame that exceeds the MTU into numbered
    fragments; the [Reassembler] collects fragments per sender, intent and clock,
    in any order, under a cap on pending frames and a timeout.  The [unwrap]s of
    the source are [Panic]s of the model; their absence is part of the invariant. *)

From stdpp Require Import base numbers list gmap.
From S2P Require Import Prelude Types.

(** ** Data *)

Record ReassemblyKey := mkKey {
  key_sender_id : NodeId;
  key_intent_hash : IntentHash;
  key_clock : HybridClock
}.
#[export] Instance ReassemblyKey_eq_dec : EqDecision ReassemblyKey.
Proof. solve_decision. Defined.
#[export] Instance ReassemblyKey_countable : Countable ReassemblyKey.
Proof.
  refine (inj_countable' (λ k, (key_sender_id k, key_intent_hash k, key_clock k))
    (λ '(a, b, c), mkKey a b c) _). by intros [].
Defined.

Inductive ReassemblyError :=
  | DuplicateFragment (seq total : Z)
  | TotalMismatch (expected got : Z)
  | Timeout (k : ReassemblyKey)
  | TooManyPending (n : Z)
  | Incomplete (received total : Z)
  | InvalidSequence (seq total : Z).

Record FragmentBuffer := mkBuffer {
  buf_total : Z;
  fragments : gmap Z (list Z);
  buf_header : option FrameHeader;
  buf_payload_header : option PayloadHeader;
  buf_trace_id : option TraceId;
  buf_routing : option RoutingExt;
  buf_auth : option Authentication;
  created_at : Z
}.

Definition FragmentBuffer_new (tot t : Z) : FragmentBuffer :=
  mkBuffer tot ∅ None None None None None t.

Definition is_complete (b : FragmentBuffer) : bool :=
  Z.of_nat (size (fragments b)) =? buf_total b.

Definition add_fragment (b : FragmentBuffer) (seq tot : Z) (p : list Z) (h : FrameHeader)
    (ph : PayloadHeader) (tr : option TraceId) (ro : option RoutingExt) (au : Authentication) :
    outcome ReassemblyError FragmentBuffer :=
  if negb (tot =? buf_total b) then Err (TotalMismatch (buf_total b) tot)
  else if tot <=? seq then Err (InvalidSequence seq tot)
  else if is_some (fragments b !! seq) then Err (DuplicateFragment seq tot)
  else
    let b :=
      if seq =? 0 then
        mkBuffer (buf_total b) (fragments b) (Some h) (Some ph) tr ro (Some au) (created_at b)
      else b in
    Ok (mkBuffer (buf_total b) (<[seq := p]> (fragments b)) (buf_header b)
          (buf_payload_header b) (buf_trace_id b) (buf_routing b) (buf_auth b) (created_at b)).

Definition unwrap {E A} (o : option A) : outcome E A :=
  match o with Some a => Ok a | None => Panic end.

Definition collect (b : FragmentBuffer) : list Z :=
  flat_map (λ seq, default [] (fragments b !! seq)) (seqZ 0 (buf_total b)).

Definition reassemble (b : FragmentBuffer) : outcome ReassemblyError Frame :=
  if negb (is_complete b) then Err (Incomplete (Z.of_nat (size (fragments b))) (buf_total b))
  else
    let p := collect b in
    h ← unwrap (buf_header b);
    orig ← unwrap (buf_payload_header b);
    au ← unwrap (buf_auth b);
    let h := set_fragmented h false in
    let ph := PayloadHeader_new (payload_type orig) (len p mod 2 ^ 32) in
    let ph := mkPayloadHeader (payload_type ph) (ph_length ph) (ph_flags orig) in
    Ok (mkFrame h (buf_trace_id b) (buf_routing b) None ph p au).

(** ** Fragmenter *)

Definition max_payload_per_fragment (mtu auth_overhead : Z) : Z :=
  Z.max 0 (mtu - (58 + 4 + 4 + auth_overhead)).

Definition needs_fragmentation (mtu : Z) (f : Frame) : bool := mtu <? wire_size f.

(** One fragment of the loop. *)
Definition fragment_at (f : Frame) (max_payload tot seq : Z) : outcome False Frame :=
  let start := seq * max_payload in
  let stop := Z.min ((seq + 1) * max_payload) (len (payload f)) in
  chunk ← slice (payload f) start stop;
  let g := Frame_new (set_fragmented (header f) true) (payload_type (payload_header f)) chunk in
  Ok (mkFrame (header g) (trace_id f) (routing f) (Some (mkFragInfo seq tot))
        (mkPayloadHeader (payload_type (payload_header g)) (ph_length (payload_header g))
           (ph_flags (payload_header f)))
        (payload g) (auth f)).

Fixpoint fragment_loop (f : Frame) (max_payload tot : Z) (seqs : list Z) :
    outcome False (list Frame) :=
  match seqs with
  | [] => Ok []
  | seq :: rest =>
      g ← fragment_at f max_payload tot seq;
      gs ← fragment_loop f max_payload tot rest;
      Ok (g :: gs)
  end.

Definition fragment (mtu : Z) (f : Frame) : outcome False (list Frame) :=
  let max_payload := max_payload_per_fragment mtu (Authentication_wire_size (auth f)) in
  if (max_payload =? 0) || (len (payload f) <=? max_payload) then Ok [f]
  else
    let total_fragments := (len (payload f) + max_payload - 1) / max_payload in
    if u16_max <? total_fragments then Ok [f]
    else fragment_loop f max_payload total_fragments (seqZ 0 total_fragments).

(** ** Reassembler *)

Record Reassembler := mkReassembler {
  buffers : gmap ReassemblyKey FragmentBuffer;
  max_buffers : Z;
  timeout_ms : Z
}.
Definition Reassembler_new (m t : Z) : Reassembler := mkReassembler ∅ m t.
Definition with_buffers (r : Reassembler) b : Reassembler :=
  mkReassembler b (max_buffers r) (timeout_ms r).

Definition live (r : Reassembler) (now : Z) (b : FragmentBuffer) : Prop :=
  u64_saturating_sub now (created_at b) < timeout_ms r.

#[export] Instance live_dec r now b : Decision (live r now b).
Proof. unfold live. apply _. Defined.

Definition cleanup_expired (r : Reassembler) (now : Z) : Reassembler :=
  with_buffers r (filter (λ kv, live r now kv.2) (buffers r)).

Definition key_of (f : Frame) : ReassemblyKey :=
  mkKey (sender_id (header f)) (intent_hash (header f)) (clock (header f)).

Definition pending_count (r : Reassembler) : Z := Z.of_nat (size (buffers r)).
Definition clear (r : Reassembler) : Reassembler := with_buffers r ∅.

Definition process (r : Reassembler) (f : Frame) (now : Z) :
    Reassembler * outcome ReassemblyError (option Frame) :=
  let r := cleanup_expired r now in
  match fragmented (flags (header f)), fragment_info f with
  | true, Some info =>
      let k := key_of f in
      let found :=
        match buffers r !! k with
        | Some b => inl b
        | None =>
            if max_buffers r <=? pending_count r then inr (TooManyPending (pending_count r))
            else inl (FragmentBuffer_new (total info) now)
        end in
      match found with
      | inr e => (r, Err e)
      | inl b =>
          let r := with_buffers r (<[k := b]> (buffers r)) in
          match add_fragment b (sequence info) (total info) (payload f) (header f)
                  (payload_header f) (trace_id f) (routing f) (auth f) with
          | Err e => (r, Err e)
          | Panic => (r, Panic)
          | Ok b' =>
              if is_complete b' then
                (with_buffers r (delete k (buffers r)), g ← reassemble b'; Ok (Some g))
              else (with_buffers r (<[k := b']> (buffers r)), Ok None)
          end
      end
  | _, _ => (r, Ok (Some f))
  end.

(** ** Lemmas on fragments *)

Definition chunk (f : Frame) (m seq : Z) : list Z :=
  take (Z.to_nat m) (drop (Z.to_nat (seq * m)) (payload f)).

(** The fragment numbered [seq] of [tot]. *)
Definition frag_of (f : Frame) (m tot seq : Z) : Frame :=
  mkFrame (set_fragmented (header f) true) (trace_id f) (routing f) (Some (mkFragInfo seq tot))
    (mkPayloadHeader (payload_type (payload_header f)) (len (chunk f m seq) mod 2 ^ 32)
       (ph_flags (payload_header f)))
    (chunk f m seq) (auth f).

Lemma fragment_at_ok f m tot seq :
  0 < m → 0 ≤ seq → seq * m ≤ len (payload f) → fragment_at f m tot seq = Ok (frag_of f m tot seq).
Proof.
  intros Hm Hs Hl. unfold fragment_at, slice. rewrite decide_True by nia. cbn [mbind outcome_bind].
  assert (E : take (Z.to_nat (Z.min ((seq + 1) * m) (len (payload f)) - seq * m))
                (drop (Z.to_nat (seq * m)) (payload f)) = chunk f m seq).
  { unfold chunk. destruct (Z.le_ge_cases ((seq + 1) * m) (len (payload f))).
    - f_equal. lia.
    - rewrite !take_ge; [done|rewrite length_drop; unfold len in *; lia..]. }
  rewrite E. done.
Qed.

Lemma fragment_loop_ok f m tot seqs :
  0 < m → Forall (λ s, 0 ≤ s ∧ s * m ≤ len (payload f)) seqs →
  fragment_loop f m tot seqs = Ok (map (frag_of f m tot) seqs).
Proof.
  intros Hm. induction 1 as [|s seqs [H1 H2] _ IH]; [done|]. cbn [fragment_loop].
  rewrite fragment_at_ok by done. cbn [mbind outcome_bind]. by rewrite IH.
Qed.

(** The chunks in order are the payload. *)
Lemma chunks_prefix (l : list Z) (m n : nat) :
  flat_map (λ i, take m (drop (i * m) l)) (seq 0 n) = take (n * m) l.
Proof.
  induction n as [|n IH]; [done|]. rewrite seq_S, flat_map_app, IH. cbn. rewrite app_nil_r.
  rewrite take_take_drop. f_equal. lia.
Qed.

Lemma flat_map_seqZ {A} (g : Z → list A) n :
  flat_map g (seqZ 0 n) = flat_map (λ i, g (Z.of_nat i)) (seq 0 (Z.to_nat n)).
Proof.
  unfold seqZ. induction (seq 0 (Z.to_nat n)) as [|i l IH]; [done|]. cbn.
  by rewrite Z.add_0_r, IH.
Qed.

Lemma chunks_payload f m n :
  0 < m → 0 ≤ n → len (payload f) ≤ n * m → flat_map (chunk f m) (seqZ 0 n) = payload f.
Proof.
  intros Hm Hn Hl. rewrite flat_map_seqZ.
  transitivity (flat_map (λ i, take (Z.to_nat m) (drop (i * Z.to_nat m) (payload f)))
                  (seq 0 (Z.to_nat n))).
  - apply flat_map_ext. intros i. unfold chunk. do 2 f_equal. nia.
  - rewrite chunks_prefix. apply take_ge. unfold len in Hl. nia.
Qed.

(** ** Lemmas on one reassembly *)

Section OneFrame.
Context (f : Frame) (m n : Z).

(** The buffer after the fragments numbered [got] have arrived. *)
Definition buffer_of (t : Z) (got : list Z) : FragmentBuffer :=
  let first := bool_decide (0 ∈ got) in
  mkBuffer n (list_to_map (map (λ i, (i, chunk f m i)) got))
    (if first then Some (header (frag_of f m n 0)) else None)
    (if first then Some (payload_header (frag_of f m n 0)) else None)
    (if first then trace_id f else None) (if first then routing f else None)
    (if first then Some (auth f) else None) t.

Lemma buffer_lookup t got i :
  NoDup got → fragments (buffer_of t got) !! i
               = if decide (i ∈ got) then Some (chunk f m i) else None.
Proof.
  intros Hnd. cbn. induction Hnd as [|j got Hj Hnd IH]; cbn.
  - rewrite lookup_empty. by rewrite decide_False by apply not_elem_of_nil.
  - rewrite lookup_insert, IH. repeat case_decide; set_solver.
Qed.

Lemma buffer_complete t got :
  NoDup got → is_complete (buffer_of t got) = (len got =? n).
Proof.
  intros Hnd. unfold is_complete, buffer_of. cbn [fragments buf_total].
  rewrite map_size_list_to_map.
  - by rewrite length_map.
  - change (NoDup (map fst (map (λ i, (i, chunk f m i)) got))). rewrite map_map. cbn.
    by rewrite map_id.
Qed.

Lemma add_fragment_next t got i :
  NoDup got → i ∉ got → 0 ≤ i < n →
  let g := frag_of f m n i in
  add_fragment (buffer_of t got) i n (payload g) (header g) (payload_header g)
    (trace_id g) (routing g) (auth g) = Ok (buffer_of t (i :: got)).
Proof.
  intros Hnd Hi Hr g. unfold add_fragment. rewrite (buffer_lookup t got i Hnd).
  rewrite (decide_False (P := i ∈ got)) by done.
  cbn [buf_total buffer_of]. rewrite Z.eqb_refl. cbn [negb is_some].
  destruct (Z.leb_spec n i); [lia|]. f_equal.
  destruct (Z.eqb_spec i 0) as [->|Hi0]; unfold buffer_of; cbn.
  - by rewrite (bool_decide_eq_true_2 (0 ∈ 0 :: got)) by left.
  - assert (E : bool_decide (0 ∈ i :: got) = bool_decide (0 ∈ got))
      by (apply bool_decide_ext; set_solver).
    by rewrite E.
Qed.

Definition whole : Prop :=
  fragmented (flags (header f)) = false ∧ fragment_info f = None ∧
  ph_length (payload_header f) = len (payload f) mod 2 ^ 32.

Context (Hm : 0 < m) (Hn : 0 < n) (Hcover : len (payload f) ≤ n * m).

Lemma reassemble_all t got :
  whole → NoDup got → Forall (λ i, 0 ≤ i < n) got → len got = n →
  reassemble (buffer_of t got) = Ok f.
Proof.
  intros (Hfl & Hinfo & Hlen) Hnd Hr Hl.
  assert (HP : got ≡ₚ seqZ 0 n).
  { apply submseteq_length_Permutation.
    - apply NoDup_submseteq; [done|]. intros i Hi. rewrite Forall_forall in Hr.
      apply elem_of_seqZ. specialize (Hr i Hi). lia.
    - rewrite length_seqZ. unfold len in Hl. lia. }
  assert (Hall : ∀ i, 0 ≤ i < n → i ∈ got) by (intros i Hi; rewrite HP; apply elem_of_seqZ; lia).
  unfold reassemble. rewrite buffer_complete, Hl, Z.eqb_refl by done. cbn [negb].
  assert (Hc : collect (buffer_of t got) = payload f).
  { unfold collect. rewrite <- (chunks_payload f m n) by lia. cbn [buf_total buffer_of].
    rewrite !flat_map_concat_map. f_equal. apply map_ext_in. intros i Hi%list_elem_of_In%elem_of_seqZ.
    change (list_to_map (map (λ i0, (i0, chunk f m i0)) got)) with (fragments (buffer_of t got)).
    rewrite buffer_lookup by done. rewrite decide_True by (apply Hall; lia). done. }
  rewrite Hc. unfold buffer_of. rewrite bool_decide_eq_true_2 by (apply Hall; lia). cbn.
  destruct f as [h tr ro fi ph p au]; cbn in *. subst fi.
  destruct h as [v ft [en co fr] tl pr ck ih si], ph; cbn in *. by subst.
Qed.
End OneFrame.

(** ** A stream of arrivals *)

Fixpoint process_all (r : Reassembler) (evs : list (Frame * Z)) :
    Reassembler * list (outcome ReassemblyError (option Frame)) :=
  match evs with
  | [] => (r, [])
  | (g, t) :: evs' =>
      let '(r', o) := process r g t in
      let '(r'', os) := process_all r' evs' in (r'', o :: os)
  end.

Lemma cleanup_lookup r now k :
  buffers (cleanup_expired r now) !! k =
    match buffers r !! k with Some b => if decide (live r now b) then Some b else None | None => None end.
Proof.
  unfold cleanup_expired. cbn [buffers with_buffers]. destruct (buffers r !! k) as [b|] eqn:E.
  - case_decide as Hl; [by apply map_lookup_filter_Some_2|].
    apply map_lookup_filter_None. right. intros b' Hb'. rewrite E in Hb'. by injection Hb' as <-.
  - apply map_lookup_filter_None. by left.
Qed.

Section Stream.
Context (f : Frame) (m n t0 : Z).
Context (Hm : 0 < m) (Hn : 0 < n) (Hcover : len (payload f) ≤ n * m) (Hwhole : whole f).

(** One fragment for an existing buffer. *)
Lemma process_next r t got i :
  buffers r !! key_of f = Some (buffer_of f m n t0 got) → live r t (buffer_of f m n t0 got) →
  NoDup got → Forall (λ i, 0 ≤ i < n) got → i ∉ got → 0 ≤ i < n →
  ∃ r', process r (frag_of f m n i) t =
      (r', if decide (len (i :: got) = n) then Ok (Some f) else Ok None) ∧
    timeout_ms r' = timeout_ms r ∧
    buffers r' !! key_of f =
      if decide (len (i :: got) = n) then None else Some (buffer_of f m n t0 (i :: got)).
Proof.
  intros Hb Hlive Hnd Hr Hi Hir. unfold process.
  cbn [fragmented flags header frag_of set_fragmented with_flags fragment_info].
  change (key_of _) with (key_of f) at 1 2 3 4. cbv zeta. rewrite cleanup_lookup, Hb, decide_True by done.
  cbn [sequence total].
  pose proof (add_fragment_next f m n t0 got i Hnd Hi Hir) as Hadd. cbn [payload header payload_header
    trace_id routing auth frag_of] in Hadd. unfold frag_of in Hadd |- *.
  cbn [payload header payload_header trace_id routing auth] in Hadd |- *. rewrite Hadd.
  rewrite buffer_complete by by constructor.
  destruct (Z.eqb_spec (len (i :: got)) n) as [E|E].
  - rewrite !(decide_True (P := len (i :: got) = n)) by done.
    rewrite (reassemble_all f m n) by (done || by constructor). cbn [mbind outcome_bind].
    eexists. split_and!; [reflexivity|done|]. cbn. by rewrite lookup_delete_eq.
  - rewrite !(decide_False (P := len (i :: got) = n)) by done.
    eexists. split_and!; [reflexivity|done|]. cbn. by rewrite lookup_insert_eq.
Qed.

(** The first fragment opens the buffer. *)
Lemma process_first r t i :
  buffers (cleanup_expired r t) !! key_of f = None →
  pending_count (cleanup_expired r t) < max_buffers r → 0 ≤ i < n →
  ∃ r', process r (frag_of f m n i) t = (r', if decide (1 = n) then Ok (Some f) else Ok None) ∧
    timeout_ms r' = timeout_ms r ∧
    buffers r' !! key_of f = if decide (1 = n) then None else Some (buffer_of f m n t [i]).
Proof.
  intros Hb Hsz Hir. unfold process.
  cbn [fragmented flags header frag_of set_fragmented with_flags fragment_info].
  change (key_of _) with (key_of f) at 1 2 3 4. cbv zeta. rewrite Hb.
  change (max_buffers (cleanup_expired r t)) with (max_buffers r).
  destruct (Z.leb_spec (max_buffers r) (pending_count (cleanup_expired r t))); [lia|].
  cbn [sequence total].
  pose proof (add_fragment_next f m n t [] i (NoDup_nil_2) (not_elem_of_nil i) Hir) as Hadd.
  change (buffer_of f m n t []) with (FragmentBuffer_new n t) in Hadd. unfold frag_of in Hadd |- *.
  cbn [payload header payload_header trace_id routing auth] in Hadd |- *. rewrite Hadd.
  assert (Hnd : NoDup [i]) by (constructor; [apply not_elem_of_nil|constructor]).
  rewrite buffer_complete by done. change (len [i]) with 1.
  destruct (Z.eqb_spec 1 n) as [E|E].
  - rewrite !(decide_True (P := 1 = n)) by done.
    rewrite (reassemble_all f m n) by (done || (constructor; [done|constructor])). cbn [mbind outcome_bind].
    eexists. split_and!; [reflexivity|done|]. cbn. by rewrite lookup_delete_eq.
  - rewrite !(decide_False (P := 1 = n)) by done.
    eexists. split_and!; [reflexivity|done|]. cbn. by rewrite lookup_insert_eq.
Qed.

(** The rest of a stream, in any order. *)
Lemma process_rest rest : ∀ r got times,
  buffers r !! key_of f = Some (buffer_of f m n t0 got) →
  Forall (λ t, u64_saturating_sub t t0 < timeout_ms r) times →
  NoDup (rest ++ got) → Forall (λ i, 0 ≤ i < n) (rest ++ got) →
  len (rest ++ got) = n → rest ≠ [] → length times = length rest →
  ∃ r', process_all r (zip (map (frag_of f m n) rest) times)
        = (r', replicate (length rest - 1) (Ok None) ++ [Ok (Some f)]) ∧
    buffers r' !! key_of f = None.
Proof.
  induction rest as [|i rest IH]; intros r got times Hb Ht Hnd Hr Hl Hne Hlt; [done|].
  destruct times as [|t times]; [done|]. apply Forall_cons in Ht as [Ht0 Ht].
  cbn [app] in Hnd, Hr, Hl. apply NoDup_cons in Hnd as [Hi Hnd]. apply Forall_cons in Hr as [Hir Hr].
  pose proof (proj1 (NoDup_app _ _) Hnd) as (_ & _ & Hnd').
  apply Forall_app in Hr as [Hr1 Hr2].
  destruct (process_next r t got i) as (r1 & Hp & Hto & Hb1); [done|done|done|done|set_solver|done|].
  cbn [map zip zip_with process_all]. unfold zip in *. rewrite Hp. destruct rest as [|j rest].
  - cbn [app] in Hl. rewrite decide_True in Hb1 by done. rewrite decide_True by done.
    cbn. eexists. split; [reflexivity|]. done.
  - assert (Hne' : len (i :: got) ≠ n).
    { rewrite !len_cons, len_app, !len_cons in Hl. rewrite len_cons.
      pose proof (len_nonneg rest). lia. }
    rewrite decide_False in Hb1 by done. rewrite decide_False by done.
    destruct (IH r1 (i :: got) times) as (r2 & Hp2 & Hb2); [done|by rewrite Hto| | | |done| |].
    + rewrite <- Permutation_middle. constructor; [set_solver|done].
    + apply Forall_app. split; [done|by constructor].
    + revert Hl. autorewrite with len. lia.
    + cbn in *. lia.
    + unfold zip in Hp2. rewrite Hp2. eexists. split; [|exact Hb2].
      by replace (length (i :: j :: rest) - 1)%nat with (S (length (j :: rest) - 1)) by (cbn; lia).
Qed.
End Stream.

(** ** What [fragment] returns *)

Lemma fragment_cases mtu f :
  fragment mtu f = Ok [f] ∨
  ∃ m n, 0 < m ∧ m = mtu - (66 + Authentication_wire_size (auth f)) ∧ 1 < n ≤ u16_max ∧
    (n - 1) * m < len (payload f) ≤ n * m ∧
    fragment mtu f = Ok (map (frag_of f m n) (seqZ 0 n)).
Proof.
  unfold fragment, max_payload_per_fragment. cbv zeta.
  set (m := Z.max 0 (mtu - (58 + 4 + 4 + Authentication_wire_size (auth f)))).
  destruct (Z.eqb_spec m 0) as [|Hm0]; [by left|].
  destruct (Z.leb_spec (len (payload f)) m) as [|Hlt]; [by left|]. cbn [orb].
  set (n := (len (payload f) + m - 1) / m). destruct (Z.ltb_spec u16_max n) as [|Hn]; [by left|].
  right. exists m, n. assert (Hm : 0 < m) by lia.
  pose proof (Z.div_mod (len (payload f) + m - 1) m ltac:(lia)) as Hdm.
  pose proof (Z.mod_pos_bound (len (payload f) + m - 1) m Hm) as Hmod.
  fold n in Hdm. assert (Hn1 : 1 < n) by nia. split_and!; try lia; try nia.
  apply fragment_loop_ok; [done|]. apply Forall_forall. intros s Hs%elem_of_seqZ. nia.
Qed.

(** ** Reassembler invariant *)

Definition buffer_ok (b : FragmentBuffer) : Prop :=
  map_Forall (λ s _, 0 ≤ s < buf_total b) (fragments b) ∧
  (Z.of_nat (size (fragments b)) < buf_total b ∨ fragments b = ∅) ∧
  (is_Some (fragments b !! 0) →
     is_Some (buf_header b) ∧ is_Some (buf_payload_header b) ∧ is_Some (buf_auth b)).

Definition reassembler_ok (r : Reassembler) : Prop :=
  map_Forall (λ _ b, buffer_ok b) (buffers r) ∧ pending_count r ≤ max_buffers r.

(** Pigeonhole: as many fragments as numbers means number 0 is there. *)
Lemma full_has_first (fr : gmap Z (list Z)) tot :
  map_Forall (λ s _, 0 ≤ s < tot) fr → Z.of_nat (size fr) = tot → 0 < tot → is_Some (fr !! 0).
Proof.
  intros Hk Hsz Ht. destruct (fr !! 0) eqn:E0; [eauto|]. exfalso.
  assert (Hsub : (map_to_list fr).*1 ⊆+ seqZ 1 (tot - 1)).
  { apply NoDup_submseteq; [apply NoDup_fst_map_to_list|].
    intros s ([s' p] & -> & Hp%elem_of_map_to_list)%list_elem_of_fmap. cbn.
    specialize (Hk s' p Hp). cbn in Hk. apply elem_of_seqZ.
    assert (s' ≠ 0) by congruence. lia. }
  apply submseteq_length in Hsub. rewrite length_fmap, length_seqZ, length_map_to_list in Hsub. lia.
Qed.

Lemma add_fragment_inv b seq tot p h ph tr ro au b' :
  0 ≤ seq → buffer_ok b → add_fragment b seq tot p h ph tr ro au = Ok b' →
  map_Forall (λ s _, 0 ≤ s < buf_total b') (fragments b') ∧ 0 < buf_total b' ∧
  Z.of_nat (size (fragments b')) ≤ buf_total b' ∧
  (is_Some (fragments b' !! 0) →
     is_Some (buf_header b') ∧ is_Some (buf_payload_header b') ∧ is_Some (buf_auth b')).
Proof.
  intros Hs (Hk & Hsz & Hz). unfold add_fragment.
  destruct (Z.eqb_spec tot (buf_total b)) as [->|]; cbn [negb]; [|done].
  destruct (Z.leb_spec (buf_total b) seq); [done|].
  destruct (fragments b !! seq) eqn:El; cbn [is_some]; [done|]. intros [= <-].
  destruct (Z.eqb_spec seq 0) as [->|Hs0]; cbn; split_and!; try lia.
  - by apply map_Forall_insert_2.
  - rewrite map_size_insert_None by done. destruct Hsz as [|Hsz]; [lia|].
    rewrite Hsz, map_size_empty. lia.
  - eauto.
  - by apply map_Forall_insert_2.
  - rewrite map_size_insert_None by done. destruct Hsz as [|Hsz]; [lia|].
    rewrite Hsz, map_size_empty. lia.
  - by rewrite lookup_insert_ne.
Qed.

Lemma cleanup_ok r now : reassembler_ok r → reassembler_ok (cleanup_expired r now).
Proof.
  intros [Hb Hp]. split.
  - intros k b Hk. rewrite cleanup_lookup in Hk. destruct (buffers r !! k) eqn:E; [|done].
    case_decide; [|done]. simplify_eq. by apply (Hb k).
  - unfold pending_count, cleanup_expired in *. cbn in *.
    pose proof (map_subseteq_size _ _ (map_filter_subseteq (λ kv, live r now kv.2) (buffers r))).
    lia.
Qed.

Lemma insert_ok r k b :
  reassembler_ok r → buffer_ok b →
  (is_Some (buffers r !! k) ∨ pending_count r < max_buffers r) →
  reassembler_ok (with_buffers r (<[k := b]> (buffers r))).
Proof.
  intros [Hb Hp] Hok Hsz. split; [by apply map_Forall_insert_2|].
  unfold pending_count in *. cbn [buffers with_buffers max_buffers]. rewrite map_size_insert.
  destruct (buffers r !! k) eqn:E; [unfold id; lia|]. destruct Hsz as [[? [=]]|]; lia.
Qed.

Lemma insert_insert_ok r k b b' :
  reassembler_ok (with_buffers r (<[k := b]> (buffers r))) → buffer_ok b' →
  reassembler_ok (with_buffers (with_buffers r (<[k := b]> (buffers r)))
                    (<[k := b']> (buffers (with_buffers r (<[k := b]> (buffers r)))))).
Proof. intros H Hb. apply insert_ok; [done|done|]. left. cbn. rewrite lookup_insert_eq. eauto. Qed.

Lemma new_buffer_ok tot now : buffer_ok (FragmentBuffer_new tot now).
Proof.
  split_and!; cbn; [apply map_Forall_empty|by right|]. intros [? H]. by rewrite lookup_empty in H.
Qed.

Lemma process_ok r f now :
  reassembler_ok r → option_ok fragment_info_ok (fragment_info f) →
  reassembler_ok (process r f now).1 ∧ (process r f now).2 ≠ Panic.
Proof.
  intros Hr%(cleanup_ok r now) Hf. unfold process. cbv zeta.
  destruct (fragmented (flags (header f))); [|done].
  destruct (fragment_info f) as [info|]; [|done]. cbn [option_ok] in Hf. destruct Hf as [[Hs _] _].
  set (r1 := cleanup_expired r now) in *. set (k := key_of f).
  assert (Hopen : ∀ b, buffer_ok b → (is_Some (buffers r1 !! k) ∨ pending_count r1 < max_buffers r1) →
    let r2 := with_buffers r1 (<[k := b]> (buffers r1)) in
    let out := match add_fragment b (sequence info) (total info) (payload f) (header f)
                       (payload_header f) (trace_id f) (routing f) (auth f) with
          | Err e => (r2, Err e)
          | Panic => (r2, Panic)
          | Ok b' =>
              if is_complete b' then
                (with_buffers r2 (delete k (buffers r2)), g ← reassemble b'; Ok (Some g))
              else (with_buffers r2 (<[k := b']> (buffers r2)), Ok None)
          end in reassembler_ok out.1 ∧ out.2 ≠ Panic).
  { intros b Hb Hsz r2. cbv zeta. pose proof (insert_ok r1 k b Hr Hb Hsz) as Hr2. fold r2 in Hr2.
    destruct (add_fragment _ _ _ _ _ _ _ _ _) as [b'|e|] eqn:Ea; [|done|].
    - destruct (add_fragment_inv _ _ _ _ _ _ _ _ _ _ Hs Hb Ea) as (Hk & Ht & Hle & Hz).
      destruct (is_complete b') eqn:Ec.
      + cbn [fst snd]. split.
        * destruct Hr2 as [Hb2 Hp2]. split; [by apply map_Forall_delete|].
          unfold pending_count in *. subst r2. cbn [buffers with_buffers max_buffers] in *.
          pose proof (map_subseteq_size _ _ (delete_subseteq (<[k := b]> (buffers r1)) k)). lia.
        * unfold is_complete in Ec. apply Z.eqb_eq in Ec.
          destruct Hz as ([? E1] & [? E2] & [? E3]); [by eapply full_has_first|].
          unfold reassemble, is_complete. rewrite Ec, Z.eqb_refl, E1, E2, E3. done.
      + cbn [fst snd]. split; [|done]. apply insert_insert_ok; [done|].
        unfold is_complete in Ec. apply Z.eqb_neq in Ec. split_and!; [done| |done]. left. lia.
    - exfalso. unfold add_fragment in Ea. repeat case_match; done. }
  destruct (buffers r1 !! k) as [b|] eqn:Eb.
  - apply Hopen; [|eauto]. destruct Hr as [Hb _]. by apply (Hb k).
  - destruct (Z.leb_spec (max_buffers r1) (pending_count r1)); [done|].
    apply Hopen; [apply new_buffer_ok|by right].
Qed.

(** ** Properties *)

(** C12: round trip.  A frame is cut without error; its fragments, delivered in
    any order and within the timeout to a reassembler with room for one more
    frame, yield nothing until the last one and then exactly the original frame,
    every header field, trace identifier, route and signature included, and leave
    no buffer behind. *)
Theorem fragment_roundtrip mtu f :
  whole f →
  ∃ frags, fragment mtu f = Ok frags ∧
    ∀ r order t0 times,
      order ≡ₚ frags → length (t0 :: times) = length order →
      buffers (cleanup_expired r t0) !! key_of f = None →
      pending_count (cleanup_expired r t0) < max_buffers r →
      Forall (λ t, u64_saturating_sub t t0 < timeout_ms r) times →
      ∃ r', process_all r (zip order (t0 :: times))
            = (r', replicate (length order - 1) (Ok None) ++ [Ok (Some f)]) ∧
        buffers r' !! key_of f = None.
Proof.
  intros Hw. destruct (fragment_cases mtu f) as [E|(m & n & Hm & _ & Hn & Hl & E)].
  - exists [f]. split; [done|]. intros r order t0 times HP Hlen Hb _ _.
    apply Permutation_singleton_r in HP as ->. destruct times; [|done]. destruct Hw as (Hf & _).
    cbn. unfold process. rewrite Hf. eexists. split; [reflexivity|done].
  - eexists. split; [done|]. intros r order t0 times HP Hlen Hb Hsz Ht.
    apply Permutation_map_inv in HP as (seqs & -> & HP).
    assert (Hnd : NoDup seqs) by (rewrite <- HP; apply NoDup_seqZ).
    assert (Hr : Forall (λ i, 0 ≤ i < n) seqs).
    { rewrite <- HP. apply Forall_forall. intros i Hi%elem_of_seqZ. lia. }
    assert (Hls : len seqs = n).
    { unfold len. rewrite <- HP, length_seqZ. lia. }
    rewrite length_map in *. destruct seqs as [|i seqs]; [done|].
    apply Forall_cons in Hr as [Hi Hr]. apply NoDup_cons in Hnd as [Hni Hnd].
    destruct (process_first f m n Hm ltac:(lia) ltac:(lia) Hw r t0 i) as (r1 & Hp & Hto & Hb1);
      [done|done|done|].
    cbn [map]. change (zip (?x :: ?l) (?t :: ?k)) with ((x, t) :: zip l k).
    cbn [process_all]. rewrite Hp. rewrite decide_False in Hb1 by lia. rewrite decide_False by lia.
    destruct (process_rest f m n t0 Hm ltac:(lia) ltac:(lia) Hw seqs r1 [i] times)
      as (r2 & Hp2 & Hb2); [done|by rewrite Hto| | | | | |].
    + rewrite <- Permutation_cons_append. by constructor.
    + apply Forall_app. split; [done|by constructor].
    + revert Hls. autorewrite with len. lia.
    + intros ->. rewrite len_cons, len_nil in Hls. lia.
    + cbn in Hlen. lia.
    + rewrite Hp2. eexists. split; [|exact Hb2]. destruct seqs as [|j seqs]; [exfalso; revert Hls; autorewrite with len; lia|].
      by replace (length (i :: j :: seqs) - 1)%nat with (S (length (j :: seqs) - 1)) by (cbn; lia).
Qed.

Definition sample_whole : Frame :=
  mkFrame (FrameHeader_new FIntent (replicate 32 7)) None (Some (mkRouting (replicate 32 9) 4)) None
    (mkPayloadHeader PRaw 25 0) (map Z.of_nat (seq 0 25)) AuthNone.

Lemma fragment_roundtrip_witness :
  ∃ r', process_all (Reassembler_new 1 100)
          (match fragment 76 sample_whole with
           | Ok [a; b; c] => [(c, 10); (a, 10); (b, 60)]
           | _ => []
           end) = (r', [Ok None; Ok None; Ok (Some sample_whole)]) ∧
        buffers r' !! key_of sample_whole = None.
Proof.
  destruct (fragment_roundtrip 76 sample_whole) as (frags & E & H).
  - split_and!; reflexivity.
  - rewrite E. pose proof E as E'. vm_compute in E'. injection E' as <-.
    match goal with |- context [process_all _ [(?c, _); (?a, _); (?b, _)]] =>
      apply (H (Reassembler_new 1 100) [c; a; b] 10 [10; 60])
    end.
    + eapply Permutation_trans; [apply Permutation_swap|]. apply perm_skip, Permutation_swap.
    + reflexivity.
    + reflexivity.
    + reflexivity.
    + repeat constructor.
Defined.

(** Fragment sizes.  Every fragment carries at least one and at most the
    computed number of payload bytes.  The MTU computation counts the fixed,
    fragment and payload headers and the authentication but neither the trace
    identifier nor the routing extension: without them every fragment fits the
    MTU; with them every fragment but the last exceeds it by their size. *)
Theorem fragment_sizes mtu f :
  fragment mtu f = Ok [f] ∨
  ∃ n frags, 1 < n ∧ fragment mtu f = Ok frags ∧ len frags = n ∧
    let ext := (if is_some (trace_id f) then TRACE_ID_SIZE else 0)
               + (if is_some (routing f) then ROUTING_EXT_SIZE else 0) in
    ∀ i g, frags !! i = Some g →
      fragment_info g = Some (mkFragInfo (Z.of_nat i) n) ∧ payload g ≠ [] ∧
      wire_size g ≤ mtu + ext ∧ (Z.of_nat i < n - 1 → wire_size g = mtu + ext).
Proof.
  destruct (fragment_cases mtu f) as [E|(m & n & Hm & Hmtu & Hn & Hl & E)]; [by left|right].
  exists n. eexists. split_and!; [lia|exact E| |].
  - unfold len. rewrite length_map, length_seqZ. lia.
  - intros ext i g Hg. apply list_lookup_fmap_Some in Hg as (s & -> & Hs).
    apply lookup_seqZ in Hs as [-> Hi]. rewrite Z.add_0_l.
    assert (Hlen : len (chunk f m (Z.of_nat i)) = Z.min m (len (payload f) - Z.of_nat i * m)).
    { unfold chunk. rewrite len_take, len_drop. nia. }
    assert (Hpos : 0 < len (payload f) - Z.of_nat i * m) by nia.
    assert (Hw : wire_size (frag_of f m n (Z.of_nat i))
      = 66 + ext + len (chunk f m (Z.of_nat i)) + Authentication_wire_size (auth f)).
    { unfold wire_size, frag_of, ext. cbn [trace_id routing fragment_info payload auth is_some].
      destruct (is_some (trace_id f)), (is_some (routing f)); unfold FIXED_HEADER_SIZE; lia. }
    split_and!; [done| | |].
    + cbn [payload frag_of]. intros E0. rewrite E0, len_nil in Hlen. lia.
    + rewrite Hw, Hlen. lia.
    + intros Hlast. rewrite Hw, Hlen, Z.min_l by nia. lia.
Qed.

Lemma fragment_sizes_witness :
  fragment 76 sample_whole = Ok [sample_whole] ∨
  ∃ n frags, 1 < n ∧ fragment 76 sample_whole = Ok frags ∧ len frags = n.
Proof.
  destruct (fragment_sizes 76 sample_whole) as [H|(n & frags & H1 & H2 & H3 & _)]; [left; exact H|].
  right. exists n, frags. split; [exact H1|]. split; [exact H2|exact H3].
Defined.

(** Whatever frames arrive, at whatever times, the reassembler never panics,
    never holds more than its limit of pending frames, and its buffers stay well
    formed: numbers below the announced total, never complete, with the first
    fragment's metadata as soon as that fragment is there. *)
Theorem reassembler_invariant r evs :
  reassembler_ok r → Forall (λ e, option_ok fragment_info_ok (fragment_info e.1)) evs →
  reassembler_ok (process_all r evs).1 ∧ Forall (λ o, o ≠ Panic) (process_all r evs).2 ∧
  pending_count (process_all r evs).1 ≤ max_buffers (process_all r evs).1.
Proof.
  intros Hr Hevs. assert (H : reassembler_ok (process_all r evs).1 ∧
    Forall (λ o, o ≠ Panic) (process_all r evs).2).
  { revert r Hr. induction Hevs as [|[g t] evs Hg _ IH]; intros r Hr; [by split|].
    cbn [process_all]. destruct (process_ok r g t Hr Hg) as [H1 H2].
    destruct (process r g t) as [r1 o]. specialize (IH r1 H1).
    destruct (process_all r1 evs) as [r2 os]. destruct IH. split; [done|by constructor]. }
  destruct H as [H1 H2]. split_and!; [done|done|by destruct H1].
Qed.

Lemma reassembler_invariant_witness :
  pending_count (process_all (Reassembler_new 4 100)
    [(with_fragment_info sample_whole (mkFragInfo 3 2), 5)]).1 ≤ 4.
Proof.
  apply (reassembler_invariant (Reassembler_new 4 100)
           [(with_fragment_info sample_whole (mkFragInfo 3 2), 5)]).
  - split; [apply map_Forall_empty|]. vm_compute. discriminate.
  - repeat constructor; vm_compute; discriminate.
Defined.
