(* ===== verification/Reliability.v ===== *)
(** * Reliable delivery (axiom-transport/src/reliability.rs)

    Acknowledgements, retransmission with exponential backoff, and duplicate
    detection.  The manager's maps are finite maps; its insertion-order queue is a
    list, oldest first.  The socket is outside: a received datagram, a timeout or a
    socket error is an input of one turn of the receive loop, and what is sent is
    a list of datagrams.  Instants are nanoseconds. *)

From stdpp Require Import base numbers list gmap strings.
From S2P Require Import Prelude Types Codec Text Fragment.

(** ** Data *)

(** IP address bytes and port. *)
Definition SocketAddr := (list Z * Z)%type.

Inductive TransportError :=
  | TE_Io (msg : text)
  | TE_ConnectionFailed (msg : text)
  | TE_SendFailed (msg : text)
  | TE_ReceiveFailed (msg : text)
  | TE_Timeout
  | TE_Codec (e : CodecError)
  | TE_AddressParse (msg : text)
  | TE_Reassembly (e : ReassemblyError)
  | TE_FrameTooLarge (size max : Z)
  | TE_NotBound.

Definition RECEIVED_DEDUP_CAPACITY : nat := Z.to_nat 8192.

Record ReliabilityConfig := mkConfig {
  initial_rto_ms : Z;
  max_rto_ms : Z;
  max_retries : Z;
  ack_delay_ms : Z;
  max_pending : Z;
  sack_window : Z
}.
Definition ReliabilityConfig_default : ReliabilityConfig := mkConfig 200 60000 10 20 1000 32.

Record AckPayload := mkAck { ack_trace_id : TraceId; ack_count : Z; sack_bitmap : Z }.
Definition AckPayload_new (t : TraceId) : AckPayload := mkAck t 1 0.
Definition AckPayload_encode (a : AckPayload) : list Z :=
  ack_trace_id a ++ to_be 2 (ack_count a) ++ to_be 4 (sack_bitmap a).
Definition AckPayload_decode (data : list Z) : outcome False (option AckPayload) :=
  if len data <? 14 then Ok None
  else
    t ← slice data 0 8;
    b8 ← index data 8; b9 ← index data 9;
    b10 ← index data 10; b11 ← index data 11; b12 ← index data 12; b13 ← index data 13;
    Ok (Some (mkAck t (from_be [b8; b9]) (from_be [b10; b11; b12; b13]))).

Record NackPayload := mkNack { nack_trace_id : TraceId; missing_seq : Z }.
Definition NackPayload_new (t : TraceId) (s : Z) : NackPayload := mkNack t s.
Definition NackPayload_encode (n : NackPayload) : list Z :=
  nack_trace_id n ++ to_be 2 (missing_seq n).
Definition NackPayload_decode (data : list Z) : outcome False (option NackPayload) :=
  if len data <? 10 then Ok None
  else
    t ← slice data 0 8;
    b8 ← index data 8; b9 ← index data 9;
    Ok (Some (mkNack t (from_be [b8; b9]))).

Record PendingFrame := mkPending {
  pf_data : list Z;
  pf_frame : Frame;
  pf_dest : SocketAddr;
  last_sent : Z;
  attempts : Z;
  rto_ms : Z
}.

Record ReliabilityManager := mkManager {
  config : ReliabilityConfig;
  pending : gmap TraceId PendingFrame;
  rm_node_id : NodeId;
  received : gmap (SocketAddr * TraceId) Z;
  received_order : list (SocketAddr * TraceId);
  received_cleanup_interval : Z;
  last_cleanup : Z
}.

Definition ReliabilityManager_new (now : Z) (c : ReliabilityConfig) (id : NodeId) :
    ReliabilityManager := mkManager c ∅ id ∅ [] (60 * 1000000000) now.

Definition set_pending (r : ReliabilityManager) p : ReliabilityManager :=
  mkManager (config r) p (rm_node_id r) (received r) (received_order r)
    (received_cleanup_interval r) (last_cleanup r).
Definition set_received (r : ReliabilityManager) m o c : ReliabilityManager :=
  mkManager (config r) (pending r) (rm_node_id r) m o (received_cleanup_interval r) c.

Definition pending_len (r : ReliabilityManager) : Z := Z.of_nat (size (pending r)).

(** ** Sending side *)

Definition track_frame (now : Z) (r : ReliabilityManager) (f : Frame) (data : list Z)
    (dest : SocketAddr) : outcome TransportError ReliabilityManager :=
  match trace_id f with
  | None => Err (TE_Io (str "Frame must have trace_id for reliable delivery"))
  | Some t =>
      if max_pending (config r) <=? pending_len r then Err (TE_Io (str "Too many pending frames"))
      else Ok (set_pending r
                 (<[t := mkPending data f dest now 1 (initial_rto_ms (config r))]> (pending r)))
  end.

Definition process_ack (r : ReliabilityManager) (source : SocketAddr) (ack : AckPayload) :
    ReliabilityManager * option unit :=
  match pending r !! ack_trace_id ack with
  | None => (r, None)
  | Some p =>
      if negb (bool_decide (pf_dest p = source)) then (r, None)
      else (set_pending r (delete (ack_trace_id ack) (pending r)), Some tt)
  end.

Definition process_nack (now : Z) (r : ReliabilityManager) (source : SocketAddr)
    (nack : NackPayload) : ReliabilityManager * option PendingFrame :=
  match pending r !! nack_trace_id nack with
  | None => (r, None)
  | Some p =>
      if negb (bool_decide (pf_dest p = source)) then (r, None)
      else if max_retries (config r) <=? attempts p
      then (set_pending r (delete (nack_trace_id nack) (pending r)), None)
      else
        let p' := mkPending (pf_data p) (pf_frame p) (pf_dest p) now (attempts p + 1) (rto_ms p) in
        (set_pending r (<[nack_trace_id nack := p']> (pending r)), Some p')
  end.

(** [now.duration_since(last_sent).as_millis() as u64] *)
Definition elapsed_ms (now : Z) (p : PendingFrame) : Z :=
  (Z.max 0 (now - last_sent p) / 1000000) mod 2 ^ 64.

(** What one turn of the retransmission loop does to an entry: keep it, drop it,
    or send it again. *)
Definition retransmit_entry (c : ReliabilityConfig) (now : Z) (p : PendingFrame) :
    option PendingFrame * option PendingFrame :=
  if rto_ms p <=? elapsed_ms now p then
    if max_retries c <=? attempts p then (None, None)
    else
      let p' := mkPending (pf_data p) (pf_frame p) (pf_dest p) now (attempts p + 1)
                  (Z.min (u64_mul (rto_ms p) 2) (max_rto_ms c)) in
      (Some p', Some p')
  else (Some p, None).

(** The map is visited in an unspecified order; each entry is independent. *)
Definition get_retransmit_frames (now : Z) (r : ReliabilityManager) :
    ReliabilityManager * list PendingFrame :=
  (set_pending r (omap (λ p, (retransmit_entry (config r) now p).1) (pending r)),
   omap (λ kp, (retransmit_entry (config r) now kp.2).2) (map_to_list (pending r))).

(** ** Receiving side *)

Definition create_ack_frame (r : ReliabilityManager) (t : TraceId) : Frame :=
  Frame_new (with_trust_level (FrameHeader_new FAck (rm_node_id r)) Raw) PRaw
    (AckPayload_encode (AckPayload_new t)).

Definition create_nack_frame (r : ReliabilityManager) (t : TraceId) (s : Z) : Frame :=
  Frame_new (with_trust_level (FrameHeader_new FNack (rm_node_id r)) Raw) PRaw
    (NackPayload_encode (NackPayload_new t s)).

Definition cleanup_received (now : Z) (r : ReliabilityManager) : ReliabilityManager :=
  let kept := filter (λ kv, Z.max 0 (now - kv.2) < received_cleanup_interval r) (received r) in
  set_received r kept (filter (λ k, is_Some (kept !! k)) (received_order r)) (last_cleanup r).

(** The periodic clean-up at the start of [is_duplicate]; [now] and [now'] are the
    clock readings of that function and of the clean-up. *)
Definition sweep (now now' : Z) (r : ReliabilityManager) : ReliabilityManager :=
  if received_cleanup_interval r <? Z.max 0 (now - last_cleanup r) then
    let r := cleanup_received now' r in
    set_received r (received r) (received_order r) now
  else r.

Definition is_duplicate (now now' : Z) (r : ReliabilityManager) (source : SocketAddr)
    (t : TraceId) : ReliabilityManager * bool :=
  let r := sweep now now' r in
  let k := (source, t) in
  if is_some (received r !! k) then (r, true)
  else
    let m := <[k := now]> (received r) in
    let o := received_order r ++ [k] in
    if (RECEIVED_DEDUP_CAPACITY <? length o)%nat then
      match o with
      | oldest :: o' => (set_received r (delete oldest m) o' (last_cleanup r), false)
      | [] => (set_received r m o (last_cleanup r), false)
      end
    else (set_received r m o (last_cleanup r), false).

Definition manager_clear (r : ReliabilityManager) : ReliabilityManager :=
  mkManager (config r) ∅ (rm_node_id r) ∅ [] (received_cleanup_interval r) (last_cleanup r).

(** ** The transport *)

Record ReliableTransport := mkTransport {
  bound : bool;
  manager : ReliabilityManager;
  send_buffer : list Z
}.
Definition datagram := (list Z * SocketAddr)%type.

Definition ReliableTransport_new (now : Z) (c : ReliabilityConfig) (id : NodeId) :
    ReliableTransport := mkTransport false (ReliabilityManager_new now c id) (replicate (Z.to_nat 65536) 0).

(** The trace identifier of the frame, or the fresh one. *)
Definition assign_trace_id (fresh : TraceId) (f : Frame) : Frame * TraceId :=
  match trace_id f with
  | Some t => (f, t)
  | None => (Frame_with_trace_id f fresh, fresh)
  end.

(** [fresh] is the random identifier, [sent] the result of [send_to]. *)
Definition send_reliable (now : Z) (fresh : TraceId) (sent : option text) (tr : ReliableTransport)
    (f : Frame) (dest : SocketAddr) :
    ReliableTransport * list datagram * outcome TransportError TraceId :=
  if negb (bound tr) then (tr, [], Err TE_NotBound)
  else
    let '(f, t) := assign_trace_id fresh f in
    match encode f (send_buffer tr) with
    | Panic => (tr, [], Panic)
    | Err e => (tr, [], Err (TE_Codec e))
    | Ok (buf, size) =>
        let data := take (Z.to_nat size) buf in
        match track_frame now (manager tr) f data dest with
        | Panic => (tr, [], Panic)
        | Err e => (mkTransport (bound tr) (manager tr) buf, [], Err e)
        | Ok mgr =>
            let tr := mkTransport (bound tr) mgr buf in
            match sent with
            | None => (tr, [(data, dest)], Ok t)
            | Some e => (tr, [], Err (TE_SendFailed e))
            end
        end
    end.

Definition send_unreliable (sent : option text) (tr : ReliableTransport) (f : Frame)
    (dest : SocketAddr) : ReliableTransport * list datagram * outcome TransportError unit :=
  if negb (bound tr) then (tr, [], Err TE_NotBound)
  else
    match encode f (send_buffer tr) with
    | Panic => (tr, [], Panic)
    | Err e => (tr, [], Err (TE_Codec e))
    | Ok (buf, size) =>
        let tr := mkTransport (bound tr) (manager tr) buf in
        match sent with
        | None => (tr, [(take (Z.to_nat size) buf, dest)], Ok tt)
        | Some e => (tr, [], Err (TE_SendFailed e))
        end
    end.

Inductive recv_result :=
  | RContinue
  | RReturn (f : Frame) (from : SocketAddr)
  | RError (e : TransportError)
  | RPanic.

(** A frame that is neither an acknowledgement nor a negative one. *)
Definition recv_regular (now now' : Z) (tr : ReliableTransport) (f : Frame) (addr : SocketAddr) :
    ReliableTransport * list datagram * recv_result :=
  match trace_id f with
  | None => (tr, [], RReturn f addr)
  | Some t =>
      let '(mgr, dup) := is_duplicate now now' (manager tr) addr t in
      let res := if dup then RContinue else RReturn f addr in
      match encode (create_ack_frame mgr t) (send_buffer tr) with
      | Ok (buf, size) =>
          (mkTransport (bound tr) mgr buf, [(take (Z.to_nat size) buf, addr)], res)
      | Err _ => (mkTransport (bound tr) mgr (send_buffer tr), [], res)
      | Panic => (tr, [], RPanic)
      end
  end.

(** A datagram in the receive loop. *)
Definition recv_datagram (now now' : Z) (tr : ReliableTransport) (data : list Z) (addr : SocketAddr) :
    ReliableTransport * list datagram * recv_result :=
  match decode data with
  | Panic => (tr, [], RPanic)
  | Err e => (tr, [], RError (TE_Codec e))
  | Ok d =>
      let f := to_frame d in
      match frame_type (header f) with
      | FAck =>
          match AckPayload_decode (payload f) with
          | Ok (Some ack) =>
              (mkTransport (bound tr) (process_ack (manager tr) addr ack).1 (send_buffer tr), [],
               RContinue)
          | Ok None => (tr, [], RContinue)
          | _ => (tr, [], RPanic)
          end
      | FNack =>
          match NackPayload_decode (payload f) with
          | Ok (Some nack) =>
              let '(mgr, again) := process_nack now (manager tr) addr nack in
              (mkTransport (bound tr) mgr (send_buffer tr),
               match again with Some p => [(pf_data p, pf_dest p)] | None => [] end, RContinue)
          | Ok None => (tr, [], RContinue)
          | _ => (tr, [], RPanic)
          end
      | _ => recv_regular now now' tr f addr
      end
  end.

Inductive socket_event :=
  | SDatagram (data : list Z) (addr : SocketAddr)
  | SFailed (msg : text)
  | STimeout.

(** One turn of the receive loop: retransmissions, then what the socket did. *)
Definition recv_turn (now now' : Z) (tr : ReliableTransport) (ev : socket_event) :
    ReliableTransport * list datagram * recv_result :=
  if negb (bound tr) then (tr, [], RError TE_NotBound)
  else
    let '(mgr, again) := get_retransmit_frames now (manager tr) in
    let sends := map (λ p, (pf_data p, pf_dest p)) again in
    let tr := mkTransport (bound tr) mgr (send_buffer tr) in
    match ev with
    | SDatagram data addr =>
        let '(tr, out, res) := recv_datagram now now' tr data addr in (tr, sends ++ out, res)
    | SFailed msg => (tr, sends, RError (TE_ReceiveFailed msg))
    | STimeout => (tr, sends, RContinue)
    end.

(** The receive loop over a sequence of turns.  [None]: the caller gave up waiting
    (the future is dropped at its socket read). *)
Fixpoint recv (tr : ReliableTransport) (turns : list (Z * Z * socket_event)) :
    ReliableTransport * list datagram * option recv_result :=
  match turns with
  | [] => (tr, [], None)
  | (now, now', ev) :: turns =>
      let '(tr, out, res) := recv_turn now now' tr ev in
      match res with
      | RContinue => let '(tr, out', res) := recv tr turns in (tr, out ++ out', res)
      | _ => (tr, out, Some res)
      end
  end.

(** [flush]: a round is the elapsed time at the test and what [recv] sees in the
    hundred milliseconds it is given.  [None]: still running. *)
Fixpoint flush (timeout_ms : Z) (tr : ReliableTransport)
    (rounds : list (Z * list (Z * Z * socket_event))) :
    ReliableTransport * list datagram * option (outcome TransportError unit) :=
  if negb (0 <? pending_len (manager tr)) then (tr, [], Some (Ok tt))
  else
    match rounds with
    | [] => (tr, [], None)
    | (elapsed, turns) :: rounds =>
        if timeout_ms * 1000000 <? elapsed then (tr, [], Some (Err TE_Timeout))
        else
          let '(tr, out, res) := recv tr turns in
          match res with
          | Some RPanic => (tr, out, Some Panic)
          | _ => let '(tr, out', res) := flush timeout_ms tr rounds in (tr, out ++ out', res)
          end
    end.

(** ** Payload lemmas *)

(** A fixed-width list of bytes, taken apart. *)
Ltac array_cells H := destruct H as [H _];
  repeat match type of H with
  | length ?t = S _ => destruct t as [|? t]; [done|]; injection H as H
  | length ?t = O => apply nil_length_inv in H; subst t
  end.

Lemma slice_prefix {E A} (t r : list A) b : b = len t → slice (E:=E) (t ++ r) 0 b = Ok t.
Proof. intros ->. by apply (slice_app []). Qed.

Lemma AckPayload_decode_encode a rest :
  array_ok 8 (ack_trace_id a) → 0 ≤ ack_count a < 2 ^ 16 → 0 ≤ sack_bitmap a < 2 ^ 32 →
  AckPayload_decode (AckPayload_encode a ++ rest) = Ok (Some a).
Proof.
  destruct a as [t c s]. cbn [ack_trace_id ack_count sack_bitmap]. intros Ht Hc Hs.
  apply (from_be_to_be 2) in Hc. apply (from_be_to_be 4) in Hs.
  unfold AckPayload_decode, AckPayload_encode. cbn [ack_trace_id ack_count sack_bitmap].
  cbn [to_be] in Hc, Hs |- *.
  pose proof (len_nonneg rest). rewrite <- !app_assoc. case_ltb. rewrite slice_prefix by solve_len.
  rewrite bind_Ok. array_cells Ht. cbn [app].
  do 6 (erewrite index_Ok by (done || lia)). cbn [mbind outcome_bind].
  by rewrite Hc, Hs.
Qed.

Lemma NackPayload_decode_encode n rest :
  array_ok 8 (nack_trace_id n) → 0 ≤ missing_seq n < 2 ^ 16 →
  NackPayload_decode (NackPayload_encode n ++ rest) = Ok (Some n).
Proof.
  destruct n as [t c]. cbn [nack_trace_id missing_seq]. intros Ht Hc.
  apply (from_be_to_be 2) in Hc.
  unfold NackPayload_decode, NackPayload_encode. cbn [nack_trace_id missing_seq].
  cbn [to_be] in Hc |- *.
  pose proof (len_nonneg rest). rewrite <- !app_assoc. case_ltb. rewrite slice_prefix by solve_len.
  rewrite bind_Ok. array_cells Ht. cbn [app].
  do 2 (erewrite index_Ok by (done || lia)). cbn [mbind outcome_bind].
  by rewrite Hc.
Qed.

(** ** The manager invariant *)

(** An entry of the pending map: the frame tracked under its own identifier, the
    bytes of that frame, and the bounds on transmissions and on the timeout. *)
Record entry_ok (c : ReliabilityConfig) (t : TraceId) (p : PendingFrame) : Prop := {
  eo_trace : trace_id (pf_frame p) = Some t;
  eo_data : writable (pf_frame p) → pf_data p = wire (pf_frame p);
  eo_attempts : 1 ≤ attempts p ≤ Z.max 1 (max_retries c);
  eo_rto : 0 ≤ rto_ms p ≤ Z.max (initial_rto_ms c) (max_rto_ms c)
}.

Record config_ok (c : ReliabilityConfig) : Prop := {
  co_initial : 0 ≤ initial_rto_ms c;
  co_max : 0 ≤ max_rto_ms c;
  co_pending : 0 ≤ max_pending c
}.

Record manager_ok (r : ReliabilityManager) : Prop := {
  mo_config : config_ok (config r);
  mo_size : pending_len r ≤ max_pending (config r);
  mo_entries : map_Forall (entry_ok (config r)) (pending r);
  mo_nodup : NoDup (received_order r);
  mo_order k : k ∈ received_order r ↔ is_Some (received r !! k);
  mo_capacity : (length (received_order r) <= RECEIVED_DEDUP_CAPACITY)%nat
}.

Lemma ReliabilityManager_new_ok now c id : config_ok c → manager_ok (ReliabilityManager_new now c id).
Proof.
  intros Hc. split; cbn; [done| |apply map_Forall_empty|constructor| |unfold RECEIVED_DEDUP_CAPACITY; lia].
  - unfold pending_len. cbn. rewrite map_size_empty. apply Hc.
  - intros k. rewrite lookup_empty, elem_of_nil, is_Some_alt. done.
Qed.

(** Changing only the pending map, or only the received map. *)
Lemma set_pending_ok r m :
  manager_ok r → Z.of_nat (size m) ≤ max_pending (config r) →
  map_Forall (entry_ok (config r)) m → manager_ok (set_pending r m).
Proof. intros []. by split. Qed.

Lemma set_received_ok r m o c :
  manager_ok r → NoDup o → (∀ k, k ∈ o ↔ is_Some (m !! k)) →
  (length o <= RECEIVED_DEDUP_CAPACITY)%nat → manager_ok (set_received r m o c).
Proof. intros []. by split. Qed.

Lemma delete_pending_ok r t : manager_ok r → manager_ok (set_pending r (delete t (pending r))).
Proof.
  intros H. pose proof (mo_size r H). unfold pending_len in *. apply set_pending_ok; [done| |].
  - pose proof (size_delete_le (pending r) t). lia.
  - apply map_Forall_delete, H.
Qed.

Lemma track_frame_ok now r f data dest r' :
  manager_ok r → (writable f → data = wire f) →
  track_frame now r f data dest = Ok r' → manager_ok r'.
Proof.
  intros H Hd. unfold track_frame. destruct (trace_id f) as [t|] eqn:Ht; [|done].
  destruct (Z.leb_spec (max_pending (config r)) (pending_len r)) as [|Hs]; [done|]. intros [= <-].
  pose proof (mo_config r H) as [Hi Hm _]. apply set_pending_ok; [done| |].
  - unfold pending_len in Hs. destruct (pending r !! t) eqn:E.
    + rewrite map_size_insert_Some by eauto. lia.
    + rewrite map_size_insert_None by done. lia.
  - apply map_Forall_insert_2; [|apply H]. split; cbn; [done|done|lia|lia].
Qed.

Lemma process_ack_ok r src a : manager_ok r → manager_ok (process_ack r src a).1.
Proof.
  intros H. unfold process_ack. destruct (pending r !! _); [|done].
  destruct (negb _); [done|]. by apply delete_pending_ok.
Qed.

Lemma process_nack_ok now r src n : manager_ok r → manager_ok (process_nack now r src n).1.
Proof.
  intros H. unfold process_nack. destruct (pending r !! _) as [p|] eqn:E; [|done].
  destruct (negb _); [done|].
  destruct (Z.leb_spec (max_retries (config r)) (attempts p)); [by apply delete_pending_ok|].
  pose proof (mo_size r H). unfold pending_len in *.
  pose proof (mo_entries r H _ _ E) as [He1 He2 He3 He4]. apply set_pending_ok; [done| |].
  - rewrite map_size_insert_Some by eauto. lia.
  - apply map_Forall_insert_2; [|apply H]. split; cbn; [done|done|lia|done].
Qed.

Lemma retransmit_entry_ok c now t p p' :
  config_ok c → entry_ok c t p → (retransmit_entry c now p).1 = Some p' → entry_ok c t p'.
Proof.
  intros [Hi Hm _] [H1 H2 H3 H4]. unfold retransmit_entry.
  destruct (_ <=? elapsed_ms now p); [|by intros [= <-]; split].
  destruct (Z.leb_spec (max_retries c) (attempts p)); [done|]. intros [= <-].
  split; cbn; [done|done|lia|]. pose proof (Z.mod_pos_bound (rto_ms p * 2) (2 ^ 64)).
  unfold u64_mul. lia.
Qed.

Lemma omap_size_le {V W} (f : V → option W) (m : gmap TraceId V) :
  (size (omap f m : gmap TraceId W) <= size m)%nat.
Proof. rewrite <- !size_dom. apply subseteq_size, dom_omap_subseteq. Qed.

Lemma get_retransmit_frames_ok now r : manager_ok r → manager_ok (get_retransmit_frames now r).1.
Proof.
  intros H. pose proof (mo_size r H). unfold pending_len in *. apply set_pending_ok; [done| |].
  - pose proof (omap_size_le (λ p, (retransmit_entry (config r) now p).1) (pending r)). lia.
  - intros t p' Hp'. rewrite lookup_omap in Hp'.
    apply bind_Some in Hp' as (p & Hp & Hp').
    eapply retransmit_entry_ok; [apply H|by eapply (mo_entries r H)|done].
Qed.

(** *** Duplicate detection *)

Lemma filter_lookup_kept {K V} `{Countable K} (P : K * V → Prop) `{∀ x, Decision (P x)}
    (m : gmap K V) k : is_Some (filter P m !! k) ↔ ∃ v, m !! k = Some v ∧ P (k, v).
Proof.
  split.
  - intros [v Hv]. apply map_lookup_filter_Some in Hv. eauto.
  - intros (v & Hv). exists v. by apply map_lookup_filter_Some.
Qed.

Lemma cleanup_received_ok now r : manager_ok r → manager_ok (cleanup_received now r).
Proof.
  intros H. apply set_received_ok; [done| | |].
  - apply NoDup_filter, H.
  - intros k. rewrite list_elem_of_filter, (mo_order r H). rewrite filter_lookup_kept. naive_solver.
  - etrans; [apply length_filter|apply H].
Qed.

Lemma sweep_ok now now' r : manager_ok r → manager_ok (sweep now now' r).
Proof.
  intros H. unfold sweep. destruct (_ <? _); [|done].
  apply (cleanup_received_ok now') in H. by apply set_received_ok; try apply H.
Qed.

(** What a call does after the sweep: answer from the map, or record the key and
    forget the oldest one when there are too many. *)
Lemma is_duplicate_cases now now' r s t :
  manager_ok r →
  let r1 := sweep now now' r in
  (is_Some (received r1 !! (s, t)) ∧ is_duplicate now now' r s t = (r1, true)) ∨
  (received r1 !! (s, t) = None ∧ ((s, t) ∉ received_order r1) ∧
   ((is_duplicate now now' r s t
     = (set_received r1 (<[(s, t) := now]> (received r1)) (received_order r1 ++ [(s, t)])
          (last_cleanup r1), false)
     ∧ (length (received_order r1) < RECEIVED_DEDUP_CAPACITY)%nat)
    ∨ ∃ k o, received_order r1 = k :: o ∧
      length (received_order r1) = RECEIVED_DEDUP_CAPACITY ∧
      is_duplicate now now' r s t
      = (set_received r1 (delete k (<[(s, t) := now]> (received r1))) (o ++ [(s, t)])
           (last_cleanup r1), false))).
Proof.
  intros H r1. pose proof (sweep_ok now now' r H) as H1. fold r1 in H1.
  unfold is_duplicate. fold r1. pose proof (mo_order r1 H1 (s, t)) as Ho.
  pose proof (mo_capacity r1 H1).
  destruct (received r1 !! (s, t)) eqn:E; [left; split; [eauto|done]|right].
  split_and!; [done|rewrite Ho; by intros []|]. cbn [is_some].
  rewrite length_app. cbn [length].
  destruct (Nat.ltb_spec RECEIVED_DEDUP_CAPACITY (length (received_order r1) + 1)).
  - right. destruct (received_order r1) as [|k o] eqn:Eo; [cbn in *; unfold RECEIVED_DEDUP_CAPACITY in *; lia|].
    exists k, o. split_and!; [done|lia|done].
  - left. split; [done|lia].
Qed.

Lemma is_duplicate_ok now now' r s t : manager_ok r → manager_ok (is_duplicate now now' r s t).1.
Proof.
  intros H. pose proof (sweep_ok now now' r H) as H1.
  destruct (is_duplicate_cases now now' r s t H) as [[_ ->]|(Hn & Hno & Hc)]; [done|].
  destruct H1 as [? ? ? Hnd Hord Hcap].
  destruct Hc as [[-> Hl]|(k & o & Eo & Hl & ->)]; apply set_received_ok; try by split.
  - apply NoDup_app. split_and!; [done| |apply NoDup_singleton].
    intros x Hx ->%list_elem_of_singleton. done.
  - intros x. rewrite elem_of_app, list_elem_of_singleton, Hord, lookup_insert_is_Some'. naive_solver.
  - rewrite length_app. cbn. lia.
  - rewrite Eo in *. apply NoDup_cons in Hnd as [? Hnd]. apply not_elem_of_cons in Hno as [? Hno].
    apply NoDup_app. split_and!; [done| |apply NoDup_singleton].
    intros x Hx ->%list_elem_of_singleton. done.
  - intros x. rewrite Eo in *. apply NoDup_cons in Hnd as [? Hnd].
    apply not_elem_of_cons in Hno as [? Hno].
    specialize (Hord x). rewrite elem_of_cons in Hord.
    rewrite elem_of_app, list_elem_of_singleton, lookup_delete_is_Some, lookup_insert_is_Some'.
    naive_solver.
  - rewrite Eo in Hl. cbn in Hl. rewrite length_app. cbn. lia.
Qed.

(** One call of [is_duplicate] after another. *)
Definition seen_call := (Z * Z * SocketAddr * TraceId)%type.
Fixpoint seen_run (r : ReliabilityManager) (calls : list seen_call) : ReliabilityManager :=
  match calls with
  | [] => r
  | (now, now', s, t) :: calls => seen_run (is_duplicate now now' r s t).1 calls
  end.

(** The key was recorded at [t0] and at most [n] keys were recorded since. *)
Definition seen_within (n : nat) (t0 : Z) (k : SocketAddr * TraceId) (r : ReliabilityManager) :=
  received r !! k = Some t0 ∧
  ∃ older newer, received_order r = older ++ k :: newer ∧ (length newer <= n)%nat.

Lemma sweep_keeps n t0 k now now' r :
  manager_ok r → seen_within n t0 k r →
  Z.max 0 (now' - t0) < received_cleanup_interval r → seen_within n t0 k (sweep now now' r).
Proof.
  intros H [Hk (older & newer & Ho & Hn)] Ht. unfold sweep. destruct (_ <? _); [|by split; eauto].
  unfold cleanup_received, set_received. cbn [received received_order].
  assert (Hf : filter (λ kv, Z.max 0 (now' - kv.2) < received_cleanup_interval r) (received r) !! k
               = Some t0) by (by apply map_lookup_filter_Some).
  split; [done|]. cbn [received_order]. rewrite Ho, filter_app, filter_cons_True by (cbn beta; rewrite Hf; eauto).
  do 2 eexists. split; [done|]. etrans; [apply length_filter|done].
Qed.

Lemma sweep_interval now now' r :
  received_cleanup_interval (sweep now now' r) = received_cleanup_interval r.
Proof. unfold sweep. by destruct (_ <? _). Qed.

Lemma is_duplicate_interval now now' r s t :
  received_cleanup_interval (is_duplicate now now' r s t).1 = received_cleanup_interval r.
Proof.
  rewrite <- (sweep_interval now now' r). unfold is_duplicate. destruct (is_some _); [done|].
  destruct (_ <? _)%nat; [|done]. by destruct (_ ++ _).
Qed.

(** A recorded key survives a call as long as fewer than the capacity were recorded
    after it. *)
Lemma is_duplicate_keeps n t0 k now now' r s t :
  manager_ok r → seen_within n t0 k r → (S n < RECEIVED_DEDUP_CAPACITY)%nat →
  Z.max 0 (now' - t0) < received_cleanup_interval r →
  seen_within (S n) t0 k (is_duplicate now now' r s t).1.
Proof.
  intros H Hk Hn Ht. pose proof (sweep_keeps n t0 k now now' r H Hk Ht) as [Hk1 (older & newer & Ho & Hl)].
  pose proof (sweep_ok now now' r H) as H1.
  destruct (is_duplicate_cases now now' r s t H) as [[_ ->]|(Hnone & _ & Hc)].
  { split; [done|]. exists older, newer. split; [done|lia]. }
  assert (Hne : (s, t) ≠ k) by congruence.
  destruct Hc as [[-> _]|(k0 & o & Eo & Hfull & ->)]; (split; [|cbn [received_order set_received fst]]).
  - cbn. by rewrite lookup_insert_ne.
  - exists older, (newer ++ [(s, t)]). rewrite Ho, length_app. cbn. split; [by simplify_list_eq|lia].
  - assert (k0 ≠ k) as Hk0.
    { intros ->. rewrite Ho in Eo. destruct older as [|x older]; simplify_list_eq.
      - rewrite Ho in Hfull. cbn in Hfull. lia.
      - pose proof (mo_nodup _ H1) as Hnd. rewrite Ho in Hnd.
        cbn in Hnd. apply NoDup_cons in Hnd as [Hnd _]. set_solver. }
    cbn. rewrite lookup_delete_ne by done. by rewrite lookup_insert_ne.
  - rewrite Ho in Eo. destruct older as [|x older]; simplify_list_eq.
    + rewrite Ho in Hfull. cbn in Hfull. lia.
    + exists older, (newer ++ [(s, t)]). rewrite length_app. cbn. split; [by simplify_list_eq|lia].
Qed.

Lemma seen_run_keeps calls n t0 k r :
  manager_ok r → seen_within n t0 k r → (n + length calls < RECEIVED_DEDUP_CAPACITY)%nat →
  Forall (λ c : seen_call, Z.max 0 (c.1.1.2 - t0) < received_cleanup_interval r) calls →
  seen_within (n + length calls) t0 k (seen_run r calls) ∧ manager_ok (seen_run r calls) ∧
  received_cleanup_interval (seen_run r calls) = received_cleanup_interval r.
Proof.
  revert n r. induction calls as [|[[[now now'] s] t] calls IH]; intros n r H Hk Hn Hc; cbn [seen_run length] in *.
  - rewrite Nat.add_0_r. done.
  - apply Forall_cons in Hc as [Ht Hc]. cbn in Ht.
    pose proof (is_duplicate_interval now now' r s t) as Hi. rewrite <- Hi in Hc.
    destruct (IH (S n) (is_duplicate now now' r s t).1) as (H1 & H2 & H3); [by apply is_duplicate_ok| |lia|done|].
    { apply is_duplicate_keeps; [done|done|lia|done]. }
    rewrite Nat.add_succ_r. by rewrite <- Hi.
Qed.

(** A fresh answer records the key as the newest one. *)
Lemma is_duplicate_records now now' r s t :
  manager_ok r → (is_duplicate now now' r s t).2 = false →
  seen_within 0 now (s, t) (is_duplicate now now' r s t).1.
Proof.
  intros H. destruct (is_duplicate_cases now now' r s t H) as [[_ ->]|(Hnone & Hno & Hc)]; [done|].
  intros _. destruct Hc as [[-> _]|(k0 & o & Eo & _ & ->)]; cbn.
  - split; [cbn; by rewrite lookup_insert_eq|]. by exists (received_order (sweep now now' r)), [].
  - split; [|by exists o, []]. cbn. rewrite Eo in Hno. apply not_elem_of_cons in Hno as [Hne _].
    rewrite lookup_delete_ne by done. by rewrite lookup_insert_eq.
Qed.

(** Only a key that was passed to a call is ever reported. *)
Lemma is_duplicate_no_invention now now' r s t k :
  manager_ok r → received r !! k = None → (s, t) ≠ k →
  received (is_duplicate now now' r s t).1 !! k = None.
Proof.
  intros H Hk Hne.
  assert (Hs : received (sweep now now' r) !! k = None).
  { unfold sweep. destruct (_ <? _); [|done]. cbn. apply map_lookup_filter_None. by left. }
  destruct (is_duplicate_cases now now' r s t H) as [[_ ->]|(_ & _ & [[-> _]|(k0 & o & _ & _ & ->)])]; cbn.
  - done.
  - by rewrite lookup_insert_ne.
  - apply lookup_delete_None. right. by rewrite lookup_insert_ne.
Qed.

Lemma seen_run_no_invention calls r k :
  manager_ok r → received r !! k = None → Forall (λ c : seen_call, (c.1.2, c.2) ≠ k) calls →
  received (seen_run r calls) !! k = None ∧ manager_ok (seen_run r calls).
Proof.
  revert r. induction calls as [|[[[now now'] s] t] calls IH]; intros r H Hk Hc; [done|].
  apply Forall_cons in Hc as [Hne Hc]. apply IH; [by apply is_duplicate_ok| |done].
  by apply is_duplicate_no_invention.
Qed.

(** ** Steps of the transport *)

(** What a program can do with a transport, and what each step puts on the wire. *)
Inductive transport_step : ReliableTransport → list datagram → ReliableTransport → Prop :=
  | TS_bind tr : transport_step tr [] (mkTransport true (manager tr) (send_buffer tr))
  | TS_send_reliable now fresh sent tr f dest :
      transport_step tr (send_reliable now fresh sent tr f dest).1.2
        (send_reliable now fresh sent tr f dest).1.1
  | TS_send_unreliable sent tr f dest :
      transport_step tr (send_unreliable sent tr f dest).1.2 (send_unreliable sent tr f dest).1.1
  | TS_recv tr turns : transport_step tr (recv tr turns).1.2 (recv tr turns).1.1
  | TS_flush ms tr rounds : transport_step tr (flush ms tr rounds).1.2 (flush ms tr rounds).1.1
  | TS_clear tr :
      transport_step tr [] (mkTransport (bound tr) (manager_clear (manager tr)) (send_buffer tr)).

Lemma encode_Ok_wire f buf out n :
  writable f → encode f buf = Ok (out, n) → take (Z.to_nat n) out = wire f.
Proof.
  intros Hw E. destruct (Z.ltb_spec (len buf) (wire_size f)) as [Hs|Hs].
  - unfold encode in E. revert E. case_ltb. done.
  - rewrite encode_writes_wire in E by done.
    assert (out = wire f ++ drop (length (wire f)) buf ∧ n = wire_size f) as [-> ->] by (split; congruence).
    apply take_app_exact.
    rewrite len_wire by done. pose proof (len_wire f Hw). pose proof (len_nonneg (wire f)). lia.
Qed.

Lemma send_reliable_ok now fresh sent tr f dest :
  manager_ok (manager tr) → manager_ok (manager (send_reliable now fresh sent tr f dest).1.1).
Proof.
  intros H. unfold send_reliable. destruct (negb _); [done|].
  destruct (assign_trace_id fresh f) as [g t].
  destruct (encode g (send_buffer tr)) as [[out n]|e|] eqn:E; [|done..].
  destruct (track_frame now (manager tr) g _ dest) as [m|e|] eqn:Em; [|done..].
  assert (manager_ok m) by (eapply track_frame_ok; [exact H| |exact Em];
                            intros Hw; by eapply encode_Ok_wire).
  by destruct sent.
Qed.

Lemma send_unreliable_manager sent tr f dest :
  manager (send_unreliable sent tr f dest).1.1 = manager tr.
Proof.
  unfold send_unreliable. destruct (negb _); [done|].
  destruct (encode f (send_buffer tr)) as [[out n]|e|]; [by destruct sent|done..].
Qed.

Lemma recv_regular_ok now now' tr f addr :
  manager_ok (manager tr) → manager_ok (manager (recv_regular now now' tr f addr).1.1).
Proof.
  intros H. unfold recv_regular. destruct (trace_id f) as [t|]; [|done].
  pose proof (is_duplicate_ok now now' (manager tr) addr t H).
  destruct (is_duplicate _ _ _ _ _) as [mgr dup]. cbn zeta. by destruct (encode _ _) as [[]| |].
Qed.

Lemma recv_datagram_ok now now' tr data addr :
  manager_ok (manager tr) → manager_ok (manager (recv_datagram now now' tr data addr).1.1).
Proof.
  intros H. unfold recv_datagram. destruct (decode data) as [d|e|]; [|done..].
  pose proof (recv_regular_ok now now' tr (to_frame d) addr H).
  destruct (frame_type (header (to_frame d))); try done.
  - destruct (AckPayload_decode _) as [[a|]| |]; [by apply process_ack_ok|done..].
  - destruct (NackPayload_decode _) as [[a|]| |]; [|done..].
    pose proof (process_nack_ok now (manager tr) addr a H). by destruct (process_nack _ _ _ _).
Qed.

Lemma recv_turn_ok now now' tr ev :
  manager_ok (manager tr) → manager_ok (manager (recv_turn now now' tr ev).1.1).
Proof.
  intros H. unfold recv_turn. destruct (negb _); [done|].
  pose proof (get_retransmit_frames_ok now (manager tr) H) as H1.
  destruct (get_retransmit_frames now (manager tr)) as [mgr again]. cbn zeta.
  destruct ev as [data addr|msg|]; [|done..].
  pose proof (recv_datagram_ok now now' (mkTransport (bound tr) mgr (send_buffer tr)) data addr H1).
  by destruct (recv_datagram _ _ _ _ _) as [[? ?] ?].
Qed.

Lemma recv_ok turns tr : manager_ok (manager tr) → manager_ok (manager (recv tr turns).1.1).
Proof.
  revert tr. induction turns as [|[[now now'] ev] turns IH]; intros tr H; [done|]. cbn [recv].
  pose proof (recv_turn_ok now now' tr ev H) as H1.
  destruct (recv_turn now now' tr ev) as [[tr1 out] res]. specialize (IH tr1 H1).
  destruct res; [|done..]. by destruct (recv tr1 turns) as [[? ?] ?].
Qed.

Lemma flush_ok ms rounds tr : manager_ok (manager tr) → manager_ok (manager (flush ms tr rounds).1.1).
Proof.
  revert tr. induction rounds as [|[el turns] rounds IH]; intros tr H; cbn [flush];
    (destruct (negb _); [done|]); [done|].
  destruct (_ <? el); [done|]. pose proof (recv_ok turns tr H) as H1.
  destruct (recv tr turns) as [[tr1 out] res]. specialize (IH tr1 H1).
  destruct (flush ms tr1 rounds) as [[? ?] ?]. by destruct res as [[]|].
Qed.

Lemma manager_clear_ok r : manager_ok r → manager_ok (manager_clear r).
Proof.
  intros H. split; cbn; [apply H| |apply map_Forall_empty|constructor| |unfold RECEIVED_DEDUP_CAPACITY; lia].
  - unfold pending_len. cbn. rewrite map_size_empty. apply (mo_config r H).
  - intros k. rewrite lookup_empty, elem_of_nil, is_Some_alt. done.
Qed.

(** The configuration never changes. *)
Lemma is_duplicate_fixed now now' r s t :
  config (is_duplicate now now' r s t).1 = config r ∧
  rm_node_id (is_duplicate now now' r s t).1 = rm_node_id r.
Proof.
  unfold is_duplicate, sweep.
  destruct (_ <? Z.max _ _); (destruct (is_some _); [done|]); (destruct (_ <? _)%nat; [|done]);
    by destruct (_ ++ _).
Qed.

Lemma process_nack_config now r src n : config (process_nack now r src n).1 = config r.
Proof.
  unfold process_nack. destruct (pending r !! _); [|done]. destruct (negb _); [done|].
  by destruct (_ <=? _).
Qed.

Lemma process_ack_config r src a : config (process_ack r src a).1 = config r.
Proof. unfold process_ack. destruct (pending r !! _); [|done]. by destruct (negb _). Qed.

Lemma recv_regular_config now now' tr f addr :
  config (manager (recv_regular now now' tr f addr).1.1) = config (manager tr).
Proof.
  unfold recv_regular. destruct (trace_id f) as [t|]; [|done].
  destruct (is_duplicate_fixed now now' (manager tr) addr t) as [H _].
  destruct (is_duplicate _ _ _ _ _) as [mgr dup]. cbn zeta. by destruct (encode _ _) as [[]| |].
Qed.

Lemma recv_datagram_config now now' tr data addr :
  config (manager (recv_datagram now now' tr data addr).1.1) = config (manager tr).
Proof.
  unfold recv_datagram. destruct (decode data) as [d|e|]; [|done..].
  pose proof (recv_regular_config now now' tr (to_frame d) addr).
  destruct (frame_type (header (to_frame d))); try done.
  - destruct (AckPayload_decode _) as [[a|]| |]; [by apply process_ack_config|done..].
  - destruct (NackPayload_decode _) as [[a|]| |]; [|done..].
    pose proof (process_nack_config now (manager tr) addr a). by destruct (process_nack _ _ _ _).
Qed.

Lemma recv_turn_config now now' tr ev :
  config (manager (recv_turn now now' tr ev).1.1) = config (manager tr).
Proof.
  unfold recv_turn. destruct (negb _); [done|].
  destruct (get_retransmit_frames now (manager tr)) as [mgr again] eqn:E.
  assert (config mgr = config (manager tr)) as Hc by (by injection E as <- <-).
  destruct ev as [data addr|msg|]; [|done..]. cbn zeta.
  pose proof (recv_datagram_config now now' (mkTransport (bound tr) mgr (send_buffer tr)) data addr) as H.
  destruct (recv_datagram _ _ _ _ _) as [[? ?] ?]. cbn in *. congruence.
Qed.

Lemma recv_config turns tr : config (manager (recv tr turns).1.1) = config (manager tr).
Proof.
  revert tr. induction turns as [|[[now now'] ev] turns IH]; intros tr; [done|]. cbn [recv].
  pose proof (recv_turn_config now now' tr ev) as H1.
  destruct (recv_turn now now' tr ev) as [[tr1 out] res]. specialize (IH tr1).
  destruct (recv tr1 turns) as [[? ?] ?]. destruct res; cbn in *; congruence.
Qed.

Lemma flush_config ms rounds tr : config (manager (flush ms tr rounds).1.1) = config (manager tr).
Proof.
  revert tr. induction rounds as [|[el turns] rounds IH]; intros tr; cbn [flush];
    (destruct (negb _); [done|]); [done|].
  destruct (_ <? el); [done|]. pose proof (recv_config turns tr) as H1.
  destruct (recv tr turns) as [[tr1 out] res]. specialize (IH tr1).
  destruct (flush ms tr1 rounds) as [[? ?] ?]. destruct res as [[]|]; cbn in *; congruence.
Qed.

Lemma send_reliable_config now fresh sent tr f dest :
  config (manager (send_reliable now fresh sent tr f dest).1.1) = config (manager tr).
Proof.
  unfold send_reliable, track_frame. repeat (case_match; simplify_eq/=; try done).
Qed.

Lemma transport_step_ok tr out tr' :
  transport_step tr out tr' → manager_ok (manager tr) →
  manager_ok (manager tr') ∧ config (manager tr') = config (manager tr).
Proof.
  destruct 1; intros H; (split; [|try done]).
  - done.
  - by apply send_reliable_ok.
  - apply send_reliable_config.
  - by rewrite send_unreliable_manager.
  - by rewrite send_unreliable_manager.
  - by apply recv_ok.
  - apply recv_config.
  - by apply flush_ok.
  - apply flush_config.
  - by apply manager_clear_ok.
Qed.

(** ** A silent network *)

Definition timeouts (times : list Z) : list (Z * Z * socket_event) :=
  map (λ t, (t, t, STimeout)) times.

(** Clock readings at least [gap] milliseconds apart (and less than the age of
    the universe, where the millisecond count would wrap). *)
Fixpoint spaced (gap last : Z) (times : list Z) : Prop :=
  match times with
  | [] => True
  | t :: ts => gap * 1000000 ≤ t - last < 2 ^ 64 * 1000000 ∧ spaced gap t ts
  end.

Lemma elapsed_spaced gap now p :
  0 ≤ gap → gap * 1000000 ≤ now - last_sent p < 2 ^ 64 * 1000000 → gap ≤ elapsed_ms now p.
Proof.
  intros Hg [H1 H2]. unfold elapsed_ms. rewrite Z.max_r by lia.
  rewrite Z.mod_small; [apply Z.div_le_lower_bound; lia|].
  split; [apply Z.div_pos; lia|apply Z.div_lt_upper_bound; lia].
Qed.

(** The entry an outstanding frame becomes when it is due. *)
Definition resent (c : ReliabilityConfig) (now : Z) (p : PendingFrame) : PendingFrame :=
  mkPending (pf_data p) (pf_frame p) (pf_dest p) now (attempts p + 1)
    (Z.min (u64_mul (rto_ms p) 2) (max_rto_ms c)).

Lemma timeout_turn now tr :
  bound tr = true →
  recv_turn now now tr STimeout
  = (mkTransport true (set_pending (manager tr)
       (omap (λ p, (retransmit_entry (config (manager tr)) now p).1) (pending (manager tr))))
       (send_buffer tr),
     map (λ p, (pf_data p, pf_dest p)) (get_retransmit_frames now (manager tr)).2, RContinue).
Proof. intros H. unfold recv_turn. by rewrite H. Qed.

Lemma retransmit_out now r d :
  d ∈ map (λ p, (pf_data p, pf_dest p)) (get_retransmit_frames now r).2 ↔
  ∃ t p, pending r !! t = Some p ∧ rto_ms p ≤ elapsed_ms now p ∧
         attempts p < max_retries (config r) ∧ d = (pf_data p, pf_dest p).
Proof.
  rewrite list_elem_of_fmap. cbn [get_retransmit_frames snd]. split.
  - intros (p' & -> & Hp'). apply list_elem_of_omap in Hp' as ([t p] & Hp & Hr).
    apply elem_of_map_to_list in Hp. exists t, p. revert Hr. unfold retransmit_entry. cbn [snd].
    destruct (Z.leb_spec (rto_ms p) (elapsed_ms now p)); [|done].
    destruct (Z.leb_spec (max_retries (config r)) (attempts p)); [done|]. intros [= <-]. done.
  - intros (t & p & Hp & Hd & Ha & ->). exists (resent (config r) now p). split; [done|].
    apply list_elem_of_omap. exists (t, p). split; [by apply elem_of_map_to_list|].
    unfold retransmit_entry. cbn [snd].
    destruct (Z.leb_spec (rto_ms p) (elapsed_ms now p)); [|lia].
    by destruct (Z.leb_spec (max_retries (config r)) (attempts p)); [lia|].
Qed.

(** Once gone, a frame stays gone. *)
Lemma silent_gone times tr t :
  bound tr = true → pending (manager tr) !! t = None →
  (recv tr (timeouts times)).2 = None ∧
  pending (manager (recv tr (timeouts times)).1.1) !! t = None.
Proof.
  revert tr. induction times as [|now times IH]; intros tr Hb Hn; [done|].
  cbn [timeouts map recv]. rewrite timeout_turn by done. fold (timeouts times).
  match goal with |- context [recv ?x (timeouts times)] => specialize (IH x) end.
  destruct (recv _ (timeouts times)) as [[tr2 out] res]. apply IH; [done|]. cbn.
  by rewrite lookup_omap, Hn.
Qed.

Lemma silent_pending times tr t p :
  bound tr = true → manager_ok (manager tr) → pending (manager tr) !! t = Some p →
  spaced (Z.max (initial_rto_ms (config (manager tr))) (max_rto_ms (config (manager tr))))
    (last_sent p) times →
  let r := recv tr (timeouts times) in
  r.2 = None ∧
  (if times is [] then True
   else if attempts p + len times <=? max_retries (config (manager tr)) then
     ∃ p', pending (manager r.1.1) !! t = Some p' ∧ attempts p' = attempts p + len times ∧
           pf_data p' = pf_data p ∧ pf_dest p' = pf_dest p
   else pending (manager r.1.1) !! t = None).
Proof.
  revert tr p. induction times as [|now times IH]; intros tr p Hb Hok Hp Hs; [done|].
  cbn [timeouts map recv]. rewrite timeout_turn by done. fold (timeouts times).
  set (tr1 := mkTransport _ _ _). set (c := config (manager tr)) in *. cbv zeta.
  destruct Hs as [Hgap Hs]. pose proof (mo_entries _ Hok _ _ Hp) as [_ _ _ [Hr0 Hr]].
  assert (Hdue : rto_ms p ≤ elapsed_ms now p).
  { pose proof (mo_config _ Hok) as [Hi Hm _]. etrans; [exact Hr|]. apply elapsed_spaced; [subst c; lia|done]. }
  pose proof (recv_turn_ok now now tr STimeout Hok) as Hok1. rewrite timeout_turn in Hok1 by done.
  assert (Hl : pending (manager tr1) !! t
    = if max_retries c <=? attempts p then None else Some (resent c now p)).
  { cbn. rewrite lookup_omap, Hp. cbn. unfold retransmit_entry. fold c.
    destruct (Z.leb_spec (rto_ms p) (elapsed_ms now p)); [|lia]. by destruct (_ <=? _). }
  rewrite len_cons. pose proof (len_nonneg times).
  destruct (Z.leb_spec (max_retries c) (attempts p)).
  - pose proof (silent_gone times tr1 t eq_refl Hl) as [H1 H2].
    destruct (Z.leb_spec (attempts p + (1 + len times)) (max_retries c)); [lia|].
    by destruct (recv tr1 (timeouts times)) as [[? ?] ?].
  - destruct (IH tr1 (resent c now p)) as [H1 H2]; [done|done|done|done|].
    destruct (recv tr1 (timeouts times)) as [[tr2 out] res] eqn:E. split; [done|].
    destruct times as [|now2 times].
    + injection E as <- <- <-. rewrite len_nil.
      destruct (Z.leb_spec (attempts p + (1 + 0)) (max_retries c)); [|lia].
      by exists (resent c now p).
    + change (config (manager tr1)) with c in H2. cbn [attempts resent] in H2.
      replace (attempts p + (1 + len (now2 :: times)))
        with (attempts p + 1 + len (now2 :: times)) by lia. by destruct (_ <=? _).
Qed.

(** ** Acknowledgements on the wire *)

Lemma len_ack t : array_ok 8 t → len (AckPayload_encode (AckPayload_new t)) = 14.
Proof. intros Ht. unfold AckPayload_encode. cbn [ack_trace_id AckPayload_new]. solve_len. Qed.

(** A raw, unrouted control frame is encodable whatever its (short) payload. *)
Lemma control_frame_encodable ft id p :
  ft = FAck ∨ ft = FNack → array_ok 32 id → bytes_ok p → len p ≤ MAX_PAYLOAD_SIZE →
  encodable (Frame_new (with_trust_level (FrameHeader_new ft id) Raw) PRaw p).
Proof.
  intros Hft Hid Hp Hl. pose proof (len_nonneg p).
  assert (len p mod 2 ^ 32 = len p) as Hm by (apply Z.mod_small; unfold MAX_PAYLOAD_SIZE in Hl; lia).
  split; unfold Frame_new; rewrite ?Hm;
    cbn [header trace_id routing fragment_info payload payload_header auth with_trust_level
         trust_level version frame_type FrameHeader_new ph_flags ph_length payload_type
         PayloadHeader_new flags clock]; try done.
  - split; try done.
    + split_and!; [done|done|by destruct Hft as [-> | ->]|by destruct Hft as [-> | ->]|done|..];
        try done; try by apply array_ok_replicate.
    + cbn. unfold MAX_PAYLOAD_SIZE in Hl. lia.
  - by destruct Hft as [-> | ->].
  - by destruct Hft as [-> | ->].
Qed.

Lemma create_ack_frame_encodable r t :
  array_ok 32 (rm_node_id r) → array_ok 8 t → encodable (create_ack_frame r t).
Proof.
  intros Hid Ht. apply control_frame_encodable; [by left|done| |by rewrite len_ack].
  apply Forall_app. split; [by apply (array_bytes 8)|]. apply Forall_app. split; apply to_be_bytes_ok.
Qed.

Lemma create_ack_frame_size r t : array_ok 8 t → wire_size (create_ack_frame r t) = 76.
Proof.
  intros Ht. unfold wire_size, create_ack_frame, Frame_new.
  cbn [trace_id routing fragment_info payload auth trust_level with_trust_level]. by rewrite len_ack.
Qed.

Definition is_acknowledgement (f : Frame) : bool :=
  match frame_type (header f) with FAck | FNack => true | _ => false end.

Lemma decode_wire f : encodable f → decode (wire f) = Ok (of_frame f).
Proof. intros H. rewrite <- (app_nil_r (wire f)). by apply decode_of_wire. Qed.

Lemma is_duplicate_node now now' r s t :
  rm_node_id (is_duplicate now now' r s t).1 = rm_node_id r.
Proof. apply is_duplicate_fixed. Qed.

(** What a receiver does with a data frame that carries a trace identifier. *)
Lemma recv_data now now' rx g s t :
  encodable g → trace_id g = Some t → is_acknowledgement g = false →
  array_ok 32 (rm_node_id (manager rx)) → 76 ≤ len (send_buffer rx) →
  recv_datagram now now' rx (wire g) s
  = let '(mgr, dup) := is_duplicate now now' (manager rx) s t in
    let ack := create_ack_frame mgr t in
    (mkTransport (bound rx) mgr (wire ack ++ drop (length (wire ack)) (send_buffer rx)),
     [(wire ack, s)], if dup then RContinue else RReturn g s).
Proof.
  intros Hg Ht Hc Hid Hb. unfold recv_datagram. rewrite decode_wire by done.
  replace (to_frame (of_frame g)) with g by (by destruct g).
  assert (array_ok 8 t) as Ht8 by (pose proof (ok_trace g (enc_ok g Hg)) as H; by rewrite Ht in H).
  replace (match frame_type (header g) with FAck => _ | FNack => _ | _ => _ end)
    with (recv_regular now now' rx g s) by (unfold is_acknowledgement in Hc; by destruct (frame_type (header g))).
  unfold recv_regular. rewrite Ht. pose proof (is_duplicate_node now now' (manager rx) s t) as Hnode.
  destruct (is_duplicate now now' (manager rx) s t) as [mgr dup]. cbn [fst] in Hnode.
  rewrite <- Hnode in Hid. pose proof (create_ack_frame_encodable mgr t Hid Ht8) as Ha.
  pose proof (encode_writes_wire (create_ack_frame mgr t) (send_buffer rx) (encodable_writable _ Ha)) as He.
  rewrite create_ack_frame_size in He by done. rewrite (He Hb).
  assert (take (Z.to_nat 76) (wire (create_ack_frame mgr t)
            ++ drop (length (wire (create_ack_frame mgr t))) (send_buffer rx))
          = wire (create_ack_frame mgr t)) as ->.
  { apply take_app_exact. rewrite len_wire by (by apply encodable_writable).
    by rewrite create_ack_frame_size. }
  done.
Qed.

(** What a sender does with an acknowledgement. *)
Lemma recv_ack now now' tx r t from :
  array_ok 32 (rm_node_id r) → array_ok 8 t →
  recv_datagram now now' tx (wire (create_ack_frame r t)) from
  = (mkTransport (bound tx) (process_ack (manager tx) from (AckPayload_new t)).1 (send_buffer tx),
     [], RContinue).
Proof.
  intros Hid Ht. unfold recv_datagram. rewrite decode_wire by (by apply create_ack_frame_encodable).
  replace (to_frame (of_frame (create_ack_frame r t))) with (create_ack_frame r t) by done.
  change (frame_type (header (create_ack_frame r t))) with FAck.
  change (payload (create_ack_frame r t)) with (AckPayload_encode (AckPayload_new t)). cbv iota.
  rewrite <- (app_nil_r (AckPayload_encode _)), AckPayload_decode_encode; [done|done|cbn; lia|cbn; lia].
Qed.

Lemma send_reliable_sends now fresh tx f g t dest :
  bound tx = true → assign_trace_id fresh f = (g, t) → encodable g →
  wire_size g ≤ len (send_buffer tx) →
  pending_len (manager tx) < max_pending (config (manager tx)) →
  send_reliable now fresh None tx f dest
  = (mkTransport true (set_pending (manager tx)
       (<[t := mkPending (wire g) g dest now 1 (initial_rto_ms (config (manager tx)))]>
          (pending (manager tx))))
       (wire g ++ drop (length (wire g)) (send_buffer tx)),
     [(wire g, dest)], Ok t).
Proof.
  intros Hb Ha He Hl Hp. unfold send_reliable. rewrite Hb, Ha. cbn [negb].
  pose proof (encodable_writable g He) as Hw. rewrite encode_writes_wire by done.
  assert (take (Z.to_nat (wire_size g)) (wire g ++ drop (length (wire g)) (send_buffer tx)) = wire g) as ->.
  { apply take_app_exact. pose proof (len_wire g Hw). pose proof (len_nonneg (wire g)). lia. }
  unfold track_frame.
  assert (trace_id g = Some t) as ->.
  { unfold assign_trace_id in Ha. destruct (trace_id f) eqn:E; by injection Ha as <- <-. }
  by destruct (Z.leb_spec (max_pending (config (manager tx))) (pending_len (manager tx))); [lia|].
Qed.

Lemma create_ack_frame_node r r' t :
  rm_node_id r = rm_node_id r' → create_ack_frame r t = create_ack_frame r' t.
Proof. unfold create_ack_frame. by intros ->. Qed.

(** A turn of the receive loop on a data frame. *)
Lemma recv_turn_data now now' tr g s t :
  bound tr = true → encodable g → trace_id g = Some t → is_acknowledgement g = false →
  array_ok 32 (rm_node_id (manager tr)) → 76 ≤ len (send_buffer tr) →
  let r0 := (get_retransmit_frames now (manager tr)).1 in
  ∃ out, recv_turn now now' tr (SDatagram (wire g) s)
    = (mkTransport true (is_duplicate now now' r0 s t).1
         (wire (create_ack_frame (manager tr) t)
          ++ drop (length (wire (create_ack_frame (manager tr) t))) (send_buffer tr)),
       out ++ [(wire (create_ack_frame (manager tr) t), s)],
       if (is_duplicate now now' r0 s t).2 then RContinue else RReturn g s).
Proof.
  intros Hb Hg Ht Hc Hid Hbuf r0. unfold recv_turn. rewrite Hb. cbn [negb].
  destruct (get_retransmit_frames now (manager tr)) as [mgr again] eqn:E. subst r0. cbn [fst].
  assert (Hn : rm_node_id mgr = rm_node_id (manager tr)) by (by injection E as <- _).
  exists (map (λ p, (pf_data p, pf_dest p)) again). rewrite (recv_data now now' _ g s t) by (cbn; congruence).
  cbn [manager bound send_buffer]. pose proof (is_duplicate_node now now' mgr s t) as Hd.
  destruct (is_duplicate now now' mgr s t) as [mgr' dup]. cbn [fst snd] in *.
  by rewrite (create_ack_frame_node mgr' (manager tr)) by congruence.
Qed.

Lemma fresh_answer now now' r s t :
  manager_ok r → received r !! (s, t) = None → (is_duplicate now now' r s t).2 = false.
Proof.
  intros Hok Hk.
  destruct (is_duplicate_cases now now' _ s t Hok) as [[[x Hx] _]|(_ & _ & [[-> _]|(? & ? & _ & _ & ->)])];
    [|done..].
  exfalso. unfold sweep in Hx. destruct (_ <? _); [|congruence]. cbn in Hx.
  apply map_lookup_filter_Some in Hx as [Hx _]. congruence.
Qed.

Lemma seen_answer n t0 now now' r s t :
  manager_ok r → seen_within n t0 (s, t) r →
  Z.max 0 (now' - t0) < received_cleanup_interval r → (is_duplicate now now' r s t).2 = true.
Proof.
  intros Hok Hk Hl. apply (sweep_keeps _ _ _ now now') in Hk as [Hk _]; [|done|done].
  destruct (is_duplicate_cases now now' _ s t Hok) as [[_ ->]|[Hnone _]]; [done|congruence].
Qed.

(** ** Sample states, used by the witnesses *)

Definition sample_config : ReliabilityConfig := mkConfig 200 1000 2 20 10 32.
Definition sample_peer : SocketAddr := ([10; 0; 0; 1], 9000).
Definition sample_other : SocketAddr := ([10; 0; 0; 2], 9000).
Definition sample_trace : TraceId := to_be 8 123456789.
Definition sample_manager : ReliabilityManager :=
  ReliabilityManager_new 0 sample_config (replicate 32 3).
Definition sample_idle : ReliableTransport := mkTransport true sample_manager (replicate 200 0).
Definition sample_busy : ReliableTransport :=
  (send_reliable 0 sample_trace None sample_idle sample_frame sample_peer).1.1.

Definition sample_started : ReliableTransport :=
  let tr := ReliableTransport_new 0 sample_config (replicate 32 3) in
  (send_reliable 5 sample_trace None (mkTransport true (manager tr) (send_buffer tr))
     sample_frame sample_peer).1.1.

Lemma sample_config_ok : config_ok sample_config.
Proof. by split. Qed.
Lemma sample_manager_ok : manager_ok sample_manager.
Proof. apply ReliabilityManager_new_ok, sample_config_ok. Qed.
Lemma sample_busy_ok : manager_ok (manager sample_busy).
Proof. apply send_reliable_ok, sample_manager_ok. Qed.

(** ** Properties *)

(** Duplicate detection.  A pair of source and trace identifier that was
    answered fresh is recognised after any further calls, as long as they are
    fewer than the capacity and their clean-ups run within the interval; and a
    pair is only reported as a duplicate if it was seen, from that very source. *)
Theorem duplicate_detection now now' r s t :
  manager_ok r →
  ((is_duplicate now now' r s t).2 = false →
   ∀ calls later later',
     (length calls < RECEIVED_DEDUP_CAPACITY)%nat →
     Forall (λ c : seen_call, Z.max 0 (c.1.1.2 - now) < received_cleanup_interval r) calls →
     Z.max 0 (later' - now) < received_cleanup_interval r →
     (is_duplicate later later' (seen_run (is_duplicate now now' r s t).1 calls) s t).2 = true) ∧
  (received r !! (s, t) = None →
   ∀ calls, Forall (λ c : seen_call, (c.1.2, c.2) ≠ (s, t)) calls →
     (is_duplicate now now' (seen_run r calls) s t).2 = false).
Proof.
  intros H. split.
  - intros Hf calls later later' Hn Hc Hl.
    pose proof (is_duplicate_interval now now' r s t) as Hi. rewrite <- Hi in Hc, Hl.
    destruct (seen_run_keeps calls 0 now (s, t) (is_duplicate now now' r s t).1) as (Hk & Hok & Hi');
      [by apply is_duplicate_ok|by apply is_duplicate_records|done|done|].
    rewrite <- Hi' in Hl. by eapply seen_answer.
  - intros Hk calls Hc. destruct (seen_run_no_invention calls r (s, t) H Hk Hc) as [Hk' Hok].
    by apply fresh_answer.
Qed.

Lemma duplicate_detection_witness :
  (is_duplicate 70 70
     (seen_run (is_duplicate 10 10 sample_manager sample_peer sample_trace).1
        [(20, 20, sample_other, sample_trace)]) sample_peer sample_trace).2 = true.
Proof.
  apply (proj1 (duplicate_detection 10 10 sample_manager sample_peer sample_trace sample_manager_ok)).
  - reflexivity.
  - unfold RECEIVED_DEDUP_CAPACITY. cbn [length]. lia.
  - repeat constructor.
  - reflexivity.
Defined.

(** C14: bounded state.  In every state a program can bring a transport to, whatever
    arrives and whenever the clocks are read: the pending frames stay within the
    configured number, each one is filed under its own trace identifier with the
    bytes of its own encoding, was sent at most [max_retries] times (at least
    once), with a timeout within the configured bounds; and the duplicate filter
    holds at most its capacity, its queue listing exactly its keys, each once. *)
Theorem reliability_invariant now c id tr :
  config_ok c →
  rtc (λ a b, ∃ out, transport_step a out b) (ReliableTransport_new now c id) tr →
  config (manager tr) = c ∧ pending_len (manager tr) ≤ max_pending c ∧
  map_Forall (entry_ok c) (pending (manager tr)) ∧
  NoDup (received_order (manager tr)) ∧
  (∀ k, k ∈ received_order (manager tr) ↔ is_Some (received (manager tr) !! k)) ∧
  (length (received_order (manager tr)) <= RECEIVED_DEDUP_CAPACITY)%nat.
Proof.
  intros Hc Hr. assert (manager_ok (manager tr) ∧ config (manager tr) = c) as [[? ? ? ? ? ?] <-];
    [|by split_and!].
  assert (H0 : manager_ok (manager (ReliableTransport_new now c id)) ∧
               config (manager (ReliableTransport_new now c id)) = c)
    by (split; [by apply ReliabilityManager_new_ok|done]).
  revert H0. induction Hr as [|a b d (out & Hs) _ IH]; [done|]. intros [H1 H2]. apply IH.
  destruct (transport_step_ok _ _ _ Hs H1) as [H3 H4]. split; [done|congruence].
Qed.

Lemma reliability_invariant_witness :
  pending_len (manager sample_started) ≤ max_pending sample_config.
Proof.
  assert (Hr : rtc (λ a b, ∃ out, transport_step a out b)
                 (ReliableTransport_new 0 sample_config (replicate 32 3)) sample_started).
  { eapply rtc_l; [exact (ex_intro _ _ (TS_bind _))|]. eapply rtc_l; [|apply rtc_refl].
    exact (ex_intro _ _ (TS_send_reliable _ _ _ _ _ _)). }
  destruct (reliability_invariant 0 sample_config (replicate 32 3) sample_started sample_config_ok Hr)
    as (_ & H & _).
  exact H.
Defined.

(** C20: bounded retransmission.  A turn without traffic sends exactly the frames
    whose timeout has passed and that have attempts left, to their destinations;
    and a frame nobody acknowledges, polled at intervals no shorter than the
    largest timeout, is counted once more at each turn with its bytes and
    destination unchanged until [max_retries] is reached, and is then forgotten:
    the loop neither gives up earlier nor retransmits for ever. *)
Theorem retransmission_bounded tr :
  bound tr = true → manager_ok (manager tr) →
  (∀ now d, d ∈ (recv_turn now now tr STimeout).1.2 ↔
     ∃ t p, pending (manager tr) !! t = Some p ∧ rto_ms p ≤ elapsed_ms now p ∧
            attempts p < max_retries (config (manager tr)) ∧ d = (pf_data p, pf_dest p)) ∧
  (∀ t p times,
     pending (manager tr) !! t = Some p → times ≠ [] →
     spaced (Z.max (initial_rto_ms (config (manager tr))) (max_rto_ms (config (manager tr))))
       (last_sent p) times →
     let tr' := (recv tr (timeouts times)).1.1 in
     (recv tr (timeouts times)).2 = None ∧
     (attempts p + len times ≤ max_retries (config (manager tr)) →
        ∃ p', pending (manager tr') !! t = Some p' ∧ attempts p' = attempts p + len times ∧
              pf_data p' = pf_data p ∧ pf_dest p' = pf_dest p) ∧
     (max_retries (config (manager tr)) < attempts p + len times →
        pending (manager tr') !! t = None)).
Proof.
  intros Hb Hok. split.
  - intros now d. rewrite timeout_turn by done. cbn [fst snd]. apply retransmit_out.
  - intros t p times Hp Hne Hs tr'. destruct (silent_pending times tr t p Hb Hok Hp Hs) as [H1 H2].
    destruct times as [|now times]; [done|]. split; [done|]. subst tr'.
    destruct (Z.leb_spec (attempts p + len (now :: times)) (max_retries (config (manager tr))));
      (split; intros ?; [|]); try lia; done.
Qed.

Lemma retransmission_bounded_witness :
  pending (manager (recv sample_busy (timeouts [1000000000; 2000000000])).1.1) !! sample_trace = None.
Proof.
  eapply (proj2 (retransmission_bounded sample_busy eq_refl sample_busy_ok) sample_trace).
  - vm_compute. reflexivity.
  - discriminate.
  - vm_compute. repeat split; discriminate.
  - vm_compute. reflexivity.
Defined.



(** [flush] loses data.  A fresh data frame that arrives while [flush] waits for
    acknowledgements is itself acknowledged, so its sender forgets it, but the
    result of the inner [recv] is dropped: the caller of [flush] does not get it,
    and a copy that arrives later within the clean-up interval is a duplicate for
    [recv]. *)
Theorem flush_loses_data ms el tr g s t n n' m m' :
  bound tr = true → manager_ok (manager tr) → 0 < pending_len (manager tr) →
  encodable g → trace_id g = Some t → is_acknowledgement g = false →
  array_ok 32 (rm_node_id (manager tr)) → 76 ≤ len (send_buffer tr) →
  received (manager tr) !! (s, t) = None → el ≤ ms * 1000000 →
  Z.max 0 (m' - n) < received_cleanup_interval (manager tr) →
  let f := flush ms tr [(el, [(n, n', SDatagram (wire g) s)])] in
  (wire (create_ack_frame (manager tr) t), s) ∈ f.1.2 ∧
  (recv f.1.1 [(m, m', SDatagram (wire g) s)]).2 = None.
Proof.
  intros Hb Hok Hp Hg Ht Hc Hid Hbuf Hk Hel Hm.
  pose proof (get_retransmit_frames_ok n _ Hok) as Hok0.
  destruct (recv_turn_data n n' tr g s t) as [out E]; [done..|].
  rewrite (fresh_answer n n' _ s t Hok0 Hk) in E.
  cbn [flush recv]. destruct (Z.ltb_spec 0 (pending_len (manager tr))); [|lia]. cbn [negb].
  destruct (Z.ltb_spec (ms * 1000000) el); [lia|]. rewrite E. cbv beta iota zeta.
  set (ack := create_ack_frame (manager tr) t) in *. set (tr1 := mkTransport _ _ _).
  assert (Hfl : ∀ x : ReliableTransport * list datagram * option (outcome TransportError unit),
    (if negb (0 <? pending_len (manager tr1)) then (tr1, [], Some (Ok tt)) else (tr1, [], None)) = x →
    x.1 = (tr1, [])) by (intros x <-; by destruct (negb _)).
  destruct (if negb (0 <? pending_len (manager tr1)) then _ else _) as [[tr2 out2] res2] eqn:E2.
  specialize (Hfl _ eq_refl). injection Hfl as -> ->. cbn [fst snd]. split; [set_solver|].
  assert (Hok1 : manager_ok (manager tr1)) by (by apply is_duplicate_ok).
  pose proof (is_duplicate_records n n' _ s t Hok0 (fresh_answer n n' _ s t Hok0 Hk)) as Hseen.
  assert (array_ok 8 t) as Ht8 by (pose proof (ok_trace g (enc_ok g Hg)) as H'; by rewrite Ht in H').
  destruct (recv_turn_data m m' tr1 g s t) as [out3 E3]; [done..| | |].
  { cbn [manager tr1]. rewrite is_duplicate_node. done. }
  { cbn [send_buffer tr1]. rewrite len_app. pose proof (len_nonneg (drop (length (wire ack)) (send_buffer tr))).
    rewrite len_wire by (by apply encodable_writable, create_ack_frame_encodable).
    subst ack. rewrite create_ack_frame_size by done. lia. }
  rewrite E3, (seen_answer 0 n); [done|by apply get_retransmit_frames_ok|done|].
  change (received_cleanup_interval (get_retransmit_frames m (manager tr1)).1)
    with (received_cleanup_interval (manager tr1)).
  cbn [manager tr1]. rewrite is_duplicate_interval. done.
Qed.

Lemma flush_loses_data_witness :
  (recv (flush 1000 sample_busy [(5, [(10, 10, SDatagram (wire sample_frame) sample_other)])]).1.1
     [(20, 20, SDatagram (wire sample_frame) sample_other)]).2 = None.
Proof.
  eapply (flush_loses_data 1000 5 sample_busy sample_frame sample_other sample_trace 10 10 20 20);
    [reflexivity|exact sample_busy_ok|vm_compute; reflexivity|exact sample_encodable|reflexivity|
     reflexivity| |vm_compute; discriminate|vm_compute; reflexivity|discriminate|vm_compute; reflexivity].
  vm_compute. split; [reflexivity|repeat constructor; discriminate].
Defined.
