(* ===== verification/Queue.v ===== *)
(** * Send queues (axiom-transport/src/queue.rs)

    Four priority queues per peer, drained by deficit round robin, and the
    per-peer manager.  A [VecDeque] is a list, oldest first; the array of queues is a
    list of four.  Byte totals and event counters are unbounded (they count live
    allocations and single events); the 32-bit deficit wraps as in a release
    build.  A hash map's iteration order is an argument. *)

From stdpp Require Import base numbers list gmap.
From S2P Require Import Prelude Types Codec Text Fragment Reliability.

(** ** Data *)

Record QueueConfig := mkQueueConfig {
  max_queue_depth : Z;
  max_total_bytes : Z;
  weight_low : Z;
  weight_normal : Z;
  weight_high : Z;
  weight_critical : Z
}.
Definition QueueConfig_default : QueueConfig := mkQueueConfig 1000 10000000 25 100 200 400.

Record QueuedFrame := mkQueued {
  qf_frame : Frame;
  qf_data : list Z;
  qf_dest : SocketAddr;
  queued_at : Z;
  qf_attempts : Z
}.

Record QueueStats := mkQueueStats {
  enqueued : Z;
  dequeued : Z;
  dropped_full : Z;
  dropped_timeout : Z;
  bytes_enqueued : Z;
  bytes_dequeued : Z
}.
Definition QueueStats_default : QueueStats := mkQueueStats 0 0 0 0 0 0.

Record PriorityQueue := mkPQ {
  pq_queue : list QueuedFrame;
  pq_bytes : Z;
  pq_weight : Z;
  pq_deficit : Z
}.
Definition PriorityQueue_new (w : Z) : PriorityQueue := mkPQ [] 0 w 0.

Definition pq_enqueue (q : PriorityQueue) (e : QueuedFrame) : PriorityQueue :=
  mkPQ (pq_queue q ++ [e]) (pq_bytes q + len (qf_data e)) (pq_weight q) (pq_deficit q).

Definition pq_dequeue (q : PriorityQueue) : PriorityQueue * option QueuedFrame :=
  match pq_queue q with
  | [] => (q, None)
  | e :: rest => (mkPQ rest (pq_bytes q - len (qf_data e)) (pq_weight q) (pq_deficit q), Some e)
  end.

Definition pq_peek (q : PriorityQueue) : option QueuedFrame := head (pq_queue q).
Definition pq_len (q : PriorityQueue) : Z := len (pq_queue q).
Definition pq_is_empty (q : PriorityQueue) : bool :=
  match pq_queue q with [] => true | _ => false end.

Definition set_deficit (q : PriorityQueue) (d : Z) : PriorityQueue :=
  mkPQ (pq_queue q) (pq_bytes q) (pq_weight q) d.

Record QueueScheduler := mkScheduler {
  qs_config : QueueConfig;
  queues : list PriorityQueue;
  qs_total_bytes : Z;
  qs_stats : QueueStats
}.

Definition QueueScheduler_new (c : QueueConfig) : QueueScheduler :=
  mkScheduler c
    [PriorityQueue_new (weight_low c); PriorityQueue_new (weight_normal c);
     PriorityQueue_new (weight_high c); PriorityQueue_new (weight_critical c)]
    0 QueueStats_default.

Definition priority_index (p : Priority) : nat :=
  match p with Low => 0 | Normal => 1 | High => 2 | Critical => 3 end.

Inductive QueueFullError := QueueDepthExceeded | TotalBytesExceeded.

(** [self.queues[idx]]; the array has four elements. *)
Definition queue_at (s : QueueScheduler) (idx : nat) : PriorityQueue :=
  nth idx (queues s) (PriorityQueue_new 0).

Definition count_dropped_full (st : QueueStats) : QueueStats :=
  mkQueueStats (enqueued st) (dequeued st) (dropped_full st + 1) (dropped_timeout st)
    (bytes_enqueued st) (bytes_dequeued st).
Definition count_enqueued (st : QueueStats) (n : Z) : QueueStats :=
  mkQueueStats (enqueued st + 1) (dequeued st) (dropped_full st) (dropped_timeout st)
    (bytes_enqueued st + n) (bytes_dequeued st).
Definition count_dequeued (st : QueueStats) (n : Z) : QueueStats :=
  mkQueueStats (enqueued st) (dequeued st + 1) (dropped_full st) (dropped_timeout st)
    (bytes_enqueued st) (bytes_dequeued st + n).
Definition count_stale (st : QueueStats) (n : Z) : QueueStats :=
  mkQueueStats (enqueued st) (dequeued st) (dropped_full st) (dropped_timeout st + n)
    (bytes_enqueued st) (bytes_dequeued st).

(** ** The scheduler *)

Definition enqueue (now : Z) (s : QueueScheduler) (f : Frame) (data : list Z) (dest : SocketAddr) :
    QueueScheduler * outcome QueueFullError unit :=
  let idx := priority_index (priority (header f)) in
  if max_queue_depth (qs_config s) <=? pq_len (queue_at s idx) then
    (mkScheduler (qs_config s) (queues s) (qs_total_bytes s) (count_dropped_full (qs_stats s)),
     Err QueueDepthExceeded)
  else if max_total_bytes (qs_config s) <? qs_total_bytes s + len data then
    (mkScheduler (qs_config s) (queues s) (qs_total_bytes s) (count_dropped_full (qs_stats s)),
     Err TotalBytesExceeded)
  else
    let e := mkQueued f data dest now 0 in
    (mkScheduler (qs_config s) (<[idx := pq_enqueue (queue_at s idx) e]> (queues s))
       (qs_total_bytes s + len data) (count_enqueued (qs_stats s) (len data)), Ok tt).

(** The queue at [idx] with its head taken out and counted. *)
Definition take_from (s : QueueScheduler) (idx : nat) (q : PriorityQueue) (e : QueuedFrame) :
    QueueScheduler :=
  mkScheduler (qs_config s) (<[idx := q]> (queues s)) (qs_total_bytes s - len (qf_data e))
    (count_dequeued (qs_stats s) (len (qf_data e))).

(** One pass over the queues; the first pass adds the weights. *)
Fixpoint pass (first : bool) (idxs : list nat) (s : QueueScheduler) :
    QueueScheduler * option QueuedFrame :=
  match idxs with
  | [] => (s, None)
  | idx :: rest =>
      let q := queue_at s idx in
      if pq_is_empty q then pass first rest s
      else
        let q := if first then set_deficit q ((pq_deficit q + pq_weight q) mod 2 ^ 32) else q in
        match pq_peek q with
        | None => pass first rest s
        | Some e =>
            let size := len (qf_data e) mod 2 ^ 32 in
            if (size <=? pq_deficit q) || (idx =? 3)%nat then
              let q := set_deficit q (Z.max 0 (pq_deficit q - size)) in
              match pq_dequeue q with
              | (q, Some e) => (take_from s idx q e, Some e)
              | (_, None) => (s, None)
              end
            else
              pass first rest
                (mkScheduler (qs_config s) (<[idx := q]> (queues s)) (qs_total_bytes s) (qs_stats s))
        end
  end.

Definition rev_indices : list nat := [3; 2; 1; 0]%nat.

Definition dequeue (s : QueueScheduler) : QueueScheduler * option QueuedFrame :=
  match pass true rev_indices s with
  | (s, Some e) => (s, Some e)
  | (s, None) => pass false rev_indices s
  end.

Definition dequeue_priority (s : QueueScheduler) (p : Priority) :
    QueueScheduler * option QueuedFrame :=
  let idx := priority_index p in
  match pq_dequeue (queue_at s idx) with
  | (q, Some e) => (take_from s idx q e, Some e)
  | (_, None) => (s, None)
  end.

Definition queue_depth (s : QueueScheduler) (p : Priority) : Z := pq_len (queue_at s (priority_index p)).
Definition total_depth (s : QueueScheduler) : Z := foldr Z.add 0 (map pq_len (queues s)).
Definition scheduler_is_empty (s : QueueScheduler) : bool := forallb pq_is_empty (queues s).

Definition is_fresh (now max_age : Z) (e : QueuedFrame) : bool :=
  Z.max 0 (now - queued_at e) <? max_age.

(** Clean-up of one queue: the entries kept, and the number and bytes removed. *)
Fixpoint split_stale (now max_age : Z) (l : list QueuedFrame) : list QueuedFrame * Z * Z :=
  match l with
  | [] => ([], 0, 0)
  | e :: l =>
      let '(kept, n, b) := split_stale now max_age l in
      if is_fresh now max_age e then (e :: kept, n, b) else (kept, n + 1, b + len (qf_data e))
  end.

Fixpoint cleanup_queues (now max_age : Z) (qs : list PriorityQueue) : list PriorityQueue * Z * Z :=
  match qs with
  | [] => ([], 0, 0)
  | q :: qs =>
      let '(kept, n, b) := split_stale now max_age (pq_queue q) in
      let '(qs, n', b') := cleanup_queues now max_age qs in
      (mkPQ kept (pq_bytes q - b) (pq_weight q) (pq_deficit q) :: qs, n + n', b + b')
  end.

Definition cleanup_stale (now max_age : Z) (s : QueueScheduler) : QueueScheduler * Z :=
  let '(qs, n, b) := cleanup_queues now max_age (queues s) in
  (mkScheduler (qs_config s) qs (qs_total_bytes s - b) (count_stale (qs_stats s) n), n).

(** ** The per-peer manager *)

Record QueueManager := mkQueueManager {
  qm_config : QueueConfig;
  schedulers : gmap SocketAddr QueueScheduler;
  global_stats : QueueStats
}.
Definition QueueManager_new (c : QueueConfig) : QueueManager :=
  mkQueueManager c ∅ QueueStats_default.

Definition get_or_create (m : QueueManager) (peer : SocketAddr) : QueueScheduler :=
  default (QueueScheduler_new (qm_config m)) (schedulers m !! peer).

Definition manager_enqueue (now : Z) (m : QueueManager) (f : Frame) (data : list Z)
    (dest : SocketAddr) : QueueManager * outcome QueueFullError unit :=
  let '(s, res) := enqueue now (get_or_create m dest) f data dest in
  let st := global_stats m in
  let st :=
    if is_ok res
    then mkQueueStats (enqueued st + 1) (dequeued st) (dropped_full st) (dropped_timeout st)
           (bytes_enqueued st) (bytes_dequeued st)
    else count_dropped_full st in
  (mkQueueManager (qm_config m) (<[dest := s]> (schedulers m)) st, res).

Definition count_global_dequeue (st : QueueStats) : QueueStats :=
  mkQueueStats (enqueued st) (dequeued st + 1) (dropped_full st) (dropped_timeout st)
    (bytes_enqueued st) (bytes_dequeued st).

Definition dequeue_peer (m : QueueManager) (peer : SocketAddr) : QueueManager * option QueuedFrame :=
  match schedulers m !! peer with
  | None => (m, None)
  | Some s =>
      let '(s, r) := dequeue s in
      (mkQueueManager (qm_config m) (<[peer := s]> (schedulers m))
         (match r with Some _ => count_global_dequeue (global_stats m) | None => global_stats m end), r)
  end.

(** [order]: the order in which [values_mut] visits the peers. *)
Fixpoint dequeue_any (order : list SocketAddr) (m : QueueManager) : QueueManager * option QueuedFrame :=
  match order with
  | [] => (m, None)
  | peer :: order =>
      match dequeue_peer m peer with
      | (m, Some e) => (m, Some e)
      | (m, None) => dequeue_any order m
      end
  end.

Definition manager_total_depth (m : QueueManager) : Z :=
  map_fold (λ _ s acc, total_depth s + acc) 0 (schedulers m).

Definition manager_cleanup_stale (now max_age : Z) (m : QueueManager) : QueueManager * Z :=
  let total := map_fold (λ _ s acc, (cleanup_stale now max_age s).2 + acc) 0 (schedulers m) in
  (mkQueueManager (qm_config m) ((λ s, (cleanup_stale now max_age s).1) <$> schedulers m)
     (count_stale (global_stats m) total), total).

Definition cleanup_empty (m : QueueManager) : QueueManager :=
  mkQueueManager (qm_config m) (filter (λ kv, scheduler_is_empty kv.2 = false) (schedulers m))
    (global_stats m).
Definition peer_count (m : QueueManager) : Z := Z.of_nat (size (schedulers m)).

(** ** What a scheduler holds, apart from the deficits *)

Definition sumZ (l : list Z) : Z := foldr Z.add 0 l.

Definition pq_view (q : PriorityQueue) : list QueuedFrame * Z * Z :=
  (pq_queue q, pq_bytes q, pq_weight q).
Definition core (s : QueueScheduler) :=
  (qs_config s, map pq_view (queues s), qs_total_bytes s, qs_stats s).

Definition frames_bytes (l : list QueuedFrame) : Z := sumZ (map (λ e, len (qf_data e)) l).

Record queue_ok (c : QueueConfig) (i : nat) (v : list QueuedFrame * Z * Z) : Prop := {
  qo_bytes : v.1.2 = frames_bytes v.1.1;
  qo_depth : len v.1.1 ≤ max_queue_depth c;
  qo_place : Forall (λ e, priority_index (priority (header (qf_frame e))) = i) v.1.1
}.

Definition core_ok (k : QueueConfig * list (list QueuedFrame * Z * Z) * Z * QueueStats) : Prop :=
  let '(c, vs, total, st) := k in
  length vs = 4%nat ∧ (∀ i v, vs !! i = Some v → queue_ok c i v) ∧
  total = sumZ (map (λ v, v.1.2) vs) ∧ total ≤ max_total_bytes c ∧
  enqueued st = dequeued st + dropped_timeout st + sumZ (map (λ v, len v.1.1) vs).

(** The invariant of a scheduler: byte totals are exact, limits are kept, every
    frame waits in the queue of its priority, and every frame accepted is
    waiting, was sent, or was dropped as stale. *)
Definition scheduler_ok (s : QueueScheduler) : Prop := core_ok (core s).

Lemma sumZ_app l k : sumZ (l ++ k) = sumZ l + sumZ k.
Proof. unfold sumZ. induction l as [|x l IH]; cbn; [done|]. rewrite IH. lia. Qed.

Lemma sumZ_insert {A} (f : A → Z) (l : list A) i x y :
  l !! i = Some x → sumZ (map f (<[i := y]> l)) = sumZ (map f l) - f x + f y.
Proof.
  revert i. induction l as [|z l IH]; intros [|i] Hi; try done.
  - cbn in Hi. injection Hi as ->. cbn. lia.
  - change (<[S i := y]> (z :: l)) with (z :: <[i := y]> l).
    unfold sumZ in *. cbn [map foldr]. rewrite (IH i) by done. lia.
Qed.

Lemma frames_bytes_nonneg l : 0 ≤ frames_bytes l.
Proof.
  unfold frames_bytes, sumZ. induction l as [|e l IH]; cbn; [done|].
  pose proof (len_nonneg (qf_data e)). lia.
Qed.

Lemma queue_at_lookup s i :
  length (queues s) = 4%nat → (i < 4)%nat → queues s !! i = Some (queue_at s i).
Proof.
  intros Hl Hi. unfold queue_at. destruct (lookup_lt_is_Some_2 (queues s) i) as [q Hq]; [lia|].
  by rewrite Hq, (nth_lookup_Some _ _ _ _ Hq).
Qed.

Lemma priority_index_lt p : (priority_index p < 4)%nat.
Proof. destruct p; cbn; lia. Qed.

(** Replacing one queue. *)
Lemma core_ok_insert c vs total st i v v' total' st' :
  core_ok (c, vs, total, st) → vs !! i = Some v → queue_ok c i v' →
  total' = total - v.1.2 + v'.1.2 → total' ≤ max_total_bytes c →
  enqueued st' - dequeued st' - dropped_timeout st'
  = enqueued st - dequeued st - dropped_timeout st - len v.1.1 + len v'.1.1 →
  core_ok (c, <[i := v']> vs, total', st').
Proof.
  intros (H1 & H2 & H3 & H4 & H5) Hi Hv Ht Hm Hc. split_and!.
  - by rewrite length_insert.
  - intros j w Hj. destruct (decide (i = j)) as [<-|Hne].
    + rewrite list_lookup_insert_eq in Hj by (by eapply lookup_lt_Some). by injection Hj as <-.
    + rewrite list_lookup_insert_ne in Hj by done. eauto.
  - rewrite (sumZ_insert _ _ _ v) by done. lia.
  - done.
  - rewrite (sumZ_insert _ _ _ v) by done. lia.
Qed.

Lemma scheduler_new_ok c :
  0 ≤ max_queue_depth c → 0 ≤ max_total_bytes c → scheduler_ok (QueueScheduler_new c).
Proof.
  intros Hd Hb. split_and!; [done| |done|done|done].
  intros i v Hi. do 4 (destruct i as [|i]; [injection Hi as <-; by split; cbn|]). done.
Qed.

Lemma view_lookup s i q : queues s !! i = Some q → map pq_view (queues s) !! i = Some (pq_view q).
Proof. intros H. by rewrite list_lookup_fmap, H. Qed.

Lemma view_insert s i q : map pq_view (<[i := q]> (queues s)) = <[i := pq_view q]> (map pq_view (queues s)).
Proof. apply list_fmap_insert. Qed.

Lemma enqueue_ok now s f data dest : scheduler_ok s → scheduler_ok (enqueue now s f data dest).1.
Proof.
  intros H. unfold enqueue. set (i := priority_index _).
  destruct (Z.leb_spec (max_queue_depth (qs_config s)) (pq_len (queue_at s i))) as [|Hd]; [exact H|].
  destruct (Z.ltb_spec (max_total_bytes (qs_config s)) (qs_total_bytes s + len data)) as [|Hb]; [exact H|].
  pose proof H as (Hl & Hq & _). rewrite length_map in Hl.
  pose proof (view_lookup s i _ (queue_at_lookup s i Hl (priority_index_lt _))) as Hv.
  unfold scheduler_ok, core. cbn [fst take_from qs_config queues qs_total_bytes qs_stats].
  rewrite view_insert.
  destruct (Hq i _ Hv) as [Hb1 Hd1 Hp1]. cbn [fst snd pq_view] in Hb1, Hd1, Hp1. unfold pq_len in Hd.
  eapply core_ok_insert; [exact H|exact Hv| |cbn; lia|done|cbn; autorewrite with len; lia].
  split; cbn.
  - rewrite Hb1. unfold frames_bytes. rewrite map_app, sumZ_app. cbn. lia.
  - autorewrite with len. lia.
  - apply Forall_app. split; [done|by constructor].
Qed.

(** Taking the head of a queue, with whatever deficit is left. *)
Lemma take_from_ok s i e rest d :
  scheduler_ok s → (i < 4)%nat → pq_queue (queue_at s i) = e :: rest →
  scheduler_ok (take_from s i (mkPQ rest (pq_bytes (queue_at s i) - len (qf_data e))
                                 (pq_weight (queue_at s i)) d) e).
Proof.
  intros H Hi He. pose proof H as (Hl & Hq & Ht & Hm & _). rewrite length_map in Hl.
  pose proof (view_lookup s i _ (queue_at_lookup s i Hl Hi)) as Hv.
  unfold scheduler_ok, core. cbn [fst take_from qs_config queues qs_total_bytes qs_stats].
  rewrite view_insert.
  destruct (Hq i _ Hv) as [Hb1 Hd1 Hp1]. cbn [fst snd pq_view] in Hb1, Hd1, Hp1. rewrite He in *.
  unfold frames_bytes, sumZ in Hb1. cbn [map foldr] in Hb1. apply Forall_cons in Hp1 as [_ Hp1].
  revert Hd1. autorewrite with len. intros Hd1. pose proof (len_nonneg (qf_data e)).
  eapply core_ok_insert; [exact H|exact Hv| |cbn; lia|lia|cbn; rewrite He; autorewrite with len; lia].
  split; cbn; [unfold frames_bytes, sumZ in *; lia|lia|done].
Qed.

(** ** One round of the scheduler *)

Definition topped (q : PriorityQueue) : PriorityQueue :=
  if pq_is_empty q then q else set_deficit q ((pq_deficit q + pq_weight q) mod 2 ^ 32).

(** The queue at [i] has a frame that may go in this round. *)
Definition ready (s : QueueScheduler) (i : nat) : bool :=
  match pq_queue (queue_at s i) with
  | [] => false
  | e :: _ => (len (qf_data e) mod 2 ^ 32 <=? pq_deficit (topped (queue_at s i))) || (i =? 3)%nat
  end.

Definition set_queue (s : QueueScheduler) (i : nat) (q : PriorityQueue) : QueueScheduler :=
  mkScheduler (qs_config s) (<[i := q]> (queues s)) (qs_total_bytes s) (qs_stats s).

Definition top_up (s : QueueScheduler) (i : nat) : QueueScheduler :=
  if pq_is_empty (queue_at s i) then s else set_queue s i (topped (queue_at s i)).
Definition top_all (idxs : list nat) (s : QueueScheduler) : QueueScheduler := foldl top_up s idxs.

(** The head of queue [i] leaves. *)
Definition serve (s : QueueScheduler) (i : nat) : QueueScheduler :=
  match pq_queue (queue_at s i) with
  | [] => s
  | e :: rest =>
      let q := topped (queue_at s i) in
      take_from s i (mkPQ rest (pq_bytes q - len (qf_data e)) (pq_weight q)
                       (Z.max 0 (pq_deficit q - len (qf_data e) mod 2 ^ 32))) e
  end.

Lemma queue_at_insert s i j q :
  (i < length (queues s))%nat →
  nth j (<[i := q]> (queues s)) (PriorityQueue_new 0) = if decide (j = i) then q else queue_at s j.
Proof.
  intros Hi. unfold queue_at. rewrite !nth_lookup. destruct (decide (j = i)) as [->|Hne].
  - by rewrite list_lookup_insert_eq.
  - by rewrite list_lookup_insert_ne.
Qed.

Lemma topped_empty q : pq_is_empty q = true → topped q = q.
Proof. unfold topped. by intros ->. Qed.

Lemma top_up_at s i j :
  (i < length (queues s))%nat →
  queue_at (top_up s i) j = if decide (j = i) then topped (queue_at s i) else queue_at s j.
Proof.
  intros Hi. unfold top_up. destruct (pq_is_empty (queue_at s i)) eqn:E.
  - rewrite topped_empty by done. by destruct (decide (j = i)) as [->|].
  - unfold set_queue, queue_at at 1. cbn [queues]. by apply queue_at_insert.
Qed.

Lemma top_up_length s i : length (queues (top_up s i)) = length (queues s).
Proof. unfold top_up. destruct (pq_is_empty _); [done|]. apply length_insert. Qed.

Lemma top_up_core s i : core (top_up s i) = core s.
Proof.
  unfold top_up. destruct (pq_is_empty (queue_at s i)) eqn:E; [done|].
  unfold core, set_queue. cbn [qs_config queues qs_total_bytes qs_stats]. do 3 f_equal.
  rewrite view_insert. destruct (queues s !! i) as [q|] eqn:Hq.
  - apply list_insert_id. rewrite list_lookup_fmap, Hq. cbn [fmap option_fmap option_map]. f_equal.
    unfold queue_at, topped. rewrite (nth_lookup_Some _ _ _ _ Hq). by destruct (pq_is_empty q).
  - apply list_insert_ge. rewrite length_map. by apply lookup_ge_None.
Qed.

Lemma top_all_at idxs s j :
  NoDup idxs → Forall (λ i, i < length (queues s))%nat idxs →
  length (queues (top_all idxs s)) = length (queues s) ∧ core (top_all idxs s) = core s ∧
  queue_at (top_all idxs s) j = if decide (j ∈ idxs) then topped (queue_at s j) else queue_at s j.
Proof.
  revert s. induction idxs as [|i idxs IH]; intros s Hnd Hlt; [done|].
  apply NoDup_cons in Hnd as [Hni Hnd]. apply Forall_cons in Hlt as [Hi Hlt].
  destruct (IH (top_up s i)) as (H1 & H2 & H3); [done|by rewrite top_up_length|].
  cbn [top_all foldl]. fold (top_all idxs (top_up s i)).
  split_and!; [by rewrite H1, top_up_length|by rewrite H2, top_up_core|].
  rewrite H3, top_up_at by done. destruct (decide (j = i)) as [->|Hne].
  - rewrite decide_False by done. by rewrite decide_True by set_solver.
  - destruct (decide (j ∈ idxs)); [rewrite decide_True by set_solver|rewrite decide_False by set_solver]; done.
Qed.

Lemma ready_top_up s i j :
  (i < length (queues s))%nat → j ≠ i → ready (top_up s i) j = ready s j.
Proof. intros Hi Hne. unfold ready. by rewrite top_up_at, decide_False by done. Qed.

(** A first pass serves the first ready queue, having topped up those before it,
    or tops up all of them. *)
Lemma pass_true idxs s :
  NoDup idxs → Forall (λ i, i < length (queues s))%nat idxs →
  (∃ pre i post e, idxs = pre ++ i :: post ∧ Forall (λ j, ready s j = false) pre ∧ ready s i = true ∧
     head (pq_queue (queue_at s i)) = Some e ∧ pass true idxs s = (serve (top_all pre s) i, Some e)) ∨
  (Forall (λ j, ready s j = false) idxs ∧ pass true idxs s = (top_all idxs s, None)).
Proof.
  revert s. induction idxs as [|i idxs IH]; intros s Hnd Hlt; [by right|].
  apply NoDup_cons in Hnd as [Hni Hnd]. apply Forall_cons in Hlt as [Hi Hlt].
  assert (Hstep : ready s i = false → pass true (i :: idxs) s = pass true idxs (top_up s i)).
  { unfold ready, top_up. cbn [pass]. unfold pq_is_empty at 1, pq_peek, topped, pq_is_empty.
    destruct (pq_queue (queue_at s i)) as [|e rest] eqn:E; [done|]. cbn [set_deficit pq_queue pq_deficit].
    rewrite E. cbn [head]. by intros ->. }
  destruct (ready s i) eqn:Hr.
  - left. unfold ready in Hr. destruct (pq_queue (queue_at s i)) as [|e rest] eqn:E; [done|].
    exists [], i, idxs, e. split_and!; [done|by constructor|unfold ready; by rewrite E|by rewrite E|].
    cbn [pass top_all foldl]. unfold serve. revert Hr. unfold topped, pq_is_empty, pq_peek. rewrite E.
    cbn [set_deficit pq_queue pq_deficit]. rewrite E. cbn [head]. intros ->.
    unfold pq_dequeue. cbn [pq_queue pq_bytes pq_weight pq_deficit set_deficit]. by rewrite E.
  - rewrite Hstep by done.
    assert (Hsame : ∀ l, i ∉ l → Forall (λ j, ready (top_up s i) j = false) l → Forall (λ j, ready s j = false) l).
    { intros l Hl. rewrite !Forall_forall. intros H j Hj. rewrite <- (H j Hj). symmetry.
      apply ready_top_up; [done|]. by intros ->. }
    destruct (IH (top_up s i)) as [(pre & k & post & e & -> & Hp & Hk & He & Hpass)|[Hn Hpass]];
      [done|by rewrite top_up_length| |].
    + left. exists (i :: pre), k, post, e. assert (k ≠ i) by set_solver.
      rewrite ready_top_up in Hk by done. rewrite top_up_at, decide_False in He by done.
      split_and!; [done| |done|done|done]. constructor; [done|]. apply Hsame; [set_solver|done].
    + right. split; [|done]. constructor; [done|]. by apply Hsame.
Qed.

(** The second pass never finds anything the first one did not. *)
Lemma pass_false idxs s :
  Forall (λ i, match pq_queue (queue_at s i) with
               | [] => True
               | e :: _ => pq_deficit (queue_at s i) < len (qf_data e) mod 2 ^ 32 ∧ i ≠ 3%nat
               end ∧ (i < length (queues s))%nat) idxs →
  pass false idxs s = (s, None).
Proof.
  induction 1 as [|i idxs [Hi Hl] _ IH]; [done|]. cbn [pass]. unfold pq_is_empty, pq_peek.
  destruct (pq_queue (queue_at s i)) as [|e rest] eqn:E; [done|]. cbn [head].
  destruct Hi as [Hd H3]. destruct (Z.leb_spec (len (qf_data e) mod 2 ^ 32) (pq_deficit (queue_at s i))); [lia|].
  rewrite (proj2 (Nat.eqb_neq i 3)) by done. cbn [orb].
  replace (mkScheduler (qs_config s) (<[i := queue_at s i]> (queues s)) (qs_total_bytes s) (qs_stats s)) with s;
    [done|]. destruct s as [c qs t st]. cbn [queues queue_at] in *. f_equal. symmetry. apply list_insert_id.
  unfold queue_at. cbn [queues]. destruct (lookup_lt_is_Some_2 qs i Hl) as [q Hq].
  by rewrite Hq, (nth_lookup_Some _ _ _ _ Hq).
Qed.

Lemma rev_indices_ok s :
  length (queues s) = 4%nat → NoDup rev_indices ∧ Forall (λ i, i < length (queues s))%nat rev_indices.
Proof.
  intros ->. split; [|repeat constructor]. apply (bool_decide_unpack _). by vm_compute.
Qed.

Lemma dequeue_cases s :
  length (queues s) = 4%nat →
  (∃ pre i post e, rev_indices = pre ++ i :: post ∧ Forall (λ j, ready s j = false) pre ∧ ready s i = true ∧
     head (pq_queue (queue_at s i)) = Some e ∧ dequeue s = (serve (top_all pre s) i, Some e)) ∨
  (Forall (λ j, ready s j = false) rev_indices ∧ dequeue s = (top_all rev_indices s, None)).
Proof.
  intros Hl. destruct (rev_indices_ok s Hl) as [Hnd Hlt]. unfold dequeue.
  destruct (pass_true rev_indices s Hnd Hlt) as [(pre & i & post & e & E & Hp & Hi & He & ->)|[Hn ->]].
  - left. by exists pre, i, post, e.
  - right. split; [done|]. apply pass_false. rewrite Forall_forall in *. intros i Hi.
    destruct (top_all_at rev_indices s i Hnd) as (H1 & H2 & H3); [by apply Forall_forall|].
    rewrite H1, H3, decide_True by done. split; [|by apply Hlt]. specialize (Hn i Hi). revert Hn.
    unfold ready. replace (pq_queue (topped (queue_at s i))) with (pq_queue (queue_at s i))
      by (unfold topped; by destruct (pq_is_empty _)).
    destruct (pq_queue (queue_at s i)); [done|]. intros Hn%orb_false_iff.
    split; [lia|apply Nat.eqb_neq, Hn].
Qed.

Lemma topped_view q : pq_view (topped q) = pq_view q.
Proof. unfold topped. by destruct (pq_is_empty q). Qed.

Lemma core_ok_length s : scheduler_ok s → length (queues s) = 4%nat.
Proof. intros (H & _). by rewrite length_map in H. Qed.

Lemma serve_ok s i : scheduler_ok s → (i < 4)%nat → scheduler_ok (serve s i).
Proof.
  intros H Hi. unfold serve. destruct (pq_queue (queue_at s i)) as [|e rest] eqn:E; [done|].
  pose proof (topped_view (queue_at s i)) as [= _ -> ->]. by apply take_from_ok.
Qed.

Lemma pre_indices pre i post :
  rev_indices = pre ++ i :: post →
  (i < 4)%nat ∧ (i ∉ pre) ∧ NoDup pre ∧ Forall (λ j, j < 4)%nat pre ∧
  (∀ j, (i < j < 4)%nat → j ∈ pre).
Proof.
  unfold rev_indices. intros E.
  assert (Hc : (pre = [] ∧ i = 3%nat) ∨ (pre = [3%nat] ∧ i = 2%nat) ∨
               (pre = [3%nat; 2%nat] ∧ i = 1%nat) ∨ (pre = [3%nat; 2%nat; 1%nat] ∧ i = 0%nat)).
  { do 4 (destruct pre as [|? pre]; [injection E as <- <-; naive_solver|injection E as <- E]).
    by destruct pre. }
  clear E. destruct Hc as [[-> ->]|[[-> ->]|[[-> ->]|[-> ->]]]];
    (split_and!; [lia|set_solver|apply (bool_decide_unpack _); by vm_compute|repeat constructor; lia|]).
  all: intros j Hj; assert (j = 1 ∨ j = 2 ∨ j = 3)%nat as [-> | [-> | ->]] by lia; try lia; set_solver.
Qed.

Lemma dequeue_ok s : scheduler_ok s → scheduler_ok (dequeue s).1.
Proof.
  intros H. pose proof (core_ok_length s H) as Hl.
  destruct (rev_indices_ok s Hl) as [Hnd Hlt].
  destruct (dequeue_cases s Hl) as [(pre & i & post & e & E & _ & _ & _ & ->)|[_ ->]]; cbn [fst].
  - destruct (pre_indices _ _ _ E) as (Hi & _ & Hndp & Hp & _). apply serve_ok; [|done].
    unfold scheduler_ok. destruct (top_all_at pre s 0 Hndp) as (_ & -> & _); [by rewrite Hl|done].
  - unfold scheduler_ok. by destruct (top_all_at rev_indices s 0 Hnd Hlt) as (_ & -> & _).
Qed.

Lemma dequeue_priority_ok s p : scheduler_ok s → scheduler_ok (dequeue_priority s p).1.
Proof.
  intros H. unfold dequeue_priority, pq_dequeue.
  destruct (pq_queue (queue_at s (priority_index p))) as [|e rest] eqn:E; [done|].
  apply take_from_ok; [done|apply priority_index_lt|done].
Qed.

(** *** Stale frames *)

Lemma split_stale_spec now age l :
  let '(kept, n, b) := split_stale now age l in
  kept = filter (λ e, is_fresh now age e = true) l ∧ len l = len kept + n ∧
  frames_bytes l = frames_bytes kept + b.
Proof.
  induction l as [|e l IH]; [done|]. cbn [split_stale]. destruct (split_stale now age l) as [[kept n] b].
  destruct IH as (IH1 & IH2 & IH3). unfold frames_bytes, sumZ in *. destruct (is_fresh now age e) eqn:E.
  - rewrite filter_cons_True by done. autorewrite with len. cbn [map foldr]. split_and!; [congruence|lia|lia].
  - rewrite filter_cons_False by congruence. autorewrite with len. cbn [map foldr].
    split_and!; [congruence|lia|lia].
Qed.

Lemma cleanup_queues_spec now age c qs off :
  (∀ i v, map pq_view qs !! i = Some v → queue_ok c (off + i) v) →
  let '(qs', n, b) := cleanup_queues now age qs in
  length qs' = length qs ∧ (∀ i v, map pq_view qs' !! i = Some v → queue_ok c (off + i) v) ∧
  sumZ (map (λ v, v.1.2) (map pq_view qs)) = sumZ (map (λ v, v.1.2) (map pq_view qs')) + b ∧
  sumZ (map (λ v, len v.1.1) (map pq_view qs)) = sumZ (map (λ v, len v.1.1) (map pq_view qs')) + n ∧
  0 ≤ b.
Proof.
  revert off. induction qs as [|q qs IH]; intros off Hq; [done|]. cbn [cleanup_queues].
  pose proof (split_stale_spec now age (pq_queue q)) as Hs.
  destruct (split_stale now age (pq_queue q)) as [[kept n] b]. destruct Hs as (Hk & Hn & Hb).
  specialize (IH (S off)). destruct (cleanup_queues now age qs) as [[qs' n'] b'].
  destruct IH as (H1 & H2 & H3 & H4 & H5).
  { intros i v Hi. rewrite Nat.add_succ_comm. by apply (Hq (S i)). }
  destruct (Hq 0%nat _ eq_refl) as [Q1 Q2 Q3]. cbn [pq_view fst snd] in Q1, Q2, Q3.
  assert (Hb0 : 0 ≤ b).
  { clear -Hk Hb. assert (Hx : ∀ l, frames_bytes (filter (λ e, is_fresh now age e = true) l) ≤ frames_bytes l).
    { intros l. unfold frames_bytes, sumZ. induction l as [|e l IH]; [done|]. rewrite filter_cons.
      pose proof (len_nonneg (qf_data e)). case_decide; cbn [map foldr]; lia. }
    specialize (Hx (pq_queue q)). rewrite <- Hk in Hx. lia. }
  unfold sumZ in *. cbn [map foldr pq_view fst snd pq_queue pq_bytes length]. split_and!; [by rewrite H1| |lia|lia|lia].
  intros [|i] v Hi.
  - injection Hi as <-. rewrite Nat.add_0_r in *. split; cbn [fst snd pq_view pq_queue pq_bytes].
    + lia.
    + pose proof (length_filter (λ e, is_fresh now age e = true) (pq_queue q)).
      rewrite Hk. unfold len in *. lia.
    + rewrite Hk, Forall_forall in *. intros e [_ He]%list_elem_of_filter. by apply Q3.
  - rewrite <- Nat.add_succ_comm. by apply H2.
Qed.

Lemma cleanup_stale_ok now age s : scheduler_ok s → scheduler_ok (cleanup_stale now age s).1.
Proof.
  intros (H1 & H2 & H3 & H4 & H5). unfold cleanup_stale.
  pose proof (cleanup_queues_spec now age (qs_config s) (queues s) 0 H2) as Hc.
  destruct (cleanup_queues now age (queues s)) as [[qs n] b]. destruct Hc as (C1 & C2 & C3 & C4 & C5).
  rewrite length_map in H1. unfold scheduler_ok, core.
  cbn [fst qs_config queues qs_total_bytes qs_stats]. split_and!;
    cbn [count_stale enqueued dequeued dropped_timeout].
  - rewrite length_map. lia.
  - exact C2.
  - lia.
  - lia.
  - lia.
Qed.

(** ** Runs *)

Inductive queue_op :=
  | OpEnqueue (now : Z) (f : Frame) (data : list Z) (dest : SocketAddr)
  | OpDequeue
  | OpDequeuePriority (p : Priority)
  | OpCleanup (now max_age : Z).

Definition queue_step (s : QueueScheduler) (o : queue_op) : QueueScheduler :=
  match o with
  | OpEnqueue now f data dest => (enqueue now s f data dest).1
  | OpDequeue => (dequeue s).1
  | OpDequeuePriority p => (dequeue_priority s p).1
  | OpCleanup now age => (cleanup_stale now age s).1
  end.

Lemma queue_step_ok s o : scheduler_ok s → scheduler_ok (queue_step s o).
Proof.
  destruct o; cbn; [apply enqueue_ok|apply dequeue_ok|apply dequeue_priority_ok|apply cleanup_stale_ok].
Qed.

Lemma top_all_config idxs s : qs_config (top_all idxs s) = qs_config s.
Proof.
  revert s. induction idxs as [|i idxs IH]; intros s; [done|]. cbn [top_all foldl].
  fold (top_all idxs (top_up s i)). rewrite IH. unfold top_up. by destruct (pq_is_empty _).
Qed.

Lemma queue_step_config s o : scheduler_ok s → qs_config (queue_step s o) = qs_config s.
Proof.
  intros H. destruct o; cbn [queue_step].
  - unfold enqueue. destruct (_ <=? _); [done|]. by destruct (_ <? _).
  - destruct (dequeue_cases s (core_ok_length s H)) as [(pre & i & post & e & _ & _ & _ & _ & ->)|[_ ->]];
      cbn [fst]; [|apply top_all_config].
    unfold serve. destruct (pq_queue _); apply top_all_config.
  - unfold dequeue_priority. by destruct (pq_dequeue _) as [? []].
  - unfold cleanup_stale. by destruct (cleanup_queues _ _ _) as [[? ?] ?].
Qed.

(** What a dequeue leaves in the queues. *)
Lemma serve_queue s i j e rest :
  length (queues s) = 4%nat → (i < 4)%nat → pq_queue (queue_at s i) = e :: rest →
  pq_queue (queue_at (serve s i) j) = if decide (j = i) then rest else pq_queue (queue_at s j).
Proof.
  intros Hl Hi E. unfold serve. rewrite E. unfold take_from, queue_at at 1. cbn [queues].
  rewrite queue_at_insert by lia. by destruct (decide (j = i)).
Qed.

Lemma topped_queue q : pq_queue (topped q) = pq_queue q.
Proof. by pose proof (topped_view q) as [= -> _ _]. Qed.

Lemma top_all_queue idxs s j :
  NoDup idxs → Forall (λ i, i < length (queues s))%nat idxs →
  pq_queue (queue_at (top_all idxs s) j) = pq_queue (queue_at s j).
Proof.
  intros H1 H2. destruct (top_all_at idxs s j H1 H2) as (_ & _ & ->). case_decide; [|done].
  apply topped_queue.
Qed.

(** Repeated calls. *)
Fixpoint dequeues (n : nat) (s : QueueScheduler) : list (option QueuedFrame) :=
  match n with
  | O => []
  | S n => (dequeue s).2 :: dequeues n (dequeue s).1
  end.

Lemma dequeues_serve n s i e rest :
  length (queues s) = 4%nat → (i < 4)%nat → pq_queue (queue_at s i) = e :: rest →
  0 ≤ pq_deficit (queue_at s i) → 0 ≤ pq_weight (queue_at s i) →
  pq_deficit (queue_at s i) + Z.of_nat n * pq_weight (queue_at s i) < 2 ^ 32 →
  len (qf_data e) ≤ pq_deficit (queue_at s i) + Z.of_nat n * pq_weight (queue_at s i) →
  (0 < n)%nat → ∃ e', Some e' ∈ dequeues n s.
Proof.
  revert s. induction n as [|n IH]; intros s Hl Hi E Hd Hw Hmax Hsz Hn; [lia|]. cbn [dequeues].
  destruct (rev_indices_ok s Hl) as [Hnd Hlt].
  destruct (dequeue_cases s Hl) as [(pre & j & post & e' & _ & _ & _ & _ & ->)|[Hnone ->]].
  { exists e'. cbn. set_solver. }
  assert (Hin : i ∈ rev_indices) by (unfold rev_indices; destruct i as [|[|[|[|]]]]; [set_solver..|lia]).
  rewrite Forall_forall in Hnone. specialize (Hnone i Hin). unfold ready in Hnone. rewrite E in Hnone.
  assert (Ht : topped (queue_at s i)
    = set_deficit (queue_at s i) (pq_deficit (queue_at s i) + pq_weight (queue_at s i))).
  { unfold topped, pq_is_empty. rewrite E. rewrite Z.mod_small; [done|]. split; [lia|]. nia. }
  rewrite Ht in Hnone. cbn [set_deficit pq_deficit] in Hnone. apply orb_false_iff in Hnone as [Hnr _].
  apply Z.leb_gt in Hnr. pose proof (len_nonneg (qf_data e)).
  rewrite Z.mod_small in Hnr by lia. cbn [snd fst].
  destruct (top_all_at rev_indices s i Hnd Hlt) as (H1 & _ & H3). rewrite decide_True, Ht in H3 by done.
  destruct (IH (top_all rev_indices s)) as [e' He']; [by rewrite H1|done|by rewrite top_all_queue|..];
    rewrite ?H3; cbn [set_deficit pq_deficit pq_weight]; try lia.
  exists e'. set_solver.
Qed.

(** ** Properties *)

(** Accounting of the send queues.  After any sequence of enqueues, dequeues,
    targeted dequeues and clean-ups, each queue's byte count and the total are the
    sums over the frames waiting (so no subtraction ever goes below zero), no
    limit is exceeded, each frame waits in the queue of its priority, and every
    frame accepted is waiting, was handed out, or was dropped as stale. *)
Theorem queue_accounting c ops :
  0 ≤ max_queue_depth c → 0 ≤ max_total_bytes c →
  let s := foldl queue_step (QueueScheduler_new c) ops in
  length (queues s) = 4%nat ∧ qs_config s = c ∧
  (∀ i q, queues s !! i = Some q →
     pq_bytes q = frames_bytes (pq_queue q) ∧ pq_len q ≤ max_queue_depth c ∧
     Forall (λ e, priority_index (priority (header (qf_frame e))) = i) (pq_queue q)) ∧
  qs_total_bytes s = sumZ (map pq_bytes (queues s)) ∧ 0 ≤ qs_total_bytes s ≤ max_total_bytes c ∧
  enqueued (qs_stats s) = dequeued (qs_stats s) + dropped_timeout (qs_stats s) + total_depth s.
Proof.
  intros Hd Hb s.
  assert (H : scheduler_ok s ∧ qs_config s = c).
  { subst s. generalize (scheduler_new_ok c Hd Hb). assert (Hc : qs_config (QueueScheduler_new c) = c) by done.
    revert Hc. generalize (QueueScheduler_new c). induction ops as [|o ops IH]; intros s Hc H; [done|].
    apply IH; [|by apply queue_step_ok]. rewrite <- Hc. by apply queue_step_config. }
  destruct H as [(H1 & H2 & H3 & H4 & H5) Hc]. rewrite Hc in *. rewrite length_map in H1.
  rewrite map_map in H3, H5. split_and!; [done|done| |done| |done|done].
  - intros i q Hq. destruct (H2 i _ (view_lookup s i q Hq)). done.
  - rewrite H3. unfold sumZ. assert (Hn : Forall (λ q, 0 ≤ pq_bytes q) (queues s)).
    { apply Forall_lookup. intros i q Hq. destruct (H2 i _ (view_lookup s i q Hq)) as [Hb' _ _].
      cbn in Hb'. rewrite Hb'. apply frames_bytes_nonneg. }
    clear -Hn. induction Hn; cbn in *; lia.
Qed.

Definition sample_urgent (n : nat) : Frame :=
  Frame_new (mkHeader 1 FStream FrameFlags_default Raw Critical HybridClock_zero IntentHash_zero
               (replicate 32 7)) PRaw (replicate n 1).
Definition sample_normal (n : nat) : Frame :=
  Frame_new (with_trust_level (FrameHeader_new FStream (replicate 32 7)) Raw) PRaw (replicate n 1).
Definition sample_queue : QueueScheduler :=
  (enqueue 0 (QueueScheduler_new QueueConfig_default) (sample_normal 8) (replicate 250 1) sample_peer).1.

Lemma queue_accounting_witness :
  qs_total_bytes (foldl queue_step (QueueScheduler_new QueueConfig_default)
    [OpEnqueue 0 (sample_normal 8) (replicate 250 1) sample_peer; OpDequeue; OpCleanup 9 5]) ≤ 10000000.
Proof.
  apply (queue_accounting QueueConfig_default
    [OpEnqueue 0 (sample_normal 8) (replicate 250 1) sample_peer; OpDequeue; OpCleanup 9 5]);
    vm_compute; discriminate.
Defined.

(** What a dequeue does.  It hands out the oldest frame of the most urgent ready
    queue, a queue being ready when its deficit, topped up by its weight, covers
    the size of its first frame, the critical one always; every other queue keeps
    its frames in order.  It returns nothing exactly when no queue is ready, which
    may be the case although frames are waiting. *)
Theorem dequeue_decision s :
  scheduler_ok s →
  match (dequeue s).2 with
  | Some e =>
      ∃ i rest, (i < 4)%nat ∧ pq_queue (queue_at s i) = e :: rest ∧ ready s i = true ∧
        (∀ j, (i < j < 4)%nat → ready s j = false) ∧
        (∀ j, pq_queue (queue_at (dequeue s).1 j)
              = if decide (j = i) then rest else pq_queue (queue_at s j))
  | None =>
      (∀ j, (j < 4)%nat → ready s j = false) ∧
      (∀ j, pq_queue (queue_at (dequeue s).1 j) = pq_queue (queue_at s j))
  end ∧
  (∀ e rest, pq_queue (queue_at s 3) = e :: rest → (dequeue s).2 = Some e).
Proof.
  intros H. pose proof (core_ok_length s H) as Hl. destruct (rev_indices_ok s Hl) as [Hnd Hlt].
  destruct (dequeue_cases s Hl) as [(pre & i & post & e & E & Hp & Hi & He & ->)|[Hn ->]]; cbn [fst snd].
  - destruct (pre_indices _ _ _ E) as (Hi4 & Hni & Hndp & Hp4 & Hpre).
    rewrite Forall_forall in Hp. rewrite <- Hl in Hp4.
    destruct (pq_queue (queue_at s i)) as [|x rest] eqn:Eq; [done|]. injection He as ->. split.
    + exists i, rest. split_and!; [done|done|done|by eauto|]. intros j.
      destruct (top_all_at pre s i Hndp Hp4) as (H1 & _ & H3). rewrite decide_False in H3 by done.
      rewrite (serve_queue _ i j e rest); [|by rewrite H1|done|by rewrite H3].
      destruct (decide (j = i)); [done|]. by apply top_all_queue.
    + intros e3 rest3 E3. destruct (decide (i = 3)%nat) as [->|Hne]; [congruence|].
      assert (Hr : ready s 3 = false) by (apply Hp, Hpre; lia). unfold ready in Hr.
      rewrite E3, orb_true_r in Hr. done.
  - rewrite Forall_forall in Hn.
    assert (Hj : ∀ j, (j < 4)%nat → ready s j = false).
    { intros j Hj. apply Hn. unfold rev_indices. destruct j as [|[|[|[|]]]]; [set_solver..|lia]. }
    split; [split; [done|]|].
    + intros j. by apply top_all_queue.
    + intros e3 rest3 E3. specialize (Hj 3%nat ltac:(lia)). unfold ready in Hj.
      rewrite E3, orb_true_r in Hj. done.
Qed.

Lemma sample_queue_ok : scheduler_ok sample_queue.
Proof. apply enqueue_ok, scheduler_new_ok; vm_compute; discriminate. Qed.

Lemma dequeue_decision_witness :
  (dequeue (enqueue 3 sample_queue (sample_urgent 1) [1; 2; 3] sample_other).1).2
  = Some (mkQueued (sample_urgent 1) [1; 2; 3] sample_other 3 0).
Proof.
  apply (proj2 (dequeue_decision (enqueue 3 sample_queue (sample_urgent 1) [1; 2; 3] sample_other).1
    (enqueue_ok 3 sample_queue (sample_urgent 1) [1; 2; 3] sample_other sample_queue_ok)) _ []).
  vm_compute. reflexivity.
Defined.

(** Progress.  While frames wait, repeated dequeues hand one out after a bounded
    number of calls: as many as it takes some queue's deficit, growing by its
    weight at each call, to cover the size of its first frame.  One call is not
    enough: with the default weights a frame of 250 bytes of normal priority, alone in
    the queues, is refused twice. *)
Theorem dequeue_progress n s i e rest :
  scheduler_ok s → (i < 4)%nat → pq_queue (queue_at s i) = e :: rest →
  0 ≤ pq_deficit (queue_at s i) → 0 ≤ pq_weight (queue_at s i) → (0 < n)%nat →
  len (qf_data e) ≤ pq_deficit (queue_at s i) + Z.of_nat n * pq_weight (queue_at s i) < 2 ^ 32 →
  (∃ e', Some e' ∈ dequeues n s) ∧
  dequeues 3 sample_queue
  = [None; None; Some (mkQueued (sample_normal 8) (replicate 250 1) sample_peer 0 0)].
Proof.
  intros H Hi E Hd Hw Hn [Hlo Hhi]. split; [|vm_compute; reflexivity].
  eapply dequeues_serve; try done. by apply core_ok_length.
Qed.

Lemma dequeue_progress_witness : ∃ e', Some e' ∈ dequeues 3 sample_queue.
Proof.
  eapply (proj1 (dequeue_progress 3 sample_queue 1 _ _ sample_queue_ok ltac:(lia)
    ltac:(vm_compute; reflexivity) ltac:(vm_compute; discriminate) ltac:(vm_compute; discriminate)
    ltac:(lia) ltac:(vm_compute; split; [discriminate|reflexivity]))).
Defined.
