(* ===== verification/Router.v ===== *)
(** * Routing (axiom-router/src/lib.rs, forward.rs, registry.rs; axiom-clock/src/lib.rs)

    The table from intents to capable nodes and its route selection, the
    multi-hop forwarding engine with its loop detection, the load balancer and
    the registry of endpoints.  Instants and the system clock are arguments;
    statistics are counters. *)

From stdpp Require Import base numbers list gmap sorting.
From S2P Require Import Prelude Types Text.

(** ** Clock manager (axiom-clock) *)

Record ClockManager := mkClockManager { cm_clock : HybridClock }.
Definition ClockManager_with_clock (c : HybridClock) : ClockManager := mkClockManager c.
Definition ClockManager_current (m : ClockManager) : HybridClock := cm_clock m.
Definition ClockManager_tick (m : ClockManager) : ClockManager * HybridClock :=
  (mkClockManager (HybridClock_tick (cm_clock m)), HybridClock_tick (cm_clock m)).
Definition ClockManager_update (m : ClockManager) (received : HybridClock) : ClockManager :=
  mkClockManager (HybridClock_update (cm_clock m) received).
Definition sync_physical (now : Z) (m : ClockManager) : ClockManager :=
  if physical (cm_clock m) <? now then mkClockManager (mkClock now 0) else m.

(** ** Routing table (lib.rs) *)

Record RouteEntry := mkRoute {
  re_node_id : NodeId;
  re_trust_level : TrustLevel;
  latency_ms : Z;
  capacity : Z;
  re_last_seen : Z
}.

Record RoutingTable := mkTable {
  routes : gmap IntentHash (list RouteEntry);
  rt_local_id : NodeId
}.
Definition RoutingTable_new (id : NodeId) : RoutingTable := mkTable ∅ id.

Definition register (t : RoutingTable) (h : IntentHash) (e : RouteEntry) : RoutingTable :=
  mkTable (<[h := default [] (routes t !! h) ++ [e]]> (routes t)) (rt_local_id t).

Definition unregister (t : RoutingTable) (h : IntentHash) (n : NodeId) : RoutingTable :=
  match routes t !! h with
  | None => t
  | Some es =>
      let es := filter (λ e, re_node_id e ≠ n) es in
      match es with
      | [] => mkTable (delete h (routes t)) (rt_local_id t)
      | _ => mkTable (<[h := es]> (routes t)) (rt_local_id t)
      end
  end.

Definition lookup_routes (t : RoutingTable) (h : IntentHash) : option (list RouteEntry) := routes t !! h.

Definition route_score (e : RouteEntry) : Z :=
  TrustLevel_to_u8 (re_trust_level e) * 100 + (255 - capacity e) * 10 + Z.max 0 (1000 - latency_ms e).

(** [Iterator::max_by_key] keeps the last of several maximal elements. *)
Definition max_by_key {A} (key : A → Z) (l : list A) : option A :=
  foldl (λ acc x, match acc with
                  | None => Some x
                  | Some y => if key x <? key y then Some y else Some x
                  end) None l.

Definition select_best (t : RoutingTable) (h : IntentHash) (priority : Z) : option RouteEntry :=
  match routes t !! h with
  | None => None
  | Some es =>
      max_by_key (λ e, route_score e * (if 200 <? priority then 2 else 1)) es
  end.

(** [sort_by] is stable; the order is by decreasing score. *)
Fixpoint insert_scored (x : RouteEntry) (l : list RouteEntry) : list RouteEntry :=
  match l with
  | [] => [x]
  | y :: l' => if route_score y <=? route_score x then x :: l else y :: insert_scored x l'
  end.
Definition sort_scored (l : list RouteEntry) : list RouteEntry := foldr insert_scored [] l.

Definition select_top_k (t : RoutingTable) (h : IntentHash) (k : Z) : list RouteEntry :=
  match routes t !! h with
  | None => []
  | Some es => take (Z.to_nat k) (sort_scored es)
  end.

Fixpoint update_first (n : NodeId) (latency cap : Z) (es : list RouteEntry) : list RouteEntry :=
  match es with
  | [] => []
  | e :: es =>
      if bool_decide (re_node_id e = n)
      then mkRoute (re_node_id e) (re_trust_level e) latency cap (re_last_seen e) :: es
      else e :: update_first n latency cap es
  end.

Definition update_metrics (t : RoutingTable) (h : IntentHash) (n : NodeId) (latency cap : Z) :
    RoutingTable :=
  match routes t !! h with
  | None => t
  | Some es => mkTable (<[h := update_first n latency cap es]> (routes t)) (rt_local_id t)
  end.

Definition num_intents (t : RoutingTable) : Z := Z.of_nat (size (routes t)).
Definition num_routes (t : RoutingTable) : Z := map_fold (λ _ es acc, len es + acc) 0 (routes t).

(** ** Forwarding (forward.rs) *)

Definition MAX_HOP_COUNT : Z := 32.

Inductive DropReason := LoopDetected | HopCountExceeded | Duplicate | NoRoute | DropExpired.
Inductive ForwardDecision :=
  | DeliverLocal
  | Forward (to : list NodeId)
  | DeliverAndForward (to : list NodeId)
  | Drop (why : DropReason).

Record FrameHistory := mkHistory { fh_clock : HybridClock; seen_count : Z; first_seen : Z }.

Definition FrameKey := (IntentHash * Z)%type.
Definition FrameKey_from_frame (f : Frame) : FrameKey :=
  (intent_hash (header f),
   match trace_id f with
   | Some t => TraceId_as_u64 t
   | None =>
       Z.lxor (from_be (take 8 (sender_id (header f))))
         (Z.lxor (physical (clock (header f))) (logical (clock (header f))))
   end).

Record ForwardingStats := mkFStats {
  delivered_local : Z; forwarded : Z; loops_detected : Z; hop_exceeded : Z; fs_duplicates : Z; no_route : Z
}.

Record ForwardingEngine := mkEngine {
  fe_local_id : NodeId;
  frame_history : gmap FrameKey FrameHistory;
  fe_clock : ClockManager;
  local_intents : gset IntentHash;
  fe_stats : ForwardingStats
}.
Definition ForwardingEngine_new (now : HybridClock) (id : NodeId) : ForwardingEngine :=
  mkEngine id ∅ (mkClockManager now) ∅ (mkFStats 0 0 0 0 0 0).

Definition register_local_intent (e : ForwardingEngine) (h : IntentHash) : ForwardingEngine :=
  mkEngine (fe_local_id e) (frame_history e) (fe_clock e) ({[h]} ∪ local_intents e) (fe_stats e).
Definition unregister_local_intent (e : ForwardingEngine) (h : IntentHash) : ForwardingEngine :=
  mkEngine (fe_local_id e) (frame_history e) (fe_clock e) (local_intents e ∖ {[h]}) (fe_stats e).

Definition count_decision (st : ForwardingStats) (d : ForwardDecision) : ForwardingStats :=
  match d with
  | DeliverAndForward _ =>
      mkFStats (delivered_local st + 1) (forwarded st + 1) (loops_detected st) (hop_exceeded st)
        (fs_duplicates st) (no_route st)
  | DeliverLocal =>
      mkFStats (delivered_local st + 1) (forwarded st) (loops_detected st) (hop_exceeded st)
        (fs_duplicates st) (no_route st)
  | Forward _ =>
      mkFStats (delivered_local st) (forwarded st + 1) (loops_detected st) (hop_exceeded st)
        (fs_duplicates st) (no_route st)
  | Drop LoopDetected =>
      mkFStats (delivered_local st) (forwarded st) (loops_detected st + 1) (hop_exceeded st)
        (fs_duplicates st) (no_route st)
  | Drop _ =>
      mkFStats (delivered_local st) (forwarded st) (loops_detected st) (hop_exceeded st)
        (fs_duplicates st) (no_route st + 1)
  end.

(** The last part of [decide]: where the frame goes. *)
Definition destination_decision (e : ForwardingEngine) (f : Frame) (next_hops : list NodeId) :
    ForwardDecision :=
  let is_for_us := bool_decide (intent_hash (header f) ∈ local_intents e) in
  let should_forward :=
    negb (match next_hops with [] => true | _ => false end)
    && negb (forallb (λ n, bool_decide (n = fe_local_id e)) next_hops) in
  let forward_to := filter (λ n, n ≠ fe_local_id e) next_hops in
  match is_for_us, should_forward && negb (match forward_to with [] => true | _ => false end) with
  | true, true => DeliverAndForward forward_to
  | true, false => DeliverLocal
  | false, true => Forward forward_to
  | false, false => Drop NoRoute
  end.

Definition decide_frame (now : Z) (e : ForwardingEngine) (f : Frame) (next_hops : list NodeId) :
    ForwardingEngine * ForwardDecision :=
  let c := clock (header f) in
  let cm := ClockManager_update (fe_clock e) c in
  let key := FrameKey_from_frame f in
  let continue hist :=
    let e' := mkEngine (fe_local_id e) (<[key := hist]> (frame_history e)) cm (local_intents e) (fe_stats e) in
    let d := destination_decision e' f next_hops in
    (mkEngine (fe_local_id e') (frame_history e') (fe_clock e') (local_intents e')
       (count_decision (fe_stats e') d), d) in
  match frame_history e !! key with
  | Some h =>
      if happens_before c (fh_clock h) || bool_decide (c = fh_clock h) then
        (mkEngine (fe_local_id e)
           (<[key := mkHistory (fh_clock h) (seen_count h + 1) (first_seen h)]> (frame_history e))
           cm (local_intents e) (count_decision (fe_stats e) (Drop LoopDetected)), Drop LoopDetected)
      else continue (mkHistory c (seen_count h + 1) (first_seen h))
  | None => continue (mkHistory c 1 now)
  end.

Definition set_clock (f : Frame) (c : HybridClock) : Frame :=
  mkFrame (mkHeader (version (header f)) (frame_type (header f)) (flags (header f))
             (trust_level (header f)) (priority (header f)) c (intent_hash (header f))
             (sender_id (header f)))
    (trace_id f) (routing f) (fragment_info f) (payload_header f) (payload f) (auth f).

Definition prepare_forward (e : ForwardingEngine) (f : Frame) : ForwardingEngine * Frame :=
  let '(cm, c) := ClockManager_tick (fe_clock e) in
  (mkEngine (fe_local_id e) (frame_history e) cm (local_intents e) (fe_stats e), set_clock f c).

Definition cleanup_history (now max_age : Z) (e : ForwardingEngine) : ForwardingEngine :=
  mkEngine (fe_local_id e)
    (filter (λ kh, Z.max 0 (now - first_seen kh.2) < max_age) (frame_history e))
    (fe_clock e) (local_intents e) (fe_stats e).
Definition history_size (e : ForwardingEngine) : Z := Z.of_nat (size (frame_history e)).

(** *** Load balancer *)

Inductive LoadBalanceStrategy := RoundRobin | Random | PowerOfTwo | LowestLatency | WeightedCapacity.
Record LoadBalancer := mkBalancer { strategy : LoadBalanceStrategy; round_robin_index : Z }.
Definition LoadBalancer_new (s : LoadBalanceStrategy) : LoadBalancer := mkBalancer s 0.

Definition select (b : LoadBalancer) (rs : list NodeId) : LoadBalancer * option NodeId :=
  match rs with
  | [] => (b, None)
  | r0 :: _ =>
      match strategy b with
      | RoundRobin =>
          let idx := round_robin_index b mod len rs in
          (mkBalancer (strategy b) (u64_add (round_robin_index b) 1), rs !! Z.to_nat idx)
      | Random =>
          let idx := u64_add (u64_mul (round_robin_index b) 1103515245) 12345 mod len rs in
          (mkBalancer (strategy b) idx, rs !! Z.to_nat idx)
      | _ => (b, Some r0)
      end
  end.

(** ** Registry (registry.rs) *)

Inductive Endpoint :=
  | Udp (addr : text)
  | Relay (via : NodeId) (token : list Z)
  | LocalEndpoint.
Definition endpoint_is_local (e : Endpoint) : bool := match e with LocalEndpoint => true | _ => false end.
Definition needs_relay (e : Endpoint) : bool := match e with Relay _ _ => true | _ => false end.

Record NodeInfo := mkNodeInfo {
  endpoint : Endpoint;
  alternatives : list Endpoint;
  ni_last_seen : Z;
  latency_us : Z;
  reachable : bool;
  metadata : option (list Z)
}.
Definition NodeInfo_new (e : Endpoint) : NodeInfo := mkNodeInfo e [] 0 0 true None.
Definition with_alternative (i : NodeInfo) (e : Endpoint) : NodeInfo :=
  mkNodeInfo (endpoint i) (alternatives i ++ [e]) (ni_last_seen i) (latency_us i) (reachable i) (metadata i).
Definition with_metadata (i : NodeInfo) (m : list Z) : NodeInfo :=
  mkNodeInfo (endpoint i) (alternatives i) (ni_last_seen i) (latency_us i) (reachable i) (Some m).

Definition best_endpoint (i : NodeInfo) : Endpoint :=
  if reachable i then endpoint i else default (endpoint i) (head (alternatives i)).

Definition mark_unreachable (i : NodeInfo) : NodeInfo :=
  match alternatives i with
  | [] => mkNodeInfo (endpoint i) [] (ni_last_seen i) (latency_us i) false (metadata i)
  | a :: alts =>
      mkNodeInfo a (alts ++ [endpoint i]) (ni_last_seen i) (latency_us i) true (metadata i)
  end.

Definition mark_reachable (i : NodeInfo) (now latency : Z) : NodeInfo :=
  mkNodeInfo (endpoint i) (alternatives i) now
    (if latency_us i =? 0 then latency
     else (((latency_us i * 7) mod 2 ^ 32 + latency) mod 2 ^ 32) / 8)
    true (metadata i).

Record NodeRegistry := mkRegistry {
  nodes : gmap NodeId NodeInfo;
  nr_local_id : NodeId;
  local_endpoint : Endpoint
}.
Definition NodeRegistry_new (id : NodeId) (e : Endpoint) : NodeRegistry := mkRegistry ∅ id e.
Definition set_nodes (r : NodeRegistry) m : NodeRegistry := mkRegistry m (nr_local_id r) (local_endpoint r).
Definition registry_register (r : NodeRegistry) (n : NodeId) (i : NodeInfo) : NodeRegistry :=
  set_nodes r (<[n := i]> (nodes r)).
Definition registry_unregister (r : NodeRegistry) (n : NodeId) : NodeRegistry :=
  set_nodes r (delete n (nodes r)).
Definition registry_lookup (r : NodeRegistry) (n : NodeId) : option NodeInfo :=
  if bool_decide (n = nr_local_id r) then None else nodes r !! n.
Definition endpoint_for (r : NodeRegistry) (n : NodeId) : option Endpoint :=
  best_endpoint <$> registry_lookup r n.
Definition mark_success (r : NodeRegistry) (n : NodeId) (now latency : Z) : NodeRegistry :=
  set_nodes r (alter (λ i, mark_reachable i now latency) n (nodes r)).
Definition mark_failure (r : NodeRegistry) (n : NodeId) : NodeRegistry :=
  set_nodes r (alter mark_unreachable n (nodes r)).
Definition registry_cleanup_stale (now max_age : Z) (r : NodeRegistry) : NodeRegistry :=
  set_nodes r (filter (λ ni, u64_saturating_sub now (ni_last_seen ni.2) < max_age) (nodes r)).

(** ** Route selection *)

Lemma max_by_key_acc {A} (key : A → Z) l y :
  ∃ pre best post, y :: l = pre ++ best :: post ∧
    foldl (λ acc x, match acc with
                    | None => Some x
                    | Some y => if key x <? key y then Some y else Some x
                    end) (Some y) l = Some best ∧
    Forall (λ x, key x ≤ key best) pre ∧ Forall (λ x, key x < key best) post.
Proof.
  revert y. induction l as [|x l IH]; intros y; [by exists [], y, []|]. cbn [foldl].
  destruct (Z.ltb_spec (key x) (key y)) as [Hlt|Hge].
  - destruct (IH y) as (pre & best & post & E & Hf & Hpre & Hpost). destruct pre as [|z pre].
    + cbn in E. injection E as <- <-. exists [], y, (x :: l). split_and!; [done|done|done|by constructor].
    + cbn in E. injection E as <- ->. exists (y :: x :: pre), best, post.
      apply Forall_cons in Hpre as [Hy Hpre]. split_and!; [done|done| |done].
      constructor; [done|]. constructor; [lia|done].
  - destruct (IH x) as (pre & best & post & E & Hf & Hpre & Hpost).
    exists (y :: pre), best, post. cbn. rewrite <- E. split_and!; [done|done| |done].
    constructor; [|done]. destruct pre as [|z pre].
    + cbn in E. injection E as <- <-. lia.
    + cbn in E. injection E as <- _. apply Forall_cons in Hpre as [Hz _]. lia.
Qed.

Lemma max_by_key_spec {A} (key : A → Z) l :
  l ≠ [] → ∃ pre best post, l = pre ++ best :: post ∧ max_by_key key l = Some best ∧
    Forall (λ x, key x ≤ key best) pre ∧ Forall (λ x, key x < key best) post.
Proof. destruct l as [|y l]; [done|]. intros _. apply max_by_key_acc. Qed.

(** The last maximum is the same for keys in the same order. *)
Lemma max_by_key_monotone {A} (key key' : A → Z) l :
  (∀ x y, key x < key y ↔ key' x < key' y) → max_by_key key l = max_by_key key' l.
Proof.
  intros H. unfold max_by_key. generalize (@None A). induction l as [|x l IH]; intros acc; [done|].
  cbn [foldl]. rewrite IH. f_equal. destruct acc as [y|]; [|done].
  destruct (Z.ltb_spec (key x) (key y)) as [H1|H1], (Z.ltb_spec (key' x) (key' y)) as [H2|H2];
    try done; apply H in H1 || apply H in H2; lia.
Qed.

Abbreviation score_order := (λ a b, route_score b ≤ route_score a).

Lemma insert_scored_perm x l : insert_scored x l ≡ₚ x :: l.
Proof.
  induction l as [|y l IH]; [done|]. cbn. destruct (_ <=? _); [done|]. rewrite IH. constructor.
Qed.

Lemma insert_scored_sorted x l : StronglySorted score_order l → StronglySorted score_order (insert_scored x l).
Proof.
  induction 1 as [|y l Hs IH Hy]; [by repeat constructor|]. cbn.
  destruct (Z.leb_spec (route_score y) (route_score x)).
  - constructor; [by constructor|]. constructor; [done|]. eapply Forall_impl; [exact Hy|]. cbn. lia.
  - constructor; [done|]. rewrite insert_scored_perm. constructor; [lia|done].
Qed.

Lemma sort_scored_spec l : sort_scored l ≡ₚ l ∧ StronglySorted score_order (sort_scored l).
Proof.
  induction l as [|x l [IH1 IH2]]; [by repeat constructor|]. cbn. split.
  - by rewrite insert_scored_perm, IH1.
  - by apply insert_scored_sorted.
Qed.

(** ** One hop *)

(** The invariant of a frame in flight: every clock involved is below the bound. *)
Definition below (l : Z) (c : HybridClock) : Prop := clock_ok c ∧ logical c ≤ l.

Definition unseen (e : ForwardingEngine) (f : Frame) : Prop :=
  ∀ h, frame_history e !! FrameKey_from_frame f = Some h → happens_before (fh_clock h) (clock (header f)) = true.

Lemma happens_before_irrefl c : happens_before c c = false.
Proof. unfold happens_before. lia. Qed.

Lemma happens_before_asym c d : happens_before c d = true → happens_before d c = false ∧ c ≠ d.
Proof.
  intros H. split.
  - revert H. unfold happens_before. lia.
  - intros ->. by rewrite happens_before_irrefl in H.
Qed.

Lemma update_tick_below l c r :
  below l c → below l r → l + 2 ≤ 65534 →
  below (l + 1) (HybridClock_update c r) ∧
  below (l + 2) (HybridClock_tick (HybridClock_update c r)) ∧
  happens_before r (HybridClock_tick (HybridClock_update c r)) = true.
Proof.
  intros [[? ?] ?] [[? ?] ?] Hl. unfold below, clock_ok. rewrite happens_before_spec.
  unfold HybridClock_tick, HybridClock_update, u16_saturating_add.
  destruct (Z.compare_spec (physical c) (physical r)); cbn [physical logical]; lia.
Qed.

Lemma destination_forward e f n :
  intent_hash (header f) ∉ local_intents e → n ≠ fe_local_id e →
  destination_decision e f [n] = Forward [n].
Proof.
  intros Hi Hn. unfold destination_decision. rewrite bool_decide_eq_false_2 by done. cbn [forallb].
  rewrite bool_decide_eq_false_2 by done. rewrite filter_cons_True, filter_nil by done. done.
Qed.

(** What a fresh frame does to an engine. *)
Lemma decide_fresh now e f hops :
  unseen e f →
  ∃ h, fh_clock h = clock (header f) ∧
  let e' := mkEngine (fe_local_id e) (<[FrameKey_from_frame f := h]> (frame_history e))
              (ClockManager_update (fe_clock e) (clock (header f))) (local_intents e)
              (count_decision (fe_stats e) (destination_decision e f hops)) in
  decide_frame now e f hops = (e', destination_decision e f hops).
Proof.
  intros Hu. unfold decide_frame. destruct (frame_history e !! FrameKey_from_frame f) as [h|] eqn:E.
  - apply Hu in E. apply happens_before_asym in E as [E1 E2].
    rewrite E1, bool_decide_eq_false_2 by done. cbn [orb].
    exists (mkHistory (clock (header f)) (seen_count h + 1) (first_seen h)). split; reflexivity.
  - exists (mkHistory (clock (header f)) 1 now). split; reflexivity.
Qed.

Lemma hop_forwards now e f n l t :
  trace_id f = Some t → unseen e f → intent_hash (header f) ∉ local_intents e → n ≠ fe_local_id e →
  below l (cm_clock (fe_clock e)) → below l (clock (header f)) → l + 2 ≤ 65534 →
  ∃ e' f', (decide_frame now e f [n]).2 = Forward [n] ∧
    prepare_forward (decide_frame now e f [n]).1 f = (e', f') ∧
    fe_local_id e' = fe_local_id e ∧ local_intents e' = local_intents e ∧
    below (l + 2) (cm_clock (fe_clock e')) ∧ below (l + 2) (clock (header f')) ∧
    happens_before (clock (header f)) (clock (header f')) = true ∧
    trace_id f' = Some t ∧ intent_hash (header f') = intent_hash (header f) ∧
    unseen e' f' ∧ FrameKey_from_frame f' = FrameKey_from_frame f.
Proof.
  intros Ht Hu Hi Hn Hc Hf Hl. destruct (decide_fresh now e f [n] Hu) as (h & Hh & ->).
  rewrite destination_forward by done. cbn [fst snd prepare_forward ClockManager_tick].
  destruct (update_tick_below l _ _ Hc Hf Hl) as (_ & Hb & Hlt).
  assert (Hk : FrameKey_from_frame (set_clock f (HybridClock_tick
      (HybridClock_update (cm_clock (fe_clock e)) (clock (header f))))) = FrameKey_from_frame f)
    by (unfold FrameKey_from_frame; cbn; by rewrite Ht).
  do 2 eexists. split_and!; [done|done|done|done|exact Hb|exact Hb|exact Hlt|done|done| |exact Hk].
  intros h' Hh'. cbn [fe_clock cm_clock ClockManager_update frame_history] in Hh'.
  rewrite Hk in Hh'. rewrite lookup_insert_eq in Hh'. injection Hh' as <-.
  rewrite Hh. exact Hlt.
Qed.

(** Two engines, each the other's next hop: what [n] round trips decide. *)
Fixpoint ping_pong (n : nat) (now : Z) (a b : ForwardingEngine) (f : Frame) : list ForwardDecision :=
  match n with
  | O => []
  | S n =>
      let '(a, d) := decide_frame now a f [fe_local_id b] in
      let '(a, f) := prepare_forward a f in
      let '(b, d') := decide_frame now b f [fe_local_id a] in
      let '(b, f) := prepare_forward b f in
      d :: d' :: ping_pong n now a b f
  end.

Lemma unseen_later e f g :
  unseen e f → FrameKey_from_frame g = FrameKey_from_frame f →
  happens_before (clock (header f)) (clock (header g)) = true → unseen e g.
Proof.
  intros Hu Hk Hlt h Hh. rewrite Hk in Hh. apply Hu in Hh. revert Hh Hlt.
  rewrite !happens_before_spec. lia.
Qed.

(** ** Properties *)

(** Route selection.  The best route is the last one of highest score, whatever
    the priority of the request (the priority multiplies every score alike); the
    top routes are the registered ones by decreasing score, so that the first of
    them has the best route's score, though not always its identity. *)
Theorem route_selection t h es :
  routes t !! h = Some es → es ≠ [] →
  ∃ pre best post sorted first,
    es = pre ++ best :: post ∧ Forall (λ e, route_score e ≤ route_score best) pre ∧
    Forall (λ e, route_score e < route_score best) post ∧
    (∀ p, select_best t h p = Some best) ∧
    sorted ≡ₚ es ∧ StronglySorted score_order sorted ∧
    (∀ k, select_top_k t h k = take (Z.to_nat k) sorted) ∧
    head sorted = Some first ∧ route_score first = route_score best.
Proof.
  intros He Hne. destruct (max_by_key_spec route_score es Hne) as (pre & best & post & E & Hb & Hpre & Hpost).
  destruct (sort_scored_spec es) as [Hp Hs]. destruct (sort_scored es) as [|first rest] eqn:Es.
  { apply Permutation_nil_l in Hp. by subst es. }
  exists pre, best, post, (first :: rest), first. split_and!; try done.
  - intros p. unfold select_best. rewrite He, <- Hb. apply max_by_key_monotone.
    intros x y. destruct (200 <? p); lia.
  - intros k. unfold select_top_k. by rewrite He, Es.
  - assert (Hle : ∀ e, e ∈ es → route_score e ≤ route_score best).
    { rewrite Forall_forall in Hpre, Hpost. intros e He'. subst es. apply elem_of_app in He' as [He'|He'].
      - by apply Hpre.
      - apply elem_of_cons in He' as [->|He']; [done|]. apply Hpost in He'. lia. }
    assert (H1 : first ∈ es) by (rewrite <- Hp; left). apply Hle in H1.
    assert (H2 : best ∈ first :: rest) by (rewrite Hp, E; set_solver).
    apply StronglySorted_inv in Hs as [_ Hs]. apply elem_of_cons in H2 as [->|H2]; [done|].
    rewrite Forall_forall in Hs. apply Hs in H2. lia.
Qed.

Definition sample_route (n : Z) (cap : Z) : RouteEntry := mkRoute (replicate 32 n) Sig 10 cap 0.
Definition sample_table : RoutingTable :=
  register (register (register (RoutingTable_new (replicate 32 0)) IntentHash_zero (sample_route 1 5))
    IntentHash_zero (sample_route 2 5)) IntentHash_zero (sample_route 3 9).

Lemma route_selection_witness :
  ∃ first best, select_best sample_table IntentHash_zero 255 = Some best ∧
    select_top_k sample_table IntentHash_zero 1 = [first] ∧ route_score first = route_score best ∧
    first ≠ best.
Proof.
  destruct (route_selection sample_table IntentHash_zero [sample_route 1 5; sample_route 2 5; sample_route 3 9])
    as (pre & best & post & sorted & first & _ & _ & _ & Hb & _ & _ & Ht & Hh & Hs);
    [vm_compute; reflexivity|discriminate|].
  exists first, best. split; [apply Hb|]. specialize (Hb 255). specialize (Ht 1).
  destruct sorted as [|x l]; [discriminate|]. injection Hh as ->.
  split; [exact Ht|]. split; [exact Hs|].
  vm_compute in Hb. vm_compute in Ht. injection Hb as <-. injection Ht as <-. discriminate.
Defined.

Definition delivers (d : ForwardDecision) : bool :=
  match d with DeliverLocal | DeliverAndForward _ => true | _ => false end.
Definition targets (d : ForwardDecision) : list NodeId :=
  match d with Forward l | DeliverAndForward l => l | _ => [] end.

Lemma filter_nil_iff_none (id : NodeId) (l : list NodeId) :
  (∀ x, x ∈ l → x = id) → filter (λ n, n ≠ id) l = [].
Proof.
  induction l as [|y l IH]; intros H; [done|]. rewrite filter_cons_False.
  - apply IH. intros x Hx. apply H. by right.
  - intros Hy. apply Hy, H. left.
Qed.

Lemma destination_spec e f hops :
  let d := destination_decision e f hops in
  d ≠ Drop LoopDetected ∧ (delivers d = true ↔ intent_hash (header f) ∈ local_intents e) ∧
  targets d = filter (λ n, n ≠ fe_local_id e) hops.
Proof.
  assert (Hn : filter (λ n, n ≠ fe_local_id e) hops ≠ [] →
    negb (match hops with [] => true | _ => false end)
    && negb (forallb (λ n, bool_decide (n = fe_local_id e)) hops) = true).
  { intros Hne. destruct hops as [|n hops]; [done|]. cbn [negb andb].
    destruct (forallb _ (n :: hops)) eqn:E; [|done]. exfalso. apply Hne. rewrite forallb_forall in E.
    apply filter_nil_iff_none. intros x Hx. specialize (E x (proj1 (list_elem_of_In _ _) Hx)).
    by apply bool_decide_eq_true in E. }
  unfold destination_decision. destruct (filter (λ n, n ≠ fe_local_id e) hops) as [|x l].
  - rewrite andb_false_r. by case_bool_decide.
  - rewrite Hn by done. by case_bool_decide.
Qed.

(** A decision leaves behind a history entry no older than the frame. *)
Lemma decide_records now e f hops :
  ∃ h, frame_history (decide_frame now e f hops).1 !! FrameKey_from_frame f = Some h ∧
       (happens_before (clock (header f)) (fh_clock h) = true ∨ clock (header f) = fh_clock h).
Proof.
  unfold decide_frame. destruct (frame_history e !! FrameKey_from_frame f) as [h|].
  - destruct (happens_before (clock (header f)) (fh_clock h)) eqn:E; cbn [orb].
    { eexists. split; [cbn; by apply lookup_insert_eq|by left]. }
    case_bool_decide as E'.
    + eexists. split; [cbn; by apply lookup_insert_eq|by right].
    + eexists. split; [cbn; by apply lookup_insert_eq|by right].
  - eexists. split; [cbn; by apply lookup_insert_eq|by right].
Qed.

(** A forwarding decision.  A frame is dropped as looping exactly when its key
    was seen with a clock not before its own; otherwise it is delivered exactly
    when its intent is local, and forwarded to exactly the next hops other than
    the node itself.  After any decision the same frame, or one with its key and an
    older clock, is dropped. *)
Theorem forwarding_decision now e f hops :
  let '(e', d) := decide_frame now e f hops in
  (d = Drop LoopDetected ↔
     ∃ h, frame_history e !! FrameKey_from_frame f = Some h ∧
          (happens_before (clock (header f)) (fh_clock h) = true ∨ clock (header f) = fh_clock h)) ∧
  (d ≠ Drop LoopDetected →
     (delivers d = true ↔ intent_hash (header f) ∈ local_intents e) ∧
     targets d = filter (λ n, n ≠ fe_local_id e) hops) ∧
  (∀ now' g hops', FrameKey_from_frame g = FrameKey_from_frame f →
     happens_before (clock (header g)) (clock (header f)) = true ∨ clock (header g) = clock (header f) →
     (decide_frame now' e' g hops').2 = Drop LoopDetected).
Proof.
  pose proof (decide_records now e f hops) as (h & Hh & Hle).
  destruct (decide_frame now e f hops) as [e' d] eqn:E. cbn [fst] in Hh.
  assert (Hagain : ∀ now' g hops', FrameKey_from_frame g = FrameKey_from_frame f →
     happens_before (clock (header g)) (clock (header f)) = true ∨ clock (header g) = clock (header f) →
     (decide_frame now' e' g hops').2 = Drop LoopDetected).
  { intros now' g hops' Hk Hg. unfold decide_frame. rewrite Hk, Hh.
    assert (happens_before (clock (header g)) (fh_clock h) = true ∨ clock (header g) = fh_clock h) as [-> | ->].
    { destruct Hg as [Hg| ->]; [|done]. left. destruct Hle as [Hle|<-]; [|done].
      revert Hg Hle. rewrite !happens_before_spec. lia. }
    - done.
    - by rewrite bool_decide_eq_true_2, orb_true_r by done. }
  unfold decide_frame in E. destruct (frame_history e !! FrameKey_from_frame f) as [h0|] eqn:Eh.
  - destruct (happens_before (clock (header f)) (fh_clock h0)
      || bool_decide (clock (header f) = fh_clock h0)) eqn:Ec; injection E as <- <-.
    + split_and!; [|done|done]. split; [intros _|done]. exists h0. split; [done|].
      apply orb_true_iff in Ec as [?|?%bool_decide_eq_true]; [by left|by right].
    + match goal with |- context [destination_decision ?e0 f hops] =>
        destruct (destination_spec e0 f hops) as (H1 & H2 & H3) end.
      split_and!; [|done|done]. split; [done|]. intros (h1 & [= <-] & Hx). exfalso.
      apply orb_false_iff in Ec as [Ec1 Ec2]. apply bool_decide_eq_false in Ec2. destruct Hx; congruence.
  - injection E as <- <-.
    match goal with |- context [destination_decision ?e0 f hops] =>
      destruct (destination_spec e0 f hops) as (H1 & H2 & H3) end.
    split_and!; [|done|done]. split; [done|]. by intros (h1 & ? & _).
Qed.

Definition sample_traced : Frame :=
  Frame_with_trace_id (Frame_new (FrameHeader_new FIntent (replicate 32 9)) PRaw [1; 2; 3]) (replicate 8 4).
Definition sample_engine (n : Z) : ForwardingEngine :=
  ForwardingEngine_new (mkClock 1700000000 0) (replicate 32 n).

Lemma forwarding_decision_witness :
  (decide_frame 1 (decide_frame 0 (sample_engine 1) sample_traced [replicate 32 2]).1 sample_traced
     [replicate 32 2]).2 = Drop LoopDetected.
Proof.
  pose proof (forwarding_decision 0 (sample_engine 1) sample_traced [replicate 32 2]) as H.
  destruct (decide_frame 0 (sample_engine 1) sample_traced [replicate 32 2]) as [e' d].
  destruct H as (_ & _ & H). apply H; [reflexivity|right; reflexivity].
Defined.

(** Loop detection does not stop loops.  Two nodes that each believe the other to
    be the next hop pass a traced frame back and forth without either dropping it:
    every hop stamps a later clock, so the frame never looks older than the
    history.  The bound is the 16-bit logical counter, sixteen thousand rounds
    from a fresh clock, and not the hop limit of 32. *)
Theorem forwarding_loop n now a b f l t :
  trace_id f = Some t → fe_local_id a ≠ fe_local_id b → unseen a f → unseen b f →
  intent_hash (header f) ∉ local_intents a → intent_hash (header f) ∉ local_intents b →
  below l (cm_clock (fe_clock a)) → below l (cm_clock (fe_clock b)) → below l (clock (header f)) →
  l + 4 * Z.of_nat n ≤ 65534 →
  ping_pong n now a b f
  = concat (replicate n [Forward [fe_local_id b]; Forward [fe_local_id a]]).
Proof.
  revert a b f l. induction n as [|n IH]; intros a b f l Ht Hne Ua Ub Ia Ib Ba Bb Bf Hl; [done|].
  cbn [ping_pong replicate concat].
  destruct (hop_forwards now a f (fe_local_id b) l t) as (a' & f1 & D1 & P1 & Ida & Ina & Ba' & Bf1 & L1 & T1 & H1 & U1 & K1);
    [done..|lia|].
  destruct (decide_frame now a f [fe_local_id b]) as [a0 d1]. cbn [fst snd] in D1, P1. subst d1. rewrite P1.
  rewrite Ida.
  destruct (hop_forwards now b f1 (fe_local_id a) (l + 2) t) as (b' & f2 & D2 & P2 & Idb & Inb & Bb' & Bf2 & L2 & T2 & H2 & U2 & K2);
    [done|by eapply unseen_later|by rewrite H1|done|destruct Bb; split; [done|lia]|done|lia|].
  destruct (decide_frame now b f1 [fe_local_id a]) as [b0 d2]. cbn [fst snd] in D2, P2. subst d2. rewrite P2.
  cbn [app]. do 2 f_equal. rewrite <- Ida, <- Idb.
  eapply (IH a' b' f2 (l + 4)); [done|congruence| |done|by rewrite Ina, H2, H1|by rewrite Inb, H2, H1| | | |lia].
  - by eapply unseen_later.
  - destruct Ba'. split; [done|lia].
  - destruct Bb'. split; [done|lia].
  - destruct Bf2. split; [done|lia].
Qed.

Lemma forwarding_loop_witness :
  ping_pong 100 0 (sample_engine 1) (sample_engine 2) sample_traced
  = concat (replicate 100 [Forward [replicate 32 2]; Forward [replicate 32 1]]).
Proof.
  apply (forwarding_loop 100 0 (sample_engine 1) (sample_engine 2) sample_traced 0 (replicate 8 4));
    try reflexivity.
  - discriminate.
  - intros h Hh. vm_compute in Hh. discriminate.
  - intros h Hh. vm_compute in Hh. discriminate.
  - apply (bool_decide_unpack _). vm_compute. exact I.
  - apply (bool_decide_unpack _). vm_compute. exact I.
  - unfold below, clock_ok. cbn. lia.
  - unfold below, clock_ok. cbn. lia.
  - unfold below, clock_ok. cbn. lia.
  - vm_compute. discriminate.
Defined.

(** ** Load balancing and failover *)

Fixpoint picks (n : nat) (b : LoadBalancer) (rs : list NodeId) : list (option NodeId) :=
  match n with
  | O => []
  | S n => (select b rs).2 :: picks n (select b rs).1 rs
  end.

(** Round robin takes the routes in turn from wherever it stands. *)
Theorem round_robin_turns n i rs :
  rs ≠ [] → 0 ≤ i → i + Z.of_nat n < 2 ^ 64 →
  picks n (mkBalancer RoundRobin i) rs
  = map (λ k, rs !! Z.to_nat ((i + k) mod len rs)) (seqZ 0 (Z.of_nat n)).
Proof.
  intros Hne. revert i. induction n as [|n IH]; intros i Hi Hb; [done|].
  rewrite Nat2Z.inj_succ, seqZ_cons by lia. cbn [picks map]. destruct rs as [|r0 rs]; [done|].
  cbn [select strategy round_robin_index fst snd]. f_equal; [by rewrite Z.add_0_r|].
  unfold u64_add. rewrite Z.mod_small by lia. rewrite IH by lia. rewrite Z.pred_succ.
  replace (Z.succ 0) with (1 + 0) by lia. rewrite <- fmap_add_seqZ. rewrite <- list_fmap_compose.
  apply list_fmap_ext. intros _ k _. cbn. do 2 f_equal. f_equal. lia.
Qed.

(** The random strategy never leaves the first route when the number of routes
    divides 12345, for instance with three or five. *)
Theorem random_sticks n rs :
  rs ≠ [] → 12345 mod len rs = 0 →
  picks n (LoadBalancer_new Random) rs = replicate n (head rs).
Proof.
  intros Hne Hd. induction n as [|n IH]; [done|]. destruct rs as [|r0 rs]; [done|].
  assert (E : select (LoadBalancer_new Random) (r0 :: rs) = (LoadBalancer_new Random, Some r0)).
  { unfold select, LoadBalancer_new. cbn [strategy round_robin_index].
    change (u64_add (u64_mul 0 1103515245) 12345) with 12345. by rewrite Hd. }
  cbn [picks replicate head]. rewrite E. cbn [fst snd]. by rewrite IH.
Qed.

Definition endpoints (i : NodeInfo) : list Endpoint := endpoint i :: alternatives i.

Lemma mark_unreachable_rotates i :
  alternatives i ≠ [] →
  endpoints (mark_unreachable i) = alternatives i ++ [endpoint i] ∧ reachable (mark_unreachable i) = true.
Proof. unfold endpoints, mark_unreachable. by destruct (alternatives i). Qed.

Fixpoint failures (k : nat) (i : NodeInfo) : NodeInfo :=
  match k with O => i | S k => mark_unreachable (failures k i) end.

(** Failover tries every endpoint: the [k]th failure in a row makes the [k]th
    endpoint of the list the primary one, and as many failures as there are
    endpoints restore the list. *)
Theorem failover_rotates i k :
  alternatives i ≠ [] → (k ≤ length (endpoints i))%nat →
  endpoints (failures k i) = drop k (endpoints i) ++ take k (endpoints i).
Proof.
  intros Hne. induction k as [|k IH]; intros Hk; [by rewrite app_nil_r|].
  specialize (IH ltac:(lia)). cbn [failures].
  assert (Ha : alternatives (failures k i) ≠ []).
  { intros E. apply (f_equal length) in IH. unfold endpoints in IH at 1. rewrite E in IH.
    rewrite length_app, length_drop, length_take in IH. unfold endpoints in *. cbn in *.
    destruct (alternatives i); [done|]. cbn in *. lia. }
  destruct (mark_unreachable_rotates _ Ha) as [-> _].
  destruct (drop k (endpoints i)) as [|x l] eqn:Ed.
  { apply (f_equal length) in Ed. rewrite length_drop in Ed. unfold endpoints in *. cbn [length] in *. lia. }
  assert (Hx : endpoints i !! k = Some x).
  { rewrite <- (Nat.add_0_r k), <- lookup_drop, Ed. done. }
  unfold endpoints in IH at 1. cbn [app] in IH. injection IH as -> ->.
  rewrite <- app_assoc. rewrite (take_S_r _ _ _ Hx).
  rewrite <- Nat.add_1_r, <- drop_drop, Ed. done.
Qed.
