(* ===== verification/Task.v ===== *)
(** * Task lifecycle (axiom-runtime/src/task.rs)

    The task state machine and its operations.  An [f32] is its bit pattern; a
    [Duration] is nanoseconds; a task's clock readings are the constant 0 the source
    writes.  The next task number is an argument. *)

From stdpp Require Import base numbers list strings.
From S2P Require Import Prelude Text.

(** ** Data *)

(** [f32::clamp(0.0, 1.0)] on bit patterns: negative numbers other than -0 become
    0, numbers above 1 become 1, a NaN stays. *)
Definition f32_zero : Z := 0.
Definition f32_one : Z := 0x3F800000.
Definition f32_clamp01 (b : Z) : Z :=
  if 0xFF800000 <? b then b
  else if 0x80000000 <? b then f32_zero
  else if b =? 0x80000000 then b
  else if 0x7F800000 <? b then b
  else if f32_one <? b then f32_one
  else b.

Inductive SchemaType := STObject | STArray | STString | STNumber | STBoolean | STEnum.
Inductive FieldType := FTString | FTNumber | FTInteger | FTBoolean | FTFile | FTDate | FTDateTime.
Record InputField := mkField {
  field_name : text;
  field_type : FieldType;
  description : text;
  required : bool;
  field_default : option text;
  options : option (list text)
}.
Record InputSchema := mkSchema { schema_type : SchemaType; fields : list InputField; multi_select : bool }.
Definition InputSchema_text (prompt : text) : InputSchema :=
  mkSchema STObject [mkField (str "input") FTString prompt true None None] false.
Definition InputSchema_choice (opts : list text) : InputSchema :=
  mkSchema STEnum [mkField (str "choice") FTString (str "Select an option") true None (Some opts)] false.
Definition InputSchema_confirm (prompt : text) : InputSchema :=
  mkSchema STBoolean [mkField (str "confirm") FTBoolean prompt true None None] false.

Inductive ArtifactContent :=
  | AText (s : text) | ABinary (b : list Z) | AReference (uri : text) | AStream (stream_id : Z).
Record Artifact := mkArtifact {
  artifact_id : Z;
  artifact_name : text;
  mime_type : text;
  artifact_content : ArtifactContent;
  artifact_size : Z;
  artifact_metadata : list (text * text)
}.

Inductive TaskErrorCode :=
  | TEC_Internal | TEC_InvalidInput | TEC_NotFound | TEC_PermissionDenied | TEC_RateLimited
  | TEC_Timeout | TEC_Cancelled | TEC_DependencyFailed | TEC_ResourceExhausted
  | TEC_NotImplemented | TEC_ValidationError | TEC_Conflict.
Definition TaskErrorCode_as_i32 (c : TaskErrorCode) : Z :=
  match c with
  | TEC_Internal => -32000 | TEC_InvalidInput => -32001 | TEC_NotFound => -32002
  | TEC_PermissionDenied => -32003 | TEC_RateLimited => -32004 | TEC_Timeout => -32005
  | TEC_Cancelled => -32006 | TEC_DependencyFailed => -32007 | TEC_ResourceExhausted => -32008
  | TEC_NotImplemented => -32009 | TEC_ValidationError => -32010 | TEC_Conflict => -32011
  end.
Record TaskError := mkTaskError {
  code : TaskErrorCode;
  error_message : text;
  details : option text;
  retry_after : option Z
}.

Inductive TaskState :=
  | Submitted
  | Working (progress : Z) (message : option text)
  | InputRequired (schema : InputSchema) (prompt : text) (timeout : option Z)
  | Streaming (stream_artifact : Z) (total : option Z) (current : Z)
  | Completed (artifacts : list Artifact)
  | Failed (error : TaskError) (recoverable : bool)
  | Cancelled (reason : text)
  | Paused (reason : option text) (checkpoint_id : option Z).

Definition is_terminal (s : TaskState) : bool :=
  match s with Completed _ | Failed _ _ | Cancelled _ => true | _ => false end.
Definition needs_input (s : TaskState) : bool :=
  match s with InputRequired _ _ _ => true | _ => false end.
Definition is_running (s : TaskState) : bool :=
  match s with Working _ _ | Streaming _ _ _ => true | _ => false end.

Inductive TransitionError := InvalidState | AlreadyTerminal | InvalidTransition.

Record StateTransition := mkTransition {
  st_from : option TaskState;
  st_to : TaskState;
  st_timestamp : Z;
  st_reason : option text
}.

Record Task := mkTask {
  task_id : Z;
  task_state : TaskState;
  history : list StateTransition;
  created_at : Z;
  updated_at : Z;
  task_metadata : list (text * text)
}.

(** ** Operations *)

Definition Task_new (id : Z) : Task :=
  mkTask id Submitted [mkTransition None Submitted 0 None] 0 0 [].

Definition validate_transition (s new : TaskState) : outcome TransitionError unit :=
  if is_terminal s then Err AlreadyTerminal
  else
    match s, new with
    | _, Cancelled _ => Ok tt
    | _, Failed _ _ => Ok tt
    | Submitted, Working _ _ => Ok tt
    | Working _ _, (Completed _ | InputRequired _ _ _ | Streaming _ _ _ | Paused _ _) => Ok tt
    | InputRequired _ _ _, (Working _ _ | Completed _) => Ok tt
    | Streaming _ _ _, (Completed _ | Working _ _) => Ok tt
    | Paused _ _, Working _ _ => Ok tt
    | _, _ => Err InvalidTransition
    end.

Definition transition (t : Task) (new : TaskState) : Task * outcome TransitionError unit :=
  match validate_transition (task_state t) new with
  | Ok _ =>
      (mkTask (task_id t) new (history t ++ [mkTransition (Some (task_state t)) new 0 None])
         (created_at t) 0 (task_metadata t), Ok tt)
  | e => (t, e)
  end.

Definition start (t : Task) := transition t (Working f32_zero None).

Definition update_progress (t : Task) (p : Z) (msg : option text) :
    Task * outcome TransitionError unit :=
  if negb (is_running (task_state t)) then (t, Err InvalidState)
  else (mkTask (task_id t) (Working (f32_clamp01 p) msg) (history t) (created_at t) (updated_at t)
          (task_metadata t), Ok tt).

Definition request_input (t : Task) (s : InputSchema) (prompt : text) :=
  transition t (InputRequired s prompt None).

Definition provide_input (t : Task) (input : text) : Task * outcome TransitionError unit :=
  if negb (needs_input (task_state t)) then (t, Err InvalidState)
  else transition t (Working f32_zero (Some (str "Input received, resuming"))).

Definition complete (t : Task) (arts : list Artifact) := transition t (Completed arts).
Definition fail (t : Task) (e : TaskError) (recoverable : bool) := transition t (Failed e recoverable).
Definition cancel (t : Task) (reason : text) := transition t (Cancelled reason).
Definition pause (t : Task) (reason : option text) := transition t (Paused reason None).

Definition resume (t : Task) : Task * outcome TransitionError unit :=
  match task_state t with
  | Paused _ _ => transition t (Working f32_zero (Some (str "Resumed")))
  | _ => (t, Err InvalidState)
  end.

Fixpoint set_first (k v : text) (m : list (text * text)) : list (text * text) :=
  match m with
  | [] => [(k, v)]
  | (k', v') :: m => if bool_decide (k' = k) then (k', v) :: m else (k', v') :: set_first k v m
  end.
Definition set_metadata (t : Task) (k v : text) : Task :=
  mkTask (task_id t) (task_state t) (history t) (created_at t) (updated_at t)
    (set_first k v (task_metadata t)).
Fixpoint get_first (k : text) (m : list (text * text)) : option text :=
  match m with
  | [] => None
  | (k', v) :: m => if bool_decide (k' = k) then Some v else get_first k m
  end.
Definition get_metadata (t : Task) (k : text) : option text := get_first k (task_metadata t).

(** ** Runs *)

Inductive task_op :=
  | TTransition (s : TaskState)
  | TStart
  | TProgress (p : Z) (msg : option text)
  | TRequestInput (s : InputSchema) (prompt : text)
  | TProvideInput (input : text)
  | TComplete (arts : list Artifact)
  | TFail (e : TaskError) (recoverable : bool)
  | TCancel (reason : text)
  | TPause (reason : option text)
  | TResume
  | TMetadata (k v : text).

Definition task_step (t : Task) (o : task_op) : Task * outcome TransitionError unit :=
  match o with
  | TTransition s => transition t s
  | TStart => start t
  | TProgress p msg => update_progress t p msg
  | TRequestInput s prompt => request_input t s prompt
  | TProvideInput i => provide_input t i
  | TComplete arts => complete t arts
  | TFail e r => fail t e r
  | TCancel r => cancel t r
  | TPause r => pause t r
  | TResume => resume t
  | TMetadata k v => (set_metadata t k v, Ok tt)
  end.
Definition task_run (ops : list task_op) (t : Task) : Task := foldl (λ t o, (task_step t o).1) t ops.

(** A state, or what progress reports made of it. *)
Definition progressed (s s' : TaskState) : Prop :=
  s' = s ∨ (is_running s = true ∧ ∃ p m, s' = Working p m).

(** A recorded history: it starts with the submission, every later entry is an
    allowed transition, out of the state the entry before led to. *)
Inductive recorded : list StateTransition → TaskState → Prop :=
  | rec_new : recorded [mkTransition None Submitted 0 None] Submitted
  | rec_progress h s s' : recorded h s → progressed s s' → recorded h s'
  | rec_step h s s' : recorded h s → validate_transition s s' = Ok tt →
      recorded (h ++ [mkTransition (Some s) s' 0 None]) s'.

Lemma transition_recorded t s :
  recorded (history t) (task_state t) →
  recorded (history (transition t s).1) (task_state (transition t s).1).
Proof.
  intros H. unfold transition. destruct (validate_transition (task_state t) s) as [[]|e|] eqn:E; [|done..].
  by apply rec_step.
Qed.

Lemma task_step_recorded t o :
  recorded (history t) (task_state t) →
  recorded (history (task_step t o).1) (task_state (task_step t o).1).
Proof.
  intros H. destruct o; cbn [task_step]; try by apply transition_recorded.
  - unfold update_progress. destruct (is_running (task_state t)) eqn:E; [|done]. cbn.
    eapply rec_progress; [exact H|]. right. eauto.
  - unfold provide_input. destruct (needs_input _); [|done]. by apply transition_recorded.
  - unfold resume. destruct (task_state t) eqn:E; try (cbn; rewrite E; exact H).
    apply transition_recorded. by rewrite E.
  - exact H.
Qed.

Lemma transition_terminal t s :
  is_terminal (task_state t) = true → transition t s = (t, Err AlreadyTerminal).
Proof. intros H. unfold transition, validate_transition. by rewrite H. Qed.

(** Nothing but metadata changes after the end. *)
Lemma task_step_terminal t o :
  is_terminal (task_state t) = true →
  task_state (task_step t o).1 = task_state t ∧ history (task_step t o).1 = history t ∧
  match o with TMetadata _ _ => True | _ => ∃ e, (task_step t o).2 = Err e end.
Proof.
  intros H. destruct o; cbn [task_step]; try (unfold start, request_input, complete, fail, cancel, pause;
    rewrite transition_terminal by done; cbn; by eauto).
  - unfold update_progress. destruct (task_state t) eqn:E; try done; cbn; rewrite E; by eauto.
  - unfold provide_input. destruct (task_state t) eqn:E; try done; cbn; rewrite E; by eauto.
  - unfold resume. destruct (task_state t) eqn:E; try done; cbn; rewrite E; by eauto.
  - done.
Qed.

(** ** Properties *)

(** The life of a task.  Whatever operations a task sees, its history begins with
    the submission, every further entry is an allowed transition out of the state
    reached before, up to progress reports; and once completed, failed or
    cancelled, no operation changes state or history and each one reports an
    error.  A progress report on a streaming task makes it a working one without
    an entry. *)
Theorem task_lifecycle id ops :
  let t := task_run ops (Task_new id) in
  recorded (history t) (task_state t) ∧
  (is_terminal (task_state t) = true →
     ∀ o, task_state (task_step t o).1 = task_state t ∧ history (task_step t o).1 = history t ∧
          match o with TMetadata _ _ => True | _ => ∃ e, (task_step t o).2 = Err e end) ∧
  (∀ a n k, task_state t = Streaming a n k →
     ∀ p msg, history (update_progress t p msg).1 = history t ∧
              task_state (update_progress t p msg).1 = Working (f32_clamp01 p) msg).
Proof.
  intros t. split_and!.
  - subst t. unfold task_run. generalize (rec_new : recorded (history (Task_new id)) (task_state (Task_new id))).
    generalize (Task_new id). induction ops as [|o ops IH]; intros t H; [done|]. cbn.
    apply IH. by apply task_step_recorded.
  - intros Ht o. by apply task_step_terminal.
  - intros a n k E p msg. unfold update_progress. rewrite E. done.
Qed.

Lemma task_lifecycle_witness :
  history (task_step (task_run [TStart; TCancel []] (Task_new 1)) TResume).1
  = history (task_run [TStart; TCancel []] (Task_new 1)).
Proof.
  apply (proj1 (proj2 (task_lifecycle 1 [TStart; TCancel []])) eq_refl TResume).
Defined.

Lemma set_first_get k v m k' :
  get_first k' (set_first k v m) = if bool_decide (k' = k) then Some v else get_first k' m.
Proof.
  induction m as [|[a b] m IH]; cbn.
  - case_bool_decide as H1; case_bool_decide as H2; congruence.
  - destruct (decide (a = k)) as [->|Hne].
    + rewrite (bool_decide_eq_true_2 (k = k)) by done. cbn. repeat case_bool_decide; congruence.
    + rewrite (bool_decide_eq_false_2 (a = k)) by done. cbn. rewrite IH. repeat case_bool_decide; congruence.
Qed.

(** Metadata: the last value set for a key is the one read, other keys keep theirs. *)
Theorem metadata_get_set t k v k' :
  get_metadata (set_metadata t k v) k' = if bool_decide (k' = k) then Some v else get_metadata t k'.
Proof. apply set_first_get. Qed.
