(* ===== verification/Runtime.v ===== *)
(** * Queues of the agent runtime (axiom-runtime ipc.rs, scheduler.rs, agent.rs)

    Messages between the agents of one node, the work-stealing scheduler and the life
    cycle of an agent.  The three queues of the crate (mailboxes, work queues, task
    queues) have four lanes by priority; what they share is stated once, on
    lists of lanes.  Channel and message identifiers come from global counters and
    are arguments. *)

From stdpp Require Import base numbers list gmap sets strings.
From S2P Require Import Prelude Types Text.

(** ** Four lanes *)

Abbreviation lanes A := (list (list A)).
Section Lanes.
Context {A : Type}.
Definition no_lanes : lanes A := [[]; []; []; []].

Definition pop_front (l : list A) : option (A * list A) := match l with x :: l' => Some (x, l') | [] => None end.
Definition pop_back (l : list A) : option (A * list A) :=
  match rev l with x :: l' => Some (x, rev l') | [] => None end.
Definition lane (q : lanes A) (p : nat) : list A := default [] (q !! p).
Definition push_lane (p : nat) (x : A) (q : lanes A) : lanes A := <[p := lane q p ++ [x]]> q.
(** The first of the given lanes with something to take. *)
Fixpoint pop_lanes (take : list A → option (A * list A)) (ps : list nat) (q : lanes A) : option (A * lanes A) :=
  match ps with
  | [] => None
  | p :: ps' =>
      match take (lane q p) with
      | Some (x, l) => Some (x, <[p := l]> q)
      | None => pop_lanes take ps' q
      end
  end.
(** [for priority in (0..4).rev()] *)
Definition pop_highest (take : list A → option (A * list A)) (q : lanes A) : option (A * lanes A) := pop_lanes take [3; 2; 1; 0]%nat q.

(** What is taken leaves the rest in order. *)
Definition takes (take : list A → option (A * list A)) : Prop :=
  (∀ l, take l = None ↔ l = []) ∧ ∀ l x l', take l = Some (x, l') → l = x :: l' ∨ l = l' ++ [x].
Lemma takes_front : takes pop_front.
Proof. split; [by intros []|]. intros [|y l] x l'; [done|]. intros [= <- <-]. by left. Qed.
Lemma takes_back : takes pop_back.
Proof.
  split.
  - intros l. unfold pop_back. destruct (rev l) as [|x r] eqn:E.
    + split; [|done]. intros _. by rewrite <- (rev_involutive l), E.
    + split; [done|]. by intros ->.
  - intros l x l' E. right. unfold pop_back in E. destruct (rev l) as [|y r] eqn:Er; [done|]. injection E as <- <-.
    by rewrite <- (rev_involutive l), Er.
Qed.
Lemma takes_Permutation take l x l' : takes take → take l = Some (x, l') → l ≡ₚ x :: l'.
Proof. intros [_ Ht] [->| ->]%Ht; [done|]. symmetry. apply Permutation_cons_append. Qed.

Lemma concat_insert (q : lanes A) p l k : q !! p = Some l →
  ∃ hi lo, concat q = concat hi ++ l ++ concat lo ∧ concat (<[p := k]> q) = concat hi ++ k ++ concat lo.
Proof.
  intros Hl. pose proof (lookup_lt_Some _ _ _ Hl) as Hp. exists (take p q), (drop (S p) q). split.
  - rewrite <- (take_drop_middle q p l Hl) at 1. by rewrite concat_app.
  - rewrite insert_take_drop by done. by rewrite concat_app.
Qed.
Lemma push_Permutation p x q : (p < length q)%nat → concat (push_lane p x q) ≡ₚ x :: concat q.
Proof.
  intros Hp. destruct (lookup_lt_is_Some_2 q p Hp) as [l Hl]. unfold push_lane, lane. rewrite Hl. cbn.
  destruct (concat_insert q p l (l ++ [x]) Hl) as (hi & lo & -> & ->). rewrite <- !(assoc_L (++)). cbn.
  by rewrite !Permutation_middle, !(assoc_L (++)), <- !Permutation_middle.
Qed.

Lemma pop_lanes_Some take ps q x q' :
  takes take → (∀ p, p ∈ ps → (p < length q)%nat) → pop_lanes take ps q = Some (x, q') →
  concat q ≡ₚ x :: concat q' ∧ length q' = length q ∧
  ∃ p hi lo l, ps = hi ++ p :: lo ∧ (∀ p', p' ∈ hi → lane q p' = []) ∧ take (lane q p) = Some (x, l) ∧ q' = <[p := l]> q.
Proof.
  intros Ht Hps. induction ps as [|p ps IH]; [done|]. cbn. destruct (take (lane q p)) as [[y l]|] eqn:E.
  - intros [= <- <-]. assert (Hp : (p < length q)%nat) by (apply Hps; left).
    destruct (lookup_lt_is_Some_2 q p Hp) as [l0 Hl]. unfold lane in E. rewrite Hl in E. cbn in E. split_and!.
    + destruct (concat_insert q p l0 l Hl) as (hi & lo & -> & ->).
      apply (takes_Permutation take l0 y l Ht) in E. rewrite E. cbn. symmetry. apply Permutation_middle.
    + by rewrite length_insert.
    + exists p, [], ps, l. split_and!; [done|by intros ? ?%not_elem_of_nil|by unfold lane; rewrite Hl|done].
  - intros Hr. destruct IH as (H1 & H2 & p' & hi & lo & l & -> & Hhi & Hl & ->); [intros p' Hp'; apply Hps; by right|done|].
    split_and!; [done|done|]. exists p', (p :: hi), lo, l. split_and!; [done| |done|done].
    intros i [->|Hi]%elem_of_cons; [by apply Ht in E|by apply Hhi].
Qed.
Lemma pop_lanes_None take ps q : takes take → pop_lanes take ps q = None ↔ ∀ p, p ∈ ps → lane q p = [].
Proof.
  intros Ht. induction ps as [|p ps IH]; cbn; [split; [by intros _ ? ?%not_elem_of_nil|done]|].
  destruct (take (lane q p)) as [[x l]|] eqn:E.
  - split; [done|]. intros H. specialize (H p (list_elem_of_here _ _)). apply Ht in H. congruence.
  - apply Ht in E. rewrite IH. split; [|intros H i Hi; apply H; by right]. intros H i [->|Hi]%elem_of_cons; [done|auto].
Qed.

(** Four lanes; nothing is left exactly when nothing can be taken. *)
Definition four (q : lanes A) : Prop := length q = 4%nat.
Lemma pop_highest_None take q : takes take → four q → pop_highest take q = None ↔ concat q = [].
Proof.
  intros Ht Hq. unfold pop_highest. rewrite pop_lanes_None by done.
  destruct q as [|a [|b [|c [|d [|]]]]]; try done. cbn. rewrite app_nil_r. split.
  - intros H. pose proof (H 3%nat ltac:(set_solver)). pose proof (H 2%nat ltac:(set_solver)).
    pose proof (H 1%nat ltac:(set_solver)). pose proof (H 0%nat ltac:(set_solver)). cbn in *. by subst.
  - intros E. apply app_eq_nil in E as [-> E]. apply app_eq_nil in E as [-> E]. apply app_eq_nil in E as [-> ->].
    intros p Hp. repeat (apply elem_of_cons in Hp as [->|Hp]; [done|]). by apply not_elem_of_nil in Hp.
Qed.
(** What is taken is of the highest priority there is, from its lane's end. *)
Lemma pop_highest_Some take q x q' :
  takes take → four q → pop_highest take q = Some (x, q') →
  concat q ≡ₚ x :: concat q' ∧ four q' ∧
  ∃ p l, (p < 4)%nat ∧ take (lane q p) = Some (x, l) ∧ q' = <[p := l]> q ∧ ∀ p', (p < p')%nat → lane q p' = [].
Proof.
  intros Ht Hq E. apply (pop_lanes_Some take _ q x q' Ht) in E as (H1 & H2 & p & hi & lo & l & Eps & Hhi & Hl & Hq').
  2: { intros p Hp. rewrite Hq. repeat (apply elem_of_cons in Hp as [->|Hp]; [lia|]). by apply not_elem_of_nil in Hp. }
  split_and!; [done|by unfold four; rewrite H2|]. exists p, l.
  assert (Hp : (p < 4)%nat ∧ ∀ p', (p < p' < 4)%nat → p' ∈ hi).
  { destruct hi as [|a [|b [|c [|d [|]]]]]; cbn in Eps; simplify_eq; (split; [lia|]); intros p' Hp';
      assert (p' = 1 ∨ p' = 2 ∨ p' = 3)%nat as Hd by lia; (destruct Hd as [-> |[-> | ->]]); first [lia|set_solver]. }
  destruct Hp as [Hp Hp']. split_and!; [done|done|done|]. intros p' Hlt. destruct (decide (p' < 4)%nat); [by apply Hhi, Hp'|].
  unfold lane. rewrite (proj2 (lookup_ge_None q p')); [done|]. rewrite Hq. lia.
Qed.
Lemma push_four p x q : four q → four (push_lane p x q).
Proof. unfold four, push_lane. by rewrite length_insert. Qed.
Lemma lane_insert (q : lanes A) p l : (p < length q)%nat → lane (<[p := l]> q) p = l.
Proof. intros Hp. unfold lane. by rewrite list_lookup_insert_eq. Qed.
Lemma lane_insert_ne (q : lanes A) p p' l : p ≠ p' → lane (<[p := l]> q) p' = lane q p'.
Proof. intros Hp. unfold lane. by rewrite list_lookup_insert_ne. Qed.

(** Lanes filled one after the other with a list keep, lane by lane, its order. *)
Definition sorted_into (f : A → nat) (l : list A) (q : lanes A) : Prop :=
  four q ∧ ∀ p, (p < 4)%nat → lane q p = filter (λ x, f x = p) l.
Lemma sorted_into_nil f : sorted_into f [] no_lanes.
Proof. split; [done|]. intros p Hp. do 4 (destruct p as [|p]; [done|]). lia. Qed.
Lemma sorted_into_push f l q x : (f x < 4)%nat → sorted_into f l q → sorted_into f (l ++ [x]) (push_lane (f x) x q).
Proof.
  intros Hf [H4 Hl]. split; [by apply push_four|]. intros p Hp. rewrite filter_app, filter_cons, filter_nil. unfold four in H4. unfold push_lane.
  destruct (decide (f x = p)) as [<-|Hne].
  - rewrite lane_insert by lia. by rewrite Hl.
  - rewrite lane_insert_ne by done. by rewrite app_nil_r, Hl.
Qed.

(** The order in which [pop_highest pop_front] takes things. *)
Definition in_order (q : lanes A) : list A := concat (rev q).
Lemma pop_in_order q : four q →
  match pop_highest pop_front q with
  | Some (x, q') => in_order q = x :: in_order q' ∧ four q'
  | None => in_order q = []
  end.
Proof. intros Hq. destruct q as [|[|? ?] [|[|? ?] [|[|? ?] [|[|? ?] [|]]]]]; done. Qed.
End Lanes.

(** ** Messages between local agents (ipc.rs) *)

Definition ChannelId := Z.
Inductive MessagePriority := MP_Low | MP_Normal | MP_High | MP_Critical.
#[export] Instance MessagePriority_eq_dec : EqDecision MessagePriority.
Proof. solve_decision. Defined.
Definition mp_index (p : MessagePriority) : nat := match p with MP_Low => 0 | MP_Normal => 1 | MP_High => 2 | MP_Critical => 3 end.
Record Message := mkMessage {
  m_id : Z; m_sender : NodeId; m_priority : MessagePriority; m_intent : IntentHash; m_payload : list Z; m_timestamp : Z
}.
Definition Message_new (id : Z) (sender : NodeId) (intent : IntentHash) (payload : list Z) : Message :=
  mkMessage id sender MP_Normal intent payload 0.
Definition Message_with_priority (m : Message) (p : MessagePriority) : Message :=
  mkMessage (m_id m) (m_sender m) p (m_intent m) (m_payload m) (m_timestamp m).
Definition Message_with_timestamp (m : Message) (t : Z) : Message :=
  mkMessage (m_id m) (m_sender m) (m_priority m) (m_intent m) (m_payload m) t.

Record SharedData := mkShared { sd_data : list Z; sd_owner : NodeId; sd_intent : IntentHash }.

Record Mailbox := mkMailbox {
  mb_channel : ChannelId; mb_owner : NodeId; mb_queues : lanes Message; pending_count : Z; max_depth : Z
}.
Definition Mailbox_new (c : ChannelId) (owner : NodeId) (depth : Z) : Mailbox := mkMailbox c owner no_lanes 0 depth.
Definition mb_set (mb : Mailbox) (q : lanes Message) (n : Z) : Mailbox := mkMailbox (mb_channel mb) (mb_owner mb) q n (max_depth mb).
Definition recv (mb : Mailbox) : Mailbox * option Message :=
  match pop_highest pop_front (mb_queues mb) with
  | Some (m, q) => (mb_set mb q (pending_count mb - 1), Some m)
  | None => (mb, None)
  end.
Definition recv_priority (mb : Mailbox) (p : MessagePriority) : Mailbox * option Message :=
  match pop_lanes pop_front [mp_index p] (mb_queues mb) with
  | Some (m, q) => (mb_set mb q (pending_count mb - 1), Some m)
  | None => (mb, None)
  end.
Definition has_messages (mb : Mailbox) : bool := 0 <? pending_count mb.

Inductive IpcError := ChannelNotFound | MailboxFull | AgentNotFound | MessageTooLarge.
Definition deliver (mb : Mailbox) (m : Message) : outcome IpcError Mailbox :=
  if max_depth mb <=? pending_count mb then Err MailboxFull
  else Ok (mb_set mb (push_lane (mp_index (m_priority m)) m (mb_queues mb)) (pending_count mb + 1)).

Record LocalRouter := mkLocalRouter {
  mailboxes : gmap ChannelId Mailbox;
  agent_channels : gmap NodeId ChannelId;
  shared_data : gmap IntentHash SharedData;
  messages_routed : Z;
  bytes_transferred : Z
}.
Definition LocalRouter_new : LocalRouter := mkLocalRouter ∅ ∅ ∅ 0 0.
Definition lr_set_mailboxes (r : LocalRouter) (ms : gmap ChannelId Mailbox) : LocalRouter :=
  mkLocalRouter ms (agent_channels r) (shared_data r) (messages_routed r) (bytes_transferred r).
Definition lr_register (c : ChannelId) (r : LocalRouter) (agent : NodeId) (depth : Z) : LocalRouter :=
  mkLocalRouter (<[c := Mailbox_new c agent depth]> (mailboxes r)) (<[agent := c]> (agent_channels r)) (shared_data r)
    (messages_routed r) (bytes_transferred r).
Definition lr_unregister (r : LocalRouter) (agent : NodeId) : LocalRouter :=
  match agent_channels r !! agent with
  | Some c => mkLocalRouter (delete c (mailboxes r)) (delete agent (agent_channels r)) (shared_data r) (messages_routed r) (bytes_transferred r)
  | None => r
  end.
Definition send_to_channel (r : LocalRouter) (c : ChannelId) (m : Message) : outcome IpcError LocalRouter :=
  match mailboxes r !! c with
  | None => Err ChannelNotFound
  | Some mb =>
      mb' ← deliver mb m;
      Ok (mkLocalRouter (<[c := mb']> (mailboxes r)) (agent_channels r) (shared_data r)
            (u64_add (messages_routed r) 1) (u64_add (bytes_transferred r) (len (m_payload m))))
  end.
Definition lr_send (r : LocalRouter) (target : NodeId) (m : Message) : outcome IpcError LocalRouter :=
  match agent_channels r !! target with
  | None => Err AgentNotFound
  | Some c => send_to_channel r c m
  end.
Definition lr_mailbox (r : LocalRouter) (agent : NodeId) : option Mailbox :=
  c ← agent_channels r !! agent; mailboxes r !! c.
(** [router.mailbox(&agent)] followed by [recv] or [recv_priority] on what it gives. *)
Definition lr_recv (take : Mailbox → Mailbox * option Message) (r : LocalRouter) (agent : NodeId) : LocalRouter * option Message :=
  match agent_channels r !! agent with
  | Some c =>
      match mailboxes r !! c with
      | Some mb => (lr_set_mailboxes r (<[c := (take mb).1]> (mailboxes r)), (take mb).2)
      | None => (r, None)
      end
  | None => (r, None)
  end.
Definition share_data (r : LocalRouter) (d : SharedData) : LocalRouter :=
  mkLocalRouter (mailboxes r) (agent_channels r) (<[sd_intent d := d]> (shared_data r)) (messages_routed r) (bytes_transferred r).
Definition get_shared (r : LocalRouter) (i : IntentHash) : option SharedData := shared_data r !! i.
Definition unshare (r : LocalRouter) (i : IntentHash) : LocalRouter * option SharedData :=
  (mkLocalRouter (mailboxes r) (agent_channels r) (delete i (shared_data r)) (messages_routed r) (bytes_transferred r), shared_data r !! i).
Definition lr_agent_count (r : LocalRouter) : nat := size (agent_channels r).

(** *** A mailbox is a priority queue *)

(** The messages waiting, in the order they came. *)
Definition of_priority (p : nat) (l : list Message) : list Message := filter (λ m, mp_index (m_priority m) = p) l.
Record holds (mb : Mailbox) (l : list Message) : Prop := {
  holds_four : four (mb_queues mb);
  holds_lane p : (p < 4)%nat → lane (mb_queues mb) p = of_priority p l;
  holds_count : pending_count mb = len l;
  holds_depth : len l ≤ Z.max 0 (max_depth mb)
}.
(** The first message of the highest priority there is. *)
Definition next_of (l l1 : list Message) (m : Message) (l2 : list Message) : Prop :=
  l = l1 ++ m :: l2 ∧ (∀ m', m' ∈ l → (mp_index (m_priority m') ≤ mp_index (m_priority m))%nat) ∧
  ∀ m', m' ∈ l1 → m_priority m' ≠ m_priority m.

Lemma mp_index_lt p : (mp_index p < 4)%nat.
Proof. destruct p; cbn; lia. Qed.
Lemma mp_index_inj p q : mp_index p = mp_index q → p = q.
Proof. by destruct p, q. Qed.
Lemma holds_new c a d : holds (Mailbox_new c a d) [].
Proof. split; [done|apply (sorted_into_nil (λ m, mp_index (m_priority m)))|done|rewrite len_nil; lia]. Qed.

Lemma deliver_holds mb l m : holds mb l →
  (len l < max_depth mb → ∃ mb', deliver mb m = Ok mb' ∧ holds mb' (l ++ [m]) ∧
     mb_owner mb' = mb_owner mb ∧ mb_channel mb' = mb_channel mb ∧ max_depth mb' = max_depth mb) ∧
  (max_depth mb ≤ len l → deliver mb m = Err MailboxFull).
Proof.
  intros [H4 Hl Hc Hd]. unfold deliver. rewrite Hc. split; intros Hm.
  - rewrite (proj2 (Z.leb_gt _ _)) by lia. eexists. split_and!; try done.
    destruct (sorted_into_push (λ m, mp_index (m_priority m)) l (mb_queues mb) m (mp_index_lt _) (conj H4 Hl)) as [H4' Hl'].
    split; cbn; [done|done|by rewrite len_app|rewrite len_app, len_cons, len_nil; lia].
  - by rewrite (proj2 (Z.leb_le _ _)).
Qed.

(** Taking the head of a lane takes the first message of that priority. *)
Lemma filter_head p l m k : of_priority p l = m :: k →
  ∃ l1 l2, l = l1 ++ m :: l2 ∧ mp_index (m_priority m) = p ∧ (∀ m', m' ∈ l1 → mp_index (m_priority m') ≠ p) ∧
    k = of_priority p (l1 ++ l2) ∧ ∀ p', p' ≠ p → of_priority p' (l1 ++ l2) = of_priority p' l.
Proof.
  unfold of_priority. revert k. induction l as [|x l IH]; intros k E; [done|]. rewrite filter_cons in E. destruct (decide _) as [Hx|Hx].
  - injection E as <- <-. exists [], l. split_and!; try done; [by intros ? ?%not_elem_of_nil|].
    intros p' Hp'. rewrite filter_cons. cbn. destruct (decide _); [congruence|done].
  - destruct (IH k E) as (l1 & l2 & -> & Hm & Hl1 & -> & Ho). exists (x :: l1), l2. split_and!; try done.
    + intros m' [->|Hm']%elem_of_cons; [done|by apply Hl1].
    + cbn [app]. rewrite (filter_cons (λ m0, mp_index (m_priority m0) = p) x). destruct (decide _); [done|done].
    + intros p' Hp'. cbn [app]. rewrite !filter_cons, Ho by done. done.
Qed.

Lemma pop_lane_holds mb l m k p :
  holds mb l → (p < 4)%nat → pop_front (lane (mb_queues mb) p) = Some (m, k) →
  ∃ l1 l2, l = l1 ++ m :: l2 ∧ mp_index (m_priority m) = p ∧ (∀ m', m' ∈ l1 → mp_index (m_priority m') ≠ p) ∧
    holds (mb_set mb (<[p := k]> (mb_queues mb)) (pending_count mb - 1)) (l1 ++ l2).
Proof.
  intros [H4 Hl Hc Hd] Hp E. rewrite Hl in E by done. destruct (of_priority p l) as [|x k'] eqn:Ef; [done|].
  injection E as -> ->. apply filter_head in Ef as (l1' & l2 & -> & Hm & Hl1 & Hk & Ho). exists l1', l2. split_and!; try done.
  rewrite len_app, len_cons in *. split; cbn; [by unfold four; rewrite length_insert| |rewrite len_app; lia|rewrite len_app; lia].
  intros p' Hp'. destruct (decide (p = p')) as [<-|Hne].
  - by rewrite lane_insert by (unfold four in H4; lia).
  - rewrite lane_insert_ne, Ho by done. by apply Hl.
Qed.

(** What [recv] gives is the first message of the highest priority, and the rest
    waits on in order. *)
Lemma recv_holds mb l : holds mb l →
  (l = [] → recv mb = (mb, None)) ∧
  (l ≠ [] → ∃ m l1 l2 mb', recv mb = (mb', Some m) ∧ next_of l l1 m l2 ∧ holds mb' (l1 ++ l2) ∧
     mb_owner mb' = mb_owner mb ∧ mb_channel mb' = mb_channel mb ∧ max_depth mb' = max_depth mb).
Proof.
  intros H. pose proof H as [H4 Hl Hc Hd].
  assert (Hempty : concat (mb_queues mb) = [] ↔ l = []).
  { rewrite <- (pop_highest_None pop_front) by (done || apply takes_front). unfold pop_highest. rewrite pop_lanes_None by apply takes_front.
    split.
    - intros Hn. apply elem_of_nil_inv. intros m Hm. pose proof (mp_index_lt (m_priority m)) as Hp.
      assert (Hin : m ∈ of_priority (mp_index (m_priority m)) l) by (apply list_elem_of_filter; done).
      rewrite <- Hl, Hn in Hin; [by apply not_elem_of_nil in Hin| |done].
      destruct (m_priority m); cbn; set_solver.
    - intros -> p Hp. rewrite Hl; [done|]. set_unfold. lia. }
  unfold recv. split.
  - intros ->. rewrite (proj2 (pop_highest_None pop_front (mb_queues mb) takes_front H4)); [done|by apply Hempty].
  - intros Hne. destruct (pop_highest pop_front (mb_queues mb)) as [[m q']|] eqn:E.
    2: { apply pop_highest_None in E; [|apply takes_front|done]. by apply Hempty in E. }
    apply pop_highest_Some in E as (_ & _ & p & k & Hp & Ek & -> & Hhi); [|apply takes_front|done].
    destruct (pop_lane_holds mb l m k p H Hp Ek) as (l1 & l2 & El & Hm & Hl1 & Hh).
    eexists m, l1, l2, _. split_and!; try done. split_and!; [done| |].
    + intros m' Hm'. destruct (decide (mp_index (m_priority m') ≤ mp_index (m_priority m))%nat) as [|Hgt]; [done|].
      specialize (Hhi (mp_index (m_priority m')) ltac:(lia)). rewrite Hl in Hhi by apply mp_index_lt.
      assert (Hin : m' ∈ of_priority (mp_index (m_priority m')) l) by (apply list_elem_of_filter; done).
      rewrite Hhi in Hin. by apply not_elem_of_nil in Hin.
    + intros m' Hm' Ep. apply (Hl1 m' Hm'). by rewrite Ep.
Qed.
(** [recv_priority] looks at one lane only. *)
Lemma recv_priority_holds mb l p : holds mb l →
  (of_priority (mp_index p) l = [] → recv_priority mb p = (mb, None)) ∧
  (of_priority (mp_index p) l ≠ [] → ∃ m l1 l2 mb', recv_priority mb p = (mb', Some m) ∧ l = l1 ++ m :: l2 ∧
     m_priority m = p ∧ (∀ m', m' ∈ l1 → m_priority m' ≠ p) ∧ holds mb' (l1 ++ l2)).
Proof.
  intros H. pose proof H as [H4 Hl Hc Hd]. unfold recv_priority. cbn. split; intros E.
  - by rewrite Hl, E by apply mp_index_lt.
  - destruct (pop_front (lane (mb_queues mb) (mp_index p))) as [[m k]|] eqn:Ek.
    + destruct (pop_lane_holds mb l m k (mp_index p) H (mp_index_lt p) Ek) as (l1 & l2 & El & Hm & Hl1 & Hh).
      eexists m, l1, l2, _. split_and!; try done; [by apply mp_index_inj|]. intros m' Hm' Ep. apply (Hl1 m' Hm'). by rewrite Ep.
    + apply takes_front in Ek. rewrite Hl in Ek by apply mp_index_lt. done.
Qed.

(** *** The router *)

(** Its invariant: an agent's channel leads to a mailbox of that agent and no two agents
    share one; the identifiers handed out are below the counter. *)
Record router_ok (next : Z) (r : LocalRouter) : Prop := {
  ro_channels a c : agent_channels r !! a = Some c → ∃ mb, mailboxes r !! c = Some mb ∧ mb_owner mb = a;
  ro_mailboxes c mb : mailboxes r !! c = Some mb → mb_channel mb = c ∧ c < next ∧ ∃ l, holds mb l
}.
Inductive ipc_step : Z * LocalRouter → Z * LocalRouter → Prop :=
  | IS_register next c r a d : next ≤ c → ipc_step (next, r) (c + 1, lr_register c r a d)
  | IS_unregister next r a : ipc_step (next, r) (next, lr_unregister r a)
  | IS_send next r a m r' : lr_send r a m = Ok r' → ipc_step (next, r) (next, r')
  | IS_send_to_channel next r c m r' : send_to_channel r c m = Ok r' → ipc_step (next, r) (next, r')
  | IS_recv next r a : ipc_step (next, r) (next, (lr_recv recv r a).1)
  | IS_recv_priority next r a p : ipc_step (next, r) (next, (lr_recv (λ mb, recv_priority mb p) r a).1)
  | IS_share next r d : ipc_step (next, r) (next, share_data r d)
  | IS_unshare next r i : ipc_step (next, r) (next, (unshare r i).1).


(** What one mailbox is replaced by keeps the invariant when it is a mailbox of the
    same agent and channel. *)
Lemma router_ok_insert next r c mb mb' l :
  router_ok next r → mailboxes r !! c = Some mb → holds mb' l → mb_owner mb' = mb_owner mb → mb_channel mb' = mb_channel mb →
  router_ok next (lr_set_mailboxes r (<[c := mb']> (mailboxes r))).
Proof.
  intros [Hc Hm] Hmb Hl Ho Hch. split; cbn.
  - intros a c' Ha. destruct (Hc a c' Ha) as (mb0 & Hmb0 & Hown). destruct (decide (c = c')) as [<-|Hne].
    + exists mb'. rewrite lookup_insert_eq. split; [done|]. rewrite Ho. congruence.
    + exists mb0. by rewrite lookup_insert_ne.
  - intros c' mb0 [[<- <-]|[_ H0]]%lookup_insert_Some; [|by apply Hm].
    destruct (Hm c mb Hmb) as (E & Hlt & _). split_and!; [congruence|done|by exists l].
Qed.
Lemma router_ok_stats next r ch n b :
  router_ok next r → router_ok next (mkLocalRouter (mailboxes r) (agent_channels r) ch n b).
Proof. by intros [Hc Hm]. Qed.
Lemma router_ok_new next : router_ok next LocalRouter_new.
Proof. split; cbn; intros ? ?; by rewrite ?lookup_empty. Qed.

(** Channel identifiers are fresh, so an agent that registers gets an empty
    mailbox of its own. *)
Lemma router_ok_register next r c a d : next ≤ c → router_ok next r → router_ok (c + 1) (lr_register c r a d).
Proof.
  intros Hlt [Hc Hm]. split; cbn.
  - intros a' c' [[<- <-]|[Hne Ha]]%lookup_insert_Some.
    + eexists. by rewrite lookup_insert_eq.
    + destruct (Hc a' c' Ha) as (mb & Hmb & Ho). exists mb. rewrite lookup_insert_ne; [done|].
      intros <-. apply Hm in Hmb. lia.
  - intros c' mb [[<- <-]|[_ H0]]%lookup_insert_Some.
    + split_and!; [done|lia|]. exists []. apply holds_new.
    + apply Hm in H0 as (? & ? & ?). split_and!; [done|lia|done].
Qed.
Lemma router_ok_unregister next r a : router_ok next r → router_ok next (lr_unregister r a).
Proof.
  intros [Hc Hm]. unfold lr_unregister. destruct (agent_channels r !! a) as [c|] eqn:Ea; [|done]. split; cbn.
  - intros a' c' [Hne Ha]%lookup_delete_Some. destruct (Hc a' c' Ha) as (mb & Hmb & Ho). exists mb.
    rewrite lookup_delete_ne; [done|]. intros <-. destruct (Hc a c Ea) as (mb0 & Hmb0 & Ho0). congruence.
  - intros c' mb [_ H0]%lookup_delete_Some. by apply Hm.
Qed.
Lemma send_to_channel_spec next r c m mb l :
  router_ok next r → mailboxes r !! c = Some mb → holds mb l →
  (len l < max_depth mb → ∃ r' mb', send_to_channel r c m = Ok r' ∧ router_ok next r' ∧ mailboxes r' = <[c := mb']> (mailboxes r) ∧
     holds mb' (l ++ [m]) ∧ agent_channels r' = agent_channels r ∧ messages_routed r' = u64_add (messages_routed r) 1) ∧
  (max_depth mb ≤ len l → send_to_channel r c m = Err MailboxFull).
Proof.
  intros Hr Hmb Hl. unfold send_to_channel. rewrite Hmb. destruct (deliver_holds mb l m Hl) as [Hok Hfull]. split; intros Hd.
  - destruct (Hok Hd) as (mb' & -> & Hl' & Ho & Hc & _). cbn. eexists _, mb'. split_and!; try done.
    exact (router_ok_stats next _ _ _ _ (router_ok_insert next r c mb mb' (l ++ [m]) Hr Hmb Hl' Ho Hc)).
  - by rewrite (Hfull Hd).
Qed.
Lemma send_to_channel_ok next r c m r' : router_ok next r → send_to_channel r c m = Ok r' → router_ok next r'.
Proof.
  intros Hr E. destruct (mailboxes r !! c) as [mb|] eqn:Hmb; [|unfold send_to_channel in E; by rewrite Hmb in E].
  destruct (ro_mailboxes _ _ Hr c mb Hmb) as (_ & _ & l & Hl). destruct (send_to_channel_spec next r c m mb l Hr Hmb Hl) as [Hok Hfull].
  destruct (decide (len l < max_depth mb)) as [Hd|Hd].
  - destruct (Hok Hd) as (r1 & mb' & E1 & ? & _). congruence.
  - rewrite Hfull in E by lia. done.
Qed.
Lemma router_ok_recv next r a take :
  (∀ mb l, holds mb l → ∃ l', holds (take mb).1 l' ∧ mb_owner (take mb).1 = mb_owner mb ∧ mb_channel (take mb).1 = mb_channel mb) →
  router_ok next r → router_ok next (lr_recv take r a).1.
Proof.
  intros Ht Hr. unfold lr_recv. destruct (agent_channels r !! a) as [c|]; [|done]. destruct (mailboxes r !! c) as [mb|] eqn:Hmb; [|done].
  destruct (ro_mailboxes _ _ Hr c mb Hmb) as (_ & _ & l & Hl). destruct (Ht mb l Hl) as (l' & Hl' & Ho & Hc). cbn.
  by eapply router_ok_insert.
Qed.
Lemma recv_keeps mb l : holds mb l → ∃ l', holds (recv mb).1 l' ∧ mb_owner (recv mb).1 = mb_owner mb ∧ mb_channel (recv mb).1 = mb_channel mb.
Proof.
  intros H. destruct (recv_holds mb l H) as [Hn Hs]. destruct (decide (l = [])) as [E|E].
  - rewrite (Hn E). by exists l.
  - destruct (Hs E) as (m & l1 & l2 & mb' & -> & _ & Hl & Ho & Hc & _). by exists (l1 ++ l2).
Qed.
Lemma recv_priority_keeps p mb l : holds mb l →
  ∃ l', holds (recv_priority mb p).1 l' ∧ mb_owner (recv_priority mb p).1 = mb_owner mb ∧ mb_channel (recv_priority mb p).1 = mb_channel mb.
Proof.
  intros H. destruct (recv_priority_holds mb l p H) as [Hn Hs]. destruct (decide (of_priority (mp_index p) l = [])) as [E|E].
  - rewrite (Hn E). by exists l.
  - destruct (Hs E) as (m & l1 & l2 & mb' & Er & _ & _ & _ & Hl). rewrite Er. exists (l1 ++ l2). split; [done|].
    unfold recv_priority in Er. by destruct (pop_lanes _ _ _) as [[? ?]|]; injection Er as <-.
Qed.
Lemma ipc_step_ok s s' : ipc_step s s' → router_ok s.1 s.2 → router_ok s'.1 s'.2.
Proof.
  destruct 1; cbn; intros Hr; try done.
  - by apply (router_ok_register next).
  - by apply router_ok_unregister.
  - unfold lr_send in H. destruct (agent_channels r !! a); [|done]. by eapply send_to_channel_ok.
  - by eapply send_to_channel_ok.
  - apply router_ok_recv; [apply recv_keeps|done].
  - apply router_ok_recv; [apply recv_priority_keeps|done].
  - by destruct Hr.
  - by destruct Hr.
Qed.
Lemma ipc_reachable_ok n s : rtc ipc_step (n, LocalRouter_new) s → router_ok s.1 s.2.
Proof.
  intros H. apply (rtc_preserves ipc_step (λ s, router_ok s.1 s.2) ipc_step_ok _ _ H), router_ok_new.
Qed.

(** A message sent to a registered agent waits in that agent's own mailbox, behind the
    others of its priority, or is refused because the mailbox is full. *)
(** C37: in every router reached from an empty one by registering, unregistering,
    sending, receiving and sharing, sending to an agent fails with [AgentNotFound] exactly
    when the agent is not registered and with [MailboxFull] exactly when its mailbox
    holds [max_depth] messages, otherwise the message goes behind the others of the one mailbox
    the agent owns and no other mailbox changes; receiving gives the oldest message
    of the highest priority and keeps the rest in order, and gives nothing only when none
    waits. *)
Theorem local_delivery n next r :
  rtc ipc_step (n, LocalRouter_new) (next, r) →
  (∀ a m, agent_channels r !! a = None → lr_send r a m = Err AgentNotFound) ∧
  ∀ a c, agent_channels r !! a = Some c →
    ∃ mb l, mailboxes r !! c = Some mb ∧ mb_owner mb = a ∧ holds mb l ∧
      (∀ m, max_depth mb ≤ len l → lr_send r a m = Err MailboxFull) ∧
      (∀ m, len l < max_depth mb → ∃ r' mb', lr_send r a m = Ok r' ∧ mailboxes r' = <[c := mb']> (mailboxes r) ∧
         holds mb' (l ++ [m]) ∧ agent_channels r' = agent_channels r) ∧
      (l = [] → (lr_recv recv r a).2 = None) ∧
      (l ≠ [] → ∃ m l1 l2 mb', (lr_recv recv r a).2 = Some m ∧ next_of l l1 m l2 ∧
         mailboxes (lr_recv recv r a).1 = <[c := mb']> (mailboxes r) ∧ holds mb' (l1 ++ l2)).
Proof.
  intros H. apply ipc_reachable_ok in H. cbn in H. split; [intros a m Ha; unfold lr_send; by rewrite Ha|]. intros a c Ha.
  destruct (ro_channels _ _ H a c Ha) as (mb & Hmb & Ho). destruct (ro_mailboxes _ _ H c mb Hmb) as (_ & _ & l & Hl).
  exists mb, l. unfold lr_send, lr_recv. rewrite Ha, Hmb. cbn. pose proof (λ m, send_to_channel_spec next r c m mb l H Hmb Hl) as Hsend.
  destruct (recv_holds mb l Hl) as [Hn Hs]. split_and!; try done.
  - intros m. by apply Hsend.
  - intros m Hd. destruct (proj1 (Hsend m) Hd) as (r' & mb' & ? & _ & ? & ? & ? & _). by exists r', mb'.
  - intros E. by rewrite (Hn E).
  - intros E. destruct (Hs E) as (m & l1 & l2 & mb' & -> & Hnext & Hl' & _). by exists m, l1, l2, mb'.
Qed.

Section IpcExamples.
Let a1 : NodeId := replicate 32 1.
Let a2 : NodeId := replicate 32 2.
Let hello : Message := Message_with_priority (Message_new 1 a1 (replicate 16 7) [1; 2]) MP_High.
Let r1 : LocalRouter := lr_register 1 LocalRouter_new a2 1.

Lemma local_delivery_witness :
  ∃ r, rtc ipc_step (1, LocalRouter_new) (2, r) ∧ lr_send r a2 hello = Err MailboxFull ∧
    lr_send r a1 hello = Err AgentNotFound ∧ (lr_recv recv r a2).2 = Some hello.
Proof.
  destruct (lr_send r1 a2 hello) as [r|e|] eqn:E; [|vm_compute in E; discriminate E|vm_compute in E; discriminate E].
  assert (Hr : rtc ipc_step (1, LocalRouter_new) (2, r)).
  { eapply rtc_l; [apply (IS_register 1 1); lia|]. eapply rtc_l; [by eapply IS_send|]. apply rtc_refl. }
  exists r. destruct (local_delivery 1 2 r Hr) as [Hnone _]. split_and!.
  - exact Hr.
  - vm_compute in E. injection E as <-. vm_compute. reflexivity.
  - apply Hnone. vm_compute in E. injection E as <-. vm_compute. reflexivity.
  - vm_compute in E. injection E as <-. vm_compute. reflexivity.
Defined.

(** Registering an agent again leaves its first mailbox, with what it holds, in the map:
    messages sent to the old channel are still accepted and nobody can receive them, and
    unregistering removes only the new one. *)
Example register_again_strands :
  let r := lr_unregister (lr_register 2 r1 a2 1) a2 in
  agent_channels r = ∅ ∧ (∃ r', send_to_channel r 1 hello = Ok r' ∧ lr_recv recv r' a2 = (r', None)).
Proof. split; [by vm_compute|]. eexists. by vm_compute. Qed.
End IpcExamples.

(** ** The work-stealing scheduler (scheduler.rs) *)

(** [TaskPriority], [TaskState] and [Task] are those of executor.rs; the closure a task runs is
    of type [W]. *)
Inductive TaskPriority := TP_Low | TP_Normal | TP_High | TP_Critical.
Definition tp_index (p : TaskPriority) : nat := match p with TP_Low => 0 | TP_Normal => 1 | TP_High => 2 | TP_Critical => 3 end.
Inductive ExecState := ES_Pending | ES_Running | ES_Completed | ES_Failed | ES_Cancelled.
Record ExecTask (W : Type) := mkExecTask {
  et_id : Z; et_name : text; et_priority : TaskPriority; et_state : ExecState; required_capability : option text; work : W;
  created_at : Z; started_at : option Z; completed_at : option Z
}.
Arguments mkExecTask {W}. Arguments et_id {W}. Arguments et_name {W}. Arguments et_priority {W}. Arguments et_state {W}.
Arguments required_capability {W}. Arguments work {W}. Arguments created_at {W}. Arguments started_at {W}. Arguments completed_at {W}.

Abbreviation WorkerId := nat.
Inductive AffinityHint := AH_Any | AH_PreferWorker (w : WorkerId) | AH_RequireWorker (w : WorkerId) | AH_PreferGpu | AH_PreferNuma (node : Z).
Inductive WorkerState := WS_Running | WS_Idle | WS_Stealing | WS_Stopping.
Record WorkerStats := mkWorkerStats {
  tasks_executed : Z; tasks_stolen : Z; tasks_stolen_from : Z; total_work_time_us : Z; total_idle_time_us : Z
}.
Definition WorkerStats_default : WorkerStats := mkWorkerStats 0 0 0 0 0.

Section Scheduler.
Context {W : Type}.
Definition ExecTask_new (id : Z) (name : text) (w : W) : ExecTask W := mkExecTask id name TP_Normal ES_Pending None w 0 None None.
Definition ExecTask_with_priority (t : ExecTask W) (p : TaskPriority) : ExecTask W :=
  mkExecTask (et_id t) (et_name t) p (et_state t) (required_capability t) (work t) (created_at t) (started_at t) (completed_at t).
Definition ExecTask_requiring (t : ExecTask W) (cap : text) : ExecTask W :=
  mkExecTask (et_id t) (et_name t) (et_priority t) (et_state t) (Some cap) (work t) (created_at t) (started_at t) (completed_at t).

Record WorkUnit := mkWorkUnit { wu_task : ExecTask W; affinity : AffinityHint; wu_dependencies : list Z; estimated_cost : Z }.
Definition WorkUnit_new (t : ExecTask W) : WorkUnit := mkWorkUnit t AH_Any [] 1000.
Definition with_affinity (u : WorkUnit) (a : AffinityHint) : WorkUnit := mkWorkUnit (wu_task u) a (wu_dependencies u) (estimated_cost u).
Definition with_dependency (u : WorkUnit) (d : Z) : WorkUnit := mkWorkUnit (wu_task u) (affinity u) (wu_dependencies u ++ [d]) (estimated_cost u).
Definition with_cost (u : WorkUnit) (c : Z) : WorkUnit := mkWorkUnit (wu_task u) (affinity u) (wu_dependencies u) c.
Definition unit_lane (u : WorkUnit) : nat := tp_index (et_priority (wu_task u)).

Record WorkQueue := mkWorkQueue { wq_queues : lanes WorkUnit; wq_len : Z }.
Definition WorkQueue_new : WorkQueue := mkWorkQueue no_lanes 0.
Definition wq_push (q : WorkQueue) (u : WorkUnit) : WorkQueue := mkWorkQueue (push_lane (unit_lane u) u (wq_queues q)) (wq_len q + 1).
Definition wq_take (take : list WorkUnit → option (WorkUnit * list WorkUnit)) (q : WorkQueue) : WorkQueue * option WorkUnit :=
  match pop_highest take (wq_queues q) with
  | Some (u, l) => (mkWorkQueue l (wq_len q - 1), Some u)
  | None => (q, None)
  end.
Definition wq_pop (q : WorkQueue) : WorkQueue * option WorkUnit := wq_take pop_back q.
Definition wq_steal (q : WorkQueue) : WorkQueue * option WorkUnit := wq_take pop_front q.
Definition wq_is_empty (q : WorkQueue) : bool := wq_len q =? 0.

Record Worker := mkWorker {
  wk_id : WorkerId; wk_queue : WorkQueue; wk_state : WorkerState; wk_stats : WorkerStats; numa_node : option Z; has_gpu : bool
}.
Definition Worker_new (id : WorkerId) : Worker := mkWorker id WorkQueue_new WS_Idle WorkerStats_default None false.
Definition with_numa (w : Worker) (node : Z) : Worker := mkWorker (wk_id w) (wk_queue w) (wk_state w) (wk_stats w) (Some node) (has_gpu w).
Definition with_gpu (w : Worker) : Worker := mkWorker (wk_id w) (wk_queue w) (wk_state w) (wk_stats w) (numa_node w) true.
Definition wk_set_queue (w : Worker) (q : WorkQueue) : Worker := mkWorker (wk_id w) q (wk_state w) (wk_stats w) (numa_node w) (has_gpu w).
Definition wk_set_stats (w : Worker) (st : WorkerStats) : Worker := mkWorker (wk_id w) (wk_queue w) (wk_state w) st (numa_node w) (has_gpu w).
Definition wk_set_state (w : Worker) (st : WorkerState) : Worker := mkWorker (wk_id w) (wk_queue w) st (wk_stats w) (numa_node w) (has_gpu w).
Definition wk_schedule (w : Worker) (u : WorkUnit) : Worker := wk_set_queue w (wq_push (wk_queue w) u).
Definition next_work (w : Worker) : Worker * option WorkUnit := (wk_set_queue w (wq_pop (wk_queue w)).1, (wq_pop (wk_queue w)).2).
Definition allow_steal (w : Worker) : Worker * option WorkUnit :=
  let r := wq_steal (wk_queue w) in
  let w := wk_set_queue w r.1 in
  let st := wk_stats w in
  match r.2 with
  | Some u => (wk_set_stats w (mkWorkerStats (tasks_executed st) (tasks_stolen st) (u64_add (tasks_stolen_from st) 1)
                                 (total_work_time_us st) (total_idle_time_us st)), Some u)
  | None => (w, None)
  end.
Definition record_steal (w : Worker) : Worker :=
  let st := wk_stats w in
  wk_set_stats w (mkWorkerStats (tasks_executed st) (u64_add (tasks_stolen st) 1) (tasks_stolen_from st) (total_work_time_us st) (total_idle_time_us st)).
Definition record_execution (w : Worker) (us : Z) : Worker :=
  let st := wk_stats w in
  wk_set_stats w (mkWorkerStats (u64_add (tasks_executed st) 1) (tasks_stolen st) (tasks_stolen_from st)
                    (u64_add (total_work_time_us st) us) (total_idle_time_us st)).
Definition record_idle (w : Worker) (us : Z) : Worker :=
  let st := wk_stats w in
  wk_set_stats w (mkWorkerStats (tasks_executed st) (tasks_stolen st) (tasks_stolen_from st) (total_work_time_us st)
                    (u64_add (total_idle_time_us st) us)).

Record Scheduler := mkScheduler {
  workers : list Worker; global_queue : WorkQueue; next_worker : Z; total_scheduled : Z; total_completed : Z
}.
Definition Scheduler_new (n : nat) : Scheduler := mkScheduler ((λ i, Worker_new i) <$> seq 0 n) WorkQueue_new 0 0 0.
Definition set_workers (s : Scheduler) (ws : list Worker) : Scheduler :=
  mkScheduler ws (global_queue s) (next_worker s) (total_scheduled s) (total_completed s).
Definition set_global (s : Scheduler) (q : WorkQueue) : Scheduler :=
  mkScheduler (workers s) q (next_worker s) (total_scheduled s) (total_completed s).
Definition worker (s : Scheduler) (id : WorkerId) : option Worker := workers s !! id.
(** The closure gets the worker there was and gives the one to keep. *)
Definition configure_worker (s : Scheduler) (id : WorkerId) (f : Worker → Worker) : Scheduler := set_workers s (alter f id (workers s)).

(** [workers[i].schedule(work)], and [global_queue.push(work)] when there is no such worker. *)
Definition schedule_at (s : Scheduler) (i : option nat) (u : WorkUnit) : Scheduler :=
  match i with
  | Some i => set_workers s (alter (λ w, wk_schedule w u) i (workers s))
  | None => set_global s (wq_push (global_queue s) u)
  end.
Definition worker_index (s : Scheduler) (id : WorkerId) : option nat :=
  if (id <? length (workers s))%nat then Some id else None.
Definition numa_matches (node : Z) (w : Worker) : Prop := numa_node w = Some node.
Definition gpu_matches (w : Worker) : Prop := has_gpu w = true.
#[local] Instance numa_matches_dec node w : Decision (numa_matches node w).
Proof. unfold numa_matches. apply _. Defined.
#[local] Instance gpu_matches_dec w : Decision (gpu_matches w).
Proof. unfold gpu_matches. apply _. Defined.
(** The remainder by the number of workers panics when there are none. *)
Definition schedule (s : Scheduler) (u : WorkUnit) : outcome Empty_set Scheduler :=
  let s := mkScheduler (workers s) (global_queue s) (next_worker s) (u64_add (total_scheduled s) 1) (total_completed s) in
  match affinity u with
  | AH_Any =>
      if len (workers s) =? 0 then Panic
      else let idx := next_worker s mod len (workers s) in
           Ok (schedule_at (mkScheduler (workers s) (global_queue s) (u64_add (next_worker s) 1) (total_scheduled s) (total_completed s))
                 (Some (Z.to_nat idx)) u)
  | AH_PreferWorker id | AH_RequireWorker id => Ok (schedule_at s (worker_index s id) u)
  | AH_PreferGpu => Ok (schedule_at s (fst <$> list_find gpu_matches (workers s)) u)
  | AH_PreferNuma node => Ok (schedule_at s (fst <$> list_find (numa_matches node) (workers s)) u)
  end.

(** The victims in turn, from the worker's right-hand neighbour round. *)
Fixpoint steal_from (ws : list Worker) (me : nat) (offsets : list nat) : option (list Worker * WorkUnit) :=
  match offsets with
  | [] => None
  | o :: os =>
      let victim := ((me + o) mod length ws)%nat in
      match ws !! victim with
      | Some v =>
          match allow_steal v with
          | (v', Some u) => Some (alter (λ w, wk_set_state (record_steal w) WS_Running) me (<[victim := v']> ws), u)
          | (_, None) => steal_from ws me os
          end
      | None => steal_from ws me os
      end
  end.
Definition get_work (s : Scheduler) (me : WorkerId) : Scheduler * option WorkUnit :=
  if (length (workers s) <=? me)%nat then (s, None)
  else
    match workers s !! me with
    | None => (s, None)
    | Some w =>
        match next_work w with
        | (w', Some u) => (set_workers s (<[me := w']> (workers s)), Some u)
        | (_, None) =>
            match wq_pop (global_queue s) with
            | (q, Some u) => (set_global s q, Some u)
            | (_, None) =>
                let ws := <[me := wk_set_state w WS_Stealing]> (workers s) in
                match steal_from ws me (seq 1 (length ws - 1)) with
                | Some (ws', u) => (set_workers s ws', Some u)
                | None => (set_workers s (<[me := wk_set_state w WS_Idle]> (workers s)), None)
                end
            end
        end
    end.
Definition complete (s : Scheduler) (id : WorkerId) (us : Z) : Scheduler :=
  mkScheduler (alter (λ w, record_execution w us) id (workers s)) (global_queue s) (next_worker s) (total_scheduled s)
    (u64_add (total_completed s) 1).
Definition pending_work (s : Scheduler) : Z := foldr Z.add 0 ((λ w, wq_len (wk_queue w)) <$> workers s) + wq_len (global_queue s).
Definition load_balance (s : Scheduler) : list Z := (λ w, wq_len (wk_queue w)) <$> workers s.

(** *** No work is lost *)

Definition items (q : WorkQueue) : list WorkUnit := concat (wq_queues q).
Record wq_ok (q : WorkQueue) : Prop := {
  wq_four : four (wq_queues q);
  wq_count : wq_len q = len (items q);
  wq_lanes p u : u ∈ lane (wq_queues q) p → unit_lane u = p
}.
(** The workers' queues and the global one. *)
Definition all_queues (s : Scheduler) : list WorkQueue := (wk_queue <$> workers s) ++ [global_queue s].
Definition held (s : Scheduler) : list WorkUnit := concat (items <$> all_queues s).
Definition sched_ok (s : Scheduler) : Prop := Forall wq_ok (all_queues s).

Lemma tp_index_lt p : (tp_index p < 4)%nat.
Proof. destruct p; cbn; lia. Qed.
Lemma wq_new_ok : wq_ok WorkQueue_new.
Proof.
  split; [done|done|]. intros p u. unfold lane. cbn. do 4 (destruct p as [|p]; [by intros ?%not_elem_of_nil|]). by intros ?%not_elem_of_nil.
Qed.
Lemma wq_push_ok q u : wq_ok q → wq_ok (wq_push q u) ∧ items (wq_push q u) ≡ₚ u :: items q.
Proof.
  intros [H4 Hc Hl]. pose proof (tp_index_lt (et_priority (wu_task u))) as Hi. fold (unit_lane u) in Hi. unfold four in H4.
  assert (E : items (wq_push q u) ≡ₚ u :: items q) by (apply push_Permutation; lia). split; [|done]. split; [by apply push_four| |].
  - cbn. rewrite Hc. unfold len. rewrite E. cbn [length]. lia.
  - intros p u' Hu'. cbn in Hu'. unfold push_lane in Hu'. destruct (decide (unit_lane u = p)) as [<-|Hne].
    + rewrite lane_insert in Hu' by lia. apply elem_of_app in Hu' as [Hu'|Hu']; [by apply Hl|]. by apply list_elem_of_singleton in Hu' as ->.
    + rewrite lane_insert_ne in Hu' by done. by apply Hl.
Qed.
Lemma wq_take_spec take q : takes take → wq_ok q →
  match wq_take take q with
  | (q', Some u) => wq_ok q' ∧ items q ≡ₚ u :: items q' ∧ ∀ u', u' ∈ items q → (unit_lane u' ≤ unit_lane u)%nat
  | (q', None) => q' = q ∧ items q = []
  end.
Proof.
  intros Ht [H4 Hc Hl]. unfold wq_take. destruct (pop_highest take (wq_queues q)) as [[u qs]|] eqn:E.
  2: { split; [done|]. by apply pop_highest_None in E. }
  apply pop_highest_Some in E as (Hp & H4' & p & l & Hlt & El & -> & Hhi); [|done|done]. pose proof H4 as H4l. unfold four in H4l.
  pose proof (takes_Permutation _ _ _ _ Ht El) as Hlp.
  assert (Hu : unit_lane u = p) by (apply Hl; rewrite Hlp; by left). split_and!; [split|done|].
  - done.
  - cbn. rewrite Hc. unfold len, items. rewrite Hp. cbn. lia.
  - cbn. intros p' u'. destruct (decide (p = p')) as [<-|Hne].
    + rewrite lane_insert by lia. intros Hin. apply Hl. rewrite Hlp. by right.
    + rewrite lane_insert_ne by done. apply Hl.
  - intros u' Hin. unfold items in Hin. apply list_elem_of_In, in_concat in Hin as (k & Hk & Hu'). apply list_elem_of_In in Hk, Hu'.
    apply list_elem_of_lookup in Hk as [p' Hk]. assert (Hk' : lane (wq_queues q) p' = k) by (unfold lane; by rewrite Hk).
    assert (Hup : unit_lane u' = p') by (apply Hl; by rewrite Hk'). rewrite Hu, Hup.
    destruct (decide (p < p')%nat) as [Hgt|]; [|lia]. specialize (Hhi p' Hgt). rewrite Hk' in Hhi. subst k. by apply not_elem_of_nil in Hu'.
Qed.

(** One queue changes: what the schedulers' steps come to. *)
Lemma held_insert qs i q q' :
  qs !! i = Some q → ∃ hi lo, concat (items <$> qs) = hi ++ items q ++ lo ∧ concat (items <$> <[i := q']> qs) = hi ++ items q' ++ lo.
Proof.
  intros Hq. rewrite list_fmap_insert. destruct (concat_insert (items <$> qs) i (items q) (items q')) as (hi & lo & E1 & E2).
  - by rewrite list_lookup_fmap, Hq.
  - by exists (concat hi), (concat lo).
Qed.
Lemma held_put qs i q u : Forall wq_ok qs → qs !! i = Some q →
  Forall wq_ok (<[i := wq_push q u]> qs) ∧ concat (items <$> <[i := wq_push q u]> qs) ≡ₚ u :: concat (items <$> qs).
Proof.
  intros Hok Hq. destruct (wq_push_ok q u (Forall_lookup_1 _ _ _ _ Hok Hq)) as [Hq' Hp]. split; [by apply Forall_insert|].
  destruct (held_insert qs i q (wq_push q u) Hq) as (hi & lo & -> & ->). rewrite Hp. cbn. symmetry. apply Permutation_middle.
Qed.
Lemma held_take qs i q u q' : Forall wq_ok qs → qs !! i = Some q → wq_ok q' → items q ≡ₚ u :: items q' →
  Forall wq_ok (<[i := q']> qs) ∧ concat (items <$> qs) ≡ₚ u :: concat (items <$> <[i := q']> qs).
Proof.
  intros Hok Hq Hq' Hp. split; [by apply Forall_insert|]. destruct (held_insert qs i q q' Hq) as (hi & lo & -> & ->).
  rewrite Hp. cbn. symmetry. apply Permutation_middle.
Qed.
Lemma alter_lookup {A} (f : A → A) i (l : list A) x : l !! i = Some x → alter f i l = <[i := f x]> l.
Proof.
  intros Hx. apply list_eq. intros j. destruct (decide (i = j)) as [<-|].
  - rewrite list_lookup_alter_eq, list_lookup_insert_eq by (by eapply lookup_lt_Some). by rewrite Hx.
  - by rewrite list_lookup_alter_ne, list_lookup_insert_ne.
Qed.
Lemma queues_alter_same (ws : list Worker) f i : (∀ w, wk_queue (f w) = wk_queue w) → wk_queue <$> alter f i ws = wk_queue <$> ws.
Proof.
  intros Hf. apply list_eq. intros j. rewrite !list_lookup_fmap. destruct (decide (i = j)) as [<-|].
  - rewrite list_lookup_alter_eq. destruct (ws !! i); cbn; [by rewrite Hf|done].
  - by rewrite list_lookup_alter_ne.
Qed.

Lemma all_queues_worker s i w : workers s !! i = Some w → all_queues s !! i = Some (wk_queue w).
Proof. intros Hw. unfold all_queues. apply lookup_app_l_Some. by rewrite list_lookup_fmap, Hw. Qed.
Lemma all_queues_global s : all_queues s !! length (workers s) = Some (global_queue s).
Proof.
  unfold all_queues. rewrite lookup_app_r by (rewrite length_fmap; lia). by rewrite length_fmap, Nat.sub_diag.
Qed.
Lemma all_queues_set_worker s i w w' : workers s !! i = Some w →
  (wk_queue <$> <[i := w']> (workers s)) ++ [global_queue s] = <[i := wk_queue w']> (all_queues s).
Proof.
  intros Hw. unfold all_queues. rewrite list_fmap_insert, insert_app_l; [done|]. rewrite length_fmap. by eapply lookup_lt_Some.
Qed.
Lemma all_queues_set_global s q : (wk_queue <$> workers s) ++ [q] = <[length (workers s) := q]> (all_queues s).
Proof.
  unfold all_queues. rewrite insert_app_r_alt by (rewrite length_fmap; lia). by rewrite length_fmap, Nat.sub_diag.
Qed.

(** Work that is scheduled goes to the back of one queue. *)
Lemma schedule_at_queues s i u : (∀ i', i = Some i' → (i' < length (workers s))%nat) →
  ∃ j q, all_queues s !! j = Some q ∧ all_queues (schedule_at s i u) = <[j := wq_push q u]> (all_queues s) ∧
    length (workers (schedule_at s i u)) = length (workers s).
Proof.
  intros Hi. destruct i as [i|]; cbn.
  - destruct (lookup_lt_is_Some_2 _ _ (Hi i eq_refl)) as [w Hw]. exists i, (wk_queue w). split_and!.
    + by apply all_queues_worker.
    + rewrite (alter_lookup _ _ _ _ Hw). unfold all_queues at 1. cbn. by rewrite (all_queues_set_worker s i w).
    + by rewrite length_alter.
  - exists (length (workers s)), (global_queue s). split_and!; [apply all_queues_global| |done].
    unfold all_queues at 1. cbn. by rewrite all_queues_set_global.
Qed.
Lemma found_index P `{∀ w, Decision (P w)} (ws : list Worker) i : fst <$> list_find P ws = Some i → (i < length ws)%nat.
Proof. destruct (list_find P ws) as [[j w]|] eqn:E; [|done]. intros [= <-]. apply list_find_Some in E as (E & _). by eapply lookup_lt_Some. Qed.
Lemma schedule_spec s u : workers s ≠ [] → sched_ok s →
  ∃ s', schedule s u = Ok s' ∧ sched_ok s' ∧ held s' ≡ₚ u :: held s ∧ length (workers s') = length (workers s).
Proof.
  intros Hne Hok. assert (Hlen : (0 < length (workers s))%nat) by (destruct (workers s); [done|cbn; lia]).
  assert (Hat : ∀ n t i, (∀ i', i = Some i' → (i' < length (workers s))%nat) →
    let s1 := mkScheduler (workers s) (global_queue s) n t (total_completed s) in
    sched_ok (schedule_at s1 i u) ∧ held (schedule_at s1 i u) ≡ₚ u :: held s ∧ length (workers (schedule_at s1 i u)) = length (workers s)).
  { intros n t i Hi. cbn. destruct (schedule_at_queues (mkScheduler (workers s) (global_queue s) n t (total_completed s)) i u Hi) as (j & q & Hq & E & El).
    unfold sched_ok, held. rewrite E, El. destruct (held_put (all_queues s) j q u Hok Hq). by split_and!. }
  unfold schedule. destruct (affinity u).
  - rewrite (proj2 (Z.eqb_neq _ _)) by (cbn; unfold len; lia). eexists. split; [done|].
    apply (Hat (u64_add (next_worker s) 1) (u64_add (total_scheduled s) 1) (Some (Z.to_nat (next_worker s mod len (workers s))))). intros i' [= <-].
    pose proof (Z.mod_pos_bound (next_worker s) (len (workers s)) ltac:(unfold len; lia)). unfold len in *. lia.
  - eexists. split; [done|]. apply Hat. cbn. unfold worker_index. cbn. intros i'. case_match eqn:E; [|done]. intros [= <-]. by apply Nat.ltb_lt.
  - eexists. split; [done|]. apply Hat. cbn. unfold worker_index. cbn. intros i'. case_match eqn:E; [|done]. intros [= <-]. by apply Nat.ltb_lt.
  - eexists. split; [done|]. apply Hat. intros i'. apply found_index.
  - eexists. split; [done|]. apply Hat. intros i'. apply found_index.
Qed.

(** Stealing looks at every other worker. *)
Lemma allow_steal_queue w w' u : allow_steal w = (w', u) → wq_steal (wk_queue w) = (wk_queue w', u).
Proof. unfold allow_steal. destruct (wq_steal (wk_queue w)) as [q [u'|]]; cbn; by intros [= <- <-]. Qed.
Lemma steal_from_spec me os : ∀ ws : list Worker, match steal_from ws me os with
  | Some (ws', u) => ∃ v w q', ws !! v = Some w ∧ wq_steal (wk_queue w) = (q', Some u) ∧ wk_queue <$> ws' = <[v := q']> (wk_queue <$> ws) ∧ length ws' = length ws
  | None => ∀ o w, o ∈ os → ws !! ((me + o) mod length ws)%nat = Some w → (wq_steal (wk_queue w)).2 = None
  end.
Proof.
  induction os as [|o os IH]; intros ws; cbn; [by intros ? ? ?%not_elem_of_nil|]. specialize (IH ws).
  destruct (ws !! _) as [v|] eqn:Ev.
  - destruct (allow_steal v) as [v' [u|]] eqn:Es; apply allow_steal_queue in Es.
    + exists ((me + o) mod length ws)%nat, v, (wk_queue v'). split_and!; [done|done| |by rewrite length_alter, length_insert].
      rewrite queues_alter_same by done. by rewrite list_fmap_insert.
    + destruct (steal_from ws me os) as [[ws' u]|]; [done|]. intros o' w [->|Ho]%elem_of_cons Hw; [|by eapply IH].
      rewrite Ev in Hw. injection Hw as <-. by rewrite Es.
  - destruct (steal_from ws me os) as [[ws' u]|]; [done|]. intros o' w [->|Ho]%elem_of_cons Hw; [congruence|by eapply IH].
Qed.
Lemma offset_to n me j : (me < n)%nat → (j < n)%nat → j ≠ me → ∃ o, o ∈ seq 1 (n - 1) ∧ ((me + o) mod n)%nat = j.
Proof.
  intros Hm Hj Hne. destruct (decide (me < j)%nat).
  - exists (j - me)%nat. split; [apply elem_of_seq; lia|]. rewrite Nat.mod_small; lia.
  - exists (n - (me - j))%nat. split; [apply elem_of_seq; lia|]. replace (me + (n - (me - j)))%nat with (j + 1 * n)%nat by lia.
    rewrite Nat.Div0.mod_add. by apply Nat.mod_small.
Qed.

Lemma take_at s s' j q take u q' : takes take → sched_ok s → all_queues s !! j = Some q → wq_take take q = (q', Some u) →
  all_queues s' = <[j := q']> (all_queues s) → sched_ok s' ∧ held s ≡ₚ u :: held s'.
Proof.
  intros Ht Hok Hq E Es. pose proof (wq_take_spec take q Ht (Forall_lookup_1 _ _ _ _ Hok Hq)) as Hspec. rewrite E in Hspec.
  destruct Hspec as (Hq' & Hp & _). unfold sched_ok, held. rewrite Es. by eapply held_take.
Qed.
Lemma nothing_to_steal s me w ws :
  workers s !! me = Some w → sched_ok s → items (wk_queue w) = [] → items (global_queue s) = [] →
  wk_queue <$> ws = wk_queue <$> workers s →
  (∀ o w', o ∈ seq 1 (length ws - 1) → ws !! ((me + o) mod length ws)%nat = Some w' → (wq_steal (wk_queue w')).2 = None) →
  held s = [].
Proof.
  intros Hw Hok Hempty Hgempty Hqs Hsteal. pose proof (f_equal length Hqs) as Hlen. rewrite !length_fmap in Hlen.
  pose proof (lookup_lt_Some _ _ _ Hw) as Hme.
  apply concat_nil_Forall, Forall_fmap, Forall_forall. intros q Hq. cbn. unfold all_queues in Hq.
  apply elem_of_app in Hq as [Hq| ->%list_elem_of_singleton]; [|done]. apply list_elem_of_lookup in Hq as [j Hj].
  destruct (decide (j = me)) as [->|Hne]; [rewrite list_lookup_fmap, Hw in Hj; by injection Hj as <-|].
  rewrite <- Hqs, list_lookup_fmap in Hj. destruct (ws !! j) as [wj|] eqn:Ewj; [|done]. injection Hj as <-.
  assert (Hjn : (j < length ws)%nat) by (by eapply lookup_lt_Some).
  destruct (offset_to (length ws) me j ltac:(lia) Hjn Hne) as (o & Ho & Eo).
  specialize (Hsteal o wj Ho). rewrite Eo in Hsteal. specialize (Hsteal Ewj).
  assert (Hwj : wq_ok (wk_queue wj)).
  { eapply (Forall_lookup_1 _ _ j _ Hok). unfold all_queues. apply lookup_app_l_Some. by rewrite <- Hqs, list_lookup_fmap, Ewj. }
  pose proof (wq_take_spec pop_front (wk_queue wj) takes_front Hwj) as Hsp. unfold wq_steal in Hsteal.
  destruct (wq_take pop_front (wk_queue wj)) as [? [?|]]; [done|]. by destruct Hsp.
Qed.
(** A worker that asks gets work exactly when there is any, its own of the highest
    priority first. *)
Lemma get_work_spec s me w : workers s !! me = Some w → sched_ok s →
  match get_work s me with
  | (s', Some u) => sched_ok s' ∧ held s ≡ₚ u :: held s' ∧ length (workers s') = length (workers s) ∧
      (items (wk_queue w) ≠ [] → u ∈ items (wk_queue w) ∧ ∀ u', u' ∈ items (wk_queue w) → (unit_lane u' ≤ unit_lane u)%nat)
  | (s', None) => sched_ok s' ∧ held s' = held s ∧ held s = [] ∧ length (workers s') = length (workers s)
  end.
Proof.
  intros Hw Hok. pose proof (lookup_lt_Some _ _ _ Hw) as Hme. unfold get_work. rewrite (proj2 (Nat.leb_gt _ _)) by done. rewrite Hw.
  pose proof (Forall_lookup_1 _ _ _ _ Hok (all_queues_worker s me w Hw)) as Hwq.
  pose proof (wq_take_spec pop_back (wk_queue w) takes_back Hwq) as Hlocal. unfold next_work, wq_pop.
  destruct (wq_take pop_back (wk_queue w)) as [q1 [u|]] eqn:E1.
  { destruct Hlocal as (Hq1 & Hp & Hmax). split_and!.
    - eapply (take_at s _ me (wk_queue w) pop_back u q1); [apply takes_back|done|by apply all_queues_worker|done|].
      unfold all_queues at 1. cbn. by rewrite (all_queues_set_worker s me w).
    - eapply (take_at s _ me (wk_queue w) pop_back u q1); [apply takes_back|done|by apply all_queues_worker|done|].
      unfold all_queues at 1. cbn. by rewrite (all_queues_set_worker s me w).
    - cbn. by rewrite length_insert.
    - intros _. split; [rewrite Hp; by left|done]. }
  destruct Hlocal as [_ Hempty]. cbn -[wq_take]. unfold wq_pop.
  pose proof (wq_take_spec pop_back (global_queue s) takes_back (Forall_lookup_1 _ _ _ _ Hok (all_queues_global s))) as Hglobal.
  destruct (wq_take pop_back (global_queue s)) as [q2 [u|]] eqn:E2.
  { assert (Hs : all_queues (set_global s q2) = <[length (workers s) := q2]> (all_queues s)).
    { unfold all_queues at 1. cbn. by rewrite all_queues_set_global. }
    destruct (take_at s (set_global s q2) _ _ pop_back u q2 takes_back Hok (all_queues_global s) E2 Hs). by split_and!. }
  destruct Hglobal as [_ Hgempty].
  set (ws := <[me := wk_set_state w WS_Stealing]> (workers s)).
  assert (Hqs : wk_queue <$> ws = wk_queue <$> workers s).
  { unfold ws. rewrite list_fmap_insert. apply list_insert_id. by rewrite list_lookup_fmap, Hw. }
  assert (Hlen : length ws = length (workers s)) by (unfold ws; by rewrite length_insert).
  pose proof (steal_from_spec me (seq 1 (length ws - 1)) ws) as Hsteal.
  destruct (steal_from ws me (seq 1 (length ws - 1))) as [[ws' u]|].
  - destruct Hsteal as (v & wv & q' & Hv & Eq & Ews & El).
    assert (Hv' : all_queues s !! v = Some (wk_queue wv)).
    { unfold all_queues. apply lookup_app_l_Some. by rewrite <- Hqs, list_lookup_fmap, Hv. }
    assert (Hs : all_queues (set_workers s ws') = <[v := q']> (all_queues s)).
    { unfold all_queues. cbn. rewrite Ews, Hqs, insert_app_l; [done|]. rewrite length_fmap, <- Hlen. by eapply lookup_lt_Some. }
    destruct (take_at s (set_workers s ws') v (wk_queue wv) pop_front u q' takes_front Hok Hv' Eq Hs). split_and!; [done|done|cbn; lia|done].
  - assert (Hs : all_queues (set_workers s (<[me := wk_set_state w WS_Idle]> (workers s))) = all_queues s).
    { unfold all_queues. cbn. rewrite list_fmap_insert. f_equal. apply list_insert_id. by rewrite list_lookup_fmap, Hw. }
    unfold sched_ok, held. rewrite Hs. split_and!; [done|done| |cbn; by rewrite length_insert].
    by apply (nothing_to_steal s me w ws).
Qed.

(** *** Runs *)

Inductive SchedCmd :=
  | SC_schedule (u : WorkUnit) | SC_get_work (me : WorkerId) | SC_complete (me : WorkerId) (us : Z)
  | SC_gpu (id : WorkerId) | SC_numa (id : WorkerId) (node : Z).
(** The scheduler and the work given out so far. *)
Definition run_cmd (s : Scheduler) (c : SchedCmd) : outcome Empty_set (Scheduler * list WorkUnit) :=
  match c with
  | SC_schedule u => s' ← schedule s u; Ok (s', [])
  | SC_get_work me => Ok ((get_work s me).1, option_list (get_work s me).2)
  | SC_complete me us => Ok (complete s me us, [])
  | SC_gpu id => Ok (configure_worker s id with_gpu, [])
  | SC_numa id node => Ok (configure_worker s id (λ w, with_numa w node), [])
  end.
Fixpoint run_cmds (s : Scheduler) (cs : list SchedCmd) : outcome Empty_set (Scheduler * list WorkUnit) :=
  match cs with
  | [] => Ok (s, [])
  | c :: cs' => '(s1, out) ← run_cmd s c; '(s2, out') ← run_cmds s1 cs'; Ok (s2, out ++ out')
  end.
Definition scheduled (cs : list SchedCmd) : list WorkUnit := omap (λ c, match c with SC_schedule u => Some u | _ => None end) cs.

Lemma sched_new_ok n : sched_ok (Scheduler_new n) ∧ held (Scheduler_new n) = [].
Proof.
  assert (H : Forall (λ q, wq_ok q ∧ items q = []) (all_queues (Scheduler_new n))).
  { apply Forall_app. split; [|apply Forall_singleton; split; [apply wq_new_ok|done]]. cbn.
    apply Forall_fmap, Forall_fmap, Forall_forall. intros i _. cbn. split; [apply wq_new_ok|done]. }
  split; [by eapply Forall_impl; [exact H|intros ? [? _]]|].
  apply concat_nil_Forall, Forall_fmap. by eapply Forall_impl; [exact H|intros ? [_ ?]].
Qed.
Lemma same_queues s s' : wk_queue <$> workers s' = wk_queue <$> workers s → global_queue s' = global_queue s →
  sched_ok s → sched_ok s' ∧ held s' = held s ∧ length (workers s') = length (workers s).
Proof.
  intros Hw Hg Hok. assert (E : all_queues s' = all_queues s) by (unfold all_queues; by rewrite Hw, Hg).
  unfold sched_ok, held. rewrite E. split_and!; [done|done|]. apply (f_equal length) in Hw. by rewrite !length_fmap in Hw.
Qed.
Lemma run_cmd_spec s c : workers s ≠ [] → sched_ok s →
  ∃ s' out, run_cmd s c = Ok (s', out) ∧ sched_ok s' ∧ length (workers s') = length (workers s) ∧
    scheduled [c] ++ held s ≡ₚ out ++ held s'.
Proof.
  intros Hne Hok. destruct c as [u|me|me us|id|id node]; cbn [run_cmd].
  - destruct (schedule_spec s u Hne Hok) as (s' & -> & Hok' & Hp & Hl). exists s', []. split_and!; try done; cbn; by rewrite Hp.
  - destruct (workers s !! me) as [w|] eqn:Hw.
    + pose proof (get_work_spec s me w Hw Hok) as Hspec. destruct (get_work s me) as [s' [u|]]; cbn.
      * destruct Hspec as (Hok' & Hp & Hl & _). by exists s', [u].
      * destruct Hspec as (Hok' & Hp & _ & Hl). exists s', []. split_and!; try done; cbn; by rewrite Hp.
    + unfold get_work. apply lookup_ge_None in Hw. rewrite (proj2 (Nat.leb_le _ _)) by done. by exists s, [].
  - destruct (same_queues s (complete s me us)) as (? & E & ?); [by apply queues_alter_same|done|done|]. eexists _, []. split_and!; try done; by rewrite E.
  - destruct (same_queues s (configure_worker s id with_gpu)) as (? & E & ?); [by apply queues_alter_same|done|done|]. eexists _, []. split_and!; try done; by rewrite E.
  - destruct (same_queues s (configure_worker s id (λ w, with_numa w node))) as (? & E & ?); [by apply queues_alter_same|done|done|].
    eexists _, []. split_and!; try done; by rewrite E.
Qed.
Lemma scheduled_cons c cs : scheduled (c :: cs) = scheduled [c] ++ scheduled cs.
Proof. by destruct c. Qed.
Lemma run_cmds_spec cs : ∀ s, workers s ≠ [] → sched_ok s →
  ∃ s' out, run_cmds s cs = Ok (s', out) ∧ sched_ok s' ∧ length (workers s') = length (workers s) ∧ scheduled cs ++ held s ≡ₚ out ++ held s'.
Proof.
  induction cs as [|c cs IH]; intros s Hne Hok; [by exists s, []|].
  destruct (run_cmd_spec s c Hne Hok) as (s1 & out & E1 & Hok1 & Hl1 & Hp1).
  destruct (IH s1) as (s2 & out' & E2 & Hok2 & Hl2 & Hp2); [by destruct (workers s1), (workers s)|done|].
  exists s2, (out ++ out'). rewrite scheduled_cons. cbn [run_cmds]. rewrite E1. cbn. rewrite E2. cbn. split_and!; [done|done|congruence|].
  rewrite <- !(assoc_L (++)). by rewrite (Permutation_app_swap_app (scheduled [c])), Hp1, (Permutation_app_swap_app _ out), Hp2.
Qed.

Lemma pending_work_held s : sched_ok s → pending_work s = len (held s).
Proof.
  unfold sched_ok, held, pending_work, all_queues. intros [Hws Hg]%Forall_app. rewrite fmap_app, concat_app, len_app. f_equal.
  - induction (workers s) as [|w ws IH]; [done|]. apply Forall_cons in Hws as [Hw Hws]. cbn [fmap list_fmap foldr concat].
    rewrite len_app, (wq_count _ Hw), IH; done.
  - rewrite Forall_singleton in Hg. cbn. by rewrite app_nil_r, (wq_count _ Hg).
Qed.
(** A scheduler with at least one worker never panics and loses, duplicates and
    invents nothing: after any sequence of scheduling (with any affinity), asking for
    work, completing and configuring workers, what was scheduled is exactly what was handed out
    and what still waits; [pending_work] counts what waits; a worker that asks gets something
    if and only if anything waits anywhere, from its own queue as long as that has any, the
    highest priority there first. *)
Theorem work_conserved n cs : (0 < n)%nat →
  ∃ s out, run_cmds (Scheduler_new n) cs = Ok (s, out) ∧ length (workers s) = n ∧
    scheduled cs ≡ₚ out ++ held s ∧ pending_work s = len (held s) ∧
    ∀ me, (me < n)%nat →
      ((get_work s me).2 = None ↔ held s = []) ∧
      ∃ w, worker s me = Some w ∧
        (items (wk_queue w) ≠ [] → ∃ u, (get_work s me).2 = Some u ∧ u ∈ items (wk_queue w) ∧
           ∀ u', u' ∈ items (wk_queue w) → (unit_lane u' ≤ unit_lane u)%nat).
Proof.
  intros Hn. destruct (sched_new_ok n) as [Hok0 Hh0].
  destruct (run_cmds_spec cs (Scheduler_new n)) as (s & out & E & Hok & Hl & Hp); [destruct n; [lia|done]|done|].
  rewrite Hh0, app_nil_r in Hp. cbn in Hl. rewrite length_fmap, length_seq in Hl.
  exists s, out. split_and!; [done|done|done|by apply pending_work_held|].
  intros me Hme. rewrite <- Hl in Hme. destruct (lookup_lt_is_Some_2 _ _ Hme) as [w Hw]. pose proof (get_work_spec s me w Hw Hok) as Hspec.
  destruct (get_work s me) as [s' [u|]]; cbn; (split; [|exists w; split; [done|]]).
  - destruct Hspec as (_ & Hp' & _). split; [done|]. intros E0. rewrite E0 in Hp'. by apply Permutation_nil_l in Hp'.
  - destruct Hspec as (_ & _ & _ & Hown). intros Hne. exists u. by destruct (Hown Hne).
  - by destruct Hspec as (_ & _ & ? & _).
  - destruct Hspec as (_ & _ & E0 & _). intros Hne. destruct Hne.
    unfold held in E0. rewrite concat_nil_Forall, Forall_fmap in E0. exact (Forall_lookup_1 _ _ _ _ E0 (all_queues_worker s me w Hw)).
Qed.
End Scheduler.
Arguments WorkUnit W : clear implicits.
Arguments WorkQueue W : clear implicits.
Arguments Worker W : clear implicits.
Arguments Scheduler W : clear implicits.

Section SchedulerExamples.
Let unit_ (id : Z) (p : TaskPriority) (a : AffinityHint) : WorkUnit unit :=
  with_affinity (WorkUnit_new (ExecTask_with_priority (ExecTask_new id (str "t") ()) p)) a.

Lemma work_conserved_witness :
  (0 < 2)%nat ∧ ∃ s out, run_cmds (Scheduler_new 2)
    [SC_schedule (unit_ 1 TP_Normal (AH_RequireWorker 0)); SC_schedule (unit_ 2 TP_High (AH_RequireWorker 0)); SC_get_work 1%nat] = Ok (s, out) ∧
    [unit_ 1 TP_Normal (AH_RequireWorker 0); unit_ 2 TP_High (AH_RequireWorker 0)] ≡ₚ out ++ held s.
Proof.
  split; [lia|].
  destruct (work_conserved (W:=unit) 2 [SC_schedule (unit_ 1 TP_Normal (AH_RequireWorker 0)); SC_schedule (unit_ 2 TP_High (AH_RequireWorker 0)); SC_get_work 1%nat])
    as (s & out & E & _ & Hp & _); [lia|]. by exists s, out.
Defined.

(** Work that requires worker 0 is stolen by worker 1. *)
Example required_worker_ignored :
  match run_cmds (Scheduler_new 2) [SC_schedule (unit_ 1 TP_Normal (AH_RequireWorker 0)); SC_get_work 1%nat] with
  | Ok (_, out) => (et_id ∘ wu_task) <$> out | _ => [] end = [1].
Proof. by vm_compute. Qed.
(** Work is handed out before what it depends on. *)
Example dependencies_ignored :
  match run_cmds (Scheduler_new 1) [SC_schedule (unit_ 1 TP_Low AH_Any); SC_schedule (with_dependency (unit_ 2 TP_High AH_Any) 1); SC_get_work 0%nat] with
  | Ok (_, out) => (et_id ∘ wu_task) <$> out | _ => [] end = [2].
Proof. by vm_compute. Qed.
(** Without workers, work that may go anywhere panics. *)
Example no_workers : schedule (Scheduler_new 0) (unit_ 1 TP_Low AH_Any) = Panic.
Proof. done. Qed.
End SchedulerExamples.
