(* ===== verification/Memory.v ===== *)
(** * Memory of a node's hardware (axiom-hal memory.rs, tensor_alloc.rs)

    The first-fit allocator of a memory resource ([MemoryCapability]) and the pool that
    AI workloads allocate tensors from: slabs of fixed-size slots, an arena and a bump
    allocator.  Addresses and sizes are [u64], and additions wrap as in a release
    build; a slice handed out mutably is the part of the storage the caller may write, so
    writing through it is an operation here.  Fractions ([fragmentation],
    [transfer_time], [utilization]) are floating-point reports and are left out. *)

From stdpp Require Import base numbers list gmap sets.
From S2P Require Import Prelude Types.

(** ** Regions (memory.rs) *)

Inductive MemoryType := MT_Hbm | MT_Gddr | MT_Ddr | MT_Nvm | MT_Sram | MT_Unified.
Definition typical_latency_ns (t : MemoryType) : Z :=
  match t with MT_Sram => 1 | MT_Hbm => 100 | MT_Gddr => 150 | MT_Ddr => 80 | MT_Unified => 100 | MT_Nvm => 300 end.
Definition typical_bandwidth_gbps (t : MemoryType) : Z :=
  match t with MT_Sram => 10000 | MT_Hbm => 900 | MT_Gddr => 500 | MT_Ddr => 50 | MT_Unified => 200 | MT_Nvm => 10 end.

Record MemoryRegion := mkRegion { mr_base : Z; mr_size : Z; mr_allocated : bool; mr_owner : option NodeId }.
Definition MemoryRegion_new (base size : Z) : MemoryRegion := mkRegion base size false None.
Definition mr_end (r : MemoryRegion) : Z := u64_add (mr_base r) (mr_size r).
Definition overlaps (r o : MemoryRegion) : bool := (mr_base r <? mr_end o) && (mr_base o <? mr_end r).
Definition contains (r : MemoryRegion) (addr : Z) : bool := (mr_base r <=? addr) && (addr <? mr_end r).

Record MemoryCapability := mkMemCap {
  memory_type : MemoryType; mc_capacity : Z; mc_bandwidth : Z; mc_latency_ns : Z; mc_alignment : Z; max_alloc : Z;
  persistent : bool; coherent : bool; free_regions : list MemoryRegion
}.
Definition MemoryCapability_new (t : MemoryType) (capacity : Z) : MemoryCapability :=
  mkMemCap t capacity (u64_mul (typical_bandwidth_gbps t) 1000000000) (typical_latency_ns t) 256 capacity
    (match t with MT_Nvm => true | _ => false end) (match t with MT_Ddr | MT_Unified => true | _ => false end)
    [MemoryRegion_new 0 capacity].
Definition with_bandwidth (c : MemoryCapability) (b : Z) : MemoryCapability :=
  mkMemCap (memory_type c) (mc_capacity c) b (mc_latency_ns c) (mc_alignment c) (max_alloc c) (persistent c) (coherent c) (free_regions c).
Definition with_alignment (c : MemoryCapability) (a : Z) : MemoryCapability :=
  mkMemCap (memory_type c) (mc_capacity c) (mc_bandwidth c) (mc_latency_ns c) a (max_alloc c) (persistent c) (coherent c) (free_regions c).
Definition set_free (c : MemoryCapability) (l : list MemoryRegion) : MemoryCapability :=
  mkMemCap (memory_type c) (mc_capacity c) (mc_bandwidth c) (mc_latency_ns c) (mc_alignment c) (max_alloc c) (persistent c) (coherent c) l.
Definition sizes (l : list MemoryRegion) : Z := foldr Z.add 0 (mr_size <$> l).
Definition mc_available (c : MemoryCapability) : Z := sizes (free_regions c).

Definition u64_not (a : Z) : Z := 2 ^ 64 - 1 - a.
(** [(size + self.alignment - 1) & !(self.alignment - 1)] *)
Definition aligned_size (alignment size : Z) : Z :=
  Z.land ((size + alignment - 1) mod 2 ^ 64) (u64_not ((alignment - 1) mod 2 ^ 64)).
(** The first free region that is large enough, and the list with the front of it taken. *)
Fixpoint first_fit (n : Z) (l : list MemoryRegion) : option (Z * list MemoryRegion) :=
  match l with
  | [] => None
  | r :: l' =>
      if n <=? mr_size r then
        Some (mr_base r, if mr_size r =? n then l'
                         else mkRegion (u64_add (mr_base r) n) (mr_size r - n) (mr_allocated r) (mr_owner r) :: l')
      else '(b, l'') ← first_fit n l'; Some (b, r :: l'')
  end.
Definition allocate (c : MemoryCapability) (size : Z) (owner : NodeId) : MemoryCapability * option MemoryRegion :=
  let n := aligned_size (mc_alignment c) size in
  match first_fit n (free_regions c) with
  | Some (b, l) => (set_free c l, Some (mkRegion b n true (Some owner)))
  | None => (c, None)
  end.
(** The pass that merges the freed region with its neighbours: what it has become, and the
    regions left. *)
Fixpoint coalesce (r : MemoryRegion) (l : list MemoryRegion) : MemoryRegion * list MemoryRegion :=
  match l with
  | [] => (r, [])
  | e :: l' =>
      if mr_end r =? mr_base e then coalesce (mkRegion (mr_base r) (u64_add (mr_size r) (mr_size e)) (mr_allocated r) (mr_owner r)) l'
      else if mr_end e =? mr_base r then coalesce (mkRegion (mr_base e) (u64_add (mr_size r) (mr_size e)) (mr_allocated r) (mr_owner r)) l'
      else let '(r', k) := coalesce r l' in (r', e :: k)
  end.
(** Before the first region with a greater base. *)
Fixpoint insert_by_base (r : MemoryRegion) (l : list MemoryRegion) : list MemoryRegion :=
  match l with
  | [] => [r]
  | e :: l' => if mr_base r <? mr_base e then r :: e :: l' else e :: insert_by_base r l'
  end.
Definition mc_free (c : MemoryCapability) (region : MemoryRegion) : MemoryCapability :=
  let '(r, l) := coalesce (MemoryRegion_new (mr_base region) (mr_size region)) (free_regions c) in
  set_free c (insert_by_base r l).
Definition can_allocate (c : MemoryCapability) (size : Z) : bool :=
  existsb (λ r, aligned_size (mc_alignment c) size <=? mr_size r) (free_regions c).

(** *** The address space is partitioned *)

(** Regions within the memory, and how many of a list hold an address. *)
Definition region_ok (cap : Z) (r : MemoryRegion) : Prop := 0 ≤ mr_base r ∧ 0 ≤ mr_size r ∧ mr_base r + mr_size r ≤ cap.
Definition holding (l : list MemoryRegion) (a : Z) : Z := foldr (λ r n, (if contains r a then 1 else 0) + n) 0 l.
(** The free regions and the allocated ones [live] share out the addresses. *)
Record mem_ok (c : MemoryCapability) (live : list MemoryRegion) : Prop := {
  mo_cap : 0 ≤ mc_capacity c < 2 ^ 64;
  mo_free : Forall (region_ok (mc_capacity c)) (free_regions c);
  mo_live : Forall (region_ok (mc_capacity c)) live;
  mo_sizes : sizes (free_regions c) + sizes live = mc_capacity c;
  mo_holding a : holding (free_regions c ++ live) a = if (0 <=? a) && (a <? mc_capacity c) then 1 else 0
}.
Inductive mem_step : MemoryCapability * list MemoryRegion → MemoryCapability * list MemoryRegion → Prop :=
  | MS_allocate c live size owner c' r : 0 ≤ size < 2 ^ 64 → allocate c size owner = (c', Some r) → mem_step (c, live) (c', r :: live)
  | MS_free c live1 r live2 : mem_step (c, live1 ++ r :: live2) (mc_free c r, live1 ++ live2).

Lemma holding_app l k a : holding (l ++ k) a = holding l a + holding k a.
Proof. unfold holding. induction l as [|r l IH]; [done|]. cbn [app foldr]. rewrite IH. lia. Qed.
Lemma sizes_app l k : sizes (l ++ k) = sizes l + sizes k.
Proof. unfold sizes. induction l as [|r l IH]; [done|]. cbn in *. rewrite IH. lia. Qed.
Lemma region_end cap r : cap < 2 ^ 64 → region_ok cap r → mr_end r = mr_base r + mr_size r.
Proof. intros Hc (Hb & Hs & He). unfold mr_end, u64_add. apply Z.mod_small. lia. Qed.
Lemma contains_iff cap r a : cap < 2 ^ 64 → region_ok cap r → contains r a = true ↔ mr_base r ≤ a < mr_base r + mr_size r.
Proof.
  intros Hc Hr. unfold contains. rewrite (region_end cap) by done. rewrite andb_true_iff, Z.leb_le, Z.ltb_lt. done.
Qed.
(** One region split in two, or two merged, hold the same addresses. *)
Lemma contains_split cap r r1 r2 a : cap < 2 ^ 64 → region_ok cap r → region_ok cap r1 → region_ok cap r2 →
  mr_base r1 = mr_base r → mr_base r2 = mr_base r + mr_size r1 → mr_size r = mr_size r1 + mr_size r2 →
  (if contains r a then 1 else 0) = (if contains r1 a then 1 else 0) + (if contains r2 a then 1 else 0).
Proof.
  intros Hc Hr H1 H2 E1 E2 E3. pose proof (contains_iff cap r a Hc Hr) as Hi. pose proof (contains_iff cap r1 a Hc H1) as Hi1.
  pose proof (contains_iff cap r2 a Hc H2) as Hi2. destruct H1 as (_ & ? & _). destruct H2 as (_ & ? & _).
  destruct (contains r a), (contains r1 a), (contains r2 a); try done; exfalso;
    destruct Hi as [Hi Hi'], Hi1 as [Hi1 Hi1'], Hi2 as [Hi2 Hi2'];
    repeat match goal with H : true = true → _ |- _ => specialize (H eq_refl) end;
    first [discriminate Hi'; lia|discriminate Hi1'; lia|discriminate Hi2'; lia|lia].
Qed.

Lemma aligned_size_range al n : 0 ≤ aligned_size al n < 2 ^ 64.
Proof.
  unfold aligned_size, u64_not. pose proof (Z.mod_pos_bound (n + al - 1) (2 ^ 64) ltac:(lia)) as H1.
  pose proof (Z.mod_pos_bound (al - 1) (2 ^ 64) ltac:(lia)) as H2. set (x := (n + al - 1) mod 2 ^ 64) in *. set (y := (al - 1) mod 2 ^ 64) in *.
  assert (Hle : 0 ≤ Z.land x (2 ^ 64 - 1 - y)) by (apply Z.land_nonneg; lia). split; [done|].
  apply Z.log2_lt_cancel. rewrite Z.log2_pow2 by lia.
  pose proof (Z.log2_land x (2 ^ 64 - 1 - y) ltac:(lia) ltac:(lia)) as Hl.
  destruct (decide (x = 0)) as [->|Hx]; [by rewrite Z.land_0_l|]. assert (Z.log2 x < 64) by (apply Z.log2_lt_pow2; lia). lia.
Qed.

Section Partition.
Context (cap : Z) (Hcap : 0 ≤ cap < 2 ^ 64).

Lemma first_fit_spec n l : 0 ≤ n → Forall (region_ok cap) l →
  match first_fit n l with
  | Some (b, l') => region_ok cap (MemoryRegion_new b n) ∧ Forall (region_ok cap) l' ∧ sizes l = n + sizes l' ∧
      ∀ a, holding l a = (if contains (MemoryRegion_new b n) a then 1 else 0) + holding l' a
  | None => Forall (λ r, mr_size r < n) l
  end.
Proof.
  intros Hn. induction l as [|r l IH]; intros Hl; [constructor|]. apply Forall_cons in Hl as [Hr Hl]. specialize (IH Hl). cbn [first_fit].
  pose proof Hr as (Hb & Hs & He). destruct (Z.leb_spec n (mr_size r)) as [Hfit|Hfit]; [destruct (mr_size r =? n) eqn:E|].
  - apply Z.eqb_eq in E. split; [by split_and!; cbn; lia|split; [done|split; [unfold sizes; cbn; lia|]]]. intros a. cbn. f_equal.
    unfold contains. cbn. unfold mr_end. cbn. by rewrite E.
  - assert (Eb : u64_add (mr_base r) n = mr_base r + n) by (unfold u64_add; apply Z.mod_small; lia). rewrite Eb. apply Z.eqb_neq in E.
    split; [by split_and!; cbn; lia|split; [constructor; [by split_and!; cbn; lia|done]|split; [unfold sizes; cbn; lia|]]]. intros a. cbn. rewrite Z.add_assoc. f_equal.
    apply (contains_split cap r); cbn; try done; try lia; by split_and!; cbn; lia.
  - destruct (first_fit n l) as [[b l']|]; cbn.
    + destruct IH as (Hx & Hl' & Hsz & Hh). split; [done|split; [by constructor|split]].
      * unfold sizes in *. cbn. lia.
      * intros a. specialize (Hh a). unfold holding in *. cbn. rewrite Hh. lia.
    + constructor; [lia|done].
Qed.
Lemma coalesce_spec l : ∀ r, region_ok cap r → Forall (region_ok cap) l →
  region_ok cap (coalesce r l).1 ∧ Forall (region_ok cap) (coalesce r l).2 ∧
  mr_size (coalesce r l).1 + sizes (coalesce r l).2 = mr_size r + sizes l ∧
  ∀ a, (if contains (coalesce r l).1 a then 1 else 0) + holding (coalesce r l).2 a = (if contains r a then 1 else 0) + holding l a.
Proof.
  induction l as [|e l IH]; intros r Hr Hl; [done|]. apply Forall_cons in Hl as [He Hl]. cbn [coalesce].
  rewrite (region_end cap r), (region_end cap e) by (done || lia). pose proof Hr as (Hr1 & Hr2 & Hr3). pose proof He as (He1 & He2 & He3).
  destruct (_ =? _) eqn:E1; [|destruct (_ =? mr_base r) eqn:E2].
  - apply Z.eqb_eq in E1. assert (Es : u64_add (mr_size r) (mr_size e) = mr_size r + mr_size e) by (unfold u64_add; apply Z.mod_small; lia).
    rewrite Es. set (m := mkRegion (mr_base r) (mr_size r + mr_size e) (mr_allocated r) (mr_owner r)).
    assert (Hm : region_ok cap m) by (split_and!; cbn; lia). destruct (IH m Hm Hl) as (H1 & H2 & H3 & H4).
    split; [done|split; [done|split; [rewrite H3; unfold sizes; cbn; lia|]]]. intros a. rewrite H4. cbn [holding foldr].
    rewrite (contains_split cap m r e a) by (done || lia || (cbn; lia)). unfold holding. lia.
  - apply Z.eqb_eq in E2. assert (Es : u64_add (mr_size r) (mr_size e) = mr_size r + mr_size e) by (unfold u64_add; apply Z.mod_small; lia).
    rewrite Es. set (m := mkRegion (mr_base e) (mr_size r + mr_size e) (mr_allocated r) (mr_owner r)).
    assert (Hm : region_ok cap m) by (split_and!; cbn; lia). destruct (IH m Hm Hl) as (H1 & H2 & H3 & H4).
    split; [done|split; [done|split; [rewrite H3; unfold sizes; cbn; lia|]]]. intros a. rewrite H4. cbn [holding foldr].
    rewrite (contains_split cap m e r a) by (done || lia || (cbn; lia)). unfold holding. lia.
  - destruct (IH r Hr Hl) as (H1 & H2 & H3 & H4). destruct (coalesce r l) as [r' k]. cbn in *.
    split; [done|split; [by constructor|split; [unfold sizes in *; cbn; lia|]]]. intros a. specialize (H4 a). unfold holding in *. cbn. lia.
Qed.
Lemma insert_by_base_spec r l :
  (Forall (region_ok cap) (r :: l) → Forall (region_ok cap) (insert_by_base r l)) ∧ sizes (insert_by_base r l) = mr_size r + sizes l ∧
  ∀ a, holding (insert_by_base r l) a = (if contains r a then 1 else 0) + holding l a.
Proof.
  induction l as [|e l IH]; [done|]. cbn [insert_by_base]. destruct (mr_base r <? mr_base e); [done|]. destruct IH as (H1 & H2 & H3). split_and!.
  - intros Hf. apply Forall_cons in Hf as [Hr Hf]. apply Forall_cons in Hf as [He Hf]. constructor; [done|]. apply H1. by constructor.
  - unfold sizes in *. cbn. rewrite H2. lia.
  - intros a. specialize (H3 a). unfold holding in *. cbn. rewrite H3. lia.
Qed.
End Partition.

Lemma mem_new_ok t cap : 0 ≤ cap < 2 ^ 64 → mem_ok (MemoryCapability_new t cap) [].
Proof.
  intros Hc. assert (Hr : region_ok cap (MemoryRegion_new 0 cap)) by (split_and!; cbn; lia). split; cbn.
  - done.
  - by constructor.
  - done.
  - unfold sizes. cbn. lia.
  - intros a. pose proof (contains_iff cap _ a ltac:(lia) Hr) as Hi. cbn in Hi.
    destruct (contains _ a); destruct (Z.leb_spec 0 a), (Z.ltb_spec a cap); cbn; try done; exfalso; destruct Hi as [Hi Hi'];
      [specialize (Hi eq_refl); lia|specialize (Hi eq_refl); lia|specialize (Hi eq_refl); lia|discriminate Hi'; lia].
Qed.
Lemma mem_step_ok s s' : mem_step s s' → mem_ok s.1 s.2 → mem_ok s'.1 s'.2.
Proof.
  destruct 1 as [c live size owner c' r Hsz E|c live1 r live2]; cbn; intros [Hc Hf Hl Hs Hh].
  - unfold allocate in E. pose proof (aligned_size_range (mc_alignment c) size) as Hn.
    pose proof (first_fit_spec (mc_capacity c) Hc (aligned_size (mc_alignment c) size) (free_regions c) ltac:(lia) Hf) as Hspec.
    destruct (first_fit _ _) as [[b l]|]; [|done]. injection E as <- <-. destruct Hspec as (Hr & Hl' & Es & Eh). split; cbn [mc_capacity set_free free_regions]; try done.
    + by constructor.
    + unfold sizes in *. cbn in *. lia.
    + intros a. rewrite holding_app. rewrite <- Hh, holding_app, Eh. unfold holding, contains, mr_end, MemoryRegion_new. cbn. lia.
  - unfold mc_free. apply Forall_app in Hl as [Hl1 Hl2]. apply Forall_cons in Hl2 as [Hr Hl2].
    assert (Hr' : region_ok (mc_capacity c) (MemoryRegion_new (mr_base r) (mr_size r))) by exact Hr.
    pose proof (coalesce_spec (mc_capacity c) Hc (free_regions c) _ Hr' Hf) as (H1 & H2 & H3 & H4).
    destruct (coalesce _ _) as [r' k]. cbn in *. destruct (insert_by_base_spec (mc_capacity c) r' k) as (I1 & I2 & I3). split; cbn [mc_capacity set_free free_regions].
    + done.
    + apply I1. by constructor.
    + by apply Forall_app.
    + rewrite I2. rewrite sizes_app in Hs |- *. unfold sizes in Hs at 3. cbn in Hs. fold (sizes live2) in Hs. unfold sizes in *. lia.
    + intros a. rewrite <- Hh, !holding_app, I3, H4. unfold holding, contains, mr_end, MemoryRegion_new. cbn. lia.
Qed.
Lemma mem_step_fixed s s' : mem_step s s' → mc_alignment s'.1 = mc_alignment s.1 ∧ mc_capacity s'.1 = mc_capacity s.1.
Proof.
  destruct 1 as [c live size owner c' r _ E|c live1 r live2]; cbn.
  - unfold allocate in E. destruct (first_fit _ _) as [[b l]|]; [|done]. by injection E as <- _.
  - unfold mc_free. by destruct (coalesce _ _).
Qed.
Lemma mem_reachable_ok c0 s : mem_ok c0 [] → rtc mem_step (c0, []) s →
  mem_ok s.1 s.2 ∧ mc_alignment s.1 = mc_alignment c0 ∧ mc_capacity s.1 = mc_capacity c0.
Proof.
  intros H0 H.
  apply (rtc_preserves mem_step (λ s, mem_ok s.1 s.2 ∧ mc_alignment s.1 = mc_alignment c0 ∧ mc_capacity s.1 = mc_capacity c0)) with (2 := H); [|done].
  intros s1 s2 Hstep (Hok & Ha & Hc). destruct (mem_step_fixed _ _ Hstep) as [-> ->]. split_and!; [by eapply mem_step_ok|done|done].
Qed.

(** For an alignment that is a power of two, sizes are rounded up to a multiple of it. *)
Lemma aligned_size_spec k size : 0 ≤ k < 64 → 0 ≤ size → size + 2 ^ k - 1 < 2 ^ 64 →
  aligned_size (2 ^ k) size = 2 ^ k * ((size + 2 ^ k - 1) / 2 ^ k).
Proof.
  intros Hk Hs Hlt. pose proof (Z.pow_pos_nonneg 2 k ltac:(lia) ltac:(lia)) as Hp.
  pose proof (Z.pow_lt_mono_r 2 k 64 ltac:(lia) ltac:(lia) ltac:(lia)) as Hp'.
  unfold aligned_size, u64_not. rewrite (Z.mod_small (2 ^ k - 1)), Z.mod_small by lia. set (x := size + 2 ^ k - 1) in *.
  replace (2 ^ 64 - 1 - (2 ^ k - 1)) with (Z.ldiff (Z.ones 64) (Z.ones k)).
  - rewrite (Z.ldiff_land (Z.ones 64)), Z.land_assoc, <- Z.ldiff_land, Z.land_ones, Z.mod_small by lia.
    rewrite Z.ldiff_ones_r, Z.shiftl_mul_pow2, Z.shiftr_div_pow2 by lia. lia.
  - rewrite <- Z.sub_nocarry_ldiff; [rewrite !Z.ones_equiv; lia|]. apply Z.bits_inj'. intros n Hn.
    rewrite Z.ldiff_spec, Z.bits_0. destruct (decide (n < k)) as [Hnk|Hnk].
    + by rewrite (Z.ones_spec_low 64 n), andb_false_r by lia.
    + by rewrite Z.ones_spec_high by lia.
Qed.
Lemma rounded_up k size : 0 ≤ k < 64 → 0 ≤ size → size + 2 ^ k - 1 < 2 ^ 64 →
  size ≤ aligned_size (2 ^ k) size < size + 2 ^ k ∧ aligned_size (2 ^ k) size mod 2 ^ k = 0.
Proof.
  intros Hk Hs Hlt. rewrite aligned_size_spec by done. pose proof (Z.pow_pos_nonneg 2 k ltac:(lia) ltac:(lia)) as Hp.
  rewrite Z.mul_comm, Z.mod_mul by lia. split; [|done].
  pose proof (Z.div_mod (size + 2 ^ k - 1) (2 ^ k) ltac:(lia)). pose proof (Z.mod_pos_bound (size + 2 ^ k - 1) (2 ^ k) ltac:(lia)). lia.
Qed.
Lemma first_fit_None n l : first_fit n l = None ↔ existsb (λ r, n <=? mr_size r) l = false.
Proof.
  induction l as [|r l IH]; [done|]. cbn. destruct (n <=? mr_size r); [done|]. cbn. rewrite <- IH. by destruct (first_fit n l) as [[? ?]|].
Qed.
(** Counting two holders of one address. *)
Lemma holding_nonneg l a : 0 ≤ holding l a.
Proof. induction l as [|r l IH]; [done|]. unfold holding in *. cbn. destruct (contains r a); lia. Qed.
Lemma holding_member l r a : r ∈ l → contains r a = true → 1 ≤ holding l a.
Proof.
  induction 1 as [x l|x y l _ IH]; intros Hc; pose proof (holding_nonneg l a); unfold holding in *; cbn.
  - rewrite Hc. lia.
  - specialize (IH Hc). destruct (contains y a); lia.
Qed.

(** C32: whatever is allocated and freed, in any order, and however large the requests,
    every address of the memory is in exactly one of the free regions and the
    allocated ones, so allocated regions never overlap, and the free bytes and the allocated
    ones add up to the capacity; with an alignment that is a power of two, a request
    (that does not wrap around) is given at least what it asks for and less than one alignment
    more, a multiple of the alignment, and is refused exactly when [can_allocate] says so. *)
Theorem memory_partition t cap k c live :
  0 ≤ cap < 2 ^ 64 → 0 ≤ k < 64 → rtc mem_step (with_alignment (MemoryCapability_new t cap) (2 ^ k), []) (c, live) →
  (∀ a, holding (free_regions c ++ live) a = if (0 <=? a) && (a <? cap) then 1 else 0) ∧
  (∀ live1 r live2 r' a, live = live1 ++ r :: live2 → r' ∈ live1 ++ live2 → contains r a = true → contains r' a = false) ∧
  mc_available c + sizes live = cap ∧
  ∀ size owner, 0 ≤ size → size + 2 ^ k - 1 < 2 ^ 64 →
    match allocate c size owner with
    | (_, Some r) => size ≤ mr_size r < size + 2 ^ k ∧ mr_size r mod 2 ^ k = 0 ∧ mr_owner r = Some owner ∧
        ∀ r' a, r' ∈ live → contains r a = true → contains r' a = false
    | (c', None) => c' = c ∧ can_allocate c size = false
    end.
Proof.
  intros Hcap Hk H. apply mem_reachable_ok in H as ([Hc Hf Hl Hs Hh] & Ha & Ec); [|by destruct (mem_new_ok t cap Hcap)]. cbn in *.
  rewrite Ec in Hh, Hs. split_and!; try done.
  - intros live1 r live2 r' a -> Hin Hr. specialize (Hh a). rewrite holding_app, holding_app in Hh.
    pose proof (holding_nonneg (free_regions c) a). destruct (contains r' a) eqn:Hr'; [|done]. exfalso.
    pose proof (holding_member (live1 ++ live2) r' a Hin Hr') as Hm. rewrite holding_app in Hm. unfold holding in Hh at 3. cbn in Hh. rewrite Hr in Hh.
    fold (holding live2 a) in Hh. destruct (_ && _); lia.
  - intros size owner Hsz Hlt. pose proof (rounded_up k size Hk Hsz Hlt) as [Hr1 Hr2]. unfold allocate. rewrite Ha.
    pose proof (first_fit_spec (mc_capacity c) Hc (aligned_size (2 ^ k) size) (free_regions c) ltac:(lia) Hf) as Hspec.
    destruct (first_fit (aligned_size (2 ^ k) size) (free_regions c)) as [[b l]|] eqn:E; cbn.
    + destruct Hspec as (_ & _ & _ & Eh). split_and!; try done; try lia. intros r' a Hin Hr. destruct (contains r' a) eqn:Hr'; [|done]. exfalso.
      pose proof (holding_member live r' a Hin Hr'). pose proof (holding_nonneg l a). specialize (Eh a). specialize (Hh a). rewrite holding_app, Eh in Hh.
      unfold contains, mr_end in Hr, Hh. cbn in Hr, Hh. rewrite Hr in Hh. destruct (_ && _); lia.
    + split; [done|]. unfold can_allocate. rewrite Ha. by apply first_fit_None.
Qed.

Section MemoryExamples.
Let owner : NodeId := replicate 32 1.
Let ddr : MemoryCapability := MemoryCapability_new MT_Ddr 1024.

Lemma memory_partition_witness :
  ∃ c r, rtc mem_step (with_alignment ddr (2 ^ 8), []) (c, [r]) ∧ mr_size r = 256 ∧ mc_available c + sizes [r] = 1024.
Proof.
  destruct (allocate (with_alignment ddr (2 ^ 8)) 100 owner) as [c [r|]] eqn:E; [|vm_compute in E; discriminate E].
  assert (H : rtc mem_step (with_alignment ddr (2 ^ 8), []) (c, [r])).
  { eapply rtc_once. eapply (MS_allocate _ [] 100 owner); [lia|exact E]. }
  destruct (memory_partition MT_Ddr 1024 8 c [r] ltac:(lia) ltac:(lia) H) as (_ & _ & Hs & _).
  exists c, r. split; [exact H|]. split; [|exact Hs]. vm_compute in E. injection E as <- <-. reflexivity.
Defined.
(** A request within one alignment of [u64::MAX] wraps round to nothing and is granted
    an empty region. *)
Example huge_request_granted : mr_size <$> (allocate ddr (2 ^ 64 - 1) owner).2 = Some 0 ∧ can_allocate ddr (2 ^ 64 - 1) = true.
Proof. split; by vm_compute. Qed.
End MemoryExamples.

(** ** The tensor pool (tensor_alloc.rs) *)

Inductive SizeClass := SC_Tiny | SC_Small | SC_Medium | SC_Large | SC_Huge | SC_Giant.
Definition sc_size (s : SizeClass) : Z :=
  match s with SC_Tiny => 64 | SC_Small => 256 | SC_Medium => 1024 | SC_Large => 4096 | SC_Huge => 16384 | SC_Giant => 65536 end.
Definition for_size (bytes : Z) : option SizeClass :=
  if bytes <=? 64 then Some SC_Tiny else if bytes <=? 256 then Some SC_Small else if bytes <=? 1024 then Some SC_Medium
  else if bytes <=? 4096 then Some SC_Large else if bytes <=? 16384 then Some SC_Huge else if bytes <=? 65536 then Some SC_Giant else None.
Definition sc_slab (s : SizeClass) : nat :=
  match s with SC_Tiny => 0 | SC_Small => 1 | SC_Medium => 2 | SC_Large => 3 | SC_Huge => 4 | SC_Giant => 5 end.

Definition AllocHandle := Z.
Definition AllocHandle_new (slab_idx slot_idx : Z) : AllocHandle := Z.lor (Z.shiftl slab_idx 32) slot_idx.
Definition ah_slab_idx (h : AllocHandle) : Z := Z.shiftr h 32.
Definition ah_slot_idx (h : AllocHandle) : Z := Z.land h 0xFFFFFFFF.

Record Slab := mkSlab { size_class : SizeClass; sl_storage : list Z; free_list : list Z; sl_capacity : Z; sl_allocated : Z }.
(** The free list is popped at its end, which is the head here: the first slot is 0. *)
Definition Slab_new (c : SizeClass) (n : Z) : Slab :=
  mkSlab c (replicate (Z.to_nat (sc_size c * n)) 0) (Z.of_nat <$> seq 0 (Z.to_nat (n mod 2 ^ 32))) n 0.
Definition slot_start (s : Slab) (slot : Z) : Z := slot * sc_size (size_class s).
(** [&self.storage[start..end]] *)
Definition slab_get (s : Slab) (slot : Z) : outcome Empty_set (list Z) :=
  slice (sl_storage s) (slot_start s slot) (slot_start s slot + sc_size (size_class s)).
(** [&mut self.storage[start..end]], overwritten from its front. *)
Definition slab_write (s : Slab) (slot : Z) (data : list Z) : outcome Empty_set Slab :=
  _ ← slab_get s slot;
  if sc_size (size_class s) <? len data then Panic
  else st ← copy_at (sl_storage s) (slot_start s slot) data;
       Ok (mkSlab (size_class s) st (free_list s) (sl_capacity s) (sl_allocated s)).
Definition slab_alloc (s : Slab) : outcome Empty_set (Slab * option Z) :=
  match free_list s with
  | [] => Ok (s, None)
  | slot :: l =>
      let s' := mkSlab (size_class s) (sl_storage s) l (sl_capacity s) (u64_add (sl_allocated s) 1) in
      _ ← slab_get s' slot; Ok (s', Some slot)
  end.
Definition slab_free (s : Slab) (slot : Z) : Slab :=
  mkSlab (size_class s) (sl_storage s) (slot :: free_list s) (sl_capacity s) ((sl_allocated s - 1) mod 2 ^ 64).

Record Arena := mkArena { ar_storage : list Z; ar_cursor : Z; high_water : Z }.
Definition Arena_new (capacity : Z) : Arena := mkArena (replicate (Z.to_nat capacity) 0) 0 0.
(** The slice handed out, as its bounds in the storage. *)
Definition arena_alloc (a : Arena) (bytes : Z) : outcome Empty_set (Arena * option (Z * Z)) :=
  let aligned := Z.land (u64_add (ar_cursor a) 7) (u64_not 7) in
  let end_ := u64_add aligned bytes in
  if len (ar_storage a) <? end_ then Ok (a, None)
  else
    let a' := mkArena (ar_storage a) end_ (Z.max (high_water a) end_) in
    _ ← slice (ar_storage a) aligned end_; Ok (a', Some (aligned, end_)).
Definition arena_reset (a : Arena) : Arena := mkArena (ar_storage a) 0 (high_water a).
Definition arena_available (a : Arena) : Z := (len (ar_storage a) - ar_cursor a) mod 2 ^ 64.

Record BumpAllocator := mkBump { bu_storage : list Z; bu_cursor : Z }.
Definition BumpAllocator_new (capacity : Z) : BumpAllocator := mkBump (replicate (Z.to_nat capacity) 0) 0.
(** [fetch_add], and [fetch_sub] when the end is beyond the storage. *)
Definition bump_alloc (b : BumpAllocator) (bytes : Z) : BumpAllocator * option Z :=
  let old := bu_cursor b in
  if len (bu_storage b) <? u64_add old bytes then (b, None)
  else (mkBump (bu_storage b) (u64_add old bytes), Some old).
Definition bump_get (b : BumpAllocator) (offset n : Z) : outcome Empty_set (option (list Z)) :=
  if bu_cursor b <? u64_add offset n then Ok None
  else x ← slice (bu_storage b) offset (u64_add offset n); Ok (Some x).

Record AllocStats := mkAllocStats {
  total_allocations : Z; total_frees : Z; bytes_allocated : Z; peak_bytes : Z; slab_hits : Z; arena_allocs : Z; large_allocs : Z
}.
Record MemoryPool := mkPool { slabs : list Slab; arena : Arena; mp_stats : AllocStats; total_size : Z }.
Definition MemoryPool_new (total : Z) : MemoryPool :=
  let slab_bytes := u64_mul total 60 / 100 in
  let arena_bytes := u64_mul total 30 / 100 in
  let part (p : Z) (c : SizeClass) := Slab_new c (u64_mul slab_bytes p / 100 / sc_size c) in
  mkPool [part 30 SC_Tiny; part 25 SC_Small; part 20 SC_Medium; part 15 SC_Large; part 7 SC_Huge; part 3 SC_Giant]
    (Arena_new arena_bytes) (mkAllocStats 0 0 0 0 0 0 0) total.
Definition pool_set (p : MemoryPool) (ss : list Slab) (st : AllocStats) : MemoryPool := mkPool ss (arena p) st (total_size p).
(** A handle and the length of the slice that comes with it. *)
Definition pool_alloc (p : MemoryPool) (bytes : Z) : outcome Empty_set (MemoryPool * option (AllocHandle * Z)) :=
  match for_size bytes with
  | None => Ok (p, None)
  | Some c =>
      match slabs p !! sc_slab c with
      | None => Panic
      | Some slab =>
          '(slab', slot) ← slab_alloc slab;
          match slot with
          | None => Ok (p, None)
          | Some slot =>
              let st := mp_stats p in
              let b := u64_add (bytes_allocated st) (sc_size c) in
              Ok (pool_set p (<[sc_slab c := slab']> (slabs p))
                    (mkAllocStats (u64_add (total_allocations st) 1) (total_frees st) b (Z.max (peak_bytes st) b)
                       (u64_add (slab_hits st) 1) (arena_allocs st) (large_allocs st)),
                  Some (AllocHandle_new (Z.of_nat (sc_slab c)) slot, bytes))
          end
      end
  end.
Definition pool_free (p : MemoryPool) (h : AllocHandle) : MemoryPool :=
  match slabs p !! Z.to_nat (ah_slab_idx h) with
  | None => p
  | Some slab =>
      let st := mp_stats p in
      pool_set p (<[Z.to_nat (ah_slab_idx h) := slab_free slab (ah_slot_idx h)]> (slabs p))
        (mkAllocStats (total_allocations st) (u64_add (total_frees st) 1) ((bytes_allocated st - sc_size (size_class slab)) mod 2 ^ 64)
           (peak_bytes st) (slab_hits st) (arena_allocs st) (large_allocs st))
  end.
Definition pool_get (p : MemoryPool) (h : AllocHandle) : outcome Empty_set (option (list Z)) :=
  match slabs p !! Z.to_nat (ah_slab_idx h) with
  | None => Ok None
  | Some slab => x ← slab_get slab (ah_slot_idx h); Ok (Some x)
  end.
(** [get_mut] and a write to the front of the slice. *)
Definition pool_write (p : MemoryPool) (h : AllocHandle) (data : list Z) : outcome Empty_set MemoryPool :=
  match slabs p !! Z.to_nat (ah_slab_idx h) with
  | None => Ok p
  | Some slab => slab' ← slab_write slab (ah_slot_idx h) data; Ok (pool_set p (<[Z.to_nat (ah_slab_idx h) := slab']> (slabs p)) (mp_stats p))
  end.
Definition pool_arena_alloc (p : MemoryPool) (bytes : Z) : outcome Empty_set (MemoryPool * option (Z * Z)) :=
  '(a, r) ← arena_alloc (arena p) bytes;
  let st := mp_stats p in
  Ok (mkPool (slabs p) a
        (match r with
         | Some _ => mkAllocStats (total_allocations st) (total_frees st) (bytes_allocated st) (peak_bytes st) (slab_hits st)
                       (u64_add (arena_allocs st) 1) (large_allocs st)
         | None => st
         end) (total_size p), r).
Definition pool_arena_reset (p : MemoryPool) : MemoryPool := mkPool (slabs p) (arena_reset (arena p)) (mp_stats p) (total_size p).
Definition alloc_1d (size_of : Z) (p : MemoryPool) (n : Z) : outcome Empty_set (MemoryPool * option (AllocHandle * Z)) := pool_alloc p (u64_mul n size_of).
Definition alloc_2d (size_of : Z) (p : MemoryPool) (rows cols : Z) : outcome Empty_set (MemoryPool * option (AllocHandle * Z)) :=
  pool_alloc p (u64_mul (u64_mul rows cols) size_of).

(** *** Slots *)

Lemma handle_slab i s : 0 ≤ i → 0 ≤ s < 2 ^ 32 → ah_slab_idx (AllocHandle_new i s) = i.
Proof.
  intros Hi Hs. unfold ah_slab_idx, AllocHandle_new. rewrite lor_shiftl_add by lia. rewrite Z.shiftr_div_pow2 by lia. dlia.
Qed.
Lemma handle_slot i s : 0 ≤ i → 0 ≤ s < 2 ^ 32 → ah_slot_idx (AllocHandle_new i s) = s.
Proof.
  intros Hi Hs. unfold ah_slot_idx, AllocHandle_new. rewrite lor_shiftl_add by lia.
  change 0xFFFFFFFF with (2 ^ 32 - 1). rewrite land_mask by lia. dlia.
Qed.

(** Reading a window after writing to another, or to its front. *)
Lemma copy_at_len (l l' src : list Z) a : copy_at (E:=Empty_set) l a src = Ok l' → len l' = len l.
Proof. unfold copy_at. case_decide as H; [|done]. intros [= <-]. pose proof (len_nonneg src). rewrite !len_app, len_take, len_drop. lia. Qed.
Lemma slice_copy_other (l l' src : list Z) a c d :
  copy_at (E:=Empty_set) l a src = Ok l' → d ≤ a ∨ a + len src ≤ c → slice (E:=Empty_set) l' c d = slice l c d.
Proof.
  intros Hc Hd. pose proof (copy_at_len l l' src a Hc) as Hl. unfold copy_at in Hc. case_decide as H; [|done]. injection Hc as E.
  unfold slice. rewrite Hl. case_decide as Hcd; [|done]. f_equal. pose proof (len_nonneg src). subst l'. destruct Hd as [Hd|Hd].
  - rewrite drop_app_le by (rewrite length_take; unfold len in *; lia). rewrite take_app_le by (rewrite length_drop, length_take; unfold len in *; lia).
    rewrite <- (take_drop (Z.to_nat a) l) at 2. rewrite drop_app_le by (rewrite length_take; unfold len in *; lia).
    by rewrite take_app_le by (rewrite length_drop, length_take; unfold len in *; lia).
  - f_equal. rewrite (assoc_L (++)), drop_app_ge by (rewrite length_app, length_take; unfold len in *; lia).
    rewrite drop_drop. f_equal. rewrite length_app, length_take. unfold len in *. lia.
Qed.
Lemma slice_copy_same (l l' src b : list Z) a d :
  copy_at (E:=Empty_set) l a src = Ok l' → slice (E:=Empty_set) l a d = Ok b → len src ≤ len b →
  slice (E:=Empty_set) l' a d = Ok (src ++ drop (length src) b).
Proof.
  intros Hc Hb Hs. pose proof (copy_at_len l l' src a Hc) as Hl. apply slice_Ok_inv in Hb as (H1 & H2 & H3 & ->).
  unfold copy_at in Hc. case_decide as H; [|done]. injection Hc as <-. pose proof (len_nonneg src).
  unfold slice. rewrite decide_True by lia. f_equal. rewrite drop_app_ge by (rewrite length_take; unfold len in *; lia).
  rewrite length_take, Nat.min_l, Nat.sub_diag, drop_0 by (unfold len in *; lia).
  rewrite take_app_ge by (unfold len in *; lia). f_equal. rewrite skipn_firstn_comm, drop_drop.
  do 2 f_equal. unfold len in *. lia.
Qed.

(** A slab and what its live slots hold. *)
Record slab_ok (s : Slab) (m : gmap Z (list Z)) : Prop := {
  so_cap : 0 ≤ sl_capacity s < 2 ^ 32;
  so_storage : len (sl_storage s) = sc_size (size_class s) * sl_capacity s;
  so_nodup : NoDup (free_list s);
  so_free slot : slot ∈ free_list s ↔ 0 ≤ slot < sl_capacity s ∧ m !! slot = None;
  so_live slot b : m !! slot = Some b → 0 ≤ slot < sl_capacity s ∧ slab_get s slot = Ok b;
  so_allocated : sl_allocated s = Z.of_nat (size m)
}.
Lemma sc_size_pos c : 0 < sc_size c.
Proof. destruct c; cbn; lia. Qed.
Lemma slab_get_in s slot : len (sl_storage s) = sc_size (size_class s) * sl_capacity s → 0 ≤ slot < sl_capacity s →
  ∃ b, slab_get s slot = Ok b ∧ len b = sc_size (size_class s).
Proof.
  intros Hl Hs. pose proof (sc_size_pos (size_class s)). unfold slab_get, slot_start, slice. rewrite decide_True by nia. eexists. split; [done|].
  rewrite len_take, len_drop, Hl. nia.
Qed.
(** Different slots do not overlap. *)
Lemma slots_apart n slot slot' k : 0 < n → 0 ≤ k ≤ n → slot ≠ slot' → slot' * n + n ≤ slot * n ∨ slot * n + k ≤ slot' * n.
Proof. intros Hn Hk Hne. destruct (Z.lt_total slot slot') as [H|[H|H]]; [right|done|left]; nia. Qed.
Lemma free_size s (m : gmap Z (list Z)) : slab_ok s m → len (free_list s) + Z.of_nat (size m) = sl_capacity s.
Proof.
  intros [Hc _ Hn Hf Hl _].
  assert (E : list_to_set (free_list s) ∪ dom m = (list_to_set (Z.of_nat <$> seq 0 (Z.to_nat (sl_capacity s))) : gset Z)).
  { apply set_eq. intros x. rewrite elem_of_union, !elem_of_list_to_set, elem_of_dom, Hf, list_elem_of_fmap. split.
    - intros [[Hx _]|[b Hb]]; [|apply Hl in Hb as [Hx _]]; exists (Z.to_nat x); rewrite elem_of_seq; lia.
    - intros (y & -> & [_ Hy]%elem_of_seq). destruct (m !! Z.of_nat y) eqn:Em; [right; by eexists|left; split; [lia|done]]. }
  apply (f_equal size) in E. rewrite size_union in E.
  2: { intros x. rewrite elem_of_list_to_set, Hf, elem_of_dom. intros [_ E0] [b Hb]. congruence. }
  rewrite size_list_to_set, size_dom, size_list_to_set, length_fmap, length_seq in E; [unfold len; lia| |done].
  apply NoDup_fmap_2; [apply _|apply NoDup_seq].
Qed.

Lemma slab_new_ok c n : 0 ≤ n < 2 ^ 32 → slab_ok (Slab_new c n) ∅.
Proof.
  intros Hn. pose proof (sc_size_pos c). split; cbn [sl_capacity sl_storage size_class free_list sl_allocated Slab_new].
  - done.
  - rewrite len_replicate. nia.
  - apply NoDup_fmap_2; [apply _|apply NoDup_seq].
  - intros slot. rewrite list_elem_of_fmap, Z.mod_small by lia. split.
    + intros (y & -> & [_ Hy]%elem_of_seq). split; [lia|done].
    + intros [Hs _]. exists (Z.to_nat slot). rewrite elem_of_seq. lia.
  - intros slot b. by rewrite lookup_empty.
  - by rewrite map_size_empty.
Qed.
Lemma slab_alloc_ok s m : slab_ok s m →
  match slab_alloc s with
  | Ok (s', Some slot) => 0 ≤ slot < sl_capacity s ∧ m !! slot = None ∧ size_class s' = size_class s ∧ sl_capacity s' = sl_capacity s ∧
      ∃ b, slab_ok s' (<[slot := b]> m) ∧ len b = sc_size (size_class s)
  | Ok (s', None) => s' = s ∧ Z.of_nat (size m) = sl_capacity s
  | _ => False
  end.
Proof.
  intros H. pose proof (free_size s m H) as Hfs. destruct H as [Hc Hst Hn Hf Hl Ha]. unfold slab_alloc. destruct (free_list s) as [|slot l] eqn:El.
  - split; [done|]. rewrite len_nil in Hfs. lia.
  - destruct (proj1 (Hf slot) (list_elem_of_here _ _)) as [Hslot Hnone]. apply NoDup_cons in Hn as [Hnl Hn].
    destruct (slab_get_in (mkSlab (size_class s) (sl_storage s) l (sl_capacity s) (u64_add (sl_allocated s) 1)) slot Hst Hslot) as (b & Hb & Hlb).
    rewrite Hb. cbn. split_and!; try done; try lia. exists b. split; [|done]. rewrite len_cons in Hfs. pose proof (len_nonneg l). split; cbn; try done.
    + intros slot'. rewrite lookup_insert_None. pose proof (Hf slot') as Hf'. rewrite elem_of_cons in Hf'. split.
      * intros Hin. destruct (proj1 Hf' (or_intror Hin)) as [? ?]. split_and!; try lia; try done. intros ->. done.
      * intros (Hs' & Hm & Hne). destruct (proj2 Hf' (conj Hs' Hm)) as [->|?]; [done|done].
    + intros slot' b' [[<- <-]|[Hne Hm]]%lookup_insert_Some; [done|]. by apply Hl.
    + rewrite map_size_insert_None by done. rewrite Ha. unfold u64_add. rewrite Z.mod_small by lia. lia.
Qed.
Lemma slab_write_ok s m slot b data : slab_ok s m → m !! slot = Some b → len data ≤ sc_size (size_class s) →
  ∃ s', slab_write s slot data = Ok s' ∧ slab_ok s' (<[slot := data ++ drop (length data) b]> m) ∧ size_class s' = size_class s ∧ sl_capacity s' = sl_capacity s.
Proof.
  intros [Hc Hst Hn Hf Hl Ha] Hm Hd. destruct (Hl slot b Hm) as [Hslot Hb].
  destruct (slab_get_in s slot Hst Hslot) as (b' & Hb' & Hlb). rewrite Hb in Hb'. injection Hb' as <-. pose proof (sc_size_pos (size_class s)).
  unfold slab_write. rewrite Hb. cbn. rewrite (proj2 (Z.ltb_ge _ _)) by lia. destruct (copy_at (sl_storage s) (slot_start s slot) data) as [st|e|] eqn:E; [|done|].
  2: { unfold copy_at in E. rewrite decide_True in E; [done|]. pose proof (len_nonneg data). unfold slot_start. nia. }
  cbn. eexists. split_and!; try done. split; cbn; try done.
  - by rewrite (copy_at_len _ _ _ _ E).
  - intros slot'. rewrite Hf, lookup_insert_None. split; [intros [? ?]; split; [done|split; [done|intros ->; congruence]]|tauto].
  - intros slot' b' [[<- <-]|[Hne Hm']]%lookup_insert_Some.
    + split; [done|]. unfold slab_get, slot_start in *. cbn in *. apply (slice_copy_same (sl_storage s)); [done|done|lia].
    + destruct (Hl slot' b' Hm') as [Hs' Hb']. split; [done|]. unfold slab_get, slot_start in *. cbn in *.
      rewrite (slice_copy_other (sl_storage s) st data (slot * sc_size (size_class s))); [done|done|].
      pose proof (len_nonneg data). apply slots_apart; [lia|lia|congruence].
  - rewrite map_size_insert_Some; [done|by eexists].
Qed.
Lemma slab_free_ok s m slot b : slab_ok s m → m !! slot = Some b → slab_ok (slab_free s slot) (delete slot m).
Proof.
  intros H Hm. pose proof (free_size s m H) as Hfs. destruct H as [Hc Hst Hn Hf Hl Ha]. destruct (Hl slot b Hm) as [Hslot _].
  assert (Hsz : size m = S (size (delete slot m))).
  { rewrite <- (insert_delete_id m slot b Hm) at 1. apply map_size_insert_None, lookup_delete_eq. }
  pose proof (len_nonneg (free_list s)). split; cbn; try done.
  - constructor; [|done]. rewrite Hf. intros [_ ?]. congruence.
  - intros slot'. rewrite elem_of_cons, Hf, lookup_delete_None. split.
    + intros [->|[? ?]]; [by split; [|left]|by split; [|right]].
    + intros [Hs' [<-|Hn']]; [by left|by right].
  - intros slot' b' [_ Hm']%lookup_delete_Some. by apply Hl.
  - rewrite Ha, Hsz, Z.mod_small by lia. lia.
Qed.

(** *** The pool *)

(** What the live handles hold, by slab and slot. *)
Abbreviation live_map := (list (gmap Z (list Z))).
Definition live_lookup (live : live_map) (h : AllocHandle) : option (list Z) := m ← live !! Z.to_nat (ah_slab_idx h); m !! ah_slot_idx h.
Definition live_insert (live : live_map) (h : AllocHandle) (b : list Z) : live_map := alter (insert (ah_slot_idx h) b) (Z.to_nat (ah_slab_idx h)) live.
Definition live_delete (live : live_map) (h : AllocHandle) : live_map := alter (delete (ah_slot_idx h)) (Z.to_nat (ah_slab_idx h)) live.
Definition classes : list SizeClass := [SC_Tiny; SC_Small; SC_Medium; SC_Large; SC_Huge; SC_Giant].
Fixpoint bytes_of (cs : list SizeClass) (live : live_map) : Z :=
  match cs, live with
  | c :: cs, m :: live => sc_size c * Z.of_nat (size m) + bytes_of cs live
  | _, _ => 0
  end.
Record pool_ok (p : MemoryPool) (live : live_map) : Prop := {
  po_slabs : Forall2 slab_ok (slabs p) live;
  po_classes : size_class <$> slabs p = classes;
  po_bytes : bytes_allocated (mp_stats p) = bytes_of classes live
}.
Inductive pool_step : MemoryPool * live_map → MemoryPool * live_map → Prop :=
  | PS_alloc p live bytes p' h n b : pool_alloc p bytes = Ok (p', Some (h, n)) → pool_get p' h = Ok (Some b) →
      pool_step (p, live) (p', live_insert live h b)
  | PS_write p live h b data p' : live_lookup live h = Some b → len data ≤ len b → pool_write p h data = Ok p' →
      pool_step (p, live) (p', live_insert live h (data ++ drop (length data) b))
  | PS_free p live h b : live_lookup live h = Some b → pool_step (p, live) (pool_free p h, live_delete live h)
  | PS_arena p live bytes p' r : pool_arena_alloc p bytes = Ok (p', r) → pool_step (p, live) (p', live)
  | PS_reset p live : pool_step (p, live) (pool_arena_reset p, live).

Lemma bytes_of_insert cs : ∀ live i c m m', cs !! i = Some c → live !! i = Some m →
  bytes_of cs (<[i := m']> live) = bytes_of cs live + sc_size c * (Z.of_nat (size m') - Z.of_nat (size m)).
Proof.
  induction cs as [|c0 cs IH]; intros live i c m m' Hc Hm; [done|]. destruct live as [|m0 live]; [done|]. destruct i as [|i]; cbn in *.
  - injection Hc as ->. injection Hm as ->. lia.
  - specialize (IH live i c m m' Hc Hm). unfold insert in *. cbn in *. lia.
Qed.
Lemma bytes_of_bound cs : ∀ ss live, Forall2 slab_ok ss live → 0 ≤ bytes_of cs live ≤ len cs * (65536 * 2 ^ 32).
Proof.
  induction cs as [|c cs IH]; intros ss live H; [by cbn|]. rewrite len_cons. destruct H as [|s m ss live Hs H]; cbn [bytes_of].
  - pose proof (len_nonneg cs). lia.
  - specialize (IH ss live H). pose proof (free_size s m Hs). pose proof (so_cap _ _ Hs). pose proof (len_nonneg (free_list s)).
    assert (0 < sc_size c ≤ 65536) by (destruct c; cbn; lia). nia.
Qed.
Lemma slab_at p live i m : pool_ok p live → live !! i = Some m →
  ∃ s c, slabs p !! i = Some s ∧ slab_ok s m ∧ classes !! i = Some c ∧ size_class s = c ∧ (i < 6)%nat.
Proof.
  intros [Hs Hc _] Hm. destruct (Forall2_lookup_r _ _ _ _ _ Hs Hm) as (s & Es & Hok). exists s, (size_class s). split_and!; try done.
  - rewrite <- Hc, list_lookup_fmap, Es. done.
  - apply lookup_lt_Some in Es. apply (f_equal length) in Hc. rewrite length_fmap in Hc. cbn in Hc. lia.
Qed.
(** One slab changes. *)
Lemma pool_ok_insert p live i m s c s' m' st a t :
  pool_ok p live → live !! i = Some m → slabs p !! i = Some s → classes !! i = Some c → slab_ok s' m' → size_class s' = size_class s →
  bytes_allocated st = bytes_of classes live + sc_size c * (Z.of_nat (size m') - Z.of_nat (size m)) →
  pool_ok (mkPool (<[i := s']> (slabs p)) a st t) (<[i := m']> live).
Proof.
  intros [Hs Hc Hb] Hm Es Ec Hok Hcl Hst. split; cbn [slabs mp_stats].
  - by apply Forall2_insert.
  - rewrite list_fmap_insert, Hcl, list_insert_id; [done|]. by rewrite list_lookup_fmap, Es.
  - by rewrite (bytes_of_insert classes live i c m).
Qed.
Lemma classes_slab c : classes !! sc_slab c = Some c.
Proof. by destruct c. Qed.
Lemma for_size_spec bytes : 0 ≤ bytes → match for_size bytes with Some c => bytes ≤ sc_size c | None => 65536 < bytes end.
Proof.
  intros H. unfold for_size. repeat match goal with |- context [bytes <=? ?k] => destruct (Z.leb_spec bytes k); [done|] end. done.
Qed.
Lemma live_insert_at live h b m : live !! Z.to_nat (ah_slab_idx h) = Some m →
  live_insert live h b = <[Z.to_nat (ah_slab_idx h) := <[ah_slot_idx h := b]> m]> live.
Proof.
  intros Hm. apply list_eq. intros j. unfold live_insert. destruct (decide (Z.to_nat (ah_slab_idx h) = j)) as [<-|].
  - rewrite list_lookup_alter_eq, list_lookup_insert_eq by (by eapply lookup_lt_Some). by rewrite Hm.
  - by rewrite list_lookup_alter_ne, list_lookup_insert_ne.
Qed.
Lemma live_delete_at live h m : live !! Z.to_nat (ah_slab_idx h) = Some m →
  live_delete live h = <[Z.to_nat (ah_slab_idx h) := delete (ah_slot_idx h) m]> live.
Proof.
  intros Hm. apply list_eq. intros j. unfold live_delete. destruct (decide (Z.to_nat (ah_slab_idx h) = j)) as [<-|].
  - rewrite list_lookup_alter_eq, list_lookup_insert_eq by (by eapply lookup_lt_Some). by rewrite Hm.
  - by rewrite list_lookup_alter_ne, list_lookup_insert_ne.
Qed.

Lemma live_lookup_insert live h b b' : live_lookup live h = Some b → live_lookup (live_insert live h b') h = Some b'.
Proof.
  unfold live_lookup. destruct (live !! Z.to_nat (ah_slab_idx h)) as [m|] eqn:Em; [|done]. intros _. unfold live_insert.
  rewrite list_lookup_alter_eq, Em. cbn. by rewrite lookup_insert_eq.
Qed.
Lemma live_lookup_insert_ne live h h' b :
  ¬ (Z.to_nat (ah_slab_idx h) = Z.to_nat (ah_slab_idx h') ∧ ah_slot_idx h = ah_slot_idx h') → live_lookup (live_insert live h b) h' = live_lookup live h'.
Proof.
  intros Hne. unfold live_lookup, live_insert. destruct (decide (Z.to_nat (ah_slab_idx h) = Z.to_nat (ah_slab_idx h'))) as [E|E].
  - rewrite <- E, list_lookup_alter_eq. destruct (live !! _); [|done]. cbn. rewrite lookup_insert_ne; [done|]. intros Es. by apply Hne.
  - by rewrite list_lookup_alter_ne.
Qed.
(** What an allocation gives: a handle that was not live, or nothing when the request is too
    large or the slab of its class is full. *)
Lemma pool_alloc_ok p live bytes : pool_ok p live → 0 ≤ bytes →
  match pool_alloc p bytes with
  | Ok (p', Some (h, n)) =>
      n = bytes ∧ live_lookup live h = None ∧
      ∃ b, pool_ok p' (live_insert live h b) ∧ pool_get p' h = Ok (Some b) ∧ bytes ≤ len b
  | Ok (p', None) => p' = p ∧
      match for_size bytes with
      | None => 65536 < bytes
      | Some c => ∃ s m, slabs p !! sc_slab c = Some s ∧ live !! sc_slab c = Some m ∧ Z.of_nat (size m) = sl_capacity s
      end
  | _ => False
  end.
Proof.
  intros H Hb. pose proof (for_size_spec bytes Hb) as Hsz. unfold pool_alloc. destruct (for_size bytes) as [c|]; [|done].
  pose proof (po_slabs _ _ H) as Hf. destruct (slabs p !! sc_slab c) as [s|] eqn:Es.
  2: { apply lookup_ge_None in Es. pose proof (f_equal length (po_classes _ _ H)) as Hl. rewrite length_fmap in Hl. cbn in Hl. destruct c; cbn in Es; lia. }
  destruct (Forall2_lookup_l _ _ _ _ _ Hf Es) as (m & Em & Hs). pose proof (slab_alloc_ok s m Hs) as Hal.
  assert (Hcl : size_class s = c).
  { pose proof (f_equal (lookup (sc_slab c)) (po_classes _ _ H)) as E. rewrite list_lookup_fmap, Es, classes_slab in E. by injection E. }
  destruct (slab_alloc s) as [[s' [slot|]]|e|]; [|destruct Hal as [-> Hfull]; split; [done|by exists s, m]|done|done].
  destruct Hal as (Hslot & Hnone & Hcl' & Hcap & b & Hs' & Hlb). cbn -[pool_get]. pose proof (so_cap _ _ Hs) as Hcap'.
  assert (Hi : Z.to_nat (ah_slab_idx (AllocHandle_new (Z.of_nat (sc_slab c)) slot)) = sc_slab c) by (rewrite handle_slab by lia; lia).
  assert (Hj : ah_slot_idx (AllocHandle_new (Z.of_nat (sc_slab c)) slot) = slot) by (apply handle_slot; lia).
  split; [done|]. split; [unfold live_lookup; rewrite Hi, Hj, Em; done|]. exists b. split_and!.
  - rewrite (live_insert_at live _ b m) by (by rewrite Hi). rewrite Hi, Hj. unfold pool_set.
    apply (pool_ok_insert p live (sc_slab c) m s c s' (<[slot:=b]> m)); try done; [apply classes_slab|]. cbn [bytes_allocated].
    rewrite map_size_insert_None, (po_bytes _ _ H) by done. pose proof (bytes_of_bound classes (slabs p) live Hf) as Hbd.
    change (len classes) with 6 in Hbd. unfold u64_add. rewrite Z.mod_small; [lia|]. destruct c; cbn [sc_size]; lia.
  - unfold pool_get, pool_set. cbn [slabs]. rewrite Hi, Hj, list_lookup_insert_eq by (by eapply lookup_lt_Some).
    destruct (so_live _ _ Hs' slot b (lookup_insert_eq _ _ _)) as [_ ->]. done.
  - rewrite Hlb, Hcl. done.
Qed.
Lemma pool_get_live p live h b : pool_ok p live → live_lookup live h = Some b → pool_get p h = Ok (Some b).
Proof.
  intros H Hb. unfold live_lookup in Hb. destruct (live !! Z.to_nat (ah_slab_idx h)) as [m|] eqn:Em; [|done]. cbn in Hb.
  destruct (slab_at p live _ m H Em) as (s & c & Es & Hs & _). unfold pool_get. rewrite Es. destruct (so_live _ _ Hs _ _ Hb) as [_ ->]. done.
Qed.
Lemma pool_write_ok p live h b data : pool_ok p live → live_lookup live h = Some b → len data ≤ len b →
  ∃ p', pool_write p h data = Ok p' ∧ pool_ok p' (live_insert live h (data ++ drop (length data) b)).
Proof.
  intros H Hb Hd. unfold live_lookup in Hb. destruct (live !! Z.to_nat (ah_slab_idx h)) as [m|] eqn:Em; [|done]. cbn in Hb.
  destruct (slab_at p live _ m H Em) as (s & c & Es & Hs & Ec & Hcl & _). destruct (so_live _ _ Hs _ _ Hb) as [Hslot Hget].
  destruct (slab_get_in s _ (so_storage _ _ Hs) Hslot) as (b' & Hb' & Hlb). rewrite Hget in Hb'. injection Hb' as <-.
  destruct (slab_write_ok s m _ b data Hs Hb ltac:(lia)) as (s' & Ew & Hs' & Hcl' & _).
  unfold pool_write. rewrite Es, Ew. cbn. eexists. split; [done|]. rewrite (live_insert_at live h _ m Em). unfold pool_set.
  apply (pool_ok_insert p live _ m s c s' _); try done. rewrite (po_bytes _ _ H), map_size_insert_Some by (by eexists). lia.
Qed.
Lemma pool_free_ok p live h b : pool_ok p live → live_lookup live h = Some b → pool_ok (pool_free p h) (live_delete live h).
Proof.
  intros H Hb. unfold live_lookup in Hb. destruct (live !! Z.to_nat (ah_slab_idx h)) as [m|] eqn:Em; [|done]. cbn in Hb.
  destruct (slab_at p live _ m H Em) as (s & c & Es & Hs & Ec & Hcl & _).
  assert (Hsz : size m = S (size (delete (ah_slot_idx h) m))).
  { rewrite <- (insert_delete_id m _ b Hb) at 1. apply map_size_insert_None, lookup_delete_eq. }
  unfold pool_free. rewrite Es, (live_delete_at live h m Em). unfold pool_set.
  pose proof (slab_free_ok s m _ b Hs Hb) as Hs'.
  apply (pool_ok_insert p live _ m s c _ _); try done. cbn [bytes_allocated]. rewrite Hsz, (po_bytes _ _ H), Hcl.
  pose proof (bytes_of_insert classes live _ c m (delete (ah_slot_idx h) m) Ec Em) as Hins.
  assert (Hbd' : 0 ≤ bytes_of classes (<[Z.to_nat (ah_slab_idx h) := delete (ah_slot_idx h) m]> live)).
  { eapply bytes_of_bound. apply Forall2_insert; [apply (po_slabs _ _ H)|exact Hs']. }
  pose proof (bytes_of_bound classes (slabs p) live (po_slabs _ _ H)) as Hbd. change (len classes) with 6 in Hbd.
  rewrite Z.mod_small; [lia|]. pose proof (sc_size_pos c). lia.
Qed.
Lemma pool_new_ok total : 0 ≤ total < 2 ^ 40 → pool_ok (MemoryPool_new total) (replicate 6 ∅).
Proof.
  intros Ht. unfold MemoryPool_new, u64_mul. rewrite (Z.mod_small (total * 60)) by lia. set (sb := total * 60 / 100).
  assert (Hsb : 0 ≤ sb ≤ 700000000000) by (unfold sb; dlia).
  assert (Hp : ∀ k c, 0 ≤ k ≤ 30 → slab_ok (Slab_new c ((sb * k) mod 2 ^ 64 / 100 / sc_size c)) ∅).
  { intros k c Hk. apply slab_new_ok. assert (0 ≤ sb * k < 2 ^ 64) by nia. rewrite Z.mod_small by done. pose proof (sc_size_pos c). assert (64 ≤ sc_size c) by (destruct c; cbn; lia).
    assert (Hk' : 0 ≤ sb * k ≤ 700000000000 * 30) by nia. set (x := sb * k) in *. clearbody x sb.
    assert (Hx : 0 ≤ x / 100 < 2 ^ 38) by dlia. split; [apply Z.div_pos; lia|]. apply Z.div_lt_upper_bound; [lia|]. nia. }
  split; cbn [slabs mp_stats]; [|done|done]. cbn [replicate]. repeat (apply Forall2_cons_2; [apply Hp; lia|]). constructor.
Qed.
Lemma pool_step_ok s s' : pool_step s s' → pool_ok s.1 s.2 → pool_ok s'.1 s'.2.
Proof.
  destruct 1 as [p live bytes p' h n b E Eg|p live h b data p' Hb Hd E|p live h b Hb|p live bytes p' r E|p live]; cbn [fst snd]; intros H.
  - destruct (Z.le_gt_cases 0 bytes) as [Hbytes|Hneg].
    + pose proof (pool_alloc_ok p live bytes H Hbytes) as Hspec. rewrite E in Hspec. destruct Hspec as (_ & _ & b' & Hok & Eg' & _).
      rewrite Eg in Eg'. by injection Eg' as <-.
    + assert (E0 : pool_alloc p 0 = Ok (p', Some (h, 0))).
      { revert E. unfold pool_alloc, for_size. rewrite (proj2 (Z.leb_le bytes 64)) by lia. cbn -[slab_alloc].
        destruct (slabs p !! 0%nat); [|done]. destruct (slab_alloc s) as [[? [?|]]| |]; cbn; [|done|done|done]. by intros [= <- <- _]. }
      pose proof (pool_alloc_ok p live 0 H ltac:(lia)) as Hspec. rewrite E0 in Hspec. destruct Hspec as (_ & _ & b' & Hok & Eg' & _).
      rewrite Eg in Eg'. by injection Eg' as <-.
  - destruct (pool_write_ok p live h b data H Hb Hd) as (p1 & E1 & Hok). rewrite E in E1. by injection E1 as <-.
  - by eapply pool_free_ok.
  - unfold pool_arena_alloc in E. destruct (arena_alloc (arena p) bytes) as [[a r']| |]; [|done|done]. injection E as <- _.
    destruct H as [H1 H2 H3]. split; [done|done|]. by destruct r'.
  - by destruct H.
Qed.

(** While handles are used between their allocation and their release, the tensor pool
    implements a map from live handles to their contents: an allocation gives a handle that is
    not live, with at least the bytes asked for, or nothing exactly when the request is larger than 64 KiB
    or every slot of its class is live; a live handle always reads back what was last
    written through it, whatever is allocated, written, freed or taken from the arena in between; and
    the bytes the statistics report are those of the live handles' slots.  Nothing panics. *)
Theorem tensor_pool total p live :
  0 ≤ total < 2 ^ 40 → rtc pool_step (MemoryPool_new total, replicate 6 ∅) (p, live) →
  (∀ h b, live_lookup live h = Some b → pool_get p h = Ok (Some b) ∧
     ∀ data, len data ≤ len b → ∃ p', pool_write p h data = Ok p' ∧ pool_get p' h = Ok (Some (data ++ drop (length data) b)) ∧
       ∀ h' b', live_lookup live h' = Some b' → (ah_slab_idx h', ah_slot_idx h') ≠ (ah_slab_idx h, ah_slot_idx h) →
         0 ≤ ah_slab_idx h → 0 ≤ ah_slab_idx h' → pool_get p' h' = Ok (Some b')) ∧
  bytes_allocated (mp_stats p) = bytes_of classes live ∧
  ∀ bytes, 0 ≤ bytes →
    match pool_alloc p bytes with
    | Ok (p', Some (h, n)) => n = bytes ∧ live_lookup live h = None ∧ ∃ b, pool_get p' h = Ok (Some b) ∧ bytes ≤ len b
    | Ok (p', None) => p' = p ∧
        match for_size bytes with
        | None => 65536 < bytes
        | Some c => ∃ s m, slabs p !! sc_slab c = Some s ∧ live !! sc_slab c = Some m ∧ Z.of_nat (size m) = sl_capacity s
        end
    | _ => False
    end.
Proof.
  intros Ht H. assert (Hok : pool_ok p live).
  { change (pool_ok (p, live).1 (p, live).2). apply (rtc_preserves pool_step (λ s, pool_ok s.1 s.2) pool_step_ok _ _ H). by apply pool_new_ok. }
  clear H. split_and!.
  - intros h b Hb. split; [by eapply pool_get_live|]. intros data Hd. destruct (pool_write_ok p live h b data Hok Hb Hd) as (p' & E & Hok').
    exists p'. split_and!; [done| |].
    + apply (pool_get_live p' _ h _ Hok'). by eapply live_lookup_insert.
    + intros h' b' Hb' Hne Hh Hh'. apply (pool_get_live p' _ h' _ Hok'). rewrite live_lookup_insert_ne; [done|]. intros [E1 E2]. apply Hne. f_equal; lia.
  - apply Hok.
  - intros bytes Hb. pose proof (pool_alloc_ok p live bytes Hok Hb) as Hspec.
    destruct (pool_alloc p bytes) as [[p' [[h n]|]]| |]; [|done|done|done]. destruct Hspec as (? & ? & b & _ & ? & ?). eauto.
Qed.

Section PoolExamples.
Let p0 : MemoryPool := MemoryPool_new 1000.
Lemma tensor_pool_witness :
  ∃ p h, rtc pool_step (p0, replicate 6 ∅) (p, live_insert (replicate 6 ∅) h (replicate 64 0)) ∧ bytes_allocated (mp_stats p) = 64.
Proof.
  destruct (pool_alloc p0 10) as [[p [[h n]|]]| |] eqn:E; [|vm_compute in E; discriminate E|vm_compute in E; discriminate E|vm_compute in E; discriminate E].
  assert (H : rtc pool_step (p0, replicate 6 ∅) (p, live_insert (replicate 6 ∅) h (replicate 64 0))).
  { eapply rtc_once, (PS_alloc p0 _ 10 p h n); [exact E|]. vm_compute in E. injection E as <- <- _. vm_compute. reflexivity. }
  exists p, h. split; [exact H|]. destruct (tensor_pool 1000 p _ ltac:(lia) H) as (_ & Hb & _). rewrite Hb.
  vm_compute in E. injection E as <- <- _. vm_compute. reflexivity.
Defined.
(** Freeing a handle twice hands the same slot out twice. *)
Example double_free :
  match pool_alloc p0 10 with
  | Ok (p, Some (h, _)) =>
      match pool_alloc (pool_free (pool_free p h) h) 10 with
      | Ok (p1, Some (h1, _)) => match pool_alloc p1 10 with Ok (_, Some (h2, _)) => (h1 =? h) && (h2 =? h) | _ => false end
      | _ => false
      end
  | _ => false
  end = true.
Proof. by vm_compute. Qed.
(** A bump allocation whose end wraps round is granted, and moves the cursor back over
    what was handed out before. *)
Example bump_wraps :
  let b := (bump_alloc (BumpAllocator_new 16) 8).1 in
  bump_alloc b (2 ^ 64 - 8) = (mkBump (bu_storage b) 0, Some 8) ∧ (bump_alloc (bump_alloc b (2 ^ 64 - 8)).1 8).2 = Some 0.
Proof. split; by vm_compute. Qed.
(** The arena's request whose end wraps round panics. *)
Example arena_wraps : match arena_alloc (Arena_new 64) 8 with Ok (a, _) => arena_alloc a (2 ^ 64 - 4) | _ => Ok (Arena_new 0, None) end = Panic.
Proof. by vm_compute. Qed.
End PoolExamples.

(** A slice of the arena starts at a multiple of 8 behind everything handed out since the
    last reset, and ends within the storage. *)
Lemma arena_alloc_spec a bytes : 0 ≤ ar_cursor a ≤ len (ar_storage a) → len (ar_storage a) + 8 < 2 ^ 63 → 0 ≤ bytes < 2 ^ 63 →
  match arena_alloc a bytes with
  | Ok (a', Some (x, y)) => ar_cursor a ≤ x < ar_cursor a + 8 ∧ x mod 8 = 0 ∧ y = x + bytes ∧ y ≤ len (ar_storage a) ∧
      ar_cursor a' = y ∧ ar_storage a' = ar_storage a ∧ high_water a' = Z.max (high_water a) y
  | Ok (a', None) => a' = a ∧ len (ar_storage a) < (ar_cursor a + 7) / 8 * 8 + bytes
  | _ => False
  end.
Proof.
  intros Hc Hl Hb.
  assert (E : Z.land (u64_add (ar_cursor a) 7) (u64_not 7) = (ar_cursor a + 7) / 8 * 8).
  { pose proof (aligned_size_spec 3 (ar_cursor a) ltac:(lia) ltac:(lia) ltac:(lia)) as E. unfold aligned_size in E.
    change (2 ^ 3) with 8 in E. rewrite (Z.mod_small (8 - 1)) in E by lia. change (8 - 1) with 7 in E.
    replace (ar_cursor a + 8 - 1) with (ar_cursor a + 7) in E by lia. unfold u64_add. rewrite E. lia. }
  unfold arena_alloc. rewrite E. set (x := (ar_cursor a + 7) / 8 * 8) in *. assert (Hx : ar_cursor a ≤ x < ar_cursor a + 8 ∧ x mod 8 = 0) by (unfold x; dlia).
  clearbody x. assert (Ee : u64_add x bytes = x + bytes) by (unfold u64_add; apply Z.mod_small; lia). rewrite Ee.
  destruct (Z.ltb_spec (len (ar_storage a)) (x + bytes)); [done|]. unfold slice. rewrite decide_True by lia. cbn. split_and!; try done; lia.
Qed.
