(* ===== verification/Hal.v ===== *)
(** * Hardware resources (axiom-hal capability.rs, compute.rs, mover.rs, resource.rs, manager.rs)

    What hardware can do, the resources that can be claimed, and the manager that hands
    each out to one agent at a time.  Floating-point fields are their bit patterns and
    the time estimates computed from them are left out.  A hash map's iteration
    order, the clock and fresh resource identifiers are arguments. *)

From stdpp Require Import base numbers list gmap sets strings.
From Stdlib Require Import Sorting.Sorted.
From S2P Require Import Prelude Types Text Intent Memory.

(** ** Capabilities *)

Definition CapabilityId := list Z.
Definition CapabilityId_from_intent (i : IntentHash) : CapabilityId := i.
Inductive CapabilityClass := CC_Compute | CC_Memory | CC_Mover | CC_Storage | CC_Network | CC_Sensor | CC_Custom.
#[export] Instance CapabilityClass_eq_dec : EqDecision CapabilityClass.
Proof. solve_decision. Defined.
Definition CapabilityClass_from_byte (b : Z) : option CapabilityClass :=
  match b with
  | 0x01 => Some CC_Compute | 0x02 => Some CC_Memory | 0x03 => Some CC_Mover | 0x04 => Some CC_Storage
  | 0x05 => Some CC_Network | 0x06 => Some CC_Sensor | 0xFF => Some CC_Custom | _ => None
  end.
Record CapabilityMetrics := mkMetrics { throughput : Z; cm_latency_ns : Z; cm_capacity : Z; power_mw : Z; efficiency : Z }.
Definition CapabilityMetrics_default : CapabilityMetrics := mkMetrics 0 0 0 0 0.
Definition CapabilityMetrics_memory (capacity_gb bandwidth_gbps : Z) : CapabilityMetrics :=
  mkMetrics (u64_mul bandwidth_gbps 1000000000) 100 (u64_mul capacity_gb 1000000000) 0 0.
Definition CapabilityMetrics_mover (bandwidth_gbps latency : Z) : CapabilityMetrics :=
  mkMetrics (u64_mul bandwidth_gbps 1000000000) latency 0 0 0.

(** *** Class-specific details *)

Inductive ComputeType := CT_Gpu | CT_Tpu | CT_Npu | CT_CpuSimd | CT_Fpga | CT_Asic.
Inductive DataType := DT_Fp32 | DT_Fp16 | DT_Bf16 | DT_Fp8 | DT_Int8 | DT_Int4 | DT_Int32 | DT_Fp64.
#[export] Instance DataType_eq_dec : EqDecision DataType.
Proof. solve_decision. Defined.
Definition DataType_bits (d : DataType) : Z :=
  match d with DT_Fp64 => 64 | DT_Fp32 | DT_Int32 => 32 | DT_Fp16 | DT_Bf16 => 16 | DT_Fp8 | DT_Int8 => 8 | DT_Int4 => 4 end.
Definition DataType_bytes (d : DataType) : Z := (DataType_bits d + 7) / 8.
Inductive TensorOp :=
  | TO_MatMul | TO_Conv2d | TO_Attention | TO_Elementwise | TO_Reduce | TO_BatchNorm | TO_LayerNorm | TO_Softmax
  | TO_Activation | TO_Embedding | TO_FlashAttention.
#[export] Instance TensorOp_eq_dec : EqDecision TensorOp.
Proof. solve_decision. Defined.
Record OpPerformance := mkOpPerf { op_op : TensorOp; op_dtype : DataType; op_peak_tflops : Z; typical_util : Z }.
Record ComputeCapability := mkCompute {
  compute_type : ComputeType; supported_dtypes : list DataType; operations : list OpPerformance; memory_bytes : Z;
  memory_bandwidth : Z; compute_units : Z; max_batch_size : Z; max_seq_len : Z
}.
Definition ComputeCapability_new (t : ComputeType) : ComputeCapability := mkCompute t [] [] 0 0 0 0 0.
Definition with_dtype (c : ComputeCapability) (d : DataType) : ComputeCapability :=
  mkCompute (compute_type c) (if bool_decide (d ∈ supported_dtypes c) then supported_dtypes c else supported_dtypes c ++ [d])
    (operations c) (memory_bytes c) (memory_bandwidth c) (compute_units c) (max_batch_size c) (max_seq_len c).
(** [typical_util: 0.7] as an [f32]. *)
Definition with_op (c : ComputeCapability) (o : TensorOp) (d : DataType) (peak : Z) : ComputeCapability :=
  mkCompute (compute_type c) (supported_dtypes c) (operations c ++ [mkOpPerf o d peak 0x3F333333]) (memory_bytes c)
    (memory_bandwidth c) (compute_units c) (max_batch_size c) (max_seq_len c).
Definition with_memory (c : ComputeCapability) (bytes bandwidth : Z) : ComputeCapability :=
  mkCompute (compute_type c) (supported_dtypes c) (operations c) bytes bandwidth (compute_units c) (max_batch_size c) (max_seq_len c).
Definition with_compute_units (c : ComputeCapability) (u : Z) : ComputeCapability :=
  mkCompute (compute_type c) (supported_dtypes c) (operations c) (memory_bytes c) (memory_bandwidth c) u (max_batch_size c) (max_seq_len c).
Definition op_matches (o : TensorOp) (d : DataType) (p : OpPerformance) : bool := bool_decide (op_op p = o) && bool_decide (op_dtype p = d).
Definition supports (c : ComputeCapability) (o : TensorOp) (d : DataType) : bool := existsb (op_matches o d) (operations c).
Definition peak_tflops (c : ComputeCapability) (o : TensorOp) (d : DataType) : option Z := op_peak_tflops <$> find (op_matches o d) (operations c).

Inductive TransferPath :=
  | TPa_HostToDevice | TPa_DeviceToHost | TPa_IntraDevice | TPa_DeviceToDevice (src dst : Z) | TPa_NumaToNuma (src dst : Z) | TPa_Rdma.
#[export] Instance TransferPath_eq_dec : EqDecision TransferPath.
Proof. solve_decision. Defined.
Definition is_cross_device (p : TransferPath) : bool :=
  match p with TPa_HostToDevice | TPa_DeviceToHost | TPa_DeviceToDevice _ _ | TPa_Rdma => true | _ => false end.
Inductive TransferState := TSt_Pending | TSt_InProgress | TSt_Complete | TSt_Failed.
Record DmaDescriptor := mkDma { src_addr : Z; dst_addr : Z; dma_size : Z; transfer_id : Z; dma_state : TransferState }.
Definition DmaDescriptor_new `{Blake3} (src dst n : Z) : DmaDescriptor :=
  mkDma src dst n (from_le (take 8 (blake3 (to_le 8 src ++ to_le 8 dst ++ to_le 8 n)))) TSt_Pending.
Record MoverCapability := mkMover {
  paths : list TransferPath; max_transfer_size : Z; mv_bandwidth : Z; mv_latency_ns : Z; max_concurrent : Z; mv_alignment : Z;
  scatter_gather : bool; block_copy : bool
}.
Definition MoverCapability_new : MoverCapability := mkMover [] u64_max 0 0 1 4 false false.
Definition with_path (m : MoverCapability) (p : TransferPath) : MoverCapability :=
  mkMover (if bool_decide (p ∈ paths m) then paths m else paths m ++ [p]) (max_transfer_size m) (mv_bandwidth m) (mv_latency_ns m)
    (max_concurrent m) (mv_alignment m) (scatter_gather m) (block_copy m).
Definition mv_with_bandwidth (m : MoverCapability) (b : Z) : MoverCapability :=
  mkMover (paths m) (max_transfer_size m) b (mv_latency_ns m) (max_concurrent m) (mv_alignment m) (scatter_gather m) (block_copy m).
Definition mv_with_latency (m : MoverCapability) (l : Z) : MoverCapability :=
  mkMover (paths m) (max_transfer_size m) (mv_bandwidth m) l (max_concurrent m) (mv_alignment m) (scatter_gather m) (block_copy m).
Definition with_max_concurrent (m : MoverCapability) (n : Z) : MoverCapability :=
  mkMover (paths m) (max_transfer_size m) (mv_bandwidth m) (mv_latency_ns m) n (mv_alignment m) (scatter_gather m) (block_copy m).
Definition with_scatter_gather (m : MoverCapability) : MoverCapability :=
  mkMover (paths m) (max_transfer_size m) (mv_bandwidth m) (mv_latency_ns m) (max_concurrent m) (mv_alignment m) true (block_copy m).
Definition with_block_copy (m : MoverCapability) : MoverCapability :=
  mkMover (paths m) (max_transfer_size m) (mv_bandwidth m) (mv_latency_ns m) (max_concurrent m) (mv_alignment m) (scatter_gather m) true.
Definition pcie_gen4 : MoverCapability :=
  with_max_concurrent (mv_with_latency (mv_with_bandwidth (with_path (with_path MoverCapability_new TPa_HostToDevice) TPa_DeviceToHost) 32000000000) 1000) 8.
Definition supports_path (m : MoverCapability) (p : TransferPath) : bool := bool_decide (p ∈ paths m).

Inductive SpecificCapability := Sp_Compute (c : ComputeCapability) | Sp_Memory (m : MemoryCapability) | Sp_Mover (m : MoverCapability) | Sp_Generic.
Record Capability := mkCapability {
  cap_id : CapabilityId; cap_class : CapabilityClass; cap_name : text; cap_tags : list text; metrics : CapabilityMetrics; specific : SpecificCapability
}.
Definition Capability_new `{Blake3} (c : CapabilityClass) (name : text) : Capability :=
  mkCapability (take 16 (blake3 (as_bytes name))) c name [] CapabilityMetrics_default Sp_Generic.
Definition with_tag (c : Capability) (t : text) : Capability := mkCapability (cap_id c) (cap_class c) (cap_name c) (cap_tags c ++ [t]) (metrics c) (specific c).
Definition with_metrics (c : Capability) (m : CapabilityMetrics) : Capability := mkCapability (cap_id c) (cap_class c) (cap_name c) (cap_tags c) m (specific c).
Definition with_specific (c : Capability) (s : SpecificCapability) : Capability := mkCapability (cap_id c) (cap_class c) (cap_name c) (cap_tags c) (metrics c) s.
Definition matches (c : Capability) (query : text) : bool :=
  bool_decide (cap_name c = query)
  || (starts_with (cap_name c) query && starts_with (drop (length query) (cap_name c)) (str ":"))
  || existsb (λ t, bool_decide (t = query)) (cap_tags c).
Definition satisfies_metrics (c : Capability) (min_throughput max_latency : Z) : bool :=
  (min_throughput <=? throughput (metrics c)) && ((max_latency =? 0) || (cm_latency_ns (metrics c) <=? max_latency)).

(** ** Resources *)

Definition ResourceId := list Z.
Inductive UnavailableReason := UR_Error | UR_Maintenance | UR_Thermal | UR_Power | UR_Reserved.
Inductive ResourceState := RS_Available | RS_Claimed (owner : NodeId) (since : Z) | RS_Unavailable (reason : UnavailableReason) (until : option Z).
Inductive AccessMethod :=
  | AM_Mmio (base size : Z) (cached : bool) | AM_PortIo (base size : Z) | AM_CommandQueue (queue_base queue_size doorbell : Z)
  | AM_DmaRing (ring_base ring_size producer_reg consumer_reg : Z) | AM_SharedMemory (base size : Z) | AM_Managed.
Definition base_address (a : AccessMethod) : option Z :=
  match a with AM_Mmio b _ _ => Some b | AM_CommandQueue b _ _ => Some b | AM_DmaRing b _ _ _ => Some b | AM_SharedMemory b _ => Some b | _ => None end.
Definition access_size (a : AccessMethod) : option Z := match a with AM_Mmio _ s _ => Some s | AM_SharedMemory _ s => Some s | _ => None end.
Record ResourceHandle := mkHandle { rh_resource : ResourceId; rh_capability : CapabilityId; rh_token : list Z; rh_claimed_at : Z; rh_access : AccessMethod }.
Definition is_for (h : ResourceHandle) (id : ResourceId) : bool := bool_decide (rh_resource h = id).
Record Resource := mkResource {
  res_id : ResourceId; res_name : text; res_capabilities : list Capability; res_state : ResourceState; res_access : AccessMethod;
  min_trust : TrustLevel; res_parent : option ResourceId; res_children : list ResourceId
}.
Definition Resource_new (id : ResourceId) (name : text) : Resource := mkResource id name [] RS_Available AM_Managed Raw None [].
Definition with_capability (r : Resource) (c : Capability) : Resource :=
  mkResource (res_id r) (res_name r) (res_capabilities r ++ [c]) (res_state r) (res_access r) (min_trust r) (res_parent r) (res_children r).
Definition with_access (r : Resource) (a : AccessMethod) : Resource :=
  mkResource (res_id r) (res_name r) (res_capabilities r) (res_state r) a (min_trust r) (res_parent r) (res_children r).
Definition with_min_trust (r : Resource) (t : TrustLevel) : Resource :=
  mkResource (res_id r) (res_name r) (res_capabilities r) (res_state r) (res_access r) t (res_parent r) (res_children r).
Definition res_set_state (r : Resource) (s : ResourceState) : Resource :=
  mkResource (res_id r) (res_name r) (res_capabilities r) s (res_access r) (min_trust r) (res_parent r) (res_children r).
Definition is_available (r : Resource) : bool := match res_state r with RS_Available => true | _ => false end.
Definition has_capability (r : Resource) (query : text) : bool := existsb (λ c, matches c query) (res_capabilities r).
Definition get_capability (r : Resource) (query : text) : option Capability := find (λ c, matches c query) (res_capabilities r).

Definition claim_token `{Blake3} (id : ResourceId) (owner : NodeId) (now : Z) : list Z := take 16 (blake3 (id ++ owner ++ to_le 8 now)).
Definition resource_claim `{Blake3} (now : Z) (r : Resource) (owner : NodeId) : option (Resource * ResourceHandle) :=
  if is_available r then
    Some (res_set_state r (RS_Claimed owner now),
          mkHandle (res_id r) (match res_capabilities r with c :: _ => cap_id c | [] => replicate 16 0 end) (claim_token (res_id r) owner now) now (res_access r))
  else None.
(** The token is not looked at. *)
Definition resource_release (r : Resource) : Resource * bool :=
  match res_state r with RS_Claimed _ _ => (res_set_state r RS_Available, true) | _ => (r, false) end.

(** ** The manager *)

Inductive ClaimError :=
  | CE_NotFound | CE_AlreadyClaimed (owner : NodeId) | CE_InsufficientTrust (required provided : TrustLevel) | CE_Unavailable | CE_CapabilityNotFound.
Record DiscoveryFilter := mkFilter {
  f_class : option CapabilityClass; f_query : option text; f_min_throughput : option Z; f_max_latency_ns : option Z; f_available_only : bool
}.
Definition DiscoveryFilter_new : DiscoveryFilter := mkFilter None None None None false.
Definition with_class (f : DiscoveryFilter) (c : CapabilityClass) : DiscoveryFilter :=
  mkFilter (Some c) (f_query f) (f_min_throughput f) (f_max_latency_ns f) (f_available_only f).
Definition with_query (f : DiscoveryFilter) (q : text) : DiscoveryFilter :=
  mkFilter (f_class f) (Some q) (f_min_throughput f) (f_max_latency_ns f) (f_available_only f).
Definition with_min_throughput (f : DiscoveryFilter) (n : Z) : DiscoveryFilter :=
  mkFilter (f_class f) (f_query f) (Some n) (f_max_latency_ns f) (f_available_only f).
Definition available_only (f : DiscoveryFilter) : DiscoveryFilter :=
  mkFilter (f_class f) (f_query f) (f_min_throughput f) (f_max_latency_ns f) true.
Definition filter_matches (f : DiscoveryFilter) (r : Resource) : bool :=
  negb (f_available_only f && negb (is_available r))
  && match f_class f with Some c => existsb (λ k, bool_decide (cap_class k = c)) (res_capabilities r) | None => true end
  && match f_query f with Some q => has_capability r q | None => true end
  && match f_min_throughput f with
     | Some n => negb (foldr Z.max 0 ((λ c, throughput (metrics c)) <$> res_capabilities r) <? n) | None => true end
  && match f_max_latency_ns f with
     | Some n => negb (n <? foldr Z.min u64_max ((λ c, cm_latency_ns (metrics c)) <$> res_capabilities r)) | None => true end.
Record HalDiscovery := mkHalDiscovery { hd_resource : ResourceId; hd_name : text; hd_capabilities : list Capability; hd_state : ResourceState; hd_score : Z }.
Definition u32_add (a b : Z) : Z := (a + b) mod 2 ^ 32.
Definition match_score (f : DiscoveryFilter) (r : Resource) : Z :=
  foldl (λ score c,
           match f_query f with
           | Some q => if matches c q then u32_add (u32_add score 50) ((throughput (metrics c) / 1000000000) mod 2 ^ 32) else score
           | None => score
           end) (if is_available r then 100 else 0) (res_capabilities r).
(** [sort_by(|a, b| b.score.cmp(&a.score))] is stable. *)
Fixpoint insert_by_score (d : HalDiscovery) (l : list HalDiscovery) : list HalDiscovery :=
  match l with
  | [] => [d]
  | e :: l' => if hd_score d <? hd_score e then e :: insert_by_score d l' else d :: e :: l'
  end.
Definition sort_by_score (l : list HalDiscovery) : list HalDiscovery := foldr insert_by_score [] l.
(** Over the resources in the order the hash map gives them. *)
Definition hal_discover (f : DiscoveryFilter) (rs : list Resource) : list HalDiscovery :=
  sort_by_score ((λ r, mkHalDiscovery (res_id r) (res_name r) (res_capabilities r) (res_state r) (match_score f r))
                 <$> filter (λ r, filter_matches f r = true) rs).
Definition hal_find (query : text) (rs : list Resource) : list HalDiscovery := hal_discover (available_only (with_query DiscoveryFilter_new query)) rs.

Record ResourceManager := mkManager { resources : gmap ResourceId Resource; rm_claims : gmap (list Z) ResourceId; local_agent : NodeId }.
Definition ResourceManager_new (me : NodeId) : ResourceManager := mkManager ∅ ∅ me.
Definition rm_register (m : ResourceManager) (r : Resource) : ResourceManager := mkManager (<[res_id r := r]> (resources m)) (rm_claims m) (local_agent m).
Definition rm_unregister (m : ResourceManager) (id : ResourceId) : ResourceManager * option Resource :=
  (mkManager (delete id (resources m)) (filter (λ kv, kv.2 ≠ id) (rm_claims m)) (local_agent m), resources m !! id).
Definition rm_claim `{Blake3} (now : Z) (m : ResourceManager) (id : ResourceId) (agent : NodeId) (trust : TrustLevel) : ResourceManager * outcome ClaimError ResourceHandle :=
  match resources m !! id with
  | None => (m, Err CE_NotFound)
  | Some r =>
      if TrustLevel_to_u8 (min_trust r) <? TrustLevel_to_u8 trust then (m, Err (CE_InsufficientTrust (min_trust r) trust))
      else
        match res_state r with
        | RS_Claimed owner _ => (m, Err (CE_AlreadyClaimed owner))
        | RS_Unavailable _ _ => (m, Err CE_Unavailable)
        | RS_Available =>
            match resource_claim now r agent with
            | None => (m, Err CE_Unavailable)
            | Some (r', h) => (mkManager (<[id := r']> (resources m)) (<[rh_token h := id]> (rm_claims m)) (local_agent m), Ok h)
            end
        end
  end.
Definition rm_release (m : ResourceManager) (h : ResourceHandle) : ResourceManager * bool :=
  match rm_claims m !! rh_token h with
  | None => (m, false)
  | Some id =>
      let cs := delete (rh_token h) (rm_claims m) in
      match resources m !! id with
      | None => (mkManager (resources m) cs (local_agent m), false)
      | Some r => (mkManager (<[id := (resource_release r).1]> (resources m)) cs (local_agent m), (resource_release r).2)
      end
  end.
Definition claimed_by (r : Resource) (agent : NodeId) : bool := match res_state r with RS_Claimed o _ => bool_decide (o = agent) | _ => false end.
Definition is_claimed_by (m : ResourceManager) (id : ResourceId) (agent : NodeId) : bool :=
  match resources m !! id with Some r => claimed_by r agent | None => false end.
Definition claims_by (agent : NodeId) (rs : list Resource) : list Resource := filter (λ r, claimed_by r agent = true) rs.
Definition num_resources (m : ResourceManager) : nat := size (resources m).
Definition num_available (m : ResourceManager) : nat := size (filter (λ kr, is_available kr.2 = true) (resources m)).

(** *** What the manager guarantees *)

(** Selection by score. *)
Lemma insert_by_score_Permutation d l : insert_by_score d l ≡ₚ d :: l.
Proof.
  induction l as [|e l IH]; [done|]. cbn. destruct (hd_score d <? hd_score e); [|done]. rewrite IH. apply Permutation_swap.
Qed.
Lemma sort_by_score_Permutation l : sort_by_score l ≡ₚ l.
Proof. unfold sort_by_score. induction l as [|d l IH]; [done|]. cbn. by rewrite insert_by_score_Permutation, IH. Qed.
Definition score_ge (a b : HalDiscovery) : Prop := hd_score b ≤ hd_score a.
Lemma insert_by_score_sorted d l : StronglySorted score_ge l → StronglySorted score_ge (insert_by_score d l).
Proof.
  induction 1 as [|e l Hl IH He]; cbn; [by repeat constructor|]. destruct (Z.ltb_spec (hd_score d) (hd_score e)).
  - constructor; [done|]. rewrite insert_by_score_Permutation. constructor; [unfold score_ge; lia|done].
  - constructor; [by constructor|]. constructor; [done|]. eapply Forall_impl; [exact He|]. unfold score_ge in *. intros x ?. lia.
Qed.
Lemma sort_by_score_sorted l : StronglySorted score_ge (sort_by_score l).
Proof. unfold sort_by_score. induction l as [|d l IH]; [constructor|]. by apply insert_by_score_sorted. Qed.
Lemma hal_discover_elem f rs d : d ∈ hal_discover f rs ↔
  ∃ r, r ∈ rs ∧ filter_matches f r = true ∧ d = mkHalDiscovery (res_id r) (res_name r) (res_capabilities r) (res_state r) (match_score f r).
Proof.
  unfold hal_discover. rewrite sort_by_score_Permutation, list_elem_of_fmap. split.
  - intros (r & -> & [? ?]%list_elem_of_filter). by exists r.
  - intros (r & ? & ? & ->). exists r. split; [done|]. by apply list_elem_of_filter.
Qed.
(** The first discovery scores at least as much as any other, and there is none exactly when nothing matches. *)
Lemma hal_discover_first f rs :
  match hal_discover f rs with
  | [] => ∀ r, r ∈ rs → filter_matches f r = false
  | d :: ds => Forall (score_ge d) ds ∧ d ∈ hal_discover f rs
  end.
Proof.
  destruct (hal_discover f rs) as [|d ds] eqn:E.
  - intros r Hr. destruct (filter_matches f r) eqn:Em; [|done]. exfalso.
    assert (Hin : mkHalDiscovery (res_id r) (res_name r) (res_capabilities r) (res_state r) (match_score f r) ∈ hal_discover f rs)
      by (apply hal_discover_elem; by exists r).
    rewrite E in Hin. by apply not_elem_of_nil in Hin.
  - split; [|left]. pose proof (sort_by_score_sorted
      ((λ r, mkHalDiscovery (res_id r) (res_name r) (res_capabilities r) (res_state r) (match_score f r)) <$> filter (λ r, filter_matches f r = true) rs)) as Hs.
    unfold hal_discover in E. rewrite E in Hs. by inversion Hs.
Qed.

(** The claim table and the states of the resources agree: a token stands for
    exactly one claimed resource, by one of the claims [cs] made (resource, agent, time). *)
Definition state_token `{Blake3} (r : Resource) : option (list Z) :=
  match res_state r with RS_Claimed o t => Some (claim_token (res_id r) o t) | _ => None end.
Record manager_ok `{Blake3} (cs : list (ResourceId * NodeId * Z)) (m : ResourceManager) : Prop := {
  mok_ids id r : resources m !! id = Some r → res_id r = id ∧ array_ok 16 id;
  mok_claims tok id : rm_claims m !! tok = Some id ↔ ∃ r, resources m !! id = Some r ∧ state_token r = Some tok;
  mok_made id r o t : resources m !! id = Some r → res_state r = RS_Claimed o t → (id, o, t) ∈ cs
}.
(** Two of the claims, of different resources, that get one token. *)
Definition token_collision `{Blake3} (cs : list (ResourceId * NodeId * Z)) : Prop :=
  ∃ id id' o o' t t', (id, o, t) ∈ cs ∧ (id', o', t') ∈ cs ∧ id ≠ id' ∧ claim_token id o t = claim_token id' o' t'.
Inductive manager_step `{Blake3} (cs : list (ResourceId * NodeId * Z)) : ResourceManager → ResourceManager → Prop :=
  | MgS_register m r : resources m !! res_id r = None → array_ok 16 (res_id r) → is_available r = true → manager_step cs m (rm_register m r)
  | MgS_unregister m id : manager_step cs m (rm_unregister m id).1
  | MgS_claim now m id agent trust : (id, agent, now) ∈ cs → manager_step cs m (rm_claim now m id agent trust).1
  | MgS_release m h : manager_step cs m (rm_release m h).1.

Section Manager.
Context {HB : Blake3} (cs : list (ResourceId * NodeId * Z)) (Hcol : ¬ token_collision cs).

Lemma manager_new_ok me : manager_ok cs (ResourceManager_new me).
Proof.
  split; cbn; [intros id r; by rewrite lookup_empty| |by intros id r o t; rewrite lookup_empty]. intros tok id. rewrite lookup_empty.
  split; [done|]. intros (r & Hr & _). by rewrite lookup_empty in Hr.
Qed.
Lemma state_token_available r : is_available r = true → state_token r = None.
Proof. unfold is_available, state_token. by destruct (res_state r). Qed.
(** A free resource holds no token in the table. *)
Lemma no_stale_claim m tok id r : manager_ok cs m → resources m !! id = Some r → is_available r = true → rm_claims m !! tok ≠ Some id.
Proof.
  intros [_ Hc _] Hr Ha E. apply Hc in E as (r' & Hr' & Ht). rewrite Hr in Hr'. injection Hr' as <-. by rewrite state_token_available in Ht.
Qed.
Lemma token_of_id m now agent id tok id' r : manager_ok cs m → (id, agent, now) ∈ cs → resources m !! id = Some r → rm_claims m !! tok = Some id' →
  tok = claim_token id agent now → id' = id.
Proof using Hcol.
  intros [Hi Hc Hmade] Hin Hr E ->. destruct (decide (id' = id)) as [|Hne]; [done|]. apply Hc in E as (r' & Hr' & Ht).
  unfold state_token in Ht. destruct (res_state r') as [|o t|] eqn:Es; [done| |done]. injection Ht as Ht.
  destruct (Hi _ _ Hr') as [Eid _]. rewrite Eid in Ht. destruct Hcol. exists id', id, o, agent, t, now. by eauto 10.
Qed.
Lemma manager_claim_ok now m id agent trust m' h : manager_ok cs m → (id, agent, now) ∈ cs → rm_claim now m id agent trust = (m', Ok h) →
  manager_ok cs m' ∧ ∃ r, resources m !! id = Some r ∧ is_available r = true ∧ TrustLevel_to_u8 trust ≤ TrustLevel_to_u8 (min_trust r) ∧
    rh_token h = claim_token id agent now ∧ rh_resource h = id ∧ rm_claims m !! rh_token h = None ∧
    m' = mkManager (<[id := res_set_state r (RS_Claimed agent now)]> (resources m)) (<[rh_token h := id]> (rm_claims m)) (local_agent m).
Proof using Hcol.
  intros Hok Hin E. unfold rm_claim in E. destruct (resources m !! id) as [r|] eqn:Hr; [|done]. destruct (Z.ltb_spec (TrustLevel_to_u8 (min_trust r)) (TrustLevel_to_u8 trust)); [done|].
  destruct (res_state r) eqn:Es; [|done|done]. assert (Ha : is_available r = true) by (unfold is_available; by rewrite Es).
  unfold resource_claim in E. rewrite Ha in E. injection E as <- <-. destruct (mok_ids _ _ Hok _ _ Hr) as [Eid Hl]. cbn. rewrite Eid.
  assert (Hnone : rm_claims m !! claim_token id agent now = None).
  { destruct (rm_claims m !! claim_token id agent now) as [id'|] eqn:Ec; [|done]. exfalso.
    pose proof (token_of_id m now agent id _ id' r Hok Hin Hr Ec eq_refl) as ->. by apply (no_stale_claim m (claim_token id agent now) id r Hok Hr Ha). }
  split; [|by exists r]. split; cbn.
  - intros id' r' [[<- <-]|[Hne Hr']]%lookup_insert_Some; [done|]. by apply (mok_ids _ _ Hok).
  - intros tok id'. rewrite lookup_insert_Some. destruct (decide (id = id')) as [<-|Hid].
    + rewrite lookup_insert_eq. split.
      * intros [[<- _]|[_ Ec]]; [eexists; split; [done|]; unfold state_token; cbn; by rewrite Eid|].
        by apply (no_stale_claim m tok id r Hok Hr Ha) in Ec.
      * intros (r' & [= <-] & Ht). unfold state_token in Ht. cbn in Ht. rewrite Eid in Ht. injection Ht as <-. by left.
    + rewrite lookup_insert_ne by done. rewrite <- (mok_claims _ _ Hok). split; [intros [[_ ?]|[_ ?]]; done|]. intros Ec. right. split; [|done]. intros <-. congruence.
  - intros id' r' o t [[<- <-]|[Hne Hr']]%lookup_insert_Some; [cbn; by intros [= <- <-]|by apply (mok_made _ _ Hok)].
Qed.
Lemma manager_release_ok m h : manager_ok cs m → manager_ok cs (rm_release m h).1.
Proof.
  intros Hok. unfold rm_release. destruct (rm_claims m !! rh_token h) as [id|] eqn:Ec; [|done].
  destruct (proj1 (mok_claims _ _ Hok _ _) Ec) as (r & Hr & Ht). rewrite Hr. cbn. unfold resource_release.
  destruct (res_state r) as [|o t|] eqn:Es; unfold state_token in Ht; rewrite Es in Ht; [done| |done]. injection Ht as Ht.
  split; cbn.
  - intros id' r' [[<- <-]|[Hne Hr']]%lookup_insert_Some; [exact (mok_ids _ _ Hok _ _ Hr)|by apply (mok_ids _ _ Hok)].
  - intros tok id'. rewrite lookup_delete_Some, (mok_claims _ _ Hok). destruct (decide (id = id')) as [<-|Hid].
    + rewrite Hr, lookup_insert_eq. split.
      * intros (Hne & r' & [= <-] & Ht'). unfold state_token in Ht'. rewrite Es in Ht'. congruence.
      * intros (r' & [= <-] & Ht'). done.
    + rewrite lookup_insert_ne by done. split; [tauto|]. intros (r' & Hr' & Ht'). split; [|by exists r']. intros <-.
      assert (Ec' : rm_claims m !! rh_token h = Some id') by (apply (mok_claims _ _ Hok); by exists r'). congruence.
  - intros id' r' o' t' [[<- <-]|[Hne Hr']]%lookup_insert_Some; [done|by apply (mok_made _ _ Hok)].
Qed.
Lemma manager_step_ok m m' : manager_step cs m m' → manager_ok cs m → manager_ok cs m'.
Proof using Hcol.
  destruct 1 as [m r Hnew Hl Ha|m id|now m id agent trust Hin|m h]; intros Hok.
  - split; cbn.
    + intros id r' [[<- <-]|[_ Hr']]%lookup_insert_Some; [done|by apply (mok_ids _ _ Hok)].
    + intros tok id. rewrite (mok_claims _ _ Hok). destruct (decide (res_id r = id)) as [<-|Hne].
      * rewrite lookup_insert_eq, Hnew. split; [by intros (? & ? & _)|]. intros (r' & [= <-] & Ht). by rewrite state_token_available in Ht.
      * by rewrite lookup_insert_ne.
    + intros id r' o t [[<- <-]|[_ Hr']]%lookup_insert_Some; [by intros E; unfold is_available in Ha; rewrite E in Ha|by apply (mok_made _ _ Hok)].
  - split; cbn.
    + intros id' r' [_ Hr']%lookup_delete_Some. by apply (mok_ids _ _ Hok).
    + intros tok id'. rewrite map_lookup_filter_Some. cbn. rewrite (mok_claims _ _ Hok). split.
      * intros ((r & Hr & Ht) & Hne). exists r. by rewrite lookup_delete_ne.
      * intros (r & [Hne Hr]%lookup_delete_Some & Ht). split; [by exists r|done].
    + intros id' r' o t [_ Hr']%lookup_delete_Some. by apply (mok_made _ _ Hok).
  - destruct (rm_claim now m id agent trust) as [m' [h|e|]] eqn:E; cbn.
    + by destruct (manager_claim_ok _ _ _ _ _ _ _ Hok Hin E).
    + unfold rm_claim in E. repeat (case_match; try (injection E as <- _; done)); done.
    + unfold rm_claim in E. repeat (case_match; try (injection E as <- _; done)); done.
  - by apply manager_release_ok.
Qed.
Lemma manager_reachable_ok me m : rtc (manager_step cs) (ResourceManager_new me) m → manager_ok cs m.
Proof using Hcol. intros H. apply (rtc_preserves (manager_step cs) (manager_ok cs) manager_step_ok _ _ H), manager_new_ok. Qed.
End Manager.

Lemma num_available_claim (rs : gmap ResourceId Resource) id r s : rs !! id = Some r → is_available r = true →
  s ≠ RS_Available → S (size (filter (λ kr, is_available kr.2 = true) (<[id := res_set_state r s]> rs))) = size (filter (λ kr, is_available kr.2 = true) rs).
Proof.
  intros Hr Ha Hs. assert (Hn : is_available (res_set_state r s) ≠ true) by (unfold is_available; cbn; by destruct s).
  rewrite map_filter_insert_False by done. rewrite <- (insert_delete_id rs id r Hr) at 2. rewrite map_filter_insert_True by done.
  by rewrite map_size_insert_None by (rewrite map_lookup_filter, lookup_delete_eq; done).
Qed.


Section HalExamples.
Let gpu (id : Z) (t : TrustLevel) : Resource :=
  with_min_trust (with_capability (Resource_new (replicate 16 id) (str "GPU")) (Capability_new (H := prefix_digest) CC_Compute (str "compute:tensor"))) t.
Let agent : NodeId := replicate 32 9.

Let gpu_claimed : list (ResourceId * NodeId * Z) := [(replicate 16 1, agent, 5); (replicate 16 2, agent, 4)].
Lemma gpu_claims_apart : ¬ token_collision (H := prefix_digest) gpu_claimed.
Proof.
  intros (id & id' & o & o' & t & t' & H & H' & Hne & E). unfold gpu_claimed in H, H'. rewrite !elem_of_cons, elem_of_nil in H, H'.
  destruct H as [[= -> -> ->]|[[= -> -> ->]|[]]], H' as [[= -> -> ->]|[[= -> -> ->]|[]]]; try done; by vm_compute in E.
Qed.
End HalExamples.
