(* ===== verification/Crypto.v ===== *)
(** * Identities, frame signatures and session tokens (axiom-crypto/src/identity.rs, frame_sign.rs)

    Ed25519 is an interface: signatures made with a secret key verify under its
    public key.  Nothing says that other signatures do not; a theorem about
    authenticity names the message whose signature was verified.  Times are
    arguments. *)

From stdpp Require Import base numbers list gmap strings.
From S2P Require Import Prelude Types Codec Text Intent.

(** ** Ed25519 *)

Class Ed25519 := {
  ed_public : list Z → list Z;
  ed_sign : list Z → list Z → list Z;
  ed_valid_key : list Z → bool;
  ed_verify_strict : list Z → list Z → list Z → bool;
  ed_verify : list Z → list Z → list Z → bool;
  ed_public_ok sk : array_ok 32 (ed_public sk);
  ed_sign_ok sk m : array_ok 64 (ed_sign sk m);
  ed_public_valid sk : array_ok 32 sk → ed_valid_key (ed_public sk) = true;
  ed_sign_verifies sk m : array_ok 32 sk → ed_verify_strict (ed_public sk) m (ed_sign sk m) = true;
  ed_strict_implies pk m s : ed_verify_strict pk m s = true → ed_verify pk m s = true
}.

(** A toy instance, for examples: the key itself, and a checksum. *)
Definition ed_reference : Ed25519.
Proof.
  refine {|
    ed_public sk := to_be 32 (from_be sk);
    ed_sign sk m := to_be 64 (from_be (sk ++ m));
    ed_valid_key _ := true;
    ed_verify_strict pk m s := bool_decide (s = to_be 64 (from_be (pk ++ m)));
    ed_verify pk m s := bool_decide (s = to_be 64 (from_be (pk ++ m)))
  |}.
  - intros sk. split; [apply length_to_be|apply to_be_bytes_ok].
  - intros sk m. split; [apply length_to_be|apply to_be_bytes_ok].
  - done.
  - intros sk m [Hl Hb]. apply bool_decide_eq_true_2.
    assert (E : to_be (length sk) (from_be sk) = sk) by (by apply to_be_from_be). rewrite Hl in E. by rewrite E.
  - done.
Defined.

Section Identity.
Context `{Ed25519}.

Record Keypair := mkKeypair { secret_bytes : list Z }.
Definition Keypair_from_bytes (b : list Z) : Keypair := mkKeypair b.
Definition public_key_bytes (k : Keypair) : list Z := ed_public (secret_bytes k).
Definition Keypair_node_id (k : Keypair) : NodeId := public_key_bytes k.
Definition Keypair_sign (k : Keypair) (m : list Z) : Signature := ed_sign (secret_bytes k) m.

(** [PublicKey::from_bytes] followed by [verify]; [NodeId::verify] is the same. *)
Definition verify_key (pk m : list Z) (s : Signature) : bool := ed_valid_key pk && ed_verify_strict pk m s.
Definition NodeId_verify (id : NodeId) (m : list Z) (s : Signature) : bool := verify_key id m s.

Definition keypair_ok (k : Keypair) : Prop := array_ok 32 (secret_bytes k).

Lemma sign_verifies k m : keypair_ok k → verify_key (public_key_bytes k) m (Keypair_sign k m) = true.
Proof.
  intros Hk. unfold verify_key, public_key_bytes, Keypair_sign. by rewrite ed_public_valid, ed_sign_verifies.
Qed.

(** ** Frame signatures *)

Inductive SignError := NoSignatureRequired | EncodingFailed | InvalidTrustLevel.

Definition set_auth (f : Frame) (a : Authentication) : Frame :=
  mkFrame (header f) (trace_id f) (routing f) (fragment_info f) (payload_header f) (payload f) a.

Definition FrameSigner_sign (k : Keypair) (f : Frame) : Frame * outcome SignError unit :=
  match trust_level (header f) with
  | Full | Sig => (set_auth f (AuthSignature (Keypair_sign k (signature_data f))), Ok tt)
  | Compress => (f, Err InvalidTrustLevel)
  | Raw => (set_auth f AuthNone, Err NoSignatureRequired)
  end.

Definition FrameVerifier_verify (f : Frame) : outcome SignError bool :=
  match trust_level (header f) with
  | Full | Sig =>
      match auth f with
      | AuthSignature s => Ok (NodeId_verify (sender_id (header f)) (signature_data f) s)
      | _ => Ok false
      end
  | Compress => Err InvalidTrustLevel
  | Raw => Err NoSignatureRequired
  end.
End Identity.

(** ** Session tokens *)

Section Sessions.
Context `{Blake3}.

Record SessionInfo := mkSessionInfo {
  si_token : SessionToken;
  si_peer_id : NodeId;
  si_created_at : Z;
  si_expires_at : Z;
  frame_count : Z
}.
Definition SessionInfo_new (now : Z) (t : SessionToken) (p : NodeId) (ttl_ms : Z) : SessionInfo :=
  mkSessionInfo t p now (u64_add now ttl_ms) 0.
Definition SessionInfo_is_expired (now : Z) (i : SessionInfo) : bool := si_expires_at i <? now.

Record SessionManager := mkSessionManager { sm_sessions : gmap NodeId SessionInfo }.
Definition SessionManager_new : SessionManager := mkSessionManager ∅.

Definition derive_token (secret : list Z) (peer : NodeId) : SessionToken :=
  take 16 (blake3 (as_bytes (str "AXIOM-SESSION-TOKEN-V1") ++ secret ++ peer)).

Definition create_session (now : Z) (m : SessionManager) (peer : NodeId) (secret : list Z) (ttl_ms : Z) :
    SessionManager * SessionToken :=
  let t := derive_token secret peer in
  (mkSessionManager (<[peer := SessionInfo_new now t peer ttl_ms]> (sm_sessions m)), t).

Definition get_session (now : Z) (m : SessionManager) (peer : NodeId) : option SessionInfo :=
  match sm_sessions m !! peer with
  | Some i => if SessionInfo_is_expired now i then None else Some i
  | None => None
  end.
Definition get_token (now : Z) (m : SessionManager) (peer : NodeId) : option SessionToken :=
  si_token <$> get_session now m peer.

Definition verify_token (now : Z) (m : SessionManager) (peer : NodeId) (t : SessionToken) :
    SessionManager * bool :=
  match sm_sessions m !! peer with
  | None => (m, false)
  | Some i =>
      if SessionInfo_is_expired now i then (mkSessionManager (delete peer (sm_sessions m)), false)
      else if bool_decide (si_token i = t) then
        (mkSessionManager (<[peer := mkSessionInfo (si_token i) (si_peer_id i) (si_created_at i)
                     (si_expires_at i) (frame_count i + 1)]> (sm_sessions m)), true)
      else (m, false)
  end.

Definition SessionManager_cleanup_expired (now : Z) (m : SessionManager) : SessionManager :=
  mkSessionManager (filter (λ ki, SessionInfo_is_expired now ki.2 = false) (sm_sessions m)).
Definition remove_session (m : SessionManager) (peer : NodeId) : SessionManager :=
  mkSessionManager (delete peer (sm_sessions m)).
End Sessions.

(** ** Lemmas *)

Lemma wire_body_auth f a : wire_body (set_auth f a) = wire_body f.
Proof. done. Qed.

Lemma set_ttl_auth t f a : set_ttl t (set_auth f a) = set_auth (set_ttl t f) a.
Proof. by destruct f as [? ? [[]|] ? ? ? ?]. Qed.

Lemma set_ttl_header t f : header (set_ttl t f) = header f.
Proof. by destruct f as [? ? [[]|] ? ? ? ?]. Qed.

Lemma set_ttl_keeps_auth t f : auth (set_ttl t f) = auth f.
Proof. by destruct f as [? ? [[]|] ? ? ? ?]. Qed.

Lemma writable_auth f a : writable f → auth_ok a → writable (set_auth f a).
Proof. intros [[] ? ? ? ?] Ha. by repeat (split; try done). Qed.

(** The signed bytes do not depend on the authentication field. *)
Lemma signature_data_auth f a :
  writable f → auth_ok a → signature_data (set_auth f a) = signature_data f.
Proof.
  intros Hw Ha. rewrite !signature_data_wire by (done || by apply writable_auth).
  by rewrite set_ttl_auth, wire_body_auth.
Qed.

Lemma signature_data_ttl f t : signature_data (set_ttl t f) = signature_data f.
Proof. unfold signature_data. by rewrite set_ttl_set_ttl. Qed.

Section Properties.
Context `{Ed25519}.

(** Frame authentication.  At the signing trust levels a frame signed with its
    sender's key verifies, also after relays changed its hop count; without a
    signature it does not verify; and a frame that verifies carries a signature
    its sender's key accepts for exactly the frame's signed bytes.  At the other
    levels both directions report an error, and signing a raw frame strips its
    authentication. *)
Theorem frame_authentication k f :
  keypair_ok k → writable f →
  (trust_level (header f) = Full ∨ trust_level (header f) = Sig →
     sender_id (header f) = Keypair_node_id k →
     (FrameSigner_sign k f).2 = Ok tt ∧
     ∀ t, FrameVerifier_verify (set_ttl t (FrameSigner_sign k f).1) = Ok true) ∧
  (∀ g, FrameVerifier_verify g = Ok true ↔
     (trust_level (header g) = Full ∨ trust_level (header g) = Sig) ∧
     ∃ s, auth g = AuthSignature s ∧ verify_key (sender_id (header g)) (signature_data g) s = true) ∧
  (trust_level (header f) = Raw → auth (FrameSigner_sign k f).1 = AuthNone ∧
     (FrameSigner_sign k f).2 = Err NoSignatureRequired) ∧
  (trust_level (header f) = Compress → FrameSigner_sign k f = (f, Err InvalidTrustLevel)).
Proof.
  intros Hk Hw. split_and!.
  - intros Ht Hs.
    assert (E : FrameSigner_sign k f = (set_auth f (AuthSignature (Keypair_sign k (signature_data f))), Ok tt))
      by (unfold FrameSigner_sign; by destruct Ht as [-> | ->]).
    rewrite E. split; [done|]. intros t. cbn [fst].
    assert (V : FrameVerifier_verify (set_ttl t (set_auth f (AuthSignature (Keypair_sign k (signature_data f)))))
      = Ok (NodeId_verify (sender_id (header f))
             (signature_data (set_ttl t (set_auth f (AuthSignature (Keypair_sign k (signature_data f))))))
             (Keypair_sign k (signature_data f)))).
    { unfold FrameVerifier_verify. rewrite set_ttl_header, set_ttl_keeps_auth. cbn [set_auth header auth].
      by destruct Ht as [-> | ->]. }
    rewrite V, signature_data_ttl, signature_data_auth; [|done|apply ed_sign_ok].
    rewrite Hs. unfold NodeId_verify. by rewrite sign_verifies.
  - intros g. unfold FrameVerifier_verify, NodeId_verify. destruct (trust_level (header g)), (auth g);
      (split; [intros Hv; first [discriminate Hv|injection Hv as Hv; split; [by auto|by eauto]]|
               intros [Ht (s' & Es & Hv)]; first [discriminate Es|by destruct Ht|injection Es as ->; by rewrite Hv]]).
  - intros Ht. unfold FrameSigner_sign. by rewrite Ht.
  - intros Ht. unfold FrameSigner_sign. by rewrite Ht.
Qed.
End Properties.

Definition sample_keypair : Keypair := mkKeypair (replicate 32 5).
Definition sample_signed : Frame :=
  Frame_new (FrameHeader_new FIntent (replicate 32 5)) PRaw [1; 2; 3].

Lemma sample_signed_encodable : encodable sample_signed.
Proof.
  split; try (vm_compute; split; reflexivity || discriminate); try (vm_compute; done).
  split; vm_compute; repeat split; try done; repeat constructor; done.
Qed.

Lemma frame_authentication_witness :
  @FrameVerifier_verify ed_reference (set_ttl 3 (@FrameSigner_sign ed_reference sample_keypair sample_signed).1)
  = Ok true.
Proof.
  assert (Hk : @keypair_ok sample_keypair) by (apply array_ok_replicate; lia).
  destruct (@frame_authentication ed_reference sample_keypair sample_signed Hk
              (encodable_writable _ sample_signed_encodable)) as [Hs _].
  apply Hs; [left; reflexivity|vm_compute; reflexivity].
Defined.

Section TokenProperties.
Context `{Blake3}.

(** Session tokens.  A manager accepts from a peer exactly the unexpired token it
    stored for that peer, counting the frame and dropping an expired session.  But
    each side derives its token from the other side's identity, so when two
    nodes set up a session with the same secret, the token one of them sends is
    accepted by the other only if the two derived tokens collide. *)
Theorem session_tokens now m peer t :
  ((verify_token now m peer t).2 = true ↔
     ∃ i, sm_sessions m !! peer = Some i ∧ now ≤ si_expires_at i ∧ si_token i = t) ∧
  (∀ i, sm_sessions m !! peer = Some i → si_expires_at i < now → sm_sessions (verify_token now m peer t).1 !! peer = None) ∧
  (∀ a b secret ttl ma mb,
     now + ttl < 2 ^ 64 → 0 ≤ now → 0 ≤ ttl →
     get_token now (create_session now ma b secret ttl).1 b = Some (derive_token secret b) ∧
     ((verify_token now (create_session now mb a secret ttl).1 a (derive_token secret b)).2 = true ↔
        derive_token secret a = derive_token secret b)).
Proof.
  split_and!.
  - unfold verify_token, SessionInfo_is_expired. destruct (sm_sessions m !! peer) as [i|] eqn:E.
    + destruct (Z.ltb_spec (si_expires_at i) now) as [Hx|Hx].
      * split; [done|]. intros (i' & [= <-] & ? & _). lia.
      * case_bool_decide as Ht; split; try done; try (by eauto).
        intros (i' & [= <-] & _ & ?). done.
    + split; [done|]. by intros (i & ? & _).
  - intros i E Hx. unfold verify_token, SessionInfo_is_expired. rewrite E.
    destruct (Z.ltb_spec (si_expires_at i) now); [|lia]. cbn. apply lookup_delete_eq.
  - intros a b secret ttl ma mb Hb Hn Ht.
    assert (Hfresh : ∀ p, SessionInfo_is_expired now (SessionInfo_new now (derive_token secret p) p ttl) = false).
    { intros p. unfold SessionInfo_is_expired, SessionInfo_new. cbn. unfold u64_add.
      rewrite Z.mod_small by lia. apply Z.ltb_ge. lia. }
    split.
    + unfold get_token, get_session, create_session. cbn [fst sm_sessions]. rewrite lookup_insert_eq, Hfresh. done.
    + unfold verify_token, create_session. cbn [fst sm_sessions]. rewrite lookup_insert_eq, Hfresh.
      case_bool_decide as E; cbn in E; by split.
Qed.
End TokenProperties.

Lemma session_tokens_witness :
  (@verify_token 10 (@create_session identity_digest 10 SessionManager_new (replicate 32 1) (replicate 32 9) 50).1
     (replicate 32 1) (@derive_token identity_digest (replicate 32 9) (replicate 32 2))).2 = true
  ↔ @derive_token identity_digest (replicate 32 9) (replicate 32 1)
    = @derive_token identity_digest (replicate 32 9) (replicate 32 2).
Proof.
  destruct (@session_tokens identity_digest 10 SessionManager_new [] []) as (_ & _ & H).
  apply (H (replicate 32 1) (replicate 32 2) (replicate 32 9) 50 SessionManager_new SessionManager_new); lia.
Defined.
