(* ===== verification/Did.v ===== *)
(** * Decentralised identifiers (axiom-crypto/src/did.rs)

    Identifiers and their URL form, the base 58 alphabet that carries a public key, and
    documents.  Both base 58 loops are arithmetic on digit lists, least significant first. *)

From stdpp Require Import base numbers list strings.
From S2P Require Import Prelude Types Codec Text Intent Crypto.

(** ** Base 58 *)

Definition ALPHABET : text := str "123456789ABCDEFGHJKLMNPQRSTUVWXYZabcdefghijkmnopqrstuvwxyz".
Definition digit_char (d : Z) : Z := nth (Z.to_nat d) ALPHABET 0.
Definition char_position (c : Z) : option Z := (λ x, Z.of_nat x.1) <$> list_find (λ a, a = c) ALPHABET.

(** [while carry > 0 { digits.push(carry % b); carry /= b }]; the carry halves at least, so that
    its own value bounds the turns. *)
Fixpoint push_carry (fuel : nat) (b carry : Z) : list Z :=
  match fuel with
  | O => []
  | S fuel => if 0 <? carry then carry mod b :: push_carry fuel b (carry / b) else []
  end.
(** [digits := m * digits + carry] in base [b]. *)
Fixpoint mul_add (b m : Z) (digits : list Z) (carry : Z) : list Z :=
  match digits with
  | [] => push_carry (Z.to_nat carry) b carry
  | d :: digits => (carry + d * m) mod b :: mul_add b m digits ((carry + d * m) / b)
  end.
(** The same loop of the decoder, by masks and shifts. *)
Fixpoint push_bytes (fuel : nat) (carry : Z) : list Z :=
  match fuel with
  | O => []
  | S fuel => if 0 <? carry then Z.land carry 255 :: push_bytes fuel (Z.shiftr carry 8) else []
  end.
Fixpoint mul_add_bytes (bytes : list Z) (carry : Z) : list Z :=
  match bytes with
  | [] => push_bytes (Z.to_nat carry) carry
  | d :: bytes => Z.land (carry + d * 58) 255 :: mul_add_bytes bytes (Z.shiftr (carry + d * 58) 8)
  end.

Fixpoint leading (x : Z) (l : list Z) : nat := match l with y :: l' => if y =? x then S (leading x l') else O | [] => O end.

(** The digits stay below 58 ([base58_digits_ok]), so that indexing the alphabet does not panic. *)
Definition base58_digits (bytes : list Z) : list Z := foldl (λ digits byte, mul_add 58 256 digits byte) [] bytes.
Definition base58_encode (bytes : list Z) : text :=
  match bytes with
  | [] => []
  | _ => replicate (leading 0 bytes) 49 ++ map digit_char (rev (base58_digits bytes))
  end.

Fixpoint decode_digits (bytes : list Z) (s : text) : option (list Z) :=
  match s with
  | [] => Some bytes
  | c :: s => match char_position c with Some i => decode_digits (mul_add_bytes bytes i) s | None => None end
  end.
Definition base58_decode (s : text) : option (list Z) :=
  match s with
  | [] => None
  | _ =>
      match decode_digits [] s with
      | Some bytes =>
          let bytes := rev (bytes ++ replicate (leading 49 s) 0) in
          if (length bytes =? 32)%nat then Some bytes else None
      | None => None
      end
  end.

(** ** Identifiers *)

Inductive DidMethod := DM_Axiom | DM_Web | DM_Key.
#[export] Instance DidMethod_eq_dec : EqDecision DidMethod.
Proof. solve_decision. Defined.
Definition DidMethod_as_str (m : DidMethod) : text := match m with DM_Axiom => str "axiom" | DM_Web => str "web" | DM_Key => str "key" end.
Definition DidMethod_from_str (s : text) : option DidMethod :=
  if decide (s = str "axiom") then Some DM_Axiom
  else if decide (s = str "web") then Some DM_Web
  else if decide (s = str "key") then Some DM_Key
  else None.
Inductive DidError := DE_InvalidFormat | DE_UnsupportedMethod | DE_ResolutionFailed | DE_NotFound | DE_Deactivated.
Record Did := mkDid { did_method : DidMethod; did_identifier : text; did_path : option text; did_query : option text; did_fragment : option text }.

(** [s.replace(pat, rep)] for a non-empty pattern: occurrences from the left, without overlap. *)
Fixpoint replace_from (pat rep s : text) (skip : nat) : text :=
  match s, skip with
  | [], _ => []
  | _ :: s', S k => replace_from pat rep s' k
  | c :: s', O => if starts_with s pat then rep ++ replace_from pat rep s' (pred (length pat)) else c :: replace_from pat rep s' O
  end.
Definition replace_text (pat rep s : text) : text := replace_from pat rep s O.

Definition Did_from_public_key (k : list Z) : Did := mkDid DM_Axiom (base58_encode k) None None None.
Definition Did_from_keypair `{Ed25519} (k : Keypair) : Did := Did_from_public_key (public_key_bytes k).
Definition Did_web (domain : text) : Did :=
  mkDid DM_Web (replace_text (str "https://") [] (replace_text (str "/") (str ":") domain)) None None None.

(** The text before the first character that satisfies [p], and the rest from it on. *)
Fixpoint cut_at (p : Z → bool) (s : text) : text * text :=
  match s with
  | [] => ([], [])
  | c :: s' => if p c then ([], s) else let '(a, b) := cut_at p s' in (c :: a, b)
  end.
Definition slash : Z := 47.
Definition question : Z := 63.
Definition hash : Z := 35.
Definition ends_identifier (c : Z) : bool := (c =? slash) || (c =? question) || (c =? hash).
Definition ends_path (c : Z) : bool := (c =? question) || (c =? hash).
Definition ends_query (c : Z) : bool := c =? hash.
Definition starts_query (c : Z) : bool := c =? question.

(** What follows a cut, without the character it starts with. *)
Definition after (rest : text) : option text := match rest with _ :: t => Some t | [] => None end.
Definition parse_path (rest : text) : option text * text :=
  if starts_with rest [slash] then let '(p, cursor) := cut_at ends_path rest in (Some p, cursor) else (None, rest).
Definition parse_components (m : DidMethod) (identifier rest : text) : Did :=
  let '(path, cursor) := parse_path rest in
  let '(before, from) := cut_at ends_query cursor in
  mkDid m identifier path (after (cut_at starts_query before).2) (after from).
Definition Did_parse (s : text) : outcome DidError Did :=
  if negb (starts_with s (str "did:")) then Err DE_InvalidFormat
  else
    match split_once 58 (drop 4 s) with
    | None => Err DE_InvalidFormat
    | Some (m, rest) =>
        match DidMethod_from_str m with
        | None => Err DE_UnsupportedMethod
        | Some m => let '(identifier, rest) := cut_at ends_identifier rest in Ok (parse_components m identifier rest)
        end
    end.

Definition with_mark (mark : list Z) (o : option text) : text := match o with Some t => mark ++ t | None => [] end.
Definition Did_to_string (d : Did) : text :=
  str "did:" ++ DidMethod_as_str (did_method d) ++ str ":" ++ did_identifier d ++ with_mark [] (did_path d) ++
  with_mark [question] (did_query d) ++ with_mark [hash] (did_fragment d).
Definition Did_public_key_bytes (d : Did) : option (list Z) :=
  match did_method d with DM_Axiom | DM_Key => base58_decode (did_identifier d) | DM_Web => None end.
Definition document_url (d : Did) : option text :=
  match did_method d with
  | DM_Web => Some (str "https://" ++ replace_text (str ":") (str "/") (did_identifier d) ++ str "/.well-known/did.json")
  | DM_Axiom | DM_Key => None
  end.

(** ** Documents *)

Inductive VerificationMethodType := VM_Ed25519 | VM_X25519 | VM_JsonWebKey.
Definition VerificationMethodType_as_str (t : VerificationMethodType) : text :=
  match t with
  | VM_Ed25519 => str "Ed25519VerificationKey2020"
  | VM_X25519 => str "X25519KeyAgreementKey2020"
  | VM_JsonWebKey => str "JsonWebKey2020"
  end.
Inductive PublicKeyFormat := PK_Multibase (t : text) | PK_Base58 (t : text) | PK_Jwk (t : text).
Record VerificationMethod := mkVerificationMethod { vm_id : text; vm_method_type : VerificationMethodType; vm_controller : text; vm_public_key : PublicKeyFormat }.
Record ServiceEndpoint := mkService { se_id : text; service_type : text; service_endpoint : text }.
Record DidDocument := mkDocument {
  doc_id : Did; also_known_as : list text; doc_controller : list Did; verification_method : list VerificationMethod;
  authentication : list text; assertion_method : list text; key_agreement : list text; doc_service : list ServiceEndpoint
}.
Definition DidDocument_new (id : Did) : DidDocument := mkDocument id [] [] [] [] [] [] [].
Definition DidDocument_from_keypair `{Ed25519} (k : Keypair) : DidDocument :=
  let d := Did_from_keypair k in
  let id := Did_to_string d ++ str "#key-1" in
  mkDocument d [] [] [mkVerificationMethod id VM_Ed25519 (Did_to_string d) (PK_Multibase (base58_encode (public_key_bytes k)))] [id] [id] [] [].
Definition add_service (doc : DidDocument) (id ty endpoint : text) : DidDocument :=
  mkDocument (doc_id doc) (also_known_as doc) (doc_controller doc) (verification_method doc) (authentication doc) (assertion_method doc)
    (key_agreement doc) (doc_service doc ++ [mkService (Did_to_string (doc_id doc) ++ [hash] ++ id) ty endpoint]).
Definition primary_verification_method (doc : DidDocument) : option VerificationMethod := head (verification_method doc).

(** [to_json]: the values go in as they are, between double quotes. *)
Definition dq : text := [34].
Definition json_field (name value : text) : text := dq ++ name ++ dq ++ str ":" ++ dq ++ value ++ dq.
Definition json_method (v : VerificationMethod) : text :=
  str "{" ++ json_field (str "id") (vm_id v) ++ str "," ++ json_field (str "type") (VerificationMethodType_as_str (vm_method_type v)) ++ str "," ++
  json_field (str "controller") (vm_controller v) ++ str "}".
Definition json_service (s : ServiceEndpoint) : text :=
  str "{" ++ json_field (str "id") (se_id s) ++ str "," ++ json_field (str "type") (service_type s) ++ str "," ++
  json_field (str "serviceEndpoint") (service_endpoint s) ++ str "}".
Definition to_json (doc : DidDocument) : text :=
  str "{" ++ json_field (str "@context") (str "https://www.w3.org/ns/did/v1") ++ str "," ++ json_field (str "id") (Did_to_string (doc_id doc)) ++
  str "," ++ dq ++ str "verificationMethod" ++ dq ++ str ":[" ++ join (str ",") (map json_method (verification_method doc)) ++
  str "]," ++ dq ++ str "service" ++ dq ++ str ":[" ++ join (str ",") (map json_service (doc_service doc)) ++ str "]}".

(** ** Base 58 carries numbers *)

(** The number a digit list stands for, and the digit lists without a leading zero. *)
Definition digits_value (b : Z) (ds : list Z) : Z := foldr (λ d acc, d + b * acc) 0 ds.
Fixpoint canonical (b : Z) (ds : list Z) : Prop :=
  match ds with
  | [] => True
  | [d] => 0 < d < b
  | d :: ds => 0 ≤ d < b ∧ canonical b ds
  end.
Lemma canonical_cons b d ds : canonical b (d :: ds) ↔ 0 ≤ d < b ∧ canonical b ds ∧ (ds = [] → 0 < d).
Proof. destruct ds as [|e ds]; cbn; [|naive_solver]. split; [intros; split_and!; (done || lia)|intros (? & _ & H); specialize (H eq_refl); lia]. Qed.

Section Digits.
Context (b : Z) (Hb : 2 ≤ b).

Lemma digits_value_nonneg ds : canonical b ds → 0 ≤ digits_value b ds ∧ (ds ≠ [] → 0 < digits_value b ds).
Proof.
  induction ds as [|d ds IH]; [cbn; intros; split; [lia|done]|]. rewrite canonical_cons. intros (Hd & Hc & Hl). destruct (IH Hc) as [H1 H2].
  cbn [digits_value foldr]. fold (digits_value b ds). destruct ds as [|e ds]; [specialize (Hl eq_refl); cbn; split; [lia|intros; lia]|].
  assert (0 < digits_value b (e :: ds)) by (by apply H2). split; [nia|intros; nia].
Qed.

(** A number has one canonical digit list. *)
Lemma canonical_unique ds ds' : canonical b ds → canonical b ds' → digits_value b ds = digits_value b ds' → ds = ds'.
Proof.
  revert ds'. induction ds as [|d ds IH]; intros [|d' ds']; [done|..].
  - intros _ H E. apply digits_value_nonneg in H as [_ H]. specialize (H ltac:(done)). change (digits_value b []) with 0 in E. lia.
  - intros H _ E. apply digits_value_nonneg in H as [_ H]. specialize (H ltac:(done)). change (digits_value b []) with 0 in E. lia.
  - rewrite !canonical_cons. intros (Hd & Hc & _) (Hd' & Hc' & _). cbn [digits_value foldr]. fold (digits_value b ds) (digits_value b ds'). intros E.
    assert (d = d' ∧ digits_value b ds = digits_value b ds') as [-> Ev].
    { rewrite (Z.mul_comm b (digits_value b ds)), (Z.mul_comm b (digits_value b ds')) in E.
      pose proof (Z.mod_add d (digits_value b ds) b ltac:(lia)) as M. pose proof (Z.mod_add d' (digits_value b ds') b ltac:(lia)) as M'.
      rewrite E, M', !Z.mod_small in M by done. split; [done|]. subst d'. nia. }
    f_equal. by apply IH.
Qed.

Lemma push_carry_ok fuel c : 0 ≤ c → (Z.to_nat c <= fuel)%nat →
  canonical b (push_carry fuel b c) ∧ digits_value b (push_carry fuel b c) = c ∧ (0 < c → push_carry fuel b c ≠ []).
Proof.
  revert c. induction fuel as [|fuel IH]; intros c Hc Hf; cbn [push_carry].
  - assert (c = 0) as -> by lia. split_and!; [done|done|lia].
  - destruct (Z.ltb_spec 0 c); [|split_and!; [done|cbn; lia|lia]]. pose proof (Z.mod_pos_bound c b ltac:(lia)) as Hm. pose proof (Z.div_mod c b ltac:(lia)) as Ed.
    assert (0 ≤ c / b < c) by (split; [apply Z.div_pos|apply Z.div_lt]; lia).
    destruct (IH (c / b) ltac:(lia) ltac:(lia)) as (H1 & H2 & H3). split_and!; [|cbn [digits_value foldr]; fold (digits_value b (push_carry fuel b (c / b))); lia|done].
    apply canonical_cons. split; [done|]. split; [done|]. intros E. rewrite E in H2. cbn in H2. destruct (Z.ltb_spec 0 (c / b)); [by destruct H3|]. nia.
Qed.
Lemma mul_add_ok m ds c : 0 < m → 0 ≤ c → canonical b ds →
  canonical b (mul_add b m ds c) ∧ digits_value b (mul_add b m ds c) = m * digits_value b ds + c ∧ (mul_add b m ds c = [] → ds = [] ∧ c = 0).
Proof.
  intros Hm. revert c. induction ds as [|d ds IH]; intros c Hc Hds; cbn [mul_add].
  - destruct (push_carry_ok (Z.to_nat c) c Hc ltac:(lia)) as (H1 & H2 & H3). split_and!; [done|rewrite H2; cbn; lia|].
    intros E. split; [done|]. destruct (Z.ltb_spec 0 c); [by destruct H3|lia].
  - apply canonical_cons in Hds as (Hd & Hds & Hl). assert (0 ≤ c + d * m) by nia.
    pose proof (Z.mod_pos_bound (c + d * m) b ltac:(lia)). pose proof (Z.div_mod (c + d * m) b ltac:(lia)).
    assert (0 ≤ (c + d * m) / b) by (apply Z.div_pos; lia). destruct (IH _ ltac:(done) Hds) as (I1 & I2 & I3).
    split_and!; [|cbn [digits_value foldr]; fold (digits_value b ds) (digits_value b (mul_add b m ds ((c + d * m) / b))); nia|done].
    apply canonical_cons. split; [done|]. split; [done|]. intros [-> E0]%I3. specialize (Hl eq_refl). nia.
Qed.
End Digits.

Lemma push_bytes_eq fuel c : push_bytes fuel c = push_carry fuel 256 c.
Proof. revert c. induction fuel as [|fuel IH]; intros c; cbn [push_bytes push_carry]; [done|]. rewrite land_255, (shiftr_div c 8) by lia. by rewrite IH. Qed.
Lemma mul_add_bytes_eq ds c : mul_add_bytes ds c = mul_add 256 58 ds c.
Proof.
  revert c. induction ds as [|d ds IH]; intros c; cbn [mul_add_bytes mul_add]; [apply push_bytes_eq|].
  rewrite land_255, (shiftr_div _ 8) by lia. by rewrite IH.
Qed.

(** ** Leading zeros *)

Lemma leading_split x l : l = replicate (leading x l) x ++ drop (leading x l) l ∧ leading x (drop (leading x l) l) = O.
Proof.
  induction l as [|y l [IH1 IH2]]; [done|]. cbn [leading]. destruct (Z.eqb_spec y x) as [->|Hn]; cbn [replicate drop app].
  - split; [by f_equal|done].
  - split; [done|]. cbn [leading]. by rewrite (proj2 (Z.eqb_neq y x)).
Qed.
Lemma leading_replicate x n l : leading x (replicate n x ++ l) = (n + leading x l)%nat.
Proof. induction n as [|n IH]; [done|]. cbn [replicate app leading]. by rewrite Z.eqb_refl, IH. Qed.
Lemma leading_snoc x l d : leading x (l ++ [d]) = O ↔ leading x l = O ∧ (l = [] → d ≠ x).
Proof.
  destruct l as [|y l]; cbn [app leading].
  - destruct (Z.eqb_spec d x); split; [done|intros [_ H]; by destruct (H eq_refl)|by split|done].
  - destruct (y =? x); split; [done|by intros [? _]|by split|by intros [? _]].
Qed.
Lemma canonical_leading b ds : canonical b ds ↔ Forall (λ d, 0 ≤ d < b) ds ∧ leading 0 (rev ds) = O.
Proof.
  induction ds as [|d ds IH]; [split; [by split; [constructor|]|done]|]. rewrite canonical_cons, IH, Forall_cons. cbn [rev].
  rewrite leading_snoc. split.
  - intros (Hd & [Hf Hl] & H). split; [done|]. split; [done|]. intros E. assert (ds = []) as -> by (destruct ds as [|e ds]; [done|]; cbn in E; by destruct (rev ds)). specialize (H eq_refl). lia.
  - intros ((Hd & Hf) & Hl & H). split; [done|]. split; [done|]. intros ->. specialize (H eq_refl). lia.
Qed.
Lemma digits_value_zeros b ds n : digits_value b (ds ++ replicate n 0) = digits_value b ds.
Proof.
  induction ds as [|d ds IH]; cbn [app digits_value foldr].
  - induction n as [|n IHn]; [done|]. cbn [replicate foldr]. rewrite IHn. lia.
  - fold (digits_value b (ds ++ replicate n 0)) (digits_value b ds). by rewrite IH.
Qed.

(** What a run over digits, most significant first, computes. *)
Lemma foldl_mul_add b m l ds : 2 ≤ b → 0 < m → Forall (λ x, 0 ≤ x) l → canonical b ds →
  canonical b (foldl (mul_add b m) ds l) ∧ digits_value b (foldl (mul_add b m) ds l) = foldl (λ acc x, x + m * acc) (digits_value b ds) l.
Proof.
  intros Hb Hm Hl. revert ds. induction Hl as [|x l Hx _ IH]; intros ds Hds; [done|]. cbn [foldl].
  destruct (mul_add_ok b Hb m ds x Hm Hx Hds) as (H1 & H2 & _). destruct (IH _ H1) as [H3 H4]. split; [done|]. rewrite H4, H2. f_equal. lia.
Qed.
Lemma digits_value_rev b l : digits_value b (rev l) = foldl (λ acc x, x + b * acc) 0 l.
Proof.
  induction l as [|x l IH] using rev_ind; [done|]. rewrite rev_app_distr, foldl_app. cbn. by rewrite <- IH.
Qed.

(** The digits of [l] read in base [m] and written in base [b], up to leading zeros. *)
Lemma convert_exact b m l ds : 2 ≤ b → 2 ≤ m → Forall (λ x, 0 ≤ x < m) l → canonical b ds →
  digits_value b ds = digits_value m (rev l) → foldl (mul_add b m) [] l = ds.
Proof.
  intros Hb Hm Hl Hds E. destruct (foldl_mul_add b m l [] Hb ltac:(lia)) as [H1 H2]; [by eapply Forall_impl; [exact Hl|]; cbn; intros; lia|done|].
  apply (canonical_unique b Hb); [done..|]. by rewrite H2, E, digits_value_rev.
Qed.

(** ** The alphabet *)

Lemma char_position_digit d : 0 ≤ d < 58 → char_position (digit_char d) = Some d.
Proof. revert d. by_enumeration 58%nat. Qed.
Lemma char_position_Some c i : char_position c = Some i → 0 ≤ i < 58 ∧ c = digit_char i.
Proof.
  unfold char_position. rewrite fmap_Some. intros ([n a] & Hf & ->). apply list_find_Some in Hf as (Hn & -> & _). cbn [fst].
  apply lookup_lt_Some in Hn as Hl. change (length ALPHABET) with 58%nat in Hl. split; [lia|]. unfold digit_char. rewrite Nat2Z.id.
  by rewrite (nth_lookup_Some _ _ _ _ Hn).
Qed.
Lemma digit_char_one d : 0 ≤ d < 58 → (digit_char d =? 49) = (d =? 0).
Proof. revert d. by_enumeration 58%nat. Qed.
Lemma leading_digits l : Forall (λ d, 0 ≤ d < 58) l → leading 49 (map digit_char l) = leading 0 l.
Proof. induction 1 as [|d l Hd _ IH]; [done|]. cbn [map leading]. by rewrite digit_char_one, IH. Qed.

Lemma decode_digits_spec s bs r :
  decode_digits bs s = Some r ↔ ∃ l, Forall (λ d, 0 ≤ d < 58) l ∧ s = map digit_char l ∧ r = foldl (mul_add 256 58) bs l.
Proof.
  revert bs. induction s as [|c s IH]; intros bs; cbn [decode_digits].
  - split; [intros [= ->]; by exists []|]. intros (l & _ & E & ->). by destruct l.
  - destruct (char_position c) as [i|] eqn:Ei.
    + apply char_position_Some in Ei as [Hi ->]. rewrite mul_add_bytes_eq, IH. split.
      * intros (l & Hl & -> & ->). exists (i :: l). split; [by constructor|done].
      * intros (l & Hl & E & ->). destruct l as [|j l]; [done|]. cbn [map] in E. injection E as Ej ->. apply Forall_cons in Hl as [Hj Hl].
        assert (i = j) as -> by (apply char_position_digit in Hi; apply char_position_digit in Hj; congruence). by exists l.
    + split; [done|]. intros (l & Hl & E & _). destruct l as [|j l]; [done|]. cbn [map] in E. injection E as -> _. apply Forall_cons in Hl as [Hj _].
      by rewrite char_position_digit in Ei.
Qed.

Lemma base58_digits_ok bytes : bytes_ok bytes →
  canonical 58 (base58_digits bytes) ∧ digits_value 58 (base58_digits bytes) = digits_value 256 (rev bytes) ∧ Forall (λ d, 0 ≤ d < 58) (base58_digits bytes).
Proof.
  intros Hb. destruct (foldl_mul_add 58 256 bytes [] ltac:(lia) ltac:(lia)) as [H1 H2]; [by eapply Forall_impl; [exact Hb|]; intros ? [? ?]|done|].
  change (base58_digits bytes) with (foldl (mul_add 58 256) [] bytes). split; [done|]. rewrite H2, digits_value_rev. split; [done|]. by apply canonical_leading in H1 as [? _].
Qed.

Lemma rev_replicate {A} n (x : A) : rev (replicate n x) = replicate n x.
Proof.
  induction n as [|n IH]; [done|]. cbn [replicate rev]. rewrite IH. clear. induction n as [|n IH]; [done|]. cbn. by rewrite IH.
Qed.
Lemma map_ones z l : map digit_char (replicate z 0 ++ l) = replicate z 49 ++ map digit_char l.
Proof. induction z as [|z IH]; [done|]. cbn [replicate app map]. by rewrite IH. Qed.

(** Base 58 is a bijection between keys and the texts that decode. *)
Lemma base58_decode_sound s k : base58_decode s = Some k → array_ok 32 k ∧ base58_encode k = s.
Proof.
  intros E. assert (Hs : ∃ r, decode_digits [] s = Some r ∧ length (rev (r ++ replicate (leading 49 s) 0)) = 32%nat ∧ k = rev (r ++ replicate (leading 49 s) 0)).
  { unfold base58_decode in E. destruct s; [done|]. destruct (decode_digits [] _) as [r|]; [|done]. exists r. split; [done|].
    destruct (Nat.eqb_spec (length (rev (r ++ replicate (leading 49 (z :: s)) 0))) 32); [|done]. by injection E as <-. }
  destruct Hs as (r & (l & Hl & -> & Er)%decode_digits_spec & Hlen & ->). clear E. rewrite leading_digits in * by done.
  destruct (foldl_mul_add 256 58 l [] ltac:(lia) ltac:(lia)) as [Hc Hv]; [by eapply Forall_impl; [exact Hl|]; cbn; intros; lia|done|].
  rewrite <- Er in Hc, Hv. change (digits_value 256 []) with 0 in Hv. rewrite <- digits_value_rev in Hv.
  destruct (leading_split 0 l) as [El Ez]. set (z := leading 0 l) in *. set (tl := drop z l) in *.
  assert (Htl : Forall (λ d, 0 ≤ d < 58) tl) by (by apply Forall_drop).
  assert (Hrev : canonical 58 (rev tl)) by (apply canonical_leading; rewrite rev_involutive; split; [by apply Forall_rev|done]).
  pose proof (proj1 (canonical_leading 256 r) Hc) as [Hr Hz].
  rewrite rev_app_distr, rev_replicate in *. split.
  { split; [done|]. apply Forall_app. split; [by apply Forall_replicate|]. apply Forall_rev. exact Hr. }
  assert (Ed : base58_digits (replicate z 0 ++ rev r) = rev tl).
  { apply convert_exact; [lia|lia| |done|].
    - apply Forall_app. split; [apply Forall_replicate; lia|]. by apply Forall_rev.
    - rewrite rev_app_distr, rev_involutive, rev_replicate, digits_value_zeros, Hv, El, rev_app_distr, rev_replicate. by rewrite digits_value_zeros. }
  unfold base58_encode. destruct (replicate z 0 ++ rev r) eqn:E; [done|]. rewrite Ed, <- E, rev_involutive, leading_replicate, Hz, Nat.add_0_r.
  by rewrite El, map_ones.
Qed.
Lemma base58_decode_encode k : array_ok 32 k → base58_decode (base58_encode k) = Some k.
Proof.
  intros [Hlen Hb]. destruct (base58_digits_ok k Hb) as (Hc & Hv & Hd). destruct (leading_split 0 k) as [Ek Ez].
  set (z := leading 0 k) in *. set (tl := drop z k) in *. set (D := base58_digits k) in *.
  assert (Es : base58_encode k = map digit_char (replicate z 0 ++ rev D)).
  { unfold base58_encode. destruct k; [done|]. by rewrite map_ones. }
  assert (Hl : Forall (λ d, 0 ≤ d < 58) (replicate z 0 ++ rev D)) by (apply Forall_app; split; [apply Forall_replicate; lia|by apply Forall_rev]).
  assert (Hdec : decode_digits [] (base58_encode k) = Some (rev tl)).
  { apply decode_digits_spec. exists (replicate z 0 ++ rev D). split; [done|]. split; [done|]. symmetry. apply convert_exact; [lia|lia|done| |].
    - apply canonical_leading. rewrite rev_involutive. split; [|done]. apply Forall_rev. apply (Forall_drop _ z) in Hb. exact Hb.
    - rewrite rev_app_distr, rev_involutive, rev_replicate, digits_value_zeros, Hv, Ek, rev_app_distr, rev_replicate. by rewrite digits_value_zeros. }
  assert (Hlead : leading 49 (base58_encode k) = z).
  { rewrite Es, leading_digits by done. rewrite leading_replicate. apply canonical_leading in Hc as [_ ->]. lia. }
  unfold base58_decode. destruct (base58_encode k) eqn:E; [|rewrite Hdec, Hlead, rev_app_distr, rev_involutive, rev_replicate, <- Ek, Hlen; done].
  injection Hdec as Hdec. apply (f_equal (@rev Z)) in Hdec. rewrite rev_involutive in Hdec. cbn in Hdec, Hlead.
  rewrite <- Hlead, <- Hdec in Ek. by rewrite Ek in Hlen.
Qed.

(** ** The URL form *)

Lemma cut_at_spec p s a b : cut_at p s = (a, b) ↔ s = a ++ b ∧ Forall (λ c, p c = false) a ∧ match b with [] => True | c :: _ => p c = true end.
Proof.
  revert a b. induction s as [|c s IH]; intros a b; cbn [cut_at].
  - split; [intros [= <- <-]; by repeat split|]. intros (E & _). by destruct a, b.
  - destruct (p c) eqn:Ec.
    + split; [intros [= <- <-]; by repeat split|]. intros (E & Ha & Hb). destruct a as [|x a]; [cbn in E; by subst b|]. injection E as -> ->. apply Forall_cons in Ha as [? _]. congruence.
    + destruct (cut_at p s) as [a' b'] eqn:Es. destruct (proj1 (IH a' b') eq_refl) as (-> & Ha & Hb). split.
      * intros [= <- <-]. split; [done|]. split; [by constructor|done].
      * intros (E & Ha2 & Hb2). destruct a as [|x a]; [cbn in E; subst b; congruence|]. injection E as -> E. apply Forall_cons in Ha2 as [_ Ha2].
        assert (Ep : (a', b') = (a, b)) by (by apply IH). by injection Ep as -> ->.
Qed.
Lemma cut_at_app p a b : Forall (λ c, p c = false) a → match b with [] => True | c :: _ => p c = true end → cut_at p (a ++ b) = (a, b).
Proof. intros Ha Hb. by apply cut_at_spec. Qed.

(** The identifiers the text form can carry. *)
Record did_ok (d : Did) : Prop := {
  dok_identifier : Forall (λ c, ends_identifier c = false) (did_identifier d);
  dok_path : match did_path d with Some p => (∃ t, p = slash :: t) ∧ Forall (λ c, ends_path c = false) p | None => True end;
  dok_query : match did_query d with Some q => Forall (λ c, ends_query c = false) q | None => True end
}.

Lemma starts_with_char c s x : starts_with (c :: s) [x] = (x =? c).
Proof. cbn. destruct s; by rewrite andb_true_r. Qed.

(** What comes after the identifier, and its parts. *)
Definition components (path query fragment : option text) : text := with_mark [] path ++ with_mark [question] query ++ with_mark [hash] fragment.
Lemma parse_components_print m i path query fragment :
  did_ok (mkDid m i path query fragment) → parse_components m i (components path query fragment) = mkDid m i path query fragment.
Proof.
  intros [_ Hp Hq]. cbn [did_path did_query] in *. unfold parse_components.
  assert (E1 : parse_path (components path query fragment) = (path, with_mark [question] query ++ with_mark [hash] fragment)).
  { unfold parse_path, components. destruct path as [p|].
    - destruct Hp as [[t ->] Hp]. cbn [with_mark app]. rewrite starts_with_char, Z.eqb_refl.
      change (slash :: t ++ ?r) with ((slash :: t) ++ r). rewrite cut_at_app; [done|done|]. by destruct query, fragment.
    - cbn [with_mark app]. by destruct query as [q|], fragment as [f|]. }
  rewrite E1. assert (E2 : cut_at ends_query (with_mark [question] query ++ with_mark [hash] fragment) = (with_mark [question] query, with_mark [hash] fragment)).
  { apply cut_at_app; [|by destruct fragment]. destruct query as [q|]; [by constructor|done]. }
  rewrite E2. destruct query as [q|], fragment as [f|]; reflexivity.
Qed.

Lemma parse_components_inv m i rest : match rest with [] => True | c :: _ => ends_identifier c = true end →
  Forall (λ c, ends_identifier c = false) i →
  did_ok (parse_components m i rest) ∧ Did_to_string (parse_components m i rest) = str "did:" ++ DidMethod_as_str m ++ str ":" ++ i ++ rest.
Proof.
  intros Hr Hi. unfold parse_components. assert (Hpath : ∃ path cursor, parse_path rest = (path, cursor) ∧ rest = with_mark [] path ++ cursor ∧
    (match path with Some p => (∃ t, p = slash :: t) ∧ Forall (λ c, ends_path c = false) p | None => True end) ∧
    match cursor with [] => True | c :: _ => ends_path c = true end).
  { unfold parse_path. destruct rest as [|c rest]; [by exists None, []|]. rewrite starts_with_char. destruct (Z.eqb_spec slash c) as [<-|Hc].
    - destruct (cut_at ends_path (slash :: rest)) as [p cursor] eqn:Ec. apply cut_at_spec in Ec as (E & Hp & Hcur). exists (Some p), cursor. cbn [with_mark app].
      split_and!; [done|done| |done|done]. destruct p as [|x p]; [cbn in E; by rewrite <- E in Hcur|]. injection E as <- _. by exists p.
    - exists None, (c :: rest). split_and!; [done|done|done|]. unfold ends_identifier in Hr. unfold ends_path. destruct (Z.eqb_spec c slash); [congruence|done]. }
  destruct Hpath as (path & cursor & -> & -> & Hp & Hcur). destruct (cut_at ends_query cursor) as [before from] eqn:Ef.
  apply cut_at_spec in Ef as (-> & Hb & Hf). destruct (cut_at starts_query before) as [b1 b2] eqn:Eq. apply cut_at_spec in Eq as (-> & Hb1 & Hb2). cbn [snd].
  assert (b1 = []) as ->.
  { destruct b1 as [|x b1]; [done|]. cbn in Hcur. apply Forall_cons in Hb as [Hx _]. apply Forall_cons in Hb1 as [Hx1 _].
    unfold ends_path, ends_query, starts_query in *. by rewrite Hx, Hx1 in Hcur. }
  cbn [app] in *. split.
  - split; cbn [did_identifier did_path did_query]; [done|done|]. destruct b2 as [|x q]; [done|]. by apply Forall_cons in Hb as [_ ?].
  - unfold Did_to_string. cbn [did_method did_identifier did_path did_query did_fragment]. do 5 f_equal.
    assert (Eb : b2 = with_mark [question] (after b2)). { destruct b2 as [|x q]; [done|]. unfold starts_query in Hb2. apply Z.eqb_eq in Hb2 as ->. done. }
    assert (Efr : from = with_mark [hash] (after from)). { destruct from as [|x f]; [done|]. unfold ends_query in Hf. apply Z.eqb_eq in Hf as ->. done. }
    by rewrite <- Eb, <- Efr.
Qed.

Lemma DidMethod_from_as m : DidMethod_from_str (DidMethod_as_str m) = Some m.
Proof. by destruct m. Qed.
Lemma DidMethod_from_Some s m : DidMethod_from_str s = Some m → s = DidMethod_as_str m.
Proof. unfold DidMethod_from_str. repeat case_decide; intros [= <-]; done. Qed.

Lemma did_parse_exact s d : Did_parse s = Ok d ↔ did_ok d ∧ Did_to_string d = s.
Proof.
  unfold Did_parse. split.
  - destruct (starts_with s (str "did:")) eqn:Es; [|done]. cbn [negb]. apply starts_with_app in Es as [t ->].
    change (drop 4 (str "did:" ++ t)) with t. destruct (split_once 58 t) as [[m rest]|] eqn:Et; [|done]. apply split_once_Some in Et as [-> _].
    destruct (DidMethod_from_str m) as [m'|] eqn:Em; [|done]. apply DidMethod_from_Some in Em as ->.
    destruct (cut_at ends_identifier rest) as [i r] eqn:Ec. apply cut_at_spec in Ec as (-> & Hi & Hr). intros [= <-].
    destruct (parse_components_inv m' i r Hr Hi) as [H1 H2]. split; [done|]. rewrite H2. done.
  - intros [Hd <-]. destruct d as [m i path query fragment]. unfold Did_to_string. cbn [did_method did_identifier did_path did_query did_fragment].
    rewrite (proj2 (starts_with_app _ _)) by (by eexists). cbn [negb].
    change (drop 4 (str "did:" ++ ?t)) with t.
    rewrite (proj2 (split_once_Some 58 _ (DidMethod_as_str m) (i ++ components path query fragment))).
    + rewrite DidMethod_from_as, cut_at_app; [by rewrite parse_components_print|apply Hd|]. unfold components.
      destruct path as [p|]; [destruct (dok_path _ Hd) as [[t ->] _]; done|]. by destruct query, fragment.
    + split; [done|]. apply (bool_decide_unpack _). by destruct m.
Qed.

(** Identifiers come back.  Parsing accepts exactly the texts of well-formed identifiers and returns the one that prints to
    the text; base 58 is a bijection between 32-byte keys and the texts that decode; and so
    the identifier of a key, printed and parsed, gives the key. *)
Theorem did_roundtrip :
  (∀ s d, Did_parse s = Ok d ↔ did_ok d ∧ Did_to_string d = s) ∧
  (∀ s k, base58_decode s = Some k ↔ array_ok 32 k ∧ base58_encode k = s) ∧
  (∀ k, array_ok 32 k → ∃ d, Did_parse (Did_to_string (Did_from_public_key k)) = Ok d ∧ Did_public_key_bytes d = Some k).
Proof.
  split; [exact did_parse_exact|]. split.
  - intros s k. split; [apply base58_decode_sound|]. intros [Hk <-]. by apply base58_decode_encode.
  - intros k Hk. exists (Did_from_public_key k). split; [|by apply base58_decode_encode]. apply did_parse_exact. split; [|done].
    split; [|done..]. cbn [Did_from_public_key did_identifier]. pose proof (base58_digits_ok k (proj2 Hk)) as (_ & _ & Hd).
    unfold base58_encode. destruct k as [|x k]; [done|]. apply Forall_app. split; [by apply Forall_replicate|].
    apply Forall_fmap, Forall_rev. eapply Forall_impl; [exact Hd|]. cbn. intros d. revert d. by_enumeration 58%nat.
Qed.

(** ** Examples *)

Example hash_before_question : Did_parse (str "did:web:example.com/p#f?x") = Ok (mkDid DM_Web (str "example.com") (Some (str "/p")) None (Some (str "f?x"))).
Proof. reflexivity. Qed.

(** [web] replaces the slashes first, so that it never finds the scheme it means to remove, and the
    address it leads to is not the one that was given. *)
Example web_scheme_kept : did_identifier (Did_web (str "https://example.com")) = str "https:::example.com" ∧
  document_url (Did_web (str "https://example.com")) = Some (str "https://https///example.com/.well-known/did.json").
Proof. split; reflexivity. Qed.

(** The document of a key does not contain the key, and nothing in it is escaped. *)
Lemma document_omits_key `{Ed25519} k : to_json (DidDocument_from_keypair k) =
  to_json (mkDocument (Did_from_keypair k) [] [] [mkVerificationMethod (Did_to_string (Did_from_keypair k) ++ str "#key-1") VM_Ed25519
    (Did_to_string (Did_from_keypair k)) (PK_Jwk [])] [] [] [] []).
Proof. reflexivity. Qed.
Example service_breaks_out :
  to_json (add_service (DidDocument_new (mkDid DM_Web (str "a") None None None)) (str "s") (str "T") (dq ++ str "}],{" ++ dq)) =
  str "{" ++ json_field (str "@context") (str "https://www.w3.org/ns/did/v1") ++ str "," ++ json_field (str "id") (str "did:web:a") ++ str "," ++ dq ++
  str "verificationMethod" ++ dq ++ str ":[]," ++ dq ++ str "service" ++ dq ++ str ":[{" ++ json_field (str "id") (str "did:web:a#s") ++ str "," ++
  json_field (str "type") (str "T") ++ str "," ++ dq ++ str "serviceEndpoint" ++ dq ++ str ":" ++ dq ++ dq ++ str "}],{" ++ dq ++ dq ++ str "}]}".
Proof. reflexivity. Qed.
