(* ===== verification/Negotiate.v ===== *)
(** * Trust negotiation (axiom-crypto/src/negotiate.rs)

    The challenge-response handshake: message payloads, the context of one
    negotiation and the manager for all peers.  Random nonces and clock readings
    (seconds for challenges, nanoseconds for instants) are arguments. *)

From stdpp Require Import base numbers list gmap strings.
From S2P Require Import Prelude Types Codec Text Intent Crypto.

(** ** Messages *)

Inductive NegotiationState :=
  | NInitial | NChallengeSent | NChallengeReceived | NResponseSent | NEstablished | NFailed.
#[export] Instance NegotiationState_eq_dec : EqDecision NegotiationState.
Proof. solve_decision. Defined.

Inductive TrustMessageType :=
  | THello | TChallenge | TResponse | TAck | TUpgradeRequest | TUpgradeResponse | TDowngradeNotify | TError.
Definition TrustMessageType_to_u8 (t : TrustMessageType) : Z :=
  match t with
  | THello => 1 | TChallenge => 2 | TResponse => 3 | TAck => 4
  | TUpgradeRequest => 5 | TUpgradeResponse => 6 | TDowngradeNotify => 7 | TError => 8
  end.
Definition TrustMessageType_from_u8 (v : Z) : option TrustMessageType :=
  match v with
  | 1 => Some THello | 2 => Some TChallenge | 3 => Some TResponse | 4 => Some TAck
  | 5 => Some TUpgradeRequest | 6 => Some TUpgradeResponse | 7 => Some TDowngradeNotify
  | 8 => Some TError | _ => None
  end.

Inductive NegotiationError :=
  | VersionMismatch | InvalidSignature | ChallengeExpired | TrustNotSupported | NRateLimited | NInternal.

Record HelloPayload := mkHello {
  hello_version : Z;
  hello_public_key : list Z;
  requested_trust : TrustLevel;
  capabilities : Z;
  hello_nonce : list Z
}.
Definition HelloPayload_encode (h : HelloPayload) : list Z :=
  to_be 2 (hello_version h) ++ hello_public_key h ++ [TrustLevel_to_u8 (requested_trust h)]
  ++ to_be 4 (capabilities h) ++ hello_nonce h.
Definition HelloPayload_decode (data : list Z) : option HelloPayload :=
  if len data <? 71 then None
  else
    match (match at_byte data 34 with
           | 0 => Some Full | 1 => Some Sig | 2 => Some Compress | 3 => Some Raw | _ => None
           end) with
    | None => None
    | Some t =>
        Some (mkHello (from_be (at_slice data 0 2)) (at_slice data 2 34) t
                (from_be (at_slice data 35 39)) (at_slice data 39 71))
    end.

Record ChallengePayload := mkChallenge { ch_nonce : list Z; ch_timestamp : Z; expiry_secs : Z }.
Definition ChallengePayload_new (nonce : list Z) (ts : Z) : ChallengePayload := mkChallenge nonce ts 30.
Definition ChallengePayload_encode (c : ChallengePayload) : list Z :=
  ch_nonce c ++ to_be 8 (ch_timestamp c) ++ to_be 4 (expiry_secs c).
Definition ChallengePayload_decode (data : list Z) : option ChallengePayload :=
  if len data <? 44 then None
  else Some (mkChallenge (at_slice data 0 32) (from_be (at_slice data 32 40)) (from_be (at_slice data 40 44))).
Definition ChallengePayload_is_valid (c : ChallengePayload) (now : Z) : bool :=
  now <=? u64_add (ch_timestamp c) (expiry_secs c).

Record ResponsePayload := mkResponse { resp_nonce : list Z; resp_signature : Signature }.
Definition ResponsePayload_encode (r : ResponsePayload) : list Z := resp_nonce r ++ resp_signature r.
Definition ResponsePayload_decode (data : list Z) : option ResponsePayload :=
  if len data <? 96 then None
  else Some (mkResponse (at_slice data 0 32) (at_slice data 32 96)).

(** ** Sessions and contexts *)

Record EstablishedSession := mkSession {
  es_peer_id : NodeId;
  es_peer_public_key : list Z;
  es_trust_level : TrustLevel;
  es_session_token : option SessionToken;
  established_at : Z;
  expires_in : Z
}.
Definition session_is_valid (now : Z) (s : EstablishedSession) : bool :=
  Z.max 0 (now - established_at s) <? expires_in s.
Definition session_remaining (now : Z) (s : EstablishedSession) : Z :=
  Z.max 0 (expires_in s - Z.max 0 (now - established_at s)).

Section Negotiation.
Context `{Ed25519}.

Record NegotiationContext := mkContext {
  nc_state : NegotiationState;
  nc_keypair : Keypair;
  nc_local_id : NodeId;
  nc_peer_id : option NodeId;
  nc_peer_public_key : option (list Z);
  pending_challenge : option ChallengePayload;
  received_challenge : option ChallengePayload;
  initiator_nonce : option (list Z);
  started_at : Z;
  nc_timeout : Z
}.
Definition NegotiationContext_new (now : Z) (k : Keypair) (id : NodeId) (timeout : Z) : NegotiationContext :=
  mkContext NInitial k id None None None None None now timeout.
Definition is_timed_out (now : Z) (c : NegotiationContext) : bool := nc_timeout c <? Z.max 0 (now - started_at c).

Definition NEGOTIATE_RESPONSE_DOMAIN : list Z := as_bytes (str "AXIOM/negotiate-response/v1").
Definition NEGOTIATE_ACK_DOMAIN : list Z := as_bytes (str "AXIOM/negotiate-ack/v1").

Definition response_transcript (challenger responder : NodeId) (nonce : list Z) : list Z :=
  NEGOTIATE_RESPONSE_DOMAIN ++ challenger ++ responder ++ nonce.
Definition ack_transcript (initiator_pk responder_pk i_nonce c_nonce : list Z) (t : TrustLevel) : list Z :=
  NEGOTIATE_ACK_DOMAIN ++ initiator_pk ++ responder_pk ++ i_nonce ++ c_nonce ++ [TrustLevel_to_u8 t].

Definition verify_ack_transcript (c : NegotiationContext) (pk : list Z) (t : TrustLevel) (s : Signature) : bool :=
  match initiator_nonce c, received_challenge c with
  | Some i, Some ch => verify_key pk (ack_transcript (nc_local_id c) pk i (ch_nonce ch) t) s
  | _, _ => false
  end.

Definition trust_frame (id : NodeId) (t : TrustLevel) (m : TrustMessageType) (data : list Z) : Frame :=
  Frame_new (with_trust_level (FrameHeader_new FTrust id) t) PRaw (TrustMessageType_to_u8 m :: data).

Definition create_hello (nonce : list Z) (c : NegotiationContext) (t : TrustLevel) : NegotiationContext * Frame :=
  (mkContext (nc_state c) (nc_keypair c) (nc_local_id c) (nc_peer_id c) (nc_peer_public_key c)
     (pending_challenge c) (received_challenge c) (Some nonce) (started_at c) (nc_timeout c),
   trust_frame (nc_local_id c) Full THello
     (HelloPayload_encode (mkHello 1 (public_key_bytes (nc_keypair c)) t 0xFFFFFFFF nonce))).

Definition create_challenge (nonce : list Z) (c : NegotiationContext) (ts : Z) : NegotiationContext * Frame :=
  let ch := ChallengePayload_new nonce ts in
  (mkContext NChallengeSent (nc_keypair c) (nc_local_id c) (nc_peer_id c) (nc_peer_public_key c)
     (Some ch) (received_challenge c) (initiator_nonce c) (started_at c) (nc_timeout c),
   trust_frame (nc_local_id c) Full TChallenge (ChallengePayload_encode ch)).

Definition create_response (c : NegotiationContext) (ch : ChallengePayload) (challenger : NodeId) :
    NegotiationContext * Frame :=
  let s := Keypair_sign (nc_keypair c) (response_transcript challenger (nc_local_id c) (ch_nonce ch)) in
  (mkContext NResponseSent (nc_keypair c) (nc_local_id c) (Some challenger) (nc_peer_public_key c)
     (pending_challenge c) (Some ch) (initiator_nonce c) (started_at c) (nc_timeout c),
   trust_frame (nc_local_id c) Full TResponse (ResponsePayload_encode (mkResponse (ch_nonce ch) s))).

Definition set_established (c : NegotiationContext) : NegotiationContext :=
  mkContext NEstablished (nc_keypair c) (nc_local_id c) (nc_peer_id c) (nc_peer_public_key c)
    (pending_challenge c) (received_challenge c) (initiator_nonce c) (started_at c) (nc_timeout c).

Definition verify_response (c : NegotiationContext) (r : ResponsePayload) :
    NegotiationContext * outcome NegotiationError unit :=
  match pending_challenge c with
  | None => (c, Err NInternal)
  | Some ch =>
      if negb (bool_decide (resp_nonce r = ch_nonce ch)) then (c, Err InvalidSignature)
      else
        match nc_peer_public_key c, nc_peer_id c with
        | Some pk, Some peer =>
            if negb (verify_key pk (response_transcript (nc_local_id c) peer (ch_nonce ch)) (resp_signature r))
            then (c, Err InvalidSignature)
            else (set_established c, Ok tt)
        | _, _ => (c, Err NInternal)
        end
  end.

Definition create_ack (c : NegotiationContext) (t : TrustLevel) : outcome NegotiationError Frame :=
  match nc_peer_public_key c, initiator_nonce c, pending_challenge c with
  | Some ipk, Some i, Some ch =>
      let rpk := public_key_bytes (nc_keypair c) in
      let s := Keypair_sign (nc_keypair c) (ack_transcript ipk rpk i (ch_nonce ch) t) in
      Ok (trust_frame (nc_local_id c) t TAck (TrustLevel_to_u8 t :: rpk ++ s))
  | _, _, _ => Err NInternal
  end.

Definition process_hello (c : NegotiationContext) (h : HelloPayload) :
    NegotiationContext * outcome NegotiationError unit :=
  if negb (hello_version h =? 1) then (c, Err VersionMismatch)
  else
    (mkContext NChallengeReceived (nc_keypair c) (nc_local_id c) (Some (hello_public_key h))
       (Some (hello_public_key h)) (pending_challenge c) (received_challenge c) (Some (hello_nonce h))
       (started_at c) (nc_timeout c), Ok tt).

Definition context_session (now : Z) (c : NegotiationContext) (t : TrustLevel) : option EstablishedSession :=
  if negb (bool_decide (nc_state c = NEstablished)) then None
  else
    match nc_peer_id c, nc_peer_public_key c with
    | Some p, Some pk => Some (mkSession p pk t None now (3600 * 1000000000))
    | _, _ => None
    end.

(** ** The manager *)

Record TrustNegotiator := mkNegotiator {
  tn_keypair : Keypair;
  tn_local_id : NodeId;
  negotiations : gmap NodeId NegotiationContext;
  tn_sessions : gmap NodeId EstablishedSession;
  negotiation_timeout : Z;
  session_duration : Z
}.
Definition TrustNegotiator_new (k : Keypair) (id : NodeId) : TrustNegotiator :=
  mkNegotiator k id ∅ ∅ (30 * 1000000000) (3600 * 1000000000).

Definition set_maps (n : TrustNegotiator) ns ss : TrustNegotiator :=
  mkNegotiator (tn_keypair n) (tn_local_id n) ns ss (negotiation_timeout n) (session_duration n).

Definition start_negotiation (now : Z) (nonce : list Z) (n : TrustNegotiator) (peer : NodeId) (t : TrustLevel) :
    TrustNegotiator * Frame :=
  let c := NegotiationContext_new now (tn_keypair n) (tn_local_id n) (negotiation_timeout n) in
  let '(c, f) := create_hello nonce c t in
  (set_maps n (<[peer := c]> (negotiations n)) (tn_sessions n), f).

Definition ack_trust_level (b : Z) : TrustLevel :=
  match b with 0 => Full | 1 => Sig | 2 => Compress | _ => Raw end.

(** The four message branches of [process_frame]. *)
Definition on_hello (now : Z) (nonce : list Z) (ts : Z) (n : TrustNegotiator) (peer : NodeId) (data : list Z) :
    TrustNegotiator * outcome NegotiationError (option Frame) :=
  match HelloPayload_decode data with
  | None => (n, Err NInternal)
  | Some h =>
      let c := NegotiationContext_new now (tn_keypair n) (tn_local_id n) (negotiation_timeout n) in
      match process_hello c h with
      | (c, Ok _) =>
          let '(c, f) := create_challenge nonce c ts in
          (set_maps n (<[peer := c]> (negotiations n)) (tn_sessions n), Ok (Some f))
      | (_, Err e) => (n, Err e)
      | (_, Panic) => (n, Panic)
      end
  end.

Definition on_challenge (ts : Z) (n : TrustNegotiator) (peer : NodeId) (data : list Z) :
    TrustNegotiator * outcome NegotiationError (option Frame) :=
  match ChallengePayload_decode data with
  | None => (n, Err NInternal)
  | Some ch =>
      if negb (ChallengePayload_is_valid ch ts) then (n, Err ChallengeExpired)
      else
        match negotiations n !! peer with
        | None => (n, Err NInternal)
        | Some c =>
            let '(c, f) := create_response c ch peer in
            (set_maps n (<[peer := c]> (negotiations n)) (tn_sessions n), Ok (Some f))
        end
  end.

Definition on_response (now : Z) (n : TrustNegotiator) (peer : NodeId) (data : list Z) :
    TrustNegotiator * outcome NegotiationError (option Frame) :=
  match ResponsePayload_decode data with
  | None => (n, Err NInternal)
  | Some r =>
      match negotiations n !! peer with
      | None => (n, Err NInternal)
      | Some c =>
          match verify_response c r with
          | (c, Ok _) =>
              match create_ack c Sig with
              | Ok f =>
                  (set_maps n (delete peer (negotiations n))
                     (match context_session now c Sig with
                      | Some s => <[peer := s]> (tn_sessions n)
                      | None => tn_sessions n
                      end), Ok (Some f))
              | Err e => (set_maps n (<[peer := c]> (negotiations n)) (tn_sessions n), Err e)
              | Panic => (n, Panic)
              end
          | (c, Err e) => (n, Err e)
          | (_, Panic) => (n, Panic)
          end
      end
  end.

Definition on_ack (now : Z) (n : TrustNegotiator) (peer : NodeId) (data : list Z) :
    TrustNegotiator * outcome NegotiationError (option Frame) :=
  if 97 <=? len data then
    let t := ack_trust_level (at_byte data 0) in
    let pk := at_slice data 1 33 in
    let s := at_slice data 33 97 in
    match negotiations n !! peer with
    | None => (n, Ok None)
    | Some c =>
        let ns := delete peer (negotiations n) in
        if verify_ack_transcript c pk t s then
          let c := mkContext NEstablished (nc_keypair c) (nc_local_id c) (Some peer) (Some pk)
                     (pending_challenge c) (received_challenge c) (initiator_nonce c) (started_at c)
                     (nc_timeout c) in
          (set_maps n ns (match context_session now c t with
                          | Some s => <[peer := s]> (tn_sessions n)
                          | None => tn_sessions n
                          end), Ok None)
        else (set_maps n ns (tn_sessions n), Ok None)
    end
  else (n, Ok None).

Definition process_frame (now : Z) (nonce : list Z) (n : TrustNegotiator) (f : Frame) (ts : Z) :
    TrustNegotiator * outcome NegotiationError (option Frame) :=
  match payload f with
  | [] => (n, Err NInternal)
  | b :: data =>
      let peer := sender_id (header f) in
      match TrustMessageType_from_u8 b with
      | None => (n, Err NInternal)
      | Some THello => on_hello now nonce ts n peer data
      | Some TChallenge => on_challenge ts n peer data
      | Some TResponse => on_response now n peer data
      | Some TAck => on_ack now n peer data
      | Some _ => (n, Ok None)
      end
  end.

Definition negotiator_session (now : Z) (n : TrustNegotiator) (peer : NodeId) : option EstablishedSession :=
  match tn_sessions n !! peer with
  | Some s => if session_is_valid now s then Some s else None
  | None => None
  end.
Definition has_session (now : Z) (n : TrustNegotiator) (peer : NodeId) : bool :=
  is_some (negotiator_session now n peer).
Definition negotiated_trust_level (now : Z) (n : TrustNegotiator) (peer : NodeId) : TrustLevel :=
  match negotiator_session now n peer with Some s => es_trust_level s | None => Raw end.
Definition negotiator_cleanup (now : Z) (n : TrustNegotiator) : TrustNegotiator :=
  set_maps n (filter (λ kc, is_timed_out now kc.2 = false) (negotiations n))
    (filter (λ ks, session_is_valid now ks.2 = true) (tn_sessions n)).
End Negotiation.

(** ** Payload round trips *)

Record hello_ok (h : HelloPayload) : Prop := {
  ho_version : 0 ≤ hello_version h < 2 ^ 16;
  ho_key : array_ok 32 (hello_public_key h);
  ho_caps : 0 ≤ capabilities h < 2 ^ 32;
  ho_nonce : array_ok 32 (hello_nonce h)
}.

Lemma HelloPayload_decode_encode h : hello_ok h → HelloPayload_decode (HelloPayload_encode h) = Some h.
Proof.
  intros [Hv [Hk _] Hc [Hn _]]. destruct h as [v k t c n].
  cbn [hello_version hello_public_key requested_trust capabilities hello_nonce] in Hv, Hk, Hc, Hn.
  unfold HelloPayload_encode. cbn [hello_version hello_public_key requested_trust capabilities hello_nonce].
  set (d := to_be 2 v ++ _). assert (Hl : len d = 71).
  { subst d. unfold len. rewrite !length_app, !length_to_be. cbn [length]. lia. }
  unfold HelloPayload_decode. rewrite Hl. cbn [Z.ltb Z.compare Pos.compare Pos.compare_cont].
  assert (E34 : at_byte d 34 = TrustLevel_to_u8 t).
  { replace d with ((to_be 2 v ++ k) ++ TrustLevel_to_u8 t :: to_be 4 c ++ n) by (subst d; by rewrite <- app_assoc).
    apply at_byte_app. rewrite length_app, length_to_be. lia. }
  assert (E0 : at_slice d 0 2 = to_be 2 v) by (by apply (at_slice_app [])).
  assert (E2 : at_slice d 2 34 = k) by (subst d; apply at_slice_app; rewrite length_to_be; lia).
  assert (E35 : at_slice d 35 39 = to_be 4 c).
  { replace d with ((to_be 2 v ++ k ++ [TrustLevel_to_u8 t]) ++ to_be 4 c ++ n)
      by (subst d; by rewrite <- !app_assoc).
    apply at_slice_app; rewrite !length_app, !length_to_be; cbn [length]; lia. }
  assert (E39 : at_slice d 39 71 = n).
  { replace d with ((to_be 2 v ++ k ++ [TrustLevel_to_u8 t] ++ to_be 4 c) ++ n)
      by (subst d; by rewrite <- !app_assoc).
    apply at_slice_tail; rewrite !length_app, !length_to_be; cbn [length]; lia. }
  rewrite E34, E0, E2, E35, E39, !from_be_to_be by done. by destruct t.
Qed.

Lemma ChallengePayload_decode_encode c :
  array_ok 32 (ch_nonce c) → 0 ≤ ch_timestamp c < 2 ^ 64 → 0 ≤ expiry_secs c < 2 ^ 32 →
  ChallengePayload_decode (ChallengePayload_encode c) = Some c.
Proof.
  destruct c as [n t e]. cbn [ch_nonce ch_timestamp expiry_secs]. intros [Hn _] Ht He. unfold ChallengePayload_encode. cbn [ch_nonce ch_timestamp expiry_secs].
  set (d := n ++ _). assert (Hl : len d = 44).
  { subst d. unfold len. rewrite !length_app, !length_to_be. lia. }
  unfold ChallengePayload_decode. rewrite Hl. cbn [Z.ltb Z.compare Pos.compare Pos.compare_cont].
  assert (E0 : at_slice d 0 32 = n) by (apply (at_slice_app []); [done|cbn; lia]).
  assert (E1 : at_slice d 32 40 = to_be 8 t) by (subst d; apply at_slice_app; rewrite ?length_to_be; lia).
  assert (E2 : at_slice d 40 44 = to_be 4 e).
  { subst d. rewrite app_assoc. apply at_slice_tail; rewrite !length_app, !length_to_be; lia. }
  by rewrite E0, E1, E2, !from_be_to_be.
Qed.

Lemma ResponsePayload_decode_encode r :
  array_ok 32 (resp_nonce r) → array_ok 64 (resp_signature r) →
  ResponsePayload_decode (ResponsePayload_encode r) = Some r.
Proof.
  destruct r as [n s]. cbn [resp_nonce resp_signature]. intros [Hn _] [Hs _]. unfold ResponsePayload_encode, ResponsePayload_decode.
  cbn [resp_nonce resp_signature].
  assert (Hl : len (n ++ s) = 96) by (unfold len; rewrite length_app; lia). rewrite Hl.
  cbn [Z.ltb Z.compare Pos.compare Pos.compare_cont].
  rewrite (at_slice_tail n s 32 96) by lia.
  assert (E : at_slice (n ++ s) 0 32 = n) by (apply (at_slice_app []); [done|cbn; lia]). by rewrite E.
Qed.

(** ** Steps of the handshake *)

Section Handshake.
Context `{Ed25519}.

Lemma process_hello_frame now nonce ts n id f h :
  hello_ok h → hello_version h = 1 → payload f = 1 :: HelloPayload_encode h → sender_id (header f) = id →
  ∃ c, process_frame now nonce n f ts
    = (set_maps n (<[id := c]> (negotiations n)) (tn_sessions n),
       Ok (Some (trust_frame (tn_local_id n) Full TChallenge
                   (ChallengePayload_encode (ChallengePayload_new nonce ts))))) ∧
    c = mkContext NChallengeSent (tn_keypair n) (tn_local_id n) (Some (hello_public_key h))
          (Some (hello_public_key h)) (Some (ChallengePayload_new nonce ts)) None
          (Some (hello_nonce h)) now (negotiation_timeout n).
Proof.
  intros Hh Hv Hp <-. eexists. split; [|reflexivity]. unfold process_frame. rewrite Hp.
  cbn [TrustMessageType_from_u8]. unfold on_hello. rewrite HelloPayload_decode_encode by done.
  unfold process_hello. rewrite Hv. reflexivity.
Qed.

Lemma process_challenge_frame now nonce ts n id f ch c :
  array_ok 32 (ch_nonce ch) → 0 ≤ ch_timestamp ch < 2 ^ 64 → 0 ≤ expiry_secs ch < 2 ^ 32 →
  ChallengePayload_is_valid ch ts = true →
  payload f = 2 :: ChallengePayload_encode ch → sender_id (header f) = id → negotiations n !! id = Some c →
  process_frame now nonce n f ts
  = (set_maps n (<[id := (create_response c ch id).1]> (negotiations n)) (tn_sessions n),
     Ok (Some (create_response c ch id).2)).
Proof.
  intros H1 H2 H3 Hv Hp <- Hc. unfold process_frame. rewrite Hp. cbn [TrustMessageType_from_u8].
  unfold on_challenge. rewrite ChallengePayload_decode_encode by done. by rewrite Hv, Hc.
Qed.

Lemma process_response_frame now nonce ts n id f c pk peer ch i s :
  array_ok 32 (ch_nonce ch) → array_ok 64 s →
  payload f = 3 :: ResponsePayload_encode (mkResponse (ch_nonce ch) s) → sender_id (header f) = id →
  negotiations n !! id = Some c → pending_challenge c = Some ch → nc_peer_public_key c = Some pk →
  nc_peer_id c = Some peer → initiator_nonce c = Some i →
  verify_key pk (response_transcript (nc_local_id c) peer (ch_nonce ch)) s = true →
  process_frame now nonce n f ts
  = (set_maps n (delete id (negotiations n))
       (<[id := mkSession peer pk Sig None now (3600 * 1000000000)]> (tn_sessions n)),
     Ok (Some (trust_frame (nc_local_id c) Sig TAck
       (1 :: public_key_bytes (nc_keypair c)
          ++ Keypair_sign (nc_keypair c) (ack_transcript pk (public_key_bytes (nc_keypair c)) i (ch_nonce ch) Sig))))).
Proof.
  intros Hn Hs Hp <- Hc Hch Hpk Hpeer Hi Hv. unfold process_frame. rewrite Hp. cbn [TrustMessageType_from_u8].
  unfold on_response. rewrite ResponsePayload_decode_encode by done. rewrite Hc. unfold verify_response.
  cbn [resp_nonce resp_signature]. rewrite Hch, Hpk, Hpeer. rewrite bool_decide_eq_true_2 by done. cbn [negb].
  rewrite Hv. cbn [negb]. unfold create_ack, set_established, context_session.
  cbn [nc_peer_public_key initiator_nonce pending_challenge nc_keypair nc_local_id nc_peer_id nc_state].
  rewrite Hpk, Hi, Hch, Hpeer. rewrite bool_decide_eq_true_2 by done. reflexivity.
Qed.

Lemma process_ack_frame now nonce ts n id f c pk i ch s :
  array_ok 32 pk → array_ok 64 s → payload f = 4 :: 1 :: pk ++ s → sender_id (header f) = id →
  negotiations n !! id = Some c → initiator_nonce c = Some i → received_challenge c = Some ch →
  verify_key pk (ack_transcript (nc_local_id c) pk i (ch_nonce ch) Sig) s = true →
  process_frame now nonce n f ts
  = (set_maps n (delete id (negotiations n))
       (<[id := mkSession id pk Sig None now (3600 * 1000000000)]> (tn_sessions n)), Ok None).
Proof.
  intros [Hpk _] [Hs _] Hp <- Hc Hi Hch Hv. unfold process_frame. rewrite Hp. cbn [TrustMessageType_from_u8].
  unfold on_ack.
  assert (Hl : len (1 :: pk ++ s) = 97) by (unfold len; cbn [length]; rewrite length_app; lia).
  rewrite Hl. cbn [Z.leb Z.compare Pos.compare Pos.compare_cont].
  assert (E1 : at_slice (1 :: pk ++ s) 1 33 = pk) by (apply (at_slice_app [1]); cbn [length]; lia).
  assert (E2 : at_slice (1 :: pk ++ s) 33 97 = s) by (apply (at_slice_tail (1 :: pk)); cbn [length]; lia).
  rewrite E1, E2. change (at_byte (1 :: pk ++ s) 0) with 1. cbn [ack_trust_level]. rewrite Hc.
  unfold verify_ack_transcript. rewrite Hi, Hch, Hv. reflexivity.
Qed.

Lemma on_response_sessions now n peer data n' r p :
  on_response now n peer data = (n', r) →
  tn_sessions n' !! p = tn_sessions n !! p ∨
  ∃ c ch pk q sg, p = peer ∧ negotiations n !! p = Some c ∧ pending_challenge c = Some ch ∧
    nc_peer_public_key c = Some pk ∧ nc_peer_id c = Some q ∧
    verify_key pk (response_transcript (nc_local_id c) q (ch_nonce ch)) sg = true ∧
    tn_sessions n' !! p = Some (mkSession q pk Sig None now (3600 * 1000000000)) ∧
    negotiations n' !! p = None.
Proof.
  unfold on_response. destruct (ResponsePayload_decode data) as [rp|]; [|intros [= <- <-]; by left].
  destruct (negotiations n !! peer) as [c|] eqn:Ec; [|intros [= <- <-]; by left]. unfold verify_response.
  destruct (pending_challenge c) as [ch|] eqn:Ech; [|intros [= <- <-]; by left].
  destruct (negb _); [intros [= <- <-]; by left|].
  destruct (nc_peer_public_key c) as [pk|] eqn:Epk; [|intros [= <- <-]; by left].
  destruct (nc_peer_id c) as [q|] eqn:Eq; [|intros [= <- <-]; by left].
  destruct (verify_key _ _ _) eqn:Ev; cbn [negb]; [|intros [= <- <-]; by left].
  unfold create_ack, context_session. cbn. rewrite Epk, Ech, Eq.
  destruct (initiator_nonce c) as [i|]; intros [= <- <-]; [|by left]. cbn.
  destruct (decide (p = peer)) as [->|Hp]; [|left; by rewrite lookup_insert_ne].
  right. exists c, ch, pk, q, (resp_signature rp). rewrite lookup_insert_eq, lookup_delete_eq. done.
Qed.

Lemma on_ack_sessions now n peer data n' r p :
  on_ack now n peer data = (n', r) →
  tn_sessions n' !! p = tn_sessions n !! p ∨
  ∃ c i ch pk t sg, p = peer ∧ negotiations n !! p = Some c ∧ initiator_nonce c = Some i ∧
    received_challenge c = Some ch ∧
    verify_key pk (ack_transcript (nc_local_id c) pk i (ch_nonce ch) t) sg = true ∧
    tn_sessions n' !! p = Some (mkSession p pk t None now (3600 * 1000000000)) ∧
    negotiations n' !! p = None.
Proof.
  unfold on_ack. destruct (97 <=? len data); [|intros [= <- <-]; by left].
  destruct (negotiations n !! peer) as [c|] eqn:Ec; [|intros [= <- <-]; by left].
  destruct (verify_ack_transcript c _ _ _) eqn:Ev; [|intros [= <- <-]; by left]. unfold verify_ack_transcript in Ev.
  destruct (initiator_nonce c) as [i|] eqn:Ei; [|done].
  destruct (received_challenge c) as [ch|] eqn:Ech; [|done]. intros [= <- <-]. cbn.
  destruct (decide (p = peer)) as [->|Hp]; [|left; by rewrite lookup_insert_ne].
  right. do 6 eexists. rewrite lookup_insert_eq, lookup_delete_eq. split_and!; done.
Qed.

(** ** Properties *)

(** C25: the handshake completes.  Two nodes whose identities are their public keys,
    started by one of them and fed each other's frames within the challenge's
    validity, end with a session each, filed under and holding the other's
    identity and key at the signature level, and no negotiation left. *)
Theorem handshake_completes ka kb na nb ni nc now ts ts' t :
  keypair_ok ka → keypair_ok kb → array_ok 32 ni → array_ok 32 nc →
  tn_keypair na = ka → tn_local_id na = Keypair_node_id ka →
  tn_keypair nb = kb → tn_local_id nb = Keypair_node_id kb →
  0 ≤ ts → ts ≤ ts' ≤ ts + 30 → ts + 30 < 2 ^ 64 →
  let a := Keypair_node_id ka in let b := Keypair_node_id kb in
  ∃ na1 nb1 na2 nb2 na3 hello challenge response ack,
    start_negotiation now ni na b t = (na1, hello) ∧
    process_frame now nc nb hello ts = (nb1, Ok (Some challenge)) ∧
    process_frame now [] na1 challenge ts' = (na2, Ok (Some response)) ∧
    process_frame now [] nb1 response ts' = (nb2, Ok (Some ack)) ∧
    process_frame now [] na2 ack ts' = (na3, Ok None) ∧
    tn_sessions nb2 !! a = Some (mkSession a a Sig None now (3600 * 1000000000)) ∧
    tn_sessions na3 !! b = Some (mkSession b b Sig None now (3600 * 1000000000)) ∧
    negotiations nb2 !! a = None ∧ negotiations na3 !! b = None.
Proof.
  intros Hka Hkb Hni Hnc Eka Ela Ekb Elb Hts Hts' Hmax a b.
  assert (Ha : array_ok 32 a) by apply ed_public_ok. assert (Hb : array_ok 32 b) by apply ed_public_ok.
  set (h := mkHello 1 a t 0xFFFFFFFF ni).
  assert (Hh : hello_ok h) by (split; cbn; [lia|done|lia|done]).
  set (ch := ChallengePayload_new nc ts).
  destruct (process_hello_frame now nc ts nb a (trust_frame a Full THello (HelloPayload_encode h)) h)
    as (cb & Eb1 & Ecb); [done|done|done|done|].
  set (na1 := set_maps na (<[b := mkContext NInitial ka a None None None None (Some ni) now
                                   (negotiation_timeout na)]> (negotiations na)) (tn_sessions na)).
  set (ca := mkContext NInitial ka a None None None None (Some ni) now (negotiation_timeout na)) in na1.
  assert (Es : start_negotiation now ni na b t = (na1, trust_frame a Full THello (HelloPayload_encode h))).
  { unfold start_negotiation, create_hello, NegotiationContext_new. cbn. rewrite Eka, Ela. reflexivity. }
  do 9 eexists. split; [exact Es|]. split; [exact Eb1|]. split.
  { apply (process_challenge_frame now [] ts' na1 b _ ch ca); try done.
    - cbn. lia.
    - unfold ChallengePayload_is_valid, u64_add. cbn. rewrite Z.mod_small by lia. apply Z.leb_le. lia.
    - cbn. apply lookup_insert_eq. }
  split.
  { eapply (process_response_frame now [] ts' _ a _ cb a a ch ni); try done.
    - apply ed_sign_ok.
    - rewrite Ecb. cbn. apply lookup_insert_eq.
    - by rewrite Ecb.
    - by rewrite Ecb.
    - by rewrite Ecb.
    - by rewrite Ecb.
    - rewrite Ecb. cbn [nc_local_id]. rewrite Elb. by apply sign_verifies. }
  split.
  { eapply (process_ack_frame now [] ts' _ b _ (create_response ca ch b).1 b ni ch
              (Keypair_sign kb (ack_transcript a b ni nc Sig))); try done.
    - apply ed_sign_ok.
    - rewrite Ecb. cbn [nc_keypair trust_frame payload Frame_new]. by rewrite Ekb.
    - cbn. rewrite Ecb. cbn. by rewrite Elb.
    - cbn. apply lookup_insert_eq.
    - by apply sign_verifies. }
  cbn. split_and!; try apply lookup_insert_eq; apply lookup_delete_eq.
Qed.


(** The identity a session is filed under is not checked: whoever holds some key
    pair can open a valid session filed under any other node's identity, because
    the handshake keys it by the frame's unauthenticated sender. *)
Theorem session_misfiled km nb ni nc now ts v t :
  keypair_ok km → array_ok 32 ni → array_ok 32 nc →
  let m := Keypair_node_id km in
  ∃ nb1 nb2 challenge ack,
    process_frame now nc nb
      (trust_frame v Full THello (HelloPayload_encode (mkHello 1 m t 0xFFFFFFFF ni))) ts
    = (nb1, Ok (Some challenge)) ∧
    process_frame now [] nb1
      (trust_frame v Full TResponse (ResponsePayload_encode
         (mkResponse nc (Keypair_sign km (response_transcript (tn_local_id nb) m nc))))) ts
    = (nb2, Ok (Some ack)) ∧
    negotiator_session now nb2 v = Some (mkSession m m Sig None now (3600 * 1000000000)).
Proof.
  intros Hk Hni Hnc m. assert (Hm : array_ok 32 m) by apply ed_public_ok.
  destruct (process_hello_frame now nc ts nb v
              (trust_frame v Full THello (HelloPayload_encode (mkHello 1 m t 0xFFFFFFFF ni)))
              (mkHello 1 m t 0xFFFFFFFF ni)) as (c & E1 & Ec); [split; cbn; (done || lia)|done..|].
  do 4 eexists. split; [exact E1|]. split.
  - eapply (process_response_frame now [] ts _ v _ c m m (ChallengePayload_new nc ts) ni); rewrite ?Ec; try done.
    + apply ed_sign_ok.
    + cbn. apply lookup_insert_eq.
    + by apply sign_verifies.
  - unfold negotiator_session, session_is_valid. cbn. rewrite lookup_insert_eq. cbn. rewrite Z.sub_diag. done.
Qed.
End Handshake.

Definition sample_other_keypair : Keypair := mkKeypair (replicate 32 7).
Definition sample_negotiator (k : Keypair) : TrustNegotiator :=
  TrustNegotiator_new k (@Keypair_node_id ed_reference k).

Lemma handshake_completes_witness :
  ∃ na1 nb1 hello challenge,
    @start_negotiation ed_reference 0 (replicate 32 1) (sample_negotiator sample_keypair)
      (@Keypair_node_id ed_reference sample_other_keypair) Sig = (na1, hello) ∧
    @process_frame ed_reference 0 (replicate 32 2) (sample_negotiator sample_other_keypair) hello 100
    = (nb1, Ok (Some challenge)).
Proof.
  destruct (@handshake_completes ed_reference sample_keypair sample_other_keypair
              (sample_negotiator sample_keypair) (sample_negotiator sample_other_keypair)
              (replicate 32 1) (replicate 32 2) 0 100 110 Sig)
    as (na1 & nb1 & _ & _ & _ & hello & challenge & _ & _ & E1 & E2 & _);
    try (apply array_ok_replicate; lia); try reflexivity; try lia.
  by exists na1, nb1, hello, challenge.
Defined.

