(* ===== verification/Revocation.v ===== *)
(** * Key revocation (axiom-crypto/src/revocation.rs)

    Certificates and witness votes with their signed bytes, the revocation manager,
    and the wire form of a certificate.  Session invalidators are callbacks; they
    are named by numbers, and an operation returns the calls it makes.  The current
    time is an argument. *)

From stdpp Require Import base numbers list gmap strings.
From S2P Require Import Prelude Types Codec Text Intent Crypto.

(** ** Certificates and votes *)

Inductive RevocationReason :=
  | KeyHolderRevoked | KeyCompromised | KeySuperseded | AffiliationChanged
  | CaRevoked | ThresholdRevoked | SecurityEvent | Unspecified.
Definition reason_code (r : RevocationReason) : Z :=
  match r with
  | KeyHolderRevoked => 1 | KeyCompromised => 2 | KeySuperseded => 3 | AffiliationChanged => 4
  | CaRevoked => 5 | ThresholdRevoked => 6 | SecurityEvent => 7 | Unspecified => 255
  end.
Definition reason_of_code (b : Z) : RevocationReason :=
  match b with
  | 1 => KeyHolderRevoked | 2 => KeyCompromised | 3 => KeySuperseded | 4 => AffiliationChanged
  | 5 => CaRevoked | 6 => ThresholdRevoked | 7 => SecurityEvent | _ => Unspecified
  end.

Record RevocationCertificate := mkCertificate {
  revoked_key_id : list Z;
  rc_timestamp_ms : Z;
  rc_sequence : Z;
  rc_reason : RevocationReason;
  revoker_id : list Z;
  rc_signature : Signature;
  superseded_by : option (list Z)
}.

Definition superseded_fields (o : option (list Z)) : list (list Z) :=
  match o with Some k => [[1]; k] | None => [[0]] end.

Definition canonical_fields (c : RevocationCertificate) : list (list Z) :=
  [as_bytes (str "AXIOM-REVOKE") ++ [0; 1]; revoked_key_id c; to_le 8 (rc_timestamp_ms c);
   to_le 8 (rc_sequence c); [reason_code (rc_reason c)]; revoker_id c]
  ++ superseded_fields (superseded_by c).
Definition certificate_bytes (c : RevocationCertificate) : list Z := concat (canonical_fields c).

Record RevocationWitness := mkWitness {
  w_revoked_key_id : list Z;
  witness_id : list Z;
  w_timestamp_ms : Z;
  w_reason : RevocationReason;
  w_signature : Signature
}.
Definition witness_bytes (w : RevocationWitness) : list Z :=
  concat [as_bytes (str "AXIOM-WITNESS") ++ [0; 1]; w_revoked_key_id w; witness_id w;
          to_le 8 (w_timestamp_ms w); [reason_code (w_reason w)]].

Inductive RevocationSource :=
  | SDirect | SAuthority | SWebOfTrust (from_peer : list Z) | SBroadcast | SCrl.

Record RevocationEntry := mkEntryR {
  certificate : RevocationCertificate;
  received_at_ms : Z;
  re_source : RevocationSource;
  witnesses : list RevocationWitness
}.

Record WebOfTrustConfig := mkWotConfig {
  min_trust_level : Z;
  max_propagation_hops : Z;
  witness_threshold : Z * Z;
  max_certificate_age_ms : Z;
  allow_self_revocation : bool
}.
Definition WebOfTrustConfig_default : WebOfTrustConfig :=
  mkWotConfig 3 5 (3, 5) (365 * 24 * 60 * 60 * 1000) true.

Record TrustRelationship := mkTrust {
  tr_peer_id : list Z;
  tr_trust_level : Z;
  can_propagate_revocations : bool;
  can_witness : bool;
  established_at_ms : Z
}.

Inductive RevocationAction :=
  | Revoked (key_id : list Z)
  | AlreadyRevoked
  | WitnessRecorded (key_id : list Z) (current_witnesses required : Z)
  | ThresholdReached (key_id : list Z).

Inductive RevocationError :=
  | CertificateExpired | SelfRevocationDisabled | InvalidRevoker | RInvalidSignature | UntrustedSource
  | InsufficientTrust | PropagationNotAllowed | WitnessNotAllowed | DuplicateWitness
  | WitnessIdMismatch | NotAuthorized | MalformedData | InvalidHeader.

(** ** The manager *)

Record RevocationManager := mkRevocations {
  rm_node_id : list Z;
  rm_config : WebOfTrustConfig;
  revoked_keys : gmap (list Z) RevocationEntry;
  pending_threshold : gmap (list Z) (list RevocationWitness);
  trust_relationships : gmap (list Z) TrustRelationship;
  our_sequence : Z;
  issued_keys : list (list Z);
  key_issuers : gmap (list Z) (list (list Z));
  session_invalidators : list nat
}.
Definition RevocationManager_new (id : list Z) (c : WebOfTrustConfig) : RevocationManager :=
  mkRevocations id c ∅ ∅ ∅ 0 [] ∅ [].

Definition set_revoked (m : RevocationManager) r p : RevocationManager :=
  mkRevocations (rm_node_id m) (rm_config m) r p (trust_relationships m) (our_sequence m)
    (issued_keys m) (key_issuers m) (session_invalidators m).
Definition set_trust (m : RevocationManager) t : RevocationManager :=
  mkRevocations (rm_node_id m) (rm_config m) (revoked_keys m) (pending_threshold m) t (our_sequence m)
    (issued_keys m) (key_issuers m) (session_invalidators m).

(** Calls of session invalidators: which callback, on which key. *)
Definition calls := list (nat * list Z).

Definition register_session_invalidator (m : RevocationManager) (cb : nat) : RevocationManager :=
  mkRevocations (rm_node_id m) (rm_config m) (revoked_keys m) (pending_threshold m)
    (trust_relationships m) (our_sequence m) (issued_keys m) (key_issuers m)
    (session_invalidators m ++ [cb]).
Definition invalidate_sessions (m : RevocationManager) (k : list Z) : calls :=
  (λ cb, (cb, k)) <$> session_invalidators m.

Definition is_revoked (m : RevocationManager) (k : list Z) : bool := is_some (revoked_keys m !! k).
Definition get_revocation (m : RevocationManager) (k : list Z) : option RevocationEntry := revoked_keys m !! k.

Definition add_trust (m : RevocationManager) (r : TrustRelationship) : RevocationManager :=
  set_trust m (<[tr_peer_id r := r]> (trust_relationships m)).
Definition remove_trust (m : RevocationManager) (p : list Z) : RevocationManager :=
  set_trust m (delete p (trust_relationships m)).

Definition add_once (x : list Z) (l : list (list Z)) : list (list Z) :=
  if decide (x ∈ l) then l else l ++ [x].
Definition register_issued_key (m : RevocationManager) (k : list Z) : RevocationManager :=
  mkRevocations (rm_node_id m) (rm_config m) (revoked_keys m) (pending_threshold m)
    (trust_relationships m) (our_sequence m) (add_once k (issued_keys m)) (key_issuers m)
    (session_invalidators m).
Definition register_key_issuer (m : RevocationManager) (k issuer : list Z) : RevocationManager :=
  mkRevocations (rm_node_id m) (rm_config m) (revoked_keys m) (pending_threshold m)
    (trust_relationships m) (our_sequence m) (issued_keys m)
    (<[k := add_once issuer (default [] (key_issuers m !! k))]> (key_issuers m)) (session_invalidators m).
Definition is_registered_authority (m : RevocationManager) (k revoker : list Z) : bool :=
  match key_issuers m !! k with Some issuers => bool_decide (revoker ∈ issuers) | None => false end.

Section Manager.
Context `{Ed25519}.

(** [VerifyingKey::from_bytes] and the non-strict [verify]. *)
Definition certificate_verify (c : RevocationCertificate) (pk : list Z) : bool :=
  ed_valid_key pk && ed_verify pk (certificate_bytes c) (rc_signature c).
Definition witness_verify (w : RevocationWitness) (pk : list Z) : bool :=
  ed_valid_key pk && ed_verify pk (witness_bytes w) (w_signature w).

Definition check_self (m : RevocationManager) (c : RevocationCertificate) : outcome RevocationError unit :=
  if negb (certificate_verify c (revoked_key_id c)) then Err RInvalidSignature else Ok tt.
Definition check_authority (m : RevocationManager) (c : RevocationCertificate) : outcome RevocationError unit :=
  if negb (certificate_verify c (revoker_id c)) then Err RInvalidSignature
  else if negb (is_registered_authority m (revoked_key_id c) (revoker_id c)) then Err NotAuthorized
  else Ok tt.

(** Direct or authority semantics, for certificates that came over a transport. *)
Definition check_relayed (m : RevocationManager) (c : RevocationCertificate) : outcome RevocationError unit :=
  if bool_decide (revoker_id c = revoked_key_id c) then
    if negb (allow_self_revocation (rm_config m)) then Err SelfRevocationDisabled else check_self m c
  else check_authority m c.

Definition check_source (m : RevocationManager) (c : RevocationCertificate) (s : RevocationSource) :
    outcome RevocationError unit :=
  match s with
  | SDirect =>
      if negb (allow_self_revocation (rm_config m)) then Err SelfRevocationDisabled
      else if negb (bool_decide (revoker_id c = revoked_key_id c)) then Err InvalidRevoker
      else check_self m c
  | SAuthority => check_authority m c
  | SWebOfTrust p =>
      match trust_relationships m !! p with
      | None => Err UntrustedSource
      | Some t =>
          if tr_trust_level t <? min_trust_level (rm_config m) then Err InsufficientTrust
          else if negb (can_propagate_revocations t) then Err PropagationNotAllowed
          else check_relayed m c
      end
  | SBroadcast | SCrl => check_relayed m c
  end.

Definition process_revocation (now : Z) (m : RevocationManager) (c : RevocationCertificate)
    (s : RevocationSource) : RevocationManager * outcome RevocationError RevocationAction * calls :=
  if is_some (revoked_keys m !! revoked_key_id c) then (m, Ok AlreadyRevoked, [])
  else if max_certificate_age_ms (rm_config m) <? u64_saturating_sub now (rc_timestamp_ms c)
  then (m, Err CertificateExpired, [])
  else
    match check_source m c s with
    | Ok _ =>
        let k := revoked_key_id c in
        (set_revoked m (<[k := mkEntryR c now s []]> (revoked_keys m)) (pending_threshold m),
         Ok (Revoked k), invalidate_sessions m k)
    | Err e => (m, Err e, [])
    | Panic => (m, Panic, [])
    end.

(** The certificate stored once the threshold is reached. *)
Definition threshold_certificate (now : Z) (k : list Z) : RevocationCertificate :=
  mkCertificate k now 0 ThresholdRevoked (replicate 32 0) (replicate 64 0) None.

Definition process_witness_vote (now : Z) (m : RevocationManager) (w : RevocationWitness) (pk : list Z) :
    RevocationManager * outcome RevocationError RevocationAction * calls :=
  let k := w_revoked_key_id w in
  if is_some (revoked_keys m !! k) then (m, Ok AlreadyRevoked, [])
  else
    match trust_relationships m !! pk with
    | None => (m, Err UntrustedSource, [])
    | Some t =>
        if negb (can_witness t) then (m, Err WitnessNotAllowed, [])
        else if negb (witness_verify w pk) then (m, Err RInvalidSignature, [])
        else if negb (bool_decide (witness_id w = pk)) then (m, Err WitnessIdMismatch, [])
        else
          let pending := default [] (pending_threshold m !! k) in
          let entered := set_revoked m (revoked_keys m) (<[k := pending]> (pending_threshold m)) in
          if existsb (λ v, bool_decide (witness_id v = witness_id w)) pending
          then (entered, Err DuplicateWitness, [])
          else
            let pending := pending ++ [w] in
            let m := set_revoked m (revoked_keys m) (<[k := pending]> (pending_threshold m)) in
            let required := (witness_threshold (rm_config m)).1 in
            if required <=? len pending then
              match pending with
              | [] => (m, Panic, [])
              | first :: _ =>
                  let key := w_revoked_key_id first in
                  match pending_threshold m !! key with
                  | None => (m, Panic, [])
                  | Some ws =>
                      (set_revoked m
                         (<[key := mkEntryR (threshold_certificate now key) now SDirect ws]> (revoked_keys m))
                         (delete key (pending_threshold m)),
                       Ok (ThresholdReached key), invalidate_sessions m key)
                  end
              end
            else (m, Ok (WitnessRecorded k (len pending) required), [])
    end.

Definition bump_sequence (m : RevocationManager) : RevocationManager :=
  mkRevocations (rm_node_id m) (rm_config m) (revoked_keys m) (pending_threshold m)
    (trust_relationships m) (u64_add (our_sequence m) 1) (issued_keys m) (key_issuers m)
    (session_invalidators m).

Definition sign_certificate (c : RevocationCertificate) (sk : list Z) : RevocationCertificate :=
  mkCertificate (revoked_key_id c) (rc_timestamp_ms c) (rc_sequence c) (rc_reason c) (revoker_id c)
    (ed_sign sk (certificate_bytes c)) (superseded_by c).

Definition create_self_revocation (now : Z) (m : RevocationManager) (sk : list Z) (r : RevocationReason)
    (sup : option (list Z)) : RevocationManager * RevocationCertificate :=
  let m := bump_sequence m in
  (m, sign_certificate
        (mkCertificate (rm_node_id m) now (our_sequence m) r (rm_node_id m) (replicate 64 0) sup) sk).

Definition create_authority_revocation (now : Z) (m : RevocationManager) (k sk : list Z)
    (r : RevocationReason) : RevocationManager * outcome RevocationError RevocationCertificate :=
  if negb (bool_decide (k ∈ issued_keys m)) then (m, Err NotAuthorized)
  else
    let m := bump_sequence m in
    (m, Ok (sign_certificate
              (mkCertificate k now (our_sequence m) r (rm_node_id m) (replicate 64 0) None) sk)).
End Manager.

Definition get_propagatable_revocations (m : RevocationManager) (since_ms : Z) : list RevocationEntry :=
  (map_to_list (filter (λ ke, since_ms ≤ received_at_ms ke.2) (revoked_keys m))).*2.

(** ** Wire form *)

Definition REV_HEADER : list Z := as_bytes (str "AXIOM-REV") ++ [0; 1].

Definition serialize_fields (c : RevocationCertificate) : list (list Z) :=
  [REV_HEADER; revoked_key_id c; to_le 8 (rc_timestamp_ms c); to_le 8 (rc_sequence c);
   [reason_code (rc_reason c)]; revoker_id c; rc_signature c]
  ++ superseded_fields (superseded_by c).
Definition serialize_revocation (c : RevocationCertificate) : list Z := concat (serialize_fields c).

Definition deserialize_revocation (data : list Z) : outcome RevocationError RevocationCertificate :=
  if len data <? 11 + 32 + 8 + 8 + 1 + 32 + 64 + 1 then Err MalformedData
  else
    header ← slice data 0 11;
    if negb (bool_decide (header = REV_HEADER)) then Err InvalidHeader
    else
      let offset := 11 in
      key ← slice data offset (offset + 32);
      let offset := offset + 32 in
      ts ← slice data offset (offset + 8);
      let offset := offset + 8 in
      sq ← slice data offset (offset + 8);
      let offset := offset + 8 in
      b ← index data offset;
      let offset := offset + 1 in
      revoker ← slice data offset (offset + 32);
      let offset := offset + 32 in
      sg ← slice data offset (offset + 64);
      let offset := offset + 64 in
      flag ← index data offset;
      sup ← (if flag =? 1 then
               if len data <? offset + 1 + 32 then Err MalformedData
               else new_key ← slice data (offset + 1) (offset + 33); Ok (Some new_key)
             else Ok None);
      Ok (mkCertificate key (from_le ts) (from_le sq) (reason_of_code b) revoker sg sup).

(** ** Lemmas on the wire form *)

Record certificate_ok (c : RevocationCertificate) : Prop := {
  co_key : array_ok 32 (revoked_key_id c);
  co_time : 0 ≤ rc_timestamp_ms c < 2 ^ 64;
  co_seq : 0 ≤ rc_sequence c < 2 ^ 64;
  co_revoker : array_ok 32 (revoker_id c);
  co_signature : array_ok 64 (rc_signature c);
  co_superseded : ∀ k, superseded_by c = Some k → array_ok 32 k
}.

Lemma reason_of_code_code r : reason_of_code (reason_code r) = r.
Proof. by destruct r. Qed.

Lemma reason_code_inj r s : reason_code r = reason_code s → r = s.
Proof. intros E. by rewrite <- (reason_of_code_code r), E, reason_of_code_code. Qed.

(** [field_at] for certificates. *)
Ltac certificate_field l := first [done | try unfold l; cbn [take concat app superseded_fields]; solve_len].

Lemma deserialize_serialize c rest :
  certificate_ok c → deserialize_revocation (serialize_revocation c ++ rest) = Ok c.
Proof.
  intros [Hk Ht Hs Hr Hg Hp]. destruct c as [k t s r rv g p].
  cbn [revoked_key_id rc_timestamp_ms rc_sequence rc_reason revoker_id rc_signature superseded_by] in *.
  assert (Hh : len REV_HEADER = 11) by reflexivity. apply len_array in Hk, Hr, Hg.
  assert (Ed : ∃ fs, serialize_revocation (mkCertificate k t s r rv g p) ++ rest
                     = concat ([REV_HEADER; k; to_le 8 t; to_le 8 s; [reason_code r]; rv; g] ++ fs) ∧
                     fs = superseded_fields p ++ [rest]).
  { eexists. split; [|reflexivity]. unfold serialize_revocation, serialize_fields.
    cbn [revoked_key_id rc_timestamp_ms rc_sequence rc_reason revoker_id rc_signature superseded_by].
    rewrite !concat_app, <- !app_assoc. do 2 f_equal. cbn. by rewrite app_nil_r. }
  destruct Ed as (fs & -> & Efs). set (l := _ ++ fs).
  assert (Hl : len (concat l) = 156 + len (concat fs)).
  { subst l. rewrite concat_app. cbn [concat app]. solve_len. }
  assert (Hfs : len (concat fs) = (match p with Some _ => 33 | None => 1 end) + len rest).
  { subst fs. rewrite concat_app. destruct p as [q|]; cbn; [specialize (Hp q eq_refl); apply len_array in Hp|];
      rewrite app_nil_r; solve_len. }
  pose proof (len_nonneg rest). unfold deserialize_revocation. case_ltb; [destruct p; lia|].
  rewrite (slice_field l 0 REV_HEADER 0 11), bind_Ok by certificate_field l.
  rewrite bool_decide_eq_true_2 by done. cbn [negb].
  rewrite (slice_field l 1 k 11 (11 + 32)), bind_Ok by certificate_field l.
  rewrite (slice_field l 2 (to_le 8 t) (11 + 32) (11 + 32 + 8)), bind_Ok by certificate_field l.
  rewrite (slice_field l 3 (to_le 8 s) (11 + 32 + 8) (11 + 32 + 8 + 8)), bind_Ok by certificate_field l.
  rewrite (index_field l 4 (reason_code r) (11 + 32 + 8 + 8)), bind_Ok by certificate_field l.
  rewrite (slice_field l 5 rv (11 + 32 + 8 + 8 + 1) (11 + 32 + 8 + 8 + 1 + 32)), bind_Ok by certificate_field l.
  rewrite (slice_field l 6 g (11 + 32 + 8 + 8 + 1 + 32) (11 + 32 + 8 + 8 + 1 + 32 + 64)), bind_Ok by certificate_field l.
  subst fs. rewrite !from_le_to_le, reason_of_code_code by done. destruct p as [q|].
  - specialize (Hp q eq_refl). apply len_array in Hp.
    rewrite (index_field l 7 1 (11 + 32 + 8 + 8 + 1 + 32 + 64)), bind_Ok by certificate_field l. rewrite Z.eqb_refl.
    case_ltb. rewrite (slice_field l 8 q) by certificate_field l. by rewrite !bind_Ok.
  - rewrite (index_field l 7 0 (11 + 32 + 8 + 8 + 1 + 32 + 64)), bind_Ok by certificate_field l. reflexivity.
Qed.

Lemma deserialize_no_panic data : deserialize_revocation data ≠ Panic.
Proof.
  unfold deserialize_revocation. case_ltb; [done|].
  apply bind_not_Panic; [apply slice_not_Panic; lia|]. intros h Eh. case_bool_decide; [|done]. cbn [negb].
  repeat (apply bind_not_Panic; [first [apply slice_not_Panic; lia|apply index_not_Panic; lia]|]; intros ? _).
  apply bind_not_Panic; [|done]. destruct (_ =? 1); [|done]. case_ltb; [done|].
  apply bind_not_Panic; [apply slice_not_Panic; lia|done].
Qed.


(** What a signature covers: everything but itself. *)
Definition unsigned (c : RevocationCertificate) :=
  (revoked_key_id c, rc_timestamp_ms c, rc_sequence c, rc_reason c, revoker_id c, superseded_by c).

Lemma len_certificate_bytes c :
  certificate_ok c →
  len (certificate_bytes c) = 96 + (match superseded_by c with Some _ => 32 | None => 0 end).
Proof.
  intros [Hk _ _ Hr _ Hp]. apply len_array in Hk, Hr. unfold certificate_bytes, canonical_fields.
  assert (Hm : len (as_bytes (str "AXIOM-REVOKE")) = 12) by reflexivity.
  rewrite concat_app. destruct (superseded_by c) as [q|]; cbn [concat app superseded_fields].
  - specialize (Hp q eq_refl). apply len_array in Hp. solve_len.
  - solve_len.
Qed.

Lemma certificate_bytes_inj c d :
  certificate_ok c → certificate_ok d → certificate_bytes c = certificate_bytes d → unsigned c = unsigned d.
Proof.
  intros Hc Hd E. pose proof (len_certificate_bytes c Hc) as Lc. pose proof (len_certificate_bytes d Hd) as Ld.
  rewrite E, Ld in Lc. destruct Hc as [Hk Ht Hs Hr _ Hp], Hd as [Hk' Ht' Hs' Hr' _ Hp'].
  unfold certificate_bytes in E. apply concat_fields_inj in E.
  - assert (Hf : ∀ i x y, canonical_fields c !! i = Some x → canonical_fields d !! i = Some y → x = y)
      by (intros i x y; rewrite E; congruence).
    pose proof (Hf 1%nat _ _ eq_refl eq_refl) as Ek. pose proof (Hf 5%nat _ _ eq_refl eq_refl) as Ev.
    pose proof (to_le_inj 8 _ _ Ht Ht' (Hf 2%nat _ _ eq_refl eq_refl)) as Et.
    pose proof (to_le_inj 8 _ _ Hs Hs' (Hf 3%nat _ _ eq_refl eq_refl)) as Es.
    pose proof (Hf 4%nat _ _ eq_refl eq_refl) as Er. injection Er as Er. apply reason_code_inj in Er.
    unfold unsigned. rewrite Ek, Et, Es, Er, Ev. f_equal. specialize (Hf 7%nat).
    unfold canonical_fields in Hf. destruct (superseded_by c) as [q|], (superseded_by d) as [q'|]; try lia; [|done].
    by rewrite (Hf q q').
  - destruct Hk as [Hk _], Hk' as [Hk' _], Hr as [Hr _], Hr' as [Hr' _]. unfold canonical_fields.
    destruct (superseded_by c) as [q|], (superseded_by d) as [q'|]; try lia; cbn -[to_le as_bytes str].
    + destruct (Hp q eq_refl) as [-> _], (Hp' q' eq_refl) as [-> _]. by rewrite Hk, Hk', Hr, Hr'.
    + by rewrite Hk, Hk', Hr, Hr'.
Qed.

(** ** Runs of the manager *)

Inductive rev_op :=
  | RAddTrust (r : TrustRelationship)
  | RRemoveTrust (p : list Z)
  | RIssued (k : list Z)
  | RIssuer (k issuer : list Z)
  | RInvalidator (cb : nat)
  | RProcess (now : Z) (c : RevocationCertificate) (s : RevocationSource)
  | RVote (now : Z) (w : RevocationWitness) (pk : list Z)
  | RSelf (now : Z) (sk : list Z) (r : RevocationReason) (sup : option (list Z))
  | RAuthority (now : Z) (k sk : list Z) (r : RevocationReason).

Section Runs.
Context `{Ed25519}.

Definition rev_step (m : RevocationManager) (o : rev_op) : RevocationManager * calls :=
  match o with
  | RAddTrust r => (add_trust m r, [])
  | RRemoveTrust p => (remove_trust m p, [])
  | RIssued k => (register_issued_key m k, [])
  | RIssuer k i => (register_key_issuer m k i, [])
  | RInvalidator cb => (register_session_invalidator m cb, [])
  | RProcess now c s => let '(m', _, cs) := process_revocation now m c s in (m', cs)
  | RVote now w pk => let '(m', _, cs) := process_witness_vote now m w pk in (m', cs)
  | RSelf now sk r sup => ((create_self_revocation now m sk r sup).1, [])
  | RAuthority now k sk r => ((create_authority_revocation now m k sk r).1, [])
  end.
Definition rev_run (ops : list rev_op) (m : RevocationManager) : RevocationManager :=
  foldl (λ m o, (rev_step m o).1) m ops.

(** Votes collected for [k]: distinct witnesses, each with its own valid signature
    for this key, and each once trusted to be a witness. *)
Definition vote_ok (ops : list rev_op) (k : list Z) (w : RevocationWitness) : Prop :=
  w_revoked_key_id w = k ∧ witness_verify w (witness_id w) = true ∧
  ∃ r, RAddTrust r ∈ ops ∧ tr_peer_id r = witness_id w ∧ can_witness r = true.
Definition votes_ok (ops : list rev_op) (k : list Z) (ws : list RevocationWitness) : Prop :=
  NoDup (witness_id <$> ws) ∧ Forall (vote_ok ops k) ws.

(** Why a key may be in the database. *)
Definition entitled (ops : list rev_op) (cfg : WebOfTrustConfig) (c : RevocationCertificate) : Prop :=
  (revoker_id c = revoked_key_id c ∧ allow_self_revocation cfg = true ∧
     certificate_verify c (revoked_key_id c) = true) ∨
  (certificate_verify c (revoker_id c) = true ∧ RIssuer (revoked_key_id c) (revoker_id c) ∈ ops).
Definition relayed (ops : list rev_op) (cfg : WebOfTrustConfig) (s : RevocationSource) : Prop :=
  match s with
  | SWebOfTrust p =>
      ∃ r, RAddTrust r ∈ ops ∧ tr_peer_id r = p ∧ can_propagate_revocations r = true ∧
           min_trust_level cfg ≤ tr_trust_level r
  | _ => True
  end.
Definition justified (ops : list rev_op) (cfg : WebOfTrustConfig) (k : list Z) (e : RevocationEntry) : Prop :=
  revoked_key_id (certificate e) = k ∧
  ((entitled ops cfg (certificate e) ∧ relayed ops cfg (re_source e) ∧
      received_at_ms e ≤ rc_timestamp_ms (certificate e) + max_certificate_age_ms cfg) ∨
   (rc_reason (certificate e) = ThresholdRevoked ∧ (witness_threshold cfg).1 ≤ len (witnesses e) ∧
      witnesses e ≠ [] ∧ votes_ok ops k (witnesses e))).

Record rev_ok (ops : list rev_op) (cfg : WebOfTrustConfig) (m : RevocationManager) : Prop := {
  ro_config : rm_config m = cfg;
  ro_revoked k e : revoked_keys m !! k = Some e → justified ops cfg k e;
  ro_pending k ws : pending_threshold m !! k = Some ws →
    votes_ok ops k ws ∧ ws ≠ [] ∧ len ws < (witness_threshold cfg).1;
  ro_trust p r : trust_relationships m !! p = Some r → RAddTrust r ∈ ops ∧ tr_peer_id r = p;
  ro_issuers k l i : key_issuers m !! k = Some l → i ∈ l → RIssuer k i ∈ ops
}.

Lemma vote_ok_app ops ops' k w : vote_ok ops k w → vote_ok (ops ++ ops') k w.
Proof. intros (? & ? & r & ? & ? & ?). split_and!; [done..|]. exists r. split_and!; [set_solver|done..]. Qed.

Lemma votes_ok_app ops ops' k ws : votes_ok ops k ws → votes_ok (ops ++ ops') k ws.
Proof. intros [? Hf]. split; [done|]. eapply Forall_impl; [exact Hf|]. intros. by apply vote_ok_app. Qed.

Lemma justified_app ops ops' cfg k e : justified ops cfg k e → justified (ops ++ ops') cfg k e.
Proof.
  intros [Hk [(He & Hr & Ha)|(? & ? & ? & ?)]]; (split; [done|]).
  - left. split_and!; [|destruct (re_source e) as [| |p| |]; try done|done].
    + destruct He as [?|[? ?]]; [by left|right; set_solver].
    + destruct Hr as (r & ? & ? & ? & ?). exists r. split_and!; [set_solver|done..].
  - right. split_and!; [done..|]. by apply votes_ok_app.
Qed.

Lemma rev_ok_app ops ops' cfg m : rev_ok ops cfg m → rev_ok (ops ++ ops') cfg m.
Proof.
  intros [Hc Hr Hp Ht Hi]. split; [done|..].
  - intros k e E. by apply justified_app, Hr.
  - intros k ws E. destruct (Hp k ws E) as (? & ? & ?). by split_and!; [apply votes_ok_app|..].
  - intros p r E. destruct (Ht p r E). set_solver.
  - intros k l i E El. specialize (Hi k l i E El). set_solver.
Qed.

Lemma rev_ok_new id cfg : rev_ok [] cfg (RevocationManager_new id cfg).
Proof. by split. Qed.

Lemma is_registered_authority_ok ops cfg m k i :
  rev_ok ops cfg m → is_registered_authority m k i = true → RIssuer k i ∈ ops.
Proof.
  intros Hm. unfold is_registered_authority. destruct (key_issuers m !! k) as [l|] eqn:E; [|done].
  intros ?%bool_decide_eq_true_1. by eapply ro_issuers.
Qed.

Lemma check_authority_ok ops cfg m c :
  rev_ok ops cfg m → check_authority m c = Ok tt → entitled ops cfg c.
Proof.
  intros Hm. unfold check_authority. destruct (certificate_verify c (revoker_id c)) eqn:Ev; [|done]. cbn [negb].
  destruct (is_registered_authority _ _ _) eqn:Ea; [|done]. intros _. right. split; [done|].
  by eapply is_registered_authority_ok.
Qed.

Lemma check_relayed_ok ops cfg m c :
  rev_ok ops cfg m → check_relayed m c = Ok tt → entitled ops cfg c.
Proof.
  intros Hm. unfold check_relayed. case_bool_decide as Hs; [|by apply check_authority_ok].
  rewrite (ro_config _ _ _ Hm). destruct (allow_self_revocation cfg) eqn:Ea; [|done]. cbn [negb].
  unfold check_self. destruct (certificate_verify c _) eqn:Ev; [|done]. intros _. by left.
Qed.

Lemma check_source_ok ops cfg m c s :
  rev_ok ops cfg m → check_source m c s = Ok tt → entitled ops cfg c ∧ relayed ops cfg s.
Proof.
  intros Hm. destruct s as [| |p| |]; cbn [check_source relayed].
  - rewrite (ro_config _ _ _ Hm). destruct (allow_self_revocation cfg) eqn:Ea; [|done]. cbn [negb].
    case_bool_decide as Hs; [|done]. cbn [negb]. unfold check_self.
    destruct (certificate_verify c _) eqn:Ev; [|done]. intros _. split; [by left|done].
  - intros E. split; [by eapply check_authority_ok|done].
  - destruct (trust_relationships m !! p) as [t|] eqn:Et; [|done]. rewrite (ro_config _ _ _ Hm).
    destruct (Z.ltb_spec (tr_trust_level t) (min_trust_level cfg)); [done|].
    destruct (can_propagate_revocations t) eqn:Ec; [|done]. cbn [negb]. intros E.
    split; [by eapply check_relayed_ok|]. destruct (ro_trust _ _ _ Hm p t Et). by exists t.
  - intros E. split; [by eapply check_relayed_ok|done].
  - intros E. split; [by eapply check_relayed_ok|done].
Qed.

Lemma rev_ok_set ops cfg m r p :
  rev_ok ops cfg m → (∀ k e, r !! k = Some e → justified ops cfg k e) →
  (∀ k ws, p !! k = Some ws → votes_ok ops k ws ∧ ws ≠ [] ∧ len ws < (witness_threshold cfg).1) →
  rev_ok ops cfg (set_revoked m r p).
Proof. intros [] ? ?. by split. Qed.

Lemma check_source_no_panic m c s : check_source m c s ≠ Panic.
Proof.
  destruct s as [| |p| |]; cbn [check_source]; [..|destruct (trust_relationships m !! p)|idtac|idtac];
    unfold check_relayed, check_self, check_authority; repeat case_match; done.
Qed.

Lemma process_revocation_cases now m c s m' r cs :
  process_revocation now m c s = (m', r, cs) →
  r ≠ Panic ∧
  ((m' = m ∧ cs = []) ∨
   (revoked_keys m !! revoked_key_id c = None ∧ check_source m c s = Ok tt ∧
    u64_saturating_sub now (rc_timestamp_ms c) ≤ max_certificate_age_ms (rm_config m) ∧
    m' = set_revoked m (<[revoked_key_id c := mkEntryR c now s []]> (revoked_keys m)) (pending_threshold m) ∧
    r = Ok (Revoked (revoked_key_id c)) ∧ cs = invalidate_sessions m (revoked_key_id c))).
Proof.
  unfold process_revocation. destruct (revoked_keys m !! revoked_key_id c) eqn:Er; cbn [is_some].
  { intros [= <- <- <-]. auto. }
  destruct (Z.ltb_spec (max_certificate_age_ms (rm_config m)) (u64_saturating_sub now (rc_timestamp_ms c))) as [|Ha].
  { intros [= <- <- <-]. auto. }
  pose proof (check_source_no_panic m c s) as Hn. destruct (check_source m c s) as [[]|e|]; [..|done].
  - intros [= <- <- <-]. split; [done|]. right. by split_and!.
  - intros [= <- <- <-]. auto.
Qed.

Lemma process_revocation_ok ops cfg now m c s m' r cs :
  rev_ok ops cfg m → process_revocation now m c s = (m', r, cs) → rev_ok ops cfg m'.
Proof.
  intros Hm E. destruct (process_revocation_cases _ _ _ _ _ _ _ E) as [_ [[-> _]|(_ & Hs & Ha & -> & _)]]; [done|].
  apply rev_ok_set; [done| |apply (ro_pending _ _ _ Hm)]. intros k e [[<- <-]|[_ He]]%lookup_insert_Some;
    [|by apply (ro_revoked _ _ _ Hm)].
  destruct (check_source_ok _ _ _ _ _ Hm Hs). rewrite (ro_config _ _ _ Hm) in Ha. unfold u64_saturating_sub in Ha.
  split; [done|]. left. cbn. split_and!; [done..|lia].
Qed.

(** A vote that passes every check, added to the ones collected. *)
Lemma votes_ok_add ops cfg m w t :
  rev_ok ops cfg m → trust_relationships m !! witness_id w = Some t → can_witness t = true →
  witness_verify w (witness_id w) = true →
  let pending := default [] (pending_threshold m !! w_revoked_key_id w) in
  existsb (λ v, bool_decide (witness_id v = witness_id w)) pending = false →
  votes_ok ops (w_revoked_key_id w) (pending ++ [w]).
Proof.
  intros Hm Et Hc Hv pending Hn.
  assert (Hp : votes_ok ops (w_revoked_key_id w) pending).
  { subst pending. destruct (pending_threshold m !! _) eqn:E; [by apply (ro_pending _ _ _ Hm) in E as [? _]|].
    split; [apply NoDup_nil_2|done]. }
  destruct Hp as [Hd Hf]. split.
  - rewrite fmap_app. apply NoDup_app. split_and!; [done| |apply NoDup_singleton].
    intros x Hx Hin. apply list_elem_of_fmap in Hx as (v & -> & Hv'). cbn in Hin. apply list_elem_of_singleton in Hin.
    assert (Hb : existsb (λ v, bool_decide (witness_id v = witness_id w)) pending = true).
    { apply existsb_exists. exists v. split; [by apply list_elem_of_In|by apply bool_decide_eq_true_2]. }
    congruence.
  - apply Forall_app. split; [done|]. apply Forall_singleton. split_and!; [done..|].
    destruct (ro_trust _ _ _ Hm _ _ Et). by exists t.
Qed.

Lemma process_vote_cases ops cfg now m w pk m' r cs :
  rev_ok ops cfg m → process_witness_vote now m w pk = (m', r, cs) →
  let k := w_revoked_key_id w in
  r ≠ Panic ∧
  ((revoked_keys m' = revoked_keys m ∧ cs = [] ∧ rev_ok ops cfg m') ∨
   (revoked_keys m !! k = None ∧
    ∃ ws, votes_ok ops k ws ∧ ws ≠ [] ∧ (witness_threshold cfg).1 ≤ len ws ∧
    m' = set_revoked m (<[k := mkEntryR (threshold_certificate now k) now SDirect ws]> (revoked_keys m))
           (delete k (pending_threshold m)) ∧
    r = Ok (ThresholdReached k) ∧ cs = invalidate_sessions m k)).
Proof.
  intros Hm E k. unfold process_witness_vote in E. fold k in E.
  destruct (revoked_keys m !! k) eqn:Er; cbn [is_some] in E; [injection E as <- <- <-; auto|].
  destruct (trust_relationships m !! pk) as [t|] eqn:Et; [|injection E as <- <- <-; auto].
  destruct (can_witness t) eqn:Ec; cbn [negb] in E; [|injection E as <- <- <-; auto].
  destruct (witness_verify w pk) eqn:Ev; cbn [negb] in E; [|injection E as <- <- <-; auto].
  case_bool_decide as Hid; cbn [negb] in E; [|injection E as <- <- <-; auto]. subst pk.
  pose proof (votes_ok_add _ _ _ _ _ Hm Et Ec Ev) as Hadd. fold k in Hadd.
  destruct (existsb _ _) eqn:Ed.
  { injection E as <- <- <-. split; [done|]. left. split_and!; [done..|]. apply rev_ok_set; [done|apply (ro_revoked _ _ _ Hm)|].
    destruct (pending_threshold m !! k) as [ws|] eqn:Ep; [|done]. cbn [default]. rewrite insert_id by done.
    apply (ro_pending _ _ _ Hm). }
  specialize (Hadd Ed). set (pending := default [] (pending_threshold m !! k)) in *.
  cbn [set_revoked rm_config pending_threshold revoked_keys] in E. rewrite (ro_config _ _ _ Hm) in E.
  assert (Hne : pending ++ [w] ≠ []) by (by destruct pending).
  destruct (Z.leb_spec (witness_threshold cfg).1 (len (pending ++ [w]))) as [Hq|Hq].
  - destruct (pending ++ [w]) as [|f l] eqn:Epw; [done|].
    assert (Hk : w_revoked_key_id f = k) by (destruct Hadd as [_ Hf]; by apply Forall_inv in Hf as [? _]).
    rewrite Hk, lookup_insert_eq in E. injection E as <- <- <-. split; [done|]. right. split; [done|].
    exists (f :: l). split_and!; [done..| |done|done]. unfold set_revoked. cbn. by rewrite delete_insert_eq.
  - injection E as <- <- <-. split; [done|]. left. split_and!; [done..|].
    apply rev_ok_set; [done|apply (ro_revoked _ _ _ Hm)|].
    intros k' ws [[<- <-]|[_ ?]]%lookup_insert_Some; [done|]. by apply (ro_pending _ _ _ Hm).
Qed.

Lemma process_vote_ok ops cfg now m w pk m' r cs :
  rev_ok ops cfg m → process_witness_vote now m w pk = (m', r, cs) → rev_ok ops cfg m'.
Proof.
  intros Hm E. destruct (process_vote_cases _ _ _ _ _ _ _ _ _ Hm E) as [_ [(_ & _ & ?)|(_ & ws & Hv & Hn & Hq & -> & _)]];
    [done|]. apply rev_ok_set; [done|..].
  - intros k' e [[<- <-]|[_ He]]%lookup_insert_Some; [|by apply (ro_revoked _ _ _ Hm)].
    split; [done|]. right. by split_and!.
  - intros k' ws' [_ He]%lookup_delete_Some. by apply (ro_pending _ _ _ Hm).
Qed.

Lemma elem_of_add_once x y l : x ∈ add_once y l → x = y ∨ x ∈ l.
Proof. unfold add_once. case_decide; set_solver. Qed.

Lemma rev_step_ok ops cfg m o : rev_ok ops cfg m → rev_ok (ops ++ [o]) cfg (rev_step m o).1.
Proof.
  intros Hm. pose proof (rev_ok_app ops [o] cfg m Hm) as Hm'.
  destruct o as [r|p|k|k i|cb|now c s|now w pk|now sk r sup|now k sk r]; cbn [rev_step fst].
  - destruct Hm' as [? ? ? Ht ?]. split; [done..| |done].
    cbn. intros p t [[<- <-]|[_ E]]%lookup_insert_Some; [split; [set_solver|done]|by apply Ht].
  - destruct Hm' as [? ? ? Ht ?]. split; [done..| |done]. cbn. intros p' t [_ E]%lookup_delete_Some. by apply Ht.
  - destruct Hm'. by split.
  - destruct Hm' as [? ? ? ? Hi]. split; [done..|].
    cbn. intros k' l j [[<- <-]|[_ E]]%lookup_insert_Some Hj; [|by eapply Hi].
    apply elem_of_add_once in Hj as [->|Hj]; [set_solver|].
    destruct (key_issuers m !! k) as [l|] eqn:E; [|set_solver]. by eapply Hi.
  - destruct Hm'. by split.
  - destruct (process_revocation now m c s) as [[m' r] cs] eqn:E. by eapply process_revocation_ok.
  - destruct (process_witness_vote now m w pk) as [[m' r] cs] eqn:E. by eapply process_vote_ok.
  - destruct Hm'. by split.
  - unfold create_authority_revocation. destruct (negb _); [done|]. destruct Hm'. by split.
Qed.

Lemma rev_run_ok ops cfg id : rev_ok ops cfg (rev_run ops (RevocationManager_new id cfg)).
Proof.
  induction ops as [|o ops IH] using rev_ind; [apply rev_ok_new|].
  unfold rev_run in *. rewrite foldl_app. by apply rev_step_ok.
Qed.

Lemma rev_step_revoked ops cfg m o :
  rev_ok ops cfg m →
  (revoked_keys (rev_step m o).1 = revoked_keys m ∧ (rev_step m o).2 = []) ∨
  ∃ k e, revoked_keys m !! k = None ∧ revoked_keys (rev_step m o).1 = <[k := e]> (revoked_keys m) ∧
         (rev_step m o).2 = invalidate_sessions m k.
Proof.
  intros Hm. destruct o as [r|p|k|k i|cb|now c s|now w pk|now sk r sup|now k sk r]; try (left; done); cbn [rev_step].
  - destruct (process_revocation now m c s) as [[m' r] cs] eqn:E.
    destruct (process_revocation_cases _ _ _ _ _ _ _ E) as [_ [[-> ->]|(? & _ & _ & -> & _ & ->)]]; [by left|right].
    by do 2 eexists.
  - destruct (process_witness_vote now m w pk) as [[m' r] cs] eqn:E.
    destruct (process_vote_cases _ _ _ _ _ _ _ _ _ Hm E) as [_ [(? & -> & _)|(? & ws & _ & _ & _ & -> & _ & ->)]]; [by left|right].
    by do 2 eexists.
  - left. unfold create_authority_revocation. by destruct (negb _).
Qed.

(** ** Properties *)

(** C27: no key is revoked without entitlement.  Whatever certificates, votes and
    administrative calls a manager has seen, every key in its database was
    revoked by a certificate that its own key signed (where self-revocation is
    allowed) or that a registered authority for that key signed, young enough
    and relayed by a trusted peer if relayed at all; or by the required number of
    distinct witnesses, each trusted as a witness and with its own valid
    signature for that key.  No input makes the manager panic. *)
Theorem revocation_soundness id cfg ops :
  let m := rev_run ops (RevocationManager_new id cfg) in
  (∀ k e, revoked_keys m !! k = Some e → justified ops cfg k e) ∧
  (∀ now c s, (process_revocation now m c s).1.2 ≠ Panic) ∧
  (∀ now w pk, (process_witness_vote now m w pk).1.2 ≠ Panic).
Proof.
  intros m. pose proof (rev_run_ok ops cfg id) as Hm. split_and!.
  - apply (ro_revoked _ _ _ Hm).
  - intros now c s. destruct (process_revocation now m c s) as [[m' r] cs] eqn:E.
    by destruct (process_revocation_cases _ _ _ _ _ _ _ E).
  - intros now w pk. destruct (process_witness_vote now m w pk) as [[m' r] cs] eqn:E.
    by destruct (process_vote_cases _ _ _ _ _ _ _ _ _ Hm E).
Qed.

(** A revocation is final, and sessions hear of it once.  An entry of the
    database is never changed or removed by any further operation; an operation
    that adds a key adds exactly one, not revoked before, and calls each
    registered invalidator once with it, in order; any other calls none. *)
Theorem revocation_permanent id cfg ops ops' o :
  let m := rev_run ops (RevocationManager_new id cfg) in
  revoked_keys m ⊆ revoked_keys (rev_run ops' m) ∧
  ((revoked_keys (rev_step m o).1 = revoked_keys m ∧ (rev_step m o).2 = []) ∨
   ∃ k e, revoked_keys m !! k = None ∧ revoked_keys (rev_step m o).1 = <[k := e]> (revoked_keys m) ∧
          (rev_step m o).2 = (λ cb, (cb, k)) <$> session_invalidators m).
Proof.
  intros m. split; [|by eapply rev_step_revoked, rev_run_ok].
  induction ops' as [|o' ops' IH] using rev_ind; [done|]. etrans; [exact IH|]. unfold rev_run. rewrite foldl_app.
  fold (rev_run ops' m). cbn [foldl].
  assert (Hm : rev_ok (ops ++ ops') cfg (rev_run ops' m))
    by (unfold m, rev_run; rewrite <- foldl_app; apply rev_run_ok).
  destruct (rev_step_revoked _ _ _ o' Hm) as [[-> _]|(k & e & Hk & -> & _)]; [done|]. by apply insert_subseteq.
Qed.

(** The wire form of certificates.  What [serialize_revocation] writes,
    followed by anything, is read back exactly; no bytes make the reader panic;
    and two certificates with the same signed bytes agree on every field but
    the signature. *)
Theorem revocation_wire c d rest data :
  certificate_ok c → certificate_ok d →
  deserialize_revocation (serialize_revocation c ++ rest) = Ok c ∧
  deserialize_revocation data ≠ Panic ∧
  (certificate_bytes c = certificate_bytes d → unsigned c = unsigned d).
Proof.
  intros Hc Hd. split_and!; [by apply deserialize_serialize|apply deserialize_no_panic|by apply certificate_bytes_inj].
Qed.

Lemma sign_certificate_verifies c sk :
  array_ok 32 sk → certificate_verify (sign_certificate c sk) (ed_public sk) = true.
Proof.
  intros Hs. unfold certificate_verify. change (certificate_bytes (sign_certificate c sk)) with (certificate_bytes c).
  rewrite ed_public_valid by done. cbn. by apply ed_strict_implies, ed_sign_verifies.
Qed.

Lemma process_revocation_accepts now m c s :
  revoked_keys m !! revoked_key_id c = None →
  now ≤ rc_timestamp_ms c + max_certificate_age_ms (rm_config m) → 0 ≤ max_certificate_age_ms (rm_config m) →
  check_source m c s = Ok tt →
  ∃ m', process_revocation now m c s = (m', Ok (Revoked (revoked_key_id c)), invalidate_sessions m (revoked_key_id c)) ∧
        is_revoked m' (revoked_key_id c) = true.
Proof.
  intros Hn Ha Hp Hs. unfold process_revocation. rewrite Hn, Hs. cbn [is_some]. unfold u64_saturating_sub.
  case_ltb. eexists. split; [reflexivity|]. unfold is_revoked. cbn. by rewrite lookup_insert_eq.
Qed.

(** Honest revocations take effect.  The certificate a node creates for its own
    key, or for a key it issued, is accepted by every other manager that has not
    revoked the key yet, within the age limit, from any source that carries it, if
    it allows self-revocation, or knows the node as an authority for that key. *)
Theorem revocation_effective a b sk k r sup now now' s :
  array_ok 32 sk → rm_node_id a = ed_public sk →
  now' ≤ now + max_certificate_age_ms (rm_config b) → 0 ≤ max_certificate_age_ms (rm_config b) →
  (allow_self_revocation (rm_config b) = true → revoked_keys b !! ed_public sk = None →
   s = SDirect ∨ s = SBroadcast ∨ s = SCrl →
   ∃ b', process_revocation now' b (create_self_revocation now a sk r sup).2 s
         = (b', Ok (Revoked (ed_public sk)), invalidate_sessions b (ed_public sk)) ∧
         is_revoked b' (ed_public sk) = true) ∧
  (k ∈ issued_keys a → k ≠ ed_public sk → is_registered_authority b k (ed_public sk) = true →
   revoked_keys b !! k = None → s = SAuthority ∨ s = SBroadcast ∨ s = SCrl →
   ∃ c b', (create_authority_revocation now a k sk r).2 = Ok c ∧
     process_revocation now' b c s = (b', Ok (Revoked k), invalidate_sessions b k) ∧ is_revoked b' k = true).
Proof.
  intros Hsk Ha Hage Hpos. split.
  - intros Hself Hn Hs. cbn [create_self_revocation snd]. set (c := sign_certificate _ sk).
    assert (Hk : revoked_key_id c = ed_public sk) by exact Ha.
    assert (Hv : check_self b c = Ok tt).
    { unfold check_self. rewrite Hk. subst c. by rewrite sign_certificate_verifies. }
    rewrite <- Hk in Hn |- *. apply process_revocation_accepts; [done..|].
    assert (Hr : bool_decide (revoker_id c = revoked_key_id c) = true) by (by apply bool_decide_eq_true_2).
    destruct Hs as [-> | [-> | ->]]; cbn [check_source]; unfold check_relayed; by rewrite Hr, Hself.
  - intros Hi Hne Hauth Hn Hs. unfold create_authority_revocation. rewrite bool_decide_eq_true_2 by done. cbn [negb snd].
    eexists. set (c := sign_certificate _ sk).
    assert (Hk : revoked_key_id c = k) by done. assert (Hr : revoker_id c = ed_public sk) by exact Ha.
    assert (Hv : check_authority b c = Ok tt).
    { unfold check_authority. rewrite Hk, Hr, Hauth. subst c. by rewrite sign_certificate_verifies. }
    destruct (process_revocation_accepts now' b c s) as (b' & E & Hb); [by rewrite Hk|done|done| |by exists b'].
    destruct Hs as [-> | [-> | ->]]; cbn [check_source]; unfold check_relayed; try done;
      by rewrite bool_decide_eq_false_2 by (rewrite Hr, Hk; done).
Qed.
End Runs.

Definition sample_authority : RevocationManager :=
  register_issued_key (RevocationManager_new (@Keypair_node_id ed_reference sample_keypair) WebOfTrustConfig_default)
    (replicate 32 8).
Definition sample_relying : RevocationManager :=
  register_session_invalidator
    (register_key_issuer (RevocationManager_new (replicate 32 3) WebOfTrustConfig_default) (replicate 32 8)
       (@Keypair_node_id ed_reference sample_keypair)) 1.

Lemma revocation_effective_witness :
  ∃ c b', (@create_authority_revocation ed_reference 1000 sample_authority (replicate 32 8) (replicate 32 5)
             KeyCompromised).2 = Ok c ∧
    @process_revocation ed_reference 2000 sample_relying c SCrl
    = (b', Ok (Revoked (replicate 32 8)), [(1%nat, replicate 32 8)]) ∧ is_revoked b' (replicate 32 8) = true.
Proof.
  destruct (@revocation_effective ed_reference sample_authority sample_relying (replicate 32 5) (replicate 32 8)
              KeyCompromised None 1000 2000 SCrl) as [_ He].
  - apply array_ok_replicate. lia.
  - reflexivity.
  - vm_compute. discriminate.
  - vm_compute. discriminate.
  - apply He; [by apply list_elem_of_singleton|vm_compute; discriminate|vm_compute; reflexivity|reflexivity|auto].
Defined.

Lemma revocation_wire_witness :
  let c := mkCertificate (replicate 32 8) 1000 1 KeySuperseded (replicate 32 8) (replicate 64 9)
             (Some (replicate 32 4)) in
  deserialize_revocation (serialize_revocation c ++ [1; 2; 3]) = Ok c.
Proof.
  assert (Hc : certificate_ok (mkCertificate (replicate 32 8) 1000 1 KeySuperseded (replicate 32 8)
                 (replicate 64 9) (Some (replicate 32 4)))).
  { split; cbn -[array_ok replicate]; try lia; try (apply array_ok_replicate; lia).
    intros k [= <-]. apply (array_ok_replicate 32 4). lia. }
  apply (revocation_wire _ _ [1; 2; 3] [] Hc Hc).
Defined.
