(* ===== verification/RawSession.v ===== *)
(** * RAW sessions (axiom-crypto/src/raw_session.rs)

    Heartbeats with rolling keys, acknowledgements, timeouts, and the manager of the
    sessions of a node.  Keyed BLAKE3 is an interface; the random key contribution
    and the current time are arguments. *)

From Stdlib Require Import Sorting.Sorted.
From stdpp Require Import base numbers list gmap strings.
From S2P Require Import Prelude Types Codec Text Intent.

(** ** Keyed BLAKE3 *)

Class Blake3Keyed := {
  blake3_keyed : list Z → list Z → list Z;
  blake3_keyed_array : ∀ k m, array_ok 32 (blake3_keyed k m)
}.

(** An instance for examples: the message's last bytes, xor the key. *)
Definition keyed_reference : Blake3Keyed :=
  {| blake3_keyed k m := to_be 32 (Z.lxor (from_be k) (from_be m));
     blake3_keyed_array k m := conj (length_to_be _ _) (to_be_bytes_ok _ _) |}.

(** ** Sessions *)

Inductive RawSessionState := RActive | RDegraded | RTerminated.
#[export] Instance RawSessionState_eq_dec : EqDecision RawSessionState.
Proof. solve_decision. Defined.

Record RawSessionConfig := mkRawConfig {
  heartbeat_interval_ms : Z;
  grace_heartbeats : Z;
  key_rotation_interval : Z;
  max_clock_skew_ms : Z;
  sequence_window : Z;
  min_rotation_interval_ms : Z;
  max_rotations_per_session : Z
}.
Definition RawSessionConfig_default : RawSessionConfig := mkRawConfig 1000 3 60 5000 100 60000 1000.

Record KeyRotation := mkRotation { key_contribution : list Z; contribution_hmac : list Z }.
Record Heartbeat := mkHeartbeat {
  hb_session_id : list Z;
  hb_sequence : Z;
  hb_timestamp_ms : Z;
  hb_hmac : list Z;
  key_rotation : option KeyRotation
}.
Record HeartbeatAck := mkHeartbeatAck { ack_session_id : list Z; ack_sequence : Z; ack_hmac : list Z }.

Inductive RawSessionError :=
  | InvalidHmac | SequenceOutOfWindow | ReplayDetected | TimestampOutOfRange | SessionNotFound
  | SessionTerminated | KeyRotationFailed | RotationTooFrequent | RotationLimitExceeded.

Record RawSession := mkRaw {
  rs_session_id : list Z;
  rs_peer_id : list Z;
  session_key : list Z;
  prev_session_key : option (list Z);
  rs_sequence : Z;
  peer_sequence : Z;
  rs_established_at_ms : Z;
  last_heartbeat_sent_ms : Z;
  last_heartbeat_received_ms : Z;
  missed_heartbeats : Z;
  rs_state : RawSessionState;
  rs_config : RawSessionConfig;
  last_rotation_time_ms : Z;
  rotation_count : Z
}.
Definition RawSession_new (id peer key : list Z) (now : Z) (c : RawSessionConfig) : RawSession :=
  mkRaw id peer key None 0 0 now now now 0 RActive c 0 0.
Definition is_active (s : RawSession) : bool := bool_decide (rs_state s = RActive).

Section Session.
Context `{Blake3} `{Blake3Keyed}.

Definition heartbeat_hmac_with_key (s : RawSession) (key : list Z) (sq ts : Z) : list Z :=
  blake3_keyed key (rs_session_id s ++ to_le 8 sq ++ to_le 8 ts).
Definition ack_hmac_with_key (s : RawSession) (key : list Z) (sq : Z) : list Z :=
  blake3_keyed key (rs_session_id s ++ as_bytes (str "ACK") ++ to_le 8 sq).
Definition session_hmac (s : RawSession) (data : list Z) : list Z := blake3_keyed (session_key s) data.

Definition create_key_rotation (contribution : list Z) (s : RawSession) : KeyRotation :=
  mkRotation contribution (session_hmac s contribution).

Definition create_heartbeat (contribution : list Z) (s : RawSession) (now : Z) :
    RawSession * outcome RawSessionError Heartbeat :=
  let s := mkRaw (rs_session_id s) (rs_peer_id s) (session_key s) (prev_session_key s)
             (u64_add (rs_sequence s) 1) (peer_sequence s) (rs_established_at_ms s) now
             (last_heartbeat_received_ms s) (missed_heartbeats s) (rs_state s) (rs_config s)
             (last_rotation_time_ms s) (rotation_count s) in
  let hmac := heartbeat_hmac_with_key s (session_key s) (rs_sequence s) now in
  let interval := key_rotation_interval (rs_config s) in
  if interval =? 0 then (s, Panic)
  else
    let rot := if rs_sequence s mod interval =? 0 then Some (create_key_rotation contribution s) else None in
    (s, Ok (mkHeartbeat (rs_session_id s) (rs_sequence s) now hmac rot)).

Definition process_key_rotation (s : RawSession) (r : KeyRotation) (now : Z) :
    RawSession * outcome RawSessionError unit :=
  if (0 <? last_rotation_time_ms s) &&
     (u64_saturating_sub now (last_rotation_time_ms s) <? min_rotation_interval_ms (rs_config s))
  then (s, Err RotationTooFrequent)
  else if max_rotations_per_session (rs_config s) <=? rotation_count s then (s, Err RotationLimitExceeded)
  else if negb (bool_decide (contribution_hmac r = session_hmac s (key_contribution r)))
  then (s, Err KeyRotationFailed)
  else
    let new_key := blake3 (session_key s ++ key_contribution r ++ to_le 8 (rs_sequence s)) in
    (mkRaw (rs_session_id s) (rs_peer_id s) new_key (Some (session_key s)) (rs_sequence s)
       (peer_sequence s) (rs_established_at_ms s) (last_heartbeat_sent_ms s)
       (last_heartbeat_received_ms s) (missed_heartbeats s) (rs_state s) (rs_config s) now
       (rotation_count s + 1), Ok tt).

Definition raw_create_ack (s : RawSession) (sq : Z) : HeartbeatAck :=
  mkHeartbeatAck (rs_session_id s) sq (ack_hmac_with_key s (session_key s) sq).

Definition hmac_valid (s : RawSession) (h : Heartbeat) : bool :=
  bool_decide (hb_hmac h = heartbeat_hmac_with_key s (session_key s) (hb_sequence h) (hb_timestamp_ms h))
  || match prev_session_key s with
     | Some k => bool_decide (hb_hmac h = heartbeat_hmac_with_key s k (hb_sequence h) (hb_timestamp_ms h))
     | None => false
     end.

Definition heard (s : RawSession) (sq now : Z) : RawSession :=
  mkRaw (rs_session_id s) (rs_peer_id s) (session_key s) (prev_session_key s) (rs_sequence s) sq
    (rs_established_at_ms s) (last_heartbeat_sent_ms s) now 0 RActive (rs_config s)
    (last_rotation_time_ms s) (rotation_count s).

Definition process_heartbeat (s : RawSession) (h : Heartbeat) (now : Z) :
    RawSession * outcome RawSessionError HeartbeatAck :=
  if negb (bool_decide (hb_session_id h = rs_session_id s)) then (s, Err SessionNotFound)
  else if bool_decide (rs_state s = RTerminated) then (s, Err SessionTerminated)
  else
    let time_diff := if now <? hb_timestamp_ms h then hb_timestamp_ms h - now else now - hb_timestamp_ms h in
    if max_clock_skew_ms (rs_config s) <? time_diff then (s, Err TimestampOutOfRange)
    else if hb_sequence h <=? peer_sequence s then (s, Err ReplayDetected)
    else if u64_add (peer_sequence s) (sequence_window (rs_config s)) <? hb_sequence h
    then (s, Err SequenceOutOfWindow)
    else if negb (hmac_valid s h) then (s, Err InvalidHmac)
    else
      match (match key_rotation h with
             | Some r => process_key_rotation s r now
             | None => (s, Ok tt)
             end) with
      | (s, Ok _) =>
          let s := heard s (hb_sequence h) now in (s, Ok (raw_create_ack s (hb_sequence h)))
      | (s, Err e) => (s, Err e)
      | (s, Panic) => (s, Panic)
      end.

Definition raw_process_ack (s : RawSession) (a : HeartbeatAck) : outcome RawSessionError unit :=
  if negb (bool_decide (ack_session_id a = rs_session_id s)) then Err SessionNotFound
  else if bool_decide (ack_hmac a = ack_hmac_with_key s (session_key s) (ack_sequence a)) then Ok tt
  else
    match prev_session_key s with
    | Some k => if bool_decide (ack_hmac a = ack_hmac_with_key s k (ack_sequence a)) then Ok tt else Err InvalidHmac
    | None => Err InvalidHmac
    end.
End Session.

Definition with_missed (s : RawSession) (n : Z) (st : RawSessionState) : RawSession :=
  mkRaw (rs_session_id s) (rs_peer_id s) (session_key s) (prev_session_key s) (rs_sequence s)
    (peer_sequence s) (rs_established_at_ms s) (last_heartbeat_sent_ms s)
    (last_heartbeat_received_ms s) n st (rs_config s) (last_rotation_time_ms s) (rotation_count s).

(** The missed count is cut to 32 bits. *)
Definition check_heartbeat_timeout (s : RawSession) (now : Z) : RawSession * outcome RawSessionError bool :=
  let interval := heartbeat_interval_ms (rs_config s) in
  if interval =? 0 then (s, Panic)
  else
    let expected := u64_saturating_sub now (last_heartbeat_received_ms s) / interval in
    if 1 <? expected then
      let missed := (expected - 1) mod 2 ^ 32 in
      if grace_heartbeats (rs_config s) <=? missed then (with_missed s missed RTerminated, Ok true)
      else if 0 <? missed then (with_missed s missed RDegraded, Ok false)
      else (with_missed s missed (rs_state s), Ok false)
    else (s, Ok false).

(** ** The manager *)

Record RawSessionManager := mkRawManager {
  raw_sessions : gmap (list Z) RawSession;
  peer_sessions : gmap (list Z) (list Z);
  raw_local_id : list Z;
  default_config : RawSessionConfig
}.
Definition RawSessionManager_new (id : list Z) : RawSessionManager :=
  mkRawManager ∅ ∅ id RawSessionConfig_default.

Definition set_raw (m : RawSessionManager) ss ps : RawSessionManager :=
  mkRawManager ss ps (raw_local_id m) (default_config m).

Section Manager.
Context `{Blake3}.
Definition raw_session_id (secret local peer : list Z) : list Z :=
  blake3 (secret ++ local ++ peer ++ as_bytes (str "RAW_SESSION_ID")).
Definition raw_initial_key (secret id : list Z) : list Z :=
  blake3 (secret ++ id ++ as_bytes (str "RAW_SESSION_KEY")).
Definition establish_session (m : RawSessionManager) (peer secret : list Z) (now : Z) :
    RawSessionManager * list Z :=
  let id := raw_session_id secret (raw_local_id m) peer in
  let s := RawSession_new id peer (raw_initial_key secret id) now (default_config m) in
  (set_raw m (<[id := s]> (raw_sessions m)) (<[peer := id]> (peer_sessions m)), id).
End Manager.

Definition get_raw_session (m : RawSessionManager) (id : list Z) : option RawSession := raw_sessions m !! id.
Definition get_session_for_peer (m : RawSessionManager) (p : list Z) : option RawSession :=
  match peer_sessions m !! p with Some id => raw_sessions m !! id | None => None end.
Definition terminate_session (m : RawSessionManager) (id : list Z) : RawSessionManager :=
  match raw_sessions m !! id with
  | Some s => set_raw m (delete id (raw_sessions m)) (delete (rs_peer_id s) (peer_sessions m))
  | None => m
  end.

(** The loop over the sessions, in the order of their identifiers, [order]. *)
Fixpoint check_each (now : Z) (order : list (list Z)) (ss : gmap (list Z) RawSession) :
    gmap (list Z) RawSession * outcome RawSessionError (list (list Z)) :=
  match order with
  | [] => (ss, Ok [])
  | id :: rest =>
      match ss !! id with
      | None => check_each now rest ss
      | Some s =>
          match check_heartbeat_timeout s now with
          | (s, Ok t) =>
              match check_each now rest (<[id := s]> ss) with
              | (ss, Ok l) => (ss, Ok (if t then id :: l else l))
              | r => r
              end
          | (_, _) => (ss, Panic)
          end
      end
  end.
Definition check_timeouts (order : list (list Z)) (m : RawSessionManager) (now : Z) :
    RawSessionManager * outcome RawSessionError (list (list Z)) :=
  match check_each now order (raw_sessions m) with
  | (ss, Ok l) => (foldl terminate_session (set_raw m ss (peer_sessions m)) l, Ok l)
  | (ss, _) => (set_raw m ss (peer_sessions m), Panic)
  end.
Definition needs_heartbeat (now : Z) (s : RawSession) : bool :=
  is_active s && (heartbeat_interval_ms (rs_config s) <=? (now - last_heartbeat_sent_ms s) mod 2 ^ 64).
Definition sessions_needing_heartbeat (order : list (list Z)) (m : RawSessionManager) (now : Z) : list (list Z) :=
  filter (λ id, match raw_sessions m !! id with Some s => needs_heartbeat now s | None => false end = true) order.
Definition active_session_count (m : RawSessionManager) : Z :=
  Z.of_nat (size (filter (λ ks, is_active ks.2 = true) (raw_sessions m))).

(** ** Acceptance of heartbeats *)

Section Acceptance.
Context `{Blake3} `{Blake3Keyed}.

Record acceptable (s : RawSession) (h : Heartbeat) (now : Z) : Prop := {
  ac_id : hb_session_id h = rs_session_id s;
  ac_state : rs_state s ≠ RTerminated;
  ac_time : Z.abs (hb_timestamp_ms h - now) ≤ max_clock_skew_ms (rs_config s);
  ac_fresh : peer_sequence s < hb_sequence h;
  ac_window : hb_sequence h ≤ u64_add (peer_sequence s) (sequence_window (rs_config s));
  ac_hmac : hmac_valid s h = true
}.

Lemma process_key_rotation_frame s r now s' u :
  process_key_rotation s r now = (s', Ok u) →
  rs_session_id s' = rs_session_id s ∧ rs_config s' = rs_config s ∧ rs_sequence s' = rs_sequence s.
Proof. unfold process_key_rotation. repeat case_match; intros E; by simplify_eq. Qed.

Lemma process_key_rotation_err s r now s' e :
  process_key_rotation s r now = (s', e) → e = Ok tt ∨ (s' = s ∧ ∃ e', e = Err e').
Proof. unfold process_key_rotation. repeat case_match; intros E; simplify_eq; eauto. Qed.

Lemma process_heartbeat_cases s h now s' r :
  process_heartbeat s h now = (s', r) →
  (s' = s ∧ ∃ e, r = Err e) ∨
  (acceptable s h now ∧ peer_sequence s' = hb_sequence h ∧ rs_state s' = RActive ∧
   rs_session_id s' = rs_session_id s ∧ rs_config s' = rs_config s ∧
   r = Ok (raw_create_ack s' (hb_sequence h))).
Proof.
  unfold process_heartbeat. case_bool_decide as Hid; cbn [negb]; [|intros [= <- <-]; eauto].
  case_bool_decide as Hst; [intros [= <- <-]; eauto|].
  set (d := if now <? hb_timestamp_ms h then _ else _).
  assert (Hd : d = Z.abs (hb_timestamp_ms h - now)) by (subst d; destruct (Z.ltb_spec now (hb_timestamp_ms h)); lia).
  destruct (Z.ltb_spec (max_clock_skew_ms (rs_config s)) d); [intros [= <- <-]; eauto|].
  destruct (Z.leb_spec (hb_sequence h) (peer_sequence s)); [intros [= <- <-]; eauto|].
  destruct (Z.ltb_spec (u64_add (peer_sequence s) (sequence_window (rs_config s))) (hb_sequence h));
    [intros [= <- <-]; eauto|].
  destruct (hmac_valid s h) eqn:Hv; cbn [negb]; [|intros [= <- <-]; eauto].
  assert (Ha : acceptable s h now) by (split; (done || lia)).
  destruct (key_rotation h) as [k|].
  - destruct (process_key_rotation s k now) as [s1 r1] eqn:E.
    destruct (process_key_rotation_err _ _ _ _ _ E) as [->|[-> [e ->]]]; [|intros [= <- <-]; eauto].
    destruct (process_key_rotation_frame _ _ _ _ _ E) as (? & ? & _).
    intros [= <- <-]. right. by split_and!.
  - intros [= <- <-]. right. by split_and!.
Qed.

(** An acceptable heartbeat is accepted if its key rotation is. *)
Lemma process_heartbeat_accepts s h now s1 :
  acceptable s h now →
  match key_rotation h with Some r => process_key_rotation s r now = (s1, Ok tt) | None => s1 = s end →
  process_heartbeat s h now
  = (heard s1 (hb_sequence h) now, Ok (raw_create_ack (heard s1 (hb_sequence h) now) (hb_sequence h))).
Proof.
  intros [Hid Hst Ht Hf Hw Hv] Hr. unfold process_heartbeat. rewrite bool_decide_eq_true_2, Hv by done. cbn [negb].
  rewrite bool_decide_eq_false_2 by done.
  assert (Hd : (if now <? hb_timestamp_ms h then hb_timestamp_ms h - now else now - hb_timestamp_ms h)
               = Z.abs (hb_timestamp_ms h - now)) by (destruct (Z.ltb_spec now (hb_timestamp_ms h)); lia).
  rewrite Hd. repeat case_ltb. destruct (Z.leb_spec (hb_sequence h) (peer_sequence s)); [lia|].
  destruct (key_rotation h); [by rewrite Hr|by subst s1].
Qed.

Lemma process_key_rotation_first s c now :
  last_rotation_time_ms s = 0 → rotation_count s < max_rotations_per_session (rs_config s) →
  ∃ s1, process_key_rotation s (mkRotation c (session_hmac s c)) now = (s1, Ok tt) ∧
    rs_session_id s1 = rs_session_id s ∧ prev_session_key s1 = Some (session_key s) ∧
    session_key s1 = blake3 (session_key s ++ c ++ to_le 8 (rs_sequence s)).
Proof.
  intros Hl Hc. unfold process_key_rotation. rewrite Hl. cbn [Z.ltb Z.compare andb].
  destruct (Z.leb_spec (max_rotations_per_session (rs_config s)) (rotation_count s)); [lia|].
  cbn [contribution_hmac key_contribution]. rewrite bool_decide_eq_true_2 by done. by eexists.
Qed.

(** ** Runs of a session *)

Inductive raw_op :=
  | RoSend (contribution : list Z) (now : Z)
  | RoReceive (h : Heartbeat) (now : Z)
  | RoCheck (now : Z).

Definition raw_step (s : RawSession) (o : raw_op) : RawSession :=
  match o with
  | RoSend c now => (create_heartbeat c s now).1
  | RoReceive h now => (process_heartbeat s h now).1
  | RoCheck now => (check_heartbeat_timeout s now).1
  end.

(** The heartbeats accepted in a run, with the session and time of acceptance. *)
Fixpoint accepted (ops : list raw_op) (s : RawSession) : list (RawSession * Heartbeat * Z) :=
  match ops with
  | [] => []
  | o :: rest =>
      match o with
      | RoReceive h now =>
          if is_ok (process_heartbeat s h now).2 then [(s, h, now)] else []
      | _ => []
      end ++ accepted rest (raw_step s o)
  end.

Lemma raw_step_other s o :
  (∀ h now, o ≠ RoReceive h now) → peer_sequence (raw_step s o) = peer_sequence s.
Proof.
  intros Ho. destruct o as [c now|h now|now]; [|by edestruct Ho|]; cbn [raw_step].
  - unfold create_heartbeat. by case_match.
  - unfold check_heartbeat_timeout. by repeat case_match.
Qed.

Lemma accepted_above ops s :
  StronglySorted Z.lt (peer_sequence s :: map (λ x, hb_sequence x.1.2) (accepted ops s)) ∧
  Forall (λ x, acceptable x.1.1 x.1.2 x.2) (accepted ops s).
Proof.
  revert s. induction ops as [|o ops IH]; intros s; [by repeat constructor|].
  destruct (IH (raw_step s o)) as [Hs Hf]. cbn [accepted].
  destruct o as [c now|h now|now].
  - rewrite raw_step_other in Hs by done. by split.
  - cbn [raw_step] in *. destruct (process_heartbeat s h now) as [s' r] eqn:E. cbn [fst snd] in *.
    destruct (process_heartbeat_cases _ _ _ _ _ E) as [[-> [e ->]]|(Ha & Hp & _ & _ & _ & ->)]; [by split|].
    cbn [is_ok app map]. rewrite Hp in Hs. split; [|by constructor]. constructor; [done|].
    apply StronglySorted_inv in Hs as [_ Hs]. constructor; [apply (ac_fresh _ _ _ Ha)|].
    eapply Forall_impl; [exact Hs|]. intros x Hx. pose proof (ac_fresh _ _ _ Ha). cbn in *. lia.
  - rewrite raw_step_other in Hs by done. by split.
Qed.
End Acceptance.

(** ** Timeouts *)

(** What one check does to a session with a positive interval. *)
Definition timed_out (s : RawSession) (now : Z) : bool :=
  let expected := u64_saturating_sub now (last_heartbeat_received_ms s) / heartbeat_interval_ms (rs_config s) in
  (1 <? expected) && (grace_heartbeats (rs_config s) <=? (expected - 1) mod 2 ^ 32).

Lemma check_heartbeat_timeout_total s now :
  0 < heartbeat_interval_ms (rs_config s) →
  (check_heartbeat_timeout s now).2 = Ok (timed_out s now).
Proof.
  intros Hi. unfold check_heartbeat_timeout, timed_out. destruct (Z.eqb_spec (heartbeat_interval_ms (rs_config s)) 0); [lia|].
  destruct (1 <? _); [|done]. destruct (_ <=? _); [done|]. by destruct (0 <? _).
Qed.

Definition sessions_ok (ss : gmap (list Z) RawSession) : Prop :=
  ∀ id s, ss !! id = Some s → 0 < heartbeat_interval_ms (rs_config s).

(** The sessions after the loop: those of [order] checked, the others untouched. *)
Definition checked (now : Z) (order : list (list Z)) (ss : gmap (list Z) RawSession) (id : list Z) :
    option RawSession :=
  if decide (id ∈ order) then (λ s, (check_heartbeat_timeout s now).1) <$> ss !! id else ss !! id.

Lemma check_each_spec now order ss :
  NoDup order → sessions_ok ss →
  ∃ ss' l, check_each now order ss = (ss', Ok l) ∧
    (∀ id, ss' !! id = checked now order ss id) ∧
    (∀ id, id ∈ l ↔ id ∈ order ∧ ∃ s, ss !! id = Some s ∧ timed_out s now = true).
Proof.
  intros Hd. revert ss. induction Hd as [|id order Hn Hd IH]; intros ss Hok; cbn [check_each].
  { exists ss, []. split_and!; [done| |set_solver]. intros id. unfold checked. by rewrite decide_False by set_solver. }
  destruct (ss !! id) as [s|] eqn:Es.
  - pose proof (check_heartbeat_timeout_total s now (Hok _ _ Es)) as Ht.
    destruct (check_heartbeat_timeout s now) as [s1 r] eqn:Ec. cbn [snd] in Ht. subst r.
    destruct (IH (<[id := s1]> ss)) as (ss' & l & El & Hss & Hl).
    { intros i t [[_ <-]|[_ Hi]]%lookup_insert_Some; [|by eapply Hok].
      assert (Hc : rs_config s1 = rs_config s) by (revert Ec; unfold check_heartbeat_timeout; repeat case_match; by intros [= <- _]).
      rewrite Hc. by eapply Hok. }
    rewrite El. do 2 eexists. split; [done|]. split.
    + intros i. rewrite Hss. unfold checked. destruct (decide (i = id)) as [->|Hi].
      * rewrite decide_False, decide_True, lookup_insert_eq, Es by set_solver. cbn. by rewrite Ec.
      * rewrite lookup_insert_ne by done. apply decide_ext. set_solver.
    + intros i. destruct (decide (i = id)) as [->|Hi].
      * destruct (timed_out s now) eqn:Et; [set_solver|]. rewrite Hl. split; [set_solver|].
        intros [_ (s2 & E2 & ?)]. congruence.
      * assert (E : (i ∈ (if timed_out s now then id :: l else l)) ↔ i ∈ l) by (destruct (timed_out s now); set_solver).
        rewrite E, Hl, lookup_insert_ne by done. set_solver.
  - destruct (IH ss Hok) as (ss' & l & El & Hss & Hl). exists ss', l. split; [done|]. split.
    + intros i. rewrite Hss. unfold checked. destruct (decide (i = id)) as [->|Hi]; [|apply decide_ext; set_solver].
      rewrite Es. by repeat case_decide.
    + intros i. rewrite Hl. destruct (decide (i = id)) as [->|Hi]; [|set_solver].
      split; [set_solver|]. intros [_ (s & E & _)]. congruence.
Qed.

Lemma terminate_all_sessions l m id :
  raw_sessions (foldl terminate_session m l) !! id = if decide (id ∈ l) then None else raw_sessions m !! id.
Proof.
  revert m. induction l as [|x l IH]; intros m; cbn [foldl]; [done|]. rewrite IH. unfold terminate_session.
  destruct (raw_sessions m !! x) as [s|] eqn:Ex; cbn [raw_sessions set_raw].
  - destruct (decide (id = x)) as [->|Hi].
    + rewrite lookup_delete_eq. by repeat case_decide; set_solver.
    + rewrite lookup_delete_ne by done. apply decide_ext. set_solver.
  - destruct (decide (id = x)) as [->|Hi]; [rewrite Ex; by repeat case_decide|]. apply decide_ext. set_solver.
Qed.

(** ** Properties *)

(** Timeouts.  A pass over all sessions never fails while the intervals are
    positive; it removes exactly the sessions whose missed heartbeats reach the
    grace limit, keeps the others, degraded where one was missed, and reports the
    ones removed.  A session silent for its interval times one more than the
    grace count, and not so long that the 32-bit count wraps, is removed; one
    heard from within two intervals is left as it was. *)
Theorem check_timeouts_correct order m now :
  NoDup order → (∀ id, is_Some (raw_sessions m !! id) → id ∈ order) → sessions_ok (raw_sessions m) →
  ∃ m' l, check_timeouts order m now = (m', Ok l) ∧
    (∀ id, id ∈ l ↔ ∃ s, raw_sessions m !! id = Some s ∧ timed_out s now = true) ∧
    (∀ id s, raw_sessions m !! id = Some s →
       raw_sessions m' !! id = (if timed_out s now then None else Some (check_heartbeat_timeout s now).1)) ∧
    (∀ id s, raw_sessions m !! id = Some s → 0 < grace_heartbeats (rs_config s) →
       (grace_heartbeats (rs_config s) + 1) * heartbeat_interval_ms (rs_config s)
         ≤ now - last_heartbeat_received_ms s < 2 ^ 32 * heartbeat_interval_ms (rs_config s) →
       raw_sessions m' !! id = None) ∧
    (∀ id s, raw_sessions m !! id = Some s →
       now - last_heartbeat_received_ms s < 2 * heartbeat_interval_ms (rs_config s) →
       raw_sessions m' !! id = Some s).
Proof.
  intros Hd Hall Hok. destruct (check_each_spec now order (raw_sessions m) Hd Hok) as (ss & l & E & Hss & Hl).
  unfold check_timeouts. rewrite E. do 2 eexists. split; [done|].
  assert (Hin : ∀ id, id ∈ l ↔ ∃ s, raw_sessions m !! id = Some s ∧ timed_out s now = true).
  { intros id. rewrite Hl. split; [by intros [_ ?]|]. intros (s & Es & ?). split; [|by eauto].
    apply Hall. by rewrite Es. }
  assert (Hres : ∀ id s, raw_sessions m !! id = Some s →
     raw_sessions (foldl terminate_session (set_raw m ss (peer_sessions m)) l) !! id
     = (if timed_out s now then None else Some (check_heartbeat_timeout s now).1)).
  { intros id s Es. rewrite terminate_all_sessions. cbn [raw_sessions set_raw]. rewrite Hss. unfold checked.
    rewrite (decide_True (P := id ∈ order)) by (apply Hall; by rewrite Es). rewrite Es. cbn.
    destruct (timed_out s now) eqn:Et; [by rewrite decide_True by (apply Hin; eauto)|].
    rewrite decide_False; [done|]. rewrite Hin. intros (s' & Es' & ?). congruence. }
  split_and!; [done..| |].
  - intros id s Es Hg [Hlo Hhi]. rewrite (Hres id s Es). specialize (Hok id s Es).
    assert (Ht : timed_out s now = true); [|by rewrite Ht]. unfold timed_out, u64_saturating_sub.
    set (i := heartbeat_interval_ms (rs_config s)) in *. set (g := grace_heartbeats (rs_config s)) in *.
    rewrite Z.max_r by nia. set (d := now - last_heartbeat_received_ms s) in *.
    assert (g + 1 ≤ d / i) by (apply Z.div_le_lower_bound; lia).
    assert (d / i < 2 ^ 32) by (apply Z.div_lt_upper_bound; lia).
    rewrite Z.mod_small by lia. apply andb_true_intro. split; [apply Z.ltb_lt|apply Z.leb_le]; lia.
  - intros id s Es Hlt. rewrite (Hres id s Es). specialize (Hok id s Es).
    assert (Hx : (1 <? u64_saturating_sub now (last_heartbeat_received_ms s) / heartbeat_interval_ms (rs_config s)) = false).
    { apply Z.ltb_ge. apply Z.lt_succ_r. apply Z.div_lt_upper_bound; [lia|]. unfold u64_saturating_sub. lia. }
    assert (Ht : timed_out s now = false) by (unfold timed_out; by rewrite Hx). rewrite Ht.
    unfold check_heartbeat_timeout. rewrite Hx. by case_match.
Qed.

Section Properties.
Context `{Blake3} `{Blake3Keyed}.

(** No replay.  In any run of a session, the accepted heartbeats carry strictly
    increasing sequence numbers above the session's last one, so that none is
    accepted twice; and each was accepted by a live session, for its identifier,
    within the clock tolerance and the sequence window, with a code under the
    current or the previous session key.  A refused heartbeat changes nothing. *)
Theorem heartbeat_no_replay ops s h now :
  StronglySorted Z.lt (peer_sequence s :: map (λ x, hb_sequence x.1.2) (accepted ops s)) ∧
  Forall (λ x, acceptable x.1.1 x.1.2 x.2) (accepted ops s) ∧
  (is_ok (process_heartbeat s h now).2 = false → (process_heartbeat s h now).1 = s).
Proof.
  destruct (accepted_above ops s) as [Hs Hf]. split_and!; [done..|].
  destruct (process_heartbeat s h now) as [s' r] eqn:E. cbn [fst snd].
  by destruct (process_heartbeat_cases _ _ _ _ _ E) as [[-> _]|(_ & _ & _ & _ & _ & ->)].
Qed.

(** Two ends of a session: one identifier, one key. *)
Definition paired (a b : RawSession) : Prop :=
  rs_session_id a = rs_session_id b ∧ session_key a = session_key b.

(** A heartbeat between two ends of a session.  Within the clock tolerance and
    the window it is accepted, its acknowledgement too, and the ends stay paired,
    as long as no key rotation is due.  When one is due, the receiver moves to a
    new key that the sender never computes: the sender keeps its own, and the
    acknowledgement is accepted only if the codes under the two keys collide. *)
Theorem heartbeat_exchange c a b now now' :
  paired a b → 0 < key_rotation_interval (rs_config a) → rs_state b ≠ RTerminated →
  Z.abs (now - now') ≤ max_clock_skew_ms (rs_config b) → rs_sequence a + 1 < 2 ^ 64 → 0 ≤ peer_sequence b →
  peer_sequence b ≤ rs_sequence a < peer_sequence b + sequence_window (rs_config b) →
  peer_sequence b + sequence_window (rs_config b) < 2 ^ 64 →
  ∃ a' h, create_heartbeat c a now = (a', Ok h) ∧ session_key a' = session_key a ∧
  ((rs_sequence a + 1) mod key_rotation_interval (rs_config a) ≠ 0 →
     ∃ b' ack, process_heartbeat b h now' = (b', Ok ack) ∧ raw_process_ack a' ack = Ok tt ∧
       paired a' b' ∧ peer_sequence b' = rs_sequence a' ∧ rs_state b' = RActive) ∧
  ((rs_sequence a + 1) mod key_rotation_interval (rs_config a) = 0 → prev_session_key a = None →
     last_rotation_time_ms b = 0 → rotation_count b < max_rotations_per_session (rs_config b) →
     ∃ b' ack, process_heartbeat b h now' = (b', Ok ack) ∧
       session_key b' = blake3 (session_key b ++ c ++ to_le 8 (rs_sequence b)) ∧
       prev_session_key b' = Some (session_key a') ∧
       (raw_process_ack a' ack = Ok tt ↔
          ack_hmac_with_key b (session_key b') (hb_sequence h) = ack_hmac_with_key b (session_key a) (hb_sequence h))).
Proof.
  intros [Hid Hk] Hi Hst Ht Hs64 Hp0 Hw Hw64. unfold create_heartbeat. cbn [rs_config].
  destruct (Z.eqb_spec (key_rotation_interval (rs_config a)) 0); [lia|]. do 2 eexists. split; [reflexivity|].
  split; [done|]. cbn [rs_sequence rs_session_id]. assert (Hs : u64_add (rs_sequence a) 1 = rs_sequence a + 1)
    by (unfold u64_add; rewrite Z.mod_small; lia). rewrite Hs.
  set (rot := if _ =? 0 then _ else None). set (h := mkHeartbeat _ _ _ _ rot).
  assert (Hac : acceptable b h now').
  { subst h. split; cbn [hb_session_id hb_timestamp_ms hb_sequence]; [done|done|done|lia| |].
    - unfold u64_add. rewrite Z.mod_small; lia.
    - unfold hmac_valid, heartbeat_hmac_with_key. cbn. rewrite Hid, Hk. by rewrite bool_decide_eq_true_2. }
  split.
  - intros Hm. assert (Hrot : rot = None)
      by (subst rot; by destruct (Z.eqb_spec ((rs_sequence a + 1) mod key_rotation_interval (rs_config a)) 0)).
    rewrite (process_heartbeat_accepts b h now' b Hac) by (cbn; by rewrite Hrot).
    do 2 eexists. split; [done|]. split_and!; try done.
    unfold raw_process_ack, raw_create_ack, ack_hmac_with_key. cbn. rewrite Hid, Hk. by rewrite !bool_decide_eq_true_2.
  - intros Hm Hprev Hl Hc.
    destruct (process_key_rotation_first b c now' Hl Hc) as (b1 & E1 & Hb1 & Hp1 & Hk1).
    assert (Hrot : rot = Some (mkRotation c (session_hmac b c))).
    { subst rot. rewrite Hm. unfold create_key_rotation, session_hmac. cbn. by rewrite Hk. }
    rewrite (process_heartbeat_accepts b h now' b1 Hac) by (cbn; by rewrite Hrot).
    do 2 eexists. split; [done|]. split_and!; [done|cbn; by rewrite Hp1, Hk|].
    unfold raw_process_ack, raw_create_ack, ack_hmac_with_key. cbn. rewrite Hid, Hb1, Hprev.
    rewrite bool_decide_eq_true_2 by done. cbn. case_bool_decide as Hx; by split.
Qed.

(** The two managers that establish a session from one secret disagree on its
    identifier, which hashes the local and the remote identity in that order: a
    heartbeat of one end is refused by the other, or the digest collides. *)
Theorem established_sessions_disagree ma mb secret now c t t' a' h :
  let a := raw_local_id ma in let b := raw_local_id mb in
  length a = 32%nat → length b = 32%nat → a ≠ b →
  let '(ma', ia) := establish_session ma b secret now in
  let '(mb', ib) := establish_session mb a secret now in
  ∃ sa sb, get_session_for_peer ma' b = Some sa ∧ get_session_for_peer mb' a = Some sb ∧
    (create_heartbeat c sa t = (a', Ok h) →
     process_heartbeat sb h t' = (sb, Err SessionNotFound) ∨ ∃ x y, x ≠ y ∧ blake3 x = blake3 y).
Proof.
  intros a b Hla Hlb Hne. unfold establish_session. do 2 eexists. unfold get_session_for_peer.
  cbn [peer_sessions raw_sessions set_raw]. rewrite !lookup_insert_eq. split; [done|]. split; [done|].
  unfold create_heartbeat. case_match; [done|]. intros [= _ <-]. unfold process_heartbeat. cbn.
  case_bool_decide as E; [|by left]. right. unfold raw_session_id in E. do 2 eexists. split; [|exact E].
  fold a b. intros X. apply (inj (app secret)) in X. apply app_inj_1 in X as [? _]; [done|]. by rewrite Hla, Hlb.
Qed.
End Properties.

Definition sample_raw (p : Z) : RawSession :=
  RawSession_new (replicate 32 1) (replicate 32 p) (replicate 32 9) 1000 RawSessionConfig_default.

Lemma heartbeat_exchange_witness :
  ∃ a' h b' ack, @create_heartbeat keyed_reference [] (sample_raw 2) 1500 = (a', Ok h) ∧
    @process_heartbeat identity_digest keyed_reference (sample_raw 3) h 1600 = (b', Ok ack) ∧
    @raw_process_ack keyed_reference a' ack = Ok tt.
Proof.
  destruct (@heartbeat_exchange identity_digest keyed_reference [] (sample_raw 2) (sample_raw 3) 1500 1600)
    as (a' & h & E & _ & Hn & _); try (cbn; lia); try done.
  destruct Hn as (b' & ack & E1 & E2 & _); [vm_compute; discriminate|]. by exists a', h, b', ack.
Defined.

Lemma check_timeouts_correct_witness :
  ∃ m' l, check_timeouts [replicate 32 1]
            (mkRawManager {[ replicate 32 1 := sample_raw 2 ]} ∅ (replicate 32 7) RawSessionConfig_default) 9000
          = (m', Ok l) ∧ raw_sessions m' !! replicate 32 1 = None.
Proof.
  destruct (check_timeouts_correct [replicate 32 1]
    (mkRawManager {[ replicate 32 1 := sample_raw 2 ]} ∅ (replicate 32 7) RawSessionConfig_default) 9000)
    as (m' & l & E & _ & _ & Hs & _).
  - apply NoDup_singleton.
  - cbn [raw_sessions]. intros id [s [<- _]%lookup_singleton_Some]. by apply list_elem_of_singleton.
  - cbn [raw_sessions]. intros id s [_ <-]%lookup_singleton_Some. cbn. lia.
  - exists m', l. split; [done|]. apply (Hs _ (sample_raw 2)); [apply lookup_singleton_eq|cbn; lia|cbn; lia].
Defined.
