(* ===== verification/Attestation.v ===== *)
(** * Attestation (axiom-crypto/src/attestation.rs)

    Reports a node signs about its own state, the node that asks for them and checks them,
    certificates by third parties, and the mesh that collects certificates.  BLAKE3 and
    Ed25519 are interfaces; random bytes and times (milliseconds) are arguments. *)

From stdpp Require Import base numbers list gmap strings.
From S2P Require Import Prelude Types Text Intent Crypto.

(** ** Data *)

Record PcrValues := mkPcr { pcr0 : list Z; pcr1 : list Z; pcr7 : list Z; pcr10 : list Z }.
Record AttestedState := mkAttested {
  hdl_manifest_hash : list Z; as_trust_level : Z; config_hash : list Z; as_version : list Z; pcr_values : option PcrValues;
  active_alerts : Z; uptime_secs : Z
}.
Record AttestationReport := mkReport {
  subject_id : NodeId; ar_timestamp_ms : Z; ar_nonce : list Z; ar_state : AttestedState; ar_signature : Signature
}.
Inductive AttestationResult := AR_Valid | AR_InvalidSignature | AR_StateMismatch | AR_NodeRevoked | AR_Expired | AR_UntrustedSubject.
#[export] Instance AttestationResult_eq_dec : EqDecision AttestationResult.
Proof. solve_decision. Defined.
Definition AttestationResult_to_u8 (r : AttestationResult) : Z :=
  match r with AR_Valid => 0 | AR_InvalidSignature => 1 | AR_StateMismatch => 2 | AR_NodeRevoked => 3 | AR_Expired => 4 | AR_UntrustedSubject => 5 end.
Record AttestationCertificate := mkAttestationCertificate {
  ct_report : AttestationReport; verifier_id : NodeId; verified_at_ms : Z; verifier_signature : Signature; ct_result : AttestationResult
}.
Record AttestationRequest := mkAttestationRequest { rq_requester_id : NodeId; rq_target_id : NodeId; rq_nonce : list Z; rq_timestamp_ms : Z; rq_signature : Signature }.
Record AttestationChallenge := mkAttestationChallenge { ch_nonce : list Z; deadline_ms : Z; ch_requester_id : NodeId; ch_target_id : NodeId }.
Record ExpectedState := mkExpected { ex_hdl_manifest_hash : list Z; ex_config_hash : list Z; ex_version : list Z; ex_pcr_values : option PcrValues }.
Record CachedAttestation := mkCachedAttestation { certificate : AttestationCertificate; cached_at_ms : Z }.
Record AttestationConfig := mkAttestationConfig {
  attestation_validity_ms : Z; cache_duration_ms : Z; require_mesh_consensus : bool; min_attesters : Z; require_tpm : bool
}.
Definition AttestationConfig_default : AttestationConfig := mkAttestationConfig 60000 300000 true 2 false.
Record AttestationNode := mkAttestationNode {
  an_node_id : NodeId; signing_key : list Z; known_good_states : gmap NodeId ExpectedState; revoked_nodes : list NodeId;
  pending_requests : gmap (list Z) AttestationChallenge; attestation_cache : gmap NodeId CachedAttestation; at_config : AttestationConfig
}.
Definition AttestationNode_new (id : NodeId) (key : list Z) (c : AttestationConfig) : AttestationNode := mkAttestationNode id key ∅ [] ∅ ∅ c.
Inductive AttestationError :=
  | AE_InvalidRequest | AE_UnknownTarget | AE_TargetRevoked | AE_Timeout | AE_SignatureVerificationFailed | AE_StateMismatch (what : text)
  | AE_InsufficientConsensus | AE_TpmRequired | AE_UnknownNonce | AE_TargetMismatch.
Definition AttestationError_display (e : AttestationError) : text :=
  match e with
  | AE_InvalidRequest => str "Invalid attestation request"
  | AE_UnknownTarget => str "Unknown target node"
  | AE_TargetRevoked => str "Target node is revoked"
  | AE_Timeout => str "Attestation timeout"
  | AE_SignatureVerificationFailed => str "Signature verification failed"
  | AE_StateMismatch s => str "State mismatch: " ++ s
  | AE_InsufficientConsensus => str "Not enough attesters for consensus"
  | AE_TpmRequired => str "TPM attestation required"
  | AE_UnknownNonce => str "Report nonce does not match any outstanding challenge"
  | AE_TargetMismatch => str "Report subject does not match the challenge's target"
  end.

Definition an_set_known (n : AttestationNode) (k : gmap NodeId ExpectedState) : AttestationNode :=
  mkAttestationNode (an_node_id n) (signing_key n) k (revoked_nodes n) (pending_requests n) (attestation_cache n) (at_config n).
Definition an_set_pending (n : AttestationNode) (p : gmap (list Z) AttestationChallenge) : AttestationNode :=
  mkAttestationNode (an_node_id n) (signing_key n) (known_good_states n) (revoked_nodes n) p (attestation_cache n) (at_config n).
Definition an_set_cache (n : AttestationNode) (c : gmap NodeId CachedAttestation) : AttestationNode :=
  mkAttestationNode (an_node_id n) (signing_key n) (known_good_states n) (revoked_nodes n) (pending_requests n) c (at_config n).

(** ** What is hashed and signed *)

Definition pcr_fields (o : option PcrValues) : list (list Z) :=
  match o with Some p => [[1]; pcr0 p; pcr1 p; pcr7 p; pcr10 p] | None => [[0]] end.
Definition report_fields (r : AttestationReport) : list (list Z) :=
  [subject_id r; to_le 8 (ar_timestamp_ms r); ar_nonce r; hdl_manifest_hash (ar_state r); [as_trust_level (ar_state r)];
   config_hash (ar_state r); as_version (ar_state r)]
  ++ pcr_fields (pcr_values (ar_state r)) ++ [to_le 2 (active_alerts (ar_state r)); to_le 8 (uptime_secs (ar_state r))].
Definition report_bytes (r : AttestationReport) : list Z := concat (report_fields r).
Definition hash_report `{Blake3} (r : AttestationReport) : list Z := blake3 (report_bytes r).
Definition certificate_input `{Blake3} (c : AttestationCertificate) : list Z :=
  hash_report (ct_report c) ++ verifier_id c ++ to_le 8 (verified_at_ms c) ++ [AttestationResult_to_u8 (ct_result c)].
Definition request_input (r : AttestationRequest) : list Z :=
  rq_requester_id r ++ rq_target_id r ++ rq_nonce r ++ to_le 8 (rq_timestamp_ms r).

Section Node.
Context `{Blake3} `{Ed25519}.

Definition sign_report (n : AttestationNode) (r : AttestationReport) : Signature := ed_sign (signing_key n) (hash_report r).
Definition sign_certificate (n : AttestationNode) (c : AttestationCertificate) : Signature := ed_sign (signing_key n) (blake3 (certificate_input c)).
Definition sign_request (n : AttestationNode) (r : AttestationRequest) : AttestationRequest :=
  mkAttestationRequest (rq_requester_id r) (rq_target_id r) (rq_nonce r) (rq_timestamp_ms r) (ed_sign (signing_key n) (blake3 (request_input r))).
(** [VerifyingKey::from_bytes] and [verify]; a signature of the type has the right length. *)
Definition verify_report_signature (r : AttestationReport) : bool :=
  ed_valid_key (subject_id r) && ed_verify (subject_id r) (hash_report r) (ar_signature r).
Definition verify_certificate_signature (c : AttestationCertificate) : bool :=
  ed_valid_key (verifier_id c) && ed_verify (verifier_id c) (blake3 (certificate_input c)) (verifier_signature c).
Definition generate_nonce (random : list Z) (n : AttestationNode) (now : Z) : list Z := blake3 (an_node_id n ++ to_le 8 now ++ random).

(** ** The node *)

Definition register_expected_state (n : AttestationNode) (id : NodeId) (s : ExpectedState) : AttestationNode :=
  an_set_known n (<[id := s]> (known_good_states n)).
Definition is_revoked (n : AttestationNode) (id : NodeId) : bool := bool_decide (id ∈ revoked_nodes n).
Definition revoke_node (n : AttestationNode) (id : NodeId) : AttestationNode :=
  mkAttestationNode (an_node_id n) (signing_key n) (known_good_states n) (if is_revoked n id then revoked_nodes n else revoked_nodes n ++ [id])
    (pending_requests n) (delete id (attestation_cache n)) (at_config n).
Definition create_request (random : list Z) (n : AttestationNode) (target : NodeId) (now : Z) : AttestationNode * AttestationRequest :=
  let nonce := generate_nonce random n now in
  let challenge := mkAttestationChallenge nonce (u64_add now (attestation_validity_ms (at_config n))) (an_node_id n) target in
  (an_set_pending n (<[nonce := challenge]> (pending_requests n)),
   sign_request n (mkAttestationRequest (an_node_id n) target nonce now (replicate 64 0))).
Definition create_report (n : AttestationNode) (c : AttestationChallenge) (s : AttestedState) (now : Z) : AttestationReport :=
  let r := mkReport (an_node_id n) now (ch_nonce c) s (replicate 64 0) in
  mkReport (an_node_id n) now (ch_nonce c) s (sign_report n r).

(** The comparison with the state expected of the subject. *)
Definition check_state (n : AttestationNode) (r : AttestationReport) : outcome AttestationError AttestationResult :=
  match known_good_states n !! subject_id r with
  | None => Ok AR_Valid
  | Some e =>
      if negb (bool_decide (hdl_manifest_hash (ar_state r) = ex_hdl_manifest_hash e)) then Err (AE_StateMismatch (str "HDL manifest hash mismatch"))
      else if negb (bool_decide (config_hash (ar_state r) = ex_config_hash e)) then Err (AE_StateMismatch (str "Config hash mismatch"))
      else if require_tpm (at_config n) && negb (is_some (pcr_values (ar_state r))) then Err AE_TpmRequired
      else Ok AR_Valid
  end.
Definition verify_report (n : AttestationNode) (r : AttestationReport) (now : Z) : AttestationNode * outcome AttestationError AttestationResult :=
  if is_revoked n (subject_id r) then (n, Ok AR_NodeRevoked)
  else if u64_add now 60000 <? ar_timestamp_ms r then (n, Ok AR_Expired)
  else if attestation_validity_ms (at_config n) <? u64_saturating_sub now (ar_timestamp_ms r) then (n, Ok AR_Expired)
  else if negb (verify_report_signature r) then (n, Ok AR_InvalidSignature)
  else
    match pending_requests n !! ar_nonce r with
    | None => (n, Err AE_UnknownNonce)
    | Some challenge =>
        let n := an_set_pending n (delete (ar_nonce r) (pending_requests n)) in
        if negb (bool_decide (ch_target_id challenge = subject_id r)) then (n, Err AE_TargetMismatch)
        else (n, check_state n r)
    end.

Definition create_certificate (n : AttestationNode) (r : AttestationReport) (res : AttestationResult) (now : Z) : AttestationCertificate :=
  let c := mkAttestationCertificate r (an_node_id n) now (replicate 64 0) res in
  mkAttestationCertificate r (an_node_id n) now (sign_certificate n c) res.
Definition verify_certificate (n : AttestationNode) (c : AttestationCertificate) (now : Z) : outcome AttestationError unit :=
  if cache_duration_ms (at_config n) <? u64_saturating_sub now (verified_at_ms c) then Err AE_Timeout
  else if negb (verify_certificate_signature c) then Err AE_SignatureVerificationFailed
  else if negb (verify_report_signature (ct_report c)) then Err AE_SignatureVerificationFailed
  else Ok ().

Definition cache_fresh (n : AttestationNode) (now : Z) (c : CachedAttestation) : bool := u64_saturating_sub now (cached_at_ms c) <=? cache_duration_ms (at_config n).
Definition get_cached_attestation (n : AttestationNode) (id : NodeId) (now : Z) : option AttestationCertificate :=
  match attestation_cache n !! id with Some c => if cache_fresh n now c then Some (certificate c) else None | None => None end.
Definition cache_attestation (n : AttestationNode) (c : AttestationCertificate) (now : Z) : AttestationNode :=
  an_set_cache n (<[subject_id (ct_report c) := mkCachedAttestation c now]> (attestation_cache n)).
Definition clean_cache (n : AttestationNode) (now : Z) : AttestationNode :=
  let n' := an_set_cache n (filter (λ kc, cache_fresh n now kc.2 = true) (attestation_cache n)) in
  an_set_pending n' (filter (λ kc, now < deadline_ms kc.2) (pending_requests n)).

(** ** The mesh *)

Record MeshAttestation := mkMeshAttestation { ma_target_id : NodeId; ma_certificates : list AttestationCertificate; started_at_ms : Z }.
Record MeshConsensus := mkConsensus {
  mc_target_id : NodeId; mc_result : AttestationResult; attester_count : Z; valid_count : Z; mc_certificates : list AttestationCertificate
}.
Record AttestationMesh := mkAttestationMesh { mesh_node : AttestationNode; attesters : list NodeId; pending_mesh : gmap NodeId MeshAttestation }.
Definition AttestationMesh_new (n : AttestationNode) : AttestationMesh := mkAttestationMesh n [] ∅.
Definition add_attester (m : AttestationMesh) (id : NodeId) : AttestationMesh :=
  if bool_decide (id ∈ attesters m) then m else mkAttestationMesh (mesh_node m) (attesters m ++ [id]) (pending_mesh m).
(** One request for each attester; all of them name the target. *)
Fixpoint mesh_requests (randoms : list (list Z)) (n : AttestationNode) (target : NodeId) (now : Z) : AttestationNode * list AttestationRequest :=
  match randoms with
  | [] => (n, [])
  | r :: rs => let '(n1, q) := create_request r n target now in let '(n2, qs) := mesh_requests rs n1 target now in (n2, q :: qs)
  end.
Definition request_mesh_attestation (random : nat → list Z) (m : AttestationMesh) (target : NodeId) (now : Z) : AttestationMesh * list AttestationRequest :=
  let '(n, qs) := mesh_requests (random <$> seq 0 (length (attesters m))) (mesh_node m) target now in
  (mkAttestationMesh n (attesters m) (<[target := mkMeshAttestation target [] now]> (pending_mesh m)), qs).
Definition valid_certificates (cs : list AttestationCertificate) : Z := len (filter (λ c, ct_result c = AR_Valid) cs).
Definition process_mesh_certificate (m : AttestationMesh) (c : AttestationCertificate) (now : Z) : AttestationMesh * outcome AttestationError (option MeshConsensus) :=
  let target := subject_id (ct_report c) in
  match verify_certificate (mesh_node m) c now with
  | Err e => (m, Err e)
  | Panic => (m, Panic)
  | Ok _ =>
      match pending_mesh m !! target with
      | None => (m, Ok None)
      | Some p =>
          let cs := ma_certificates p ++ [c] in
          let valid := valid_certificates cs in
          if min_attesters (at_config (mesh_node m)) <=? valid then
            (mkAttestationMesh (mesh_node m) (attesters m) (delete target (pending_mesh m)),
             Ok (Some (mkConsensus target AR_Valid (len cs) valid cs)))
          else (mkAttestationMesh (mesh_node m) (attesters m) (<[target := mkMeshAttestation (ma_target_id p) cs (started_at_ms p)]> (pending_mesh m)), Ok None)
      end
  end.
End Node.

(** ** Which reports are accepted *)

Inductive at_op :=
  | Op_register (id : NodeId) (s : ExpectedState) | Op_revoke (id : NodeId) | Op_request (random : list Z) (target : NodeId) (now : Z)
  | Op_verify (r : AttestationReport) (now : Z) | Op_cache (c : AttestationCertificate) (now : Z) | Op_clean (now : Z).

Section Runs.
Context `{Blake3} `{Ed25519}.

Definition at_step (n : AttestationNode) (o : at_op) : AttestationNode :=
  match o with
  | Op_register id s => register_expected_state n id s
  | Op_revoke id => revoke_node n id
  | Op_request random target now => (create_request random n target now).1
  | Op_verify r now => (verify_report n r now).1
  | Op_cache c now => cache_attestation n c now
  | Op_clean now => clean_cache n now
  end.
Definition at_run (ops : list at_op) (n : AttestationNode) : AttestationNode := foldl at_step n ops.
(** How often a nonce was issued in a run, and how many reports with it were found valid. *)
Fixpoint issued (nonce : list Z) (ops : list at_op) (n : AttestationNode) : nat :=
  match ops with
  | [] => 0
  | o :: ops =>
      (match o with Op_request random _ now => if decide (generate_nonce random n now = nonce) then 1 else 0 | _ => 0 end
       + issued nonce ops (at_step n o))%nat
  end.
Fixpoint found_valid (nonce : list Z) (ops : list at_op) (n : AttestationNode) : nat :=
  match ops with
  | [] => 0
  | o :: ops =>
      (match o with
       | Op_verify r now => if decide (ar_nonce r = nonce) then match (verify_report n r now).2 with Ok AR_Valid => 1 | _ => 0 end else 0
       | _ => 0
       end + found_valid nonce ops (at_step n o))%nat
  end.
(** The state expected of a node after a run: the last one registered. *)
Definition expected_after (id : NodeId) (ops : list at_op) (e : option ExpectedState) : option ExpectedState :=
  foldl (λ e o, match o with Op_register i s => if decide (i = id) then Some s else e | _ => e end) e ops.
(** What leaves a challenge outstanding. *)
Definition leaves (id : AttestationNode) (nonce : list Z) (deadline : Z) (o : at_op) : Prop :=
  match o with
  | Op_verify r _ => ar_nonce r ≠ nonce
  | Op_request random _ now => generate_nonce random id now ≠ nonce
  | Op_clean now => now < deadline
  | _ => True
  end.
(** The state of a report is the one expected. *)
Definition state_matches (c : AttestationConfig) (e : option ExpectedState) (s : AttestedState) : Prop :=
  match e with
  | None => True
  | Some e => hdl_manifest_hash s = ex_hdl_manifest_hash e ∧ config_hash s = ex_config_hash e ∧ (require_tpm c = true → is_Some (pcr_values s))
  end.

Lemma verify_report_pending n r now :
  pending_requests (verify_report n r now).1 = pending_requests n ∨
  pending_requests (verify_report n r now).1 = delete (ar_nonce r) (pending_requests n).
Proof. unfold verify_report. repeat (case_match; try (by left); try (by right)). Qed.
Lemma verify_report_same n r now : let n' := (verify_report n r now).1 in
  an_node_id n' = an_node_id n ∧ known_good_states n' = known_good_states n ∧ revoked_nodes n' = revoked_nodes n ∧ at_config n' = at_config n.
Proof. unfold verify_report. cbn zeta. by repeat case_match. Qed.
Lemma check_state_valid n r : check_state n r = Ok AR_Valid ↔ state_matches (at_config n) (known_good_states n !! subject_id r) (ar_state r).
Proof.
  unfold check_state, state_matches. destruct (known_good_states n !! subject_id r) as [e|]; [|done].
  destruct (bool_decide_reflect (hdl_manifest_hash (ar_state r) = ex_hdl_manifest_hash e)); cbn; [|naive_solver].
  destruct (bool_decide_reflect (config_hash (ar_state r) = ex_config_hash e)); cbn; [|naive_solver].
  destruct (require_tpm (at_config n)), (pcr_values (ar_state r)) as [p|]; cbn; split; try done.
  intros (_ & _ & Hs). by destruct (Hs eq_refl).
Qed.
(** The verdict is [Valid] exactly when everything is in order. *)
Lemma verify_valid n r now : (verify_report n r now).2 = Ok AR_Valid ↔
  (subject_id r ∉ revoked_nodes n) ∧ ar_timestamp_ms r ≤ u64_add now 60000 ∧
  u64_saturating_sub now (ar_timestamp_ms r) ≤ attestation_validity_ms (at_config n) ∧ verify_report_signature r = true ∧
  ch_target_id <$> pending_requests n !! ar_nonce r = Some (subject_id r) ∧
  state_matches (at_config n) (known_good_states n !! subject_id r) (ar_state r).
Proof.
  rewrite <- check_state_valid. unfold verify_report, is_revoked. destruct (bool_decide_reflect (subject_id r ∈ revoked_nodes n)); [naive_solver|].
  destruct (Z.ltb_spec (u64_add now 60000) (ar_timestamp_ms r)); [split; [done|intros; destruct_and!; lia]|].
  destruct (Z.ltb_spec (attestation_validity_ms (at_config n)) (u64_saturating_sub now (ar_timestamp_ms r))); [split; [done|intros; destruct_and!; lia]|].
  destruct (verify_report_signature r); cbn; [|naive_solver]. destruct (pending_requests n !! ar_nonce r) as [c|]; cbn; [|naive_solver].
  destruct (bool_decide_reflect (ch_target_id c = subject_id r)) as [->|]; cbn; [|naive_solver]. naive_solver.
Qed.

Lemma verify_valid_consumes n r now : (verify_report n r now).2 = Ok AR_Valid →
  is_Some (pending_requests n !! ar_nonce r) ∧ pending_requests (verify_report n r now).1 = delete (ar_nonce r) (pending_requests n).
Proof.
  unfold verify_report. repeat (case_match; try done). all: intros _; split; [by eexists|done].
Qed.

Lemma at_step_same n o : an_node_id (at_step n o) = an_node_id n ∧ at_config (at_step n o) = at_config n ∧
  known_good_states (at_step n o) = match o with Op_register i s => <[i := s]> (known_good_states n) | _ => known_good_states n end ∧
  (∀ id, id ∈ revoked_nodes (at_step n o) ↔ id ∈ revoked_nodes n ∨ o = Op_revoke id).
Proof.
  destruct o as [i s|i|random target now|r now|c now|now]; cbn; try (split_and!; try done; naive_solver).
  - split_and!; try done. intros id. unfold is_revoked. destruct (bool_decide_reflect (i ∈ revoked_nodes n)).
    + split; [by left|]. intros [?|[= ->]]; done.
    + rewrite elem_of_app, list_elem_of_singleton. naive_solver.
  - destruct (verify_report_same n r now) as (-> & -> & -> & ->). split_and!; try done. naive_solver.
Qed.
Lemma at_run_same ops : ∀ n, an_node_id (at_run ops n) = an_node_id n ∧ at_config (at_run ops n) = at_config n ∧
  (∀ id, known_good_states (at_run ops n) !! id = expected_after id ops (known_good_states n !! id)) ∧
  ∀ id, id ∈ revoked_nodes (at_run ops n) ↔ id ∈ revoked_nodes n ∨ Op_revoke id ∈ ops.
Proof.
  induction ops as [|o ops IH]; intros n; unfold at_run, expected_after in *; cbn [foldl].
  - split_and!; try done. intros id. rewrite elem_of_nil. tauto.
  - destruct (IH (at_step n o)) as (-> & -> & Hk & Hr), (at_step_same n o) as (-> & -> & Ek & Er). split_and!; try done.
    + intros id. rewrite Hk, Ek. f_equal. destruct o as [i s| | | | |]; try done. case_decide as E; [subst; by rewrite lookup_insert_eq|by rewrite lookup_insert_ne].
    + intros id. rewrite Hr, Er, elem_of_cons. naive_solver.
Qed.
(** A challenge outstanding was issued in the run, for its target. *)
Lemma pending_issued ops : ∀ n nonce c, pending_requests (at_run ops n) !! nonce = Some c →
  pending_requests n !! nonce = Some c ∨
  ∃ random now, Op_request random (ch_target_id c) now ∈ ops ∧ generate_nonce random n now = nonce.
Proof.
  induction ops as [|o ops IH]; intros n nonce c E; [by left|]. unfold at_run in *. cbn [foldl] in E. apply IH in E as [E|(random & now & Hin & E)].
  - destruct o as [i s|i|random target now|r now|cc now|now]; cbn in E; try (by left).
    + apply lookup_insert_Some in E as [[E1 <-]|[_ E]]; [|by left]. right. exists random, now. split; [left|done].
    + destruct (verify_report_pending n r now) as [E'|E']; rewrite E' in E; [by left|]. apply lookup_delete_Some in E as [_ E]. by left.
    + apply map_lookup_filter_Some in E as [E _]. by left.
  - right. exists random, now. split; [by right|]. unfold generate_nonce in *. by destruct (at_step_same n o) as (<- & _).
Qed.
(** A challenge stays outstanding as long as nothing answers, replaces or expires it. *)
Lemma pending_stays ops : ∀ n nonce c, pending_requests n !! nonce = Some c → Forall (leaves n nonce (deadline_ms c)) ops →
  pending_requests (at_run ops n) !! nonce = Some c.
Proof.
  induction ops as [|o ops IH]; intros n nonce c E Hops; [done|]. apply Forall_cons in Hops as [Ho Hops]. unfold at_run in *. cbn [foldl]. apply IH.
  - destruct o as [i s|i|random target now|r now|cc now|now]; cbn in *; try done.
    + by rewrite lookup_insert_ne.
    + destruct (verify_report_pending n r now) as [->| ->]; [done|]. by rewrite lookup_delete_ne.
    + by rewrite map_lookup_filter_Some.
  - eapply Forall_impl; [exact Hops|]. intros o' Ho'. destruct o'; try done. cbn in *. unfold generate_nonce in *. by destruct (at_step_same n o) as (-> & _).
Qed.
Lemma found_valid_bound nonce ops : ∀ n, (found_valid nonce ops n ≤ issued nonce ops n + if decide (is_Some (pending_requests n !! nonce)) then 1 else 0)%nat.
Proof.
  induction ops as [|o ops IH]; intros n; cbn [found_valid issued]; [lia|]. specialize (IH (at_step n o)).
  destruct o as [i s|i|random target now|r now|c now|now]; cbn [at_step] in *; try (cbn in IH; lia).
  - cbn [create_request fst an_set_pending pending_requests] in *. destruct (decide (generate_nonce random n now = nonce)) as [<-|Hne].
    + rewrite decide_True in IH by (rewrite lookup_insert_eq; by eexists). lia.
    + rewrite lookup_insert_ne in IH by done. cbn in *. lia.
  - pose proof (verify_valid_consumes n r now) as Hv. destruct (decide (ar_nonce r = nonce)) as [<-|Hne].
    + destruct (verify_report n r now) as [n' v] eqn:Ev. cbn [fst snd] in *.
      assert (Hmono : is_Some (pending_requests n' !! ar_nonce r) → is_Some (pending_requests n !! ar_nonce r)).
      { pose proof (verify_report_pending n r now) as E. rewrite Ev in E. cbn in E. destruct E as [->| ->]; [done|]. rewrite lookup_delete_eq. by intros [? ?]. }
      destruct v as [[]| |]; try (repeat case_decide; tauto || lia).
      destruct (Hv eq_refl) as [Hs E]. rewrite E, lookup_delete_eq, decide_False in IH by (by intros [? ?]). rewrite decide_True by done. lia.
    + destruct (verify_report_pending n r now) as [E|E]; rewrite E in IH; [lia|]. rewrite lookup_delete_ne in IH by done. lia.
  - cbn [clean_cache an_set_pending pending_requests] in IH. case_decide as Hd; case_decide as Hd'; try lia. destruct Hd'. destruct Hd as [c Hc].
    apply map_lookup_filter_Some in Hc as [Hc _]. by eexists.
Qed.
End Runs.

(** *** What the signature covers *)

Definition pcr_ok (p : PcrValues) : Prop := length (pcr0 p) = 32%nat ∧ length (pcr1 p) = 32%nat ∧ length (pcr7 p) = 32%nat ∧ length (pcr10 p) = 32%nat.
Definition report_ok (r : AttestationReport) : Prop :=
  length (subject_id r) = 32%nat ∧ 0 ≤ ar_timestamp_ms r < 2 ^ 64 ∧ length (ar_nonce r) = 32%nat ∧
  length (hdl_manifest_hash (ar_state r)) = 32%nat ∧ length (config_hash (ar_state r)) = 32%nat ∧ length (as_version (ar_state r)) = 8%nat ∧
  0 ≤ active_alerts (ar_state r) < 2 ^ 16 ∧ 0 ≤ uptime_secs (ar_state r) < 2 ^ 64 ∧ (∀ p, pcr_values (ar_state r) = Some p → pcr_ok p).
Lemma pcr_fields_inj o o' l l' : (∀ p, o = Some p → pcr_ok p) → (∀ p, o' = Some p → pcr_ok p) →
  length (concat l) = length (concat l') → concat (pcr_fields o ++ l) = concat (pcr_fields o' ++ l') → o = o' ∧ concat l = concat l'.
Proof.
  intros Ho Ho' Hl. destruct o as [p|], o' as [p'|]; cbn [pcr_fields app concat]; intros E; try done.
  - destruct (Ho p eq_refl) as (H0 & H1 & H2 & H3), (Ho' p' eq_refl) as (H0' & H1' & H2' & H3'). injection E as E.
    apply app_inj_1 in E as [E0 E]; [|congruence]. apply app_inj_1 in E as [E1 E]; [|congruence]. apply app_inj_1 in E as [E2 E]; [|congruence].
    apply app_inj_1 in E as [E3 E]; [|congruence]. split; [|done]. destruct p, p'. cbn in *. by subst.
  - injection E as E. done.
Qed.
(** Two reports with the same bytes say the same. *)
Lemma report_bytes_inj r r' : report_ok r → report_ok r' → report_bytes r = report_bytes r' →
  subject_id r = subject_id r' ∧ ar_timestamp_ms r = ar_timestamp_ms r' ∧ ar_nonce r = ar_nonce r' ∧ ar_state r = ar_state r'.
Proof.
  intros (Hs & Ht & Hn & Hh & Hc & Hv & Ha & Hu & Hp) (Hs' & Ht' & Hn' & Hh' & Hc' & Hv' & Ha' & Hu' & Hp') E.
  unfold report_bytes, report_fields in E. rewrite !concat_app in E.
  assert (Hle : ∀ n z, length (to_le n z) = n) by (intros; unfold to_le; by rewrite length_rev, length_to_be).
  apply app_inj_1 in E as [E1 E2].
  2: { cbn [concat]. rewrite !length_app, !Hle. cbn [length]. congruence. }
  rewrite <- !concat_app in E2. apply pcr_fields_inj in E2 as [E2 E3]; [|done|done|cbn [concat]; by rewrite !length_app, !Hle].
  apply concat_fields_inj in E1; [|cbn [fmap list_fmap]; by rewrite !Hle, Hs, Hs', Hn, Hn', Hh, Hh', Hc, Hc', Hv, Hv']. pose proof (λ i, f_equal (λ l, nth i l []) E1) as F. cbn beta in F.
  apply concat_fields_inj in E3; [|cbn [fmap list_fmap]; by rewrite !Hle]. pose proof (λ i, f_equal (λ l, nth i l []) E3) as G. cbn beta in G.
  pose proof (to_le_inj 8 _ _ Ht Ht' (F 1%nat)) as E4. pose proof (to_le_inj 2 _ _ Ha Ha' (G 0%nat)) as E5. pose proof (to_le_inj 8 _ _ Hu Hu' (G 1%nat)) as E6.
  split_and!; [exact (F 0%nat)|done|exact (F 2%nat)|]. pose proof (F 3%nat) as F3. pose proof (F 4%nat) as F4. pose proof (F 5%nat) as F5. pose proof (F 6%nat) as F6.
  destruct (ar_state r), (ar_state r'). cbn in *. clear F G. congruence.
Qed.

(** C40: over any run of registering, revoking, requesting, verifying, caching and cleaning from a
    fresh node, reports with a nonce are found valid at most as often as this node issued it.  A
    report is found valid only if its subject was never revoked, its time is at most a minute ahead and
    not older than the validity, its signature verifies under the subject's key, this node asked that very
    subject with that nonce, and its state is the one last registered for the subject.  The
    signature is over bytes that determine everything the report says.  Conversely a
    report a target creates for a challenge that is neither answered, nor issued again, nor
    cleaned away is found valid in time, whatever else happens in between. *)
Theorem attestation_sound `{Blake3} `{Ed25519} id key cfg ops :
  let n0 := AttestationNode_new id key cfg in let n := at_run ops n0 in
  (∀ nonce, (found_valid nonce ops n0 ≤ issued nonce ops n0)%nat) ∧
  (∀ r now, (verify_report n r now).2 = Ok AR_Valid →
     (Op_revoke (subject_id r) ∉ ops) ∧ ar_timestamp_ms r ≤ u64_add now 60000 ∧
     u64_saturating_sub now (ar_timestamp_ms r) ≤ attestation_validity_ms cfg ∧ verify_report_signature r = true ∧
     (∃ random t, Op_request random (subject_id r) t ∈ ops ∧ generate_nonce random n0 t = ar_nonce r) ∧
     state_matches cfg (expected_after (subject_id r) ops None) (ar_state r)) ∧
  (∀ r r', report_ok r → report_ok r' → report_bytes r = report_bytes r' →
     subject_id r = subject_id r' ∧ ar_timestamp_ms r = ar_timestamp_ms r' ∧ ar_nonce r = ar_nonce r' ∧ ar_state r = ar_state r') ∧
  ∀ pre post random t target challenge state t' now,
    ops = pre ++ Op_request random (an_node_id target) t :: post → array_ok 32 (signing_key target) →
    an_node_id target = ed_public (signing_key target) → ch_nonce challenge = generate_nonce random n0 t →
    Forall (leaves n0 (ch_nonce challenge) (u64_add t (attestation_validity_ms cfg))) post → (Op_revoke (an_node_id target) ∉ ops) →
    t' ≤ u64_add now 60000 → u64_saturating_sub now t' ≤ attestation_validity_ms cfg →
    state_matches cfg (expected_after (an_node_id target) ops None) state →
    (verify_report n (create_report target challenge state t') now).2 = Ok AR_Valid.
Proof.
  cbn zeta. set (n0 := AttestationNode_new id key cfg). split_and!.
  - intros nonce. pose proof (found_valid_bound nonce ops n0) as Hb. rewrite decide_False in Hb; [lia|]. cbn. rewrite lookup_empty. by intros [? ?].
  - intros r now (Hr & H1 & H2 & H3 & H4 & H5)%verify_valid. destruct (at_run_same ops n0) as (_ & Ec & Ek & Er).
    rewrite Er in Hr. rewrite Ec, Ek in H5. rewrite Ec in H2. cbn in *. rewrite lookup_empty in H5. split_and!; [tauto|done..| |done].
    destruct (pending_requests (at_run ops n0) !! ar_nonce r) as [c|] eqn:Ep; [|done]. cbn in H4. injection H4 as <-.
    apply pending_issued in Ep as [Ep|Ep]; [|done]. cbn in Ep. by rewrite lookup_empty in Ep.
  - apply report_bytes_inj.
  - intros pre post random t target challenge state t' now -> Hkey Hid Hch Hpost Hrev Ht1 Ht2 Hst.
    destruct (at_run_same (pre ++ Op_request random (an_node_id target) t :: post) n0) as (_ & Ec & Ek & Er), (at_run_same pre n0) as (Epid & Epc & _).
    apply verify_valid. rewrite Ec, Ek, Er. cbn [create_report subject_id ar_timestamp_ms ar_nonce ar_state]. split_and!; [|done|done| | |].
    + cbn. intros [Hn|Hn]; [by apply not_elem_of_nil in Hn|done].
    + unfold verify_report_signature, create_report. cbn [subject_id ar_signature]. rewrite Hid, ed_public_valid by done. cbn [andb]. apply ed_strict_implies.
      unfold sign_report. by apply ed_sign_verifies.
    + replace (at_run (pre ++ Op_request random (an_node_id target) t :: post) n0) with
        (at_run post (at_step (at_run pre n0) (Op_request random (an_node_id target) t))) by (by unfold at_run; rewrite foldl_app).
      rewrite (pending_stays post _ (ch_nonce challenge)
        (mkAttestationChallenge (ch_nonce challenge) (u64_add t (attestation_validity_ms cfg)) id (an_node_id target))); [done| |].
      * cbn [at_step create_request fst an_set_pending pending_requests]. rewrite Epc, Epid, Hch. unfold generate_nonce. rewrite Epid. by rewrite lookup_insert_eq.
      * eapply Forall_impl; [exact Hpost|]. intros o Ho. destruct o; try done. cbn in *. unfold generate_nonce in *. cbn in *. by rewrite Epid.
    + cbn. by rewrite lookup_empty.
Qed.

(** ** Consensus of the mesh *)

(** What a consensus rests on: certificates whose signatures verified when they came, about the
    target, enough of them with a valid result.  (Neither that the verifiers differ nor that they are attesters is
    looked at: see [one_verifier_is_enough].) *)
Definition certificate_checked `{Blake3} `{Ed25519} (target : NodeId) (c : AttestationCertificate) : Prop :=
  subject_id (ct_report c) = target ∧ verify_certificate_signature c = true ∧ verify_report_signature (ct_report c) = true.
Definition mesh_ok `{Blake3} `{Ed25519} (m : AttestationMesh) : Prop :=
  ∀ t p, pending_mesh m !! t = Some p → Forall (certificate_checked t) (ma_certificates p).
Lemma consensus_checked `{Blake3} `{Ed25519} m c now : mesh_ok m →
  match process_mesh_certificate m c now with
  | (m', Ok (Some k)) => mesh_ok m' ∧ Forall (certificate_checked (mc_target_id k)) (mc_certificates k) ∧
      min_attesters (at_config (mesh_node m)) ≤ valid_certificates (mc_certificates k) ∧ pending_mesh m' !! mc_target_id k = None
  | (m', _) => mesh_ok m'
  end.
Proof.
  intros Hm. unfold process_mesh_certificate, verify_certificate. destruct (_ <? _); [done|].
  destruct (verify_certificate_signature c) eqn:E1; [|done]. destruct (verify_report_signature (ct_report c)) eqn:E2; [|done]. cbn.
  destruct (pending_mesh m !! subject_id (ct_report c)) as [p|] eqn:Ep; [|done].
  assert (Hcs : Forall (certificate_checked (subject_id (ct_report c))) (ma_certificates p ++ [c])).
  { apply Forall_app. split; [by apply Hm|]. by repeat constructor. }
  destruct (Z.leb_spec (min_attesters (at_config (mesh_node m))) (valid_certificates (ma_certificates p ++ [c]))); cbn.
  - split_and!; [|done|done|by rewrite lookup_delete_eq]. intros t q Hq. cbn in Hq. apply lookup_delete_Some in Hq as [_ Hq]. by apply Hm.
  - intros t q Hq. cbn in Hq. apply lookup_insert_Some in Hq as [[<- <-]|[_ Hq]]; [done|by apply Hm].
Qed.

Section AttestationExamples.
Let B : Blake3 := prefix_digest.
Let S : Ed25519 := ed_reference.
Let key (b : Z) : list Z := replicate 32 b.
Let node (b : Z) : AttestationNode := AttestationNode_new (ed_public (Ed25519 := S) (key b)) (key b) AttestationConfig_default.
Let good : AttestedState := mkAttested (replicate 32 3) 1 (replicate 32 4) (replicate 8 0) None 0 100.
Let expects : ExpectedState := mkExpected (replicate 32 3) (replicate 32 4) (replicate 8 9) (Some (mkPcr (key 1) (key 1) (key 1) (key 1))).
Let target : NodeId := an_node_id (node 2).
Let ops : list at_op := [Op_register target expects; Op_request [] target 1000; Op_clean 2000].
Let challenge : AttestationChallenge := mkAttestationChallenge (generate_nonce (H := B) [] (node 1) 1000) 61000 (an_node_id (node 1)) target.
Let report : AttestationReport := create_report (H := B) (H0 := S) (node 2) challenge good 1500.

Lemma attestation_sound_witness :
  (verify_report (H := B) (H0 := S) (at_run (H := B) (H0 := S) ops (node 1)) report 2500).2 = Ok AR_Valid ∧
  (found_valid (H := B) (H0 := S) (ar_nonce report) (ops ++ [Op_verify report 2500; Op_verify report 2600]) (node 1) <= 1)%nat.
Proof.
  destruct (attestation_sound (H := B) (H0 := S) (an_node_id (node 1)) (key 1) AttestationConfig_default ops) as (_ & _ & _ & Hlive).
  destruct (attestation_sound (H := B) (H0 := S) (an_node_id (node 1)) (key 1) AttestationConfig_default
    (ops ++ [Op_verify report 2500; Op_verify report 2600])) as (Honce & _). split.
  - apply (Hlive [Op_register target expects] [Op_clean 2000] [] 1000 (node 2) challenge good 1500 2500).
    + reflexivity.
    + apply array_ok_replicate. lia.
    + reflexivity.
    + reflexivity.
    + constructor; [vm_compute; reflexivity|constructor].
    + unfold ops. rewrite !elem_of_cons, elem_of_nil. intros [E|[E|[E|[]]]]; discriminate E.
    + vm_compute. discriminate.
    + vm_compute. discriminate.
    + vm_compute. split; [reflexivity|]. split; [reflexivity|]. discriminate.
  - etrans; [apply Honce|]. vm_compute. lia.
Defined.

(** The version and the PCR values expected of a node are not compared: the report above differs from
    [expects] in both.  Nor is the deadline of a challenge: only a clean-up ends it. *)
Example expectations_not_compared : as_version good ≠ ex_version expects ∧ pcr_values good = None ∧
  (verify_report (H := B) (H0 := S) (at_run (H := B) (H0 := S) ops (node 1)) (create_report (H := B) (H0 := S) (node 2) challenge good 90000) 90000).2 = Ok AR_Valid.
Proof. split; [by vm_compute|]. split; [done|]. by vm_compute. Qed.
(** A target is its own witness: with two certificates it made itself, a mesh of two other attesters
    reaches consensus, and the same certificate twice is enough. *)
Example one_verifier_is_enough :
  let m := (request_mesh_attestation (H := B) (H0 := S) (λ _, []) (add_attester (add_attester (AttestationMesh_new (node 1)) (key 7)) (key 8)) target 1000).1 in
  let c := create_certificate (H := B) (H0 := S) (node 2) report AR_Valid 2000 in
  let m1 := (process_mesh_certificate (H := B) (H0 := S) m c 2500).1 in
  match (process_mesh_certificate (H := B) (H0 := S) m1 c 2600).2 with
  | Ok (Some k) => mc_target_id k = target ∧ mc_result k = AR_Valid ∧ valid_count k = 2
  | _ => False
  end.
Proof. by vm_compute. Qed.
End AttestationExamples.
