(* ===== verification/CrossTier.v ===== *)
(** * Cross-tier tokens (axiom-transport/src/cross_tier_auth.rs)

    Capability tokens: issuing, delegation, verification of a token and of a
    delegation chain, and the wire form.  A set of capabilities is a finite set,
    iterated in the order of the codes.  The current time is an argument. *)

From stdpp Require Import base numbers list gmap strings.
From S2P Require Import Prelude Types Codec Text Intent Crypto.

(** ** Tiers and capabilities *)

Definition MAX_DELEGATION_DEPTH : Z := 5.

Inductive TrustTier := Root | Firmware | Kernel | Driver | Application.
Definition tier_byte (t : TrustTier) : Z :=
  match t with Root => 0 | Firmware => 1 | Kernel => 2 | Driver => 3 | Application => 4 end.
Definition tier_from_byte (b : Z) : option TrustTier :=
  match b with
  | 0 => Some Root | 1 => Some Firmware | 2 => Some Kernel | 3 => Some Driver | 4 => Some Application
  | _ => None
  end.
Definition can_issue_for (t target : TrustTier) : bool := tier_byte t <=? tier_byte target.

Inductive Capability :=
  | MemoryRead | MemoryWrite | Execute | DmaAccess | InterruptAccess | IoPortAccess | MmioAccess
  | NetworkAccess | StorageAccess | CryptoAccess | Delegate | AuditAccess | AdminCap.
Definition capability_code (c : Capability) : Z :=
  match c with
  | MemoryRead => 1 | MemoryWrite => 2 | Execute => 3 | DmaAccess => 4 | InterruptAccess => 5
  | IoPortAccess => 6 | MmioAccess => 7 | NetworkAccess => 8 | StorageAccess => 9 | CryptoAccess => 10
  | Delegate => 11 | AuditAccess => 12 | AdminCap => 255
  end.
Definition capability_from_u16 (v : Z) : option Capability :=
  match v with
  | 1 => Some MemoryRead | 2 => Some MemoryWrite | 3 => Some Execute | 4 => Some DmaAccess
  | 5 => Some InterruptAccess | 6 => Some IoPortAccess | 7 => Some MmioAccess | 8 => Some NetworkAccess
  | 9 => Some StorageAccess | 10 => Some CryptoAccess | 11 => Some Delegate | 12 => Some AuditAccess
  | 255 => Some AdminCap | _ => None
  end.

Lemma capability_from_code c : capability_from_u16 (capability_code c) = Some c.
Proof. by destruct c. Qed.

#[export] Instance Capability_eq_dec : EqDecision Capability.
Proof. solve_decision. Defined.
#[export] Instance Capability_countable : Countable Capability :=
  inj_countable capability_code capability_from_u16 capability_from_code.

Definition all_capabilities : list Capability :=
  [MemoryRead; MemoryWrite; Execute; DmaAccess; InterruptAccess; IoPortAccess; MmioAccess;
   NetworkAccess; StorageAccess; CryptoAccess; Delegate; AuditAccess; AdminCap].
(** The members of a set in the order of their codes, as a [BTreeSet] iterates. *)
Definition capability_list (s : gset Capability) : list Capability := filter (λ c, c ∈ s) all_capabilities.

(** ** Tokens *)

Record AuthToken := mkToken {
  token_id : list Z;
  issuer_id : list Z;
  subject_id : list Z;
  tier : TrustTier;
  token_capabilities : gset Capability;
  issued_at_ms : Z;
  expires_at_ms : Z;
  parent_token : option (list Z);
  nonce : list Z;
  token_signature : Signature;
  delegation_depth : Z
}.
Definition token_is_expired (t : AuthToken) (now : Z) : bool := expires_at_ms t <=? now.
Definition has_capability (t : AuthToken) (c : Capability) : bool := bool_decide (c ∈ token_capabilities t).
Definition can_delegate (t : AuthToken) : bool := has_capability t Delegate.

Definition capability_bytes (s : gset Capability) : list Z :=
  concat ((λ c, to_le 2 (capability_code c)) <$> capability_list s).
Definition parent_fields (o : option (list Z)) : list (list Z) :=
  match o with Some p => [[1]; p] | None => [[0]] end.

Definition token_bytes (t : AuthToken) : list Z :=
  concat ([as_bytes (str "AXIOM-TOKEN") ++ [0; 1]; token_id t; issuer_id t; subject_id t; [tier_byte (tier t)];
           to_le 2 (Z.of_nat (size (token_capabilities t))); capability_bytes (token_capabilities t);
           to_le 8 (issued_at_ms t); to_le 8 (expires_at_ms t)]
          ++ parent_fields (parent_token t) ++ [nonce t; [delegation_depth t]]).

Inductive TokenError :=
  | Expired | TRevoked | UntrustedIssuer | TInvalidSignature | InsufficientTier
  | MissingCapability (c : Capability) | TierEscalation | CapabilityEscalation | InvalidParent
  | ParentExpired | DelegationNotAllowed | ParentNotProvided | ExpirationExceedsParent
  | TMalformedData | MaxDelegationDepthExceeded.

Section Tokens.
Context `{Ed25519}.

Definition token_verify (t : AuthToken) (pk : list Z) : bool :=
  ed_valid_key pk && ed_verify pk (token_bytes t) (token_signature t).

Record TokenIssuer := mkIssuer {
  ti_issuer_id : list Z;
  signing_key : list Z;
  ti_tier : TrustTier;
  max_lifetime_ms : Z;
  token_counter : Z
}.
Definition TokenIssuer_new (id key : list Z) (t : TrustTier) (max : Z) : TokenIssuer := mkIssuer id key t max 0.

Definition bump_counter (i : TokenIssuer) : TokenIssuer :=
  mkIssuer (ti_issuer_id i) (signing_key i) (ti_tier i) (max_lifetime_ms i) (u64_add (token_counter i) 1).

Definition make_token_id (counter now : Z) : list Z := to_le 8 counter ++ to_le 8 now.
Definition make_nonce (counter now : Z) : list Z :=
  (λ i, Z.lxor (Z.shiftr now (Z.of_nat i mod 8)) (Z.shiftr counter (Z.of_nat i mod 8)) mod 256) <$> seq 0 16.

Definition sign_token (i : TokenIssuer) (t : AuthToken) : AuthToken :=
  mkToken (token_id t) (issuer_id t) (subject_id t) (tier t) (token_capabilities t) (issued_at_ms t)
    (expires_at_ms t) (parent_token t) (nonce t) (ed_sign (signing_key i) (token_bytes t)) (delegation_depth t).

Definition issue_token (i : TokenIssuer) (subject : list Z) (t : TrustTier) (caps : gset Capability)
    (lifetime now : Z) : TokenIssuer * outcome TokenError AuthToken :=
  if negb (can_issue_for (ti_tier i) t) then (i, Err TierEscalation)
  else
    let actual := Z.min lifetime (max_lifetime_ms i) in
    let i := bump_counter i in
    (i, Ok (sign_token i
       (mkToken (make_token_id (token_counter i) now) (ti_issuer_id i) subject t caps now (u64_add now actual)
          None (make_nonce (token_counter i) now) (replicate 64 0) 0))).

Definition delegate_token (i : TokenIssuer) (parent : AuthToken) (subject : list Z) (caps : gset Capability)
    (lifetime now : Z) (parent_key : list Z) : TokenIssuer * outcome TokenError AuthToken :=
  if negb (token_verify parent parent_key) then (i, Err InvalidParent)
  else if token_is_expired parent now then (i, Err ParentExpired)
  else if negb (can_delegate parent) then (i, Err DelegationNotAllowed)
  else if MAX_DELEGATION_DEPTH <=? delegation_depth parent then (i, Err MaxDelegationDepthExceeded)
  else if existsb (λ c, negb (has_capability parent c)) (capability_list caps)
  then (i, Err CapabilityEscalation)
  else
    let actual := Z.min lifetime (u64_saturating_sub (expires_at_ms parent) now) in
    if negb (can_issue_for (tier parent) (tier parent)) then (i, Err TierEscalation)
    else
      let i := bump_counter i in
      (i, Ok (sign_token i
         (mkToken (make_token_id (token_counter i) now) (ti_issuer_id i) subject (tier parent) caps now
            (u64_add now actual) (Some (token_id parent)) (make_nonce (token_counter i) now)
            (replicate 64 0) (delegation_depth parent + 1)))).

(** ** Verification *)

Record TrustedIssuer := mkTrusted { ti_public_key : list Z; trusted_tier : TrustTier; added_at_ms : Z }.
Record TokenVerifier := mkVerifier {
  trusted_issuers : gmap (list Z) TrustedIssuer;
  revoked_tokens : gset (list Z)
}.
Definition TokenVerifier_new : TokenVerifier := mkVerifier ∅ ∅.
Definition add_issuer (v : TokenVerifier) (id : list Z) (i : TrustedIssuer) : TokenVerifier :=
  mkVerifier (<[id := i]> (trusted_issuers v)) (revoked_tokens v).
Definition remove_issuer (v : TokenVerifier) (id : list Z) : TokenVerifier :=
  mkVerifier (delete id (trusted_issuers v)) (revoked_tokens v).
Definition revoke_token (v : TokenVerifier) (id : list Z) : TokenVerifier :=
  mkVerifier (trusted_issuers v) ({[id]} ∪ revoked_tokens v).
Definition token_is_revoked (v : TokenVerifier) (id : list Z) : bool := bool_decide (id ∈ revoked_tokens v).

Fixpoint check_capabilities (t : AuthToken) (required : list Capability) : outcome TokenError unit :=
  match required with
  | [] => Ok tt
  | c :: rest => if negb (has_capability t c) then Err (MissingCapability c) else check_capabilities t rest
  end.

Definition verify_auth_token (v : TokenVerifier) (t : AuthToken) (required_tier : TrustTier)
    (required : list Capability) (now : Z) : outcome TokenError unit :=
  if token_is_revoked v (token_id t) then Err TRevoked
  else if token_is_expired t now then Err Expired
  else
    match trusted_issuers v !! issuer_id t with
    | None => Err UntrustedIssuer
    | Some i =>
        if negb (token_verify t (ti_public_key i)) then Err TInvalidSignature
        else if tier_byte required_tier <? tier_byte (tier t) then Err InsufficientTier
        else check_capabilities t required
    end.

(** [fuel] bounds the recursion; the depth check stops it before the fuel does. *)
Fixpoint verify_delegation_chain_bounded (fuel : nat) (v : TokenVerifier) (t : AuthToken)
    (parents : list AuthToken) (now depth : Z) : outcome TokenError unit :=
  match fuel with
  | O => Panic
  | S fuel =>
      if MAX_DELEGATION_DEPTH <? depth then Err MaxDelegationDepthExceeded
      else
        match parent_token t with
        | None => verify_auth_token v t Application [] now
        | Some parent_id =>
            match find (λ p, bool_decide (token_id p = parent_id)) parents with
            | None => Err ParentNotProvided
            | Some parent =>
                _ ← verify_delegation_chain_bounded fuel v parent parents now (depth + 1);
                if existsb (λ c, negb (has_capability parent c)) (capability_list (token_capabilities t))
                then Err CapabilityEscalation
                else if expires_at_ms parent <? expires_at_ms t then Err ExpirationExceedsParent
                else
                  match trusted_issuers v !! issuer_id t with
                  | None => Err UntrustedIssuer
                  | Some i => if negb (token_verify t (ti_public_key i)) then Err TInvalidSignature else Ok tt
                  end
            end
        end
  end.
Definition chain_fuel : nat := 7.
Definition verify_delegation_chain (v : TokenVerifier) (t : AuthToken) (parents : list AuthToken) (now : Z) :
    outcome TokenError unit :=
  verify_delegation_chain_bounded chain_fuel v t parents now 0.
End Tokens.

(** ** Wire form *)

Definition serialize_token (t : AuthToken) : list Z :=
  concat ([as_bytes (str "ATKN"); token_id t; issuer_id t; subject_id t; [tier_byte (tier t)];
           to_le 2 (Z.of_nat (size (token_capabilities t))); capability_bytes (token_capabilities t);
           to_le 8 (issued_at_ms t); to_le 8 (expires_at_ms t)]
          ++ parent_fields (parent_token t) ++ [nonce t; token_signature t; [delegation_depth t]]).

Fixpoint read_capabilities (data : list Z) (n : nat) (offset : Z) (caps : gset Capability) :
    outcome TokenError (gset Capability * Z) :=
  match n with
  | O => Ok (caps, offset)
  | S n =>
      if len data <? offset + 2 then Err TMalformedData
      else
        b ← slice data offset (offset + 2);
        read_capabilities data n (offset + 2)
          (match capability_from_u16 (from_le b) with Some c => {[c]} ∪ caps | None => caps end)
  end.

(** The fields after the capabilities; the parent flag is read without a check. *)
Definition read_parent (data : list Z) (offset : Z) : outcome TokenError (option (list Z) * Z) :=
  flag ← index data offset;
  if flag =? 1 then
    let offset := offset + 1 in
    if len data <? offset + 16 then Err TMalformedData
    else p ← slice data offset (offset + 16); Ok (Some p, offset + 16)
  else Ok (None, offset + 1).

Definition read_bounded (data : list Z) (offset n : Z) : outcome TokenError (list Z) :=
  if len data <? offset + n then Err TMalformedData else slice data offset (offset + n).

Definition deserialize_token (data : list Z) : outcome TokenError AuthToken :=
  if len data <? 4 + 16 + 32 + 32 + 1 + 2 + 8 + 8 + 1 + 16 + 64 then Err TMalformedData
  else
    magic ← slice data 0 4;
    if negb (bool_decide (magic = as_bytes (str "ATKN"))) then Err TMalformedData
    else
      id ← slice data 4 20;
      issuer ← slice data 20 52;
      subject ← slice data 52 84;
      tb ← index data 84;
      match tier_from_byte tb with
      | None => Err TMalformedData
      | Some tr =>
          count ← slice data 85 87;
          '(caps, offset) ← read_capabilities data (Z.to_nat (from_le count)) 87 ∅;
          issued ← read_bounded data offset 8;
          expires ← read_bounded data (offset + 8) 8;
          '(parent, offset) ← read_parent data (offset + 16);
          nc ← read_bounded data offset 16;
          sg ← read_bounded data (offset + 16) 64;
          depth ← (if offset + 80 <? len data then index data (offset + 80) else Ok 0);
          Ok (mkToken id issuer subject tr caps (from_le issued) (from_le expires) parent nc sg depth)
      end.

(** ** Lemmas on capability sets *)

Lemma all_capabilities_all c : c ∈ all_capabilities.
Proof. unfold all_capabilities. destruct c; set_solver. Qed.

Lemma elem_of_capability_list c s : c ∈ capability_list s ↔ c ∈ s.
Proof. unfold capability_list. rewrite list_elem_of_filter. pose proof (all_capabilities_all c). tauto. Qed.

Lemma capability_list_NoDup s : NoDup (capability_list s).
Proof. apply NoDup_filter. apply (bool_decide_unpack (NoDup all_capabilities)). vm_compute. exact I. Qed.

Lemma capability_list_to_set s : list_to_set (capability_list s) = s.
Proof. apply set_eq. intros c. by rewrite elem_of_list_to_set, elem_of_capability_list. Qed.

Lemma capability_list_length s : length (capability_list s) = size s.
Proof. rewrite <- (capability_list_to_set s) at 2. by rewrite size_list_to_set by apply capability_list_NoDup. Qed.

Lemma capability_size (s : gset Capability) : (size s ≤ 13)%nat.
Proof. rewrite <- capability_list_length. apply (length_filter (λ c, c ∈ s) all_capabilities). Qed.

Lemma len_capability_bytes s : len (capability_bytes s) = 2 * Z.of_nat (size s).
Proof.
  unfold capability_bytes. rewrite <- capability_list_length.
  induction (capability_list s) as [|c l IH]; [done|]. cbn [fmap list_fmap concat length]. rewrite len_app, IH, len_to_le. lia.
Qed.

Lemma capability_subset s (p : AuthToken) :
  existsb (λ c, negb (has_capability p c)) (capability_list s) = false ↔ s ⊆ token_capabilities p.
Proof.
  rewrite <- not_true_iff_false, existsb_exists. split.
  - intros Hn c Hc. destruct (decide (c ∈ token_capabilities p)) as [|Hp]; [done|]. exfalso. apply Hn.
    exists c. rewrite <- list_elem_of_In, elem_of_capability_list. unfold has_capability. by rewrite bool_decide_eq_false_2.
  - intros Hs (c & Hc & Hb). rewrite <- list_elem_of_In, elem_of_capability_list in Hc. unfold has_capability in Hb.
    rewrite bool_decide_eq_true_2 in Hb; [done|]. set_solver.
Qed.

(** ** Lemmas on the wire form *)

Lemma read_capabilities_list cs p rest acc :
  read_capabilities (p ++ concat ((λ c, to_le 2 (capability_code c)) <$> cs) ++ rest) (length cs) (len p) acc
  = Ok (list_to_set cs ∪ acc, len p + 2 * len cs).
Proof.
  revert p acc. induction cs as [|c cs IH]; intros p acc; cbn [length read_capabilities fmap list_fmap concat].
  { change (len []) with 0. rewrite Z.add_0_r. do 2 f_equal. set_solver. }
  pose proof (len_nonneg (concat ((λ c, to_le 2 (capability_code c)) <$> cs))).
  pose proof (len_nonneg rest). destruct (Z.ltb_spec (len (p ++ (to_le 2 (capability_code c)
    ++ concat ((λ c, to_le 2 (capability_code c)) <$> cs)) ++ rest)) (len p + 2)) as [Hl|_];
    [rewrite !len_app, len_to_le in Hl; lia|].
  rewrite (slice_at _ p (to_le 2 (capability_code c)) (concat ((λ c, to_le 2 (capability_code c)) <$> cs) ++ rest));
    [|by rewrite <- app_assoc|done|by rewrite len_to_le].
  rewrite bind_Ok, from_le_to_le by (by destruct c). rewrite capability_from_code.
  specialize (IH (p ++ to_le 2 (capability_code c)) ({[c]} ∪ acc)). rewrite len_app, len_to_le in IH.
  rewrite <- !app_assoc in IH |- *. change (Z.of_nat 2) with 2 in IH. rewrite IH. f_equal. f_equal; [set_solver|].
  rewrite len_cons. lia.
Qed.

Lemma read_capabilities_bounds data n offset caps :
  0 ≤ offset → read_capabilities data n offset caps ≠ Panic ∧
  ∀ r o, read_capabilities data n offset caps = Ok (r, o) →
    o = offset + 2 * Z.of_nat n ∧ (o ≤ len data ∨ n = 0%nat).
Proof.
  revert offset caps. induction n as [|n IH]; intros offset caps Ho; cbn [read_capabilities].
  { split; [done|]. intros r o [= <- <-]. split; [lia|by right]. }
  case_ltb; [done|].
  assert (Hb : slice (E:=TokenError) data offset (offset + 2) ≠ Panic) by (apply slice_not_Panic; lia).
  destruct (slice data offset (offset + 2)) as [b|e|] eqn:Es; [|unfold slice in Es; by case_match|done]. rewrite bind_Ok.
  edestruct (IH (offset + 2)) as [Hp Hr]; [lia|]. split; [exact Hp|]. intros r o E. destruct (Hr _ _ E) as [Eo [?|En]]; (split; [lia|left; lia]).
Qed.

Record token_ok (t : AuthToken) : Prop := {
  to_id : array_ok 16 (token_id t);
  to_issuer : array_ok 32 (issuer_id t);
  to_subject : array_ok 32 (subject_id t);
  to_issued : 0 ≤ issued_at_ms t < 2 ^ 64;
  to_expires : 0 ≤ expires_at_ms t < 2 ^ 64;
  to_parent : ∀ p, parent_token t = Some p → array_ok 16 p;
  to_nonce : array_ok 16 (nonce t);
  to_signature : array_ok 64 (token_signature t)
}.

Lemma read_bounded_field (fs : list (list Z)) i m offset n :
  fs !! i = Some m → offset = len (concat (take i fs)) → n = len m →
  read_bounded (concat fs) offset n = Ok m.
Proof.
  intros Hi Ho Hn. unfold read_bounded. pose proof (slice_field (E:=TokenError) fs i m offset (offset + n) Hi Ho) as Hs.
  rewrite Hs by lia. destruct (slice_Ok_inv _ _ _ _ (Hs ltac:(lia))) as (_ & ? & _). by case_ltb.
Qed.

Lemma read_parent_fields p fs pre post offset :
  (∀ q, p = Some q → array_ok 16 q) → fs = pre ++ parent_fields p ++ post → offset = len (concat pre) →
  read_parent (concat fs) offset = Ok (p, offset + len (concat (parent_fields p))).
Proof.
  intros Hp -> ->. unfold read_parent. destruct p as [q|]; cbn [parent_fields].
  - specialize (Hp q eq_refl). apply len_array in Hp. rewrite !concat_app. cbn [concat app].
    rewrite (index_at _ (concat pre) 1 (q ++ concat post)) by (done || by rewrite <- app_assoc).
    rewrite bind_Ok. cbn [Z.eqb Pos.eqb]. pose proof (len_nonneg (concat post)). case_ltb.
    rewrite (slice_at _ (concat pre ++ [1]) q (concat post)), bind_Ok; [|by rewrite <- !app_assoc|solve_len|solve_len].
    do 2 f_equal. solve_len.
  - rewrite !concat_app. cbn [concat app]. by rewrite (index_at _ (concat pre) 0 (concat post)).
Qed.

Lemma tier_from_tier_byte t : tier_from_byte (tier_byte t) = Some t.
Proof. by destruct t. Qed.

(** The fields of a serialised token with [rest] after it. *)
Section Serialized.
Variables (t : AuthToken) (rest : list Z).
Hypothesis Ht : token_ok t.

Definition token_head : list (list Z) :=
  [as_bytes (str "ATKN"); token_id t; issuer_id t; subject_id t; [tier_byte (tier t)];
   to_le 2 (Z.of_nat (size (token_capabilities t))); capability_bytes (token_capabilities t);
   to_le 8 (issued_at_ms t); to_le 8 (expires_at_ms t)].
Definition token_tail : list (list Z) := [nonce t; token_signature t; [delegation_depth t]; rest].
Definition token_fields : list (list Z) := token_head ++ parent_fields (parent_token t) ++ token_tail.

Lemma serialize_token_fields : serialize_token t ++ rest = concat token_fields.
Proof.
  unfold serialize_token, token_fields, token_head, token_tail. rewrite !concat_app. cbn [concat].
  by rewrite !app_nil_r, <- !app_assoc.
Qed.

Lemma token_head_lens :
  Forall2 (λ f n, len f = n) token_head
    [4; 16; 32; 32; 1; 2; 2 * Z.of_nat (size (token_capabilities t)); 8; 8].
Proof.
  destruct Ht as [Hid His Hsu _ _ _ _ _]. apply len_array in Hid, His, Hsu.
  repeat (constructor; try (done || apply len_to_le || apply len_capability_bytes)).
Qed.

Lemma token_head_at i :
  len (concat (take i token_head))
  = foldr Z.add 0 (take i [4; 16; 32; 32; 1; 2; 2 * Z.of_nat (size (token_capabilities t)); 8; 8]).
Proof.
  pose proof (Forall2_take _ _ _ i token_head_lens) as Hl. induction Hl as [|f n l k Hf Hl IH]; [done|].
  cbn [concat foldr]. by rewrite len_app, IH, Hf.
Qed.

Lemma token_head_field i m :
  token_head !! i = Some m →
  token_fields !! i = Some m ∧ concat (take i token_fields) = concat (take i token_head).
Proof.
  intros Hi. split; [by apply lookup_app_l_Some|]. unfold token_fields. rewrite take_app_le; [done|].
  apply lookup_lt_Some in Hi. lia.
Qed.

Lemma token_head_slice i m a b :
  token_head !! i = Some m → a = len (concat (take i token_head)) → b = a + len m →
  slice (E:=TokenError) (concat token_fields) a b = Ok m.
Proof. intros [Hi He]%token_head_field Ha Hb. apply (slice_field _ i); [done|by rewrite He|done]. Qed.

Lemma token_head_bounded i m a n :
  token_head !! i = Some m → a = len (concat (take i token_head)) → n = len m →
  read_bounded (concat token_fields) a n = Ok m.
Proof. intros [Hi He]%token_head_field Ha Hb. apply (read_bounded_field _ i); [done|by rewrite He|done]. Qed.

Lemma token_tail_bounded i m o n :
  token_tail !! i = Some m →
  o = len (concat token_head) + len (concat (parent_fields (parent_token t))) + len (concat (take i token_tail)) →
  n = len m → read_bounded (concat token_fields) o n = Ok m.
Proof.
  intros Hi -> Hn. unfold token_fields. rewrite app_assoc.
  apply (read_bounded_field _ (length (token_head ++ parent_fields (parent_token t)) + i)); [|..|done].
  - rewrite lookup_app_r by lia. by replace (_ + i - _)%nat with i by lia.
  - by rewrite take_app_add, !concat_app, !len_app.
Qed.

Lemma token_capabilities_read :
  read_capabilities (concat token_fields) (size (token_capabilities t)) 87 ∅
  = Ok (token_capabilities t, 87 + 2 * Z.of_nat (size (token_capabilities t))).
Proof.
  pose proof (read_capabilities_list (capability_list (token_capabilities t)) (concat (take 6 token_head))
                (concat (drop 7 token_head ++ parent_fields (parent_token t) ++ token_tail)) ∅) as Hr.
  rewrite capability_list_to_set, union_empty_r_L, token_head_at in Hr. unfold len in Hr.
  rewrite capability_list_length in Hr.
  change (foldr _ _ _) with 87 in Hr. rewrite <- Hr. f_equal. unfold token_fields.
  rewrite <- (take_drop_middle token_head 6 (capability_bytes (token_capabilities t))) at 1 by done.
  rewrite !concat_app, <- !app_assoc. cbn [concat]. by rewrite <- !app_assoc.
Qed.

Lemma token_fields_len :
  len (concat token_fields)
  = 103 + 2 * Z.of_nat (size (token_capabilities t)) + len (concat (parent_fields (parent_token t))) + 81 + len rest.
Proof.
  pose proof (token_head_at 9) as Hh. change (take 9 token_head) with token_head in Hh. cbn [foldr take] in Hh.
  destruct Ht as [_ _ _ _ _ _ Hno Hsi]. apply len_array in Hno, Hsi.
  unfold token_fields. rewrite !concat_app, !len_app, Hh. unfold token_tail. cbn [concat app]. solve_len.
Qed.
End Serialized.

Lemma parent_fields_len p : 1 ≤ len (concat (parent_fields p)).
Proof. destruct p as [q|]; [pose proof (len_nonneg q)|]; cbn [parent_fields concat app]; solve_len. Qed.

(** A field's place in the head of a token. *)
Ltac head_field :=
  first [done | rewrite token_head_at by done; cbn [take foldr]; lia | rewrite len_to_le; lia | lia].

Lemma deserialize_serialize_token t rest :
  token_ok t → deserialize_token (serialize_token t ++ rest) = Ok t.
Proof.
  intros Ht. pose proof (token_fields_len t rest Ht) as Hfl. pose proof (parent_fields_len (parent_token t)) as Hpp.
  pose proof (len_nonneg rest). pose proof (capability_size (token_capabilities t)) as Hc.
  pose proof (token_head_at t Ht 9) as Hh. change (take 9 (token_head t)) with (token_head t) in Hh. cbn [foldr take] in Hh.
  pose proof Ht as [Hid His Hsu Hia Hex Hpa Hno Hsi]. apply len_array in Hid, His, Hsu, Hno, Hsi.
  rewrite serialize_token_fields. unfold deserialize_token. case_ltb.
  rewrite (token_head_slice t rest 0 (as_bytes (str "ATKN")) 0 4), bind_Ok by done.
  rewrite bool_decide_eq_true_2 by done. cbn [negb].
  rewrite (token_head_slice t rest 1 (token_id t) 4 20), bind_Ok by head_field.
  rewrite (token_head_slice t rest 2 (issuer_id t) 20 52), bind_Ok by head_field.
  rewrite (token_head_slice t rest 3 (subject_id t) 52 84), bind_Ok by head_field.
  rewrite (index_field (token_fields t rest) 4 (tier_byte (tier t)) 84), bind_Ok, tier_from_tier_byte
    by (done || (change (take 4 (token_fields t rest)) with (take 4 (token_head t)); head_field)).
  rewrite (token_head_slice t rest 5 (to_le 2 (Z.of_nat (size (token_capabilities t)))) 85 87), bind_Ok by head_field.
  rewrite from_le_to_le, Nat2Z.id, token_capabilities_read, bind_Ok by (done || lia).
  rewrite (token_head_bounded t rest 7 (to_le 8 (issued_at_ms t))
    (87 + 2 * Z.of_nat (size (token_capabilities t))) 8), bind_Ok by head_field.
  rewrite (token_head_bounded t rest 8 (to_le 8 (expires_at_ms t))
    ((87 + 2 * Z.of_nat (size (token_capabilities t))) + 8) 8), bind_Ok by head_field.
  rewrite (read_parent_fields (parent_token t) (token_fields t rest) (token_head t) (token_tail t rest)), bind_Ok
    by (done || lia).
  rewrite (token_tail_bounded t rest 0 (nonce t)
    ((87 + 2 * Z.of_nat (size (token_capabilities t))) + 16 + len (concat (parent_fields (parent_token t)))) 16), bind_Ok by (first [done|unfold token_tail; cbn [take concat app]; solve_len]).
  rewrite (token_tail_bounded t rest 1 (token_signature t)
    (((87 + 2 * Z.of_nat (size (token_capabilities t))) + 16 + len (concat (parent_fields (parent_token t)))) + 16) 64), bind_Ok by (first [done|unfold token_tail; cbn [take concat app]; solve_len]).
  case_ltb. rewrite (index_at _ (concat (token_head t) ++ concat (parent_fields (parent_token t)) ++ nonce t ++ token_signature t)
    (delegation_depth t) rest).
  - rewrite bind_Ok, !from_le_to_le by done. by destruct t.
  - unfold token_fields, token_tail. rewrite !concat_app. cbn [concat]. rewrite <- !app_assoc. by rewrite app_nil_r.
  - solve_len.
Qed.

Lemma read_bounded_no_panic data o n : 0 ≤ o → 0 ≤ n → read_bounded data o n ≠ Panic.
Proof. intros. unfold read_bounded. case_ltb; [done|]. apply slice_not_Panic; lia. Qed.

Lemma read_bounded_Ok data o n r : read_bounded data o n = Ok r → o + n ≤ len data.
Proof. unfold read_bounded. by case_ltb. Qed.

Lemma read_parent_panic data o :
  0 ≤ o → (read_parent data o = Panic ↔ len data ≤ o) ∧
  ∀ p o', read_parent data o = Ok (p, o') → o < o'.
Proof.
  intros Ho. unfold read_parent. destruct (decide (o < len data)) as [Hl|Hl].
  - destruct (index data o) as [flag|e|] eqn:Ei; [|unfold index in Ei; by case_match|by apply index_not_Panic in Ei].
    rewrite bind_Ok. destruct (flag =? 1).
    + case_ltb; [split; [split; [done|lia]|done]|].
      assert (Hs : slice (E:=TokenError) data (o + 1) (o + 1 + 16) ≠ Panic) by (apply slice_not_Panic; lia).
      destruct (slice data (o + 1) (o + 1 + 16)) as [s|e|] eqn:Es; [|unfold slice in Es; by case_match|done].
      rewrite bind_Ok. split; [split; [done|lia]|]. intros p o' [= <- <-]. lia.
    + split; [split; [done|lia]|]. intros p o' [= <- <-]. lia.
  - assert (Ei : index (E:=TokenError) data o = Panic) by (unfold index; by rewrite decide_False by lia).
    rewrite Ei. split; [split; [lia|done]|done].
Qed.

(** The reads after the parent never panic. *)
Lemma read_rest_no_panic {A} data o (k : list Z → list Z → Z → A) :
  0 ≤ o →
  (nc ← read_bounded data o 16; sg ← read_bounded data (o + 16) 64;
   depth ← (if o + 80 <? len data then index data (o + 80) else Ok 0); Ok (k nc sg depth)) ≠ (Panic : outcome TokenError A).
Proof.
  intros Ho. apply bind_not_Panic; [apply read_bounded_no_panic; lia|]. intros nc _.
  apply bind_not_Panic; [apply read_bounded_no_panic; lia|]. intros sg _. apply bind_not_Panic; [|done].
  case_ltb; [apply index_not_Panic; lia|done].
Qed.


Definition read_after_count (data : list Z) (n : nat)
    (r : gset Capability → list Z → list Z → option (list Z) → list Z → list Z → Z → AuthToken) :
    outcome TokenError AuthToken :=
  '(caps, offset) ← read_capabilities data n 87 ∅;
  issued ← read_bounded data offset 8;
  expires ← read_bounded data (offset + 8) 8;
  '(parent, offset) ← read_parent data (offset + 16);
  nc ← read_bounded data offset 16;
  sg ← read_bounded data (offset + 16) 64;
  depth ← (if offset + 80 <? len data then index data (offset + 80) else Ok 0);
  Ok (r caps issued expires parent nc sg depth).

Lemma read_capabilities_total data n offset caps :
  0 ≤ offset → offset + 2 * Z.of_nat n ≤ len data →
  ∃ r, read_capabilities data n offset caps = Ok (r, offset + 2 * Z.of_nat n).
Proof.
  revert offset caps. induction n as [|n IH]; intros offset caps Ho Hl; cbn [read_capabilities].
  { exists caps. do 2 f_equal. lia. }
  case_ltb. unfold slice. rewrite decide_True by lia. rewrite bind_Ok.
  edestruct (IH (offset + 2)) as [r Hr]; [lia|lia|]. exists r. rewrite Hr. do 2 f_equal. lia.
Qed.

Lemma read_bounded_total data o n :
  0 ≤ o → 0 ≤ n → o + n ≤ len data → ∃ r, read_bounded data o n = Ok r.
Proof. intros. unfold read_bounded, slice. case_ltb. rewrite decide_True by lia. eauto. Qed.

(** The parser panics exactly when the buffer ends where the parent flag should be. *)
Lemma read_after_count_panic data n r :
  read_after_count data n r = Panic ↔ len data = 103 + 2 * Z.of_nat n.
Proof.
  unfold read_after_count. split.
  - destruct (read_capabilities_bounds data n 87 ∅) as [Hc Hb]; [lia|].
    destruct (read_capabilities data n 87 ∅) as [[caps o]|e|]; [|done|done]. destruct (Hb _ _ eq_refl) as [Ho _].
    rewrite bind_Ok. pose proof (read_bounded_no_panic data o 8 ltac:(lia) ltac:(lia)).
    destruct (read_bounded data o 8) as [i1|e|]; [|done|done]. rewrite bind_Ok.
    pose proof (read_bounded_no_panic data (o + 8) 8 ltac:(lia) ltac:(lia)).
    destruct (read_bounded data (o + 8) 8) as [ex|e|] eqn:E2; [|done|done]. apply read_bounded_Ok in E2. rewrite bind_Ok.
    destruct (read_parent_panic data (o + 16)) as [Hp Hp']; [lia|].
    destruct (read_parent data (o + 16)) as [[p o']|e|]; [|done|intros _; destruct Hp as [Hp _]; specialize (Hp eq_refl); lia].
    rewrite bind_Ok. specialize (Hp' _ _ eq_refl). intros Hx. by apply read_rest_no_panic in Hx; [|lia].
  - intros Hl. destruct (read_capabilities_total data n 87 ∅) as [caps ->]; [lia..|]. rewrite bind_Ok.
    destruct (read_bounded_total data (87 + 2 * Z.of_nat n) 8) as [i1 ->]; [lia..|]. rewrite bind_Ok.
    destruct (read_bounded_total data (87 + 2 * Z.of_nat n + 8) 8) as [ex ->]; [lia..|]. rewrite bind_Ok.
    destruct (read_parent_panic data (87 + 2 * Z.of_nat n + 16)) as [Hp _]; [lia|].
    assert (Hl' : len data ≤ 87 + 2 * Z.of_nat n + 16) by lia. apply Hp in Hl'. by rewrite Hl'.
Qed.

(** ** Delegation chains *)

Section Chains.
Context `{Ed25519}.

(** A chain from [t] up to a root token, over the tokens provided. *)
Inductive chain (v : TokenVerifier) (now : Z) (parents : list AuthToken) : AuthToken → AuthToken → nat → Prop :=
  | chain_root t :
      parent_token t = None → verify_auth_token v t Application [] now = Ok tt →
      chain v now parents t t 0
  | chain_step t p root n i :
      parent_token t = Some (token_id p) → p ∈ parents → chain v now parents p root n →
      token_capabilities t ⊆ token_capabilities p → expires_at_ms t ≤ expires_at_ms p →
      trusted_issuers v !! issuer_id t = Some i → token_verify t (ti_public_key i) = true →
      chain v now parents t root (S n).

Lemma verify_auth_token_ok v t rt required now :
  verify_auth_token v t rt required now = Ok tt ↔
  (token_id t ∉ revoked_tokens v) ∧ now < expires_at_ms t ∧
  (∃ i, trusted_issuers v !! issuer_id t = Some i ∧ token_verify t (ti_public_key i) = true) ∧
  tier_byte (tier t) ≤ tier_byte rt ∧ Forall (λ c, c ∈ token_capabilities t) required.
Proof.
  unfold verify_auth_token, token_is_revoked, token_is_expired. case_bool_decide as Hr; [naive_solver|].
  destruct (Z.leb_spec (expires_at_ms t) now); [split; [done|intros (_ & ? & _); lia]|].
  destruct (trusted_issuers v !! issuer_id t) as [i|]; [|split; [done|by intros (_ & _ & (i & ? & _) & _)]].
  destruct (token_verify t (ti_public_key i)) eqn:Ev; cbn [negb];
    [|split; [done|intros (_ & _ & (j & [= <-] & ?) & _); congruence]].
  destruct (Z.ltb_spec (tier_byte rt) (tier_byte (tier t))); [split; [done|intros (_ & _ & _ & ? & _); lia]|].
  assert (Hc : check_capabilities t required = Ok tt ↔ Forall (λ c, c ∈ token_capabilities t) required).
  { induction required as [|c l IH]; cbn [check_capabilities]; [by split|]. unfold has_capability.
    rewrite Forall_cons. case_bool_decide; cbn [negb]; [rewrite IH; tauto|split; [done|tauto]]. }
  rewrite Hc. split; [|tauto]. intros Hf. split_and!; eauto.
Qed.

Lemma find_token id parents p :
  find (λ p, bool_decide (token_id p = id)) parents = Some p → p ∈ parents ∧ token_id p = id.
Proof.
  intros Hf%find_some. destruct Hf as [Hi Hb]. split; [by apply list_elem_of_In|by apply bool_decide_eq_true_1 in Hb].
Qed.

Lemma find_token_unique parents p :
  NoDup (token_id <$> parents) → p ∈ parents →
  find (λ q, bool_decide (token_id q = token_id p)) parents = Some p.
Proof.
  induction parents as [|q l IH]; [set_solver|]. rewrite fmap_cons, NoDup_cons. intros [Hn Hd] Hp. cbn [find].
  case_bool_decide as E.
  - apply elem_of_cons in Hp as [->|Hp]; [done|]. exfalso. apply Hn. rewrite E. by apply list_elem_of_fmap_2.
  - apply elem_of_cons in Hp as [->|Hp]; [done|by apply IH].
Qed.

Lemma chain_bounded_no_panic fuel v t parents now depth :
  0 ≤ depth ≤ 6 → 7 ≤ depth + Z.of_nat fuel →
  verify_delegation_chain_bounded fuel v t parents now depth ≠ Panic.
Proof.
  revert t depth. induction fuel as [|fuel IH]; intros t depth Hd Hf; [lia|]. cbn [verify_delegation_chain_bounded].
  destruct (Z.ltb_spec MAX_DELEGATION_DEPTH depth); [done|]. destruct (parent_token t).
  - destruct (find _ _) as [p|]; [|done]. apply bind_not_Panic; [apply IH; unfold MAX_DELEGATION_DEPTH in *; lia|].
    intros _ _. repeat case_match; done.
  - unfold verify_auth_token. repeat case_match; try done.
Qed.

Lemma chain_bounded_sound fuel v t parents now depth :
  verify_delegation_chain_bounded fuel v t parents now depth = Ok tt →
  ∃ root n, chain v now parents t root n ∧ (depth + Z.of_nat n ≤ 5)%Z.
Proof.
  revert t depth. induction fuel as [|fuel IH]; intros t depth; [done|]. cbn [verify_delegation_chain_bounded].
  destruct (Z.ltb_spec MAX_DELEGATION_DEPTH depth); [done|]. unfold MAX_DELEGATION_DEPTH in *.
  destruct (parent_token t) as [id|] eqn:Ep.
  - destruct (find _ _) as [p|] eqn:Ef; [|done]. apply find_token in Ef as [Hp <-].
    intros ([] & Hr & Hk)%bind_Ok_inv. destruct (IH _ _ Hr) as (root & n & Hc & Hn).
    destruct (existsb _ _) eqn:Ee; [done|]. apply capability_subset in Ee.
    destruct (Z.ltb_spec (expires_at_ms p) (expires_at_ms t)); [done|].
    destruct (trusted_issuers v !! issuer_id t) as [i|] eqn:Ei; [|done].
    destruct (token_verify t (ti_public_key i)) eqn:Ev; [|done].
    exists root, (S n). split; [by eapply chain_step|lia].
  - intros Hv. exists t, 0%nat. split; [by apply chain_root|lia].
Qed.

Lemma chain_bounded_complete fuel v t parents now depth root n :
  NoDup (token_id <$> parents) → chain v now parents t root n →
  0 ≤ depth → depth + Z.of_nat n ≤ 5 → (n < fuel)%nat →
  verify_delegation_chain_bounded fuel v t parents now depth = Ok tt.
Proof.
  intros Hd Hc. revert fuel depth. induction Hc as [t Hp Hv|t p root n i Hp Hin Hc IH Hcap Hex Hi Hv];
    intros [|fuel] depth H0 Hn Hf; try lia; cbn [verify_delegation_chain_bounded];
    (destruct (Z.ltb_spec MAX_DELEGATION_DEPTH depth); [unfold MAX_DELEGATION_DEPTH in *; lia|]); rewrite Hp; [done|].
  rewrite find_token_unique by done. rewrite IH, bind_Ok by lia. apply capability_subset in Hcap. rewrite Hcap.
  destruct (Z.ltb_spec (expires_at_ms p) (expires_at_ms t)); [lia|]. by rewrite Hi, Hv.
Qed.

Lemma chain_attenuates v now parents t root n :
  chain v now parents t root n →
  token_capabilities t ⊆ token_capabilities root ∧ (expires_at_ms t ≤ expires_at_ms root)%Z ∧
  parent_token root = None ∧ verify_auth_token v root Application [] now = Ok tt.
Proof.
  induction 1 as [t Hp Hv|t p root n i Hp Hin Hc IH Hcap Hex Hi Hv]; [done|].
  destruct IH as (? & ? & ? & ?). split_and!; [set_solver|lia|done|done].
Qed.

(** Revoking a token other than the root leaves the chain intact. *)
Lemma chain_revoke v now parents t root n id :
  chain v now parents t root n → id ≠ token_id root → chain (revoke_token v id) now parents t root n.
Proof.
  intros Hc Hid. induction Hc as [t Hp Hv|t p root n i Hp Hin Hc IH Hcap Hex Hi Hv].
  - apply chain_root; [done|]. rewrite verify_auth_token_ok in Hv |- *. cbn. destruct Hv as (? & ? & ? & ? & ?).
    split_and!; [set_solver|done..].
  - by eapply chain_step; [| |apply IH| | | |].
Qed.

Lemma sign_token_verifies i t :
  array_ok 32 (signing_key i) → token_verify (sign_token i t) (ed_public (signing_key i)) = true.
Proof.
  intros Hk. unfold token_verify. change (token_bytes (sign_token i t)) with (token_bytes t).
  rewrite ed_public_valid by done. by apply ed_strict_implies, ed_sign_verifies.
Qed.

Lemma delegate_token_ok i parent subject caps lifetime now pk i' t :
  delegate_token i parent subject caps lifetime now pk = (i', Ok t) →
  token_verify parent pk = true ∧ now < expires_at_ms parent ∧ Delegate ∈ token_capabilities parent ∧
  delegation_depth parent < MAX_DELEGATION_DEPTH ∧ caps ⊆ token_capabilities parent ∧
  i' = bump_counter i ∧
  t = sign_token i' (mkToken (make_token_id (token_counter i') now) (ti_issuer_id i) subject (tier parent) caps now
        (u64_add now (Z.min lifetime (expires_at_ms parent - now))) (Some (token_id parent))
        (make_nonce (token_counter i') now) (replicate 64 0) (delegation_depth parent + 1)).
Proof.
  unfold delegate_token. destruct (token_verify parent pk); cbn [negb]; [|done].
  unfold token_is_expired. destruct (Z.leb_spec (expires_at_ms parent) now) as [|Hx]; [done|].
  unfold can_delegate, has_capability at 1. case_bool_decide as Hd; cbn [negb]; [|done].
  destruct (Z.leb_spec MAX_DELEGATION_DEPTH (delegation_depth parent)); [done|].
  destruct (existsb _ _) eqn:Ee; [done|]. apply capability_subset in Ee.
  unfold can_issue_for. rewrite Z.leb_refl. cbn [negb]. unfold u64_saturating_sub. rewrite Z.max_r by lia.
  intros [= <- <-]. by split_and!.
Qed.

(** ** Properties *)


(** Delegation attenuates and its result verifies.  A delegated token carries at
    most its parent's capabilities and lifetime, its tier, the next depth, at
    most five, and a signature of the delegating issuer; and where that issuer is
    trusted it extends the parent's verified chain by one. *)
Theorem delegation_attenuates i parent subject caps lifetime now pk i' t v parents now' root n ti :
  delegate_token i parent subject caps lifetime now pk = (i', Ok t) →
  array_ok 32 (signing_key i) → 0 ≤ now → 0 ≤ lifetime → expires_at_ms parent < 2 ^ 64 →
  (token_capabilities t ⊆ token_capabilities parent) ∧ now ≤ expires_at_ms t ≤ expires_at_ms parent ∧
  tier t = tier parent ∧ delegation_depth t = delegation_depth parent + 1 ∧ delegation_depth t ≤ 5 ∧
  Delegate ∈ token_capabilities parent ∧ token_verify t (ed_public (signing_key i)) = true ∧
  (NoDup (token_id <$> parents) → parent ∈ parents → chain v now' parents parent root n →
   delegation_depth parent = Z.of_nat n → trusted_issuers v !! ti_issuer_id i = Some ti →
   ti_public_key ti = ed_public (signing_key i) →
   verify_delegation_chain v t parents now' = Ok tt).
Proof.
  intros Hdel Hk Hnow Hlife Hexp. destruct (delegate_token_ok _ _ _ _ _ _ _ _ _ Hdel) as (_ & Hx & Hd & Hdep & Hcaps & -> & Et).
  unfold MAX_DELEGATION_DEPTH in Hdep.
  assert (Hex : expires_at_ms t = now + Z.min lifetime (expires_at_ms parent - now)).
  { rewrite Et. cbn [sign_token expires_at_ms]. unfold u64_add. rewrite Z.mod_small; lia. }
  assert (Hcp : token_capabilities t = caps) by (by rewrite Et).
  assert (Hv : token_verify t (ed_public (signing_key i)) = true)
    by (rewrite Et; apply (sign_token_verifies (bump_counter i)); done).
  assert (Hdd : delegation_depth t = delegation_depth parent + 1) by (by rewrite Et).
  split_and!; [by rewrite Hcp|lia|lia|by rewrite Et|done|lia|done|done|].
  intros Hnd Hin Hc Hdn Hti Hpk. eapply chain_bounded_complete; [done| |done| |].
  - eapply (chain_step _ _ _ t parent root n ti); [by rewrite Et|done|done|by rewrite Hcp|lia|by rewrite Et|by rewrite Hpk].
  - lia.
  - unfold chain_fuel. lia.
Qed.
End Chains.

(** The wire form of tokens.  A serialised token, followed by anything, is read
    back exactly.  But the parser indexes the parent flag without a bounds check:
    on a buffer of the minimum size with the right marker and a valid tier it
    panics exactly when the capability count makes the buffer end there. *)
Theorem token_wire t rest data :
  token_ok t → bytes_ok data →
  deserialize_token (serialize_token t ++ rest) = Ok t ∧
  (deserialize_token data = Panic ↔
     184 ≤ len data ∧ take 4 data = as_bytes (str "ATKN") ∧
     (∃ tr, tier_from_byte (nth 84 data 0) = Some tr) ∧
     len data = 103 + 2 * from_le (take 2 (drop 85 data))).
Proof.
  intros Ht Hb. split; [by apply deserialize_serialize_token|]. unfold deserialize_token.
  destruct (Z.ltb_spec (len data) (4 + 16 + 32 + 32 + 1 + 2 + 8 + 8 + 1 + 16 + 64)); [split; [done|lia]|].
  assert (Hs : ∀ a b, 0 ≤ a ≤ b → b ≤ 87 →
             slice (E:=TokenError) data a b = Ok (take (Z.to_nat (b - a)) (drop (Z.to_nat a) data))).
  { intros a b ? ?. unfold slice. by rewrite decide_True by lia. }
  rewrite ?Hs, ?bind_Ok by lia. change (take _ (drop (Z.to_nat 0) data)) with (take 4 data).
  case_bool_decide as Hm; cbn [negb]; [|split; [done|tauto]]. rewrite ?Hs, ?bind_Ok by lia.
  assert (Hi : index (E:=TokenError) data 84 = Ok (nth 84 data 0)) by (unfold index; by rewrite decide_True by lia).
  rewrite Hi, bind_Ok. destruct (tier_from_byte _) as [tr|] eqn:Etr; [|split; [done|by intros (_ & _ & [? ?] & _)]].
  rewrite ?Hs, ?bind_Ok by lia. change (take _ (drop (Z.to_nat 85) data)) with (take 2 (drop 85 data)).
  set (c := from_le _). assert (Hc : 0 ≤ c).
  { subst c. apply from_be_bound. by apply Forall_rev, bytes_ok_take, bytes_ok_drop. }
  etransitivity; [refine (read_after_count_panic data (Z.to_nat c) (λ caps issued expires parent nc sg depth,
    mkToken _ _ _ tr caps (from_le issued) (from_le expires) parent nc sg depth))|]. rewrite Z2Nat.id by done.
  split; [intros E; split_and!; eauto; lia|tauto].
Qed.

Definition sample_issuer : TokenIssuer := TokenIssuer_new (replicate 32 5) (replicate 32 5) Kernel 100000.
Definition sample_root_token : AuthToken :=
  match (@issue_token ed_reference sample_issuer (replicate 32 6) Driver ({[Delegate]} ∪ {[MemoryRead]}) 5000 1000).2 with
  | Ok t => t
  | _ => mkToken [] [] [] Root ∅ 0 0 None [] [] 0
  end.
Definition sample_token_verifier : TokenVerifier :=
  add_issuer TokenVerifier_new (replicate 32 5) (mkTrusted (replicate 32 5) Kernel 0).

Lemma delegation_attenuates_witness :
  ∃ i t, @delegate_token ed_reference (bump_counter sample_issuer) sample_root_token (replicate 32 7) {[MemoryRead]}
           9000 2000 (replicate 32 5) = (i, Ok t) ∧
         @verify_delegation_chain ed_reference sample_token_verifier t [sample_root_token] 2500 = Ok tt.
Proof.
  assert (Hok : is_ok (@delegate_token ed_reference (bump_counter sample_issuer) sample_root_token (replicate 32 7)
                  {[MemoryRead]} 9000 2000 (replicate 32 5)).2 = true) by (vm_compute; reflexivity).
  destruct (delegate_token _ _ _ _ _ _ _) as [i [t|e|]] eqn:E; [|discriminate Hok..]. exists i, t. split; [reflexivity|].
  destruct (@delegation_attenuates ed_reference _ _ _ _ _ _ _ _ _ sample_token_verifier [sample_root_token] 2500
              sample_root_token 0 (mkTrusted (replicate 32 5) Kernel 0) E) as (_ & _ & _ & _ & _ & _ & _ & Hv).
  - apply (array_ok_replicate 32 5). lia.
  - lia.
  - lia.
  - vm_compute. reflexivity.
  - apply Hv; [apply NoDup_singleton|by apply list_elem_of_singleton| |vm_compute; reflexivity..].
    apply chain_root; vm_compute; reflexivity.
Defined.

(** A buffer of 185 bytes that the parser panics on. *)
Definition sample_short_token : list Z := [65; 84; 75; 78] ++ replicate 81 0 ++ [41; 0] ++ replicate 98 0.

Lemma token_wire_witness :
  deserialize_token (serialize_token sample_root_token) = Ok sample_root_token ∧
  deserialize_token sample_short_token = Panic.
Proof.
  assert (Ht : token_ok sample_root_token).
  { assert (Hn : parent_token sample_root_token = None) by (vm_compute; reflexivity).
    split; [..|intros p; congruence|idtac|idtac];
      first [apply (bool_decide_unpack (array_ok _ _)); vm_compute; exact I
            |vm_compute; split; [discriminate|reflexivity]]. }
  destruct (token_wire sample_root_token [] sample_short_token Ht) as [H1 H2].
  - repeat (apply Forall_app; split); repeat (constructor; [lia|]); try constructor; by apply Forall_replicate.
  - rewrite app_nil_r in H1. split; [exact H1|]. apply H2. split_and!; [vm_compute; discriminate|reflexivity|by eexists|reflexivity].
Defined.
