(* ===== verification/F32.v ===== *)
(** * Single-precision floating point

    Rust's [f32] is IEEE 754 binary32: the operations of [SpecFloat] at precision 24
    and maximal exponent 128, rounding to nearest even.  Casts between integers and
    [f32] follow Rust's [as]: integers are rounded, floats are truncated towards zero
    and saturate, NaN becomes zero. *)

From Stdlib Require Import Floats.SpecFloat.
From stdpp Require Import base numbers list.
From S2P Require Import Prelude.

Definition f32 := spec_float.
Definition f32_add : f32 → f32 → f32 := SFadd 24 128.
Definition f32_sub : f32 → f32 → f32 := SFsub 24 128.
Definition f32_mul : f32 → f32 → f32 := SFmul 24 128.
Definition f32_div : f32 → f32 → f32 := SFdiv 24 128.
Definition f32_ge (x y : f32) : bool := SFleb y x.
Definition f32_gt (x y : f32) : bool := SFltb y x.

(** [z as f32] *)
Definition f32_of (z : Z) : f32 := binary_normalize 24 128 z 0 false.

(** A decimal literal [n / d], correctly rounded. *)
Definition f32_lit (n d : Z) : f32 := f32_div (f32_of n) (f32_of d).

(** [f as u<w>] for the largest value [max]. *)
Definition f32_to_uint (max : Z) (f : f32) : Z :=
  match f with
  | S754_zero _ | S754_nan => 0
  | S754_infinity s => if s then 0 else max
  | S754_finite true _ _ => 0
  | S754_finite false m e =>
      Z.min max (match e with
                 | Zneg k => Z.shiftr (Zpos m) (Zpos k)
                 | _ => Z.shiftl (Zpos m) e
                 end)
  end.

Lemma f32_to_uint_bounds max f : 0 ≤ max → 0 ≤ f32_to_uint max f ≤ max.
Proof.
  intros Hm. destruct f as [s|s| |[] m e]; cbn [f32_to_uint]; try (destruct s; lia); try lia.
  assert (0 ≤ match e with Zneg k => Z.shiftr (Zpos m) (Zpos k) | _ => Z.shiftl (Zpos m) e end);
    [|lia]. destruct e; [apply Z.shiftl_nonneg|apply Z.shiftl_nonneg|apply Z.shiftr_nonneg]; lia.
Qed.

(** ** Exactness below 2^24 *)

Lemma digits2_pos_spec m : 2 ^ (Zpos (digits2_pos m) - 1) ≤ Zpos m < 2 ^ Zpos (digits2_pos m).
Proof.
  induction m as [m IH|m IH|]; cbn [digits2_pos]; [| |done];
    rewrite Pos2Z.inj_succ, Z.pow_succ_r by lia;
    replace (Z.succ (Z.pos (digits2_pos m)) - 1) with (Z.succ (Z.pos (digits2_pos m) - 1)) by lia;
    rewrite Z.pow_succ_r by lia; lia.
Qed.

Lemma digits2_unique m d : 0 < d → 2 ^ (d - 1) ≤ Zpos m < 2 ^ d → Zpos (digits2_pos m) = d.
Proof.
  intros Hd Hm. pose proof (digits2_pos_spec m) as Hs. set (k := Zpos (digits2_pos m)) in *.
  destruct (Z.lt_trichotomy k d) as [Hlt|[?|Hgt]]; [|done|].
  - assert (2 ^ k ≤ 2 ^ (d - 1)) by (apply Z.pow_le_mono_r; lia). lia.
  - assert (2 ^ d ≤ 2 ^ (k - 1)) by (apply Z.pow_le_mono_r; lia). lia.
Qed.

Lemma iter_pos_iter {A} (f : A → A) n x : SpecFloat.iter_pos f n x = Nat.iter (Pos.to_nat n) f x.
Proof.
  revert x. induction n as [n IH|n IH|]; intros x; cbn [SpecFloat.iter_pos]; [| |done]; rewrite !IH, <- Nat.iter_add.
  - rewrite Pos2Nat.inj_xI. replace (S (2 * Pos.to_nat n)) with (Pos.to_nat n + Pos.to_nat n + 1)%nat by lia.
    by rewrite (Nat.iter_add _ 1).
  - f_equal. rewrite Pos2Nat.inj_xO. lia.
Qed.

(** Shifting out zeroes is exact. *)
Lemma shr_exact m k :
  Nat.iter k shr_1 (Build_shr_record (Zpos m * 2 ^ Z.of_nat k) false false) = Build_shr_record (Zpos m) false false.
Proof.
  induction k as [|k IH]; [cbn [Nat.iter]; change (2 ^ Z.of_nat 0) with 1; by rewrite Z.mul_1_r|]. rewrite Nat.iter_succ_r.
  replace (Zpos m * 2 ^ Z.of_nat (S k)) with (2 * (Zpos m * 2 ^ Z.of_nat k)) by (rewrite Nat2Z.inj_succ, Z.pow_succ_r; lia).
  assert (Hp : 0 < Zpos m * 2 ^ Z.of_nat k) by (apply Z.mul_pos_pos; [done|apply Z.pow_pos_nonneg; lia]).
  destruct (Zpos m * 2 ^ Z.of_nat k) as [|p|p] eqn:E; [lia| |lia]. cbn [shr_1 Z.mul]. exact IH.
Qed.

Lemma shr_nat r e j : shr r e (Z.of_nat j) = (Nat.iter j shr_1 r, e + Z.of_nat j).
Proof.
  destruct j as [|j]; [cbn; by rewrite Z.add_0_r|]. unfold shr. change (Z.of_nat (S j)) with (Zpos (Pos.of_succ_nat j)).
  cbv beta iota. by rewrite iter_pos_iter, SuccNat2Pos.id_succ.
Qed.

(** Rounding a mantissa of 24 digits followed by [j] zeroes. *)
Lemma binary_round_aux_exact s m j e :
  Zpos (digits2_pos m) = 24 → -149 ≤ e + Z.of_nat j ≤ 104 →
  binary_round_aux 24 128 s (Zpos m * 2 ^ Z.of_nat j) e loc_Exact = S754_finite s m (e + Z.of_nat j).
Proof.
  intros Hd He. assert (Hp : 0 < Zpos m * 2 ^ Z.of_nat j) by (apply Z.mul_pos_pos; [done|apply Z.pow_pos_nonneg; lia]).
  assert (Hdig : Zdigits2 (Zpos m * 2 ^ Z.of_nat j) = 24 + Z.of_nat j).
  { destruct (Zpos m * 2 ^ Z.of_nat j) as [|p|p] eqn:E; [lia| |lia]. cbn [Zdigits2]. apply digits2_unique; [lia|].
    rewrite <- E. pose proof (digits2_pos_spec m) as Hm. rewrite Hd in Hm. cbn in Hm.
    assert (0 < 2 ^ Z.of_nat j) by (apply Z.pow_pos_nonneg; lia).
    replace (24 + Z.of_nat j - 1) with (23 + Z.of_nat j) by lia. rewrite !Z.pow_add_r by lia. nia. }
  assert (Hs : shr_fexp 24 128 (Zpos m * 2 ^ Z.of_nat j) e loc_Exact
               = (Build_shr_record (Zpos m) false false, e + Z.of_nat j)).
  { unfold shr_fexp, shr_record_of_loc, fexp, emin. rewrite Hdig.
    replace (Z.max (24 + Z.of_nat j + e - 24) (3 - 128 - 24) - e) with (Z.of_nat j) by lia.
    by rewrite shr_nat, shr_exact. }
  unfold binary_round_aux. rewrite Hs. cbn [shr_m loc_of_shr_record round_nearest_even].
  unfold shr_fexp, shr_record_of_loc, fexp, emin. cbn [Zdigits2]. rewrite Hd.
  replace (Z.max (24 + (e + Z.of_nat j) - 24) (3 - 128 - 24) - (e + Z.of_nat j)) with 0 by lia.
  cbn [shr shr_m]. change (Z.sub 128 24) with 104. destruct (Z.leb_spec (e + Z.of_nat j) 104); [done|lia].
Qed.

Lemma iter_xO p d : Zpos (Pos.iter xO p d) = Zpos p * 2 ^ Z.of_nat (Pos.to_nat d).
Proof.
  rewrite positive_nat_Z. induction d as [|d IH] using Pos.peano_ind; [cbn; lia|].
  rewrite Pos.iter_succ, Pos2Z.inj_xO, IH, Pos2Z.inj_succ, Z.pow_succ_r by lia. lia.
Qed.

(** The 24-digit form of a small integer. *)
Lemma f32_of_small z :
  0 < z < 2 ^ 24 →
  ∃ m k, f32_of z = S754_finite false m (- Z.of_nat k) ∧ Zpos m = z * 2 ^ Z.of_nat k ∧
         Zpos (digits2_pos m) = 24 ∧ (k < 24)%nat.
Proof.
  intros Hz. destruct z as [|p|p]; [lia| |lia]. pose proof (digits2_pos_spec p) as Hd.
  assert (Hle : Zpos (digits2_pos p) ≤ 24).
  { destruct (Z.le_gt_cases (Zpos (digits2_pos p)) 24) as [|Hgt]; [done|].
    assert (2 ^ 24 ≤ 2 ^ (Zpos (digits2_pos p) - 1)) by (apply Z.pow_le_mono_r; lia). lia. }
  set (k := Z.to_nat (24 - Zpos (digits2_pos p))).
  assert (Hp : 0 < 2 ^ Z.of_nat k) by (apply Z.pow_pos_nonneg; lia).
  assert (Hm : 0 < Zpos p * 2 ^ Z.of_nat k) by lia.
  destruct (Zpos p * 2 ^ Z.of_nat k) as [|m|m] eqn:Em; [lia| |lia].
  assert (Hdm : Zpos (digits2_pos m) = 24).
  { apply digits2_unique; [lia|]. rewrite <- Em. 
    replace (24 - 1) with (Zpos (digits2_pos p) - 1 + Z.of_nat k) by lia. replace 24 with (Zpos (digits2_pos p) + Z.of_nat k) by lia.
    rewrite !Z.pow_add_r by lia. nia. }
  exists m, k. split_and!; [|done|done|lia]. unfold f32_of, binary_normalize, binary_round, fexp, emin.
  replace (Z.max (Zpos (digits2_pos p) + 0 - 24) (3 - 128 - 24)) with (- Z.of_nat k) by lia.
  assert (Hsh : shl_align p 0 (- Z.of_nat k) = (m, - Z.of_nat k)).
  { unfold shl_align. rewrite Z.sub_0_r. destruct k as [|k'] eqn:Ek.
    - cbn. change (2 ^ Z.of_nat 0) with 1 in Em. f_equal. lia.
    - change (- Z.of_nat (S k')) with (Zneg (Pos.of_succ_nat k')). cbv beta iota. f_equal.
      apply Pos2Z.inj. by rewrite <- Em, iter_xO, SuccNat2Pos.id_succ. }
  rewrite Hsh. pose proof (binary_round_aux_exact false m 0 (- Z.of_nat k) Hdm) as Hr.
  change (2 ^ Z.of_nat 0) with 1 in Hr. rewrite Z.mul_1_r, Z.add_0_r in Hr. apply Hr. lia.
Qed.

Definition f32_half : f32 := f32_lit 1 2.

(** Halving a small integer is exact up to the truncation. *)
Lemma f32_half_small max z : 0 ≤ z < 2 ^ 24 → z ≤ max → f32_to_uint max (f32_mul (f32_of z) f32_half) = z / 2.
Proof.
  intros Hz Hmax. destruct (decide (z = 0)) as [->|Hn]; [done|].
  destruct (f32_of_small z) as (m & k & -> & Hm & Hd & Hk); [lia|].
  assert (Hmul : f32_mul (S754_finite false m (- Z.of_nat k)) f32_half = S754_finite false m (- Z.of_nat (S k))).
  { unfold f32_mul, SFmul. change f32_half with (S754_finite false 8388608 (-24)). cbn [xorb].
    pose proof (binary_round_aux_exact false m 23 (- Z.of_nat k + -24) Hd) as Hr.
    change (Zpos m * 2 ^ Z.of_nat 23) with (Zpos (m * 8388608)) in Hr. rewrite Hr by lia. f_equal. lia. }
  rewrite Hmul. change (- Z.of_nat (S k)) with (Zneg (Pos.of_succ_nat k)). cbn [f32_to_uint].
  change (Zpos (Pos.of_succ_nat k)) with (Z.of_nat (S k)). rewrite Z.shiftr_div_pow2, Hm by lia.
  rewrite Nat2Z.inj_succ, Z.pow_succ_r, Z.mul_comm, (Z.mul_comm 2) by lia. 
  assert (0 < 2 ^ Z.of_nat k) by (apply Z.pow_pos_nonneg; lia).
  rewrite Z.mul_comm, (Z.mul_comm (2 ^ Z.of_nat k) 2), Z.div_mul_cancel_r by lia.
  apply Z.min_r. assert (z / 2 ≤ z) by (apply Z.div_le_upper_bound; lia). lia.
Qed.

(** ** The order

    The comparisons are those of a lexicographic key; NaN compares with nothing. *)
Definition f32_key (f : f32) : Z * Z * Z :=
  match f with
  | S754_infinity true => (0, 0, 0)
  | S754_finite true m e => (1, - e, - Zpos m)
  | S754_zero _ | S754_nan => (2, 0, 0)
  | S754_finite false m e => (3, e, Zpos m)
  | S754_infinity false => (4, 0, 0)
  end.
Definition key_lt (x y : Z * Z * Z) : Prop :=
  x.1.1 < y.1.1 ∨ x.1.1 = y.1.1 ∧ (x.1.2 < y.1.2 ∨ x.1.2 = y.1.2 ∧ x.2 < y.2).
(** [f32::min]: a NaN is the other argument. *)
Definition f32_min (x y : f32) : f32 :=
  match x, y with
  | S754_nan, _ => y
  | _, S754_nan => x
  | _, _ => if SFltb y x then y else x
  end.

Lemma f32_lt_key x y : x ≠ S754_nan → y ≠ S754_nan → SFltb x y = true ↔ key_lt (f32_key x) (f32_key y).
Proof.
  intros Hx Hy. unfold SFltb, SFcompare, key_lt. destruct x as [s1|[]| |[] m1 e1], y as [s2|[]| |[] m2 e2]; cbn; try done;
    (split; [intros; try done; lia|intros; try done; lia]) || idtac.
  - change (Pos.compare_cont Eq m1 m2) with (m1 ?= m2)%positive. destruct (Z.compare_spec e1 e2); [|split; [done|lia]|split; [lia|done]].
    destruct (Pos.compare_spec m1 m2); cbn; (split; [done|lia]) || (split; [lia|done]).
  - change (Pos.compare_cont Eq m1 m2) with (m1 ?= m2)%positive. destruct (Z.compare_spec e1 e2); [|split; [lia|done]|split; [done|lia]].
    destruct (Pos.compare_spec m1 m2); cbn; (split; [done|lia]) || (split; [lia|done]).
Qed.
Lemma f32_not_lt_trans x y z : x ≠ S754_nan → y ≠ S754_nan → z ≠ S754_nan → SFltb y x = false → SFltb z y = false → SFltb z x = false.
Proof.
  intros Hx Hy Hz. rewrite <- !not_true_iff_false, !f32_lt_key by done. unfold key_lt. lia.
Qed.
