(* ===== verification/Identity.v ===== *)
(** * Identity routing (axiom-transport/src/identity_routing.rs)

    Routing by node identity: the direct neighbours and their physical addresses, the
    routes to others, the providers of each intent, and the decision taken for a frame.
    The order in which the hash maps are walked is a parameter; clock readings are
    milliseconds. *)

From Stdlib Require Import Floats.SpecFloat.
From stdpp Require Import base numbers list gmap.
From S2P Require Import Prelude Types F32.

(** ** Data *)

Inductive PhysicalAddress :=
  | PA_Ethernet (mac : list Z) | PA_UdpTunnel (addr : list Z) (port : Z) | PA_Udp6Tunnel (addr : list Z) (port scope_id : Z) | PA_Local (id : Z).
#[export] Instance PhysicalAddress_eq_dec : EqDecision PhysicalAddress.
Proof. solve_decision. Defined.
Definition is_broadcast (a : PhysicalAddress) : bool := match a with PA_Ethernet mac => bool_decide (mac = replicate 6 255) | _ => false end.

Record NeighborInfo := mkNeighbor {
  nb_node_id : NodeId; physical_addr : PhysicalAddress; link_quality : Z; nb_latency_us : Z; nb_last_seen : Z;
  nb_capabilities : list IntentHash; nb_trust_level : TrustLevel
}.
Record RouteInfo := mkRouteInfo {
  rt_destination : NodeId; next_hop : NodeId; hop_count : Z; path_trust : f32; rt_latency_us : Z; last_updated : Z; alternatives : list NodeId
}.
Record RouterConfig := mkRouterConfig { max_hops : Z; route_expiry_ms : Z; neighbor_expiry_ms : Z; max_neighbors : Z; max_routes : Z }.
Definition RouterConfig_default : RouterConfig := mkRouterConfig 16 60000 30000 256 4096.
Record RouteDiscovery := mkDiscovery { rd_target : NodeId; rd_started_at : Z; rd_attempts : Z; rd_responses : list RouteInfo }.
Record IdentityRouter := mkIdentityRouter {
  ir_local_id : NodeId; ir_neighbors : gmap NodeId NeighborInfo; ir_routes : gmap NodeId RouteInfo;
  intent_routes : gmap IntentHash (list NodeId); physical_map : gmap NodeId PhysicalAddress;
  pending_discoveries : gmap NodeId RouteDiscovery; ir_config : RouterConfig
}.
Definition IdentityRouter_new (id : NodeId) (c : RouterConfig) : IdentityRouter := mkIdentityRouter id ∅ ∅ ∅ ∅ ∅ c.

Inductive DropReason := DR_TtlExceeded | DR_LoopDetected | DR_Untrusted | DR_NoRoute.
Inductive RoutingDecision :=
  | RD_DeliverLocal | RD_Forward (hop : NodeId) (addr : PhysicalAddress) | RD_Broadcast | RD_DiscoverRoute (n : NodeId) | RD_NoRoute | RD_Drop (r : DropReason).
Inductive IdentityFrameType :=
  | IF_Data | IF_NeighborHello | IF_NeighborBye | IF_RouteQuery | IF_RouteReply | IF_IntentAnnounce | IF_IntentQuery | IF_Ping | IF_Pong.
Record IdentityFrame := mkIdentityFrame {
  if_version : Z; if_frame_type : IdentityFrameType; if_source : NodeId; if_destination : NodeId; if_intent : IntentHash; if_ttl : Z;
  if_frame_id : Z; if_payload : list Z
}.

Definition ir_set_tables (r : IdentityRouter) (ns : gmap NodeId NeighborInfo) (rs : gmap NodeId RouteInfo) (ph : gmap NodeId PhysicalAddress) : IdentityRouter :=
  mkIdentityRouter (ir_local_id r) ns rs (intent_routes r) ph (pending_discoveries r) (ir_config r).
Definition ir_set_intents (r : IdentityRouter) (i : gmap IntentHash (list NodeId)) : IdentityRouter :=
  mkIdentityRouter (ir_local_id r) (ir_neighbors r) (ir_routes r) i (physical_map r) (pending_discoveries r) (ir_config r).

(** ** Scores *)

Definition latency_score (us : Z) : f32 := f32_sub (f32_of 1) (f32_min (f32_div (f32_of us) (f32_of 1000000)) (f32_of 1)).
Definition score_neighbor (n : NeighborInfo) : f32 :=
  let trust_score := match nb_trust_level n with Full => f32_of 1 | Sig => f32_lit 8 10 | Compress => f32_lit 6 10 | Raw => f32_lit 4 10 end in
  let quality_score := f32_div (f32_of (link_quality n)) (f32_of 255) in
  f32_add (f32_add (f32_mul trust_score (f32_lit 4 10)) (f32_mul (latency_score (nb_latency_us n)) (f32_lit 3 10)))
    (f32_mul quality_score (f32_lit 3 10)).
Definition score_route (c : RouterConfig) (r : RouteInfo) : f32 :=
  let hop_score := f32_sub (f32_of 1) (f32_div (f32_of (hop_count r)) (f32_of (max_hops c))) in
  f32_add (f32_add (f32_mul (path_trust r) (f32_lit 4 10)) (f32_mul hop_score (f32_lit 3 10)))
    (f32_mul (latency_score (rt_latency_us r)) (f32_lit 3 10)).

(** [max_by] keeps the last of several maxima, [min_by] the first of several minima; NaN is
    equal to everything. *)
Definition later_max {A} (acc : option (A * f32)) (x : A * f32) : option (A * f32) :=
  match acc with
  | None => Some x
  | Some y => if SFltb x.2 y.2 then Some y else Some x
  end.
Definition max_by_score {A} (l : list (A * f32)) : option (A * f32) := foldl later_max None l.
Definition first_min {A} (acc : option (A * f32)) (x : A * f32) : option (A * f32) :=
  match acc with
  | None => Some x
  | Some y => if SFltb x.2 y.2 then Some x else Some y
  end.
Definition min_by_score {A} (l : list (A * f32)) : option (A * f32) := foldl first_min None l.
Definition oldest (l : list (NodeId * NeighborInfo)) : option (NodeId * NeighborInfo) :=
  foldl (λ acc x, match acc with
                  | None => Some x
                  | Some y => if nb_last_seen x.2 <? nb_last_seen y.2 then Some x else Some y
                  end) None l.

(** ** Operations *)

Definition remove_neighbor (r : IdentityRouter) (n : NodeId) : IdentityRouter :=
  ir_set_tables r (delete n (ir_neighbors r)) (filter (λ kr, next_hop kr.2 ≠ n) (ir_routes r)) (delete n (physical_map r)).
Definition update_neighbor (r : IdentityRouter) (n : NodeId) (latency quality : Z) : IdentityRouter :=
  match ir_neighbors r !! n with
  | None => r
  | Some i =>
      ir_set_tables r (<[n := mkNeighbor (nb_node_id i) (physical_addr i) quality latency (nb_last_seen i) (nb_capabilities i) (nb_trust_level i)]> (ir_neighbors r))
        (ir_routes r) (physical_map r)
  end.
Definition is_neighbor (r : IdentityRouter) (n : NodeId) : bool := bool_decide (is_Some (ir_neighbors r !! n)).

Definition route (r : IdentityRouter) (f : IdentityFrame) : RoutingDecision :=
  if if_ttl f =? 0 then RD_Drop DR_TtlExceeded
  else if decide (if_destination f = ir_local_id r) then RD_DeliverLocal
  else if decide (if_destination f = NodeId_zero) then RD_Broadcast
  else
    match ir_neighbors r !! if_destination f with
    | Some n => RD_Forward (if_destination f) (physical_addr n)
    | None =>
        match ir_routes r !! if_destination f with
        | Some t => match physical_map r !! next_hop t with Some a => RD_Forward (next_hop t) a | None => RD_DiscoverRoute (if_destination f) end
        | None => RD_DiscoverRoute (if_destination f)
        end
    end.

Definition score_of (r : IdentityRouter) (n : NodeId) : option f32 :=
  match ir_neighbors r !! n with
  | Some i => Some (score_neighbor i)
  | None => score_route (ir_config r) <$> ir_routes r !! n
  end.
Definition decision_for (r : IdentityRouter) (n : NodeId) : RoutingDecision :=
  match ir_neighbors r !! n with
  | Some i => RD_Forward n (physical_addr i)
  | None =>
      match ir_routes r !! n with
      | Some t => match physical_map r !! next_hop t with Some a => RD_Forward (next_hop t) a | None => RD_NoRoute end
      | None => RD_NoRoute
      end
  end.
Definition route_by_intent (r : IdentityRouter) (i : IntentHash) : option RoutingDecision :=
  match intent_routes r !! i with
  | None => None
  | Some ns => (λ best, decision_for r best.1) <$> max_by_score (omap (λ n, (λ s, (n, s)) <$> score_of r n) ns)
  end.

Definition register_intent (r : IdentityRouter) (i : IntentHash) (provider : NodeId) : IdentityRouter :=
  ir_set_intents r (<[i := default [] (intent_routes r !! i) ++ [provider]]> (intent_routes r)).
Definition unregister_intent (r : IdentityRouter) (i : IntentHash) (provider : NodeId) : IdentityRouter :=
  match intent_routes r !! i with
  | None => r
  | Some ps =>
      match filter (λ p, p ≠ provider) ps with
      | [] => ir_set_intents r (delete i (intent_routes r))
      | ps' => ir_set_intents r (<[i := ps']> (intent_routes r))
      end
  end.
Definition get_intent_providers (r : IdentityRouter) (i : IntentHash) : option (list NodeId) := intent_routes r !! i.

Section Walks.
Context (walk_n : gmap NodeId NeighborInfo → list (NodeId * NeighborInfo)) (walk_r : gmap NodeId RouteInfo → list (NodeId * RouteInfo)).

Definition evict_oldest_neighbor (r : IdentityRouter) : IdentityRouter :=
  match oldest (walk_n (ir_neighbors r)) with Some x => remove_neighbor r x.1 | None => r end.
Definition add_neighbor (r : IdentityRouter) (i : NeighborInfo) : IdentityRouter :=
  let r := if max_neighbors (ir_config r) <=? Z.of_nat (size (ir_neighbors r)) then evict_oldest_neighbor r else r in
  ir_set_tables r (<[nb_node_id i := i]> (ir_neighbors r)) (ir_routes r) (<[nb_node_id i := physical_addr i]> (physical_map r)).
Definition evict_worst_route (r : IdentityRouter) : IdentityRouter :=
  match min_by_score ((λ kt, (kt.1, score_route (ir_config r) kt.2)) <$> walk_r (ir_routes r)) with
  | Some x => ir_set_tables r (ir_neighbors r) (delete x.1 (ir_routes r)) (physical_map r)
  | None => r
  end.
Definition add_route (r : IdentityRouter) (t : RouteInfo) : IdentityRouter :=
  let r := if max_routes (ir_config r) <=? Z.of_nat (size (ir_routes r)) then evict_worst_route r else r in
  ir_set_tables r (ir_neighbors r) (<[rt_destination t := t]> (ir_routes r)) (physical_map r).
Definition ir_cleanup (now_ms : Z) (r : IdentityRouter) : IdentityRouter :=
  let neighbor_expiry := u64_saturating_sub now_ms (neighbor_expiry_ms (ir_config r)) in
  let stale := (filter (λ kn, nb_last_seen kn.2 < neighbor_expiry) (walk_n (ir_neighbors r))).*1 in
  let r := foldl remove_neighbor r stale in
  let route_expiry := u64_saturating_sub now_ms (route_expiry_ms (ir_config r)) in
  ir_set_tables r (ir_neighbors r) (filter (λ kt, route_expiry ≤ last_updated kt.2) (ir_routes r)) (physical_map r).
End Walks.

Record RouterStats := mkRouterStats { neighbor_count : nat; route_count : nat; intent_count : nat }.
Definition ir_stats (r : IdentityRouter) : RouterStats := mkRouterStats (size (ir_neighbors r)) (size (ir_routes r)) (size (intent_routes r)).

(** ** The hello of a neighbour *)

Record NeighborHello := mkNeighborHello { nh_node_id : NodeId; nh_capabilities : list IntentHash; nh_version : Z }.
Definition hello_fields (h : NeighborHello) : list (list Z) :=
  [nh_version h] :: nh_node_id h :: [len (nh_capabilities h) mod 256] :: nh_capabilities h.
Definition NeighborHello_encode (h : NeighborHello) : list Z := concat (hello_fields h).
Definition NeighborHello_decode (data : list Z) : option NeighborHello :=
  if len data <? 34 then None
  else
    let cap_count := at_byte data 33 in
    if len data <? 34 + cap_count * 16 then None
    else Some (mkNeighborHello (at_slice data 1 33)
      ((λ i, at_slice data (34 + i * 16) (34 + i * 16 + 16)) <$> seq 0 (Z.to_nat cap_count)) (at_byte data 0)).

(** ** The tables stay consistent *)

Record ir_ok (r : IdentityRouter) : Prop := {
  iro_physical : physical_map r = physical_addr <$> ir_neighbors r;
  iro_neighbor n i : ir_neighbors r !! n = Some i → nb_node_id i = n;
  iro_route n t : ir_routes r !! n = Some t → rt_destination t = n;
  iro_neighbors : Z.of_nat (size (ir_neighbors r)) ≤ Z.max 1 (max_neighbors (ir_config r));
  iro_routes : Z.of_nat (size (ir_routes r)) ≤ Z.max 1 (max_routes (ir_config r))
}.
Inductive ir_step (walk_n : gmap NodeId NeighborInfo → list (NodeId * NeighborInfo)) (walk_r : gmap NodeId RouteInfo → list (NodeId * RouteInfo)) :
    IdentityRouter → IdentityRouter → Prop :=
  | IrS_add r i : ir_step walk_n walk_r r (add_neighbor walk_n r i)
  | IrS_remove r n : ir_step walk_n walk_r r (remove_neighbor r n)
  | IrS_update r n l q : ir_step walk_n walk_r r (update_neighbor r n l q)
  | IrS_route r t : ir_step walk_n walk_r r (add_route walk_r r t)
  | IrS_intent r i p : ir_step walk_n walk_r r (register_intent r i p)
  | IrS_unintent r i p : ir_step walk_n walk_r r (unregister_intent r i p)
  | IrS_cleanup now r : ir_step walk_n walk_r r (ir_cleanup walk_n now r).

(** Folding [max_by] over scores that are numbers ends at the last of the greatest. *)
Lemma max_by_score_acc {A} (l : list (A * f32)) (y : A * f32) : y.2 ≠ S754_nan → Forall (λ x : A * f32, x.2 ≠ S754_nan) l →
  ∃ best, best ∈ y :: l ∧ foldl later_max (Some y) l = Some best ∧ Forall (λ x : A * f32, SFltb best.2 x.2 = false) (y :: l).
Proof.
  intros Hy Hl. revert y Hy. induction Hl as [|x l Hx Hl IH]; intros y Hy; cbn [foldl later_max].
  - exists y. split_and!; [left|done|]. constructor; [|done]. apply not_true_iff_false. rewrite f32_lt_key by done. unfold key_lt. lia.
  - destruct (SFltb x.2 y.2) eqn:E.
    + destruct (IH y Hy) as (best & Hin & -> & Hb). exists best. split_and!; [|done|].
      { apply elem_of_cons in Hin as [->|]; [left|by right; right]. }
      apply Forall_cons in Hb as [Hby Hb]. constructor; [done|]. constructor; [|done].
      assert (Hbest : best.2 ≠ S754_nan). { apply elem_of_cons in Hin as [->|Hin]; [done|]. by apply (proj1 (Forall_forall _ _) Hl). }
      apply (f32_not_lt_trans x.2 y.2 best.2 Hx Hy Hbest); [|done].
      apply not_true_iff_false. apply f32_lt_key in E; [|done..]. rewrite f32_lt_key by done. unfold key_lt in *. lia.
    + destruct (IH x Hx) as (best & Hin & -> & Hb). exists best. split_and!; [by right|done|].
      apply Forall_cons in Hb as [Hbx Hb]. constructor; [|by constructor].
      assert (Hbest : best.2 ≠ S754_nan). { apply elem_of_cons in Hin as [->|Hin]; [done|]. by apply (proj1 (Forall_forall _ _) Hl). }
      by apply (f32_not_lt_trans y.2 x.2 best.2).
Qed.
Lemma max_by_score_spec {A} (l : list (A * f32)) : Forall (λ x : A * f32, x.2 ≠ S754_nan) l →
  match max_by_score l with
  | None => l = []
  | Some best => best ∈ l ∧ Forall (λ x : A * f32, SFltb best.2 x.2 = false) l
  end.
Proof.
  intros Hl. destruct Hl as [|y l Hy Hl]; [done|]. destruct (max_by_score_acc l y Hy Hl) as (best & Hin & E & Hb).
  unfold max_by_score. cbn [foldl later_max]. rewrite E. by split.
Qed.
(** Whatever the scores, there is a result of the list unless it is empty. *)
Lemma max_by_score_some {A} (l : list (A * f32)) : match max_by_score l with None => l = [] | Some x => x ∈ l end.
Proof.
  destruct l as [|y l]; [done|]. unfold max_by_score. cbn [foldl later_max]. revert y. induction l as [|x l IH]; intros y; cbn [foldl later_max first_min]; [left|].
  destruct (SFltb x.2 y.2).
  - specialize (IH y). destruct (foldl _ _ _); [|done]. apply elem_of_cons in IH as [->|]; [left|by right; right].
  - specialize (IH x). destruct (foldl _ _ _); [|done]. by right.
Qed.
Lemma min_by_score_some {A} (l : list (A * f32)) : match min_by_score l with None => l = [] | Some x => x ∈ l end.
Proof.
  destruct l as [|y l]; [done|]. unfold min_by_score. cbn [foldl first_min]. revert y. induction l as [|x l IH]; intros y; cbn [foldl later_max first_min]; [left|].
  destruct (SFltb x.2 y.2).
  - specialize (IH x). destruct (foldl _ _ _); [|done]. by right.
  - specialize (IH y). destruct (foldl _ _ _); [|done]. apply elem_of_cons in IH as [->|]; [left|by right; right].
Qed.
Lemma oldest_some (l : list (NodeId * NeighborInfo)) : match oldest l with None => l = [] | Some x => x ∈ l ∧ Forall (λ y, nb_last_seen x.2 ≤ nb_last_seen y.2) l end.
Proof.
  destruct l as [|y l]; [done|]. unfold oldest. cbn [foldl]. revert y. induction l as [|x l IH]; intros y; cbn [foldl].
  - split; [left|]. constructor; [lia|done].
  - destruct (Z.ltb_spec (nb_last_seen x.2) (nb_last_seen y.2)).
    + specialize (IH x). destruct (foldl _ _ _); [|done]. destruct IH as [Hin Hall]. split; [by right|]. constructor; [|done].
      apply Forall_cons in Hall as [? _]. lia.
    + specialize (IH y). destruct (foldl _ _ _); [|done]. destruct IH as [Hin Hall]. apply Forall_cons in Hall as [? ?].
      split; [apply elem_of_cons in Hin as [->|]; [left|by right; right]|]. constructor; [lia|]. constructor; [lia|done].
Qed.

Lemma size_insert_le {V} (m : gmap NodeId V) n v : (size (<[n := v]> m) ≤ S (size m))%nat.
Proof. destruct (m !! n) eqn:E; [rewrite map_size_insert_Some by (by eexists); lia|by rewrite map_size_insert_None]. Qed.

Lemma remove_neighbor_ok r n : ir_ok r → ir_ok (remove_neighbor r n).
Proof.
  intros [Hp Hn Hr Hs Ht]. split; cbn.
  - by rewrite Hp, fmap_delete.
  - intros m i [_ Hm]%lookup_delete_Some. by apply Hn.
  - intros m t [Hm _]%map_lookup_filter_Some. by apply Hr.
  - pose proof (size_delete_le (ir_neighbors r) n). lia.
  - etrans; [|exact Ht]. apply inj_le, map_subseteq_size, map_filter_subseteq.
Qed.
Lemma remove_list_ok ns : ∀ r, ir_ok r → ir_ok (foldl remove_neighbor r ns).
Proof. induction ns as [|n ns IH]; intros r H; cbn [foldl]; [done|]. by apply IH, remove_neighbor_ok. Qed.
(** What removing a list of neighbours leaves. *)
Lemma remove_list_lookup ns : ∀ r,
  (∀ n, ir_neighbors (foldl remove_neighbor r ns) !! n = if decide (n ∈ ns) then None else ir_neighbors r !! n) ∧
  (∀ n t, ir_routes (foldl remove_neighbor r ns) !! n = Some t ↔ ir_routes r !! n = Some t ∧ next_hop t ∉ ns) ∧
  ir_config (foldl remove_neighbor r ns) = ir_config r.
Proof.
  induction ns as [|x ns IH]; intros r; cbn [foldl].
  - split_and!; [done| |done]. intros n t. split; [|by intros [? _]]. intros H. split; [done|apply not_elem_of_nil].
  - destruct (IH (remove_neighbor r x)) as (H1 & H2 & H3). split_and!; [| |done].
    + intros n. rewrite H1. cbn. destruct (decide (n = x)) as [->|Hne].
      * rewrite lookup_delete_eq, (decide_True (P := x ∈ x :: ns)) by left. by case_decide.
      * rewrite lookup_delete_ne by done. destruct (decide (n ∈ ns)); [by rewrite decide_True by (by right)|].
        rewrite decide_False; [done|]. by intros [?|?]%elem_of_cons.
    + intros n t. rewrite H2. cbn. rewrite map_lookup_filter_Some. cbn. rewrite not_elem_of_cons. tauto.
Qed.

Section Reachable.
Context (walk_n : gmap NodeId NeighborInfo → list (NodeId * NeighborInfo)) (walk_r : gmap NodeId RouteInfo → list (NodeId * RouteInfo)).
Context (Hwn : ∀ m, walk_n m ≡ₚ map_to_list m) (Hwr : ∀ m, walk_r m ≡ₚ map_to_list m).

Lemma evict_neighbor_spec r : ir_ok r →
  ir_ok (evict_oldest_neighbor walk_n r) ∧ ir_config (evict_oldest_neighbor walk_n r) = ir_config r ∧
  (size (ir_neighbors (evict_oldest_neighbor walk_n r)) = size (ir_neighbors r) - 1)%nat.
Proof using Hwn.
  intros H. unfold evict_oldest_neighbor. pose proof (oldest_some (walk_n (ir_neighbors r))) as Ho. destruct (oldest _) as [[n i]|].
  - destruct Ho as [Hin _]. rewrite Hwn in Hin. apply elem_of_map_to_list in Hin. split; [by apply remove_neighbor_ok|]. split; [done|].
    cbn. rewrite map_size_delete_Some by (by eexists). lia.
  - assert (E : ir_neighbors r = ∅).
    { apply map_to_list_empty_iff, Permutation_nil_r. by rewrite <- Ho, Hwn. }
    split_and!; [done|done|]. by rewrite E.
Qed.
Lemma evict_route_spec r : ir_ok r →
  ir_ok (evict_worst_route walk_r r) ∧ ir_config (evict_worst_route walk_r r) = ir_config r ∧
  (size (ir_routes (evict_worst_route walk_r r)) = size (ir_routes r) - 1)%nat.
Proof using Hwr.
  intros H. unfold evict_worst_route. pose proof (min_by_score_some ((λ kt, (kt.1, score_route (ir_config r) kt.2)) <$> walk_r (ir_routes r))) as Ho.
  destruct (min_by_score _) as [[n s]|].
  - apply list_elem_of_fmap in Ho as ([m t] & [= -> _] & Hin). rewrite Hwr in Hin. apply elem_of_map_to_list in Hin. destruct H as [Hp Hn Hr Hs Ht].
    split_and!; [|done|cbn; rewrite map_size_delete_Some by (by eexists); lia]. split; cbn; [done|done| |done|].
    + intros k u [_ Hk]%lookup_delete_Some. by apply Hr.
    + pose proof (size_delete_le (ir_routes r) m). lia.
  - assert (E : ir_routes r = ∅).
    { apply map_to_list_empty_iff, Permutation_nil_r. apply fmap_nil_inv in Ho. by rewrite <- Ho, Hwr. }
    split_and!; [done|done|]. by rewrite E.
Qed.
Lemma ir_intents_ok r i : ir_ok r → ir_ok (ir_set_intents r i).
Proof. by intros [Hp Hn Hr Hs Ht]. Qed.
Lemma ir_step_ok r r' : ir_step walk_n walk_r r r' → ir_ok r → ir_ok r'.
Proof using Hwn Hwr.
  destruct 1 as [r i|r n|r n l q|r t|r i p|r i p|now r]; intros H.
  - unfold add_neighbor. assert (Hr' : ∃ r1, ir_ok r1 ∧ ir_config r1 = ir_config r ∧ Z.of_nat (size (ir_neighbors r1)) < Z.max 1 (max_neighbors (ir_config r)) ∧
      r1 = (if max_neighbors (ir_config r) <=? Z.of_nat (size (ir_neighbors r)) then evict_oldest_neighbor walk_n r else r)).
    { destruct (Z.leb_spec (max_neighbors (ir_config r)) (Z.of_nat (size (ir_neighbors r)))); [|exists r; split_and!; (done || lia)].
      destruct (evict_neighbor_spec r H) as (H1 & H2 & H3). eexists. split_and!; [exact H1|done| |done]. pose proof (iro_neighbors _ H). lia. }
    destruct Hr' as (r1 & [Hp Hn Hr Hs Ht] & Ec & Hlt & <-). split; cbn.
    + by rewrite Hp, fmap_insert.
    + intros m j [[<- <-]|[_ Hm]]%lookup_insert_Some; [done|by apply Hn].
    + done.
    + pose proof (size_insert_le (ir_neighbors r1) (nb_node_id i) i). rewrite Ec. lia.
    + done.
  - by apply remove_neighbor_ok.
  - unfold update_neighbor. destruct (ir_neighbors r !! n) as [i|] eqn:E; [|done]. destruct H as [Hp Hn Hr Hs Ht]. split; cbn; [| |done| |done].
    + rewrite Hp, fmap_insert. cbn. symmetry. apply insert_id. by rewrite lookup_fmap, E.
    + intros m j [[<- <-]|[_ Hm]]%lookup_insert_Some; [cbn; by apply (Hn n i)|by apply Hn].
    + by rewrite map_size_insert_Some by (by eexists).
  - unfold add_route. assert (Hr' : ∃ r1, ir_ok r1 ∧ ir_config r1 = ir_config r ∧ Z.of_nat (size (ir_routes r1)) < Z.max 1 (max_routes (ir_config r)) ∧
      r1 = (if max_routes (ir_config r) <=? Z.of_nat (size (ir_routes r)) then evict_worst_route walk_r r else r)).
    { destruct (Z.leb_spec (max_routes (ir_config r)) (Z.of_nat (size (ir_routes r)))); [|exists r; split_and!; (done || lia)].
      destruct (evict_route_spec r H) as (H1 & H2 & H3). eexists. split_and!; [exact H1|done| |done]. pose proof (iro_routes _ H). lia. }
    destruct Hr' as (r1 & [Hp Hn Hr Hs Ht] & Ec & Hlt & <-). split; cbn; [done|done| |done|].
    + intros m u [[<- <-]|[_ Hm]]%lookup_insert_Some; [done|by apply Hr].
    + pose proof (size_insert_le (ir_routes r1) (rt_destination t) t). rewrite Ec. lia.
  - by apply ir_intents_ok.
  - unfold unregister_intent. destruct (intent_routes r !! i); [|done]. case_match; by apply ir_intents_ok.
  - unfold ir_cleanup. pose proof (remove_list_ok ((filter (λ kn, nb_last_seen kn.2 < u64_saturating_sub now (neighbor_expiry_ms (ir_config r))) (walk_n (ir_neighbors r))).*1) r H) as [Hp Hn Hr Hs Ht].
    split; cbn; [done|done| |done|].
    + intros m t [Hm _]%map_lookup_filter_Some. by apply Hr.
    + etrans; [|exact Ht]. apply inj_le, map_subseteq_size, map_filter_subseteq.
Qed.
Lemma ir_reachable_ok id c r : rtc (ir_step walk_n walk_r) (IdentityRouter_new id c) r → ir_ok r.
Proof using Hwn Hwr.
  intros H. apply (rtc_preserves (ir_step walk_n walk_r) ir_ok ir_step_ok _ _ H). split; cbn; try by intros ? ?; rewrite lookup_empty.
  - by rewrite fmap_empty.
  - rewrite map_size_empty. lia.
  - rewrite map_size_empty. lia.
Qed.
End Reachable.

(** ** Decisions *)

Lemma route_spec r f : ir_ok r →
  match route r f with
  | RD_Drop e => e = DR_TtlExceeded ∧ if_ttl f = 0
  | RD_DeliverLocal => if_ttl f ≠ 0 ∧ if_destination f = ir_local_id r
  | RD_Broadcast => if_ttl f ≠ 0 ∧ if_destination f ≠ ir_local_id r ∧ if_destination f = NodeId_zero
  | RD_Forward hop a => if_ttl f ≠ 0 ∧ if_destination f ≠ ir_local_id r ∧ if_destination f ≠ NodeId_zero ∧
      physical_addr <$> ir_neighbors r !! hop = Some a ∧
      (hop = if_destination f ∨ ir_neighbors r !! if_destination f = None ∧ next_hop <$> ir_routes r !! if_destination f = Some hop)
  | RD_DiscoverRoute n => n = if_destination f ∧ ir_neighbors r !! n = None ∧ ∀ t, ir_routes r !! n = Some t → ir_neighbors r !! next_hop t = None
  | RD_NoRoute => False
  end.
Proof.
  intros H. unfold route. destruct (Z.eqb_spec (if_ttl f) 0); [done|]. do 2 (case_decide; [done|]).
  destruct (ir_neighbors r !! if_destination f) as [i|] eqn:En; [split_and!; try done; [by rewrite En|by left]|].
  destruct (ir_routes r !! if_destination f) as [t|] eqn:Er; [|split_and!; [done|done|by rewrite Er]]. rewrite (iro_physical _ H), lookup_fmap.
  destruct (ir_neighbors r !! next_hop t) as [j|] eqn:Ej; cbn.
  - split_and!; try done; [by rewrite Ej|]. by right.
  - split_and!; try done. rewrite Er. by intros u [= <-].
Qed.
Lemma candidates_elem r (ns : list NodeId) n s : (n, s) ∈ omap (λ n, (λ s, (n, s)) <$> score_of r n) ns ↔ n ∈ ns ∧ score_of r n = Some s.
Proof.
  rewrite list_elem_of_omap. split.
  - intros (m & Hm & E). destruct (score_of r m) eqn:Es; [|done]. by injection E as <- <-.
  - intros [Hn Es]. exists n. by rewrite Es.
Qed.
Lemma score_of_none r n : score_of r n = None ↔ ir_neighbors r !! n = None ∧ ir_routes r !! n = None.
Proof. unfold score_of. destruct (ir_neighbors r !! n), (ir_routes r !! n); cbn; naive_solver. Qed.
Lemma route_by_intent_spec r i : ir_ok r →
  match route_by_intent r i with
  | None => ∀ ps n, intent_routes r !! i = Some ps → n ∈ ps → ir_neighbors r !! n = None ∧ ir_routes r !! n = None
  | Some d => ∃ ps n s, intent_routes r !! i = Some ps ∧ n ∈ ps ∧ score_of r n = Some s ∧
      ((∀ m x, m ∈ ps → score_of r m = Some x → x ≠ S754_nan) → ∀ m x, m ∈ ps → score_of r m = Some x → SFltb s x = false) ∧
      match d with
      | RD_Forward hop a => physical_addr <$> ir_neighbors r !! hop = Some a ∧
          (hop = n ∨ ir_neighbors r !! n = None ∧ next_hop <$> ir_routes r !! n = Some hop)
      | RD_NoRoute => ir_neighbors r !! n = None ∧ ∃ t, ir_routes r !! n = Some t ∧ ir_neighbors r !! next_hop t = None
      | _ => False
      end
  end.
Proof.
  intros H. unfold route_by_intent. destruct (intent_routes r !! i) as [ps|] eqn:Ei; [|done].
  pose proof (max_by_score_some (omap (λ n, (λ s, (n, s)) <$> score_of r n) ps)) as Hsome.
  pose proof (max_by_score_spec (omap (λ n, (λ s, (n, s)) <$> score_of r n) ps)) as Hspec.
  destruct (max_by_score _) as [[n s]|]; cbn.
  - apply candidates_elem in Hsome as [Hn Es]. exists ps, n, s. split_and!; [done|done|done| |].
    + intros Hnum m x Hm Ex. destruct Hspec as [_ Hall].
      { apply Forall_forall. intros [m' x'] [Hm' Ex']%candidates_elem. by apply (Hnum m'). }
      by apply (proj1 (Forall_forall _ _) Hall (m, x)), candidates_elem.
    + unfold decision_for, score_of in *. destruct (ir_neighbors r !! n) as [j|] eqn:En; [split; [by rewrite En|by left]|].
      destruct (ir_routes r !! n) as [t|] eqn:Er; [|done]. rewrite (iro_physical _ H), lookup_fmap.
      destruct (ir_neighbors r !! next_hop t) as [k|] eqn:Ek; cbn; [split; [by rewrite Ek|by right]|]. split; [done|by exists t].
  - intros ps' n [= <-] Hn. apply score_of_none. destruct (score_of r n) as [s|] eqn:Es; [|done]. exfalso.
    assert (Hin : (n, s) ∈ omap (λ n, (λ s, (n, s)) <$> score_of r n) ps) by (by apply candidates_elem). rewrite Hsome in Hin. by apply not_elem_of_nil in Hin.
Qed.

Section Maintenance.
Context (walk_n : gmap NodeId NeighborInfo → list (NodeId * NeighborInfo)) (Hwn : ∀ m, walk_n m ≡ₚ map_to_list m).

Lemma stale_elem r e n : n ∈ (filter (λ kn, nb_last_seen kn.2 < e) (walk_n (ir_neighbors r))).*1 ↔
  ∃ i, ir_neighbors r !! n = Some i ∧ nb_last_seen i < e.
Proof using Hwn.
  rewrite list_elem_of_fmap. split.
  - intros ([m i] & -> & [Hlt Hin]%list_elem_of_filter). rewrite Hwn in Hin. apply elem_of_map_to_list in Hin. by exists i.
  - intros (i & Hi & Hlt). exists (n, i). split; [done|]. apply list_elem_of_filter. split; [done|]. by rewrite Hwn, elem_of_map_to_list.
Qed.
(** A clean-up drops the neighbours not heard for too long, the routes through them, and the old routes. *)
Lemma cleanup_spec now r : let e := u64_saturating_sub now (neighbor_expiry_ms (ir_config r)) in
  (∀ n i, ir_neighbors (ir_cleanup walk_n now r) !! n = Some i ↔ ir_neighbors r !! n = Some i ∧ e ≤ nb_last_seen i) ∧
  ∀ n t, ir_routes (ir_cleanup walk_n now r) !! n = Some t ↔ ir_routes r !! n = Some t ∧
    u64_saturating_sub now (route_expiry_ms (ir_config r)) ≤ last_updated t ∧
    ∀ i, ir_neighbors r !! next_hop t = Some i → e ≤ nb_last_seen i.
Proof using Hwn.
  cbn zeta. unfold ir_cleanup. set (e := u64_saturating_sub now (neighbor_expiry_ms (ir_config r))).
  destruct (remove_list_lookup (filter (λ kn, nb_last_seen kn.2 < e) (walk_n (ir_neighbors r))).*1 r) as (H1 & H2 & H3). split; cbn.
  - intros n i. rewrite H1. case_decide as Hd.
    + apply stale_elem in Hd as (j & Hj & Hlt). rewrite Hj. split; [done|]. intros [[= <-] ?]. lia.
    + split; [|by intros [? _]]. intros Hi. split; [done|]. destruct (Z.le_gt_cases e (nb_last_seen i)); [done|]. destruct Hd. apply stale_elem. exists i. by split; [|lia].
  - intros n t. rewrite map_lookup_filter_Some, H2, H3. cbn. rewrite stale_elem. split.
    + intros [[Hr Hn] Hu]. split_and!; [done|done|]. intros i Hi. destruct (Z.le_gt_cases e (nb_last_seen i)); [done|]. destruct Hn. exists i. by split; [|lia].
    + intros (Hr & Hu & Hall). split_and!; [done| |done]. intros (i & Hi & Hlt). specialize (Hall i Hi). lia.
Qed.
(** Only the neighbour heard least recently makes room for another. *)
Lemma add_neighbor_evicts r i n j : ir_neighbors r !! n = Some j → ir_neighbors (add_neighbor walk_n r i) !! n = None →
  max_neighbors (ir_config r) ≤ Z.of_nat (size (ir_neighbors r)) ∧ ∀ m k, ir_neighbors r !! m = Some k → nb_last_seen j ≤ nb_last_seen k.
Proof using Hwn.
  intros Hj. unfold add_neighbor. destruct (Z.leb_spec (max_neighbors (ir_config r)) (Z.of_nat (size (ir_neighbors r)))).
  2: { cbn. intros [E _]%lookup_insert_None. congruence. }
  unfold evict_oldest_neighbor. pose proof (oldest_some (walk_n (ir_neighbors r))) as Ho. destruct (oldest _) as [[x k]|]; cbn.
  - intros [E _]%lookup_insert_None. destruct Ho as [Hin Hall]. rewrite Hwn in Hin. apply elem_of_map_to_list in Hin. cbn in E.
    apply lookup_delete_None in E as [->|]; [|congruence]. assert (j = k) as -> by congruence. split; [done|].
    intros m q Hq. apply (proj1 (Forall_forall _ _) Hall (m, q)). by rewrite Hwn, elem_of_map_to_list.
  - intros [E _]%lookup_insert_None. congruence.
Qed.
End Maintenance.

(** C39: in every router reached by hearing of and losing neighbours, learning routes, registering and
    withdrawing intents and cleaning up, the tables stay within their limits and a decision is
    right: a frame is forwarded only to a present neighbour at its present address, which is the
    destination or the next hop of the route to it, and a route is to be discovered exactly when there
    is none or its next hop is gone; an intent goes to a provider whose score no other reachable
    provider exceeds, and there is no decision exactly when none is known; a new neighbour
    displaces only one heard least recently; and a clean-up removes exactly the neighbours not heard in time, the routes
    through them, and the routes not refreshed in time. *)
Theorem identity_routing walk_n walk_r id c r :
  (∀ m, walk_n m ≡ₚ map_to_list m) → (∀ m, walk_r m ≡ₚ map_to_list m) → rtc (ir_step walk_n walk_r) (IdentityRouter_new id c) r →
  (Z.of_nat (size (ir_neighbors r)) ≤ Z.max 1 (max_neighbors (ir_config r)) ∧ Z.of_nat (size (ir_routes r)) ≤ Z.max 1 (max_routes (ir_config r))) ∧
  (∀ f, match route r f with
   | RD_Drop e => e = DR_TtlExceeded ∧ if_ttl f = 0
   | RD_DeliverLocal => if_ttl f ≠ 0 ∧ if_destination f = ir_local_id r
   | RD_Broadcast => if_ttl f ≠ 0 ∧ if_destination f ≠ ir_local_id r ∧ if_destination f = NodeId_zero
   | RD_Forward hop a => if_ttl f ≠ 0 ∧ if_destination f ≠ ir_local_id r ∧ if_destination f ≠ NodeId_zero ∧
       physical_addr <$> ir_neighbors r !! hop = Some a ∧
       (hop = if_destination f ∨ ir_neighbors r !! if_destination f = None ∧ next_hop <$> ir_routes r !! if_destination f = Some hop)
   | RD_DiscoverRoute n => n = if_destination f ∧ ir_neighbors r !! n = None ∧ ∀ t, ir_routes r !! n = Some t → ir_neighbors r !! next_hop t = None
   | RD_NoRoute => False
   end) ∧
  (∀ i, match route_by_intent r i with
   | None => ∀ ps n, intent_routes r !! i = Some ps → n ∈ ps → ir_neighbors r !! n = None ∧ ir_routes r !! n = None
   | Some d => ∃ ps n s, intent_routes r !! i = Some ps ∧ n ∈ ps ∧ score_of r n = Some s ∧
       ((∀ m x, m ∈ ps → score_of r m = Some x → x ≠ S754_nan) → ∀ m x, m ∈ ps → score_of r m = Some x → SFltb s x = false) ∧
       match d with
       | RD_Forward hop a => physical_addr <$> ir_neighbors r !! hop = Some a ∧
           (hop = n ∨ ir_neighbors r !! n = None ∧ next_hop <$> ir_routes r !! n = Some hop)
       | RD_NoRoute => ir_neighbors r !! n = None ∧ ∃ t, ir_routes r !! n = Some t ∧ ir_neighbors r !! next_hop t = None
       | _ => False
       end
   end) ∧
  (∀ i n j, ir_neighbors r !! n = Some j → ir_neighbors (add_neighbor walk_n r i) !! n = None →
     max_neighbors (ir_config r) ≤ Z.of_nat (size (ir_neighbors r)) ∧ ∀ m k, ir_neighbors r !! m = Some k → nb_last_seen j ≤ nb_last_seen k) ∧
  ∀ now, let e := u64_saturating_sub now (neighbor_expiry_ms (ir_config r)) in
    (∀ n i, ir_neighbors (ir_cleanup walk_n now r) !! n = Some i ↔ ir_neighbors r !! n = Some i ∧ e ≤ nb_last_seen i) ∧
    ∀ n t, ir_routes (ir_cleanup walk_n now r) !! n = Some t ↔ ir_routes r !! n = Some t ∧
      u64_saturating_sub now (route_expiry_ms (ir_config r)) ≤ last_updated t ∧
      ∀ i, ir_neighbors r !! next_hop t = Some i → e ≤ nb_last_seen i.
Proof.
  intros Hwn Hwr H. pose proof (ir_reachable_ok walk_n walk_r Hwn Hwr id c r H) as Hok. split_and!.
  - apply (iro_neighbors _ Hok).
  - apply (iro_routes _ Hok).
  - intros f. by apply route_spec.
  - intros i. by apply route_by_intent_spec.
  - intros i n j. by apply add_neighbor_evicts.
  - intros now. by apply cleanup_spec.
Qed.

(** A hello comes back, with at most the capabilities its one-byte count can say. *)
Lemma hello_roundtrip h : 0 ≤ nh_version h < 256 → length (nh_node_id h) = 32%nat → Forall (λ c : IntentHash, length c = 16%nat) (nh_capabilities h) →
  NeighborHello_decode (NeighborHello_encode h) =
    Some (mkNeighborHello (nh_node_id h) (take (length (nh_capabilities h) mod 256) (nh_capabilities h)) (nh_version h)).
Proof.
  intros Hv Hid Hc. set (n := (length (nh_capabilities h) mod 256)%nat).
  assert (En : len (nh_capabilities h) mod 256 = Z.of_nat n) by (unfold len, n; rewrite Nat2Z.inj_mod; done).
  assert (Hcat : ∀ cs : list IntentHash, Forall (λ c : IntentHash, length c = 16%nat) cs → length (concat cs) = (16 * length cs)%nat).
  { induction 1 as [|c cs E _ IH]; [done|]. cbn. rewrite length_app, E, IH. lia. }
  assert (Hl : length (NeighborHello_encode h) = (34 + 16 * length (nh_capabilities h))%nat).
  { unfold NeighborHello_encode, hello_fields. cbn [concat app length]. rewrite length_app, Hid. cbn [length]. rewrite Hcat by done. lia. }
  assert (Hn : (n <= length (nh_capabilities h))%nat) by (unfold n; apply Nat.Div0.mod_le).
  unfold NeighborHello_decode. rewrite (proj2 (Z.ltb_ge _ _)) by (unfold len; lia).
  assert (E33 : at_byte (NeighborHello_encode h) 33 = Z.of_nat n).
  { unfold NeighborHello_encode, hello_fields. cbn [concat app]. rewrite En. change (_ :: nh_node_id h ++ ?r) with ((nh_version h :: nh_node_id h) ++ r).
    apply at_byte_app. cbn. by rewrite Hid. }
  rewrite E33, (proj2 (Z.ltb_ge _ _)) by (unfold len; lia). rewrite Nat2Z.id. do 2 f_equal.
  - apply (at_slice_field (hello_fields h) 1); [done|done|by rewrite Hid].
  - apply list_eq. intros i. rewrite list_lookup_fmap. destruct (decide (i < n)%nat) as [Hi|Hi].
    + rewrite lookup_seq_lt by done. cbn [fmap option_fmap option_map]. rewrite lookup_take_lt by done. rewrite Nat.add_0_l.
      destruct (lookup_lt_is_Some_2 (nh_capabilities h) i ltac:(lia)) as [c Ec]. rewrite Ec. f_equal.
      assert (Elc : length c = 16%nat) by (by apply (Forall_lookup_1 _ _ _ _ Hc Ec)).
      apply (at_slice_field (hello_fields h) (3 + i)); [done| |by rewrite Elc].
      cbn [hello_fields Nat.add take concat app length]. rewrite length_app, Hid. cbn [length]. rewrite Hcat by (by apply Forall_take).
      rewrite length_take. lia.
    + rewrite lookup_seq_ge by lia. symmetry. apply lookup_take_ge. lia.
Qed.

Section IdentityExamples.
Let walk_n (m : gmap NodeId NeighborInfo) : list (NodeId * NeighborInfo) := map_to_list m.
Let walk_r (m : gmap NodeId RouteInfo) : list (NodeId * RouteInfo) := map_to_list m.
Let id (b : Z) : NodeId := replicate 32 b.
Let neighbor (b seen : Z) : NeighborInfo := mkNeighbor (id b) (PA_UdpTunnel [10; 0; 0; b] 7777) 200 1000 seen [] Sig.
Let via (dest hop : Z) : RouteInfo := mkRouteInfo (id dest) (id hop) 2 (f32_of 1) 2000 50000 [].
Let start : IdentityRouter := IdentityRouter_new (id 9) (mkRouterConfig 16 60000 30000 2 8).
Let met : IdentityRouter := add_neighbor walk_n (add_neighbor walk_n start (neighbor 1 40000)) (neighbor 2 50000).
Let known : IdentityRouter := register_intent (add_route walk_r met (via 3 2)) (replicate 16 5) (id 3).

Lemma known_reachable : rtc (ir_step walk_n walk_r) start known.
Proof.
  eapply rtc_l; [exact (IrS_add walk_n walk_r start (neighbor 1 40000))|].
  eapply rtc_l; [exact (IrS_add walk_n walk_r (add_neighbor walk_n start (neighbor 1 40000)) (neighbor 2 50000))|].
  eapply rtc_l; [exact (IrS_route walk_n walk_r met (via 3 2))|].
  exact (rtc_once _ _ (IrS_intent walk_n walk_r (add_route walk_r met (via 3 2)) (replicate 16 5) (id 3))).
Qed.
Lemma identity_routing_witness :
  route known (mkIdentityFrame 1 IF_Data (id 9) (id 3) (replicate 16 0) 16 1 []) = RD_Forward (id 2) (PA_UdpTunnel [10; 0; 0; 2] 7777) ∧
  physical_addr <$> ir_neighbors known !! id 2 = Some (PA_UdpTunnel [10; 0; 0; 2] 7777) ∧
  ir_neighbors (ir_cleanup walk_n 75000 known) !! id 1 = None.
Proof.
  destruct (identity_routing walk_n walk_r (id 9) (mkRouterConfig 16 60000 30000 2 8) known (λ m, reflexivity _) (λ m, reflexivity _) known_reachable)
    as (_ & Hroute & _ & _ & Hclean).
  assert (E : route known (mkIdentityFrame 1 IF_Data (id 9) (id 3) (replicate 16 0) 16 1 []) = RD_Forward (id 2) (PA_UdpTunnel [10; 0; 0; 2] 7777)) by (by vm_compute).
  specialize (Hroute (mkIdentityFrame 1 IF_Data (id 9) (id 3) (replicate 16 0) 16 1 [])). rewrite E in Hroute.
  destruct Hroute as (_ & _ & _ & Ha & _). split; [exact E|]. split; [exact Ha|].
  apply eq_None_not_Some. intros [i Hi]. apply (proj1 (Hclean 75000)) in Hi as [Hi Hs].
  assert (Ei : ir_neighbors known !! id 1 = Some (neighbor 1 40000)) by (by vm_compute). rewrite Ei in Hi. injection Hi as <-. vm_compute in Hs. by apply Hs.
Defined.

(** A neighbour heard again while the table is full pushes out another one. *)
Example heard_again_evicts : size (ir_neighbors met) = 2%nat ∧ size (ir_neighbors (add_neighbor walk_n met (neighbor 2 60000))) = 1%nat.
Proof. by vm_compute. Qed.
(** An intent whose best provider is behind a neighbour that is gone has no route, although another provider is a
    neighbour. *)
Example best_provider_unreachable :
  let lost := register_intent (add_route walk_r met (via 3 7)) (replicate 16 5) (id 3) in
  let r := register_intent lost (replicate 16 5) (id 1) in
  route_by_intent r (replicate 16 5) = Some RD_NoRoute ∧ is_neighbor r (id 1) = true.
Proof. by vm_compute. Qed.
(** A hello with 256 capabilities is read as one with none. *)
Example too_many_capabilities :
  nh_capabilities <$> NeighborHello_decode (NeighborHello_encode (mkNeighborHello (id 1) (replicate 256 (replicate 16 3)) 1)) = Some [].
Proof. by vm_compute. Qed.
End IdentityExamples.
