(* ===== verification/Congestion.v ===== *)
(** * Congestion control (axiom-transport/src/congestion.rs)

    The round-trip estimator, the window controller of one peer and the manager of
    the controllers.  Floating-point factors are [f32] (file [F32]); instants are
    arguments; 32-bit sums wrap. *)

From stdpp Require Import base numbers list gmap.
From S2P Require Import Prelude Types Codec Text Intent Fragment Reliability F32.

Definition u32_max : Z := 2 ^ 32 - 1.
Definition u64_max : Z := 2 ^ 64 - 1.
Definition u32_add (a b : Z) : Z := (a + b) mod 2 ^ 32.

Record CongestionConfig := mkCongestion {
  initial_cwnd : Z;
  min_cwnd : Z;
  max_cwnd : Z;
  cfg_ssthresh : Z;
  aimd_increase : Z;
  aimd_decrease : f32;
  rtt_alpha : f32;
  rtt_beta : f32;
  fast_retransmit_thresh : Z
}.
Definition CongestionConfig_default : CongestionConfig :=
  mkCongestion (10 * 1400) (2 * 1400) 1000000 (64 * 1400) 1400 (f32_lit 1 2) (f32_lit 125 1000) (f32_lit 1 4) 3.

Inductive CongestionState := SlowStart | CongestionAvoidance | FastRecovery.
#[export] Instance CongestionState_eq_dec : EqDecision CongestionState.
Proof. solve_decision. Defined.

(** ** Round-trip times *)

Record RttEstimator := mkRtt { srtt : Z; rttvar : Z; rto : Z; min_rtt : Z; samples : Z }.
Definition RttEstimator_default : RttEstimator := mkRtt 100000 50000 1000000 u64_max 0.

(** [((1.0 - w) * old as f32 + w * sample as f32) as u64] *)
Definition ewma (w : f32) (old sample : Z) : Z :=
  f32_to_uint u64_max (f32_add (f32_mul (f32_sub (f32_of 1) w) (f32_of old)) (f32_mul w (f32_of sample))).

Definition rtt_update (r : RttEstimator) (rtt_us : Z) (alpha beta : f32) : RttEstimator :=
  let samples := u32_add (samples r) 1 in
  let '(s, v) :=
    if samples =? 1 then (rtt_us, rtt_us / 2)
    else
      let diff := if srtt r <? rtt_us then rtt_us - srtt r else srtt r - rtt_us in
      (ewma alpha (srtt r) rtt_us, ewma beta (rttvar r) diff) in
  mkRtt s v (Z.min (Z.max (u64_add s (u64_mul 4 v)) 200000) 60000000) (Z.min (min_rtt r) rtt_us) samples.

(** ** The controller of a peer *)

Record CongestionStats := mkCStats {
  cs_bytes_sent : Z;
  cs_bytes_acked : Z;
  timeout_losses : Z;
  fast_retransmit_losses : Z;
  slow_start_entries : Z;
  fast_recovery_entries : Z
}.
Definition CongestionStats_default : CongestionStats := mkCStats 0 0 0 0 0 0.

Record CongestionController := mkController {
  cc_config : CongestionConfig;
  cwnd : Z;
  ssthresh : Z;
  cc_state : CongestionState;
  bytes_in_flight : Z;
  rtt : RttEstimator;
  dup_ack_count : Z;
  last_ack_seq : Z;
  last_send : Z;
  cc_stats : CongestionStats
}.
Definition CongestionController_new (now : Z) (c : CongestionConfig) : CongestionController :=
  mkController c (initial_cwnd c) (cfg_ssthresh c) SlowStart 0 RttEstimator_default 0 0 now CongestionStats_default.

Definition cc_can_send (c : CongestionController) (bytes : Z) : bool :=
  u32_add (bytes_in_flight c) bytes <=? cwnd c.
Definition available_window (c : CongestionController) : Z := Z.max 0 (cwnd c - bytes_in_flight c).

Definition on_send (now : Z) (c : CongestionController) (bytes : Z) : CongestionController :=
  let st := cc_stats c in
  mkController (cc_config c) (cwnd c) (ssthresh c) (cc_state c) (u32_add (bytes_in_flight c) bytes) (rtt c)
    (dup_ack_count c) (last_ack_seq c) now
    (mkCStats (u64_add (cs_bytes_sent st) bytes) (cs_bytes_acked st) (timeout_losses st)
       (fast_retransmit_losses st) (slow_start_entries st) (fast_recovery_entries st)).

(** [((cwnd as f32 * aimd_decrease) as u32).max(min_cwnd)] *)
Definition decreased (c : CongestionController) : Z :=
  Z.max (f32_to_uint u32_max (f32_mul (f32_of (cwnd c)) (aimd_decrease (cc_config c)))) (min_cwnd (cc_config c)).

Definition enter_fast_recovery (c : CongestionController) : CongestionController :=
  let st := cc_stats c in
  let t := decreased c in
  mkController (cc_config c) (u32_add t (3 * 1400)) t FastRecovery (bytes_in_flight c) (rtt c)
    (dup_ack_count c) (last_ack_seq c) (last_send c)
    (mkCStats (cs_bytes_sent st) (cs_bytes_acked st) (timeout_losses st)
       (u64_add (fast_retransmit_losses st) 1) (slow_start_entries st) (u64_add (fast_recovery_entries st) 1)).

Definition set_window (c : CongestionController) (w : Z) (s : CongestionState) : CongestionController :=
  mkController (cc_config c) w (ssthresh c) s (bytes_in_flight c) (rtt c) (dup_ack_count c)
    (last_ack_seq c) (last_send c) (cc_stats c).
Definition set_ack (c : CongestionController) (dups seq : Z) : CongestionController :=
  mkController (cc_config c) (cwnd c) (ssthresh c) (cc_state c) (bytes_in_flight c) (rtt c) dups seq
    (last_send c) (cc_stats c).

(** The bookkeeping every acknowledgement does. *)
Definition count_ack (c : CongestionController) (acked : Z) (rtt_us : option Z) : CongestionController :=
  let st := cc_stats c in
  mkController (cc_config c) (cwnd c) (ssthresh c) (cc_state c) (Z.max 0 (bytes_in_flight c - acked))
    (match rtt_us with Some r => rtt_update (rtt c) r (rtt_alpha (cc_config c)) (rtt_beta (cc_config c)) | None => rtt c end)
    (dup_ack_count c) (last_ack_seq c) (last_send c)
    (mkCStats (cs_bytes_sent st) (u64_add (cs_bytes_acked st) acked) (timeout_losses st)
       (fast_retransmit_losses st) (slow_start_entries st) (fast_recovery_entries st)).

(** A new acknowledgement, by state. *)
Definition grow (c : CongestionController) (acked : Z) : CongestionController * outcome unit unit :=
  match cc_state c with
  | SlowStart =>
      let w := Z.min (u32_add (cwnd c) acked) (max_cwnd (cc_config c)) in
      (set_window c w (if ssthresh c <=? w then CongestionAvoidance else SlowStart), Ok tt)
  | CongestionAvoidance =>
      if cwnd c =? 0 then (c, Panic)
      else
        let increase := (aimd_increase (cc_config c) * acked / cwnd c) mod 2 ^ 32 in
        (set_window c (Z.min (u32_add (cwnd c) (Z.max increase 1)) (max_cwnd (cc_config c))) CongestionAvoidance, Ok tt)
  | FastRecovery => (set_window c (ssthresh c) CongestionAvoidance, Ok tt)
  end.

Definition on_ack (c : CongestionController) (acked ack_seq : Z) (rtt_us : option Z) :
    CongestionController * outcome unit unit :=
  let c := count_ack c acked rtt_us in
  if ack_seq =? last_ack_seq c then
    let c := set_ack c (u32_add (dup_ack_count c) 1) (last_ack_seq c) in
    (if (fast_retransmit_thresh (cc_config c) <=? dup_ack_count c) && negb (bool_decide (cc_state c = FastRecovery))
     then enter_fast_recovery c else c, Ok tt)
  else grow (set_ack c 0 ack_seq) acked.

Definition on_timeout (c : CongestionController) : CongestionController :=
  let st := cc_stats c in
  let r := rtt c in
  mkController (cc_config c) (min_cwnd (cc_config c)) (decreased c) SlowStart (bytes_in_flight c)
    (mkRtt (srtt r) (rttvar r) (Z.min (u64_mul (rto r) 2) 60000000) (min_rtt r) (samples r))
    0 (last_ack_seq c) (last_send c)
    (mkCStats (cs_bytes_sent st) (cs_bytes_acked st) (u64_add (timeout_losses st) 1)
       (fast_retransmit_losses st) (u64_add (slow_start_entries st) 1) (fast_recovery_entries st)).

(** ** The manager *)

Record CongestionManager := mkCManager {
  cm_config : CongestionConfig;
  controllers : gmap SocketAddr CongestionController
}.
Definition CongestionManager_new (c : CongestionConfig) : CongestionManager := mkCManager c ∅.
Definition controller_of (now : Z) (m : CongestionManager) (p : SocketAddr) : CongestionController :=
  default (CongestionController_new now (cm_config m)) (controllers m !! p).
Definition set_controller (m : CongestionManager) (p : SocketAddr) (c : CongestionController) : CongestionManager :=
  mkCManager (cm_config m) (<[p := c]> (controllers m)).
Definition manager_can_send (now : Z) (m : CongestionManager) (p : SocketAddr) (bytes : Z) :
    CongestionManager * bool :=
  let c := controller_of now m p in (set_controller m p c, cc_can_send c bytes).
Definition manager_on_send (now : Z) (m : CongestionManager) (p : SocketAddr) (bytes : Z) : CongestionManager :=
  set_controller m p (on_send now (controller_of now m p) bytes).
Definition manager_on_ack (m : CongestionManager) (p : SocketAddr) (acked seq : Z) (rtt_us : option Z) :
    CongestionManager * outcome unit unit :=
  match controllers m !! p with
  | Some c => let '(c, r) := on_ack c acked seq rtt_us in (set_controller m p c, r)
  | None => (m, Ok tt)
  end.
Definition manager_on_timeout (m : CongestionManager) (p : SocketAddr) : CongestionManager :=
  match controllers m !! p with
  | Some c => set_controller m p (on_timeout c)
  | None => m
  end.
Definition remove_controller (m : CongestionManager) (p : SocketAddr) : CongestionManager :=
  mkCManager (cm_config m) (delete p (controllers m)).
Definition controller_count (m : CongestionManager) : Z := Z.of_nat (size (controllers m)).
Definition total_bytes_in_flight (m : CongestionManager) : Z :=
  map_fold (λ _ c acc, u64_add (bytes_in_flight c) acc) 0 (controllers m).

(** ** Invariant *)

(** A configuration that halves its window on loss and whose bounds are in order. *)
Record config_ok (c : CongestionConfig) : Prop := {
  ck_min : 1 ≤ min_cwnd c;
  ck_initial : min_cwnd c ≤ initial_cwnd c ≤ max_cwnd c;
  ck_thresh : min_cwnd c ≤ cfg_ssthresh c ≤ max_cwnd c;
  ck_room : min_cwnd c + 4200 ≤ max_cwnd c;
  ck_half : max_cwnd c / 2 + 4200 ≤ max_cwnd c;
  ck_max : max_cwnd c < 2 ^ 24;
  ck_increase : 0 ≤ aimd_increase c ≤ min_cwnd c;
  ck_decrease : aimd_decrease c = f32_half
}.

Record controller_ok (k : CongestionConfig) (c : CongestionController) : Prop := {
  cok_config : cc_config c = k;
  cok_cwnd : min_cwnd k ≤ cwnd c ≤ max_cwnd k;
  cok_ssthresh : min_cwnd k ≤ ssthresh c ≤ max_cwnd k;
  cok_rto : 200000 ≤ rto (rtt c) ≤ 60000000;
  cok_flight : 0 ≤ bytes_in_flight c < 2 ^ 32
}.

Lemma controller_ok_new now k : config_ok k → controller_ok k (CongestionController_new now k).
Proof. intros []. split; cbn; (done || lia). Qed.

Lemma decreased_half k c :
  config_ok k → controller_ok k c → decreased c = Z.max (cwnd c / 2) (min_cwnd k).
Proof.
  intros [? ? ? ? ? ? ? Hd] [Hc ? ? ? ?]. unfold decreased. rewrite Hc, Hd, f32_half_small; [done|lia|].
  unfold u32_max. lia.
Qed.

Lemma decreased_bounds k c :
  config_ok k → controller_ok k c → min_cwnd k ≤ decreased c ∧ decreased c + 4200 ≤ max_cwnd k.
Proof.
  intros Hk Hc. rewrite (decreased_half k c Hk Hc). destruct Hk, Hc as [_ [_ Hw] _ _ _].
  assert (cwnd c / 2 ≤ max_cwnd k / 2) by (apply Z.div_le_mono; lia). lia.
Qed.

Lemma rtt_update_rto r x a b : 200000 ≤ rto (rtt_update r x a b) ≤ 60000000.
Proof. unfold rtt_update. case_match; cbn [rto]. lia. Qed.

Lemma count_ack_ok k c acked r : controller_ok k c → 0 ≤ acked → controller_ok k (count_ack c acked r).
Proof.
  intros [? ? ? ? ?] Ha. split; cbn; try done; [|lia]. destruct r; [apply rtt_update_rto|done].
Qed.

Lemma set_ack_ok k c d s : controller_ok k c → controller_ok k (set_ack c d s).
Proof. by intros []. Qed.

Lemma set_window_ok k c w s : controller_ok k c → min_cwnd k ≤ w ≤ max_cwnd k → controller_ok k (set_window c w s).
Proof. intros [] ?. by split. Qed.

Lemma grow_ok k c acked :
  config_ok k → controller_ok k c → 0 ≤ acked < 2 ^ 31 →
  (grow c acked).2 = Ok tt ∧ controller_ok k (grow c acked).1.
Proof.
  intros Hk Hc Ha. pose proof Hc as [Hcfg Hw Hs _ _]. destruct Hk. unfold grow. rewrite Hcfg. destruct (cc_state c).
  - split; [done|]. apply set_window_ok; [done|]. unfold u32_add. rewrite Z.mod_small by lia. lia.
  - destruct (Z.eqb_spec (cwnd c) 0); [lia|]. split; [done|]. apply set_window_ok; [done|].
    assert (Hi : 0 ≤ aimd_increase k * acked / cwnd c ≤ acked).
    { split; [apply Z.div_pos; nia|]. apply Z.div_le_upper_bound; [lia|]. nia. }
    rewrite (Z.mod_small (_ / _)) by lia. unfold u32_add. rewrite Z.mod_small by lia. lia.
  - split; [done|]. by apply set_window_ok.
Qed.

Lemma enter_fast_recovery_ok k c : config_ok k → controller_ok k c → controller_ok k (enter_fast_recovery c).
Proof.
  intros Hk Hc. pose proof (decreased_bounds k c Hk Hc) as [Hlo Hhi]. destruct Hk, Hc as [? ? ? ? ?].
  split; cbn; try done; [|lia]. unfold u32_add. rewrite Z.mod_small by lia. lia.
Qed.

Lemma on_ack_ok k c acked seq r :
  config_ok k → controller_ok k c → 0 ≤ acked < 2 ^ 31 →
  (on_ack c acked seq r).2 = Ok tt ∧ controller_ok k (on_ack c acked seq r).1.
Proof.
  intros Hk Hc Ha. unfold on_ack. assert (Hn : controller_ok k (count_ack c acked r)) by (apply count_ack_ok; [done|lia]).
  destruct (seq =? _); [|apply grow_ok; [done|by apply set_ack_ok|done]]. split; [done|]. cbn [fst].
  case_match; [apply enter_fast_recovery_ok; [done|]|]; by apply set_ack_ok.
Qed.

Lemma on_timeout_ok k c : config_ok k → controller_ok k c → controller_ok k (on_timeout c).
Proof.
  intros Hk Hc. pose proof (decreased_bounds k c Hk Hc) as [Hlo Hhi]. destruct Hk, Hc as [Hcfg ? ? ? ?].
  split; cbn; try done; [rewrite Hcfg; lia|lia|]. unfold u64_mul. rewrite Z.mod_small by lia. lia.
Qed.

Lemma on_send_ok now k c b : controller_ok k c → controller_ok k (on_send now c b).
Proof. intros [? ? ? ? ?]. split; cbn; try done. apply Z.mod_pos_bound. lia. Qed.

(** ** Runs of a controller *)

Inductive cc_op := CcSend (now bytes : Z) | CcAck (acked seq : Z) (rtt_us : option Z) | CcTimeout.
Definition cc_step (c : CongestionController) (o : cc_op) : CongestionController :=
  match o with
  | CcSend now b => on_send now c b
  | CcAck acked seq r => (on_ack c acked seq r).1
  | CcTimeout => on_timeout c
  end.
Definition cc_op_ok (o : cc_op) : Prop :=
  match o with CcAck acked _ _ => 0 ≤ acked < 2 ^ 31 | _ => True end.
Definition cc_run (ops : list cc_op) (c : CongestionController) : CongestionController := foldl cc_step c ops.

Lemma cc_run_ok k ops c : config_ok k → Forall cc_op_ok ops → controller_ok k c → controller_ok k (cc_run ops c).
Proof.
  intros Hk Hops. revert c. induction Hops as [|o ops Ho Hops IH]; intros c Hc; [done|]. apply IH.
  destruct o as [now b|acked seq r|]; cbn [cc_step cc_op_ok] in *;
    [by apply on_send_ok|by apply on_ack_ok|by apply on_timeout_ok].
Qed.

(** ** Properties *)


Lemma timeouts_flight n c : bytes_in_flight (Nat.iter n on_timeout c) = bytes_in_flight c.
Proof. induction n; [done|]. by rewrite Nat.iter_succ. Qed.

Lemma timeouts_ok n k c : config_ok k → controller_ok k c → controller_ok k (Nat.iter n on_timeout c).
Proof. intros Hk Hc. induction n; [done|]. rewrite Nat.iter_succ. by apply on_timeout_ok. Qed.

Lemma dup_ack_recovers k c r :
  cc_config c = k → cc_state c ≠ FastRecovery → 0 ≤ dup_ack_count c < 2 ^ 31 →
  fast_retransmit_thresh k ≤ dup_ack_count c + 1 →
  on_ack c 0 (last_ack_seq c) r
  = (enter_fast_recovery (set_ack (count_ack c 0 r) (dup_ack_count c + 1) (last_ack_seq c)), Ok tt).
Proof.
  intros Hcfg Hst Hdup Hth. unfold on_ack. cbn [count_ack last_ack_seq]. rewrite Z.eqb_refl.
  assert (Hu : u32_add (dup_ack_count c) 1 = dup_ack_count c + 1) by (unfold u32_add; rewrite Z.mod_small; lia).
  cbn [set_ack dup_ack_count cc_config cc_state count_ack]. rewrite Hu, Hcfg.
  destruct (Z.leb_spec (fast_retransmit_thresh k) (dup_ack_count c + 1)); [|lia].
  by rewrite bool_decide_eq_false_2.
Qed.

(** The reaction to loss.  A timeout halves the window into the threshold, not
    below the minimum, restarts at the minimum in slow start and doubles the
    timeout up to 60 s; the duplicate acknowledgement that reaches the limit
    halves likewise and resumes three segments above, and the next new
    acknowledgement continues at the threshold.  The bytes lost stay in flight: a
    peer whose traffic above the minimum window was all lost may send nothing
    again, after any number of timeouts. *)
Theorem loss_response k c n bytes :
  config_ok k → controller_ok k c →
  (let t := on_timeout c in
   ssthresh t = Z.max (cwnd c / 2) (min_cwnd k) ∧ cwnd t = min_cwnd k ∧ cc_state t = SlowStart ∧
   rto (rtt t) = Z.min (2 * rto (rtt c)) 60000000 ∧ dup_ack_count t = 0) ∧
  (∀ r, cc_state c ≠ FastRecovery → 0 ≤ dup_ack_count c < 2 ^ 31 → fast_retransmit_thresh k ≤ dup_ack_count c + 1 →
     let f := (on_ack c 0 (last_ack_seq c) r).1 in
     ssthresh f = Z.max (cwnd c / 2) (min_cwnd k) ∧ cwnd f = ssthresh f + 4200 ∧ cc_state f = FastRecovery ∧
     ∀ acked seq, seq ≠ last_ack_seq f → cwnd (on_ack f acked seq None).1 = ssthresh f ∧
                  cc_state (on_ack f acked seq None).1 = CongestionAvoidance) ∧
  (min_cwnd k < bytes_in_flight c → 0 ≤ bytes → bytes_in_flight c + bytes < 2 ^ 32 →
   cc_can_send (Nat.iter (S n) on_timeout c) bytes = false).
Proof.
  intros Hk Hc. pose proof (decreased_half k c Hk Hc) as Hd. pose proof (decreased_bounds k c Hk Hc) as [Hlo Hhi].
  pose proof Hc as [Hcfg Hw Hs Hr Hf]. split_and!.
  - unfold on_timeout. cbn -[Z.max Z.mul]. rewrite Hcfg, Hd. split_and!; try done.
    unfold u64_mul. rewrite Z.mod_small by lia. f_equal. lia.
  - intros r Hst Hdup Hth. rewrite (dup_ack_recovers k c r Hcfg Hst Hdup Hth).
    set (c1 := set_ack _ _ _). assert (Hd1 : decreased c1 = decreased c) by done. clearbody c1.
    cbn [fst enter_fast_recovery ssthresh cwnd cc_state last_ack_seq]. rewrite Hd1, Hd. split_and!; try done.
    + rewrite Hd in Hlo, Hhi. destruct Hk. unfold u32_add. rewrite Z.mod_small by lia. lia.
    + intros acked seq Hseq. unfold on_ack. cbn [count_ack last_ack_seq enter_fast_recovery].
      destruct (Z.eqb_spec seq (last_ack_seq c1)); [done|]. cbn. by rewrite Hd1, Hd.
  - intros Hfl Hb Hsum. unfold cc_can_send. rewrite timeouts_flight.
    assert (Ec : cwnd (Nat.iter (S n) on_timeout c) = min_cwnd k).
    { rewrite Nat.iter_succ. cbn [on_timeout cwnd]. by rewrite (cok_config _ _ (timeouts_ok n k c Hk Hc)). }
    rewrite Ec. apply Z.leb_gt. unfold u32_add. rewrite Z.mod_small by lia. lia.
Qed.

Definition sample_cc : CongestionController :=
  on_send 5 (CongestionController_new 0 CongestionConfig_default) 14000.

Lemma sample_cc_ok : config_ok CongestionConfig_default ∧ controller_ok CongestionConfig_default sample_cc.
Proof.
  assert (Hk : config_ok CongestionConfig_default) by (split; try (cbn; lia); by vm_compute).
  split; [done|]. by apply on_send_ok, controller_ok_new.
Qed.

Lemma loss_response_witness :
  cc_can_send (Nat.iter 3 on_timeout sample_cc) 1 = false ∧ ssthresh (on_timeout sample_cc) = 7000.
Proof.
  destruct sample_cc_ok as [Hk Hc].
  destruct (loss_response CongestionConfig_default sample_cc 2 1 Hk Hc) as ((Ht & _) & _ & Hs).
  split; [apply Hs; vm_compute; (reflexivity || discriminate)|rewrite Ht; reflexivity].
Defined.

