(* ===== verification/Flow.v ===== *)
(** * Flow control (axiom-transport/src/flow.rs)

    The payload of flow frames, the credit window of a peer or an intent, and the
    manager of the windows.  Fill ratios are computed in [f32]; instants are
    arguments. *)

From stdpp Require Import base numbers list gmap.
From S2P Require Import Prelude Types Codec Text Intent Fragment Reliability F32 Congestion.

Inductive FlowState := FOpen | FThrottled | FPaused | FBlocked.
#[export] Instance FlowState_eq_dec : EqDecision FlowState.
Proof. solve_decision. Defined.
Definition FlowState_to_u8 (s : FlowState) : Z :=
  match s with FOpen => 0 | FThrottled => 1 | FPaused => 2 | FBlocked => 3 end.
Definition FlowState_from_u8 (v : Z) : FlowState :=
  match v with 0 => FOpen | 1 => FThrottled | 2 => FPaused | _ => FBlocked end.

(** ** Payloads *)

Record FlowPayload := mkFlow { fp_intent_hash : IntentHash; fp_state : FlowState; fp_window : Z; fp_rate_limit : Z }.
Definition FlowPayload_new (h : IntentHash) : FlowPayload := mkFlow h FOpen 65536 0.
Definition flow_with_state (p : FlowPayload) (s : FlowState) : FlowPayload :=
  mkFlow (fp_intent_hash p) s (fp_window p) (fp_rate_limit p).
Definition flow_with_window (p : FlowPayload) (w : Z) : FlowPayload :=
  mkFlow (fp_intent_hash p) (fp_state p) w (fp_rate_limit p).
Definition flow_with_rate_limit (p : FlowPayload) (r : Z) : FlowPayload :=
  mkFlow (fp_intent_hash p) (fp_state p) (fp_window p) r.

Definition FlowPayload_encode (p : FlowPayload) : list Z :=
  concat [fp_intent_hash p; [FlowState_to_u8 (fp_state p)]; to_be 4 (fp_window p); to_be 4 (fp_rate_limit p)].
Definition FlowPayload_decode (data : list Z) : outcome unit (option FlowPayload) :=
  if len data <? 25 then Ok None
  else
    h ← slice data 0 16;
    b ← index data 16;
    w ← slice data 17 21;
    r ← slice data 21 25;
    Ok (Some (mkFlow h (FlowState_from_u8 b) (from_be w) (from_be r))).

(** ** Configuration and windows *)

Record FlowConfig := mkFlowConfig {
  initial_window : Z;
  min_window : Z;
  max_window : Z;
  window_growth : f32;
  high_watermark : f32;
  low_watermark : f32
}.
Definition FlowConfig_default : FlowConfig :=
  mkFlowConfig 65536 1024 16777216 (f32_lit 3 2) (f32_lit 8 10) (f32_lit 2 10).

Record FlowTracker := mkTracker {
  ft_state : FlowState;
  window_available : Z;
  window_size : Z;
  ft_rate_limit : Z;
  ft_bytes_sent : Z;
  ft_bytes_received : Z;
  last_update : Z
}.
Definition FlowTracker_new (now : Z) (c : FlowConfig) : FlowTracker :=
  mkTracker FOpen (initial_window c) (initial_window c) 0 0 0 now.

Definition update_from_peer (now : Z) (t : FlowTracker) (p : FlowPayload) : FlowTracker :=
  mkTracker (fp_state p) (fp_window p) (window_size t) (fp_rate_limit p) (ft_bytes_sent t) (ft_bytes_received t) now.
Definition record_send (t : FlowTracker) (bytes : Z) : FlowTracker :=
  mkTracker (ft_state t) (Z.max 0 (window_available t - bytes)) (window_size t) (ft_rate_limit t)
    (u64_add (ft_bytes_sent t) bytes) (ft_bytes_received t) (last_update t).
Definition record_receive (t : FlowTracker) (bytes : Z) : FlowTracker :=
  mkTracker (ft_state t) (window_available t) (window_size t) (ft_rate_limit t) (ft_bytes_sent t)
    (u64_add (ft_bytes_received t) bytes) (last_update t).
Definition ack_processed (t : FlowTracker) (bytes : Z) (c : FlowConfig) : FlowTracker :=
  mkTracker (ft_state t) (Z.min (u32_add (window_available t) bytes) (max_window c)) (window_size t)
    (ft_rate_limit t) (ft_bytes_sent t) (ft_bytes_received t) (last_update t).
Definition tracker_can_send (t : FlowTracker) (bytes : Z) : bool :=
  match ft_state t with
  | FOpen | FThrottled => bytes <=? window_available t
  | FPaused | FBlocked => false
  end.
Definition calculate_advertised_state (t : FlowTracker) (c : FlowConfig) : FlowState :=
  let fill := f32_sub (f32_of 1) (f32_div (f32_of (window_available t)) (f32_of (window_size t))) in
  if f32_ge fill (high_watermark c) then FPaused
  else if f32_ge fill (low_watermark c) then FThrottled
  else FOpen.

(** ** The manager *)

Record FlowManager := mkFlowManager {
  fm_config : FlowConfig;
  fm_node_id : NodeId;
  peer_flow : gmap SocketAddr FlowTracker;
  intent_flow : gmap IntentHash FlowTracker
}.
Definition FlowManager_new (c : FlowConfig) (id : NodeId) : FlowManager := mkFlowManager c id ∅ ∅.

Definition get_peer_flow (now : Z) (m : FlowManager) (a : SocketAddr) : FlowTracker :=
  default (FlowTracker_new now (fm_config m)) (peer_flow m !! a).
Definition get_intent_flow (now : Z) (m : FlowManager) (h : IntentHash) : FlowTracker :=
  default (FlowTracker_new now (fm_config m)) (intent_flow m !! h).
Definition set_peer_flow (m : FlowManager) (a : SocketAddr) (t : FlowTracker) : FlowManager :=
  mkFlowManager (fm_config m) (fm_node_id m) (<[a := t]> (peer_flow m)) (intent_flow m).
Definition set_intent_flow (m : FlowManager) (h : IntentHash) (t : FlowTracker) : FlowManager :=
  mkFlowManager (fm_config m) (fm_node_id m) (peer_flow m) (<[h := t]> (intent_flow m)).

Definition process_flow_frame (now : Z) (m : FlowManager) (f : Frame) (a : SocketAddr) :
    FlowManager * outcome unit (option unit) :=
  match FlowPayload_decode (payload f) with
  | Ok (Some p) =>
      let m := set_peer_flow m a (update_from_peer now (get_peer_flow now m a) p) in
      (if negb (bool_decide (fp_intent_hash p = IntentHash_zero))
       then set_intent_flow m (fp_intent_hash p)
              (update_from_peer now (get_intent_flow now m (fp_intent_hash p)) p)
       else m, Ok (Some tt))
  | Ok None => (m, Ok None)
  | Err e => (m, Err e)
  | Panic => (m, Panic)
  end.

Definition flow_can_send (now : Z) (m : FlowManager) (a : SocketAddr) (size : Z) : FlowManager * bool :=
  let t := get_peer_flow now m a in (set_peer_flow m a t, tracker_can_send t size).
Definition flow_can_send_intent (now : Z) (m : FlowManager) (h : IntentHash) (size : Z) : FlowManager * bool :=
  let t := get_intent_flow now m h in (set_intent_flow m h t, tracker_can_send t size).

Definition flow_record_send (now : Z) (m : FlowManager) (a : SocketAddr) (bytes : Z) (i : option IntentHash) :
    FlowManager :=
  let m := set_peer_flow m a (record_send (get_peer_flow now m a) bytes) in
  match i with
  | Some h => set_intent_flow m h (record_send (get_intent_flow now m h) bytes)
  | None => m
  end.
Definition flow_record_receive (now : Z) (m : FlowManager) (a : SocketAddr) (bytes : Z) (i : option IntentHash) :
    FlowManager :=
  let m := set_peer_flow m a (record_receive (get_peer_flow now m a) bytes) in
  match i with
  | Some h => set_intent_flow m h (record_receive (get_intent_flow now m h) bytes)
  | None => m
  end.

Definition advertised (m : FlowManager) (t : option FlowTracker) : FlowState * Z :=
  match t with
  | Some t => (calculate_advertised_state t (fm_config m), window_available t)
  | None => (FOpen, initial_window (fm_config m))
  end.
Definition create_flow_frame (m : FlowManager) (h : IntentHash) : Frame :=
  let '(s, w) := advertised m (intent_flow m !! h) in
  Frame_new (with_intent (with_trust_level (FrameHeader_new FFlow (fm_node_id m)) Raw) h) PRaw
    (FlowPayload_encode (flow_with_window (flow_with_state (FlowPayload_new h) s) w)).
Definition create_global_flow_frame (m : FlowManager) (a : SocketAddr) : Frame :=
  let '(s, w) := advertised m (peer_flow m !! a) in
  Frame_new (with_trust_level (FrameHeader_new FFlow (fm_node_id m)) Raw) PRaw
    (FlowPayload_encode (flow_with_window (flow_with_state (FlowPayload_new IntentHash_zero) s) w)).

Definition get_peer_state (m : FlowManager) (a : SocketAddr) : FlowState :=
  match peer_flow m !! a with Some t => ft_state t | None => FOpen end.
Definition get_intent_state (m : FlowManager) (h : IntentHash) : FlowState :=
  match intent_flow m !! h with Some t => ft_state t | None => FOpen end.
Definition flow_clear (m : FlowManager) : FlowManager := mkFlowManager (fm_config m) (fm_node_id m) ∅ ∅.

(** ** Payload round trip *)

Record flow_payload_ok (p : FlowPayload) : Prop := {
  fpo_hash : array_ok 16 (fp_intent_hash p);
  fpo_window : 0 ≤ fp_window p < 2 ^ 32;
  fpo_rate : 0 ≤ fp_rate_limit p < 2 ^ 32
}.

Lemma FlowPayload_decode_encode p rest :
  flow_payload_ok p → FlowPayload_decode (FlowPayload_encode p ++ rest) = Ok (Some p).
Proof.
  intros [Hh Hw Hr]. destruct p as [h s w r]. cbn [fp_intent_hash fp_window fp_rate_limit] in *. apply len_array in Hh.
  set (fs := [h; [FlowState_to_u8 s]; to_be 4 w; to_be 4 r; rest]).
  assert (E : FlowPayload_encode (mkFlow h s w r) ++ rest = concat fs).
  { unfold FlowPayload_encode, fs. cbn [concat fp_intent_hash fp_state fp_window fp_rate_limit].
    by rewrite !app_nil_r, <- !app_assoc. }
  rewrite E. assert (Hl : len (concat fs) = 25 + len rest) by (unfold fs; cbn [concat]; solve_len).
  pose proof (len_nonneg rest). unfold FlowPayload_decode. case_ltb.
  rewrite (slice_field fs 0 h 0 16), bind_Ok by field_at fs.
  rewrite (index_field fs 1 (FlowState_to_u8 s) 16), bind_Ok by field_at fs.
  rewrite (slice_field fs 2 (to_be 4 w) 17 21), bind_Ok by field_at fs.
  rewrite (slice_field fs 3 (to_be 4 r) 21 25), bind_Ok by field_at fs.
  rewrite !from_be_to_be by done. by destruct s.
Qed.

Lemma FlowPayload_decode_no_panic data : FlowPayload_decode data ≠ Panic.
Proof.
  unfold FlowPayload_decode. case_ltb; [done|].
  repeat (apply bind_not_Panic; [first [apply slice_not_Panic; lia|apply index_not_Panic; lia]|]; intros ? _). done.
Qed.

(** ** Guarded sending *)

Inductive flow_op := FSend (bytes : Z) | FReceive (bytes : Z) | FCredit (bytes : Z).
Definition flow_op_ok (o : flow_op) : Prop :=
  match o with FSend b | FReceive b => 0 ≤ b | FCredit b => 0 ≤ b < 2 ^ 31 end.

(** A sender that asks [can_send] before it records: the bytes sent, and the tracker. *)
Definition flow_step (c : FlowConfig) (t : FlowTracker) (o : flow_op) : FlowTracker * Z :=
  match o with
  | FSend b => if tracker_can_send t b then (record_send t b, b) else (t, 0)
  | FReceive b => (record_receive t b, 0)
  | FCredit b => (ack_processed t b c, 0)
  end.
Fixpoint flow_sent (c : FlowConfig) (ops : list flow_op) (t : FlowTracker) : Z :=
  match ops with
  | [] => 0
  | o :: rest => (flow_step c t o).2 + flow_sent c rest (flow_step c t o).1
  end.
Definition credited (ops : list flow_op) : Z :=
  foldr (λ o acc, (match o with FCredit b => b | _ => 0 end) + acc) 0 ops.

Lemma flow_step_bound c t o :
  0 ≤ max_window c < 2 ^ 31 → flow_op_ok o → 0 ≤ window_available t < 2 ^ 31 →
  (flow_step c t o).2 + window_available (flow_step c t o).1
    ≤ window_available t + (match o with FCredit b => b | _ => 0 end) ∧
  0 ≤ window_available (flow_step c t o).1 < 2 ^ 31 ∧
  ft_state (flow_step c t o).1 = ft_state t ∧ 0 ≤ (flow_step c t o).2 ∧
  (ft_state t = FPaused ∨ ft_state t = FBlocked → (flow_step c t o).2 = 0).
Proof.
  intros Hc Ho Hw. destruct o as [b|b|b]; cbn [flow_step flow_op_ok] in *.
  - unfold tracker_can_send. destruct (ft_state t) eqn:Es; try (cbn [fst snd]; split_and!; (done || lia)).
    + destruct (Z.leb_spec b (window_available t)); cbn; split_and!; (done || lia || by intros [?|?]).
    + destruct (Z.leb_spec b (window_available t)); cbn; split_and!; (done || lia || by intros [?|?]).
  - cbn. split_and!; (done || lia).
  - cbn. unfold u32_add. rewrite Z.mod_small by lia. split_and!; (done || lia).
Qed.

Lemma flow_sent_bound c ops t :
  0 ≤ max_window c < 2 ^ 31 → Forall flow_op_ok ops → 0 ≤ window_available t < 2 ^ 31 →
  0 ≤ flow_sent c ops t ≤ window_available t + credited ops ∧
  (ft_state t = FPaused ∨ ft_state t = FBlocked → flow_sent c ops t = 0).
Proof.
  intros Hc Hops. revert t. induction Hops as [|o ops Ho Hops IH]; intros t Hw; cbn [flow_sent credited foldr]; [split; [lia|done]|].
  destruct (flow_step_bound c t o Hc Ho Hw) as (H1 & H2 & H3 & H4 & H5).
  destruct (IH _ H2) as [Hi Hz]. fold (credited ops) in *. split; [lia|]. intros Hs. rewrite (H5 Hs), Hz; [done|by rewrite H3].
Qed.

(** ** Properties *)

(** The peer's window is respected.  A flow frame sets the window and state of its
    sender and of its intent; from then on a sender that asks before it sends puts
    out at most the advertised window plus the credit returned, and nothing at all
    after a pause or a block, until the next flow frame. *)
Theorem flow_window now m f a p ops :
  payload f = FlowPayload_encode p → flow_payload_ok p → fp_window p < 2 ^ 31 →
  0 ≤ max_window (fm_config m) < 2 ^ 31 → Forall flow_op_ok ops →
  ∃ m', process_flow_frame now m f a = (m', Ok (Some tt)) ∧
    (∀ b, b ≠ a → peer_flow m' !! b = peer_flow m !! b) ∧
    let t := get_peer_flow now m' a in
    ft_state t = fp_state p ∧ window_available t = fp_window p ∧
    0 ≤ flow_sent (fm_config m) ops t ≤ fp_window p + credited ops ∧
    (fp_state p = FPaused ∨ fp_state p = FBlocked → flow_sent (fm_config m) ops t = 0) ∧
    (fp_intent_hash p ≠ IntentHash_zero →
       get_intent_state m' (fp_intent_hash p) = fp_state p).
Proof.
  intros Hf Hp Hw Hc Hops. unfold process_flow_frame. rewrite Hf.
  pose proof (FlowPayload_decode_encode p [] Hp) as Hd. rewrite app_nil_r in Hd. rewrite Hd.
  eexists. split; [done|]. set (t := update_from_peer now (get_peer_flow now m a) p).
  assert (Ht : ∀ m', peer_flow m' !! a = Some t → get_peer_flow now m' a = t)
    by (intros m' E; unfold get_peer_flow; by rewrite E).
  destruct (flow_sent_bound (fm_config m) ops t Hc Hops) as [[Hb1 Hb2] Hz]; [cbn; destruct Hp; lia|].
  change (window_available t) with (fp_window p) in Hb2.
  case_bool_decide as Hi; cbn [negb].
  - rewrite (Ht (set_peer_flow m a t)) by apply lookup_insert_eq. split_and!; try done.
    intros b Hb'. by apply lookup_insert_ne.
  - rewrite (Ht (set_intent_flow _ _ _)) by apply lookup_insert_eq. split_and!; try done.
    + intros b Hb'. by apply lookup_insert_ne.
    + intros _. unfold get_intent_state. cbn. by rewrite lookup_insert_eq.
Qed.

Lemma flow_window_witness :
  ∃ m', process_flow_frame 0 (FlowManager_new FlowConfig_default (replicate 32 1))
          (create_flow_frame (FlowManager_new FlowConfig_default (replicate 32 2)) (replicate 16 3)) ([], 1)
        = (m', Ok (Some tt)) ∧
        flow_sent FlowConfig_default [FSend 60000; FSend 6000; FSend 5000] (get_peer_flow 0 m' ([], 1)) ≤ 65536.
Proof.
  destruct (flow_window 0 (FlowManager_new FlowConfig_default (replicate 32 1))
              (create_flow_frame (FlowManager_new FlowConfig_default (replicate 32 2)) (replicate 16 3)) ([], 1)
              (mkFlow (replicate 16 3) FOpen 65536 0) [FSend 60000; FSend 6000; FSend 5000])
    as (m' & E & _ & _ & _ & [_ Hs] & _).
  - reflexivity.
  - split; cbn -[array_ok]; [apply (array_ok_replicate 16 3)|..]; lia.
  - cbn. lia.
  - cbn. lia.
  - repeat constructor; cbn; lia.
  - exists m'. split; [exact E|exact Hs].
Defined.
