(* ===== verification/Secure.v ===== *)
(** * Secure transport (axiom-transport/src/secure.rs)

    The transport that puts signatures and session tokens over fragment-free datagrams:
    it composes the codec, the reliability manager, flow control, frame signatures and
    session tokens.  Socket results and clock readings are inputs, as in Reliability.v. *)

From stdpp Require Import base numbers list gmap strings sorting.
From S2P Require Import Prelude Types Codec Text Intent Fragment Reliability Crypto F32 Congestion Flow.

(** ** Data *)

Record TransportConfig := mkTransportConfig {
  mtu : Z; recv_buffer_size : Z; send_buffer_size : Z; read_timeout_ms : Z; write_timeout_ms : Z; reassembly_timeout_ms : Z;
  max_reassembly_buffers : Z
}.
Definition TransportConfig_default : TransportConfig := mkTransportConfig 1400 65536 65536 30000 5000 30000 1000.

Record SecureTransportConfig := mkSecureConfig {
  sc_transport : TransportConfig; sc_reliability : ReliabilityConfig; sc_flow : FlowConfig; default_trust_level : TrustLevel;
  session_ttl_ms : Z; verify_signatures : bool
}.
Definition SecureTransportConfig_default : SecureTransportConfig :=
  mkSecureConfig TransportConfig_default ReliabilityConfig_default FlowConfig_default Sig 3600000 true.

Record TransportStats := mkTransportStats {
  ts_frames_sent : Z; ts_frames_received : Z; ts_bytes_sent : Z; ts_bytes_received : Z; verification_failures : Z;
  retransmissions : Z; flow_pauses : Z
}.
Definition TransportStats_default : TransportStats := mkTransportStats 0 0 0 0 0 0 0.

(** The datagram read last is an argument of the turn that reads it; the signer holds the same
    key pair. *)
Record SecureTransport := mkSecure {
  st_config : SecureTransportConfig; st_bound : bool; st_keypair : Keypair; reliability : ReliabilityManager; flow : FlowManager;
  sessions : SessionManager; st_send_buffer : list Z; st_stats : TransportStats
}.

Definition st_set_bound (s : SecureTransport) (b : bool) : SecureTransport :=
  mkSecure (st_config s) b (st_keypair s) (reliability s) (flow s) (sessions s) (st_send_buffer s) (st_stats s).
Definition st_set_reliability (s : SecureTransport) (r : ReliabilityManager) : SecureTransport :=
  mkSecure (st_config s) (st_bound s) (st_keypair s) r (flow s) (sessions s) (st_send_buffer s) (st_stats s).
Definition st_set_flow (s : SecureTransport) (m : FlowManager) : SecureTransport :=
  mkSecure (st_config s) (st_bound s) (st_keypair s) (reliability s) m (sessions s) (st_send_buffer s) (st_stats s).
Definition st_set_sessions (s : SecureTransport) (m : SessionManager) : SecureTransport :=
  mkSecure (st_config s) (st_bound s) (st_keypair s) (reliability s) (flow s) m (st_send_buffer s) (st_stats s).
Definition st_set_buffer (s : SecureTransport) (b : list Z) : SecureTransport :=
  mkSecure (st_config s) (st_bound s) (st_keypair s) (reliability s) (flow s) (sessions s) b (st_stats s).
Definition st_set_stats (s : SecureTransport) (t : TransportStats) : SecureTransport :=
  mkSecure (st_config s) (st_bound s) (st_keypair s) (reliability s) (flow s) (sessions s) (st_send_buffer s) t.

Definition count_sent (t : TransportStats) (size : Z) : TransportStats :=
  mkTransportStats (u64_add (ts_frames_sent t) 1) (ts_frames_received t) (u64_add (ts_bytes_sent t) size) (ts_bytes_received t)
    (verification_failures t) (retransmissions t) (flow_pauses t).
Definition count_received (t : TransportStats) (size : Z) : TransportStats :=
  mkTransportStats (ts_frames_sent t) (u64_add (ts_frames_received t) 1) (ts_bytes_sent t) (u64_add (ts_bytes_received t) size)
    (verification_failures t) (retransmissions t) (flow_pauses t).
Definition count_failure (t : TransportStats) : TransportStats :=
  mkTransportStats (ts_frames_sent t) (ts_frames_received t) (ts_bytes_sent t) (ts_bytes_received t)
    (u64_add (verification_failures t) 1) (retransmissions t) (flow_pauses t).
Definition count_retransmissions (t : TransportStats) (n : Z) : TransportStats :=
  mkTransportStats (ts_frames_sent t) (ts_frames_received t) (ts_bytes_sent t) (ts_bytes_received t)
    (verification_failures t) (u64_add (retransmissions t) n) (flow_pauses t).
Definition count_pause (t : TransportStats) : TransportStats :=
  mkTransportStats (ts_frames_sent t) (ts_frames_received t) (ts_bytes_sent t) (ts_bytes_received t)
    (verification_failures t) (retransmissions t) (u64_add (flow_pauses t) 1).

(** The clock readings of a turn: the monotonic clock, the one of a clean-up of the
    duplicate memory, and the wall clock in milliseconds. *)
Record readings := mkReadings { rd_now : Z; rd_sweep : Z; rd_wall : Z }.

Definition set_sender (h : FrameHeader) (id : NodeId) : FrameHeader :=
  mkHeader (Types.version h) (frame_type h) (flags h) (trust_level h) (Types.priority h) (clock h) (intent_hash h) id.
Definition set_header (f : Frame) (h : FrameHeader) : Frame :=
  mkFrame h (trace_id f) (routing f) (fragment_info f) (payload_header f) (payload f) (auth f).

Section Transport.
Context `{Ed25519}.

Definition SecureTransport_new (now : Z) (c : SecureTransportConfig) (k : Keypair) : SecureTransport :=
  mkSecure c false k (ReliabilityManager_new now (sc_reliability c) (Keypair_node_id k)) (FlowManager_new (sc_flow c) (Keypair_node_id k))
    SessionManager_new (replicate (Z.to_nat (send_buffer_size (sc_transport c))) 0) TransportStats_default.

(** [bind] and [local_addr]; what the socket answers is an argument. *)
Definition st_bind (s : SecureTransport) (answer : SocketAddr + text) : SecureTransport * outcome TransportError SocketAddr :=
  match answer with inl a => (st_set_bound s true, Ok a) | inr e => (s, Err (TE_Io e)) end.
Definition st_local_addr (s : SecureTransport) (answer : SocketAddr + text) : outcome TransportError SocketAddr :=
  if negb (st_bound s) then Err TE_NotBound else match answer with inl a => Ok a | inr e => Err (TE_Io e) end.
Definition st_node_id (s : SecureTransport) : NodeId := Keypair_node_id (st_keypair s).

(** ** Sending *)

(** What [send] does to a frame before encoding it. *)
Definition sign_outgoing (s : SecureTransport) (f : Frame) : outcome TransportError Frame :=
  match trust_level (header f) with
  | Full | Sig =>
      match FrameSigner_sign (st_keypair s) (set_header f (set_sender (header f) (st_node_id s))) with
      | (_, Err EncodingFailed) => Err (TE_Io (str "Failed to sign frame"))
      | (f, _) => Ok f
      end
  | Compress => Ok (set_header f (set_sender (header f) (st_node_id s)))
  | Raw => Ok f
  end.

(** [sent] is the result of [send_to]. *)
Definition st_send (now : Z) (sent : option text) (s : SecureTransport) (f : Frame) (dest : SocketAddr) :
    SecureTransport * list datagram * outcome TransportError unit :=
  let '(m, room) := flow_can_send now (flow s) dest (wire_size f mod 2 ^ 32) in
  let s := st_set_flow s m in
  if negb room then (st_set_stats s (count_pause (st_stats s)), [], Err (TE_Io (str "Flow control: send blocked")))
  else
    match sign_outgoing s f with
    | Err e => (s, [], Err e)
    | Panic => (s, [], Panic)
    | Ok f =>
        match encode f (st_send_buffer s) with
        | Panic => (s, [], Panic)
        | Err e => (s, [], Err (TE_Codec e))
        | Ok (buf, size) =>
            let s := st_set_buffer s buf in
            if negb (st_bound s) then (s, [], Err TE_NotBound)
            else
              match sent with
              | Some e => (s, [], Err (TE_SendFailed e))
              | None =>
                  let data := take (Z.to_nat size) buf in
                  let s := st_set_stats s (count_sent (st_stats s) size) in
                  let s := st_set_flow s (flow_record_send now (flow s) dest (size mod 2 ^ 32) (Some (intent_hash (header f)))) in
                  match trace_id f with
                  | None => (s, [(data, dest)], Ok tt)
                  | Some _ =>
                      match track_frame now (reliability s) f data dest with
                      | Ok r => (st_set_reliability s r, [(data, dest)], Ok tt)
                      | Err e => (s, [(data, dest)], Err e)
                      | Panic => (s, [(data, dest)], Panic)
                      end
                  end
              end
        end
    end.

Definition st_send_reliable (now : Z) (fresh : TraceId) (sent : option text) (s : SecureTransport) (f : Frame) (dest : SocketAddr) :
    SecureTransport * list datagram * outcome TransportError TraceId :=
  let '(f, t) := assign_trace_id fresh f in
  let '(s, out, res) := st_send now sent s f dest in
  (s, out, match res with Ok _ => Ok t | Err e => Err e | Panic => Panic end).

Definition sign_control_frame (s : SecureTransport) (f : Frame) : Frame :=
  (FrameSigner_sign (st_keypair s) (set_header f (set_sender (with_trust_level (header f) Sig) (st_node_id s)))).1.

Definition send_flow_control (now : Z) (sent : option text) (s : SecureTransport) (dest : SocketAddr) :
    SecureTransport * list datagram * outcome TransportError unit :=
  let f := create_global_flow_frame (flow s) dest in
  st_send now sent s (set_header f (with_trust_level (header f) Sig)) dest.

Definition st_create_session `{Blake3} (now : Z) (s : SecureTransport) (peer : NodeId) (secret : list Z) : SecureTransport :=
  st_set_sessions s (create_session now (sessions s) peer secret (session_ttl_ms (st_config s))).1.

Definition pending_count (s : SecureTransport) : Z := pending_len (reliability s).

(** ** Receiving *)

Definition fail_verification (s : SecureTransport) : SecureTransport := st_set_stats s (count_failure (st_stats s)).

(** The check before anything else is done with a frame: whether to go on with it. *)
Definition verify_frame (wall : Z) (s : SecureTransport) (f : Frame) : SecureTransport * bool :=
  if negb (verify_signatures (st_config s)) then (s, true)
  else
    match trust_level (header f) with
    | Full | Sig =>
        match FrameVerifier_verify f with
        | Ok false => (fail_verification s, false)
        | _ => (s, true)
        end
    | Compress =>
        match auth f with
        | AuthToken t =>
            let '(m, ok) := verify_token wall (sessions s) (sender_id (header f)) t in
            let s := st_set_sessions s m in
            if ok then (s, true) else (fail_verification s, false)
        | _ => (s, true)
        end
    | Raw => (s, true)
    end.

(** A frame for the caller: it is counted, acknowledged when it has a trace identifier, and
    returned unless it was seen before.  Failing to encode or send the acknowledgement is ignored. *)
Definition st_regular (c : readings) (s : SecureTransport) (f : Frame) (size : Z) (addr : SocketAddr) :
    SecureTransport * list datagram * recv_result :=
  let s := st_set_stats s (count_received (st_stats s) size) in
  let s := st_set_flow s (flow_record_receive (rd_now c) (flow s) addr (size mod 2 ^ 32) (Some (intent_hash (header f)))) in
  match trace_id f with
  | None => (s, [], RReturn f addr)
  | Some t =>
      let '(r, dup) := is_duplicate (rd_now c) (rd_sweep c) (reliability s) addr t in
      let s := st_set_reliability s r in
      let res := if dup then RContinue else RReturn f addr in
      match encode (sign_control_frame s (create_ack_frame r t)) (st_send_buffer s) with
      | Ok (buf, size) => (st_set_buffer s buf, [(take (Z.to_nat size) buf, addr)], res)
      | Err _ => (s, [], res)
      | Panic => (s, [], RPanic)
      end
  end.

Definition st_dispatch (c : readings) (s : SecureTransport) (f : Frame) (size : Z) (addr : SocketAddr) :
    SecureTransport * list datagram * recv_result :=
  match frame_type (header f) with
  | FAck =>
      match AckPayload_decode (payload f) with
      | Ok (Some ack) => (st_set_reliability s (process_ack (reliability s) addr ack).1, [], RContinue)
      | Ok None => (s, [], RContinue)
      | _ => (s, [], RPanic)
      end
  | FNack =>
      match NackPayload_decode (payload f) with
      | Ok (Some nack) =>
          let '(r, again) := process_nack (rd_now c) (reliability s) addr nack in
          (st_set_reliability s r, match again with Some p => [(pf_data p, pf_dest p)] | None => [] end, RContinue)
      | Ok None => (s, [], RContinue)
      | _ => (s, [], RPanic)
      end
  | FFlow =>
      match process_flow_frame (rd_now c) (flow s) f addr with
      | (m, Ok _) => (st_set_flow s m, [], RContinue)
      | (m, _) => (st_set_flow s m, [], RPanic)
      end
  | _ => st_regular c s f size addr
  end.

(** A datagram longer than the receive buffer is cut. *)
Definition received_bytes (s : SecureTransport) (data : list Z) : list Z :=
  take (Z.to_nat (recv_buffer_size (sc_transport (st_config s)))) data.
Definition below_floor (s : SecureTransport) (f : Frame) : bool :=
  TrustLevel_to_u8 (default_trust_level (st_config s)) <? TrustLevel_to_u8 (trust_level (header f)).

Definition st_datagram (c : readings) (s : SecureTransport) (data : list Z) (addr : SocketAddr) :
    SecureTransport * list datagram * recv_result :=
  let data := received_bytes s data in
  match decode data with
  | Panic => (s, [], RPanic)
  | Err e => (s, [], RError (TE_Codec e))
  | Ok d =>
      let f := to_frame d in
      if below_floor s f then (fail_verification s, [], RContinue)
      else
        let '(s, ok) := verify_frame (rd_wall c) s f in
        if negb ok then (s, [], RContinue) else st_dispatch c s f (len data) addr
  end.

(** The retransmissions at the start of a turn. *)
Definition st_retransmit (now : Z) (s : SecureTransport) : SecureTransport * list datagram :=
  let '(r, again) := get_retransmit_frames now (reliability s) in
  let s := st_set_reliability s r in
  if st_bound s
  then (st_set_stats s (count_retransmissions (st_stats s) (len again)), map (λ p, (pf_data p, pf_dest p)) again)
  else (s, []).

Definition st_turn (s : SecureTransport) (turn : readings * socket_event) : SecureTransport * list datagram * recv_result :=
  let '(c, ev) := turn in
  let '(s, sends) := st_retransmit (rd_now c) s in
  if negb (st_bound s) then (s, sends, RError TE_NotBound)
  else
    match ev with
    | SDatagram data addr => let '(s, out, res) := st_datagram c s data addr in (s, sends ++ out, res)
    | SFailed msg => (s, sends, RError (TE_ReceiveFailed msg))
    | STimeout => (s, sends, RContinue)
    end.

(** [recv] over a sequence of turns, and the turns it left.  [None]: the caller gave up waiting. *)
Fixpoint st_recv (s : SecureTransport) (turns : list (readings * socket_event)) :
    SecureTransport * list datagram * option recv_result * list (readings * socket_event) :=
  match turns with
  | [] => (s, [], None, [])
  | turn :: turns =>
      let '(s, out, res) := st_turn s turn in
      match res with
      | RContinue => let '(s, out', res, rest) := st_recv s turns in (s, out ++ out', res, rest)
      | _ => (s, out, Some res, turns)
      end
  end.
End Transport.

(** ** Which datagrams count *)

(** Who vouches for a frame: its signature under the key it names, or the live session token
    of its sender; nobody needs to for a raw frame. *)
Definition authentic `{Ed25519} (wall : Z) (m : SessionManager) (f : Frame) : bool :=
  match trust_level (header f), auth f with
  | (Full | Sig), AuthSignature sg => NodeId_verify (sender_id (header f)) (signature_data f) sg
  | Compress, AuthToken t =>
      match get_token wall m (sender_id (header f)) with Some t' => bool_decide (t' = t) | None => false end
  | Raw, _ => true
  | _, _ => false
  end.
Definition admits `{Ed25519} (s : SecureTransport) (c : readings) (data : list Z) : bool :=
  match decode (received_bytes s data) with
  | Ok d => (TrustLevel_to_u8 (trust_level (header (to_frame d))) <=? TrustLevel_to_u8 (default_trust_level (st_config s))) && authentic (rd_wall c) (sessions s) (to_frame d)
  | _ => false
  end.

Lemma clears_floor s f :
  (TrustLevel_to_u8 (trust_level (header f)) <=? TrustLevel_to_u8 (default_trust_level (st_config s))) = negb (below_floor s f).
Proof. apply Z.leb_antisym. Qed.

(** A caller that receives again and again: the frames it is given and the datagrams sent.
    [see] is what reaches the transport of what the socket had. *)
Fixpoint receive_all `{Ed25519} (see : SecureTransport → readings → socket_event → socket_event) (s : SecureTransport)
    (turns : list (readings * socket_event)) : SecureTransport * list (Frame * SocketAddr) * list datagram :=
  match turns with
  | [] => (s, [], [])
  | (c, ev) :: turns =>
      let '(s, out, res) := st_turn s (c, see s c ev) in
      let '(s, fs, out') := receive_all see s turns in
      (s, match res with RReturn f a => (f, a) :: fs | _ => fs end, out ++ out')
  end.
Definition everything (s : SecureTransport) (c : readings) (ev : socket_event) : socket_event := ev.
Definition only_admitted `{Ed25519} (s : SecureTransport) (c : readings) (ev : socket_event) : socket_event :=
  match ev with SDatagram data _ => if admits s c data then ev else STimeout | _ => ev end.

(** Equal but for the count of failures and for sessions that have expired. *)
Definition with_view (s : SecureTransport) (m : SessionManager) (v : Z) : SecureTransport :=
  let t := st_stats s in
  st_set_sessions (st_set_stats s (mkTransportStats (ts_frames_sent t) (ts_frames_received t) (ts_bytes_sent t) (ts_bytes_received t) v
    (retransmissions t) (flow_pauses t))) m.
Definition same_but (wall : Z) (s s' : SecureTransport) : Prop :=
  ∃ m v, s' = with_view s m v ∧ SessionManager_cleanup_expired wall m = SessionManager_cleanup_expired wall (sessions s).

Lemma get_session_cleanup now m p : get_session now m p = sm_sessions (SessionManager_cleanup_expired now m) !! p.
Proof.
  unfold get_session, SessionManager_cleanup_expired. cbn. rewrite map_lookup_filter. destruct (sm_sessions m !! p) as [i|]; [|done].
  cbn. destruct (SessionInfo_is_expired now i); by case_guard.
Qed.
Lemma expired_later w w' i : w ≤ w' → SessionInfo_is_expired w' i = false → SessionInfo_is_expired w i = false.
Proof. unfold SessionInfo_is_expired. rewrite !Z.ltb_ge. lia. Qed.
Lemma cleanup_twice w w' m : w ≤ w' →
  SessionManager_cleanup_expired w' (SessionManager_cleanup_expired w m) = SessionManager_cleanup_expired w' m.
Proof.
  intros Hw. unfold SessionManager_cleanup_expired. cbn. f_equal. apply map_eq. intros p. apply option_eq. intros i.
  rewrite !map_lookup_filter_Some. cbn. pose proof (expired_later w w' i Hw). naive_solver.
Qed.
Lemma same_but_later w w' s s' : w ≤ w' → same_but w s s' → same_but w' s s'.
Proof.
  intros Hw (m & v & -> & E). exists m, v. split; [done|]. by rewrite <- (cleanup_twice w), E, cleanup_twice.
Qed.
Lemma same_but_refl w s : same_but w s s.
Proof. exists (sessions s), (verification_failures (st_stats s)). by destruct s as [? ? ? ? ? ? ? []]. Qed.

Section Views.
Context `{Ed25519}.

Lemma authentic_same wall m m' f : SessionManager_cleanup_expired wall m = SessionManager_cleanup_expired wall m' →
  authentic wall m f = authentic wall m' f.
Proof. intros E. unfold authentic, get_token. by rewrite !get_session_cleanup, E. Qed.

Lemma admits_same c s s' data : same_but (rd_wall c) s s' → admits s' c data = admits s c data.
Proof.
  intros (m & v & -> & E). unfold admits. change (received_bytes (with_view s m v) data) with (received_bytes s data).
  destruct (decode _) as [d| |]; [|done..]. f_equal. by apply authentic_same.
Qed.

(** What a turn does besides checking does not look at sessions or at the count. *)
Lemma st_retransmit_view now s m v : st_retransmit now (with_view s m v) = (with_view (st_retransmit now s).1 m v, (st_retransmit now s).2).
Proof.
  unfold st_retransmit. cbn [with_view st_set_sessions st_set_stats reliability st_bound]. destruct (get_retransmit_frames now _) as [r again].
  by destruct s as [? [] ? ? ? ? ? ?].
Qed.
Lemma st_regular_view c s m v f size a :
  st_regular c (with_view s m v) f size a = let '(s1, out, res) := st_regular c s f size a in (with_view s1 m v, out, res).
Proof.
  unfold st_regular. destruct (trace_id f) as [t|]; [|done].
  cbn [with_view st_set_sessions st_set_stats st_set_flow reliability]. destruct (is_duplicate _ _ _ _ _) as [r dup].
  unfold sign_control_frame. cbn [st_set_reliability st_set_flow st_set_stats st_set_sessions st_keypair st_node_id st_send_buffer].
  unfold st_node_id. cbn [st_set_reliability st_set_flow st_set_stats st_set_sessions st_keypair].
  by destruct (encode _ _) as [[]| |].
Qed.
Lemma st_dispatch_view c s m v f size a :
  st_dispatch c (with_view s m v) f size a = let '(s1, out, res) := st_dispatch c s f size a in (with_view s1 m v, out, res).
Proof.
  unfold st_dispatch. destruct (frame_type (header f)); try apply st_regular_view.
  - cbn [with_view st_set_sessions st_set_stats flow]. by destruct (process_flow_frame _ _ _ _) as [? []].
  - by destruct (AckPayload_decode _) as [[]| |].
  - destruct (NackPayload_decode _) as [[n|]| |]; [|done..]. cbn [with_view st_set_sessions st_set_stats reliability].
    by destruct (process_nack _ _ _ _).
Qed.

(** Neither the configuration nor the sessions. *)
Lemma st_dispatch_fixed c s f size a :
  st_config (st_dispatch c s f size a).1.1 = st_config s ∧ sessions (st_dispatch c s f size a).1.1 = sessions s.
Proof.
  assert (Hr : st_config (st_regular c s f size a).1.1 = st_config s ∧ sessions (st_regular c s f size a).1.1 = sessions s).
  { unfold st_regular. destruct (trace_id f) as [t|]; [|done]. destruct (is_duplicate _ _ _ _ _) as [r dup]. by destruct (encode _ _) as [[]| |]. }
  unfold st_dispatch. destruct (frame_type (header f)); try exact Hr.
  - by destruct (process_flow_frame _ _ _ _) as [? []].
  - by destruct (AckPayload_decode _) as [[]| |].
  - destruct (NackPayload_decode _) as [[n|]| |]; [|done..]. by destruct (process_nack _ _ _ _).
Qed.

(** [verify_token] on the live sessions. *)
Lemma verify_token_live now m p t :
  (verify_token now m p t).2 = (match get_session now m p with Some i => bool_decide (si_token i = t) | None => false end) ∧
  SessionManager_cleanup_expired now (verify_token now m p t).1 =
    mkSessionManager (match get_session now m p with
      | Some i => if bool_decide (si_token i = t) then
          <[p := mkSessionInfo (si_token i) (si_peer_id i) (si_created_at i) (si_expires_at i) (frame_count i + 1)]> (sm_sessions (SessionManager_cleanup_expired now m))
          else sm_sessions (SessionManager_cleanup_expired now m)
      | None => sm_sessions (SessionManager_cleanup_expired now m) end).
Proof.
  unfold verify_token, get_session. destruct (sm_sessions m !! p) as [i|] eqn:Ep; [|done].
  destruct (SessionInfo_is_expired now i) eqn:Ee.
  - split; [done|]. unfold SessionManager_cleanup_expired. cbn. f_equal. apply map_eq. intros q. apply option_eq. intros j.
    rewrite !map_lookup_filter_Some, lookup_delete_Some. cbn. naive_solver congruence.
  - case_bool_decide; [|done]. split; [done|]. unfold SessionManager_cleanup_expired. cbn. f_equal. by rewrite map_filter_insert_True.
Qed.
Lemma verify_token_same now m m' p t : SessionManager_cleanup_expired now m = SessionManager_cleanup_expired now m' →
  (verify_token now m p t).2 = (verify_token now m' p t).2 ∧
  SessionManager_cleanup_expired now (verify_token now m p t).1 = SessionManager_cleanup_expired now (verify_token now m' p t).1.
Proof.
  intros E. destruct (verify_token_live now m p t) as [-> ->], (verify_token_live now m' p t) as [-> ->]. by rewrite !get_session_cleanup, E.
Qed.
Lemma verify_token_refused now m p t : (verify_token now m p t).2 = false →
  SessionManager_cleanup_expired now (verify_token now m p t).1 = SessionManager_cleanup_expired now m.
Proof.
  destruct (verify_token_live now m p t) as [-> ->]. by destruct (get_session now m p) as [i|]; [case_bool_decide|].
Qed.

Lemma verify_frame_same wall s s' f : same_but wall s s' →
  (verify_frame wall s' f).2 = (verify_frame wall s f).2 ∧ same_but wall (verify_frame wall s f).1 (verify_frame wall s' f).1.
Proof.
  intros (m & v & -> & E). unfold verify_frame. cbn [with_view st_set_sessions st_set_stats st_config].
  assert (Hs : same_but wall s (with_view s m v)) by (by exists m, v).
  destruct (negb _); [done|]. destruct (trust_level (header f)).
  1-2: destruct (FrameVerifier_verify f) as [[]| |]; try done; split; [done|by exists m, (u64_add v 1)].
  - destruct (auth f) as [|t|]; [done| |done]. change (sessions (with_view s m v)) with m.
    destruct (verify_token_same wall m (sessions s) (sender_id (header f)) t E) as [E1 E2].
    destruct (verify_token wall m _ _) as [m1 b1], (verify_token wall (sessions s) _ _) as [m2 b2]. cbn [fst snd] in *. subst b1.
    destruct b2; (split; [done|]); [exists m1, v|exists m1, (u64_add v 1)]; done.
  - done.
Qed.

Lemma verify_frame_refused wall s f : verify_signatures (st_config s) = true → auth_matches (trust_level (header f)) (auth f) = true →
  (verify_frame wall s f).2 = authentic wall (sessions s) f ∧ (authentic wall (sessions s) f = false → same_but wall s (verify_frame wall s f).1).
Proof.
  intros Hv Ha. unfold verify_frame, authentic. rewrite Hv. cbn [negb]. unfold FrameVerifier_verify.
  destruct (trust_level (header f)), (auth f) as [sg|t|]; try done.
  1-2: destruct (NodeId_verify _ _ _); (split; [done|]); intros; [done|]; exists (sessions s), (u64_add (verification_failures (st_stats s)) 1); by destruct s as [? ? ? ? ? ? ? []].
  pose proof (verify_token_live wall (sessions s) (sender_id (header f)) t) as [E _]. pose proof (verify_token_refused wall (sessions s) (sender_id (header f)) t) as Hr.
  unfold get_token. destruct (verify_token wall (sessions s) _ _) as [m ok]. cbn [fst snd] in *.
  assert (Eok : ok = match si_token <$> get_session wall (sessions s) (sender_id (header f)) with Some t' => bool_decide (t' = t) | None => false end)
    by (rewrite E; by destruct (get_session _ _ _)).
  rewrite <- Eok. destruct ok; (split; [done|]); intros; [done|]. exists m, (u64_add (verification_failures (st_stats s)) 1).
  split; [by destruct s as [? ? ? ? ? ? ? []]|by apply Hr].
Qed.

(** ** One turn *)

Lemma received_bytes_ok s data : bytes_ok data → bytes_ok (received_bytes s data).
Proof. apply Forall_take. Qed.

Lemma st_datagram_refused c s data a : verify_signatures (st_config s) = true → bytes_ok data → admits s c data = false →
  ∃ s' res, st_datagram c s data a = (s', [], res) ∧ same_but (rd_wall c) s s' ∧ (res = RContinue ∨ ∃ e, res = RError e).
Proof.
  intros Hv Hb. unfold admits, st_datagram. pose proof (decode_no_panic _ (received_bytes_ok s data Hb)) as Hp.
  destruct (decode (received_bytes s data)) as [d|e|] eqn:Ed; [| |done].
  - rewrite clears_floor. intros Hr. pose proof (same_but_refl (rd_wall c) s) as Hs. destruct (below_floor s (to_frame d)).
    + do 2 eexists. split; [done|]. split; [|by left]. exists (sessions s), (u64_add (verification_failures (st_stats s)) 1).
      by destruct s as [? ? ? ? ? ? ? []].
    + cbn [negb andb] in Hr. apply decode_inv in Ed as [He _]; [|by apply received_bytes_ok].
      destruct (verify_frame_refused (rd_wall c) s (to_frame d) Hv (enc_auth _ He)) as [E1 E2]. rewrite Hr in E1, E2.
      destruct (verify_frame _ _ _) as [s1 ok]. cbn [fst snd] in *. subst ok. do 2 eexists. split; [done|]. split; [by apply E2|by left].
  - intros _. do 2 eexists. split; [done|]. split; [apply same_but_refl|right; by eexists].
Qed.

Lemma st_datagram_same c s s' data a : same_but (rd_wall c) s s' →
  (st_datagram c s' data a).1.2 = (st_datagram c s data a).1.2 ∧ (st_datagram c s' data a).2 = (st_datagram c s data a).2 ∧
  same_but (rd_wall c) (st_datagram c s data a).1.1 (st_datagram c s' data a).1.1.
Proof.
  intros Hs. unfold st_datagram. assert (E : received_bytes s' data = received_bytes s data) by (by destruct Hs as (m & v & -> & _)).
  rewrite E. destruct (decode _) as [d|e|]; [|done..].
  assert (Ef : below_floor s' (to_frame d) = below_floor s (to_frame d)) by (by destruct Hs as (m & v & -> & _)). rewrite Ef.
  destruct (below_floor s (to_frame d)).
  { split_and!; [done..|]. destruct Hs as (m & v & -> & Em). by exists m, (u64_add v 1). }
  destruct (verify_frame_same (rd_wall c) s s' (to_frame d) Hs) as [E1 E2].
  destruct (verify_frame _ s' _) as [s1' ok'], (verify_frame _ s _) as [s1 ok]. cbn [fst snd] in *. subst ok'. destruct ok; cbn [negb]; [|done].
  destruct E2 as (m & v & -> & Em). rewrite st_dispatch_view.
  destruct (st_dispatch c s1 (to_frame d) _ a) as [[s2 out] res] eqn:Es2. cbn [fst snd]. split_and!; [done..|]. exists m, v. split; [done|].
  rewrite Em. f_equal. symmetry. replace s2 with (st_dispatch c s1 (to_frame d) (len (received_bytes s data)) a).1.1 by (by rewrite Es2).
  apply st_dispatch_fixed.
Qed.

Lemma verify_frame_config wall s f : st_config (verify_frame wall s f).1 = st_config s.
Proof.
  unfold verify_frame. destruct (negb _); [done|]. destruct (trust_level (header f)); [..|done].
  1-2: by destruct (FrameVerifier_verify f) as [[]| |].
  destruct (auth f); [done| |done]. by destruct (verify_token _ _ _ _) as [? []].
Qed.
Lemma st_datagram_config c s data a : st_config (st_datagram c s data a).1.1 = st_config s.
Proof.
  unfold st_datagram. destruct (decode _) as [d|e|]; [|done..]. destruct (below_floor _ _); [done|].
  pose proof (verify_frame_config (rd_wall c) s (to_frame d)) as E. destruct (verify_frame _ _ _) as [s1 []]; cbn [negb fst] in *; [|done].
  rewrite <- E. apply st_dispatch_fixed.
Qed.
Lemma st_retransmit_fixed now s :
  st_config (st_retransmit now s).1 = st_config s ∧ sessions (st_retransmit now s).1 = sessions s ∧ st_bound (st_retransmit now s).1 = st_bound s.
Proof. unfold st_retransmit. destruct (get_retransmit_frames _ _) as [r again]. by destruct s as [? [] ? ? ? ? ? ?]. Qed.
Lemma st_turn_config s t : st_config (st_turn s t).1.1 = st_config s.
Proof.
  destruct t as [c ev]. unfold st_turn. destruct (st_retransmit_fixed (rd_now c) s) as (E & _ & _).
  destruct (st_retransmit _ _) as [s1 sends]. cbn [fst] in E. destruct (negb _); [done|]. destruct ev as [data a|msg|]; [|done..].
  pose proof (st_datagram_config c s1 data a) as E2. destruct (st_datagram _ _ _ _) as [[s2 out] res]. cbn in *. congruence.
Qed.

Lemma st_turn_same s s' c ev : same_but (rd_wall c) s s' →
  (st_turn s' (c, ev)).1.2 = (st_turn s (c, ev)).1.2 ∧ (st_turn s' (c, ev)).2 = (st_turn s (c, ev)).2 ∧
  same_but (rd_wall c) (st_turn s (c, ev)).1.1 (st_turn s' (c, ev)).1.1.
Proof.
  intros (m & v & -> & E). unfold st_turn. rewrite st_retransmit_view. destruct (st_retransmit_fixed (rd_now c) s) as (_ & Es & _).
  destruct (st_retransmit (rd_now c) s) as [s1 sends]. cbn [fst snd] in *.
  assert (Hs : same_but (rd_wall c) s1 (with_view s1 m v)) by (exists m, v; by rewrite Es).
  change (st_bound (with_view s1 m v)) with (st_bound s1). destruct (negb _); [done|]. destruct ev as [data a|msg|]; [|done..].
  destruct (st_datagram_same c s1 _ data a Hs) as (E1 & E2 & E3).
  destruct (st_datagram c (with_view s1 m v) data a) as [[s2' out'] res'], (st_datagram c s1 data a) as [[s2 out] res].
  cbn [fst snd] in *. by subst.
Qed.

(** A datagram that is not admitted acts as if nothing had come. *)
Lemma st_turn_refused s c data a : verify_signatures (st_config s) = true → bytes_ok data → admits s c data = false →
  let '(s1, out, res) := st_turn s (c, SDatagram data a) in let '(s2, out2, res2) := st_turn s (c, STimeout) in
  out = out2 ∧ same_but (rd_wall c) s2 s1 ∧ (∀ f x, res ≠ RReturn f x) ∧ (∀ f x, res2 ≠ RReturn f x).
Proof.
  intros Hv Hb Hr. unfold st_turn. destruct (st_retransmit_fixed (rd_now c) s) as (E1 & E2 & E3).
  destruct (st_retransmit _ _) as [s0 sends]. cbn [fst] in *.
  destruct (negb _); [split_and!; [done|apply same_but_refl|done..]|].
  destruct (st_datagram_refused c s0 data a) as (s' & res & -> & Hs & Hres); [by rewrite E1|done| |].
  - unfold admits, received_bytes, below_floor in *. by rewrite E1, E2.
  - split_and!; [by rewrite app_nil_r|done| |done]. by destruct Hres as [-> | [? ->]].
Qed.

Definition turn_ok (t : readings * socket_event) : Prop := match t.2 with SDatagram data _ => bytes_ok data | _ => True end.

Lemma same_but_trans w a b c : same_but w a b → same_but w b c → same_but w a c.
Proof. intros (m & v & -> & E) (m' & v' & -> & E'). exists m', v'. by rewrite E'. Qed.

Lemma receive_only_admitted turns w s s' w' : same_but w s s' → verify_signatures (st_config s) = true → Forall turn_ok turns →
  Sorted Z.le (w :: map (λ t, rd_wall t.1) turns) → w ≤ w' → Forall (λ t, rd_wall t.1 ≤ w') turns →
  let '(s1, fs1, out1) := receive_all everything s' turns in let '(s2, fs2, out2) := receive_all only_admitted s turns in
  fs1 = fs2 ∧ out1 = out2 ∧ same_but w' s2 s1.
Proof.
  revert w s s'. induction turns as [|[c ev] turns IH]; intros w s s' Hs Hv Hok Hsort Hw Hall; cbn [receive_all map fst] in *.
  { split_and!; [done..|]. by apply (same_but_later w). }
  apply Forall_cons in Hok as [Hev Hok]. apply Forall_cons in Hall as [Hc Hall]. apply Sorted_inv in Hsort as [Hsort Hle].
  apply HdRel_inv in Hle. apply (same_but_later _ (rd_wall c)) in Hs; [|done]. unfold everything at 1.
  assert (Hstep : (st_turn s' (c, ev)).1.2 = (st_turn s (c, only_admitted s c ev)).1.2 ∧
    ((st_turn s' (c, ev)).2 = (st_turn s (c, only_admitted s c ev)).2 ∨
     (∀ f x, (st_turn s' (c, ev)).2 ≠ RReturn f x) ∧ ∀ f x, (st_turn s (c, only_admitted s c ev)).2 ≠ RReturn f x) ∧
    same_but (rd_wall c) (st_turn s (c, only_admitted s c ev)).1.1 (st_turn s' (c, ev)).1.1).
  { destruct (st_turn_same s s' c ev Hs) as (E1 & E2 & E3).
    destruct ev as [data a|msg|]; cbn [only_admitted]; [|split_and!; [done|by left|done]..].
    destruct (admits s c data) eqn:Ea; [split_and!; [done|by left|done]|].
    pose proof (st_turn_refused s c data a Hv Hev Ea) as Hr. rewrite E1, E2.
    destruct (st_turn s (c, SDatagram data a)) as [[s1 out] res], (st_turn s (c, STimeout)) as [[s2 out2] res2]. destruct Hr as (-> & Hr1 & Hr2).
    cbn [fst snd] in *. split_and!; [done..|by right|]. by eapply same_but_trans. }
  destruct Hstep as (Eout & Hres & Hst). pose proof (st_turn_config s (c, only_admitted s c ev)) as Ec.
  destruct (st_turn s' (c, ev)) as [[s1' o1] r1], (st_turn s (c, only_admitted s c ev)) as [[s1 o2] r2]. cbn [fst snd] in *. subst.
  specialize (IH (rd_wall c) s1 s1' Hst). destruct (receive_all everything s1' turns) as [[sa fsa] oa], (receive_all only_admitted s1 turns) as [[sb fsb] ob].
  destruct IH as (-> & -> & IH); [by rewrite Ec|done..|]. split_and!; [|done..].
  destruct Hres as [->|[H1 H2]]; [done|]. destruct r1, r2; try done; naive_solver.
Qed.

(** ** What the caller is given *)

(** The sessions of a run are among those at its start, with their tokens and expiry. *)
Definition sessions_within (m m0 : SessionManager) : Prop :=
  ∀ p i, sm_sessions m !! p = Some i → ∃ j, sm_sessions m0 !! p = Some j ∧ si_token i = si_token j ∧ si_expires_at i = si_expires_at j.
Lemma sessions_within_trans m m1 m2 : sessions_within m m1 → sessions_within m1 m2 → sessions_within m m2.
Proof. intros H1 H2 p i (j & Hj & -> & ->)%H1. by apply H2. Qed.
Lemma verify_frame_within wall s f : sessions_within (sessions (verify_frame wall s f).1) (sessions s).
Proof.
  assert (Hr : sessions_within (sessions s) (sessions s)) by (intros p i Hi; by exists i).
  unfold verify_frame. destruct (negb _); [done|]. destruct (trust_level (header f)); [..|done].
  1-2: by destruct (FrameVerifier_verify f) as [[]| |].
  destruct (auth f) as [|t|]; [done| |done]. unfold verify_token. destruct (sm_sessions (sessions s) !! _) as [i|] eqn:Ei; [|done].
  destruct (SessionInfo_is_expired _ _); [|case_bool_decide; [|done]]; intros p j Hj; cbn in Hj.
  - apply lookup_delete_Some in Hj as [_ Hj]. by exists j.
  - apply lookup_insert_Some in Hj as [[<- <-]|[_ Hj]]; [by exists i|by exists j].
Qed.
Lemma authentic_within wall m m0 f : sessions_within m m0 → authentic wall m f = true → authentic wall m0 f = true.
Proof.
  intros Hm. unfold authentic. destruct (trust_level (header f)), (auth f) as [|t|]; try done. unfold get_token, get_session.
  destruct (sm_sessions m !! _) as [i|] eqn:Ei; [|done]. destruct (Hm _ _ Ei) as (j & -> & Et & Ee). unfold SessionInfo_is_expired.
  rewrite Ee. destruct (_ <? wall); [done|]. cbn. by rewrite Et.
Qed.

Definition is_transport_control (f : Frame) : bool := match frame_type (header f) with FAck | FNack | FFlow => true | _ => false end.
Lemma st_dispatch_returns c s f size a g x : (st_dispatch c s f size a).2 = RReturn g x → g = f ∧ x = a ∧ is_transport_control f = false.
Proof.
  assert (Hr : (st_regular c s f size a).2 = RReturn g x → g = f ∧ x = a).
  { unfold st_regular. destruct (trace_id f) as [t|]; [|by intros [= -> ->]]. destruct (is_duplicate _ _ _ _ _) as [r []];
      destruct (encode _ _) as [[]| |]; try done; by intros [= -> ->]. }
  unfold st_dispatch, is_transport_control. destruct (frame_type (header f)); try (intros Hx; by destruct (Hr Hx)).
  - by destruct (process_flow_frame _ _ _ _) as [? []].
  - by destruct (AckPayload_decode _) as [[]| |].
  - destruct (NackPayload_decode _) as [[n|]| |]; [|done..]. by destruct (process_nack _ _ _ _).
Qed.

Lemma st_turn_within s t : sessions_within (sessions (st_turn s t).1.1) (sessions s).
Proof.
  destruct t as [c ev]. unfold st_turn. destruct (st_retransmit_fixed (rd_now c) s) as (_ & E & _). destruct (st_retransmit _ _) as [s1 sends].
  cbn [fst] in E. rewrite <- E. assert (Hr : sessions_within (sessions s1) (sessions s1)) by (intros p i Hi; by exists i).
  destruct (negb _); [done|]. destruct ev as [data a|msg|]; [|done..]. unfold st_datagram. destruct (decode _) as [d|e|]; [|done..].
  destruct (below_floor _ _); [done|]. pose proof (verify_frame_within (rd_wall c) s1 (to_frame d)) as Hw.
  destruct (verify_frame _ _ _) as [s2 []]; cbn [negb fst] in *; [|done].
  destruct (st_dispatch_fixed c s2 (to_frame d) (len (received_bytes s1 data)) a) as [_ E2].
  destruct (st_dispatch _ _ _ _ _) as [[s3 out] res]. cbn in *. by rewrite E2.
Qed.

Lemma st_turn_returns s c ev f x : verify_signatures (st_config s) = true → turn_ok (c, ev) → (st_turn s (c, ev)).2 = RReturn f x →
  ∃ data, ev = SDatagram data x ∧ admits s c data = true ∧ decode (received_bytes s data) = Ok (of_frame f) ∧ is_transport_control f = false.
Proof.
  intros Hv Hok. unfold st_turn. destruct (st_retransmit_fixed (rd_now c) s) as (Ec & Es & _). destruct (st_retransmit _ _) as [s1 sends].
  cbn [fst] in *. destruct (negb _); [done|]. destruct ev as [data a|msg|]; [|done..]. unfold st_datagram.
  replace (received_bytes s1 data) with (received_bytes s data) by (unfold received_bytes; by rewrite Ec).
  destruct (decode _) as [d|e|] eqn:Ed; [|done..]. apply decode_inv in Ed as Hd; [|by apply received_bytes_ok]. destruct Hd as [He _].
  destruct (below_floor s1 (to_frame d)) eqn:Ef; [done|].
  destruct (verify_frame_refused (rd_wall c) s1 (to_frame d)) as [E1 _]; [by rewrite Ec|apply He|]. rewrite Es in E1.
  destruct (verify_frame _ _ _) as [s2 []]; cbn [negb snd] in *; [|done]. intros Hr.
  destruct (st_dispatch c s2 (to_frame d) (len (received_bytes s data)) a) as [[s3 out] res] eqn:Eq. cbn [snd] in Hr. subst res.
  destruct (st_dispatch_returns c s2 (to_frame d) (len (received_bytes s data)) a f x) as (-> & -> & Hc); [by rewrite Eq|].
  exists data. split; [done|]. unfold admits. rewrite Ed, <- E1, clears_floor. unfold below_floor in *. rewrite Ec in Ef. rewrite Ef. split_and!; [done|by destruct d|done].
Qed.

Lemma receive_all_given turns s : verify_signatures (st_config s) = true → Forall turn_ok turns →
  ∀ f a, (f, a) ∈ (receive_all everything s turns).1.2 →
    ∃ c data, (c, SDatagram data a) ∈ turns ∧ admits s c data = true ∧ decode (received_bytes s data) = Ok (of_frame f) ∧ is_transport_control f = false.
Proof.
  revert s. induction turns as [|[c ev] turns IH]; intros s Hv Hok f a; cbn [receive_all]; [by intros ?%elem_of_nil|].
  apply Forall_cons in Hok as [Hev Hok]. unfold everything at 1. pose proof (st_turn_config s (c, ev)) as Ec. pose proof (st_turn_within s (c, ev)) as Hw.
  pose proof (st_turn_returns s c ev) as Hret. destruct (st_turn s (c, ev)) as [[s1 out] res]. cbn [fst snd] in *.
  specialize (IH s1). destruct (receive_all everything s1 turns) as [[s2 fs] out2]. cbn [fst snd] in *. intros Hin.
  assert (Hcases : res = RReturn f a ∨ (f, a) ∈ fs) by (destruct res; set_solver). destruct Hcases as [Hr|Hr].
  - destruct (Hret f a Hv Hev Hr) as (data & -> & Ha). exists c, data. split; [by left|done].
  - destruct (IH ltac:(by rewrite Ec) Hok f a Hr) as (c' & data & Ht & Ha & Hd & Hc). exists c', data.
    unfold received_bytes in *. rewrite Ec in Hd. split_and!; [by right| |done|done].
    revert Ha. unfold admits, received_bytes, below_floor. rewrite Ec. destruct (decode _); [|done..].
    intros [H1 H2]%andb_prop. rewrite H1. cbn [andb]. by eapply authentic_within.
Qed.
End Views.

(** C21: with verification on and a wall clock that does not go back, datagrams below the trust floor or not vouched for by
    their sender's signature or live session token change nothing that matters: a caller that
    keeps receiving is given the same frames, and the same datagrams are sent, as if each of them had
    been a timeout, and the transport ends in the same state but for the count of
    failures and for sessions that have expired anyway.  And every frame it is given came in a datagram from the
    address it is attributed to, decodes from it, was vouched for, and is not a
    control frame. *)
Theorem secure_receive `{Ed25519} s turns w :
  verify_signatures (st_config s) = true → Forall turn_ok turns → Sorted Z.le (map (λ t, rd_wall t.1) turns) →
  Forall (λ t, rd_wall t.1 ≤ w) turns →
  let '(s1, given, out) := receive_all everything s turns in
  let '(s2, given', out') := receive_all only_admitted s turns in
  given = given' ∧ out = out' ∧ same_but w s2 s1 ∧
  ∀ f a, (f, a) ∈ given → ∃ c data, (c, SDatagram data a) ∈ turns ∧ admits s c data = true ∧
    decode (received_bytes s data) = Ok (of_frame f) ∧ is_transport_control f = false.
Proof.
  intros Hv Hok Hsort Hw. set (w0 := match turns with [] => w | t :: _ => rd_wall t.1 end).
  assert (Hs : Sorted Z.le (w0 :: map (λ t, rd_wall t.1) turns)).
  { constructor; [done|]. destruct turns as [|t turns]; [constructor|]. constructor. by unfold w0. }
  assert (Hw0 : w0 ≤ w) by (unfold w0; destruct turns; [done|by apply Forall_cons in Hw as [? _]]).
  pose proof (receive_only_admitted turns w0 s s w (same_but_refl w0 s) Hv Hok Hs Hw0 Hw) as H1.
  pose proof (receive_all_given turns s Hv Hok) as H2.
  destruct (receive_all everything s turns) as [[s1 fs1] out1], (receive_all only_admitted s turns) as [[s2 fs2] out2].
  cbn [fst snd] in H2. by destruct H1 as (-> & -> & H1).
Qed.

(** ** A delivery *)

Section Delivery.
Context `{Ed25519}.

Lemma reseal_encodable f id t a : encodable f → array_ok 32 id → auth_ok a → auth_matches t a = true →
  encodable (set_auth (set_header f (set_sender (with_trust_level (header f) t) id)) a).
Proof.
  intros [[Hh ? ? ? ? ? ? ? ?] ? ? ? ? ? ? ? ? ?] Hid Ha Hm. split; try done. split; try done. unfold header_ok in *. cbn. tauto.
Qed.

(** The frame [send] puts on the wire. *)
Definition sealed (s : SecureTransport) (f : Frame) : Frame :=
  (FrameSigner_sign (st_keypair s) (set_header f (set_sender (header f) (st_node_id s)))).1.
Definition signing_level (f : Frame) : Prop := trust_level (header f) = Full ∨ trust_level (header f) = Sig.

Lemma sealed_eq s f : signing_level f → ∃ sg, array_ok 64 sg ∧ sealed s f = set_auth (set_header f (set_sender (header f) (st_node_id s))) (AuthSignature sg) ∧
  sign_outgoing s f = Ok (sealed s f).
Proof.
  intros Hl. exists (Keypair_sign (st_keypair s) (signature_data (set_header f (set_sender (header f) (st_node_id s))))). split; [apply ed_sign_ok|].
  unfold sealed, sign_outgoing, FrameSigner_sign. cbn [header set_header set_sender trust_level]. by destruct Hl as [-> | ->].
Qed.
Lemma sealed_encodable s f : signing_level f → encodable f → encodable (sealed s f).
Proof.
  intros Hl He. destruct (sealed_eq s f Hl) as (sg & Hsg & -> & _).
  replace (header f) with (with_trust_level (header f) (trust_level (header f))) at 1 by (by destruct (header f)).
  apply reseal_encodable; [done|apply ed_public_ok|done|]. by destruct Hl as [-> | ->].
Qed.
Lemma sealed_verifies s f : keypair_ok (st_keypair s) → signing_level f → encodable f → FrameVerifier_verify (sealed s f) = Ok true.
Proof.
  intros Hk Hl He. set (f' := set_header f (set_sender (header f) (st_node_id s))).
  assert (Hw : writable f').
  { destruct (sealed_eq s f Hl) as (sg & Hsg & E & _). pose proof (encodable_writable _ (sealed_encodable s f Hl He)) as Hw. rewrite E in Hw.
    replace f' with (set_auth (set_auth f' (AuthSignature sg)) (auth f)) by (by destruct f). apply writable_auth; [done|]. apply He. }
  pose proof (sign_verifies (st_keypair s) (signature_data f') Hk) as Hv.
  assert (E : FrameSigner_sign (st_keypair s) f' = (set_auth f' (AuthSignature (Keypair_sign (st_keypair s) (signature_data f'))), Ok tt)).
  { unfold FrameSigner_sign. by destruct Hl as [Hl|Hl]; cbn; rewrite Hl. }
  unfold sealed. fold f'. rewrite E. cbn [fst]. unfold FrameVerifier_verify. cbn [set_auth header auth].
  rewrite signature_data_auth by (done || apply ed_sign_ok). unfold NodeId_verify. cbn [f' set_header header set_sender sender_id trust_level].
  unfold st_node_id, Keypair_node_id. rewrite Hv. by destruct Hl as [-> | ->].
Qed.

(** A frame that was signed comes through the checks of a receiver. *)
Lemma st_datagram_verified c s f a : encodable f → signing_level f → FrameVerifier_verify f = Ok true → below_floor s f = false →
  wire_size f ≤ recv_buffer_size (sc_transport (st_config s)) → st_datagram c s (wire f) a = st_dispatch c s f (wire_size f) a.
Proof.
  intros He Hl Hv Hf Hn. pose proof (len_wire f (encodable_writable f He)) as El. unfold st_datagram, received_bytes.
  rewrite take_ge by (unfold len in El; lia). rewrite decode_wire by done. replace (to_frame (of_frame f)) with f by (by destruct f). rewrite Hf, El.
  assert (E : verify_frame (rd_wall c) s f = (s, true)); [|by rewrite E].
  unfold verify_frame. destruct (negb _); [done|]. rewrite Hv. by destruct Hl as [-> | ->].
Qed.

Definition signed_ack (s : SecureTransport) (t : TraceId) : Frame := sign_control_frame s (create_ack_frame (reliability s) t).
Lemma signed_ack_facts s t : keypair_ok (st_keypair s) → rm_node_id (reliability s) = st_node_id s → array_ok 8 t →
  let a := signed_ack s t in encodable a ∧ FrameVerifier_verify a = Ok true ∧ wire_size a = 140 ∧
    frame_type (header a) = FAck ∧ payload a = AckPayload_encode (AckPayload_new t) ∧ trust_level (header a) = Sig.
Proof.
  intros Hk Hid Ht. pose proof (create_ack_frame_encodable (reliability s) t ltac:(rewrite Hid; apply ed_public_ok) Ht) as He.
  set (f := create_ack_frame (reliability s) t) in *. set (f' := set_auth (set_header f (with_trust_level (header f) Sig)) (AuthSignature (replicate 64 0))).
  assert (He' : encodable f').
  { pose proof (reseal_encodable f (sender_id (header f)) Sig (AuthSignature (replicate 64 0)) He) as Hr.
    apply Hr; [cbn; rewrite Hid; apply ed_public_ok|apply array_ok_replicate; lia|done]. }
  assert (E : signed_ack s t = sealed s f').
  { unfold signed_ack, sign_control_frame, sealed, FrameSigner_sign. fold f.
    cbn [f' set_auth set_header header with_trust_level set_sender trust_level fst]. do 3 f_equal.
    unfold st_node_id. rewrite <- (signature_data_auth (set_header f (set_sender (with_trust_level (header f) Sig) (Keypair_node_id (st_keypair s)))) (AuthSignature (replicate 64 0))); [done| |].
    - replace (set_header _ _) with (set_auth (set_auth (set_header f (set_sender (with_trust_level (header f) Sig) (Keypair_node_id (st_keypair s)))) (AuthSignature (replicate 64 0))) AuthNone) by done.
      apply writable_auth; [|done]. apply encodable_writable. apply reseal_encodable; [done|apply ed_public_ok|apply array_ok_replicate; lia|done].
    - apply array_ok_replicate; lia. }
  cbn zeta. rewrite E. split_and!; [apply sealed_encodable; [by right|done]|apply sealed_verifies; [done|by right|done]|..|done|done|done].
  unfold wire_size. change (payload (sealed s f')) with (AckPayload_encode (AckPayload_new t)). by rewrite len_ack.
Qed.
End Delivery.

(** A delivery over the secure transport.  A frame sent at a signing level while flow control and the pending
    table have room goes out signed in the sender's name and is recorded.  A
    receiver whose floor it clears answers with one signed acknowledgement and gives its caller exactly that
    frame, or nothing when it has seen the pair of source and trace identifier before.  And that
    acknowledgement, arriving at the sender in any later state, removes the entry it names when it comes from the
    address the frame was sent to, and changes nothing when it comes from elsewhere. *)
Theorem secure_exchange `{Ed25519} now tx f t dest :
  keypair_ok (st_keypair tx) → st_bound tx = true → signing_level f → encodable f → trace_id f = Some t → is_transport_control f = false →
  wire_size f ≤ len (st_send_buffer tx) → (flow_can_send now (flow tx) dest (wire_size f mod 2 ^ 32)).2 = true →
  pending_count tx < max_pending (config (reliability tx)) →
  let g := sealed tx f in
  sender_id (header g) = st_node_id tx ∧ payload g = payload f ∧ trace_id g = Some t ∧
  ∃ tx1, st_send now None tx f dest = (tx1, [(wire g, dest)], Ok tt) ∧
    pending (reliability tx1) !! t = Some (mkPending (wire g) g dest now 1 (initial_rto_ms (config (reliability tx)))) ∧
    ∀ rx s c, keypair_ok (st_keypair rx) → rm_node_id (reliability rx) = st_node_id rx → below_floor rx g = false →
      wire_size f ≤ recv_buffer_size (sc_transport (st_config rx)) → 140 ≤ len (st_send_buffer rx) →
      ∃ rx1 ack,
        st_datagram c rx (wire g) s
        = (rx1, [(ack, s)], if (is_duplicate (rd_now c) (rd_sweep c) (reliability rx) s t).2 then RContinue else RReturn g s) ∧
        ∀ tx2 p from c', pending (reliability tx2) !! t = Some p → default_trust_level (st_config tx2) ≠ Full →
          140 ≤ recv_buffer_size (sc_transport (st_config tx2)) →
          st_datagram c' tx2 ack from
          = (st_set_reliability tx2
               (if decide (from = pf_dest p) then set_pending (reliability tx2) (delete t (pending (reliability tx2))) else reliability tx2),
             [], RContinue).
Proof.
  intros Hk Hb Hl He Ht Hc Hbuf Hroom Hp. cbn zeta. destruct (sealed_eq tx f Hl) as (sg & Hsg & E & Eout).
  pose proof (sealed_encodable tx f Hl He) as Hg. pose proof (sealed_verifies tx f Hk Hl He) as Hv.
  assert (Esz : wire_size (sealed tx f) = wire_size f).
  { rewrite E. unfold wire_size. cbn [set_auth set_header trace_id routing fragment_info payload auth Authentication_wire_size].
    pose proof (enc_auth f He) as Ha. destruct Hl as [Hl|Hl]; rewrite Hl in Ha; by destruct (auth f). }
  assert (Htg : trace_id (sealed tx f) = Some t) by (by rewrite E).
  assert (Hcg : is_transport_control (sealed tx f) = false) by (by rewrite E).
  assert (Hlg : signing_level (sealed tx f)) by (rewrite E; exact Hl).
  assert (Ht8 : array_ok 8 t) by (pose proof (ok_trace f (enc_ok f He)) as Hto; by rewrite Ht in Hto).
  split; [by rewrite E|]. split; [by rewrite E|]. split; [done|].
  unfold st_send. destruct (flow_can_send now (flow tx) dest _) as [m room]. cbn [snd] in Hroom. subst room. cbn [negb].
  change (sign_outgoing (st_set_flow tx m) f) with (sign_outgoing tx f). rewrite Eout.
  rewrite encode_writes_wire by (by rewrite ?Esz; try apply encodable_writable). change (st_bound _) with (st_bound tx) at 1. rewrite Hb. cbn [negb].
  replace (take _ _) with (wire (sealed tx f)).
  2: { pose proof (len_wire _ (encodable_writable _ Hg)) as El. symmetry. apply take_app_exact. unfold len in *. lia. }
  unfold track_frame. cbn [st_set_flow st_set_stats st_set_buffer reliability]. rewrite Htg.
  unfold pending_count in Hp. rewrite (proj2 (Z.leb_gt _ _)) by done. eexists. split; [done|]. split; [cbn; by rewrite lookup_insert_eq|].
  intros rx s c Hkr Hid Hfl Hrb Hsb. rewrite st_datagram_verified by (done || by rewrite Esz).
  unfold st_dispatch. replace (match frame_type (header (sealed tx f)) with FFlow => _ | _ => _ end) with (st_regular c rx (sealed tx f) (wire_size (sealed tx f)) s)
    by (unfold is_transport_control in Hcg; by destruct (frame_type (header (sealed tx f)))).
  unfold st_regular. rewrite Htg. cbn [st_set_stats st_set_flow reliability]. pose proof (is_duplicate_node (rd_now c) (rd_sweep c) (reliability rx) s t) as Hn.
  destruct (is_duplicate _ _ _ _ _) as [r dup]. cbn [fst snd] in *. set (rx1 := st_set_reliability _ r).
  change (sign_control_frame rx1 (create_ack_frame r t)) with (signed_ack rx1 t).
  destruct (signed_ack_facts rx1 t) as (Ha1 & Ha2 & Ha3 & Ha4 & Ha5 & Ha6); [done|cbn; by rewrite Hn|done|].
  pose proof (len_wire _ (encodable_writable _ Ha1)) as El. rewrite encode_writes_wire by (by apply encodable_writable || (rewrite Ha3; exact Hsb)).
  rewrite take_app_exact by (unfold len in *; lia). do 2 eexists. split; [done|].
  intros tx2 p from c' Hpd Hfull Hrb2. rewrite st_datagram_verified; [|done|by right|done| |by rewrite Ha3].
  2: { unfold below_floor. rewrite Ha6. by destruct (default_trust_level (st_config tx2)). }
  unfold st_dispatch. rewrite Ha4, Ha5, <- (app_nil_r (AckPayload_encode _)), AckPayload_decode_encode; [|exact Ht8|cbn; lia|cbn; lia].
  unfold process_ack. cbn [ack_trace_id AckPayload_new]. rewrite Hpd. case_bool_decide as Hf; cbn [negb].
  - by rewrite decide_True.
  - rewrite decide_False by congruence. done.
Qed.

(** ** Examples *)

#[local] Existing Instance ed_reference.
Definition sample_config : SecureTransportConfig :=
  mkSecureConfig (mkTransportConfig 1400 2048 256 0 0 0 0) ReliabilityConfig_default FlowConfig_default Sig 3600000 true.
Definition sample_secure (k : Z) : SecureTransport := st_set_bound (SecureTransport_new 0 sample_config (mkKeypair (replicate 32 k))) true.
Definition plain_intent : Frame :=
  Frame_with_trace_id (Frame_new (with_trust_level (FrameHeader_new FIntent (replicate 32 5)) Sig) PRaw [1; 2; 3]) (to_be 8 77).
Definition host (n : Z) : SocketAddr := ([10; 0; 0; n], 9000).
Definition at_ms (n : Z) : readings := mkReadings (n * 1000000) (n * 1000000) n.
Definition forged_pause : Frame :=
  mkFrame (with_trust_level (FrameHeader_new FFlow (replicate 32 5)) Sig) None None None (PayloadHeader_new PRaw 25)
    (FlowPayload_encode (flow_with_state (FlowPayload_new IntentHash_zero) FPaused)) (AuthSignature (replicate 64 0)).
Definition sample_secure_turns : list (readings * socket_event) :=
  [(at_ms 10, SDatagram (wire forged_pause) (host 5)); (at_ms 20, SDatagram [1; 2; 3] (host 6));
   (at_ms 30, SDatagram (wire (sealed (sample_secure 5) plain_intent)) (host 5)); (at_ms 40, STimeout)].

Lemma secure_receive_witness :
  (receive_all everything (sample_secure 6) sample_secure_turns).1.2 = (receive_all only_admitted (sample_secure 6) sample_secure_turns).1.2.
Proof.
  assert (Hok : Forall turn_ok sample_secure_turns).
  { do 4 (apply Forall_cons; split; [unfold turn_ok; cbn [snd]; first [exact I|apply (bool_decide_unpack _); vm_compute; exact I]|]).
    apply Forall_nil. exact I. }
  assert (Hs : Sorted Z.le (map (λ t, rd_wall t.1) sample_secure_turns)) by (apply (bool_decide_unpack _); vm_compute; exact I).
  pose proof (secure_receive (sample_secure 6) sample_secure_turns 40 eq_refl Hok Hs ltac:(apply (bool_decide_unpack _); vm_compute; exact I)) as H.
  destruct (receive_all everything _ _) as [[s1 g1] o1], (receive_all only_admitted _ _) as [[s2 g2] o2]. exact (proj1 H).
Defined.

Example sample_given :
  (receive_all everything (sample_secure 6) sample_secure_turns).1.2 = [(sealed (sample_secure 5) plain_intent, host 5)] ∧
  verification_failures (st_stats (receive_all everything (sample_secure 6) sample_secure_turns).1.1) = 1.
Proof. split; vm_compute; reflexivity. Qed.

Lemma plain_intent_encodable : encodable plain_intent.
Proof.
  split; try (vm_compute; split; reflexivity || discriminate); try (vm_compute; done).
  split; vm_compute; repeat split; try done; repeat constructor; done.
Qed.

Lemma secure_exchange_witness :
  ∃ tx1 rx1 ack, let g := sealed (sample_secure 5) plain_intent in
    st_send 0 None (sample_secure 5) plain_intent (host 6) = (tx1, [(wire g, host 6)], Ok tt) ∧
    st_datagram (at_ms 1) (sample_secure 6) (wire g) (host 5) = (rx1, [(ack, host 5)], RReturn g (host 5)) ∧
    pending (reliability (st_datagram (at_ms 2) tx1 ack (host 6)).1.1) !! to_be 8 77 = None.
Proof.
  destruct (secure_exchange 0 (sample_secure 5) plain_intent (to_be 8 77) (host 6)) as (_ & _ & _ & tx1 & E1 & Hp & H);
    [apply array_ok_replicate; lia|reflexivity|by right|exact plain_intent_encodable|reflexivity|reflexivity|vm_compute; discriminate|
     vm_compute; reflexivity|vm_compute; reflexivity|].
  destruct (H (sample_secure 6) (host 5) (at_ms 1)) as (rx1 & ack & E2 & H2);
    [apply array_ok_replicate; lia|reflexivity|vm_compute; reflexivity|vm_compute; discriminate|vm_compute; discriminate|].
  exists tx1, rx1, ack. cbn zeta. split; [exact E1|]. split; [rewrite E2; vm_compute; reflexivity|].
  assert (Ec : st_config tx1 = sample_config).
  { replace tx1 with (st_send 0 None (sample_secure 5) plain_intent (host 6)).1.1 by (rewrite E1; reflexivity). vm_compute. reflexivity. }
  rewrite (H2 tx1 _ (host 6) (at_ms 2) Hp); [|rewrite Ec; discriminate|rewrite Ec; vm_compute; discriminate].
  rewrite decide_True by reflexivity. apply lookup_delete_eq.
Defined.

(** The duplicate memory is kept per source address, and nothing ties a key to an address or a
    frame to a moment: a copy of a signed frame sent from elsewhere is given to the caller again. *)
Example replayed_from_elsewhere :
  let w := wire (sealed (sample_secure 5) plain_intent) in
  map snd (receive_all everything (sample_secure 6) [(at_ms 10, SDatagram w (host 5)); (at_ms 90, SDatagram w (host 9))]).1.2 = [host 5; host 9].
Proof. vm_compute. reflexivity. Qed.

(** A FLOW frame has to be signed, by whatever key; it pauses the address it comes from. *)
Example stranger_pauses_peer :
  let s := (st_turn (sample_secure 6) (at_ms 1, SDatagram (wire (sealed (sample_secure 99) forged_pause)) (host 5))).1.1 in
  (st_send 0 None s plain_intent (host 5)).2 = Err (TE_Io (str "Flow control: send blocked")).
Proof. vm_compute. reflexivity. Qed.

(** Flow frames are themselves subject to flow control: to a peer that has paused this node, no frame
    can go that says this node's own window is open again. *)
Lemma paused_cannot_advertise `{Ed25519} now sent s dest t : peer_flow (flow s) !! dest = Some t → ft_state t = FPaused ∨ ft_state t = FBlocked →
  (send_flow_control now sent s dest).2 = Err (TE_Io (str "Flow control: send blocked")) ∧ (send_flow_control now sent s dest).1.2 = [].
Proof.
  intros Ht Hs. unfold send_flow_control, st_send, flow_can_send, get_peer_flow. rewrite Ht. unfold tracker_can_send. cbn.
  by destruct Hs as [-> | ->].
Qed.

(** One datagram that is no frame, from anybody, ends the caller's wait with an error. *)
Example garbage_ends_recv : (st_recv (sample_secure 6) [(at_ms 1, SDatagram [0] (host 9)); (at_ms 2, STimeout)]).1.2 = Some (RError (TE_Codec (BufferTooSmall 62 1))).
Proof. vm_compute. reflexivity. Qed.
