(* ===== verification/Announce.v ===== *)
(** * Capability announcements (axiom-router/src/announce.rs)

    A node announces its capabilities in a payload signed by the origin; relays
    pass it on inside frames of their own, with a smaller hop count.  The
    manager keeps the newest clock it has seen for every origin and capability.
    [now] is the wall clock in seconds, [t] the instant of the call; [Ed25519]
    is a parameter. *)

From stdpp Require Import base numbers list gmap strings.
From S2P Require Import Prelude Types Codec Text Intent Crypto Router.

Definition MAX_ANNOUNCE_TTL : Z := 16.
Definition MAX_ROUTE_INDIRECTION : Z := 2.
Definition MAX_ACCEPTED_ANNOUNCE_TTL : Z := MAX_ROUTE_INDIRECTION.
Definition MAX_ANNOUNCE_CLOCK_SKEW : Z := 300.
Definition ORIGIN_SIG_DOMAIN : list Z := as_bytes (str "AXIOM/announce-origin/v1").

(** ** Payloads *)

Record AnnouncedCapability := mkAnnounced {
  ac_intent_hash : IntentHash;
  ac_category : list Z;
  ac_load : Z;
  ac_latency_ms : Z
}.
Definition AnnouncedCapability_new (h : IntentHash) (category : list Z) : AnnouncedCapability :=
  mkAnnounced h category 128 0.
Definition with_load (c : AnnouncedCapability) (l : Z) : AnnouncedCapability :=
  mkAnnounced (ac_intent_hash c) (ac_category c) l (ac_latency_ms c).
Definition with_latency (c : AnnouncedCapability) (l : Z) : AnnouncedCapability :=
  mkAnnounced (ac_intent_hash c) (ac_category c) (ac_load c) l.

Definition capability_fields (c : AnnouncedCapability) : list (list Z) :=
  [ac_intent_hash c; ac_category c; [ac_load c]; to_be 2 (ac_latency_ms c)].
Definition AnnouncedCapability_encode (c : AnnouncedCapability) : list Z := concat (capability_fields c).
Definition AnnouncedCapability_decode (data : list Z) : option AnnouncedCapability :=
  if len data <? 23 then None
  else Some (mkAnnounced (at_slice data 0 16) (at_slice data 16 20) (at_byte data 20)
               (from_be (at_slice data 21 23))).

Record AnnouncePayload := mkAnnounce {
  an_ttl : Z;
  an_capabilities : list AnnouncedCapability;
  an_origin : option NodeId;
  an_origin_clock : option HybridClock;
  an_origin_signature : option Signature
}.
Definition AnnouncePayload_new (t : Z) : AnnouncePayload := mkAnnounce t [] None None None.
Definition add_capability (p : AnnouncePayload) (c : AnnouncedCapability) : AnnouncePayload :=
  mkAnnounce (an_ttl p) (an_capabilities p ++ [c]) (an_origin p) (an_origin_clock p) (an_origin_signature p).
Definition with_origin (p : AnnouncePayload) (o : NodeId) (c : HybridClock) : AnnouncePayload :=
  mkAnnounce (an_ttl p) (an_capabilities p) (Some o) (Some c) (an_origin_signature p).
Definition with_origin_signature (p : AnnouncePayload) (s : Signature) : AnnouncePayload :=
  mkAnnounce (an_ttl p) (an_capabilities p) (an_origin p) (an_origin_clock p) (Some s).

(** [capabilities.len() as u16] *)
Definition count_bytes (l : list AnnouncedCapability) : list Z := to_be 2 (len l mod 2 ^ 16).

Definition origin_signing_bytes_for (o : NodeId) (c : HybridClock) (l : list AnnouncedCapability) : list Z :=
  ORIGIN_SIG_DOMAIN ++ o ++ HybridClock_to_bytes c ++ count_bytes l ++ flat_map AnnouncedCapability_encode l.
Definition origin_signing_bytes (p : AnnouncePayload) : option (list Z) :=
  match an_origin p, an_origin_clock p with
  | Some o, Some c => Some (origin_signing_bytes_for o c (an_capabilities p))
  | _, _ => None
  end.

Definition origin_bytes (p : AnnouncePayload) : list Z :=
  match an_origin p, an_origin_clock p with
  | Some o, Some c =>
      o ++ HybridClock_to_bytes c ++ match an_origin_signature p with Some s => s | None => [] end
  | _, _ => []
  end.
Definition AnnouncePayload_encode (p : AnnouncePayload) : list Z :=
  an_ttl p :: count_bytes (an_capabilities p)
  ++ flat_map AnnouncedCapability_encode (an_capabilities p) ++ origin_bytes p.

(** The capabilities in [n] records of 23 bytes; the caller has checked the length. *)
Fixpoint decode_capabilities (data : list Z) (n : nat) : list AnnouncedCapability :=
  match n with
  | O => []
  | S n' =>
      match AnnouncedCapability_decode (take 23 data) with
      | Some c => c :: decode_capabilities (drop 23 data) n'
      | None => decode_capabilities (drop 23 data) n'
      end
  end.

(** The origin claim is recognised by the length of what follows the capabilities. *)
Definition decode_origin (rest : list Z) : option NodeId * option HybridClock * option Signature :=
  if len rest =? NODE_ID_SIZE + CLOCK_SIZE + SIGNATURE_SIZE then
    (Some (at_slice rest 0 32), Some (HybridClock_from_bytes (at_slice rest 32 39)),
     Some (at_slice rest 39 103))
  else if len rest =? NODE_ID_SIZE + CLOCK_SIZE then
    (Some (at_slice rest 0 32), Some (HybridClock_from_bytes (at_slice rest 32 39)), None)
  else (None, None, None).

Definition AnnouncePayload_decode (data : list Z) : option AnnouncePayload :=
  if len data <? 3 then None
  else
    let cap_count := from_be (at_slice data 1 3) in
    let caps_end := 3 + cap_count * 23 in
    if len data <? caps_end then None
    else
      let caps := decode_capabilities (drop 3 data) (Z.to_nat cap_count) in
      let '(o, c, s) := decode_origin (drop (Z.to_nat caps_end) data) in
      Some (mkAnnounce (at_byte data 0) caps o c s).

Definition decrement_ttl (p : AnnouncePayload) : AnnouncePayload * bool :=
  if 0 <? an_ttl p then
    (mkAnnounce (an_ttl p - 1) (an_capabilities p) (an_origin p) (an_origin_clock p)
       (an_origin_signature p), true)
  else (p, false).

(** ** The manager *)

Record SeenAnnouncement := mkSeen { sa_first_seen : Z; sa_clock : HybridClock; sa_count : Z }.

Section Manager.
Context `{Ed25519}.

Record AnnouncementManager := mkAnnouncements {
  am_identity : Keypair;
  am_local_capabilities : list AnnouncedCapability;
  am_seen : gmap (NodeId * IntentHash) SeenAnnouncement;
  am_clock : ClockManager
}.
Definition AnnouncementManager_new (now : HybridClock) (k : Keypair) : AnnouncementManager :=
  mkAnnouncements k [] ∅ (ClockManager_with_clock now).
Definition am_node_id (m : AnnouncementManager) : NodeId := Keypair_node_id (am_identity m).

Definition set_local (m : AnnouncementManager) l : AnnouncementManager :=
  mkAnnouncements (am_identity m) l (am_seen m) (am_clock m).
Definition set_seen (m : AnnouncementManager) s : AnnouncementManager :=
  mkAnnouncements (am_identity m) (am_local_capabilities m) s (am_clock m).
Definition set_cm (m : AnnouncementManager) c : AnnouncementManager :=
  mkAnnouncements (am_identity m) (am_local_capabilities m) (am_seen m) c.

Definition register_capability (m : AnnouncementManager) (c : AnnouncedCapability) : AnnouncementManager :=
  set_local m (am_local_capabilities m ++ [c]).
Definition unregister_capability (m : AnnouncementManager) (h : IntentHash) : AnnouncementManager :=
  set_local m (filter (λ c, ac_intent_hash c ≠ h) (am_local_capabilities m)).

(** [iter_mut().find(..)]: the first capability with the hash. *)
Fixpoint update_first (h : IntentHash) (load latency : Z) (l : list AnnouncedCapability) :=
  match l with
  | [] => []
  | c :: l' =>
      if decide (ac_intent_hash c = h) then with_latency (with_load c load) latency :: l'
      else c :: update_first h load latency l'
  end.
Definition update_capability_metrics (m : AnnouncementManager) (h : IntentHash) (load latency : Z) :=
  set_local m (update_first h load latency (am_local_capabilities m)).
Definition seen_count (m : AnnouncementManager) : Z := Z.of_nat (size (am_seen m)).

Definition create_announcement (now : Z) (m : AnnouncementManager) (t : Z) : AnnouncementManager * Frame :=
  let '(cm, c) := ClockManager_tick (sync_physical now (am_clock m)) in
  let id := am_node_id m in
  let h := with_clock (with_trust_level (FrameHeader_new FAnnounce id) Sig) c in
  let p := foldl add_capability (with_origin (AnnouncePayload_new (Z.min t MAX_ANNOUNCE_TTL)) id c)
             (am_local_capabilities m) in
  let sig := Keypair_sign (am_identity m) (origin_signing_bytes_for id c (an_capabilities p)) in
  (set_cm m cm, Frame_new h PRaw (AnnouncePayload_encode (with_origin_signature p sig))).

(** One capability of an announcement against what was seen. *)
Definition note_capability (t : Z) (o : NodeId) (c : HybridClock)
    (acc : gmap (NodeId * IntentHash) SeenAnnouncement * bool) (cap : AnnouncedCapability) :=
  let '(seen, fresh) := acc in
  let k := (o, ac_intent_hash cap) in
  match seen !! k with
  | Some e =>
      if happens_before (sa_clock e) c
      then (<[k := mkSeen t c ((sa_count e + 1) mod 2 ^ 32)]> seen, true)
      else (<[k := mkSeen t (sa_clock e) (sa_count e)]> seen, fresh)
  | None => (<[k := mkSeen t c 1]> seen, true)
  end.

Definition abs_diff (a b : Z) : Z := Z.abs (a - b).

(** The signed claim of an announcement that is authentic, timely and not our own. *)
Definition origin_claim (now : Z) (m : AnnouncementManager) (f : Frame) :
    option (AnnouncePayload * NodeId * HybridClock * Signature) :=
  p ← AnnouncePayload_decode (payload f);
  o ← an_origin p; c ← an_origin_clock p; s ← an_origin_signature p;
  if negb (NodeId_verify o (origin_signing_bytes_for o c (an_capabilities p)) s) then None
  else if MAX_ANNOUNCE_CLOCK_SKEW <? abs_diff now (physical c) then None
  else if decide (o = am_node_id m) then None
  else Some (p, o, c, s).

Definition process_announcement (now t : Z) (m : AnnouncementManager) (f : Frame) :
    AnnouncementManager * option (list AnnouncedCapability * option Frame) :=
  match origin_claim now m f with
  | None => (m, None)
  | Some (p, o, c, s) =>
      let ttl := Z.min (an_ttl p) MAX_ACCEPTED_ANNOUNCE_TTL in
      let '(seen, any_fresh) := foldl (note_capability t o c) (am_seen m, false) (an_capabilities p) in
      let m := set_seen m seen in
      if negb any_fresh then (m, None)
      else if 0 <? ttl then
        let fwd := foldl add_capability
                     (with_origin_signature (with_origin (AnnouncePayload_new (ttl - 1)) o c) s)
                     (an_capabilities p) in
        let cm := if abs_diff now (physical (clock (header f))) <=? MAX_ANNOUNCE_CLOCK_SKEW
                  then ClockManager_update (am_clock m) (clock (header f)) else am_clock m in
        let '(cm, hc) := ClockManager_tick cm in
        let h := with_clock (with_trust_level (FrameHeader_new FAnnounce (am_node_id m))
                   (trust_level (header f))) hc in
        (set_cm m cm, Some (an_capabilities p, Some (Frame_new h PRaw (AnnouncePayload_encode fwd))))
      else (m, Some (an_capabilities p, None))
  end.

Definition cleanup_stale (t max_age : Z) (m : AnnouncementManager) : AnnouncementManager :=
  set_seen m (filter (λ kv, Z.max 0 (t - sa_first_seen kv.2) < max_age) (am_seen m)).
End Manager.

(** ** The announcement timer *)

Record AnnouncementScheduler := mkScheduler {
  announce_interval_ms : Z;
  last_announce : option Z;
  jitter_ms : Z;
  rng_state : Z
}.
Definition AnnouncementScheduler_new (interval jitter : Z) : AnnouncementScheduler :=
  mkScheduler interval None jitter 3735928559.
(** [elapsed] is [last.elapsed().as_millis()]; instants here in milliseconds. *)
Definition should_announce (t : Z) (s : AnnouncementScheduler) : bool :=
  match last_announce s with
  | None => true
  | Some last => announce_interval_ms s <=? Z.max 0 (t - last)
  end.
Definition record_announce (t : Z) (s : AnnouncementScheduler) : AnnouncementScheduler :=
  mkScheduler (announce_interval_ms s) (Some t) (jitter_ms s) (rng_state s).
Definition time_until_next (t : Z) (s : AnnouncementScheduler) : Z :=
  match last_announce s with
  | None => 0
  | Some last =>
      let elapsed := Z.max 0 (t - last) in
      if announce_interval_ms s <=? elapsed then 0 else announce_interval_ms s - elapsed
  end.

Definition u64 (z : Z) : Z := z mod 2 ^ 64.
Definition as_i64 (z : Z) : Z := let v := u64 z in if v <? 2 ^ 63 then v else v - 2 ^ 64.
Definition xorshift (x : Z) : Z :=
  let x := Z.lxor x (u64 (Z.shiftl x 13)) in
  let x := Z.lxor x (Z.shiftr x 7) in
  Z.lxor x (u64 (Z.shiftl x 17)).
(** A zero divisor (a jitter of 2^63) panics. *)
Definition next_interval_with_jitter (s : AnnouncementScheduler) :
    outcome unit (AnnouncementScheduler * Z) :=
  if jitter_ms s =? 0 then Ok (s, announce_interval_ms s)
  else
    let x := xorshift (rng_state s) in
    let s' := mkScheduler (announce_interval_ms s) (last_announce s) (jitter_ms s) x in
    let d := u64 (jitter_ms s * 2) in
    if d =? 0 then Panic
    else
      let jitter := as_i64 (as_i64 (x mod d) - as_i64 (jitter_ms s)) in
      Ok (s', u64 (Z.max 100 (as_i64 (as_i64 (announce_interval_ms s) + jitter)))).

(** ** Well-formed payloads *)

Record capability_ok (c : AnnouncedCapability) : Prop := {
  co_hash : array_ok 16 (ac_intent_hash c);
  co_category : array_ok 4 (ac_category c);
  co_load : 0 ≤ ac_load c < 256;
  co_latency : 0 ≤ ac_latency_ms c < 2 ^ 16
}.

(** Clocks that fit the seven bytes of the wire. *)
Definition wire_clock_ok (c : HybridClock) : Prop := 0 ≤ physical c < 2 ^ 40 ∧ 0 ≤ logical c < 2 ^ 16.

Record payload_ok (p : AnnouncePayload) : Prop := {
  po_ttl : 0 ≤ an_ttl p < 256;
  po_caps : Forall capability_ok (an_capabilities p);
  po_count : len (an_capabilities p) < 2 ^ 16;
  po_origin : match an_origin p, an_origin_clock p with
              | Some o, Some c => array_ok 32 o ∧ wire_clock_ok c ∧ option_ok (array_ok 64) (an_origin_signature p)
              | None, None => an_origin_signature p = None
              | _, _ => False
              end
}.

Lemma AnnouncedCapability_decode_encode c :
  capability_ok c → AnnouncedCapability_decode (AnnouncedCapability_encode c) = Some c.
Proof.
  intros [[Hh _] [Hc _] Hl Ht]. destruct c as [h cat l lat].
  cbn [ac_intent_hash ac_category ac_load ac_latency_ms] in *.
  unfold AnnouncedCapability_decode, AnnouncedCapability_encode.
  set (fs := capability_fields _).
  assert (Hn : len (concat fs) = 23).
  { subst fs. unfold len. cbn [capability_fields concat ac_intent_hash ac_category ac_load ac_latency_ms].
    rewrite !length_app, length_to_be. cbn [length]. lia. }
  rewrite Hn. cbn [Z.ltb Z.compare Pos.compare Pos.compare_cont].
  rewrite (at_slice_field fs 0 h), (at_slice_field fs 1 cat), (at_slice_field fs 3 (to_be 2 lat))
    by (first [done | cbn; rewrite ?app_nil_r, ?length_app, ?length_to_be; cbn [length]; lia]).
  replace (concat fs) with ((h ++ cat) ++ l :: to_be 2 lat ++ [])
    by (subst fs; cbn; by rewrite <- app_assoc).
  rewrite at_byte_app by (rewrite length_app; lia). by rewrite from_be_to_be by lia.
Qed.

Lemma length_capability_encode c : capability_ok c → length (AnnouncedCapability_encode c) = 23%nat.
Proof.
  intros [[Hh _] [Hc _] _ _]. unfold AnnouncedCapability_encode. cbn.
  rewrite !length_app. cbn [length]. rewrite Hh, Hc. reflexivity.
Qed.

Lemma length_capabilities l :
  Forall capability_ok l → length (flat_map AnnouncedCapability_encode l) = (23 * length l)%nat.
Proof.
  induction 1 as [|c l Hc _ IH]; [done|]. cbn [flat_map length].
  rewrite length_app, IH, length_capability_encode by done. lia.
Qed.

Lemma decode_capabilities_encode l rest :
  Forall capability_ok l →
  decode_capabilities (flat_map AnnouncedCapability_encode l ++ rest) (length l) = l.
Proof.
  induction 1 as [|c l Hc _ IH]; [done|]. cbn [flat_map length decode_capabilities].
  rewrite <- app_assoc, take_app_exact, drop_app_exact
    by (unfold len; rewrite length_capability_encode; done).
  by rewrite AnnouncedCapability_decode_encode, IH.
Qed.

Lemma decode_origin_bytes p :
  payload_ok p →
  decode_origin (origin_bytes p) = (an_origin p, an_origin_clock p, an_origin_signature p).
Proof.
  intros [_ _ _ Ho]. unfold origin_bytes.
  destruct (an_origin p) as [o|], (an_origin_clock p) as [c|]; try done; [|by rewrite Ho].
  destruct Ho as ([Hl _] & [Hp Hq] & Hs).
  pose proof (len_clock_bytes c) as Hc. unfold len in Hc.
  assert (E0 : ∀ s, at_slice (o ++ HybridClock_to_bytes c ++ s) 0 32 = o)
    by (intros s; apply (at_slice_app []); [done|cbn; lia]).
  assert (E1 : ∀ s, at_slice (o ++ HybridClock_to_bytes c ++ s) 32 39 = HybridClock_to_bytes c)
    by (intros s; apply at_slice_app; lia).
  assert (Er : HybridClock_from_bytes (HybridClock_to_bytes c) = c).
  { rewrite clock_from_to_bytes. destruct c; cbn in Hp, Hq. by rewrite !Z.mod_small by (cbn; lia). }
  unfold decode_origin. destruct (an_origin_signature p) as [g|]; rewrite E0, E1, Er; cbn [option_ok] in Hs.
  - destruct Hs as [Hs _].
    replace (len (o ++ HybridClock_to_bytes c ++ g)) with 103 by (unfold len; rewrite !length_app; lia).
    assert (E2 : at_slice (o ++ HybridClock_to_bytes c ++ g) 39 103 = g)
      by (rewrite app_assoc; apply at_slice_tail; rewrite length_app; lia).
    by rewrite E2.
  - replace (len (o ++ HybridClock_to_bytes c ++ [])) with 39
      by (unfold len; rewrite !length_app; cbn [length]; lia). done.
Qed.

Lemma count_bytes_length l : length (count_bytes l) = 2%nat.
Proof. apply length_to_be. Qed.

Lemma from_be_count l : from_be (count_bytes l) = len l mod 2 ^ 16.
Proof. unfold count_bytes. rewrite from_be_to_be; [done|]. cbn. apply Z.mod_pos_bound. lia. Qed.

Lemma AnnouncePayload_decode_fields t n body :
  length n = 2%nat → 0 ≤ from_be n →
  AnnouncePayload_decode (t :: n ++ body)
  = (if len body <? from_be n * 23 then None
     else let '(o, c, s) := decode_origin (drop (Z.to_nat (from_be n * 23)) body) in
          Some (mkAnnounce t (decode_capabilities body (Z.to_nat (from_be n))) o c s)).
Proof.
  intros Hn Hp. unfold AnnouncePayload_decode.
  assert (El : len (t :: n ++ body) = 3 + len body) by (unfold len; cbn [length]; rewrite length_app; lia).
  rewrite El. rewrite (proj2 (Z.ltb_ge _ _)) by (pose proof (len_nonneg body); lia).
  assert (E1 : at_slice (t :: n ++ body) 1 3 = n) by (apply (at_slice_app [t]); cbn [length]; lia).
  rewrite E1. change (at_byte (t :: n ++ body) 0) with t.
  replace (drop 3 (t :: n ++ body)) with body
    by (change (drop 3 (t :: n ++ body)) with (drop 2 (n ++ body)); by rewrite drop_app_exact by (unfold len; lia)).
  replace (3 + len body <? 3 + from_be n * 23) with (len body <? from_be n * 23)
    by (destruct (Z.ltb_spec (len body) (from_be n * 23)); symmetry; [apply Z.ltb_lt|apply Z.ltb_ge]; lia).
  destruct (Z.ltb_spec (len body) (from_be n * 23)); [done|].
  replace (Z.to_nat (3 + from_be n * 23)) with (3 + Z.to_nat (from_be n * 23))%nat by lia.
  rewrite <- drop_drop. change (drop 3 (t :: n ++ body)) with (drop 2 (n ++ body)).
  by rewrite drop_app_exact by (unfold len; lia).
Qed.

Lemma len_capabilities l : Forall capability_ok l → len (flat_map AnnouncedCapability_encode l) = 23 * len l.
Proof. intros Hl. unfold len. rewrite length_capabilities by done. lia. Qed.

Lemma AnnouncePayload_decode_encode p : payload_ok p → AnnouncePayload_decode (AnnouncePayload_encode p) = Some p.
Proof.
  intros Hp. pose proof Hp as [_ Hc Hn _]. unfold AnnouncePayload_encode.
  pose proof (len_nonneg (an_capabilities p)) as H0.
  assert (En : from_be (count_bytes (an_capabilities p)) = len (an_capabilities p))
    by (rewrite from_be_count; apply Z.mod_small; lia).
  rewrite AnnouncePayload_decode_fields, En by (rewrite ?En, ?count_bytes_length; done || lia).
  rewrite len_app, len_capabilities, (proj2 (Z.ltb_ge _ _)) by (done || (pose proof (len_nonneg (origin_bytes p)); lia)).
  rewrite drop_app_exact by (rewrite len_capabilities by done; lia).
  replace (Z.to_nat (len (an_capabilities p))) with (length (an_capabilities p)) by (unfold len; lia).
  rewrite decode_capabilities_encode, decode_origin_bytes by done. by destruct p.
Qed.

(** ** Payloads as received *)

Lemma AnnouncedCapability_decode_ok data c :
  bytes_ok data → AnnouncedCapability_decode data = Some c → capability_ok c.
Proof.
  intros Hd. unfold AnnouncedCapability_decode. destruct (Z.ltb_spec (len data) 23) as [|Hl]; [done|].
  unfold len in Hl. intros [= <-]. split; cbn [ac_intent_hash ac_category ac_load ac_latency_ms];
    [apply at_slice_array; done || lia|apply at_slice_array; done || lia|by apply at_byte_ok|].
  pose proof (at_slice_array data 21 23 2 Hd ltac:(lia) ltac:(lia)) as [Hn Hb].
  pose proof (from_be_bound _ Hb) as H1. unfold len in H1. rewrite Hn in H1.
  change (2 ^ (8 * Z.of_nat 2)) with (2 ^ 16) in H1. exact H1.
Qed.

Lemma decode_capabilities_ok data n :
  bytes_ok data → Forall capability_ok (decode_capabilities data n) ∧ (length (decode_capabilities data n) <= n)%nat.
Proof.
  revert data. induction n as [|n IH]; intros data Hd; cbn; [split; [constructor|lia]|].
  destruct (IH (drop 23 data) (Forall_drop _ _ _ Hd)) as [Ho Hl].
  destruct (AnnouncedCapability_decode (take 23 data)) as [c|] eqn:E; cbn; split; try lia; try done.
  constructor; [|done]. eapply AnnouncedCapability_decode_ok, E. by apply Forall_take.
Qed.

Lemma AnnouncePayload_decode_ok data p : bytes_ok data → AnnouncePayload_decode data = Some p → payload_ok p.
Proof.
  intros Hd. unfold AnnouncePayload_decode. destruct (Z.ltb_spec (len data) 3) as [|Hl]; [done|].
  pose proof (at_slice_array data 1 3 2 Hd ltac:(unfold len in Hl; lia) ltac:(lia)) as [Hn Hb].
  pose proof (from_be_bound _ Hb) as Hc. unfold len in Hc. rewrite Hn in Hc.
  change (2 ^ (8 * Z.of_nat 2)) with (2 ^ 16) in Hc.
  set (n := from_be (at_slice data 1 3)) in *. destruct (Z.ltb_spec (len data) (3 + n * 23)); [done|].
  pose proof (decode_capabilities_ok (drop 3 data) (Z.to_nat n) (Forall_drop _ _ _ Hd)) as [Ho Hm].
  pose proof (Forall_drop _ (Z.to_nat (3 + n * 23)) _ Hd) as Hr. set (rest := drop (Z.to_nat (3 + n * 23)) data) in *.
  unfold decode_origin. assert (Hclock : (39 <= length rest)%nat → array_ok 32 (at_slice rest 0 32) ∧
    wire_clock_ok (HybridClock_from_bytes (at_slice rest 32 39))).
  { intros H39. split; [apply at_slice_array; done || lia|].
    destruct (clock_from_bytes_ok (at_slice rest 32 39)) as [[? ?] ?]; [apply at_slice_array; done || lia|].
    unfold wire_clock_ok. change MAX_PHYSICAL with (2 ^ 40 - 1) in *. lia. }
  destruct (Z.eqb_spec (len rest) (NODE_ID_SIZE + CLOCK_SIZE + SIGNATURE_SIZE)) as [E|];
    [|destruct (Z.eqb_spec (len rest) (NODE_ID_SIZE + CLOCK_SIZE)) as [E|]];
    intros [= <-]; (split; cbn [an_ttl an_capabilities an_origin an_origin_clock an_origin_signature option_ok];
      [by apply at_byte_ok|done|unfold len; lia|]); [| |done];
    unfold len, NODE_ID_SIZE, CLOCK_SIZE, SIGNATURE_SIZE in E; destruct Hclock as [? ?]; try lia; split_and!; try done.
  apply at_slice_array; done || lia.
Qed.

(** An announcement with a signed claim takes as many bytes as the one received. *)
Lemma AnnouncePayload_decode_length data p o c g :
  bytes_ok data → AnnouncePayload_decode data = Some p →
  an_origin p = Some o → an_origin_clock p = Some c → an_origin_signature p = Some g →
  3 + 23 * len (an_capabilities p) + 103 ≤ len data.
Proof.
  intros Hd. unfold AnnouncePayload_decode. destruct (Z.ltb_spec (len data) 3) as [|Hl]; [done|].
  set (n := from_be (at_slice data 1 3)) in *. destruct (Z.ltb_spec (len data) (3 + n * 23)); [done|].
  pose proof (decode_capabilities_ok (drop 3 data) (Z.to_nat n) (Forall_drop _ _ _ Hd)) as [_ Hm].
  assert (Hn : 0 ≤ n).
  { apply (from_be_bound (at_slice data 1 3)). by apply Forall_take, Forall_drop. }
  assert (Hr : len (drop (Z.to_nat (3 + n * 23)) data) = len data - (3 + n * 23))
    by (unfold len in *; rewrite length_drop; lia).
  unfold decode_origin. rewrite Hr.
  destruct (Z.eqb_spec (len data - (3 + n * 23)) (NODE_ID_SIZE + CLOCK_SIZE + SIGNATURE_SIZE)) as [E|];
    [|destruct (Z.eqb_spec (len data - (3 + n * 23)) (NODE_ID_SIZE + CLOCK_SIZE))];
    intros [= <-]; cbn [an_capabilities an_origin an_origin_clock an_origin_signature]; [|done..]. intros _ _ _. unfold NODE_ID_SIZE, CLOCK_SIZE, SIGNATURE_SIZE in E. unfold len in *. lia.
Qed.

Lemma capability_encode_bytes c : capability_ok c → bytes_ok (AnnouncedCapability_encode c).
Proof.
  intros [[_ ?] [_ ?] ? ?]. unfold AnnouncedCapability_encode, capability_fields. cbn [concat].
  rewrite app_nil_r. repeat (apply Forall_app; split); auto using to_be_bytes_ok.
Qed.
Lemma AnnouncePayload_encode_bytes p : payload_ok p → bytes_ok (AnnouncePayload_encode p).
Proof.
  intros [Ht Hc Hn Ho]. unfold AnnouncePayload_encode. constructor; [done|].
  apply Forall_app. split; [apply to_be_bytes_ok|]. apply Forall_app. split.
  - induction Hc as [|c l Hc _ IH]; cbn; [constructor|]. apply Forall_app. split; [by apply capability_encode_bytes|].
    apply IH. unfold len in *. cbn in Hn. lia.
  - unfold origin_bytes. destruct (an_origin p), (an_origin_clock p); try constructor.
    destruct Ho as ([_ ?] & _ & Hs). apply Forall_app; split; [done|]. apply Forall_app; split; [apply clock_bytes_ok|].
    destruct (an_origin_signature p); [apply Hs|constructor].
Qed.
(** A signed claim passed on is as long as it came. *)
Lemma len_relayed p o c g t :
  payload_ok p → an_origin p = Some o → an_origin_clock p = Some c → an_origin_signature p = Some g →
  len (AnnouncePayload_encode (mkAnnounce t (an_capabilities p) (Some o) (Some c) (Some g)))
  = 3 + 23 * len (an_capabilities p) + 103.
Proof.
  intros [_ Hc _ Hw] Ho Hcl Hg. rewrite Ho, Hcl, Hg in Hw. destruct Hw as ([Hlo _] & _ & [Hlg _]).
  unfold AnnouncePayload_encode, origin_bytes. cbn [an_ttl an_capabilities an_origin an_origin_clock an_origin_signature].
  rewrite len_cons, !len_app, len_capabilities by done. pose proof (len_clock_bytes c) as H1.
  pose proof (count_bytes_length (an_capabilities p)) as H2. unfold len in *. lia.
Qed.

(** The signed bytes determine the claim. *)
Lemma capability_encode_inj c d :
  capability_ok c → capability_ok d → AnnouncedCapability_encode c = AnnouncedCapability_encode d → c = d.
Proof.
  intros Hc Hd E. apply (f_equal AnnouncedCapability_decode) in E.
  rewrite !AnnouncedCapability_decode_encode in E by done. by injection E.
Qed.

Lemma clock_to_bytes_inj c d :
  wire_clock_ok c → wire_clock_ok d → HybridClock_to_bytes c = HybridClock_to_bytes d → c = d.
Proof.
  intros [? ?] [? ?] E. apply (f_equal HybridClock_from_bytes) in E. rewrite !clock_from_to_bytes in E.
  rewrite !Z.mod_small in E by lia. destruct c, d. by injection E as <- <-.
Qed.

Lemma signing_bytes_inj o c l o' c' l' :
  array_ok 32 o → array_ok 32 o' → wire_clock_ok c → wire_clock_ok c' →
  Forall capability_ok l → Forall capability_ok l' →
  origin_signing_bytes_for o c l = origin_signing_bytes_for o' c' l' → o = o' ∧ c = c' ∧ l = l'.
Proof.
  intros [Ho _] [Ho' _] Hc Hc' Hl Hl' E. unfold origin_signing_bytes_for in E. apply app_inv_head in E.
  apply app_inj_1 in E as [-> E]; [|lia].
  apply app_inj_1 in E as [Ec E].
  2:{ pose proof (len_clock_bytes c) as A. pose proof (len_clock_bytes c') as B. unfold len in *. lia. }
  apply app_inj_1 in E as [_ E]; [|by rewrite !count_bytes_length].
  split_and!; [done|by apply clock_to_bytes_inj|].
  revert l' Hl' E. induction Hl as [|x l Hx Hl IH]; intros l' Hl' E.
  - destruct Hl' as [|y l' Hy _]; [done|]. apply (f_equal length) in E. cbn [flat_map length] in E.
    rewrite length_app, length_capability_encode in E by done. lia.
  - destruct Hl' as [|y l' Hy Hl'].
    + apply (f_equal length) in E. cbn [flat_map length] in E. rewrite length_app, length_capability_encode in E by done. lia.
    + cbn [flat_map] in E. apply app_inj_1 in E as [Ex E]; [|by rewrite !length_capability_encode].
      apply capability_encode_inj in Ex as ->; [|done..]. f_equal. by apply IH.
Qed.

(** ** What the manager has seen *)

(** [a] is not after [b]. *)
Definition not_after (a b : HybridClock) : Prop := happens_before b a = false.

#[export] Instance not_after_preorder : PreOrder not_after.
Proof.
  split.
  - intros c. apply happens_before_irrefl.
  - intros a b c. unfold not_after, happens_before. rewrite !orb_false_iff, !andb_false_iff. lia.
Qed.

Lemma happens_before_le a b : happens_before a b = true → not_after a b.
Proof. intros Hab. unfold not_after. by apply happens_before_asym in Hab as [-> _]. Qed.

Section Seen.
Context (t : Z) (o : NodeId) (c : HybridClock).
Abbreviation seen_map := (gmap (NodeId * IntentHash) SeenAnnouncement).

(** An entry at least as new as the clock. *)
Definition covers (s : seen_map) (h : IntentHash) : bool :=
  match s !! (o, h) with Some e => negb (happens_before (sa_clock e) c) | None => false end.

(** How the map may change in one call: entries are touched and move forward. *)
Definition advances (s s' : seen_map) : Prop :=
  ∀ k e, s !! k = Some e →
    ∃ e', s' !! k = Some e' ∧ not_after (sa_clock e) (sa_clock e')
      ∧ (sa_first_seen e' = t ∨ sa_first_seen e' = sa_first_seen e).

#[local] Instance advances_preorder : PreOrder advances.
Proof.
  split.
  - intros s k e Hk. exists e. split_and!; auto. reflexivity.
  - intros s1 s2 s3 H12 H23 k e Hk. destruct (H12 k e Hk) as (e2 & H2 & L2 & F2).
    destruct (H23 k e2 H2) as (e3 & H3 & L3 & F3). exists e3.
    split_and!; [done|by transitivity (sa_clock e2)|destruct F3 as [->| ->]; auto].
Qed.

Definition touched (s : seen_map) (h : IntentHash) : Prop :=
  ∃ e, s !! (o, h) = Some e ∧ sa_first_seen e = t ∧ not_after c (sa_clock e).

Lemma advances_touched s s' h : advances s s' → touched s h → touched s' h.
Proof.
  intros Ha (e & He & Hf & Hc). destruct (Ha _ _ He) as (e' & He' & Hl & Hf'). exists e'.
  split_and!; [done|destruct Hf'; congruence|by transitivity (sa_clock e)].
Qed.

Lemma covers_iff s h : covers s h = true ↔ ∃ e, s !! (o, h) = Some e ∧ not_after c (sa_clock e).
Proof.
  unfold covers, not_after. destruct (s !! (o, h)) as [e|]; [rewrite negb_true_iff|]; naive_solver.
Qed.

Lemma note_capability_spec s b x :
  let '(s', b') := note_capability t o c (s, b) x in
  b' = b || negb (covers s (ac_intent_hash x)) ∧ touched s' (ac_intent_hash x) ∧ advances s s'
  ∧ (∀ k, k ≠ (o, ac_intent_hash x) → s' !! k = s !! k).
Proof.
  unfold note_capability. set (k0 := (o, ac_intent_hash x)).
  assert (Hu : ∀ e' : SeenAnnouncement, sa_first_seen e' = t →
    (∀ e, s !! k0 = Some e → not_after (sa_clock e) (sa_clock e')) → advances s (<[k0 := e']> s)).
  { intros e' Hf Hl k e Hk. destruct (decide (k = k0)) as [->|Hn].
    - exists e'. rewrite lookup_insert_eq. auto.
    - exists e. rewrite lookup_insert_ne by done. split_and!; auto. reflexivity. }
  assert (Ho : ∀ (e' : SeenAnnouncement) k, k ≠ k0 → <[k0 := e']> s !! k = s !! k)
    by (intros; by rewrite lookup_insert_ne).
  unfold covers. fold k0. destruct (s !! k0) as [e|] eqn:E.
  - destruct (happens_before (sa_clock e) c) eqn:Hb.
    + split_and!; [by rewrite orb_true_r| |apply Hu; [done|]|by apply Ho].
      * eexists. split_and!; [apply lookup_insert_eq|done|reflexivity].
      * intros ? [= <-]. by apply happens_before_le.
    + split_and!; [by rewrite orb_false_r| |apply Hu; [done|]|by apply Ho].
      * eexists. split_and!; [apply lookup_insert_eq|done|done].
      * intros ? [= <-]. reflexivity.
  - split_and!; [by rewrite orb_true_r| |apply Hu; [done|done]|by apply Ho].
    eexists. split_and!; [apply lookup_insert_eq|done|reflexivity].
Qed.

Lemma note_all_spec l s b :
  let '(s', b') := foldl (note_capability t o c) (s, b) l in
  b' = b || existsb (λ x, negb (covers s (ac_intent_hash x))) l
  ∧ Forall (λ x, touched s' (ac_intent_hash x)) l ∧ advances s s'
  ∧ (∀ k, (k.1 ≠ o ∨ k.2 ∉ ac_intent_hash <$> l) → s' !! k = s !! k).
Proof.
  revert s b. induction l as [|x l IH]; intros s b; cbn [foldl].
  { split_and!; [by rewrite orb_false_r|constructor|reflexivity|done]. }
  pose proof (note_capability_spec s b x) as H1. destruct (note_capability t o c (s, b) x) as [s1 b1].
  destruct H1 as (-> & Ht & Ha & Ho). specialize (IH s1 (b || negb (covers s (ac_intent_hash x)))).
  destruct (foldl _ _ l) as [s2 b2]. destruct IH as (-> & Ht2 & Ha2 & Ho2). split_and!.
  - cbn [existsb]. rewrite <- orb_assoc. f_equal.
    destruct (covers s (ac_intent_hash x)) eqn:Hx; [|done]. cbn [negb orb].
    apply existsb_pointwise. intros y. f_equal. apply eq_bool_prop_intro. rewrite !Is_true_true, !covers_iff.
    destruct (decide (ac_intent_hash y = ac_intent_hash x)) as [->|Hn].
    + apply covers_iff in Hx. split; [done|]. intros _.
      destruct Ht as (e & He & _ & Hc). by exists e.
    + rewrite Ho by congruence. done.
  - constructor; [by eapply advances_touched|done].
  - by transitivity s1.
  - intros k Hk. rewrite Ho2, Ho; [done| |].
    + intros ->. cbn in Hk. destruct Hk as [Hk|Hk]; [done|]. apply Hk. left.
    + destruct Hk as [Hk|Hk]; [by left|right]. intros Hi. apply Hk. cbn. by right.
Qed.
End Seen.

(** ** Acceptance *)

Lemma foldl_add_capability l p :
  foldl add_capability p l
  = mkAnnounce (an_ttl p) (an_capabilities p ++ l) (an_origin p) (an_origin_clock p) (an_origin_signature p).
Proof.
  revert p. induction l as [|x l IH]; intros p; cbn [foldl]; [by rewrite app_nil_r; destruct p|].
  rewrite IH. cbn. by rewrite <- app_assoc.
Qed.

Section Acceptance.
Context `{Ed25519}.

(** A signed, timely claim of another node. *)
Record authentic (now : Z) (m : AnnouncementManager) (f : Frame) (p : AnnouncePayload)
    (o : NodeId) (c : HybridClock) (s : Signature) : Prop := {
  au_payload : AnnouncePayload_decode (payload f) = Some p;
  au_origin : an_origin p = Some o;
  au_clock : an_origin_clock p = Some c;
  au_signature : an_origin_signature p = Some s;
  au_verified : NodeId_verify o (origin_signing_bytes_for o c (an_capabilities p)) s = true;
  au_timely : Z.abs (now - physical c) ≤ MAX_ANNOUNCE_CLOCK_SKEW;
  au_other : o ≠ am_node_id m
}.

Lemma origin_claim_iff now m f p o c s : origin_claim now m f = Some (p, o, c, s) ↔ authentic now m f p o c s.
Proof.
  unfold origin_claim, abs_diff. split.
  - intros E. destruct (AnnouncePayload_decode (payload f)) as [p'|] eqn:Ep; [|done]. cbn in E.
    destruct (an_origin p') as [o'|] eqn:Eo; [|done]. cbn in E.
    destruct (an_origin_clock p') as [c'|] eqn:Ec; [|done]. cbn in E.
    destruct (an_origin_signature p') as [s'|] eqn:Es; [|done]. cbn in E.
    destruct (NodeId_verify _ _ _) eqn:Ev; [|done]. cbn in E.
    destruct (Z.ltb_spec MAX_ANNOUNCE_CLOCK_SKEW (Z.abs (now - physical c'))); [done|].
    case_decide; [done|]. simplify_eq. by constructor.
  - intros [E1 E2 E3 E4 E5 E6 E7]. rewrite E1. cbn [mbind option_bind]. rewrite E2, E3, E4.
    cbn [mbind option_bind]. rewrite E5. cbn [negb]. rewrite (proj2 (Z.ltb_ge _ _)) by done. by rewrite decide_False.
Qed.

Definition relayed_payload (p : AnnouncePayload) (o : NodeId) (c : HybridClock) (s : Signature) : AnnouncePayload :=
  mkAnnounce (Z.min (an_ttl p) MAX_ACCEPTED_ANNOUNCE_TTL - 1) (an_capabilities p) (Some o) (Some c) (Some s).

(** The frame a relay makes of an announcement. *)
Definition relay_of (m : AnnouncementManager) (p : AnnouncePayload) (o : NodeId) (c : HybridClock)
    (s : Signature) (g : option Frame) : Prop :=
  match g with
  | None => an_ttl p ≤ 0
  | Some f' => 0 < an_ttl p ∧ payload f' = AnnouncePayload_encode (relayed_payload p o c s)
               ∧ sender_id (header f') = am_node_id m
  end.

Definition all_covered (m : AnnouncementManager) (p : AnnouncePayload) (o : NodeId) (c : HybridClock) : Prop :=
  Forall (λ x, covers o c (am_seen m) (ac_intent_hash x) = true) (an_capabilities p).

Lemma process_authentic now t m f p o c s :
  authentic now m f p o c s →
  let '(m', r) := process_announcement now t m f in
  (r = None ↔ all_covered m p o c)
  ∧ (∀ caps g, r = Some (caps, g) → caps = an_capabilities p ∧ relay_of m p o c s g)
  ∧ Forall (λ x, touched t o c (am_seen m') (ac_intent_hash x)) (an_capabilities p)
  ∧ advances t (am_seen m) (am_seen m')
  ∧ (∀ k, (k.1 ≠ o ∨ k.2 ∉ ac_intent_hash <$> an_capabilities p) → am_seen m' !! k = am_seen m !! k)
  ∧ am_identity m' = am_identity m.
Proof.
  intros Ha. unfold process_announcement. rewrite (proj2 (origin_claim_iff _ _ _ _ _ _ _) Ha).
  pose proof (note_all_spec t o c (an_capabilities p) (am_seen m) false) as Hn.
  destruct (foldl (note_capability t o c) _ _) as [seen fresh]. destruct Hn as (-> & Ht & Had & Ho).
  assert (Hc : existsb (λ x, negb (covers o c (am_seen m) (ac_intent_hash x))) (an_capabilities p) = false
               ↔ all_covered m p o c).
  { unfold all_covered. rewrite Forall_forall, <- not_true_iff_false, existsb_exists. split.
    - intros Hx x Hi. apply not_false_iff_true. intros Hf. apply Hx. exists x.
      split; [by apply list_elem_of_In|by rewrite Hf].
    - intros Hx (x & Hi & Hf). rewrite Hx in Hf by (by apply list_elem_of_In). done. }
  cbn [orb]. destruct (existsb _ _) eqn:Ex; cbn [negb].
  - assert (Hnc : ¬ all_covered m p o c) by (rewrite <- Hc; done).
    assert (Hr : 0 < Z.min (an_ttl p) MAX_ACCEPTED_ANNOUNCE_TTL ↔ 0 < an_ttl p)
      by (unfold MAX_ACCEPTED_ANNOUNCE_TTL, MAX_ROUTE_INDIRECTION; lia).
    destruct (Z.ltb_spec 0 (Z.min (an_ttl p) MAX_ACCEPTED_ANNOUNCE_TTL)); cbn;
      (split_and!; [split; done| |done|done|done|done]); intros caps g [= <- <-]; (split; [done|]); cbn [relay_of].
    + split_and!; [by apply Hr| |done]. rewrite foldl_add_capability. done.
    + lia.
  - split_and!; cbn; [by rewrite <- Hc|done|done|done|done|done].
Qed.

Lemma process_unauthentic now t m f :
  (∀ p o c s, ¬ authentic now m f p o c s) → process_announcement now t m f = (m, None).
Proof.
  intros Hn. unfold process_announcement. destruct (origin_claim now m f) as [[[[p o] c] s]|] eqn:E; [|done].
  apply origin_claim_iff in E. by destruct (Hn p o c s).
Qed.

(** What process_announcement does on every branch.  A frame without an
    authentic claim (payload that decodes, origin signature over origin, clock
    and capabilities, clock within the skew, another node's) changes nothing and
    is refused.  An authentic one is refused exactly when every capability it
    names was already seen from that origin with a clock not older; otherwise its
    capabilities are returned, with a frame to pass on exactly when hops are
    left, which carries the same signed claim with the hop count capped and
    decremented.  Either way its capabilities count as seen now, and nothing the
    manager remembers moves back in time. *)
Theorem announcement_decision now t m f :
  ((∀ p o c s, ¬ authentic now m f p o c s) → process_announcement now t m f = (m, None))
  ∧ (∀ p o c s, authentic now m f p o c s →
       let '(m', r) := process_announcement now t m f in
       (r = None ↔ all_covered m p o c)
       ∧ (∀ caps g, r = Some (caps, g) → caps = an_capabilities p ∧ relay_of m p o c s g)
       ∧ Forall (λ x, touched t o c (am_seen m') (ac_intent_hash x)) (an_capabilities p)
       ∧ advances t (am_seen m) (am_seen m')
       ∧ (∀ k, (k.1 ≠ o ∨ k.2 ∉ ac_intent_hash <$> an_capabilities p) → am_seen m' !! k = am_seen m !! k)
       ∧ am_identity m' = am_identity m).
Proof. split; [apply process_unauthentic|intros p o c s; apply process_authentic]. Qed.
End Acceptance.

(** ** Runs *)

Section Runs.
Context `{Ed25519}.

(** Everything a node does with its manager, with the wall clock in seconds; the
    maintenance pass forgets entries not touched for [age] seconds. *)
Inductive am_op :=
  | AmProcess (f : Frame)
  | AmCreate (t : Z)
  | AmRegister (c : AnnouncedCapability)
  | AmUnregister (h : IntentHash)
  | AmMetrics (h : IntentHash) (load latency : Z)
  | AmCleanup.

Definition ns (secs : Z) : Z := secs * 1000000000.

Definition am_step (age : Z) (m : AnnouncementManager) (no : Z * am_op) : AnnouncementManager :=
  let '(now, o) := no in
  match o with
  | AmProcess f => (process_announcement now (ns now) m f).1
  | AmCreate t => (create_announcement now m t).1
  | AmRegister c => register_capability m c
  | AmUnregister h => unregister_capability m h
  | AmMetrics h l y => update_capability_metrics m h l y
  | AmCleanup => cleanup_stale (ns now) (ns age) m
  end.
Definition am_run (age : Z) (ops : list (Z * am_op)) (m : AnnouncementManager) : AnnouncementManager :=
  foldl (am_step age) m ops.

(** Remembered until the claim has left the skew window. *)
Definition remembered (o : NodeId) (c : HybridClock) (n : Z) (m : AnnouncementManager) (h : IntentHash) : Prop :=
  physical c - MAX_ANNOUNCE_CLOCK_SKEW ≤ n
  ∧ (physical c + MAX_ANNOUNCE_CLOCK_SKEW < n
     ∨ ∃ e, am_seen m !! (o, h) = Some e ∧ not_after c (sa_clock e)
            ∧ ns (physical c - MAX_ANNOUNCE_CLOCK_SKEW) ≤ sa_first_seen e).

Lemma process_advances now t m f : advances t (am_seen m) (am_seen (process_announcement now t m f).1).
Proof.
  destruct (origin_claim now m f) as [[[[p o] c] s]|] eqn:E.
  - apply origin_claim_iff in E. pose proof (process_authentic now t m f _ _ _ _ E) as Hy.
    destruct (process_announcement now t m f) as [m' r]. apply Hy.
  - rewrite process_unauthentic; [apply advances_preorder|].
    intros p o c s Ha. apply origin_claim_iff in Ha. congruence.
Qed.

Lemma remembered_step age o c n m h now op :
  2 * MAX_ANNOUNCE_CLOCK_SKEW < age → n ≤ now →
  remembered o c n m h → remembered o c now (am_step age m (now, op)) h.
Proof.
  intros Hage Hle [Hw Hr]. unfold MAX_ANNOUNCE_CLOCK_SKEW in *. split; unfold MAX_ANNOUNCE_CLOCK_SKEW; [lia|].
  destruct Hr as [Hr|(e & He & Hc & Ht)]; [left; lia|].
  destruct op; cbn; try (right; by exists e).
  - right. destruct (process_advances now (ns now) m f _ _ He) as (e' & He' & Hc' & Ht').
    exists e'. split_and!; [done|by transitivity (sa_clock e)|unfold ns in *; lia].
  - destruct (decide (Z.max 0 (ns now - sa_first_seen e) < ns age)) as [Hd|Hd].
    + right. exists e. by rewrite map_lookup_filter_Some.
    + left. unfold ns in *. lia.
Qed.

(** Times of a run do not decrease. *)
Fixpoint in_order (n : Z) (ops : list (Z * am_op)) (last : Z) : Prop :=
  match ops with
  | [] => n ≤ last
  | (now, _) :: ops' => n ≤ now ∧ in_order now ops' last
  end.

Lemma remembered_run age o c ops n last m h :
  2 * MAX_ANNOUNCE_CLOCK_SKEW < age → in_order n ops last →
  remembered o c n m h → remembered o c last (am_run age ops m) h.
Proof.
  intros Hage. revert n m. induction ops as [|[now op] ops IH]; intros n m; cbn.
  - intros Hle [Hw Hr]. split; [lia|]. destruct Hr as [Hr|Hr]; [left; lia|by right].
  - intros [Hle Ho] Hr. eapply IH; [done|]. by eapply remembered_step.
Qed.

Lemma am_run_node_id age ops m : am_node_id (am_run age ops m) = am_node_id m.
Proof.
  unfold am_node_id. f_equal. revert m. induction ops as [|[now op] ops IH]; intros m; [done|]. cbn [am_run foldl].
  etransitivity; [apply IH|]. destruct op; cbn; try done.
  unfold process_announcement. repeat case_match; done.
Qed.

Lemma process_node_id now t m f : am_node_id (process_announcement now t m f).1 = am_node_id m.
Proof. unfold am_node_id, process_announcement. f_equal. repeat case_match; done. Qed.

(** Gossip does not circulate: once a node has processed an announcement, no
    frame it receives later, over any path, brings it back.  Whatever happens in
    between, maintenance that forgets entries after more than twice the skew
    included, a later frame from the same origin with a clock not after the first
    one and no further capability is refused, so it is neither registered again
    nor passed on again. *)
Theorem gossip_once age ops now m f p o c s now' f' p' c' s' :
  2 * MAX_ANNOUNCE_CLOCK_SKEW < age →
  authentic now m f p o c s →
  in_order now ops now' →
  let m' := am_run age ops (process_announcement now (ns now) m f).1 in
  authentic now' m' f' p' o c' s' →
  not_after c' c →
  (ac_intent_hash <$> an_capabilities p') ⊆ (ac_intent_hash <$> an_capabilities p) →
  (process_announcement now' (ns now') m' f').2 = None.
Proof.
  intros Hage Ha Ho m' Ha' Hc Hsub.
  pose proof (process_authentic now' (ns now') m' f' p' o c' s' Ha') as Hp'.
  destruct (process_announcement now' (ns now') m' f') as [m'' r]. cbn. apply Hp'.
  apply Forall_forall. intros x Hx. apply covers_iff.
  assert (Hh : ac_intent_hash x ∈ ac_intent_hash <$> an_capabilities p) by (apply Hsub, list_elem_of_fmap; eauto).
  apply list_elem_of_fmap in Hh as (y & Ey & Hy).
  pose proof (process_authentic now (ns now) m f p o c s Ha) as Hp.
  destruct (process_announcement now (ns now) m f) as [m1 r1] eqn:E1. cbn in m'.
  destruct Hp as (_ & _ & Ht & _). rewrite Forall_forall in Ht. destruct (Ht y Hy) as (e & He & Hf & Hce).
  rewrite <- Ey in He.
  destruct Ha as [_ _ _ _ _ Hs _]. destruct Ha' as [_ _ _ _ _ Hs' _]. unfold MAX_ANNOUNCE_CLOCK_SKEW in *.
  assert (Hr : remembered o c now m1 (ac_intent_hash x)).
  { split; [unfold MAX_ANNOUNCE_CLOCK_SKEW; lia|right]. exists e.
    split_and!; [done|done|rewrite Hf; unfold ns, MAX_ANNOUNCE_CLOCK_SKEW; lia]. }
  eapply (remembered_run age) in Hr; [|unfold MAX_ANNOUNCE_CLOCK_SKEW; lia|exact Ho]. fold m' in Hr.
  assert (Hpc : physical c' ≤ physical c).
  { unfold not_after, happens_before in Hc. rewrite orb_false_iff in Hc. lia. }
  destruct Hr as [_ [Hr|(e' & He' & Hc' & _)]]; [unfold MAX_ANNOUNCE_CLOCK_SKEW in Hr; lia|].
  exists e'. split; [done|]. by transitivity c.
Qed.
End Runs.

(** ** Propagation *)

Section Propagation.
Context `{Ed25519}.

Definition announce_clock (now : Z) (a : AnnouncementManager) : HybridClock :=
  HybridClock_tick (cm_clock (sync_physical now (am_clock a))).

Record announcer_ok (now : Z) (a : AnnouncementManager) (t : Z) : Prop := {
  an_key : keypair_ok (am_identity a);
  an_caps : Forall capability_ok (am_local_capabilities a);
  an_count : len (am_local_capabilities a) < 2 ^ 16;
  an_hops : 0 ≤ t;
  an_time : wire_clock_ok (announce_clock now a)
}.

Definition announced (now : Z) (a : AnnouncementManager) (t : Z) : AnnouncePayload :=
  let c := announce_clock now a in
  mkAnnounce t (am_local_capabilities a) (Some (am_node_id a)) (Some c)
    (Some (Keypair_sign (am_identity a)
             (origin_signing_bytes_for (am_node_id a) c (am_local_capabilities a)))).

Lemma create_announcement_payload now a t :
  payload (create_announcement now a t).2
  = AnnouncePayload_encode (announced now a (Z.min t MAX_ANNOUNCE_TTL)).
Proof. unfold create_announcement. cbn. rewrite foldl_add_capability. reflexivity. Qed.

Lemma announced_ok now a t u : announcer_ok now a t → 0 ≤ u < 256 → payload_ok (announced now a u).
Proof.
  intros [Hk Hc Hn Ht Hw] Hu. split; [done|done|done|]. cbn.
  split_and!; [apply ed_public_ok|done|apply ed_sign_ok].
Qed.

(** A node the announcement is news to. *)
Record ready (now : Z) (a : AnnouncementManager) (n : Z) (m : AnnouncementManager) : Prop := {
  rd_other : am_node_id a ≠ am_node_id m;
  rd_timely : Z.abs (n - physical (announce_clock now a)) ≤ MAX_ANNOUNCE_CLOCK_SKEW;
  rd_news : ¬ Forall (λ x, covers (am_node_id a) (announce_clock now a) (am_seen m) (ac_intent_hash x) = true)
              (am_local_capabilities a)
}.

Lemma announced_authentic now a t u n m f :
  announcer_ok now a t → 0 ≤ u < 256 → payload f = AnnouncePayload_encode (announced now a u) →
  am_node_id a ≠ am_node_id m → Z.abs (n - physical (announce_clock now a)) ≤ MAX_ANNOUNCE_CLOCK_SKEW →
  authentic n m f (announced now a u) (am_node_id a) (announce_clock now a)
    (Keypair_sign (am_identity a)
       (origin_signing_bytes_for (am_node_id a) (announce_clock now a) (am_local_capabilities a))).
Proof.
  intros Ha Hu Hp Hne Ht. split; try done.
  - rewrite Hp. apply AnnouncePayload_decode_encode. by eapply announced_ok.
  - apply sign_verifies, Ha.
Qed.

Lemma announced_accepted now a t u n tm m f :
  announcer_ok now a t → 0 ≤ u < 256 → payload f = AnnouncePayload_encode (announced now a u) →
  ready now a n m →
  ∃ g, (process_announcement n tm m f).2 = Some (am_local_capabilities a, g)
       ∧ match g with
         | None => u = 0
         | Some f' => 0 < u ∧ payload f' = AnnouncePayload_encode (announced now a (Z.min u 2 - 1))
         end.
Proof.
  intros Ha Hu Hp [Hne Ht Hnews].
  pose proof (process_authentic n tm m f _ _ _ _ (announced_authentic now a t u n m f Ha Hu Hp Hne Ht)) as Hr.
  destruct (process_announcement n tm m f) as [m' [[caps g]|]]; destruct Hr as (H1 & H2 & _).
  - destruct (H2 caps g eq_refl) as [-> Hg]. exists g. split; [done|]. destruct g as [f'|]; cbn in Hg.
    + destruct Hg as (? & ? & _). done.
    + lia.
  - destruct Hnews. by apply H1.
Qed.

(** What the nodes of a path accept when each passes on what it receives. *)
Fixpoint relay_path (path : list (Z * Z * AnnouncementManager)) (f : Frame) : list (list AnnouncedCapability) :=
  match path with
  | [] => []
  | (n, tm, m) :: path' =>
      match (process_announcement n tm m f).2 with
      | None => []
      | Some (caps, None) => [caps]
      | Some (caps, Some f') => caps :: relay_path path' f'
      end
  end.

Lemma relay_path_reach now a t u path f :
  announcer_ok now a t → 0 ≤ u < 256 → payload f = AnnouncePayload_encode (announced now a u) →
  Forall (λ x, ready now a x.1.1 x.2) path →
  relay_path path f
  = replicate (Nat.min (length path) (Z.to_nat (Z.min u MAX_ACCEPTED_ANNOUNCE_TTL) + 1)) (am_local_capabilities a).
Proof.
  intros Ha. revert u f. induction path as [|[[n tm] m] path IH]; intros u f Hu Hp Hr; [done|].
  apply Forall_cons_1 in Hr as [Hr Hrs]. cbn [relay_path].
  destruct (announced_accepted now a t u n tm m f Ha Hu Hp Hr) as (g & -> & Hg).
  unfold MAX_ACCEPTED_ANNOUNCE_TTL, MAX_ROUTE_INDIRECTION in *. destruct g as [f'|].
  - destruct Hg as [Hpos Hf']. rewrite (IH (Z.min u 2 - 1) f') by (done || lia). cbn [length].
    replace (Z.to_nat (Z.min u 2) + 1)%nat with (S (Z.to_nat (Z.min (Z.min u 2 - 1) 2) + 1)) by lia.
    done.
  - subst u. cbn. by destruct (length path).
Qed.

(** How far an announcement travels.  Along any path of nodes to which it is
    news and whose clocks are within the skew, each passing on what it was told
    to pass on, exactly the first nodes up to one more than the hop count (two at
    most, whatever the origin asked for) accept it, and every one of them gets
    exactly the capabilities the origin registered. *)
Theorem gossip_reach now a t path :
  announcer_ok now a t →
  Forall (λ x, ready now a x.1.1 x.2) path →
  relay_path path (create_announcement now a t).2
  = replicate (Nat.min (length path) (Z.to_nat (Z.min t MAX_ACCEPTED_ANNOUNCE_TTL) + 1))
      (am_local_capabilities a).
Proof.
  intros Ha Hr. pose proof Ha as [_ _ _ Ht _].
  rewrite (relay_path_reach now a t (Z.min t MAX_ANNOUNCE_TTL) path) by
    (try apply create_announcement_payload; done || (unfold MAX_ANNOUNCE_TTL; lia)).
  unfold MAX_ANNOUNCE_TTL, MAX_ACCEPTED_ANNOUNCE_TTL, MAX_ROUTE_INDIRECTION. do 2 f_equal. lia.
Qed.

(** An announcement made after a capability was withdrawn. *)
Lemma withdrawn_announcer now a t x y :
  am_local_capabilities a = [x; y] → ac_intent_hash x ≠ ac_intent_hash y →
  announcer_ok now a t → logical (announce_clock now a) < 2 ^ 16 - 1 →
  now ≤ physical (announce_clock now a) →
  let a1 := unregister_capability (create_announcement now a t).1 (ac_intent_hash y) in
  am_local_capabilities a1 = [x] ∧ am_identity a1 = am_identity a ∧ announcer_ok now a1 t
  ∧ physical (announce_clock now a1) = physical (announce_clock now a).
Proof.
  intros Hl Hxy [Hk Hc Hn Ht [Hp Hq]] Hs Hnow. cbn zeta.
  assert (El : am_local_capabilities
    (unregister_capability (create_announcement now a t).1 (ac_intent_hash y)) = [x]).
  { cbn. rewrite Hl. cbn. rewrite decide_True by done. by rewrite decide_False by tauto. }
  assert (Ec : announce_clock now (unregister_capability (create_announcement now a t).1 (ac_intent_hash y))
               = HybridClock_tick (announce_clock now a)).
  { unfold announce_clock at 1, sync_physical. cbn.
    fold (announce_clock now a). rewrite (proj2 (Z.ltb_ge _ _)); [done|]. exact Hnow. }
  split_and!; [done|done| |by rewrite Ec].
  split; rewrite ?El, ?Ec; [done|rewrite Hl in Hc; apply Forall_cons_1 in Hc as [? _]; by apply Forall_singleton|rewrite ?len_cons, ?len_nil; lia|done|].
  split; [done|]. cbn [HybridClock_tick logical]. unfold u16_saturating_add. lia.
Qed.

Lemma empty_announcement_refused now t m f p :
  AnnouncePayload_decode (payload f) = Some p → an_capabilities p = [] →
  (process_announcement now t m f).2 = None.
Proof.
  intros Hp Hc. destruct (origin_claim now m f) as [[[[p' o] c] s]|] eqn:E.
  - apply origin_claim_iff in E. pose proof E as [E1 _ _ _ _ _ _].
    pose proof (process_authentic now t m f _ _ _ _ E) as Hy.
    destruct (process_announcement now t m f) as [m' r]. apply Hy. unfold all_covered.
    simplify_eq. by rewrite Hc.
  - rewrite process_unauthentic; [done|]. intros p' o c s Ha. apply origin_claim_iff in Ha. congruence.
Qed.

(** Acceptance is decided capability by capability, so it does not follow the
    order of an origin's announcements: an announcement without capabilities is
    never accepted, and one that was overtaken by the withdrawal of a capability
    is accepted when it arrives, and restores it. *)
Theorem withdrawal_ignored :
  (∀ now t m f p, AnnouncePayload_decode (payload f) = Some p → an_capabilities p = [] →
     (process_announcement now t m f).2 = None)
  ∧ (∀ now a t b n tm tm' x y,
       am_local_capabilities a = [x; y] → ac_intent_hash x ≠ ac_intent_hash y →
       announcer_ok now a t → logical (announce_clock now a) < 2 ^ 16 - 1 →
       now ≤ physical (announce_clock now a) →
       am_node_id a ≠ am_node_id b → am_seen b = ∅ →
       Z.abs (n - physical (announce_clock now a)) ≤ MAX_ANNOUNCE_CLOCK_SKEW →
       let '(a1, old) := create_announcement now a t in
       let '(a2, new) := create_announcement now (unregister_capability a1 (ac_intent_hash y)) t in
       let '(b1, r1) := process_announcement n tm b new in
       let '(b2, r2) := process_announcement n tm' b1 old in
       fst <$> r1 = Some [x] ∧ fst <$> r2 = Some [x; y]).
Proof.
  split; [exact empty_announcement_refused|].
  intros now a t b n tm tm' x y Hl Hxy Ha Hs Hnow Hne Hb Hn.
  destruct (withdrawn_announcer now a t x y Hl Hxy Ha Hs Hnow) as (El & Ei & Ha1 & Ep).
  pose proof (create_announcement_payload now a t) as Pold.
  destruct (create_announcement now a t) as [a1 old]. cbn [fst] in El, Ei, Ha1, Ep. set (aw := unregister_capability a1 _) in *.
  pose proof (create_announcement_payload now aw t) as Pnew.
  destruct (create_announcement now aw t) as [a2 new]. cbn [snd] in Pold, Pnew.
  assert (Hu : 0 ≤ Z.min t MAX_ANNOUNCE_TTL < 256) by (destruct Ha; unfold MAX_ANNOUNCE_TTL; lia).
  assert (Eid : am_node_id aw = am_node_id a) by (unfold am_node_id; by rewrite Ei).
  assert (Hne' : am_node_id aw ≠ am_node_id b) by congruence.
  assert (Hn' : Z.abs (n - physical (announce_clock now aw)) ≤ MAX_ANNOUNCE_CLOCK_SKEW) by (by rewrite Ep).
  assert (Hrd : ready now aw n b).
  { split; [done|done|]. rewrite El. intros HF. apply Forall_cons_1 in HF as [HF _].
    unfold covers in HF. by rewrite Hb, lookup_empty in HF. }
  destruct (announced_accepted now aw t _ n tm b new Ha1 Hu Pnew Hrd) as (g & Hg & _).
  pose proof (process_authentic n tm b new _ _ _ _
    (announced_authentic now aw t _ n b new Ha1 Hu Pnew Hne' Hn')) as Hfr.
  destruct (process_announcement n tm b new) as [b1 r1]. cbn [snd] in Hg. subst r1.
  destruct Hfr as (_ & _ & _ & _ & Ho & Hid).
  assert (Hrd1 : ready now a n b1).
  { split; [unfold am_node_id in *; congruence|done|]. rewrite Hl. intros HF.
    apply Forall_cons_1 in HF as [_ HF]. apply Forall_cons_1 in HF as [HF _]. unfold covers in HF.
    rewrite Ho, Hb, lookup_empty in HF; [done|]. right. cbn [snd announced an_capabilities]. rewrite El. set_solver. }
  destruct (announced_accepted now a t _ n tm' b1 old Ha Hu Pold Hrd1) as (g' & Hg' & _).
  destruct (process_announcement n tm' b1 old) as [b2 r2]. cbn [snd] in Hg'. subst r2.
  cbn [fmap option_fmap option_map fst]. by rewrite El, Hl.
Qed.
End Propagation.

(** The wire form of announcements and what the origin signs.  Decoding
    inverts encoding for well-formed payloads; two well-formed claims with the
    same signed bytes have the same origin, clock and capabilities, so only the
    hop count is open to relays; and a payload with exactly 2^16 capabilities,
    whose count does not fit its field, decodes to one with no capabilities and
    no origin. *)
Theorem announce_wire p :
  (payload_ok p → AnnouncePayload_decode (AnnouncePayload_encode p) = Some p)
  ∧ (∀ q, payload_ok p → payload_ok q → is_Some (origin_signing_bytes p) →
       origin_signing_bytes p = origin_signing_bytes q →
       an_origin p = an_origin q ∧ an_origin_clock p = an_origin_clock q
       ∧ an_capabilities p = an_capabilities q)
  ∧ (Forall capability_ok (an_capabilities p) → len (an_capabilities p) = 2 ^ 16 →
     AnnouncePayload_decode (AnnouncePayload_encode p) = Some (AnnouncePayload_new (an_ttl p))).
Proof.
  split_and!; [apply AnnouncePayload_decode_encode| |].
  - intros q [_ Hc _ Ho] [_ Hc' _ Ho'] [b Hb]. unfold origin_signing_bytes in *.
    destruct (an_origin p) as [o|], (an_origin_clock p) as [c|]; try done.
    destruct (an_origin q) as [o'|], (an_origin_clock q) as [c'|]; try done.
    destruct Ho as (? & ? & _), Ho' as (? & ? & _). intros E. apply (inj Some) in E.
    apply signing_bytes_inj in E as (-> & -> & ->); done.
  - intros Hc Hn. unfold AnnouncePayload_encode.
    assert (En : from_be (count_bytes (an_capabilities p)) = 0) by (rewrite from_be_count, Hn; reflexivity).
    rewrite AnnouncePayload_decode_fields, En by (rewrite ?En, ?count_bytes_length; done).
    rewrite len_app, len_capabilities by done. pose proof (len_nonneg (origin_bytes p)).
    rewrite (proj2 (Z.ltb_ge _ _)) by lia. change (Z.to_nat (0 * 23)) with O. rewrite drop_0.
    unfold decode_origin. rewrite len_app, len_capabilities, Hn by done.
    unfold NODE_ID_SIZE, CLOCK_SIZE, SIGNATURE_SIZE. rewrite !(proj2 (Z.eqb_neq _ _)) by lia. done.
Qed.

(** ** Examples *)

#[local] Existing Instance ed_reference.

Definition sample_capability : AnnouncedCapability := AnnouncedCapability_new (replicate 16 1) (replicate 4 0).
Definition sample_node (k : Z) : AnnouncementManager :=
  AnnouncementManager_new (mkClock 1000 0) (mkKeypair (replicate 32 k)).
Definition sample_announcer : AnnouncementManager := register_capability (sample_node 5) sample_capability.

Lemma sample_announcer_ok : announcer_ok 1000 sample_announcer 16.
Proof.
  split; [split; [done|by apply array_ok_replicate]| |done|lia|].
  - apply Forall_singleton. split; [by apply (array_ok_replicate 16 1)|by apply (array_ok_replicate 4 0)|cbn; lia|cbn; lia].
  - vm_compute. intuition discriminate.
Qed.

Lemma sample_node_id k : 0 ≤ k < 256 → am_node_id (sample_node k) = replicate 32 k.
Proof.
  intros Hk. pose proof (to_be_from_be (replicate 32 k) (array_bytes 32 _ (array_ok_replicate 32 k Hk))) as E.
  by rewrite length_replicate in E.
Qed.

Lemma sample_ready k : In k [6; 7; 8; 9] → ready 1000 sample_announcer 1100 (sample_node k).
Proof.
  intros Hk. split.
  - change (am_node_id sample_announcer) with (am_node_id (sample_node 5)).
    rewrite !sample_node_id by (cbn in Hk; lia). cbn in Hk. intros [= E]. lia.
  - vm_compute. discriminate.
  - intros HF. apply Forall_cons_1 in HF as [HF _]. unfold covers in HF. done.
Qed.

Lemma gossip_reach_witness :
  relay_path ((λ k, (1100, 0, sample_node k)) <$> [6; 7; 8; 9]) (create_announcement 1000 sample_announcer 16).2
  = [[sample_capability]; [sample_capability]; [sample_capability]].
Proof.
  apply (gossip_reach 1000 sample_announcer 16); [apply sample_announcer_ok|].
  repeat (apply Forall_cons; split; [apply sample_ready; cbn; tauto|]). constructor.
Defined.

Lemma gossip_once_witness :
  let f := (create_announcement 1000 sample_announcer 16).2 in
  (process_announcement 1100 (ns 1100)
     (am_run 1800 [(1100, AmCleanup)] (process_announcement 1100 (ns 1100) (sample_node 6) f).1) f).2 = None.
Proof.
  intros f. assert (Hp := create_announcement_payload 1000 sample_announcer 16). fold f in Hp. clearbody f.
  destruct (sample_ready 6 (or_introl eq_refl)) as [Hne Ht _].
  assert (Hu : 0 ≤ Z.min 16 MAX_ANNOUNCE_TTL < 256) by (unfold MAX_ANNOUNCE_TTL; lia).
  assert (Ha := λ m, announced_authentic 1000 sample_announcer 16 _ 1100 m f sample_announcer_ok Hu Hp).
  assert (Ho : in_order 1100 [(1100, AmCleanup)] 1100) by (cbn [in_order]; lia).
  refine (gossip_once 1800 [(1100, AmCleanup)] 1100 (sample_node 6) f _ _ _ _ 1100 f _ _ _ _
            (Ha _ Hne Ht) Ho (Ha _ _ Ht) _ _).
  - unfold MAX_ANNOUNCE_CLOCK_SKEW. lia.
  - rewrite am_run_node_id, process_node_id. exact Hne.
  - apply not_after_preorder.
  - done.
Defined.
