(* ===== verification/Frames.v ===== *)
(** * Frames of the daemon (forge-node/src/network.rs)

    The builders every message of the daemon goes through (sign, then encode),
    the receiving side that decodes and verifies, and the fixed-size HELLO
    frames of the handshake.  A panic of the encoder would be an outcome; the
    lemmas show there is none.  The clock reading of a HELLO is an argument. *)

From stdpp Require Import base numbers list gmap strings.
From S2P Require Import Prelude Types Codec Text Intent Crypto.

Section Frames.
Context `{Ed25519}.

(** ** Building *)

(** A failure to sign or encode gives the empty message, which callers check. *)
Definition sign_and_encode_frame (k : Keypair) (f : Frame) : outcome False (list Z) :=
  match FrameSigner_sign k f with
  | (f, Ok _) =>
      match encode f (replicate (Z.to_nat (wire_size f + 32)) 0) with
      | Ok (buffer, size) => Ok (take (Z.to_nat size) buffer)
      | Err _ => Ok []
      | Panic => Panic
      end
  | (_, Err _) => Ok []
  | (_, Panic) => Panic
  end.

Definition simple_frame (k : Keypair) (ft : FrameType) (t : TraceId) (h : IntentHash)
    (p : list Z) (r : option RoutingExt) : Frame :=
  let hd := with_intent (with_trust_level (FrameHeader_new ft (Keypair_node_id k)) Sig) h in
  let f := Frame_new hd PRaw p in
  mkFrame (Types.header f) (Some t) r (fragment_info f) (payload_header f) (payload f) (auth f).

Definition build_simple_frame (k : Keypair) (ft : FrameType) (t : TraceId) (h : IntentHash)
    (p : list Z) (r : option RoutingExt) : outcome False (list Z) :=
  sign_and_encode_frame k (simple_frame k ft t h p r).

Definition build_ping_frame (k : Keypair) (t : TraceId) := build_simple_frame k FPing t IntentHash_zero [] None.
Definition build_pong_frame (k : Keypair) (t : TraceId) := build_simple_frame k FPong t IntentHash_zero [] None.
Definition build_intent_frame (k : Keypair) (h : IntentHash) (t : TraceId) (p : list Z) (r : option RoutingExt) :=
  build_simple_frame k FIntent t h p r.
Definition build_fulfill_frame (k : Keypair) (h : IntentHash) (t : TraceId) (p : list Z) (r : option RoutingExt) :=
  build_simple_frame k FFulfill t h p r.
Definition build_error_frame (k : Keypair) (h : IntentHash) (t : TraceId) (reason : text) (r : option RoutingExt) :=
  build_simple_frame k FError t h (as_bytes reason) r.

(** [nanos ^ counter], the time since the epoch and a process-wide counter. *)
Definition next_trace_id (nanos counter : Z) : TraceId :=
  TraceId_from_u64 (Z.lxor (nanos mod 2 ^ 64) counter).

(** ** Receiving *)

Definition decode_verified_frame (data : list Z) : outcome False (option Frame) :=
  match decode data with
  | Panic => Panic
  | Err _ => Ok None
  | Ok d =>
      let f := to_frame d in
      match FrameVerifier_verify f with
      | Ok true => Ok (Some f)
      | Ok false => Ok None
      | Err _ => Ok None
      | Panic => Panic
      end
  end.

(** ** HELLO *)

Definition HELLO_MSG_TYPE : Z := 1.
Definition HELLO_ACK_MSG_TYPE : Z := 2.
Definition AXIO : list Z := [65; 88; 73; 79].

Definition hello_fields (k : Keypair) (msg_type timestamp : Z) : list (list Z) :=
  [AXIO; [1]; [msg_type]; Keypair_node_id k; to_be 8 timestamp].
Definition build_frame (k : Keypair) (msg_type timestamp : Z) : list Z :=
  let buf := concat (hello_fields k msg_type timestamp) in
  buf ++ Keypair_sign k buf.
Definition build_hello_frame (k : Keypair) (timestamp : Z) := build_frame k HELLO_MSG_TYPE timestamp.
Definition build_hello_reply_frame (k : Keypair) (timestamp : Z) := build_frame k HELLO_ACK_MSG_TYPE timestamp.

Definition frame_msg_type (data : list Z) : option Z := data !! 5%nat.

Definition extract_sender_with_timestamp (data : list Z) : option (NodeId * Z) :=
  if len data <? 110 then None
  else if decide (at_slice data 0 4 ≠ AXIO) then None
  else
    let id := at_slice data 6 38 in
    let timestamp := from_be (at_slice data 38 46) in
    let s := at_slice data 46 110 in
    if NodeId_verify id (at_slice data 0 46) s then Some (id, timestamp) else None.
Definition extract_sender (data : list Z) : option NodeId := fst <$> extract_sender_with_timestamp data.
End Frames.

(** ** Lemmas *)

Section Lemmas.
Context `{Ed25519}.

(** What goes on the wire of a frame the daemon builds. *)
Definition signed (k : Keypair) (f : Frame) : Frame := (FrameSigner_sign k f).1.

Record message_ok (k : Keypair) (ft : FrameType) (t : TraceId) (h : IntentHash) (p : list Z)
    (r : option RoutingExt) : Prop := {
  mo_key : keypair_ok k;
  mo_type : FrameType_to_u8 ft < 32 ∧ 0 ≤ FrameType_to_u8 ft ∧ FrameType_from_u8 (FrameType_to_u8 ft) = ft;
  mo_trace : array_ok 8 t;
  mo_intent : array_ok 16 h;
  mo_routing : option_ok routing_ok r;
  mo_payload : bytes_ok p ∧ len p ≤ MAX_PAYLOAD_SIZE
}.

Lemma signed_simple_frame k ft t h p r :
  signed k (simple_frame k ft t h p r)
  = set_auth (simple_frame k ft t h p r)
      (AuthSignature (Keypair_sign k (signature_data (simple_frame k ft t h p r)))).
Proof. reflexivity. Qed.

Lemma simple_frame_encodable k ft t h p r s :
  message_ok k ft t h p r → array_ok 64 s →
  encodable (set_auth (simple_frame k ft t h p r) (AuthSignature s)).
Proof.
  intros [Hk (Ht & Ht0 & Htr) Hi Hh Hr [Hp Hn]] Hs. unfold MAX_PAYLOAD_SIZE in *.
  pose proof (len_nonneg p) as H0. assert (El : len p mod 2 ^ 32 = len p) by (apply Z.mod_small; lia).
  split; try done; cbn; rewrite ?El; try lia; try done.
  split; cbn; rewrite ?El; try done; try lia. unfold header_ok, clock_ok. cbn.
  split_and!; try lia; try done; apply ed_public_ok.
Qed.

Lemma simple_frame_writable k ft t h p r : message_ok k ft t h p r → writable (simple_frame k ft t h p r).
Proof.
  intros Hm. assert (Hz : array_ok 64 Signature_zero) by (by apply (array_ok_replicate 64 0)).
  exact (encodable_writable _ (simple_frame_encodable k ft t h p r _ Hm Hz)).
Qed.

Lemma build_simple_frame_wire k ft t h p r :
  message_ok k ft t h p r →
  encodable (signed k (simple_frame k ft t h p r))
  ∧ build_simple_frame k ft t h p r = Ok (wire (signed k (simple_frame k ft t h p r))).
Proof.
  intros Hm. rewrite signed_simple_frame. set (f := set_auth _ _).
  assert (He : encodable f) by (apply simple_frame_encodable; [done|apply ed_sign_ok]).
  split; [done|]. unfold build_simple_frame, sign_and_encode_frame. cbn [FrameSigner_sign].
  change (FrameSigner_sign k (simple_frame k ft t h p r)) with (f, @Ok SignError unit tt). cbn iota.
  pose proof (encodable_writable _ He) as Hw. pose proof (len_wire f Hw) as HL. pose proof (len_nonneg (wire f)).
  rewrite encode_writes_wire by (done || rewrite len_replicate; lia). cbn iota.
  f_equal. apply take_app_exact. lia.
Qed.

Lemma signed_verifies k ft t h p r :
  message_ok k ft t h p r → FrameVerifier_verify (signed k (simple_frame k ft t h p r)) = Ok true.
Proof.
  intros Hm. pose proof (simple_frame_writable _ _ _ _ _ _ Hm) as Hw. rewrite signed_simple_frame.
  set (s := Keypair_sign k _).
  change (FrameVerifier_verify _) with
    (@Ok SignError bool (NodeId_verify (Keypair_node_id k)
       (signature_data (set_auth (simple_frame k ft t h p r) (AuthSignature s))) s)).
  rewrite signature_data_auth by (done || apply ed_sign_ok). f_equal.
  apply sign_verifies, (mo_key _ _ _ _ _ _ Hm).
Qed.

Lemma decode_verified_wire f :
  encodable f → FrameVerifier_verify f = Ok true → decode_verified_frame (wire f) = Ok (Some f).
Proof.
  intros He Hv. unfold decode_verified_frame. rewrite <- (app_nil_r (wire f)), decode_of_wire by done.
  replace (to_frame (of_frame f)) with f by (by destruct f). by rewrite Hv.
Qed.

Lemma decode_verified_built k ft t h p r :
  message_ok k ft t h p r →
  ∃ data, build_simple_frame k ft t h p r = Ok data
          ∧ decode_verified_frame data = Ok (Some (signed k (simple_frame k ft t h p r))).
Proof.
  intros Hm. destruct (build_simple_frame_wire _ _ _ _ _ _ Hm) as [He Hb].
  eexists. split; [exact Hb|]. by apply decode_verified_wire, signed_verifies.
Qed.

(** A datagram that does not start with the magic bits is no frame. *)
Lemma decode_wrong_magic b data d : Z.shiftr b 6 ≠ MAGIC → decode (b :: data) ≠ Ok d.
Proof.
  intros Hb. unfold decode. destruct (Z.ltb_spec (len (b :: data)) MIN_FRAME_SIZE) as [|Hl]; [done|].
  change MIN_FRAME_SIZE with 62 in Hl.
  assert (Hs : slice (E:=CodecError) (b :: data) 0 (0 + FIXED_HEADER_SIZE) = Ok (b :: take 57 data))
    by (unfold slice; by rewrite decide_True by (change FIXED_HEADER_SIZE with 58; lia)).
  assert (Hlen : len (take 57 data) = 57) by (unfold len in *; rewrite length_take; cbn in Hl; lia).
  assert (Hf : decode_fixed_header (b :: take 57 data) = Err InvalidMagic).
  { unfold decode_fixed_header, index. rewrite !decide_True by (rewrite !len_cons; lia).
    cbn [mbind outcome_bind nth Z.to_nat]. by rewrite (proj2 (Z.eqb_neq _ _)). }
  rewrite Hs. cbn [mbind outcome_bind]. by rewrite Hf.
Qed.
Lemma verified_magic data f : decode_verified_frame data = Ok (Some f) → ∃ b rest, data = b :: rest ∧ Z.shiftr b 6 = MAGIC.
Proof.
  unfold decode_verified_frame. destruct (decode data) as [d| |] eqn:Ed; [|done..]. intros _.
  destruct data as [|b rest]; [done|]. exists b, rest. split; [done|].
  destruct (decide (Z.shiftr b 6 = MAGIC)) as [|Hb]; [done|]. by apply decode_wrong_magic in Ed.
Qed.

Lemma decode_verified_no_panic data : bytes_ok data → decode_verified_frame data ≠ Panic.
Proof.
  intros Hd. unfold decode_verified_frame. pose proof (decode_no_panic data Hd) as Hn.
  destruct (decode data) as [d| |]; [|done|done]. unfold FrameVerifier_verify.
  destruct (trust_level (Types.header (to_frame d))), (auth (to_frame d)); try done; by destruct (NodeId_verify _ _ _).
Qed.

(** A payload above the limit is not sent. *)
Lemma build_oversized k ft t h p r :
  MAX_PAYLOAD_SIZE < len p → build_simple_frame k ft t h p r = Ok [].
Proof.
  intros Hp. unfold build_simple_frame, sign_and_encode_frame.
  set (f := set_auth (simple_frame k ft t h p r)
    (AuthSignature (Keypair_sign k (signature_data (simple_frame k ft t h p r))))).
  change (FrameSigner_sign k (simple_frame k ft t h p r)) with (f, @Ok SignError unit tt). cbn iota.
  assert (Hs : 0 ≤ wire_size f).
  { subst f. unfold wire_size. cbn. pose proof (len_nonneg p). unfold FIXED_HEADER_SIZE, TRACE_ID_SIZE,
      ROUTING_EXT_SIZE, NODE_ID_SIZE, SIGNATURE_SIZE. destruct r; cbn; lia. }
  unfold encode. rewrite len_replicate. rewrite (proj2 (Z.ltb_ge _ _)) by lia.
  change (payload f) with p. by rewrite (proj2 (Z.ltb_lt _ _)) by lia.
Qed.
End Lemmas.

Section Properties.
Context `{Ed25519}.

(** Messages between daemons.  Everything a daemon builds is decoded and
    accepted at the other end as the frame that was meant: same type, trace,
    intent, routing and payload, from the builder's identity.  A payload above the
    limit gives the empty message.  And no bytes make the receiver panic; what it
    accepts carries, at a signing trust level, a signature of the claimed sender
    over the frame's signed bytes. *)
Theorem frame_exchange k ft t h p r :
  (message_ok k ft t h p r →
     ∃ data f, build_simple_frame k ft t h p r = Ok data ∧ data ≠ []
       ∧ decode_verified_frame data = Ok (Some f)
       ∧ frame_type (Types.header f) = ft ∧ sender_id (Types.header f) = Keypair_node_id k
       ∧ intent_hash (Types.header f) = h ∧ trace_id f = Some t ∧ routing f = r ∧ payload f = p)
  ∧ (MAX_PAYLOAD_SIZE < len p → build_simple_frame k ft t h p r = Ok [])
  ∧ (∀ data, bytes_ok data → decode_verified_frame data ≠ Panic
       ∧ ∀ f, decode_verified_frame data = Ok (Some f) →
           (trust_level (Types.header f) = Full ∨ trust_level (Types.header f) = Sig)
           ∧ ∃ s, auth f = AuthSignature s
               ∧ verify_key (sender_id (Types.header f)) (signature_data f) s = true).
Proof.
  split_and!.
  - intros Hm. destruct (build_simple_frame_wire _ _ _ _ _ _ Hm) as [He Hb].
    eexists _, _. split_and!; [exact Hb| |apply decode_verified_wire; [exact He|by apply signed_verifies]|done..].
    intros E. apply (f_equal len) in E. rewrite len_wire in E by (by apply encodable_writable).
    revert E. rewrite signed_simple_frame. unfold wire_size. cbn. pose proof (len_nonneg p).
    unfold FIXED_HEADER_SIZE, TRACE_ID_SIZE, ROUTING_EXT_SIZE, NODE_ID_SIZE, SIGNATURE_SIZE.
    destruct r; cbn; rewrite len_nil; lia.
  - apply build_oversized.
  - intros data Hd. unfold decode_verified_frame.
    pose proof (decode_no_panic data Hd) as Hn.
    destruct (decode data) as [d|e|]; [|done|done].
    unfold FrameVerifier_verify. destruct (trust_level (Types.header (to_frame d))) eqn:Et;
      [| |split; done|split; done];
      destruct (auth (to_frame d)) as [s| |] eqn:Ea; try (split; done);
      destruct (NodeId_verify _ _ _) eqn:Ev; (split; [done|]); intros f [= <-];
      rewrite Et; (split; [tauto|]); exists s; by split.
Qed.

Lemma length_hello k ty ts : length (concat (hello_fields k ty ts)) = 46%nat.
Proof.
  destruct (ed_public_ok (secret_bytes k)) as [Hl _]. cbn. rewrite length_app.
  change (Keypair_node_id k) with (ed_public (secret_bytes k)). rewrite Hl. reflexivity.
Qed.

(** The handshake frames.  A HELLO or its reply is read back as the identity
    and time it was built with, its type can be peeked, and an accepted frame
    starts with the magic and is signed by the identity it names over everything
    before the signature.  Neither the version byte nor anything after the
    signature is looked at. *)
Theorem hello_exchange k ty ts :
  (keypair_ok k → 0 ≤ ts < 2 ^ 64 →
     extract_sender_with_timestamp (build_frame k ty ts) = Some (Keypair_node_id k, ts)
     ∧ extract_sender (build_frame k ty ts) = Some (Keypair_node_id k)
     ∧ frame_msg_type (build_frame k ty ts) = Some ty)
  ∧ (∀ data id t, extract_sender_with_timestamp data = Some (id, t) ↔
       110 ≤ len data ∧ at_slice data 0 4 = AXIO ∧ id = at_slice data 6 38 ∧ t = from_be (at_slice data 38 46)
       ∧ verify_key id (at_slice data 0 46) (at_slice data 46 110) = true).
Proof.
  assert (Hiff : ∀ data id t, extract_sender_with_timestamp data = Some (id, t) ↔
       110 ≤ len data ∧ at_slice data 0 4 = AXIO ∧ id = at_slice data 6 38 ∧ t = from_be (at_slice data 38 46)
       ∧ verify_key id (at_slice data 0 46) (at_slice data 46 110) = true).
  { intros data id t. unfold extract_sender_with_timestamp, NodeId_verify.
    destruct (Z.ltb_spec (len data) 110); [split; [done|lia]|].
    case_decide as Hm; [naive_solver|].
    destruct (verify_key _ _ _) eqn:Ev;
      (split; [intros [= <- <-]; by split_and!|intros (_ & _ & -> & -> & Hv); first [done | by rewrite Ev in Hv]]). }
  split; [|exact Hiff]. intros Hk Hts.
  assert (Hx : extract_sender_with_timestamp (build_frame k ty ts) = Some (Keypair_node_id k, ts)).
  { apply Hiff. unfold build_frame. pose proof (length_hello k ty ts) as Hl.
    set (s := Keypair_sign k _). destruct (ed_sign_ok (secret_bytes k) (concat (hello_fields k ty ts))) as [Hs _].
    destruct (ed_public_ok (secret_bytes k)) as [Hi _].
    assert (Es : length s = 64%nat) by exact Hs. fold (public_key_bytes k) in Hi. fold (Keypair_node_id k) in Hi.
    rewrite (at_slice_tail (concat (hello_fields k ty ts)) s 46 110) by lia.
    assert (E0 : at_slice (concat (hello_fields k ty ts) ++ s) 0 46 = concat (hello_fields k ty ts))
      by (apply (at_slice_app []); [done|cbn [length]; lia]).
    rewrite E0. pose proof (at_slice_field (hello_fields k ty ts ++ [s])) as Hf.
    rewrite concat_app in Hf. cbn [concat] in Hf. rewrite app_nil_r in Hf.
    rewrite (Hf 0%nat AXIO), (Hf 3%nat (Keypair_node_id k)), (Hf 4%nat (to_be 8 ts)) by
      (first [done | cbn; rewrite ?app_nil_r, ?length_app, Hi; reflexivity]).
    split_and!; [unfold len; rewrite length_app; lia|done|done|by rewrite from_be_to_be|by apply sign_verifies]. }
  split_and!; [done|unfold extract_sender; by rewrite Hx|done].
Qed.
End Properties.
