(* ===== verification/Dispatch.v ===== *)
(** * Capability dispatch (forge-node/src/network.rs)

    What happens to a verified Intent: the capability is looked up, the policy is
    asked, the payload is parsed into a target, and the UAI broker is called.
    The broker is a service: class [Uai] gives its reply to each call, and the
    calls made are recorded in order, so that theorems can say what a request
    makes the daemon do.  A handler's result is the payload of a Fulfill or the
    reason of an Error.  JSON printing is a parameter, clock readings and random
    identifiers are arguments. *)

From stdpp Require Import base numbers list gmap strings.
From S2P Require Import Prelude Types Codec Text Intent Scan Policy Approval AuditTrail Sanitize Crypto Frames.

(** ** The broker *)

Record UaiConfig := mkUai { base_url : text; uai_token : text }.

(** A call of [/registry/dispatch]: the tool and its arguments. *)
Record UaiCall := mkCall { tool_name : text; input_args : Value }.

Inductive http_result :=
  | HttpUnreachable (e : text)
  | HttpBadReply (e : text)
  | HttpReply (v : Value).

Class Uai := {
  client_error : option text;
  uai_reply : UaiConfig → list UaiCall → UaiCall → http_result
}.

(** [Value::to_string] *)
Class JsonPrint := { json_to_string : Value → text }.

(** Calls are appended to the trace; an error ends the handler. *)
Definition broker (A : Type) : Type := list UaiCall → list UaiCall * (A + text).
#[export] Instance broker_ret : MRet broker := λ A a calls, (calls, inl a).
#[export] Instance broker_bind : MBind broker := λ A B k m calls,
  match m calls with
  | (calls', inl a) => k a calls'
  | (calls', inr e) => (calls', inr e)
  end.
Definition broker_err {A} (e : text) : broker A := λ calls, (calls, inr e).
Definition broker_res {A} (r : A + text) : broker A := λ calls, (calls, r).

(** ** JSON accessors *)

Definition json_get (v : Value) (k : text) : option Value :=
  match v with
  | VObject fields => first_some (λ kv, if decide (kv.1 = k) then Some kv.2 else None) fields
  | _ => None
  end.
Definition as_bool (v : Value) : option bool := match v with VBool b => Some b | _ => None end.
Definition as_str (v : Value) : option text := match v with VString s => Some s | _ => None end.
Definition as_array (v : Value) : option (list Value) := match v with VArray l => Some l | _ => None end.
Definition get_str (v : Value) (k : text) : option text := json_get v k ≫= as_str.
Definition get_bool (v : Value) (k : text) : option bool := json_get v k ≫= as_bool.

(** [{:?}] of a slice of plain names. *)
Definition debug_list (l : list text) : text :=
  str "[" ++ join (str ", ") (map (λ s, 34 :: s ++ [34]) l) ++ str "]".
Definition quoted (s : text) : text := str "'" ++ s ++ str "'".

Section Broker.
Context `{Uai}.

Definition build_client : broker unit :=
  match client_error with
  | Some e => broker_err (str "building HTTP client: " ++ e)
  | None => mret tt
  end.

Definition uai_dispatch (uai : UaiConfig) (tool : text) (args : Value) : broker Value := λ calls,
  let call := mkCall tool args in
  let calls' := calls ++ [call] in
  match uai_reply uai calls call with
  | HttpUnreachable e => (calls', inr (str "UAI unreachable: " ++ e))
  | HttpBadReply e => (calls', inr (str "bad UAI reply: " ++ e))
  | HttpReply resp =>
      if bool_decide (get_bool resp (str "ok") = Some true) then (calls', inl resp)
      else
        let reason := default (str "unknown error") (get_str resp (str "error")) in
        (calls', inr (tool ++ str ": " ++ reason))
  end.
Definition uai_ok (resp : Value) : text := fmt_bool (default false (get_bool resp (str "ok"))).
End Broker.

(** ** notify_send *)

Definition prepare_notify_message (payload : list Z) : text + text :=
  let raw := from_utf8_lossy payload in
  if decide (trim raw = []) then inr (str "notify_send: payload is empty")
  else
    let s := sanitize_str raw in
    inl (if truncated s then san_value s ++ str " [truncated]" else san_value s).

Definition send_notification `{Uai} (uai : UaiConfig) (topic : text) (payload : list Z) : broker text :=
  message ← broker_res (prepare_notify_message payload);
  _ ← build_client;
  resp ← uai_dispatch uai (str "ntfy_send") (VObject [(str "message", VString message); (str "topic", VString topic)]);
  mret (default (str "sent") (get_str resp (str "id"))).

(** ** proxmox_restart *)

Inductive ProxmoxResourceKind := Lxc | Vm.
Definition kind_as_str (k : ProxmoxResourceKind) : text := match k with Lxc => str "lxc" | Vm => str "vm" end.
Definition kind_tool_name (k : ProxmoxResourceKind) : text :=
  match k with Lxc => str "lxc_restart" | Vm => str "vm_reset" end.
Record ProxmoxRestartTarget := mkProxmox { px_kind : ProxmoxResourceKind; vmid : Z }.
Definition proxmox_canonical (t : ProxmoxRestartTarget) : text :=
  kind_as_str (px_kind t) ++ str ":" ++ fmt_int (vmid t).

Definition parse_kind (s : text) : ProxmoxResourceKind + text :=
  let k := to_ascii_lowercase (trim s) in
  if decide (k = str "lxc") then inl Lxc
  else if decide (k = str "vm") then inl Vm
  else inr (str "proxmox_restart: unknown resource kind " ++ quoted k ++ str " - expected 'lxc' or 'vm'").

Definition parse_proxmox_restart_target (payload : list Z) : ProxmoxRestartTarget + text :=
  let trimmed := trim (from_utf8_lossy payload) in
  if decide (trimmed = []) then
    inr (str "proxmox_restart: payload is empty - expected 'lxc:<vmid>' or 'vm:<vmid>'")
  else
    match split_once 58 trimmed with
    | None => inr (str "proxmox_restart: " ++ quoted trimmed
                   ++ str " is not in the expected 'lxc:<vmid>' or 'vm:<vmid>' form")
    | Some (kind_str, vmid_str) =>
        match parse_kind kind_str with
        | inr e => inr e
        | inl kind =>
            match parse_u32 (trim vmid_str) with
            | None => inr (str "proxmox_restart: " ++ quoted (trim vmid_str)
                           ++ str " is not a valid VMID (expected a positive integer)")
            | Some n =>
                if n =? 0 then inr (str "proxmox_restart: VMID 0 is never a real guest - refusing")
                else inl (mkProxmox kind n)
            end
        end
    end.

Definition restart_proxmox_resource `{Uai} (uai : UaiConfig) (t : ProxmoxRestartTarget) : broker text :=
  _ ← build_client;
  resp ← uai_dispatch uai (kind_tool_name (px_kind t)) (VObject [(str "vmid", VNumber (vmid t))]);
  mret (str "restarted " ++ proxmox_canonical t ++ str " (uai ok=" ++ uai_ok resp ++ str ")").

(** ** home_assistant_toggle *)

Inductive HaAction := HaOn | HaOff | HaToggle.
#[export] Instance HaAction_eq_dec : EqDecision HaAction.
Proof. solve_decision. Defined.
Definition ha_as_str (a : HaAction) : text :=
  match a with HaOn => str "on" | HaOff => str "off" | HaToggle => str "toggle" end.
Definition ha_tool_name (a : HaAction) : text :=
  match a with HaOn => str "ha_turn_on" | HaOff => str "ha_turn_off" | HaToggle => str "ha_toggle" end.
Definition ALLOWED_HA_DOMAINS : list text :=
  [str "light"; str "switch"; str "fan"; str "input_boolean"; str "scene"].
Record HaToggleTarget := mkHa { ha_action : HaAction; entity_id : text }.
Definition ha_canonical (t : HaToggleTarget) : text := ha_as_str (ha_action t) ++ str ":" ++ entity_id t.

Definition parse_ha_action (s : text) : HaAction + text :=
  let a := to_ascii_lowercase (trim s) in
  if decide (a = str "on") then inl HaOn
  else if decide (a = str "off") then inl HaOff
  else if decide (a = str "toggle") then inl HaToggle
  else inr (str "home_assistant_toggle: unknown action " ++ quoted a
            ++ str " - expected 'on', 'off', or 'toggle'").

Definition ha_bad_entity (e : text) : text :=
  str "home_assistant_toggle: " ++ quoted e ++ str " is not a valid entity_id (expected 'domain.object_id')".

Definition parse_ha_toggle_target (payload : list Z) : HaToggleTarget + text :=
  let trimmed := trim (from_utf8_lossy payload) in
  if decide (trimmed = []) then
    inr (str "home_assistant_toggle: payload is empty - expected '<on|off|toggle>:<entity_id>'")
  else
    match split_once 58 trimmed with
    | None => inr (str "home_assistant_toggle: " ++ quoted trimmed
                   ++ str " is not in the expected '<on|off|toggle>:<entity_id>' form")
    | Some (action_str, entity_id_str) =>
        match parse_ha_action action_str with
        | inr e => inr e
        | inl action =>
            let e := trim entity_id_str in
            if decide (e = []) then inr (str "home_assistant_toggle: entity_id is empty")
            else
              match split_once 46 e with
              | None => inr (ha_bad_entity e)
              | Some (domain, object_id) =>
                  if decide (domain = [] ∨ object_id = []) then inr (ha_bad_entity e)
                  else if decide (domain ∉ ALLOWED_HA_DOMAINS) then
                    inr (str "home_assistant_toggle: domain " ++ quoted domain ++ str " is not permitted - only "
                         ++ debug_list ALLOWED_HA_DOMAINS
                         ++ str " are allowed (locks, covers/garage doors, alarm panels, valves, sirens, cameras, and climate devices are deliberately excluded - see parse_ha_toggle_target's doc comment)")
                  else if decide (domain = str "scene" ∧ action ≠ HaOn) then
                    inr (str "home_assistant_toggle: 'scene' entities only support 'on' (activation) - Home Assistant has no scene off/toggle service, got action "
                         ++ quoted (ha_as_str action))
                  else inl (mkHa action e)
              end
        end
    end.

Definition call_ha_action `{Uai} (uai : UaiConfig) (t : HaToggleTarget) : broker text :=
  _ ← build_client;
  resp ← uai_dispatch uai (ha_tool_name (ha_action t)) (VObject [(str "entity_id", VString (entity_id t))]);
  mret (str "home_assistant_toggle " ++ ha_canonical t ++ str " (uai ok=" ++ uai_ok resp ++ str ")").

(** ** docker_restart *)

Definition ALLOWED_DOCKER_CONTAINERS : list text :=
  [str "infra-watchtower"; str "lib-calibre-web"; str "dl-bazarr"; str "ntl-snmpsim"].
Definition HARD_DENIED_DOCKER_CONTAINERS : list text := [str "ai-uai"; str "forge-node"].
Record DockerRestartTarget := mkDocker { docker_name : text }.

(** First character alphanumeric, the others alphanumeric or in [more]. *)
Definition valid_name (more : list Z) (s : text) : bool :=
  match s with
  | [] => false
  | c :: s' => is_ascii_alphanumeric c && forallb (λ c, is_ascii_alphanumeric c || bool_decide (c ∈ more)) s'
  end.

Definition parse_docker_restart_target (payload : list Z) : DockerRestartTarget + text :=
  let name := trim (from_utf8_lossy payload) in
  if decide (name = []) then inr (str "docker_restart: payload is empty - expected a container name")
  else if 128 <? len (as_bytes name) then
    inr (str "docker_restart: container name is too long (" ++ fmt_int (len (as_bytes name)) ++ str " chars, max 128)")
  else if negb (valid_name (str "_.-") name) then
    inr (str "docker_restart: " ++ quoted name
         ++ str " is not a valid Docker container name (expected [a-zA-Z0-9][a-zA-Z0-9_.-]*)")
  else if existsb (λ denied, eq_ignore_ascii_case denied name) HARD_DENIED_DOCKER_CONTAINERS then
    inr (str "docker_restart: " ++ quoted name
         ++ str " is hard-denied in code and can never be targeted, regardless of policy (it is either AXIOM's own UAI broker path or forge-node itself)")
  else if decide (name ∉ ALLOWED_DOCKER_CONTAINERS) then
    inr (str "docker_restart: " ++ quoted name ++ str " is not on the allowlist - only "
         ++ debug_list ALLOWED_DOCKER_CONTAINERS
         ++ str " may be restarted via this capability (see parse_docker_restart_target's doc comment for why)")
  else inl (mkDocker name).

Definition restart_docker_container `{Uai} (uai : UaiConfig) (t : DockerRestartTarget) : broker text :=
  _ ← build_client;
  resp ← uai_dispatch uai (str "docker_restart") (VObject [(str "name", VString (docker_name t))]);
  mret (str "docker_restart " ++ docker_name t ++ str " (uai ok=" ++ uai_ok resp ++ str ")").

(** ** network_clients and wg_peers_list *)

Definition fetch_wg_peers_list `{Uai} `{JsonPrint} (uai : UaiConfig) : broker text :=
  _ ← build_client;
  clients ← uai_dispatch uai (str "wg_clients") (VObject []);
  mret (json_to_string (sanitize_and_wrap_untrusted_json
          (str "wg_peers_list (WireGuard peer records via UAI/wg-easy)") clients)).

Definition fetch_network_clients `{Uai} `{JsonPrint} (uai : UaiConfig) : broker text :=
  _ ← build_client;
  kp ← uai_dispatch uai (str "keepass_lookup")
         (VObject [(str "title", VString (str "omada controller (Local)")); (str "password", VBool true)]);
  entry ← broker_res (match json_get kp (str "entry") with
                  | Some e => inl e | None => inr (str "keepass_lookup: reply missing entry") end);
  username ← broker_res (match get_str entry (str "username") with
                     | Some s => inl s | None => inr (str "keepass_lookup: entry missing username") end);
  password ← broker_res (match get_str entry (str "password") with
                     | Some s => inl s | None => inr (str "keepass_lookup: entry missing password") end);
  clients ← uai_dispatch uai (str "omada_clients")
              (VObject [(str "host", VString (str "192.168.1.14")); (str "port", VNumber 8043);
                        (str "username", VString username); (str "password", VString password)]);
  mret (json_to_string (sanitize_and_wrap_untrusted_json
          (str "network_clients (Omada client records via UAI)") clients)).

(** ** wg_peer_manage *)

Definition HARD_DENIED_WG_PEER_TARGETS : list text := [str "larry-laptop"; str "phone"].
Definition MAX_WG_PEER_NAME_LEN : Z := 64.

Inductive WgPeerAction := WgCreate | WgDelete | WgEnable | WgDisable.
#[export] Instance WgPeerAction_eq_dec : EqDecision WgPeerAction.
Proof. solve_decision. Defined.
Definition wg_as_str (a : WgPeerAction) : text :=
  match a with
  | WgCreate => str "create" | WgDelete => str "delete" | WgEnable => str "enable" | WgDisable => str "disable"
  end.
Definition reduces_access (a : WgPeerAction) : bool :=
  match a with WgDelete | WgDisable => true | _ => false end.
Record WgPeerManageTarget := mkWgTarget { wg_action : WgPeerAction; wg_name : text }.

Definition parse_wg_action (s : text) : WgPeerAction + text :=
  let a := to_ascii_lowercase (trim s) in
  if decide (a = str "create") then inl WgCreate
  else if decide (a = str "delete") then inl WgDelete
  else if decide (a = str "enable") then inl WgEnable
  else if decide (a = str "disable") then inl WgDisable
  else inr (str "wg_peer_manage: unknown action " ++ quoted a
            ++ str " - expected 'create', 'delete', 'enable', or 'disable'").

Definition parse_wg_peer_manage_target (payload : list Z) : WgPeerManageTarget + text :=
  let trimmed := trim (from_utf8_lossy payload) in
  if decide (trimmed = []) then
    inr (str "wg_peer_manage: payload is empty - expected '<create|delete|enable|disable>:<peer name>'")
  else
    match split_once 58 trimmed with
    | None => inr (str "wg_peer_manage: " ++ quoted trimmed
                   ++ str " is not in the expected '<create|delete|enable|disable>:<peer name>' form")
    | Some (action_str, name_str) =>
        match parse_wg_action action_str with
        | inr e => inr e
        | inl action =>
            let name := trim name_str in
            if decide (name = []) then inr (str "wg_peer_manage: peer name is empty")
            else if MAX_WG_PEER_NAME_LEN <? len (as_bytes name) then
              inr (str "wg_peer_manage: peer name is too long (" ++ fmt_int (len (as_bytes name))
                   ++ str " chars, max " ++ fmt_int MAX_WG_PEER_NAME_LEN ++ str ")")
            else if negb (valid_name (str "_.- ") name) then
              inr (str "wg_peer_manage: " ++ quoted name
                   ++ str " is not a valid peer name (expected to start with a letter/digit, and contain only letters, digits, spaces, '_', '.', '-')")
            else if reduces_access action
                    && existsb (λ denied, eq_ignore_ascii_case denied name) HARD_DENIED_WG_PEER_TARGETS then
              inr (str "wg_peer_manage: " ++ quoted name ++ str " is hard-denied in code for "
                   ++ quoted (wg_as_str action)
                   ++ str " and can never be targeted by it, regardless of policy - it is one of Larry's own currently-relied-upon WireGuard peers (see HARD_DENIED_WG_PEER_TARGETS's own doc comment)")
            else inl (mkWgTarget action name)
        end
    end.

(** The first record with the name: identifier, enabled, connected. *)
Definition find_wg_peer (clients : list Value) (name : text) : option (text * bool * bool) :=
  first_some (λ c,
    if decide (get_str c (str "name") = Some name) then
      Some (default [] (get_str c (str "id")), default true (get_bool c (str "enabled")),
            default false (get_bool c (str "connected")))
    else None) clients.

Definition resolve_wg_peer_by_name `{Uai} (uai : UaiConfig) (name : text) : broker (option (text * bool * bool)) :=
  _ ← build_client;
  resp ← uai_dispatch uai (str "wg_clients") (VObject []);
  mret (find_wg_peer (default [] (json_get resp (str "clients") ≫= as_array)) name).

Record WgPeerManageCapability := mkWgCap {
  wc_uai : UaiConfig;
  wc_action : WgPeerAction;
  wc_name : text;
  resolved_id : option text;
  prior_enabled : bool
}.

Definition wg_tool (a : WgPeerAction) : text :=
  match a with
  | WgCreate => str "wg_create_client" | WgDelete => str "wg_delete_client"
  | WgEnable => str "wg_enable_client" | WgDisable => str "wg_disable_client"
  end.

Definition wg_perform `{Uai} (c : WgPeerManageCapability) : broker text :=
  _ ← build_client;
  match wc_action c with
  | WgCreate =>
      resp ← uai_dispatch (wc_uai c) (wg_tool WgCreate) (VObject [(str "name", VString (wc_name c))]);
      let new_id := default (str "(unknown id)") (json_get resp (str "data") ≫= λ d, get_str d (str "id")) in
      mret (str "wg_peer_manage create " ++ quoted (wc_name c) ++ str " succeeded (new id=" ++ new_id ++ str ")")
  | WgDelete =>
      id ← broker_res (match resolved_id c with
                   | Some id => inl id | None => inr (str "internal error: no resolved client id for delete") end);
      _ ← uai_dispatch (wc_uai c) (wg_tool WgDelete) (VObject [(str "client_id", VString id)]);
      mret (str "wg_peer_manage delete " ++ quoted (wc_name c) ++ str " succeeded (id=" ++ id ++ str ")")
  | a =>
      id ← broker_res (match resolved_id c with
                   | Some id => inl id | None => inr (str "internal error: no resolved client id") end);
      _ ← uai_dispatch (wc_uai c) (wg_tool a) (VObject [(str "client_id", VString id)]);
      mret (str "wg_peer_manage " ++ wg_as_str a ++ str " " ++ quoted (wc_name c)
            ++ str " succeeded (id=" ++ id ++ str ")")
  end.

Definition wg_dry_run (c : WgPeerManageCapability) : list DryRunDiffEntry :=
  match wc_action c with
  | WgCreate => [mkDiff (str "peer") (str "(does not exist)") (str "created, name=" ++ quoted (wc_name c))]
  | WgDelete => [mkDiff (str "peer") (str "exists, enabled=" ++ fmt_bool (prior_enabled c)) (str "permanently deleted")]
  | WgEnable => [mkDiff (str "enabled") (fmt_bool (prior_enabled c)) (str "true")]
  | WgDisable => [mkDiff (str "enabled") (fmt_bool (prior_enabled c)) (str "false")]
  end.

(** The capability object with the broker it acts on. *)
#[export] Instance wg_capability `{Uai} : Tier2Capability (WgPeerManageCapability * list UaiCall) := {|
  capability_name := str "wg_peer_manage";
  dry_run w _ := Some (wg_dry_run w.1);
  execute w _ := let '(calls, r) := wg_perform w.1 w.2 in ((w.1, calls), r)
|}.

(** ** Dispatch *)

Record DispatchContext := mkContext {
  dc_identity : Keypair;
  dc_local_capabilities : list text;
  dc_uai_config : option UaiConfig;
  dc_notify_topic : option text
}.

(** The shared state behind the context: policy, approval records (the flow holds
    the same policy), and the broker's trace. *)
Record DispatchState := mkDispatch {
  ds_policy : CapabilityPolicy;
  ds_flow : option flow;
  ds_calls : list UaiCall
}.
Definition shared_flow (p : CapabilityPolicy) (f : flow) : flow := mkFlow (default_expiry f) (records f) p.

(** Readings taken during a request: wall clock, monotonic clocks, a random
    identifier, and what the host reports of itself. *)
Record Readings := mkReadings {
  rd_unix : Z;
  rd_now : Z;
  rd_propose : Z;
  rd_intent_id : IntentId;
  rd_hostname : option text;
  rd_uptime_secs : option Z
}.

Definition KNOWN_CAPABILITY_NAMES : list text :=
  [str "echo"; str "sysinfo"; str "network_clients"; str "notify_send"; str "proxmox_restart";
   str "home_assistant_toggle"; str "docker_restart"; str "wg_peers_list"; str "wg_peer_manage"].

(** The uptime read from [/proc/uptime] is already a number of seconds here. *)
Definition collect_sysinfo (hostname : option text) (uptime_secs : option Z) : list Z :=
  as_bytes (str "hostname=" ++ default (str "unknown") (trim <$> hostname) ++ str " uptime_secs="
            ++ match uptime_secs with Some s => fmt_int s | None => str "unknown" end).

Section Dispatch.
Context `{Blake3} `{Lowercase} `{HexCodec} `{StdFormat} `{Uai} `{JsonPrint}.

(** A handler: the state afterwards and the Fulfill payload or the Error reason. *)
Definition handler_result : Type := DispatchState * (list Z + text).

(** [match f(uai).await { Ok(reply) => Fulfill, Err(e) => Error }] *)
Definition run_broker (s : DispatchState) (m : broker text) : handler_result :=
  match m (ds_calls s) with
  | (calls, inl t) => (mkDispatch (ds_policy s) (ds_flow s) calls, inl (as_bytes t))
  | (calls, inr e) => (mkDispatch (ds_policy s) (ds_flow s) calls, inr e)
  end.

Definition not_configured (cap : text) : text := cap ++ str " not configured on this node".

Definition dispatch_network_clients (c : DispatchContext) (s : DispatchState) : handler_result :=
  match dc_uai_config c with
  | None => (s, inr (not_configured (str "network_clients")))
  | Some uai => run_broker s (fetch_network_clients uai)
  end.

Definition dispatch_notify_send (c : DispatchContext) (s : DispatchState) (payload : list Z) : handler_result :=
  match dc_uai_config c, dc_notify_topic c with
  | Some uai, Some topic => run_broker s (send_notification uai topic payload)
  | _, _ => (s, inr (not_configured (str "notify_send")))
  end.

Definition target_param (canonical : text) : list Constraint := [Constraint_string (str "target") canonical].

(** Parse, ask the policy about the target, then act: the shape of the three
    restart and toggle capabilities. *)
Definition dispatch_target {T} (cap : text) (parse : list Z → T + text) (canonical : T → text)
    (act : UaiConfig → T → broker text) (c : DispatchContext) (s : DispatchState) (payload : list Z) :
    handler_result :=
  match parse payload with
  | inr e => (s, inr e)
  | inl t =>
      match check_denied_param_substrings (ds_policy s) cap (target_param (canonical t)) with
      | Some reason => (s, inr reason)
      | None =>
          match dc_uai_config c with
          | None => (s, inr (not_configured cap))
          | Some uai => run_broker s (act uai t)
          end
      end
  end.

Definition dispatch_proxmox_restart :=
  dispatch_target (str "proxmox_restart") parse_proxmox_restart_target proxmox_canonical restart_proxmox_resource.
Definition dispatch_home_assistant_toggle :=
  dispatch_target (str "home_assistant_toggle") parse_ha_toggle_target ha_canonical call_ha_action.
Definition dispatch_docker_restart :=
  dispatch_target (str "docker_restart") parse_docker_restart_target docker_name restart_docker_container.

Definition dispatch_wg_peers_list (c : DispatchContext) (s : DispatchState) : handler_result :=
  match dc_uai_config c with
  | None => (s, inr (not_configured (str "wg_peers_list")))
  | Some uai => run_broker s (fetch_wg_peers_list uai)
  end.

(** [Display] of the proposal errors. *)
Definition display_match (m : ProtectedMatch) : text :=
  str "parameter " ++ quoted (parameter_key m) ++ str " (value " ++ debug_str (matched_value m)
  ++ str ") references protected resource " ++ default (str "<unnamed>") (resource_name m)
  ++ str " (mac " ++ resource_mac m
  ++ match resource_ip m with Some ip => str ", ip " ++ ip | None => [] end ++ str ")".
Definition display_propose_error (e : ProposeError) : text :=
  match e with
  | ProtectedResourceSectionMissing =>
      str "proposal rejected: this policy has no [[protected_resource]] section at all - failing closed until one exists (even an empty one)"
  | TargetsProtectedResource m => str "proposal rejected: " ++ display_match m
  | ArgumentConstraintViolation reason => str "proposal rejected: " ++ reason
  end.

Definition wg_params (t : WgPeerManageTarget) : list Constraint :=
  [Constraint_string (str "action") (wg_as_str (wg_action t)); Constraint_string (str "target") (wg_name t)].

Definition wg_proposed_reply (id : IntentId) (t : WgPeerManageTarget) : text :=
  str "wg_peer_manage: Tier 2 approval requested (intent " ++ IntentId_to_hex id ++ str ") for action="
  ++ quoted (wg_as_str (wg_action t)) ++ str " target=" ++ quoted (wg_name t)
  ++ str ". A Telegram approval request has been sent to the configured chat; this request expires "
  ++ fmt_int (as_secs DEFAULT_EXPIRY / 60)
  ++ str " minutes from now if not answered. Check wg_peers_list (or the audit log) afterward for the actual outcome - this reply only confirms the request was proposed, not that it was approved or executed.".

(** The identifier and prior state of the named peer; nothing to resolve for a new one. *)
Definition wg_resolve (uai : UaiConfig) (t : WgPeerManageTarget) : broker (option text * bool) :=
  match wg_action t with
  | WgCreate => mret (None, false)
  | a =>
      r ← resolve_wg_peer_by_name uai (wg_name t);
      match r with
      | Some (id, enabled, _) => mret (Some id, enabled)
      | None => broker_err (str "wg_peer_manage: no WireGuard peer named " ++ quoted (wg_name t)
                        ++ str " exists - nothing to " ++ wg_as_str a)
      end
  end.

(** The request path of a Tier 2 capability, and what it leaves to the
    background task: the intent and the capability object. *)
Definition background : Type := option (IntentId * WgPeerManageCapability).

Definition dispatch_wg_peer_manage (rd : Readings) (c : DispatchContext) (s : DispatchState)
    (payload : list Z) (sender : NodeId) : outcome False (handler_result * background) :=
  match parse_wg_peer_manage_target payload with
  | inr e => Ok ((s, inr e), None)
  | inl t =>
      match check_denied_param_substrings (ds_policy s) (str "wg_peer_manage") (wg_params t) with
      | Some reason => Ok ((s, inr reason), None)
      | None =>
          match dc_uai_config c, ds_flow s with
          | None, _ => Ok ((s, inr (not_configured (str "wg_peer_manage") ++ str " (no UAI backend)")), None)
          | Some _, None =>
              Ok ((s, inr (not_configured (str "wg_peer_manage")
                 ++ str " (no Tier 2 approval channel - see telegram_bot_token/telegram_chat_id in config.toml)")), None)
          | Some uai, Some f =>
              match wg_resolve uai t (ds_calls s) with
              | (calls, inr e) => Ok ((mkDispatch (ds_policy s) (ds_flow s) calls, inr e), None)
              | (calls, inl (id, enabled)) =>
                  let cap := mkWgCap uai (wg_action t) (wg_name t) id enabled in
                  match propose (rd_propose rd) (rd_intent_id rd) (shared_flow (ds_policy s) f) (cap, calls)
                          sender (wg_params t) with
                  | Panic => Panic
                  | Err e => Ok ((mkDispatch (ds_policy s) (ds_flow s) calls, inr (display_propose_error e)), None)
                  | Ok (f', iid) =>
                      Ok ((mkDispatch (ds_policy s) (Some f') calls, inl (as_bytes (wg_proposed_reply iid t))),
                          Some (iid, cap))
                  end
              end
          end
      end
  end.

(** The refusals of the policy. *)
Definition refusal (o : PolicyOutcome) : text :=
  match o with
  | NotAuthorized => str "not authorized for this capability"
  | RateLimited => str "rate limited, try again later"
  | AtConcurrencyLimit => str "too many concurrent requests for this capability, try again shortly"
  | Suspended => str "suspended by kill switch"
  | Frozen => str "tier1+ execution frozen by kill switch"
  | Allowed => []
  end.

(** [match name { .. }] *)
Definition run_capability (rd : Readings) (c : DispatchContext) (s : DispatchState) (name : text)
    (payload : list Z) (sender : NodeId) : outcome False (handler_result * background) :=
  let direct (r : handler_result) := Ok (r, None) in
  if decide (name = str "echo") then direct (s, inl payload)
  else if decide (name = str "sysinfo") then direct (s, inl (collect_sysinfo (rd_hostname rd) (rd_uptime_secs rd)))
  else if decide (name = str "network_clients") then direct (dispatch_network_clients c s)
  else if decide (name = str "notify_send") then direct (dispatch_notify_send c s payload)
  else if decide (name = str "proxmox_restart") then direct (dispatch_proxmox_restart c s payload)
  else if decide (name = str "home_assistant_toggle") then direct (dispatch_home_assistant_toggle c s payload)
  else if decide (name = str "docker_restart") then direct (dispatch_docker_restart c s payload)
  else if decide (name = str "wg_peers_list") then direct (dispatch_wg_peers_list c s)
  else if decide (name = str "wg_peer_manage") then dispatch_wg_peer_manage rd c s payload sender
  else direct (s, inr (str "capability recognized but has no handler")).

(** Up to the reply frame: the handler's result.  The permit is released when the
    request ends. *)
Definition dispatch_request (rd : Readings) (c : DispatchContext) (s : DispatchState)
    (h : IntentHash) (payload : list Z) (sender : NodeId) : outcome False (handler_result * background) :=
  match find (λ name, bool_decide (capability_hash name = h)) (dc_local_capabilities c) with
  | None => Ok ((s, inr (str "unknown capability")), None)
  | Some name =>
      if decide (name = str "network_clients") then
        Ok ((s, inr (str "network_clients disabled pending a properly-scoped UAI credential")), None)
      else
        match check_and_acquire (rd_unix rd) (rd_now rd) (ds_policy s) name sender with
        | (p, Allowed) =>
            match run_capability rd c (mkDispatch p (ds_flow s) (ds_calls s)) name payload sender with
            | Ok ((s', r), b) =>
                Ok ((mkDispatch (drop_permit (ds_policy s') name) (ds_flow s') (ds_calls s'), r), b)
            | Err e => Err e
            | Panic => Panic
            end
        | (p, o) => Ok ((mkDispatch p (ds_flow s) (ds_calls s), inr (refusal o)), None)
        end
  end.
End Dispatch.

Section Reply.
Context `{Blake3} `{Lowercase} `{HexCodec} `{StdFormat} `{Uai} `{JsonPrint} `{Ed25519}.

Definition reply_frame (c : DispatchContext) (h : IntentHash) (t : TraceId) (r : list Z + text)
    (routing : option RoutingExt) : outcome False (list Z) :=
  match r with
  | inl p => build_fulfill_frame (dc_identity c) h t p routing
  | inr reason => build_error_frame (dc_identity c) h t reason routing
  end.

Definition dispatch_intent (rd : Readings) (c : DispatchContext) (s : DispatchState) (h : IntentHash)
    (t : TraceId) (payload : list Z) (sender : NodeId) (routing : option RoutingExt) :
    outcome False (DispatchState * list Z * background) :=
  match dispatch_request rd c s h payload sender with
  | Ok ((s', r), b) =>
      match reply_frame c h t r routing with
      | Ok bytes => Ok (s', bytes, b)
      | Err e => Err e
      | Panic => Panic
      end
  | Err e => Err e
  | Panic => Panic
  end.
End Reply.

(** ** The background task *)

Section Background.
Context `{Blake3} `{Lowercase} `{HexCodec} `{SerdeJson} `{StdFormat} `{Uai}.

(** Decide, execute, and log the linked record when there is a log; a failed
    write is only warned about.  [t1..t3] are the clock readings of the flow,
    [now_ms], [now] those of the log entry. *)
Definition wg_background (request_approval : ApprovalRequest → ApprovalDecision + ApprovalChannelError)
    (t1 t2 t3 now_ms now : Z) (i : AuditTrail.io) (f : flow) (log : option AuditLog) (calls : list UaiCall)
    (iid : IntentId) (cap : WgPeerManageCapability) :
    flow * option AuditLog * list UaiCall * outcome FlowError IntentStatus :=
  let '(f', w, status) := decide_and_execute request_approval t1 t2 t3 f (cap, calls) iid in
  let log' :=
    match record f' iid, log with
    | Some r, Some l => Some (log_tier2_linked_record i now_ms now l r).1
    | _, _ => log
    end in
  (f', log', w.2, status).
End Background.

(** ** What the parsers accept *)

(** Two different literals for one text. *)
Ltac literals :=
  match goal with
  | H : ?x = ?a, E : ?x = ?b |- _ =>
      let C := fresh in assert (C : a = b) by (by rewrite <- H, <- E); vm_compute in C; discriminate C
  end.
Ltac by_keyword :=
  repeat case_decide;
  match goal with |- _ = inl ?a ↔ _ => destruct a end;
  (split; [intros [=]; assumption|intros E; first [reflexivity|by exfalso; literals|done]]).

Lemma parse_kind_iff s k : parse_kind s = inl k ↔ to_ascii_lowercase (trim s) = kind_as_str k.
Proof. unfold parse_kind. by_keyword. Qed.

Lemma parse_ha_action_iff s a : parse_ha_action s = inl a ↔ to_ascii_lowercase (trim s) = ha_as_str a.
Proof. unfold parse_ha_action. by_keyword. Qed.

Lemma parse_wg_action_iff s a : parse_wg_action s = inl a ↔ to_ascii_lowercase (trim s) = wg_as_str a.
Proof. unfold parse_wg_action. by_keyword. Qed.

(** [<head>:<rest>] after trimming, split at the first colon. *)
Definition headed (payload : list Z) (a b : text) : Prop :=
  trim (from_utf8_lossy payload) = a ++ 58 :: b ∧ 58 ∉ a.

Lemma headed_iff payload a b :
  headed payload a b ↔
  trim (from_utf8_lossy payload) ≠ [] ∧ split_once 58 (trim (from_utf8_lossy payload)) = Some (a, b).
Proof.
  unfold headed. rewrite split_once_Some. split; [|tauto]. intros [E Hn]. split; [|done].
  rewrite E. by destruct a.
Qed.

Lemma parse_proxmox_iff payload k n :
  parse_proxmox_restart_target payload = inl (mkProxmox k n) ↔
  ∃ a b, headed payload a b ∧ to_ascii_lowercase (trim a) = kind_as_str k
         ∧ parse_u32 (trim b) = Some n ∧ n ≠ 0.
Proof.
  unfold parse_proxmox_restart_target. setoid_rewrite headed_iff. setoid_rewrite <- parse_kind_iff. split.
  - case_decide as Hd; [done|]. destruct (split_once 58 _) as [[a b]|] eqn:Es; [|done].
    destruct (parse_kind a) as [k'|] eqn:Ek; [|done]. destruct (parse_u32 (trim b)) as [v|] eqn:Ev; [|done].
    destruct (Z.eqb_spec v 0); [done|]. intros [= -> ->]. by exists a, b.
  - intros (a & b & [Hd ->] & -> & -> & Hn). rewrite decide_False by done.
    by rewrite (proj2 (Z.eqb_neq _ _)).
Qed.

(** Entities of a permitted domain, and scenes only to be activated. *)
Definition permitted_entity (a : HaAction) (e : text) : Prop :=
  ∃ d o, e = d ++ (46 :: o) ∧ (46 ∉ d) ∧ (o ≠ []) ∧ d ∈ ALLOWED_HA_DOMAINS ∧ (d = str "scene" → a = HaOn).

Lemma parse_ha_iff payload a e :
  parse_ha_toggle_target payload = inl (mkHa a e) ↔
  ∃ x y, headed payload x y ∧ to_ascii_lowercase (trim x) = ha_as_str a ∧ e = trim y ∧ permitted_entity a e.
Proof.
  unfold parse_ha_toggle_target, permitted_entity. setoid_rewrite headed_iff. setoid_rewrite <- parse_ha_action_iff. split.
  - case_decide as Hd; [done|]. destruct (split_once 58 _) as [[x y]|] eqn:Exy; [|done].
    destruct (parse_ha_action x) as [a'|] eqn:Ea; [|done]. case_decide as He; [done|].
    destruct (split_once 46 (trim y)) as [[d o]|] eqn:Es; [|done]. apply split_once_Some in Es as [Es Hn].
    case_decide as Hdo; [done|]. case_decide as Hal; [done|]. case_decide as Hsc; [done|].
    intros [= -> <-]. exists x, y. split_and!; [done|done|done|done|]. exists d, o.
    split_and!; [done|done|tauto|done|]. intros ->. apply dec_stable. tauto.
  - intros (x & y & [Hd ->] & -> & -> & d & o & E & Hn & Ho & Hd' & Hs). rewrite decide_False by done.
    rewrite decide_False by (rewrite E; by destruct d).
    rewrite (proj2 (split_once_Some 46 (trim y) d o)) by done.
    assert (Hne : d ≠ []) by (intros ->; vm_compute in Hd'; set_solver).
    rewrite decide_False by tauto. rewrite decide_False by tauto. by rewrite decide_False by tauto.
Qed.

Lemma parse_docker_iff payload n :
  parse_docker_restart_target payload = inl (mkDocker n) ↔
  n = trim (from_utf8_lossy payload) ∧ n ∈ ALLOWED_DOCKER_CONTAINERS.
Proof.
  unfold parse_docker_restart_target. set (t := trim _). split.
  - repeat case_decide; repeat case_match; try done. intros [= <-]. done.
  - intros [-> Hn]. unfold ALLOWED_DOCKER_CONTAINERS in *.
    rewrite !elem_of_cons, elem_of_nil in Hn.
    destruct Hn as [E|[E|[E|[E|[]]]]]; rewrite E; vm_compute; reflexivity.
Qed.

(** Peer names: bounded, of plain characters, and not one of the peers that must
    keep their access when the action takes it away. *)
Record permitted_peer (a : WgPeerAction) (n : text) : Prop := {
  pp_bounded : 0 < len n ≤ MAX_WG_PEER_NAME_LEN;
  pp_plain : valid_name (str "_.- ") n = true;
  pp_kept : reduces_access a = true → ∀ d, d ∈ HARD_DENIED_WG_PEER_TARGETS →
              to_ascii_lowercase n ≠ to_ascii_lowercase d
}.

Lemma valid_name_ascii more n : Forall (λ c, 0 ≤ c < 128) more → valid_name more n = true → ascii_text n.
Proof.
  intros Hm. destruct n as [|c n]; [done|]. cbn. rewrite andb_true_iff, forallb_forall. intros [Hc Hn].
  assert (Ha : ∀ c, is_ascii_alphanumeric c = true → 0 ≤ c < 128).
  { intros x. unfold is_ascii_alphanumeric, is_ascii_digit. lia. }
  constructor; [by apply Ha|]. apply Forall_forall. intros x Hx.
  specialize (Hn x (proj1 (list_elem_of_In _ _) Hx)). apply orb_true_iff in Hn as [Hn|Hn]; [by apply Ha|].
  apply bool_decide_eq_true in Hn. rewrite Forall_forall in Hm. by apply Hm.
Qed.

Lemma plain_marks : Forall (λ c, 0 ≤ c < 128) (str "_.- ").
Proof. by repeat constructor. Qed.

Lemma parse_wg_iff payload a n :
  parse_wg_peer_manage_target payload = inl (mkWgTarget a n) ↔
  ∃ x y, headed payload x y ∧ to_ascii_lowercase (trim x) = wg_as_str a ∧ n = trim y ∧ permitted_peer a n.
Proof.
  assert (Hd : ∀ m, existsb (λ d, eq_ignore_ascii_case d m) HARD_DENIED_WG_PEER_TARGETS = false ↔
                    ∀ d, d ∈ HARD_DENIED_WG_PEER_TARGETS → to_ascii_lowercase m ≠ to_ascii_lowercase d).
  { intros m. rewrite <- not_true_iff_false, existsb_exists. split.
    - intros Hx d Hd E. apply Hx. exists d. split; [by apply list_elem_of_In|]. by apply bool_decide_eq_true.
    - intros Hx (d & Hd & E). apply bool_decide_eq_true in E.
      by apply (Hx d); [apply list_elem_of_In|symmetry]. }
  unfold parse_wg_peer_manage_target. setoid_rewrite headed_iff. setoid_rewrite <- parse_wg_action_iff. split.
  - case_decide as He; [done|]. destruct (split_once 58 _) as [[x y]|] eqn:Exy; [|done].
    destruct (parse_wg_action x) as [a'|] eqn:Ea; [|done]. case_decide as Hn; [done|].
    destruct (Z.ltb_spec MAX_WG_PEER_NAME_LEN (len (as_bytes (trim y)))); [done|].
    destruct (valid_name _ (trim y)) eqn:Ev; [|done]. cbn [negb].
    destruct (reduces_access a' && _) eqn:Er; [done|]. intros [= -> <-]. exists x, y.
    split_and!; [done|done|done|done|]. split; [|done|].
    + rewrite as_bytes_ascii in * by (by eapply valid_name_ascii; [apply plain_marks|]).
      destruct (trim y); [done|]. rewrite len_cons in *. pose proof (len_nonneg l). lia.
    + intros Hr. rewrite Hr in Er. by apply Hd.
  - intros (x & y & [He ->] & -> & -> & [Hl Hv Hk]). rewrite decide_False by done.
    rewrite decide_False by (intros E; rewrite E in Hl; unfold len in Hl; cbn in Hl; lia).
    rewrite as_bytes_ascii by (by eapply valid_name_ascii; [apply plain_marks|]).
    rewrite (proj2 (Z.ltb_ge _ _)) by lia. rewrite Hv. cbn [negb].
    destruct (reduces_access a); [|done]. cbn [andb]. by rewrite (proj2 (Hd _)) by auto.
Qed.

(** ** What a computation may ask of the broker *)

Section Calls.
Context `{Uai} `{JsonPrint}.

(** Every call made satisfies [P], and the trace only grows. *)
Definition asks_only {A} (P : UaiCall → Prop) (m : broker A) : Prop :=
  ∀ calls, ∃ new, (m calls).1 = calls ++ new ∧ Forall P new.

Lemma asks_ret {A} P (a : A) : asks_only P (mret a).
Proof. intros calls. exists []. by rewrite app_nil_r. Qed.
Lemma asks_res {A} P (r : A + text) : asks_only P (broker_res r).
Proof. intros calls. exists []. by rewrite app_nil_r. Qed.
Lemma asks_err {A} P e : asks_only P (@broker_err A e).
Proof. apply (asks_res P (inr e)). Qed.
Lemma asks_client P : asks_only P build_client.
Proof. unfold build_client. destruct client_error; [apply asks_err|apply asks_ret]. Qed.
Lemma asks_dispatch (P : UaiCall → Prop) uai tool args : P (mkCall tool args) → asks_only P (uai_dispatch uai tool args).
Proof.
  intros HP calls. exists [mkCall tool args]. split; [|by apply Forall_singleton].
  unfold uai_dispatch. destruct (uai_reply _ _ _); [done|done|]. by case_bool_decide.
Qed.
Lemma asks_bind {A B} P (m : broker A) (k : A → broker B) :
  asks_only P m → (∀ a, asks_only P (k a)) → asks_only P (m ≫= k).
Proof.
  intros Hm Hk calls. destruct (Hm calls) as (new & E & HF). unfold mbind, broker_bind.
  destruct (m calls) as [calls' [a|e]]; cbn in E; subst calls'.
  - destruct (Hk a (calls ++ new)) as (new' & E' & HF'). exists (new ++ new').
    rewrite E', <- app_assoc. split; [done|by apply Forall_app].
  - by exists new.
Qed.
Lemma asks_bind_res {A B} P (r : A + text) (k : A → broker B) :
  (∀ a, r = inl a → asks_only P (k a)) → asks_only P (broker_res r ≫= k).
Proof.
  intros Hk. destruct r as [a|e]; [|apply (asks_err P e)].
  intros calls. destruct (Hk a eq_refl calls) as (new & E & HF). by exists new.
Qed.
Lemma asks_weaken {A} (P Q : UaiCall → Prop) (m : broker A) :
  (∀ c, P c → Q c) → asks_only P m → asks_only Q m.
Proof.
  intros HPQ Hm calls. destruct (Hm calls) as (new & E & HF). exists new. split; [done|].
  by eapply Forall_impl.
Qed.
End Calls.

(** Walks through a computation, leaving the calls it makes. *)
Ltac asks :=
  repeat first [apply asks_bind_res; intros ? ? | apply asks_bind; [|intros ?] | apply asks_ret | apply asks_res
               | apply asks_err | apply asks_client | apply asks_dispatch].

Lemma prepare_notify_bounded payload m :
  prepare_notify_message payload = inl m → clean m ∧ (length m ≤ 268)%nat.
Proof.
  unfold prepare_notify_message. case_decide; [done|].
  destruct (sanitize_str_spec (from_utf8_lossy payload)) as (kept & _ & _ & ->). cbn [san_value truncated].
  set (l := take _ _). assert (Hc : clean l) by apply Forall_take, filter_clean.
  assert (Hl : (length l ≤ 256)%nat) by (subst l; rewrite length_take; unfold MAX_UNTRUSTED_STRING_CHARS; lia).
  clearbody l. case_match; intros [= <-]; [|split; [done|lia]]. split.
  - apply Forall_app. split; [done|]. by repeat constructor.
  - rewrite length_app. cbn [length]. lia.
Qed.

Section Effects.
Context `{Blake3} `{Lowercase} `{HexCodec} `{StdFormat} `{Uai} `{JsonPrint}.

(** The calls a request may lead to before anyone approves anything: the one
    action the capability stands for, on a target within its limits that the
    policy does not deny, or a read. *)
Inductive permitted_call (c : DispatchContext) (p : CapabilityPolicy) : text → UaiCall → Prop :=
  | PcNotify topic m :
      dc_notify_topic c = Some topic → clean m → (length m ≤ 268)%nat →
      permitted_call c p (str "notify_send")
        (mkCall (str "ntfy_send") (VObject [(str "message", VString m); (str "topic", VString topic)]))
  | PcProxmox k n :
      0 < n < 2 ^ 32 →
      check_denied_param_substrings p (str "proxmox_restart") (target_param (proxmox_canonical (mkProxmox k n))) = None →
      permitted_call c p (str "proxmox_restart") (mkCall (kind_tool_name k) (VObject [(str "vmid", VNumber n)]))
  | PcHa a e :
      permitted_entity a e →
      check_denied_param_substrings p (str "home_assistant_toggle") (target_param (ha_canonical (mkHa a e))) = None →
      permitted_call c p (str "home_assistant_toggle")
        (mkCall (ha_tool_name a) (VObject [(str "entity_id", VString e)]))
  | PcDocker n :
      n ∈ ALLOWED_DOCKER_CONTAINERS →
      check_denied_param_substrings p (str "docker_restart") (target_param n) = None →
      permitted_call c p (str "docker_restart") (mkCall (str "docker_restart") (VObject [(str "name", VString n)]))
  | PcWgList : permitted_call c p (str "wg_peers_list") (mkCall (str "wg_clients") (VObject []))
  | PcWgManage : permitted_call c p (str "wg_peer_manage") (mkCall (str "wg_clients") (VObject [])).

Lemma run_broker_asks s (m : broker text) P :
  asks_only P m →
  ∃ new, ds_calls (run_broker s m).1 = ds_calls s ++ new ∧ Forall P new
         ∧ ds_policy (run_broker s m).1 = ds_policy s ∧ ds_flow (run_broker s m).1 = ds_flow s.
Proof.
  intros Hm. destruct (Hm (ds_calls s)) as (new & E & HF). exists new. unfold run_broker.
  destruct (m (ds_calls s)) as [calls [a|e]]; cbn in E; subst; done.
Qed.

(** Policy and approval records as they were, and only permitted calls. *)
Definition only_calls (P : UaiCall → Prop) (s s' : DispatchState) : Prop :=
  (∃ new, ds_calls s' = ds_calls s ++ new ∧ Forall P new)
  ∧ ds_policy s' = ds_policy s ∧ ds_flow s' = ds_flow s.

Lemma only_calls_refl P s : only_calls P s s.
Proof. split_and!; [exists []; by rewrite app_nil_r|done|done]. Qed.

Lemma only_calls_run P s m : asks_only P m → only_calls P s (run_broker s m).1.
Proof. intros Hm. destruct (run_broker_asks s m P Hm) as (new & ? & ? & ? & ?). split_and!; eauto. Qed.

Lemma dispatch_notify_calls c s payload :
  only_calls (permitted_call c (ds_policy s) (str "notify_send")) s (dispatch_notify_send c s payload).1.
Proof.
  unfold dispatch_notify_send. destruct (dc_uai_config c); [|apply only_calls_refl].
  destruct (dc_notify_topic c) as [topic|] eqn:Et; [|apply only_calls_refl].
  apply only_calls_run. unfold send_notification. asks.
  match goal with E : prepare_notify_message _ = inl _ |- _ => apply prepare_notify_bounded in E as [Hc Hl] end.
  by constructor.
Qed.

Lemma dispatch_target_calls {T} (cap : text) parse canonical (act : UaiConfig → T → broker text) c s payload :
  (∀ uai t, parse payload = inl t →
     check_denied_param_substrings (ds_policy s) cap (target_param (canonical t)) = None →
     asks_only (permitted_call c (ds_policy s) cap) (act uai t)) →
  only_calls (permitted_call c (ds_policy s) cap) s (dispatch_target cap parse canonical act c s payload).1.
Proof.
  intros Ha. unfold dispatch_target. destruct (parse payload) as [t|e] eqn:Ep; [|apply only_calls_refl].
  destruct (check_denied_param_substrings _ _ _) eqn:Ed; [apply only_calls_refl|].
  destruct (dc_uai_config c); [|apply only_calls_refl]. by apply only_calls_run, Ha.
Qed.

Lemma dispatch_proxmox_calls c s payload :
  only_calls (permitted_call c (ds_policy s) (str "proxmox_restart")) s (dispatch_proxmox_restart c s payload).1.
Proof.
  apply dispatch_target_calls. intros uai [k n] Hp Hd. unfold restart_proxmox_resource. asks.
  apply parse_proxmox_iff in Hp as (u & v & _ & _ & Hn & Hz). apply parse_u32_range in Hn.
  apply PcProxmox; [cbn [vmid]; lia|done].
Qed.

Lemma dispatch_ha_calls c s payload :
  only_calls (permitted_call c (ds_policy s) (str "home_assistant_toggle")) s
    (dispatch_home_assistant_toggle c s payload).1.
Proof.
  apply dispatch_target_calls. intros uai [a e] Hp Hd. unfold call_ha_action. asks.
  apply parse_ha_iff in Hp as (x & y & _ & _ & _ & He). by constructor.
Qed.

Lemma dispatch_docker_calls c s payload :
  only_calls (permitted_call c (ds_policy s) (str "docker_restart")) s (dispatch_docker_restart c s payload).1.
Proof.
  apply dispatch_target_calls. intros uai [n] Hp Hd. unfold restart_docker_container. asks.
  apply parse_docker_iff in Hp as [_ Hn]. by constructor.
Qed.

Lemma dispatch_wg_list_calls c s :
  only_calls (permitted_call c (ds_policy s) (str "wg_peers_list")) s (dispatch_wg_peers_list c s).1.
Proof.
  unfold dispatch_wg_peers_list. destruct (dc_uai_config c); [|apply only_calls_refl].
  apply only_calls_run. unfold fetch_wg_peers_list. asks. constructor.
Qed.

(** A successful proposal passed the flow's own checks and registers one pending
    record; a proposal over well-formed parameters never panics. *)
Lemma propose_Ok {W} `{!Tier2Capability W} now id f (w : W) who ps f' iid :
  propose now id f w who ps = Ok (f', iid) →
  iid = id ∧ protected_resources_configured (flow_policy f) = true
  ∧ policy_find_protected_match (flow_policy f) ps = Ok None
  ∧ f' = put f id (mkRecord (Intent_propose now id who capability_name ps (dry_run w ps) (default_expiry f))
                     None None Pending).
Proof.
  unfold propose, propose_with_expiry. destruct (protected_resources_configured _); [|done]. cbn [negb].
  destruct (policy_find_protected_match _ _) as [[m|]|[]|]; [done| |done].
  destruct (check_denied_param_substrings _ _ _); [done|]. by intros [= <- <-].
Qed.

Lemma propose_no_panic {W} `{!Tier2Capability W} now id f (w : W) who ps :
  params_ok ps → propose now id f w who ps ≠ Panic.
Proof.
  intros Hp. unfold propose, propose_with_expiry, policy_find_protected_match.
  destruct (negb _); [done|].
  destruct (decide (protected_resources (flow_policy f) = [])) as [->|Hne].
  - cbn. by destruct (check_denied_param_substrings _ _ _).
  - rewrite find_protected_match_refines by done. destruct (first_some _ _); [done|].
    by destruct (check_denied_param_substrings _ _ _).
Qed.

Lemma wg_params_ok t payload : parse_wg_peer_manage_target payload = inl t → params_ok (wg_params t).
Proof.
  destruct t as [a n]. intros Hp. apply parse_wg_iff in Hp as (_ & _ & _ & _ & _ & [_ Hv _]).
  assert (Hn : Forall char_ok n).
  { eapply Forall_impl; [eapply valid_name_ascii; [apply plain_marks|exact Hv]|]. intros c Hc. left. cbn in Hc. lia. }
  repeat constructor; cbn; try done. destruct a; repeat constructor; cbn; lia.
Qed.

Lemma wg_resolve_asks c p uai t : asks_only (permitted_call c p (str "wg_peer_manage")) (wg_resolve uai t).
Proof.
  unfold wg_resolve, resolve_wg_peer_by_name.
  destruct (wg_action t); asks; try constructor; destruct (_ : option (text * bool * bool)) as [[[? ?] ?]|]; asks.
Qed.

(** What the request path of a Tier 2 capability leaves behind: at most one more
    pending record of the requester, for a permitted target, with the exact
    capability object that will be executed if it is approved. *)
Definition proposes (rd : Readings) (c : DispatchContext) (s : DispatchState) (payload : list Z)
    (sender : NodeId) (s' : DispatchState) (b : background) : Prop :=
  match b with
  | None => ds_flow s' = ds_flow s
  | Some (iid, cap) =>
      ∃ f, ds_flow s = Some f ∧ iid = rd_intent_id rd ∧ dc_uai_config c = Some (wc_uai cap)
        ∧ parse_wg_peer_manage_target payload = inl (mkWgTarget (wc_action cap) (wc_name cap))
        ∧ permitted_peer (wc_action cap) (wc_name cap)
        ∧ policy_find_protected_match (ds_policy s) (wg_params (mkWgTarget (wc_action cap) (wc_name cap))) = Ok None
        ∧ (wc_action cap ≠ WgCreate → is_Some (resolved_id cap))
        ∧ ds_flow s' = Some (put (shared_flow (ds_policy s) f) iid
            (mkRecord (Intent_propose (rd_propose rd) iid sender (str "wg_peer_manage")
               (wg_params (mkWgTarget (wc_action cap) (wc_name cap))) (Some (wg_dry_run cap)) (default_expiry f))
             None None Pending))
  end.

Lemma wg_resolve_id uai t calls calls' id e :
  wg_resolve uai t calls = (calls', inl (id, e)) → wg_action t ≠ WgCreate → is_Some id.
Proof.
  unfold wg_resolve. intros E Hn.
  destruct (wg_action t); [done|..];
    unfold mbind, broker_bind in E; destruct (resolve_wg_peer_by_name uai (wg_name t) calls) as [? [[[[? ?] ?]|]|]];
    try discriminate; injection E as <- <- <-; by eexists.
Qed.

Lemma dispatch_wg_calls rd c s payload sender :
  ∃ s' r b, dispatch_wg_peer_manage rd c s payload sender = Ok ((s', r), b)
    ∧ (∃ new, ds_calls s' = ds_calls s ++ new ∧ Forall (permitted_call c (ds_policy s) (str "wg_peer_manage")) new)
    ∧ ds_policy s' = ds_policy s ∧ proposes rd c s payload sender s' b.
Proof.
  assert (Hid : ∀ r : list Z + text, ∃ s' r' b, Ok ((s, r), None) = Ok (E:=False) ((s', r'), b)
    ∧ (∃ new, ds_calls s' = ds_calls s ++ new ∧ Forall (permitted_call c (ds_policy s) (str "wg_peer_manage")) new)
    ∧ ds_policy s' = ds_policy s ∧ proposes rd c s payload sender s' b).
  { intros r. exists s, r, None. split_and!; [done|exists []; by rewrite app_nil_r|done|done]. }
  unfold dispatch_wg_peer_manage. destruct (parse_wg_peer_manage_target payload) as [t|e] eqn:Ep; [|apply Hid].
  destruct (check_denied_param_substrings _ _ _); [apply Hid|].
  destruct (dc_uai_config c) as [uai|] eqn:Eu; [|apply Hid]. destruct (ds_flow s) as [f|] eqn:Ef; [|apply Hid].
  clear Hid. destruct (wg_resolve_asks c (ds_policy s) uai t (ds_calls s)) as (new & En & Hn).
  destruct (wg_resolve uai t (ds_calls s)) as [calls [[id en]|e]] eqn:Er; cbn [fst] in En; subst calls.
  2:{ do 3 eexists. split_and!; [done|by exists new|done|by cbn]. }
  set (cap := mkWgCap uai (wg_action t) (wg_name t) id en).
  pose proof (propose_no_panic (rd_propose rd) (rd_intent_id rd) (shared_flow (ds_policy s) f)
    (cap, ds_calls s ++ new) sender (wg_params t) (wg_params_ok t payload Ep)) as Hnp.
  destruct (propose _ _ _ _ _ _) as [[f' iid]|e|] eqn:Epr; [| |done].
  - apply propose_Ok in Epr as (-> & _ & Hm & ->). do 3 eexists. split_and!; [done|by exists new|done|].
    cbn [proposes]. exists f. destruct t as [a n]. pose proof Ep as Hpp.
    apply parse_wg_iff in Hpp as (_ & _ & _ & _ & _ & Hpp).
    split_and!; [done|done|done|done|done|done|by apply (wg_resolve_id _ _ _ _ _ _ Er)|done].
  - do 3 eexists. split_and!; [done|by exists new|done|by cbn].
Qed.

(** A handler's effects: the calls its capability permits, and a proposal only for
    the Tier 2 one. *)
Definition effects (rd : Readings) (c : DispatchContext) (s : DispatchState) (name : text) (payload : list Z)
    (sender : NodeId) (s' : DispatchState) (b : background) : Prop :=
  (∃ new, ds_calls s' = ds_calls s ++ new ∧ Forall (permitted_call c (ds_policy s) name) new)
  ∧ ds_policy s' = ds_policy s
  ∧ proposes rd c s payload sender s' b ∧ (b ≠ None → name = str "wg_peer_manage").

Lemma effects_of_calls rd c s name payload sender s' :
  only_calls (permitted_call c (ds_policy s) name) s s' → effects rd c s name payload sender s' None.
Proof. intros (Hc & Hp & Hf). by split_and!. Qed.

Lemma run_capability_effects rd c s name payload sender :
  name ≠ str "network_clients" →
  ∃ s' r b, run_capability rd c s name payload sender = Ok ((s', r), b)
            ∧ effects rd c s name payload sender s' b.
Proof.
  intros Hnc. unfold run_capability.
  assert (Hd : ∀ hr : handler_result, only_calls (permitted_call c (ds_policy s) name) s hr.1 →
    ∃ s' r b, Ok (hr, None) = Ok (E:=False) ((s', r), b) ∧ effects rd c s name payload sender s' b).
  { intros [s' r] Ho. exists s', r, None. split; [done|by apply effects_of_calls]. }
  case_decide; [apply Hd, only_calls_refl|]. case_decide; [apply Hd, only_calls_refl|].
  rewrite decide_False by done. case_decide as E; [rewrite E in Hd |- *; apply Hd, dispatch_notify_calls|clear E].
  case_decide as E; [rewrite E in Hd |- *; apply Hd, dispatch_proxmox_calls|clear E].
  case_decide as E; [rewrite E in Hd |- *; apply Hd, dispatch_ha_calls|clear E].
  case_decide as E; [rewrite E in Hd |- *; apply Hd, dispatch_docker_calls|clear E].
  case_decide as E; [rewrite E in Hd |- *; apply Hd, dispatch_wg_list_calls|clear E].
  case_decide as E; [|apply Hd, only_calls_refl]. rewrite E.
  destruct (dispatch_wg_calls rd c s payload sender) as (s' & r & b & Hr & Hc & Hp & Hb).
  exists s', r, b. split; [done|]. by split_and!.
Qed.

(** Permits on every capability. *)
Definition permits (p : CapabilityPolicy) (cap : text) : option Z := available <$> entries p !! cap.

Lemma check_and_acquire_permits u now p cap who k :
  let '(p', o) := check_and_acquire u now p cap who in
  permits (match o with Allowed => drop_permit p' cap | _ => p' end) k = permits p k.
Proof.
  unfold check_and_acquire. destruct (entries p !! cap) as [e|] eqn:E; [|done].
  destruct (decide (who ∈ _)); [done|]. destruct (negb _ && _); [done|]. destruct (negb _); [done|].
  destruct (rate_limited _ _ _ _ _); [done|]. destruct (0 <? available e); [|done].
  unfold permits, drop_permit, acquire_permit. cbn. destruct (decide (k = cap)) as [->|Hn].
  - rewrite !lookup_alter_eq, E. cbn. f_equal. lia.
  - by rewrite !lookup_alter_ne by done.
Qed.

(** C3: What a request makes the daemon do.  Every request is answered.  Nothing is
    asked of the broker and nothing is proposed unless the requested hash is that
    of a capability this node offers, other than the disabled network_clients, and
    the policy admitted the sender for it; then the broker is asked only what that
    capability permits (a cleaned notification of bounded length to the configured
    topic, one restart of a guest, one switch of an entity in an allowed domain,
    one restart of a container on the allowlist, or a list of peers), on a target
    the policy does not deny.  Changing a WireGuard peer is only proposed: one
    pending record of the sender, for a permitted peer.  When the request ends
    every permit is back. *)
Theorem dispatch_effects rd c s h payload sender :
  let '(p, admitted) :=
    match find (λ name, bool_decide (capability_hash name = h)) (dc_local_capabilities c) with
    | Some name => check_and_acquire (rd_unix rd) (rd_now rd) (ds_policy s) name sender
    | None => (ds_policy s, NotAuthorized)
    end in
  ∃ s' r b, dispatch_request rd c s h payload sender = Ok ((s', r), b)
    ∧ (∀ k, permits (ds_policy s') k = permits (ds_policy s) k)
    ∧ ((ds_calls s' = ds_calls s ∧ ds_flow s' = ds_flow s ∧ b = None ∧ ∃ reason, r = inr reason)
       ∨ ∃ name s1, admitted = Allowed ∧ name ∈ dc_local_capabilities c ∧ capability_hash name = h
           ∧ name ≠ str "network_clients"
           ∧ effects rd c (mkDispatch p (ds_flow s) (ds_calls s)) name payload sender s1 b
           ∧ s' = mkDispatch (drop_permit p name) (ds_flow s1) (ds_calls s1)).
Proof.
  unfold dispatch_request.
  destruct (find _ (dc_local_capabilities c)) as [name|] eqn:Ef.
  2:{ do 3 eexists. split_and!; [done|done|left; eauto]. }
  apply find_some in Ef as [Hin Hh]. apply bool_decide_eq_true in Hh. apply list_elem_of_In in Hin.
  pose proof (check_and_acquire_permits (rd_unix rd) (rd_now rd) (ds_policy s) name sender) as Hp.
  destruct (check_and_acquire _ _ _ _ _) as [p o].
  case_decide as Hn; [do 3 eexists; split_and!; [done|done|left; eauto]|].
  destruct (decide (o = Allowed)) as [->|Ho].
  - destruct (run_capability_effects rd c (mkDispatch p (ds_flow s) (ds_calls s)) name payload sender Hn)
      as (s1 & r & b & -> & He).
    destruct He as (Hc & Hpol & Hb). cbn in Hpol.
    do 3 eexists. split_and!; [done| |].
    + intros k. cbn. rewrite Hpol. apply Hp.
    + right. exists name, s1. split_and!; [done|done|done|done|exact (conj Hc (conj Hpol Hb))|by rewrite Hpol].
  - exists (mkDispatch p (ds_flow s) (ds_calls s)), (inr (refusal o)), None. split_and!.
    + by destruct o.
    + intros k. specialize (Hp k). by destruct o.
    + left. eauto.
Qed.
End Effects.

Section Replies.
Context `{Blake3} `{Lowercase} `{HexCodec} `{StdFormat} `{Uai} `{JsonPrint} `{Ed25519}.

Definition reply_payload (r : list Z + text) : list Z :=
  match r with inl p => p | inr reason => as_bytes reason end.
Definition reply_type (r : list Z + text) : FrameType := match r with inl _ => FFulfill | inr _ => FError end.

Lemma reply_frame_simple c h t r routing :
  reply_frame c h t r routing = build_simple_frame (dc_identity c) (reply_type r) t h (reply_payload r) routing.
Proof. by destruct r. Qed.

(** The reply reaches the requester.  The bytes dispatch_intent returns are
    accepted by the receiving side as a Fulfill with the handler's payload or an
    Error with its reason, signed by this node, for the intent and trace of the
    request and with the routing asked for; a reply above the payload limit is
    empty. *)
Theorem dispatch_reply rd c s h t payload sender routing s' r b :
  keypair_ok (dc_identity c) → array_ok 16 h → array_ok 8 t → option_ok routing_ok routing →
  dispatch_request rd c s h payload sender = Ok ((s', r), b) → bytes_ok (reply_payload r) →
  (len (reply_payload r) ≤ MAX_PAYLOAD_SIZE →
     ∃ bytes f, dispatch_intent rd c s h t payload sender routing = Ok (s', bytes, b)
       ∧ decode_verified_frame bytes = Ok (Some f)
       ∧ frame_type (Types.header f) = reply_type r ∧ Types.payload f = reply_payload r
       ∧ sender_id (Types.header f) = Keypair_node_id (dc_identity c)
       ∧ intent_hash (Types.header f) = h ∧ trace_id f = Some t ∧ Types.routing f = routing)
  ∧ (MAX_PAYLOAD_SIZE < len (reply_payload r) →
       dispatch_intent rd c s h t payload sender routing = Ok (s', [], b)).
Proof.
  intros Hk Hh Ht Hr Hd Hb. unfold dispatch_intent. rewrite Hd, reply_frame_simple. split.
  - intros Hl.
    assert (Hm : message_ok (dc_identity c) (reply_type r) t h (reply_payload r) routing)
      by (split; [done|by destruct r|done|done|done|done]).
    destruct (decode_verified_built _ _ _ _ _ _ Hm) as (data & -> & Hv).
    do 2 eexists. split_and!; [done|exact Hv|done..].
  - intros Hl. by rewrite build_oversized.
Qed.
End Replies.

Section Approved.
Context `{Blake3} `{Lowercase} `{HexCodec} `{SerdeJson} `{StdFormat} `{Uai}.

(** The one call that carries out the change. *)
Definition wg_call (cap : WgPeerManageCapability) : UaiCall :=
  mkCall (wg_tool (wc_action cap))
    (VObject [match wc_action cap with
              | WgCreate => (str "name", VString (wc_name cap))
              | _ => (str "client_id", VString (default [] (resolved_id cap)))
              end]).

Lemma wg_perform_asks cap : asks_only (λ x, x = wg_call cap) (wg_perform cap).
Proof.
  unfold wg_perform, wg_call. apply asks_bind; [apply asks_client|]. intros _.
  destruct (wc_action cap); [asks; reflexivity| | |];
    apply asks_bind_res; intros id E; destruct (resolved_id cap); try discriminate; injection E as <-; asks; reflexivity.
Qed.

(** At most one call: the change itself. *)
Lemma wg_perform_once cap calls :
  (wg_perform cap calls).1 = calls ∨ (wg_perform cap calls).1 = calls ++ [wg_call cap].
Proof.
  unfold wg_perform, mbind, broker_bind, build_client. destruct client_error; [by left|]. cbn.
  assert (Hd : ∀ uai tool args, (uai_dispatch uai tool args calls).1 = calls ++ [mkCall tool args]).
  { intros uai tool args. unfold uai_dispatch. destruct (uai_reply _ _ _); [done|done|]. by case_bool_decide. }
  unfold wg_call. destruct (wc_action cap); cbn [broker_res];
    [|destruct (resolved_id cap) as [id|]; [|by left]..];
    match goal with |- context [uai_dispatch ?u ?t ?a calls] =>
      specialize (Hd u t a); destruct (uai_dispatch u t a calls) as [? []]; cbn in Hd; subst; by right end.
Qed.

(** The decision that lets a change through. *)
Definition approved_change (request_approval : ApprovalRequest → ApprovalDecision + ApprovalChannelError)
    (t1 t2 : Z) (f : flow) (iid : IntentId) : Prop :=
  ∃ r d, records f !! iid = Some r ∧ status r = Pending
    ∧ request_approval (as_approval_request t1 (intent r)) = inl d
    ∧ approved d = true ∧ dec_intent_id d = iid
    ∧ is_expired t1 (intent r) = false ∧ is_expired t2 (intent r) = false
    ∧ verify_parameter_hash (intent r) = true.

(** No WireGuard peer changes without an approval.  The background task of a
    proposal asks the broker nothing, or exactly the one call of the proposed
    change; and it asks only when the intent was pending, unexpired when the
    channel was asked and when it answered, with the parameters it was proposed
    with, and the channel approved that very intent. *)
Theorem peer_change_approved ra t1 t2 t3 now_ms now i f log calls iid cap :
  let '(f', log', calls', st) := wg_background ra t1 t2 t3 now_ms now i f log calls iid cap in
  calls' = calls ∨ (calls' = calls ++ [wg_call cap] ∧ approved_change ra t1 t2 f iid).
Proof.
  unfold wg_background, decide_and_execute, decide_begin.
  destruct (records f !! iid) as [r|] eqn:Er; [|by left].
  destruct (bool_decide (status r = Pending)) eqn:Ep; [|by left]. apply bool_decide_eq_true in Ep. cbn [negb].
  destruct (is_expired t1 (intent r)) eqn:E1; [by left|].
  destruct (verify_parameter_hash (intent r)) eqn:Ev; [|by left]. cbn [negb].
  unfold decide_finish. destruct (ra (as_approval_request t1 (intent r))) as [d|e] eqn:Ed; [|by left].
  destruct (bool_decide (dec_intent_id d = iid)) eqn:Ei; [|by left]. apply bool_decide_eq_true in Ei. cbn [negb].
  unfold put at 1. cbn [records with_records]. rewrite lookup_insert_eq. cbn [set_status set_decision intent].
  destruct (approved d) eqn:Ea; [|by left]. cbn [negb].
  destruct (is_expired t2 (intent r)) eqn:E2; [by left|]. rewrite Ev. cbn [negb].
  cbn [execute wg_capability fst snd]. pose proof (wg_perform_once cap calls) as Ho.
  destruct (wg_perform cap calls) as [calls' out]. cbn [fst] in Ho. cbn [snd].
  destruct Ho as [-> | ->]; [by left|right]. split; [done|]. by exists r, d.
Qed.

(** What the approver sees of a proposal. *)
Definition wg_request (rd : Readings) (f : flow) (sender : NodeId) (iid : IntentId)
    (cap : WgPeerManageCapability) (t1 : Z) : ApprovalRequest :=
  let ps := wg_params (mkWgTarget (wc_action cap) (wc_name cap)) in
  mkRequest iid sender (str "wg_peer_manage") ps (Some (wg_dry_run cap))
    (compute_parameter_hash (str "wg_peer_manage") ps)
    (rd_propose rd + default_expiry f - t1).

(** From the proposal to the change.  When a request has proposed a change and
    the background task runs before the proposal expires, the channel is asked
    once, about exactly the action, peer and dry run of the capability object
    that will act, and its answer decides: an approval performs exactly that
    change and records what the broker answered, a denial records the denial, an
    error leaves the intent in progress; only the approval calls the broker. *)
Theorem peer_change_outcome `{!JsonPrint} rd c s payload sender s' iid cap ra t1 t2 t3 now_ms now i log calls f0 f :
  proposes rd c s payload sender s' (Some (iid, cap)) →
  ds_flow s = Some f0 → ds_flow s' = Some f →
  t1 < rd_propose rd + default_expiry f0 → t2 < rd_propose rd + default_expiry f0 →
  let '(f', log', calls', st) := wg_background ra t1 t2 t3 now_ms now i f log calls iid cap in
  match ra (wg_request rd f0 sender iid cap t1) with
  | inr e => st = Err (FE_Channel e) ∧ calls' = calls ∧ status_of f' iid = Some InProgress
  | inl d =>
      dec_intent_id d = iid →
      if approved d then
        calls' = (wg_perform cap calls).1
        ∧ match (wg_perform cap calls).2 with
          | inl _ => st = Ok Executed ∧ status_of f' iid = Some Executed
          | inr _ => st = Ok ExecutionFailed ∧ status_of f' iid = Some ExecutionFailed
          end
      else st = Ok Denied ∧ calls' = calls ∧ status_of f' iid = Some Denied
  end.
Proof.
  intros (f1 & Hf1 & -> & _ & _ & _ & _ & _ & Hs') Hf0 Hf Ht1 Ht2. rewrite Hf0 in Hf1. injection Hf1 as <-.
  rewrite Hf in Hs'. injection Hs' as ->. set (iid := rd_intent_id rd).
  set (it := Intent_propose _ _ _ _ _ _ _). set (r0 := mkRecord it None None Pending).
  assert (Hr : records (put (shared_flow (ds_policy s) f0) iid r0) !! iid = Some r0) by apply lookup_insert_eq.
  assert (He1 : is_expired t1 it = false) by (unfold is_expired; cbn; apply Z.leb_gt; lia).
  assert (He2 : is_expired t2 it = false) by (unfold is_expired; cbn; apply Z.leb_gt; lia).
  assert (Hv : verify_parameter_hash it = true) by (unfold verify_parameter_hash; by apply bool_decide_eq_true).
  assert (Hq : as_approval_request t1 it = wg_request rd f0 sender iid cap t1).
  { unfold as_approval_request, wg_request, remaining. cbn. f_equal. lia. }
  unfold wg_background, decide_and_execute, decide_begin. rewrite Hr.
  rewrite (bool_decide_eq_true_2 (status r0 = Pending)) by done. cbn [negb].
  change (intent r0) with it. rewrite He1, Hv, Hq. cbn [negb].
  unfold decide_finish, status_of. destruct (ra _) as [d|e].
  2:{ cbn. by rewrite lookup_insert_eq. }
  destruct (bool_decide (dec_intent_id d = iid)) eqn:Ei; cbn [negb].
  2:{ apply bool_decide_eq_false in Ei. by intros Hd. }
  assert (Hl : ∀ g x, records (put g iid x) !! iid = Some x) by (intros; apply lookup_insert_eq).
  rewrite Hl. cbn [set_status set_decision intent]. change (intent r0) with it.
  destruct (approved d); cbn [negb]; [rewrite He2, Hv; cbn [negb execute wg_capability fst snd]|].
  - destruct (wg_perform cap calls) as [calls' [o|e]]; cbn [fst snd]; intros _; by rewrite Hl.
  - intros _. by rewrite Hl.
Qed.
End Approved.

(** ** Examples *)

#[local] Existing Instance prefix_digest.
#[local] Existing Instance plain_format.
#[local] Existing Instance ed_reference.

Definition sample_uai : Uai := {|
  client_error := None;
  uai_reply _ _ _ := HttpReply (VObject [(str "ok", VBool true); (str "clients", VArray [])])
|}.
#[local] Existing Instance sample_uai.
Definition sample_print : JsonPrint := {| json_to_string _ := str "{}" |}.
#[local] Existing Instance sample_print.

Definition sample_context : DispatchContext :=
  mkContext sample_keypair [str "echo"; str "docker_restart"; str "wg_peer_manage"]
    (Some (mkUai (str "http://uai") (str "token"))) None.
Definition sample_entry (t : Tier) : CapabilityEntry := mkEntry {[peer_a := None]} 0 1 1 t [].
Definition sample_dispatch_policy : CapabilityPolicy :=
  mkPolicy (<[str "echo" := sample_entry Tier0]> (<[str "docker_restart" := sample_entry Tier1]>
    {[str "wg_peer_manage" := sample_entry Tier2]})) ∅ (Some []) KillSwitch_new.
Definition sample_flow : flow := flow_new sample_dispatch_policy.
Definition sample_state : DispatchState := mkDispatch sample_dispatch_policy (Some sample_flow) [].
Definition sample_readings : Readings := mkReadings 1000 5 7 (replicate 16 9) None None.

(** A container on the allowlist is restarted, any other is not. *)
Example docker_restart_runs :
  ds_calls (match dispatch_request sample_readings sample_context sample_state (capability_hash (str "docker_restart"))
                    (as_bytes (str " dl-bazarr ")) peer_a with Ok ((s, _), _) => s | _ => sample_state end)
  = [mkCall (str "docker_restart") (VObject [(str "name", VString (str "dl-bazarr"))])].
Proof. vm_compute. reflexivity. Qed.
Example docker_restart_refused :
  ds_calls (match dispatch_request sample_readings sample_context sample_state (capability_hash (str "docker_restart"))
                    (as_bytes (str "Forge-Node")) peer_a with Ok ((s, _), _) => s | _ => sample_state end) = [].
Proof. vm_compute. reflexivity. Qed.

Definition sample_echo_state : DispatchState :=
  match dispatch_request sample_readings sample_context sample_state (capability_hash (str "echo")) [1; 2; 3] peer_a with
  | Ok ((s, _), _) => s
  | _ => sample_state
  end.
Lemma sample_echo :
  dispatch_request sample_readings sample_context sample_state (capability_hash (str "echo")) [1; 2; 3] peer_a
  = Ok ((sample_echo_state, inl [1; 2; 3]), None).
Proof. vm_compute. reflexivity. Qed.

Lemma dispatch_reply_witness :
  ∃ bytes f,
    dispatch_intent sample_readings sample_context sample_state (capability_hash (str "echo"))
      (replicate 8 1) [1; 2; 3] peer_a None = Ok (sample_echo_state, bytes, None)
    ∧ decode_verified_frame bytes = Ok (Some f) ∧ frame_type (Types.header f) = FFulfill
    ∧ Types.payload f = [1; 2; 3].
Proof.
  assert (Hk : keypair_ok (dc_identity sample_context)) by (by apply (array_ok_replicate 32 5)).
  assert (Hh : array_ok 16 (capability_hash (str "echo"))) by (split; [reflexivity|by vm_compute; repeat constructor]).
  assert (Ht : array_ok 8 (replicate 8 1)) by (by apply (array_ok_replicate 8 1)).
  assert (Hb : bytes_ok (reply_payload (inl [1; 2; 3]))) by (by repeat constructor).
  pose proof (proj1 (dispatch_reply sample_readings sample_context sample_state (capability_hash (str "echo"))
    (replicate 8 1) [1; 2; 3] peer_a None sample_echo_state (inl [1; 2; 3]) None Hk Hh Ht I sample_echo Hb)) as Hr.
  destruct Hr as (bytes & f & Hd & Hv & Hf & Hp & _); [unfold MAX_PAYLOAD_SIZE, len; cbn [reply_payload length]; lia|].
  exists bytes, f. split_and!; [exact Hd|exact Hv|exact Hf|exact Hp].
Defined.

(** A proposal to create a peer. *)
Definition sample_cap : WgPeerManageCapability := mkWgCap (mkUai (str "http://uai") (str "token")) WgCreate (str "tablet") None false.
Definition sample_proposed : flow :=
  put (shared_flow sample_dispatch_policy sample_flow) (replicate 16 9)
    (mkRecord (Intent_propose 7 (replicate 16 9) peer_a (str "wg_peer_manage")
       (wg_params (mkWgTarget WgCreate (str "tablet"))) (Some (wg_dry_run sample_cap)) DEFAULT_EXPIRY) None None Pending).

Lemma sample_proposes :
  proposes sample_readings sample_context sample_state (as_bytes (str "create: tablet")) peer_a
    (mkDispatch sample_dispatch_policy (Some sample_proposed) []) (Some (replicate 16 9, sample_cap)).
Proof.
  exists sample_flow. split_and!; [done|done|done|by vm_compute| |by vm_compute|done|done].
  split; [vm_compute; split; [done|discriminate]|by vm_compute|done].
Qed.

Lemma peer_change_outcome_witness :
  let approve r := inl (mkDecision (req_intent_id r) true (str "telegram")) in
  let '(_, _, calls, st) :=
    wg_background approve 10 20 30 0 0 IoDone sample_proposed None [] (replicate 16 9) sample_cap in
  calls = (wg_perform sample_cap []).1 ∧ st = Ok Executed.
Proof.
  intros approve.
  pose proof (peer_change_outcome sample_readings sample_context sample_state (as_bytes (str "create: tablet")) peer_a
    (mkDispatch sample_dispatch_policy (Some sample_proposed) []) (replicate 16 9) sample_cap approve
    10 20 30 0 0 IoDone None [] sample_flow sample_proposed sample_proposes eq_refl eq_refl
    ltac:(vm_compute; reflexivity) ltac:(vm_compute; reflexivity)) as Ho.
  destruct (wg_background _ _ _ _ _ _ _ _ _ _ _ _) as [[[f' log'] calls'] st].
  destruct (Ho eq_refl) as (Hc & Hs & _). split; [exact Hc|exact Hs].
Defined.
