(* ===== verification/Semantic.v ===== *)
(** * Semantic routing (axiom-router/src/semantic.rs and the intents of ai.rs)

    Which node provides which capability, with indexes by category prefix and by
    tag, reputation scores, discovery and queries.  Hash maps are [gmap]s; where
    the code iterates over one, its order is the map's and no claim depends on
    it.  Scores are [u32], reputations are [f32] (F32.v). *)

From stdpp Require Import base numbers list gmap strings sorting.
From S2P Require Import Prelude Types Text Intent F32.

(** ** Data *)

(** A category is the list of its components. *)
Definition Category := list text.
Definition Category_from_str (s : text) : Category := split_char 58 s.
Definition category_matches (a b : Category) : bool :=
  if (length b <? length a)%nat then false
  else forallb (λ xy, bool_decide (xy.1 = xy.2)) (zip a b).
Definition category_depth (c : Category) : Z := Z.of_nat (length c).

Record SemanticCapability := mkSemantic {
  sc_intent_hash : IntentHash;
  sc_name : text;
  sc_category : Category;
  sc_tags : list text;
  sc_version : Z
}.
#[export] Instance SemanticCapability_eq_dec : EqDecision SemanticCapability.
Proof. solve_decision. Defined.

Definition SemanticCapability_new `{Blake3} (name : text) : SemanticCapability :=
  mkSemantic (capability_hash name) name (Category_from_str name) [] 10000.
Definition with_tag (c : SemanticCapability) (t : text) : SemanticCapability :=
  mkSemantic (sc_intent_hash c) (sc_name c) (sc_category c) (sc_tags c ++ [t]) (sc_version c).
Definition with_version (c : SemanticCapability) (major minor patch : Z) : SemanticCapability :=
  mkSemantic (sc_intent_hash c) (sc_name c) (sc_category c) (sc_tags c) (major * 10000 + minor * 100 + patch).

Inductive AiConstraint :=
  | MinTrust (t : TrustLevel)
  | MaxLatency (ms : Z)
  | MaxLoad (l : Z)
  | PreferAgent (a : NodeId)
  | ExcludeAgent (a : NodeId)
  | AiCustom (s : text).
Record AiIntent := mkAiIntent { ai_hash : IntentHash; ai_name : option text; ai_constraints : list AiConstraint }.
Definition AiIntent_from_str `{Blake3} (s : text) : AiIntent := mkAiIntent (capability_hash s) (Some s) [].
Definition AiIntent_from_hash (h : IntentHash) : AiIntent := mkAiIntent h None [].
Definition ai_with_constraint (i : AiIntent) (c : AiConstraint) : AiIntent :=
  mkAiIntent (ai_hash i) (ai_name i) (ai_constraints i ++ [c]).

Record DiscoveryResult := mkDiscovery {
  dr_agent : NodeId; dr_trust_level : TrustLevel; dr_latency_ms : Z; dr_load : Z; dr_score : Z
}.
Record SemanticRoute := mkSemanticRoute {
  sr_agent : NodeId; sr_capability : SemanticCapability; sr_trust_level : TrustLevel;
  match_score : Z; sr_latency_ms : Z; sr_load : Z
}.

Record SemanticRouter := mkRouterS {
  sr_capabilities : gmap IntentHash (list (NodeId * SemanticCapability));
  category_index : gmap text (list IntentHash);
  tag_index : gmap text (list IntentHash);
  reputation : gmap NodeId f32;
  sr_local_id : NodeId
}.
Definition SemanticRouter_new (id : NodeId) : SemanticRouter := mkRouterS ∅ ∅ ∅ ∅ id.

(** ** Registration *)

Definition other_node (n : NodeId) (e : NodeId * SemanticCapability) : Prop := e.1 ≠ n.
#[export] Instance other_node_dec n e : Decision (other_node n e).
Proof. unfold other_node. apply _. Defined.

(** Adds a hash under a key once. *)
Definition index_add (h : IntentHash) (idx : gmap text (list IntentHash)) (k : text) : gmap text (list IntentHash) :=
  let hashes := default [] (idx !! k) in
  if decide (h ∈ hashes) then <[k := hashes]> idx else <[k := hashes ++ [h]]> idx.

(** [path[..depth].join(":")] for every depth. *)
Definition category_prefixes (c : Category) : list text :=
  map (λ d, join (str ":") (take d c)) (seq 1 (length c)).

Definition semantic_register (r : SemanticRouter) (n : NodeId) (c : SemanticCapability) : SemanticRouter :=
  let h := sc_intent_hash c in
  let entries := filter (other_node n) (default [] (sr_capabilities r !! h)) ++ [(n, c)] in
  mkRouterS (<[h := entries]> (sr_capabilities r))
    (foldl (index_add h) (category_index r) (category_prefixes (sc_category c)))
    (foldl (index_add h) (tag_index r) (sc_tags c))
    (reputation r) (sr_local_id r).

Definition nonempty {A} (l : list A) : option (list A) := match l with [] => None | _ => Some l end.

(** [retain] on the hashes of every key, dropping keys left empty. *)
Definition index_remove (idx : gmap text (list IntentHash)) (h : IntentHash) : gmap text (list IntentHash) :=
  omap (λ hs, nonempty (filter (λ x, x ≠ h) hs)) idx.

Definition unregister_node (r : SemanticRouter) (n : NodeId) : SemanticRouter :=
  let removed := (filter (λ he, Exists (λ e, e.1 = n) he.2) (map_to_list (sr_capabilities r))).*1 in
  let caps := omap (λ es, nonempty (filter (other_node n) es)) (sr_capabilities r) in
  let gone := filter (λ h, caps !! h = None) removed in
  mkRouterS caps (foldl index_remove (category_index r) gone) (foldl index_remove (tag_index r) gone)
    (delete n (reputation r)) (sr_local_id r).

(** ** Lookups *)

Definition entries_of (r : SemanticRouter) (h : IntentHash) : list (NodeId * SemanticCapability) :=
  default [] (sr_capabilities r !! h).
Definition find_by_category (r : SemanticRouter) (prefix : text) : list SemanticCapability :=
  flat_map (λ h, (entries_of r h).*2) (default [] (category_index r !! prefix)).
Definition find_by_tag (r : SemanticRouter) (tag : text) : list SemanticCapability :=
  flat_map (λ h, filter (λ c, tag ∈ sc_tags c) (entries_of r h).*2) (default [] (tag_index r !! tag)).
Definition num_capabilities (r : SemanticRouter) : Z :=
  map_fold (λ _ es acc, len es + acc) 0 (sr_capabilities r).
Definition num_intents (r : SemanticRouter) : Z := Z.of_nat (size (sr_capabilities r)).

(** ** Reputation *)

Definition f32_min (a b : f32) : f32 :=
  match a, b with
  | SpecFloat.S754_nan, _ => b
  | _, SpecFloat.S754_nan => a
  | _, _ => if f32_gt a b then b else a
  end.
Definition f32_clamp01 (x : f32) : f32 :=
  if f32_gt (f32_of 0) x then f32_of 0 else if f32_gt x (f32_of 1) then f32_of 1 else x.
Definition f32_one_half : f32 := f32_lit 1 2.

Definition get_reputation (r : SemanticRouter) (n : NodeId) : f32 := default f32_one_half (reputation r !! n).

Definition new_score (success : bool) (response_time_ms : Z) : f32 :=
  if success then
    let time_score := f32_div (f32_sub (f32_of 1000) (f32_min (f32_of response_time_ms) (f32_of 1000))) (f32_of 1000) in
    f32_add f32_one_half (f32_mul time_score f32_one_half)
  else f32_of 0.
Definition update_reputation (r : SemanticRouter) (n : NodeId) (success : bool) (response_time_ms : Z) : SemanticRouter :=
  let alpha := f32_lit 1 10 in
  let old := get_reputation r n in
  let v := f32_add (f32_mul old (f32_sub (f32_of 1) alpha)) (f32_mul (new_score success response_time_ms) alpha) in
  mkRouterS (sr_capabilities r) (category_index r) (tag_index r) (<[n := f32_clamp01 v]> (reputation r)) (sr_local_id r).

(** ** Discovery *)

(** Passes, and the preference bonus. *)
Fixpoint evaluate_constraints (r : SemanticRouter) (n : NodeId) (cs : list AiConstraint) (bonus : Z) : bool * Z :=
  match cs with
  | [] => (true, bonus)
  | c :: cs' =>
      match c with
      | MinTrust t =>
          if bool_decide (reputation r !! n = None) && bool_decide (t = Full) then (false, 0)
          else evaluate_constraints r n cs' bonus
      | PreferAgent a =>
          evaluate_constraints r n cs' (if decide (a = n) then (bonus + 500) mod 2 ^ 32 else bonus)
      | ExcludeAgent a => if decide (a = n) then (false, 0) else evaluate_constraints r n cs' bonus
      | MaxLatency _ | MaxLoad _ | AiCustom _ => evaluate_constraints r n cs' bonus
      end
  end.

Definition u32w (z : Z) : Z := z mod 2 ^ 32.
Definition reputation_score (r : SemanticRouter) (n : NodeId) : Z :=
  f32_to_uint (2 ^ 32 - 1) (f32_mul (get_reputation r n) (f32_of 100)).

(** A stable sort by decreasing key. *)
Fixpoint insert_desc {A} (key : A → Z) (x : A) (l : list A) : list A :=
  match l with
  | [] => [x]
  | y :: l' => if key y <=? key x then x :: l else y :: insert_desc key x l'
  end.
Definition sort_desc {A} (key : A → Z) (l : list A) : list A := foldr (insert_desc key) [] l.

Definition discovery_of (r : SemanticRouter) (i : AiIntent) (e : NodeId * SemanticCapability) : option DiscoveryResult :=
  let score := u32w (u32w (category_depth (sc_category e.2) * 100) + reputation_score r e.1) in
  let '(passes, bonus) := evaluate_constraints r e.1 (ai_constraints i) 0 in
  if passes then Some (mkDiscovery e.1 Raw 0 128 (u32w (score + bonus))) else None.
Definition discover (r : SemanticRouter) (i : AiIntent) : list DiscoveryResult :=
  sort_desc dr_score (omap (discovery_of r i) (entries_of r (ai_hash i))).

Definition providers (r : SemanticRouter) (h : IntentHash) : gset NodeId := list_to_set (entries_of r h).*1.
Definition discover_multi (r : SemanticRouter) (ints : list AiIntent) : list NodeId :=
  match ints with
  | [] => []
  | i :: rest => elements (foldl (λ acc j, acc ∩ providers r (ai_hash j)) (providers r (ai_hash i)) rest)
  end.

(** ** Queries *)

Record SemanticQuery := mkQuery {
  q_intent : option AiIntent;
  q_category : option text;
  q_required : list text;
  q_optional : list text;
  q_min_version : option Z;
  q_limit : nat
}.
Definition SemanticQuery_new : SemanticQuery := mkQuery None None [] [] None 10.

Definition query_candidates (q : SemanticQuery) (r : SemanticRouter) : list (NodeId * SemanticCapability) :=
  match q_intent q, q_category q with
  | Some i, _ => entries_of r (ai_hash i)
  | None, Some p => flat_map (entries_of r) (remove_dups (default [] (category_index r !! p)))
  | None, None => flat_map snd (map_to_list (sr_capabilities r))
  end.
Definition query_matches (q : SemanticQuery) (c : SemanticCapability) : bool :=
  forallb (λ t, bool_decide (t ∈ sc_tags c)) (q_required q)
  && match q_min_version q with Some v => v <=? sc_version c | None => true end.
Definition query_score (q : SemanticQuery) (r : SemanticRouter) (e : NodeId * SemanticCapability) : Z :=
  let bonus := 50 * len (filter (λ t, t ∈ sc_tags e.2) (q_optional q)) in
  u32w (u32w (category_depth (sc_category e.2) * 100) + bonus + reputation_score r e.1).
Definition query_execute (q : SemanticQuery) (r : SemanticRouter) : list SemanticRoute :=
  take (q_limit q) (sort_desc match_score
    (map (λ e, mkSemanticRoute e.1 e.2 Raw (query_score q r e) 0 128)
       (filter (λ e, query_matches q e.2 = true) (query_candidates q r)))).

(** Builders of a query. *)
Definition q_set_intent (q : SemanticQuery) (i : AiIntent) : SemanticQuery :=
  mkQuery (Some i) (q_category q) (q_required q) (q_optional q) (q_min_version q) (q_limit q).
Definition q_set_category (q : SemanticQuery) (p : text) : SemanticQuery :=
  mkQuery (q_intent q) (Some p) (q_required q) (q_optional q) (q_min_version q) (q_limit q).
Definition require_tag (q : SemanticQuery) (t : text) : SemanticQuery :=
  mkQuery (q_intent q) (q_category q) (q_required q ++ [t]) (q_optional q) (q_min_version q) (q_limit q).
Definition prefer_tag (q : SemanticQuery) (t : text) : SemanticQuery :=
  mkQuery (q_intent q) (q_category q) (q_required q) (q_optional q ++ [t]) (q_min_version q) (q_limit q).
Definition q_set_min_version (q : SemanticQuery) (major minor patch : Z) : SemanticQuery :=
  mkQuery (q_intent q) (q_category q) (q_required q) (q_optional q)
    (Some (major * 10000 + minor * 100 + patch)) (q_limit q).
Definition q_set_limit (q : SemanticQuery) (n : nat) : SemanticQuery :=
  mkQuery (q_intent q) (q_category q) (q_required q) (q_optional q) (q_min_version q) n.

(** ** Abstract specification

    A router promises a map from (node, intent hash) to the capability the node
    registered last under it. *)

Inductive SemOp :=
  | OpRegister (n : NodeId) (c : SemanticCapability)
  | OpUnregister (n : NodeId)
  | OpReputation (n : NodeId) (success : bool) (response_time_ms : Z).
Definition sem_step (r : SemanticRouter) (o : SemOp) : SemanticRouter :=
  match o with
  | OpRegister n c => semantic_register r n c
  | OpUnregister n => unregister_node r n
  | OpReputation n ok ms => update_reputation r n ok ms
  end.
Definition sem_run (id : NodeId) (ops : list SemOp) : SemanticRouter := foldl sem_step (SemanticRouter_new id) ops.

Abbreviation Registry := (gmap (NodeId * IntentHash) SemanticCapability).
Definition reg_step (a : Registry) (o : SemOp) : Registry :=
  match o with
  | OpRegister n c => <[(n, sc_intent_hash c) := c]> a
  | OpUnregister n => filter (λ kv, kv.1.1 ≠ n) a
  | OpReputation _ _ _ => a
  end.
Definition reg_run (ops : list SemOp) : Registry := foldl reg_step ∅ ops.

(** ** Index lemmas *)

Definition hashes_at (idx : gmap text (list IntentHash)) (k : text) : list IntentHash := default [] (idx !! k).
Definition index_wf (idx : gmap text (list IntentHash)) : Prop := map_Forall (λ _ hs, NoDup hs ∧ hs ≠ []) idx.

Lemma hashes_at_add h idx k k' x :
  x ∈ hashes_at (index_add h idx k) k' ↔ x ∈ hashes_at idx k' ∨ (x = h ∧ k' = k).
Proof.
  unfold hashes_at, index_add. case_decide as Hin;
    (destruct (decide (k = k')) as [->|]; [rewrite lookup_insert_eq|rewrite lookup_insert_ne by done]); simpl; set_solver.
Qed.
Lemma hashes_at_adds h ks idx k' x :
  x ∈ hashes_at (foldl (index_add h) idx ks) k' ↔ x ∈ hashes_at idx k' ∨ (x = h ∧ k' ∈ ks).
Proof.
  revert idx. induction ks as [|k ks IH]; intros idx; simpl; [set_solver|].
  rewrite IH, hashes_at_add. set_solver.
Qed.
Lemma index_wf_add h idx k : index_wf idx → index_wf (index_add h idx k).
Proof.
  intros W. unfold index_add. case_decide as Hin; apply map_Forall_insert_2; try done.
  - destruct (idx !! k) as [hs|] eqn:E; simpl in *; [by apply (W _ _ E)|set_solver].
  - split; [|by destruct (default [] _)].
    apply NoDup_app. split_and!; [|set_solver|apply NoDup_singleton].
    destruct (idx !! k) as [hs|] eqn:E; simpl; [by apply (W _ _ E)|constructor].
Qed.
Lemma index_wf_adds h ks idx : index_wf idx → index_wf (foldl (index_add h) idx ks).
Proof. revert idx. induction ks; simpl; auto using index_wf_add. Qed.

Lemma nonempty_default {A} (l : list A) : default [] (nonempty l) = l.
Proof. by destruct l. Qed.
Lemma nonempty_Some {A} (l l' : list A) : nonempty l = Some l' ↔ l' = l ∧ l ≠ [].
Proof. destruct l; simpl; naive_solver. Qed.

Lemma hashes_at_remove idx h k x : x ∈ hashes_at (index_remove idx h) k ↔ x ∈ hashes_at idx k ∧ x ≠ h.
Proof.
  unfold hashes_at, index_remove. rewrite lookup_omap. destruct (idx !! k) as [hs|]; simpl; [|set_solver].
  rewrite nonempty_default, list_elem_of_filter. tauto.
Qed.
Lemma hashes_at_removes hs idx k x : x ∈ hashes_at (foldl index_remove idx hs) k ↔ x ∈ hashes_at idx k ∧ x ∉ hs.
Proof.
  revert idx. induction hs as [|h hs IH]; intros idx; simpl; [set_solver|].
  rewrite IH, hashes_at_remove. set_solver.
Qed.
Lemma index_wf_remove idx h : index_wf idx → index_wf (index_remove idx h).
Proof.
  intros W k l. unfold index_remove. rewrite lookup_omap. destruct (idx !! k) as [hs|] eqn:E; simpl; [|done].
  intros [-> ?]%nonempty_Some. split; [|done]. apply NoDup_filter, (W _ _ E).
Qed.
Lemma index_wf_removes hs idx : index_wf idx → index_wf (foldl index_remove idx hs).
Proof. revert idx. induction hs; simpl; auto using index_wf_remove. Qed.
Lemma index_wf_nodup idx k : index_wf idx → NoDup (hashes_at idx k).
Proof. intros W. unfold hashes_at. destruct (idx !! k) eqn:E; simpl; [by apply (W _ _ E)|constructor]. Qed.

(** ** The simulation *)

Record sem_rel (r : SemanticRouter) (a : Registry) : Prop := mkSemRel {
  rel_entries : ∀ h n c, (n, c) ∈ entries_of r h ↔ a !! (n, h) = Some c;
  rel_nodup : ∀ h, NoDup (entries_of r h).*1;
  rel_nonempty : map_Forall (λ _ es, es ≠ []) (sr_capabilities r);
  rel_hash : map_Forall (λ k c, sc_intent_hash c = k.2) a;
  rel_wf : index_wf (category_index r) ∧ index_wf (tag_index r);
  rel_category : ∀ n h c p, a !! (n, h) = Some c → p ∈ category_prefixes (sc_category c) →
    h ∈ hashes_at (category_index r) p;
  rel_tag : ∀ n h c t, a !! (n, h) = Some c → t ∈ sc_tags c → h ∈ hashes_at (tag_index r) t;
  rel_live : ∀ h k, h ∈ hashes_at (category_index r) k ∨ h ∈ hashes_at (tag_index r) k →
    is_Some (sr_capabilities r !! h)
}.

Lemma entries_register r n c h :
  entries_of (semantic_register r n c) h =
  if decide (h = sc_intent_hash c) then filter (other_node n) (entries_of r h) ++ [(n, c)] else entries_of r h.
Proof.
  unfold entries_of, semantic_register; simpl.
  case_decide; subst; [by rewrite lookup_insert_eq|by rewrite lookup_insert_ne].
Qed.
Lemma entries_unregister r n h : entries_of (unregister_node r n) h = filter (other_node n) (entries_of r h).
Proof.
  unfold entries_of, unregister_node; simpl. rewrite lookup_omap.
  destruct (sr_capabilities r !! h) as [es|]; simpl; [apply nonempty_default|done].
Qed.
Lemma nodup_other n (es : list (NodeId * SemanticCapability)) : NoDup es.*1 → NoDup (filter (other_node n) es).*1.
Proof. intros H. refine (sublist_NoDup _ _ H _). apply fmap_sublist, sublist_filter. Qed.

Lemma sem_rel_new id : sem_rel (SemanticRouter_new id) ∅.
Proof.
  split; try done.
  - intros h n c. unfold entries_of; simpl. rewrite !lookup_empty; simpl. set_solver.
  - intros h. constructor.
  - intros h k. unfold hashes_at; simpl. set_solver.
Qed.

Lemma sem_rel_register r a n c :
  sem_rel r a → sem_rel (semantic_register r n c) (<[(n, sc_intent_hash c) := c]> a).
Proof.
  intros [He Hd Hn Hh [Wc Wt] Hc Ht Hl]. split.
  - intros h n' c'. rewrite entries_register. destruct (decide (h = sc_intent_hash c)) as [->|Hne].
    + rewrite elem_of_app, list_elem_of_filter, He, list_elem_of_singleton. unfold other_node; simpl.
      destruct (decide (n' = n)) as [->|].
      * rewrite lookup_insert_eq. naive_solver.
      * rewrite lookup_insert_ne by congruence. naive_solver.
    + rewrite lookup_insert_ne by congruence. apply He.
  - intros h. rewrite entries_register. case_decide; [|done].
    rewrite fmap_app. apply NoDup_app. split_and!; [by apply nodup_other| |apply NoDup_singleton].
    intros x (e & -> & [? _]%list_elem_of_filter)%list_elem_of_fmap. simpl. set_solver.
  - simpl. apply map_Forall_insert_2; [by destruct (filter _ _)|done].
  - by apply map_Forall_insert_2.
  - split; by apply index_wf_adds.
  - intros n' h c' p. simpl. rewrite hashes_at_adds, lookup_insert_Some. naive_solver.
  - intros n' h c' t. simpl. rewrite hashes_at_adds, lookup_insert_Some. naive_solver.
  - intros h k. simpl. rewrite !hashes_at_adds. intros H. apply lookup_insert_is_Some'. naive_solver.
Qed.

(** What [unregister_node] prunes from the indexes. *)
Lemma unregister_gone r n h :
  map_Forall (λ _ es, es ≠ []) (sr_capabilities r) → is_Some (sr_capabilities r !! h) →
  sr_capabilities (unregister_node r n) !! h = None →
  h ∈ filter (λ h, sr_capabilities (unregister_node r n) !! h = None)
        (filter (λ he, Exists (λ e, e.1 = n) he.2) (map_to_list (sr_capabilities r))).*1.
Proof.
  intros Hn [es Hes] Hg. apply list_elem_of_filter. split; [done|].
  apply list_elem_of_fmap. exists (h, es). split; [done|]. apply list_elem_of_filter.
  split; [|by apply elem_of_map_to_list]. simpl. specialize (Hn _ _ Hes).
  unfold unregister_node in Hg; simpl in Hg. rewrite lookup_omap, Hes in Hg. simpl in Hg.
  destruct es as [|e es]; [done|]. apply Exists_cons_hd.
  destruct (decide (e.1 = n)) as [|Hx]; [done|].
  rewrite filter_cons_True in Hg by exact Hx. done.
Qed.

Lemma sem_rel_unregister r a n : sem_rel r a → sem_rel (unregister_node r n) (filter (λ kv, kv.1.1 ≠ n) a).
Proof.
  intros [He Hd Hn Hh [Wc Wt] Hc Ht Hl].
  assert (Hkeep : ∀ n' h c, filter (λ kv, kv.1.1 ≠ n) a !! (n', h) = Some c →
            sr_capabilities (unregister_node r n) !! h ≠ None).
  { intros n' h c [Ha Hne]%map_lookup_filter_Some Hg. apply He in Ha.
    assert (Hin : (n', c) ∈ entries_of (unregister_node r n) h)
      by (rewrite entries_unregister; by apply list_elem_of_filter).
    unfold entries_of in Hin. rewrite Hg in Hin. simpl in Hin. set_solver. }
  split.
  - intros h n' c. rewrite entries_unregister, list_elem_of_filter, He, map_lookup_filter_Some. unfold other_node. tauto.
  - intros h. rewrite entries_unregister. by apply nodup_other.
  - intros h es. simpl. rewrite lookup_omap. destruct (_ !! h); simpl; [|done]. by intros [-> ?]%nonempty_Some.
  - intros k c [Ha _]%map_lookup_filter_Some. by apply Hh.
  - split; by apply index_wf_removes.
  - intros n' h c p Ha Hp. simpl. apply hashes_at_removes. split.
    + apply map_lookup_filter_Some in Ha as [Ha _]. eauto.
    + rewrite list_elem_of_filter. intros [Hg _]. by apply (Hkeep _ _ _ Ha).
  - intros n' h c t Ha Hp. simpl. apply hashes_at_removes. split.
    + apply map_lookup_filter_Some in Ha as [Ha _]. eauto.
    + rewrite list_elem_of_filter. intros [Hg _]. by apply (Hkeep _ _ _ Ha).
  - intros h k Hin. destruct (sr_capabilities (unregister_node r n) !! h) eqn:Hg; [done|].
    assert (Hgone := λ Hs, unregister_gone r n h Hn Hs Hg). simpl in Hin.
    rewrite !hashes_at_removes in Hin. destruct Hin as [[Hin Hno]|[Hin Hno]]; destruct Hno; eauto.
Qed.

Lemma sem_rel_run id ops : sem_rel (sem_run id ops) (reg_run ops).
Proof.
  unfold sem_run, reg_run. generalize (sem_rel_new id).
  generalize (SemanticRouter_new id), (∅ : Registry).
  induction ops as [|o ops IH]; intros r a R; simpl; [done|]. apply IH.
  destruct o; simpl; [by apply sem_rel_register|by apply sem_rel_unregister|].
  destruct R. by split.
Qed.

(** ** Lookups against the registry *)

(** The selected entries of a list of hashes, with their keys. *)
Definition keyed (r : SemanticRouter) (P : SemanticCapability → bool) (hs : list IntentHash) :
    list ((NodeId * IntentHash) * SemanticCapability) :=
  flat_map (λ h, map (λ e, ((e.1, h), e.2)) (filter (λ e, P e.2 = true) (entries_of r h))) hs.

Lemma elem_of_keyed r P hs n h c :
  ((n, h), c) ∈ keyed r P hs ↔ h ∈ hs ∧ (n, c) ∈ entries_of r h ∧ P c = true.
Proof.
  unfold keyed. rewrite list_elem_of_In, in_flat_map. split.
  - intros (h' & Hh & Hin). rewrite <- list_elem_of_In in Hh. rewrite <- list_elem_of_In in Hin.
    apply list_elem_of_fmap in Hin as ([n' c'] & Heq & [? ?]%list_elem_of_filter). by simplify_eq/=.
  - intros (Hh & Hin & HP). exists h. rewrite <- !list_elem_of_In. split; [done|].
    apply list_elem_of_fmap. exists (n, c). split; [done|]. by apply list_elem_of_filter.
Qed.
Lemma keyed_nodup r a P hs : sem_rel r a → NoDup hs → NoDup (keyed r P hs).
Proof.
  intros R. induction 1 as [|h hs Hh Hd IH]; [constructor|]. unfold keyed; simpl. apply NoDup_app. split_and!.
  - apply NoDup_fmap_2; [by intros [? ?] [? ?] ?; simplify_eq/=|].
    apply NoDup_filter. eapply NoDup_fmap_1, (rel_nodup _ _ R).
  - intros [[n h'] c] (e & ? & _)%list_elem_of_fmap Hin. fold (keyed r P hs) in Hin.
    apply elem_of_keyed in Hin as [? _]. by simplify_eq/=.
  - exact IH.
Qed.
Lemma keyed_registry r a P hs (Q : SemanticCapability → Prop)
    `{∀ kc : (NodeId * IntentHash) * SemanticCapability, Decision (Q kc.2)} :
  sem_rel r a → NoDup hs →
  (∀ n h c, a !! (n, h) = Some c → Q c ↔ h ∈ hs ∧ P c = true) →
  (keyed r P hs).*2 ≡ₚ (map_to_list (filter (λ kc, Q kc.2) a)).*2.
Proof.
  intros R Hd HQ. apply fmap_Permutation, NoDup_Permutation; [by eapply keyed_nodup|apply NoDup_map_to_list|].
  intros [[n h] c]. rewrite elem_of_keyed, elem_of_map_to_list, map_lookup_filter_Some, (rel_entries _ _ R); simpl.
  specialize (HQ n h c). tauto.
Qed.
Lemma keyed_values r P hs : (keyed r P hs).*2 = flat_map (λ h, filter (λ c, P c = true) (entries_of r h).*2) hs.
Proof.
  induction hs as [|h hs IH]; [done|]. unfold keyed in *. simpl. rewrite fmap_app, IH. f_equal.
  induction (entries_of r h) as [|[n c] es IHe]; [done|]. rewrite fmap_cons, !filter_cons; simpl.
  case_decide; simpl; by rewrite <- IHe.
Qed.

Lemma filter_all {A} (l : list A) : filter (λ _, true = true) l = l.
Proof. induction l as [|x l IH]; [done|]. by rewrite filter_cons_True, IH. Qed.

Definition has_tag (t : text) (c : SemanticCapability) : bool := bool_decide (t ∈ sc_tags c).
Lemma find_by_tag_keyed r t : find_by_tag r t = (keyed r (has_tag t) (hashes_at (tag_index r) t)).*2.
Proof.
  rewrite keyed_values. unfold find_by_tag, hashes_at. apply flat_map_ext. intros h.
  apply list_filter_iff. intros c. unfold has_tag. by rewrite bool_decide_eq_true.
Qed.
Lemma find_by_category_keyed r p :
  find_by_category r p = (keyed r (λ _, true) (hashes_at (category_index r) p)).*2.
Proof.
  rewrite keyed_values. unfold find_by_category, hashes_at. apply flat_map_ext. intros h.
  by rewrite filter_all.
Qed.

(** ** Categories *)

Lemma category_matches_prefix a b : category_matches a b = true ↔ a `prefix_of` b.
Proof.
  unfold category_matches. revert b. induction a as [|x a IH]; intros [|y b]; simpl; try done.
  - split; [intros _; apply prefix_nil|done].
  - split; [done|]. by intros [? ?].
  - change (S (length b) <? S (length a))%nat with (length b <? length a)%nat.
    specialize (IH b). destruct (length b <? length a)%nat; simpl in *.
    + split; [done|]. intros H%prefix_cons_inv_2. by apply IH.
    + rewrite andb_true_iff, bool_decide_eq_true, IH. split.
      * intros [-> ?]. by apply prefix_cons.
      * intros H. split; [by apply prefix_cons_inv_1 in H|by apply prefix_cons_inv_2 in H].
Qed.
Lemma category_prefixes_matches name p :
  p ∈ category_prefixes (Category_from_str name) ↔
  category_matches (Category_from_str p) (Category_from_str name) = true.
Proof.
  rewrite category_matches_prefix. unfold category_prefixes, Category_from_str. change (str ":") with [58].
  rewrite list_elem_of_fmap. split.
  - intros (d & -> & Hd%elem_of_seq). rewrite split_char_join; [apply prefix_take| |].
    + destruct (split_char 58 name); simpl in *; [lia|]. by destruct d; simpl in *; [lia|].
    + apply Forall_take, split_char_free.
  - intros [k Hk]. exists (length (split_char 58 p)). split.
    + by rewrite Hk, take_app_length, join_split_char.
    + apply elem_of_seq. rewrite Hk, length_app.
      pose proof (split_char_ne 58 p). destruct (split_char 58 p); simpl in *; [done|lia].
Qed.

(** The capabilities a history registers. *)
Definition registered (ops : list SemOp) : list SemanticCapability :=
  omap (λ o, match o with OpRegister _ c => Some c | _ => None end) ops.

Lemma reg_run_registered ops k c : reg_run ops !! k = Some c → c ∈ registered ops.
Proof.
  unfold reg_run. induction ops as [|o ops IH] using rev_ind; [done|]. unfold registered in *.
  rewrite foldl_app, omap_app, elem_of_app. destruct o; simpl; [|intros [? _]%map_lookup_filter_Some; auto|auto].
  intros [[_ ->]|[_ ?]]%lookup_insert_Some; [right; set_solver|auto].
Qed.
Lemma category_index_sound id ops p h :
  h ∈ hashes_at (category_index (sem_run id ops)) p →
  ∃ c, c ∈ registered ops ∧ sc_intent_hash c = h ∧ p ∈ category_prefixes (sc_category c).
Proof.
  unfold sem_run, registered. induction ops as [|o ops IH] using rev_ind; [unfold hashes_at; simpl; set_solver|].
  rewrite foldl_app, omap_app. destruct o; simpl.
  - rewrite hashes_at_adds. intros [(c' & ? & ?)%IH|[-> ?]]; [exists c'|exists c]; set_solver.
  - rewrite hashes_at_removes. intros [(c' & ? & ?)%IH _]. exists c'. set_solver.
  - intros (c' & ? & ?)%IH. exists c'. set_solver.
Qed.

(** A capability as [SemanticCapability::new], [with_tag] and [with_version]
    build it. *)
Definition named `{Blake3} (c : SemanticCapability) : Prop :=
  sc_intent_hash c = capability_hash (sc_name c) ∧ sc_category c = Category_from_str (sc_name c).

(** [find_by_category] returns exactly the registered capabilities whose
    category the prefix matches in the sense of [Category::matches], each once per
    provider, after any sequence of registrations, replacements and node removals.
    It needs the capabilities to be built by [SemanticCapability::new] and the
    registered names not to collide under their 16-byte hashes. *)
Theorem category_lookup_exact `{Blake3} id ops p :
  Forall named (registered ops) →
  (∀ c1 c2, c1 ∈ registered ops → c2 ∈ registered ops →
     sc_intent_hash c1 = sc_intent_hash c2 → sc_name c1 = sc_name c2) →
  find_by_category (sem_run id ops) p ≡ₚ
  (map_to_list (filter (λ kc, category_matches (Category_from_str p) (sc_category kc.2) = true) (reg_run ops))).*2.
Proof.
  intros Hn Hinj. pose proof (sem_rel_run id ops) as R. rewrite find_by_category_keyed.
  apply (keyed_registry _ _ _ _ (λ c, category_matches (Category_from_str p) (sc_category c) = true) R);
    [apply index_wf_nodup, (rel_wf _ _ R)|].
  intros n h c Ha. pose proof (reg_run_registered _ _ _ Ha) as Hc. rewrite Forall_forall in Hn.
  rewrite (proj2 (Hn c Hc)), <- category_prefixes_matches, <- (proj2 (Hn c Hc)). split.
  - intros Hp. split; [by eapply (rel_category _ _ R)|done].
  - intros [(c' & Hc' & Hh & Hp)%category_index_sound _].
    rewrite (proj2 (Hn c Hc)), <- (Hinj c' c Hc' Hc), <- (proj2 (Hn c' Hc')); [done|].
    rewrite Hh. symmetry. apply (rel_hash _ _ R _ _ Ha).
Qed.

Definition sem_node (b : Z) : NodeId := repeat b 32.
Definition sem_history `{Blake3} : list SemOp :=
  let llm := with_tag (SemanticCapability_new (str "llm:chat")) (str "fast") in
  [OpRegister (sem_node 1) llm; OpRegister (sem_node 2) llm; OpReputation (sem_node 2) true 100;
   OpRegister (sem_node 1) (SemanticCapability_new (str "image")); OpUnregister (sem_node 2)].

(** The history satisfies the hypotheses of [category_lookup_exact]; the lookup
    of [llm] finds the one provider left. *)
Lemma category_lookup_exact_witness :
  let H := prefix_digest in
  len (find_by_category (sem_run (sem_node 0) sem_history) (str "llm")) = 1 ∧
  find_by_category (sem_run (sem_node 0) sem_history) (str "llm") ≡ₚ
  (map_to_list (filter (λ kc, category_matches (Category_from_str (str "llm")) (sc_category kc.2) = true)
     (reg_run sem_history))).*2.
Proof.
  intros H. split; [vm_compute; reflexivity|]. apply (@category_lookup_exact H).
  - apply Forall_forall. intros c Hc. apply list_elem_of_In in Hc.
    repeat (destruct Hc as [<-|Hc]; [by split|]). destruct Hc.
  - intros c1 c2 H1 H2. apply list_elem_of_In in H1, H2.
    repeat (destruct H1 as [<-|H1]);
      repeat (destruct H2 as [<-|H2]); try destruct H1; try destruct H2;
      vm_compute; congruence.
Defined.

(** ** Discovery *)

Lemma elem_of_insert_desc {A} (key : A → Z) x y l : y ∈ insert_desc key x l ↔ y = x ∨ y ∈ l.
Proof. induction l as [|z l IH]; simpl; [set_solver|]. case_match; set_solver. Qed.
Lemma insert_desc_Permutation {A} (key : A → Z) x l : insert_desc key x l ≡ₚ x :: l.
Proof. induction l as [|z l IH]; simpl; [done|]. case_match; [done|]. rewrite IH. by apply Permutation_swap. Qed.
Lemma sort_desc_Permutation {A} (key : A → Z) l : sort_desc key l ≡ₚ l.
Proof. induction l; simpl; [done|]. by rewrite insert_desc_Permutation, IHl. Qed.
Lemma insert_desc_sorted {A} (key : A → Z) x l :
  StronglySorted (λ a b, key b ≤ key a) l → StronglySorted (λ a b, key b ≤ key a) (insert_desc key x l).
Proof.
  induction 1 as [|z l Hs IH Hz]; simpl; [repeat constructor|]. destruct (Z.leb_spec (key z) (key x)).
  - constructor; [by constructor|]. constructor; [done|]. eapply Forall_impl; [exact Hz|]. simpl. lia.
  - constructor; [done|]. apply Forall_forall. intros y. rewrite elem_of_insert_desc. rewrite Forall_forall in Hz.
    intros [->|?]; [lia|auto].
Qed.
Lemma sort_desc_sorted {A} (key : A → Z) l : StronglySorted (λ a b, key b ≤ key a) (sort_desc key l).
Proof. induction l; simpl; [constructor|]. by apply insert_desc_sorted. Qed.

(** The constraints that decide, as a predicate, and the preference bonus. *)
Definition admitted (r : SemanticRouter) (n : NodeId) (cs : list AiConstraint) : Prop :=
  (ExcludeAgent n ∉ cs) ∧ (MinTrust Full ∈ cs → is_Some (reputation r !! n)).
Definition preferences (n : NodeId) (cs : list AiConstraint) : Z :=
  len (filter (λ c, match c with PreferAgent a => bool_decide (a = n) | _ => false end = true) cs).

Lemma evaluate_constraints_spec r n cs b :
  0 ≤ b < 2 ^ 32 →
  (admitted r n cs ∧ evaluate_constraints r n cs b = (true, u32w (b + 500 * preferences n cs))) ∨
  (¬ admitted r n cs ∧ evaluate_constraints r n cs b = (false, 0)).
Proof.
  unfold admitted, preferences, u32w. revert b. induction cs as [|c cs IH]; intros b Hb; simpl.
  - left. split; [set_solver|]. rewrite Z.mod_small; [f_equal; unfold len; simpl; lia|unfold len; simpl; lia].
  - destruct c as [t| | |a|a|].
    2,3,6: rewrite filter_cons_False by done; destruct (IH b Hb) as [[? ->]|[? ->]]; [left|right]; split; set_solver.
    + rewrite filter_cons_False by done.
      destruct (bool_decide _ && bool_decide _) eqn:E.
      * apply andb_true_iff in E as [E1%bool_decide_eq_true E2%bool_decide_eq_true]. subst t. right.
        split; [|done]. intros [_ Hs]. rewrite E1 in Hs. destruct Hs; [set_solver|done].
      * assert (t = Full → is_Some (reputation r !! n)).
        { intros ->. apply not_eq_None_Some. intros E'.
          rewrite andb_false_iff, !bool_decide_eq_false in E. naive_solver. }
        destruct (IH b Hb) as [[? ->]|[? ->]]; [left|right]; split; set_solver.
    + case_decide as Ha; subst; 
        [rewrite filter_cons_True by by apply bool_decide_eq_true
        |rewrite filter_cons_False by by rewrite bool_decide_eq_true].
      * destruct (IH ((b + 500) mod 2 ^ 32)) as [[? ->]|[? ->]]; [apply Z.mod_pos_bound; lia|left|right]; (split; [set_solver|]); [|done].
        f_equal. rewrite Zplus_mod_idemp_l. f_equal. unfold len; simpl. lia.
      * destruct (IH b Hb) as [[? ->]|[? ->]]; [left|right]; split; set_solver.
    + rewrite filter_cons_False by done. case_decide as Ha; subst.
      * right. split; [|done]. intros [? _]. set_solver.
      * destruct (IH b Hb) as [[? ->]|[? ->]]; [left|right]; split; set_solver.
Qed.

Definition expected_discovery (r : SemanticRouter) (i : AiIntent) (n : NodeId) (c : SemanticCapability) : DiscoveryResult :=
  mkDiscovery n Raw 0 128
    (u32w (100 * category_depth (sc_category c) + reputation_score r n + 500 * preferences n (ai_constraints i))).

Lemma discovery_of_Some r i n c d :
  discovery_of r i (n, c) = Some d ↔ admitted r n (ai_constraints i) ∧ d = expected_discovery r i n c.
Proof.
  unfold discovery_of, expected_discovery. simpl.
  destruct (evaluate_constraints_spec r n (ai_constraints i) 0) as [[Ha ->]|[Ha ->]]; [lia| |naive_solver].
  unfold u32w. rewrite Z.add_0_l, Zplus_mod_idemp_r, Zplus_mod_idemp_l.
  rewrite <- !Z.add_assoc, Zplus_mod_idemp_l, (Z.mul_comm _ 100). naive_solver.
Qed.

Lemma providers_spec r a h n : sem_rel r a → n ∈ providers r h ↔ is_Some (a !! (n, h)).
Proof.
  intros R. unfold providers. rewrite elem_of_list_to_set, list_elem_of_fmap. split.
  - intros ([n' c] & -> & Hin). exists c. by apply (rel_entries _ _ R).
  - intros [c Hc]. exists (n, c). split; [done|]. by apply (rel_entries _ _ R).
Qed.
Lemma discover_multi_spec r a ints n :
  sem_rel r a → n ∈ discover_multi r ints ↔ ints ≠ [] ∧ Forall (λ i, is_Some (a !! (n, ai_hash i))) ints.
Proof.
  intros R. destruct ints as [|i rest]; simpl; [set_solver|]. rewrite elem_of_elements, Forall_cons.
  rewrite <- (providers_spec r a (ai_hash i) n R). generalize (providers r (ai_hash i)).
  induction rest as [|j rest IH]; intros S; simpl; [naive_solver|].
  rewrite IH, elem_of_intersection, Forall_cons, (providers_spec r a _ _ R). naive_solver.
Qed.

Lemma discover_nodup r a i : sem_rel r a → NoDup (map dr_agent (discover r i)).
Proof.
  intros R. unfold discover. rewrite (Permutation_map dr_agent (sort_desc_Permutation dr_score _)).
  refine (sublist_NoDup _ _ (rel_nodup _ _ R (ai_hash i)) _).
  induction (entries_of r (ai_hash i)) as [|[n c] es IH]; simpl; [constructor|].
  destruct (discovery_of r i (n, c)) as [d|] eqn:E; simpl.
  - apply discovery_of_Some in E as [_ ->]. simpl. by apply sublist_skip.
  - by apply sublist_cons.
Qed.

(** C26: Discovery returns, best score first, exactly the nodes that registered the
    intent and that no constraint rejects (an [ExcludeAgent] naming the node, a
    [MinTrust Full] for a node without a reputation), each once, with the score the
    depth, the reputation and the preferences give it; a multi-intent discovery
    returns exactly the nodes that registered all of a non-empty list of intents. *)
Theorem discover_exact id ops i :
  let r := sem_run id ops in
  let a := reg_run ops in
  StronglySorted (λ x y, dr_score y ≤ dr_score x) (discover r i) ∧
  NoDup (map dr_agent (discover r i)) ∧
  (∀ d, d ∈ discover r i ↔
     ∃ n c, a !! (n, ai_hash i) = Some c ∧ admitted r n (ai_constraints i) ∧ d = expected_discovery r i n c) ∧
  (∀ ints n, n ∈ discover_multi r ints ↔ ints ≠ [] ∧ Forall (λ j, is_Some (a !! (n, ai_hash j))) ints).
Proof.
  intros r a. pose proof (sem_rel_run id ops) as R. split_and!.
  - apply sort_desc_sorted.
  - by eapply discover_nodup.
  - intros d. unfold discover. rewrite (sort_desc_Permutation dr_score), list_elem_of_omap. split.
    + intros ([n c] & Hin%(rel_entries _ _ R) & Hd%discovery_of_Some). eauto.
    + intros (n & c & Ha%(rel_entries _ _ R) & Hd). exists (n, c). split; [done|]. by apply discovery_of_Some.
  - intros ints n. by apply discover_multi_spec.
Qed.

Lemma num_capabilities_keyed r :
  num_capabilities r = len (keyed r (λ _, true) (map_to_list (sr_capabilities r)).*1).
Proof.
  unfold num_capabilities. rewrite map_fold_foldr.
  assert (H : Forall (λ kv, sr_capabilities r !! kv.1 = Some kv.2) (map_to_list (sr_capabilities r))).
  { apply Forall_forall. intros [h es]. by rewrite elem_of_map_to_list. }
  induction H as [|[h es] l Hh _ IH]; [done|]. cbn [foldr uncurry] in *. rewrite IH. unfold keyed; simpl. unfold len.
  rewrite length_app, length_map. unfold entries_of at 2. simpl in Hh. rewrite Hh. simpl.
  by rewrite filter_all, Nat2Z.inj_add.
Qed.

(** After any sequence of registrations, node removals and reputation updates the
    router is the map it promises, from (node, intent hash) to the capability the node
    registered last: the providers of an intent are that map's entries, a node at most
    once; [find_by_tag] returns exactly the registered capabilities that carry the tag,
    once per provider; [num_capabilities] is the size of the map; and every hash an
    index still names has a provider, so that replacing a node's capabilities over and
    over leaks nothing. *)
Theorem semantic_refinement id ops :
  let r := sem_run id ops in
  let a := reg_run ops in
  (∀ h n c, (n, c) ∈ entries_of r h ↔ a !! (n, h) = Some c) ∧
  (∀ h, NoDup (entries_of r h).*1) ∧
  (∀ t, find_by_tag r t ≡ₚ (map_to_list (filter (λ kc, t ∈ sc_tags kc.2) a)).*2) ∧
  num_capabilities r = Z.of_nat (size a) ∧
  (∀ h k, h ∈ hashes_at (category_index r) k ∨ h ∈ hashes_at (tag_index r) k → ∃ n c, a !! (n, h) = Some c).
Proof.
  intros r a. pose proof (sem_rel_run id ops) as R. split_and!.
  - apply (rel_entries _ _ R).
  - apply (rel_nodup _ _ R).
  - intros t. rewrite find_by_tag_keyed. apply (keyed_registry _ _ _ _ (λ c, t ∈ sc_tags c) R).
    + apply index_wf_nodup, (rel_wf _ _ R).
    + intros n h c Ha. unfold has_tag. rewrite bool_decide_eq_true. split; [|tauto].
      intros Ht. split; [by eapply (rel_tag _ _ R)|done].
  - rewrite num_capabilities_keyed. unfold len. rewrite <- (length_fmap snd).
    rewrite (keyed_registry r a _ _ (λ _, True) R); [|apply NoDup_fst_map_to_list|].
    + rewrite length_fmap, length_map_to_list. do 2 f_equal. apply map_filter_id. done.
    + intros n h c Ha%(rel_entries _ _ R). split; [|done]. intros _. split; [|done].
      unfold entries_of in Ha. apply list_elem_of_fmap. fold r in Ha.
      destruct (sr_capabilities r !! h) as [es|] eqn:E; simpl in Ha; [|set_solver].
      exists (h, es). split; [done|]. by apply elem_of_map_to_list.
  - intros h k [es Hes]%(rel_live _ _ R). pose proof (rel_nonempty _ _ R _ _ Hes) as Hne.
    destruct es as [|[n c] es]; [done|]. exists n, c. apply (rel_entries _ _ R). unfold entries_of.
    rewrite Hes. set_solver.
Qed.
