(* ===== verification/Agents.v ===== *)
(** * Agents and their work (axiom-runtime agent.rs, context.rs, executor.rs, error.rs)

    The life cycle of an agent, the context that holds what it has claimed, and the executor
    that runs its tasks.  The work of a task is a function from a context to a context and a
    result.  Each operation takes its clock reading as an argument; the order in
    which hash maps are walked is a parameter of the section. *)

From stdpp Require Import base numbers list gmap sets strings.
From S2P Require Import Prelude Types Text Intent Memory Hal Runtime Crypto Router Semantic.

(** ** Agents (agent.rs) *)

Inductive AgentState := AS_Created | AS_Initializing | AS_Ready | AS_Running | AS_Paused | AS_ShuttingDown | AS_Terminated.
#[export] Instance AgentState_eq_dec : EqDecision AgentState.
Proof. solve_decision. Defined.
Definition can_transition_to (s new : AgentState) : bool :=
  match s, new with
  | AS_Created, (AS_Initializing | AS_Terminated) => true
  | AS_Initializing, (AS_Ready | AS_Terminated) => true
  | AS_Ready, (AS_Running | AS_Paused | AS_ShuttingDown) => true
  | AS_Running, (AS_Ready | AS_Paused | AS_ShuttingDown) => true
  | AS_Paused, (AS_Ready | AS_Running | AS_ShuttingDown) => true
  | AS_ShuttingDown, AS_Terminated => true
  | _, _ => false
  end.
Definition state_can_execute (s : AgentState) : bool := match s with AS_Ready | AS_Running => true | _ => false end.
Definition holds_resources (s : AgentState) : bool :=
  match s with AS_Initializing | AS_Ready | AS_Running | AS_Paused | AS_ShuttingDown => true | _ => false end.
(** [format!("{:?}", state)] *)
Definition state_debug (s : AgentState) : text :=
  match s with
  | AS_Created => str "Created" | AS_Initializing => str "Initializing" | AS_Ready => str "Ready" | AS_Running => str "Running"
  | AS_Paused => str "Paused" | AS_ShuttingDown => str "ShuttingDown" | AS_Terminated => str "Terminated"
  end.

(** [max_compute_tflops] is the bit pattern of an [f32]; the default is 10.0. *)
Record AgentConfig := mkAgentConfig {
  ag_name : text; required_capabilities : list text; preferred_capabilities : list text; ag_trust_level : TrustLevel;
  max_memory : Z; max_compute_tflops : Z
}.
Definition AgentConfig_default : AgentConfig := mkAgentConfig (str "agent") [] [] Sig 1000000000 0x41200000.
Definition AgentConfig_new (name : text) : AgentConfig :=
  mkAgentConfig name (required_capabilities AgentConfig_default) (preferred_capabilities AgentConfig_default)
    (ag_trust_level AgentConfig_default) (max_memory AgentConfig_default) (max_compute_tflops AgentConfig_default).
Definition cfg_require (c : AgentConfig) (cap : text) : AgentConfig :=
  mkAgentConfig (ag_name c) (required_capabilities c ++ [cap]) (preferred_capabilities c) (ag_trust_level c) (max_memory c) (max_compute_tflops c).
Definition cfg_prefer (c : AgentConfig) (cap : text) : AgentConfig :=
  mkAgentConfig (ag_name c) (required_capabilities c) (preferred_capabilities c ++ [cap]) (ag_trust_level c) (max_memory c) (max_compute_tflops c).
Definition cfg_with_trust (c : AgentConfig) (t : TrustLevel) : AgentConfig :=
  mkAgentConfig (ag_name c) (required_capabilities c) (preferred_capabilities c) t (max_memory c) (max_compute_tflops c).
Definition cfg_with_max_memory (c : AgentConfig) (n : Z) : AgentConfig :=
  mkAgentConfig (ag_name c) (required_capabilities c) (preferred_capabilities c) (ag_trust_level c) n (max_compute_tflops c).
Definition cfg_with_max_compute (c : AgentConfig) (f : Z) : AgentConfig :=
  mkAgentConfig (ag_name c) (required_capabilities c) (preferred_capabilities c) (ag_trust_level c) (max_memory c) f.

Record Agent := mkAgent { ag_keypair : Keypair; ag_id : NodeId; ag_config : AgentConfig; ag_state : AgentState; provided_capabilities : list text }.
Definition Agent_from_keypair `{Ed25519} (k : Keypair) (c : AgentConfig) : Agent := mkAgent k (public_key_bytes k) c AS_Created [].
Definition ag_set_state (a : Agent) (s : AgentState) : Agent := mkAgent (ag_keypair a) (ag_id a) (ag_config a) s (provided_capabilities a).
(** The error is the pair of the state it is in and the one asked for. *)
Definition agent_transition (a : Agent) (new : AgentState) : Agent * outcome (AgentState * AgentState) unit :=
  if can_transition_to (ag_state a) new then (ag_set_state a new, Ok ()) else (a, Err (ag_state a, new)).
Definition provide_capability (a : Agent) (cap : text) : Agent :=
  if bool_decide (cap ∈ provided_capabilities a) then a
  else mkAgent (ag_keypair a) (ag_id a) (ag_config a) (ag_state a) (provided_capabilities a ++ [cap]).
Definition can_execute (a : Agent) : bool := state_can_execute (ag_state a).

(** *** Errors (error.rs) *)

Inductive RuntimeError :=
  | RE_NotInitialized | RE_ResourceClaim (e : ClaimError) | RE_ResourceNotFound (name : text) | RE_Network (m : text) | RE_TaskFailed (m : text)
  | RE_InvalidState (from to : text) | RE_CapabilityUnavailable (cap : text) | RE_PermissionDenied (m : text) | RE_Timeout | RE_Internal (m : text).
(** [Display]; the claim error inside is printed with [{:?}], a parameter. *)
Definition RuntimeError_display (debug : ClaimError → text) (e : RuntimeError) : text :=
  match e with
  | RE_NotInitialized => str "Agent not initialized"
  | RE_ResourceClaim c => str "Resource claim failed: " ++ debug c
  | RE_ResourceNotFound n => str "Resource not found: " ++ n
  | RE_Network m => str "Network error: " ++ m
  | RE_TaskFailed m => str "Task failed: " ++ m
  | RE_InvalidState f t => str "Invalid state transition: " ++ f ++ str " -> " ++ t
  | RE_CapabilityUnavailable c => str "Capability unavailable: " ++ c
  | RE_PermissionDenied m => str "Permission denied: " ++ m
  | RE_Timeout => str "Operation timed out"
  | RE_Internal m => str "Internal error: " ++ m
  end.
Definition invalid_state (ft : AgentState * AgentState) : RuntimeError := RE_InvalidState (state_debug ft.1) (state_debug ft.2).

(** ** The context (context.rs) *)

Record ResourceClaim := mkClaim { rc_handle : ResourceHandle; rc_capability : text; rc_claimed_at : Z; use_count : Z }.
Definition ResourceClaim_new (h : ResourceHandle) (cap : text) (now : Z) : ResourceClaim := mkClaim h cap now 0.
Definition record_use (c : ResourceClaim) : ResourceClaim := mkClaim (rc_handle c) (rc_capability c) (rc_claimed_at c) (u64_add (use_count c) 1).
Record AgentContext := mkContext {
  cx_agent : Agent; cx_resources : ResourceManager; network : NodeRegistry; router : SemanticRouter; cx_claims : gmap ResourceId ResourceClaim
}.
Definition AgentContext_new (a : Agent) : AgentContext :=
  mkContext a (ResourceManager_new (ag_id a)) (NodeRegistry_new (ag_id a) LocalEndpoint) (SemanticRouter_new (ag_id a)) ∅.
Definition cx_set_agent (c : AgentContext) (a : Agent) : AgentContext := mkContext a (cx_resources c) (network c) (router c) (cx_claims c).
Definition cx_set_held (c : AgentContext) (m : ResourceManager) (cs : gmap ResourceId ResourceClaim) : AgentContext :=
  mkContext (cx_agent c) m (network c) (router c) cs.
Definition register_resource (c : AgentContext) (r : Resource) : AgentContext := cx_set_held c (rm_register (cx_resources c) r) (cx_claims c).
Definition register_peer (c : AgentContext) (peer : NodeId) (e : Endpoint) : AgentContext :=
  mkContext (cx_agent c) (cx_resources c) (registry_register (network c) peer (NodeInfo_new e)) (router c) (cx_claims c).
Definition discover_agents (c : AgentContext) (i : AiIntent) : list NodeId := dr_agent <$> discover (router c) i.
Definition has_resource (c : AgentContext) (cap : text) : bool := existsb (λ kv, bool_decide (rc_capability kv.2 = cap)) (map_to_list (cx_claims c)).
Definition cx_release (c : AgentContext) (id : ResourceId) : AgentContext * bool :=
  match cx_claims c !! id with
  | Some claim =>
      let '(m, ok) := rm_release (cx_resources c) (rc_handle claim) in
      (cx_set_held c m (delete id (cx_claims c)), ok)
  | None => (c, false)
  end.

Section Context_.
Context `{Blake3} (walk : gmap ResourceId Resource → list Resource) (keys : gmap ResourceId ResourceClaim → list ResourceId).

Definition discover_resources (c : AgentContext) (query : text) : list Resource :=
  omap (λ d, resources (cx_resources c) !! hd_resource d) (hal_find query (walk (resources (cx_resources c)))).
Definition cx_claim_resource (now : Z) (c : AgentContext) (id : ResourceId) (cap : text) : AgentContext * outcome RuntimeError ResourceClaim :=
  match rm_claim now (cx_resources c) id (ag_id (cx_agent c)) (ag_trust_level (ag_config (cx_agent c))) with
  | (m, Ok h) =>
      let claim := ResourceClaim_new h cap now in
      (cx_set_held c m (<[id := claim]> (cx_claims c)), Ok claim)
  | (m, Err e) => (cx_set_held c m (cx_claims c), Err (RE_ResourceClaim e))
  | (m, Panic) => (c, Panic)
  end.
(** Only the first of the resources found is tried. *)
Definition cx_claim (now : Z) (c : AgentContext) (query : text) : AgentContext * outcome RuntimeError ResourceClaim :=
  match hal_find query (walk (resources (cx_resources c))) with
  | [] => (c, Err (RE_ResourceNotFound query))
  | d :: _ => cx_claim_resource now c (hd_resource d) query
  end.
Definition release_all (c : AgentContext) : AgentContext := foldl (λ c id, (cx_release c id).1) c (keys (cx_claims c)).

(** The required capabilities, stopping at the first that cannot be claimed. *)
Fixpoint claim_required (now : Z) (c : AgentContext) (caps : list text) : AgentContext * outcome RuntimeError unit :=
  match caps with
  | [] => (c, Ok ())
  | cap :: caps' =>
      match cx_claim now c cap with
      | (c', Ok _) => claim_required now c' caps'
      | (c', Err e) => (cx_set_agent (release_all c') (agent_transition (cx_agent (release_all c')) AS_Terminated).1, Err e)
      | (c', Panic) => (c', Panic)
      end
  end.
Definition claim_preferred (now : Z) (c : AgentContext) (caps : list text) : AgentContext := foldl (λ c cap, (cx_claim now c cap).1) c caps.
Definition cx_transition (c : AgentContext) (s : AgentState) : AgentContext * outcome RuntimeError unit :=
  match agent_transition (cx_agent c) s with
  | (a, Ok _) => (cx_set_agent c a, Ok ())
  | (a, Err ft) => (cx_set_agent c a, Err (invalid_state ft))
  | (a, Panic) => (c, Panic)
  end.
Definition initialize (now : Z) (c : AgentContext) : AgentContext * outcome RuntimeError unit :=
  match cx_transition c AS_Initializing with
  | (c1, Ok _) =>
      match claim_required now c1 (required_capabilities (ag_config (cx_agent c1))) with
      | (c2, Ok _) => cx_transition (claim_preferred now c2 (preferred_capabilities (ag_config (cx_agent c2)))) AS_Ready
      | r => r
      end
  | r => r
  end.
Definition shutdown (c : AgentContext) : AgentContext * outcome RuntimeError unit :=
  match cx_transition c AS_ShuttingDown with
  | (c1, Ok _) => cx_transition (release_all c1) AS_Terminated
  | r => r
  end.
End Context_.

(** *** Nothing stays claimed *)

(** The context's record of claims is exactly what the manager has as claimed by the
    agent, each with its token. *)
Record ctx_ok `{Blake3} (cs : list (ResourceId * NodeId * Z)) (c : AgentContext) : Prop := {
  co_manager : manager_ok cs (cx_resources c);
  co_held id : is_claimed_by (cx_resources c) id (ag_id (cx_agent c)) = true ↔ is_Some (cx_claims c !! id);
  co_token id cl : cx_claims c !! id = Some cl → rm_claims (cx_resources c) !! rh_token (rc_handle cl) = Some id
}.
(** Every claim the agent could make at [now] is one of [cs]. *)
Definition covers (cs : list (ResourceId * NodeId * Z)) (c : AgentContext) (now : Z) : Prop :=
  ∀ id, is_Some (resources (cx_resources c) !! id) → (id, ag_id (cx_agent c), now) ∈ cs.
Inductive ctx_step `{Blake3} (cs : list (ResourceId * NodeId * Z)) (walk : gmap ResourceId Resource → list Resource) (keys : gmap ResourceId ResourceClaim → list ResourceId) :
    AgentContext → AgentContext → Prop :=
  | CxS_register c r : resources (cx_resources c) !! res_id r = None → array_ok 16 (res_id r) → is_available r = true →
      ctx_step cs walk keys c (register_resource c r)
  | CxS_claim now c q : covers cs c now → ctx_step cs walk keys c (cx_claim walk now c q).1
  | CxS_claim_resource now c id cap : covers cs c now → ctx_step cs walk keys c (cx_claim_resource now c id cap).1
  | CxS_release c id : ctx_step cs walk keys c (cx_release c id).1
  | CxS_release_all c : ctx_step cs walk keys c (release_all keys c)
  | CxS_transition c s : ctx_step cs walk keys c (cx_transition c s).1
  | CxS_initialize now c : covers cs c now → ctx_step cs walk keys c (initialize walk keys now c).1
  | CxS_shutdown c : ctx_step cs walk keys c (shutdown keys c).1
  | CxS_peer c p e : ctx_step cs walk keys c (register_peer c p e).

Section Leaks.
Context {HB : Blake3} (cs : list (ResourceId * NodeId * Z)) (Hcol : ¬ token_collision cs).
Context (walk : gmap ResourceId Resource → list Resource) (keys : gmap ResourceId ResourceClaim → list ResourceId).
Context (Hkeys : ∀ m, keys m ≡ₚ (map_to_list m).*1).

Lemma claimed_by_iff m id who : is_claimed_by m id who = true ↔ ∃ r t, resources m !! id = Some r ∧ res_state r = RS_Claimed who t.
Proof.
  unfold is_claimed_by, claimed_by. split.
  - destruct (resources m !! id) as [r|]; [|done]. destruct (res_state r) as [|o t|] eqn:E; [done| |done].
    intros ->%bool_decide_eq_true. by exists r, t.
  - intros (r & t & -> & ->). by apply bool_decide_eq_true.
Qed.
Lemma claimed_by_insert m id r s who id' : resources m !! id = Some r →
  is_claimed_by (mkManager (<[id := res_set_state r s]> (resources m)) (rm_claims m) (local_agent m)) id' who = true ↔
  if decide (id' = id) then (∃ t, s = RS_Claimed who t) else is_claimed_by m id' who = true.
Proof.
  intros Hr. rewrite claimed_by_iff. cbn. case_decide as E.
  - subst. rewrite lookup_insert_eq. split; [intros (r' & t & [= <-] & ?); by exists t|intros [t ->]; by eexists _, t].
  - rewrite claimed_by_iff. by rewrite lookup_insert_ne.
Qed.
Lemma ctx_set_agent_ok c a : ctx_ok cs c → ag_id a = ag_id (cx_agent c) → ctx_ok cs (cx_set_agent c a).
Proof. intros [Hm Hh Ht] E. split; cbn; [done| |done]. intros id. by rewrite E. Qed.
Lemma transition_id a s : ag_id (agent_transition a s).1 = ag_id a ∧ ag_config (agent_transition a s).1 = ag_config a.
Proof. unfold agent_transition. by destruct (can_transition_to _ _). Qed.
Lemma cx_transition_spec c s :
  cx_transition c s = if can_transition_to (ag_state (cx_agent c)) s then (cx_set_agent c (ag_set_state (cx_agent c) s), Ok ())
                      else (c, Err (invalid_state (ag_state (cx_agent c), s))).
Proof. unfold cx_transition, agent_transition. destruct (can_transition_to _ _); [done|]. by destruct c. Qed.
Lemma cx_transition_ok c s : ctx_ok cs c → ctx_ok cs (cx_transition c s).1.
Proof. intros H. rewrite cx_transition_spec. destruct (can_transition_to _ _); [|done]. by apply ctx_set_agent_ok. Qed.

(** A claim through the context records one more resource, or changes nothing. *)
Lemma cx_claim_resource_spec now c id cap : ctx_ok cs c → covers cs c now →
  match cx_claim_resource now c id cap with
  | (c', Ok cl) => ctx_ok cs c' ∧ cx_agent c' = cx_agent c ∧ covers cs c' now ∧ cx_claims c !! id = None ∧ cx_claims c' = <[id := cl]> (cx_claims c) ∧ rc_capability cl = cap
  | (c', Err _) => c' = c
  | (_, Panic) => False
  end.
Proof using Hcol.
  intros [Hm Hh Ht] Hcov. unfold cx_claim_resource. destruct (rm_claim now (cx_resources c) id _ _) as [m [h|e|]] eqn:E.
  - assert (Hin : (id, ag_id (cx_agent c), now) ∈ cs).
    { apply Hcov. destruct (resources (cx_resources c) !! id) eqn:Er; [done|]. unfold rm_claim in E. by rewrite Er in E. }
    destruct (manager_claim_ok cs Hcol _ _ _ _ _ _ _ Hm Hin E) as (Hm' & r & Hr & Ha & _ & _ & _ & Hfree & ->).
    assert (Hnone : cx_claims c !! id = None).
    { destruct (cx_claims c !! id) as [cl|] eqn:Ec; [|done]. assert (Hs : is_Some (cx_claims c !! id)) by (by eexists).
      apply Hh, claimed_by_iff in Hs as (r' & t & Hr' & Es). unfold is_available in Ha. rewrite Hr in Hr'. injection Hr' as <-. by rewrite Es in Ha. }
    split_and!; try done.
    2: { intros id'. cbn. intros [<-|?]%lookup_insert_is_Some'; [done|by apply Hcov]. }
    split; cbn; [done| |].
    + intros id'. pose proof (claimed_by_insert (cx_resources c) id r (RS_Claimed (ag_id (cx_agent c)) now) (ag_id (cx_agent c)) id' Hr) as Hi.
      unfold is_claimed_by in *. cbn in *. rewrite Hi. case_decide as Ed.
      * subst. rewrite lookup_insert_eq. split; [by eexists|by eexists].
      * rewrite lookup_insert_ne by done. apply Hh.
    + intros id' cl [[<- <-]|[Hne Hcl]]%lookup_insert_Some; cbn; [by rewrite lookup_insert_eq|].
      rewrite lookup_insert_ne; [by apply Ht|]. intros E'. apply Ht in Hcl. congruence.
  - assert (Em : m = cx_resources c).
    { unfold rm_claim, resource_claim in E. repeat (case_match; try (inversion E; done)). }
    rewrite Em. by destruct c.
  - unfold rm_claim, resource_claim, is_available in E. destruct (resources (cx_resources c) !! id) as [r|]; [|done].
    destruct (_ <? _); [done|]. by destruct (res_state r).
Qed.
Lemma cx_claim_spec now c q : ctx_ok cs c → covers cs c now →
  match cx_claim walk now c q with
  | (c', Ok cl) => ctx_ok cs c' ∧ cx_agent c' = cx_agent c ∧ covers cs c' now ∧ rc_capability cl = q ∧ ∃ id, cx_claims c !! id = None ∧ cx_claims c' = <[id := cl]> (cx_claims c)
  | (c', Err _) => c' = c
  | (_, Panic) => False
  end.
Proof using Hcol.
  intros H Hcov. unfold cx_claim. destruct (hal_find _ _) as [|d ds]; [done|]. pose proof (cx_claim_resource_spec now c (hd_resource d) q H Hcov) as Hs.
  destruct (cx_claim_resource _ _ _ _) as [c' [cl| |]]; [|done|done]. destruct Hs as (? & ? & ? & ? & ? & ?). split_and!; try done. by exists (hd_resource d).
Qed.
(** Releasing gives the resource back. *)
Lemma cx_release_spec c id : ctx_ok cs c →
  ctx_ok cs (cx_release c id).1 ∧ cx_agent (cx_release c id).1 = cx_agent c ∧ cx_claims (cx_release c id).1 = delete id (cx_claims c) ∧
  (cx_release c id).2 = bool_decide (is_Some (cx_claims c !! id)).
Proof.
  intros [Hm Hh Ht]. unfold cx_release. destruct (cx_claims c !! id) as [cl|] eqn:Ec.
  2: { rewrite bool_decide_false by (by intros [? ?]). split_and!; [by split|done|by rewrite delete_id|done]. }
  pose proof (manager_release_ok cs _ (rc_handle cl) Hm) as Hm'. unfold rm_release in *. pose proof (Ht id cl Ec) as Etok. rewrite Etok in *.
  destruct (proj1 (claimed_by_iff (cx_resources c) id _) (proj2 (Hh id) ltac:(by eexists))) as (r & t & Hr & Es). rewrite Hr in *.
  unfold resource_release in *. rewrite Es in *. cbn in *. split_and!; try done. split; cbn; [done| |].
  - intros id'. pose proof (claimed_by_insert (cx_resources c) id r RS_Available (ag_id (cx_agent c)) id' Hr) as Hi.
    unfold is_claimed_by in *. cbn in *. rewrite Hi. case_decide as Ed.
    + subst. rewrite lookup_delete_eq. split; [by intros [? ?]|by intros [? ?]].
    + rewrite lookup_delete_ne by done. apply Hh.
  - intros id' cl' [Hne Hcl]%lookup_delete_Some. rewrite lookup_delete_ne; [by apply Ht|]. intros E. apply Ht in Hcl. congruence.
Qed.
Lemma release_list_spec ids : ∀ c, ctx_ok cs c →
  let c' := foldl (λ c id, (cx_release c id).1) c ids in
  ctx_ok cs c' ∧ cx_agent c' = cx_agent c ∧ ∀ id, cx_claims c' !! id = if decide (id ∈ ids) then None else cx_claims c !! id.
Proof.
  induction ids as [|id ids IH]; intros c H; cbn.
  - by split_and!.
  - destruct (cx_release_spec c id H) as (H1 & E1 & E2 & _). destruct (IH _ H1) as (H3 & E3 & E4). split_and!; [done|congruence|].
    intros id'. rewrite E4, E2. destruct (decide (id' = id)) as [->|Hne].
    + rewrite (decide_True (P := id ∈ id :: ids)) by (left; done). case_decide; [done|]. by rewrite lookup_delete_eq.
    + rewrite lookup_delete_ne by done. destruct (decide (id' ∈ ids)); [rewrite decide_True by (by right); done|].
      rewrite decide_False; [done|]. by intros [?|?]%elem_of_cons.
Qed.
Lemma keys_elem m id : id ∈ keys m ↔ is_Some (m !! id).
Proof using Hkeys.
  rewrite Hkeys, list_elem_of_fmap. split.
  - intros ([id' cl] & -> & Hin%elem_of_map_to_list). by eexists.
  - intros [cl Hcl]. exists (id, cl). by rewrite elem_of_map_to_list.
Qed.
Lemma release_all_spec c : ctx_ok cs c → ctx_ok cs (release_all keys c) ∧ cx_agent (release_all keys c) = cx_agent c ∧ cx_claims (release_all keys c) = ∅.
Proof using Hkeys.
  intros H. destruct (release_list_spec (keys (cx_claims c)) c H) as (H1 & E1 & E2). split_and!; [done|done|]. apply map_empty. intros id.
  unfold release_all. rewrite E2. case_decide as Hin; [done|]. rewrite keys_elem in Hin. by apply eq_None_not_Some.
Qed.

Lemma has_resource_iff c cap : has_resource c cap = true ↔ ∃ id cl, cx_claims c !! id = Some cl ∧ rc_capability cl = cap.
Proof.
  unfold has_resource. rewrite existsb_exists. split.
  - intros ([id cl] & Hin%list_elem_of_In%elem_of_map_to_list & E%bool_decide_eq_true). by exists id, cl.
  - intros (id & cl & Hc & E). exists (id, cl). rewrite <- list_elem_of_In, elem_of_map_to_list. split; [done|by apply bool_decide_eq_true].
Qed.
Lemma has_resource_mono c c' cap : cx_claims c ⊆ cx_claims c' → has_resource c cap = true → has_resource c' cap = true.
Proof. rewrite !has_resource_iff. intros Hs (id & cl & Hc & E). exists id, cl. split; [by eapply lookup_weaken|done]. Qed.
Lemma claim_required_spec now caps : ∀ c, ctx_ok cs c → covers cs c now → ag_state (cx_agent c) = AS_Initializing →
  match claim_required walk keys now c caps with
  | (c', Ok _) => ctx_ok cs c' ∧ cx_agent c' = cx_agent c ∧ covers cs c' now ∧ cx_claims c ⊆ cx_claims c' ∧ ∀ cap, cap ∈ caps → has_resource c' cap = true
  | (c', Err _) => ctx_ok cs c' ∧ ag_id (cx_agent c') = ag_id (cx_agent c) ∧ ag_state (cx_agent c') = AS_Terminated ∧ cx_claims c' = ∅
  | (_, Panic) => False
  end.
Proof using Hcol Hkeys.
  induction caps as [|cap caps IH]; intros c H Hcov Hs; cbn; [split_and!; try done; by intros ? ?%not_elem_of_nil|].
  pose proof (cx_claim_spec now c cap H Hcov) as Hc. destruct (cx_claim walk now c cap) as [c1 [cl|e|]]; [| |done].
  - destruct Hc as (H1 & E1 & Hcov1 & Ecap & id & Hnone & Ecl). specialize (IH c1 H1 Hcov1 ltac:(congruence)).
    destruct (claim_required walk keys now c1 caps) as [c2 [u|e|]]; [|by rewrite <- E1|done]. destruct IH as (H2 & E2 & Hcov2 & Hsub & Hall).
    assert (Hin : cx_claims c ⊆ cx_claims c1) by (rewrite Ecl; by apply insert_subseteq).
    split_and!; [done|congruence|done|by transitivity (cx_claims c1)|]. intros cap' [->|Hin']%elem_of_cons; [|by apply Hall].
    apply (has_resource_mono c1 c2); [done|]. apply has_resource_iff. exists id, cl. by rewrite Ecl, lookup_insert_eq.
  - subst c1. destruct (release_all_spec c H) as (H1 & E1 & E2). unfold agent_transition. rewrite E1, Hs. cbn.
    split_and!; [apply ctx_set_agent_ok; [done|by rewrite E1]|done|done|done].
Qed.
Lemma claim_preferred_spec now caps : ∀ c, ctx_ok cs c → covers cs c now →
  ctx_ok cs (claim_preferred walk now c caps) ∧ cx_agent (claim_preferred walk now c caps) = cx_agent c ∧ cx_claims c ⊆ cx_claims (claim_preferred walk now c caps).
Proof using Hcol.
  unfold claim_preferred. induction caps as [|cap caps IH]; intros c H Hcov; cbn; [done|].
  pose proof (cx_claim_spec now c cap H Hcov) as Hc. destruct (cx_claim walk now c cap) as [c1 [cl|e|]]; cbn; [|by subst c1; apply IH|done].
  destruct Hc as (H1 & E1 & Hcov1 & _ & id & Hnone & Ecl). destruct (IH c1 H1 Hcov1) as (H2 & E2 & Hsub). split_and!; [done|congruence|].
  transitivity (cx_claims c1); [rewrite Ecl; by apply insert_subseteq|done].
Qed.
Lemma initialize_spec now c : ctx_ok cs c → covers cs c now →
  if decide (ag_state (cx_agent c) = AS_Created) then
    match initialize walk keys now c with
    | (c', Ok _) => ctx_ok cs c' ∧ ag_state (cx_agent c') = AS_Ready ∧ cx_claims c ⊆ cx_claims c' ∧
        ∀ cap, cap ∈ required_capabilities (ag_config (cx_agent c)) → has_resource c' cap = true
    | (c', Err _) => ctx_ok cs c' ∧ ag_state (cx_agent c') = AS_Terminated ∧ ag_id (cx_agent c') = ag_id (cx_agent c) ∧ cx_claims c' = ∅
    | (_, Panic) => False
    end
  else initialize walk keys now c = (c, Err (invalid_state (ag_state (cx_agent c), AS_Initializing))).
Proof using Hcol Hkeys.
  intros H Hcov. unfold initialize. rewrite cx_transition_spec. case_decide as Hs.
  2: { by destruct (ag_state (cx_agent c)). }
  rewrite Hs. cbn -[cx_transition]. set (c1 := cx_set_agent c (ag_set_state (cx_agent c) AS_Initializing)).
  assert (H1 : ctx_ok cs c1) by (by apply ctx_set_agent_ok). pose proof (claim_required_spec now (required_capabilities (ag_config (cx_agent c))) c1 H1 Hcov eq_refl) as Hreq.
  destruct (claim_required walk keys now c1 (required_capabilities (ag_config (cx_agent c)))) as [c2 [u|e|]]; [| |done].
  - destruct Hreq as (H2 & E2 & Hcov2 & Hsub & Hall). destruct (claim_preferred_spec now (preferred_capabilities (ag_config (cx_agent c2))) c2 H2 Hcov2) as (H3 & E3 & Hsub3).
    set (c3 := claim_preferred walk now c2 _) in *. clearbody c3. rewrite cx_transition_spec, E3, E2. cbn.
    split_and!; [apply ctx_set_agent_ok; [done|by rewrite E3, E2]|done| |].
    + by transitivity (cx_claims c2).
    + intros cap Hcap. eapply has_resource_mono; [|by apply Hall]. done.
  - destruct Hreq as (? & ? & ? & ?). by split_and!.
Qed.
Lemma shutdown_spec c : ctx_ok cs c →
  if can_transition_to (ag_state (cx_agent c)) AS_ShuttingDown then
    match shutdown keys c with
    | (c', Ok _) => ctx_ok cs c' ∧ ag_state (cx_agent c') = AS_Terminated ∧ ag_id (cx_agent c') = ag_id (cx_agent c) ∧ cx_claims c' = ∅
    | _ => False
    end
  else shutdown keys c = (c, Err (invalid_state (ag_state (cx_agent c), AS_ShuttingDown))).
Proof using Hkeys.
  intros H. unfold shutdown. rewrite cx_transition_spec. destruct (can_transition_to _ _); [|done]. cbn -[cx_transition].
  set (c1 := cx_set_agent c (ag_set_state (cx_agent c) AS_ShuttingDown)). assert (H1 : ctx_ok cs c1) by (by apply ctx_set_agent_ok).
  destruct (release_all_spec c1 H1) as (H2 & E2 & E3). rewrite cx_transition_spec, E2. cbn. split_and!; [apply ctx_set_agent_ok; [done|by rewrite E2]|done|done|done].
Qed.
Lemma ctx_step_ok c c' : ctx_step cs walk keys c c' → ctx_ok cs c → ctx_ok cs c'.
Proof using Hcol Hkeys.
  destruct 1 as [c r Hnew Hl Ha|now c q Hcov|now c id cap Hcov|c id|c|c s|now c Hcov|c|c p e]; intros H.
  - destruct H as [Hm Hh Ht]. split; cbn.
    + apply (manager_step_ok cs Hcol (cx_resources c)); [by constructor|done].
    + intros id. rewrite <- Hh. unfold is_claimed_by. cbn. destruct (decide (res_id r = id)) as [<-|Hne].
      * rewrite lookup_insert_eq, Hnew. unfold claimed_by, is_available in *. by destruct (res_state r).
      * by rewrite lookup_insert_ne.
    + done.
  - pose proof (cx_claim_spec now c q H Hcov) as Hs. destruct (cx_claim walk now c q) as [c1 [cl|e|]]; cbn; [by destruct Hs|by subst|done].
  - pose proof (cx_claim_resource_spec now c id cap H Hcov) as Hs. destruct (cx_claim_resource now c id cap) as [c1 [cl|e|]]; cbn; [by destruct Hs|by subst|done].
  - by apply cx_release_spec.
  - by apply release_all_spec.
  - by apply cx_transition_ok.
  - pose proof (initialize_spec now c H Hcov) as Hs. case_decide; [|by rewrite Hs].
    destruct (initialize walk keys now c) as [c1 [u|e|]]; cbn; [by destruct Hs|by destruct Hs|done].
  - pose proof (shutdown_spec c H) as Hs. destruct (can_transition_to _ _); [|by rewrite Hs].
    destruct (shutdown keys c) as [c1 [u|e|]]; cbn; [by destruct Hs|done|done].
  - by destruct H.
Qed.
Lemma ctx_new_ok a : ctx_ok cs (AgentContext_new a).
Proof.
  split; cbn; [apply manager_new_ok| |by intros ? ?; rewrite lookup_empty]. intros id. unfold is_claimed_by. cbn. rewrite !lookup_empty.
  split; [done|by intros [? ?]].
Qed.
End Leaks.


Section ContextExamples.
Let walk (m : gmap ResourceId Resource) : list Resource := (map_to_list m).*2.
Let keys (m : gmap ResourceId ResourceClaim) : list ResourceId := (map_to_list m).*1.
Let gpu (id : Z) (t : TrustLevel) : Resource :=
  with_min_trust (with_capability (Resource_new (replicate 16 id) (str "GPU")) (Capability_new (H := prefix_digest) CC_Compute (str "compute:tensor"))) t.
Let agent : Agent := mkAgent (mkKeypair []) (replicate 32 9) (cfg_require (AgentConfig_new (str "a")) (str "compute")) AS_Created [].
Let start : AgentContext := register_resource (AgentContext_new agent) (gpu 1 Sig).

Let both : AgentContext := register_resource start (gpu 2 Sig).
Let both_claimed : list (ResourceId * NodeId * Z) := [(replicate 16 1, replicate 32 9, 0); (replicate 16 2, replicate 32 9, 0)].
Lemma both_claims_apart : ¬ token_collision (H := prefix_digest) both_claimed.
Proof.
  intros (id & id' & o & o' & t & t' & H & H' & Hne & E). unfold both_claimed in H, H'. rewrite !elem_of_cons, elem_of_nil in H, H'.
  destruct H as [[= -> -> ->]|[[= -> -> ->]|[]]], H' as [[= -> -> ->]|[[= -> -> ->]|[]]]; try done; by vm_compute in E.
Qed.
Lemma both_covered : covers both_claimed both 0.
Proof.
  intros id Hid. unfold both, start, register_resource in Hid. cbn [resources cx_resources cx_set_held rm_register] in Hid.
  apply lookup_insert_is_Some' in Hid as [<-|[<-|Hid]%lookup_insert_is_Some']; [right; left|left|].
  cbn in Hid. rewrite lookup_empty in Hid. by destruct Hid.
Qed.

(** A claim by capability tries only the first resource found: an agent that is not trusted
    enough for that one is refused although another would do. *)
Example first_match_only :
  let c := register_resource start (gpu 2 Full) in
  let c := register_resource c (with_capability (gpu 2 Full) (Capability_new (H := prefix_digest) CC_Compute (str "compute:other"))) in
  match (cx_claim (H := prefix_digest) walk 0 c (str "compute")).2 with Err (RE_ResourceClaim (CE_InsufficientTrust Full Sig)) => true | _ => false end = true ∧
  match (cx_claim_resource (H := prefix_digest) 0 c (replicate 16 1) (str "compute")).2 with Ok _ => true | _ => false end = true.
Proof. split; by vm_compute. Qed.
End ContextExamples.

(** ** The executor (executor.rs) *)

Definition Work := AgentContext → AgentContext * outcome RuntimeError unit.
Abbreviation Job := (ExecTask Work).
Record TaskQueue := mkTaskQueue { tq_queues : lanes Job; tq_total : Z }.
Definition TaskQueue_new : TaskQueue := mkTaskQueue no_lanes 0.
Definition tq_push (q : TaskQueue) (t : Job) : TaskQueue := mkTaskQueue (push_lane (tp_index (et_priority t)) t (tq_queues q)) (tq_total q + 1).
Definition tq_pop (q : TaskQueue) : TaskQueue * option Job :=
  match pop_highest pop_front (tq_queues q) with
  | Some (t, l) => (mkTaskQueue l (tq_total q - 1), Some t)
  | None => (q, None)
  end.
Definition tq_is_empty (q : TaskQueue) : bool := tq_total q =? 0.
Record ExecutorStats := mkExecStats { ex_executed : Z; ex_completed : Z; ex_failed : Z; ex_cancelled : Z; total_exec_time_us : Z }.
Definition ExecutorStats_default : ExecutorStats := mkExecStats 0 0 0 0 0.
Record Executor := mkExecutor { ex_queue : TaskQueue; ex_current : option Z; ex_stats : ExecutorStats }.
Definition Executor_new : Executor := mkExecutor TaskQueue_new None ExecutorStats_default.
Definition set_times (t : Job) (created : Z) : Job :=
  mkExecTask (et_id t) (et_name t) (et_priority t) (et_state t) (required_capability t) (work t) created (started_at t) (completed_at t).
Definition submit (now : Z) (e : Executor) (t : Job) : Executor * Z := (mkExecutor (tq_push (ex_queue e) (set_times t now)) (ex_current e) (ex_stats e), et_id t).
Definition count_failed (st : ExecutorStats) : ExecutorStats :=
  mkExecStats (ex_executed st) (ex_completed st) (u64_add (ex_failed st) 1) (ex_cancelled st) (total_exec_time_us st).
Definition count_done (st : ExecutorStats) (ok : bool) : ExecutorStats :=
  mkExecStats (u64_add (ex_executed st) 1) (if ok then u64_add (ex_completed st) 1 else ex_completed st)
    (if ok then ex_failed st else u64_add (ex_failed st) 1) (ex_cancelled st) (total_exec_time_us st).

Section Executor_.
Context `{Blake3} (walk : gmap ResourceId Resource → list Resource).

(** The capability a task needs: held already, or claimed now. *)
Definition ensure_capability (now : Z) (c : AgentContext) (t : Job) : AgentContext * outcome RuntimeError unit :=
  match required_capability t with
  | None => (c, Ok ())
  | Some cap =>
      if has_resource c cap then (c, Ok ())
      else match cx_claim walk now c cap with
           | (c', Ok _) => (c', Ok ())
           | (c', Err _) => (c', Err (RE_CapabilityUnavailable cap))
           | (c', Panic) => (c', Panic)
           end
  end.
(** A task that has left the queue: the statistics, the context and the result. *)
Definition run_task (now : Z) (st : ExecutorStats) (c : AgentContext) (t : Job) : ExecutorStats * AgentContext * outcome RuntimeError Z :=
  match ensure_capability now c t with
  | (c1, Err e) => (count_failed st, c1, Err e)
  | (c1, Panic) => (st, c1, Panic)
  | (c1, Ok _) =>
      match work t c1 with
      | (c2, Ok _) => (count_done st true, c2, Ok (et_id t))
      | (c2, Err e) => (count_done st false, c2, Err e)
      | (c2, Panic) => (st, c2, Panic)
      end
  end.
(** What [current] is afterwards: it is set only around the work. *)
Definition current_after (now : Z) (c : AgentContext) (t : Job) (cur : option Z) : option Z :=
  match ensure_capability now c t with
  | (c1, Ok _) => match work t c1 with (_, Panic) => Some (et_id t) | _ => None end
  | _ => cur
  end.
Definition run_one (now : Z) (e : Executor) (c : AgentContext) : Executor * AgentContext * outcome RuntimeError (option Z) :=
  if negb (can_execute (cx_agent c)) then (e, c, Err (RE_InvalidState (state_debug (ag_state (cx_agent c))) (str "Running")))
  else
    match tq_pop (ex_queue e) with
    | (q, None) => (mkExecutor q (ex_current e) (ex_stats e), c, Ok None)
    | (q, Some t) =>
        let '(st, c', r) := run_task now (ex_stats e) c t in
        (mkExecutor q (current_after now c t (ex_current e)) st, c', id ← r; Ok (Some id))
    end.
(** [run_all]; [None] when the fuel is used up. *)
Fixpoint run_all (fuel : nat) (now : Z) (e : Executor) (c : AgentContext) (count : Z) : option (Executor * AgentContext * outcome RuntimeError Z) :=
  match fuel with
  | O => None
  | S fuel' =>
      if tq_is_empty (ex_queue e) then Some (e, c, Ok count)
      else match run_one now e c with
           | (e', c', Ok (Some _)) => run_all fuel' now e' c' (count + 1)
           | (e', c', Ok None) => Some (e', c', Ok count)
           | (e', c', Err er) => Some (e', c', Err er)
           | (e', c', Panic) => Some (e', c', Panic)
           end
  end.
End Executor_.

(** *** The executor runs what it was given, in order *)

(** The reference: a list of tasks run from the front; what is left is returned. *)
Fixpoint run_list `{Blake3} (walk : gmap ResourceId Resource → list Resource) (now : Z) (st : ExecutorStats) (c : AgentContext) (ts : list Job) (count : Z) :
    ExecutorStats * AgentContext * list Job * outcome RuntimeError Z :=
  match ts with
  | [] => (st, c, [], Ok count)
  | t :: ts' =>
      if can_execute (cx_agent c) then
        match run_task walk now st c t with
        | (st', c', Ok _) => run_list walk now st' c' ts' (count + 1)
        | (st', c', Err e) => (st', c', ts', Err e)
        | (st', c', Panic) => (st', c', ts', Panic)
        end
      else (st, c, ts, Err (RE_InvalidState (state_debug (ag_state (cx_agent c))) (str "Running")))
  end.
Definition submit_all (now : Z) (ts : list Job) : Executor := foldl (λ e t, (submit now e t).1) Executor_new ts.
Definition by_priority (ts : list Job) : list Job := flat_map (λ p, filter (λ t, tp_index (et_priority t) = p) ts) [3; 2; 1; 0]%nat.
Definition tq_ok (q : TaskQueue) : Prop := four (tq_queues q) ∧ tq_total q = len (in_order (tq_queues q)).

Lemma tq_pop_spec q : tq_ok q →
  match tq_pop q with
  | (q', Some t) => tq_ok q' ∧ in_order (tq_queues q) = t :: in_order (tq_queues q') ∧ tq_is_empty q = false
  | (q', None) => q' = q ∧ in_order (tq_queues q) = [] ∧ tq_is_empty q = true
  end.
Proof.
  intros [H4 Ht]. unfold tq_pop, tq_is_empty. pose proof (pop_in_order (tq_queues q) H4) as Hp.
  destruct (pop_highest pop_front (tq_queues q)) as [[t l]|].
  - destruct Hp as [E Hl]. rewrite Ht, E, len_cons. pose proof (len_nonneg (in_order l)). split_and!; [split; cbn [tq_queues tq_total]; [done|lia]|done|apply Z.eqb_neq; lia].
  - rewrite Ht, Hp. done.
Qed.
Lemma run_all_spec `{Blake3} walk now : ∀ n e c count, tq_ok (ex_queue e) → (length (in_order (tq_queues (ex_queue e))) < n)%nat →
  ∃ e' c' r, run_all walk n now e c count = Some (e', c', r) ∧ tq_ok (ex_queue e') ∧
    run_list walk now (ex_stats e) c (in_order (tq_queues (ex_queue e))) count = (ex_stats e', c', in_order (tq_queues (ex_queue e')), r).
Proof.
  induction n as [|n IH]; intros e c count Hok Hn; [lia|]. cbn [run_all]. pose proof (tq_pop_spec (ex_queue e) Hok) as Hp.
  unfold run_one. destruct (tq_pop (ex_queue e)) as [q [t|]].
  - destruct Hp as (Hq & E & ->). rewrite E in *. cbn [length run_list] in *. destruct (can_execute (cx_agent c)); cbn [negb].
    2: { eexists _, _, _. split_and!; [done|done|by rewrite E]. }
    destruct (run_task walk now (ex_stats e) c t) as [[st c1] [id|er|]]; cbn -[run_all].
    + destruct (IH (mkExecutor q (current_after walk now c t (ex_current e)) st) c1 (count + 1)) as (e' & c' & r & E1 & Hok' & E2); [done|cbn; lia|].
      exists e', c', r. by split_and!.
    + eexists _, _, _. by split_and!.
    + eexists _, _, _. by split_and!.
  - destruct Hp as (-> & E & ->). rewrite E. cbn. exists e, c, (Ok count). split_and!; [done|done|by rewrite E].
Qed.
Lemma sorted_into_in_order (l : list Job) q : sorted_into (λ t, tp_index (et_priority t)) l q → in_order q = by_priority l.
Proof.
  intros [H4 Hl]. destruct q as [|a [|b [|c [|d [|]]]]]; try done. pose proof (Hl 0%nat ltac:(lia)) as H0. pose proof (Hl 1%nat ltac:(lia)) as H1.
  pose proof (Hl 2%nat ltac:(lia)) as H2. pose proof (Hl 3%nat ltac:(lia)) as H3. unfold lane in *. cbn in *. subst. done.
Qed.
Lemma submit_all_sorted now ts :
  sorted_into (λ t, tp_index (et_priority t)) ((λ t, set_times t now) <$> ts) (tq_queues (ex_queue (submit_all now ts))) ∧
  tq_total (ex_queue (submit_all now ts)) = len ts ∧ ex_stats (submit_all now ts) = ExecutorStats_default.
Proof.
  induction ts as [|t ts IH] using rev_ind; [split; [apply sorted_into_nil|done]|]. destruct IH as (Hs & Ht & Hst).
  unfold submit_all in *. rewrite foldl_snoc. set (e := foldl _ _ ts) in *. clearbody e. cbn. split_and!; [|rewrite Ht, len_app; done|done].
  rewrite fmap_app. cbn. apply (sorted_into_push (λ t, tp_index (et_priority t)) _ _ (set_times t now)); [apply tp_index_lt|done].
Qed.
Lemma by_priority_Permutation ts : by_priority ts ≡ₚ ts.
Proof.
  unfold by_priority. cbn. rewrite app_nil_r. induction ts as [|t ts IH]; [done|]. rewrite !filter_cons.
  etransitivity; [|apply perm_skip, IH]. destruct (et_priority t); cbn; solve_Permutation.
Qed.
Lemma run_list_all `{Blake3} walk now ts : ∀ st c n st' c' rest m, run_list walk now st c ts n = (st', c', rest, Ok m) → rest = [] ∧ m = n + len ts.
Proof.
  induction ts as [|t ts IH]; intros st c n st' c' rest m E; cbn in E; [injection E as <- <- <- <-; rewrite len_nil; split; [done|lia]|].
  destruct (can_execute (cx_agent c)); [|done]. destruct (run_task walk now st c t) as [[st1 c1] [id|e|]]; [|done|done].
  apply IH in E as [-> ->]. rewrite len_cons. split; [done|lia].
Qed.

(** [run_all] over submitted tasks runs them by priority, and in the order of submission within one, each on
    the context the one before left, and stops at the first that fails, cannot get its capability,
    or leaves the agent unable to execute; it always comes to an end, nothing that was
    submitted and not started is lost, and when it succeeds every task has run and the
    count is their number. *)
Theorem executor_runs {HB : Blake3} walk now c (ts : list Job) :
  let queued := by_priority ((λ t, set_times t now) <$> ts) in
  queued ≡ₚ ((λ t, set_times t now) <$> ts) ∧
  ∃ e' c' r, run_all walk (S (length ts)) now (submit_all now ts) c 0 = Some (e', c', r) ∧
    run_list walk now ExecutorStats_default c queued 0 = (ex_stats e', c', in_order (tq_queues (ex_queue e')), r) ∧
    tq_total (ex_queue e') = len (in_order (tq_queues (ex_queue e'))) ∧
    ∀ n, r = Ok n → n = len ts ∧ tq_total (ex_queue e') = 0.
Proof.
  cbn. split; [apply by_priority_Permutation|]. destruct (submit_all_sorted now ts) as (Hs & Ht & Hst). pose proof (sorted_into_in_order _ _ Hs) as Eo.
  assert (Hlen : length (in_order (tq_queues (ex_queue (submit_all now ts)))) = length ts)
    by (rewrite Eo, by_priority_Permutation, length_fmap; done).
  destruct (run_all_spec walk now (S (length ts)) (submit_all now ts) c 0) as (e' & c' & r & E & [_ Ht'] & Er).
  - split; [by destruct Hs|]. rewrite Ht. unfold len. by rewrite Hlen.
  - lia.
  - exists e', c', r. rewrite Hst, Eo in Er. split_and!; [done|done|done|]. intros n ->. apply run_list_all in Er as [E0 ->].
    rewrite Ht', E0. split; [|done]. unfold len. rewrite by_priority_Permutation, length_fmap. lia.
Qed.
