(* ===== verification/Checkpoint.v ===== *)
(** * Checkpoints of an agent (axiom-runtime/src/checkpoint.rs)

    The state of an agent as bytes, little endian with lengths in front, a CRC-32 at the end, and
    the manager that keeps such byte strings.  Reading is a parser on the bytes that are left; a
    slice beyond the end of the input panics.  The identifiers come from a counter and are
    arguments. *)

From stdpp Require Import base numbers list gmap strings.
From S2P Require Import Prelude Types Text Intent Memory Hal Runtime Crypto Router Semantic Agents.

Definition CHECKPOINT_MAGIC : list Z := as_bytes (str "AXCP").
Definition CHECKPOINT_VERSION : Z := 1.
Record CheckpointOptions := mkCpOptions { include_kv_cache : bool; include_tasks : bool; include_resources : bool; compression : Z }.
Definition CheckpointOptions_default : CheckpointOptions := mkCpOptions true true true 0.
Definition CheckpointOptions_minimal : CheckpointOptions := mkCpOptions false false false 0.
Definition CheckpointOptions_full_compressed : CheckpointOptions := mkCpOptions true true true 3.
Record TaskSnapshot := mkTaskSnap { ts_name : text; ts_priority : Z; ts_required_capability : option text; ts_data : list Z }.
Record ResourceSnapshot := mkResSnap { rs_name : text; rs_capability : text }.
Record Checkpoint := mkCheckpoint {
  cp_id : Z; cp_agent_id : NodeId; cp_agent_state : AgentState; cp_agent_name : text; cp_capabilities : list text;
  kv_cache : option (list Z); cp_tasks : list TaskSnapshot; cp_resources : list ResourceSnapshot; cp_timestamp : Z; size_bytes : Z
}.
Inductive CheckpointError := CP_TooShort | CP_InvalidMagic | CP_UnsupportedVersion (v : Z) | CP_InvalidState | CP_InvalidUtf8 | CP_ChecksumMismatch | CP_IoError.

(** ** The checksum *)

Definition crc_round (crc : Z) : Z := if Z.odd crc then Z.lxor (Z.shiftr crc 1) 0xEDB88320 else Z.shiftr crc 1.
Definition crc_byte (crc b : Z) : Z := Nat.iter 8 crc_round (Z.lxor crc b).
Definition crc32 (data : list Z) : Z := 0xFFFFFFFF - foldl crc_byte 0xFFFFFFFF data.

(** ** Writing *)

Definition state_code (s : AgentState) : Z :=
  match s with
  | AS_Created => 0 | AS_Initializing => 1 | AS_Ready => 2 | AS_Running => 3 | AS_Paused => 4 | AS_ShuttingDown => 5 | AS_Terminated => 6
  end.
(** [(bytes.len() as u32).to_le_bytes()], then the bytes. *)
Definition put_len (n : Z) : list Z := to_le 4 (n mod 2 ^ 32).
Definition put_bytes (b : list Z) : list Z := put_len (len b) ++ b.
Definition put_text (s : text) : list Z := put_bytes (as_bytes s).
Definition put_list {A} (f : A → list Z) (l : list A) : list Z := put_len (len l) ++ flat_map f l.
Definition put_task (t : TaskSnapshot) : list Z :=
  put_text (ts_name t) ++ [ts_priority t] ++ put_text (default [] (ts_required_capability t)) ++ put_bytes (ts_data t).
Definition put_resource (r : ResourceSnapshot) : list Z := put_text (rs_name r) ++ put_text (rs_capability r).
Definition checkpoint_body (c : Checkpoint) : list Z :=
  CHECKPOINT_MAGIC ++ to_le 4 CHECKPOINT_VERSION ++ cp_agent_id c ++ [state_code (cp_agent_state c)] ++ put_text (cp_agent_name c)
  ++ put_list put_text (cp_capabilities c) ++ put_bytes (default [] (kv_cache c)) ++ put_list put_task (cp_tasks c)
  ++ put_list put_resource (cp_resources c) ++ to_le 8 (cp_timestamp c).
Definition cp_to_bytes (c : Checkpoint) : list Z := checkpoint_body c ++ to_le 4 (crc32 (checkpoint_body c)).

(** ** Reading *)

Definition Reader (A : Type) : Type := list Z → outcome CheckpointError (A * list Z).
#[export] Instance reader_ret : MRet Reader := λ A a l, Ok (a, l).
#[export] Instance reader_bind : MBind Reader := λ A B k m l,
  match m l with Ok (a, l') => k a l' | Err e => Err e | Panic => Panic end.
Definition reader_err {A} (e : CheckpointError) : Reader A := λ _, Err e.
(** [data[pos..pos + n]] *)
Definition rd_take (n : Z) : Reader (list Z) := λ l, if n <=? len l then Ok (take (Z.to_nat n) l, drop (Z.to_nat n) l) else Panic.
Definition rd_u8 : Reader Z := λ l, match l with b :: l' => Ok (b, l') | [] => Panic end.
Definition rd_u32 : Reader Z := b ← rd_take 4; mret (from_le b).
Definition rd_u64 : Reader Z := b ← rd_take 8; mret (from_le b).
Definition rd_bytes : Reader (list Z) := n ← rd_u32; rd_take n.
(** [String::from_utf8]: the bytes are the encoding of some text. *)
Definition from_utf8 (b : list Z) : option text := let s := from_utf8_lossy b in if bool_decide (as_bytes s = b) then Some s else None.
Definition rd_utf8 (b : list Z) : Reader text := match from_utf8 b with Some s => mret s | None => reader_err CP_InvalidUtf8 end.
Definition rd_text : Reader text := b ← rd_bytes; rd_utf8 b.
Fixpoint rd_times {A} (n : nat) (r : Reader A) : Reader (list A) :=
  match n with O => mret [] | S n' => a ← r; l ← rd_times n' r; mret (a :: l) end.
Definition rd_list {A} (r : Reader A) : Reader (list A) := n ← rd_u32; rd_times (Z.to_nat n) r.
(** An empty field stands for an absent one. *)
Definition rd_opt_text : Reader (option text) := n ← rd_u32; if 0 <? n then b ← rd_take n; s ← rd_utf8 b; mret (Some s) else mret None.
Definition rd_opt_bytes : Reader (option (list Z)) := n ← rd_u32; if 0 <? n then b ← rd_take n; mret (Some b) else mret None.
Definition rd_task : Reader TaskSnapshot :=
  name ← rd_text; p ← rd_u8; cap ← rd_opt_text; d ← rd_bytes; mret (mkTaskSnap name p cap d).
Definition rd_resource : Reader ResourceSnapshot := name ← rd_text; cap ← rd_text; mret (mkResSnap name cap).
Definition rd_state : Reader AgentState :=
  b ← rd_u8;
  match b with
  | 0 => mret AS_Created | 1 => mret AS_Initializing | 2 => mret AS_Ready | 3 => mret AS_Running | 4 => mret AS_Paused
  | 5 => mret AS_ShuttingDown | 6 => mret AS_Terminated | _ => reader_err CP_InvalidState
  end.
Definition rd_checkpoint (id n : Z) : Reader Checkpoint :=
  magic ← rd_take 4;
  if bool_decide (magic ≠ CHECKPOINT_MAGIC) then reader_err CP_InvalidMagic
  else
    version ← rd_u32;
    if negb (version =? CHECKPOINT_VERSION) then reader_err (CP_UnsupportedVersion version)
    else
      agent_id ← rd_take 32; st ← rd_state; name ← rd_text; caps ← rd_list rd_text; kv ← rd_opt_bytes; tasks ← rd_list rd_task;
      res ← rd_list rd_resource; t ← rd_u64; mret (mkCheckpoint id agent_id st name caps kv tasks res t n).
Definition cp_from_bytes (id : Z) (data : list Z) : outcome CheckpointError Checkpoint :=
  if len data <? 12 then Err CP_TooShort
  else
    '(c, rest) ← rd_checkpoint id (len data) data;
    '(stored, _) ← rd_u32 rest;
    if stored =? crc32 (take (length data - length rest) data) then Ok c else Err CP_ChecksumMismatch.

(** ** The manager *)

Record CheckpointManager := mkCpManager {
  checkpoints : gmap Z (list Z); cpm_options : CheckpointOptions; total_checkpoints : Z; total_restores : Z; cpm_total_bytes : Z
}.
Definition CheckpointManager_new : CheckpointManager := mkCpManager ∅ CheckpointOptions_default 0 0 0.
Definition cpm_with_options (m : CheckpointManager) (o : CheckpointOptions) : CheckpointManager :=
  mkCpManager (checkpoints m) o (total_checkpoints m) (total_restores m) (cpm_total_bytes m).
Definition cpm_create (id : Z) (m : CheckpointManager) (agent : NodeId) (st : AgentState) (name : text) (caps : list text)
    (kv : option (list Z)) (tasks : list TaskSnapshot) (res : list ResourceSnapshot) : CheckpointManager * Z :=
  let b := cp_to_bytes (mkCheckpoint id agent st name caps kv tasks res 0 0) in
  (mkCpManager (<[id := b]> (checkpoints m)) (cpm_options m) (u64_add (total_checkpoints m) 1) (total_restores m) (u64_add (cpm_total_bytes m) (len b)), id).
(** [fresh]: the identifier the restored checkpoint is given. *)
Definition cpm_restore (fresh : Z) (m : CheckpointManager) (id : Z) : CheckpointManager * outcome CheckpointError Checkpoint :=
  match checkpoints m !! id with
  | None => (m, Err CP_IoError)
  | Some b =>
      match cp_from_bytes fresh b with
      | Ok c => (mkCpManager (checkpoints m) (cpm_options m) (total_checkpoints m) (u64_add (total_restores m) 1) (cpm_total_bytes m), Ok c)
      | r => (m, r)
      end
  end.
Definition cpm_delete (m : CheckpointManager) (id : Z) : CheckpointManager * bool :=
  (mkCpManager (delete id (checkpoints m)) (cpm_options m) (total_checkpoints m) (total_restores m) (cpm_total_bytes m), bool_decide (is_Some (checkpoints m !! id))).
Definition checkpoint_size (m : CheckpointManager) (id : Z) : option Z := len <$> checkpoints m !! id.

(** ** What is written is read back *)

(** [r] reads [a] off the front of anything that starts with [b], and panics on every proper
    prefix of [b]. *)
Record reads {A} (r : Reader A) (b : list Z) (a : A) : Prop := {
  reads_ok rest : r (b ++ rest) = Ok (a, rest);
  reads_cut b0 b1 : b = b0 ++ b1 → b1 ≠ [] → r b0 = Panic
}.
Lemma reads_ret {A} (a : A) : reads (mret a) [] a.
Proof. split; [done|]. by intros [|] [|]. Qed.
Lemma reads_bind {A B} (r : Reader A) (k : A → Reader B) b b' a x : reads r b a → reads (k a) b' x → reads (r ≫= k) (b ++ b') x.
Proof.
  intros [H1 H2] [K1 K2]. split.
  - intros rest. unfold mbind, reader_bind. by rewrite <- (assoc_L (++)), H1, K1.
  - intros b0 b1 E Hne. unfold mbind, reader_bind. destruct (decide (length b ≤ length b0)%nat) as [Hl|Hl].
    + apply app_eq_inv in E as [(k0 & -> & ->)|(k0 & -> & ->)].
      * rewrite length_app in Hl. destruct k0; [|cbn in Hl; lia]. rewrite app_nil_r in *. pose proof (H1 []) as H. rewrite app_nil_r in H. rewrite H.
        by apply (K2 [] b').
      * rewrite H1. by apply (K2 k0 b1).
    + apply app_eq_inv in E as [(k0 & -> & ->)|(k0 & -> & ->)]; [|rewrite length_app in Hl; lia].
      rewrite (H2 b0 k0); [done|done|]. intros ->. rewrite app_nil_r in Hl. lia.
Qed.
Lemma reads_bind_last {A B} (r : Reader A) (k : A → Reader B) b a x : reads r b a → reads (k a) [] x → reads (r ≫= k) b x.
Proof. intros Hr Hk. rewrite <- (app_nil_r b). by eapply reads_bind. Qed.
Lemma reads_take n b : len b = n → reads (rd_take n) b b.
Proof.
  intros Hl. split.
  - intros rest. unfold rd_take. rewrite len_app. pose proof (len_nonneg rest). rewrite (proj2 (Z.leb_le _ _)) by lia.
    rewrite take_app_exact, drop_app_exact by (rewrite <- Hl; unfold len; lia). done.
  - intros b0 b1 -> Hne. unfold rd_take. rewrite len_app in Hl. assert (0 < len b1) by (destruct b1; [done|rewrite len_cons; pose proof (len_nonneg b1); lia]).
    by rewrite (proj2 (Z.leb_gt _ _)) by lia.
Qed.
Lemma reads_u8 b : reads rd_u8 [b] b.
Proof. split; [done|]. intros [|x [|]] [|y b1] E Hne; done. Qed.
Lemma reads_u32 n : 0 ≤ n < 2 ^ 32 → reads rd_u32 (to_le 4 n) n.
Proof.
  intros Hn. eapply reads_bind_last; [apply reads_take, len_to_le|]. rewrite from_le_to_le by done. apply reads_ret.
Qed.
Lemma reads_u64 n : 0 ≤ n < 2 ^ 64 → reads rd_u64 (to_le 8 n) n.
Proof.
  intros Hn. eapply reads_bind_last; [apply reads_take, len_to_le|]. rewrite from_le_to_le by done. apply reads_ret.
Qed.
Definition fits {A} (l : list A) : Prop := len l < 2 ^ 32.
Lemma reads_len {A} (l : list A) : fits l → reads rd_u32 (put_len (len l)) (len l).
Proof. intros Hl. unfold fits in Hl. unfold put_len. pose proof (len_nonneg l). rewrite Z.mod_small by lia. by apply reads_u32. Qed.
Lemma reads_bytes b : fits b → reads rd_bytes (put_bytes b) b.
Proof. intros Hb. eapply reads_bind; [by apply reads_len|by apply reads_take]. Qed.
Definition text_fits (s : text) : Prop := Forall char_ok s ∧ fits (as_bytes s).
Lemma from_utf8_as_bytes s : Forall char_ok s → from_utf8 (as_bytes s) = Some s.
Proof. intros Hs. unfold from_utf8. by rewrite lossy_as_bytes, bool_decide_true by done. Qed.
(** [from_utf8] accepts exactly the encodings of texts. *)
Lemma from_utf8_Some b s : bytes_ok b → from_utf8 b = Some s ↔ b = as_bytes s ∧ Forall char_ok s.
Proof.
  intros Hb. split; [|intros [-> ?]; by apply from_utf8_as_bytes]. unfold from_utf8. case_bool_decide as E; [|done]. intros [= <-].
  split; [done|]. by apply (lossy_char_ok (length b)).
Qed.
Lemma reads_text s : text_fits s → reads rd_text (put_text s) s.
Proof.
  intros [Hc Hf]. eapply reads_bind_last; [by apply reads_bytes|]. unfold rd_utf8. rewrite from_utf8_as_bytes by done. apply reads_ret.
Qed.
Lemma reads_times {A B} (r : Reader B) (f : A → list Z) (g : A → B) l :
  (∀ a, a ∈ l → reads r (f a) (g a)) → reads (rd_times (length l) r) (flat_map f l) (g <$> l).
Proof.
  induction l as [|a l IH]; intros H; [apply reads_ret|]. cbn. eapply reads_bind; [apply H; left|].
  eapply reads_bind_last; [apply IH; intros x Hx; apply H; by right|apply reads_ret].
Qed.
Lemma reads_list {A B} (r : Reader B) (f : A → list Z) (g : A → B) l :
  fits l → (∀ a, a ∈ l → reads r (f a) (g a)) → reads (rd_list r) (put_list f l) (g <$> l).
Proof. intros Hl H. eapply reads_bind; [by apply reads_len|]. unfold len. rewrite Nat2Z.id. by apply reads_times. Qed.
Definition drop_empty {A} (o : option (list A)) : option (list A) := match o with Some [] => None | _ => o end.
Lemma as_bytes_pos s : (0 <? len (as_bytes s)) = match s with [] => false | _ => true end.
Proof.
  destruct s as [|c s]; [done|]. change (as_bytes (c :: s)) with (utf8_char c ++ as_bytes s). rewrite len_app. pose proof (len_nonneg (as_bytes s)).
  assert (0 < len (utf8_char c)) by (unfold utf8_char; repeat case_match; unfold len; cbn; lia). apply Z.ltb_lt. lia.
Qed.
Lemma reads_opt_text o : (∀ s, o = Some s → text_fits s) → reads rd_opt_text (put_text (default [] o)) (drop_empty o).
Proof.
  intros H. assert (Hs : text_fits (default [] o)) by (destruct o as [s|]; [by apply H|split; [constructor|done]]). destruct Hs as [Hc Hf].
  eapply reads_bind; [by apply reads_len|]. rewrite as_bytes_pos. destruct o as [[|c s]|]; cbn [default drop_empty from_option id] in *; [apply reads_ret| |apply reads_ret].
  eapply reads_bind_last; [by apply reads_take|]. eapply reads_bind_last; [|apply reads_ret].
  unfold rd_utf8. rewrite from_utf8_as_bytes by done. apply reads_ret.
Qed.
Lemma reads_opt_bytes o : (∀ b, o = Some b → fits b) → reads rd_opt_bytes (put_bytes (default [] o)) (drop_empty o).
Proof.
  intros H. assert (Hs : fits (default [] o)) by (destruct o as [s|]; [by apply H|done]).
  eapply reads_bind; [by apply reads_len|]. destruct o as [[|c s]|]; cbn [default drop_empty from_option id] in *; [apply reads_ret| |apply reads_ret].
  rewrite (proj2 (Z.ltb_lt _ _)) by (rewrite len_cons; pose proof (len_nonneg s); lia).
  eapply reads_bind_last; [by apply reads_take|apply reads_ret].
Qed.

(** *** The checksum tells single bytes apart *)

Lemma lxor_range n a b : 0 < n → 0 ≤ a < 2 ^ n → 0 ≤ b < 2 ^ n → 0 ≤ Z.lxor a b < 2 ^ n.
Proof.
  intros Hn Ha Hb. assert (H : 0 ≤ Z.lxor a b) by (apply Z.lxor_nonneg; lia). split; [done|].
  assert (Hlog : ∀ z, 0 ≤ z < 2 ^ n → Z.log2 z < n).
  { intros z Hz. destruct (decide (z = 0)) as [->|]; [done|]. apply Z.log2_lt_pow2; lia. }
  destruct (decide (Z.lxor a b = 0)) as [->|]; [lia|]. apply Z.log2_lt_pow2; [lia|].
  pose proof (Z.log2_lxor a b ltac:(lia) ltac:(lia)). pose proof (Hlog a Ha). pose proof (Hlog b Hb). lia.
Qed.
Lemma crc_round_range x : 0 ≤ x < 2 ^ 32 → 0 ≤ crc_round x < 2 ^ 32.
Proof.
  intros Hx. unfold crc_round. assert (0 ≤ Z.shiftr x 1 < 2 ^ 32) by (rewrite Z.shiftr_div_pow2 by lia; change (2 ^ 1) with 2; dlia).
  destruct (Z.odd x); [|done]. apply lxor_range; lia.
Qed.
Lemma crc_round_top x : 0 ≤ x < 2 ^ 32 → Z.testbit (crc_round x) 31 = Z.odd x.
Proof.
  intros Hx. unfold crc_round. assert (Ht : Z.testbit (Z.shiftr x 1) 31 = false).
  { rewrite Z.shiftr_spec by lia. change (31 + 1) with 32. destruct (decide (x = 0)) as [->|]; [done|].
    apply Z.bits_above_log2; [lia|]. apply Z.log2_lt_pow2; lia. }
  destruct (Z.odd x); [|done]. by rewrite Z.lxor_spec, Ht.
Qed.
Lemma crc_round_inj x y : 0 ≤ x < 2 ^ 32 → 0 ≤ y < 2 ^ 32 → crc_round x = crc_round y → x = y.
Proof.
  intros Hx Hy E. assert (Eo : Z.odd x = Z.odd y) by (rewrite <- !crc_round_top by done; by rewrite E).
  assert (Es : Z.shiftr x 1 = Z.shiftr y 1).
  { unfold crc_round in E. rewrite <- Eo in E. destruct (Z.odd x); [|done]. apply (f_equal (λ z, Z.lxor z 0xEDB88320)) in E.
    by rewrite !Z.lxor_assoc, Z.lxor_nilpotent, !Z.lxor_0_r in E. }
  rewrite (Z.div2_odd x), (Z.div2_odd y), !Z.div2_spec, Es, Eo. done.
Qed.
Lemma crc_rounds n x y : 0 ≤ x < 2 ^ 32 → 0 ≤ y < 2 ^ 32 →
  0 ≤ Nat.iter n crc_round x < 2 ^ 32 ∧ (Nat.iter n crc_round x = Nat.iter n crc_round y → x = y).
Proof.
  intros Hx Hy. assert (H : ∀ k z, 0 ≤ z < 2 ^ 32 → 0 ≤ Nat.iter k crc_round z < 2 ^ 32).
  { induction k as [|k IH]; intros z Hz; [done|]. cbn. by apply crc_round_range, IH. }
  split; [by apply H|]. induction n as [|n IH]; [done|]. cbn. intros E. apply IH, crc_round_inj; [by apply H|by apply H|done].
Qed.
Lemma crc_byte_range c b : 0 ≤ c < 2 ^ 32 → 0 ≤ b < 256 → 0 ≤ crc_byte c b < 2 ^ 32.
Proof. intros Hc Hb. unfold crc_byte. assert (0 ≤ Z.lxor c b < 2 ^ 32) by (apply lxor_range; lia). by apply (crc_rounds 8 _ (Z.lxor c b)). Qed.
Lemma crc_byte_inj c c' b b' : 0 ≤ c < 2 ^ 32 → 0 ≤ c' < 2 ^ 32 → 0 ≤ b < 256 → 0 ≤ b' < 256 → crc_byte c b = crc_byte c' b' → Z.lxor c b = Z.lxor c' b'.
Proof. intros Hc Hc' Hb Hb'. unfold crc_byte. apply crc_rounds; apply lxor_range; lia. Qed.
Lemma lxor_cancel_l a b c : Z.lxor a b = Z.lxor a c → b = c.
Proof. intros E. apply (f_equal (Z.lxor a)) in E. by rewrite <- !Z.lxor_assoc, Z.lxor_nilpotent, !Z.lxor_0_l in E. Qed.
Lemma lxor_cancel_r a b c : Z.lxor b a = Z.lxor c a → b = c.
Proof. rewrite !(Z.lxor_comm _ a). apply lxor_cancel_l. Qed.
Lemma crc_fold l : ∀ c c', 0 ≤ c < 2 ^ 32 → 0 ≤ c' < 2 ^ 32 → bytes_ok l →
  0 ≤ foldl crc_byte c l < 2 ^ 32 ∧ (foldl crc_byte c l = foldl crc_byte c' l → c = c').
Proof.
  induction l as [|b l IH]; intros c c' Hc Hc' Hb; [done|]. apply Forall_cons in Hb as [Hb Hl]. cbn [foldl].
  destruct (IH (crc_byte c b) (crc_byte c' b)) as [H1 H2]; [by apply crc_byte_range|by apply crc_byte_range|done|]. split; [done|].
  intros E. apply H2, crc_byte_inj in E; [|done..]. by apply lxor_cancel_r in E.
Qed.
Lemma crc32_range l : bytes_ok l → 0 ≤ crc32 l < 2 ^ 32.
Proof. intros Hl. unfold crc32. destruct (crc_fold l 0xFFFFFFFF 0xFFFFFFFF ltac:(lia) ltac:(lia) Hl). lia. Qed.
(** Changing one byte changes the checksum. *)
Lemma crc32_one_byte p a b s : bytes_ok (p ++ a :: s) → 0 ≤ b < 256 → crc32 (p ++ a :: s) = crc32 (p ++ b :: s) → a = b.
Proof.
  intros Hb Hb'. apply Forall_app in Hb as [Hp Hs]. apply Forall_cons in Hs as [Ha Hs]. unfold crc32. rewrite !foldl_app. cbn [foldl]. intros E.
  destruct (crc_fold p 0xFFFFFFFF 0xFFFFFFFF ltac:(lia) ltac:(lia) Hp) as [Hc _].
  set (c := foldl crc_byte 0xFFFFFFFF p) in *. destruct (crc_fold s (crc_byte c a) (crc_byte c b)) as [_ Hinj]; [by apply crc_byte_range|by apply crc_byte_range|done|].
  assert (E' : crc_byte c a = crc_byte c b) by (apply Hinj; lia). apply crc_byte_inj in E'; [|done..]. by apply lxor_cancel_l in E'.
Qed.

(** *** Checkpoints *)

Record task_fits (t : TaskSnapshot) : Prop := {
  tf_name : text_fits (ts_name t); tf_cap s : ts_required_capability t = Some s → text_fits s;
  tf_priority : 0 ≤ ts_priority t < 256; tf_data : fits (ts_data t) ∧ bytes_ok (ts_data t)
}.
Record checkpoint_fits (c : Checkpoint) : Prop := {
  cf_agent : array_ok 32 (cp_agent_id c); cf_name : text_fits (cp_agent_name c);
  cf_caps : fits (cp_capabilities c) ∧ Forall text_fits (cp_capabilities c);
  cf_kv b : kv_cache c = Some b → fits b ∧ bytes_ok b;
  cf_tasks : fits (cp_tasks c) ∧ Forall task_fits (cp_tasks c);
  cf_res : fits (cp_resources c) ∧ Forall (λ r, text_fits (rs_name r) ∧ text_fits (rs_capability r)) (cp_resources c);
  cf_time : 0 ≤ cp_timestamp c < 2 ^ 64
}.
(** What comes back: an empty cache or required capability has become an absent one. *)
Definition restored_task (t : TaskSnapshot) : TaskSnapshot := mkTaskSnap (ts_name t) (ts_priority t) (drop_empty (ts_required_capability t)) (ts_data t).
Definition restored (id n : Z) (c : Checkpoint) : Checkpoint :=
  mkCheckpoint id (cp_agent_id c) (cp_agent_state c) (cp_agent_name c) (cp_capabilities c) (drop_empty (kv_cache c))
    (restored_task <$> cp_tasks c) (cp_resources c) (cp_timestamp c) n.

Lemma reads_task t : task_fits t → reads rd_task (put_task t) (restored_task t).
Proof.
  intros [Hn Hc Hp [Hd _]]. unfold put_task. eapply reads_bind; [by apply reads_text|]. eapply reads_bind; [apply reads_u8|].
  eapply reads_bind; [by apply reads_opt_text|]. eapply reads_bind_last; [by apply reads_bytes|apply reads_ret].
Qed.
Lemma reads_resource r : text_fits (rs_name r) ∧ text_fits (rs_capability r) → reads rd_resource (put_resource r) r.
Proof.
  intros [Hn Hc]. eapply reads_bind; [by apply reads_text|]. eapply reads_bind_last; [by apply reads_text|]. destruct r. apply reads_ret.
Qed.
Lemma reads_state s : reads rd_state [state_code s] s.
Proof. eapply reads_bind_last; [apply reads_u8|]. destruct s; apply reads_ret. Qed.
Lemma reads_checkpoint id n c : checkpoint_fits c → reads (rd_checkpoint id n) (checkpoint_body c) (restored id n c).
Proof.
  intros [Ha Hn [Hc Hcs] Hkv [Ht Hts] [Hr Hrs] Htime]. unfold checkpoint_body, rd_checkpoint.
  eapply reads_bind; [by apply reads_take|]. rewrite bool_decide_false by (intros H; by apply H).
  eapply reads_bind; [apply reads_u32; by vm_compute|]. cbn [negb Z.eqb CHECKPOINT_VERSION Pos.eqb].
  eapply reads_bind; [apply reads_take; by rewrite (len_array 32)|]. eapply (reads_bind _ _ [_]); [apply reads_state|].
  eapply reads_bind; [by apply reads_text|].
  eapply reads_bind; [apply (reads_list rd_text put_text (λ s, s)); [done|]; intros s Hs; apply reads_text; by eapply Forall_forall in Hcs|].
  eapply reads_bind; [apply reads_opt_bytes; intros b Hb; by apply Hkv|].
  eapply reads_bind; [apply (reads_list rd_task put_task restored_task); [done|]; intros t Htt; apply reads_task; by eapply Forall_forall in Hts|].
  eapply reads_bind; [apply (reads_list rd_resource put_resource (λ r, r)); [done|]; intros r Hrr; apply reads_resource; by eapply Forall_forall in Hrs|].
  eapply reads_bind_last; [by apply reads_u64|]. rewrite !list_fmap_id. apply reads_ret.
Qed.
Lemma put_bytes_ok b : bytes_ok b → bytes_ok (put_bytes b).
Proof. intros Hb. apply Forall_app. split; [apply to_le_bytes_ok|done]. Qed.
Lemma put_text_ok s : Forall char_ok s → bytes_ok (put_text s).
Proof. intros Hs. apply put_bytes_ok. unfold as_bytes. induction Hs; [constructor|]. cbn. apply Forall_app. split; [by apply utf8_char_bytes|done]. Qed.
Lemma put_list_ok {A} (f : A → list Z) l : (∀ a, a ∈ l → bytes_ok (f a)) → bytes_ok (put_list f l).
Proof.
  intros H. apply Forall_app. split; [apply to_le_bytes_ok|]. induction l as [|a l IH]; [constructor|]. cbn. apply Forall_app.
  split; [apply H; left|apply IH; intros x Hx; apply H; by right].
Qed.
Lemma checkpoint_body_ok c : checkpoint_fits c → bytes_ok (checkpoint_body c).
Proof.
  intros [[_ Ha] [Hn _] [_ Hcs] Hkv [_ Hts] [_ Hrs] _]. unfold checkpoint_body. rewrite !Forall_app. split_and!; try apply to_le_bytes_ok; try done.
  - by apply (bool_decide_unpack _); vm_compute.
  - constructor; [by destruct (cp_agent_state c)|constructor].
  - by apply put_text_ok.
  - apply put_list_ok. intros s Hs. apply put_text_ok. eapply Forall_forall in Hcs as [? _]; done.
  - apply put_bytes_ok. destruct (kv_cache c) as [b|]; [by apply Hkv|constructor].
  - apply put_list_ok. intros t Ht. eapply Forall_forall in Hts as [[? _] Hc ? [_ ?]]; [|done]. unfold put_task.
    rewrite !Forall_app. split_and!; [by apply put_text_ok|by constructor|apply put_text_ok|by apply put_bytes_ok].
    destruct (ts_required_capability t) as [s|]; [by apply Hc|constructor].
  - apply put_list_ok. intros r Hr. eapply Forall_forall in Hrs as [[? _] [? _]]; [|done]. apply Forall_app. split; by apply put_text_ok.
Qed.

Lemma from_bytes_read id data c k : 12 ≤ len data → rd_checkpoint id (len data) data = Ok (c, k) → len k = 4 →
  cp_from_bytes id data = if from_le k =? crc32 (take (length data - 4) data) then Ok c else Err CP_ChecksumMismatch.
Proof.
  intros Hl E Hk. unfold cp_from_bytes. rewrite (proj2 (Z.ltb_ge _ _)), E by lia. cbn [mbind outcome_bind].
  pose proof (reads_ok _ _ _ (reads_take 4 k Hk) []) as Ht. rewrite app_nil_r in Ht. unfold rd_u32, mbind, reader_bind, mret, reader_ret. rewrite Ht.
  cbn [mbind outcome_bind]. replace (length k) with 4%nat by (unfold len in Hk; lia). done.
Qed.
Lemma body_length c : checkpoint_fits c → 12 ≤ len (checkpoint_body c).
Proof.
  intros [Ha _ _ _ _ _ _]. unfold checkpoint_body. rewrite !len_app, (len_array 32 _ Ha), !len_to_le, len_cons, len_nil.
  repeat match goal with |- context [len ?l] => lazymatch goal with H : 0 ≤ len l |- _ => fail | _ => pose proof (len_nonneg l) end end. lia.
Qed.

(** C36: a checkpoint whose texts are Unicode and whose fields are shorter than 4 GiB is read back from
    its bytes as it was, except that an empty key-value cache or required capability
    comes back as none; every proper prefix of the bytes is refused as too short below 12 bytes and
    panics from there on; a wrong checksum is noticed; and so is any single byte changed before it,
    as long as the fields still end where the checksum begins.  What the manager has stored it
    restores. *)
Theorem checkpoint_roundtrip id c : checkpoint_fits c →
  let body := checkpoint_body c in
  cp_from_bytes id (cp_to_bytes c) = Ok (restored id (len (cp_to_bytes c)) c) ∧
  (∀ b0 b1, cp_to_bytes c = b0 ++ b1 → b1 ≠ [] → cp_from_bytes id b0 = if len b0 <? 12 then Err CP_TooShort else Panic) ∧
  (∀ x, len x = 4 → bytes_ok x → x ≠ to_le 4 (crc32 body) → cp_from_bytes id (body ++ x) = Err CP_ChecksumMismatch) ∧
  (∀ p a s b c', body = p ++ a :: s → 0 ≤ b < 256 → b ≠ a →
     rd_checkpoint id (len (cp_to_bytes c)) (p ++ b :: s ++ to_le 4 (crc32 body)) = Ok (c', to_le 4 (crc32 body)) →
     cp_from_bytes id (p ++ b :: s ++ to_le 4 (crc32 body)) = Err CP_ChecksumMismatch) ∧
  ∀ m st fresh, cp_timestamp c = 0 → st = cp_agent_state c →
    (cpm_restore fresh (cpm_create id m (cp_agent_id c) st (cp_agent_name c) (cp_capabilities c) (kv_cache c) (cp_tasks c) (cp_resources c)).1 id).2
    = Ok (restored fresh (len (cp_to_bytes c)) c).
Proof.
  intros Hf. cbn zeta. pose proof (checkpoint_body_ok c Hf) as Hb. pose proof (crc32_range _ Hb) as Hcrc. pose proof (body_length c Hf) as Hlen.
  assert (Hback : ∀ id x, len x = 4 → cp_from_bytes id (checkpoint_body c ++ x)
            = if from_le x =? crc32 (checkpoint_body c) then Ok (restored id (len (checkpoint_body c ++ x)) c) else Err CP_ChecksumMismatch).
  { intros id' x Hx. rewrite (from_bytes_read id' _ (restored id' (len (checkpoint_body c ++ x)) c) x); [|rewrite len_app; lia|by apply (reads_ok _ _ _ (reads_checkpoint id' _ c Hf))|done].
    rewrite take_app_exact; [done|]. rewrite length_app. unfold len in *. lia. }
  assert (Hok : ∀ id, cp_from_bytes id (cp_to_bytes c) = Ok (restored id (len (cp_to_bytes c)) c)).
  { intros id'. unfold cp_to_bytes at 1. rewrite Hback by apply len_to_le. rewrite from_le_to_le by (change (8 * Z.of_nat 4) with 32; lia). by rewrite Z.eqb_refl. }
  split_and!; [apply Hok| | | |].
  - intros b0 b1 E Hne. unfold cp_from_bytes. destruct (len b0 <? 12); [done|].
    pose proof (reads_bind _ (λ c', n ← rd_u32; mret (c', n)) _ _ _ _ (reads_checkpoint id (len b0) c Hf)
      (reads_bind_last _ _ _ _ _ (reads_u32 (crc32 (checkpoint_body c)) ltac:(lia)) (reads_ret (restored id (len b0) c, crc32 (checkpoint_body c))))) as Hr.
    pose proof (reads_cut _ _ _ Hr b0 b1 E Hne) as Hp. unfold mbind, reader_bind, outcome_bind in *.
    destruct (rd_checkpoint id (len b0) b0) as [[c' rest]|e|]; [|done|done]. cbn. by destruct (rd_u32 rest) as [[n r]|e|].
  - intros x Hx Hbx Hne. rewrite Hback by done. rewrite (proj2 (Z.eqb_neq _ _)); [done|]. intros E. apply Hne. rewrite <- E. unfold from_le, to_le.
    rewrite <- (rev_involutive x) at 1. f_equal. rewrite <- (to_be_from_be (rev x)) at 1 by (by apply Forall_rev). f_equal.
    rewrite length_rev. unfold len in Hx. lia.
  - intros p a s b c' Eb Hbyte Hne E. assert (Hl : len (cp_to_bytes c) = len (p ++ b :: s ++ to_le 4 (crc32 (checkpoint_body c))))
      by (unfold cp_to_bytes; rewrite Eb at 1; rewrite !len_app, !len_cons, !len_app; lia).
    rewrite Hl in E. rewrite (from_bytes_read id _ c' (to_le 4 (crc32 (checkpoint_body c)))); [|rewrite <- Hl; unfold cp_to_bytes; rewrite len_app, len_to_le; lia|done|apply len_to_le].
    rewrite from_le_to_le by (change (8 * Z.of_nat 4) with 32; lia).
    assert (Et : take (length (p ++ b :: s ++ to_le 4 (crc32 (checkpoint_body c))) - 4) (p ++ b :: s ++ to_le 4 (crc32 (checkpoint_body c))) = p ++ b :: s).
    { rewrite app_comm_cons, (assoc_L (++)). apply take_app_exact. rewrite length_app. pose proof (len_to_le 4 (crc32 (checkpoint_body c))). unfold len in *. lia. }
    rewrite Et, (proj2 (Z.eqb_neq _ _)); [done|]. intros Ec. rewrite Eb in Ec, Hb. symmetry in Ec. apply Hne. symmetry. symmetry in Ec. by eapply crc32_one_byte.
  - intros m st fresh Ht ->. unfold cpm_create, cpm_restore. cbn [fst checkpoints]. rewrite lookup_insert_eq.
    assert (Ec : cp_to_bytes (mkCheckpoint id (cp_agent_id c) (cp_agent_state c) (cp_agent_name c) (cp_capabilities c) (kv_cache c) (cp_tasks c) (cp_resources c) 0 0) = cp_to_bytes c).
    { unfold cp_to_bytes, checkpoint_body. cbn. by rewrite Ht. }
    by rewrite Ec, Hok.
Qed.

Section CheckpointExamples.
Let sample : Checkpoint :=
  mkCheckpoint 1 (replicate 32 171) AS_Running (str "a") [str "llm"] (Some [1; 2]) [mkTaskSnap (str "t") 2 (Some []) [5]] [mkResSnap (str "g") (str "c")] 0 0.

Lemma sample_fits : checkpoint_fits sample.
Proof.
  assert (Ht : ∀ s, bool_decide (Forall char_ok s) = true → len (as_bytes s) < 2 ^ 32 → text_fits s).
  { intros s Hs Hl. split; [|done]. by apply bool_decide_eq_true in Hs. }
  split; unfold sample; cbn [cp_agent_id cp_agent_name cp_capabilities kv_cache cp_tasks cp_resources cp_timestamp].
  - apply array_ok_replicate. lia.
  - by apply Ht.
  - split; [done|]. constructor; [by apply Ht|constructor].
  - intros b [= <-]. split; [done|]. repeat (constructor; [lia|]). constructor.
  - split; [done|]. constructor; [|constructor]. split; cbn; [by apply Ht|intros s [= <-]; by apply Ht|lia|].
    split; [done|]. constructor; [lia|constructor].
  - split; [done|]. constructor; [|constructor]. split; by apply Ht.
  - lia.
Qed.
Lemma checkpoint_roundtrip_witness :
  cp_from_bytes 7 (cp_to_bytes sample) = Ok (restored 7 (len (cp_to_bytes sample)) sample) ∧
  restored 7 (len (cp_to_bytes sample)) sample =
    mkCheckpoint 7 (replicate 32 171) AS_Running (str "a") [str "llm"] (Some [1; 2]) [mkTaskSnap (str "t") 2 None [5]] [mkResSnap (str "g") (str "c")] 0 (len (cp_to_bytes sample)).
Proof. destruct (checkpoint_roundtrip 7 sample sample_fits) as [H _]. split; [exact H|vm_compute; reflexivity]. Defined.
(** Twelve bytes are not too short for the length test, and panic. *)
Example truncated_panics : cp_from_bytes 1 (take 12 (cp_to_bytes sample)) = Panic ∧ cp_from_bytes 1 (take 11 (cp_to_bytes sample)) = Err CP_TooShort.
Proof. split; by vm_compute. Qed.
(** Bytes behind the checksum are ignored. *)
Example trailing_ignored : is_ok (cp_from_bytes 1 (cp_to_bytes sample ++ [9])) = true.
Proof. by vm_compute. Qed.
End CheckpointExamples.
