(* ===== verification/Mesh.v ===== *)
(** * The mesh node (forge-node/src/network.rs)

    What a daemon does with a verified frame: forwarding of routed frames with
    its duplicate cache and reverse-path breadcrumbs, the handler of every frame
    type, and the tasks the handler spawns.  The shared maps of the network
    manager are one state; sends, resolved waiters and spawned tasks are effects
    in the order the code performs them.  Clock readings are arguments, one per
    reading; a frame is handled as one step. *)

From stdpp Require Import base numbers list gmap strings.
From S2P Require Import Prelude Types Codec Text Intent Scan Policy Approval AuditTrail Router Crypto F32 Announce Frames Dispatch Semantic.

(** ** Addresses and sockets *)

(** A socket address: octets or 16-bit segments, port, and for IPv6 the flow
    label and scope. *)
Inductive SocketAddr :=
  | SockV4 (octets : list Z) (port : Z)
  | SockV6 (segments : list Z) (port flowinfo scope_id : Z).
#[export] Instance SocketAddr_eq_dec : EqDecision SocketAddr.
Proof. solve_decision. Defined.
#[export] Instance SocketAddr_countable : Countable SocketAddr.
Proof.
  refine (inj_countable'
    (λ a, match a with SockV4 o p => inl (o, p) | SockV6 s p f i => inr (s, (p, (f, i))) end)
    (λ x, match x with inl (o, p) => SockV4 o p | inr (s, (p, (f, i))) => SockV6 s p f i end) _).
  by intros [].
Defined.
#[export] Instance FrameType_countable : Countable FrameType.
Proof.
  refine (inj_countable'
    (λ t, match t with FReserved v => inr v | t => inl (FrameType_to_u8 t) end)
    (λ x, match x with inr v => FReserved v | inl v => FrameType_from_u8 v end) _).
  by intros [].
Defined.

Inductive Socket := MainSocket | DiscoverySocket.

(** fe80::/10 *)
Definition is_link_local_v6 (a : SocketAddr) : bool :=
  match a with
  | SockV6 segments _ _ _ => Z.land (default 0 (head segments)) 0xffc0 =? 0xfe80
  | SockV4 _ _ => false
  end.
(** The socket a datagram leaves by; [discovery] tells whether there is a second one. *)
Definition send_via (discovery : bool) (a : SocketAddr) : Socket :=
  if is_link_local_v6 a && discovery then DiscoverySocket else MainSocket.

(** ** Constants (durations in nanoseconds) *)

Definition secs (n : Z) : Z := n * 10 ^ 9.
Definition DEFAULT_ROUTING_TTL : Z := 8.
Definition FORWARD_DEDUP_CAPACITY : nat := Z.to_nat 4096.
Definition REVERSE_ROUTES_CAPACITY : Z := 65536.
Definition INTENT_TIMEOUT : Z := secs 25.
Definition REVERSE_ROUTE_TTL : Z := 2 * INTENT_TIMEOUT.
Definition ANNOUNCE_RATE_LIMIT_INTERVAL : Z := secs 1.
Definition MAX_DISTINCT_ORIGINS_PER_SENDER_PER_WINDOW : Z := 16.
Definition ORIGIN_ADMISSION_WINDOW : Z := secs 60.
Definition ANNOUNCEMENT_MAX_AGE : Z := secs (30 * 60).

Definition duration_since (t earlier : Z) : Z := Z.max 0 (t - earlier).
Definition origin_clock_is_fresh (origin_clock_physical now_physical : Z) : bool :=
  abs_diff now_physical origin_clock_physical <=? MAX_ANNOUNCE_CLOCK_SKEW.

(** ** The duplicate cache *)

Definition forward_key : Type := TraceId * FrameType.
Record ForwardedFrameCache := mkCache { fc_seen : gset forward_key; fc_order : list forward_key }.
Definition ForwardedFrameCache_new : ForwardedFrameCache := mkCache ∅ [].
Definition cache_contains (c : ForwardedFrameCache) (k : forward_key) : bool := bool_decide (k ∈ fc_seen c).
Definition cache_insert (c : ForwardedFrameCache) (k : forward_key) : ForwardedFrameCache :=
  if decide (k ∈ fc_seen c) then c
  else
    let seen := {[k]} ∪ fc_seen c in
    let order := fc_order c ++ [k] in
    if (FORWARD_DEDUP_CAPACITY <? length order)%nat then
      match order with
      | oldest :: rest => mkCache (seen ∖ {[oldest]}) rest
      | [] => mkCache seen order
      end
    else mkCache seen order.

(** ** State and effects *)

(** The waiters of [ping] and [request_intent] are named by their trace; what is
    kept of one is the sender it expects. *)
Record MeshState := mkMesh {
  ms_discovery_socket : bool;
  ms_known_peers : gset NodeId;
  ms_peer_addrs : gmap NodeId SocketAddr;
  ms_forwarded : ForwardedFrameCache;
  ms_pending_pings : gmap TraceId NodeId;
  ms_pending_intents : gmap TraceId NodeId;
  ms_router : SemanticRouter;
  ms_announcements : AnnouncementManager;
  ms_reachable_via : gmap NodeId (NodeId * Z);
  ms_reverse_routes : gmap TraceId (SocketAddr * Z);
  ms_origin_admission : gmap NodeId (Z * gset NodeId);
  ms_last_announce : gmap (NodeId * NodeId) Z
}.
Definition upd_forwarded (s : MeshState) x := mkMesh (ms_discovery_socket s) (ms_known_peers s) (ms_peer_addrs s) x
  (ms_pending_pings s) (ms_pending_intents s) (ms_router s) (ms_announcements s) (ms_reachable_via s)
  (ms_reverse_routes s) (ms_origin_admission s) (ms_last_announce s).
Definition upd_pending_pings (s : MeshState) x := mkMesh (ms_discovery_socket s) (ms_known_peers s) (ms_peer_addrs s)
  (ms_forwarded s) x (ms_pending_intents s) (ms_router s) (ms_announcements s) (ms_reachable_via s)
  (ms_reverse_routes s) (ms_origin_admission s) (ms_last_announce s).
Definition upd_pending_intents (s : MeshState) x := mkMesh (ms_discovery_socket s) (ms_known_peers s)
  (ms_peer_addrs s) (ms_forwarded s) (ms_pending_pings s) x (ms_router s) (ms_announcements s) (ms_reachable_via s)
  (ms_reverse_routes s) (ms_origin_admission s) (ms_last_announce s).
Definition upd_router (s : MeshState) x := mkMesh (ms_discovery_socket s) (ms_known_peers s) (ms_peer_addrs s)
  (ms_forwarded s) (ms_pending_pings s) (ms_pending_intents s) x (ms_announcements s) (ms_reachable_via s)
  (ms_reverse_routes s) (ms_origin_admission s) (ms_last_announce s).
Definition upd_announcements (s : MeshState) x := mkMesh (ms_discovery_socket s) (ms_known_peers s) (ms_peer_addrs s)
  (ms_forwarded s) (ms_pending_pings s) (ms_pending_intents s) (ms_router s) x (ms_reachable_via s)
  (ms_reverse_routes s) (ms_origin_admission s) (ms_last_announce s).
Definition upd_reachable_via (s : MeshState) x := mkMesh (ms_discovery_socket s) (ms_known_peers s) (ms_peer_addrs s)
  (ms_forwarded s) (ms_pending_pings s) (ms_pending_intents s) (ms_router s) (ms_announcements s) x
  (ms_reverse_routes s) (ms_origin_admission s) (ms_last_announce s).
Definition upd_reverse_routes (s : MeshState) x := mkMesh (ms_discovery_socket s) (ms_known_peers s)
  (ms_peer_addrs s) (ms_forwarded s) (ms_pending_pings s) (ms_pending_intents s) (ms_router s)
  (ms_announcements s) (ms_reachable_via s) x (ms_origin_admission s) (ms_last_announce s).
Definition upd_origin_admission (s : MeshState) x := mkMesh (ms_discovery_socket s) (ms_known_peers s)
  (ms_peer_addrs s) (ms_forwarded s) (ms_pending_pings s) (ms_pending_intents s) (ms_router s)
  (ms_announcements s) (ms_reachable_via s) (ms_reverse_routes s) x (ms_last_announce s).
Definition upd_last_announce (s : MeshState) x := mkMesh (ms_discovery_socket s) (ms_known_peers s)
  (ms_peer_addrs s) (ms_forwarded s) (ms_pending_pings s) (ms_pending_intents s) (ms_router s)
  (ms_announcements s) (ms_reachable_via s) (ms_reverse_routes s) (ms_origin_admission s) x.
Definition upd_peers (s : MeshState) known addrs := mkMesh (ms_discovery_socket s) known addrs
  (ms_forwarded s) (ms_pending_pings s) (ms_pending_intents s) (ms_router s) (ms_announcements s)
  (ms_reachable_via s) (ms_reverse_routes s) (ms_origin_admission s) (ms_last_announce s).

Inductive Effect :=
  | Send (via : Socket) (to : SocketAddr) (data : list Z)
  | ResolvePing (t : TraceId)
  | ResolveIntent (t : TraceId) (r : list Z + text)
  | SpawnDispatch (reply_to : SocketAddr) (h : IntentHash) (t : TraceId) (payload : list Z) (sender : NodeId)
      (reply_routing : option RoutingExt).

(** Clock readings of one call, in the order they are taken: wall clock for the
    two freshness checks, instants for the maps. *)
Record HandlerClock := mkHandlerClock {
  hk_wall : Z; hk_admission : Z; hk_rate : Z; hk_wall_process : Z; hk_seen : Z; hk_via : Z; hk_route : Z
}.

Definition send (s : MeshState) (to : SocketAddr) (data : list Z) : Effect :=
  Send (send_via (ms_discovery_socket s) to) to data.
Definition is_peer_addr (s : MeshState) (a : SocketAddr) : bool :=
  existsb (λ kv, bool_decide (kv.2 = a)) (map_to_list (ms_peer_addrs s)).

(** Encoding into a buffer with room to spare; a failure is logged. *)
Definition encode_frame (f : Frame) : outcome False (option (list Z)) :=
  match encode f (replicate (Z.to_nat (wire_size f + 32)) 0) with
  | Ok (buffer, size) => Ok (Some (take (Z.to_nat size) buffer))
  | Err _ => Ok None
  | Panic => Panic
  end.

(** ** Forwarding *)

Definition is_reply (ft : FrameType) : bool := bool_decide (ft = FFulfill) || bool_decide (ft = FError).

(** A direct peer, else the breadcrumb for a reply, else the relay of the
    destination if that is a direct peer. *)
Definition next_hop (s : MeshState) (ft : FrameType) (t : TraceId) (dest : NodeId) : option SocketAddr :=
  match ms_peer_addrs s !! dest with
  | Some a => Some a
  | None =>
      match (if is_reply ft then fst <$> ms_reverse_routes s !! t else None) with
      | Some a => Some a
      | None => v ← ms_reachable_via s !! dest; ms_peer_addrs s !! v.1
      end
  end.

Definition record_breadcrumb (now : Z) (a : SocketAddr) (t : TraceId) (routes : gmap TraceId (SocketAddr * Z)) :
    gmap TraceId (SocketAddr * Z) :=
  match routes !! t with
  | Some _ => routes
  | None => if Z.of_nat (size routes) <? REVERSE_ROUTES_CAPACITY then <[t := (a, now)]> routes else routes
  end.

(** The last component tells whether the frame was consumed. *)
Definition try_forward_routed_frame (now : Z) (local : NodeId) (s : MeshState) (f : Frame) (a : SocketAddr) :
    outcome False (MeshState * list Effect * bool) :=
  match routing f with
  | None => Ok (s, [], false)
  | Some r =>
      if decide (destination r = local) then Ok (s, [], false)
      else if negb (is_peer_addr s a) then Ok (s, [], true)
      else
        match trace_id f with
        | None => Ok (s, [], true)
        | Some t =>
            let ft := frame_type (header f) in
            if cache_contains (ms_forwarded s) (t, ft) then Ok (s, [], true)
            else
              let s := upd_forwarded s (cache_insert (ms_forwarded s) (t, ft)) in
              if ttl r =? 0 then Ok (s, [], true)
              else
                match next_hop s ft t (destination r) with
                | None => Ok (s, [], true)
                | Some next =>
                    if decide (next = a) then Ok (s, [], true)
                    else
                      let s := if decide (ft = FIntent)
                               then upd_reverse_routes s (record_breadcrumb now a t (ms_reverse_routes s)) else s in
                      bytes ← encode_frame (set_ttl (ttl r - 1) f);
                      Ok (s, match bytes with Some b => [send s next b] | None => [] end, true)
                end
        end
  end.

(** ** Announcements *)

(** At most [MAX_DISTINCT_ORIGINS_PER_SENDER_PER_WINDOW] origins per sender and window. *)
Definition admit_origin (now : Z) (sender origin : NodeId) (m : gmap NodeId (Z * gset NodeId)) :
    gmap NodeId (Z * gset NodeId) * bool :=
  let entry := default (now, ∅) (m !! sender) in
  let entry := if ORIGIN_ADMISSION_WINDOW <=? duration_since now entry.1 then (now, ∅) else entry in
  if decide (origin ∈ entry.2) then (<[sender := entry]> m, true)
  else if MAX_DISTINCT_ORIGINS_PER_SENDER_PER_WINDOW <=? Z.of_nat (size entry.2) then (<[sender := entry]> m, false)
  else (<[sender := (entry.1, {[origin]} ∪ entry.2)]> m, true).

Definition announce_rate (now : Z) (sender origin : NodeId) (m : gmap (NodeId * NodeId) Z) :
    gmap (NodeId * NodeId) Z * bool :=
  match m !! (sender, origin) with
  | Some last =>
      if duration_since now last <? ANNOUNCE_RATE_LIMIT_INTERVAL then (m, false)
      else (<[(sender, origin) := now]> m, true)
  | None => (<[(sender, origin) := now]> m, true)
  end.

Section Handlers.
Context `{Blake3} `{Ed25519}.

(** Full replacement of the origin's registrations by the announced names this
    build knows. *)
Definition announced_names (caps : list AnnouncedCapability) : list text :=
  flat_map (λ c, filter (λ n, capability_hash n = ac_intent_hash c) KNOWN_CAPABILITY_NAMES) caps.
Definition register_announced (r : SemanticRouter) (origin : NodeId) (caps : list AnnouncedCapability) :
    SemanticRouter :=
  foldl (λ r n, semantic_register r origin (SemanticCapability_new n)) (unregister_node r origin) (announced_names caps).

Definition regossip (k : Keypair) (s : MeshState) (sender : NodeId) (fwd : Frame) : outcome False (list Effect) :=
  match FrameSigner_sign k fwd with
  | (_, Err _) => Ok []
  | (_, Panic) => Panic
  | (fwd, Ok _) =>
      bytes ← encode_frame fwd;
      Ok (match bytes with
          | Some b => map (λ kv, send s kv.2 b) (filter (λ kv, kv.1 ≠ sender) (map_to_list (ms_peer_addrs s)))
          | None => []
          end)
  end.

(** The checks before any state is touched: a known sender, and a signed and
    fresh claim of an origin. *)
Definition announce_claim (now : Z) (s : MeshState) (f : Frame) : option NodeId :=
  if decide (sender_id (header f) ∈ ms_known_peers s) then
    p ← AnnouncePayload_decode (payload f);
    o ← an_origin p; c ← an_origin_clock p; g ← an_origin_signature p;
    if negb (NodeId_verify o (origin_signing_bytes_for o c (an_capabilities p)) g) then None
    else if negb (origin_clock_is_fresh (physical c) now) then None
    else Some o
  else None.

Definition handle_announce (hk : HandlerClock) (k : Keypair) (s : MeshState) (f : Frame) :
    outcome False (MeshState * list Effect) :=
  let sender := sender_id (header f) in
  match announce_claim (hk_wall hk) s f with
  | None => Ok (s, [])
  | Some origin =>
      let '(adm, admitted) := admit_origin (hk_admission hk) sender origin (ms_origin_admission s) in
      let s := upd_origin_admission s adm in
      if negb admitted then Ok (s, [])
      else
        let '(last, in_time) := announce_rate (hk_rate hk) sender origin (ms_last_announce s) in
        let s := upd_last_announce s last in
        if negb in_time then Ok (s, [])
        else
          let '(mgr, r) := process_announcement (hk_wall_process hk) (hk_seen hk) (ms_announcements s) f in
          let s := upd_announcements s mgr in
          match r with
          | None => Ok (s, [])
          | Some (new_caps, forward_frame) =>
              let s := if decide (origin ∈ ms_known_peers s) then s
                       else upd_reachable_via s (<[origin := (sender, hk_via hk)]> (ms_reachable_via s)) in
              let s := upd_router s (register_announced (ms_router s) origin new_caps) in
              match forward_frame with
              | None => Ok (s, [])
              | Some fwd => effects ← regossip k s sender fwd; Ok (s, effects)
              end
          end
  end.

(** ** The other frame types *)

Definition handle_ping (k : Keypair) (s : MeshState) (f : Frame) (a : SocketAddr) :
    outcome False (MeshState * list Effect) :=
  if decide (sender_id (header f) ∈ ms_known_peers s) then
    match trace_id f with
    | None => Ok (s, [])
    | Some t =>
        pong ← build_pong_frame k t;
        Ok (s, match pong with [] => [] | _ => [send s a pong] end)
    end
  else Ok (s, []).

Definition handle_pong (s : MeshState) (f : Frame) : MeshState * list Effect :=
  match trace_id f with
  | None => (s, [])
  | Some t =>
      match ms_pending_pings s !! t with
      | None => (s, [])
      | Some expected =>
          (upd_pending_pings s (delete t (ms_pending_pings s)),
           if decide (expected = sender_id (header f)) then [ResolvePing t] else [])
      end
  end.

Definition handle_reply (s : MeshState) (f : Frame) (r : list Z + text) : MeshState * list Effect :=
  match trace_id f with
  | None => (s, [])
  | Some t =>
      match ms_pending_intents s !! t with
      | None => (s, [])
      | Some expected =>
          (upd_pending_intents s (delete t (ms_pending_intents s)),
           if decide (expected = sender_id (header f)) then [ResolveIntent t r] else [])
      end
  end.

Definition handle_intent (s : MeshState) (f : Frame) (a : SocketAddr) : MeshState * list Effect :=
  let relayed_for_us := bool_decide (is_Some (routing f)) in
  if relayed_for_us && negb (is_peer_addr s a) then (s, [])
  else
    match trace_id f with
    | None => (s, [])
    | Some t =>
        let reply_routing :=
          if relayed_for_us then Some (mkRouting (sender_id (header f)) DEFAULT_ROUTING_TTL) else None in
        (s, [SpawnDispatch a (intent_hash (header f)) t (payload f) (sender_id (header f)) reply_routing])
    end.

(** [match frame.header.frame_type]: a frame for this node. *)
Definition handle_here (hk : HandlerClock) (k : Keypair) (s : MeshState) (f : Frame) (a : SocketAddr) :
    outcome False (MeshState * list Effect) :=
  match frame_type (header f) with
  | FPing => handle_ping k s f a
  | FPong => Ok (handle_pong s f)
  | FAnnounce => handle_announce hk k s f
  | FIntent => Ok (handle_intent s f a)
  | FFulfill => Ok (handle_reply s f (inl (payload f)))
  | FError => Ok (handle_reply s f (inr (from_utf8_lossy (payload f))))
  | _ => Ok (s, [])
  end.

Definition handle_axiom_frame (hk : HandlerClock) (k : Keypair) (s : MeshState) (f : Frame) (a : SocketAddr) :
    outcome False (MeshState * list Effect) :=
  forwarding ← try_forward_routed_frame (hk_route hk) (Keypair_node_id k) s f a;
  let '(s, effects, consumed) := (forwarding : MeshState * list Effect * bool) in
  if consumed then Ok (s, effects) else handle_here hk k s f a.
End Handlers.

(** The task an Intent spawns: dispatch, then send the reply unless it is empty. *)
Definition run_dispatch `{Blake3} `{Lowercase} `{HexCodec} `{StdFormat} `{Uai} `{JsonPrint} `{Ed25519}
    (rd : Dispatch.Readings) (c : DispatchContext) (discovery : bool) (ds : DispatchState) (e : Effect) :
    outcome False (DispatchState * list Effect * background) :=
  match e with
  | SpawnDispatch a h t p sender r =>
      result ← dispatch_intent rd c ds h t p sender r;
      let '(ds, reply, b) := (result : DispatchState * list Z * background) in
      Ok (ds, match reply with [] => [] | _ => [Send (send_via discovery a) a reply] end, b)
  | _ => Ok (ds, [], None)
  end.

(** ** Maintenance *)

Definition run_announcement_maintenance (t_seen now : Z) (s : MeshState) : MeshState :=
  let s := upd_announcements s (Announce.cleanup_stale t_seen ANNOUNCEMENT_MAX_AGE (ms_announcements s)) in
  let s := upd_last_announce s (filter (λ kv, duration_since now kv.2 < ANNOUNCEMENT_MAX_AGE) (ms_last_announce s)) in
  let s := upd_origin_admission s
             (filter (λ kv, duration_since now kv.2.1 < ANNOUNCEMENT_MAX_AGE) (ms_origin_admission s)) in
  let stale := (filter (λ kv, ANNOUNCEMENT_MAX_AGE ≤ duration_since now kv.2.2) (map_to_list (ms_reachable_via s))).*1 in
  let s := upd_reachable_via s (foldl (λ m o, delete o m) (ms_reachable_via s) stale) in
  let gone := filter (λ o, (o ∉ ms_known_peers s) ∧ ms_reachable_via s !! o = None) stale in
  let s := upd_router s (foldl unregister_node (ms_router s) gone) in
  upd_reverse_routes s (filter (λ kv, duration_since now kv.2.2 < REVERSE_ROUTE_TTL) (ms_reverse_routes s)).

(** ** Received frames *)

Section Received.
Context `{Ed25519}.

(** What [decode_verified_frame] lets through. *)
Record received (f : Frame) : Prop := {
  rc_encodable : encodable f;
  rc_verified : FrameVerifier_verify f = Ok true
}.

Lemma decode_received data f : bytes_ok data → decode_verified_frame data = Ok (Some f) → received f.
Proof.
  intros Hd. unfold decode_verified_frame. destruct (decode data) as [d| |] eqn:Ed; [|done|done].
  destruct (FrameVerifier_verify (to_frame d)) as [[]| |] eqn:Ev; [|done..]. intros [= <-].
  split; [|done]. by apply (decode_inv data).
Qed.

Lemma verify_set_ttl t f : FrameVerifier_verify (set_ttl t f) = FrameVerifier_verify f.
Proof. unfold FrameVerifier_verify. by rewrite set_ttl_header, set_ttl_keeps_auth, signature_data_ttl. Qed.

Lemma received_set_ttl t f : 0 ≤ t < 256 → received f → received (set_ttl t f).
Proof. intros Ht [He Hv]. split; [by apply set_ttl_encodable|by rewrite verify_set_ttl]. Qed.

Lemma decode_wire_received f : received f → decode_verified_frame (wire f) = Ok (Some f).
Proof. intros [He Hv]. by apply decode_verified_wire. Qed.

Lemma encode_frame_wire f : encodable f → encode_frame f = Ok (Some (wire f)).
Proof.
  intros He. unfold encode_frame. pose proof (encodable_writable _ He) as Hw.
  pose proof (len_wire f Hw) as HL. pose proof (len_nonneg (wire f)).
  rewrite encode_writes_wire by (done || rewrite len_replicate; lia). cbn iota.
  do 2 f_equal. apply take_app_exact. lia.
Qed.
End Received.

(** ** The duplicate cache *)

Record cache_ok (c : ForwardedFrameCache) : Prop := {
  co_seen : fc_seen c = list_to_set (fc_order c);
  co_nodup : NoDup (fc_order c);
  co_bound : (length (fc_order c) ≤ FORWARD_DEDUP_CAPACITY)%nat
}.

Lemma cache_ok_new : cache_ok ForwardedFrameCache_new.
Proof. split; [done|constructor|]. simpl. lia. Qed.

Definition last_n {A} (n : nat) (l : list A) : list A := drop (length l - n) l.

Lemma cache_insert_order c k :
  cache_ok c → k ∉ fc_seen c →
  cache_ok (cache_insert c k) ∧ fc_order (cache_insert c k) = last_n FORWARD_DEDUP_CAPACITY (fc_order c ++ [k]).
Proof.
  intros [Hs Hd Hb] Hk. unfold cache_insert, last_n. rewrite decide_False by done.
  rewrite length_app. change (length [k]) with 1%nat. set (cap := FORWARD_DEDUP_CAPACITY) in *.
  assert (Hn : NoDup (fc_order c ++ [k])) by (rewrite Hs, elem_of_list_to_set in Hk;
    apply NoDup_app; split_and!; [done|set_solver|apply NoDup_singleton]).
  destruct (Nat.ltb_spec cap (length (fc_order c) + 1)).
  - destruct (fc_order c ++ [k]) as [|o rest] eqn:E; [by destruct (fc_order c)|].
    assert (Hl : length (o :: rest) = S (length (fc_order c))) by (rewrite <- E, length_app; simpl; lia). simpl in Hl.
    replace (length (fc_order c) + 1 - cap)%nat with 1%nat by lia.
    split; [|done]. apply NoDup_cons in Hn as [Ho Hr]. split; cbn [fc_seen fc_order]; [|done|subst cap; lia].
    rewrite Hs. apply set_eq. intros x. rewrite elem_of_difference, elem_of_union, !elem_of_list_to_set.
    assert (x ∈ fc_order c ++ [k] ↔ x ∈ o :: rest) by (by rewrite E). set_solver.
  - replace (length (fc_order c) + 1 - cap)%nat with 0%nat by lia. split; [|done].
    split; cbn [fc_seen fc_order]; [|done|rewrite length_app; change (length [k]) with 1%nat; subst cap; lia].
    rewrite Hs. set_solver.
Qed.
Lemma cache_insert_ok c k : cache_ok c → cache_ok (cache_insert c k).
Proof.
  intros Hc. destruct (decide (k ∈ fc_seen c)) as [Hin|Hin].
  - unfold cache_insert. by rewrite decide_True.
  - by apply cache_insert_order.
Qed.
Lemma cache_insert_seen c k x : x ∈ fc_seen (cache_insert c k) → x = k ∨ x ∈ fc_seen c.
Proof.
  unfold cache_insert. case_decide; [auto|]. destruct (_ <? _)%nat; simpl; [|set_solver].
  destruct (fc_order c ++ [k]); simpl; set_solver.
Qed.

(** ** Forwarding decisions *)

Section Forwarding.
Context `{Blake3} `{Ed25519}.

(** When a frame that arrives from [a] is forwarded, and where to. *)
Record forwards (local : NodeId) (s : MeshState) (f : Frame) (a : SocketAddr)
    (t : TraceId) (r : RoutingExt) (next : SocketAddr) : Prop := {
  fw_routing : routing f = Some r;
  fw_destination : destination r ≠ local;
  fw_source : is_peer_addr s a = true;
  fw_trace : trace_id f = Some t;
  fw_fresh : (t, frame_type (header f)) ∉ fc_seen (ms_forwarded s);
  fw_ttl : ttl r ≠ 0;
  fw_next : next_hop s (frame_type (header f)) t (destination r) = Some next;
  fw_no_bounce : next ≠ a
}.

Definition after_forward (now : Z) (s : MeshState) (f : Frame) (a : SocketAddr) (t : TraceId) : MeshState :=
  let s := upd_forwarded s (cache_insert (ms_forwarded s) (t, frame_type (header f))) in
  if decide (frame_type (header f) = FIntent)
  then upd_reverse_routes s (record_breadcrumb now a t (ms_reverse_routes s)) else s.

(** The frame was for someone else. *)
Definition for_another (local : NodeId) (f : Frame) : bool :=
  match routing f with Some r => bool_decide (destination r ≠ local) | None => false end.

Lemma received_ttl f r : received f → routing f = Some r → 0 ≤ ttl r < 256.
Proof. intros [He _] Hr. pose proof (ok_routing _ (enc_ok _ He)) as H1. rewrite Hr in H1. apply H1. Qed.

Lemma try_forward_forwards now local s f a t r next :
  received f → forwards local s f a t r next →
  try_forward_routed_frame now local s f a
  = Ok (after_forward now s f a t, [send s next (wire (set_ttl (ttl r - 1) f))], true).
Proof.
  intros Hf [Hr Hd Ha Ht Hk Hl Hn Hb]. unfold try_forward_routed_frame. rewrite Hr, decide_False, Ha, Ht by done.
  cbn [negb]. unfold cache_contains. rewrite bool_decide_eq_false_2 by done.
  rewrite (proj2 (Z.eqb_neq _ _)) by done. change (next_hop (upd_forwarded s _)) with (next_hop s).
  rewrite Hn, decide_False by done. pose proof (received_ttl _ _ Hf Hr).
  rewrite encode_frame_wire by (apply set_ttl_encodable; [lia|apply Hf]).
  cbn [mbind outcome_bind]. unfold after_forward. by case_decide.
Qed.

(** Everything else leaves at most a new key in the duplicate cache. *)
Lemma try_forward_otherwise now local s f a :
  (∀ t r next, ¬ forwards local s f a t r next) →
  ∃ c, (c = ms_forwarded s ∨ ∃ t, trace_id f = Some t ∧ c = cache_insert (ms_forwarded s) (t, frame_type (header f))) ∧
  try_forward_routed_frame now local s f a = Ok (upd_forwarded s c, [], for_another local f).
Proof.
  intros Hno. unfold try_forward_routed_frame, for_another.
  assert (Hs : upd_forwarded s (ms_forwarded s) = s) by (by destruct s).
  destruct (routing f) as [r|] eqn:Er; [|exists (ms_forwarded s); rewrite Hs; eauto].
  case_decide as Hd; [exists (ms_forwarded s); rewrite Hs; split; [auto|by rewrite bool_decide_eq_false_2 by tauto]|].
  rewrite bool_decide_eq_true_2 by done.
  destruct (is_peer_addr s a) eqn:Ea; [|exists (ms_forwarded s); rewrite Hs; eauto].
  destruct (trace_id f) as [t|] eqn:Et; [|exists (ms_forwarded s); rewrite Hs; eauto]. cbn [negb].
  destruct (cache_contains _ _) eqn:Ec; [exists (ms_forwarded s); rewrite Hs; eauto|].
  exists (cache_insert (ms_forwarded s) (t, frame_type (header f))). split; [eauto|].
  destruct (Z.eqb_spec (ttl r) 0); [done|]. change (next_hop (upd_forwarded s _)) with (next_hop s).
  destruct (next_hop s (frame_type (header f)) t (destination r)) as [next|] eqn:En; [|done].
  case_decide as Hb; [done|]. exfalso. apply (Hno t r next). apply bool_decide_eq_false in Ec. by split.
Qed.

Lemma forwards_unique local s f a t r next t' r' next' :
  forwards local s f a t r next → forwards local s f a t' r' next' → t = t' ∧ r = r' ∧ next = next'.
Proof. intros [] []. by simplify_eq. Qed.

Lemma forwards_dec local s f a :
  (∃ t r next, forwards local s f a t r next) ∨ (∀ t r next, ¬ forwards local s f a t r next).
Proof.
  destruct (routing f) as [r|] eqn:Er; [|right; intros ??? []; congruence].
  destruct (trace_id f) as [t|] eqn:Et; [|right; intros ??? []; congruence].
  destruct (next_hop s (frame_type (header f)) t (destination r)) as [next|] eqn:En;
    [|right; intros ??? []; simplify_eq].
  destruct (decide (destination r ≠ local ∧ is_peer_addr s a = true ∧
    ((t, frame_type (header f)) ∉ fc_seen (ms_forwarded s)) ∧ ttl r ≠ 0 ∧ next ≠ a)) as [Hd|Hd].
  - left. exists t, r, next. split; tauto.
  - right. intros ??? []. simplify_eq. tauto.
Qed.

Lemma handle_forwards hk k s f a t r next :
  received f → forwards (Keypair_node_id k) s f a t r next →
  handle_axiom_frame hk k s f a
  = Ok (after_forward (hk_route hk) s f a t, [send s next (wire (set_ttl (ttl r - 1) f))]).
Proof.
  intros Hf Hw. unfold handle_axiom_frame. by rewrite (try_forward_forwards _ _ _ _ _ _ _ _ Hf Hw).
Qed.

(** What a node does with a frame routed to someone else.  It is forwarded exactly
    when the datagram came from a peer's address, the frame carries a trace not yet
    forwarded with this frame type, has hops left, and the next hop (a direct peer,
    else the breadcrumb of the trace for a reply, else the relay of the destination) is
    not the address it came from; and then the bytes sent decode and verify at the next
    hop as the same frame with one hop less.  Otherwise nothing is sent.  Either way
    the frame is not handled locally, and the node keeps its peers, waiters, registry
    and announcements. *)
Theorem forward_decision hk k s data f a :
  let local := Keypair_node_id k in
  bytes_ok data → decode_verified_frame data = Ok (Some f) → for_another local f = true →
  ∃ s' effects, handle_axiom_frame hk k s f a = Ok (s', effects) ∧
  (∀ t r next, forwards local s f a t r next →
     ∃ bytes, effects = [send s next bytes] ∧ decode_verified_frame bytes = Ok (Some (set_ttl (ttl r - 1) f)) ∧
       (frame_type (header f) = FIntent → ms_reverse_routes s !! t = None →
        Z.of_nat (size (ms_reverse_routes s)) < REVERSE_ROUTES_CAPACITY →
        ms_reverse_routes s' !! t = Some (a, hk_route hk))) ∧
  ((∀ t r next, ¬ forwards local s f a t r next) → effects = []) ∧
  ms_peer_addrs s' = ms_peer_addrs s ∧ ms_known_peers s' = ms_known_peers s ∧
  ms_pending_pings s' = ms_pending_pings s ∧ ms_pending_intents s' = ms_pending_intents s ∧
  ms_router s' = ms_router s ∧ ms_announcements s' = ms_announcements s ∧
  (∀ t x, ms_reverse_routes s !! t = Some x → ms_reverse_routes s' !! t = Some x).
Proof.
  intros local Hd Hdec Ha. pose proof (decode_received _ _ Hd Hdec) as Hf.
  destruct (forwards_dec local s f a) as [(t & r & next & Hw)|Hno].
  - rewrite (handle_forwards hk k s f a t r next Hf Hw). eexists _, _. split; [done|].
    pose proof (received_ttl _ _ Hf (fw_routing _ _ _ _ _ _ _ Hw)).
    pose proof (fw_ttl _ _ _ _ _ _ _ Hw). split.
    + intros t' r' next' Hw'. destruct (forwards_unique _ _ _ _ _ _ _ _ _ _ Hw Hw') as (<- & <- & <-).
      eexists. split; [done|]. split; [apply decode_wire_received, received_set_ttl; [lia|done]|].
      intros Ei Hn Hc. unfold after_forward. rewrite decide_True by done. unfold record_breadcrumb. simpl.
      rewrite Hn, (proj2 (Z.ltb_lt _ _)) by done. apply lookup_insert_eq.
    + split; [by intros Hn; destruct (Hn t r next)|]. unfold after_forward, record_breadcrumb.
      split_and!; try (by case_decide). intros t' x Hx. case_decide; simpl; [|done].
      destruct (ms_reverse_routes s !! t) eqn:E; [done|]. case_match; [|done].
      rewrite lookup_insert_ne; [done|congruence].
  - destruct (try_forward_otherwise (hk_route hk) local s f a Hno) as (c & _ & Hc).
    unfold handle_axiom_frame. fold local. rewrite Hc, Ha. cbn [mbind outcome_bind].
    eexists _, _. split; [done|]. split; [intros t r next Hw; by destruct (Hno t r next)|]. by split_and!.
Qed.

(** ** Chains of relays *)

(** One relay of a chain: its state, the address it sees the previous node at and
    the address the frame has to leave for. *)
Record Relay := mkRelay { rl_key : Keypair; rl_state : MeshState; rl_from : SocketAddr; rl_to : SocketAddr }.

(** The bytes carried through the relays: each decodes and handles what the
    previous one sent, and sends exactly one datagram to the next. *)
Fixpoint carry (hk : HandlerClock) (path : list Relay) (data : list Z) : option (list Relay * list Z) :=
  match path with
  | [] => Some ([], data)
  | r :: path' =>
      match decode_verified_frame data with
      | Ok (Some f) =>
          match handle_axiom_frame hk (rl_key r) (rl_state r) f (rl_from r) with
          | Ok (s', [Send _ to data']) =>
              if decide (to = rl_to r) then
                res ← carry hk path' data';
                Some (mkRelay (rl_key r) s' (rl_from r) (rl_to r) :: res.1, res.2)
              else None
          | _ => None
          end
      | _ => None
      end
  end.

(** The same relays as the way back. *)
Definition turned (r : Relay) : Relay := mkRelay (rl_key r) (rl_state r) (rl_to r) (rl_from r).
Definition way_back (path : list Relay) : list Relay := rev (map turned path).

(** A frame with enough hops gets through relays that each forward it. *)
Lemma carry_through hk t dest path n f :
  received f → routing f = Some (mkRouting dest n) → Z.of_nat (length path) ≤ n →
  Forall (λ r, ∀ m, 0 < m → forwards (Keypair_node_id (rl_key r)) (rl_state r) (set_ttl m f) (rl_from r) t
                              (mkRouting dest m) (rl_to r)) path →
  carry hk path (wire f)
  = Some (map (λ r, mkRelay (rl_key r) (after_forward (hk_route hk) (rl_state r) f (rl_from r) t)
                      (rl_from r) (rl_to r)) path,
          wire (set_ttl (n - Z.of_nat (length path)) f)).
Proof.
  intros Hf Hr Hn. revert n f Hf Hr Hn. induction path as [|r path IH]; intros n f Hf Hr Hn Hp; simpl.
  - rewrite Z.sub_0_r. unfold set_ttl. destruct f; simpl in *. by rewrite Hr.
  - apply Forall_cons in Hp as [Hw Hp]. rewrite (decode_wire_received f Hf).
    simpl in Hn. specialize (Hw n ltac:(lia)).
    assert (E : set_ttl n f = f) by (unfold set_ttl; destruct f; simpl in *; by rewrite Hr). rewrite E in Hw.
    rewrite (handle_forwards _ _ _ _ _ _ _ _ Hf Hw). unfold send. rewrite decide_True by done. simpl ttl.
    pose proof (received_ttl _ _ Hf Hr) as Hb. simpl in Hb.
    rewrite (IH (n - 1) (set_ttl (n - 1) f)); [|apply received_set_ttl; [lia|done]|unfold set_ttl; by rewrite Hr|lia|].
    + simpl. rewrite set_ttl_set_ttl. do 2 f_equal; [|do 2 f_equal; lia].
      f_equal. apply map_ext. intros x. unfold after_forward. by rewrite set_ttl_header.
    + eapply Forall_impl; [exact Hp|]. simpl. intros x Hx m Hm. rewrite set_ttl_set_ttl. by apply Hx.
Qed.

(** A relay ready for a request and its reply: the arrival address is a peer's, the
    route to the destination leaves by the other address, which is a peer's too; the
    trace is new to it, there is room for a breadcrumb, and the requester is unknown
    to it or lives at the arrival address. *)
Record ready_relay (t : TraceId) (requester dest : NodeId) (r : Relay) : Prop := {
  rr_other : Keypair_node_id (rl_key r) ≠ dest ∧ Keypair_node_id (rl_key r) ≠ requester;
  rr_peers : is_peer_addr (rl_state r) (rl_from r) = true ∧ is_peer_addr (rl_state r) (rl_to r) = true;
  rr_new : ((t, FIntent) ∉ fc_seen (ms_forwarded (rl_state r))) ∧
           ((t, FFulfill) ∉ fc_seen (ms_forwarded (rl_state r))) ∧ ms_reverse_routes (rl_state r) !! t = None;
  rr_room : Z.of_nat (size (ms_reverse_routes (rl_state r))) < REVERSE_ROUTES_CAPACITY;
  rr_route : next_hop (rl_state r) FIntent t dest = Some (rl_to r);
  rr_back : ms_peer_addrs (rl_state r) !! requester = None ∨ ms_peer_addrs (rl_state r) !! requester = Some (rl_from r);
  rr_turn : rl_to r ≠ rl_from r
}.

Definition with_intent_handled (now : Z) (t : TraceId) (s : MeshState) (a : SocketAddr) : MeshState :=
  upd_reverse_routes (upd_forwarded s (cache_insert (ms_forwarded s) (t, FIntent)))
    (record_breadcrumb now a t (ms_reverse_routes s)).

Lemma ready_forwards_intent t requester dest r f m :
  ready_relay t requester dest r → frame_type (header f) = FIntent → trace_id f = Some t →
  routing f = Some (mkRouting dest m) → 0 < m →
  forwards (Keypair_node_id (rl_key r)) (rl_state r) f (rl_from r) t (mkRouting dest m) (rl_to r).
Proof.
  intros [[? ?] [? ?] [? ?] ? ? ? ?] Ht Htr Hr Hm.
  split; rewrite ?Ht; simpl; (done || lia).
Qed.

Lemma ready_forwards_reply now t requester dest r f m :
  ready_relay t requester dest r → frame_type (header f) = FFulfill → trace_id f = Some t →
  routing f = Some (mkRouting requester m) → 0 < m →
  forwards (Keypair_node_id (rl_key r)) (with_intent_handled now t (rl_state r) (rl_from r)) f (rl_to r) t
    (mkRouting requester m) (rl_from r).
Proof.
  intros [[? ?] [? ?] (? & ? & Hn) Hroom ? Hback ?] Ht Htr Hr Hm.
  split; rewrite ?Ht; simpl; try (done || lia).
  - intros [?|?]%cache_insert_seen; [congruence|done].
  - unfold next_hop, with_intent_handled, record_breadcrumb; simpl. rewrite Hn, (proj2 (Z.ltb_lt _ _)) by done.
    rewrite lookup_insert_eq. by destruct Hback as [-> | ->].
Qed.

Lemma signed_received k ft t h p r : message_ok k ft t h p r → received (signed k (simple_frame k ft t h p r)).
Proof.
  intros Hm. split; [by apply build_simple_frame_wire|by apply signed_verifies].
Qed.

(** What a relayed message of the daemon looks like wherever it is received. *)
Lemma carry_built hk k ft t h p dest n path :
  message_ok k ft t h p (Some (mkRouting dest n)) → Z.of_nat (length path) ≤ n →
  Forall (λ r, ∀ f m, frame_type (header f) = ft → trace_id f = Some t → routing f = Some (mkRouting dest m) → 0 < m →
    forwards (Keypair_node_id (rl_key r)) (rl_state r) f (rl_from r) t (mkRouting dest m) (rl_to r)) path →
  ∃ data out f, build_simple_frame k ft t h p (Some (mkRouting dest n)) = Ok data ∧
  carry hk path data = Some (map (λ r, mkRelay (rl_key r)
      (after_forward (hk_route hk) (rl_state r) (simple_frame k ft t h p (Some (mkRouting dest n))) (rl_from r) t)
      (rl_from r) (rl_to r)) path, out) ∧
  decode_verified_frame out = Ok (Some f) ∧ routing f = Some (mkRouting dest (n - Z.of_nat (length path))) ∧
  frame_type (header f) = ft ∧ sender_id (header f) = Keypair_node_id k ∧ intent_hash (header f) = h ∧
  trace_id f = Some t ∧ payload f = p.
Proof.
  intros Hm Hn Hp. destruct (build_simple_frame_wire _ _ _ _ _ _ Hm) as [_ Hb].
  pose proof (signed_received _ _ _ _ _ _ Hm) as Hf. set (f := signed k _) in *.
  eexists _, _, (set_ttl (n - Z.of_nat (length path)) f). split; [exact Hb|]. split.
  - rewrite (carry_through hk t dest path n f Hf eq_refl Hn); [done|].
    eapply Forall_impl; [exact Hp|]. intros x Hx m Hm0. by apply Hx.
  - pose proof (received_ttl f _ Hf eq_refl) as Hb'. cbn in Hb'.
    split; [apply decode_wire_received, received_set_ttl; [lia|done]|]. by split_and!.
Qed.

Lemma handle_local hk k s f a :
  for_another (Keypair_node_id k) f = false → handle_axiom_frame hk k s f a = handle_here hk k s f a.
Proof.
  intros Ha. unfold handle_axiom_frame, try_forward_routed_frame, for_another in *.
  destruct (routing f) as [r|]; [|done]. apply bool_decide_eq_false in Ha.
  rewrite decide_True; [done|]. destruct (decide (destination r = Keypair_node_id k)); tauto.
Qed.
Lemma for_another_here local f r : routing f = Some r → destination r = local → for_another local f = false.
Proof. intros Hr Hd. unfold for_another. rewrite Hr. apply bool_decide_eq_false. tauto. Qed.

(** C11: A request gets through the mesh and its reply finds the way back.  Along any
    chain of at most eight relays, each with a route to the destination by the next
    address of the chain and with the trace new to it, the signed request arrives at
    the destination, whose handler spawns the dispatch of exactly the payload sent, in
    the requester's name; the reply it builds then follows the breadcrumbs the request
    left back through the same relays, none of which needs a route to the requester,
    and resolves the requester's waiter with exactly the reply's payload. *)
Theorem routed_request_reply hk kr kd sr sd path t h p p' ar ad :
  let requester := Keypair_node_id kr in
  let dest := Keypair_node_id kd in
  let there := Some (mkRouting dest DEFAULT_ROUTING_TTL) in
  let back := Some (mkRouting requester DEFAULT_ROUTING_TTL) in
  message_ok kr FIntent t h p there → message_ok kd FFulfill t h p' back →
  Z.of_nat (length path) ≤ DEFAULT_ROUTING_TTL → Forall (ready_relay t requester dest) path →
  is_peer_addr sd ad = true → ms_pending_intents sr !! t = Some dest →
  ∃ request path' delivered f reply path'' returned g,
    build_intent_frame kr h t p there = Ok request ∧ carry hk path request = Some (path', delivered) ∧
    decode_verified_frame delivered = Ok (Some f) ∧
    handle_axiom_frame hk kd sd f ad = Ok (sd, [SpawnDispatch ad h t p requester back]) ∧
    build_fulfill_frame kd h t p' back = Ok reply ∧ carry hk (way_back path') reply = Some (path'', returned) ∧
    decode_verified_frame returned = Ok (Some g) ∧
    handle_axiom_frame hk kr sr g ar
    = Ok (upd_pending_intents sr (delete t (ms_pending_intents sr)), [ResolveIntent t (inl p')]).
Proof.
  intros requester dest there back Hi Hr Hn Hp Had Hpend.
  destruct (carry_built hk _ _ _ _ _ _ _ path Hi Hn) as (request & delivered & f & Hb & Hc & Hdec & Hrt & Hft & Hs & Hh & Ht & Hpl).
  { eapply Forall_impl; [exact Hp|]. intros x Hx g m. by apply ready_forwards_intent with requester. }
  set (path' := map _ path) in Hc.
  assert (Hlen : length (way_back path') = length path) by (unfold way_back, path'; by rewrite length_rev, !length_map).
  destruct (carry_built hk _ _ _ _ _ _ _ (way_back path') Hr) as (reply & returned & g & Hb2 & Hc2 & Hdec2 & Hrt2 & Hft2 & Hs2 & Hh2 & Ht2 & Hpl2).
  { by rewrite Hlen. }
  { unfold way_back, path'. rewrite map_map. apply Forall_rev, Forall_map. eapply Forall_impl; [exact Hp|].
    intros x Hx g m. unfold after_forward. rewrite decide_True by done.
    by apply (ready_forwards_reply (hk_route hk) t requester dest x). }
  exists request, path', delivered, f, reply. eexists _, returned, g. split_and!; [exact Hb|exact Hc|exact Hdec| |exact Hb2|exact Hc2|exact Hdec2|].
  - rewrite handle_local by (by eapply for_another_here). unfold handle_here. rewrite Hft. unfold handle_intent.
    rewrite bool_decide_eq_true_2 by (by rewrite Hrt). rewrite Had. cbn [negb andb]. by rewrite Ht, Hh, Hpl, Hs.
  - rewrite handle_local by (by eapply for_another_here). unfold handle_here. rewrite Hft2. unfold handle_reply.
    rewrite Ht2, Hpend, Hpl2, Hs2, decide_True by done. done.
Qed.
End Forwarding.

(** ** Announcements: registry and gossip *)

Section Gossip.
Context `{Blake3} `{Ed25519}.

Definition register_names (origin : NodeId) (r : SemanticRouter) (names : list text) : SemanticRouter :=
  foldl (λ r n, semantic_register r origin (SemanticCapability_new n)) r names.

Lemma elem_of_register_names origin names r h n c :
  (n, c) ∈ entries_of (register_names origin r names) h →
  (n, c) ∈ entries_of r h ∨ (n = origin ∧ ∃ x, x ∈ names ∧ capability_hash x = h ∧ c = SemanticCapability_new x).
Proof.
  unfold register_names. revert r. induction names as [|x names IH]; intros r Hin; simpl in *; [auto|].
  apply IH in Hin as [Hin|(? & y & ? & ?)]; [|right; split; [done|]; exists y; set_solver].
  rewrite entries_register in Hin. case_decide as Hh; [|auto].
  apply elem_of_app in Hin as [[_ Hin]%list_elem_of_filter|Hin%list_elem_of_singleton]; [auto|].
  simplify_eq. right. split; [done|]. exists x. set_solver.
Qed.
Lemma register_names_other origin names r h n c :
  n ≠ origin → (n, c) ∈ entries_of (register_names origin r names) h ↔ (n, c) ∈ entries_of r h.
Proof.
  intros Hn. unfold register_names. revert r. induction names as [|x names IH]; intros r; simpl; [done|].
  rewrite IH, entries_register. case_decide; [|done].
  rewrite elem_of_app, list_elem_of_filter, list_elem_of_singleton. unfold other_node. simpl. naive_solver.
Qed.
Lemma register_names_kept origin names r h c :
  (origin, c) ∈ entries_of r h → ∃ c', (origin, c') ∈ entries_of (register_names origin r names) h.
Proof.
  unfold register_names. revert r c. induction names as [|x names IH]; intros r c Hin; simpl; [eauto|].
  destruct (decide (h = capability_hash x)) as [Hh|Hh].
  - eapply IH. rewrite entries_register. rewrite decide_True by exact Hh. apply elem_of_app. right.
    by apply list_elem_of_singleton.
  - eapply IH. rewrite entries_register. rewrite decide_False by exact Hh. exact Hin.
Qed.
Lemma register_names_all origin names r x :
  x ∈ names → ∃ c, (origin, c) ∈ entries_of (register_names origin r names) (capability_hash x).
Proof.
  unfold register_names. revert r. induction names as [|y names IH]; intros r Hx; simpl; [set_solver|].
  apply elem_of_cons in Hx as [->|Hx]; [|by apply IH].
  eapply register_names_kept. rewrite entries_register. rewrite decide_True by done. apply elem_of_app. right.
  by apply list_elem_of_singleton.
Qed.
Lemma register_names_reputation origin names r : reputation (register_names origin r names) = reputation r.
Proof. unfold register_names. revert r. induction names as [|x names IH]; intros r; simpl; [done|]. by rewrite IH. Qed.

Lemma elem_of_announced_names caps x :
  x ∈ announced_names caps ↔ x ∈ KNOWN_CAPABILITY_NAMES ∧ capability_hash x ∈ map ac_intent_hash caps.
Proof.
  unfold announced_names. rewrite list_elem_of_In, in_flat_map. split.
  - intros (c & Hc & Hx). apply list_elem_of_In, list_elem_of_filter in Hx as [Hh Hx]. split; [done|].
    rewrite Hh. apply list_elem_of_In, in_map, Hc.
  - intros [Hx Hh]. apply list_elem_of_fmap in Hh as (c & Hh & Hc). exists c. rewrite <- !list_elem_of_In.
    split; [done|]. by apply list_elem_of_filter.
Qed.

(** What the registry holds of an origin after its announcement. *)
Definition replaced_by (origin : NodeId) (caps : list AnnouncedCapability) (r : SemanticRouter) : Prop :=
  (∀ h c, (origin, c) ∈ entries_of r h →
     ∃ x, x ∈ KNOWN_CAPABILITY_NAMES ∧ capability_hash x = h ∧ h ∈ map ac_intent_hash caps ∧ c = SemanticCapability_new x) ∧
  (∀ x, x ∈ KNOWN_CAPABILITY_NAMES → capability_hash x ∈ map ac_intent_hash caps →
     ∃ c, (origin, c) ∈ entries_of r (capability_hash x)).

Lemma register_announced_replaced r origin caps : replaced_by origin caps (register_announced r origin caps).
Proof.
  split.
  - intros h c Hin. apply elem_of_register_names in Hin as [Hin|(_ & x & Hx & <- & ->)].
    + rewrite entries_unregister, list_elem_of_filter in Hin. destruct Hin as [Hin _]. by destruct Hin.
    + apply elem_of_announced_names in Hx as [? ?]. eauto.
  - intros x Hx Hh. apply register_names_all. by apply elem_of_announced_names.
Qed.
Lemma register_announced_other r origin caps n h c :
  n ≠ origin → (n, c) ∈ entries_of (register_announced r origin caps) h ↔ (n, c) ∈ entries_of r h.
Proof.
  intros Hn. unfold register_announced. fold (register_names origin (unregister_node r origin) (announced_names caps)).
  rewrite register_names_other, entries_unregister, list_elem_of_filter by done. unfold other_node. simpl. tauto.
Qed.
Lemma register_announced_reputation r origin caps n :
  n ≠ origin → reputation (register_announced r origin caps) !! n = reputation r !! n.
Proof.
  intros Hn. unfold register_announced. fold (register_names origin (unregister_node r origin) (announced_names caps)).
  rewrite register_names_reputation. simpl. by apply lookup_delete_ne.
Qed.

(** *** The frame passed on *)

Lemma tick_wire_ok c : wire_clock_ok c → wire_clock_ok (HybridClock_tick c).
Proof. intros [? ?]. unfold wire_clock_ok, HybridClock_tick, u16_saturating_add. cbn. lia. Qed.
Lemma update_wire_ok c d : wire_clock_ok c → wire_clock_ok d → wire_clock_ok (HybridClock_update c d).
Proof.
  intros [? ?] [? ?]. unfold wire_clock_ok, HybridClock_update, u16_saturating_add.
  destruct (_ ?= _); cbn; lia.
Qed.

Definition gossip_frame (m : AnnouncementManager) (l : TrustLevel) (c : HybridClock) (p : AnnouncePayload) : Frame :=
  Frame_new (with_clock (with_trust_level (FrameHeader_new FAnnounce (am_node_id m)) l) c) PRaw (AnnouncePayload_encode p).

Lemma process_forward now t m f :
  wire_clock_ok (cm_clock (am_clock m)) → wire_clock_ok (clock (header f)) →
  let '(m', r) := process_announcement now t m f in
  wire_clock_ok (cm_clock (am_clock m')) ∧ am_identity m' = am_identity m ∧
  ∀ caps fwd, r = Some (caps, fwd) → ∃ p o c g, authentic now m f p o c g ∧ caps = an_capabilities p ∧
    ∀ y, fwd = Some y → 0 < an_ttl p ∧
      ∃ hc, wire_clock_ok hc ∧ y = gossip_frame m (trust_level (header f)) hc (relayed_payload p o c g).
Proof.
  intros Hm Hf. unfold process_announcement. destruct (origin_claim now m f) as [[[[p o] c] g]|] eqn:E; [|by split_and!].
  destruct (foldl _ _ _) as [seen fresh]. destruct (negb fresh); [by split_and!|].
  apply origin_claim_iff in E.
  destruct (Z.ltb_spec 0 (Z.min (an_ttl p) MAX_ACCEPTED_ANNOUNCE_TTL)) as [Hn|Hn]; cbn.
  - assert (Hc : wire_clock_ok (HybridClock_tick (cm_clock
      (if abs_diff now (physical (clock (header f))) <=? MAX_ANNOUNCE_CLOCK_SKEW
       then ClockManager_update (am_clock m) (clock (header f)) else am_clock m)))).
    { apply tick_wire_ok. destruct (_ <=? _); [by apply update_wire_ok|done]. }
    split_and!; [exact Hc|done|]. intros caps fwd [= <- <-]. exists p, o, c, g. split_and!; [done|done|].
    intros y [= <-]. split; [unfold MAX_ACCEPTED_ANNOUNCE_TTL, MAX_ROUTE_INDIRECTION in Hn; lia|].
    eexists. split; [exact Hc|]. rewrite foldl_add_capability. done.
  - split_and!; [done|done|]. intros caps fwd [= <- <-]. exists p, o, c, g. by split_and!.
Qed.

Lemma gossip_frame_writable m l c p :
  keypair_ok (am_identity m) → wire_clock_ok c → bytes_ok (AnnouncePayload_encode p) →
  len (AnnouncePayload_encode p) ≤ MAX_PAYLOAD_SIZE → l = Full ∨ l = Sig →
  ∀ s, array_ok 64 s → encodable (set_auth (gossip_frame m l c p) (AuthSignature s)).
Proof.
  intros Hk [Hc1 Hc2] Hb Hn Hl s Hs. unfold MAX_PAYLOAD_SIZE in *. pose proof (len_nonneg (AnnouncePayload_encode p)) as H1.
  assert (El : len (AnnouncePayload_encode p) mod 2 ^ 32 = len (AnnouncePayload_encode p)) by (apply Z.mod_small; lia).
  unfold gossip_frame. set (b := AnnouncePayload_encode p) in *. clearbody b.
  split; try done; cbn; rewrite ?El; try lia; try done.
  - split; cbn; rewrite ?El; try done; try lia. unfold header_ok, clock_ok. cbn.
    split_and!; try lia; try done; [by apply (array_ok_replicate 16 0)|apply ed_public_ok].
  - change MAX_PHYSICAL with (2 ^ 40 - 1). lia.
  - by destruct Hl as [-> | ->].
Qed.

Lemma gossip_frame_signed k l m c p :
  am_identity m = k → keypair_ok k → wire_clock_ok c → bytes_ok (AnnouncePayload_encode p) →
  len (AnnouncePayload_encode p) ≤ MAX_PAYLOAD_SIZE → l = Full ∨ l = Sig →
  (FrameSigner_sign k (gossip_frame m l c p)).2 = Ok tt ∧ received (signed k (gossip_frame m l c p)).
Proof.
  intros Hm Hk Hc Hb Hn Hl. subst k. set (f := gossip_frame m l c p).
  assert (Hs : FrameSigner_sign (am_identity m) f
    = (set_auth f (AuthSignature (Keypair_sign (am_identity m) (signature_data f))), Ok tt))
    by (unfold FrameSigner_sign; by destruct Hl as [-> | ->]).
  assert (He : ∀ s, array_ok 64 s → encodable (set_auth f (AuthSignature s)))
    by (by apply gossip_frame_writable).
  assert (Hw : writable f).
  { replace f with (set_auth f (AuthSignature Signature_zero)) by (by destruct Hl as [-> | ->]).
    apply encodable_writable, He. by apply (array_ok_replicate 64 0). }
  unfold signed. rewrite Hs. split; [done|]. split; cbn [fst]; [apply He, ed_sign_ok|].
  unfold FrameVerifier_verify. cbn [set_auth header auth].
  assert (Ev : NodeId_verify (sender_id (header f)) (signature_data (set_auth f (AuthSignature (Keypair_sign (am_identity m) (signature_data f)))))
    (Keypair_sign (am_identity m) (signature_data f)) = true).
  { rewrite signature_data_auth by (done || apply ed_sign_ok). by apply sign_verifies. }
  change (trust_level (header f)) with l. destruct Hl as [E | E]; rewrite E; by rewrite Ev.
Qed.

Definition gossip_targets (s : MeshState) (sender : NodeId) : list (NodeId * SocketAddr) :=
  filter (λ kv, kv.1 ≠ sender) (map_to_list (ms_peer_addrs s)).

Lemma regossip_spec k s sender f :
  (FrameSigner_sign k f).2 = Ok tt → received (signed k f) →
  regossip k s sender f = Ok (map (λ kv, send s kv.2 (wire (signed k f))) (gossip_targets s sender)).
Proof.
  intros H2 [He _]. unfold regossip, signed in *. destruct (FrameSigner_sign k f) as [g r]. cbn in *. subst r.
  by rewrite encode_frame_wire.
Qed.

Lemma relayed_fits now m f p o c g :
  received f → authentic now m f p o c g → 0 < an_ttl p →
  payload_ok (relayed_payload p o c g) ∧ len (AnnouncePayload_encode (relayed_payload p o c g)) ≤ MAX_PAYLOAD_SIZE.
Proof.
  intros Hf Ha Hn. destruct Ha as [Hd Ho Hc Hg _ _ _].
  pose proof (ok_payload _ (enc_ok _ (rc_encodable _ Hf))) as Hb. destruct (enc_plen _ (rc_encodable _ Hf)) as [_ Hl].
  pose proof (AnnouncePayload_decode_ok _ _ Hb Hd) as Hp. unfold relayed_payload. split.
  - destruct Hp as [? ? ? Hw]. rewrite Ho, Hc, Hg in Hw. split; cbn; try done.
    unfold MAX_ACCEPTED_ANNOUNCE_TTL, MAX_ROUTE_INDIRECTION. lia.
  - rewrite (len_relayed p) by done. pose proof (AnnouncePayload_decode_length _ _ _ _ _ Hb Hd Ho Hc Hg). lia.
Qed.

(** *** Admission *)

Definition admissions_ok (m : gmap NodeId (Z * gset NodeId)) : Prop :=
  map_Forall (λ _ e, Z.of_nat (size e.2) ≤ MAX_DISTINCT_ORIGINS_PER_SENDER_PER_WINDOW) m.

Lemma admit_origin_ok now sender origin m :
  admissions_ok m →
  let '(m', admitted) := admit_origin now sender origin m in
  admissions_ok m' ∧ (admitted = true ↔ ∃ e, m' !! sender = Some e ∧ origin ∈ e.2).
Proof.
  intros Hm. unfold admit_origin. set (e0 := default (now, ∅) (m !! sender)).
  assert (Hz : Z.of_nat (size e0.2) ≤ 16).
  { unfold e0. destruct (m !! sender) as [e|] eqn:E; cbn [default fst snd]; [apply (Hm _ _ E)|]. rewrite size_empty. lia. }
  set (e := if _ <=? _ then _ else e0).
  assert (He : Z.of_nat (size e.2) ≤ 16) by (unfold e; destruct (_ <=? _); cbn [fst snd]; [rewrite size_empty; lia|done]).
  unfold MAX_DISTINCT_ORIGINS_PER_SENDER_PER_WINDOW in *.
  case_decide as Hin; [|destruct (Z.leb_spec 16 (Z.of_nat (size e.2))) as [Hfull|Hroom]]; rewrite lookup_insert_eq; split.
  - by apply map_Forall_insert_2.
  - naive_solver.
  - by apply map_Forall_insert_2.
  - split; [done|]. intros (x & [= <-] & ?). done.
  - apply map_Forall_insert_2; [|done]. cbn [snd].
    unfold MAX_DISTINCT_ORIGINS_PER_SENDER_PER_WINDOW. rewrite size_union, size_singleton by set_solver. lia.
  - split; [|done]. intros _. eexists. split; [done|]. cbn [snd]. set_solver.
Qed.

(** *** Handling an announcement *)

(** The shape of what may follow a claim of [origin]: only the registrations and the
    reputation of the origin change, and the datagrams sent go to other peers and
    carry the same signed claim in our name. *)
Record announce_result (hk : HandlerClock) (k : Keypair) (s : MeshState) (f : Frame) (origin : NodeId)
    (s' : MeshState) (effects : list Effect) : Prop := {
  ar_router : ms_router s' = ms_router s ∨
    ∃ p c g, authentic (hk_wall_process hk) (ms_announcements s) f p origin c g ∧
             ms_router s' = register_announced (ms_router s) origin (an_capabilities p);
  ar_via : ms_reachable_via s' = ms_reachable_via s ∨
    (origin ∉ ms_known_peers s) ∧ ms_reachable_via s' = <[origin := (sender_id (header f), hk_via hk)]> (ms_reachable_via s);
  ar_effects : Forall (λ e, ∃ n a bytes y, e = send s a bytes ∧ n ≠ sender_id (header f) ∧
      ms_peer_addrs s !! n = Some a ∧ decode_verified_frame bytes = Ok (Some y) ∧
      frame_type (header y) = FAnnounce ∧ sender_id (header y) = Keypair_node_id k ∧
      ∃ p c g, authentic (hk_wall_process hk) (ms_announcements s) f p origin c g ∧
               AnnouncePayload_decode (payload y) = Some (relayed_payload p origin c g)) effects
}.

(** The invariant of a node's state. *)
Record mesh_inv (k : Keypair) (s : MeshState) : Prop := {
  mi_cache : cache_ok (ms_forwarded s);
  mi_routes : Z.of_nat (size (ms_reverse_routes s)) ≤ REVERSE_ROUTES_CAPACITY;
  mi_admission : admissions_ok (ms_origin_admission s);
  mi_identity : am_identity (ms_announcements s) = k;
  mi_clock : wire_clock_ok (cm_clock (am_clock (ms_announcements s)))
}.

(** The parts of the state an announcement cannot reach. *)
Definition same_network (s s' : MeshState) : Prop :=
  ms_discovery_socket s' = ms_discovery_socket s ∧ ms_known_peers s' = ms_known_peers s ∧
  ms_peer_addrs s' = ms_peer_addrs s ∧ ms_pending_pings s' = ms_pending_pings s ∧
  ms_pending_intents s' = ms_pending_intents s ∧ ms_forwarded s' = ms_forwarded s ∧
  ms_reverse_routes s' = ms_reverse_routes s.

Lemma announce_claim_origin now s f o :
  announce_claim now s f = Some o → ∃ p, AnnouncePayload_decode (payload f) = Some p ∧ an_origin p = Some o.
Proof.
  unfold announce_claim. case_decide; [|done]. destruct (AnnouncePayload_decode (payload f)) as [p|]; [|done]. cbn.
  destruct (an_origin p) as [o'|] eqn:E; [|done]. cbn. destruct (an_origin_clock p); [|done]. cbn.
  destruct (an_origin_signature p); [|done]. cbn. destruct (negb _); [done|]. destruct (negb _); [done|].
  intros [= ->]. eauto.
Qed.

Lemma received_clock f : received f → wire_clock_ok (clock (header f)).
Proof.
  intros [He _].
  pose proof (enc_clock _ He) as Hc. change MAX_PHYSICAL with (2 ^ 40 - 1) in Hc.
  pose proof (ok_header _ (enc_ok _ He)) as Hh. unfold header_ok, clock_ok in Hh. unfold wire_clock_ok. lia.
Qed.
Lemma received_trust f : received f → trust_level (header f) = Full ∨ trust_level (header f) = Sig.
Proof.
  intros [_ Hv]. unfold FrameVerifier_verify in Hv. destruct (trust_level (header f)); auto; done.
Qed.

Lemma gossiped k s hk f p o c g hc :
  keypair_ok k → mesh_inv k s → received f → authentic (hk_wall_process hk) (ms_announcements s) f p o c g →
  0 < an_ttl p → wire_clock_ok hc →
  let y := gossip_frame (ms_announcements s) (trust_level (header f)) hc (relayed_payload p o c g) in
  ∃ effects, regossip k s (sender_id (header f)) y = Ok effects ∧
  Forall (λ e, ∃ n a bytes y', e = send s a bytes ∧ n ≠ sender_id (header f) ∧ ms_peer_addrs s !! n = Some a ∧
    decode_verified_frame bytes = Ok (Some y') ∧ frame_type (header y') = FAnnounce ∧
    sender_id (header y') = Keypair_node_id k ∧
    AnnouncePayload_decode (payload y') = Some (relayed_payload p o c g)) effects.
Proof.
  intros Hk Hi Hf Ha Hn Hc y. destruct (relayed_fits _ _ _ _ _ _ _ Hf Ha Hn) as [Hp Hl].
  destruct (gossip_frame_signed k (trust_level (header f)) (ms_announcements s) hc (relayed_payload p o c g)
    (mi_identity _ _ Hi) Hk Hc (AnnouncePayload_encode_bytes _ Hp) Hl (received_trust _ Hf)) as [Hs Hr].
  fold y in Hs, Hr. eexists. split; [by apply regossip_spec|].
  apply Forall_forall. intros e (kv & -> & Hkv)%list_elem_of_fmap.
  apply list_elem_of_filter in Hkv as [Hne Hkv]. destruct kv as [n a]. apply elem_of_map_to_list in Hkv.
  exists n, a. eexists _, (signed k y). split_and!; [done|done|done|by apply decode_wire_received| | |];
    unfold signed; replace (FrameSigner_sign k y).1 with (set_auth y (AuthSignature (Keypair_sign k (signature_data y))))
      by (unfold FrameSigner_sign; change (trust_level (header y)) with (trust_level (header f));
          destruct (received_trust _ Hf) as [-> | ->]; done).
  - done.
  - cbn. unfold am_node_id. by rewrite (mi_identity _ _ Hi).
  - cbn -[AnnouncePayload_decode AnnouncePayload_encode]. by apply AnnouncePayload_decode_encode.
Qed.

Lemma handle_announce_spec hk k s f :
  keypair_ok k → mesh_inv k s → received f →
  ∃ s' effects, handle_announce hk k s f = Ok (s', effects) ∧ mesh_inv k s' ∧ same_network s s' ∧
  match announce_claim (hk_wall hk) s f with
  | None => s' = s ∧ effects = []
  | Some origin => announce_result hk k s f origin s' effects
  end.
Proof.
  intros Hk Hi Hf. unfold handle_announce. destruct (announce_claim (hk_wall hk) s f) as [o|] eqn:Ec;
    [|by exists s, []].
  pose proof (admit_origin_ok (hk_admission hk) (sender_id (header f)) o _ (mi_admission _ _ Hi)) as Ha.
  destruct (admit_origin _ _ _ _) as [adm admitted]. destruct Ha as [Ha _].
  destruct Hi as [H1 H2 H3 H4 H5].
  destruct admitted; cbn [negb]; [|eexists _, _; split; [done|]; split; [by split|]; split; [done|];
    split; [by left|by left|constructor]].
  destruct (announce_rate _ _ _ _) as [last in_time].
  destruct in_time; cbn [negb]; [|eexists _, _; split; [done|]; split; [by split|]; split; [done|];
    split; [by left|by left|constructor]].
  pose proof (process_forward (hk_wall_process hk) (hk_seen hk) (ms_announcements s) f H5 (received_clock _ Hf)) as Hp.
  change (ms_announcements (upd_last_announce _ _)) with (ms_announcements s).
  destruct (process_announcement _ _ _ _) as [mgr r]. destruct Hp as (Hp1 & Hp2 & Hp3).
  destruct r as [[caps fwd]|]; [|eexists _, _; split; [done|]; split; [split; try done; cbn; congruence|];
    split; [done|]; split; [by left|by left|constructor]].
  destruct (Hp3 caps fwd eq_refl) as (p & o' & c & g & Hau & -> & Hfwd).
  assert (o' = o) as ->.
  { destruct (announce_claim_origin _ _ _ _ Ec) as (p' & Hd & Ho). destruct Hau. congruence. }
  set (s2 := upd_router _ _).
  assert (Hs2 : mesh_inv k s2 ∧ same_network s s2 ∧
    (ms_router s2 = register_announced (ms_router s) o (an_capabilities p)) ∧
    (ms_reachable_via s2 = ms_reachable_via s ∨
     (o ∉ ms_known_peers s) ∧ ms_reachable_via s2 = <[o := (sender_id (header f), hk_via hk)]> (ms_reachable_via s))).
  { subst s2. case_decide as Hkn; (split; [split; try done; cbn; congruence|]); (split; [done|]); (split; [done|]); auto. }
  clearbody s2. destruct Hs2 as (Hi2 & Hn2 & Hr2 & Hv2).
  destruct fwd as [y|]; [|eexists _, _; split; [done|]; split; [done|]; split; [done|];
    split; [right; eauto 6|done|constructor]].
  destruct (Hfwd y eq_refl) as (Hpos & hc & Hhc & ->).
  destruct (gossiped k s hk f p o c g hc Hk) as (effects & He & Hfa); try done.
  assert (Hsame : regossip k s2 = regossip k s).
  { unfold regossip, send. destruct Hn2 as (-> & _ & -> & _). done. }
  rewrite Hsame, He. eexists _, _. split; [done|]. split; [done|]. split; [done|].
  split; [right; eauto 6|done|]. eapply Forall_impl; [exact Hfa|]. cbn.
  intros e (n & a & bytes & y' & ? & ? & ? & ? & ? & ? & ?). exists n, a, bytes, y'. split_and!; try done. eauto.
Qed.
End Gossip.

(** ** Runs of a node *)

Section Runs.
Context `{Blake3} `{Ed25519}.

(** The capabilities the node will advertise; the category is a placeholder. *)
Definition register_local (caps : list text) (m : AnnouncementManager) : AnnouncementManager :=
  foldl (λ m c, Announce.register_capability m (AnnouncedCapability_new (capability_hash c) (as_bytes (str "capa")))) m caps.

(** [NetworkManager::new]: nothing known, nothing pending. *)
Definition mesh_new (k : Keypair) (now : HybridClock) (caps : list text) (discovery : bool) : MeshState :=
  mkMesh discovery ∅ ∅ ForwardedFrameCache_new ∅ ∅ (SemanticRouter_new (Keypair_node_id k))
    (register_local caps (AnnouncementManager_new now k)) ∅ ∅ ∅ ∅.

Lemma register_local_same caps m :
  am_identity (register_local caps m) = am_identity m ∧ am_clock (register_local caps m) = am_clock m.
Proof. unfold register_local. revert m. induction caps as [|c caps IH]; intros m; [done|]. exact (IH (Announce.register_capability m _)). Qed.

Inductive MeshEvent :=
  | EvDatagram (hk : HandlerClock) (data : list Z) (from : SocketAddr)
  | EvMaintenance (t_seen now : Z).

Definition mesh_step (k : Keypair) (s : MeshState) (e : MeshEvent) : outcome False (MeshState * list Effect) :=
  match e with
  | EvDatagram hk data a =>
      frame ← decode_verified_frame data;
      match frame with
      | Some f => handle_axiom_frame hk k s f a
      | None => Ok (s, [])
      end
  | EvMaintenance t now => Ok (run_announcement_maintenance t now s, [])
  end.
Fixpoint mesh_run (k : Keypair) (s : MeshState) (es : list MeshEvent) : outcome False (MeshState * list Effect) :=
  match es with
  | [] => Ok (s, [])
  | e :: es' =>
      r ← mesh_step k s e;
      r' ← mesh_run k r.1 es';
      Ok (r'.1, r.2 ++ r'.2)
  end.
Definition event_ok (e : MeshEvent) : Prop := match e with EvDatagram _ data _ => bytes_ok data | _ => True end.

(** *** Every step is total and keeps the invariant *)

Lemma mesh_inv_new k now caps discovery : wire_clock_ok now → mesh_inv k (mesh_new k now caps discovery).
Proof.
  intros Hn. destruct (register_local_same caps (AnnouncementManager_new now k)) as [E1 E2].
  split; try done; [apply cache_ok_new|by cbn; rewrite E2].
Qed.

Lemma mesh_inv_forwarded k s c : cache_ok c → mesh_inv k s → mesh_inv k (upd_forwarded s c).
Proof. intros Hc []. by split. Qed.

Lemma record_breadcrumb_size now a t m :
  Z.of_nat (size m) ≤ REVERSE_ROUTES_CAPACITY → Z.of_nat (size (record_breadcrumb now a t m)) ≤ REVERSE_ROUTES_CAPACITY.
Proof.
  intros Hm. unfold record_breadcrumb. destruct (m !! t) eqn:E; [done|].
  destruct (Z.ltb_spec (Z.of_nat (size m)) REVERSE_ROUTES_CAPACITY); [|done]. rewrite map_size_insert_None by done. lia.
Qed.
Lemma mesh_inv_after_forward k now s f a t : mesh_inv k s → mesh_inv k (after_forward now s f a t).
Proof.
  intros Hi. unfold after_forward.
  assert (H1 : mesh_inv k (upd_forwarded s (cache_insert (ms_forwarded s) (t, frame_type (header f)))))
    by (apply mesh_inv_forwarded; [apply cache_insert_ok, Hi|done]).
  case_decide; [|done]. destruct H1. split; try done. cbn. apply record_breadcrumb_size, Hi.
Qed.

Lemma handle_ping_total k s f a : keypair_ok k → received f → ∃ effects, handle_ping k s f a = Ok (s, effects).
Proof.
  intros Hk Hf. unfold handle_ping. case_decide; [|eauto]. destruct (trace_id f) as [t|] eqn:Et; [|eauto].
  destruct (build_simple_frame_wire k FPong t IntentHash_zero [] None) as [_ Hb].
  { pose proof (ok_trace _ (enc_ok _ (rc_encodable _ Hf))) as Ht. rewrite Et in Ht.
    split; try done. by apply (array_ok_replicate 16 0). }
  unfold build_pong_frame. rewrite Hb. cbn [mbind outcome_bind]. eauto.
Qed.

Lemma handle_total hk k s f a :
  keypair_ok k → mesh_inv k s → received f →
  ∃ s' effects, handle_axiom_frame hk k s f a = Ok (s', effects) ∧ mesh_inv k s' ∧
    (ms_forwarded s' = ms_forwarded s ∨
     for_another (Keypair_node_id k) f = true ∧ ∃ t, ms_forwarded s' = cache_insert (ms_forwarded s) (t, frame_type (header f))).
Proof.
  intros Hk Hi Hf. set (local := Keypair_node_id k).
  destruct (forwards_dec local s f a) as [(t & r & next & Hw)|Hno].
  { rewrite (handle_forwards hk k s f a t r next Hf Hw). eexists _, _. split; [done|].
    split; [by apply mesh_inv_after_forward|]. right. split.
    - unfold for_another. rewrite (fw_routing _ _ _ _ _ _ _ Hw). by apply bool_decide_eq_true, Hw.
    - exists t. unfold after_forward. by case_decide. }
  destruct (try_forward_otherwise (hk_route hk) local s f a Hno) as (c & Hc & E).
  destruct (for_another local f) eqn:Ea.
  { unfold handle_axiom_frame. fold local. rewrite E. eexists _, _. split; [done|].
    destruct Hc as [->|(t & _ & ->)]; (split; [apply mesh_inv_forwarded; [|done]|]); eauto.
    - apply Hi.
    - apply cache_insert_ok, Hi. }
  rewrite handle_local by done. unfold handle_here.
  destruct (frame_type (header f)); try (eexists _, _; split; [done|]; split; [done|by left]).
  - unfold handle_intent. destruct (_ && _); [eexists _, _; split; [done|]; split; [done|by left]|].
    destruct (trace_id f); eexists _, _; (split; [done|]; split; [done|by left]).
  - unfold handle_reply. destruct (trace_id f); [|eexists _, _; split; [done|]; split; [done|by left]].
    destruct (ms_pending_intents s !! _); eexists _, _; (split; [done|]; split; [|by left]); [|done].
    destruct Hi. by split.
  - destruct (handle_announce_spec hk k s f Hk Hi Hf) as (s' & effects & -> & Hi' & Hn & _).
    eexists _, _. split; [done|]. split; [done|]. left. apply Hn.
  - unfold handle_reply. destruct (trace_id f); [|eexists _, _; split; [done|]; split; [done|by left]].
    destruct (ms_pending_intents s !! _); eexists _, _; (split; [done|]; split; [|by left]); [|done].
    destruct Hi. by split.
  - destruct (handle_ping_total k s f a Hk Hf) as [effects ->]. eexists _, _. split; [done|]. split; [done|by left].
  - unfold handle_pong. destruct (trace_id f); [|eexists _, _; split; [done|]; split; [done|by left]].
    destruct (ms_pending_pings s !! _); eexists _, _; (split; [done|]; split; [|by left]); [|done].
    destruct Hi. by split.
Qed.

Lemma maintenance_inv k t now s : mesh_inv k s → mesh_inv k (run_announcement_maintenance t now s).
Proof.
  intros [H1 H2 H3 H4 H5]. split; try done; cbn.
  - etransitivity; [|exact H2]. apply inj_le, map_size_filter.
  - intros x e He%map_lookup_filter_Some. apply (H3 x e), He.
Qed.

Definition routed_event (local : NodeId) (e : MeshEvent) : bool :=
  match e with
  | EvDatagram _ data _ =>
      match decode_verified_frame data with Ok (Some f) => for_another local f | _ => false end
  | EvMaintenance _ _ => false
  end.

Lemma mesh_step_total k s e :
  keypair_ok k → mesh_inv k s → event_ok e →
  ∃ s' effects, mesh_step k s e = Ok (s', effects) ∧ mesh_inv k s' ∧
    (ms_forwarded s' = ms_forwarded s ∨
     routed_event (Keypair_node_id k) e = true ∧ ∃ x, ms_forwarded s' = cache_insert (ms_forwarded s) x).
Proof.
  intros Hk Hi He. destruct e as [hk data a|t now]; cbn in *.
  - destruct (decode_verified_frame data) as [[f|]| |] eqn:Ed; cbn.
    + destruct (handle_total hk k s f a Hk Hi (decode_received _ _ He Ed)) as (s' & effects & -> & ? & [?|[? [t ?]]]);
        eexists _, _; split_and!; eauto.
    + eexists _, _. split; [done|]. auto.
    + done.
    + by apply decode_verified_no_panic in Ed.
  - eexists _, _. split; [done|]. split; [by apply maintenance_inv|]. by left.
Qed.

Lemma mesh_run_total k s es :
  keypair_ok k → mesh_inv k s → Forall event_ok es →
  ∃ s' effects, mesh_run k s es = Ok (s', effects) ∧ mesh_inv k s'.
Proof.
  intros Hk Hi Hes. revert s Hi. induction Hes as [|e es He _ IH]; intros s Hi; cbn; [eauto|].
  destruct (mesh_step_total k s e Hk Hi He) as (s1 & ef & -> & Hi1 & _). cbn.
  destruct (IH s1 Hi1) as (s2 & ef2 & -> & Hi2). cbn. eauto.
Qed.

(** *** How long the cache remembers *)

(** A key with at most [n] younger ones. *)
Definition remembered_within (n : nat) (x : forward_key) (c : ForwardedFrameCache) : Prop :=
  ∃ l1 l2, fc_order c = l1 ++ x :: l2 ∧ (length l2 <= n)%nat.

Lemma remembered_seen n x c : cache_ok c → remembered_within n x c → x ∈ fc_seen c.
Proof. intros Hc (l1 & l2 & Ho & _). rewrite (co_seen _ Hc), Ho, elem_of_list_to_set. set_solver. Qed.

Lemma remembered_insert n x y c :
  cache_ok c → (S n < FORWARD_DEDUP_CAPACITY)%nat → remembered_within n x c → remembered_within (S n) x (cache_insert c y).
Proof.
  intros Hc Hn (l1 & l2 & Ho & Hl). destruct (decide (y ∈ fc_seen c)) as [Hy|Hy].
  - unfold cache_insert. rewrite decide_True by done. exists l1, l2. split; [done|lia].
  - destruct (cache_insert_order c y Hc Hy) as [_ E]. unfold remembered_within. rewrite E, Ho. unfold last_n.
    set (cap := FORWARD_DEDUP_CAPACITY) in *.
    exists (drop (length ((l1 ++ x :: l2) ++ [y]) - cap) l1), (l2 ++ [y]).
    split; [|rewrite length_app; cbn; lia]. rewrite <- app_assoc, drop_app_le; [done|].
    rewrite !length_app. cbn [length]. rewrite ?length_app. cbn [length]. lia.
Qed.
Lemma remembered_new x c : cache_ok c → x ∉ fc_seen c → remembered_within 0 x (cache_insert c x).
Proof.
  intros Hc Hx. destruct (cache_insert_order c x Hc Hx) as [_ E]. unfold remembered_within. rewrite E. unfold last_n.
  exists (drop (length (fc_order c ++ [x]) - FORWARD_DEDUP_CAPACITY) (fc_order c)), []. split; [|done].
  apply drop_app_le. rewrite length_app. cbn [length].
  assert (1 <= FORWARD_DEDUP_CAPACITY)%nat by (unfold FORWARD_DEDUP_CAPACITY; lia). lia.
Qed.

Lemma run_remembers k s es n x s' effects :
  keypair_ok k → mesh_inv k s → Forall event_ok es → remembered_within n x (ms_forwarded s) →
  (n + length (filter (λ e, routed_event (Keypair_node_id k) e = true) es) < FORWARD_DEDUP_CAPACITY)%nat →
  mesh_run k s es = Ok (s', effects) →
  mesh_inv k s' ∧ x ∈ fc_seen (ms_forwarded s').
Proof.
  intros Hk Hi Hes. revert s n effects Hi. induction Hes as [|e es He _ IH]; intros s n effects Hi Hx Hn Hrun; cbn in Hrun.
  - injection Hrun as <- <-. split; [done|]. by eapply remembered_seen, Hx; apply Hi.
  - destruct (mesh_step_total k s e Hk Hi He) as (s1 & ef & Hs & Hi1 & Hc). rewrite Hs in Hrun.
    rewrite bind_Ok in Hrun. apply bind_Ok_inv in Hrun as ([s2 ef2] & Hr & E). cbn in Hr, E. injection E as <- <-.
    destruct Hc as [Hc|[Hrt [y Hc]]].
    + eapply (IH s1 n ef2); [exact Hi1|by rewrite Hc| |exact Hr].
      revert Hn. rewrite filter_cons. case_decide; cbn [length]; lia.
    + rewrite filter_cons_True in Hn by exact Hrt. cbn in Hn.
      eapply (IH s1 (S n) ef2); [exact Hi1|rewrite Hc; apply remembered_insert; [apply Hi|lia|exact Hx]|lia|exact Hr].
Qed.

(** A node forwards a message once.  After it has forwarded a frame, a datagram
    with the same trace and frame type that is again for someone else is dropped, from
    whichever address it comes and whatever happened in between, as long as fewer than
    4096 datagrams for other nodes were handled since. *)
Theorem forwarded_at_most_once k s hk data a f t r next s1 effects es s2 effects' hk' data' a' f' :
  let local := Keypair_node_id k in
  keypair_ok k → mesh_inv k s → bytes_ok data → Forall event_ok es → bytes_ok data' →
  decode_verified_frame data = Ok (Some f) → forwards local s f a t r next →
  mesh_step k s (EvDatagram hk data a) = Ok (s1, effects) → mesh_run k s1 es = Ok (s2, effects') →
  Z.of_nat (length (filter (λ e, routed_event local e = true) es)) < 4096 →
  decode_verified_frame data' = Ok (Some f') → for_another local f' = true →
  trace_id f' = Some t → frame_type (header f') = frame_type (header f) →
  mesh_step k s2 (EvDatagram hk' data' a') = Ok (s2, []).
Proof.
  intros local Hk Hi Hd Hes Hd' Hf Hw Hs1 Hs2 Hn Hf' Ha' Ht' Hft'.
  destruct (mesh_step_total k s (EvDatagram hk data a) Hk Hi Hd) as (x & y & E & Hi1 & _).
  rewrite Hs1 in E. injection E as <- <-.
  assert (Hc : ms_forwarded s1 = cache_insert (ms_forwarded s) (t, frame_type (header f))).
  { cbn in Hs1. rewrite Hf in Hs1. cbn in Hs1.
    rewrite (handle_forwards hk k s f a t r next (decode_received _ _ Hd Hf) Hw) in Hs1.
    injection Hs1 as <- _. unfold after_forward. by case_decide. }
  assert (Hx : (t, frame_type (header f)) ∈ fc_seen (ms_forwarded s2)).
  { eapply (run_remembers k s1 es 0); [exact Hk|exact Hi1|exact Hes| | |exact Hs2].
    - rewrite Hc. apply remembered_new; [apply Hi|apply Hw].
    - unfold FORWARD_DEDUP_CAPACITY. fold local. lia. }
  cbn. rewrite Hf'. cbn. unfold handle_axiom_frame, try_forward_routed_frame. unfold for_another in Ha'.
  destruct (routing f') as [r'|]; [|done]. apply bool_decide_eq_true in Ha'. fold local.
  rewrite decide_False by done. destruct (is_peer_addr s2 a'); [|done]. cbn [negb]. rewrite Ht', Hft'.
  unfold cache_contains. by rewrite bool_decide_eq_true_2.
Qed.

(** The mesh node cannot be crashed or filled up from the network.  From its
    initial state, through any sequence of datagrams with any bytes from any
    addresses and any maintenance passes, every step returns (no panic), and the
    state stays within its bounds: the duplicate cache holds at most 4096 distinct
    keys, its set and its queue agreeing; at most 65536 breadcrumbs; at most 16
    origins per sender and window; and the announcement clock stays one the wire
    format can carry. *)
Theorem mesh_node_bounded k now caps discovery es :
  keypair_ok k → wire_clock_ok now → Forall event_ok es →
  ∃ s effects, mesh_run k (mesh_new k now caps discovery) es = Ok (s, effects) ∧
  fc_seen (ms_forwarded s) = list_to_set (fc_order (ms_forwarded s)) ∧ NoDup (fc_order (ms_forwarded s)) ∧
  Z.of_nat (size (fc_seen (ms_forwarded s))) ≤ 4096 ∧
  Z.of_nat (size (ms_reverse_routes s)) ≤ 65536 ∧
  (∀ sender e, ms_origin_admission s !! sender = Some e → Z.of_nat (size e.2) ≤ 16) ∧
  wire_clock_ok (cm_clock (am_clock (ms_announcements s))).
Proof.
  intros Hk Hn Hes. destruct (mesh_run_total k _ es Hk (mesh_inv_new k now caps discovery Hn) Hes) as (s & ef & Hr & Hi).
  exists s, ef. split; [exact Hr|]. destruct Hi as [[Hs Hd Hb] H2 H3 _ H5]. split_and!; try done.
  rewrite Hs, size_list_to_set by done. unfold FORWARD_DEDUP_CAPACITY in Hb. lia.
Qed.

(** What an announcement can do.  A frame from a sender that is not a known peer,
    or without a payload whose origin signed it within the clock skew, changes nothing
    and causes nothing.  Otherwise only what the node holds of the claimed origin can
    change: either not at all, or its registrations become exactly the known
    capabilities of the signed announcement.  Every other node keeps its
    registrations and its reputation, peers, waiters and forwarding state stay, and
    everything sent goes to other peers than the sender and decodes there as our
    signed announcement of the same signed claim with its hop count reduced. *)
Theorem announcement_handling hk k s data f a :
  let local := Keypair_node_id k in
  keypair_ok k → mesh_inv k s → bytes_ok data → decode_verified_frame data = Ok (Some f) →
  for_another local f = false → frame_type (header f) = FAnnounce →
  ∃ s' effects, handle_axiom_frame hk k s f a = Ok (s', effects) ∧ same_network s s' ∧
  match announce_claim (hk_wall hk) s f with
  | None => s' = s ∧ effects = []
  | Some origin =>
      (ms_router s' = ms_router s ∨
       ∃ p c g, authentic (hk_wall_process hk) (ms_announcements s) f p origin c g ∧
                replaced_by origin (an_capabilities p) (ms_router s')) ∧
      (∀ n, n ≠ origin → reputation (ms_router s') !! n = reputation (ms_router s) !! n ∧
         ms_reachable_via s' !! n = ms_reachable_via s !! n ∧
         ∀ h c, (n, c) ∈ entries_of (ms_router s') h ↔ (n, c) ∈ entries_of (ms_router s) h) ∧
      Forall (λ e, ∃ n x bytes y p c g, e = send s x bytes ∧ n ≠ sender_id (header f) ∧
        ms_peer_addrs s !! n = Some x ∧ decode_verified_frame bytes = Ok (Some y) ∧
        frame_type (header y) = FAnnounce ∧ sender_id (header y) = local ∧
        authentic (hk_wall_process hk) (ms_announcements s) f p origin c g ∧
        AnnouncePayload_decode (payload y) = Some (relayed_payload p origin c g)) effects
  end.
Proof.
  intros local Hk Hi Hd Hf Ha Ht. pose proof (decode_received _ _ Hd Hf) as Hr.
  destruct (handle_announce_spec hk k s f Hk Hi Hr) as (s' & effects & Eh & _ & Hn & Hc).
  exists s', effects. split.
  { rewrite handle_local by done. unfold handle_here. by rewrite Ht. }
  split; [exact Hn|]. destruct (announce_claim _ _ _) as [o|]; [|exact Hc]. destruct Hc as [Hr1 Hr2 Hr3]. split_and!.
  - destruct Hr1 as [?|(p & c & g & ? & ->)]; [by left|right]. exists p, c, g. split; [done|].
    apply register_announced_replaced.
  - intros n Hno. split_and!.
    + destruct Hr1 as [->|(p & c & g & _ & ->)]; [done|by apply register_announced_reputation].
    + destruct Hr2 as [->|[_ ->]]; [done|by apply lookup_insert_ne].
    + intros h x. destruct Hr1 as [->|(p & c & g & _ & ->)]; [done|by apply register_announced_other].
  - eapply Forall_impl; [exact Hr3|]. cbn. intros e (n & x & bytes & y & ? & ? & ? & ? & ? & ? & p & c & g & ? & ?).
    exists n, x, bytes, y, p, c, g. by split_and!.
Qed.

(** What a waiter that expects a reply of [expected] gets of a frame. *)
Definition for_waiter (expected : option NodeId) (f : Frame) (e : Effect) : list Effect :=
  if decide (expected = Some (sender_id (header f))) then [e] else [].

Lemma handle_pong_spec s f t :
  trace_id f = Some t →
  handle_pong s f = (upd_pending_pings s (delete t (ms_pending_pings s)),
                     for_waiter (ms_pending_pings s !! t) f (ResolvePing t)).
Proof.
  intros Ht. unfold handle_pong, for_waiter. rewrite Ht. destruct (ms_pending_pings s !! t) as [x|] eqn:E.
  - f_equal. by repeat case_decide; simplify_eq.
  - rewrite delete_id by done. by destruct s.
Qed.
Lemma handle_reply_spec s f t r :
  trace_id f = Some t →
  handle_reply s f r = (upd_pending_intents s (delete t (ms_pending_intents s)),
                        for_waiter (ms_pending_intents s !! t) f (ResolveIntent t r)).
Proof.
  intros Ht. unfold handle_reply, for_waiter. rewrite Ht. destruct (ms_pending_intents s !! t) as [x|] eqn:E.
  - f_equal. by repeat case_decide; simplify_eq.
  - rewrite delete_id by done. by destruct s.
Qed.

(** Replies reach only the waiter they are for.  A Pong, a Fulfill or an Error for
    us resolves a waiter exactly when its trace names one and its authenticated sender
    is the one the waiter expects, with exactly the payload of the frame (an Error's
    as text); a wrong sender gets nothing but uses the waiter up, no other waiter is
    touched, and without a trace nothing happens. *)
Theorem reply_matching hk k s data f a :
  bytes_ok data → decode_verified_frame data = Ok (Some f) → for_another (Keypair_node_id k) f = false →
  (∀ t, trace_id f = Some t →
    let pinged := upd_pending_pings s (delete t (ms_pending_pings s)) in
    let answered := upd_pending_intents s (delete t (ms_pending_intents s)) in
    (frame_type (header f) = FPong → handle_axiom_frame hk k s f a
       = Ok (pinged, for_waiter (ms_pending_pings s !! t) f (ResolvePing t))) ∧
    (frame_type (header f) = FFulfill → handle_axiom_frame hk k s f a
       = Ok (answered, for_waiter (ms_pending_intents s !! t) f (ResolveIntent t (inl (payload f))))) ∧
    (frame_type (header f) = FError → handle_axiom_frame hk k s f a
       = Ok (answered, for_waiter (ms_pending_intents s !! t) f (ResolveIntent t (inr (from_utf8_lossy (payload f))))))) ∧
  (trace_id f = None → frame_type (header f) ∈ [FPong; FFulfill; FError; FPing; FIntent] →
   handle_axiom_frame hk k s f a = Ok (s, [])).
Proof.
  intros Hd Hf Ha. rewrite handle_local by done. unfold handle_here. split.
  - intros t Ht. split; [|split]; intros E; rewrite E.
    + by rewrite (handle_pong_spec s f t Ht).
    + by rewrite (handle_reply_spec s f t _ Ht).
    + by rewrite (handle_reply_spec s f t _ Ht).
  - intros Ht Hin. unfold handle_pong, handle_reply, handle_ping, handle_intent. rewrite Ht.
    repeat (apply elem_of_cons in Hin as [->|Hin]); [..|by apply not_elem_of_nil in Hin]; try done.
    + by case_decide.
    + by destruct (_ && _).
Qed.
End Runs.

(** ** Examples *)

#[local] Existing Instance prefix_digest.
#[local] Existing Instance ed_reference.

Definition sample_key (b : Z) : Keypair := mkKeypair (replicate 32 b).
Definition sample_id (b : Z) : NodeId := Keypair_node_id (sample_key b).
Definition sample_addr (b : Z) : SocketAddr := SockV4 [10; 0; 0; b] 4000.
Definition sample_clock : HandlerClock := mkHandlerClock 1000 0 0 1000 0 0 0.
Definition sample_trace : TraceId := to_be 8 99.

(** Node 7 between nodes 5 and 6. *)
Definition sample_relay_state : MeshState :=
  upd_peers (mesh_new (sample_key 7) (Types.mkClock 1000 0) [] false) {[sample_id 5; sample_id 6]}
    {[sample_id 5 := sample_addr 5; sample_id 6 := sample_addr 6]}.
Definition sample_request : Frame :=
  signed (sample_key 5) (simple_frame (sample_key 5) FIntent sample_trace (capability_hash (str "echo")) [1; 2; 3]
    (Some (mkRouting (sample_id 6) DEFAULT_ROUTING_TTL))).
Definition sample_request_data : list Z := Eval vm_compute in wire sample_request.

Lemma sample_key_ok b : 0 ≤ b < 256 → keypair_ok (sample_key b).
Proof. intros Hb. by apply (array_ok_replicate 32). Qed.
Lemma sample_request_bytes : bytes_ok sample_request_data.
Proof. apply (bool_decide_unpack _). vm_compute. exact I. Qed.
Lemma sample_request_decodes : decode_verified_frame sample_request_data = Ok (Some sample_request).
Proof. vm_compute. reflexivity. Qed.

Lemma sample_request_forwards :
  forwards (sample_id 7) sample_relay_state sample_request (sample_addr 5) sample_trace
    (mkRouting (sample_id 6) DEFAULT_ROUTING_TTL) (sample_addr 6).
Proof.
  split; [reflexivity|by vm_compute|by vm_compute|reflexivity| |by vm_compute|by vm_compute|by vm_compute].
  apply (bool_decide_unpack _). vm_compute. exact I.
Qed.

Lemma forward_decision_witness :
  ∃ s' bytes, handle_axiom_frame sample_clock (sample_key 7) sample_relay_state sample_request (sample_addr 5)
    = Ok (s', [send sample_relay_state (sample_addr 6) bytes]) ∧
  decode_verified_frame bytes = Ok (Some (set_ttl 7 sample_request)).
Proof.
  destruct (forward_decision sample_clock (sample_key 7) sample_relay_state sample_request_data sample_request
    (sample_addr 5) sample_request_bytes sample_request_decodes eq_refl) as (s' & effects & Eh & Hf & _).
  destruct (Hf _ _ _ sample_request_forwards) as (bytes & Ee & Hd & _).
  exists s', bytes. rewrite <- Ee. split; [exact Eh|exact Hd].
Defined.

Definition sample_relay : Relay := mkRelay (sample_key 7) sample_relay_state (sample_addr 5) (sample_addr 6).
Lemma sample_relay_ready : ready_relay sample_trace (sample_id 5) (sample_id 6) sample_relay.
Proof.
  split; [by vm_compute|by vm_compute| |by vm_compute|by vm_compute|right; by vm_compute|by vm_compute].
  split_and!; [..|by vm_compute]; apply (bool_decide_unpack _); vm_compute; exact I.
Qed.
Lemma sample_message ft r b :
  ft = FIntent ∨ ft = FFulfill → 0 ≤ b < 256 → 0 ≤ r < 256 →
  message_ok (sample_key b) ft sample_trace (capability_hash (str "echo")) [1; 2; 3]
    (Some (mkRouting (sample_id r) DEFAULT_ROUTING_TTL)).
Proof.
  intros Ht Hb Hr. split; [by apply sample_key_ok|by destruct Ht as [-> | ->]| | | |].
  - apply (bool_decide_unpack _). vm_compute. exact I.
  - apply (bool_decide_unpack _). vm_compute. exact I.
  - split; [apply ed_public_ok|done].
  - split; [|by vm_compute]. apply (bool_decide_unpack _). vm_compute. exact I.
Qed.

Definition sample_provider : MeshState :=
  upd_peers (mesh_new (sample_key 6) (Types.mkClock 1000 0) [] false) {[sample_id 7]} {[sample_id 7 := sample_addr 7]}.
Definition sample_requester : MeshState :=
  upd_pending_intents (mesh_new (sample_key 5) (Types.mkClock 1000 0) [] false) {[sample_trace := sample_id 6]}.
Lemma sample_provider_peer : is_peer_addr sample_provider (sample_addr 7) = true.
Proof. by vm_compute. Qed.
Lemma sample_requester_waits : ms_pending_intents sample_requester !! sample_trace = Some (sample_id 6).
Proof. by vm_compute. Qed.

Lemma routed_request_reply_witness :
  ∃ request path' delivered f,
    build_intent_frame (sample_key 5) (capability_hash (str "echo")) sample_trace [1; 2; 3]
      (Some (mkRouting (Keypair_node_id (sample_key 6)) DEFAULT_ROUTING_TTL)) = Ok request ∧
    carry sample_clock [sample_relay] request = Some (path', delivered) ∧
    decode_verified_frame delivered = Ok (Some f) ∧
    handle_axiom_frame sample_clock (sample_key 6) sample_provider f (sample_addr 7)
    = Ok (sample_provider, [SpawnDispatch (sample_addr 7) (capability_hash (str "echo")) sample_trace [1; 2; 3]
            (Keypair_node_id (sample_key 5)) (Some (mkRouting (Keypair_node_id (sample_key 5)) DEFAULT_ROUTING_TTL))]).
Proof.
  destruct (routed_request_reply sample_clock (sample_key 5) (sample_key 6) sample_requester sample_provider
    [sample_relay] sample_trace (capability_hash (str "echo")) [1; 2; 3] [1; 2; 3] (sample_addr 7) (sample_addr 7)
    (sample_message FIntent 6 5 (or_introl eq_refl) ltac:(lia) ltac:(lia))
    (sample_message FFulfill 5 6 (or_intror eq_refl) ltac:(lia) ltac:(lia))
    ltac:(vm_compute; discriminate) (Forall_cons_2 _ _ _ sample_relay_ready (Forall_nil_2 _))
    sample_provider_peer sample_requester_waits)
    as (request & path' & delivered & f & _ & _ & _ & _ & H1 & H2 & H3 & H4 & _).
  exists request, path', delivered, f. split; [exact H1|]. split; [exact H2|]. split; [exact H3|exact H4].
Defined.

Lemma sample_relay_inv : mesh_inv (sample_key 7) sample_relay_state.
Proof. split; [apply cache_ok_new|by vm_compute|apply map_Forall_empty|reflexivity|by vm_compute]. Qed.

Definition sample_after : MeshState := after_forward 0 sample_relay_state sample_request (sample_addr 5) sample_trace.
Lemma sample_first_step :
  ∃ effects, mesh_step (sample_key 7) sample_relay_state (EvDatagram sample_clock sample_request_data (sample_addr 5))
    = Ok (sample_after, effects).
Proof.
  cbn [mesh_step]. rewrite sample_request_decodes. cbn [mbind outcome_bind].
  rewrite (handle_forwards sample_clock (sample_key 7) _ _ _ _ _ _
    (decode_received _ _ sample_request_bytes sample_request_decodes) sample_request_forwards). eauto.
Qed.

(** The same request again, from the other side. *)
Lemma forwarded_at_most_once_witness :
  mesh_step (sample_key 7) sample_after (EvDatagram sample_clock sample_request_data (sample_addr 6))
  = Ok (sample_after, []).
Proof.
  destruct sample_first_step as [effects Hs].
  exact (forwarded_at_most_once (sample_key 7) sample_relay_state sample_clock sample_request_data (sample_addr 5)
    sample_request sample_trace _ (sample_addr 6) sample_after effects [] sample_after [] sample_clock
    sample_request_data (sample_addr 6) sample_request (sample_key_ok 7 ltac:(lia)) sample_relay_inv
    sample_request_bytes (Forall_nil_2 _) sample_request_bytes sample_request_decodes sample_request_forwards
    Hs eq_refl ltac:(vm_compute; reflexivity) sample_request_decodes eq_refl eq_refl eq_refl).
Defined.

Lemma mesh_node_bounded_witness :
  ∃ s effects, mesh_run (sample_key 7) (mesh_new (sample_key 7) (Types.mkClock 1000 0) [] false)
    [EvDatagram sample_clock sample_request_data (sample_addr 5); EvMaintenance 0 0] = Ok (s, effects) ∧
  Z.of_nat (size (ms_reverse_routes s)) ≤ 65536.
Proof.
  destruct (mesh_node_bounded (sample_key 7) (Types.mkClock 1000 0) [] false
    [EvDatagram sample_clock sample_request_data (sample_addr 5); EvMaintenance 0 0]
    (sample_key_ok 7 ltac:(lia)) ltac:(by vm_compute)
    (Forall_cons_2 event_ok (EvDatagram sample_clock sample_request_data (sample_addr 5)) _ sample_request_bytes
       (Forall_cons_2 event_ok (EvMaintenance 0 0) [] I (Forall_nil_2 _))))
    as (s & effects & Hr & _ & _ & _ & Hb & _).
  exists s, effects. split; [exact Hr|exact Hb].
Defined.

(** Node 5 announces its echo capability to node 7. *)
Definition sample_announcement : Frame :=
  signed (sample_key 5) (create_announcement 1000
    (Announce.register_capability (AnnouncementManager_new (Types.mkClock 1000 0) (sample_key 5))
       (AnnouncedCapability_new (capability_hash (str "echo")) (replicate 4 0))) 3).2.
Definition sample_announcement_data : list Z := Eval vm_compute in wire sample_announcement.
Lemma sample_announcement_bytes : bytes_ok sample_announcement_data.
Proof. apply (bool_decide_unpack _). vm_compute. exact I. Qed.
Lemma sample_announcement_decodes : decode_verified_frame sample_announcement_data = Ok (Some sample_announcement).
Proof. vm_compute. reflexivity. Qed.
Lemma sample_announcement_claim : announce_claim 1000 sample_relay_state sample_announcement = Some (sample_id 5).
Proof. vm_compute. reflexivity. Qed.
Lemma sample_announcement_local : for_another (sample_id 7) sample_announcement = false.
Proof. reflexivity. Qed.

Lemma announcement_handling_witness :
  ∃ s' effects, handle_axiom_frame sample_clock (sample_key 7) sample_relay_state sample_announcement (sample_addr 5)
    = Ok (s', effects) ∧ same_network sample_relay_state s' ∧
  (∀ h c, (sample_id 6, c) ∈ entries_of (ms_router s') h ↔ (sample_id 6, c) ∈ entries_of (ms_router sample_relay_state) h).
Proof.
  pose proof (announcement_handling sample_clock (sample_key 7) sample_relay_state sample_announcement_data
    sample_announcement (sample_addr 5) (sample_key_ok 7 ltac:(lia)) sample_relay_inv sample_announcement_bytes
    sample_announcement_decodes sample_announcement_local eq_refl) as (s' & effects & Eh & Hn & Hc).
  exists s', effects. split; [exact Eh|]. split; [exact Hn|].
  change (hk_wall sample_clock) with 1000 in Hc. rewrite sample_announcement_claim in Hc.
  destruct Hc as (_ & Ho & _). apply Ho. vm_compute. discriminate.
Defined.

(** Node 6 answers node 5 directly. *)
Definition sample_answer : Frame :=
  signed (sample_key 6) (simple_frame (sample_key 6) FFulfill sample_trace (capability_hash (str "echo")) [1; 2; 3] None).
Definition sample_answer_data : list Z := Eval vm_compute in wire sample_answer.
Lemma sample_answer_bytes : bytes_ok sample_answer_data.
Proof. apply (bool_decide_unpack _). vm_compute. exact I. Qed.
Lemma sample_answer_decodes : decode_verified_frame sample_answer_data = Ok (Some sample_answer).
Proof. vm_compute. reflexivity. Qed.
Lemma reply_matching_witness :
  handle_axiom_frame sample_clock (sample_key 5) sample_requester sample_answer (sample_addr 6)
  = Ok (upd_pending_intents sample_requester (delete sample_trace (ms_pending_intents sample_requester)),
        [ResolveIntent sample_trace (inl [1; 2; 3])]).
Proof.
  pose proof (reply_matching sample_clock (sample_key 5) sample_requester sample_answer_data sample_answer
    (sample_addr 6) sample_answer_bytes sample_answer_decodes eq_refl) as [Hm _].
  destruct (Hm sample_trace eq_refl) as (_ & Hf & _). rewrite (Hf eq_refl). reflexivity.
Defined.
