(* ===== verification/Bootstrap.v ===== *)
(** * Joining the mesh (axiom-router/src/bootstrap.rs)

    The payloads of JOIN and LEAVE frames and the manager that keeps the peers a node
    knows: joining through a bootstrap node, leaving, pings and clean-up.  Instants are
    arguments; the order in which the peer map is walked is a parameter. *)

From stdpp Require Import base numbers list gmap.
From S2P Require Import Prelude Types Router Mesh.

(** ** Payloads *)

(** [chunks_exact(16)] of a slice whose length is a multiple of sixteen. *)
Fixpoint chunks16 (n : nat) (data : list Z) : list IntentHash :=
  match n with
  | O => []
  | S n' => take 16 data :: chunks16 n' (drop 16 data)
  end.

Record JoinRequest := mkJoin { jr_node_id : NodeId; protocol_version : Z; jr_capabilities : list IntentHash }.
Definition JoinRequest_encode (r : JoinRequest) : list Z :=
  jr_node_id r ++ to_be 2 (protocol_version r) ++ concat (jr_capabilities r).
Definition JoinRequest_decode (data : list Z) : option JoinRequest :=
  if len data <? 34 then None
  else
    let cap_data := drop 34 data in
    if negb (len cap_data mod 16 =? 0) then None
    else Some (mkJoin (at_slice data 0 32) (from_be (at_slice data 32 34)) (chunks16 (Z.to_nat (len cap_data / 16)) cap_data)).

(** [Ipv6Addr::octets] and [Ipv6Addr::from]. *)
Definition v6_octets (segments : list Z) : list Z := flat_map (to_be 2) segments.
Fixpoint v6_segments (n : nat) (octets : list Z) : list Z :=
  match n with
  | O => []
  | S n' => from_be (take 2 octets) :: v6_segments n' (drop 2 octets)
  end.

Definition addr_bytes (a : SocketAddr) : list Z :=
  match a with
  | SockV4 octets port => 4 :: octets ++ to_be 2 port
  | SockV6 segments port _ _ => 6 :: v6_octets segments ++ to_be 2 port
  end.
Record JoinResponse := mkJoinResponse { accepted : bool; jp_node_id : NodeId; jp_known_peers : list (NodeId * SocketAddr) }.
(** Link-local addresses stay at home. *)
Definition JoinResponse_encode (r : JoinResponse) : list Z :=
  [if accepted r then 1 else 0] ++ jp_node_id r
  ++ flat_map (λ p, if is_link_local_v6 p.2 then [] else p.1 ++ addr_bytes p.2) (jp_known_peers r).
(** The address at the front of [rest], and what follows it. *)
Definition decode_addr (ip_version : Z) (rest : list Z) : option (SocketAddr * list Z) :=
  if (ip_version =? 4) && (6 <=? len rest) then Some (SockV4 (at_slice rest 0 4) (from_be (at_slice rest 4 6)), drop 6 rest)
  else if (ip_version =? 6) && (18 <=? len rest) then
    Some (SockV6 (v6_segments 8 (at_slice rest 0 16)) (from_be (at_slice rest 16 18)) 0 0, drop 18 rest)
  else None.
(** The loop over the entries; each takes at least 39 bytes, so the length of the input is fuel enough. *)
Fixpoint decode_known (fuel : nat) (rest : list Z) : list (NodeId * SocketAddr) :=
  match fuel with
  | O => []
  | S fuel' =>
      if len rest <? 33 then []
      else
        match decode_addr (at_byte rest 32) (drop 33 rest) with
        | Some (a, rest') => (at_slice rest 0 32, a) :: decode_known fuel' rest'
        | None => []
        end
  end.
Definition JoinResponse_decode (data : list Z) : option JoinResponse :=
  if len data <? 33 then None
  else Some (mkJoinResponse (at_byte data 0 =? 1) (at_slice data 1 33) (decode_known (length data) (drop 33 data))).

Inductive LeaveReason := LR_Shutdown | LR_Restart | LR_Maintenance | LR_Unknown.
Definition LeaveReason_to_u8 (r : LeaveReason) : Z := match r with LR_Shutdown => 0 | LR_Restart => 1 | LR_Maintenance => 2 | LR_Unknown => 255 end.
Record LeaveNotification := mkLeave { ln_node_id : NodeId; ln_reason : LeaveReason }.
Definition LeaveNotification_encode (n : LeaveNotification) : list Z := ln_node_id n ++ [LeaveReason_to_u8 (ln_reason n)].
Definition LeaveNotification_decode (data : list Z) : option LeaveNotification :=
  if len data <? 33 then None
  else Some (mkLeave (at_slice data 0 32)
    (match at_byte data 32 with 0 => LR_Shutdown | 1 => LR_Restart | 2 => LR_Maintenance | _ => LR_Unknown end)).

(** ** The manager *)

Inductive PeerState := PS_Discovered | PS_Connecting | PS_Connected | PS_Reconnecting | PS_Left | PS_Dead.
#[export] Instance PeerState_eq_dec : EqDecision PeerState.
Proof. solve_decision. Defined.
Record PeerInfo := mkPeerInfo {
  bp_node_id : NodeId; bp_addr : SocketAddr; bp_state : PeerState; bp_trust : TrustLevel; bp_last_seen : Z;
  rtt_us : Z; failed_pings : Z; bp_capabilities : list IntentHash
}.
Definition bp_set_state (p : PeerInfo) (s : PeerState) : PeerInfo :=
  mkPeerInfo (bp_node_id p) (bp_addr p) s (bp_trust p) (bp_last_seen p) (rtt_us p) (failed_pings p) (bp_capabilities p).

(** Durations in milliseconds; the bootstrap nodes are only carried. *)
Record BootstrapNode := mkBootstrapNode { bn_node_id : NodeId; bn_addr : SocketAddr; bn_priority : Z; reachable : bool }.
Record BootstrapConfig := mkBootstrapConfig {
  bootstrap_nodes : list BootstrapNode; bc_max_peers : Z; health_check_interval_ms : Z; max_failed_checks : Z;
  handshake_timeout_ms : Z; announce_interval_ms : Z
}.
Definition BootstrapConfig_default : BootstrapConfig := mkBootstrapConfig [] 64 5000 3 3000 30000.

Inductive BootstrapState := BS_Init | BS_Bootstrapping | BS_Joined | BS_Failed.
Record MeshStats := mkMeshStats { peers_discovered : Z; peers_connected : Z; joins_sent : Z; joins_received : Z; leaves_sent : Z }.
Definition MeshStats_default : MeshStats := mkMeshStats 0 0 0 0 0.
Definition count_discovered (s : MeshStats) : MeshStats :=
  mkMeshStats (u64_add (peers_discovered s) 1) (peers_connected s) (joins_sent s) (joins_received s) (leaves_sent s).
Definition count_connected (s : MeshStats) : MeshStats :=
  mkMeshStats (peers_discovered s) (u64_add (peers_connected s) 1) (joins_sent s) (joins_received s) (leaves_sent s).
Definition uncount_connected (s : MeshStats) : MeshStats :=
  mkMeshStats (peers_discovered s) (u64_saturating_sub (peers_connected s) 1) (joins_sent s) (joins_received s) (leaves_sent s).
Definition count_join (s : MeshStats) : MeshStats :=
  mkMeshStats (peers_discovered s) (peers_connected s) (joins_sent s) (u64_add (joins_received s) 1) (leaves_sent s).
Definition count_leave (s : MeshStats) : MeshStats :=
  mkMeshStats (peers_discovered s) (peers_connected s) (joins_sent s) (joins_received s) (u64_add (leaves_sent s) 1).

Record MeshManager := mkMesh {
  bm_local_id : NodeId; bm_config : BootstrapConfig; bm_peers : gmap NodeId PeerInfo; addr_to_node : gmap SocketAddr NodeId;
  bm_clock : ClockManager; bootstrap_state : BootstrapState; bm_stats : MeshStats
}.
Definition MeshManager_new (id : NodeId) (c : BootstrapConfig) (now : HybridClock) : MeshManager :=
  mkMesh id c ∅ ∅ (ClockManager_with_clock now) BS_Init MeshStats_default.
Definition bm_set_clock (m : MeshManager) (c : ClockManager) : MeshManager :=
  mkMesh (bm_local_id m) (bm_config m) (bm_peers m) (addr_to_node m) c (bootstrap_state m) (bm_stats m).
Definition bm_set_stats (m : MeshManager) (s : MeshStats) : MeshManager :=
  mkMesh (bm_local_id m) (bm_config m) (bm_peers m) (addr_to_node m) (bm_clock m) (bootstrap_state m) s.
Definition bm_set_peers (m : MeshManager) (ps : gmap NodeId PeerInfo) (s : MeshStats) : MeshManager :=
  mkMesh (bm_local_id m) (bm_config m) ps (addr_to_node m) (bm_clock m) (bootstrap_state m) s.
Definition bm_set_joined (m : MeshManager) : MeshManager :=
  mkMesh (bm_local_id m) (bm_config m) (bm_peers m) (addr_to_node m) (bm_clock m) BS_Joined (bm_stats m).
Definition bm_add (m : MeshManager) (p : PeerInfo) : MeshManager :=
  mkMesh (bm_local_id m) (bm_config m) (<[bp_node_id p := p]> (bm_peers m)) (<[bp_addr p := bp_node_id p]> (addr_to_node m))
    (bm_clock m) (bootstrap_state m) (bm_stats m).

(** A frame of type [ft] at trust level Sig, stamped with a tick of the clock. *)
Definition bm_frame (m : MeshManager) (ft : FrameType) (body : list Z) : MeshManager * Frame :=
  let '(cm, c) := ClockManager_tick (bm_clock m) in
  (bm_set_clock m cm, Frame_new (with_clock (with_trust_level (FrameHeader_new ft (bm_local_id m)) Sig) c) PRaw body).
Definition create_join_request (m : MeshManager) (caps : list IntentHash) : MeshManager * Frame :=
  bm_frame m FJoin (JoinRequest_encode (mkJoin (bm_local_id m) 1 caps)).
Definition create_leave_notification (m : MeshManager) (reason : LeaveReason) : MeshManager * Frame :=
  let '(m, f) := bm_frame m FLeave (LeaveNotification_encode (mkLeave (bm_local_id m) reason)) in
  (bm_set_stats m (count_leave (bm_stats m)), f).

Section Walk.
Context (walk : gmap NodeId PeerInfo → list (NodeId * PeerInfo)).

Definition is_connected (p : PeerInfo) : bool := bool_decide (bp_state p = PS_Connected).
Definition connected_peers (m : MeshManager) : list PeerInfo := filter is_connected (walk (bm_peers m)).*2.
Definition connected_count (m : MeshManager) : nat := length (connected_peers m).
Definition create_join_response (m : MeshManager) (ok : bool) (max_peers : nat) : MeshManager * Frame :=
  bm_frame m FJoin (JoinResponse_encode
    (mkJoinResponse ok (bm_local_id m) ((λ p, (bp_node_id p, bp_addr p)) <$> take max_peers (connected_peers m)))).

Definition process_join_request (now : Z) (m : MeshManager) (f : Frame) (from : SocketAddr) : MeshManager * option Frame :=
  match JoinRequest_decode (payload f) with
  | None => (m, None)
  | Some r =>
      let m := bm_set_stats m (count_join (bm_stats m)) in
      let accept := Z.of_nat (size (bm_peers m)) <? bc_max_peers (bm_config m) in
      let m :=
        if accept then
          let m := bm_add m (mkPeerInfo (jr_node_id r) from PS_Connected (trust_level (header f)) now 0 0 (jr_capabilities r)) in
          bm_set_stats m (count_connected (count_discovered (bm_stats m)))
        else m in
      let '(m, f) := create_join_response m accept 10 in (m, Some f)
  end.

(** One of the peers an accepting node tells about. *)
Definition queue_known (now : Z) (m : MeshManager) (p : NodeId * SocketAddr) : MeshManager :=
  if bool_decide (is_Some (bm_peers m !! p.1)) || bool_decide (p.1 = bm_local_id m) then m
  else
    let m := bm_add m (mkPeerInfo p.1 p.2 PS_Discovered Raw now 0 0 []) in
    bm_set_stats m (count_discovered (bm_stats m)).
Definition process_join_response (now : Z) (m : MeshManager) (f : Frame) (from : SocketAddr) : MeshManager * bool :=
  match JoinResponse_decode (payload f) with
  | None => (m, false)
  | Some r =>
      if accepted r then
        let m := bm_add m (mkPeerInfo (jp_node_id r) from PS_Connected (trust_level (header f)) now 0 0 []) in
        let m := bm_set_stats m (count_connected (bm_stats m)) in
        (bm_set_joined (foldl (queue_known now) m (jp_known_peers r)), true)
      else (m, false)
  end.

Definition process_leave (m : MeshManager) (f : Frame) : MeshManager :=
  match LeaveNotification_decode (payload f) with
  | None => m
  | Some n =>
      match bm_peers m !! ln_node_id n with
      | None => m
      | Some p => bm_set_peers m (<[ln_node_id n := bp_set_state p PS_Left]> (bm_peers m)) (uncount_connected (bm_stats m))
      end
  end.

Definition get_peers_to_connect (m : MeshManager) : list (NodeId * SocketAddr) :=
  (λ kp, (kp.1, bp_addr kp.2)) <$> filter (λ kp, bp_state kp.2 = PS_Discovered) (walk (bm_peers m)).
Definition get_peer_by_addr (m : MeshManager) (a : SocketAddr) : option PeerInfo :=
  addr_to_node m !! a ≫= λ id, bm_peers m !! id.

Definition update_peer_state (m : MeshManager) (id : NodeId) (s : PeerState) : MeshManager :=
  match bm_peers m !! id with
  | None => m
  | Some p =>
      let was_connected := bool_decide (bp_state p = PS_Connected) in
      let now_connected := bool_decide (s = PS_Connected) in
      bm_set_peers m (<[id := bp_set_state p s]> (bm_peers m))
        (if was_connected && negb now_connected then uncount_connected (bm_stats m)
         else if negb was_connected && now_connected then count_connected (bm_stats m)
         else bm_stats m)
  end.

(** [(rtt_us * 7 + rtt) / 8] on [u32]. *)
Definition rtt_average (old rtt : Z) : Z := ((old * 7 mod 2 ^ 32 + rtt) mod 2 ^ 32) / 8.
Definition record_peer_activity (now : Z) (m : MeshManager) (id : NodeId) (rtt : option Z) : MeshManager :=
  match bm_peers m !! id with
  | None => m
  | Some p =>
      bm_set_peers m (<[id := mkPeerInfo (bp_node_id p) (bp_addr p) (bp_state p) (bp_trust p) now
        (match rtt with Some r => rtt_average (rtt_us p) r | None => rtt_us p end) 0 (bp_capabilities p)]> (bm_peers m)) (bm_stats m)
  end.
Definition record_failed_ping (m : MeshManager) (id : NodeId) : MeshManager :=
  match bm_peers m !! id with
  | None => m
  | Some p =>
      let n := (failed_pings p + 1) mod 2 ^ 32 in
      let p := mkPeerInfo (bp_node_id p) (bp_addr p) (bp_state p) (bp_trust p) (bp_last_seen p) (rtt_us p) n (bp_capabilities p) in
      if max_failed_checks (bm_config m) <=? n then
        bm_set_peers m (<[id := bp_set_state p PS_Dead]> (bm_peers m)) (uncount_connected (bm_stats m))
      else bm_set_peers m (<[id := p]> (bm_peers m)) (bm_stats m)
  end.
(** Instants in milliseconds. *)
Definition get_peers_for_health_check (now : Z) (m : MeshManager) : list NodeId :=
  (filter (λ kp, bp_state kp.2 = PS_Connected ∧ health_check_interval_ms (bm_config m) < now - bp_last_seen kp.2) (walk (bm_peers m))).*1.

Definition gone (p : PeerInfo) : bool := bool_decide (bp_state p = PS_Dead ∨ bp_state p = PS_Left).
Definition drop_peer (m : MeshManager) (p : NodeId * SocketAddr) : MeshManager :=
  mkMesh (bm_local_id m) (bm_config m) (delete p.1 (bm_peers m)) (delete p.2 (addr_to_node m)) (bm_clock m) (bootstrap_state m) (bm_stats m).
Definition cleanup_dead_peers (m : MeshManager) : MeshManager :=
  foldl drop_peer m ((λ kp, (kp.1, bp_addr kp.2)) <$> filter (λ kp, gone kp.2) (walk (bm_peers m))).
End Walk.

(** ** The payloads come back *)

Lemma at_slice_head m s b : b = length m → at_slice (m ++ s) 0 b = m.
Proof. by apply (at_slice_app [] m). Qed.
Lemma chunks16_concat caps rest : Forall (array_ok 16) caps → chunks16 (length caps) (concat caps ++ rest) = caps.
Proof.
  induction 1 as [|c caps [Hc _] _ IH]; [done|]. cbn. rewrite <- (assoc_L (++)).
  by rewrite take_app_length', drop_app_length', IH by done.
Qed.
Lemma len_concat16 caps : Forall (array_ok 16) caps → len (concat caps) = 16 * len caps.
Proof. induction 1 as [|c caps Hc _ IH]; [done|]. cbn. rewrite len_app, IH, (len_array 16 c Hc), len_cons. lia. Qed.
Lemma concat_chunks16 n : ∀ data, length data = (16 * n)%nat → concat (chunks16 n data) = data.
Proof.
  induction n as [|n IH]; intros data Hl; cbn [chunks16 concat]; [by destruct data|].
  rewrite IH by (rewrite length_drop; lia). apply take_drop.
Qed.

Definition join_ok (r : JoinRequest) : Prop :=
  array_ok 32 (jr_node_id r) ∧ 0 ≤ protocol_version r < 2 ^ 16 ∧ Forall (array_ok 16) (jr_capabilities r).
Lemma join_request_roundtrip r : join_ok r → JoinRequest_decode (JoinRequest_encode r) = Some r.
Proof.
  intros (Hid & Hv & Hc). pose proof (len_array _ _ Hid) as Hl. pose proof (len_concat16 _ Hc) as Hlc.
  assert (Hn : length (jr_node_id r) = 32%nat) by apply Hid.
  assert (Hd : drop 34 (JoinRequest_encode r) = concat (jr_capabilities r)).
  { unfold JoinRequest_encode. rewrite (assoc_L (++)). apply drop_app_length'. rewrite length_app, length_to_be. lia. }
  unfold JoinRequest_decode. rewrite (proj2 (Z.ltb_ge _ _)) by (unfold JoinRequest_encode; pose proof (len_nonneg (concat (jr_capabilities r))); solve_len).
  rewrite Hd, Hlc, (Z.mul_comm 16), Z.mod_mul, Z.div_mul by lia. cbn [negb Z.eqb]. unfold JoinRequest_encode.
  rewrite (at_slice_head (jr_node_id r)) by (by rewrite ?Hn).
  rewrite (at_slice_app (jr_node_id r) (to_be 2 _)) by (rewrite ?length_to_be, Hn; done).
  rewrite from_be_to_be by lia. unfold len. rewrite Nat2Z.id. rewrite <- (app_nil_r (concat _)), chunks16_concat by done. by destruct r.
Qed.
Lemma join_request_canonical data r : bytes_ok data → JoinRequest_decode data = Some r → JoinRequest_encode r = data.
Proof.
  unfold JoinRequest_decode. intros Hb E. destruct (Z.ltb_spec (len data) 34); [done|].
  destruct (Z.eqb_spec (len (drop 34 data) mod 16) 0) as [Hm|]; [|done]. injection E as <-. unfold JoinRequest_encode. cbn [jr_node_id protocol_version jr_capabilities].
  rewrite concat_chunks16.
  2: { pose proof (Z.div_mod (len (drop 34 data)) 16 ltac:(lia)). pose proof (len_nonneg (drop 34 data)). unfold len in *. lia. }
  assert (Hs : array_ok 2 (at_slice data 32 34)) by (apply at_slice_array; [done|unfold len in *; lia|done]).
  replace (to_be 2 (from_be (at_slice data 32 34))) with (at_slice data 32 34).
  2: { rewrite <- (to_be_from_be (at_slice data 32 34)) at 1 by apply Hs. by rewrite (proj1 Hs). }
  unfold at_slice. rewrite drop_0. change (34 - 32)%nat with 2%nat. change (32 - 0)%nat with 32%nat.
  replace (drop 34 data) with (drop 2 (drop 32 data)) by (by rewrite drop_drop). by rewrite !take_drop.
Qed.

(** An address that can be sent, and what arrives of it. *)
Definition addr_ok (a : SocketAddr) : Prop :=
  match a with
  | SockV4 o p => array_ok 4 o ∧ 0 ≤ p < 2 ^ 16
  | SockV6 s p _ _ => length s = 8%nat ∧ Forall (λ x, 0 ≤ x < 2 ^ 16) s ∧ 0 ≤ p < 2 ^ 16
  end.
Definition unscoped (a : SocketAddr) : SocketAddr := match a with SockV6 s p _ _ => SockV6 s p 0 0 | a => a end.
Lemma v6_segments_octets s rest : Forall (λ x, 0 ≤ x < 2 ^ 16) s → v6_segments (length s) (v6_octets s ++ rest) = s.
Proof.
  induction 1 as [|x s Hx _ IH]; [done|]. unfold v6_octets in *. cbn [flat_map length v6_segments]. rewrite <- (assoc_L (++)).
  rewrite take_app_length', drop_app_length', IH, from_be_to_be by (rewrite ?length_to_be; done). done.
Qed.
Lemma length_v6_octets s : length (v6_octets s) = (2 * length s)%nat.
Proof. unfold v6_octets. induction s as [|x s IH]; [done|]. cbn [flat_map length]. rewrite length_app, IH, length_to_be. lia. Qed.
Lemma decode_addr_bytes a rest : addr_ok a →
  ∃ v body, addr_bytes a = v :: body ∧ decode_addr v (body ++ rest) = Some (unscoped a, rest).
Proof.
  destruct a as [o p|s p fl sc]; cbn [addr_ok addr_bytes unscoped].
  - intros [[Ho _] Hp]. eexists _, _. split; [done|]. unfold decode_addr. cbn [Z.eqb Pos.eqb andb].
    rewrite (proj2 (Z.leb_le _ _)) by (pose proof (len_nonneg rest); unfold len in *; rewrite !length_app, length_to_be, Ho; lia).
    rewrite <- (assoc_L (++)). rewrite (at_slice_head o) by (by rewrite ?Ho). rewrite (at_slice_app o) by (rewrite ?length_to_be, Ho; done).
    rewrite from_be_to_be by lia. rewrite (assoc_L (++)), drop_app_length' by (rewrite length_app, length_to_be, Ho; done). done.
  - intros (Hs & Hb & Hp). eexists _, _. split; [done|]. unfold decode_addr. cbn [Z.eqb Pos.eqb andb].
    pose proof (length_v6_octets s) as Hl. rewrite Hs in Hl.
    rewrite (proj2 (Z.leb_le _ _)) by (pose proof (len_nonneg rest); unfold len in *; rewrite !length_app, length_to_be, Hl; lia).
    rewrite <- (assoc_L (++)). rewrite (at_slice_head (v6_octets s)) by (by rewrite ?Hl).
    rewrite (at_slice_app (v6_octets s)) by (rewrite ?length_to_be, Hl; done).
    rewrite from_be_to_be by lia. rewrite (assoc_L (++)), drop_app_length' by (rewrite length_app, length_to_be, Hl; done).
    pose proof (v6_segments_octets s [] Hb) as Hv. rewrite Hs, app_nil_r in Hv. by rewrite Hv.
Qed.
Definition sent (ps : list (NodeId * SocketAddr)) : list (NodeId * SocketAddr) :=
  (λ p, (p.1, unscoped p.2)) <$> filter (λ p, is_link_local_v6 p.2 = false) ps.
Definition peer_ok (p : NodeId * SocketAddr) : Prop := length p.1 = 32%nat ∧ addr_ok p.2.
Lemma decode_known_encode ps : ∀ fuel, Forall peer_ok ps →
  (length (flat_map (λ p, if is_link_local_v6 p.2 then [] else p.1 ++ addr_bytes p.2) ps) < fuel)%nat →
  decode_known fuel (flat_map (λ p, if is_link_local_v6 p.2 then [] else p.1 ++ addr_bytes p.2) ps) = sent ps.
Proof.
  induction ps as [|[id a] ps IH]; intros fuel Hok Hf; [by destruct fuel|].
  apply Forall_cons in Hok as [[Hid Ha] Hok]. unfold sent. cbn [flat_map fst snd] in *. rewrite filter_cons. cbn [fst snd] in *.
  destruct (is_link_local_v6 a) eqn:El; [rewrite decide_False by done; by apply IH|]. rewrite decide_True by done. cbn [fmap list_fmap fst snd].
  destruct (decode_addr_bytes a (flat_map (λ p, if is_link_local_v6 p.2 then [] else p.1 ++ addr_bytes p.2) ps) Ha) as (v & body & Eb & Ed).
  rewrite !length_app, Eb in Hf. cbn [length] in Hf. destruct fuel as [|fuel]; [lia|]. cbn [decode_known]. rewrite Eb.
  rewrite <- (assoc_L (++)). cbn [app]. rewrite (proj2 (Z.ltb_ge _ _)).
  2: { unfold len. rewrite length_app, Hid. cbn [length]. lia. }
  rewrite at_byte_app by done. rewrite (at_slice_head id) by (by rewrite ?Hid).
  replace (drop 33 _) with (body ++ flat_map (λ p, if is_link_local_v6 p.2 then [] else p.1 ++ addr_bytes p.2) ps).
  2: { change 33%nat with (32 + 1)%nat. rewrite <- drop_drop. by rewrite drop_app_length' by done. }
  rewrite Ed. rewrite IH by (done || lia). done.
Qed.
Lemma join_response_roundtrip r : length (jp_node_id r) = 32%nat → Forall peer_ok (jp_known_peers r) →
  JoinResponse_decode (JoinResponse_encode r) = Some (mkJoinResponse (accepted r) (jp_node_id r) (sent (jp_known_peers r))).
Proof.
  intros Hid Hok. unfold JoinResponse_decode, JoinResponse_encode.
  rewrite (proj2 (Z.ltb_ge _ _)) by (unfold len; rewrite !length_app, Hid; cbn [length]; lia).
  rewrite (at_slice_app [_] (jp_node_id r)) by (rewrite ?Hid; done).
  rewrite (assoc_L (++)), drop_app_length' by (by rewrite length_app, Hid).
  rewrite decode_known_encode by (rewrite ?length_app; cbn [length]; done || lia). by destruct (accepted r).
Qed.
Lemma leave_roundtrip n : length (ln_node_id n) = 32%nat → LeaveNotification_decode (LeaveNotification_encode n) = Some n.
Proof.
  intros Hid. unfold LeaveNotification_decode, LeaveNotification_encode.
  rewrite (proj2 (Z.ltb_ge _ _)) by (unfold len; rewrite length_app, Hid; done).
  rewrite (at_slice_head (ln_node_id n)) by (by rewrite ?Hid). rewrite at_byte_app by done. by destruct n as [? []].
Qed.

(** ** The manager's table *)

Record bm_ok (m : MeshManager) : Prop := {
  bmo_local : array_ok 32 (bm_local_id m);
  bmo_peer id p : bm_peers m !! id = Some p → bp_node_id p = id ∧ length id = 32%nat ∧ addr_ok (bp_addr p)
}.
Inductive bm_step (walk : gmap NodeId PeerInfo → list (NodeId * PeerInfo)) : MeshManager → MeshManager → Prop :=
  | BmS_request m caps : bm_step walk m (create_join_request m caps).1
  | BmS_leaving m r : bm_step walk m (create_leave_notification m r).1
  | BmS_join now m f from : bytes_ok (payload f) → addr_ok from → bm_step walk m (process_join_request walk now m f from).1
  | BmS_response now m f from : bytes_ok (payload f) → addr_ok from → bm_step walk m (process_join_response now m f from).1
  | BmS_leave m f : bm_step walk m (process_leave m f)
  | BmS_state m id s : bm_step walk m (update_peer_state m id s)
  | BmS_activity now m id rtt : bm_step walk m (record_peer_activity now m id rtt)
  | BmS_failed m id : bm_step walk m (record_failed_ping m id)
  | BmS_cleanup m : bm_step walk m (cleanup_dead_peers walk m).

Lemma v6_segments_ok n : ∀ o, bytes_ok o → length o = (2 * n)%nat →
  length (v6_segments n o) = n ∧ Forall (λ x, 0 ≤ x < 2 ^ 16) (v6_segments n o).
Proof.
  induction n as [|n IH]; intros o Hb Hl; cbn [v6_segments length]; [done|].
  destruct (IH (drop 2 o)) as [E F]; [by apply Forall_drop|rewrite length_drop; lia|]. split; [by rewrite E|]. constructor; [|done].
  pose proof (from_be_bound (take 2 o) ltac:(by apply Forall_take)) as Hf. unfold len in Hf. rewrite length_take in Hf.
  replace (8 * Z.of_nat (2 `min` length o)) with 16 in Hf by lia. done.
Qed.
Lemma port_ok data a b : bytes_ok data → (b - a = 2)%nat → (b <= length data)%nat → 0 ≤ from_be (at_slice data a b) < 2 ^ 16.
Proof.
  intros Hd Hab Hl. destruct (at_slice_array data a b 2 Hd Hl ltac:(lia)) as [Hs Hs'].
  pose proof (from_be_bound _ Hs') as Hf. unfold len in Hf. by rewrite Hs in Hf.
Qed.
Lemma decode_addr_ok v rest a rest' : bytes_ok rest → decode_addr v rest = Some (a, rest') → addr_ok a ∧ bytes_ok rest'.
Proof.
  unfold decode_addr, len. intros Hb E. destruct (Z.leb_spec 6 (Z.of_nat (length rest))), (Z.leb_spec 18 (Z.of_nat (length rest))); try lia;
    destruct (v =? 4); cbn [andb] in E; try (destruct (v =? 6); cbn [andb] in E); try done; injection E as <- <-;
    (split; [|by apply Forall_drop]); cbn [addr_ok]; try (split; [apply at_slice_array; (done || lia)|apply port_ok; (done || lia)]).
  destruct (at_slice_array rest 0 16 16 Hb ltac:(lia) eq_refl) as [Hs Hs']. destruct (v6_segments_ok 8 _ Hs' Hs) as [E1 E2].
  split_and!; [done|done|apply port_ok; (done || lia)..].
Qed.
Lemma decode_known_ok fuel : ∀ rest, bytes_ok rest → Forall peer_ok (decode_known fuel rest).
Proof.
  induction fuel as [|fuel IH]; intros rest Hb; cbn [decode_known]; [done|]. destruct (Z.ltb_spec (len rest) 33) as [|Hl]; [done|].
  destruct (decode_addr _ _) as [[a rest']|] eqn:E; [|done]. destruct (decode_addr_ok _ _ _ _ (Forall_drop _ _ _ Hb) E) as [Ha Hr].
  constructor; [|by apply IH]. split; [|done]. apply (at_slice_array rest 0 32 32); [done|unfold len in Hl; lia|done].
Qed.
Lemma bm_ok_same m m' : bm_local_id m' = bm_local_id m → bm_peers m' = bm_peers m → bm_ok m → bm_ok m'.
Proof. intros E1 E2 [Hl Hp]. split; [by rewrite E1|]. intros id p. rewrite E2. apply Hp. Qed.
Lemma bm_add_ok m p : bm_ok m → length (bp_node_id p) = 32%nat → addr_ok (bp_addr p) → bm_ok (bm_add m p).
Proof.
  intros [Hl Hp] Hid Ha. split; [done|]. cbn. intros id q [[<- <-]|[_ Hq]]%lookup_insert_Some; [done|by apply Hp].
Qed.
Lemma queue_known_ok now ps : ∀ m, bm_ok m → Forall peer_ok ps → bm_ok (foldl (queue_known now) m ps).
Proof.
  induction ps as [|p ps IH]; intros m Hm Hps; cbn [foldl]; [done|]. apply Forall_cons in Hps as [[? ?] ?]. apply IH; [|done].
  unfold queue_known. destruct (_ || _); [done|]. by apply (bm_ok_same (bm_add m (mkPeerInfo p.1 p.2 PS_Discovered Raw now 0 0 []))), bm_add_ok.
Qed.
(** Replacing an entry by one of the same identity and address. *)
Lemma bm_update_ok m id p p' s : bm_ok m → bm_peers m !! id = Some p → bp_node_id p' = bp_node_id p → bp_addr p' = bp_addr p →
  bm_ok (bm_set_peers m (<[id := p']> (bm_peers m)) s).
Proof.
  intros [Hl Hp] E E1 E2. split; [done|]. cbn. intros id' q [[<- <-]|[_ Hq]]%lookup_insert_Some; [|by apply Hp].
  rewrite E1, E2. by apply Hp.
Qed.
Lemma drop_peers_lookup ps : ∀ m id, bm_peers (foldl drop_peer m ps) !! id = if decide (id ∈ ps.*1) then None else bm_peers m !! id.
Proof.
  induction ps as [|p ps IH]; intros m id; cbn [foldl fmap list_fmap]; [by rewrite decide_False by apply not_elem_of_nil|].
  rewrite IH. cbn. destruct (decide (id = p.1)) as [->|Hne].
  - rewrite lookup_delete_eq. rewrite (decide_True (P := p.1 ∈ p.1 :: ps.*1)) by left. by case_decide.
  - rewrite lookup_delete_ne by done. destruct (decide (id ∈ ps.*1)) as [|Hn]; [by rewrite decide_True by (by right)|].
    rewrite decide_False; [done|]. by intros [?|?]%elem_of_cons.
Qed.

Section Reachable.
Context (walk : gmap NodeId PeerInfo → list (NodeId * PeerInfo)) (Hwalk : ∀ m, walk m ≡ₚ map_to_list m).

(** The clean-up drops exactly the peers that are dead or have left. *)
Lemma cleanup_exact m : bm_peers (cleanup_dead_peers walk m) = filter (λ kp, gone kp.2 = false) (bm_peers m).
Proof using Hwalk.
  apply map_eq. intros id. unfold cleanup_dead_peers. rewrite drop_peers_lookup, map_lookup_filter.
  assert (Hin : id ∈ ((λ kp, (kp.1, bp_addr kp.2)) <$> filter (λ kp, gone kp.2) (walk (bm_peers m))).*1 ↔ ∃ p, bm_peers m !! id = Some p ∧ gone p = true).
  { rewrite list_elem_of_fmap. split.
    - intros (x & -> & (kp & -> & [Hg Hk]%list_elem_of_filter)%list_elem_of_fmap). rewrite Hwalk in Hk. destruct kp as [k p].
      apply elem_of_map_to_list in Hk. exists p. split; [done|]. by apply Is_true_eq_true.
    - intros (p & Hp & Hg). exists (id, bp_addr p). split; [done|]. apply list_elem_of_fmap. exists (id, p). split; [done|].
      apply list_elem_of_filter. split; [by apply Is_true_eq_left|]. by rewrite Hwalk, elem_of_map_to_list. }
  case_decide as Hd.
  - apply Hin in Hd as (p & -> & Hg). cbn. by rewrite Hg.
  - destruct (bm_peers m !! id) as [p|] eqn:E; [|done]. cbn. destruct (gone p) eqn:Hg; [|done]. destruct Hd. apply Hin. by exists p.
Qed.
Lemma bm_step_ok m m' : bm_step walk m m' → bm_ok m → bm_ok m'.
Proof using Hwalk.
  destruct 1 as [m caps|m r|now m f from Hb Ha|now m f from Hb Ha|m f|m id s|now m id rtt|m id|m]; intros Hm.
  - by destruct Hm.
  - by destruct Hm.
  - unfold process_join_request, JoinRequest_decode. destruct (Z.ltb_spec (len (payload f)) 34); [done|]. destruct (negb _); [done|].
    destruct (_ <? _); cbn [fst create_join_response bm_frame ClockManager_tick]; [|by apply (bm_ok_same m)].
    eapply bm_ok_same; [| |apply (bm_add_ok m (mkPeerInfo (at_slice (payload f) 0 32) from PS_Connected (trust_level (header f)) now 0 0
      (chunks16 (Z.to_nat (len (drop 34 (payload f)) / 16)) (drop 34 (payload f)))))]; [done|done|done| |done].
    apply (at_slice_array (payload f) 0 32 32); [done|unfold len in *; lia|done].
  - unfold process_join_response, JoinResponse_decode. destruct (Z.ltb_spec (len (payload f)) 33); [done|]. cbn [accepted jp_node_id jp_known_peers].
    destruct (_ =? 1); [|done]. assert (Hid : length (at_slice (payload f) 1 33) = 32%nat).
    { apply (at_slice_array (payload f) 1 33 32); [done|unfold len in *; lia|done]. }
    cbn [fst]. eapply bm_ok_same; [| |apply queue_known_ok]; [done|done| |apply decode_known_ok; by apply Forall_drop].
    by eapply bm_ok_same; [| |apply (bm_add_ok m (mkPeerInfo (at_slice (payload f) 1 33) from PS_Connected (trust_level (header f)) now 0 0 []))].
  - unfold process_leave. destruct (LeaveNotification_decode _) as [n|]; [|done]. destruct (bm_peers m !! ln_node_id n) as [p|] eqn:E; [|done].
    by apply (bm_update_ok m _ p).
  - unfold update_peer_state. destruct (bm_peers m !! id) as [p|] eqn:E; [|done]. by apply (bm_update_ok m _ p).
  - unfold record_peer_activity. destruct (bm_peers m !! id) as [p|] eqn:E; [|done]. by apply (bm_update_ok m _ p).
  - unfold record_failed_ping. destruct (bm_peers m !! id) as [p|] eqn:E; [|done]. case_match; by apply (bm_update_ok m _ p).
  - destruct Hm as [Hl Hp]. split.
    + unfold cleanup_dead_peers. generalize ((λ kp : NodeId * PeerInfo, (kp.1, bp_addr kp.2)) <$> filter (λ kp, gone kp.2) (walk (bm_peers m))).
      intros ps. revert m Hl Hp. induction ps as [|p ps IH]; intros m Hl Hp; [done|]. cbn [foldl]. apply IH; [done|].
      intros id q Hq. cbn in Hq. apply lookup_delete_Some in Hq as [_ Hq]. by apply Hp.
    + intros id p. rewrite cleanup_exact. intros [Hq _]%map_lookup_filter_Some. by apply Hp.
Qed.
End Reachable.

(** ** A node joins *)

Definition discovered (now : Z) (id : NodeId) (a : SocketAddr) : PeerInfo := mkPeerInfo id a PS_Discovered Raw now 0 0 [].
(** The peers told about that were not known are added, the first address given for each. *)
Lemma queue_known_lookup now ps : ∀ m n, bm_peers (foldl (queue_known now) m ps) !! n =
  match bm_peers m !! n with
  | Some p => Some p
  | None => if decide (n = bm_local_id m) then None else discovered now n <$> (list_to_map ps : gmap NodeId SocketAddr) !! n
  end.
Proof.
  induction ps as [|[id a] ps IH]; intros m n; cbn [foldl list_to_map foldr].
  - rewrite lookup_empty. destruct (bm_peers m !! n); [done|]. by case_decide.
  - rewrite IH. unfold queue_known. cbn [fst snd uncurry]. destruct (bm_peers m !! id) as [q|] eqn:Eid.
    + rewrite bool_decide_true by (by eexists). cbn [orb]. destruct (bm_peers m !! n) as [|] eqn:En; [done|]. case_decide; [done|].
      rewrite lookup_insert_ne by congruence. done.
    + rewrite bool_decide_false by (by intros [? ?]). cbn [orb]. destruct (decide (id = bm_local_id m)) as [->|Hl].
      * rewrite bool_decide_true by done. destruct (bm_peers m !! n); [done|]. case_decide; [done|]. by rewrite lookup_insert_ne by done.
      * rewrite bool_decide_false by done. cbn. destruct (decide (id = n)) as [->|Hne].
        { rewrite !lookup_insert_eq, Eid. by rewrite decide_False by congruence. }
        rewrite !lookup_insert_ne by done. done.
Qed.
Lemma queue_known_same now ps : ∀ m, bm_local_id (foldl (queue_known now) m ps) = bm_local_id m ∧ bootstrap_state (foldl (queue_known now) m ps) = bootstrap_state m.
Proof.
  induction ps as [|p ps IH]; intros m; cbn [foldl]; [done|]. destruct (IH (queue_known now m p)) as [-> ->]. unfold queue_known. by destruct (_ || _).
Qed.
(** What an accepting node tells: at most ten of its connected peers. *)
Definition told_peers (walk : gmap NodeId PeerInfo → list (NodeId * PeerInfo)) (m : MeshManager) : list (NodeId * SocketAddr) :=
  sent ((λ p, (bp_node_id p, bp_addr p)) <$> take 10 (connected_peers walk m)).
Lemma connected_elem walk m p : (∀ m, walk m ≡ₚ map_to_list m) → bm_ok m → p ∈ connected_peers walk m →
  bm_peers m !! bp_node_id p = Some p ∧ bp_state p = PS_Connected ∧ peer_ok (bp_node_id p, bp_addr p).
Proof.
  intros Hw [_ Hp] [Hc Hin]%list_elem_of_filter. apply list_elem_of_fmap in Hin as ([id q] & -> & Hin). rewrite Hw in Hin.
  apply elem_of_map_to_list in Hin. destruct (Hp _ _ Hin) as (E & Hl & Ha). cbn [snd]. unfold peer_ok. cbn [fst snd]. rewrite E. split_and!; try done.
  by apply bool_decide_unpack in Hc.
Qed.
Lemma told_elem walk m id a : (∀ m, walk m ≡ₚ map_to_list m) → bm_ok m → (id, a) ∈ told_peers walk m →
  ∃ p, bm_peers m !! id = Some p ∧ bp_state p = PS_Connected ∧ is_link_local_v6 (bp_addr p) = false ∧ a = unscoped (bp_addr p).
Proof.
  intros Hw Hm. unfold told_peers, sent. rewrite list_elem_of_fmap. intros ([i b] & [= -> ->] & [Hl Hin]%list_elem_of_filter).
  apply list_elem_of_fmap in Hin as (p & [= -> ->] & Hin). apply elem_of_take in Hin as (k & Hk & _).
  destruct (connected_elem walk m p Hw Hm (list_elem_of_lookup_2 _ _ _ Hk)) as (Hp & Hs & _). by exists p.
Qed.
Lemma told_sent walk m : (∀ m, walk m ≡ₚ map_to_list m) → bm_ok m → Forall peer_ok ((λ p, (bp_node_id p, bp_addr p)) <$> take 10 (connected_peers walk m)).
Proof.
  intros Hw Hm. apply Forall_forall. intros x (p & -> & Hin)%list_elem_of_fmap. apply elem_of_take in Hin as (k & Hk & _).
  by apply (connected_elem walk m p Hw Hm (list_elem_of_lookup_2 _ _ _ Hk)).
Qed.

(** Steps keep the identity and the configuration. *)
Lemma drop_peers_same ps : ∀ m, bm_local_id (foldl drop_peer m ps) = bm_local_id m ∧ bm_config (foldl drop_peer m ps) = bm_config m.
Proof. induction ps as [|p ps IH]; intros m; cbn [foldl]; [done|]. by destruct (IH (drop_peer m p)) as [-> ->]. Qed.
Lemma queue_known_config now ps : ∀ m, bm_config (foldl (queue_known now) m ps) = bm_config m.
Proof. induction ps as [|p ps IH]; intros m; cbn [foldl]; [done|]. rewrite IH. unfold queue_known. by destruct (_ || _). Qed.
Lemma bm_step_same walk m m' : bm_step walk m m' → bm_local_id m' = bm_local_id m ∧ bm_config m' = bm_config m.
Proof.
  destruct 1 as [m caps|m r|now m f from Hb Ha|now m f from Hb Ha|m f|m id s|now m id rtt|m id|m]; try done.
  - unfold process_join_request. destruct (JoinRequest_decode _); [|done]. by destruct (_ <? _).
  - unfold process_join_response. destruct (JoinResponse_decode _) as [r|]; [|done]. destruct (accepted r); [|done]. cbn [fst bm_set_joined bm_local_id bm_config].
    split; (etrans; [first [apply (proj1 (queue_known_same _ _ _))|apply queue_known_config]|done]).
  - unfold process_leave. destruct (LeaveNotification_decode _) as [n|]; [|done]. by destruct (bm_peers m !! ln_node_id n).
  - unfold update_peer_state. by destruct (bm_peers m !! id).
  - unfold record_peer_activity. by destruct (bm_peers m !! id).
  - unfold record_failed_ping. destruct (bm_peers m !! id); [|done]. by destruct (_ <=? _).
  - apply drop_peers_same.
Qed.
Lemma bm_reachable walk id cfg clk m : (∀ m, walk m ≡ₚ map_to_list m) → array_ok 32 id → rtc (bm_step walk) (MeshManager_new id cfg clk) m →
  bm_ok m ∧ bm_local_id m = id ∧ bm_config m = cfg.
Proof.
  intros Hw Hid H. apply (rtc_preserves (bm_step walk) (λ m, bm_ok m ∧ bm_local_id m = id ∧ bm_config m = cfg)) in H; [done| |].
  - intros x y Hs (Hx & E1 & E2). destruct (bm_step_same walk x y Hs) as [-> ->]. split_and!; [by apply (bm_step_ok walk Hw x)|done..].
  - split_and!; [|done..]. split; [done|]. cbn. intros i p. by rewrite lookup_empty.
Qed.
Lemma join_request_bytes r : join_ok r → bytes_ok (JoinRequest_encode r).
Proof.
  intros ([_ Hid] & _ & Hc). unfold JoinRequest_encode. rewrite !Forall_app. split_and!; [done|apply to_be_bytes_ok|].
  apply Forall_concat. eapply Forall_impl; [exact Hc|]. by intros c [_ ?].
Qed.
(** Accepting a request. *)
Lemma process_join_accepts walk now b caps a0 addr f : JoinRequest_decode (payload f) = Some (mkJoin a0 1 caps) →
  Z.of_nat (size (bm_peers b)) < bc_max_peers (bm_config b) →
  let '(b1, reply) := process_join_request walk now b f addr in
  bm_peers b1 = <[a0 := mkPeerInfo a0 addr PS_Connected (trust_level (header f)) now 0 0 caps]> (bm_peers b) ∧
  addr_to_node b1 !! addr = Some a0 ∧ bm_local_id b1 = bm_local_id b ∧
  ∃ answer, reply = Some answer ∧ trust_level (header answer) = Sig ∧ payload answer = JoinResponse_encode
    (mkJoinResponse true (bm_local_id b) ((λ p, (bp_node_id p, bp_addr p)) <$> take 10 (connected_peers walk b1))).
Proof.
  intros E Hs. unfold process_join_request. rewrite E. cbn [jr_node_id jr_capabilities]. rewrite (proj2 (Z.ltb_lt _ _)) by done.
  cbn. split_and!; [done|by rewrite lookup_insert_eq|done|]. by eexists.
Qed.

(** C38: joining, leaving and clean-up between two managers in any reachable state.  A node
    asked to let another in does so exactly when its table has room; it then holds the other as connected,
    with the address the request came from and the capabilities it named, and answers with at
    most ten of its connected peers, none of them link-local.  The answer makes the one that asked joined, with
    the other as connected at the address the answer came from; of what it is told it adds, as discovered, those
    it did not know, never itself, and it changes no other entry.  A refusal changes no table.  When it
    leaves, the other marks it so, and a clean-up removes exactly the peers that are dead or have left. *)
Theorem mesh_membership walk a0 b0 cfg_a cfg_b clk_a clk_b a b (caps : list IntentHash) now now' addr_a addr_b reason :
  (∀ m, walk m ≡ₚ map_to_list m) → array_ok 32 a0 → array_ok 32 b0 → Forall (array_ok 16) caps → addr_ok addr_a → addr_ok addr_b →
  rtc (bm_step walk) (MeshManager_new a0 cfg_a clk_a) a → rtc (bm_step walk) (MeshManager_new b0 cfg_b clk_b) b →
  let '(a1, request) := create_join_request a caps in
  let '(b1, reply) := process_join_request walk now b request addr_a in
  let joined := mkPeerInfo a0 addr_a PS_Connected Sig now 0 0 caps in
  ∃ answer, reply = Some answer ∧
  if Z.of_nat (size (bm_peers b)) <? bc_max_peers cfg_b then
    bm_peers b1 = <[a0 := joined]> (bm_peers b) ∧ get_peer_by_addr b1 addr_a = Some joined ∧
    (length (told_peers walk b1) <= 10)%nat ∧
    (∀ id x, (id, x) ∈ told_peers walk b1 →
       ∃ p, bm_peers b1 !! id = Some p ∧ bp_state p = PS_Connected ∧ is_link_local_v6 (bp_addr p) = false ∧ x = unscoped (bp_addr p)) ∧
    (∃ a2, process_join_response now' a1 answer addr_b = (a2, true) ∧ bootstrap_state a2 = BS_Joined ∧
       ∀ n, bm_peers a2 !! n =
         if decide (n = b0) then Some (mkPeerInfo b0 addr_b PS_Connected Sig now' 0 0 [])
         else match bm_peers a !! n with
              | Some p => Some p
              | None => if decide (n = a0) then None else discovered now' n <$> (list_to_map (told_peers walk b1) : gmap NodeId SocketAddr) !! n
              end) ∧
    let b2 := process_leave b1 (create_leave_notification a1 reason).2 in
    bm_peers b2 = <[a0 := bp_set_state joined PS_Left]> (bm_peers b) ∧
    bm_peers (cleanup_dead_peers walk b2) = filter (λ kp, gone kp.2 = false) (delete a0 (bm_peers b))
  else bm_peers b1 = bm_peers b ∧ process_join_response now' a1 answer addr_b = (a1, false) ∧ bm_peers a1 = bm_peers a.
Proof.
  intros Hw Ha0 Hb0 Hcaps Haa Hab Hra Hrb. destruct (bm_reachable _ _ _ _ _ Hw Ha0 Hra) as (Hoa & Ela & Eca), (bm_reachable _ _ _ _ _ Hw Hb0 Hrb) as (Hob & Elb & Ecb).
  unfold create_join_request, bm_frame. cbn [ClockManager_tick]. rewrite Ela. set (request := Frame_new _ _ _). set (a1 := bm_set_clock a _).
  assert (Hjoin : join_ok (mkJoin a0 1 caps)) by done. pose proof (join_request_roundtrip _ Hjoin) as Edec.
  destruct (Z.ltb_spec (Z.of_nat (size (bm_peers b))) (bc_max_peers cfg_b)) as [Hroom|Hfull].
  - pose proof (process_join_accepts walk now b caps a0 addr_a request Edec ltac:(by rewrite Ecb)) as Hacc.
    pose proof (bm_step_ok walk Hw _ _ (BmS_join walk now b request addr_a (join_request_bytes _ Hjoin) Haa) Hob) as Hb1.
    destruct (process_join_request walk now b request addr_a) as [b1 reply]. destruct Hacc as (Ep & Ead & El1 & answer & -> & Et & Epay).
    cbn [fst] in Hb1. exists answer. split; [done|]. pose proof (told_sent walk b1 Hw Hb1) as Hsent.
    split; [done|]. split; [unfold get_peer_by_addr; rewrite Ead; cbn; by rewrite Ep, lookup_insert_eq|].
    split; [unfold told_peers, sent; rewrite length_fmap; etrans; [apply length_filter|]; rewrite length_fmap, length_take; lia|].
    split; [intros id x; by apply told_elem|]. split.
    + eexists. unfold process_join_response. rewrite Epay, join_response_roundtrip by (rewrite ?Elb; done || apply Hb0).
      cbn [accepted jp_node_id jp_known_peers]. rewrite Et, Elb. split; [done|]. split; [done|]. intros n.
      cbn [bm_set_joined bm_peers]. rewrite queue_known_lookup. cbn [bm_set_stats bm_add bm_peers bp_node_id bm_local_id a1 bm_set_clock].
      destruct (decide (n = b0)) as [->|Hn]; [by rewrite lookup_insert_eq|].
      by rewrite lookup_insert_ne, Ela by done.
    + cbn zeta. assert (El : LeaveNotification_decode (payload (create_leave_notification a1 reason).2) = Some (mkLeave a0 reason)).
      { cbn [create_leave_notification bm_frame ClockManager_tick snd payload Frame_new a1 bm_set_clock bm_local_id]. rewrite Ela.
        apply leave_roundtrip, Ha0. }
      assert (E2 : bm_peers (process_leave b1 (create_leave_notification a1 reason).2) =
        <[a0 := bp_set_state (mkPeerInfo a0 addr_a PS_Connected Sig now 0 0 caps) PS_Left]> (bm_peers b)).
      { unfold process_leave. rewrite El. cbn [ln_node_id]. rewrite Ep, lookup_insert_eq. cbn [bm_set_peers bm_peers]. by rewrite insert_insert_eq. }
      split; [done|]. rewrite cleanup_exact, E2 by done. by rewrite map_filter_insert_False.
  - unfold process_join_request. cbn [payload request Frame_new]. rewrite Edec, (proj2 (Z.ltb_ge _ _)) by (cbn; by rewrite Ecb).
    cbn [create_join_response bm_frame ClockManager_tick]. eexists. split; [done|]. split; [done|]. split; [|done].
    unfold process_join_response. cbn [payload Frame_new]. cbn [bm_set_stats bm_local_id]. rewrite Elb.
    rewrite join_response_roundtrip; [done|apply Hb0|]. cbn [jp_known_peers]. apply (told_sent walk (bm_set_stats b _)); [done|].
    by apply (bm_ok_same b).
Qed.

Section BootstrapExamples.
Let walk (m : gmap NodeId PeerInfo) : list (NodeId * PeerInfo) := map_to_list m.
Let id (b : Z) : NodeId := replicate 32 b.
Let addr (b : Z) : SocketAddr := SockV4 [10; 0; 0; b] 7777.
Let cfg (n : Z) : BootstrapConfig := mkBootstrapConfig [] n 5000 3 3000 30000.
Let fresh (b : Z) : MeshManager := MeshManager_new (id b) (cfg 2) (mkClock 1000 0).
(** A node that already let in another one, with a link-local address. *)
Let host : MeshManager :=
  (process_join_request walk 5 (fresh 2) (create_join_request (fresh 3) [replicate 16 7]).2 (addr 3)).1.

Lemma sample_addr_fits b : 0 ≤ b < 256 → addr_ok (addr b).
Proof. intros Hb. split; [split; [done|]|done]. repeat (apply Forall_cons_2; [lia|]). by apply Forall_nil_2. Qed.
Lemma host_reachable : rtc (bm_step walk) (MeshManager_new (id 2) (cfg 2) (mkClock 1000 0)) host.
Proof.
  apply rtc_once. unfold host. apply BmS_join; [|by apply sample_addr_fits].
  apply (join_request_bytes (mkJoin (id 3) 1 [replicate 16 7])). split; [apply array_ok_replicate; lia|split; [done|]].
  constructor; [apply array_ok_replicate; lia|constructor].
Qed.
Lemma mesh_membership_witness :
  let '(a1, request) := create_join_request (fresh 1) [] in
  let '(b1, reply) := process_join_request walk 6 host request (addr 1) in
  ∃ answer a2, reply = Some answer ∧ process_join_response 7 a1 answer (addr 2) = (a2, true) ∧
    bp_state <$> bm_peers a2 !! id 2 = Some PS_Connected ∧ bp_state <$> bm_peers a2 !! id 3 = Some PS_Discovered.
Proof.
  pose proof (mesh_membership walk (id 1) (id 2) (cfg 2) (cfg 2) (mkClock 1000 0) (mkClock 1000 0) (fresh 1) host [] 6 7 (addr 1) (addr 2) LR_Shutdown
    (λ m, reflexivity _) ltac:(apply array_ok_replicate; lia) ltac:(apply array_ok_replicate; lia) (Forall_nil_2 _)
    ltac:(by apply sample_addr_fits) ltac:(by apply sample_addr_fits) (rtc_refl _ _) host_reachable) as H.
  remember (create_join_request (fresh 1) (@nil IntentHash)) as r1 eqn:Er. destruct r1 as [a1 request].
  remember (process_join_request walk 6 host request (addr 1)) as r2 eqn:Eb. destruct r2 as [b1 reply].
  destruct H as (answer & Ereply & H). replace (Z.of_nat (size (bm_peers host)) <? bc_max_peers (cfg 2)) with true in H by (by vm_compute).
  destruct H as (Ep & _ & _ & _ & (a2 & E2 & _ & Hall) & _). exists answer, a2. split; [exact Ereply|]. split; [exact E2|].
  assert (Eb1 : b1 = (process_join_request walk 6 host (create_join_request (fresh 1) []).2 (addr 1)).1) by (rewrite <- Er; cbn [snd]; by rewrite <- Eb).
  rewrite !Hall, Eb1. by vm_compute.
Defined.

(** The count of connected peers drifts: a peer that joins twice is counted twice, and one marked as
    having left twice is taken off twice. *)
Example counts_drift :
  let again := (process_join_request walk 6 host (create_join_request (fresh 3) []).2 (addr 3)).1 in
  peers_connected (bm_stats again) = 2 ∧ connected_count walk again = 1%nat ∧
  let left := process_leave again (create_leave_notification (fresh 3) LR_Shutdown).2 in
  peers_connected (bm_stats (process_leave left (create_leave_notification (fresh 3) LR_Shutdown).2)) = 0.
Proof. by vm_compute. Qed.
(** A LEAVE is believed whoever sent the frame that carries it. *)
Example anyone_can_leave :
  let '(_, f) := create_leave_notification (fresh 3) LR_Shutdown in
  let forged := Frame_new (FrameHeader_new FLeave (id 9)) PRaw (payload f) in
  bp_state <$> bm_peers (process_leave host forged) !! id 3 = Some PS_Left.
Proof. by vm_compute. Qed.
(** A known peer is refused when the table is full, and the peers told about are taken in beyond its limit. *)
Example limit_of_the_table :
  let full := (process_join_request walk 6 host (create_join_request (fresh 4) []).2 (addr 4)).1 in
  (process_join_request walk 7 full (create_join_request (fresh 3) []).2 (addr 3)).1 = bm_set_clock (bm_set_stats full (count_join (bm_stats full)))
     (ClockManager_tick (bm_clock full)).1 ∧
  size (bm_peers full) = 2%nat ∧
  let f := (create_join_response walk full true 10).2 in
  size (bm_peers (process_join_response 8 (fresh 1) f (addr 2)).1) = 3%nat ∧ bc_max_peers (cfg 2) = 2.
Proof. by vm_compute. Qed.
End BootstrapExamples.
