(* ===== verification/Peers.v ===== *)
(** * The peer table (forge-node/src/network.rs, discovery.rs and the event loop of node.rs)

    How a daemon comes to know its peers and talks to them: the HELLO handshake
    ([connect]), the receive loops of the two sockets with the rate limit and the
    freshness check of link-local discovery, [register_peer] with its eviction, the
    event loop, pings, announcements and requests.  A method that waits for a
    reply is cut at its await into a beginning and an end; the task spawned by an
    eviction is kept until it runs.  [NetStep] is everything that can happen to a
    node, one critical section at a time. *)

From stdpp Require Import base numbers list gmap strings.
From S2P Require Import Prelude Types Codec Text Intent Policy Router Crypto F32 Announce Frames Dispatch Semantic Mesh.

(** ** State *)

Record PeerConnection := mkPeer {
  pc_node_id : NodeId;
  pc_addr : SocketAddr;
  pc_established_at : Z;
  pc_bytes_sent : Z;
  pc_bytes_received : Z;
  pc_discovered : bool;
  pc_last_hello_ts : Z;
  pc_last_seen : Z
}.

Inductive NetworkEvent :=
  | PeerConnected (n : NodeId)
  | PeerDisconnected (n : NodeId)
  | PeerDiscovered (n : NodeId) (a : SocketAddr) (timestamp : Z)
  | MessageReceived (from : NodeId) (data : list Z)
  | NetworkError (e : text).

(** [nm_replies] holds the value a pending [connect] has been sent and not yet
    taken; [nm_cleanups] the tasks spawned by evictions, [nm_events] the event channel,
    oldest first. *)
Record NetworkManager := mkManager {
  nm_mesh : MeshState;
  nm_peers : gmap NodeId PeerConnection;
  nm_pending_connects : gset SocketAddr;
  nm_replies : gmap SocketAddr (NodeId * Z);
  nm_max_peers : Z;
  nm_events : list NetworkEvent;
  nm_cleanups : list (NodeId * list NodeId);
  nm_recently_failed : gmap (list Z) Z
}.
Definition set_mesh (nm : NetworkManager) x := mkManager x (nm_peers nm) (nm_pending_connects nm) (nm_replies nm)
  (nm_max_peers nm) (nm_events nm) (nm_cleanups nm) (nm_recently_failed nm).
Definition set_peers (nm : NetworkManager) x := mkManager (nm_mesh nm) x (nm_pending_connects nm) (nm_replies nm)
  (nm_max_peers nm) (nm_events nm) (nm_cleanups nm) (nm_recently_failed nm).
Definition set_connects (nm : NetworkManager) pending replies := mkManager (nm_mesh nm) (nm_peers nm) pending replies
  (nm_max_peers nm) (nm_events nm) (nm_cleanups nm) (nm_recently_failed nm).
Definition set_events (nm : NetworkManager) x := mkManager (nm_mesh nm) (nm_peers nm) (nm_pending_connects nm)
  (nm_replies nm) (nm_max_peers nm) x (nm_cleanups nm) (nm_recently_failed nm).
Definition set_cleanups (nm : NetworkManager) x := mkManager (nm_mesh nm) (nm_peers nm) (nm_pending_connects nm)
  (nm_replies nm) (nm_max_peers nm) (nm_events nm) x (nm_recently_failed nm).
Definition set_failed (nm : NetworkManager) x := mkManager (nm_mesh nm) (nm_peers nm) (nm_pending_connects nm)
  (nm_replies nm) (nm_max_peers nm) (nm_events nm) (nm_cleanups nm) x.
Definition push_event (nm : NetworkManager) (e : NetworkEvent) : NetworkManager := set_events nm (nm_events nm ++ [e]).

(** What an operation makes the daemon do, besides the effects of the handler. *)
Inductive NetEffect :=
  | OfHandler (e : Effect)
  | ResolveConnect (a : SocketAddr) (n : NodeId) (timestamp : Z)
  | SpawnPing (n : NodeId) (a : SocketAddr)
  | SpawnAnnounce (a : SocketAddr).

Definition peer_addr (nm : NetworkManager) (n : NodeId) : option SocketAddr := pc_addr <$> nm_peers nm !! n.
Definition send_raw (nm : NetworkManager) (a : SocketAddr) (data : list Z) : NetEffect :=
  OfHandler (send (nm_mesh nm) a data).

(** ** Discovery: what is let through *)

Definition MAX_HELLO_AGE_SECS : Z := 60.
Definition MAX_CLOCK_SKEW_SECS : Z := 5.
Definition RATE_LIMIT_INTERVAL : Z := 200 * 10 ^ 6.
Definition MAX_RATE_LIMIT_ENTRIES : Z := 1024.

Definition saturating_sub (a b : Z) : Z := Z.max 0 (a - b).
Definition hello_timestamp_is_fresh (hello_ts now_secs : Z) : bool :=
  let age := saturating_sub now_secs hello_ts in
  let future_skew := saturating_sub hello_ts now_secs in
  (age <=? MAX_HELLO_AGE_SECS) && (future_skew <=? MAX_CLOCK_SKEW_SECS).

Definition addr_ip (a : SocketAddr) : list Z :=
  match a with SockV4 octets _ => octets | SockV6 segments _ _ _ => segments end.
Definition is_recently_failed (recently_failed : gmap (list Z) Z) (ip : list Z) (now : Z) : bool :=
  match recently_failed !! ip with
  | Some last_fail => duration_since now last_fail <? RATE_LIMIT_INTERVAL
  | None => false
  end.
(** An unrecognised packet is counted against its source; a full table is pruned first. *)
Definition record_failure (recently_failed : gmap (list Z) Z) (ip : list Z) (now : Z) : gmap (list Z) Z :=
  let m := if MAX_RATE_LIMIT_ENTRIES <=? Z.of_nat (size recently_failed)
           then filter (λ kv, duration_since now kv.2 < RATE_LIMIT_INTERVAL) recently_failed
           else recently_failed in
  <[ip := now]> m.

(** ** Registration *)

(** The first minimal element. *)
Fixpoint min_by_key {A} (key : A → Z) (l : list A) : option A :=
  match l with
  | [] => None
  | x :: l' =>
      match min_by_key key l' with
      | Some y => if key x <=? key y then Some x else Some y
      | None => Some x
      end
  end.
Definition evictable (peers : gmap NodeId PeerConnection) : option NodeId :=
  fst <$> min_by_key (λ kv, pc_last_seen kv.2) (filter (λ kv, pc_discovered kv.2 = true) (map_to_list peers)).

(** Removing a peer: its address, its admission window, the origins reached only
    through it; the registry is cleaned by a task of its own. *)
Definition evict (nm : NetworkManager) (id : NodeId) : NetworkManager :=
  let s := nm_mesh nm in
  let orphaned := (filter (λ kv, kv.2.1 = id) (map_to_list (ms_reachable_via s))).*1 in
  let s := upd_peers s (ms_known_peers s ∖ {[id]}) (delete id (ms_peer_addrs s)) in
  let s := upd_origin_admission s (delete id (ms_origin_admission s)) in
  let s := upd_reachable_via s (foldl (λ m o, delete o m) (ms_reachable_via s) orphaned) in
  set_cleanups (set_mesh (set_peers nm (delete id (nm_peers nm))) s) (nm_cleanups nm ++ [(id, orphaned)]).

Definition cleanup_registry (nm : NetworkManager) (task : NodeId * list NodeId) : NetworkManager :=
  let s := nm_mesh nm in
  let gone := filter (λ o, ms_reachable_via s !! o = None) task.2 in
  set_mesh nm (upd_router s (foldl unregister_node (unregister_node (ms_router s) task.1) gone)).

Definition add_peer (nm : NetworkManager) (p : PeerConnection) : NetworkManager :=
  let s := nm_mesh nm in
  let n := pc_node_id p in
  set_mesh (set_peers nm (<[n := p]> (nm_peers nm)))
    (upd_peers s ({[n]} ∪ ms_known_peers s) (<[n := pc_addr p]> (ms_peer_addrs s))).

Definition register_peer (now : Z) (nm : NetworkManager) (n : NodeId) (a : SocketAddr) (hello_ts : Z) : NetworkManager :=
  match nm_peers nm !! n with
  | Some p =>
      if hello_ts <=? pc_last_hello_ts p then nm
      else
        let p := mkPeer (pc_node_id p) a (pc_established_at p) (pc_bytes_sent p) (pc_bytes_received p)
                   (pc_discovered p) hello_ts now in
        let s := nm_mesh nm in
        set_mesh (set_peers nm (<[n := p]> (nm_peers nm)))
          (upd_peers s (ms_known_peers s) (<[n := a]> (ms_peer_addrs s)))
  | None =>
      let p := mkPeer n a now 0 0 true hello_ts now in
      if nm_max_peers nm <=? Z.of_nat (size (nm_peers nm)) then
        match evictable (nm_peers nm) with
        | Some id => add_peer (evict nm id) p
        | None => nm
        end
      else add_peer nm p
  end.

Section Operations.
Context `{Blake3} `{Ed25519}.

(** ** Receiving *)

(** One datagram of the main socket; [wall] is the clock of a HELLO_ACK. *)
Definition receive_main (hk : HandlerClock) (wall : Z) (k : Keypair) (nm : NetworkManager) (data : list Z)
    (a : SocketAddr) : outcome False (NetworkManager * list NetEffect) :=
  match extract_sender_with_timestamp data with
  | Some (n, hello_ts) =>
      let '(nm, effects) :=
        match frame_msg_type data with
        | Some t =>
            if t =? HELLO_ACK_MSG_TYPE then
              if decide (a ∈ nm_pending_connects nm) then
                (set_connects nm (nm_pending_connects nm ∖ {[a]}) (<[a := (n, hello_ts)]> (nm_replies nm)),
                 [ResolveConnect a n hello_ts])
              else (nm, [])
            else if t =? HELLO_MSG_TYPE then
              (push_event nm (PeerDiscovered n a hello_ts),
               [OfHandler (Send MainSocket a (build_hello_reply_frame k wall))])
            else (nm, [])
        | None => (nm, [])
        end in
      Ok (push_event nm (MessageReceived n data), effects)
  | None =>
      frame ← decode_verified_frame data;
      match frame with
      | Some f =>
          r ← handle_axiom_frame hk k (nm_mesh nm) f a;
          Ok (set_mesh nm r.1, map OfHandler r.2)
      | None => Ok (nm, [])
      end
  end.

(** One datagram of the link-local socket. *)
Definition receive_discovery (hk : HandlerClock) (wall now : Z) (k : Keypair) (nm : NetworkManager) (data : list Z)
    (a : SocketAddr) : outcome False (NetworkManager * list NetEffect) :=
  let ip := addr_ip a in
  if is_recently_failed (nm_recently_failed nm) ip now then Ok (nm, [])
  else
    match extract_sender_with_timestamp data with
    | None =>
        frame ← decode_verified_frame data;
        match frame with
        | Some f =>
            r ← handle_axiom_frame hk k (nm_mesh nm) f a;
            Ok (set_mesh nm r.1, map OfHandler r.2)
        | None => Ok (set_failed nm (record_failure (nm_recently_failed nm) ip now), [])
        end
    | Some (n, hello_ts) =>
        if decide (n = Keypair_node_id k) then Ok (nm, [])
        else if hello_timestamp_is_fresh hello_ts wall then Ok (push_event nm (PeerDiscovered n a hello_ts), [])
        else Ok (nm, [])
    end.

(** ** The event loop *)

Definition handle_network_event (now : Z) (nm : NetworkManager) (e : NetworkEvent) : NetworkManager * list NetEffect :=
  match e with
  | PeerDiscovered n a timestamp => (register_peer now nm n a timestamp, [SpawnPing n a; SpawnAnnounce a])
  | PeerConnected _ | PeerDisconnected _ | MessageReceived _ _ | NetworkError _ => (nm, [])
  end.
Definition poll_event (nm : NetworkManager) : NetworkManager * option NetworkEvent :=
  match nm_events nm with
  | [] => (nm, None)
  | e :: es => (set_events nm es, Some e)
  end.

(** ** Connecting *)

Inductive ConnectError := ConnectSendFailed | ConnectTimedOut.

(** Up to the await; [sent] is the result of the socket. *)
Definition connect_begin (wall : Z) (sent : bool) (k : Keypair) (nm : NetworkManager) (a : SocketAddr) :
    NetworkManager * list NetEffect * option ConnectError :=
  let hello := build_hello_frame k wall in
  if sent then
    (set_connects nm ({[a]} ∪ nm_pending_connects nm) (delete a (nm_replies nm)), [send_raw nm a hello], None)
  else (set_connects nm (nm_pending_connects nm ∖ {[a]}) (delete a (nm_replies nm)), [], Some ConnectSendFailed).

(** After it: the reply, or the timeout.  The channel cannot be closed: only another
    [connect] to the same address would drop the sender, and the manager is borrowed
    for the whole call. *)
Definition connect_end (now : Z) (wall : Z) (k : Keypair) (nm : NetworkManager) (a : SocketAddr) :
    NetworkManager * (ConnectError + NodeId) :=
  match nm_replies nm !! a with
  | Some (n, hello_ts) =>
      let p := mkPeer n a now (len (build_hello_frame k wall)) 0 false hello_ts now in
      (add_peer (set_connects nm (nm_pending_connects nm) (delete a (nm_replies nm))) p, inr n)
  | None =>
      (set_connects nm (nm_pending_connects nm ∖ {[a]}) (nm_replies nm), inl ConnectTimedOut)
  end.

(** ** Pings and announcements *)

Inductive PingError := PingUnknownPeer | PingBuildFailed | PingSendFailed | PingClosed | PingTimedOut.

Definition spawn_ping (sent : bool) (k : Keypair) (nm : NetworkManager) (n : NodeId) (a : SocketAddr) (t : TraceId) :
    outcome False (NetworkManager * list NetEffect * option PingError) :=
  let s := nm_mesh nm in
  let waiting := <[t := n]> (ms_pending_pings s) in
  ping_frame ← build_ping_frame k t;
  match ping_frame with
  | [] => Ok (set_mesh nm (upd_pending_pings s (delete t waiting)), [], Some PingBuildFailed)
  | _ =>
      if sent then Ok (set_mesh nm (upd_pending_pings s waiting), [send_raw nm a ping_frame], None)
      else Ok (set_mesh nm (upd_pending_pings s (delete t waiting)), [], Some PingSendFailed)
  end.
Definition ping (sent : bool) (k : Keypair) (nm : NetworkManager) (n : NodeId) (t : TraceId) :
    outcome False (NetworkManager * list NetEffect * option PingError) :=
  match peer_addr nm n with
  | None => Ok (nm, [], Some PingUnknownPeer)
  | Some a => spawn_ping sent k nm n a t
  end.
(** The waiter gives up. *)
Definition ping_timeout (nm : NetworkManager) (t : TraceId) : NetworkManager :=
  let s := nm_mesh nm in set_mesh nm (upd_pending_pings s (delete t (ms_pending_pings s))).

Definition spawn_announce (wall : Z) (k : Keypair) (nm : NetworkManager) (a : SocketAddr) :
    outcome False (NetworkManager * list NetEffect) :=
  let s := nm_mesh nm in
  let '(mgr, frame) := create_announcement wall (ms_announcements s) MAX_ROUTE_INDIRECTION in
  let nm := set_mesh nm (upd_announcements s mgr) in
  bytes ← sign_and_encode_frame k frame;
  Ok (nm, match bytes with [] => [] | _ => [send_raw nm a bytes] end).

(** ** Requests *)

Inductive RequestError :=
  | NoProvider
  | NoKnownAddress (peer : NodeId)
  | RelayUnknown (relay : NodeId)
  | RequestBuildFailed
  | RequestSendFailed
  | RepliedError (reason : text)
  | ReplyChannelClosed
  | RequestTimedOut.

(** The common part of the two methods: register the waiter, build, send to [a]. *)
Definition send_request (sent : bool) (k : Keypair) (nm : NetworkManager) (expected : NodeId) (a : SocketAddr)
    (capability : text) (data : list Z) (t : TraceId) (r : option RoutingExt) :
    outcome False (NetworkManager * list NetEffect * (RequestError + NodeId)) :=
  let s := nm_mesh nm in
  let waiting := <[t := expected]> (ms_pending_intents s) in
  frame_bytes ← build_intent_frame k (capability_hash capability) t data r;
  match frame_bytes with
  | [] => Ok (set_mesh nm (upd_pending_intents s (delete t waiting)), [], inl RequestBuildFailed)
  | _ =>
      if sent then Ok (set_mesh nm (upd_pending_intents s waiting), [send_raw nm a frame_bytes], inr expected)
      else Ok (set_mesh nm (upd_pending_intents s (delete t waiting)), [], inl RequestSendFailed)
  end.

Definition request_intent_via (sent : bool) (k : Keypair) (nm : NetworkManager) (relay dest : NodeId)
    (capability : text) (data : list Z) (t : TraceId) :
    outcome False (NetworkManager * list NetEffect * (RequestError + NodeId)) :=
  match peer_addr nm relay with
  | None => Ok (nm, [], inl (RelayUnknown relay))
  | Some a => send_request sent k nm dest a capability data t (Some (mkRouting dest DEFAULT_ROUTING_TTL))
  end.

(** Up to the await: an error, or the provider whose reply is awaited. *)
Definition request_intent (sent : bool) (k : Keypair) (nm : NetworkManager) (capability : text) (data : list Z)
    (t : TraceId) : outcome False (NetworkManager * list NetEffect * (RequestError + NodeId)) :=
  match dr_agent <$> head (discover (ms_router (nm_mesh nm)) (AiIntent_from_str capability)) with
  | None => Ok (nm, [], inl NoProvider)
  | Some peer =>
      match peer_addr nm peer with
      | Some a => send_request sent k nm peer a capability data t None
      | None =>
          match ms_reachable_via (nm_mesh nm) !! peer with
          | None => Ok (nm, [], inl (NoKnownAddress peer))
          | Some (relay, _) => request_intent_via sent k nm relay peer capability data t
          end
      end
  end.

(** What the wait gives: a value of the channel, a closed channel, or the timeout. *)
Inductive Waited := WReply (r : list Z + text) | WClosed | WTimeout.
Definition elapsed_ms (elapsed : Z) : Z := Z.min (elapsed / 10 ^ 6) (2 ^ 32 - 1).
Definition request_end (elapsed : Z) (nm : NetworkManager) (expected : NodeId) (t : TraceId) (w : Waited) :
    NetworkManager * (RequestError + list Z) :=
  let s := nm_mesh nm in
  let score ok := upd_router s (update_reputation (ms_router s) expected ok (elapsed_ms elapsed)) in
  let dropped s := upd_pending_intents s (delete t (ms_pending_intents s)) in
  match w with
  | WReply (inl result) => (set_mesh nm (score true), inr result)
  | WReply (inr reason) => (set_mesh nm (score false), inl (RepliedError reason))
  | WClosed => (set_mesh nm (dropped (score false)), inl ReplyChannelClosed)
  | WTimeout => (set_mesh nm (dropped (score false)), inl RequestTimedOut)
  end.

Definition routing_snapshot (nm : NetworkManager) (capability : text) : list (NodeId * f32) :=
  let r := ms_router (nm_mesh nm) in
  map (λ c, (dr_agent c, get_reputation r (dr_agent c))) (discover r (AiIntent_from_str capability)).

Definition shutdown (nm : NetworkManager) : NetworkManager := set_peers nm ∅.
Definition peer_count (nm : NetworkManager) : Z := Z.of_nat (size (nm_peers nm)).
Definition connected_peers (nm : NetworkManager) : list NodeId := (map_to_list (nm_peers nm)).*1.
Definition broadcast (nm : NetworkManager) (data : list Z) : list NetEffect :=
  map (λ kv, send_raw nm (pc_addr kv.2) data) (map_to_list (nm_peers nm)).
End Operations.

(** ** Everything that can happen to a node *)

Section Steps.
Context `{Blake3} `{Ed25519}.

(** [NetworkManager::new]. *)
Definition net_new (k : Keypair) (now : HybridClock) (caps : list text) (discovery : bool) (max_peers : Z) :
    NetworkManager :=
  mkManager (mesh_new k now caps discovery) ∅ ∅ ∅ max_peers [] [] ∅.

Inductive NetStep :=
  | NvMain (hk : HandlerClock) (wall : Z) (data : list Z) (from : SocketAddr)
  | NvDiscovery (hk : HandlerClock) (wall now : Z) (data : list Z) (from : SocketAddr)
  | NvEvent (now : Z)
  | NvCleanup (i : nat)
  | NvConnect (wall : Z) (sent : bool) (a : SocketAddr)
  | NvConnected (now wall : Z) (a : SocketAddr)
  | NvPing (sent : bool) (n : NodeId) (a : SocketAddr) (t : TraceId)
  | NvPingTimeout (t : TraceId)
  | NvAnnounce (wall : Z) (a : SocketAddr)
  | NvRequest (sent : bool) (capability : text) (data : list Z) (t : TraceId)
  | NvRequestVia (sent : bool) (relay dest : NodeId) (capability : text) (data : list Z) (t : TraceId)
  | NvRequestEnd (elapsed : Z) (expected : NodeId) (t : TraceId) (w : Waited)
  | NvMaintenance (t_seen now : Z).

Definition net_step (k : Keypair) (nm : NetworkManager) (e : NetStep) : outcome False (NetworkManager * list NetEffect) :=
  match e with
  | NvMain hk wall data a => receive_main hk wall k nm data a
  | NvDiscovery hk wall now data a => receive_discovery hk wall now k nm data a
  | NvEvent now =>
      match poll_event nm with
      | (nm, Some e) => Ok (handle_network_event now nm e)
      | (nm, None) => Ok (nm, [])
      end
  | NvCleanup i =>
      match nm_cleanups nm !! i with
      | Some task => Ok (cleanup_registry (set_cleanups nm (delete i (nm_cleanups nm))) task, [])
      | None => Ok (nm, [])
      end
  | NvConnect wall sent a => Ok (connect_begin wall sent k nm a).1
  | NvConnected now wall a => Ok ((connect_end now wall k nm a).1, [])
  | NvPing sent n a t => r ← spawn_ping sent k nm n a t; Ok r.1
  | NvPingTimeout t => Ok (ping_timeout nm t, [])
  | NvAnnounce wall a => spawn_announce wall k nm a
  | NvRequest sent c d t => r ← request_intent sent k nm c d t; Ok r.1
  | NvRequestVia sent relay dest c d t => r ← request_intent_via sent k nm relay dest c d t; Ok r.1
  | NvRequestEnd elapsed expected t w => Ok ((request_end elapsed nm expected t w).1, [])
  | NvMaintenance t now => Ok (set_mesh nm (run_announcement_maintenance t now (nm_mesh nm)), [])
  end.
Fixpoint net_run (k : Keypair) (nm : NetworkManager) (es : list NetStep) : outcome False (NetworkManager * list NetEffect) :=
  match es with
  | [] => Ok (nm, [])
  | e :: es' =>
      r ← net_step k nm e;
      r' ← net_run k r.1 es';
      Ok (r'.1, r.2 ++ r'.2)
  end.
End Steps.

(** ** What a handler leaves alone *)

Section Kept.
Context `{Blake3} `{Ed25519}.

(** [n] is registered for some capability. *)
Definition provides (s : MeshState) (n : NodeId) : Prop := ∃ h c, (n, c) ∈ entries_of (ms_router s) h.

(** The handlers change no peer; a relay or an admission window they add belongs to
    a known one, and a provider they add has a well-formed identity. *)
Record peers_kept (s s' : MeshState) : Prop := {
  pk_known : ms_known_peers s' = ms_known_peers s;
  pk_addrs : ms_peer_addrs s' = ms_peer_addrs s;
  pk_via : ∀ o v, ms_reachable_via s' !! o = Some v → ms_reachable_via s !! o = Some v ∨ v.1 ∈ ms_known_peers s;
  pk_windows : dom (ms_origin_admission s') ⊆ dom (ms_origin_admission s) ∪ ms_known_peers s;
  pk_providers : ∀ n, provides s' n → provides s n ∨ array_ok 32 n;
  pk_local : am_local_capabilities (ms_announcements s') = am_local_capabilities (ms_announcements s)
}.
#[local] Instance peers_kept_preorder : PreOrder peers_kept.
Proof.
  split.
  - intros s. split; [done|done|auto|set_solver|auto|done].
  - intros s1 s2 s3 [K1 A1 V1 W1 P1 L1] [K2 A2 V2 W2 P2 L2].
    split; [congruence|congruence| |rewrite K1 in *; set_solver| |congruence].
    + intros o v Hv. destruct (V2 o v Hv) as [?|?]; [by apply V1|]. right. by rewrite <- K1.
    + intros n Hn. destruct (P2 n Hn) as [?|?]; [by apply P1|by right].
Qed.

Lemma kept_unchanged s s' :
  ms_known_peers s' = ms_known_peers s → ms_peer_addrs s' = ms_peer_addrs s →
  ms_reachable_via s' = ms_reachable_via s → ms_origin_admission s' = ms_origin_admission s →
  ms_router s' = ms_router s → ms_announcements s' = ms_announcements s → peers_kept s s'.
Proof.
  intros E1 E2 E3 E4 E5 E6. split; [done|done|rewrite E3; auto|rewrite E4; set_solver| |by rewrite E6].
  unfold provides. rewrite E5. auto.
Qed.

Lemma try_forward_kept now local s f a s' effects b :
  try_forward_routed_frame now local s f a = Ok (s', effects, b) → peers_kept s s'.
Proof.
  unfold try_forward_routed_frame. destruct (routing f) as [r|]; [|by intros [= <- _ _]].
  case_decide; [by intros [= <- _ _]|]. destruct (negb _); [by intros [= <- _ _]|].
  destruct (trace_id f); [|by intros [= <- _ _]]. destruct (cache_contains _ _); [by intros [= <- _ _]|].
  cbn zeta. destruct (ttl r =? 0); [intros [= <- _ _]; by apply kept_unchanged|].
  destruct (next_hop _ _ _ _); [|intros [= <- _ _]; by apply kept_unchanged].
  case_decide; [intros [= <- _ _]; by apply kept_unchanged|].
  intros (x & _ & [= <- _ _])%bind_Ok_inv. case_decide; by apply kept_unchanged.
Qed.

Lemma admit_origin_dom now sender origin m :
  dom (admit_origin now sender origin m).1 ⊆ dom m ∪ {[sender]}.
Proof.
  unfold admit_origin. set (e := if _ <=? duration_since _ _ then _ else _). clearbody e.
  case_decide; [|destruct (_ <=? _)]; cbn [fst]; rewrite dom_insert_L; set_solver.
Qed.

Lemma announce_claim_known now s f o : announce_claim now s f = Some o → sender_id (header f) ∈ ms_known_peers s.
Proof. unfold announce_claim. by case_decide. Qed.

Lemma process_announcement_local now t m f :
  am_local_capabilities (process_announcement now t m f).1 = am_local_capabilities m.
Proof.
  unfold process_announcement. destruct (origin_claim now m f) as [[[[p o] c] g]|]; [|done].
  destruct (foldl _ _ _) as [seen fresh]. destruct (negb fresh); [done|]. by destruct (0 <? _).
Qed.

(** An accepted claim names a well-formed identity. *)
Lemma announce_claim_ok now s f o : received f → announce_claim now s f = Some o → array_ok 32 o.
Proof.
  intros Hf Hc. destruct (announce_claim_origin _ _ _ _ Hc) as (p & Hd & Ho).
  pose proof (ok_payload _ (enc_ok _ (rc_encodable _ Hf))) as Hb.
  pose proof (po_origin _ (AnnouncePayload_decode_ok _ _ Hb Hd)) as Hw. rewrite Ho in Hw.
  destruct (an_origin_clock p); [apply Hw|done].
Qed.

Lemma provides_registered s origin caps n :
  provides (upd_router s (register_announced (ms_router s) origin caps)) n → provides s n ∨ n = origin.
Proof.
  intros (h & c & Hin). destruct (decide (n = origin)) as [->|Hn]; [by right|]. left.
  exists h, c. cbn in Hin. by apply register_announced_other in Hin.
Qed.

Lemma handle_announce_kept hk k s f s' effects :
  received f → handle_announce hk k s f = Ok (s', effects) → peers_kept s s'.
Proof.
  intros Hf. unfold handle_announce. destruct (announce_claim _ _ _) as [o|] eqn:Ec; [|by intros [= <- _]].
  pose proof (announce_claim_ok _ _ _ _ Hf Ec) as Ho. apply announce_claim_known in Ec. pose proof (admit_origin_dom (hk_admission hk) (sender_id (header f)) o
    (ms_origin_admission s)) as Hd. destruct (admit_origin _ _ _ _) as [adm admitted]. cbn [fst] in Hd.
  assert (H1 : peers_kept s (upd_origin_admission s adm)) by (split; [done|done|auto|cbn; set_solver|auto|done]).
  destruct (negb admitted); [by intros [= <- _]|]. destruct (announce_rate _ _ _ _) as [last in_time].
  destruct (negb in_time); [intros [= <- _]; etransitivity; [exact H1|by apply kept_unchanged]|].
  pose proof (process_announcement_local (hk_wall_process hk) (hk_seen hk) (ms_announcements s) f) as Hl.
  change (ms_announcements (upd_last_announce _ _)) with (ms_announcements s).
  destruct (process_announcement _ _ _ _) as [mgr r]. cbn [fst] in Hl.
  assert (H2 : peers_kept s (upd_announcements (upd_last_announce (upd_origin_admission s adm) last) mgr))
    by (etransitivity; [exact H1|]; split; [done|done|auto|cbn; set_solver|auto|done]).
  destruct r as [[caps fwd]|]; [|by intros [= <- _]]. set (s1 := upd_announcements _ _) in *.
  set (s2 := upd_router _ _). assert (H3 : peers_kept s s2).
  { etransitivity; [exact H2|]. subst s2. set (s3 := if decide _ then _ else _).
    assert (peers_kept s1 s3) as ->.
    { subst s3. case_decide; [done|]. split; [done|done| |cbn; set_solver|auto|done]. cbn. intros o' v.
      rewrite lookup_insert_Some. intros [[_ <-]|[_ Hv]]; [by right|by left]. }
    split; [done|done|auto|set_solver| |done].
    intros n [?| ->]%provides_registered; [by left|by right]. }
  clearbody s2.
  destruct fwd as [y|]; [|by intros [= <- _]]. by intros (x & _ & [= <- _])%bind_Ok_inv.
Qed.

Lemma handle_kept hk k s f a s' effects :
  received f → handle_axiom_frame hk k s f a = Ok (s', effects) → peers_kept s s'.
Proof.
  intros Hf. unfold handle_axiom_frame. intros ([[s1 ef1] consumed] & Ht%try_forward_kept & Hh)%bind_Ok_inv.
  etransitivity; [exact Ht|]. destruct consumed; [by injection Hh as <- _|].
  unfold handle_here in Hh. destruct (frame_type (header f)); try (by injection Hh as <- _).
  - unfold handle_intent in Hh. destruct (_ && _); [by injection Hh as <- _|].
    by destruct (trace_id f); injection Hh as <- _.
  - unfold handle_reply in Hh. destruct (trace_id f) as [t|]; [|by injection Hh as <- _].
    destruct (ms_pending_intents s1 !! t); injection Hh as <- _; by apply kept_unchanged.
  - by eapply handle_announce_kept.
  - unfold handle_reply in Hh. destruct (trace_id f) as [t|]; [|by injection Hh as <- _].
    destruct (ms_pending_intents s1 !! t); injection Hh as <- _; by apply kept_unchanged.
  - unfold handle_ping in Hh. case_decide; [|by injection Hh as <- _].
    destruct (trace_id f) as [t|]; [|by injection Hh as <- _]. by apply bind_Ok_inv in Hh as (x & _ & [= <- _]).
  - unfold handle_pong in Hh. destruct (trace_id f) as [t|]; [|by injection Hh as <- _].
    destruct (ms_pending_pings s1 !! t); injection Hh as <- _; by apply kept_unchanged.
Qed.

(** Unregistering adds no provider. *)
Lemma provides_unregistered s ns n :
  provides (upd_router s (foldl unregister_node (ms_router s) ns)) n → provides s n.
Proof.
  unfold provides. cbn. intros (h & c & Hin). exists h, c. revert Hin. generalize (ms_router s) as r.
  induction ns as [|x ns IH]; intros r; cbn; [done|]. intros Hin%IH.
  rewrite entries_unregister, list_elem_of_filter in Hin. apply Hin.
Qed.

Lemma maintenance_kept t now s : peers_kept s (run_announcement_maintenance t now s).
Proof.
  split; [done|done| | | |done].
  - cbn. intros o v Hv. left. revert Hv.
    generalize (filter (λ kv : NodeId * (NodeId * Z), ANNOUNCEMENT_MAX_AGE ≤ duration_since now kv.2.2)
                  (map_to_list (ms_reachable_via s))).*1. intros l.
    revert v. generalize (ms_reachable_via s). induction l as [|x l IH]; intros m v; cbn; [done|].
    intros Hv%IH. by apply lookup_delete_Some in Hv as [_ ?].
  - cbn. pose proof (dom_filter_subseteq (λ kv : NodeId * (Z * gset NodeId), duration_since now kv.2.1 < ANNOUNCEMENT_MAX_AGE)
      (ms_origin_admission s)). set_solver.
  - intros n Hn. left. exact (provides_unregistered s _ n Hn).
Qed.
End Kept.

(** ** The invariant of the peer table *)

Section Invariant.
Context `{Blake3} `{Ed25519}.
Variable max_places : Z.

Definition discovered_peers (peers : gmap NodeId PeerConnection) : gmap NodeId PeerConnection :=
  filter (λ kv, pc_discovered kv.2 = true) peers.

(** What the node can announce fits into a frame. *)
Definition announces_ok (s : MeshState) : Prop :=
  let l := am_local_capabilities (ms_announcements s) in Forall capability_ok l ∧ len l < 2 ^ 16.

(** The shared tables agree with the peer table; every relay is a peer, every
    admission window a peer's; discovery fills at most [max_peers] places. *)
Record net_inv (k : Keypair) (nm : NetworkManager) : Prop := {
  ni_mesh : mesh_inv k (nm_mesh nm);
  ni_known : ms_known_peers (nm_mesh nm) = dom (nm_peers nm);
  ni_addrs : ms_peer_addrs (nm_mesh nm) = pc_addr <$> nm_peers nm;
  ni_ids : map_Forall (λ n p, pc_node_id p = n) (nm_peers nm);
  ni_relays : map_Forall (λ _ v, v.1 ∈ dom (nm_peers nm)) (ms_reachable_via (nm_mesh nm));
  ni_windows : dom (ms_origin_admission (nm_mesh nm)) ⊆ dom (nm_peers nm);
  ni_discovered : Z.of_nat (size (discovered_peers (nm_peers nm))) ≤ nm_max_peers nm;
  ni_providers : ∀ n, provides (nm_mesh nm) n → array_ok 32 n;
  ni_local : announces_ok (nm_mesh nm);
  ni_max : nm_max_peers nm = max_places
}.

Lemma capability_hash_ok c : array_ok 16 (capability_hash c).
Proof.
  destruct (blake3_array (as_bytes c)) as [Hl Hb]. split; [|by apply Forall_take].
  unfold capability_hash. rewrite length_take. lia.
Qed.
Lemma register_local_ok caps m :
  Forall capability_ok (am_local_capabilities m) →
  Forall capability_ok (am_local_capabilities (register_local caps m)) ∧
  len (am_local_capabilities (register_local caps m)) = len (am_local_capabilities m) + len caps.
Proof.
  unfold register_local. revert m. induction caps as [|c caps IH]; intros m Hm; cbn; [split; [done|rewrite len_nil; lia]|].
  set (x := AnnouncedCapability_new _ _).
  assert (Hx : capability_ok x) by (split; cbn; [apply capability_hash_ok|split; [done|by repeat constructor]|lia|lia]).
  destruct (IH (Announce.register_capability m x)) as [H1 H2].
  - cbn. apply Forall_app. split; [done|by constructor].
  - split; [exact H1|]. etransitivity; [exact H2|]. cbn [am_local_capabilities Announce.register_capability set_local].
    rewrite len_app, !len_cons, !len_nil. lia.
Qed.

Lemma net_inv_new k now caps discovery :
  wire_clock_ok now → len caps < 2 ^ 16 → 0 ≤ max_places → net_inv k (net_new k now caps discovery max_places).
Proof.
  intros Hn Hc Hm. split; try done.
  - by apply mesh_inv_new.
  - intros n (h & c & Hin). by apply not_elem_of_nil in Hin.
  - destruct (register_local_ok caps (AnnouncementManager_new now k)) as [H1 H2]; [constructor|].
    split; [exact H1|]. cbn [ms_announcements nm_mesh net_new mesh_new]. rewrite H2. cbn. rewrite len_nil. lia.
Qed.

(** A new mesh state with the same peers. *)
Lemma net_inv_kept k nm nm' :
  net_inv k nm → mesh_inv k (nm_mesh nm') → peers_kept (nm_mesh nm) (nm_mesh nm') →
  nm_peers nm' = nm_peers nm → nm_max_peers nm' = nm_max_peers nm → net_inv k nm'.
Proof.
  intros [H1 H2 H3 H4 H5 H6 H7 H8 H9 H10] Hi [K A V W P L] Ep Em.
  split; rewrite ?Ep, ?Em; try done; [by rewrite K|by rewrite A| | | |].
  - intros o v Hv. destruct (V o v Hv) as [?|?]; [by apply (H5 o v)|by rewrite <- H2].
  - rewrite H2 in W. set_solver.
  - intros n Hn. destruct (P n Hn); auto.
  - unfold announces_ok. by rewrite L.
Qed.

(** *** Eviction *)

Lemma min_by_key_min {A} (key : A → Z) l x : min_by_key key l = Some x → x ∈ l ∧ ∀ y, y ∈ l → key x ≤ key y.
Proof.
  revert x. induction l as [|y l IH]; intros x; cbn; [done|].
  destruct (min_by_key key l) as [z|] eqn:E.
  - destruct (IH z eq_refl) as [Hz Hmin]. destruct (Z.leb_spec (key y) (key z)); intros [= <-]; split; try set_solver.
    + intros u [->|Hu]%elem_of_cons; [done|]. specialize (Hmin u Hu). lia.
    + intros u [->|Hu]%elem_of_cons; [lia|auto].
  - intros [= <-]. destruct l as [|u l]; [|cbn in E; repeat (case_match; try done)].
    split; [set_solver|]. intros u ->%list_elem_of_singleton. done.
Qed.
Lemma min_by_key_none {A} (key : A → Z) l : min_by_key key l = None → l = [].
Proof. destruct l as [|x l]; [done|]. cbn. repeat (case_match; try done). Qed.

Lemma evictable_spec peers id :
  evictable peers = Some id →
  ∃ p, peers !! id = Some p ∧ pc_discovered p = true ∧
       ∀ n q, peers !! n = Some q → pc_discovered q = true → pc_last_seen p ≤ pc_last_seen q.
Proof.
  unfold evictable. intros ([n p] & [Hin Hmin]%min_by_key_min & ->)%fmap_Some.
  apply list_elem_of_filter in Hin as [Hd Hp%elem_of_map_to_list]. exists p. split; [done|]. split; [done|].
  intros n' q Hq Hdq. apply (Hmin (n', q)), list_elem_of_filter. split; [done|by apply elem_of_map_to_list].
Qed.
Lemma evictable_none peers :
  evictable peers = None ↔ map_Forall (λ _ p, pc_discovered p = false) peers.
Proof.
  unfold evictable. rewrite fmap_None. split.
  - intros E%min_by_key_none n p Hp. destruct (pc_discovered p) eqn:Ed; [|done].
    assert (Hin : (n, p) ∈ filter (λ kv, pc_discovered kv.2 = true) (map_to_list peers))
      by (apply list_elem_of_filter; split; [done|by apply elem_of_map_to_list]).
    rewrite E in Hin. by apply not_elem_of_nil in Hin.
  - intros Ha. destruct (min_by_key _ _) as [[n p]|] eqn:E; [|done].
    apply min_by_key_min in E as [Hin _]. apply list_elem_of_filter in Hin as [Hd Hp%elem_of_map_to_list].
    specialize (Ha n p Hp). cbn in Hd. congruence.
Qed.

Lemma delete_all_lookup {A} (l : list NodeId) (m : gmap NodeId A) o v :
  foldl (λ m o, delete o m) m l !! o = Some v ↔ m !! o = Some v ∧ o ∉ l.
Proof.
  revert m. induction l as [|x l IH]; intros m; cbn; [set_solver|].
  rewrite IH, lookup_delete_Some. set_solver.
Qed.

Lemma evict_relays nm id o v :
  ms_reachable_via (nm_mesh (evict nm id)) !! o = Some v ↔
  ms_reachable_via (nm_mesh nm) !! o = Some v ∧ v.1 ≠ id.
Proof.
  unfold evict. cbn. rewrite delete_all_lookup. split; intros [Hv Ho]; (split; [done|]).
  - intros <-. apply Ho. apply list_elem_of_fmap. exists (o, v). split; [done|].
    apply list_elem_of_filter. split; [done|by apply elem_of_map_to_list].
  - intros ([o' v'] & -> & [E Hv'%elem_of_map_to_list]%list_elem_of_filter)%list_elem_of_fmap. cbn in *. congruence.
Qed.

Lemma discovered_delete peers id p :
  peers !! id = Some p → pc_discovered p = true →
  Z.of_nat (size (discovered_peers (delete id peers))) = Z.of_nat (size (discovered_peers peers)) - 1.
Proof.
  intros Hp Hd. unfold discovered_peers. rewrite map_filter_delete.
  assert (Hl : filter (λ kv : NodeId * PeerConnection, pc_discovered kv.2 = true) peers !! id = Some p)
    by (by apply map_lookup_filter_Some).
  rewrite map_size_delete, Hl. assert (size (filter (λ kv : NodeId * PeerConnection, pc_discovered kv.2 = true) peers) ≠ 0%nat).
  { intros E%map_size_empty_inv. by rewrite E in Hl. }
  lia.
Qed.

Lemma evict_inv k nm id p :
  net_inv k nm → nm_peers nm !! id = Some p → net_inv k (evict nm id).
Proof.
  intros [H1 H2 H3 H4 H5 H6 H7 H8 H9 H10] Hp. destruct H1 as [M1 M2 M3 M4 M5].
  split; cbn [nm_peers nm_max_peers evict set_cleanups set_mesh set_peers].
  - split; try done. cbn. by apply map_Forall_delete.
  - cbn. rewrite H2, dom_delete_L. done.
  - cbn. by rewrite H3, fmap_delete.
  - by apply map_Forall_delete.
  - intros o v [Hv Hne]%evict_relays. rewrite dom_delete_L. specialize (H5 o v Hv). cbn in H5. set_solver.
  - cbn. rewrite !dom_delete_L. set_solver.
  - etransitivity; [|exact H7]. apply inj_le. unfold discovered_peers. rewrite map_filter_delete.
    apply map_subseteq_size, delete_subseteq.
  - exact H8.
  - exact H9.
  - exact H10.
Qed.

(** *** Registration *)

Lemma add_peer_inv k nm p :
  net_inv k nm →
  Z.of_nat (size (discovered_peers (<[pc_node_id p := p]> (nm_peers nm)))) ≤ nm_max_peers nm →
  net_inv k (add_peer nm p).
Proof.
  intros [H1 H2 H3 H4 H5 H6 H7 H8 H9 H10] Hd. destruct H1 as [M1 M2 M3 M4 M5].
  split; cbn [nm_peers nm_max_peers add_peer set_mesh set_peers].
  - by split.
  - cbn. rewrite dom_insert_L, H2. done.
  - cbn. by rewrite H3, fmap_insert.
  - by apply map_Forall_insert_2.
  - intros o v Hv. cbn in Hv. specialize (H5 o v Hv). cbn in H5. rewrite dom_insert_L. set_solver.
  - cbn. rewrite dom_insert_L. set_solver.
  - done.
  - exact H8.
  - exact H9.
  - exact H10.
Qed.

Lemma discovered_insert_le peers n p :
  Z.of_nat (size (discovered_peers (<[n := p]> peers))) ≤ Z.of_nat (size (discovered_peers peers)) + 1.
Proof.
  unfold discovered_peers. destruct (pc_discovered p) eqn:Ed.
  - rewrite map_filter_insert_True by done. rewrite map_size_insert. case_match; unfold id; lia.
  - rewrite map_filter_insert_False by (cbn; congruence). rewrite map_filter_delete.
    pose proof (map_subseteq_size _ _ (delete_subseteq
      (filter (λ kv : NodeId * PeerConnection, pc_discovered kv.2 = true) peers) n)). lia.
Qed.
(** A peer dialled by hand, or one whose entry is updated, takes no new place. *)
Lemma discovered_insert_same peers n p :
  pc_discovered p = false ∨ (∃ q, peers !! n = Some q ∧ pc_discovered q = pc_discovered p) →
  Z.of_nat (size (discovered_peers (<[n := p]> peers))) ≤ Z.of_nat (size (discovered_peers peers)).
Proof.
  unfold discovered_peers. intros Hp. destruct (pc_discovered p) eqn:Ed.
  - destruct Hp as [?|(q & Hq & Hqd)]; [done|]. rewrite map_filter_insert_True by done.
    rewrite map_size_insert_Some; [done|]. exists q. by apply map_lookup_filter_Some.
  - rewrite map_filter_insert_False by (cbn; congruence). rewrite map_filter_delete.
    apply inj_le, map_subseteq_size, delete_subseteq.
Qed.
Lemma discovered_size_le peers : Z.of_nat (size (discovered_peers peers)) ≤ Z.of_nat (size peers).
Proof. apply inj_le, map_size_filter. Qed.

Lemma refresh_inv k nm n p :
  net_inv k nm → (∃ q, nm_peers nm !! n = Some q ∧ pc_discovered q = pc_discovered p) → pc_node_id p = n →
  net_inv k (set_mesh (set_peers nm (<[n := p]> (nm_peers nm)))
    (upd_peers (nm_mesh nm) (ms_known_peers (nm_mesh nm)) (<[n := pc_addr p]> (ms_peer_addrs (nm_mesh nm))))).
Proof.
  intros [H1 H2 H3 H4 H5 H6 H7 H8 H9 H10] Hq Hn. destruct H1 as [M1 M2 M3 M4 M5].
  assert (Ed : dom (<[n := p]> (nm_peers nm)) = dom (nm_peers nm)).
  { destruct Hq as (q & Hq & _). rewrite dom_insert_L. apply elem_of_dom_2 in Hq. set_solver. }
  split; cbn [nm_peers nm_max_peers set_mesh set_peers]; rewrite ?Ed; try done.
  - cbn. by rewrite H3, fmap_insert.
  - by apply map_Forall_insert_2.
  - etransitivity; [|exact H7]. apply discovered_insert_same. by right.
Qed.

Lemma register_peer_inv k now nm n a ts : net_inv k nm → net_inv k (register_peer now nm n a ts).
Proof.
  intros Hi. unfold register_peer. destruct (nm_peers nm !! n) as [p|] eqn:En.
  - destruct (_ <=? _); [done|]. apply (refresh_inv k nm n (mkPeer _ a _ _ _ _ ts now)); [done|by exists p|].
    exact (ni_ids _ _ Hi n p En).
  - set (p := mkPeer n a now 0 0 true ts now). destruct (Z.leb_spec (nm_max_peers nm) (Z.of_nat (size (nm_peers nm)))).
    + destruct (evictable (nm_peers nm)) as [id|] eqn:Ee; [|done].
      apply evictable_spec in Ee as (q & Hq & Hqd & _). apply add_peer_inv; [by eapply evict_inv|].
      etransitivity; [apply discovered_insert_le|]. cbn [nm_peers nm_max_peers evict set_cleanups set_mesh set_peers].
      rewrite (discovered_delete _ _ _ Hq Hqd). pose proof (ni_discovered _ _ Hi). lia.
    + apply add_peer_inv; [done|]. etransitivity; [apply discovered_insert_le|].
      pose proof (discovered_size_le (nm_peers nm)). lia.
Qed.

(** *** Steps *)

Definition step_ok (e : NetStep) : Prop :=
  match e with
  | NvMain _ _ data _ | NvDiscovery _ _ _ data _ => bytes_ok data
  | NvPing _ _ _ t => array_ok 8 t
  | NvAnnounce wall _ => wall < 2 ^ 40
  | NvRequest _ _ data t => bytes_ok data ∧ array_ok 8 t
  | NvRequestVia _ _ dest _ data t => bytes_ok data ∧ array_ok 8 t ∧ array_ok 32 dest
  | _ => True
  end.

(** A frame of the daemon is built, or too long and left empty. *)
Lemma build_total k ft t h p r :
  keypair_ok k → (FrameType_to_u8 ft < 32 ∧ 0 ≤ FrameType_to_u8 ft ∧ FrameType_from_u8 (FrameType_to_u8 ft) = ft) →
  array_ok 8 t → array_ok 16 h → option_ok routing_ok r → bytes_ok p →
  ∃ data, build_simple_frame k ft t h p r = Ok data.
Proof.
  intros. destruct (Z.le_gt_cases (len p) MAX_PAYLOAD_SIZE) as [Hl|Hl]; [|eexists; by apply build_oversized].
  eexists. by apply build_simple_frame_wire.
Qed.

Lemma sign_and_encode_wire k f :
  (FrameSigner_sign k f).2 = Ok tt → encodable (signed k f) → sign_and_encode_frame k f = Ok (wire (signed k f)).
Proof.
  intros H2 He. unfold sign_and_encode_frame, signed in *. destruct (FrameSigner_sign k f) as [g r]. cbn [fst snd] in *. subst r.
  pose proof (encodable_writable _ He) as Hw. pose proof (len_wire g Hw). pose proof (len_nonneg (wire g)).
  rewrite encode_writes_wire by (done || rewrite len_replicate; lia). cbn iota. f_equal. apply take_app_exact. lia.
Qed.
Lemma wire_nonempty f : encodable f → wire f ≠ [].
Proof.
  intros He E. pose proof (len_wire f (encodable_writable _ He)) as Hl. rewrite E, len_nil in Hl.
  rewrite wire_size_eq in Hl. pose proof (ext_size_nonneg f). pose proof (auth_size_nonneg (auth f)).
  pose proof (len_nonneg (payload f)). lia.
Qed.

Lemma announcement_frame wall m t :
  (create_announcement wall m t).2 = gossip_frame m Sig (announce_clock wall m) (announced wall m (Z.min t MAX_ANNOUNCE_TTL)).
Proof. unfold create_announcement, gossip_frame, announced. cbn. by rewrite foldl_add_capability. Qed.

Lemma announce_clock_ok wall m :
  wire_clock_ok (cm_clock (am_clock m)) → wall < 2 ^ 40 → wire_clock_ok (announce_clock wall m).
Proof.
  intros [Hp Hl] Hw. apply tick_wire_ok. unfold sync_physical.
  destruct (Z.ltb_spec (physical (cm_clock (am_clock m))) wall); split; cbn; lia.
Qed.

(** The announcement a node makes of itself is received by anyone as it was meant. *)
Lemma spawn_announce_spec wall k nm a :
  keypair_ok k → mesh_inv k (nm_mesh nm) → announces_ok (nm_mesh nm) → wall < 2 ^ 40 →
  let m := ms_announcements (nm_mesh nm) in
  let f := (create_announcement wall m MAX_ROUTE_INDIRECTION).2 in
  ∃ bytes, spawn_announce wall k nm a
    = Ok (set_mesh nm (upd_announcements (nm_mesh nm) (create_announcement wall m MAX_ROUTE_INDIRECTION).1),
          [send_raw (set_mesh nm (upd_announcements (nm_mesh nm) (create_announcement wall m MAX_ROUTE_INDIRECTION).1))
             a bytes]) ∧
    bytes = wire (signed k f) ∧ received (signed k f).
Proof.
  intros Hk Hi [Hc Hn] Hw m f. subst f. rewrite announcement_frame.
  set (c := announce_clock wall m). set (p := announced _ _ _).
  assert (Hcl : wire_clock_ok c) by (apply announce_clock_ok; [apply Hi|done]).
  assert (Hid : am_identity m = k) by apply Hi.
  assert (Hp : payload_ok p).
  { split; cbn; [done|done|done|]. split; [apply ed_public_ok|split; [exact Hcl|apply ed_sign_ok]]. }
  assert (Hl : len (AnnouncePayload_encode p) ≤ MAX_PAYLOAD_SIZE).
  { change p with (mkAnnounce (an_ttl p) (an_capabilities p) (Some (am_node_id m)) (Some c)
      (Some (Keypair_sign (am_identity m) (origin_signing_bytes_for (am_node_id m) c (am_local_capabilities m))))).
    rewrite (len_relayed p) by done. change (an_capabilities p) with (am_local_capabilities m).
    assert (Hn' : len (am_local_capabilities m) < 65536) by exact Hn. unfold MAX_PAYLOAD_SIZE. lia. }
  destruct (gossip_frame_signed k Sig m c p Hid Hk Hcl (AnnouncePayload_encode_bytes p Hp) Hl (or_intror eq_refl))
    as [Hs Hr].
  exists (wire (signed k (gossip_frame m Sig c p))). split; [|by split].
  unfold spawn_announce. pose proof (announcement_frame wall m MAX_ROUTE_INDIRECTION) as Ef. fold m.
  destruct (create_announcement wall m MAX_ROUTE_INDIRECTION) as [mgr frame]. cbn [snd fst] in *. subst frame.
  rewrite sign_and_encode_wire by (done || apply Hr). cbn [mbind outcome_bind].
  destruct (wire _) eqn:E; [|done]. apply wire_nonempty in E; [done|apply Hr].
Qed.

(** The maps of waiters and the scores are outside the invariant. *)
Lemma net_inv_pings k nm x : net_inv k nm → net_inv k (set_mesh nm (upd_pending_pings (nm_mesh nm) x)).
Proof.
  intros Hi. apply (net_inv_kept k nm); try done; [|by apply kept_unchanged].
  destruct (ni_mesh _ _ Hi). by split.
Qed.
Lemma net_inv_intents k nm x : net_inv k nm → net_inv k (set_mesh nm (upd_pending_intents (nm_mesh nm) x)).
Proof.
  intros Hi. apply (net_inv_kept k nm); try done; [|by apply kept_unchanged].
  destruct (ni_mesh _ _ Hi). by split.
Qed.
Lemma net_inv_router k nm r :
  net_inv k nm → (∀ n, provides (upd_router (nm_mesh nm) r) n → provides (nm_mesh nm) n) →
  net_inv k (set_mesh nm (upd_router (nm_mesh nm) r)).
Proof.
  intros Hi Hp. apply (net_inv_kept k nm); try done.
  - destruct (ni_mesh _ _ Hi). by split.
  - split; [done|done|auto|set_solver| |done]. intros n Hn. left. by apply Hp.
Qed.
Lemma net_inv_other k nm nm' :
  net_inv k nm → nm_mesh nm' = nm_mesh nm → nm_peers nm' = nm_peers nm → nm_max_peers nm' = nm_max_peers nm →
  net_inv k nm'.
Proof.
  intros Hi Em Ep Ex. apply (net_inv_kept k nm); try done; rewrite Em; [apply Hi|by apply kept_unchanged].
Qed.

Lemma handle_inv hk k nm f a :
  keypair_ok k → net_inv k nm → received f →
  ∃ s' effects, handle_axiom_frame hk k (nm_mesh nm) f a = Ok (s', effects) ∧ net_inv k (set_mesh nm s').
Proof.
  intros Hk Hi Hf. destruct (handle_total hk k (nm_mesh nm) f a Hk (ni_mesh _ _ Hi) Hf) as (s' & effects & E & Hm & _).
  exists s', effects. split; [done|]. apply (net_inv_kept k nm); try done. by eapply handle_kept.
Qed.

(** A verified frame is handled, anything else changes [nm'] only beside the peers. *)
Lemma frame_or_else_inv hk k nm nm' data a (effects : list NetEffect) :
  keypair_ok k → net_inv k nm → bytes_ok data → net_inv k nm' →
  ∃ nm1 effects1,
    (frame ← decode_verified_frame data;
     match frame with
     | Some f => r ← handle_axiom_frame hk k (nm_mesh nm) f a; Ok (set_mesh nm r.1, map OfHandler r.2)
     | None => Ok (nm', effects)
     end) = Ok (nm1, effects1) ∧ net_inv k nm1.
Proof.
  intros Hk Hi Hd Hi'. destruct (decode_verified_frame data) as [[f|]| |] eqn:Ed; cbn [mbind outcome_bind].
  - destruct (handle_inv hk k nm f a Hk Hi (decode_received _ _ Hd Ed)) as (s' & ef & -> & H1). cbn. eauto.
  - eauto.
  - done.
  - by apply decode_verified_no_panic in Ed.
Qed.

Lemma receive_main_inv hk wall k nm data a :
  keypair_ok k → net_inv k nm → bytes_ok data →
  ∃ nm' effects, receive_main hk wall k nm data a = Ok (nm', effects) ∧ net_inv k nm'.
Proof.
  intros Hk Hi Hd. unfold receive_main. destruct (extract_sender_with_timestamp data) as [[n ts]|];
    [|by apply (frame_or_else_inv hk k nm nm)].
  destruct (frame_msg_type data) as [t|]; [|eexists _, _; split; [done|]; by eapply net_inv_other].
  destruct (t =? _); [case_decide|destruct (t =? _)]; (eexists _, _; split; [done|]; by eapply net_inv_other).
Qed.
Lemma receive_discovery_inv hk wall now k nm data a :
  keypair_ok k → net_inv k nm → bytes_ok data →
  ∃ nm' effects, receive_discovery hk wall now k nm data a = Ok (nm', effects) ∧ net_inv k nm'.
Proof.
  intros Hk Hi Hd. unfold receive_discovery. destruct (is_recently_failed _ _ _); [eauto|].
  destruct (extract_sender_with_timestamp data) as [[n ts]|].
  - case_decide; [eauto|]. destruct (hello_timestamp_is_fresh _ _); [|eauto].
    eexists _, _. split; [done|]. by eapply net_inv_other.
  - apply frame_or_else_inv; try done. by eapply net_inv_other.
Qed.

Lemma connect_end_inv k nm now wall a : net_inv k nm → net_inv k (connect_end now wall k nm a).1.
Proof.
  intros Hi. unfold connect_end. destruct (nm_replies nm !! a) as [[n ts]|]; cbn [fst]; [|by eapply net_inv_other].
  apply add_peer_inv; [by eapply net_inv_other|]. etransitivity; [|apply (ni_discovered _ _ Hi)].
  apply discovered_insert_same. by left.
Qed.

Lemma spawn_ping_inv sent k nm n a t :
  keypair_ok k → net_inv k nm → array_ok 8 t →
  ∃ nm' effects e, spawn_ping sent k nm n a t = Ok (nm', effects, e) ∧ net_inv k nm'.
Proof.
  intros Hk Hi Ht. unfold spawn_ping, build_ping_frame.
  destruct (build_total k FPing t IntentHash_zero [] None) as [data ->]; try done; [by apply (array_ok_replicate 16 0)|].
  cbn [mbind outcome_bind]. destruct data; [|destruct sent]; (eexists _, _, _; split; [done|]; by apply net_inv_pings).
Qed.
Lemma send_request_inv sent k nm n a c data t r :
  keypair_ok k → net_inv k nm → array_ok 8 t → bytes_ok data → option_ok routing_ok r →
  ∃ nm' effects e, send_request sent k nm n a c data t r = Ok (nm', effects, e) ∧ net_inv k nm'.
Proof.
  intros Hk Hi Ht Hd Hr. unfold send_request, build_intent_frame.
  destruct (build_total k FIntent t (capability_hash c) data r) as [bytes ->]; try done; [apply capability_hash_ok|].
  cbn [mbind outcome_bind]. destruct bytes; [|destruct sent]; (eexists _, _, _; split; [done|]; by apply net_inv_intents).
Qed.
Lemma request_intent_via_inv sent k nm relay dest c data t :
  keypair_ok k → net_inv k nm → array_ok 8 t → bytes_ok data → array_ok 32 dest →
  ∃ nm' effects e, request_intent_via sent k nm relay dest c data t = Ok (nm', effects, e) ∧ net_inv k nm'.
Proof.
  intros Hk Hi Ht Hd Hdest. unfold request_intent_via. destruct (peer_addr nm relay); [|eauto].
  by apply send_request_inv.
Qed.

Lemma elem_of_insert_desc_addr {A} (key : A → Z) x y l : y ∈ insert_desc key x l → y = x ∨ y ∈ l.
Proof. induction l as [|z l IH]; cbn; [set_solver|]. destruct (_ <=? _); set_solver. Qed.
Lemma elem_of_sort_desc {A} (key : A → Z) y l : y ∈ sort_desc key l → y ∈ l.
Proof. induction l as [|z l IH]; cbn; [done|]. intros [->|?]%elem_of_insert_desc_addr; set_solver. Qed.

(** A provider that is discovered is registered. *)
Lemma discover_provides s i r : r ∈ discover (ms_router s) i → provides s (dr_agent r).
Proof.
  unfold discover. intros ([n c] & Hin & E)%elem_of_sort_desc%list_elem_of_omap. exists (ai_hash i), c.
  unfold discovery_of in E. destruct (evaluate_constraints _ _ _ _) as [[] b]; [|done].
  by injection E as <-.
Qed.
Lemma request_intent_inv sent k nm c data t :
  keypair_ok k → net_inv k nm → array_ok 8 t → bytes_ok data →
  ∃ nm' effects e, request_intent sent k nm c data t = Ok (nm', effects, e) ∧ net_inv k nm'.
Proof.
  intros Hk Hi Ht Hd. unfold request_intent. destruct (head _) as [r|] eqn:Eh; cbn; [|eauto].
  destruct (peer_addr nm (dr_agent r)); [by apply send_request_inv|].
  destruct (ms_reachable_via (nm_mesh nm) !! dr_agent r) as [[relay seen]|]; [|eauto].
  apply request_intent_via_inv; try done. apply (ni_providers _ _ Hi), (discover_provides _ (AiIntent_from_str c)).
  destruct (discover _ _) as [|x l]; [done|]. cbn in Eh. injection Eh as ->. set_solver.
Qed.

Lemma net_step_inv k nm e :
  keypair_ok k → net_inv k nm → step_ok e → ∃ nm' effects, net_step k nm e = Ok (nm', effects) ∧ net_inv k nm'.
Proof.
  intros Hk Hi He. destruct e as [hk wall data a|hk wall now data a|now|i|wall sent a|now wall a|sent n a t|t|wall a
    |sent c data t|sent relay dest c data t|elapsed n t w|ts now]; cbn [net_step].
  - by apply receive_main_inv.
  - by apply receive_discovery_inv.
  - unfold poll_event. destruct (nm_events nm) as [|e es]; [eauto|].
    assert (Hi' : net_inv k (set_events nm es)) by (by eapply net_inv_other).
    destruct e; cbn; (eexists _, _; split; [done|]); try done. by apply register_peer_inv.
  - destruct (nm_cleanups nm !! i) as [task|]; [|eauto]. eexists _, _. split; [done|].
    apply (net_inv_router k (set_cleanups nm _)); [by eapply net_inv_other|]. cbn.
    intros n Hn. exact (provides_unregistered _ (task.1 :: _) n Hn).
  - unfold connect_begin. destruct sent; (eexists _, _; split; [done|]; by eapply net_inv_other).
  - eexists _, _. split; [done|]. by apply connect_end_inv.
  - destruct (spawn_ping_inv sent k nm n a t Hk Hi He) as (nm' & ef & r & -> & ?). cbn. eauto.
  - eexists _, _. split; [done|]. by apply net_inv_pings.
  - destruct (spawn_announce_spec wall k nm a Hk (ni_mesh _ _ Hi) (ni_local _ _ Hi) He) as (bytes & -> & _).
    eexists _, _. split; [done|]. apply (net_inv_kept k nm); try done.
    + destruct (ni_mesh _ _ Hi) as [H1 H2 H3 H4 H5]. split; try done. cbn. by apply announce_clock_ok.
    + split; [done|done|auto|set_solver|auto|done].
  - destruct He as [Hd Ht]. destruct (request_intent_inv sent k nm c data t Hk Hi Ht Hd) as (nm' & ef & r & -> & ?).
    cbn. eauto.
  - destruct He as (Hd & Ht & Hdest).
    destruct (request_intent_via_inv sent k nm relay dest c data t Hk Hi Ht Hd Hdest) as (nm' & ef & r & -> & ?).
    cbn. eauto.
  - eexists _, _. split; [done|]. unfold request_end. destruct w as [[|]| |]; cbn [fst].
    3,4: apply (net_inv_intents k (set_mesh nm (upd_router _ _))).
    all: by apply net_inv_router.
  - eexists _, _. split; [done|]. apply (net_inv_kept k nm); try done; [|apply maintenance_kept].
    apply maintenance_inv, Hi.
Qed.

Lemma net_run_inv k nm es :
  keypair_ok k → net_inv k nm → Forall step_ok es →
  ∃ nm' effects, net_run k nm es = Ok (nm', effects) ∧ net_inv k nm'.
Proof.
  intros Hk Hi Hes. revert nm Hi. induction Hes as [|e es He _ IH]; intros nm Hi; cbn; [eauto|].
  destruct (net_step_inv k nm e Hk Hi He) as (nm1 & ef & -> & Hi1). cbn.
  destruct (IH nm1 Hi1) as (nm2 & ef2 & -> & Hi2). cbn. eauto.
Qed.

End Invariant.

Section PeerTable.
Context `{Blake3} `{Ed25519}.


(** *** What changes the table *)

Lemma frame_or_else_peers hk k nm nm' data a effects nm1 effects1 :
  (frame ← decode_verified_frame data;
   match frame with
   | Some f => r ← handle_axiom_frame hk k (nm_mesh nm) f a; Ok (set_mesh nm r.1, map OfHandler r.2)
   | None => Ok (nm', effects)
   end) = Ok (nm1, effects1) →
  (∃ s, nm1 = set_mesh nm s) ∨ nm1 = nm'.
Proof.
  intros ([f|] & _ & Hr)%bind_Ok_inv; [|right; by injection Hr as <- _].
  apply bind_Ok_inv in Hr as (r & _ & Hr). left. injection Hr as <- _. eauto.
Qed.

(** The HELLO a datagram carries. *)
Definition hello_of (data : list Z) (msg_type : Z) (n : NodeId) (ts : Z) : Prop :=
  extract_sender_with_timestamp data = Some (n, ts) ∧ frame_msg_type data = Some msg_type.

(** What one step does outside the mesh state. *)
Inductive table_step (nm : NetworkManager) (nm' : NetworkManager) : NetStep → Prop :=
  | TsQuiet e :
      nm_peers nm' = nm_peers nm → nm_replies nm' = nm_replies nm →
      nm_pending_connects nm' ⊆ nm_pending_connects nm →
      (∀ n a ts, PeerDiscovered n a ts ∈ nm_events nm' → PeerDiscovered n a ts ∈ nm_events nm) → table_step nm nm' e
  | TsHello e data a n ts :
      nm_peers nm' = nm_peers nm → nm_replies nm' = nm_replies nm → nm_pending_connects nm' = nm_pending_connects nm →
      ((∃ hk wall, e = NvMain hk wall data a) ∨ (∃ hk wall now, e = NvDiscovery hk wall now data a)) →
      extract_sender_with_timestamp data = Some (n, ts) →
      (∀ n' a' ts', PeerDiscovered n' a' ts' ∈ nm_events nm' →
         PeerDiscovered n' a' ts' ∈ nm_events nm ∨ (n', a', ts') = (n, a, ts)) → table_step nm nm' e
  | TsReply hk wall data a n ts :
      nm_peers nm' = nm_peers nm → nm_replies nm' = <[a := (n, ts)]> (nm_replies nm) →
      a ∈ nm_pending_connects nm → nm_pending_connects nm' = nm_pending_connects nm ∖ {[a]} →
      hello_of data HELLO_ACK_MSG_TYPE n ts →
      (∀ n' a' ts', PeerDiscovered n' a' ts' ∈ nm_events nm' → PeerDiscovered n' a' ts' ∈ nm_events nm) →
      table_step nm nm' (NvMain hk wall data a)
  | TsConnect wall a :
      nm_peers nm' = nm_peers nm → nm_replies nm' = delete a (nm_replies nm) →
      nm_pending_connects nm' = {[a]} ∪ nm_pending_connects nm → nm_events nm' = nm_events nm →
      table_step nm nm' (NvConnect wall true a)
  | TsGiveUp wall a :
      nm_peers nm' = nm_peers nm → nm_replies nm' = delete a (nm_replies nm) →
      nm_pending_connects nm' ⊆ nm_pending_connects nm → nm_events nm' = nm_events nm →
      table_step nm nm' (NvConnect wall false a)
  | TsConnected now wall a n ts hello_len :
      nm_replies nm !! a = Some (n, ts) →
      nm_peers nm' = <[n := mkPeer n a now hello_len 0 false ts now]> (nm_peers nm) →
      nm_replies nm' = delete a (nm_replies nm) → nm_pending_connects nm' = nm_pending_connects nm →
      nm_events nm' = nm_events nm → table_step nm nm' (NvConnected now wall a)
  | TsRegister now n a ts es :
      nm_events nm = PeerDiscovered n a ts :: es → nm_events nm' = es →
      nm_peers nm' = nm_peers (register_peer now (set_events nm es) n a ts) → nm_replies nm' = nm_replies nm →
      nm_pending_connects nm' = nm_pending_connects nm → table_step nm nm' (NvEvent now).

Lemma register_peer_rest now nm n a ts :
  nm_replies (register_peer now nm n a ts) = nm_replies nm ∧
  nm_pending_connects (register_peer now nm n a ts) = nm_pending_connects nm ∧
  nm_events (register_peer now nm n a ts) = nm_events nm.
Proof.
  unfold register_peer. destruct (nm_peers nm !! n); [by destruct (_ <=? _)|].
  destruct (_ <=? _); [by destruct (evictable _)|done].
Qed.

Lemma receive_main_table hk wall k nm data a nm' effects :
  receive_main hk wall k nm data a = Ok (nm', effects) → table_step nm nm' (NvMain hk wall data a).
Proof.
  unfold receive_main. destruct (extract_sender_with_timestamp data) as [[n ts]|] eqn:Ex.
  - assert (Hother : table_step nm (push_event nm (MessageReceived n data)) (NvMain hk wall data a)).
    { apply TsQuiet; try done. cbn. intros n' a' ts' [?|?%list_elem_of_singleton]%elem_of_app; done. }
    destruct (frame_msg_type data) as [t|] eqn:Et; [|by intros [= <- _]].
    destruct (Z.eqb_spec t HELLO_ACK_MSG_TYPE) as [->|_]; [case_decide; [|by intros [= <- _]]|].
    + intros [= <- _]. apply (TsReply nm _ hk wall data a n ts); try done.
      cbn. intros n' a' ts' [?|?%list_elem_of_singleton]%elem_of_app; done.
    + destruct (Z.eqb_spec t HELLO_MSG_TYPE) as [->|_]; [|by intros [= <- _]].
      intros [= <- _]. apply (TsHello nm _ _ data a n ts); try done; [left; eauto|].
      cbn. intros n' a' ts' [[?|E%list_elem_of_singleton]%elem_of_app|?%list_elem_of_singleton]%elem_of_app;
        [by left| |done]. right. congruence.
  - intros [[s ->]| ->]%frame_or_else_peers; by apply TsQuiet.
Qed.
Lemma receive_discovery_table hk wall now k nm data a nm' effects :
  receive_discovery hk wall now k nm data a = Ok (nm', effects) →
  table_step nm nm' (NvDiscovery hk wall now data a).
Proof.
  unfold receive_discovery. destruct (is_recently_failed _ _ _); [intros [= <- _]; by apply TsQuiet|].
  destruct (extract_sender_with_timestamp data) as [[n ts]|] eqn:Ex.
  - case_decide; [intros [= <- _]; by apply TsQuiet|].
    destruct (hello_timestamp_is_fresh _ _); [|intros [= <- _]; by apply TsQuiet].
    intros [= <- _]. apply (TsHello nm _ _ data a n ts); try done; [right; eauto|].
    cbn. intros n' a' ts' [?|E%list_elem_of_singleton]%elem_of_app; [by left|]. right. congruence.
  - intros [[s ->]| ->]%frame_or_else_peers; by apply TsQuiet.
Qed.

(** Everything that only sends or counts leaves the table alone. *)
Lemma request_peers sent k nm c data t nm' ef e :
  request_intent sent k nm c data t = Ok (nm', ef, e) → ∃ s, nm' = set_mesh nm s.
Proof.
  assert (Hs : ∀ n a r, send_request sent k nm n a c data t r = Ok (nm', ef, e) → ∃ s, nm' = set_mesh nm s).
  { intros n a r. unfold send_request. intros (bytes & _ & Hb)%bind_Ok_inv.
    destruct bytes; [|destruct sent]; injection Hb as <- _ _; eauto. }
  assert (Hn : ∃ s, nm = set_mesh nm s) by (exists (nm_mesh nm); by destruct nm).
  unfold request_intent. destruct (dr_agent <$> _) as [n|]; [|intros [= <- _ _]; done].
  destruct (peer_addr nm n); [apply Hs|]. destruct (ms_reachable_via _ !! n) as [[relay ?]|]; [|intros [= <- _ _]; done].
  unfold request_intent_via. destruct (peer_addr nm relay); [apply Hs|]. intros [= <- _ _]; done.
Qed.
Lemma request_via_peers sent k nm relay dest c data t nm' ef e :
  request_intent_via sent k nm relay dest c data t = Ok (nm', ef, e) → ∃ s, nm' = set_mesh nm s.
Proof.
  unfold request_intent_via. destruct (peer_addr nm relay); [|intros [= <- _ _]; exists (nm_mesh nm); by destruct nm].
  unfold send_request. intros (bytes & _ & Hb)%bind_Ok_inv. destruct bytes; [|destruct sent]; injection Hb as <- _ _; eauto.
Qed.
Lemma table_step_mesh nm s e : table_step nm (set_mesh nm s) e.
Proof. by apply TsQuiet. Qed.

Lemma net_step_table k nm e nm' effects : net_step k nm e = Ok (nm', effects) → table_step nm nm' e.
Proof.
  destruct e as [hk wall data a|hk wall now data a|now|i|wall sent a|now wall a|sent n a t|t|wall a
    |sent c data t|sent relay dest c data t|elapsed n t w|ts now]; cbn [net_step].
  - apply receive_main_table.
  - apply receive_discovery_table.
  - unfold poll_event. destruct (nm_events nm) as [|e es] eqn:Ee; [intros [= <- _]; by apply TsQuiet|].
    destruct e as [n|n|n a ts|n data|e]; cbn; intros [= <- _];
      try (apply TsQuiet; try done; cbn; rewrite Ee; by intros; right).
    destruct (register_peer_rest now (set_events nm es) n a ts) as (E1 & E2 & E3).
    by apply (TsRegister nm _ now n a ts es).
  - destruct (nm_cleanups nm !! i); intros [= <- _]; by apply TsQuiet.
  - unfold connect_begin. destruct sent; intros [= <- _]; [by apply TsConnect|].
    apply TsGiveUp; try done. cbn. set_solver.
  - unfold connect_end. destruct (nm_replies nm !! a) as [[n ts]|] eqn:Er; intros [= <- _].
    + by eapply (TsConnected nm _ now wall a n ts).
    + apply TsQuiet; try done. cbn. set_solver.
  - unfold spawn_ping. intros ([[nm1 ef] e] & (bytes & _ & Hb)%bind_Ok_inv & [= <- _])%bind_Ok_inv.
    destruct bytes; [|destruct sent]; injection Hb as <- _ _; apply table_step_mesh.
  - intros [= <- _]. apply table_step_mesh.
  - unfold spawn_announce. destruct (create_announcement _ _ _) as [mgr f].
    intros (bytes & _ & [= <- _])%bind_Ok_inv. apply table_step_mesh.
  - intros ([[nm1 ef] e] & [s ->]%request_peers & [= <- _])%bind_Ok_inv. apply table_step_mesh.
  - intros ([[nm1 ef] e] & [s ->]%request_via_peers & [= <- _])%bind_Ok_inv. apply table_step_mesh.
  - unfold request_end. destruct w as [[|]| |]; intros [= <- _]; apply table_step_mesh.
  - intros [= <- _]. apply table_step_mesh.
Qed.

(** What [register_peer] does to the entry of [m]. *)
Lemma register_peer_lookup now nm n a ts m :
  let peers' := nm_peers (register_peer now nm n a ts) in
  peers' !! m = nm_peers nm !! m ∨
  (m = n ∧ ∃ p', peers' !! n = Some p' ∧ pc_addr p' = a ∧ pc_last_hello_ts p' = ts ∧ pc_last_seen p' = now ∧
     match nm_peers nm !! n with
     | Some p => pc_last_hello_ts p < ts ∧ pc_discovered p' = pc_discovered p
     | None => pc_discovered p' = true
     end) ∨
  (m ≠ n ∧ peers' !! m = None ∧ nm_peers nm !! n = None ∧ nm_max_peers nm ≤ Z.of_nat (size (nm_peers nm)) ∧
     ∃ p, nm_peers nm !! m = Some p ∧ pc_discovered p = true ∧
       ∀ x q, nm_peers nm !! x = Some q → pc_discovered q = true → pc_last_seen p ≤ pc_last_seen q).
Proof.
  cbn. unfold register_peer. destruct (nm_peers nm !! n) as [p|] eqn:En.
  - destruct (Z.leb_spec ts (pc_last_hello_ts p)); [by left|]. cbn. destruct (decide (m = n)) as [->|Hm].
    + right. left. split; [done|]. rewrite lookup_insert_eq. eexists. split; [done|]. cbn. by split_and!.
    + left. by rewrite lookup_insert_ne.
  - destruct (Z.leb_spec (nm_max_peers nm) (Z.of_nat (size (nm_peers nm)))) as [Hf|Hr].
    + destruct (evictable (nm_peers nm)) as [id|] eqn:Ee; [|by left].
      apply evictable_spec in Ee as (q & Hq & Hd & Hmin). cbn. destruct (decide (m = n)) as [->|Hm].
      * right. left. split; [done|]. rewrite lookup_insert_eq. eexists. split; [done|]. cbn. by split_and!.
      * rewrite lookup_insert_ne by done. destruct (decide (m = id)) as [->|Hid].
        -- right. right. rewrite lookup_delete_eq. split_and!; try done. eauto.
        -- left. by rewrite lookup_delete_ne.
    + cbn. destruct (decide (m = n)) as [->|Hm].
      * right. left. split; [done|]. rewrite lookup_insert_eq. eexists. split; [done|]. cbn. by split_and!.
      * left. by rewrite lookup_insert_ne.
Qed.

(** C9: What can change a peer's entry, step by step.  In any state, a step leaves
    the entry of a node as it is unless the event loop takes a HELLO off the channel
    or a [connect] gets its reply.  A HELLO changes the entry of its signer only when its
    timestamp is newer than the last one accepted, so a replay has no effect, and it
    never turns an explicit peer into a discovered one; the only other entry it can
    touch is one that is evicted, and then the signer was unknown, the table full, and
    the victim the discovered peer heard of least recently.  A [connect] changes the entry of
    the node that answered, which becomes an explicit peer.  Explicit peers are
    therefore never evicted. *)
Theorem peer_changes k nm e nm' effects :
  net_step k nm e = Ok (nm', effects) → ∀ m,
  nm_peers nm' !! m = nm_peers nm !! m ∨
  (∃ now n a ts es, e = NvEvent now ∧ nm_events nm = PeerDiscovered n a ts :: es ∧
     ((m = n ∧ ∃ p', nm_peers nm' !! n = Some p' ∧ pc_addr p' = a ∧ pc_last_hello_ts p' = ts ∧ pc_last_seen p' = now ∧
         match nm_peers nm !! n with
         | Some p => pc_last_hello_ts p < ts ∧ pc_discovered p' = pc_discovered p
         | None => pc_discovered p' = true
         end) ∨
      (m ≠ n ∧ nm_peers nm' !! m = None ∧ nm_peers nm !! n = None ∧
         nm_max_peers nm ≤ Z.of_nat (size (nm_peers nm)) ∧
         ∃ p, nm_peers nm !! m = Some p ∧ pc_discovered p = true ∧
           ∀ x q, nm_peers nm !! x = Some q → pc_discovered q = true → pc_last_seen p ≤ pc_last_seen q))) ∨
  (∃ now wall a ts p', e = NvConnected now wall a ∧ nm_replies nm !! a = Some (m, ts) ∧
     nm_peers nm' !! m = Some p' ∧ pc_addr p' = a ∧ pc_last_hello_ts p' = ts ∧ pc_discovered p' = false).
Proof.
  intros Hs%net_step_table m. destruct Hs as [e E|e data a n ts E|hk wall data a n ts E|wall a E|wall a E
    |now wall a n ts hl Hr E|now n a ts es He _ E]; try (left; by rewrite E).
  - rewrite E. destruct (decide (m = n)) as [->|Hm]; [|left; by rewrite lookup_insert_ne].
    right. right. exists now, wall, a, ts. rewrite lookup_insert_eq. eexists. by split_and!.
  - destruct (register_peer_lookup now (set_events nm es) n a ts m) as [Hl|Hl]; rewrite <- E in Hl; [by left|].
    right. left. exists now, n, a, ts, es. by split_and!.
Qed.

(** Where an entry comes from: a datagram of the run. *)
Definition arrived (es : list NetStep) (a : SocketAddr) (data : list Z) : Prop :=
  ∃ e, e ∈ es ∧ ((∃ hk wall, e = NvMain hk wall data a) ∨ (∃ hk wall now, e = NvDiscovery hk wall now data a)).
Definition heard (es : list NetStep) (n : NodeId) (a : SocketAddr) (ts : Z) : Prop :=
  ∃ data, arrived es a data ∧ extract_sender_with_timestamp data = Some (n, ts).
Definition dialled (es : list NetStep) (a : SocketAddr) : Prop := ∃ wall, NvConnect wall true a ∈ es.
Definition answered (es : list NetStep) (n : NodeId) (a : SocketAddr) (ts : Z) : Prop :=
  dialled es a ∧ ∃ data, arrived es a data ∧ hello_of data HELLO_ACK_MSG_TYPE n ts.

Record provenance (es : list NetStep) (nm : NetworkManager) : Prop := {
  pv_peers : ∀ n p, nm_peers nm !! n = Some p → heard es n (pc_addr p) (pc_last_hello_ts p);
  pv_explicit : ∀ n p, nm_peers nm !! n = Some p → pc_discovered p = false → ∃ a ts, answered es n a ts;
  pv_events : ∀ n a ts, PeerDiscovered n a ts ∈ nm_events nm → heard es n a ts;
  pv_replies : ∀ a n ts, nm_replies nm !! a = Some (n, ts) → answered es n a ts;
  pv_pending : ∀ a, a ∈ nm_pending_connects nm → dialled es a
}.

Lemma heard_mono es es' n a ts : es ⊆ es' → heard es n a ts → heard es' n a ts.
Proof. intros Hs (data & (e & He & Hd) & Hx). exists data. split; [|done]. exists e. split; [by apply Hs|done]. Qed.
Lemma dialled_mono es es' a : es ⊆ es' → dialled es a → dialled es' a.
Proof. intros Hs [wall Hw]. exists wall. by apply Hs. Qed.
Lemma answered_mono es es' n a ts : es ⊆ es' → answered es n a ts → answered es' n a ts.
Proof.
  intros Hs [Hd (data & (e & He & Ha) & Hx)]. split; [by eapply dialled_mono|]. exists data. split; [|done].
  exists e. split; [by apply Hs|done].
Qed.
Lemma answered_heard es n a ts : answered es n a ts → heard es n a ts.
Proof. intros [_ (data & Ha & Hx & _)]. exists data. by split. Qed.

Lemma provenance_mono es es' nm : es ⊆ es' → provenance es nm → provenance es' nm.
Proof.
  intros Hs [V1 V2 V3 V4 V5]. split.
  - intros n p Hp. by eapply heard_mono, V1.
  - intros n p Hp Hd. destruct (V2 n p Hp Hd) as (a & ts & Ha). exists a, ts. by eapply answered_mono.
  - intros n a ts Hin. by eapply heard_mono, V3.
  - intros a n ts Hr. by eapply answered_mono, V4.
  - intros a Ha. by eapply dialled_mono, V5.
Qed.

Lemma provenance_same es nm nm' :
  provenance es nm → nm_peers nm' = nm_peers nm →
  (∀ a n ts, nm_replies nm' !! a = Some (n, ts) → nm_replies nm !! a = Some (n, ts)) →
  nm_pending_connects nm' ⊆ nm_pending_connects nm →
  (∀ n a ts, PeerDiscovered n a ts ∈ nm_events nm' → PeerDiscovered n a ts ∈ nm_events nm) → provenance es nm'.
Proof. intros [V1 V2 V3 V4 V5] Ep Er Hc He. split; rewrite ?Ep; auto. Qed.

Lemma provenance_register es nm nm' now n a ts rest :
  provenance es nm → nm_events nm = PeerDiscovered n a ts :: rest → nm_events nm' = rest →
  nm_peers nm' = nm_peers (register_peer now (set_events nm rest) n a ts) → nm_replies nm' = nm_replies nm →
  nm_pending_connects nm' = nm_pending_connects nm → provenance es nm'.
Proof.
  intros [V1 V2 V3 V4 V5] He He' Ep Er Ec.
  assert (Hh : heard es n a ts) by (apply V3; rewrite He; by left).
  split.
  - intros m p Hp. rewrite Ep in Hp.
    destruct (register_peer_lookup now (set_events nm rest) n a ts m) as [E|[(-> & p' & E & <- & <- & _)|(_ & E & _)]];
      rewrite E in Hp; [by apply V1|by injection Hp as <-|done].
  - intros m p Hp Hd. rewrite Ep in Hp.
    destruct (register_peer_lookup now (set_events nm rest) n a ts m) as [E|[(-> & p' & E & _ & _ & _ & Hq)|(_ & E & _)]];
      rewrite E in Hp; [by apply (V2 m p)| |done].
    injection Hp as <-. cbn [nm_peers set_events] in Hq. destruct (nm_peers nm !! n) as [q|] eqn:En; [|congruence].
    apply (V2 n q En). destruct Hq; congruence.
  - intros m b us Hin. apply V3. rewrite He. right. by rewrite <- He'.
  - rewrite Er. exact V4.
  - rewrite Ec. exact V5.
Qed.

Lemma provenance_step es nm nm' e : provenance es nm → e ∈ es → table_step nm nm' e → provenance es nm'.
Proof.
  intros Hp Hin Ht. destruct Ht as [e E1 E2 E3 E4|e data a n ts E1 E2 E3 He Hx E4|hk wall data a n ts E1 E2 Ha E3 Hx E4
    |wall a E1 E2 E3 E4|wall a E1 E2 E3 E4|now wall a n ts hl Hr E1 E2 E3 E4|now n a ts es' He E1 E2 E3 E4].
  - apply (provenance_same es nm nm' Hp); try done. by rewrite E2.
  - destruct Hp as [V1 V2 V3 V4 V5]. split; rewrite ?E1, ?E2, ?E3; try done.
    intros n' a' ts' [Hn|[= -> -> ->]]%E4; [by apply V3|]. exists data. split; [|done]. by exists e.
  - assert (Harr : arrived es a data) by (exists (NvMain hk wall data a); eauto).
    destruct Hp as [V1 V2 V3 V4 V5]. split; rewrite ?E1, ?E2, ?E3; auto.
    + intros a' n' ts'. rewrite lookup_insert_Some. intros [[<- [= <- <-]]|[_ Hr]]; [|by apply V4].
      split; [by apply V5|]. by exists data.
    + intros a' Ha'. apply V5. set_solver.
  - destruct Hp as [V1 V2 V3 V4 V5]. split; rewrite ?E1, ?E2, ?E3, ?E4; auto.
    + intros a' n' ts' [_ Hr]%lookup_delete_Some. by apply V4.
    + intros a' [->%elem_of_singleton|Ha']%elem_of_union; [by exists wall|by apply V5].
  - apply (provenance_same es nm nm' Hp); try done; rewrite ?E2, ?E4; [|done].
    by intros a' n' ts' [_ Hr]%lookup_delete_Some.
  - destruct Hp as [V1 V2 V3 V4 V5]. pose proof (V4 _ _ _ Hr) as Ha. split; rewrite ?E1, ?E2, ?E3, ?E4; auto.
    + intros m p. rewrite lookup_insert_Some. intros [[<- <-]|[_ Hp]]; [by apply answered_heard|by apply V1].
    + intros m p. rewrite lookup_insert_Some. intros [[<- <-]|[_ Hp]]; [by exists a, ts|by apply V2].
    + intros a' n' ts' [_ Hr']%lookup_delete_Some. by apply V4.
  - by apply (provenance_register es nm nm' now n a ts es').
Qed.

Lemma provenance_run k nm done_steps es nm' effects :
  provenance done_steps nm → net_run k nm es = Ok (nm', effects) → provenance (done_steps ++ es) nm'.
Proof.
  revert nm done_steps effects. induction es as [|e es IH]; intros nm ds effects Hp.
  - intros [= <- _]. by rewrite app_nil_r.
  - cbn. intros ([nm1 ef1] & Hs & ([nm2 ef2] & Hr & [= <- _])%bind_Ok_inv)%bind_Ok_inv. cbn in *.
    replace (ds ++ e :: es) with ((ds ++ [e]) ++ es) by (by rewrite <- app_assoc).
    apply (IH nm1 (ds ++ [e]) ef2); [|done].
    apply (provenance_step _ nm nm1 e); [|set_solver|by eapply net_step_table].
    eapply provenance_mono; [|exact Hp]. set_solver.
Qed.

(** C7: Every entry of the peer table is vouched for by its key.  Whatever happened since
    the daemon started, a peer is in the table with an address and a timestamp only if
    a datagram came from that address that is a HELLO or a reply, signed by that peer, with
    that timestamp; and a peer counts as explicit only if it answered, with a
    HELLO_ACK of its own, from an address this daemon dialled. *)
Theorem peers_authenticated k now caps discovery max_peers es nm effects n p :
  net_run k (net_new k now caps discovery max_peers) es = Ok (nm, effects) → nm_peers nm !! n = Some p →
  (∃ data, arrived es (pc_addr p) data ∧ extract_sender_with_timestamp data = Some (n, pc_last_hello_ts p) ∧
     verify_key n (at_slice data 0 46) (at_slice data 46 110) = true) ∧
  (pc_discovered p = false → ∃ a data ts, dialled es a ∧ arrived es a data ∧ hello_of data HELLO_ACK_MSG_TYPE n ts).
Proof.
  intros Hr Hp. assert (Hv : provenance es nm).
  { apply (provenance_run k (net_new k now caps discovery max_peers) [] es nm effects); [|done].
    split; cbn; set_solver. }
  split.
  - destruct (pv_peers _ _ Hv n p Hp) as (data & Ha & Hx). exists data. split; [done|]. split; [done|].
    unfold extract_sender_with_timestamp in Hx. destruct (_ <? _); [done|]. case_decide; [done|].
    unfold NodeId_verify in Hx. destruct (verify_key _ _ _) eqn:E; [|done]. by injection Hx as <- _.
  - intros Hd. destruct (pv_explicit _ _ Hv n p Hp Hd) as (a & ts & Hdl & data & ? & ?). eauto 8.
Qed.
End PeerTable.

(** ** Meeting a peer *)

Section Meeting.
Context `{Blake3} `{Ed25519}.

(** The two families of datagrams do not overlap: HELLO starts with 0x41, a frame with
    the magic bits 10. *)
Lemma hello_is_no_frame data n ts f :
  extract_sender_with_timestamp data = Some (n, ts) → decode_verified_frame data ≠ Ok (Some f).
Proof.
  intros Hx (b & rest & -> & Hb)%verified_magic. revert Hx. unfold extract_sender_with_timestamp.
  destruct (_ <? _); [done|]. case_decide as Hm; [done|]. intros _.
  destruct rest as [|b1 rest]; injection Hm as -> _; done.
Qed.

Lemma built_hello k ty ts :
  keypair_ok k → 0 ≤ ts < 2 ^ 64 →
  extract_sender_with_timestamp (build_frame k ty ts) = Some (Keypair_node_id k, ts) ∧
  frame_msg_type (build_frame k ty ts) = Some ty.
Proof. intros Hk Hts. destruct (hello_exchange k ty ts) as [Hx _]. destruct (Hx Hk Hts) as (? & _ & ?). by split. Qed.

(** A datagram that is a verified frame goes to the handler. *)
Lemma receive_main_frame hk wall k nm data f a :
  decode_verified_frame data = Ok (Some f) →
  receive_main hk wall k nm data a
  = (r ← handle_axiom_frame hk k (nm_mesh nm) f a; Ok (set_mesh nm r.1, map OfHandler r.2)).
Proof.
  intros Hd. unfold receive_main. destruct (extract_sender_with_timestamp data) as [[n ts]|] eqn:Ex.
  - by apply (hello_is_no_frame _ _ _ f) in Ex.
  - by rewrite Hd.
Qed.
Lemma set_mesh_id nm : set_mesh nm (nm_mesh nm) = nm.
Proof. by destruct nm. Qed.

(** There is a place for [n], or it is known by an older HELLO. *)
Definition admits (nm : NetworkManager) (n : NodeId) (ts : Z) : Prop :=
  match nm_peers nm !! n with
  | Some p => pc_last_hello_ts p < ts
  | None => Z.of_nat (size (nm_peers nm)) < nm_max_peers nm ∨
      ∃ x p, nm_peers nm !! x = Some p ∧ pc_discovered p = true
  end.
Lemma register_peer_admits now nm n a ts :
  ms_known_peers (nm_mesh nm) = dom (nm_peers nm) → admits nm n ts →
  peer_addr (register_peer now nm n a ts) n = Some a ∧
  n ∈ ms_known_peers (nm_mesh (register_peer now nm n a ts)).
Proof.
  unfold admits, register_peer, peer_addr. intros Hk. destruct (nm_peers nm !! n) as [p|] eqn:En.
  - intros Hl. rewrite (proj2 (Z.leb_gt _ _)) by done. cbn. rewrite lookup_insert_eq, Hk. split; [done|].
    by apply elem_of_dom_2 in En.
  - intros Hr. destruct (Z.leb_spec (nm_max_peers nm) (Z.of_nat (size (nm_peers nm)))).
    + destruct Hr as [?|(x & q & Hq & Hd)]; [lia|]. destruct (evictable (nm_peers nm)) as [id|] eqn:Ee.
      * cbn. rewrite lookup_insert_eq. split; [done|set_solver].
      * apply evictable_none in Ee. specialize (Ee x q Hq). cbn in Ee. congruence.
    + cbn. rewrite lookup_insert_eq. split; [done|set_solver].
Qed.

Lemma simple_message ft k t h p :
  keypair_ok k → FrameType_to_u8 ft < 32 ∧ 0 ≤ FrameType_to_u8 ft ∧ FrameType_from_u8 (FrameType_to_u8 ft) = ft →
  array_ok 8 t → array_ok 16 h → bytes_ok p → len p ≤ MAX_PAYLOAD_SIZE → message_ok k ft t h p None.
Proof. intros. by split. Qed.

(** A message between daemons, from the builder to the handler of the other side. *)
Record delivered (k : Keypair) (ft : FrameType) (t : TraceId) (h : IntentHash) (p : list Z) (bytes : list Z) (f : Frame) :
    Prop := {
  dv_built : build_simple_frame k ft t h p None = Ok bytes;
  dv_sent : bytes ≠ [];
  dv_decoded : decode_verified_frame bytes = Ok (Some f);
  dv_type : frame_type (header f) = ft;
  dv_sender : sender_id (header f) = Keypair_node_id k;
  dv_intent : intent_hash (header f) = h;
  dv_trace : trace_id f = Some t;
  dv_routing : routing f = None;
  dv_payload : payload f = p
}.
Lemma message_delivered k ft t h p : message_ok k ft t h p None → ∃ bytes f, delivered k ft t h p bytes f.
Proof.
  intros Hm. destruct (build_simple_frame_wire _ _ _ _ _ _ Hm) as [He Hb].
  eexists _, _. split; [exact Hb|by apply wire_nonempty|by apply decode_verified_wire, signed_verifies|done..].
Qed.
Lemma receive_delivered hk w k k' ft t h p bytes f nm a :
  delivered k' ft t h p bytes f →
  receive_main hk w k nm bytes a
  = (r ← handle_here hk k (nm_mesh nm) f a; Ok (set_mesh nm r.1, map OfHandler r.2)).
Proof.
  intros Hd. rewrite (receive_main_frame _ _ _ _ _ _ _ (dv_decoded _ _ _ _ _ _ _ Hd)), handle_local; [done|].
  unfold for_another. by rewrite (dv_routing _ _ _ _ _ _ _ Hd).
Qed.

(** A ping between two peers that know each other. *)
Lemma ping_answered hk k1 k2 n1 n2 a b w1 w2 t :
  keypair_ok k1 → keypair_ok k2 → array_ok 8 t →
  peer_addr n1 (Keypair_node_id k2) = Some b → Keypair_node_id k1 ∈ ms_known_peers (nm_mesh n2) →
  ∃ n1' n1'' pinged ponged,
    ping true k1 n1 (Keypair_node_id k2) t = Ok (n1', [send_raw n1 b pinged], None) ∧
    receive_main hk w2 k2 n2 pinged a = Ok (n2, [send_raw n2 a ponged]) ∧
    receive_main hk w1 k1 n1' ponged b = Ok (n1'', [OfHandler (ResolvePing t)]) ∧
    ms_pending_pings (nm_mesh n1'') !! t = None.
Proof.
  intros H1 H2 Ht Hb Hk. assert (Hz : array_ok 16 IntentHash_zero) by (by apply (array_ok_replicate 16 0)).
  destruct (message_delivered k1 FPing t IntentHash_zero []) as (pinged & f1 & D1); [by apply simple_message|].
  destruct (message_delivered k2 FPong t IntentHash_zero []) as (ponged & f2 & D2); [by apply simple_message|].
  eexists _, _, pinged, ponged. split_and!.
  - unfold ping. rewrite Hb. unfold spawn_ping, build_ping_frame. rewrite (dv_built _ _ _ _ _ _ _ D1).
    cbn [mbind outcome_bind]. pose proof (dv_sent _ _ _ _ _ _ _ D1). by destruct pinged.
  - rewrite (receive_delivered _ _ _ _ _ _ _ _ _ _ _ _ D1). unfold handle_here.
    rewrite (dv_type _ _ _ _ _ _ _ D1). unfold handle_ping.
    rewrite (dv_sender _ _ _ _ _ _ _ D1), decide_True, (dv_trace _ _ _ _ _ _ _ D1) by done.
    unfold build_pong_frame. rewrite (dv_built _ _ _ _ _ _ _ D2). cbn [mbind outcome_bind fst snd].
    rewrite set_mesh_id. pose proof (dv_sent _ _ _ _ _ _ _ D2). by destruct ponged.
  - rewrite (receive_delivered _ _ _ _ _ _ _ _ _ _ _ _ D2). unfold handle_here.
    rewrite (dv_type _ _ _ _ _ _ _ D2), (handle_pong_spec _ _ _ (dv_trace _ _ _ _ _ _ _ D2)).
    cbn [nm_mesh set_mesh ms_pending_pings upd_pending_pings]. rewrite lookup_insert_eq. unfold for_waiter.
    rewrite (dv_sender _ _ _ _ _ _ _ D2), decide_True by done. reflexivity.
  - cbn. apply lookup_delete_eq.
Qed.

(** Two daemons meet.  When node A dials node B, and B has a place for A or knows
    it by an older HELLO: B answers A's HELLO with its own identity and its event loop
    registers A under the address the HELLO came from and spawns a ping and an
    announcement; A's [connect] resolves to B's identity, and B is A's peer at the
    dialled address; and from then on each answers the other, A's ping gets a Pong that
    resolves exactly its waiter. *)
Theorem peers_meet hk kA kB nA nB a b wA wB now t :
  let idA := Keypair_node_id kA in let idB := Keypair_node_id kB in
  let hello := build_hello_frame kA wA in let ack := build_hello_reply_frame kB wB in
  keypair_ok kA → keypair_ok kB → 0 ≤ wA < 2 ^ 64 → 0 ≤ wB < 2 ^ 64 → array_ok 8 t →
  ms_known_peers (nm_mesh nB) = dom (nm_peers nB) → admits nB idA wA →
  ∃ nA1 nB1 nA2 nA3 nB2,
    connect_begin wA true kA nA b = (nA1, [send_raw nA b hello], None) ∧
    receive_main hk wB kB nB hello a = Ok (nB1, [OfHandler (Send MainSocket a ack)]) ∧
    nm_events nB1 = nm_events nB ++ [PeerDiscovered idA a wA; MessageReceived idA hello] ∧
    handle_network_event now nB1 (PeerDiscovered idA a wA) = (nB2, [SpawnPing idA a; SpawnAnnounce a]) ∧
    peer_addr nB2 idA = Some a ∧ idA ∈ ms_known_peers (nm_mesh nB2) ∧
    receive_main hk wA kA nA1 ack b = Ok (nA2, [ResolveConnect b idB wB]) ∧
    connect_end now wA kA nA2 b = (nA3, inr idB) ∧
    peer_addr nA3 idB = Some b ∧ idB ∈ ms_known_peers (nm_mesh nA3) ∧
    ∃ nA4 nA5 pinged ponged,
      ping true kA nA3 idB t = Ok (nA4, [send_raw nA3 b pinged], None) ∧
      receive_main hk wB kB nB2 pinged a = Ok (nB2, [send_raw nB2 a ponged]) ∧
      receive_main hk wA kA nA4 ponged b = Ok (nA5, [OfHandler (ResolvePing t)]) ∧
      ms_pending_pings (nm_mesh nA5) !! t = None.
Proof.
  intros idA idB hello ack HkA HkB HwA HwB Ht Hkn Had.
  destruct (built_hello kA HELLO_MSG_TYPE wA HkA HwA) as [X1 T1].
  destruct (built_hello kB HELLO_ACK_MSG_TYPE wB HkB HwB) as [X2 T2].
  set (nA1 := set_connects nA ({[b]} ∪ nm_pending_connects nA) (delete b (nm_replies nA))).
  set (nB1 := push_event (push_event nB (PeerDiscovered idA a wA)) (MessageReceived idA hello)).
  set (nA2 := push_event (set_connects nA1 (nm_pending_connects nA1 ∖ {[b]}) (<[b := (idB, wB)]> (nm_replies nA1)))
    (MessageReceived idB ack)).
  destruct (register_peer_admits now nB1 idA a wA Hkn Had) as [HpB HkB2].
  set (nB2 := register_peer now nB1 idA a wA) in *.
  assert (E3 : ∃ nA3, connect_end now wA kA nA2 b = (nA3, inr idB) ∧ peer_addr nA3 idB = Some b ∧
    idB ∈ ms_known_peers (nm_mesh nA3)).
  { unfold connect_end. cbn [nm_replies nA2 push_event set_events set_connects]. rewrite lookup_insert_eq.
    eexists. split; [reflexivity|]. unfold peer_addr. cbn. rewrite lookup_insert_eq. split; [done|set_solver]. }
  destruct E3 as (nA3 & E3 & HpA & HkA3).
  exists nA1, nB1, nA2, nA3, nB2. split_and!; try done.
  - unfold receive_main, hello, build_hello_frame. rewrite X1, T1. reflexivity.
  - cbn. by rewrite <- app_assoc.
  - unfold receive_main, ack, build_hello_reply_frame. rewrite X2, T2. change (HELLO_ACK_MSG_TYPE =? HELLO_ACK_MSG_TYPE) with true.
    cbn iota. rewrite decide_True by (cbn; set_solver). reflexivity.
  - destruct (ping_answered hk kA kB nA3 nB2 a b wA wB t HkA HkB Ht HpA HkB2) as (n1 & n2 & x & y & ?). by exists n1, n2, x, y.
Qed.

(** A request to a direct peer is served.  When the best provider of a
    capability is a peer, the requester sends it one Intent, at its address, and waits
    for it alone; the provider hands its dispatcher exactly the capability, payload and
    requester that were meant, to be answered where the frame came from; the provider's Fulfill
    resolves the waiter with exactly its payload; the caller gets that payload, the
    waiter is gone, and of the registry only the provider's score has changed.  An Error
    or a timeout gives the caller an error and leaves no waiter either. *)
Theorem request_served hk kA kB nA nB a b wA wB c t p p' elapsed r :
  let idA := Keypair_node_id kA in let idB := Keypair_node_id kB in let h := capability_hash c in
  message_ok kA FIntent t h p None → message_ok kB FFulfill t h p' None →
  head (discover (ms_router (nm_mesh nA)) (AiIntent_from_str c)) = Some r → dr_agent r = idB →
  peer_addr nA idB = Some b →
  ∃ nA1 nA2 nA3 request reply,
    request_intent true kA nA c p t = Ok (nA1, [send_raw nA b request], inr idB) ∧
    ms_pending_intents (nm_mesh nA1) !! t = Some idB ∧
    receive_main hk wB kB nB request a = Ok (nB, [OfHandler (SpawnDispatch a h t p idA None)]) ∧
    build_fulfill_frame kB h t p' None = Ok reply ∧
    receive_main hk wA kA nA1 reply b = Ok (nA2, [OfHandler (ResolveIntent t (inl p'))]) ∧
    request_end elapsed nA2 idB t (WReply (inl p')) = (nA3, inr p') ∧
    ms_pending_intents (nm_mesh nA3) !! t = None ∧
    ms_router (nm_mesh nA3) = update_reputation (ms_router (nm_mesh nA)) idB true (elapsed_ms elapsed) ∧
    (∀ reason, (request_end elapsed nA2 idB t (WReply (inr reason))).2 = inl (RepliedError reason)) ∧
    (let '(n, e) := request_end elapsed nA1 idB t WTimeout in
     e = inl RequestTimedOut ∧ ms_pending_intents (nm_mesh n) !! t = None).
Proof.
  intros idA idB h Hm1 Hm2 Hr Hag Hb.
  destruct (message_delivered _ _ _ _ _ Hm1) as (request & f1 & D1).
  destruct (message_delivered _ _ _ _ _ Hm2) as (reply & f2 & D2).
  set (nA1 := set_mesh nA (upd_pending_intents (nm_mesh nA) (<[t := idB]> (ms_pending_intents (nm_mesh nA))))).
  set (nA2 := set_mesh nA1 (upd_pending_intents (nm_mesh nA1) (delete t (ms_pending_intents (nm_mesh nA1))))).
  exists nA1, nA2. eexists _, request, reply. split_and!.
  - unfold request_intent. rewrite Hr. cbn [fmap option_fmap option_map]. rewrite Hag, Hb.
    unfold send_request, build_intent_frame. fold h. rewrite (dv_built _ _ _ _ _ _ _ D1). cbn [mbind outcome_bind].
    pose proof (dv_sent _ _ _ _ _ _ _ D1). by destruct request.
  - apply lookup_insert_eq.
  - rewrite (receive_delivered _ _ _ _ _ _ _ _ _ _ _ _ D1). unfold handle_here, handle_intent.
    rewrite (dv_type _ _ _ _ _ _ _ D1), (dv_routing _ _ _ _ _ _ _ D1). cbn [bool_decide is_Some andb].
    rewrite (bool_decide_eq_false_2 (is_Some None)) by (by intros []). cbn [andb].
    rewrite (dv_trace _ _ _ _ _ _ _ D1), (dv_intent _ _ _ _ _ _ _ D1), (dv_sender _ _ _ _ _ _ _ D1),
      (dv_payload _ _ _ _ _ _ _ D1). cbn [mbind outcome_bind fst snd map]. by rewrite set_mesh_id.
  - exact (dv_built _ _ _ _ _ _ _ D2).
  - rewrite (receive_delivered _ _ _ _ _ _ _ _ _ _ _ _ D2). unfold handle_here.
    rewrite (dv_type _ _ _ _ _ _ _ D2), (handle_reply_spec _ _ _ _ (dv_trace _ _ _ _ _ _ _ D2)).
    change (ms_pending_intents (nm_mesh nA1) !! t) with (<[t := idB]> (ms_pending_intents (nm_mesh nA)) !! t).
    rewrite lookup_insert_eq. unfold for_waiter.
    rewrite (dv_sender _ _ _ _ _ _ _ D2), decide_True, (dv_payload _ _ _ _ _ _ _ D2) by done. reflexivity.
  - reflexivity.
  - cbn. apply lookup_delete_eq.
  - reflexivity.
  - reflexivity.
  - cbn. split; [done|]. apply lookup_delete_eq.
Qed.

(** A request that nobody can serve sends nothing and leaves no waiter; one whose provider is
    behind a relay goes to the relay, with the provider as destination. *)
Theorem request_routes sent k nm c p t :
  let best := dr_agent <$> head (discover (ms_router (nm_mesh nm)) (AiIntent_from_str c)) in
  (best = None → request_intent sent k nm c p t = Ok (nm, [], inl NoProvider)) ∧
  (∀ n, best = Some n → peer_addr nm n = None →
     match ms_reachable_via (nm_mesh nm) !! n with
     | None => request_intent sent k nm c p t = Ok (nm, [], inl (NoKnownAddress n))
     | Some (relay, _) =>
         match peer_addr nm relay with
         | None => request_intent sent k nm c p t = Ok (nm, [], inl (RelayUnknown relay))
         | Some a =>
             let there := Some (mkRouting n DEFAULT_ROUTING_TTL) in
             message_ok k FIntent t (capability_hash c) p there → sent = true →
             ∃ nm' bytes, build_intent_frame k (capability_hash c) t p there = Ok bytes ∧
               request_intent sent k nm c p t = Ok (nm', [send_raw nm a bytes], inr n) ∧
               ms_pending_intents (nm_mesh nm') !! t = Some n
         end
     end).
Proof.
  cbn. unfold request_intent. split; [by intros ->|]. intros n -> Hn. cbn. rewrite Hn.
  destruct (ms_reachable_via (nm_mesh nm) !! n) as [[relay seen]|]; [|done].
  unfold request_intent_via. destruct (peer_addr nm relay) as [a|]; [|done].
  intros Hm ->. destruct (build_simple_frame_wire _ _ _ _ _ _ Hm) as [He Hb].
  eexists _, _. split; [exact Hb|]. unfold send_request, build_intent_frame. rewrite Hb. cbn [mbind outcome_bind].
  destruct (wire _) as [|x l] eqn:E; [by apply wire_nonempty in E|]. split; [reflexivity|]. apply lookup_insert_eq.
Qed.

(** *** Discovery *)

Lemma hello_timestamp_is_fresh_iff ts now :
  hello_timestamp_is_fresh ts now = true ↔ now - 60 ≤ ts ≤ now + 5.
Proof.
  unfold hello_timestamp_is_fresh, saturating_sub, MAX_HELLO_AGE_SECS, MAX_CLOCK_SKEW_SECS.
  rewrite andb_true_iff, !Z.leb_le. lia.
Qed.

(** The link-local loop queues a peer exactly for a fresh HELLO of another node from a source
    that has not just sent garbage; it never answers one, and never resolves a [connect]. *)
Theorem discovery_filter hk wall now k nm data a n ts nm' effects :
  receive_discovery hk wall now k nm data a = Ok (nm', effects) →
  (PeerDiscovered n a ts ∈ nm_events nm' ↔
     PeerDiscovered n a ts ∈ nm_events nm ∨
     extract_sender_with_timestamp data = Some (n, ts) ∧ n ≠ Keypair_node_id k ∧ wall - 60 ≤ ts ≤ wall + 5 ∧
     ∀ last, nm_recently_failed nm !! addr_ip a = Some last → RATE_LIMIT_INTERVAL ≤ duration_since now last) ∧
  nm_pending_connects nm' = nm_pending_connects nm ∧ nm_replies nm' = nm_replies nm ∧
  (is_Some (extract_sender_with_timestamp data) → effects = []).
Proof.
  unfold receive_discovery.
  assert (Hrate : is_recently_failed (nm_recently_failed nm) (addr_ip a) now = false ↔
    ∀ last, nm_recently_failed nm !! addr_ip a = Some last → RATE_LIMIT_INTERVAL ≤ duration_since now last).
  { unfold is_recently_failed. destruct (_ !! _) as [last|]; [|naive_solver]. rewrite Z.ltb_ge. naive_solver. }
  destruct (is_recently_failed _ _ _).
  { intros [= <- <-]. split; [|done]. split; [auto|]. intros [?|(_ & _ & _ & Hr)]; [done|]. by apply Hrate in Hr. }
  destruct (extract_sender_with_timestamp data) as [[m us]|] eqn:Ex.
  - case_decide as Hself; [intros [= <- <-]; split; [|done]; naive_solver|].
    pose proof (hello_timestamp_is_fresh_iff us wall) as Hfr. destruct (hello_timestamp_is_fresh us wall).
    + intros [= <- <-]. split; [|done]. cbn. rewrite elem_of_app, list_elem_of_singleton. split.
      * intros [?|[= <- <-]]; [by left|]. right. split_and!; try done; [tauto..|by apply Hrate].
      * intros [?|([= <- <-] & _)]; [by left|by right].
    + intros [= <- <-]. split; [|done]. naive_solver.
  - intros [[s ->]| ->]%frame_or_else_peers; (split; [|split; [done|split; [done|by intros []]]]); cbn; naive_solver.
Qed.
(** At most [MAX_RATE_LIMIT_ENTRIES] sources are remembered beyond the recent ones. *)
Lemma record_failure_bound m ip now :
  Z.of_nat (size (record_failure m ip now)) ≤
  Z.max MAX_RATE_LIMIT_ENTRIES (1 + Z.of_nat (size (filter (λ kv, duration_since now kv.2 < RATE_LIMIT_INTERVAL) m))).
Proof.
  unfold record_failure. rewrite map_size_insert. unfold id.
  destruct (Z.leb_spec MAX_RATE_LIMIT_ENTRIES (Z.of_nat (size m))); case_match; lia.
Qed.
End Meeting.

(** ** Gaps *)

Section Gaps.
Context `{Blake3} `{Ed25519}.

(** The main socket takes a HELLO of any age, the node's own included: unlike the link-local
    loop it checks neither the timestamp nor the sender, so a recorded HELLO of a
    node that is not in the table, because it never was or because it was evicted, registers that
    node at the address the copy came from. *)
Theorem main_socket_replay_gap hk wall k nm data a n ts now :
  hello_of data HELLO_MSG_TYPE n ts → nm_peers nm !! n = None → Z.of_nat (size (nm_peers nm)) < nm_max_peers nm →
  ∃ nm', receive_main hk wall k nm data a = Ok (nm', [OfHandler (Send MainSocket a (build_hello_reply_frame k wall))]) ∧
  PeerDiscovered n a ts ∈ nm_events nm' ∧ peer_addr (register_peer now nm' n a ts) n = Some a.
Proof.
  intros [Hx Ht] Hn Hr. unfold receive_main. rewrite Hx, Ht. eexists. split; [reflexivity|]. split; [cbn; set_solver|].
  unfold register_peer, peer_addr. cbn [nm_peers push_event set_events nm_max_peers]. rewrite Hn.
  rewrite (proj2 (Z.leb_gt _ _)) by done. cbn. by rewrite lookup_insert_eq.
Qed.

(** A HELLO_ACK answers no particular HELLO and may be of any age; the [connect] it resolves
    overwrites the timestamp the peer had, and a HELLO that was a replay before is
    accepted after, with the address it came from. *)
Theorem connect_rolls_back k nm n p a a' ts ts' now wall :
  nm_peers nm !! n = Some p → nm_replies nm !! a = Some (n, ts) → ts < ts' ≤ pc_last_hello_ts p →
  register_peer now nm n a' ts' = nm ∧
  peer_addr (register_peer now (connect_end now wall k nm a).1 n a' ts') n = Some a'.
Proof.
  intros Hp Hr Hts. split.
  - unfold register_peer. rewrite Hp. by rewrite (proj2 (Z.leb_le _ _)) by lia.
  - unfold connect_end. rewrite Hr. cbn [fst]. unfold register_peer, peer_addr.
    cbn [nm_peers add_peer set_mesh set_peers set_connects pc_node_id]. rewrite lookup_insert_eq. cbn [pc_last_hello_ts].
    rewrite (proj2 (Z.leb_gt _ _)) by lia. cbn. by rewrite lookup_insert_eq.
Qed.

(** A HELLO that is rejected still makes the daemon ping and announce to its source. *)
Lemma rejected_hello_answered now nm n p a ts :
  nm_peers nm !! n = Some p → ts ≤ pc_last_hello_ts p →
  handle_network_event now nm (PeerDiscovered n a ts) = (nm, [SpawnPing n a; SpawnAnnounce a]).
Proof.
  intros Hp Hts. cbn. unfold register_peer. rewrite Hp. by rewrite (proj2 (Z.leb_le _ _)).
Qed.

(** Shutting down empties the peer table only: the tables the receive loops use stay. *)
Lemma shutdown_keeps_answering nm :
  nm_peers (shutdown nm) = ∅ ∧ nm_mesh (shutdown nm) = nm_mesh nm.
Proof. done. Qed.

(** The task of an eviction forgets a node that came back, and announced itself again, before it ran. *)
Lemma cleanup_forgets_returned nm n orphans h c :
  (n, c) ∈ entries_of (ms_router (nm_mesh nm)) h → n ∈ dom (nm_peers nm) →
  ¬ provides (nm_mesh (cleanup_registry nm (n, orphans))) n ∧ n ∈ dom (nm_peers (cleanup_registry nm (n, orphans))).
Proof.
  intros _ Hn. split; [|exact Hn]. intros (h' & c' & Hin).
  assert (Hp : provides (upd_router (nm_mesh nm) (unregister_node (ms_router (nm_mesh nm)) n)) n).
  { apply (provides_unregistered _ (filter (λ o, ms_reachable_via (nm_mesh nm) !! o = None) orphans)). by exists h', c'. }
  destruct Hp as (h2 & c2 & Hp). cbn in Hp. rewrite entries_unregister, list_elem_of_filter in Hp.
  destruct Hp as [Hp _]. by unfold other_node in Hp.
Qed.
End Gaps.

(** ** Examples *)

#[local] Existing Instance prefix_digest.
#[local] Existing Instance ed_reference.

Definition sample_node (b : Z) : NetworkManager :=
  net_new (sample_key b) (Types.mkClock 1000 0) [str "echo"] false 2.
Definition sample_hello (b ts : Z) : list Z := build_hello_frame (sample_key b) ts.
(** Node 7 hears of node 5, then of node 6, then of node 8; only two fit. *)
Definition sample_steps : list NetStep :=
  [NvMain sample_clock 0 (sample_hello 5 100) (sample_addr 5); NvEvent 1; NvEvent 1;
   NvMain sample_clock 0 (sample_hello 6 100) (sample_addr 6); NvEvent 2; NvEvent 2;
   NvMain sample_clock 0 (sample_hello 8 100) (sample_addr 8); NvEvent 3].
Definition sample_result : outcome False (NetworkManager * list NetEffect) :=
  Eval vm_compute in net_run (sample_key 7) (sample_node 7) sample_steps.
Definition sample_end : NetworkManager := match sample_result with Ok (nm, _) => nm | _ => sample_node 7 end.
Definition sample_effects : list NetEffect := match sample_result with Ok (_, ef) => ef | _ => [] end.
Lemma sample_run : net_run (sample_key 7) (sample_node 7) sample_steps = Ok (sample_end, sample_effects).
Proof. vm_compute. reflexivity. Qed.
Lemma sample_hello_bytes b ts : bytes_ok (sample_hello b ts).
Proof.
  unfold sample_hello, build_hello_frame, build_frame. apply Forall_app. split; [|apply ed_sign_ok].
  unfold hello_fields. cbn [concat].
  repeat (apply Forall_app; split); [by repeat constructor|by repeat constructor|by repeat constructor
    |apply ed_public_ok|apply to_be_bytes_ok|constructor].
Qed.
Lemma sample_steps_ok : Forall step_ok sample_steps.
Proof. repeat (apply Forall_cons_2; [first [exact I | apply sample_hello_bytes]|]). constructor. Qed.

Example sample_eviction :
  peer_addr sample_end (sample_id 5) = None ∧ peer_addr sample_end (sample_id 6) = Some (sample_addr 6) ∧
  peer_addr sample_end (sample_id 8) = Some (sample_addr 8).
Proof. by vm_compute. Qed.


Definition sample_hello_entry : PeerConnection := mkPeer (sample_id 6) (sample_addr 6) 2 0 0 true 100 2.
Lemma sample_entry : nm_peers sample_end !! sample_id 6 = Some sample_hello_entry.
Proof. vm_compute. reflexivity. Qed.
Lemma peers_authenticated_witness :
  ∃ data, arrived sample_steps (sample_addr 6) data ∧
    extract_sender_with_timestamp data = Some (sample_id 6, 100).
Proof.
  destruct (peers_authenticated (sample_key 7) (Types.mkClock 1000 0) [str "echo"] false 2 sample_steps sample_end
    sample_effects (sample_id 6) sample_hello_entry sample_run sample_entry) as [(data & Ha & Hx & _) _].
  exists data. split; [exact Ha|exact Hx].
Defined.

Definition sample_replay : NetworkManager := push_event (set_events sample_end []) (PeerDiscovered (sample_id 6) (sample_addr 9) 100).
Lemma sample_replay_step :
  net_step (sample_key 7) sample_replay (NvEvent 9)
  = Ok (set_events sample_end [], [SpawnPing (sample_id 6) (sample_addr 9); SpawnAnnounce (sample_addr 9)]).
Proof. vm_compute. reflexivity. Qed.
Lemma peer_changes_witness :
  nm_peers (set_events sample_end []) !! sample_id 6 = nm_peers sample_replay !! sample_id 6 ∨
  ∃ now n a ts es, NvEvent 9 = NvEvent now ∧ nm_events sample_replay = PeerDiscovered n a ts :: es.
Proof.
  destruct (peer_changes _ _ _ _ _ sample_replay_step (sample_id 6)) as [Hs|[(now & n & a & ts & es & He & Hq & _)
    |(now & wall & a & ts & p' & He & _)]].
  - left. exact Hs.
  - right. exists now, n, a, ts, es. split; [exact He|exact Hq].
  - discriminate He.
Defined.

Lemma sample_known b : ms_known_peers (nm_mesh (sample_node b)) = dom (nm_peers (sample_node b)).
Proof. reflexivity. Qed.
Lemma sample_admits : admits (sample_node 6) (Keypair_node_id (sample_key 5)) 50.
Proof. left. by vm_compute. Qed.
Lemma sample_trace_ok : array_ok 8 sample_trace.
Proof. split; [reflexivity|]. apply (bool_decide_unpack _). vm_compute. exact I. Qed.
Lemma peers_meet_witness :
  ∃ nA1 nB1, connect_begin 50 true (sample_key 5) (sample_node 5) (sample_addr 6)
    = (nA1, [send_raw (sample_node 5) (sample_addr 6) (sample_hello 5 50)], None) ∧
  receive_main sample_clock 51 (sample_key 6) (sample_node 6) (sample_hello 5 50) (sample_addr 5)
    = Ok (nB1, [OfHandler (Send MainSocket (sample_addr 5) (build_hello_reply_frame (sample_key 6) 51))]).
Proof.
  destruct (peers_meet sample_clock (sample_key 5) (sample_key 6) (sample_node 5) (sample_node 6) (sample_addr 5)
    (sample_addr 6) 50 51 7 sample_trace (sample_key_ok 5 ltac:(lia)) (sample_key_ok 6 ltac:(lia)) ltac:(lia) ltac:(lia)
    sample_trace_ok (sample_known 6) sample_admits) as (nA1 & nB1 & _ & _ & _ & H1 & H2 & _).
  exists nA1, nB1. split; [exact H1|exact H2].
Defined.

(** Node 5 knows node 6 as a provider of echo. *)
Definition sample_client : NetworkManager :=
  let nm := add_peer (sample_node 5) (mkPeer (sample_id 6) (sample_addr 6) 0 0 0 false 0 0) in
  set_mesh nm (upd_router (nm_mesh nm) (semantic_register (ms_router (nm_mesh nm)) (sample_id 6) (SemanticCapability_new (str "echo")))).
Definition sample_provider_found : DiscoveryResult :=
  mkDiscovery (sample_id 6) Raw 0 128 150.
Lemma sample_discovery :
  head (discover (ms_router (nm_mesh sample_client)) (AiIntent_from_str (str "echo"))) = Some sample_provider_found.
Proof. vm_compute. reflexivity. Qed.
Lemma sample_client_message ft b :
  ft = FIntent ∨ ft = FFulfill → 0 ≤ b < 256 →
  message_ok (sample_key b) ft sample_trace (capability_hash (str "echo")) [1; 2; 3] None.
Proof.
  intros Ht Hb. apply simple_message; [by apply sample_key_ok|by destruct Ht as [-> | ->]|exact sample_trace_ok
    |apply capability_hash_ok| |by vm_compute].
  apply (bool_decide_unpack _). vm_compute. exact I.
Qed.
Lemma sample_client_addr : peer_addr sample_client (Keypair_node_id (sample_key 6)) = Some (sample_addr 6).
Proof. vm_compute. reflexivity. Qed.
Lemma request_served_witness :
  ∃ nA1 request, request_intent true (sample_key 5) sample_client (str "echo") [1; 2; 3] sample_trace
    = Ok (nA1, [send_raw sample_client (sample_addr 6) request], inr (Keypair_node_id (sample_key 6))).
Proof.
  destruct (request_served sample_clock (sample_key 5) (sample_key 6) sample_client (sample_node 6) (sample_addr 5)
    (sample_addr 6) 0 0 (str "echo") sample_trace [1; 2; 3] [1; 2; 3] 5000000 sample_provider_found
    (sample_client_message FIntent 5 (or_introl eq_refl) ltac:(lia))
    (sample_client_message FFulfill 6 (or_intror eq_refl) ltac:(lia)) sample_discovery eq_refl sample_client_addr)
    as (nA1 & _ & _ & request & _ & H1 & _).
  exists nA1, request. exact H1.
Defined.
