(* ===== verification/Wan.v ===== *)
(** * The WAN path (axiom-transport/src/wan.rs, forge-node/src/node.rs and main.rs)

    A daemon reached over the internet: the allowlist, the signed liveness
    exchange, the slots that bound connections, and the requests served over an
    accepted connection.  The QUIC library is outside the repository: what it
    authenticates and what its streams deliver are arguments ([None] for a read or a write
    that failed), clock readings and nonces too.  Timeouts are events. *)

From stdpp Require Import base numbers list gmap strings.
From S2P Require Import Prelude Types Codec Text Intent Scan Policy Approval AuditTrail Crypto Announce Frames Dispatch.

(** ** Liveness (wan.rs) *)

Definition LIVENESS_FRESHNESS_WINDOW_SECS : Z := 30.
Definition PONG_SIGNING_CONTEXT : list Z := as_bytes (str "axiom-wan-pong-v1").

Inductive WanError :=
  | NotAllowlisted (n : NodeId)
  | ResponderMismatch (expected actual : NodeId)
  | BadSignature
  | NonceMismatch
  | Stale (age : Z)
  | ExchangeTimeout
  | WanTransport (e : text).

Record WanAllowlist := mkAllowlist { wl_allowed : gset NodeId }.
Definition WanAllowlist_new : WanAllowlist := mkAllowlist ∅.
Definition WanAllowlist_from_node_ids (ids : list NodeId) : WanAllowlist := mkAllowlist (list_to_set ids).
Definition WanAllowlist_allow (l : WanAllowlist) (n : NodeId) : WanAllowlist := mkAllowlist ({[n]} ∪ wl_allowed l).
Definition WanAllowlist_is_allowed (l : WanAllowlist) (n : NodeId) : bool := bool_decide (n ∈ wl_allowed l).
Definition WanAllowlist_check (l : WanAllowlist) (n : NodeId) : unit + WanError :=
  if WanAllowlist_is_allowed l n then inl tt else inr (NotAllowlisted n).

Record SignedPing := mkPing { pi_nonce : list Z; pi_sent_at : Z }.
Definition SignedPing_signing_bytes (p : SignedPing) : list Z := pi_nonce p ++ to_be 8 (pi_sent_at p).
Definition SignedPing_to_wire (p : SignedPing) : list Z := SignedPing_signing_bytes p.
Definition SignedPing_from_wire (bytes : list Z) : SignedPing := mkPing (at_slice bytes 0 16) (from_be (at_slice bytes 16 24)).

Record SignedPong := mkPong { po_responder : NodeId; po_nonce : list Z; po_responded_at : Z; po_signature : Signature }.
Definition pong_signing_bytes (echoed_nonce : list Z) (responded_at : Z) : list Z :=
  PONG_SIGNING_CONTEXT ++ echoed_nonce ++ to_be 8 responded_at.

Definition saturating_age (now sent_at : Z) : Z := Z.max 0 (now - sent_at).

Section Liveness.
Context `{Ed25519}.

Definition build_signed_pong (now : Z) (k : Keypair) (p : SignedPing) : SignedPong :=
  mkPong (Keypair_node_id k) (pi_nonce p) now (Keypair_sign k (pong_signing_bytes (pi_nonce p) now)).

Definition verify_signed_pong (now : Z) (p : SignedPing) (q : SignedPong) : unit + WanError :=
  if decide (po_nonce q ≠ pi_nonce p) then inr NonceMismatch
  else
    let age := saturating_age now (pi_sent_at p) in
    if LIVENESS_FRESHNESS_WINDOW_SECS <? age then inr (Stale age)
    else if negb (ed_valid_key (po_responder q)) then inr BadSignature
    else
      let msg := pong_signing_bytes (po_nonce q) (po_responded_at q) in
      if negb (ed_verify_strict (po_responder q) msg (po_signature q)) then inr BadSignature else inl tt.

Definition encode_pong (q : SignedPong) : list Z :=
  po_responder q ++ po_nonce q ++ to_be 8 (po_responded_at q) ++ po_signature q.
Definition decode_pong (bytes : list Z) : SignedPong + WanError :=
  if decide (len bytes ≠ 32 + 16 + 8 + 64) then inr (WanTransport (str "malformed pong"))
  else inl (mkPong (at_slice bytes 0 32) (at_slice bytes 32 48) (from_be (at_slice bytes 48 56)) (at_slice bytes 56 120)).

Record WanEndpoint := mkEndpoint { we_keypair : Keypair; we_allowlist : WanAllowlist }.

(** The dialling side.  [connected] tells whether QUIC connected; [reply] is what the
    exchange read, [None] for its timeout or a stream error. *)
Definition connect_direct_and_verify_liveness (now : Z) (e : WanEndpoint) (peer : NodeId) (connected : bool) (p : SignedPing)
    (reply : option (list Z)) : SignedPong + WanError :=
  match WanAllowlist_check (we_allowlist e) peer with
  | inr err => inr err
  | inl _ =>
      if negb connected then inr (WanTransport (str "connect"))
      else
        match reply with
        | None => inr ExchangeTimeout
        | Some bytes =>
            match decode_pong bytes with
            | inr err => inr err
            | inl q =>
                match verify_signed_pong now p q with
                | inr err => inr err
                | inl _ => if decide (po_responder q ≠ peer) then inr (ResponderMismatch peer (po_responder q)) else inl q
                end
            end
        end
  end.

(** The accepting side, after the QUIC handshake with [remote]: the answer it writes,
    and the result. *)
Definition handle_incoming (now : Z) (e : WanEndpoint) (remote : NodeId) (read : option (list Z)) (written : bool) :
    option (list Z) * (NodeId + WanError) :=
  match WanAllowlist_check (we_allowlist e) remote with
  | inr err => (None, inr err)
  | inl _ =>
      match read with
      | None => (None, inr ExchangeTimeout)
      | Some bytes =>
          if decide (len bytes ≠ 24) then (None, inr (WanTransport (str "malformed ping")))
          else
            let pong := encode_pong (build_signed_pong now (we_keypair e) (SignedPing_from_wire bytes)) in
            if written then (Some pong, inl remote) else (Some pong, inr (WanTransport (str "write")))
      end
  end.
End Liveness.

(** ** Slots (node.rs) *)

Definition WAN_MAX_CONCURRENT_CONNECTIONS : Z := 16.
Definition WAN_MAX_CONNECTIONS_PER_PEER : Z := 2.
Definition WAN_MAX_FRAME_BYTES : Z := 65536.

Definition try_acquire_peer_slot (counts : gmap NodeId Z) (peer : NodeId) : gmap NodeId Z * bool :=
  let count := default 0 (counts !! peer) in
  if WAN_MAX_CONNECTIONS_PER_PEER <=? count then (<[peer := count]> counts, false)
  else (<[peer := count + 1]> counts, true).
(** The guard's [drop]. *)
Definition PeerConnectionGuard_drop (counts : gmap NodeId Z) (peer : NodeId) : gmap NodeId Z :=
  match counts !! peer with
  | Some count => let count := Z.max 0 (count - 1) in if count =? 0 then delete peer counts else <[peer := count]> counts
  | None => counts
  end.

(** The connection tasks of the accept loop: in the handshake, or in the session of a peer. *)
Record WanState := mkWanState {
  ws_permits : Z;
  ws_counts : gmap NodeId Z;
  ws_handshakes : gset Z;
  ws_sessions : gmap Z NodeId
}.
Definition wan_start : WanState := mkWanState WAN_MAX_CONCURRENT_CONNECTIONS ∅ ∅ ∅.

Inductive WanEvent :=
  | WanIncoming (c : Z)
  | WanHandshake (c : Z) (r : option (NodeId + WanError))
  | WanSessionEnd (c : Z).
Inductive WanAction := Refuse (c : Z) | CloseLimit (c : Z) | Serve (c : Z) (peer : NodeId) | Drop (c : Z).

(** One turn of the loop, the end of one [handle_incoming] ([None]: its timeout), the end
    of one session.  Connections are numbered; a number is used once. *)
Definition wan_accept_step (s : WanState) (e : WanEvent) : WanState * list WanAction :=
  match e with
  | WanIncoming c =>
      if decide (c ∈ ws_handshakes s ∨ is_Some (ws_sessions s !! c)) then (s, [])
      else if ws_permits s <=? 0 then (s, [Refuse c])
      else (mkWanState (ws_permits s - 1) (ws_counts s) ({[c]} ∪ ws_handshakes s) (ws_sessions s), [])
  | WanHandshake c r =>
      if decide (c ∈ ws_handshakes s) then
        let released := mkWanState (ws_permits s + 1) (ws_counts s) (ws_handshakes s ∖ {[c]}) (ws_sessions s) in
        match r with
        | Some (inl peer) =>
            let '(counts, acquired) := try_acquire_peer_slot (ws_counts s) peer in
            if acquired then
              (mkWanState (ws_permits s) counts (ws_handshakes s ∖ {[c]}) (<[c := peer]> (ws_sessions s)), [Serve c peer])
            else (mkWanState (ws_permits s + 1) counts (ws_handshakes s ∖ {[c]}) (ws_sessions s), [CloseLimit c])
        | Some (inr _) | None => (released, [Drop c])
        end
      else (s, [])
  | WanSessionEnd c =>
      match ws_sessions s !! c with
      | Some peer =>
          (mkWanState (ws_permits s + 1) (PeerConnectionGuard_drop (ws_counts s) peer) (ws_handshakes s)
             (delete c (ws_sessions s)), [Drop c])
      | None => (s, [])
      end
  end.
Definition wan_accept_run (es : list WanEvent) : WanState := foldl (λ s e, (wan_accept_step s e).1) wan_start es.

(** ** Requests over a connection (node.rs, main.rs) *)

Inductive WanRequestOutcome := Continue | CloseConnection (code : Z) (reason : text).

Section Requests.
Context `{Blake3} `{Lowercase} `{HexCodec} `{StdFormat} `{Uai} `{JsonPrint} `{Ed25519}.

(** The state after, the reply written to the stream, what to do with the connection, and the
    background task a dispatch may spawn. *)
Definition handle_one_wan_request (rd : Dispatch.Readings) (c : DispatchContext) (s : DispatchState) (peer : NodeId)
    (read : option (list Z)) : outcome False (DispatchState * option (list Z) * WanRequestOutcome * background) :=
  match read with
  | None => Ok (s, None, Continue, None)
  | Some bytes =>
      frame ← decode_verified_frame bytes;
      match frame with
      | None => Ok (s, None, CloseConnection 1 (str "bad frame signature"), None)
      | Some f =>
          if decide (sender_id (header f) ≠ peer) then
            Ok (s, None, CloseConnection 1 (str "sender/channel mismatch"), None)
          else if decide (frame_type (header f) ≠ FIntent) then
            Ok (s, None, CloseConnection 1 (str "unexpected frame type"), None)
          else
            match trace_id f with
            | None => Ok (s, None, Continue, None)
            | Some t =>
                r ← dispatch_intent rd c s (intent_hash (header f)) t (payload f) (sender_id (header f)) None;
                let '(s, reply, b) := (r : DispatchState * list Z * background) in
                match reply with
                | [] => Ok (s, None, Continue, b)
                | _ => if WAN_MAX_FRAME_BYTES <? len reply then Ok (s, None, Continue, b) else Ok (s, Some reply, Continue, b)
                end
            end
      end
  end.

(** What a stream of the session does: a request arrives (with what was read), it exceeds the
    request timeout, or no stream comes. *)
Inductive WanStream := StreamRequest (rd : Dispatch.Readings) (read : option (list Z)) | StreamTimeout | StreamNone.
Fixpoint wan_capability_session (c : DispatchContext) (peer : NodeId) (s : DispatchState) (streams : list WanStream) :
    outcome False (DispatchState * list (list Z) * option (Z * text)) :=
  match streams with
  | [] => Ok (s, [], None)
  | StreamNone :: _ => Ok (s, [], Some (0, str "idle timeout"))
  | StreamTimeout :: _ => Ok (s, [], Some (1, str "request timeout"))
  | StreamRequest rd read :: rest =>
      r ← handle_one_wan_request rd c s peer read;
      let '(s, reply, o, _) := (r : DispatchState * option (list Z) * WanRequestOutcome * background) in
      let sent := match reply with Some b => [b] | None => [] end in
      match o with
      | CloseConnection code reason => Ok (s, sent, Some (code, reason))
      | Continue =>
          r' ← wan_capability_session c peer s rest;
          let '(s, more, closed) := (r' : DispatchState * list (list Z) * option (Z * text)) in
          Ok (s, sent ++ more, closed)
      end
  end.

(** The client ([send_wan_intent_request]). *)
Inductive WanIntentError :=
  | WiBuildFailed | WiBadReply | WiWrongSender (n : NodeId) | WiWrongTrace
  | WiRejected (reason : text) | WiUnexpectedType (ft : FrameType).
Definition wan_intent_request (k : Keypair) (capability : text) (t : TraceId) (data : list Z) :
    outcome False (list Z + WanIntentError) :=
  request ← build_intent_frame k (capability_hash capability) t data None;
  Ok (match request with [] => inr WiBuildFailed | _ => inl request end).
Definition wan_intent_reply (expected_peer : NodeId) (t : TraceId) (reply : list Z) :
    outcome False (list Z + WanIntentError) :=
  frame ← decode_verified_frame reply;
  match frame with
  | None => Ok (inr WiBadReply)
  | Some f =>
      if decide (sender_id (header f) ≠ expected_peer) then Ok (inr (WiWrongSender (sender_id (header f))))
      else if decide (trace_id f ≠ Some t) then Ok (inr WiWrongTrace)
      else
        match frame_type (header f) with
        | FFulfill => Ok (inl (payload f))
        | FError => Ok (inr (WiRejected (from_utf8_lossy (payload f))))
        | ft => Ok (inr (WiUnexpectedType ft))
        end
  end.
End Requests.

(** ** The slots are exact *)

(** The sessions of a peer that are running. *)
Definition sessions_of (s : WanState) (peer : NodeId) : Z :=
  Z.of_nat (size (filter (λ kv, kv.2 = peer) (ws_sessions s))).

Record wan_inv (s : WanState) : Prop := {
  wi_permits : ws_permits s + Z.of_nat (size (ws_handshakes s)) + Z.of_nat (size (ws_sessions s))
               = WAN_MAX_CONCURRENT_CONNECTIONS;
  wi_nonneg : 0 ≤ ws_permits s;
  wi_counts : ∀ p, ws_counts s !! p = if sessions_of s p =? 0 then None else Some (sessions_of s p);
  wi_limit : ∀ p, sessions_of s p ≤ WAN_MAX_CONNECTIONS_PER_PEER;
  wi_apart : ∀ c, c ∈ ws_handshakes s → ws_sessions s !! c = None
}.

Lemma sessions_of_nonneg s p : 0 ≤ sessions_of s p.
Proof. unfold sessions_of. lia. Qed.
Lemma filter_sessions_insert (m : gmap Z NodeId) c p q :
  m !! c = None →
  Z.of_nat (size (filter (λ kv, kv.2 = q) (<[c := p]> m)))
  = Z.of_nat (size (filter (λ kv, kv.2 = q) m)) + (if decide (p = q) then 1 else 0).
Proof.
  intros Hc. case_decide as Hpq.
  - rewrite map_filter_insert_True by done. rewrite map_size_insert_None; [lia|].
    apply map_lookup_filter_None. left. done.
  - rewrite map_filter_insert_False by done. rewrite delete_id by done. lia.
Qed.
Lemma filter_sessions_delete (m : gmap Z NodeId) c p q :
  m !! c = Some p →
  Z.of_nat (size (filter (λ kv, kv.2 = q) (delete c m)))
  = Z.of_nat (size (filter (λ kv, kv.2 = q) m)) - (if decide (p = q) then 1 else 0).
Proof.
  intros Hc. pose proof (filter_sessions_insert (delete c m) c p q (lookup_delete_eq m c)) as E.
  rewrite insert_delete_eq, insert_id in E by done. lia.
Qed.

Lemma counts_default s p : wan_inv s → default 0 (ws_counts s !! p) = sessions_of s p.
Proof. intros Hi. rewrite (wi_counts _ Hi). destruct (Z.eqb_spec (sessions_of s p) 0); cbn; lia. Qed.

Lemma size_release (h : gset Z) c : c ∈ h → Z.of_nat (size (h ∖ {[c]})) = Z.of_nat (size h) - 1.
Proof.
  intros Hc. rewrite size_difference by set_solver. rewrite size_singleton.
  assert (size h ≠ 0%nat) by (intros E%size_empty_inv; set_solver). lia.
Qed.

Lemma wan_inv_serve s c peer :
  wan_inv s → c ∈ ws_handshakes s → sessions_of s peer < WAN_MAX_CONNECTIONS_PER_PEER →
  wan_inv (mkWanState (ws_permits s) (<[peer := sessions_of s peer + 1]> (ws_counts s)) (ws_handshakes s ∖ {[c]})
             (<[c := peer]> (ws_sessions s))).
Proof.
  intros Hi Hc Hr. pose proof (wi_apart _ Hi c Hc) as Hn. destruct Hi as [H1 H2 H3 H4 H5].
  assert (Hs : ∀ q, sessions_of (mkWanState (ws_permits s) (<[peer := sessions_of s peer + 1]> (ws_counts s))
      (ws_handshakes s ∖ {[c]}) (<[c := peer]> (ws_sessions s))) q = sessions_of s q + (if decide (peer = q) then 1 else 0))
    by (intros q; unfold sessions_of; cbn; by apply filter_sessions_insert).
  split.
  - cbn. rewrite size_release, map_size_insert_None by done. lia.
  - done.
  - intros q. rewrite Hs. cbn. pose proof (sessions_of_nonneg s q). case_decide as Hq.
    + subst q. rewrite lookup_insert_eq, (proj2 (Z.eqb_neq _ _)) by lia. done.
    + rewrite lookup_insert_ne, H3 by done. by rewrite Z.add_0_r.
  - intros q. rewrite Hs. specialize (H4 q). case_decide as Hq; [subst q|]; lia.
  - intros c' Hc'. cbn. rewrite lookup_insert_ne by (intros ->; set_solver). apply H5. set_solver.
Qed.

Lemma wan_inv_release s c permits counts :
  wan_inv s → c ∈ ws_handshakes s → permits = ws_permits s + 1 → (∀ p, counts !! p = ws_counts s !! p) →
  wan_inv (mkWanState permits counts (ws_handshakes s ∖ {[c]}) (ws_sessions s)).
Proof.
  intros [H1 H2 H3 H4 H5] Hc -> He. split; try done; cbn; [rewrite size_release by done; lia|lia| |set_solver].
  intros p. rewrite He. exact (H3 p).
Qed.

Lemma wan_inv_end s c peer :
  wan_inv s → ws_sessions s !! c = Some peer →
  wan_inv (mkWanState (ws_permits s + 1) (PeerConnectionGuard_drop (ws_counts s) peer) (ws_handshakes s)
             (delete c (ws_sessions s))).
Proof.
  intros Hi Hc. destruct Hi as [H1 H2 H3 H4 H5].
  assert (Hs : ∀ q, sessions_of (mkWanState (ws_permits s + 1) (PeerConnectionGuard_drop (ws_counts s) peer)
      (ws_handshakes s) (delete c (ws_sessions s))) q = sessions_of s q - (if decide (peer = q) then 1 else 0))
    by (intros q; unfold sessions_of; cbn; by apply filter_sessions_delete).
  assert (Hpos : 1 ≤ sessions_of s peer).
  { pose proof (Hs peer) as E. rewrite decide_True in E by done.
    pose proof (sessions_of_nonneg (mkWanState (ws_permits s + 1) (PeerConnectionGuard_drop (ws_counts s) peer)
      (ws_handshakes s) (delete c (ws_sessions s))) peer). lia. }
  assert (Hsz : size (ws_sessions s) ≠ 0%nat) by (intros E%map_size_empty_inv; by rewrite E in Hc).
  split.
  - cbn. rewrite map_size_delete, Hc. lia.
  - cbn. lia.
  - intros q. rewrite Hs. cbn. unfold PeerConnectionGuard_drop.
    rewrite (H3 peer), (proj2 (Z.eqb_neq (sessions_of s peer) 0)) by lia. rewrite Z.max_r by lia. case_decide as Hq.
    + subst q. destruct (Z.eqb_spec (sessions_of s peer - 1) 0) as [E|E]; [by rewrite lookup_delete_eq|by rewrite lookup_insert_eq].
    + rewrite Z.sub_0_r, <- H3. destruct (_ =? 0); [by rewrite lookup_delete_ne|by rewrite lookup_insert_ne].
  - intros q. rewrite Hs. specialize (H4 q). case_decide; lia.
  - intros c' Hc'. cbn. apply lookup_delete_None. right. by apply H5.
Qed.

Lemma wan_step_inv s e : wan_inv s → wan_inv (wan_accept_step s e).1.
Proof.
  intros Hi. destruct e as [c|c r|c]; cbn.
  - case_decide as Hc; [done|]. destruct (Z.leb_spec (ws_permits s) 0) as [|Hp]; [done|].
    destruct Hi as [H1 H2 H3 H4 H5]. split; cbn; try done; [|lia|].
    + rewrite size_union, size_singleton by set_solver. lia.
    + intros c' [->%elem_of_singleton|Hc']%elem_of_union; [|by apply H5].
      destruct (ws_sessions s !! c) eqn:E; [|done]. exfalso. apply Hc. right. by eexists.
  - case_decide as Hc; [|done]. destruct r as [[peer|err]|]; [|by apply wan_inv_release..].
    unfold try_acquire_peer_slot. rewrite (counts_default s peer Hi).
    destruct (Z.leb_spec WAN_MAX_CONNECTIONS_PER_PEER (sessions_of s peer)) as [Hf|Hr]; cbn.
    + apply wan_inv_release; try done. intros p. destruct (decide (p = peer)) as [->|Hp].
      * rewrite lookup_insert_eq, (wi_counts _ Hi), (proj2 (Z.eqb_neq _ _)); [done|].
        unfold WAN_MAX_CONNECTIONS_PER_PEER in Hf. lia.
      * by rewrite lookup_insert_ne.
    + by apply wan_inv_serve.
  - destruct (ws_sessions s !! c) as [peer|] eqn:E; [|done]. by apply wan_inv_end.
Qed.

Lemma wan_run_inv es : wan_inv (wan_accept_run es).
Proof.
  unfold wan_accept_run. assert (Hs : wan_inv wan_start).
  { by split. }
  revert Hs. generalize wan_start. induction es as [|e es IH]; intros s Hs; cbn; [done|].
  by apply IH, wan_step_inv.
Qed.

(** The connection slots of the WAN listener are exact.  However connections arrive,
    fail, are refused, time out and end, at most 16 are handled at a time and at most
    2 of one peer; a connection is refused only when 16 are running and turned away after its
    handshake only when two of its peer are; and no slot leaks: the free permits and the
    per-peer counts are always exactly what the running connections leave, so that
    when nothing runs everything is free again. *)
Theorem wan_slots_exact es :
  let s := wan_accept_run es in
  ws_permits s = 16 - Z.of_nat (size (ws_handshakes s)) - Z.of_nat (size (ws_sessions s)) ∧ 0 ≤ ws_permits s ∧
  (∀ p, sessions_of s p ≤ 2 ∧ ws_counts s !! p = if sessions_of s p =? 0 then None else Some (sessions_of s p)) ∧
  (∀ e c, Refuse c ∈ (wan_accept_step s e).2 → Z.of_nat (size (ws_handshakes s)) + Z.of_nat (size (ws_sessions s)) = 16) ∧
  (∀ e c, CloseLimit c ∈ (wan_accept_step s e).2 →
     ∃ p, e = WanHandshake c (Some (inl p)) ∧ sessions_of s p = 2) ∧
  (∀ e c p, Serve c p ∈ (wan_accept_step s e).2 → e = WanHandshake c (Some (inl p)) ∧ sessions_of s p < 2) ∧
  (ws_handshakes s = ∅ → ws_sessions s = ∅ → ws_permits s = 16 ∧ ws_counts s = ∅).
Proof.
  intros s. pose proof (wan_run_inv es) as Hi. fold s in Hi. clearbody s. pose proof Hi as [H1 H2 H3 H4 H5].
  unfold WAN_MAX_CONCURRENT_CONNECTIONS, WAN_MAX_CONNECTIONS_PER_PEER in *.
  split; [lia|]. split; [done|]. split; [by intros p|].
  assert (Hstep : ∀ e x, x ∈ (wan_accept_step s e).2 →
    match x with
    | Refuse _ => ws_permits s ≤ 0
    | CloseLimit c => ∃ p, e = WanHandshake c (Some (inl p)) ∧ sessions_of s p = 2
    | Serve c p => e = WanHandshake c (Some (inl p)) ∧ sessions_of s p < 2
    | Drop _ => True
    end).
  { intros e x. destruct e as [c|c r|c]; cbn.
    - case_decide; [set_solver|]. destruct (Z.leb_spec (ws_permits s) 0); [|set_solver].
      intros ->%list_elem_of_singleton. done.
    - case_decide; [|set_solver]. destruct r as [[peer|err]|]; [|intros ->%list_elem_of_singleton; done..].
      unfold try_acquire_peer_slot. rewrite (counts_default s peer Hi).
      destruct (Z.leb_spec WAN_MAX_CONNECTIONS_PER_PEER (sessions_of s peer)) as [Hf|Hr];
        cbn; intros ->%list_elem_of_singleton; unfold WAN_MAX_CONNECTIONS_PER_PEER in *.
      + exists peer. specialize (H4 peer). split; [done|lia].
      + split; [done|lia].
    - destruct (ws_sessions s !! c); [intros ->%list_elem_of_singleton; done|set_solver]. }
  split_and!.
  - intros e c Hx%Hstep. lia.
  - intros e c Hx. exact (Hstep e _ Hx).
  - intros e c p Hx. exact (Hstep e _ Hx).
  - intros E1 E2. rewrite E1, E2, size_empty, map_size_empty in H1. split; [lia|].
    apply map_eq. intros p. rewrite H3, lookup_empty. unfold sessions_of. by rewrite E2.
Qed.

(** ** Liveness is proved by the peer's key *)

Section Live.
Context `{Ed25519}.

Lemma verify_signed_pong_iff now p q :
  verify_signed_pong now p q = inl tt ↔
  po_nonce q = pi_nonce p ∧ now - pi_sent_at p ≤ LIVENESS_FRESHNESS_WINDOW_SECS ∧
  verify_key (po_responder q) (pong_signing_bytes (po_nonce q) (po_responded_at q)) (po_signature q) = true.
Proof.
  unfold verify_signed_pong, verify_key, saturating_age, LIVENESS_FRESHNESS_WINDOW_SECS.
  case_decide as Hn; [split; [done|tauto]|]. destruct (Z.ltb_spec 30 (Z.max 0 (now - pi_sent_at p))); [split; [done|lia]|].
  destruct (ed_valid_key _); cbn; [|split; [done|naive_solver]].
  destruct (ed_verify_strict _ _ _); cbn; [|split; [done|naive_solver]].
  split; [|done]. intros _. split_and!; [done|lia|done].
Qed.

Lemma decode_encode_pong q :
  array_ok 32 (po_responder q) → array_ok 16 (po_nonce q) → 0 ≤ po_responded_at q < 2 ^ 64 → array_ok 64 (po_signature q) →
  decode_pong (encode_pong q) = inl q.
Proof.
  destruct q as [r n t g]. cbn [po_responder po_nonce po_responded_at po_signature].
  intros [Hr _] [Hn _] Ht [Hg _]. unfold decode_pong.
  assert (El : encode_pong (mkPong r n t g) = concat [r; n; to_be 8 t; g]) by (unfold encode_pong; cbn; by rewrite app_nil_r).
  rewrite El. rewrite decide_False.
  2:{ intros E. apply E. unfold len. cbn [concat]. rewrite !length_app, Hr, Hn. cbn [length].
    change (length (to_be 8 t)) with 8%nat. rewrite Nat.add_0_r. unfold Signature in *. rewrite Hg. reflexivity. }
  pose proof (at_slice_field [r; n; to_be 8 t; g]) as Hf.
  rewrite (Hf 0%nat r), (Hf 1%nat n), (Hf 2%nat (to_be 8 t)), (Hf 3%nat g)
    by (first [done | cbn; rewrite ?app_nil_r, ?length_app, ?Hr, ?Hn, ?Hg; reflexivity]).
  by rewrite from_be_to_be.
Qed.
Lemma ping_wire_round_trip p :
  array_ok 16 (pi_nonce p) → 0 ≤ pi_sent_at p < 2 ^ 64 →
  SignedPing_from_wire (SignedPing_to_wire p) = p ∧ len (SignedPing_to_wire p) = 24.
Proof.
  destruct p as [n t]. cbn [pi_nonce pi_sent_at]. intros [Hn _] Ht.
  unfold SignedPing_from_wire, SignedPing_to_wire, SignedPing_signing_bytes. cbn [pi_nonce pi_sent_at].
  pose proof (at_slice_field [n; to_be 8 t]) as Hf.
  replace (n ++ to_be 8 t) with (concat [n; to_be 8 t]) by (cbn [concat]; by rewrite app_nil_r).
  rewrite (Hf 0%nat n), (Hf 1%nat (to_be 8 t)) by
    (first [done | cbn; rewrite ?app_nil_r, ?length_app, ?Hn; reflexivity]).
  rewrite from_be_to_be by done. split; [done|]. unfold len. cbn [concat]. rewrite app_nil_r, length_app, Hn. reflexivity.
Qed.

(** A pong's signed bytes are those of nothing else: a HELLO, a frame and an announcement's
    claim start with other bytes. *)
Lemma pong_bytes_distinct nonce at_ :
  (∀ k ty ts, pong_signing_bytes nonce at_ ≠ concat (hello_fields k ty ts)) ∧
  (∀ f, encodable f → pong_signing_bytes nonce at_ ≠ signature_data f) ∧
  (∀ o c l, pong_signing_bytes nonce at_ ≠ origin_signing_bytes_for o c l).
Proof.
  assert (Ep : ∃ rest, pong_signing_bytes nonce at_ = 97 :: rest) by (eexists; reflexivity).
  destruct Ep as [rest ->]. split_and!.
  - intros k ty ts. unfold hello_fields. cbn. discriminate.
  - intros f He E. assert (Hw : encodable (set_ttl 0 f)) by (by apply set_ttl_encodable).
    rewrite signature_data_wire in E by (by apply encodable_writable).
    assert (Hd : decode (wire (set_ttl 0 f) ++ []) = Ok (of_frame (set_ttl 0 f))) by (by apply decode_of_wire).
    unfold wire in Hd. rewrite <- E in Hd. cbn in Hd. by apply decode_wrong_magic in Hd.
  - intros o c l. unfold origin_signing_bytes_for. unfold ORIGIN_SIG_DOMAIN. cbn. discriminate.
Qed.

(** Only the peer's own key makes it live.  A dialled peer counts as live only if it
    is on the allowlist and the bytes it returned hold a pong under its own identity, for the nonce
    just sent, not later than 30 seconds by the verifier's clock, and signed by that
    identity over exactly that nonce in the pong's own signing context, which no HELLO,
    frame or announcement shares.  An inbound connection is accepted only for the identity
    QUIC authenticated, and only if that is allowed.  And between two daemons that
    allow each other the exchange succeeds when it takes at most 30 seconds, whatever the
    responder's clock says. *)
Theorem wan_liveness :
  (∀ now e peer connected p reply q,
     connect_direct_and_verify_liveness now e peer connected p reply = inl q →
     peer ∈ wl_allowed (we_allowlist e) ∧ connected = true ∧ po_responder q = peer ∧ po_nonce q = pi_nonce p ∧
     now - pi_sent_at p ≤ 30 ∧
     verify_key peer (pong_signing_bytes (pi_nonce p) (po_responded_at q)) (po_signature q) = true ∧
     (∀ k ty ts, pong_signing_bytes (pi_nonce p) (po_responded_at q) ≠ concat (hello_fields k ty ts)) ∧
     (∀ f, encodable f → pong_signing_bytes (pi_nonce p) (po_responded_at q) ≠ signature_data f)) ∧
  (∀ now e remote read written peer,
     (handle_incoming now e remote read written).2 = inl peer →
     peer = remote ∧ remote ∈ wl_allowed (we_allowlist e) ∧ ∃ bytes, read = Some bytes ∧ len bytes = 24) ∧
  (∀ kA kB lA lB p nowA nowB,
     keypair_ok kA → keypair_ok kB → array_ok 16 (pi_nonce p) → 0 ≤ pi_sent_at p < 2 ^ 64 → 0 ≤ nowB < 2 ^ 64 →
     nowA - pi_sent_at p ≤ 30 → Keypair_node_id kB ∈ wl_allowed lA → Keypair_node_id kA ∈ wl_allowed lB →
     ∃ pong q, handle_incoming nowB (mkEndpoint kB lB) (Keypair_node_id kA) (Some (SignedPing_to_wire p)) true
        = (Some pong, inl (Keypair_node_id kA)) ∧
       connect_direct_and_verify_liveness nowA (mkEndpoint kA lA) (Keypair_node_id kB) true p (Some pong) = inl q).
Proof.
  split_and!.
  - intros now e peer connected p reply q. unfold connect_direct_and_verify_liveness, WanAllowlist_check, WanAllowlist_is_allowed.
    case_bool_decide as Ha; [|done]. destruct connected; [|done]. destruct reply as [bytes|]; [|done].
    destruct (decode_pong bytes) as [q'|]; [|done]. destruct (verify_signed_pong now p q') as [[]|] eqn:Ev; [|done].
    case_decide as Hr; [done|]. intros [= ->]. apply verify_signed_pong_iff in Ev as (Hn & Ht & Hv).
    destruct (decide (po_responder q = peer)) as [E|]; [|done]. rewrite Hn, E in Hv.
    destruct (pong_bytes_distinct (pi_nonce p) (po_responded_at q)) as (D1 & D2 & _). by split_and!.
  - intros now e remote read written peer. unfold handle_incoming, WanAllowlist_check, WanAllowlist_is_allowed.
    case_bool_decide as Ha; [|done]. destruct read as [bytes|]; [|done]. case_decide as Hl; [done|].
    destruct written; [|done]. cbn. intros [= <-]. split; [done|]. split; [done|]. exists bytes. split; [done|lia].
  - intros kA kB lA lB p nowA nowB HkA HkB Hn Hs HnB Hage HA HB.
    set (q := build_signed_pong nowB kB p). exists (encode_pong q), q.
    destruct (ping_wire_round_trip p Hn Hs) as [Hp Hl].
    unfold handle_incoming, connect_direct_and_verify_liveness, WanAllowlist_check, WanAllowlist_is_allowed.
    cbn [we_allowlist we_keypair]. rewrite !bool_decide_eq_true_2 by done. cbn [negb].
    rewrite Hl, decide_False, Hp by (intros E; by apply E). split; [done|].
    rewrite decode_encode_pong by (first [apply ed_public_ok | exact Hn | exact HnB | apply ed_sign_ok]).
    assert (Hv : verify_signed_pong nowA p q = inl tt).
    { apply verify_signed_pong_iff. split; [done|]. split; [exact Hage|]. by apply sign_verifies. }
    rewrite Hv. by rewrite decide_False by (intros E; by apply E).
Qed.
End Live.

(** ** Requests *)

Section Served.
Context `{Blake3} `{Lowercase} `{HexCodec} `{StdFormat} `{Uai} `{JsonPrint} `{Ed25519}.

(** A frame of the connection's peer that asks for something. *)
Record wan_request (peer : NodeId) (read : option (list Z)) (f : Frame) (t : TraceId) : Prop := {
  wr_frame : ∃ bytes, read = Some bytes ∧ decode_verified_frame bytes = Ok (Some f);
  wr_sender : sender_id (header f) = peer;
  wr_type : frame_type (header f) = FIntent;
  wr_trace : trace_id f = Some t
}.

Lemma verified_signature bytes f :
  decode_verified_frame bytes = Ok (Some f) →
  ∃ g, auth f = AuthSignature g ∧ verify_key (sender_id (header f)) (signature_data f) g = true.
Proof.
  unfold decode_verified_frame. destruct (decode bytes) as [d| |]; [|done..]. unfold FrameVerifier_verify.
  destruct (trust_level (header (to_frame d))); try done; destruct (auth (to_frame d)) as [g| |] eqn:Ea; try done;
    destruct (NodeId_verify _ _ _) eqn:Ev; try done; intros [= <-]; exists g; by split.
Qed.

(** C15: What a WAN connection can make the daemon do.  A request is dispatched exactly when the
    stream held a verified Intent with a trace from the peer the connection was authenticated
    as; it is dispatched in that peer's name, so the frame carries that peer's signature and
    the policy is asked about that peer, and at most its reply goes back, if it fits.
    Anything else changes nothing and answers nothing: an unverified frame, one signed by
    another key, or one of another type closes the connection and ends the session,
    whatever follows. *)
Theorem wan_request_authentic rd c s peer read s' reply o b :
  handle_one_wan_request rd c s peer read = Ok (s', reply, o, b) →
  (∃ f t out g, wan_request peer read f t ∧ o = Continue ∧
     auth f = AuthSignature g ∧ verify_key peer (signature_data f) g = true ∧
     dispatch_intent rd c s (intent_hash (header f)) t (payload f) peer None = Ok (s', out, b) ∧
     reply = (if bool_decide (out ≠ []) && (len out <=? WAN_MAX_FRAME_BYTES) then Some out else None)) ∨
  ((∀ f t, ¬ wan_request peer read f t) ∧ s' = s ∧ reply = None ∧ b = None ∧
   (o = Continue ↔ ∀ bytes, read = Some bytes → ∃ f, decode_verified_frame bytes = Ok (Some f) ∧
      sender_id (header f) = peer ∧ frame_type (header f) = FIntent) ∧
   (∀ code reason rest, o = CloseConnection code reason →
      wan_capability_session c peer s (StreamRequest rd read :: rest) = Ok (s, [], Some (code, reason)))).
Proof.
  intros Hr.
  assert (Hsess : ∀ code reason rest, o = CloseConnection code reason → s' = s → reply = None →
    wan_capability_session c peer s (StreamRequest rd read :: rest) = Ok (s, [], Some (code, reason))).
  { intros code reason rest -> -> ->. cbn. by rewrite Hr. }
  unfold handle_one_wan_request in Hr. destruct read as [bytes|].
  2:{ injection Hr as <- <- <- <-. right. split_and!; try done. intros f t [(? & ? & _) _ _ _]. done. }
  apply bind_Ok_inv in Hr as ([f|] & Hd & Hr).
  2:{ injection Hr as <- <- <- <-. right. split_and!; auto.
      - intros f t [(x & [= <-] & ?) _ _ _]. congruence.
      - split; [done|]. intros Ha. destruct (Ha bytes eq_refl) as (f & ? & _). congruence. }
  assert (Hu : ∀ x, decode_verified_frame bytes = Ok (Some x) → x = f) by (intros x; rewrite Hd; congruence).
  destruct (decide (sender_id (header f) ≠ peer)) as [Hs|Hs].
  { injection Hr as <- <- <- <-. right. split_and!; auto.
    - intros x t [(y & [= <-] & ->%Hu) ? _ _]. done.
    - split; [done|]. intros Ha. destruct (Ha bytes eq_refl) as (x & ->%Hu & ? & _). done. }
  apply dec_stable in Hs. destruct (decide (frame_type (header f) ≠ FIntent)) as [Ht|Ht].
  { injection Hr as <- <- <- <-. right. split_and!; auto.
    - intros x t [(y & [= <-] & ->%Hu) _ ? _]. done.
    - split; [done|]. intros Ha. destruct (Ha bytes eq_refl) as (x & ->%Hu & _ & ?). done. }
  apply dec_stable in Ht. destruct (trace_id f) as [t|] eqn:Etr.
  - left. destruct (verified_signature _ _ Hd) as (g & Hg & Hv). rewrite Hs in Hv, Hr.
    apply bind_Ok_inv in Hr as ([[s1 out] b1] & Hdi & Hr). exists f, t, out, g.
    assert (Hw : wan_request peer (Some bytes) f t) by (split; eauto).
    destruct out as [|x out]; [injection Hr as <- <- <- <-; by split_and!|].
    rewrite bool_decide_eq_true_2 by done.
    destruct (Z.ltb_spec WAN_MAX_FRAME_BYTES (len (x :: out))) as [Hl|Hl]; injection Hr as <- <- <- <-; split_and!; try done.
    + by rewrite (proj2 (Z.leb_gt _ _)).
    + by rewrite (proj2 (Z.leb_le _ _)).
  - injection Hr as <- <- <- <-. right. split_and!; try done.
    + intros x t [(y & [= <-] & ->%Hu) _ _ ?]. congruence.
    + split; [|done]. intros _ y [= <-]. by exists f.
Qed.

Lemma signed_fields k ft t h p r :
  let f := signed k (simple_frame k ft t h p r) in
  frame_type (header f) = ft ∧ sender_id (header f) = Keypair_node_id k ∧ intent_hash (header f) = h ∧
  trace_id f = Some t ∧ payload f = p.
Proof. done. Qed.
Lemma signed_size k ft t h p :
  message_ok k ft t h p None → len (wire (signed k (simple_frame k ft t h p None))) = 134 + len p.
Proof.
  intros Hm. destruct (build_simple_frame_wire _ _ _ _ _ _ Hm) as [He _].
  rewrite len_wire by (by apply encodable_writable). rewrite wire_size_eq, signed_simple_frame. cbn [payload set_auth simple_frame auth].
  unfold ext_size. cbn. change SIGNATURE_SIZE with 64. lia.
Qed.

(** The reply a client makes of an answer. *)
Definition client_result (r : list Z + text) : list Z + WanIntentError :=
  match r with inl p => inl p | inr reason => inr (WiRejected (from_utf8_lossy (as_bytes reason))) end.

(** A WAN request and its answer.  The Intent the client builds is dispatched by the
    other side in the client's name with its capability and payload, and the client
    gets exactly the handler's payload, or its reason as an error, when the reply fits
    a stream (65,402 bytes of payload); a longer reply is not sent at all, although the
    request has run, and the client sees an unreadable answer. *)
Theorem wan_round_trip rd c s kA cap t p s' r b :
  let idA := Keypair_node_id kA in let idB := Keypair_node_id (dc_identity c) in
  message_ok kA FIntent t (capability_hash cap) p None → keypair_ok (dc_identity c) → bytes_ok (reply_payload r) →
  len (reply_payload r) ≤ MAX_PAYLOAD_SIZE →
  dispatch_request rd c s (capability_hash cap) p idA = Ok ((s', r), b) →
  ∃ request, wan_intent_request kA cap t p = Ok (inl request) ∧
  if len (reply_payload r) <=? 65402 then
    ∃ reply, handle_one_wan_request rd c s idA (Some request) = Ok (s', Some reply, Continue, b) ∧
             wan_intent_reply idB t reply = Ok (client_result r)
  else handle_one_wan_request rd c s idA (Some request) = Ok (s', None, Continue, b) ∧
       wan_intent_reply idB t [] = Ok (inr WiBadReply).
Proof.
  intros idA idB Hm Hk Hb Hl Hd. destruct (build_simple_frame_wire _ _ _ _ _ _ Hm) as [He B1].
  assert (D1 := decode_verified_wire _ He (signed_verifies _ _ _ _ _ _ Hm)).
  destruct (signed_fields kA FIntent t (capability_hash cap) p None) as (T1 & S1 & I1 & R1 & P1).
  assert (Hm2 : message_ok (dc_identity c) (reply_type r) t (capability_hash cap) (reply_payload r) None)
    by (destruct Hm; split; try done; by destruct r).
  destruct (build_simple_frame_wire _ _ _ _ _ _ Hm2) as [He2 B2].
  assert (D2 := decode_verified_wire _ He2 (signed_verifies _ _ _ _ _ _ Hm2)).
  destruct (signed_fields (dc_identity c) (reply_type r) t (capability_hash cap) (reply_payload r) None)
    as (T2 & S2 & _ & R2 & P2).
  pose proof (signed_size _ _ _ _ _ Hm) as L1. pose proof (signed_size _ _ _ _ _ Hm2) as L2.
  set (f1 := signed kA _) in *. set (f2 := signed (dc_identity c) _) in *. clearbody f1 f2.
  pose proof (len_nonneg p). pose proof (len_nonneg (reply_payload r)).
  exists (wire f1). split.
  { unfold wan_intent_request, build_intent_frame. rewrite B1. cbn [mbind outcome_bind].
    destruct (wire f1); [rewrite len_nil in L1; lia|done]. }
  assert (Eh : handle_one_wan_request rd c s idA (Some (wire f1))
    = Ok (s', if len (wire f2) <=? WAN_MAX_FRAME_BYTES then Some (wire f2) else None, Continue, b)).
  { unfold handle_one_wan_request. rewrite D1. cbn [mbind outcome_bind].
    rewrite decide_False by (rewrite S1; tauto). rewrite decide_False by (rewrite T1; tauto).
    rewrite R1, I1, P1, S1. fold idA. unfold dispatch_intent. rewrite Hd, reply_frame_simple, B2.
    cbn [mbind outcome_bind]. destruct (wire f2) as [|x l] eqn:E2; [rewrite len_nil in L2; lia|].
    destruct (Z.ltb_spec WAN_MAX_FRAME_BYTES (len (x :: l))); [by rewrite (proj2 (Z.leb_gt _ _))|by rewrite (proj2 (Z.leb_le _ _))]. }
  rewrite Eh, L2. unfold WAN_MAX_FRAME_BYTES.
  destruct (Z.leb_spec (len (reply_payload r)) 65402), (Z.leb_spec (134 + len (reply_payload r)) 65536); try lia; [|by split].
  exists (wire f2). split; [done|]. unfold wan_intent_reply. rewrite D2. cbn [mbind outcome_bind].
  rewrite decide_False by (rewrite S2; tauto). rewrite decide_False by (rewrite R2; tauto).
  rewrite T2, P2. by destruct r.
Qed.
End Served.

(** ** Examples *)

#[local] Existing Instance prefix_digest.
#[local] Existing Instance plain_format.
#[local] Existing Instance ed_reference.
#[local] Existing Instance sample_uai.
#[local] Existing Instance sample_print.

Definition sample_wan_client : Keypair := mkKeypair peer_a.
Definition sample_wan_trace : TraceId := replicate 8 1.
Lemma sample_wan_client_id : Keypair_node_id sample_wan_client = peer_a.
Proof. vm_compute. reflexivity. Qed.
Lemma sample_wan_message :
  message_ok sample_wan_client FIntent sample_wan_trace (capability_hash (str "echo")) [1; 2; 3] None.
Proof.
  split; [|by vm_compute|by apply (array_ok_replicate 8 1)| |exact I|].
  - split; [reflexivity|]. apply (bool_decide_unpack _). vm_compute. exact I.
  - split; [reflexivity|]. apply (bool_decide_unpack _). vm_compute. exact I.
  - split; [|by vm_compute]. apply (bool_decide_unpack _). vm_compute. exact I.
Qed.
Lemma sample_wan_server : keypair_ok (dc_identity sample_context).
Proof. by apply (array_ok_replicate 32 5). Qed.
Lemma sample_wan_reply_bytes : bytes_ok (reply_payload (inl [1; 2; 3])).
Proof. apply (bool_decide_unpack _). vm_compute. exact I. Qed.
Lemma sample_wan_echo :
  dispatch_request sample_readings sample_context sample_state (capability_hash (str "echo")) [1; 2; 3]
    (Keypair_node_id sample_wan_client) = Ok ((sample_echo_state, inl [1; 2; 3]), None).
Proof. vm_compute. reflexivity. Qed.

Lemma wan_round_trip_witness :
  ∃ request reply, wan_intent_request sample_wan_client (str "echo") sample_wan_trace [1; 2; 3] = Ok (inl request) ∧
    handle_one_wan_request sample_readings sample_context sample_state (Keypair_node_id sample_wan_client) (Some request)
      = Ok (sample_echo_state, Some reply, Continue, None) ∧
    wan_intent_reply (Keypair_node_id (dc_identity sample_context)) sample_wan_trace reply = Ok (inl [1; 2; 3]).
Proof.
  destruct (wan_round_trip sample_readings sample_context sample_state sample_wan_client (str "echo") sample_wan_trace
    [1; 2; 3] sample_echo_state (inl [1; 2; 3]) None sample_wan_message sample_wan_server sample_wan_reply_bytes
    ltac:(by vm_compute) sample_wan_echo) as (request & Hq & reply & Hr & Hc).
  exists request, reply. split; [exact Hq|]. split; [exact Hr|exact Hc].
Defined.

(** A frame signed by one node, sent over the connection of another. *)
Definition sample_relayed : list Z :=
  Eval vm_compute in wire (signed sample_wan_client (simple_frame sample_wan_client FIntent sample_wan_trace
    (capability_hash (str "echo")) [1; 2; 3] None)).
Definition sample_other_peer : NodeId := replicate 32 9.
Lemma sample_relayed_refused :
  handle_one_wan_request sample_readings sample_context sample_state sample_other_peer (Some sample_relayed)
  = Ok (sample_state, None, CloseConnection 1 (str "sender/channel mismatch"), None).
Proof. vm_compute. reflexivity. Qed.
Lemma wan_request_authentic_witness :
  (∀ f t, ¬ wan_request sample_other_peer (Some sample_relayed) f t) ∨
  ∃ f t, wan_request sample_other_peer (Some sample_relayed) f t.
Proof.
  destruct (wan_request_authentic _ _ _ _ _ _ _ _ _ sample_relayed_refused) as [(f & t & out & g & Hw & _)|[Hn _]].
  - right. exists f, t. exact Hw.
  - left. exact Hn.
Defined.
