(* ===== verification/Telegram.v ===== *)
(** * The Telegram approval channel (forge-node/src/telegram_approval.rs)

    The channel a daemon uses to ask its operator about a Tier 2 action: a message
    with two buttons is sent, a poller receives the taps, and the call that asked
    waits.  The Bot API is outside the repository: what [sendMessage] and
    [getUpdates] return, and how the wait ends, are arguments.  A waiter (the
    source's oneshot channel) is named by a number. *)

From stdpp Require Import base numbers list gmap strings.
From S2P Require Import Prelude Types Text Intent Scan Policy Approval AuditTrail Sanitize Dispatch.

(** ** Buttons *)

Section Telegram.
Context `{HexCodec} `{StdFormat}.

Definition callback_data (action hex_id : text) : text := str "wg:" ++ action ++ str ":" ++ hex_id.
Definition build_inline_keyboard (hex_id : text) : Value :=
  VObject [(str "inline_keyboard", VArray [VArray [
    VObject [(str "text", VString ([9989] ++ str " Approve")); (str "callback_data", VString (callback_data (str "approve") hex_id))];
    VObject [(str "text", VString ([10060] ++ str " Deny")); (str "callback_data", VString (callback_data (str "deny") hex_id))]]])].

Definition is_ascii_hexdigit (b : Z) : bool := match hex_val b with Some _ => true | None => false end.
(** [splitn(3, ':')] and the checks of the three parts. *)
Definition parse_callback_data (data : text) : option (text * text) :=
  '(prefix, rest) ← split_once 58 data;
  '(action, hex_id) ← split_once 58 rest;
  if decide (prefix ≠ str "wg") then None
  else if decide (action ≠ str "approve" ∧ action ≠ str "deny") then None
  else if negb (len (as_bytes hex_id) =? 32) || negb (forallb is_ascii_hexdigit (as_bytes hex_id)) then None
  else Some (action, hex_id).

(** ** The message *)

Definition telegram_value (v : ConstraintValue) : text :=
  match v with
  | CV_String s => s
  | _ => format_constraint_value v
  end.
Definition telegram_param (c : Constraint) : text := str "  - " ++ key c ++ str " = " ++ telegram_value (value c) ++ newline.

Definition render_telegram_message (r : ApprovalRequest) : text :=
  [128680] ++ str " AXIOM Tier 2 approval required" ++ newline ++ newline
  ++ str "Capability: " ++ req_capability r ++ newline
  ++ str "Intent ID: " ++ IntentId_to_hex (req_intent_id r) ++ newline
  ++ (if decide (req_parameters r = []) then str "Parameters: (none)" ++ newline
      else str "Parameters:" ++ newline ++ flat_map telegram_param (req_parameters r))
  ++ match req_dry_run_diff r with
     | Some [] => str "Dry-run diff: (no changes)" ++ newline
     | Some diff => str "Dry-run diff:" ++ newline ++ flat_map diff_line diff
     | None => str "Dry-run diff: (not available)" ++ newline
     end
  ++ str "Expires in: " ++ format_duration (req_remaining r) ++ newline ++ newline
  ++ str "This is destructive/security-relevant (Tier 2) and requires your explicit, one-time approval. No standing approvals, no wildcards.".

(** ** State *)

Record TelegramApprovalState := mkTelegram {
  tg_bot_token : text;
  tg_chat_id : Z;
  tg_pending : gmap text Z
}.
Definition TelegramApprovalState_new (bot_token : text) (chat_id : Z) : TelegramApprovalState := mkTelegram bot_token chat_id ∅.
Definition set_pending (st : TelegramApprovalState) x : TelegramApprovalState := mkTelegram (tg_bot_token st) (tg_chat_id st) x.
Definition api_url (st : TelegramApprovalState) (method : text) : text :=
  str "https://api.telegram.org/bot" ++ tg_bot_token st ++ str "/" ++ method.

(** What [sendMessage] gave. *)
Inductive Sent := SentOk | SentStatus (status : Z) (detail : text) | SentUnreachable (e : text).

(** The waiter is registered before the message goes out, under the intent's hex id. *)
Definition approval_body (st : TelegramApprovalState) (r : ApprovalRequest) : Value :=
  VObject [(str "chat_id", VNumber (tg_chat_id st)); (str "text", VString (render_telegram_message r));
           (str "reply_markup", build_inline_keyboard (IntentId_to_hex (req_intent_id r)))].
Definition register_waiter (w : Z) (st : TelegramApprovalState) (r : ApprovalRequest) : TelegramApprovalState * Value :=
  let st := set_pending st (<[IntentId_to_hex (req_intent_id r) := w]> (tg_pending st)) in (st, approval_body st r).
Definition unregister (st : TelegramApprovalState) (hex_id : text) : TelegramApprovalState :=
  set_pending st (delete hex_id (tg_pending st)).
Definition send_error (s : Sent) : option text :=
  match s with
  | SentOk => None
  | SentStatus status detail => Some (str "Telegram sendMessage failed: HTTP " ++ fmt_int status ++ str ": " ++ detail)
  | SentUnreachable e => Some (str "Telegram sendMessage unreachable: " ++ e)
  end.

(** ** Updates *)

Definition as_i64 (v : Value) : option Z :=
  match v with VNumber n => if (- 2 ^ 63 <=? n) && (n <? 2 ^ 63) then Some n else None | _ => None end.

(** The state, the acknowledgement sent, and the decision delivered to a waiter. *)
Definition process_update (st : TelegramApprovalState) (update : Value) :
    TelegramApprovalState * option (text * text) * option (Z * bool) :=
  match json_get update (str "callback_query") with
  | None => (st, None, None)
  | Some cb =>
      let callback_query_id := default [] (get_str cb (str "id")) in
      let from_id := json_get cb (str "from") ≫= λ f, json_get f (str "id") ≫= as_i64 in
      let data := default [] (get_str cb (str "data")) in
      let answer t := if decide (callback_query_id = []) then None else Some (callback_query_id, t) in
      if decide (from_id ≠ Some (tg_chat_id st)) then (st, answer (str "Not authorized."), None)
      else
        match parse_callback_data data with
        | None => (st, answer (str "Malformed request - ignored."), None)
        | Some (action, hex_id) =>
            match tg_pending st !! hex_id with
            | None => (st, answer (str "This request is no longer pending (expired or already decided)."), None)
            | Some w =>
                let approved := bool_decide (action = str "approve") in
                (unregister st hex_id, answer (if approved then str "Approved." else str "Denied."), Some (w, approved))
            end
        end
  end.

(** One turn of the poller: the next offset and the updates to process, in order. *)
Definition i64_succ (id : Z) : Z := if id =? 2 ^ 63 - 1 then - 2 ^ 63 else id + 1.
Definition next_offset (offset : Z) (updates : list Value) : Z :=
  foldl (λ o u, match json_get u (str "update_id") ≫= as_i64 with Some id => Z.max o (i64_succ id) | None => o end) offset updates.
Definition poll_reply (offset : Z) (body : option Value) : Z * list Value :=
  match body with
  | None => (offset, [])
  | Some v =>
      if decide (get_bool v (str "ok") ≠ Some true) then (offset, [])
      else
        let updates := default [] (json_get v (str "result") ≫= as_array) in
        (next_offset offset updates, updates)
  end.

(** ** The channel *)

Definition telegram_name : text := str "telegram".
Inductive TgWait := TgReply (approved : bool) | TgClosed | TgTimeout.
Definition wait_approved (o : TgWait) : bool := match o with TgReply approved => approved | TgClosed | TgTimeout => false end.
(** How long the call waits, in nanoseconds. *)
Definition wait_time (r : ApprovalRequest) : Z := Z.max (req_remaining r) (10 ^ 9).

(** [request_approval], with what the network gave and how the wait ended. *)
Definition telegram_request_approval (sent : Sent) (waited : TgWait) (r : ApprovalRequest) :
    ApprovalDecision + ApprovalChannelError :=
  match send_error sent with
  | Some e => inr (Io e)
  | None => inl (mkDecision (req_intent_id r) (wait_approved waited) telegram_name)
  end.

#[export] Instance telegram_channel : ApprovalChannel.
Proof.
  refine {| channel_reply r reply := ∃ sent waited, reply = telegram_request_approval sent waited r |}.
  intros r d (sent & waited & E). unfold telegram_request_approval in E. by destruct (send_error sent); simplify_eq.
Defined.

(** ** Calls and taps interleaved

    A call registers its waiter, then its send fails or it waits; a decision put into the
    waiter's channel is what the wait ends with, unless it ends without. *)
Record TgSystem := mkTgSystem {
  ty_state : TelegramApprovalState;
  ty_open : gmap Z text;
  ty_values : gmap Z bool;
  ty_results : list (Z * text * bool)
}.
Inductive TgEvent :=
  | TgAsk (w : Z) (r : ApprovalRequest)
  | TgSendFailed (w : Z)
  | TgUpdate (u : Value)
  | TgDone (w : Z) (timed_out : bool).

Definition tg_step (s : TgSystem) (e : TgEvent) : TgSystem :=
  match e with
  | TgAsk w r =>
      if decide (is_Some (ty_open s !! w) ∨ is_Some (ty_values s !! w) ∨ w ∈ (ty_results s).*1.*1) then s
      else mkTgSystem (register_waiter w (ty_state s) r).1 (<[w := IntentId_to_hex (req_intent_id r)]> (ty_open s))
             (ty_values s) (ty_results s)
  | TgSendFailed w =>
      match ty_open s !! w with
      | Some hex_id => mkTgSystem (unregister (ty_state s) hex_id) (delete w (ty_open s)) (ty_values s)
                         ((w, hex_id, false) :: ty_results s)
      | None => s
      end
  | TgUpdate u =>
      let '(st, _, delivered) := process_update (ty_state s) u in
      mkTgSystem st (ty_open s)
        (match delivered with Some (w, approved) => <[w := approved]> (ty_values s) | None => ty_values s end) (ty_results s)
  | TgDone w timed_out =>
      match ty_open s !! w with
      | Some hex_id =>
          let waited := match ty_values s !! w with
                        | Some approved => if timed_out then TgTimeout else TgReply approved
                        | None => TgTimeout
                        end in
          mkTgSystem (unregister (ty_state s) hex_id) (delete w (ty_open s)) (ty_values s)
            ((w, hex_id, wait_approved waited) :: ty_results s)
      | None => s
      end
  end.
Definition tg_run (s : TgSystem) (es : list TgEvent) : TgSystem := foldl tg_step s es.
Definition tg_start (bot_token : text) (chat_id : Z) : TgSystem :=
  mkTgSystem (TelegramApprovalState_new bot_token chat_id) ∅ ∅ [].
End Telegram.

(** ** The buttons carry the intent *)

Section Buttons.
Context `{HexCodec} `{StdFormat}.

Lemma hex_val_ascii c : is_Some (hex_val c) → 0 ≤ c < 128 ∧ c ≠ 58.
Proof. intros [v Hv]. unfold hex_val in Hv. repeat case_match; simplify_eq; lia. Qed.

Lemma hex_text_ascii s : Forall (λ c, is_Some (hex_val c)) s → as_bytes s = s ∧ 58 ∉ s.
Proof.
  intros Hs. split.
  - apply as_bytes_ascii. eapply Forall_impl; [exact Hs|]. intros c Hc%hex_val_ascii. apply Hc.
  - intros Hin. rewrite Forall_forall in Hs. apply Hs, hex_val_ascii in Hin. lia.
Qed.

Lemma hexdigit_iff c : is_ascii_hexdigit c = true ↔ is_Some (hex_val c).
Proof. unfold is_ascii_hexdigit. destruct (hex_val c); split; try done. Qed.

(** What is read from a button: exactly [wg:], one of the two actions, and 32 hexadecimal digits. *)
Lemma parse_callback_data_iff data action hex_id :
  parse_callback_data data = Some (action, hex_id) ↔
  data = callback_data action hex_id ∧ (action = str "approve" ∨ action = str "deny") ∧
  len hex_id = 32 ∧ Forall (λ c, is_Some (hex_val c)) hex_id.
Proof.
  unfold parse_callback_data, callback_data. split.
  - destruct (split_once 58 data) as [[p rest]|] eqn:E1; [|done]. cbn.
    destruct (split_once 58 rest) as [[a h]|] eqn:E2; [|done]. cbn.
    apply split_once_Some in E1 as [-> _], E2 as [-> _]. case_decide as Hp; [done|]. case_decide as Ha; [done|].
    destruct (Z.eqb_spec (len (as_bytes h)) 32) as [Hl|]; [|done]. destruct (forallb _ _) eqn:Hf; [|done].
    cbn. intros [= <- <-]. assert (p = str "wg") as -> by (by destruct (decide (p = str "wg"))).
    assert (Hb : Forall (λ c, is_Some (hex_val c)) (as_bytes h)).
    { apply Forall_forall. intros c Hc. apply hexdigit_iff. rewrite forallb_forall in Hf. apply Hf. by apply list_elem_of_In. }
    assert (Has : as_bytes h = h).
    { apply as_bytes_ascii. apply Forall_forall. intros c Hc. destruct (decide (0 ≤ c < 128)) as [|Hn]; [done|]. exfalso.
      apply list_elem_of_split in Hc as (l1 & l2 & ->).
      unfold as_bytes in Hb. rewrite flat_map_app in Hb. apply Forall_app in Hb as [_ Hb]. cbn in Hb.
      apply Forall_app in Hb as [Hb _]. unfold utf8_char in Hb.
      repeat case_match; apply Forall_cons in Hb as [Hx _]; apply hex_val_ascii in Hx; dlia. }
    rewrite Has in *. split_and!; try done.
    destruct (decide (a = str "approve")); [by left|]. destruct (decide (a = str "deny")); [by right|]. tauto.
  - intros (-> & Ha & Hl & Hd). destruct (hex_text_ascii _ Hd) as [Has Hno].
    assert (E1 : split_once 58 (str "wg:" ++ action ++ str ":" ++ hex_id) = Some (str "wg", action ++ str ":" ++ hex_id))
      by (apply split_once_Some; split; [done|]; vm_compute; set_solver).
    rewrite E1. cbn [mbind option_bind].
    assert (E2 : split_once 58 (action ++ str ":" ++ hex_id) = Some (action, hex_id)).
    { apply split_once_Some. split; [done|]. destruct Ha as [-> | ->]; vm_compute; set_solver. }
    rewrite E2. cbn [mbind option_bind]. rewrite decide_False by tauto. rewrite decide_False by tauto.
    rewrite Has, Hl. cbn. rewrite (proj2 (forallb_forall _ _)); [done|].
    intros c Hc. apply hexdigit_iff. rewrite Forall_forall in Hd. apply Hd. by apply list_elem_of_In.
Qed.

(** A button's data parses back to its action and intent, and fits Telegram's limit. *)
Lemma callback_round_trip action id :
  action = str "approve" ∨ action = str "deny" → array_ok 16 id →
  parse_callback_data (callback_data action (IntentId_to_hex id)) = Some (action, IntentId_to_hex id) ∧
  len (callback_data action (IntentId_to_hex id)) ≤ 43.
Proof.
  intros Ha [Hl Hb]. destruct (hex_encode_digits id Hb) as [Hn Hd].
  assert (E : len (IntentId_to_hex id) = 32) by (unfold len, IntentId_to_hex; rewrite Hn, Hl; done).
  split; [by apply parse_callback_data_iff|]. unfold callback_data. rewrite !len_app, E.
  destruct Ha as [-> | ->]; vm_compute; discriminate.
Qed.
End Buttons.

(** ** Only the operator's tap approves *)

Section Authentic.
Context `{HexCodec} `{StdFormat}.

(** The update is a tap of [action] on the buttons of [hex_id] by the user [chat]. *)
Definition tap (chat : Z) (u : Value) (action hex_id : text) : Prop :=
  ∃ cb f, json_get u (str "callback_query") = Some cb ∧ json_get cb (str "from") = Some f ∧
    (json_get f (str "id") ≫= as_i64) = Some chat ∧
    parse_callback_data (default [] (get_str cb (str "data"))) = Some (action, hex_id).

Lemma process_update_cases st u st' ack d :
  process_update st u = (st', ack, d) →
  (st' = st ∧ d = None) ∨
  ∃ action hex_id w, tap (tg_chat_id st) u action hex_id ∧ tg_pending st !! hex_id = Some w ∧
    st' = unregister st hex_id ∧ d = Some (w, bool_decide (action = str "approve")).
Proof.
  unfold process_update. destruct (json_get u _) as [cb|] eqn:Ec; [|intros [= <- _ <-]; by left].
  case_decide as Hf; [intros [= <- _ <-]; by left|].
  destruct (parse_callback_data _) as [[action hex_id]|] eqn:Ep; [|intros [= <- _ <-]; by left].
  destruct (tg_pending st !! hex_id) as [w|] eqn:Ew; [|intros [= <- _ <-]; by left].
  intros [= <- _ <-]. right. exists action, hex_id, w. split_and!; try done.
  destruct (json_get cb (str "from")) as [f|] eqn:Ef; [|done]. cbn in Hf.
  exists cb, f. split_and!; done.
Qed.

(** [x] happened before [y]. *)
Definition before (es : list TgEvent) (x y : TgEvent) : Prop := ∃ l1 l2 l3, es = l1 ++ x :: l2 ++ y :: l3.
Definition asked (es : list TgEvent) (w : Z) (hex_id : text) : Prop :=
  ∃ r, TgAsk w r ∈ es ∧ hex_id = IntentId_to_hex (req_intent_id r).
(** The waiter's question was answered by that tap, after it was asked. *)
Definition answered_by (chat : Z) (es : list TgEvent) (w : Z) (hex_id : text) (approved : bool) : Prop :=
  ∃ r u action, before es (TgAsk w r) (TgUpdate u) ∧ hex_id = IntentId_to_hex (req_intent_id r) ∧
    tap chat u action hex_id ∧ approved = bool_decide (action = str "approve").

Lemma asked_app es e w h : asked es w h → asked (es ++ [e]) w h.
Proof. intros (r & Hr & E). exists r. split; [set_solver|done]. Qed.
Lemma answered_app chat es e w h b : answered_by chat es w h b → answered_by chat (es ++ [e]) w h b.
Proof.
  intros (r & u & a & (l1 & l2 & l3 & ->) & ?). exists r, u, a. split; [|done].
  exists l1, l2, (l3 ++ [e]). by rewrite <- !app_assoc, <- !app_comm_cons, <- app_assoc.
Qed.
Lemma before_last es x y : x ∈ es → before (es ++ [y]) x y.
Proof. intros (l1 & l2 & ->)%list_elem_of_split. exists l1, l2, []. by rewrite <- app_assoc. Qed.

Definition closed (s : TgSystem) (w : Z) : Prop := ∃ h b, (w, h, b) ∈ ty_results s.
(** The question a waiter is or was about. *)
Definition about (s : TgSystem) (w : Z) (h : text) : Prop := ty_open s !! w = Some h ∨ ∃ b, (w, h, b) ∈ ty_results s.

Record tg_inv (chat : Z) (es : list TgEvent) (s : TgSystem) : Prop := {
  ti_chat : tg_chat_id (ty_state s) = chat;
  ti_open : ∀ w h, ty_open s !! w = Some h → asked es w h ∧ ¬ closed s w;
  ti_pending : ∀ w h, tg_pending (ty_state s) !! h = Some w → ty_open s !! w = Some h;
  ti_values : ∀ w b, ty_values s !! w = Some b → ∃ h, about s w h ∧ answered_by chat es w h b;
  ti_results : ∀ w h, (w, h, true) ∈ ty_results s → answered_by chat es w h true;
  ti_once : NoDup (ty_results s).*1.*1
}.

Lemma closed_iff s w : w ∈ (ty_results s).*1.*1 ↔ closed s w.
Proof.
  unfold closed. rewrite list_elem_of_fmap. split.
  - intros ([w' h] & -> & Hin). apply list_elem_of_fmap in Hin as ([[w2 h2] b] & [= -> ->] & Hin). by exists h2, b.
  - intros (h & b & Hin). exists (w, h). split; [done|]. apply list_elem_of_fmap. by exists (w, h, b).
Qed.

Lemma tg_inv_ask chat es s w r :
  tg_inv chat es s → tg_inv chat (es ++ [TgAsk w r]) (tg_step s (TgAsk w r)).
Proof.
  intros [H1 H2 H3 H4 H5 H6].
  assert (Hold : tg_inv chat (es ++ [TgAsk w r]) s).
  { split; try done.
    - intros w' h' Hw. destruct (H2 _ _ Hw). split; [by apply asked_app|done].
    - intros w' b Hw. destruct (H4 _ _ Hw) as (h & ? & ?). exists h. split; [done|by apply answered_app].
    - intros w' h' Hw. by apply answered_app, H5. }
  cbn. case_decide as Hf; [done|]. apply Decidable.not_or in Hf as [Ho Hf]. apply Decidable.not_or in Hf as [Hv Hc].
  rewrite closed_iff in Hc. destruct Hold as [O1 O2 O3 O4 O5 O6]. split; cbn; try done.
  - intros w' h'. rewrite lookup_insert_Some. intros [[<- <-]|[Hn Hw]].
    + split; [exists r; split; [set_solver|done]|exact Hc].
    + by apply O2.
  - intros w' h'. rewrite lookup_insert_Some. intros [[<- <-]|[Hn Hw]]; [by rewrite lookup_insert_eq|].
    apply O3 in Hw. rewrite lookup_insert_ne; [done|]. intros <-. apply Ho. by eexists.
  - intros w' b Hw. destruct (O4 _ _ Hw) as (h & [Ha|Ha] & Hb); exists h; (split; [|done]).
    + left. cbn. rewrite lookup_insert_ne; [done|]. intros <-. apply Ho. by eexists.
    + by right.
Qed.

(** Ending a call, with a result that its value justifies. *)
Lemma tg_inv_end chat es s w h b e :
  tg_inv chat es s → ty_open s !! w = Some h → (b = true → ty_values s !! w = Some true) →
  tg_inv chat (es ++ [e]) (mkTgSystem (unregister (ty_state s) h) (delete w (ty_open s)) (ty_values s) ((w, h, b) :: ty_results s)).
Proof.
  intros [H1 H2 H3 H4 H5 H6] Ho Hb. destruct (H2 _ _ Ho) as [Hask Hnc]. split; cbn; try done.
  - intros w' h' [Hn Hw]%lookup_delete_Some. destruct (H2 _ _ Hw) as [? Hc]. split; [by apply asked_app|].
    intros (x & y & [[= -> -> ->]|Hin]%elem_of_cons); [done|]. apply Hc. by exists x, y.
  - intros w' h' [Hn Hw]%lookup_delete_Some. apply H3 in Hw. rewrite lookup_delete_ne; [done|].
    intros <-. congruence.
  - intros w' b' Hw. destruct (H4 _ _ Hw) as (h' & Ha & Hans). exists h'. split; [|by apply answered_app].
    destruct (decide (w' = w)) as [->|Hn].
    + right. destruct Ha as [Ha|[b2 Ha]]; [|exfalso; apply Hnc; by exists h', b2].
      exists b. rewrite Ho in Ha. injection Ha as ->. left.
    + destruct Ha as [Ha|[b2 Ha]]; [left; cbn; by rewrite lookup_delete_ne|right; exists b2; by right].
  - intros w' h' [[= -> -> <-]|Hin]%elem_of_cons; [|by apply answered_app, H5].
    destruct (H4 _ _ (Hb eq_refl)) as (h2 & Ha & Hans). apply answered_app.
    destruct Ha as [Ha|[b2 Ha]]; [|exfalso; apply Hnc; by exists h2, b2]. rewrite Ho in Ha. by injection Ha as ->.
  - constructor; [by rewrite closed_iff|done].
Qed.

Lemma tg_inv_update chat es s u : tg_inv chat es s → tg_inv chat (es ++ [TgUpdate u]) (tg_step s (TgUpdate u)).
Proof.
  intros [H1 H2 H3 H4 H5 H6]. cbn. destruct (process_update (ty_state s) u) as [[st ack] d] eqn:Ep.
  assert (Hopen : ∀ w h, ty_open s !! w = Some h → asked (es ++ [TgUpdate u]) w h ∧ ¬ closed s w).
  { intros w h Hw. destruct (H2 _ _ Hw). split; [by apply asked_app|done]. }
  assert (Hval : ∀ w b, ty_values s !! w = Some b → ∃ h, about s w h ∧ answered_by chat (es ++ [TgUpdate u]) w h b).
  { intros w b Hw. destruct (H4 _ _ Hw) as (h & ? & ?). exists h. split; [done|by apply answered_app]. }
  assert (Hres : ∀ w h, (w, h, true) ∈ ty_results s → answered_by chat (es ++ [TgUpdate u]) w h true)
    by (intros w h Hw; by apply answered_app, H5).
  apply process_update_cases in Ep as [[-> ->]|(action & h & w & Ht & Hp & -> & ->)].
  - by split.
  - split; cbn; try done.
    + intros w' h' [Hn Hw]%lookup_delete_Some. by apply H3.
    + intros w' b. rewrite lookup_insert_Some. intros [[<- <-]|[Hn Hw]]; [|by apply Hval].
      apply H3 in Hp. exists h. split; [by left|]. destruct (H2 _ _ Hp) as [(r & Hr & ->) _].
      exists r, u, action. split; [by apply before_last|]. by rewrite <- H1.
Qed.

Lemma tg_inv_step chat es s e : tg_inv chat es s → tg_inv chat (es ++ [e]) (tg_step s e).
Proof.
  intros Hi. assert (Hskip : tg_inv chat (es ++ [e]) s).
  { destruct Hi as [H1 H2 H3 H4 H5 H6]. split; try done.
    - intros w' h' Hw. destruct (H2 _ _ Hw). split; [by apply asked_app|done].
    - intros w' b Hw. destruct (H4 _ _ Hw) as (h & ? & ?). exists h. split; [done|by apply answered_app].
    - intros w' h' Hw. by apply answered_app, H5. }
  destruct e as [w r|w|u|w timed_out].
  - by apply tg_inv_ask.
  - cbn. destruct (ty_open s !! w) as [h|] eqn:Eo; [|done]. by apply tg_inv_end.
  - by apply tg_inv_update.
  - cbn. destruct (ty_open s !! w) as [h|] eqn:Eo; [|done]. apply tg_inv_end; [done|done|].
    destruct (ty_values s !! w) as [[]|]; by destruct timed_out.
Qed.

Lemma tg_run_inv token chat es : tg_inv chat es (tg_run (tg_start token chat) es).
Proof.
  unfold tg_run. induction es as [|e es IH] using rev_ind; cbn.
  - split; cbn; try done; [by intros w h ?%not_elem_of_nil|constructor].
  - rewrite foldl_app. by apply tg_inv_step.
Qed.

(** A call that is asked, tapped on and then ends has the tap's decision. *)
Lemma tap_answers s w r u action :
  ty_open s !! w = None → ty_values s !! w = None → ¬ closed s w →
  tap (tg_chat_id (ty_state s)) u action (IntentId_to_hex (req_intent_id r)) →
  (w, IntentId_to_hex (req_intent_id r), bool_decide (action = str "approve"))
    ∈ ty_results (tg_run s [TgAsk w r; TgUpdate u; TgDone w false]).
Proof.
  intros Ho Hv Hc (cb & f & E1 & E2 & E3 & E4). unfold tg_run. cbn [foldl tg_step].
  rewrite decide_False.
  2: { rewrite Ho, Hv, closed_iff. by intros [[? [=]]|[[? [=]]|?]]. }
  unfold process_update. rewrite E1, E4, E2. cbn [mbind option_bind]. rewrite E3, decide_False by (cbn; tauto).
  cbn. rewrite lookup_insert_eq. cbn. rewrite !lookup_insert_eq. left.
Qed.

(** A tap by anybody else changes nothing. *)
Lemma stranger_ignored s u :
  (∀ action h, ¬ tap (tg_chat_id (ty_state s)) u action h) → tg_step s (TgUpdate u) = s.
Proof.
  intros Hn. cbn. destruct (process_update _ u) as [[st ack] d] eqn:E.
  apply process_update_cases in E as [[-> ->]|(a & h & w & Ht & _)]; [by destruct s|]. by destruct (Hn a h).
Qed.

(** C10: however calls, taps and timeouts interleave on the Telegram channel, each
    call ends with at most one answer; a call that ends approved was asked about
    that intent first and then tapped [approve] on the buttons carrying exactly
    that intent's identifier, by the configured chat; a call that is asked,
    tapped and then ends has the tap's answer; and a tap by anybody else, or of
    anything else, changes nothing. *)
Theorem telegram_authentic token chat es :
  let s := tg_run (tg_start token chat) es in
  NoDup (ty_results s).*1.*1 ∧
  (∀ w h, (w, h, true) ∈ ty_results s → ∃ r u,
     before es (TgAsk w r) (TgUpdate u) ∧ h = IntentId_to_hex (req_intent_id r) ∧ tap chat u (str "approve") h) ∧
  (∀ w r u action, ty_open s !! w = None → ty_values s !! w = None → ¬ closed s w →
     tap chat u action (IntentId_to_hex (req_intent_id r)) →
     (w, IntentId_to_hex (req_intent_id r), bool_decide (action = str "approve"))
       ∈ ty_results (tg_run s [TgAsk w r; TgUpdate u; TgDone w false])) ∧
  (∀ u, (∀ action h, ¬ tap chat u action h) → tg_step s (TgUpdate u) = s).
Proof.
  intros s. pose proof (tg_run_inv token chat es) as Hi. fold s in Hi. split_and!.
  - apply Hi.
  - intros w h (r & u & a & Hb & -> & Ht & E)%(ti_results _ _ _ Hi). exists r, u.
    symmetry in E. apply bool_decide_eq_true in E as ->. done.
  - intros w r u a. rewrite <- (ti_chat _ _ _ Hi). apply tap_answers.
  - intros u. rewrite <- (ti_chat _ _ _ Hi). apply stranger_ignored.
Qed.
End Authentic.

(** ** The channel under the approval flow *)

Section Executes.
Context {HB : Blake3} {HL : Lowercase} `{HexCodec} `{StdFormat} {W : Type} {HT : Tier2Capability W}.

(** Under the Telegram channel a Tier 2 capability acts on the world only if
    the message was delivered to the Bot API and the wait ended with an approving
    tap: a failed send, an unreachable API, a denial, a dropped waiter and a
    timeout all leave the world as it was. *)
Theorem telegram_executes_only_on_approval t1 t2 t3 f (w : W) id sent waited f' w' res :
  decide_and_execute (telegram_request_approval sent waited) t1 t2 t3 f w id = (f', w', res) →
  w' ≠ w → sent = SentOk ∧ waited = TgReply true.
Proof.
  unfold decide_and_execute. destruct (decide_begin t1 f id) as [f1 [req|out]]; [|by intros [= _ <- _]].
  unfold telegram_request_approval, decide_finish. destruct sent; cbn [send_error]; [|by intros [= _ <- _]..].
  destruct waited as [[]| |]; [done|..]; intros E Hw; exfalso; apply Hw; revert E; cbn;
    repeat case_match; by intros [= _ <- _].
Qed.
End Executes.

(** ** What the operator reads *)

Section Message.
Context `{HexCodec} `{StdFormat}.

(** The message does not show what [render_prompt] shows: requests that differ in
    their proposer and parameter hash read alike, and so do a request whose one
    string parameter contains a line that looks like a parameter and a request
    with both parameters, while the command line's prompt quotes strings. *)
Theorem telegram_message_gap id p p' cap ps diff h h' rem k x a b :
  render_telegram_message (mkRequest id p cap ps diff h rem) =
    render_telegram_message (mkRequest id p' cap ps diff h' rem) ∧
  render_telegram_message
      (mkRequest id p cap [Constraint_string k (a ++ newline ++ str "  - " ++ x ++ str " = " ++ b)] diff h rem) =
    render_telegram_message
      (mkRequest id p cap [Constraint_string k a; Constraint_string x b] diff h rem).
Proof.
  split; [done|]. unfold render_telegram_message. cbn [req_parameters req_capability req_intent_id req_dry_run_diff req_remaining].
  rewrite !decide_False by done. cbn [flat_map]. unfold telegram_param, Constraint_string. cbn [key value telegram_value].
  rewrite (app_nil_r (A:=Z)), <- !app_assoc. cbn [app]. done.
Qed.
End Message.

(** ** A run *)

Section Sample.
Let fmt : StdFormat := {| debug_str s := str "'" ++ s ++ str "'"; fmt_f64 b := fmt_int b |}.

Definition sample_request : ApprovalRequest :=
  mkRequest (map Z.of_nat (seq 1 16)) (replicate 32 7) (str "wg_peer_manage") [Constraint_string (str "op") (str "add")]
    None IntentHash_zero (900 * 10 ^ 9).
Definition sample_tap (chat : Z) (action : text) : Value :=
  VObject [(str "update_id", VNumber 7);
           (str "callback_query", VObject [(str "id", VString (str "q")); (str "from", VObject [(str "id", VNumber chat)]);
              (str "data", VString (callback_data action (IntentId_to_hex (req_intent_id sample_request))))])].
Definition sample_events : list TgEvent :=
  [TgAsk 1 sample_request; TgUpdate (sample_tap 43 (str "approve")); TgUpdate (sample_tap 42 (str "approve")); TgDone 1 false].

Lemma sample_result :
  ty_results (tg_run (H0:=fmt) (tg_start (str "t") 42) sample_events)
  = [(1, IntentId_to_hex (req_intent_id sample_request), true)].
Proof. vm_compute. reflexivity. Qed.

Lemma telegram_authentic_witness :
  ∃ r u, before sample_events (TgAsk 1 r) (TgUpdate u)
         ∧ IntentId_to_hex (req_intent_id sample_request) = IntentId_to_hex (req_intent_id r)
         ∧ tap 42 u (str "approve") (IntentId_to_hex (req_intent_id sample_request)).
Proof.
  destruct (telegram_authentic (H0:=fmt) (str "t") 42 sample_events) as (_ & Ha & _).
  apply Ha. rewrite sample_result. left.
Defined.
End Sample.
