(* ===== verification/Control.v ===== *)
(** * The operator's side of the daemon (forge-node control.rs, main.rs)

    The control socket: one line in, one reply, with the gateway's kill switch, the
    audit log and a request in the node's own name behind it; the command-line
    clients that speak its protocol; and the reports on the policy and the audit
    log.  What a read of the connection gave, the file operations of the log and how a
    request's wait ended are arguments. *)

From stdpp Require Import base numbers list gmap strings.
From S2P Require Import Prelude Types Text Intent Scan Policy Approval AuditTrail Crypto F32 Semantic Mesh Peers.

(** ** Commands *)

Inductive ControlCommand :=
  | CC_Intent (capability payload : text)
  | CC_MalformedIntent
  | CC_Freeze (freeze : bool)
  | CC_Suspend (peer_hex : text) (suspend : bool)
  | CC_Status
  | CC_Unknown.

Definition trim_end (s : text) : text := rev (trim_start (rev s)).

(** [splitn(2, ' ')] of the line, and the match on command and argument. *)
Definition parse_command (line : text) : ControlCommand :=
  let line := trim_end line in
  let '(cmd, rest) := match split_once 32 line with Some (a, b) => (a, Some b) | None => (line, None) end in
  if decide (cmd = str "INTENT") then
    match rest ≫= split_once 32 with
    | Some (capability, payload) => CC_Intent capability payload
    | None => CC_MalformedIntent
    end
  else
    match rest with
    | None =>
        if decide (cmd = str "FREEZE") then CC_Freeze true
        else if decide (cmd = str "UNFREEZE") then CC_Freeze false
        else if decide (cmd = str "STATUS") then CC_Status
        else CC_Unknown
    | Some peer_hex =>
        if decide (cmd = str "SUSPEND") then CC_Suspend (trim peer_hex) true
        else if decide (cmd = str "UNSUSPEND") then CC_Suspend (trim peer_hex) false
        else CC_Unknown
    end.

(** ** State and handlers *)

Record ControlState := mkControl {
  ctl_policy : CapabilityPolicy;
  ctl_network : NetworkManager;
  ctl_audit : option AuditLog
}.
Definition set_policy (s : ControlState) x : ControlState := mkControl x (ctl_network s) (ctl_audit s).
Definition set_network (s : ControlState) x : ControlState := mkControl (ctl_policy s) x (ctl_audit s).
Definition set_audit (s : ControlState) x : ControlState := mkControl (ctl_policy s) (ctl_network s) x.

(** The reply, or the peer whose answer an INTENT waits for, and its relay. *)
Inductive ControlReply :=
  | Replied (reply : text)
  | AwaitingReply (peer : NodeId) (t : TraceId) (via : option NodeId).

Section Handlers.
Context `{Blake3} `{Ed25519} `{HexCodec} `{SerdeJson} `{StdFormat}.

(** A failed append is only warned about. *)
Definition log_kill_switch_event (i : io) (now_ms : Z) (log : option AuditLog) (action detail : text) : option AuditLog :=
  (λ l, (log_admin_event i now_ms l action (Some detail) 0).1) <$> log.

Definition handle_freeze (i : io) (now_ms : Z) (s : ControlState) (on : bool) : ControlState * text :=
  if on then
    (set_audit (set_policy s (freeze (ctl_policy s)))
       (log_kill_switch_event i now_ms (ctl_audit s) (str "kill_switch_freeze")
          (str "all Tier1+ capability execution frozen; Tier0 and audit log unaffected")),
     str "OK frozen" ++ newline)
  else
    (set_audit (set_policy s (unfreeze (ctl_policy s)))
       (log_kill_switch_event i now_ms (ctl_audit s) (str "kill_switch_unfreeze")
          (str "Tier1+ capability execution resumed")),
     str "OK unfrozen" ++ newline).

(** The peer a hexadecimal argument names, or the error. *)
Definition parse_peer (peer_hex : text) : NodeId + text :=
  match hex_decode peer_hex with
  | None => inr (str "ERR '" ++ peer_hex ++ str "' is not valid hex" ++ newline)
  | Some bytes =>
      if len bytes =? 32 then inl bytes
      else inr (str "ERR peer id must be exactly 32 bytes (64 hex chars), got " ++ fmt_int (len bytes) ++ newline)
  end.

Definition handle_suspend (i : io) (now_ms : Z) (s : ControlState) (peer_hex : text) (on : bool) : ControlState * text :=
  match parse_peer peer_hex with
  | inr e => (s, e)
  | inl peer =>
      if on then
        (set_audit (set_policy s (suspend_peer (ctl_policy s) peer))
           (log_kill_switch_event i now_ms (ctl_audit s) (str "kill_switch_suspend") (str "peer " ++ peer_hex)),
         str "OK suspended " ++ peer_hex ++ newline)
      else
        (set_audit (set_policy s (unsuspend_peer (ctl_policy s) peer).1)
           (log_kill_switch_event i now_ms (ctl_audit s) (str "kill_switch_unsuspend") (str "peer " ++ peer_hex)),
         str "OK unsuspended " ++ peer_hex ++ newline)
  end.

Definition handle_status (s : ControlState) : text :=
  str "OK frozen=" ++ fmt_bool (is_frozen (ctl_policy s)) ++ str " suspended="
  ++ join (str ",") (suspended_peers (ctl_policy s)) ++ newline.

(** The text of a request's error; [io] is the socket's. *)
Definition RequestError_text (capability : text) (peer : NodeId) (via : option NodeId) (io : text) (e : RequestError) : text :=
  let name := match via with Some _ => str "request_intent_via" | None => str "request_intent" end in
  match e with
  | NoProvider => str "request_intent: no provider found for capability '" ++ capability ++ str "'"
  | NoKnownAddress p =>
      str "request_intent: provider " ++ hex_encode p ++ str " for '" ++ capability
      ++ str "' has no known address and no known relay"
  | RelayUnknown relay =>
      str "request_intent_via: relay " ++ hex_encode relay ++ str " has no known address - relay must be a direct peer"
  | RequestBuildFailed => name ++ str ": failed to build Intent frame (sign/encode error, see logs)"
  | RequestSendFailed => io
  | RepliedError reason => name ++ str ": " ++ hex_encode peer ++ str " returned error: " ++ reason
  | ReplyChannelClosed => name ++ str ": reply channel closed"
  | RequestTimedOut =>
      match via with
      | None => str "request_intent to " ++ hex_encode peer ++ str " timed out waiting for Fulfill"
      | Some relay => str "request_intent_via to " ++ hex_encode peer ++ str " (via " ++ hex_encode relay
                      ++ str ") timed out waiting for Fulfill"
      end
  end.

Definition intent_reply (capability : text) (peer : NodeId) (via : option NodeId) (io : text) (r : RequestError + list Z) : text :=
  match r with
  | inr result => str "OK " ++ hex_encode peer ++ str " " ++ from_utf8_lossy result ++ newline
  | inl e => str "ERR " ++ RequestError_text capability peer via io e ++ newline
  end.

(** The relay a request to [peer] takes. *)
Definition relay_for (nm : NetworkManager) (peer : NodeId) : option NodeId :=
  match peer_addr nm peer with
  | Some _ => None
  | None => fst <$> ms_reachable_via (nm_mesh nm) !! peer
  end.

(** INTENT, up to the wait, and after it. *)
Definition handle_intent (sent : bool) (io : text) (k : Keypair) (t : TraceId) (s : ControlState) (capability payload : text) :
    outcome False (ControlState * list NetEffect * ControlReply) :=
  r ← request_intent sent k (ctl_network s) capability (as_bytes payload) t;
  let '(nm, effects, res) := r in
  let provider := default [] (dr_agent <$> head (discover (ms_router (nm_mesh (ctl_network s))) (AiIntent_from_str capability))) in
  let via := relay_for (ctl_network s) provider in
  Ok (set_network s nm, effects,
      match res with
      | inl e => Replied (intent_reply capability provider via io (inl e))
      | inr peer => AwaitingReply peer t via
      end).
Definition handle_intent_end (elapsed : Z) (s : ControlState) (capability : text) (peer : NodeId) (t : TraceId)
    (via : option NodeId) (w : Waited) : ControlState * text :=
  let '(nm, r) := request_end elapsed (ctl_network s) peer t w in
  (set_network s nm, intent_reply capability peer via [] r).

(** What one connection sent; [None] when the line could not be read, which ends it. *)
Definition handle_connection (i : io) (now_ms : Z) (sent : bool) (io : text) (k : Keypair) (t : TraceId)
    (s : ControlState) (line : option text) : outcome False (ControlState * list NetEffect * option ControlReply) :=
  let plain r := Ok (r.1, [], Some (Replied r.2)) in
  match line with
  | None => Ok (s, [], None)
  | Some line =>
      match parse_command line with
      | CC_Intent capability payload =>
          r ← handle_intent sent io k t s capability payload; Ok (r.1.1, r.1.2, Some r.2)
      | CC_MalformedIntent =>
          plain (s, str "ERR malformed INTENT command - expected: INTENT <capability> <payload>" ++ newline)
      | CC_Freeze on => plain (handle_freeze i now_ms s on)
      | CC_Suspend peer_hex on => plain (handle_suspend i now_ms s peer_hex on)
      | CC_Status => plain (s, handle_status s)
      | CC_Unknown => plain (s, str "ERR unknown command" ++ newline)
      end
  end.
End Handlers.

(** ** The clients of main.rs *)

(** [read_line]: up to the first newline, which it keeps. *)
Fixpoint read_line (s : text) : text :=
  match s with
  | [] => []
  | c :: s' => if c =? 10 then [c] else c :: read_line s'
  end.

Inductive KillSwitchAction := KS_Freeze | KS_Unfreeze | KS_Suspend (peer : text) | KS_Unsuspend (peer : text) | KS_Status.
Definition kill_switch_command (a : KillSwitchAction) : text :=
  match a with
  | KS_Freeze => str "FREEZE" ++ newline
  | KS_Unfreeze => str "UNFREEZE" ++ newline
  | KS_Suspend peer => str "SUSPEND " ++ peer ++ newline
  | KS_Unsuspend peer => str "UNSUSPEND " ++ peer ++ newline
  | KS_Status => str "STATUS" ++ newline
  end.
Definition intent_command (capability payload : text) : text :=
  str "INTENT " ++ capability ++ str " " ++ payload ++ newline.
(** What the client prints, and the error it exits with. *)
Definition client_result (name reply : text) : text * option text :=
  let reply := read_line reply in
  (reply, if starts_with reply (str "ERR") then Some (name ++ str ": " ++ trim_end reply) else None).

(** ** Reports

    [axiom access] on the loaded policy, and [verify-audit]. *)

Section Reports.
Context `{HexCodec} `{SerdeJson}.

Definition pad_left (w : Z) (s : text) : text := replicate (Z.to_nat (w - len s)) 32 ++ s.
Definition pad_right (w : Z) (s : text) : text := s ++ replicate (Z.to_nat (w - len s)) 32.
(** The lines of a report, joined by newlines. *)
Definition join_lines (l : list text) : text := join newline l.

Definition grant_expiry (id_hex : text) (s : CapabilitySummary) : text :=
  match first_some (λ p, if decide (p.1 = id_hex) then Some p.2 else None) (sum_allowed_peers s) with
  | Some (Some ts) => str "expires_unix=" ++ fmt_int ts
  | Some None | None => str "expiry=permanent"
  end.
Definition access_line (id_hex name : text) (s : CapabilitySummary) : text :=
  str "  - " ++ pad_right 20 name ++ str " tier=" ++ pad_right 6 (Tier_as_str (sum_tier s))
  ++ str " rate_limit=" ++ pad_left 4 (fmt_int (sum_rate_limit_secs s)) ++ str "s concurrency="
  ++ pad_right 4 (fmt_int (sum_concurrency s)) ++ str " " ++ grant_expiry id_hex s.
(** The lines for the capabilities the identity may call, in order of name. *)
Definition access_lines (now_unix : Z) (p : CapabilityPolicy) (id_hex : text) (id : NodeId) : list text :=
  omap (λ name, if allows now_unix p name id then access_line id_hex name <$> capability_summary now_unix p name else None)
    (foldr insert_text [] (capability_names p)).
Definition format_access_by_identity (now_unix : Z) (p : CapabilityPolicy) (id_hex : text) (id : NodeId) : text :=
  let l := access_lines now_unix p id_hex id in
  join_lines ([str "Access for identity " ++ id_hex; replicate (Z.to_nat (24 + len (as_bytes id_hex))) 61]
    ++ (if decide (l = []) then [str "  (none - this identity is not on any capability's allowlist)"] else l)).

Definition peer_line (p : text * option Z) : text :=
  match p.2 with
  | Some ts => str "  - " ++ p.1 ++ str "  (expires_unix=" ++ fmt_int ts ++ str ")"
  | None => str "  - " ++ p.1 ++ str "  (permanent)"
  end.
Definition format_access_by_capability (now_unix : Z) (p : CapabilityPolicy) (capability : text) : text :=
  match capability_summary now_unix p capability with
  | None =>
      str "Capability '" ++ capability ++ str "' is not present in the policy (no entry, or an entry that failed closed for lacking a valid tier) - denies everyone. This is not necessarily a bug: e.g. network_clients is deliberately absent from the live policy pending a properly-scoped credential."
  | Some s =>
      join_lines ([str "Capability: " ++ capability;
                   str "Tier:        " ++ Tier_as_str (sum_tier s);
                   str "Rate limit:  " ++ fmt_int (sum_rate_limit_secs s) ++ str "s";
                   str "Concurrency: " ++ fmt_int (sum_concurrency s); []]
        ++ (if decide (sum_allowed_peers s = []) then [str "Allowed identities: (none - allowlist is empty, denies everyone)"]
            else (str "Allowed identities (" ++ fmt_int (len (sum_allowed_peers s))
                  ++ str ") - only currently-effective (non-expired) entries shown:") :: map peer_line (sum_allowed_peers s)))
  end.

(** The command's arguments: exactly one of an identity and a capability. *)
Definition access_cmd (now_unix : Z) (p : CapabilityPolicy) (identity_hex capability : option text) : text + text :=
  match identity_hex, capability with
  | Some _, Some _ => inr (str "axiom access: specify either an <identity> or --capability <name>, not both")
  | None, None => inr (str "axiom access: specify either an <identity> (hex NodeId) or --capability <name>")
  | Some id_hex, None =>
      match hex_decode id_hex with
      | None => inr (str "axiom access: identity '" ++ id_hex ++ str "' is not valid hex")
      | Some bytes =>
          if len bytes =? 32 then inl (format_access_by_identity now_unix p id_hex bytes)
          else inr (str "axiom access: identity must be exactly 32 bytes (64 hex chars), got " ++ fmt_int (len bytes))
      end
  | None, Some capability => inl (format_access_by_capability now_unix p capability)
  end.

Definition AuditChainBreak_display (b : AuditChainBreak) : text :=
  match b with
  | CorruptEntry i detail =>
      str "entry at index " ++ fmt_int i ++ str " is corrupt or truncated (" ++ detail
      ++ str ") - this looks like a write interrupted mid-record (a crash) or a deliberate tail truncation, not a tampered-but-complete entry"
  | ContentTampered i =>
      str "entry at index " ++ fmt_int i
      ++ str " has been tampered with - its recorded content does not match its own stored hash (the entry was edited after being written, without the hash being recomputed to match)"
  | ChainLinkBroken i expected found =>
      str "entry at index " ++ fmt_int i ++ str " breaks the chain - its prev_hash (" ++ found
      ++ str ") does not match the previous entry's actual hash (" ++ expected
      ++ str "); an entry was inserted, deleted, or reordered between them"
  | SequenceGap i expected found =>
      str "entry at index " ++ fmt_int i ++ str " has sequence " ++ fmt_int found ++ str ", expected " ++ fmt_int expected
      ++ str " - an entry is missing or out of order"
  end.
Definition format_verify_report (path : text) (r : AuditChainBreak + ChainState) : text :=
  match r with
  | inr st =>
      str "chain valid, " ++ fmt_int (chain_entries st) ++ str " entr" ++ (if chain_entries st =? 1 then str "y" else str "ies")
      ++ newline ++ str "Path:      " ++ path ++ newline ++ str "Last hash: " ++ hex_encode (chain_last_hash st)
  | inl broken => str "chain INVALID" ++ newline ++ str "Path: " ++ path ++ newline ++ AuditChainBreak_display broken
  end.
(** What is printed, and whether the command succeeds. *)
Definition verify_audit_cmd `{Blake3} (path : text) (f : file) : outcome False (text * bool) :=
  match verify_chain f with
  | Ok st => Ok (format_verify_report path (inr st), true)
  | Err b => Ok (format_verify_report path (inl b), false)
  | Panic => Panic
  end.
End Reports.

(** ** Commands as the clients send them *)

Section Clients.
(** A constant text does not contain a character. *)
Ltac no_char := apply (bool_decide_unpack _); vm_compute; exact I.

Lemma trim_end_app a b :
  trim_end (a ++ b) = if decide (trim_end b = []) then trim_end a else a ++ trim_end b.
Proof.
  unfold trim_end. rewrite rev_app_distr. destruct (trim_start_decomp (rev b)) as (w & E & Hw).
  case_decide as Hb.
  - assert (trim_start (rev b) = []) as Hn by (rewrite <- (rev_involutive (trim_start _)), Hb; done).
    rewrite Hn, app_nil_r in E. rewrite E, trim_start_skip by done. done.
  - rewrite E at 1. rewrite <- app_assoc, trim_start_skip by done.
    destruct (trim_start (rev b)) as [|x r] eqn:Er; [done|].
    assert (is_whitespace x = false) as Hx.
    { clear -Er. revert Er. generalize (rev b). intros l. induction l as [|y l IH]; cbn; [done|].
      destruct (is_whitespace y) eqn:Ey; [done|]. by intros [= -> ->]. }
    cbn. rewrite Hx. cbn. by rewrite rev_app_distr, rev_involutive, app_assoc.
Qed.

Lemma trim_end_word s : Forall (λ c, is_whitespace c = false) s → trim_end s = s.
Proof.
  intros Hs. unfold trim_end. assert (E : trim_start (rev s) = rev s).
  { destruct (rev s) as [|x r] eqn:Er; [done|]. assert (x ∈ s) as Hx by (apply elem_of_rev; rewrite Er; left).
    rewrite Forall_forall in Hs. cbn. by rewrite (Hs x Hx). }
  by rewrite E, rev_involutive.
Qed.

Lemma read_line_line s : 10 ∉ s → read_line (s ++ newline) = s ++ newline.
Proof.
  induction s as [|c s IH]; intros Hs; [done|]. apply not_elem_of_cons in Hs as [Hc Hs]. cbn.
  destruct (Z.eqb_spec c 10); [congruence|]. by rewrite IH.
Qed.

Lemma split_word a b : 32 ∉ a → split_once 32 (a ++ 32 :: b) = Some (a, b).
Proof. intros. by apply split_once_Some. Qed.

Lemma trim_unspaced s : Forall (λ c, is_whitespace c = false) s → trim s = s.
Proof.
  intros Hs. unfold trim. assert (E : trim_start s = s) by (destruct Hs as [|x l Hx]; cbn; [done|by rewrite Hx]).
  rewrite E. by apply trim_end_word.
Qed.

Lemma word_no_char c s : is_whitespace c = true → Forall (λ c, is_whitespace c = false) s → c ∉ s.
Proof. intros Hc Hs Hin. rewrite Forall_forall in Hs. specialize (Hs _ Hin). congruence. Qed.

(** The commands of the clients arrive as meant. *)
Lemma kill_switch_command_parse a :
  match a with KS_Suspend p | KS_Unsuspend p => p ≠ [] ∧ Forall (λ c, is_whitespace c = false) p | _ => True end →
  parse_command (read_line (kill_switch_command a)) =
    match a with
    | KS_Freeze => CC_Freeze true
    | KS_Unfreeze => CC_Freeze false
    | KS_Suspend p => CC_Suspend p true
    | KS_Unsuspend p => CC_Suspend p false
    | KS_Status => CC_Status
    end.
Proof.
  destruct a as [| |p|p|]; try (intros; vm_compute; reflexivity); intros [Hn Hp];
    unfold kill_switch_command; rewrite app_assoc, read_line_line.
  2, 4: (rewrite not_elem_of_app; split; [no_char|by apply word_no_char]).
  all: unfold parse_command; rewrite trim_end_app; change (trim_end newline) with (@nil Z); rewrite decide_True by done;
    rewrite trim_end_app, (trim_end_word p Hp), decide_False by done.
  - change (str "SUSPEND " ++ p) with (str "SUSPEND" ++ 32 :: p).
    rewrite split_word by no_char. cbn -[trim]. by rewrite trim_unspaced.
  - change (str "UNSUSPEND " ++ p) with (str "UNSUSPEND" ++ 32 :: p).
    rewrite split_word by no_char. cbn -[trim]. by rewrite trim_unspaced.
Qed.

(** INTENT: the payload arrives without the white space at its end, and a payload of
    white space only is refused. *)
Lemma intent_command_parse capability payload :
  32 ∉ capability → 10 ∉ capability → 10 ∉ payload →
  parse_command (read_line (intent_command capability payload)) =
    if decide (trim_end payload = []) then CC_MalformedIntent else CC_Intent capability (trim_end payload).
Proof.
  intros H1 H2 H3. unfold intent_command. rewrite !app_assoc, read_line_line.
  2: { rewrite !not_elem_of_app. split_and!; try done; no_char. }
  unfold parse_command. rewrite trim_end_app. change (trim_end newline) with (@nil Z). rewrite decide_True by done.
  rewrite trim_end_app. case_decide as Hp.
  - rewrite trim_end_app. change (trim_end (str " ")) with (@nil Z). rewrite decide_True by done.
    rewrite trim_end_app. case_decide as Hc; [by vm_compute|].
    change (str "INTENT " ++ trim_end capability) with (str "INTENT" ++ 32 :: trim_end capability).
    rewrite split_word by no_char. cbn -[split_once].
    destruct (split_once 32 (trim_end capability)) as [[x y]|] eqn:E; [|done].
    apply split_once_Some in E as [E _]. exfalso. apply H1. apply elem_of_rev, trim_start_elem.
    assert (Hin : 32 ∈ trim_end capability) by (rewrite E; set_solver).
    unfold trim_end in Hin. by rewrite elem_of_rev in Hin.
  - rewrite <- !app_assoc. change (str "INTENT " ++ capability ++ str " " ++ trim_end payload)
      with (str "INTENT" ++ 32 :: capability ++ 32 :: trim_end payload).
    rewrite split_word by no_char. cbn -[split_once]. by rewrite split_word.
Qed.
End Clients.

(** ** The kill switch, the daemon and the audit log together *)

(** A line on the socket, the end of an INTENT's wait, a step of the daemon, a call at
    the gateway, and the end of one. *)
Inductive ControlStep :=
  | CtlLine (i : io) (now_ms : Z) (sent : bool) (io_text : text) (t : TraceId) (line : option text)
  | CtlAnswer (elapsed : Z) (capability : text) (peer : NodeId) (t : TraceId) (via : option NodeId) (w : Waited)
  | CtlNet (e : NetStep)
  | CtlCall (now_unix now : Z) (capability : text) (sender : NodeId)
  | CtlDrop (capability : text).

Lemma split_once_elem c a b s x : split_once c s = Some (a, b) → x ∈ b → x ∈ s.
Proof. intros [-> _]%split_once_Some. set_solver. Qed.
Lemma trim_end_elem x s : x ∈ trim_end s → x ∈ s.
Proof. unfold trim_end. rewrite elem_of_rev. intros Hx%trim_start_elem. by rewrite elem_of_rev in Hx. Qed.

Lemma command_payload_elem line c d x : parse_command line = CC_Intent c d → x ∈ d → x ∈ line.
Proof.
  unfold parse_command. intros E Hx. apply trim_end_elem. revert E.
  destruct (split_once 32 (trim_end line)) as [[a b]|] eqn:E1.
  - case_decide; [|by repeat case_decide]. cbn. destruct (split_once 32 b) as [[c' d']|] eqn:E2; [|done].
    intros [= -> ->]. eapply split_once_elem; [exact E1|]. by eapply split_once_elem.
  - by repeat case_decide.
Qed.

Section Operator.
Context `{Blake3} `{Ed25519} `{HexCodec} `{SerdeJson} `{StdFormat}.

Definition ctl_step (k : Keypair) (s : ControlState) (e : ControlStep) : outcome False ControlState :=
  match e with
  | CtlLine i now_ms sent io_text t line => r ← handle_connection i now_ms sent io_text k t s line; Ok r.1.1
  | CtlAnswer elapsed capability peer t via w => Ok (handle_intent_end elapsed s capability peer t via w).1
  | CtlNet e => r ← net_step k (ctl_network s) e; Ok (set_network s r.1)
  | CtlCall now_unix now capability sender =>
      Ok (set_policy s (check_and_acquire now_unix now (ctl_policy s) capability sender).1)
  | CtlDrop capability => Ok (set_policy s (drop_permit (ctl_policy s) capability))
  end.
Fixpoint ctl_run (k : Keypair) (s : ControlState) (es : list ControlStep) : outcome False ControlState :=
  match es with
  | [] => Ok s
  | e :: es' => s' ← ctl_step k s e; ctl_run k s' es'
  end.

(** What the operator asked for. *)
Definition command_of (e : ControlStep) : option ControlCommand :=
  match e with CtlLine _ _ _ _ _ (Some line) => Some (parse_command line) | _ => None end.
Definition frozen_after (b : bool) (es : list ControlStep) : bool :=
  foldl (λ b e, match command_of e with Some (CC_Freeze on) => on | _ => b end) b es.
Definition suspended_after (peer : NodeId) (b : bool) (es : list ControlStep) : bool :=
  foldl (λ b e, match command_of e with
                | Some (CC_Suspend h on) => if decide (parse_peer h = inl peer) then on else b
                | _ => b
                end) b es.
(** The action and detail to be recorded for a command. *)
Definition admin_event (e : ControlStep) : option (text * text) :=
  match command_of e with
  | Some (CC_Freeze true) =>
      Some (str "kill_switch_freeze", str "all Tier1+ capability execution frozen; Tier0 and audit log unaffected")
  | Some (CC_Freeze false) => Some (str "kill_switch_unfreeze", str "Tier1+ capability execution resumed")
  | Some (CC_Suspend h on) =>
      match parse_peer h with
      | inl _ => Some (if on then str "kill_switch_suspend" else str "kill_switch_unsuspend", str "peer " ++ h)
      | inr _ => None
      end
  | _ => None
  end.

Definition ctl_step_ok (e : ControlStep) : Prop :=
  match e with
  | CtlLine _ _ _ _ t (Some line) => array_ok 8 t ∧ Forall char_ok line
  | CtlNet e => step_ok e
  | _ => True
  end.
Definition logged (e : ControlStep) : Prop := match e with CtlLine i _ _ _ _ _ => i = IoDone | _ => True end.

Lemma check_kill_switch u now p c n : kill_switch (check_and_acquire u now p c n).1 = kill_switch p.
Proof. unfold check_and_acquire. by repeat case_match. Qed.

Lemma suspended_suspend p n peer :
  is_suspended (suspend_peer p n) peer = if decide (n = peer) then true else is_suspended p peer.
Proof.
  unfold is_suspended. cbn. case_decide; [apply bool_decide_eq_true_2|apply bool_decide_ext]; set_solver.
Qed.
Lemma suspended_unsuspend p n peer :
  is_suspended (unsuspend_peer p n).1 peer = if decide (n = peer) then false else is_suspended p peer.
Proof.
  unfold is_suspended. cbn. case_decide; [apply bool_decide_eq_false_2|apply bool_decide_ext]; set_solver.
Qed.

(** What one step does to the policy's kill switch and to the log. *)
Lemma ctl_step_effect k s e s' :
  ctl_step k s e = Ok s' →
  is_frozen (ctl_policy s') = frozen_after (is_frozen (ctl_policy s)) [e] ∧
  (∀ peer, is_suspended (ctl_policy s') peer = suspended_after peer (is_suspended (ctl_policy s) peer) [e]) ∧
  ctl_audit s' = match admin_event e with
                 | Some (a, d) => match e with
                                  | CtlLine i now_ms _ _ _ _ => log_kill_switch_event i now_ms (ctl_audit s) a d
                                  | _ => ctl_audit s
                                  end
                 | None => ctl_audit s
                 end.
Proof.
  unfold frozen_after, suspended_after, admin_event, ctl_step. destruct e as [i ms sent iot t line|el c p t via w|e|u now c n|c].
  - destruct line as [line|]; [|by intros [= <-]]. cbn [handle_connection command_of foldl].
    destruct (parse_command line) as [c p| |on|h on| |]; try by intros [= <-].
    + unfold handle_intent. destruct (request_intent _ _ _ _ _ _) as [[[nm ef] res]| |]; [|done|done]. by intros [= <-].
    + by destruct on; intros [= <-].
    + unfold handle_suspend. destruct (parse_peer h) as [n|er] eqn:E.
      2: { intros [= <-]. cbn. by split_and!. }
      destruct on; intros [= <-]; cbn -[suspend_peer unsuspend_peer]; (split_and!; [done| |done]); intros peer;
        try change (with_kill_switch _ (mkKill _ (_ ∖ {[n]}))) with (unsuspend_peer (ctl_policy s) n).1;
        rewrite ?suspended_suspend, ?(suspended_unsuspend _ n); repeat case_decide; congruence.
  - unfold handle_intent_end. destruct (request_end el (ctl_network s) p t w) as [nm r]. by intros [= <-].
  - destruct (net_step _ _ _) as [[nm ef]| |]; [|done|done]. by intros [= <-].
  - intros [= <-]. cbn. unfold is_frozen, is_suspended. by rewrite check_kill_switch.
  - by intros [= <-].
Qed.

(** The steps neither panic nor leave the daemon's invariant. *)
Lemma ctl_step_total max_peers k s e :
  keypair_ok k → net_inv max_peers k (ctl_network s) → ctl_step_ok e →
  ∃ s', ctl_step k s e = Ok s' ∧ net_inv max_peers k (ctl_network s').
Proof.
  intros Hk Hi He. destruct e as [i ms sent iot t line|el c p t via w|e|u now c n|c]; cbn -[net_step].
  - destruct line as [line|]; [|by exists s]. destruct He as [Ht Hl]. cbn [handle_connection].
    destruct (parse_command line) as [c d| |on|h on| |] eqn:Ep; try by eexists.
    + assert (Hd : bytes_ok (as_bytes d)).
      { apply as_bytes_ok. apply Forall_forall. intros x Hx. rewrite Forall_forall in Hl. apply Hl.
        by apply (command_payload_elem _ _ _ _ Ep). }
      destruct (net_step_inv max_peers k (ctl_network s) (NvRequest sent c (as_bytes d) t) Hk Hi (conj Hd Ht)) as (nm & ef & E & Hi').
      cbn in E. unfold handle_intent. destruct (request_intent _ _ _ _ _ _) as [[[nm1 ef1] res]| |]; [|done|done].
      injection E as -> ->. by eexists.
    + destruct on; by eexists.
    + unfold handle_suspend. destruct (parse_peer h); [destruct on|]; by eexists.
  - pose proof (net_step_inv max_peers k (ctl_network s) (NvRequestEnd el p t w) Hk Hi I) as (nm & ef & E & Hi').
    cbn in E. injection E as E _. unfold handle_intent_end. destruct (request_end el (ctl_network s) p t w) as [nm1 r]. cbn in E. subst.
    by eexists.
  - destruct (net_step_inv max_peers k (ctl_network s) e Hk Hi He) as (nm & ef & -> & Hi'). by eexists.
  - by eexists.
  - by eexists.
Qed.

Lemma check_refuses u now p c n :
  is_suspended p n = true ∨ (is_frozen p = true ∧ policy_tier p c ≠ Some Tier0) →
  (check_and_acquire u now p c n).2 ≠ Allowed.
Proof.
  unfold check_and_acquire, is_suspended, is_frozen, policy_tier. intros Hs.
  destruct (entries p !! c) as [e|]; [|done]. case_decide as Hd; [done|].
  destruct Hs as [Hs|[Hf Ht]]; [by apply bool_decide_eq_true in Hs|].
  rewrite Hf, bool_decide_eq_false_2; [done|]. intros E. apply Ht. cbn. by rewrite E.
Qed.

(** An entry of the log is the record of an operator's action. *)
Definition admin_entry (e : AuditEntry) (ad : text * text) : Prop :=
  caller (content e) = LOCAL_ADMIN_CALLER ∧ c_capability (content e) = ad.1 ∧
  c_outcome (content e) = Some (Success (Some ad.2)).

Lemma log_event_entry now_ms l a d :
  log_ok l → let l' := (log_admin_event IoDone now_ms l a (Some d) 0).1 in
  log_ok l' ∧ ∃ e, lines (log_text l') = lines (log_text l) ++ [entry_to_string e] ∧ admin_entry e (a, d).
Proof.
  intros Hl. pose proof (audit_record_ok now_ms l LOCAL_ADMIN_CALLER a ADMIN_ENTRY_TIER []
    (mkAuditDecision true (str "local admin action '" ++ a ++
      str "' via forge-node's control socket (physical/SSH access to the box is the authentication boundary)"))
    (Some (Success (Some d))) 0 None Hl) as Hr.
  unfold log_admin_event. destruct (audit_record _ _ _ _ _ _ _ _ _ _) as [l' r].
  destruct Hr as (_ & Hl' & _ & E). split; [exact Hl'|]. eexists. split; [exact E|]. done.
Qed.

Lemma ctl_run_log k s es s' l :
  ctl_run k s es = Ok s' → Forall logged es → ctl_audit s = Some l → log_ok l →
  ∃ l' new, ctl_audit s' = Some l' ∧ log_ok l' ∧ lines (log_text l') = lines (log_text l) ++ map entry_to_string new ∧
    Forall2 admin_entry new (omap admin_event es).
Proof.
  revert s l. induction es as [|e es IH]; intros s l Hr Hes Hl Hok.
  - injection Hr as <-. exists l, []. split_and!; [done|done| |constructor]. cbn. by rewrite app_nil_r.
  - apply Forall_cons in Hes as [He Hes]. cbn in Hr. destruct (ctl_step k s e) as [s1| |] eqn:E1; [|done|done]. cbn in Hr.
    apply ctl_step_effect in E1 as (_ & _ & Ea). rewrite Hl in Ea. cbn [omap list_omap].
    destruct (admin_event e) as [[a d]|] eqn:Ev; [|by apply (IH s1 l)].
    destruct e as [i ms sent iot t line| | | |]; try done. cbn in He. subst i.
    destruct (log_event_entry ms l a d Hok) as (Hok1 & en & Hlines & Hen).
    destruct (IH s1 _ Hr Hes Ea Hok1) as (l' & new & E2 & E3 & E4 & E5).
    exists l', (en :: new). split_and!; [done|done| |by constructor]. by rewrite E4, Hlines, <- app_assoc.
Qed.

End Operator.

(** ** Requests over the socket *)

Section Requests.
Context `{HexCodec}.

(** The reply is not one line when the peer's answer is not: the client prints its first
    line only, which can be anything the peer chose, and the rest is lost. *)
Lemma control_reply_cut peer a b c via io :
  Forall (λ x, 0 ≤ x < 128) (a ++ 10 :: b) → 10 ∉ a → bytes_ok peer →
  client_result (str "control-intent") (intent_reply c peer via io (inr (a ++ 10 :: b)))
  = (str "OK " ++ hex_encode peer ++ str " " ++ a ++ newline, None).
Proof.
  intros Hb Ha Hp. unfold client_result, intent_reply.
  assert (E : from_utf8_lossy (a ++ 10 :: b) = a ++ 10 :: b).
  { rewrite <- (as_bytes_ascii (a ++ 10 :: b) Hb) at 1. apply lossy_as_bytes. eapply Forall_impl; [exact Hb|].
    intros x Hx. left. cbn in Hx. lia. }
  rewrite E. replace (str "OK " ++ hex_encode peer ++ str " " ++ (a ++ 10 :: b) ++ newline)
    with ((str "OK " ++ hex_encode peer ++ str " " ++ a) ++ newline ++ b ++ newline) by (rewrite <- !app_assoc; done).
  assert (Hn : 10 ∉ str "OK " ++ hex_encode peer ++ str " " ++ a).
  { rewrite !not_elem_of_app. split_and!; try done; [by apply (bool_decide_unpack _)| |by apply (bool_decide_unpack _)].
    destruct (hex_encode_digits peer Hp) as [_ Hd]. intros Hin. rewrite Forall_forall in Hd. apply Hd in Hin as [v Hv].
    by vm_compute in Hv. }
  assert (Er : ∀ l r, 10 ∉ l → read_line (l ++ newline ++ r) = l ++ newline).
  { induction l as [|x l IH]; intros r Hl; [done|]. apply not_elem_of_cons in Hl as [Hx Hl].
    change (read_line ((x :: l) ++ newline ++ r)) with (if x =? 10 then [x] else x :: read_line (l ++ newline ++ r)).
    destruct (Z.eqb_spec x 10); [congruence|]. by rewrite IH. }
  rewrite (Er _ _ Hn), <- !app_assoc. by cbn.
Qed.
End Requests.

(** ** What the access report says *)

Section Access.
Context `{HexCodec}.

Lemma insert_peer_Permutation x l : insert_peer x l ≡ₚ x :: l.
Proof. induction l as [|y l IH]; cbn; [done|]. case_match; [done|]. rewrite IH. by apply Permutation_swap. Qed.
Lemma insert_text_Permutation x l : insert_text x l ≡ₚ x :: l.
Proof. induction l as [|y l IH]; cbn; [done|]. case_match; [done|]. rewrite IH. by apply Permutation_swap. Qed.
Lemma foldr_Permutation {A} (ins : A → list A → list A) l :
  (∀ x l, ins x l ≡ₚ x :: l) → foldr ins [] l ≡ₚ l.
Proof. intros Hi. induction l as [|x l IH]; cbn; [done|]. by rewrite Hi, IH. Qed.

Lemma currently_allowed_lookup (u : Z) (m : gmap NodeId (option Z)) (n : NodeId) (ex : option Z) :
  m !! n = Some ex → peer_currently_allowed u m n = match ex with Some e => u <? e | None => true end.
Proof. unfold peer_currently_allowed. by intros ->. Qed.

(** The grants a summary lists: those in force. *)
Lemma summary_peers u p c s h ex :
  capability_summary u p c = Some s →
  (h, ex) ∈ sum_allowed_peers s ↔
    ∃ e n, entries p !! c = Some e ∧ h = hex_encode n ∧ allowed_peers e !! n = Some ex ∧
           peer_currently_allowed u (allowed_peers e) n = true.
Proof.
  unfold capability_summary. destruct (entries p !! c) as [e|]; [|done]. intros [= <-]. cbn.
  rewrite (foldr_Permutation insert_peer) by apply insert_peer_Permutation.
  rewrite list_elem_of_fmap. split.
  - intros ([n ex'] & [= -> ->] & [Hin Hf]%list_elem_of_In%filter_In).
    apply list_elem_of_In, elem_of_map_to_list in Hin. exists e, n. split_and!; try done.
    rewrite (currently_allowed_lookup u _ _ _ Hin). by destruct ex'.
  - intros (e' & n & [= <-] & -> & Hl & Hp). exists (n, ex). split; [done|].
    apply list_elem_of_In, filter_In. split; [by apply list_elem_of_In, elem_of_map_to_list|].
    rewrite (currently_allowed_lookup u _ _ _ Hl) in Hp. by destruct ex.
Qed.

(** The expiry shown is the grant's when the identity is written as the policy's own
    report writes it. *)
Lemma grant_expiry_exact u p c s e n ex :
  capability_summary u p c = Some s → entries p !! c = Some e → (∀ m, is_Some (allowed_peers e !! m) → bytes_ok m) →
  allowed_peers e !! n = Some ex → peer_currently_allowed u (allowed_peers e) n = true →
  grant_expiry (hex_encode n) s =
    match ex with Some ts => str "expires_unix=" ++ fmt_int ts | None => str "expiry=permanent" end.
Proof.
  intros Hs He Hk Hn Ha. unfold grant_expiry.
  destruct (first_some _ _) as [ex'|] eqn:E.
  - apply first_some_Some in E as ([h x] & Hin & Hx). cbn in Hx. case_decide as Hh; [|done]. injection Hx as ->. subst h.
    apply (summary_peers u p c s) in Hin as (e' & m & He' & Hm & Hl & _); [|done]. rewrite He in He'. injection He' as <-.
    apply hex_encode_inj in Hm; [|apply Hk; by eexists..]. subst m. pose proof (eq_trans (eq_sym Hn) Hl) as [= <-]. by destruct ex.
  - exfalso. rewrite first_some_None in E. specialize (E (hex_encode n, ex)). cbn in E.
    rewrite decide_True in E by done. discriminate E. apply (summary_peers u p c s (hex_encode n) ex Hs). eauto 10.
Qed.

(** Written in any other way, upper case for instance, every grant reads as permanent. *)
Lemma grant_expiry_other_spelling u p c s id_hex :
  capability_summary u p c = Some s → (∀ n, id_hex ≠ hex_encode n) → grant_expiry id_hex s = str "expiry=permanent".
Proof.
  intros Hs Hn. unfold grant_expiry. destruct (first_some _ _) as [ex|] eqn:E; [|done].
  apply first_some_Some in E as ([h x] & Hin & Hx). cbn in Hx. case_decide as Hh; [|done]. subst h.
  apply (summary_peers u p c s _ _ Hs) in Hin as (e & n & _ & Hh & _). by destruct (Hn n).
Qed.

(** The report by identity has one line for each capability the identity may call now. *)
Lemma access_lines_exact u p id_hex id :
  access_lines u p id_hex id ≡ₚ
    omap (λ ce, if peer_currently_allowed u (allowed_peers ce.2) id
                then access_line id_hex ce.1 <$> capability_summary u p ce.1 else None) (map_to_list (entries p)).
Proof.
  unfold access_lines. rewrite (foldr_Permutation insert_text) by apply insert_text_Permutation.
  unfold capability_names.
  assert (Hf : ∀ ce, ce ∈ map_to_list (entries p) → entries p !! ce.1 = Some ce.2)
    by (intros [c e] Hc; by apply elem_of_map_to_list in Hc).
  induction (map_to_list (entries p)) as [|ce l IH]; [done|]. cbn.
  unfold allows at 1. rewrite (Hf ce) by left.
  assert (Hl : ∀ ce', ce' ∈ l → entries p !! ce'.1 = Some ce'.2) by (intros; apply Hf; by right). specialize (IH Hl).
  destruct (peer_currently_allowed u (allowed_peers ce.2) id), (capability_summary u p ce.1);
    first [exact IH|by apply Permutation_skip|by apply perm_skip].
Qed.
End Access.

(** ** A run *)

#[local] Existing Instance prefix_digest.
#[local] Existing Instance ed_reference.
#[local] Existing Instance plain_format.

Definition sample_control : ControlState := mkControl deny_all (sample_node 7) (Some (mkLog [] GENESIS_HASH 0)).
Definition sample_line (s : text) : ControlStep := CtlLine IoDone 5 true [] sample_trace (Some (s ++ newline)).
Definition sample_commands : list ControlStep :=
  [sample_line (str "SUSPEND " ++ hex_encode (sample_id 5)); sample_line (str "FREEZE"); sample_line (str "STATUS");
   CtlCall 7 8 (str "echo") (sample_id 6); sample_line (str "UNSUSPEND " ++ hex_encode (sample_id 5)); sample_line (str "unfreeze")].
Lemma sample_commands_ok : Forall ctl_step_ok sample_commands.
Proof.
  repeat (apply Forall_cons_2; [first [exact I | split; [exact sample_trace_ok|apply (bool_decide_unpack _); vm_compute; exact I]]|]).
  constructor.
Qed.
Lemma sample_frozen : frozen_after (is_frozen (ctl_policy sample_control)) sample_commands = true.
Proof. vm_compute. reflexivity. Qed.
Lemma sample_suspended :
  suspended_after (sample_id 5) (is_suspended (ctl_policy sample_control) (sample_id 5)) (take 1 sample_commands) = true ∧
  suspended_after (sample_id 5) (is_suspended (ctl_policy sample_control) (sample_id 5)) sample_commands = false.
Proof. vm_compute. done. Qed.
Lemma sample_events : length (omap admin_event sample_commands) = 3%nat.
Proof. vm_compute. reflexivity. Qed.
