(* ===== verification/Startup.v ===== *)
(** * Starting a node (forge-node config.rs, main.rs, discovery.rs)

    The configuration file, the identity a node starts under, what [init] writes, and
    the network interfaces a starting node announces itself on.  TOML, the key
    generator, the contents of files and of /proc, and the output of [ip] are
    parameters or arguments. *)

From stdpp Require Import base numbers list gmap strings.
From S2P Require Import Prelude Types Text Scan Approval AuditTrail Crypto Mesh Control.

(** ** Configuration *)

Record NodeConfig := mkNodeConfig {
  nc_node_id : list Z;
  nc_listen_addr : SocketAddr;
  nc_api_addr : SocketAddr;
  nc_bootstrap_nodes : list SocketAddr;
  nc_data_dir : text;
  nc_max_peers : Z;
  nc_enable_guardian : bool;
  nc_enable_watcher : bool;
  nc_enable_link_local_discovery : bool;
  nc_link_local_trusted_subnets : list text;
  nc_capabilities : list text;
  nc_uai_base_url : option text;
  nc_uai_token : option text;
  nc_notify_topic : option text;
  nc_capability_policy_path : text;
  nc_wan_enabled : bool;
  nc_wan_allowed_peers : list text;
  nc_telegram_bot_token : option text;
  nc_telegram_chat_id : option text
}.
#[export] Instance NodeConfig_eq_dec : EqDecision NodeConfig.
Proof. solve_decision. Defined.

Definition default_link_local_discovery : bool := true.
Definition default_capabilities : list text := [str "echo"; str "sysinfo"].
Definition default_capability_policy_path : text := str "/etc/forge/capability_policy.toml".
Definition zero_id : list Z := replicate 32 0.
Definition any_address : SocketAddr := SockV4 [0; 0; 0; 0] 7777.
Definition local_api : SocketAddr := SockV4 [127; 0; 0; 1] 7778.
Definition NodeConfig_default : NodeConfig :=
  mkNodeConfig zero_id any_address local_api [] (str "/var/lib/forge") 50 true true default_link_local_discovery []
    default_capabilities None None None default_capability_policy_path false [] None None.

(** What [toml] relies on: printing and reading back.  The identifier is written in
    hexadecimal and must be 32 bytes. *)
Class ConfigToml := {
  config_to_string : NodeConfig → text;
  config_from_str : text → NodeConfig + text;
  config_text_ok c : Forall char_ok (config_to_string c);
  config_roundtrip c : array_ok 32 (nc_node_id c) → config_from_str (config_to_string c) = inl c
}.

(** [join] of a file name to a directory. *)
Definition path_join (dir name : text) : text :=
  match rev dir with
  | [] => name
  | c :: _ => if c =? 47 then dir ++ name else dir ++ str "/" ++ name
  end.

Abbreviation files := (gmap text (list Z)).

Section Identity.
Context `{Ed25519} `{HexCodec} `{ConfigToml}.

(** The text of a file's bytes, when they are text; a file is written as the bytes of a text. *)
Definition read_text (fs : files) (path : text) : option text :=
  b ← fs !! path;
  let t := from_utf8_lossy b in
  if decide (as_bytes t = b) then Some t else None.
Definition NodeConfig_load (fs : files) (path : text) : NodeConfig + text :=
  match read_text fs path with
  | None => inr (str "Failed to read config file")
  | Some t => match config_from_str t with inl c => inl c | inr _ => inr (str "Failed to parse config file") end
  end.
Definition NodeConfig_save (fs : files) (path : text) (c : NodeConfig) : files :=
  <[path := as_bytes (config_to_string c)]> fs.

Definition key_path (c : NodeConfig) : text := path_join (nc_data_dir c) (str "node.key").
Definition mismatch_text (c : NodeConfig) (k : Keypair) : text :=
  str "Identity mismatch: config.toml declares node_id " ++ hex_encode (nc_node_id c)
  ++ str " but the node identity actually loaded/generated at startup is " ++ hex_encode (Keypair_node_id k)
  ++ str " - refusing to start under a different identity than configured. Check " ++ key_path c
  ++ str " exists and matches, or re-run `forge-node init --force` if this key was legitimately replaced.".

(** [generated] is what [Keypair::generate] would give; [readable] whether an existing
    key file can be read. *)
Definition load_or_generate_identity (generated : Keypair) (readable : bool) (fs : files) (c : NodeConfig) : Keypair + text :=
  if decide (nc_node_id c = zero_id) then inl generated
  else
    let check k := if decide (Keypair_node_id k = nc_node_id c) then inl k else inr (mismatch_text c k) in
    match fs !! key_path c with
    | None => check generated
    | Some b =>
        if negb readable then inr (str "io")
        else if negb (len b =? 32) then check generated
        else check (Keypair_from_bytes b)
    end.

(** ** [init] *)

Definition policy_template : text := flat_map (λ l, l ++ newline) [
  str "# AXIOM capability access-control policy - see axiom-gateway's policy.rs";
  str "# module doc comment for the full fail-closed contract this file";
  str "# implements.";
  str "#";
  str "# Every capability this node might serve needs its OWN [capability.<name>]";
  str "# table below, or it serves NO ONE - there is no permissive default. Peers";
  str "# are named by their hex-encoded Ed25519 NodeId (never an IP address - IPs";
  str "# are unauthenticated on this transport). rate_limit_secs is the minimum";
  str "# gap between two served requests from the same allowed peer; concurrency";
  str "# bounds how many requests for that capability may be in flight at once,";
  str "# across every allowed peer combined. `tier` (schema v2, MANDATORY per";
  str "# entry) is " ++ [34] ++ str "tier0" ++ [34] ++ str "/" ++ [34] ++ str "tier1" ++ [34] ++ str "/" ++ [34] ++ str "tier2" ++ [34] ++ str " - see DECISIONS.md's " ++ [34] ++ str "Tier model" ++ [34];
  str "# section: worst-case impact and required controls, not read-vs-write. A";
  str "# missing or invalid tier fails that capability closed even if";
  str "# allowed_peers is populated.";
  str "#";
  str "# AXIOM Phase 3.6: any tier1/tier2 capability ALSO requires a";
  str "# [[protected_resource]] section to exist somewhere in this file - even an";
  str "# empty one - or it fails closed at registration regardless of";
  str "# allowed_peers (same fail-closed mechanism as a missing/invalid tier).";
  str "# This scaffold ships with `network_clients` (tier1) below but NO";
  str "# [[protected_resource]] section yet, since this generator has no way to";
  str "# know this device's real network - `network_clients` therefore starts";
  str "# unregistered (not merely empty-allowlisted) until you add one, e.g.:";
  str "#";
  str "#   [[protected_resource]]";
  str "#   name = " ++ [34] ++ str "router" ++ [34];
  str "#   mac = " ++ [34] ++ str "aa:bb:cc:dd:ee:ff" ++ [34];
  str "#   ip = " ++ [34] ++ str "192.168.1.1" ++ [34];
  str "#";
  str "# Deliberately shipped empty (fail closed) - add peers (and, for any";
  str "# tier1+ capability, a protected-resource section) explicitly before any";
  str "# capability will serve anyone.";
  [];
  str "version = 2";
  [];
  str "[capability.echo]";
  str "allowed_peers = []";
  str "rate_limit_secs = 0";
  str "concurrency = 50";
  str "tier = " ++ [34] ++ str "tier0" ++ [34];
  [];
  str "[capability.sysinfo]";
  str "allowed_peers = []";
  str "rate_limit_secs = 0";
  str "concurrency = 50";
  str "tier = " ++ [34] ++ str "tier0" ++ [34];
  [];
  str "[capability.network_clients]";
  str "allowed_peers = []";
  str "rate_limit_secs = 30";
  str "concurrency = 2";
  str "tier = " ++ [34] ++ str "tier1" ++ [34];
  [];
  str "[capability.notify_send]";
  str "allowed_peers = []";
  str "rate_limit_secs = 30";
  str "concurrency = 2";
  str "tier = " ++ [34] ++ str "tier1" ++ [34];
  [];
  str "[capability.proxmox_restart]";
  str "allowed_peers = []";
  str "rate_limit_secs = 30";
  str "concurrency = 2";
  str "tier = " ++ [34] ++ str "tier1" ++ [34];
  [];
  str "[capability.home_assistant_toggle]";
  str "allowed_peers = []";
  str "rate_limit_secs = 30";
  str "concurrency = 2";
  str "tier = " ++ [34] ++ str "tier1" ++ [34];
  [];
  str "[capability.docker_restart]";
  str "allowed_peers = []";
  str "rate_limit_secs = 30";
  str "concurrency = 2";
  str "tier = " ++ [34] ++ str "tier1" ++ [34];
  [];
  str "[capability.wg_peers_list]";
  str "allowed_peers = []";
  str "rate_limit_secs = 30";
  str "concurrency = 2";
  str "tier = " ++ [34] ++ str "tier1" ++ [34];
  [];
  str "# AXIOM Tier 2: wg_peer_manage (create/delete/enable/disable a WireGuard";
  str "# VPN peer) - the first REAL Tier 2 (destructive/security-relevant)";
  str "# capability. Requires a [[protected_resource]] section to exist (see";
  str "# above) and, separately, telegram_bot_token/telegram_chat_id set in";
  str "# config.toml, or every request answers " ++ [34] ++ str "not configured" ++ [34] ++ str " regardless of";
  str "# allowed_peers. Every invocation additionally requires a real,";
  str "# per-invocation Telegram approval from the configured chat_id - see";
  str "# telegram_approval.rs - no allowed_peers entry bypasses that.";
  str "[capability.wg_peer_manage]";
  str "allowed_peers = []";
  str "rate_limit_secs = 30";
  str "concurrency = 2";
  str "tier = " ++ [34] ++ str "tier2" ++ [34]].

Definition init_config (id : list Z) (data_dir policy_path : text) : NodeConfig :=
  mkNodeConfig id any_address local_api [] data_dir 50 true true true [] [str "echo"; str "sysinfo"] None None None
    policy_path false [] None None.

(** The four files, in the order they are written. *)
Definition init_writes (k : Keypair) (output_dir data_dir : text) : list (text * list Z) :=
  let policy_path := path_join output_dir (str "capability_policy.toml") in
  [(path_join data_dir (str "node.key"), secret_bytes k);
   (path_join output_dir (str "node.pub"), as_bytes (hex_encode (Keypair_node_id k)));
   (policy_path, as_bytes policy_template);
   (path_join output_dir (str "config.toml"), as_bytes (config_to_string (init_config (Keypair_node_id k) data_dir policy_path)))].

(** How far the writes got: all of them, or [i] of them; then either the next one left
    [part] bytes, or nothing more happened (opening it, or the key's [chmod], failed). *)
Inductive InitIo := WroteAll | FailedAt (i : nat) (part : option nat).
Definition write_files (fs : files) (l : list (text * list Z)) : files := foldl (λ fs w, <[w.1 := w.2]> fs) fs l.
Definition run_writes (o : InitIo) (fs : files) (l : list (text * list Z)) : files * bool :=
  match o with
  | WroteAll => (write_files fs l, true)
  | FailedAt i part =>
      match l !! i with
      | Some w =>
          let fs := write_files fs (take i l) in
          (match part with Some n => <[w.1 := take n w.2]> fs | None => fs end, false)
      | None => (write_files fs l, true)
      end
  end.

Definition existing_id (fs : files) (path : text) : text :=
  match fs !! path with
  | Some b => if len b =? 32 then hex_encode (Keypair_node_id (Keypair_from_bytes b))
              else str "<unreadable - corrupt or wrong size>"
  | None => str "<unreadable - corrupt or wrong size>"
  end.
Definition init_node (o : InitIo) (generated : Keypair) (force : bool) (output_dir data_dir : text) (fs : files) :
    files * option text :=
  let key := path_join data_dir (str "node.key") in
  if bool_decide (is_Some (fs !! key)) && negb force then
    (fs, Some (str "refusing to overwrite existing identity at " ++ key ++ str " (NodeId: " ++ existing_id fs key
      ++ str ") - this protocol's whole premise is identity permanence, and key loss is unrecoverable. Pass --force if you really mean to replace it."))
  else
    let '(fs, done) := run_writes o fs (init_writes generated output_dir data_dir) in
    (fs, if done then None else Some (str "io")).

(** *** Paths *)

Lemma path_join_app dir name : ∃ p, path_join dir name = p ++ name.
Proof.
  unfold path_join. destruct (rev dir); [by exists []|]. case_match; [by exists dir|].
  exists (dir ++ str "/"). by rewrite <- app_assoc.
Qed.
(** Files with different last characters have different paths. *)
Lemma path_join_ne dir name dir' name' : last name ≠ last name' → name ≠ [] → name' ≠ [] → path_join dir name ≠ path_join dir' name'.
Proof.
  intros Hl Hn Hn' E. destruct (path_join_app dir name) as [p Ep], (path_join_app dir' name') as [p' Ep'].
  rewrite Ep, Ep' in E. apply (f_equal last) in E. rewrite !last_app in E. apply Hl.
  destruct (last name) eqn:E1; [|by apply last_None in E1]. destruct (last name') eqn:E2; [done|by apply last_None in E2].
Qed.
Lemma path_join_inj dir name name' : path_join dir name = path_join dir name' → name = name'.
Proof. unfold path_join. destruct (rev dir); [done|]. case_match; intros E; by repeat apply app_inv_head in E. Qed.

Lemma read_text_written fs path t : Forall char_ok t → fs !! path = Some (as_bytes t) → read_text fs path = Some t.
Proof. intros Ht E. unfold read_text. rewrite E. cbn. rewrite lossy_as_bytes by done. by rewrite decide_True. Qed.

Lemma load_with_key g' fs c g :
  nc_node_id c ≠ zero_id → keypair_ok g → fs !! key_path c = Some (secret_bytes g) →
  load_or_generate_identity g' true fs c = if decide (Keypair_node_id g = nc_node_id c) then inl g else inr (mismatch_text c g).
Proof.
  intros Hz [Hl _] Hk. unfold load_or_generate_identity. rewrite decide_False by done. rewrite Hk. unfold len. rewrite Hl. cbn.
  by destruct g.
Qed.

Lemma loaded_identity g readable fs c k :
  load_or_generate_identity g readable fs c = inl k → (nc_node_id c = zero_id ∧ k = g) ∨ Keypair_node_id k = nc_node_id c.
Proof.
  unfold load_or_generate_identity. case_decide; [intros [= <-]; by left|].
  repeat case_match; intros [= <-]; by right.
Qed.

Section Init.
Context (g : Keypair) (output_dir data_dir : text) (fs : files) (Hg : keypair_ok g).
#[local] Abbreviation key := (path_join data_dir (str "node.key")).
#[local] Abbreviation config := (path_join output_dir (str "config.toml")).

Lemma paths_apart :
  path_join output_dir (str "node.pub") ≠ key ∧ path_join output_dir (str "capability_policy.toml") ≠ key ∧ config ≠ key ∧
  path_join output_dir (str "node.pub") ≠ config ∧ path_join output_dir (str "capability_policy.toml") ≠ config.
Proof.
  split_and!; [by apply path_join_ne|by apply path_join_ne|by apply path_join_ne|..];
    intros E%path_join_inj; revert E; apply (bool_decide_unpack _); by vm_compute.
Qed.

Lemma forced_writes o : init_node o g true output_dir data_dir fs =
  let '(fs', done) := run_writes o fs (init_writes g output_dir data_dir) in (fs', if done then None else Some (str "io")).
Proof. unfold init_node. by rewrite andb_false_r. Qed.

(** What keeps the paths apart, with what they and the files are made of hidden. *)
Ltac apart_paths :=
  destruct paths_apart as (?&?&?&?&?); unfold init_writes in *; generalize dependent (as_bytes policy_template);
  generalize dependent (path_join data_dir (str "node.key")); generalize dependent (path_join output_dir (str "node.pub"));
  generalize dependent (path_join output_dir (str "config.toml"));
  generalize dependent (path_join output_dir (str "capability_policy.toml")); intros.

(** After the first write the key is the new one, whatever follows of the other three. *)
Lemma key_written o fs' b :
  run_writes o fs (init_writes g output_dir data_dir) = (fs', b) → (∀ part, o ≠ FailedAt 0 part) →
  fs' !! key = Some (secret_bytes g).
Proof.
  intros E Ho. apart_paths. destruct o as [|[|[|[|[|i]]]] part]; [|by destruct (Ho part)|..]; cbn in E;
    try destruct part; injection E as <- _; rewrite ?lookup_insert_ne by congruence; apply lookup_insert_eq.
Qed.

Lemma config_written fs' b :
  run_writes WroteAll fs (init_writes g output_dir data_dir) = (fs', b) →
  b = true ∧ read_text fs' config = Some (config_to_string (init_config (Keypair_node_id g) data_dir
                                             (path_join output_dir (str "capability_policy.toml")))).
Proof.
  intros E. apart_paths. cbn in E. injection E as <- <-. split; [done|].
  apply read_text_written; [apply config_text_ok|apply lookup_insert_eq].
Qed.

(** Before the last write the configuration is as it was. *)
Lemma config_kept i part fs' b :
  run_writes (FailedAt i part) fs (init_writes g output_dir data_dir) = (fs', b) → (i < 3)%nat ∨ i = 3%nat ∧ part = None →
  fs' !! config = fs !! config.
Proof.
  intros E Hi. apart_paths. destruct i as [|[|[|[|i]]]]; cbn in E; [..|lia]; try (destruct Hi as [Hi|[_ ->]]; [lia|]);
    try destruct part; injection E as <- _; by rewrite ?lookup_insert_ne by congruence.
Qed.
End Init.

(** C31: A node runs under the identity its configuration names or not at all.  A start
    that succeeds with a configured identifier has a key of exactly that identifier.
    [init] never touches a file when a key exists and it is not forced.  When it
    finishes, a start from what it wrote runs under the new key.  When a forced one is
    interrupted after the key was replaced and before the configuration was, every start
    from the old configuration is refused, and names both identities. *)
Theorem identity_guard g output_dir data_dir fs :
  keypair_ok g → array_ok 32 (Keypair_node_id g) → Keypair_node_id g ≠ zero_id →
  let key := path_join data_dir (str "node.key") in let config := path_join output_dir (str "config.toml") in
  (∀ g' readable fs' c k, load_or_generate_identity g' readable fs' c = inl k →
     nc_node_id c ≠ zero_id → Keypair_node_id k = nc_node_id c) ∧
  (∀ o, is_Some (fs !! key) → ∃ e, init_node o g false output_dir data_dir fs = (fs, Some e)) ∧
  (∀ force fs', init_node WroteAll g force output_dir data_dir fs = (fs', None) →
     ∃ c, NodeConfig_load fs' config = inl c ∧ nc_data_dir c = data_dir ∧
     ∀ g', load_or_generate_identity g' true fs' c = inl g) ∧
  (∀ i part c, (1 ≤ i < 3)%nat ∨ i = 3%nat ∧ part = None →
     NodeConfig_load fs config = inl c → nc_data_dir c = data_dir → nc_node_id c ≠ zero_id →
     nc_node_id c ≠ Keypair_node_id g →
     ∃ fs' e, init_node (FailedAt i part) g true output_dir data_dir fs = (fs', Some e) ∧
     NodeConfig_load fs' config = inl c ∧
     ∀ g', load_or_generate_identity g' true fs' c = inr (mismatch_text c g)).
Proof.
  intros Hg Hid Hz key config. subst key config. split_and!.
  - intros g' r fs' c k [[? _]|?]%loaded_identity; done.
  - intros o Hk. unfold init_node. rewrite bool_decide_true by done. cbn. by eexists.
  - intros force fs' E. unfold init_node in E. destruct (bool_decide _ && negb force); [done|].
    destruct (run_writes _ _ _) as [fs1 b] eqn:E1. assert (fs1 = fs') as -> by congruence.
    destruct (config_written g output_dir data_dir fs fs' b E1) as [-> Hc]. eexists. split_and!.
    + unfold NodeConfig_load. rewrite Hc. by rewrite config_roundtrip.
    + done.
    + intros g'. rewrite (load_with_key g' fs' _ g); [by rewrite decide_True|done|done|].
      by apply (key_written g output_dir data_dir fs WroteAll fs' true E1).
  - intros i part c Hi Hl Hd Hnz Hne. rewrite forced_writes.
    destruct (run_writes _ _ _) as [fs' b] eqn:E. assert (b = false) as ->.
    { destruct i as [|[|[|[|i]]]]; try lia; cbn -[policy_template str] in E; congruence. }
    exists fs', (str "io"). split_and!; [done| |].
    + unfold NodeConfig_load, read_text in *. rewrite (config_kept g output_dir data_dir fs i part fs' false E); [done|].
      destruct Hi as [[_ Hi]|Hi]; [by left|by right].
    + intros g'. rewrite (load_with_key g' fs' c g); [by rewrite decide_False|done|done|].
      unfold key_path. rewrite Hd. apply (key_written g output_dir data_dir fs _ fs' false E).
      intros part' [= -> ->]. lia.
Qed.
End Identity.

(** ** A configuration format *)

#[export] Instance NodeConfig_countable : Countable NodeConfig.
Proof.
  refine (inj_countable'
    (λ c, (nc_node_id c, nc_listen_addr c, nc_api_addr c, nc_bootstrap_nodes c, nc_data_dir c,
           (nc_max_peers c, nc_enable_guardian c, nc_enable_watcher c, nc_enable_link_local_discovery c,
            nc_link_local_trusted_subnets c, nc_capabilities c,
            (nc_uai_base_url c, nc_uai_token c, nc_notify_topic c, nc_capability_policy_path c, nc_wan_enabled c,
             nc_wan_allowed_peers c, nc_telegram_bot_token c, nc_telegram_chat_id c))))
    (λ '(a, b, c, d, e, (f, g, h, i, j, k, (l, m, n, o, p, q, r, s))), mkNodeConfig a b c d e f g h i j k l m n o p q r s) _).
  by intros [].
Defined.

#[export] Instance config_reference : ConfigToml.
Proof.
  refine {| config_to_string c := pos_text (encode c) ++ [125];
            config_from_str s := match read_pos s ≫= decode with Some c => inl c | None => inr (str "invalid") end |}.
  - intros c. apply Forall_app. split; [|constructor; [left; lia|constructor]].
    eapply Forall_impl; [apply pos_text_chars|]. intros x [-> | ->]; left; lia.
  - intros c _. rewrite read_pos_text. cbn. by rewrite decode_encode.
Defined.

(** A first [init], then a start. *)
Lemma identity_guard_witness :
  ∃ c, NodeConfig_load (H1:=config_reference)
         (init_node (H:=ed_reference) WroteAll (sample_key 7) false (str "/etc/forge") (str "/var/lib/forge") ∅).1
         (path_join (str "/etc/forge") (str "config.toml")) = inl c ∧
  ∀ g', load_or_generate_identity (H:=ed_reference) (H0:=hex_reference) g' true
          (init_node (H:=ed_reference) WroteAll (sample_key 7) false (str "/etc/forge") (str "/var/lib/forge") ∅).1 c = inl (sample_key 7).
Proof.
  destruct (identity_guard (H:=ed_reference) (H1:=config_reference) (sample_key 7) (str "/etc/forge") (str "/var/lib/forge") ∅)
    as (_ & _ & Hs & _).
  - apply sample_key_ok. lia.
  - split; [reflexivity|]. apply (bool_decide_unpack _). vm_compute. exact I.
  - apply (bool_decide_unpack _). vm_compute. exact I.
  - destruct (Hs false _ eq_refl) as (c & Hc & _ & Hg). exists c. split; [exact Hc|exact Hg].
Defined.
