(* ===== verification/Interfaces.v ===== *)
(** * Where a node announces itself (forge-node/src/discovery.rs)

    Which network interfaces link-local discovery uses on Linux: the interfaces with a
    link-local address in /proc/net/if_inet6, without the excluded ones, and on a
    portable machine only those that are on a trusted subnet now.  The contents of
    /proc and /sys and the output of [ip] are arguments. *)

From stdpp Require Import base numbers list strings sets.
From S2P Require Import Prelude Types Text Scan AuditTrail Mesh.

Record LinkLocalIface := mkIface { if_name : text; if_index : Z }.

Definition EXCLUDED_IFACE_PREFIXES : list text :=
  [str "docker"; str "veth"; str "br-"; str "virbr"; str "tun"; str "tap"; str "wg"; str "vmnet"; str "tailscale"].

(** [trim_start_matches("0x")] *)
Fixpoint trim_start_0x (s : text) : text :=
  match s with
  | 48 :: 120 :: s' => trim_start_0x s'
  | _ => s
  end.
Definition IFF_POINTOPOINT : Z := 16.
(** [flags] is the file's contents, when it can be read. *)
Definition is_point_to_point_iface (flags : option text) : bool :=
  match flags with
  | None => false
  | Some s =>
      match from_str_radix hex_val 16 (2 ^ 64 - 1) (trim_start_0x (trim s)) with
      | None => false
      | Some f => negb (Z.land f IFF_POINTOPOINT =? 0)
      end
  end.
Definition is_excluded_iface (flags : text → option text) (name : text) : bool :=
  if bool_decide (name = str "lo") || existsb (starts_with name) EXCLUDED_IFACE_PREFIXES then true
  else is_point_to_point_iface (flags name).

(** ** Addresses and subnets *)

(** An octet as the standard library reads it: at most three digits, no leading zero. *)
Definition parse_octet (s : text) : option Z :=
  if (len s =? 0) || (3 <? len s) || negb (forallb is_ascii_digit s) then None
  else if (1 <? len s) && bool_decide (head s = Some 48) then None
  else match parse_u16 s with Some v => if v <=? 255 then Some v else None | None => None end.
(** [str::parse::<Ipv4Addr>], as the 32-bit number of the address. *)
Definition parse_ipv4 (s : text) : option Z :=
  match split_char 46 s with
  | [a; b; c; d] =>
      a ← parse_octet a; b ← parse_octet b; c ← parse_octet c; d ← parse_octet d;
      Some (((a * 256 + b) * 256 + c) * 256 + d)
  | _ => None
  end.

Definition ipv4_in_cidr (addr : Z) (cidr : text) : bool :=
  match split_once 47 cidr with
  | None => false
  | Some (net_str, prefix_str) =>
      match parse_ipv4 net_str, parse_u32 prefix_str with
      | Some net, Some prefix =>
          if 32 <? prefix then false
          else
            let mask := if prefix =? 0 then 0 else Z.shiftl (2 ^ 32 - 1) (32 - prefix) mod 2 ^ 32 in
            Z.land addr mask =? Z.land net mask
      | _, _ => false
      end
  end.

(** [split_once] at a text. *)
Fixpoint split_once_text (sep s : text) : option (text * text) :=
  if starts_with s sep then Some ([], drop (length sep) s)
  else
    match s with
    | [] => None
    | c :: s' => '(a, b) ← split_once_text sep s'; Some (c :: a, b)
    end.
Fixpoint take_word (s : text) : text :=
  match s with [] => [] | c :: s' => if is_whitespace c then [] else c :: take_word s' end.
Fixpoint words_fuel (fuel : nat) (s : text) : list text :=
  match fuel with
  | O => []
  | S fuel' =>
      match trim_start s with
      | [] => []
      | s => let w := take_word s in w :: words_fuel fuel' (drop (length w) s)
      end
  end.
(** [split_whitespace]: every word consumes a character, so the length is enough. *)
Definition split_whitespace (s : text) : list text := words_fuel (length s) s.

(** [output] is what [ip -4 -o addr show dev] printed, when it ran. *)
Definition ipv4_of_line (line : text) : option Z :=
  '(_, rest) ← split_once_text (str "inet ") line;
  cidr ← head (split_whitespace rest);
  '(ip_str, _) ← split_once 47 cidr;
  parse_ipv4 ip_str.
Definition iface_ipv4_addrs (output : option text) : list Z :=
  match output with None => [] | Some t => omap ipv4_of_line (lines t) end.
Definition iface_is_trusted (ip : text → option text) (iface : text) (trusted_subnets : list text) : bool :=
  match trusted_subnets with
  | [] => true
  | _ => existsb (λ addr, existsb (ipv4_in_cidr addr) trusted_subnets) (iface_ipv4_addrs (ip iface))
  end.

(** ** Enumeration *)

(** The first four bytes of a text; a cut inside a character panics. *)
Definition first_four (s : text) : outcome False (list Z) := str_slice (as_bytes s) 0 4.
Definition iface_of_line (flags : text → option text) (line : text) : outcome False (option LinkLocalIface) :=
  match split_whitespace line with
  | addr_hex :: index :: _ :: _ :: _ :: name :: _ =>
      if negb (len (as_bytes addr_hex) =? 32) then Ok None
      else
        prefix ← first_four addr_hex;
        if negb (bool_decide (prefix = str "fe80")) then Ok None
        else if is_excluded_iface flags name then Ok None
        else Ok (mkIface name <$> from_str_radix hex_val 16 (2 ^ 32 - 1) index)
  | _ => Ok None
  end.
Fixpoint ifaces_of_lines (flags : text → option text) (ls : list text) : outcome False (list LinkLocalIface) :=
  match ls with
  | [] => Ok []
  | l :: ls' =>
      i ← iface_of_line flags l;
      rest ← ifaces_of_lines flags ls';
      Ok (match i with Some i => i :: rest | None => rest end)
  end.
Definition enumerate_link_local_interfaces (flags : text → option text) (contents : text) : outcome False (list LinkLocalIface) :=
  ifaces_of_lines flags (lines contents).

(** The interfaces discovery starts on; [None] leaves it idle.  [contents] is
    /proc/net/if_inet6, [bound] whether the socket could be bound. *)
Definition discovery_ifaces (flags ip : text → option text) (contents : option text) (bound : bool) (trusted_subnets : list text) :
    outcome False (option (list LinkLocalIface)) :=
  match contents with
  | None => Ok None
  | Some contents =>
      ifaces ← enumerate_link_local_interfaces flags contents;
      let ifaces := List.filter (λ i, iface_is_trusted ip (if_name i) trusted_subnets) ifaces in
      Ok (if decide (ifaces = []) then None else if bound then Some ifaces else None)
  end.

Definition MULTICAST_GROUP : list Z := [0xff02; 0; 0; 0; 0; 0; 0; 1].
Definition DISCOVERY_PORT : Z := 7790.
(** Where one round of the announce loop sends its HELLO. *)
Definition announce_destinations (ifaces : list LinkLocalIface) : list SocketAddr :=
  map (λ i, SockV6 MULTICAST_GROUP DISCOVERY_PORT 0 (if_index i)) ifaces.

(** ** Subnets *)

Lemma land_high_mask x k : 0 ≤ x < 2 ^ 32 → 0 ≤ k ≤ 32 → Z.land x (2 ^ 32 - 2 ^ k) = x / 2 ^ k * 2 ^ k.
Proof.
  intros Hx Hk. replace (2 ^ 32 - 2 ^ k) with (Z.shiftl (2 ^ (32 - k) - 1) k).
  2: { rewrite Z.shiftl_mul_pow2 by lia. rewrite Z.mul_sub_distr_r, <- Z.pow_add_r by lia. f_equal; [f_equal; lia|lia]. }
  apply Z.bits_inj'. intros n Hn. rewrite Z.land_spec, <- Z.shiftl_mul_pow2, <- Z.shiftr_div_pow2 by lia.
  rewrite !Z.shiftl_spec by lia. destruct (Z.ltb_spec n k).
  - rewrite !(Z.testbit_neg_r _ (n - k)) by lia. by rewrite andb_false_r.
  - rewrite Z.shiftr_spec by lia. replace (n - k + k) with n by lia.
    replace (2 ^ (32 - k) - 1) with (Z.ones (32 - k)) by (rewrite Z.ones_equiv; lia).
    destruct (Z.ltb_spec n 32).
    + rewrite Z.ones_spec_low by lia. apply andb_true_r.
    + rewrite Z.ones_spec_high by lia. rewrite andb_false_r. symmetry.
      destruct (Z.eq_dec x 0) as [->|]; [apply Z.testbit_0_l|].
      apply Z.bits_above_log2; [lia|]. assert (Z.log2 x < 32) by (apply Z.log2_lt_pow2; lia). lia.
Qed.

Lemma cidr_mask p : 0 ≤ p ≤ 32 →
  (if p =? 0 then 0 else Z.shiftl (2 ^ 32 - 1) (32 - p) mod 2 ^ 32) = 2 ^ 32 - 2 ^ (32 - p).
Proof. revert p. intros p Hp. assert (0 ≤ p < 33) as H by lia. clear Hp. revert p H. by_enumeration 33%nat. Qed.

Lemma parse_octet_range s v : parse_octet s = Some v → 0 ≤ v < 256.
Proof.
  unfold parse_octet. repeat case_match; try done. intros [= <-].
  match goal with E : parse_u16 _ = Some _ |- _ => apply (from_str_radix_range dec_val) in E; [lia| |lia..] end.
  unfold dec_val, is_ascii_digit. intros c d. repeat case_match; intros [= <-]; lia.
Qed.
Lemma parse_ipv4_range s v : parse_ipv4 s = Some v → 0 ≤ v < 2 ^ 32.
Proof.
  unfold parse_ipv4. destruct (split_char 46 s) as [|a [|b [|c [|d [|]]]]]; try done.
  destruct (parse_octet a) eqn:Ea, (parse_octet b) eqn:Eb, (parse_octet c) eqn:Ec, (parse_octet d) eqn:Ed; try done.
  intros [= <-]. apply parse_octet_range in Ea, Eb, Ec, Ed. lia.
Qed.

(** An address is in a subnet exactly when the entry reads as a network and a prefix
    length and the two agree on the prefix; anything else matches nothing. *)
Lemma ipv4_in_cidr_iff addr cidr : 0 ≤ addr < 2 ^ 32 →
  ipv4_in_cidr addr cidr = true ↔
    ∃ n p net prefix, split_once 47 cidr = Some (n, p) ∧ parse_ipv4 n = Some net ∧ parse_u32 p = Some prefix ∧ prefix ≤ 32 ∧
      addr / 2 ^ (32 - prefix) = net / 2 ^ (32 - prefix).
Proof.
  intros Ha. unfold ipv4_in_cidr. destruct (split_once 47 cidr) as [[n p]|] eqn:E1.
  2: { split; [done|]. by intros (?&?&?&?&[=]&_). }
  destruct (parse_ipv4 n) as [net|] eqn:E2.
  2: { split; [done|]. intros (?&?&?&?&[= <- <-]&[=]&_). congruence. }
  destruct (parse_u32 p) as [prefix|] eqn:E3.
  2: { split; [done|]. intros (?&?&?&?&[= <- <-]&_&[=]&_). congruence. }
  pose proof (parse_ipv4_range _ _ E2) as Hn. pose proof (parse_u32_range _ _ E3) as Hp.
  destruct (Z.ltb_spec 32 prefix).
  - split; [done|]. intros (?&?&?&?&[= <- <-]&?&?&?&_). assert (x2 = prefix) as -> by congruence. lia.
  - rewrite cidr_mask, !land_high_mask by lia. rewrite Z.eqb_eq.
    assert (0 < 2 ^ (32 - prefix)) by (apply Z.pow_pos_nonneg; lia). split.
    + intros E. exists n, p, net, prefix. split_and!; try done. nia.
    + intros (?&?&?&?&[= <- <-]&?&?&?&E). assert (x1 = net ∧ x2 = prefix) as [-> ->] by (split; congruence). by rewrite E.
Qed.

(** ** What is announced on *)

(** A line of the file that names a usable interface. *)
Definition usable_line (flags : text → option text) (line : text) (i : LinkLocalIface) : Prop :=
  ∃ addr_hex index a b c more, split_whitespace line = addr_hex :: index :: a :: b :: c :: if_name i :: more ∧
    len (as_bytes addr_hex) = 32 ∧ first_four addr_hex = Ok (str "fe80") ∧
    is_excluded_iface flags (if_name i) = false ∧ from_str_radix hex_val 16 (2 ^ 32 - 1) index = Some (if_index i).

Lemma iface_of_line_iff flags line i : iface_of_line flags line = Ok (Some i) ↔ usable_line flags line i.
Proof.
  unfold iface_of_line, usable_line. split.
  - destruct (split_whitespace line) as [|x [|y [|a [|b [|c [|n more]]]]]]; try done.
    destruct (Z.eqb_spec (len (as_bytes x)) 32); [|done]. cbn [negb].
    destruct (first_four x) as [p| |] eqn:Ef; [|done|done]. cbn [mbind outcome_bind].
    destruct (decide (p = str "fe80")) as [->|]; [rewrite bool_decide_true by done|by rewrite bool_decide_false].
    cbn [negb]. destruct (is_excluded_iface flags n) eqn:Ee; [done|].
    destruct (from_str_radix _ _ _ y) as [k|] eqn:Ek; [|done]. intros [= <-]. by exists x, y, a, b, c, more.
  - intros (x & y & a & b & c & more & -> & -> & Hf & He & Hk). rewrite Z.eqb_refl. cbn [negb]. rewrite Hf.
    cbn [mbind outcome_bind]. rewrite bool_decide_true by done. cbn [negb]. rewrite He, Hk. by destruct i.
Qed.

Lemma ifaces_of_lines_elem flags ls l i :
  ifaces_of_lines flags ls = Ok l → i ∈ l ↔ ∃ line, line ∈ ls ∧ usable_line flags line i.
Proof.
  revert l. induction ls as [|x ls IH]; intros l; cbn.
  - intros [= <-]. split; [by intros ?%not_elem_of_nil|]. by intros (? & ?%not_elem_of_nil & _).
  - destruct (iface_of_line flags x) as [o| |] eqn:Ex; [|done|done]. cbn.
    destruct (ifaces_of_lines flags ls) as [rest| |]; [|done|done]. cbn. intros [= <-].
    specialize (IH rest eq_refl). split.
    + intros Hi. destruct o as [j|].
      * apply elem_of_cons in Hi as [->|Hi]; [exists x; split; [left|by apply iface_of_line_iff]|].
        apply IH in Hi as (line & ? & ?). exists line. split; [by right|done].
      * apply IH in Hi as (line & ? & ?). exists line. split; [by right|done].
    + intros (line & [->|Hl]%elem_of_cons & Hu).
      * apply iface_of_line_iff in Hu. rewrite Ex in Hu. injection Hu as ->. left.
      * assert (i ∈ rest) by (apply IH; eauto). destruct o; [by right|done].
Qed.

(** Enumeration does not panic on ASCII, which is what the kernel writes. *)
Lemma take_word_elem c s : c ∈ take_word s → c ∈ s.
Proof. induction s as [|x s IH]; cbn; [done|]. case_match; [by intros ?%not_elem_of_nil|]. set_solver. Qed.
Lemma words_elem n s w c : w ∈ words_fuel n s → c ∈ w → c ∈ s.
Proof.
  revert s. induction n as [|n IH]; intros s; [by intros ?%not_elem_of_nil|]. cbn.
  destruct (trim_start s) as [|x r] eqn:E; [by intros ?%not_elem_of_nil|].
  intros Hw Hc. apply trim_start_elem. rewrite E. apply elem_of_cons in Hw as [->|Hw]; [by apply take_word_elem|].
  apply (IH _ Hw) in Hc. apply list_elem_of_In. apply list_elem_of_In in Hc.
  rewrite <- (firstn_skipn (length (take_word (x :: r))) (x :: r)). apply in_or_app. by right.
Qed.
Lemma first_four_ascii s : ascii_text s → len s = 32 → is_ok (first_four s) = true.
Proof.
  intros Hs Hl. unfold first_four, str_slice. rewrite as_bytes_ascii by done.
  assert (Hb : ∀ i, 0 ≤ i < 32 → is_char_boundary s i = true).
  { intros i Hi. unfold is_char_boundary. destruct (s !! Z.to_nat i) as [b|] eqn:E.
    - unfold ascii_text in Hs. rewrite Forall_lookup in Hs. specialize (Hs _ _ E). cbn in Hs.
      rewrite (proj2 (Z.leb_gt 128 b)) by lia. by rewrite orb_true_r.
    - apply lookup_ge_None in E. unfold len in Hl. lia. }
  rewrite !Hb by lia. unfold slice. cbn -[take drop]. rewrite Hl. done.
Qed.

Lemma lines_acc_ascii acc s : ascii_text acc → ascii_text s → Forall ascii_text (lines_acc acc s).
Proof.
  assert (Hr : ∀ l, ascii_text l → ascii_text (rev l)) by (intros; by apply Forall_rev).
  assert (Hc : ∀ l, ascii_text l → ascii_text (strip_cr l)).
  { intros l Hl. unfold strip_cr. destruct (rev l) as [|c r] eqn:E; [done|]. case_match; [|done].
    apply Hr. apply Hr in Hl. rewrite E in Hl. by apply Forall_cons in Hl as [_ ?]. }
  revert acc. induction s as [|c s IH]; intros acc Ha Hs; cbn.
  - destruct acc; [constructor|]. constructor; [by apply Hr|constructor].
  - apply Forall_cons in Hs as [Hx Hs]. case_match.
    + constructor; [by apply Hc, Hr|]. apply IH; [constructor|done].
    + apply IH; [by constructor|done].
Qed.

Lemma enumerate_total flags contents :
  ascii_text contents → ∃ l, enumerate_link_local_interfaces flags contents = Ok l.
Proof.
  intros Ha. unfold enumerate_link_local_interfaces. assert (Hl : Forall ascii_text (lines contents)) by (apply lines_acc_ascii; [constructor|done]).
  induction Hl as [|line ls Hx _ [rest IH]]; cbn; [by eexists|]. rewrite IH.
  assert (∃ o, iface_of_line flags line = Ok o) as [o ->]; [|by eexists]. unfold iface_of_line.
  destruct (split_whitespace line) as [|x [|y [|a [|b [|c [|n more]]]]]] eqn:E; try by eexists.
  destruct (Z.eqb_spec (len (as_bytes x)) 32) as [H32|]; [|by eexists]. cbn [negb].
  assert (Hax : ascii_text x).
  { apply Forall_forall. intros z Hz. unfold ascii_text in Hx. rewrite Forall_forall in Hx. apply Hx.
    apply (words_elem (length line) line x); [|done]. fold (split_whitespace line). rewrite E. left. }
  rewrite as_bytes_ascii in H32 by done. pose proof (first_four_ascii x Hax H32) as Hf.
  destruct (first_four x) as [p| |]; [|done|done]. cbn. by repeat case_match; eexists.
Qed.

Lemma iface_addr_range o a : a ∈ iface_ipv4_addrs o → 0 ≤ a < 2 ^ 32.
Proof.
  destruct o as [t|]; [|by intros ?%not_elem_of_nil]. cbn. intros (line & _ & Hl)%list_elem_of_omap. unfold ipv4_of_line in Hl.
  destruct (split_once_text _ line) as [[x rest]|]; [|done]. cbn in Hl. destruct (head _) as [w|]; [|done]. cbn in Hl.
  destruct (split_once 47 w) as [[y z]|]; [|done]. by apply parse_ipv4_range in Hl.
Qed.

(** Discovery is confined.  For every contents the kernel can write, enumeration does
    not panic, and an interface is announced on exactly when a line of the file names
    it with a link-local address, it is neither excluded by name nor point-to-point, the
    socket could be bound, and, when trusted subnets are configured, one of the IPv4
    addresses it has now lies in one of them by the prefix of a well-formed entry; every
    datagram of the announce loop goes to the all-nodes group with the scope of such an
    interface.  So with a list without a well-formed entry, or on an interface without
    an IPv4 address, nothing is announced. *)
Theorem discovery_confined flags ip contents trusted :
  ascii_text contents →
  (∃ r, discovery_ifaces flags ip (Some contents) true trusted = Ok r ∧
   ∀ i, (∃ l, r = Some l ∧ i ∈ l) ↔
     (∃ line, line ∈ lines contents ∧ usable_line flags line i) ∧
     (trusted = [] ∨ ∃ o addr cidr n p net prefix, ip (if_name i) = Some o ∧ addr ∈ iface_ipv4_addrs (Some o) ∧ cidr ∈ trusted ∧
        split_once 47 cidr = Some (n, p) ∧ parse_ipv4 n = Some net ∧ parse_u32 p = Some prefix ∧ prefix ≤ 32 ∧
        addr / 2 ^ (32 - prefix) = net / 2 ^ (32 - prefix))) ∧
  (∀ l a, a ∈ announce_destinations l → ∃ i, i ∈ l ∧ a = SockV6 MULTICAST_GROUP DISCOVERY_PORT 0 (if_index i)).
Proof.
  intros Ha. split.
  2: { intros l a (i & -> & Hi)%list_elem_of_fmap. eauto. }
  destruct (enumerate_total flags contents Ha) as [l El]. cbn [discovery_ifaces]. rewrite El. cbn [mbind outcome_bind].
  eexists. split; [reflexivity|]. intros i.
  rewrite <- (ifaces_of_lines_elem flags (lines contents) l i El).
  set (f := List.filter _ l).
  assert (Hf : i ∈ f ↔ i ∈ l ∧ iface_is_trusted ip (if_name i) trusted = true)
    by (unfold f; by rewrite !list_elem_of_In, filter_In).
  assert (Ht : iface_is_trusted ip (if_name i) trusted = true ↔ trusted = [] ∨ ∃ o addr cidr n p net prefix,
    ip (if_name i) = Some o ∧ addr ∈ iface_ipv4_addrs (Some o) ∧ cidr ∈ trusted ∧
    split_once 47 cidr = Some (n, p) ∧ parse_ipv4 n = Some net ∧ parse_u32 p = Some prefix ∧ prefix ≤ 32 ∧
    addr / 2 ^ (32 - prefix) = net / 2 ^ (32 - prefix)).
  { unfold iface_is_trusted. destruct trusted as [|t ts]; [split; [by left|done]|].
    rewrite existsb_exists. split.
    - intros (addr & Hi & (cidr & Hc & Hm)%existsb_exists). right. destruct (ip (if_name i)) as [o|] eqn:Eo; [|done].
      apply list_elem_of_In in Hi. apply ipv4_in_cidr_iff in Hm as (n & p & net & prefix & Hm); [|by eapply iface_addr_range].
      exists o, addr, cidr, n, p, net, prefix. split_and!; [done|done|by apply list_elem_of_In|apply Hm..].
    - intros [[=]|(o & addr & cidr & n & p & net & prefix & Eo & Hi & Hc & Hm)]. exists addr. rewrite Eo.
      split; [by apply list_elem_of_In|]. apply existsb_exists. exists cidr. split; [by apply list_elem_of_In|].
      apply ipv4_in_cidr_iff; [by eapply iface_addr_range|eauto 10]. }
  rewrite <- Ht, <- Hf. destruct (decide (f = [])) as [E|].
  - split; [by intros (? & [=] & _)|]. rewrite E. by intros ?%not_elem_of_nil.
  - split; [by intros (? & [= <-] & ?)|eauto].
Qed.

(** ** Examples *)

Definition sample_if_inet6 : text :=
  flat_map (λ l, l ++ [10])
    [str "fe80000000000000021122fffe334455 02 40 20 80     eth0";
     str "fe80000000000000021122fffe334456 02 40 20 80     eth0";
     str "00000000000000000000000000000001 01 80 10 80       lo";
     str "fe80000000000000021122fffe334457 05 40 20 80     wg0"].
Definition sample_ip (iface : text) : option text :=
  if decide (iface = str "eth0") then Some (str "2: eth0    inet 192.168.7.20/24 brd 192.168.7.255 scope global eth0" ++ [10]) else None.
Definition no_flags (_ : text) : option text := None.

(** An interface with two link-local addresses is listed, and announced on, twice. *)
Example listed_twice :
  discovery_ifaces no_flags sample_ip (Some sample_if_inet6) true [str "10.0.0.0/8"; str "192.168.7.0/24"]
  = Ok (Some [mkIface (str "eth0") 2; mkIface (str "eth0") 2]).
Proof. vm_compute. reflexivity. Qed.
Example untrusted_is_silent :
  discovery_ifaces no_flags sample_ip (Some sample_if_inet6) true [str "10.0.0.0/8"; str "192.168.7.0/33"; str "192.168.7"] = Ok None.
Proof. vm_compute. reflexivity. Qed.

(** An interface whose flags cannot be read counts as no tunnel. *)
Lemma unreadable_flags_pass name :
  name ≠ str "lo" → existsb (starts_with name) EXCLUDED_IFACE_PREFIXES = false → is_excluded_iface no_flags name = false.
Proof. intros Hn He. unfold is_excluded_iface. by rewrite bool_decide_false, He. Qed.

Lemma sample_ascii : ascii_text sample_if_inet6.
Proof. apply (bool_decide_unpack _). vm_compute. exact I. Qed.
Lemma discovery_confined_witness :
  ∃ r, discovery_ifaces no_flags sample_ip (Some sample_if_inet6) true [str "192.168.7.0/24"] = Ok r ∧
  ∀ i, (∃ l, r = Some l ∧ i ∈ l) → ∃ line, line ∈ lines sample_if_inet6 ∧ usable_line no_flags line i.
Proof.
  destruct (discovery_confined no_flags sample_ip sample_if_inet6 [str "192.168.7.0/24"] sample_ascii) as [(r & Hr & Hi) _].
  exists r. split; [exact Hr|]. intros i Hl. exact (proj1 (proj1 (Hi i) Hl)).
Defined.
