(* ===== verification/Hdl.v ===== *)
(** * Hardware descriptions (axiom-hal/src/universal: types.rs, parser.rs)

    The description of a device and its text form, read line by line.  The parser keeps the
    region, the operation and the handlers under construction and moves them into the
    description when a section ends. *)

From stdpp Require Import base numbers list gmap strings.
From S2P Require Import Prelude Types Text Scan Policy AuditTrail Interfaces.

(** ** Descriptions *)

Inductive DeviceClass := DC_Network | DC_Storage | DC_Gpu | DC_UsbHost | DC_Audio | DC_Serial | DC_Generic.
#[export] Instance DeviceClass_eq_dec : EqDecision DeviceClass.
Proof. solve_decision. Defined.
Definition DeviceClass_from_str `{Lowercase} (s : text) : option DeviceClass :=
  let l := to_lowercase s in
  if decide (l ∈ [str "network"; str "nic"; str "ethernet"]) then Some DC_Network
  else if decide (l ∈ [str "storage"; str "disk"; str "nvme"; str "sata"]) then Some DC_Storage
  else if decide (l ∈ [str "gpu"; str "graphics"; str "display"]) then Some DC_Gpu
  else if decide (l ∈ [str "usb_host"; str "usb"; str "xhci"; str "ehci"]) then Some DC_UsbHost
  else if decide (l ∈ [str "audio"; str "sound"; str "hda"]) then Some DC_Audio
  else if decide (l ∈ [str "serial"; str "uart"; str "tty"]) then Some DC_Serial
  else Some DC_Generic.
Inductive AccessType := ReadOnly | WriteOnly | ReadWrite | WriteToClear | WriteToSet.
#[export] Instance AccessType_eq_dec : EqDecision AccessType.
Proof. solve_decision. Defined.
Definition AccessType_from_str `{Lowercase} (s : text) : option AccessType :=
  let l := to_lowercase s in
  if decide (l ∈ [str "read_only"; str "ro"; str "r"]) then Some ReadOnly
  else if decide (l ∈ [str "write_only"; str "wo"; str "w"]) then Some WriteOnly
  else if decide (l ∈ [str "read_write"; str "rw"]) then Some ReadWrite
  else if decide (l ∈ [str "write_to_clear"; str "w1c"]) then Some WriteToClear
  else if decide (l ∈ [str "write_to_set"; str "w1s"]) then Some WriteToSet
  else None.

Record BitField := mkBitField { bf_name : text; bit : Z; bf_width : Z }.
Record HdlRegister := mkRegister { reg_name : text; reg_offset : Z; reg_width : Z; reg_access : AccessType; bits : list BitField; array_size : Z }.
Record HdlRegion := mkHdlRegion { region_name : text; region_size : Z; registers : list HdlRegister }.
Record DeviceInfo := mkDevice {
  device_name : text; vendor_id : Z; device_id : Z; device_class : DeviceClass; subsystem_vendor : option Z; subsystem_device : option Z;
  revision : option Z
}.

Inductive InterruptType := IT_Legacy | IT_Msi | IT_MsiX | IT_Polling.
Inductive IrqAction := SignalRxReady | SignalTxDone | SignalError | Execute (name : text) | SetState (name : text) (value : Z) | Acknowledge.
Record InterruptHandler := mkHandler { mask : Z; handler_name : text; action : IrqAction }.
Record InterruptConfig := mkInterrupts { irq_type : InterruptType; handlers : list InterruptHandler }.

Inductive Value :=
  | V_Literal (n : Z) | V_Variable (name : text) | V_Parameter (idx : Z) | V_Register (name : text)
  | V_Or (a b : Value) | V_And (a b : Value) | V_Shl (v : Value) (n : Z) | V_Shr (v : Value) (n : Z).
Inductive Condition :=
  | C_Eq (a b : Value) | C_Ne (a b : Value) | C_Lt (a b : Value) | C_Gt (a b : Value)
  | C_BitSet (v : Value) (n : Z) | C_BitClear (v : Value) (n : Z) | C_And (a b : Condition) | C_Or (a b : Condition).
Inductive BarrierType := B_Read | B_Write | B_Full.
Inductive DmaDirection := ToHost | ToDevice | Bidirectional.
Inductive Operation :=
  | O_Write (register : text) (value : Value)
  | O_Read (register : text) (into : option text)
  | O_WaitMs (ms : Z)
  | O_WaitUs (us : Z)
  | O_Poll (register : text) (expected pmask timeout_ms : Z)
  | O_Increment (variable : text) (modulo : option Z)
  | O_Extract (from : text) (high_bit low_bit : Z) (into : text)
  | O_If (condition : Condition) (then_ops else_ops : list Operation)
  | O_Barrier (b : BarrierType)
  | O_DmaSetup (direction : DmaDirection) (buffer length : text).
Inductive Trigger := T_Interrupt (name : text) | T_Timer (interval_ms : Z) | T_StateChange (variable : text).
Record OperationDef := mkOperationDef { op_name : text; params : list text; returns : list text; trigger : option Trigger; steps : list Operation }.

Inductive QuirkCondition :=
  | Q_RevisionLt (r : Z) | Q_RevisionGe (r : Z) | Q_SubsystemVendor (v : Z) | Q_SubsystemDevice (d : Z)
  | Q_And (a b : QuirkCondition) | Q_Or (a b : QuirkCondition) | Q_Always.
Inductive QuirkApply :=
  | QA_InsertAfter (step_index : Z) (operation : Operation) | QA_InsertBefore (step_index : Z) (operation : Operation)
  | QA_Replace (step_index : Z) (operation : Operation) | QA_ModifyRegister (name : text) (offset_delta : Z)
  | QA_ModifyInterruptMask (handler_index new_mask : Z) | QA_AddDelay (after_step delay_ms : Z).
Record Quirk := mkQuirk { q_condition : QuirkCondition; note : text; apply_list : list QuirkApply }.

Record HardwareDescription := mkDescription {
  device : DeviceInfo; memory_map : list HdlRegion; interrupts : InterruptConfig; init_sequence : list Operation;
  operations : gmap text OperationDef; quirks : list Quirk
}.

Inductive ParseError :=
  | PE_Syntax (line : Z) (message : text) | PE_UnknownKeyword (line : Z) (keyword : text) | PE_MissingField (field : text)
  | PE_InvalidValue (field value : text) | PE_Duplicate (name : text).
Inductive DriverError :=
  | DE_DeviceNotFound | DE_InitFailed (msg : text) | DE_OperationFailed (op reason : text) | DE_Timeout (operation : text)
  | DE_InvalidParameter (name : text) | DE_HardwareError (code : Z) | DE_NotSupported.

(** ** The parser's state *)

Inductive HdlSection := S_Device | S_MemoryMap | S_Registers | S_Interrupts | S_InitSequence | S_Operations | S_Quirks.
#[export] Instance HdlSection_eq_dec : EqDecision HdlSection.
Proof. solve_decision. Defined.
(** The fields that share a shape with [OperationDef] are kept in one. *)
Record PartialDescription := mkPartial {
  p_device : option DeviceInfo; memory_regions : list HdlRegion; current_region : option HdlRegion; current_registers : list HdlRegister;
  interrupt_config : option InterruptConfig; interrupt_handlers : list InterruptHandler; p_init_sequence : list Operation;
  p_operations : gmap text OperationDef; current_operation : option OperationDef; p_quirks : list Quirk
}.
Definition PartialDescription_default : PartialDescription := mkPartial None [] None [] None [] [] ∅ None [].
Record HdlParser := mkParser { line_num : Z; section : option HdlSection; result : PartialDescription }.
Definition HdlParser_new : HdlParser := mkParser 0 None PartialDescription_default.

Definition p_set_device (r : PartialDescription) d := mkPartial (Some d) (memory_regions r) (current_region r) (current_registers r)
  (interrupt_config r) (interrupt_handlers r) (p_init_sequence r) (p_operations r) (current_operation r) (p_quirks r).
Definition p_set_memory (r : PartialDescription) l c g := mkPartial (p_device r) l c g
  (interrupt_config r) (interrupt_handlers r) (p_init_sequence r) (p_operations r) (current_operation r) (p_quirks r).
Definition p_set_interrupts (r : PartialDescription) c h := mkPartial (p_device r) (memory_regions r) (current_region r) (current_registers r)
  c h (p_init_sequence r) (p_operations r) (current_operation r) (p_quirks r).
Definition p_set_init (r : PartialDescription) l := mkPartial (p_device r) (memory_regions r) (current_region r) (current_registers r)
  (interrupt_config r) (interrupt_handlers r) l (p_operations r) (current_operation r) (p_quirks r).
Definition p_set_operations (r : PartialDescription) m c := mkPartial (p_device r) (memory_regions r) (current_region r) (current_registers r)
  (interrupt_config r) (interrupt_handlers r) (p_init_sequence r) m c (p_quirks r).

(** ** Words and numbers *)

Definition trim_char_start (c : Z) : text → text := fix go s := match s with x :: s' => if x =? c then go s' else s | [] => [] end.
Definition trim_char_end (c : Z) (s : text) : text := rev (trim_char_start c (rev s)).
Definition trim_matches (c : Z) (s : text) : text := trim_char_end c (trim_char_start c s).
(** [trim_end_matches("ms")], from the end. *)
Fixpoint trim_sm (s : text) : text := match s with 115 :: 109 :: s' => trim_sm s' | _ => s end.
Definition trim_end_ms (s : text) : text := rev (trim_sm (rev s)).
Definition strip_prefix (p s : text) : option text := if starts_with s p then Some (drop (length p) s) else None.
Definition ends_with_char (s : text) (c : Z) : bool := bool_decide (head (rev s) = Some c).
Definition is_hex_number (s : text) : bool := starts_with s (str "0x") || starts_with s (str "0X").

(** [parse_number] and [parse_number_static] are the same function. *)
Definition parse_number (s : text) : outcome ParseError Z :=
  let s := trim s in
  match (if is_hex_number s then from_str_radix hex_val 16 (2 ^ 64 - 1) (drop 2 s) else from_str_radix dec_val 10 (2 ^ 64 - 1) s) with
  | Some n => Ok n
  | None => Err (PE_InvalidValue (str "number") s)
  end.
Definition parse_string_list (s : text) : list text :=
  filter (λ p, p ≠ []) (map trim (split_char 44 (trim_char_end 93 (trim_char_start 91 (trim s))))).
Definition parse_irq_action (s : text) : outcome ParseError IrqAction :=
  if decide (s = str "signal_rx_ready") then Ok SignalRxReady
  else if decide (s = str "signal_tx_done") then Ok SignalTxDone
  else if decide (s = str "signal_error") then Ok SignalError
  else if decide (s = str "acknowledge" ∨ s = str "ack") then Ok Acknowledge
  else if starts_with s (str "execute:") then Ok (Execute (trim (drop 8 s)))
  else Err (PE_InvalidValue (str "action") s).

Definition parse_value (s : text) : outcome ParseError Value :=
  let s := trim s in
  if is_hex_number s || match s with c :: _ => is_ascii_digit c | [] => false end then n ← parse_number s; Ok (V_Literal n)
  else
    match strip_prefix [36] s with
    | Some t =>
        match from_str_radix dec_val 10 (2 ^ 64 - 1) t with
        | Some i => Ok (V_Parameter i)
        | None => Err (PE_InvalidValue (str "parameter") s)
        end
    | None => Ok (V_Variable s)
    end.

Definition arrow : Z := 8594.
(** A read step: register and variable. *)
Definition parse_read (rest : text) : Operation :=
  match split_once arrow rest with
  | Some (r, v) => O_Read (trim r) (Some (trim v))
  | None =>
      match split_once_text (str "->") rest with
      | Some (r, v) => O_Read (trim r) (Some (trim v))
      | None => O_Read rest None
      end
  end.
Definition parse_timeout (parts : list text) : outcome ParseError Z :=
  match parts with
  | _ :: _ :: p :: _ =>
      match strip_prefix (str "timeout:") (trim p) with
      | Some t => n ← parse_number (trim_end_ms (trim t)); Ok (n mod 2 ^ 32)
      | None => Ok 100
      end
  | _ => Ok 100
  end.
Definition parse_increment (rest : text) : outcome ParseError Operation :=
  match split_once 44 rest with
  | Some (v, m) =>
      let m := trim m in
      n ← parse_number (trim (default m (strip_prefix (str "mod:") m))); Ok (O_Increment (trim v) (Some n))
  | None => Ok (O_Increment rest None)
  end.
Definition parse_barrier (kind : text) : BarrierType :=
  if decide (kind = str "read") then B_Read else if decide (kind = str "write") then B_Write else B_Full.

(** A step of a sequence.  A write without a comma and a poll without an expected value match
    no later keyword and are no step. *)
Definition parse_operation_step (step : text) : outcome ParseError (option Operation) :=
  let step := trim step in
  if starts_with step (str "write:") then
    match split_once 44 (trim (drop 6 step)) with
    | Some (reg, val) => v ← parse_value (trim val); Ok (Some (O_Write (trim reg) v))
    | None => Ok None
    end
  else if starts_with step (str "read:") then Ok (Some (parse_read (trim (drop 5 step))))
  else if starts_with step (str "wait_ms:") then n ← parse_number (trim (drop 8 step)); Ok (Some (O_WaitMs (n mod 2 ^ 32)))
  else if starts_with step (str "wait_us:") then n ← parse_number (trim (drop 8 step)); Ok (Some (O_WaitUs (n mod 2 ^ 32)))
  else if starts_with step (str "poll:") then
    match split_char 44 (trim (drop 5 step)) with
    | r :: e :: parts =>
        n ← parse_number (trim e); t ← parse_timeout (r :: e :: parts);
        Ok (Some (O_Poll (trim r) n (2 ^ 64 - 1) t))
    | _ => Ok None
    end
  else if starts_with step (str "increment:") then o ← parse_increment (trim (drop 10 step)); Ok (Some o)
  else if starts_with step (str "barrier:") then Ok (Some (O_Barrier (parse_barrier (trim (drop 8 step)))))
  else Ok None.

(** ** Sections *)

(** [split_kv_static]: a key and a value that is not empty. *)
Definition split_kv (line : text) : option (text * text) :=
  match split_once 58 line with
  | Some (k, v) => let v := trim v in if decide (v = []) then None else Some (trim k, v)
  | None => None
  end.

Definition finish_operation (r : PartialDescription) : PartialDescription :=
  match current_operation r with
  | Some op => p_set_operations r (<[op_name op := op]> (p_operations r)) None
  | None => r
  end.
Definition finalize_current_section (r : PartialDescription) : PartialDescription :=
  let r := match current_registers r, current_region r with
    | (_ :: _) as regs, Some g => p_set_memory r (memory_regions r) (Some (mkHdlRegion (region_name g) (region_size g) (registers g ++ regs))) []
    | _, _ => r
    end in
  let r := match current_region r with Some g => p_set_memory r (memory_regions r ++ [g]) None (current_registers r) | None => r end in
  let r := finish_operation r in
  match interrupt_handlers r, interrupt_config r with
  | (_ :: _) as hs, Some c => p_set_interrupts r (Some (mkInterrupts (irq_type c) (handlers c ++ hs))) []
  | _, _ => r
  end.

Definition section_of_name (name : text) : option HdlSection :=
  if decide (name = str "device") then Some S_Device
  else if decide (name = str "memory_map") then Some S_MemoryMap
  else if decide (name = str "registers") then Some S_Registers
  else if decide (name = str "interrupts") then Some S_Interrupts
  else if decide (name = str "init_sequence") then Some S_InitSequence
  else if decide (name = str "operations") then Some S_Operations
  else if decide (name = str "quirks") then Some S_Quirks
  else None.
Definition is_subsection (s : option HdlSection) (name : text) : bool :=
  bool_decide (name = str "registers" ∧ s = Some S_MemoryMap) || bool_decide (name = str "handlers" ∧ s = Some S_Interrupts) ||
  bool_decide (name = str "steps" ∧ s = Some S_Operations).
Definition handle_section (p : HdlParser) (name : text) : outcome ParseError HdlParser :=
  if is_subsection (section p) name then Ok p
  else
    let r := finalize_current_section (result p) in
    match section_of_name name with
    | Some s => Ok (mkParser (line_num p) (Some s) r)
    | None =>
        match section p with
        | Some S_MemoryMap =>
            let l := match current_region r with Some g => memory_regions r ++ [g] | None => memory_regions r end in
            Ok (mkParser (line_num p) (section p) (p_set_memory r l (Some (mkHdlRegion name 0 [])) (current_registers r)))
        | Some S_Operations =>
            let r := finish_operation r in
            Ok (mkParser (line_num p) (section p) (p_set_operations r (p_operations r) (Some (mkOperationDef name [] [] None []))))
        | _ => Err (PE_UnknownKeyword (line_num p) name)
        end
    end.

(** ** Fields and list items *)

(** [last_mut]. *)
Fixpoint update_last {A} (f : A → A) (l : list A) : list A :=
  match l with [] => [] | [x] => [f x] | x :: l' => x :: update_last f l' end.

Section Parsing.
Context `{Lowercase}.

Definition DeviceInfo_empty : DeviceInfo := mkDevice [] 0 0 DC_Generic None None None.
Definition parse_device_field (r : PartialDescription) (key value : text) : outcome ParseError PartialDescription :=
  let d := default DeviceInfo_empty (p_device r) in
  let number (f : Z → DeviceInfo) := n ← parse_number value; Ok (p_set_device r (f n)) in
  let '(mkDevice nm vid did cls sv sd rv) := d in
  if decide (key = str "name") then Ok (p_set_device r (mkDevice (trim_matches 34 value) vid did cls sv sd rv))
  else if decide (key = str "vendor_id") then number (λ n, mkDevice nm (n mod 2 ^ 16) did cls sv sd rv)
  else if decide (key = str "device_id") then number (λ n, mkDevice nm vid (n mod 2 ^ 16) cls sv sd rv)
  else if decide (key = str "class") then
    match DeviceClass_from_str value with
    | Some c => Ok (p_set_device r (mkDevice nm vid did c sv sd rv))
    | None => Err (PE_InvalidValue (str "class") value)
    end
  else if decide (key = str "subsystem_vendor") then number (λ n, mkDevice nm vid did cls (Some (n mod 2 ^ 16)) sd rv)
  else if decide (key = str "subsystem_device") then number (λ n, mkDevice nm vid did cls sv (Some (n mod 2 ^ 16)) rv)
  else if decide (key = str "revision") then number (λ n, mkDevice nm vid did cls sv sd (Some (n mod 2 ^ 8)))
  else Ok (p_set_device r d).

Definition update_register (r : PartialDescription) (f : HdlRegister → HdlRegister) : PartialDescription :=
  p_set_memory r (memory_regions r) (current_region r) (update_last f (current_registers r)).
Definition parse_register_field (r : PartialDescription) (key value : text) : outcome ParseError PartialDescription :=
  if decide (key = str "size") then
    n ← parse_number value;
    Ok match current_region r with
       | Some g => p_set_memory r (memory_regions r) (Some (mkHdlRegion (region_name g) n (registers g))) (current_registers r)
       | None => r
       end
  else if decide (key = str "offset") then
    n ← parse_number value; Ok (update_register r (λ g, mkRegister (reg_name g) n (reg_width g) (reg_access g) (bits g) (array_size g)))
  else if decide (key = str "width") then
    n ← parse_number value; Ok (update_register r (λ g, mkRegister (reg_name g) (reg_offset g) (n mod 2 ^ 8) (reg_access g) (bits g) (array_size g)))
  else if decide (key = str "array") then
    n ← parse_number value; Ok (update_register r (λ g, mkRegister (reg_name g) (reg_offset g) (reg_width g) (reg_access g) (bits g) n))
  else if decide (key = str "access") then
    match AccessType_from_str value with
    | Some a => Ok (update_register r (λ g, mkRegister (reg_name g) (reg_offset g) (reg_width g) a (bits g) (array_size g)))
    | None => Err (PE_InvalidValue (str "access") value)
    end
  else Ok r.

Definition set_handler (r : PartialDescription) (f : InterruptHandler → InterruptHandler) : PartialDescription :=
  p_set_interrupts r (interrupt_config r) (update_last f (interrupt_handlers r)).
Definition set_handler_name (r : PartialDescription) (value : text) : PartialDescription :=
  set_handler r (λ h, mkHandler (mask h) value (action h)).
Definition set_handler_action (r : PartialDescription) (value : text) : outcome ParseError PartialDescription :=
  a ← parse_irq_action value; Ok (set_handler r (λ h, mkHandler (mask h) (handler_name h) a)).
Definition interrupt_type_of (s : text) : option InterruptType :=
  if decide (s = str "legacy") then Some IT_Legacy
  else if decide (s = str "msi") then Some IT_Msi
  else if decide (s = str "msi-x" ∨ s = str "msix") then Some IT_MsiX
  else if decide (s = str "polling") then Some IT_Polling
  else None.
Definition parse_interrupt_field (r : PartialDescription) (key value : text) : outcome ParseError PartialDescription :=
  if decide (key = str "type") then
    match interrupt_type_of value with
    | Some t => Ok (p_set_interrupts r (Some (mkInterrupts t [])) (interrupt_handlers r))
    | None => Err (PE_InvalidValue (str "interrupt type") value)
    end
  else if decide (key = str "name") then Ok (set_handler_name r value)
  else if decide (key = str "action") then set_handler_action r value
  else Ok r.

Definition parse_operation_field (r : PartialDescription) (key value : text) : PartialDescription :=
  match current_operation r with
  | None => r
  | Some o =>
      let set o := p_set_operations r (p_operations r) (Some o) in
      if decide (key = str "params") then set (mkOperationDef (op_name o) (parse_string_list value) (returns o) (trigger o) (steps o))
      else if decide (key = str "returns") then set (mkOperationDef (op_name o) (params o) (parse_string_list value) (trigger o) (steps o))
      else if decide (key = str "trigger") then
        if starts_with value (str "interrupt.")
        then set (mkOperationDef (op_name o) (params o) (returns o) (Some (T_Interrupt (drop 10 value))) (steps o))
        else r
      else r
  end.

Definition with_result (p : HdlParser) (r : PartialDescription) : HdlParser := mkParser (line_num p) (section p) r.
Definition handle_kv (p : HdlParser) (key value : text) : outcome ParseError HdlParser :=
  match section p with
  | Some S_Device => r ← parse_device_field (result p) key value; Ok (with_result p r)
  | Some S_MemoryMap | Some S_Registers => r ← parse_register_field (result p) key value; Ok (with_result p r)
  | Some S_Interrupts => r ← parse_interrupt_field (result p) key value; Ok (with_result p r)
  | Some S_Operations => Ok (with_result p (parse_operation_field (result p) key value))
  | _ => Ok p
  end.

Definition handler_item (r : PartialDescription) (key value : text) : outcome ParseError PartialDescription :=
  if decide (key = str "mask") then
    n ← parse_number value; Ok (p_set_interrupts r (interrupt_config r) (interrupt_handlers r ++ [mkHandler (n mod 2 ^ 32) [] Acknowledge]))
  else if decide (key = str "name") then Ok (set_handler_name r value)
  else if decide (key = str "action") then set_handler_action r value
  else Ok r.
Definition register_item (r : PartialDescription) (key value : text) : PartialDescription :=
  if decide (key = str "name")
  then p_set_memory r (memory_regions r) (current_region r) (current_registers r ++ [mkRegister value 0 32 ReadWrite [] 1])
  else r.
Definition add_step (r : PartialDescription) (op : option Operation) : PartialDescription :=
  match current_operation r, op with
  | Some o, Some op => p_set_operations r (p_operations r) (Some (mkOperationDef (op_name o) (params o) (returns o) (trigger o) (steps o ++ [op])))
  | _, _ => r
  end.
Definition handle_list_item (p : HdlParser) (item : text) : outcome ParseError HdlParser :=
  let r := result p in
  match section p with
  | Some S_InitSequence =>
      op ← parse_operation_step item;
      Ok (with_result p match op with Some op => p_set_init r (p_init_sequence r ++ [op]) | None => r end)
  | Some S_Operations => op ← parse_operation_step item; Ok (with_result p (add_step r op))
  | Some S_Registers | Some S_MemoryMap =>
      Ok (with_result p match split_kv item with Some (k, v) => register_item r k v | None => r end)
  | Some S_Interrupts =>
      match split_kv item with
      | Some (k, v) => r ← handler_item r k v; Ok (with_result p r)
      | None => Ok p
      end
  | _ => Ok p
  end.

(** ** The parser *)

Definition parse_line (p : HdlParser) (line : text) : outcome ParseError HdlParser :=
  let trimmed := trim line in
  if bool_decide (trimmed = []) || starts_with trimmed (str "#") then Ok p
  else if starts_with trimmed (str "-") then handle_list_item p (trim (drop 1 trimmed))
  else
    match split_kv trimmed with
    | Some (k, v) => handle_kv p k v
    | None => if ends_with_char trimmed 58 then handle_section p (removelast trimmed) else Ok p
    end.

Definition hdl_finalize (p : HdlParser) : outcome ParseError HardwareDescription :=
  let r := finalize_current_section (result p) in
  match p_device r with
  | None => Err (PE_MissingField (str "device"))
  | Some d =>
      Ok (mkDescription d (memory_regions r) (default (mkInterrupts IT_Polling []) (interrupt_config r)) (p_init_sequence r)
        (p_operations r) (p_quirks r))
  end.
Fixpoint parse_lines (p : HdlParser) (ls : list text) : outcome ParseError HardwareDescription :=
  match ls with
  | [] => hdl_finalize p
  | l :: ls => p ← parse_line (mkParser (line_num p + 1) (section p) (result p)) l; parse_lines p ls
  end.
Definition hdl_parse (input : text) : outcome ParseError HardwareDescription := parse_lines HdlParser_new (lines input).
End Parsing.

(** ** The example of the tests *)

Definition nl : text := [10].
Definition test_hdl : text :=
  join nl [str "device:"; str "  name: " ++ [34] ++ str "Test NIC" ++ [34]; str "  vendor_id: 0x10EC"; str "  device_id: 0x8139"; str "  class: network"; [];
    str "memory_map:"; str "  bar0:"; str "    size: 256"; str "    registers:"; str "      - name: COMMAND"; str "        offset: 0x37"; str "        width: 8";
    str "        access: read_write"; str "      - name: STATUS"; str "        offset: 0x38"; str "        width: 16"; str "        access: read_only";
    str "      - name: TX_ADDR"; str "        offset: 0x20"; str "        width: 32"; str "        access: read_write"; [];
    str "init_sequence:"; str "  - write: COMMAND, 0x10"; str "  - wait_ms: 10"; [];
    str "operations:"; str "  send_packet:"; str "    params: [buffer_addr, length]"; str "    steps:"; str "      - write: TX_ADDR, $0";
    str "      - increment: tx_index, mod: 4"].
Definition test_description : HardwareDescription :=
  mkDescription (mkDevice (str "Test NIC") 4332 33081 DC_Network None None None)
    [mkHdlRegion (str "bar0") 256 [mkRegister (str "COMMAND") 55 8 ReadWrite [] 1; mkRegister (str "STATUS") 56 16 ReadOnly [] 1;
       mkRegister (str "TX_ADDR") 32 32 ReadWrite [] 1]]
    (mkInterrupts IT_Polling []) [O_Write (str "COMMAND") (V_Literal 16); O_WaitMs 10]
    {[ str "send_packet" := mkOperationDef (str "send_packet") [str "buffer_addr"; str "length"] [] None
       [O_Write (str "TX_ADDR") (V_Parameter 0); O_Increment (str "tx_index") (Some 4)] ]} [].
Example test_hdl_parses : hdl_parse test_hdl = Ok test_description.
Proof. vm_compute. reflexivity. Qed.

(** A step that is none of the known ones is dropped without a word, and so are the handlers of a
    description that does not say which interrupts it uses. *)
Example unknown_steps_dropped :
  (d ← hdl_parse (join nl [str "device:"; str "  name: x"; str "init_sequence:"; str "  - wirte: COMMAND, 1"; str "  - if: READY == 1"]); Ok (init_sequence d)) = Ok [].
Proof. vm_compute. reflexivity. Qed.
Example handlers_without_type :
  (d ← hdl_parse (join nl [str "device:"; str "  name: x"; str "interrupts:"; str "  handlers:"; str "    - mask: 1"]); Ok (handlers (interrupts d))) = Ok [].
Proof. vm_compute. reflexivity. Qed.
(** Registers before any region belong to none and are lost. *)
Example registers_without_region :
  (d ← hdl_parse (join nl [str "device:"; str "  name: x"; str "memory_map:"; str "  - name: R"; str "init_sequence:"]); Ok (memory_map d)) = Ok [].
Proof. vm_compute. reflexivity. Qed.

(** ** What the parser can produce *)

Definition word (w n : Z) : Prop := 0 ≤ n < 2 ^ w.
Definition parsed_value (v : Value) : Prop :=
  match v with V_Literal n | V_Parameter n => word 64 n | V_Variable _ => True | _ => False end.
Definition parsed_step (o : Operation) : Prop :=
  match o with
  | O_Write _ v => parsed_value v
  | O_Read _ _ | O_Barrier _ => True
  | O_WaitMs n | O_WaitUs n => word 32 n
  | O_Poll _ e m t => word 64 e ∧ m = 2 ^ 64 - 1 ∧ word 32 t
  | O_Increment _ m => match m with Some n => word 64 n | None => True end
  | O_Extract _ _ _ _ | O_If _ _ _ | O_DmaSetup _ _ _ => False
  end.
Definition parsed_register (r : HdlRegister) : Prop := word 64 (reg_offset r) ∧ word 8 (reg_width r) ∧ bits r = [] ∧ word 64 (array_size r).
Definition parsed_operation (o : OperationDef) : Prop := Forall parsed_step (steps o).
Record partial_ok (r : PartialDescription) : Prop := {
  po_regions : Forall (λ g, Forall parsed_register (registers g)) (memory_regions r);
  po_region : match current_region r with Some g => Forall parsed_register (registers g) | None => True end;
  po_registers : Forall parsed_register (current_registers r);
  po_handlers : Forall (λ h, word 32 (mask h)) (interrupt_handlers r);
  po_config : match interrupt_config r with Some c => Forall (λ h, word 32 (mask h)) (handlers c) | None => True end;
  po_init : Forall parsed_step (p_init_sequence r);
  po_operations : map_Forall (λ n o, op_name o = n ∧ parsed_operation o) (p_operations r);
  po_operation : match current_operation r with Some o => parsed_operation o | None => True end;
  po_quirks : p_quirks r = []
}.

Lemma word_mod w n : 0 ≤ w → word w (n mod 2 ^ w).
Proof. intros Hw. apply Z.mod_pos_bound. by apply Z.pow_pos_nonneg. Qed.
Lemma dec_val_range c d : dec_val c = Some d → 0 ≤ d.
Proof. unfold dec_val, is_ascii_digit. case_match; intros [= <-]. rewrite andb_true_iff, !Z.leb_le in *; lia. Qed.
Lemma parse_number_word s n : parse_number s = Ok n → word 64 n.
Proof.
  unfold parse_number, word. destruct (is_hex_number (trim s)).
  - destruct (from_str_radix hex_val _ _ _) eqn:E; [|done]. intros [= <-]. apply from_str_radix_range in E; [lia|intros c d Hd; apply hex_val_range in Hd; lia|lia|lia].
  - destruct (from_str_radix dec_val _ _ _) eqn:E; [|done]. intros [= <-]. apply from_str_radix_range in E; [lia|apply dec_val_range|lia|lia].
Qed.

Lemma parse_value_ok s v : parse_value s = Ok v → parsed_value v.
Proof.
  unfold parse_value. destruct (_ || _).
  - intros (n & Hn & [= <-])%bind_Ok_inv. by eapply parse_number_word.
  - destruct (strip_prefix _ _); [|by intros [= <-]]. destruct (from_str_radix dec_val _ _ _) eqn:E; [|done]. intros [= <-].
    apply from_str_radix_range in E; [cbn; unfold word; lia|apply dec_val_range|lia|lia].
Qed.
Lemma parse_timeout_ok l t : parse_timeout l = Ok t → word 32 t.
Proof.
  assert (H100 : word 32 100) by (unfold word; lia). unfold parse_timeout. destruct l as [|a [|b [|c l]]]; try by intros [= <-].
  destruct (strip_prefix _ _); [|by intros [= <-]]. intros (n & _ & [= <-])%bind_Ok_inv. by apply word_mod.
Qed.
Lemma parse_read_ok s : parsed_step (parse_read s).
Proof. unfold parse_read. destruct (split_once _ _) as [[]|]; [done|]. by destruct (split_once_text _ _) as [[]|]. Qed.
Lemma parse_operation_step_ok s o : parse_operation_step s = Ok (Some o) → parsed_step o.
Proof.
  unfold parse_operation_step. set (t := trim s). clearbody t. clear s.
  destruct (starts_with t (str "write:")).
  { destruct (split_once _ _) as [[reg val]|]; [|done]. intros (v & Hv & [= <-])%bind_Ok_inv. by eapply parse_value_ok. }
  destruct (starts_with t (str "read:")); [intros [= <-]; apply parse_read_ok|].
  destruct (starts_with t (str "wait_ms:")); [intros (n & _ & [= <-])%bind_Ok_inv; by apply word_mod|].
  destruct (starts_with t (str "wait_us:")); [intros (n & _ & [= <-])%bind_Ok_inv; by apply word_mod|].
  destruct (starts_with t (str "poll:")).
  { destruct (split_char _ _) as [|r [|e parts]]; [done..|]. intros (n & Hn & (k & Hk & [= <-])%bind_Ok_inv)%bind_Ok_inv.
    split; [by eapply parse_number_word|]. split; [done|]. by eapply parse_timeout_ok. }
  destruct (starts_with t (str "increment:")).
  { intros (x & Hx & [= <-])%bind_Ok_inv. revert Hx. unfold parse_increment. destruct (split_once _ _) as [[v m]|]; [|by intros [= <-]].
    intros (n & Hn & [= <-])%bind_Ok_inv. by eapply parse_number_word. }
  destruct (starts_with t (str "barrier:")); [by intros [= <-]|done].
Qed.

Lemma update_last_Forall {A} (P : A → Prop) (f : A → A) l : (∀ x, P x → P (f x)) → Forall P l → Forall P (update_last f l).
Proof.
  intros Hf. induction 1 as [|x l Hx Hl IH]; [done|]. destruct l as [|y l]; [by constructor; [apply Hf|]|]. by constructor.
Qed.

Lemma finish_operation_ok r : partial_ok r → partial_ok (finish_operation r).
Proof.
  intros H. unfold finish_operation. pose proof (po_operation r H) as Ho. destruct (current_operation r) as [o|]; [|done].
  destruct H. split; cbn; try done. by apply map_Forall_insert_2.
Qed.
Lemma finalize_current_section_ok r : partial_ok r → partial_ok (finalize_current_section r).
Proof.
  intros H. unfold finalize_current_section. set (r1 := match current_registers r with [] => r | _ => _ end).
  assert (H1 : partial_ok r1).
  { unfold r1. pose proof (po_registers r H) as Hr. pose proof (po_region r H) as Hg. destruct (current_registers r) as [|x l] eqn:E; [done|].
    destruct (current_region r) as [g|] eqn:Eg; [|done]. destruct H. split; cbn; try done. by apply Forall_app. }
  clearbody r1. clear H r. set (r2 := match current_region r1 with Some _ => _ | None => r1 end).
  assert (H2 : partial_ok r2).
  { unfold r2. pose proof (po_region r1 H1) as Hg. destruct (current_region r1) as [g|] eqn:Eg; [|done]. destruct H1. split; cbn; try done.
    apply Forall_app. split; [done|]. by repeat constructor. }
  apply finish_operation_ok in H2. set (r3 := finish_operation r2) in *. clearbody r3.
  pose proof (po_handlers r3 H2) as Hh. pose proof (po_config r3 H2) as Hc. destruct (interrupt_handlers r3) as [|h hs] eqn:E; [done|].
  destruct (interrupt_config r3) as [c|] eqn:Ec; [|done]. destruct H2. split; cbn; try done. by apply Forall_app.
Qed.

Lemma handle_section_ok p name p' : partial_ok (result p) → handle_section p name = Ok p' → partial_ok (result p').
Proof.
  intros H. unfold handle_section. destruct (is_subsection _ _); [by intros [= <-]|].
  apply finalize_current_section_ok in H. set (r := finalize_current_section (result p)) in *. clearbody r.
  destruct (section_of_name name) as [sec|]; [by intros [= <-]|].
  destruct (section p) as [[]|]; try done; intros [= <-]; cbn [result].
  - pose proof (po_region r H) as Hg. destruct H. split; cbn; try done. destruct (current_region r) as [g|]; [|done].
    apply Forall_app. split; [done|]. by repeat constructor.
  - apply finish_operation_ok in H. destruct H. split; cbn; try done. constructor.
Qed.

Section ParsingFacts.
Context `{Lowercase}.

Lemma parse_device_field_ok r k v r' : partial_ok r → parse_device_field r k v = Ok r' → partial_ok r'.
Proof.
  intros Hr. unfold parse_device_field. destruct (default DeviceInfo_empty (p_device r)) as [nm vid did cls sv sd rv].
  assert (Hs : ∀ d, partial_ok (p_set_device r d)) by (intros d; destruct Hr; by split).
  repeat case_decide; try (by intros [= <-]); try (intros (n & _ & [= <-])%bind_Ok_inv; apply Hs).
  destruct (DeviceClass_from_str v); [|done]. intros [= <-]. apply Hs.
Qed.
Lemma update_register_ok r f : (∀ g, parsed_register g → parsed_register (f g)) → partial_ok r → partial_ok (update_register r f).
Proof. intros Hf []. split; cbn; try done. by apply update_last_Forall. Qed.
Lemma parse_register_field_ok r k v r' : partial_ok r → parse_register_field r k v = Ok r' → partial_ok r'.
Proof.
  intros Hr. unfold parse_register_field. repeat case_decide.
  - intros (n & _ & [= <-])%bind_Ok_inv. pose proof (po_region r Hr) as Hg. destruct (current_region r) as [g|]; [|done]. destruct Hr. by split.
  - intros (n & Hn%parse_number_word & [= <-])%bind_Ok_inv. apply update_register_ok; [|done]. intros g Hg. unfold parsed_register in *. cbn. tauto.
  - intros (n & _ & [= <-])%bind_Ok_inv. apply update_register_ok; [|done]. intros g (? & ? & ? & ?). split; [done|]. split; [by apply word_mod|done].
  - intros (n & Hn%parse_number_word & [= <-])%bind_Ok_inv. apply update_register_ok; [|done]. intros g Hg. unfold parsed_register in *. cbn. tauto.
  - destruct (AccessType_from_str v); [|done]. intros [= <-]. by apply update_register_ok.
  - by intros [= <-].
Qed.
Lemma set_handler_ok r f : (∀ h, word 32 (mask h) → word 32 (mask (f h))) → partial_ok r → partial_ok (set_handler r f).
Proof. intros Hf []. split; cbn; try done. by apply update_last_Forall. Qed.
Lemma set_handler_action_ok r v r' : partial_ok r → set_handler_action r v = Ok r' → partial_ok r'.
Proof. intros Hr (a & _ & [= <-])%bind_Ok_inv. by apply set_handler_ok. Qed.
Lemma parse_interrupt_field_ok r k v r' : partial_ok r → parse_interrupt_field r k v = Ok r' → partial_ok r'.
Proof.
  intros Hr. unfold parse_interrupt_field. repeat case_decide.
  - destruct (interrupt_type_of v); [|done]. intros [= <-]. destruct Hr. split; cbn; try done; constructor.
  - intros [= <-]. by apply set_handler_ok.
  - by apply set_handler_action_ok.
  - by intros [= <-].
Qed.
Lemma parse_operation_field_ok r k v : partial_ok r → partial_ok (parse_operation_field r k v).
Proof.
  intros Hr. unfold parse_operation_field. pose proof (po_operation r Hr) as Ho. destruct (current_operation r) as [o|]; [|done].
  assert (Hs : ∀ o', parsed_operation o' → partial_ok (p_set_operations r (p_operations r) (Some o'))) by (intros o' Ho'; destruct Hr; by split).
  repeat case_decide; try destruct (starts_with _ _); try done; by apply Hs.
Qed.
Lemma handle_kv_ok p k v p' : partial_ok (result p) → handle_kv p k v = Ok p' → partial_ok (result p').
Proof.
  intros Hp. unfold handle_kv. destruct (section p) as [[]|]; try (by intros [= <-]); try (intros (r & Hr & [= <-])%bind_Ok_inv; cbn [with_result result]).
  - by eapply parse_device_field_ok.
  - by eapply parse_register_field_ok.
  - by eapply parse_register_field_ok.
  - by eapply parse_interrupt_field_ok.
  - intros [= <-]. by apply parse_operation_field_ok.
Qed.
Lemma handler_item_ok r k v r' : partial_ok r → handler_item r k v = Ok r' → partial_ok r'.
Proof.
  intros Hr. unfold handler_item. repeat case_decide.
  - intros (n & _ & [= <-])%bind_Ok_inv. destruct Hr. split; cbn; try done. apply Forall_app. split; [done|]. repeat constructor; by apply word_mod.
  - intros [= <-]. by apply set_handler_ok.
  - by apply set_handler_action_ok.
  - by intros [= <-].
Qed.
Lemma register_item_ok r k v : partial_ok r → partial_ok (register_item r k v).
Proof.
  intros Hr. unfold register_item. case_decide; [|done]. destruct Hr. split; cbn; try done. apply Forall_app. split; [done|].
  constructor; [|constructor]. unfold parsed_register, word. cbn. split_and!; (done || lia).
Qed.
Lemma handle_list_item_ok p item p' : partial_ok (result p) → handle_list_item p item = Ok p' → partial_ok (result p').
Proof.
  intros Hp. unfold handle_list_item. destruct (section p) as [[]|]; try (by intros [= <-]).
  - intros [= <-]. cbn. destruct (split_kv item) as [[]|]; [by apply register_item_ok|done].
  - intros [= <-]. cbn. destruct (split_kv item) as [[]|]; [by apply register_item_ok|done].
  - destruct (split_kv item) as [[]|]; [|by intros [= <-]]. intros (r & Hr & [= <-])%bind_Ok_inv. by eapply handler_item_ok.
  - intros (o & Ho & [= <-])%bind_Ok_inv. cbn. destruct o as [o|]; [|done]. apply parse_operation_step_ok in Ho. destruct Hp. split; cbn; try done.
    apply Forall_app. split; [done|]. by repeat constructor.
  - intros (o & Ho & [= <-])%bind_Ok_inv. cbn. unfold add_step. pose proof (po_operation _ Hp) as Hc. destruct (current_operation _) as [c|]; [|done].
    destruct o as [o|]; [|done]. apply parse_operation_step_ok in Ho. destruct Hp. split; cbn; try done.
    unfold parsed_operation. cbn. apply Forall_app. split; [done|]. by repeat constructor.
Qed.
Lemma parse_line_ok p l p' : partial_ok (result p) → parse_line p l = Ok p' → partial_ok (result p').
Proof.
  intros Hp. unfold parse_line. destruct (_ || _); [by intros [= <-]|]. destruct (starts_with _ _); [by apply handle_list_item_ok|].
  destruct (split_kv _) as [[k v]|]; [by apply handle_kv_ok|]. destruct (ends_with_char _ _); [by apply handle_section_ok|by intros [= <-]].
Qed.

(** A description that was parsed has no quirks, only simple steps with values in their ranges, each operation under its own name, and
    registers whose fields fit their types. *)
Lemma hdl_parse_shape s d : hdl_parse s = Ok d →
  quirks d = [] ∧ Forall parsed_step (init_sequence d) ∧ map_Forall (λ n o, op_name o = n ∧ parsed_operation o) (operations d) ∧
  Forall (λ g, Forall parsed_register (registers g)) (memory_map d) ∧ Forall (λ h, word 32 (mask h)) (handlers (interrupts d)).
Proof.
  unfold hdl_parse. assert (H0 : partial_ok (result HdlParser_new)) by (split; try done; try constructor; apply map_Forall_empty).
  revert H0. generalize HdlParser_new. generalize (lines s). intros ls. induction ls as [|l ls IH]; intros p Hp; cbn [parse_lines].
  - unfold hdl_finalize. apply finalize_current_section_ok in Hp. destruct (p_device _); [|done]. intros [= <-]. cbn. destruct Hp. split_and!; try done.
    by destruct (interrupt_config _).
  - intros (p' & Hl & Hr)%bind_Ok_inv. eapply IH; [|exact Hr]. by eapply (parse_line_ok (mkParser _ _ _)).
Qed.
End ParsingFacts.
