(* ===== verification/Driver.v ===== *)
(** * The universal driver (axiom-hal/src/universal/engine.rs)

    A driver interprets a hardware description: named registers, state variables, sequences of
    operations.  The memory-mapped device is an accessor, a class; the simulated memory of the
    source is one instance, and one that records what it is asked is used to state what a
    driver touches. *)

From stdpp Require Import base numbers list gmap strings.
From S2P Require Import Prelude Types Text Scan Policy Approval Hdl.

(** ** Devices *)

(** The trait's functions by width in bits.  A read may change the device and gives a value of its width. *)
Class MmioAccessor (S : Type) := {
  mm_read : Z → Z → S → S * Z;
  mm_write : Z → Z → Z → S → S
}.
Definition SimulatedMmio := gmap Z Z.
#[export] Instance SimulatedMmio_accessor : MmioAccessor SimulatedMmio := {|
  mm_read w offset m := (m, Z.land (default 0 (m !! offset)) (2 ^ w - 1));
  mm_write w offset v m := <[offset := v]> m
|}.

Record DriverStats := mkDriverStats { ds_reads : Z; ds_writes : Z; ds_interrupts : Z; ds_operations : Z; ds_errors : Z }.
Definition DriverStats_default : DriverStats := mkDriverStats 0 0 0 0 0.
Record UniversalDriver (S : Type) := mkDriver {
  description : HardwareDescription; state : gmap text Z; register_cache : gmap text Z; initialized : bool; driver_stats : DriverStats; mmio : option S
}.
Arguments mkDriver {S} _ _ _ _ _ _.
Arguments description {S} _.
Arguments state {S} _.
Arguments register_cache {S} _.
Arguments initialized {S} _.
Arguments driver_stats {S} _.
Arguments mmio {S} _.

Section Engine.
Context {S : Type} `{MmioAccessor S}.
Implicit Types d : UniversalDriver S.

Definition dr_set_state d m : UniversalDriver S := mkDriver (description d) m (register_cache d) (initialized d) (driver_stats d) (mmio d).
Definition dr_set_cache d m : UniversalDriver S := mkDriver (description d) (state d) m (initialized d) (driver_stats d) (mmio d).
Definition dr_set_initialized d : UniversalDriver S := mkDriver (description d) (state d) (register_cache d) true (driver_stats d) (mmio d).
Definition dr_set_stats d s : UniversalDriver S := mkDriver (description d) (state d) (register_cache d) (initialized d) s (mmio d).
Definition dr_set_mmio d m : UniversalDriver S := mkDriver (description d) (state d) (register_cache d) (initialized d) (driver_stats d) m.
Definition count_read (s : DriverStats) := mkDriverStats (u64_add (ds_reads s) 1) (ds_writes s) (ds_interrupts s) (ds_operations s) (ds_errors s).
Definition count_write (s : DriverStats) := mkDriverStats (ds_reads s) (u64_add (ds_writes s) 1) (ds_interrupts s) (ds_operations s) (ds_errors s).
Definition count_interrupt (s : DriverStats) := mkDriverStats (ds_reads s) (ds_writes s) (u64_add (ds_interrupts s) 1) (ds_operations s) (ds_errors s).
Definition count_operation (s : DriverStats) := mkDriverStats (ds_reads s) (ds_writes s) (ds_interrupts s) (u64_add (ds_operations s) 1) (ds_errors s).

Definition from_description (h : HardwareDescription) : UniversalDriver S := mkDriver h ∅ ∅ false DriverStats_default None.
Definition from_hdl `{Lowercase} (hdl : text) : outcome ParseError (UniversalDriver S) := h ← hdl_parse hdl; Ok (from_description h).
Definition attach_mmio d (s : S) : UniversalDriver S := dr_set_mmio d (Some s).

(** What a driver function does: the driver it leaves and its result. *)
Definition driving (A : Type) := UniversalDriver S → UniversalDriver S * outcome DriverError A.
Definition dr_ret {A} (a : A) : driving A := λ d, (d, Ok a).
Definition dr_err {A} (e : DriverError) : driving A := λ d, (d, Err e).
Definition dr_bind {A B} (m : driving A) (k : A → driving B) : driving B :=
  λ d, match m d with (d, Ok a) => k a d | (d, Err e) => (d, Err e) | (d, Panic) => (d, Panic) end.
#[local] Notation "'let!' x := m 'in' k" := (dr_bind m (λ x, k)) (at level 10, x binder, m at level 100, k at level 200).
Definition dr_modify (f : UniversalDriver S → UniversalDriver S) : driving unit := λ d, (f d, Ok tt).
Definition dr_state (name : text) : driving (option Z) := λ d, (d, Ok (state d !! name)).
Definition dr_put (name : text) (v : Z) : driving unit := dr_modify (λ d, dr_set_state d (<[name := v]> (state d))).

(** ** Registers *)

Definition base_name (name : text) : text := default name (head (split_char 46 name)).
Definition lookup_register (h : HardwareDescription) (name : text) : option HdlRegister :=
  first_some (λ g, snd <$> list_find (λ r, reg_name r = base_name name) (registers g)) (memory_map h).
Definition find_register (name : text) : driving HdlRegister := λ d,
  match lookup_register (description d) name with
  | Some r => (d, Ok r)
  | None => (d, Err (DE_OperationFailed (str "find_register") (str "Unknown register: " ++ name)))
  end.
Definition mmio_width (w : Z) : bool := bool_decide (w ∈ [8; 16; 32; 64]).
Definition cached (name : text) : driving Z := λ d, (d, Ok (default 0 (register_cache d !! name))).
Definition device_read (r : HdlRegister) (name : text) : driving Z := λ d,
  match mmio d with
  | Some s => if mmio_width (reg_width r) then let '(s, v) := mm_read (reg_width r) (reg_offset r) s in (dr_set_mmio d (Some s), Ok v) else cached name d
  | None => cached name d
  end.
Definition read_register (name : text) : driving Z :=
  let! _ := dr_modify (λ d, dr_set_stats d (count_read (driver_stats d))) in
  let! r := find_register name in
  device_read r name.

Definition device_write (r : HdlRegister) (v : Z) : driving unit := dr_modify (λ d,
  match mmio d with
  | Some s => if mmio_width (reg_width r) then dr_set_mmio d (Some (mm_write (reg_width r) (reg_offset r) (v mod 2 ^ reg_width r) s)) else d
  | None => d
  end).
Definition write_register (name : text) (v : Z) : driving unit :=
  let! _ := dr_modify (λ d, dr_set_stats d (count_write (driver_stats d))) in
  let! r := find_register name in
  if decide (reg_access r = ReadOnly) then dr_err (DE_OperationFailed (str "write") (str "Register " ++ name ++ str " is read-only"))
  else
    let! _ := dr_modify (λ d, dr_set_cache d (<[name := v]> (register_cache d))) in
    device_write r v.

(** ** Values and conditions *)

Definition param_name (i : Z) : text := str "$param" ++ fmt_int i.
(** A shift by 64 or more takes its amount modulo 64, as a release build does. *)
Definition u64_shl (v n : Z) : Z := Z.shiftl v (n mod 64) mod 2 ^ 64.
Definition u64_shr (v n : Z) : Z := Z.shiftr v (n mod 64).
Definition known (name : text) (o : option Z) : driving Z := match o with Some v => dr_ret v | None => dr_err (DE_InvalidParameter name) end.
Fixpoint evaluate_value (v : Value) : driving Z :=
  match v with
  | V_Literal n => dr_ret n
  | V_Variable name => let! o := dr_state name in known name o
  | V_Parameter i => let! o := dr_state (param_name i) in known (param_name i) o
  | V_Register name => read_register name
  | V_Or a b => let! x := evaluate_value a in let! y := evaluate_value b in dr_ret (Z.lor x y)
  | V_And a b => let! x := evaluate_value a in let! y := evaluate_value b in dr_ret (Z.land x y)
  | V_Shl a n => let! x := evaluate_value a in dr_ret (u64_shl x n)
  | V_Shr a n => let! x := evaluate_value a in dr_ret (u64_shr x n)
  end.
Definition compare (f : Z → Z → bool) (a b : Value) : driving bool :=
  let! x := evaluate_value a in let! y := evaluate_value b in dr_ret (f x y).
Fixpoint evaluate_condition (c : Condition) : driving bool :=
  match c with
  | C_Eq a b => compare Z.eqb a b
  | C_Ne a b => compare (λ x y, negb (x =? y)) a b
  | C_Lt a b => compare Z.ltb a b
  | C_Gt a b => compare Z.gtb a b
  | C_BitSet v n => let! x := evaluate_value v in dr_ret (Z.land (u64_shr x n) 1 =? 1)
  | C_BitClear v n => let! x := evaluate_value v in dr_ret (Z.land (u64_shr x n) 1 =? 0)
  | C_And a b => let! x := evaluate_condition a in if x then evaluate_condition b else dr_ret false
  | C_Or a b => let! x := evaluate_condition a in if x then dr_ret true else evaluate_condition b
  end.

(** ** Operations *)

(** [tries] reads of a register until it shows the expected bits. *)
Fixpoint poll (tries : nat) (register : text) (expected pmask : Z) : driving unit :=
  match tries with
  | O => dr_err (DE_Timeout (str "poll " ++ register))
  | Datatypes.S tries =>
      let! v := read_register register in
      if Z.land v pmask =? Z.land expected pmask then dr_ret tt else poll tries register expected pmask
  end.
Definition poll_tries (timeout_ms : Z) : nat := Z.to_nat (Z.max (timeout_ms / 10) 1).

(** A remainder by zero panics; the sum and the widths wrap. *)
Definition increment (variable : text) (modulo : option Z) : driving unit :=
  let! o := dr_state variable in
  let next := u64_add (default 0 o) 1 in
  match modulo with
  | Some m => if m =? 0 then λ d, (d, Panic) else dr_put variable (next mod m)
  | None => dr_put variable next
  end.
Definition extract (from : text) (high_bit low_bit : Z) (into : text) : driving unit :=
  let! o := dr_state from in
  let width := (high_bit - low_bit + 1) mod 256 in
  let bits_mask := (u64_shl 1 width - 1) mod 2 ^ 64 in
  dr_put into (Z.land (u64_shr (default 0 o) low_bit) bits_mask).

Fixpoint run_all {A} (f : A → driving unit) (l : list A) : driving unit :=
  match l with [] => dr_ret tt | x :: l => let! _ := f x in run_all f l end.
Fixpoint execute_operation (op : Operation) : driving unit :=
  match op with
  | O_Write register value => let! v := evaluate_value value in write_register register v
  | O_Read register into =>
      let! v := read_register register in
      match into with Some name => dr_put name v | None => dr_ret tt end
  | O_WaitMs _ | O_WaitUs _ | O_Barrier _ | O_DmaSetup _ _ _ => dr_ret tt
  | O_Poll register expected pmask timeout_ms => poll (poll_tries timeout_ms) register expected pmask
  | O_Increment variable modulo => increment variable modulo
  | O_Extract from high_bit low_bit into => extract from high_bit low_bit into
  | O_If condition then_ops else_ops =>
      let! b := evaluate_condition condition in
      if b then run_all execute_operation then_ops else run_all execute_operation else_ops
  end.

(** ** Quirks *)

Fixpoint quirk_applies (i : DeviceInfo) (c : QuirkCondition) : bool :=
  match c with
  | Q_Always => true
  | Q_RevisionLt r => match revision i with Some x => x <? r | None => false end
  | Q_RevisionGe r => match revision i with Some x => r <=? x | None => false end
  | Q_SubsystemVendor v => bool_decide (subsystem_vendor i = Some v)
  | Q_SubsystemDevice v => bool_decide (subsystem_device i = Some v)
  | Q_And a b => quirk_applies i a && quirk_applies i b
  | Q_Or a b => quirk_applies i a || quirk_applies i b
  end.
Definition insert_at {A} (i : nat) (x : A) (l : list A) : list A := take i l ++ x :: drop i l.
Definition apply_quirk (ops : list Operation) (a : QuirkApply) : list Operation :=
  match a with
  | QA_InsertAfter i op => if i <? len ops then insert_at (Datatypes.S (Z.to_nat i)) op ops else ops
  | QA_InsertBefore i op => if i <? len ops then insert_at (Z.to_nat i) op ops else ops
  | QA_Replace i op => if i <? len ops then <[Z.to_nat i := op]> ops else ops
  | QA_AddDelay i ms => if i <? len ops then insert_at (Datatypes.S (Z.to_nat i)) (O_WaitMs ms) ops else ops
  | QA_ModifyRegister _ _ | QA_ModifyInterruptMask _ _ => ops
  end.
Definition apply_quirks_to_sequence (h : HardwareDescription) (ops : list Operation) : list Operation :=
  foldl (λ ops q, if quirk_applies (device h) (q_condition q) then foldl apply_quirk ops (apply_list q) else ops) ops (quirks h).

(** ** What a caller can ask for *)

Definition initialize : driving unit := λ d,
  if initialized d then (d, Ok tt)
  else
    (let! _ := run_all execute_operation (apply_quirks_to_sequence (description d) (init_sequence (description d))) in
     dr_modify dr_set_initialized) d.
Definition set_params (values : list Z) : driving unit := run_all (λ iv, dr_put (param_name (Z.of_nat iv.1)) iv.2) (imap pair values).
Definition execute (op_name : text) (values : list Z) : driving (list Z) := λ d,
  match operations (description d) !! op_name with
  | None => (d, Err (DE_OperationFailed op_name (str "Unknown operation")))
  | Some def =>
      (let! _ := set_params values in
       let! _ := run_all execute_operation (steps def) in
       λ d, (dr_set_stats d (count_operation (driver_stats d)), Ok (omap (λ name, state d !! name) (returns def)))) d
  end.
Definition handle_interrupt d (irq_status : Z) : UniversalDriver S * list IrqAction :=
  (dr_set_stats d (count_interrupt (driver_stats d)),
   action <$> filter (λ h, Z.land irq_status (mask h) ≠ 0) (handlers (interrupts (description d)))).
Definition set_state d (name : text) (v : Z) : UniversalDriver S := dr_set_state d (<[name := v]> (state d)).
Definition get_state d (name : text) : option Z := state d !! name.
End Engine.

(** ** What a driver touches *)

(** A device that records what it is asked, newest first. *)
Inductive access := A_Read (w offset : Z) | A_Write (w offset value : Z).
Definition Logged (S : Type) := (S * list access)%type.
#[export] Instance Logged_accessor {S} `{MmioAccessor S} : MmioAccessor (Logged S) := {|
  mm_read w offset s := let '(t, v) := mm_read w offset s.1 in ((t, A_Read w offset :: s.2), v);
  mm_write w offset v s := (mm_write w offset v s.1, A_Write w offset v :: s.2)
|}.

(** The accesses a description allows: to a declared register at its width, and no write to one that
    is read-only. *)
Definition declared (h : HardwareDescription) (r : HdlRegister) : Prop := ∃ g, g ∈ memory_map h ∧ r ∈ registers g.
Definition allowed (h : HardwareDescription) (a : access) : Prop :=
  match a with
  | A_Read w offset => ∃ r, declared h r ∧ mmio_width w = true ∧ reg_width r = w ∧ reg_offset r = offset
  | A_Write w offset v => ∃ r, declared h r ∧ mmio_width w = true ∧ reg_width r = w ∧ reg_offset r = offset ∧ reg_access r ≠ ReadOnly ∧ 0 ≤ v < 2 ^ w
  end.
Lemma lookup_register_declared h name r : lookup_register h name = Some r → declared h r ∧ reg_name r = base_name name.
Proof.
  unfold lookup_register, declared. induction (memory_map h) as [|g l IH]; cbn; [done|].
  destruct (list_find _ (registers g)) as [[i x]|] eqn:E; cbn.
  - intros [= <-]. apply list_find_Some in E as (E & Hn & _). split; [|done]. exists g. split; [by left|by eapply list_elem_of_lookup_2].
  - intros ((g' & Hg & Hr) & Hn)%IH. split; [|done]. exists g'. split; [by right|done].
Qed.

(** The most register accesses a step can make. *)
Fixpoint value_cost (v : Value) : nat :=
  match v with
  | V_Register _ => 1
  | V_Or a b | V_And a b => value_cost a + value_cost b
  | V_Shl a _ | V_Shr a _ => value_cost a
  | _ => 0
  end.
Fixpoint condition_cost (c : Condition) : nat :=
  match c with
  | C_Eq a b | C_Ne a b | C_Lt a b | C_Gt a b => value_cost a + value_cost b
  | C_BitSet v _ | C_BitClear v _ => value_cost v
  | C_And a b | C_Or a b => condition_cost a + condition_cost b
  end.
Fixpoint operation_cost (o : Operation) : nat :=
  match o with
  | O_Write _ v => S (value_cost v)
  | O_Read _ _ => 1
  | O_Poll _ _ _ t => poll_tries t
  | O_If c a b => condition_cost c + list_sum (map operation_cost a) + list_sum (map operation_cost b)
  | _ => 0
  end.
Definition operations_cost (l : list Operation) : nat := list_sum (map operation_cost l).

(** Steps with a modulus of zero panic; nothing else does. *)
Fixpoint no_zero_modulus (o : Operation) : bool :=
  match o with
  | O_Increment _ (Some m) => negb (m =? 0)
  | O_If _ a b => forallb no_zero_modulus a && forallb no_zero_modulus b
  | _ => true
  end.

Lemma mmio_width_pos w : mmio_width w = true → 0 ≤ w.
Proof. unfold mmio_width. rewrite bool_decide_eq_true, !elem_of_cons, elem_of_nil. lia. Qed.

Definition Operation_nested_ind (P : Operation → Prop)
    (Hs : ∀ o, match o with O_If _ _ _ => False | _ => True end → P o) (Hif : ∀ c a b, Forall P a → Forall P b → P (O_If c a b)) : ∀ o, P o :=
  fix go o :=
    let all := fix all l : Forall P l := match l with [] => Forall_nil_2 P | x :: l => Forall_cons_2 P x l (go x) (all l) end in
    match o with
    | O_Write r v => Hs (O_Write r v) I
    | O_Read r i => Hs (O_Read r i) I
    | O_WaitMs n => Hs (O_WaitMs n) I
    | O_WaitUs n => Hs (O_WaitUs n) I
    | O_Poll r e m t => Hs (O_Poll r e m t) I
    | O_Increment v m => Hs (O_Increment v m) I
    | O_Extract f h l i => Hs (O_Extract f h l i) I
    | O_If c a b => Hif c a b (all a) (all b)
    | O_Barrier b => Hs (O_Barrier b) I
    | O_DmaSetup x y z => Hs (O_DmaSetup x y z) I
    end.

Section Confinement.
Context {S : Type} `{MmioAccessor S}.
Implicit Types d : UniversalDriver (Logged S).

(** From a driver to what it becomes: the same description, and at most [n] more accesses, all allowed.  [p]: no panic. *)
Definition confined_from (n : nat) d d' : Prop :=
  description d' = description d ∧
  match mmio d, mmio d' with
  | Some s, Some s' => ∃ l, s'.2 = l ++ s.2 ∧ (length l <= n)%nat ∧ Forall (allowed (description d)) l
  | None, None => True
  | _, _ => False
  end.
Definition within {A} (n : nat) (p : bool) (m : driving (S:=Logged S) A) : Prop :=
  ∀ d, confined_from n d (m d).1 ∧ (p = true → (m d).2 ≠ Panic).

Lemma confined_refl n d : confined_from n d d.
Proof. split; [done|]. destruct (mmio d) as [s|]; [|done]. exists []. split; [done|]. split; [cbn; lia|done]. Qed.
Lemma confined_trans n m d1 d2 d3 : confined_from n d1 d2 → confined_from m d2 d3 → confined_from (n + m) d1 d3.
Proof.
  intros [E1 H1] [E2 H2]. split; [congruence|]. destruct (mmio d1) as [s1|], (mmio d2) as [s2|], (mmio d3) as [s3|]; try done.
  destruct H1 as (l1 & El1 & Hl1 & Hf1), H2 as (l2 & El2 & Hl2 & Hf2). exists (l2 ++ l1). rewrite El2, El1, app_assoc, length_app.
  split; [done|]. split; [lia|]. apply Forall_app. split; [by rewrite <- E1|done].
Qed.
Lemma confined_weaken n m d d' : (n <= m)%nat → confined_from n d d' → confined_from m d d'.
Proof. intros Hn [E H1]. split; [done|]. destruct (mmio d) as [s|], (mmio d') as [s'|]; try done. destruct H1 as (l & ? & ? & ?). exists l. split_and!; (done || lia). Qed.

Lemma within_weaken {A} n m p q (k : driving (S:=Logged S) A) : (n <= m)%nat → (q = true → p = true) → within n p k → within m q k.
Proof. intros Hn Hp Hk d. destruct (Hk d) as [H1 H2]. split; [by eapply confined_weaken|]. intros Hq. by apply H2, Hp. Qed.
Lemma within_ret {A} (a : A) n p : within n p (dr_ret a).
Proof. intros d. split; [apply confined_refl|done]. Qed.
Lemma within_err {A} e n p : within n p (dr_err (A:=A) e).
Proof. intros d. split; [apply confined_refl|done]. Qed.
Lemma within_bind {A B} n m p (k : driving (S:=Logged S) A) (f : A → driving B) :
  within n p k → (∀ a, within m p (f a)) → within (n + m) p (dr_bind k f).
Proof.
  intros Hk Hf d. unfold dr_bind. destruct (Hk d) as [H1 H2]. destruct (k d) as [d1 [a|e|]]; cbn [fst snd] in *.
  - destruct (Hf a d1) as [H3 H4]. split; [by eapply confined_trans|done].
  - split; [eapply confined_weaken; [|exact H1]; lia|done].
  - split; [eapply confined_weaken; [|exact H1]; lia|intros Hp; by destruct (H2 Hp)].
Qed.
Lemma within_modify f : (∀ d, description (f d) = description d ∧ mmio (f d) = mmio d) → within 0 true (dr_modify f).
Proof.
  intros Hf d. destruct (Hf d) as [E1 E2]. split; [|done]. cbn [dr_modify fst]. pose proof (confined_refl 0 d) as [_ H1].
  split; [done|]. by rewrite E2.
Qed.
Lemma within_state name n p : within n p (dr_state name).
Proof. intros d. split; [apply confined_refl|done]. Qed.
Lemma within_put name v : within 0 true (dr_put (S:=Logged S) name v).
Proof. by apply within_modify. Qed.

Lemma within_read name : within 1 true (read_register (S:=Logged S) name).
Proof.
  intros d. unfold read_register, dr_bind, dr_modify, find_register. cbn [dr_set_stats description].
  destruct (lookup_register (description d) name) as [r|] eqn:E; [|split; [exact (confined_refl 1 d)|done]].
  apply lookup_register_declared in E as [Hd _]. unfold device_read, cached. cbn [dr_set_stats mmio register_cache].
  pose proof (confined_refl 1 d) as Hr. destruct (mmio d) as [s|] eqn:Em; [|split; [|done]; split; [done|]; cbn; by rewrite Em].
  destruct (mmio_width (reg_width r)) eqn:Ew; [|split; [|done]; split; [done|]; cbn; rewrite Em; exists []; split; [done|]; split; [cbn; lia|done]].
  cbn. destruct (mm_read _ _ s.1) as [t v]. split; [|done]. split; [done|]. cbn. rewrite Em. exists [A_Read (reg_width r) (reg_offset r)].
  split; [done|]. split; [done|]. constructor; [|done]. by exists r.
Qed.

Lemma within_write name v : within 1 true (write_register (S:=Logged S) name v).
Proof.
  intros d. unfold write_register, dr_bind, dr_modify, find_register. cbn [dr_set_stats description].
  destruct (lookup_register (description d) name) as [r|] eqn:E; [|split; [exact (confined_refl 1 d)|done]].
  apply lookup_register_declared in E as [Hd _]. case_decide as Ha; [split; [exact (confined_refl 1 d)|done]|].
  unfold device_write, dr_modify. cbn [dr_set_cache dr_set_stats mmio fst snd]. split; [|done]. pose proof (confined_refl 1 d) as Hr.
  destruct (mmio d) as [s|] eqn:Em; [|split; [done|]; cbn; by rewrite Em].
  destruct (mmio_width (reg_width r)) eqn:Ew; [|split; [done|]; cbn; rewrite Em; exists []; split; [done|]; split; [cbn; lia|done]].
  split; [done|]. cbn. rewrite Em. exists [A_Write (reg_width r) (reg_offset r) (v mod 2 ^ reg_width r)]. split; [done|]. split; [done|].
  constructor; [|done]. exists r. split; [done|]. split; [done|]. split; [done|]. split; [done|]. split; [done|].
  apply Z.mod_pos_bound, Z.pow_pos_nonneg; [lia|by apply mmio_width_pos].
Qed.

Lemma within_value v : within (value_cost v) true (evaluate_value (S:=Logged S) v).
Proof.
  induction v as [n|name|i|name|a IHa b IHb|a IHa b IHb|a IHa n|a IHa n]; cbn [evaluate_value value_cost].
  - apply within_ret.
  - apply (within_bind 0 0); [apply within_state|]. intros [x|]; [apply within_ret|apply within_err].
  - apply (within_bind 0 0); [apply within_state|]. intros [x|]; [apply within_ret|apply within_err].
  - apply within_read.
  - apply within_bind; [done|]. intros x. rewrite <- (Nat.add_0_r (value_cost b)). apply within_bind; [done|]. intros y. apply within_ret.
  - apply within_bind; [done|]. intros x. rewrite <- (Nat.add_0_r (value_cost b)). apply within_bind; [done|]. intros y. apply within_ret.
  - rewrite <- (Nat.add_0_r (value_cost a)). apply within_bind; [done|]. intros x. apply within_ret.
  - rewrite <- (Nat.add_0_r (value_cost a)). apply within_bind; [done|]. intros x. apply within_ret.
Qed.
Lemma within_compare f a b : within (value_cost a + value_cost b) true (compare (S:=Logged S) f a b).
Proof.
  apply within_bind; [apply within_value|]. intros x. rewrite <- (Nat.add_0_r (value_cost b)). apply within_bind; [apply within_value|].
  intros y. apply within_ret.
Qed.
Lemma within_condition c : within (condition_cost c) true (evaluate_condition (S:=Logged S) c).
Proof.
  induction c as [a b|a b|a b|a b|v n|v n|a IHa b IHb|a IHa b IHb]; cbn [evaluate_condition condition_cost]; try apply within_compare.
  - rewrite <- (Nat.add_0_r (value_cost v)). apply within_bind; [apply within_value|]. intros x. apply within_ret.
  - rewrite <- (Nat.add_0_r (value_cost v)). apply within_bind; [apply within_value|]. intros x. apply within_ret.
  - apply within_bind; [done|]. intros []; [done|]. apply within_ret.
  - apply within_bind; [done|]. intros []; [apply within_ret|done].
Qed.

Lemma within_poll n register e m : within n true (poll (S:=Logged S) n register e m).
Proof.
  induction n as [|n IH]; cbn [poll]; [apply within_err|]. apply (within_bind 1 n); [apply within_read|]. intros v.
  destruct (_ =? _); [apply within_ret|done].
Qed.
Lemma within_increment name modulo : within 0 (no_zero_modulus (O_Increment name modulo)) (increment (S:=Logged S) name modulo).
Proof.
  apply (within_bind 0 0); [apply within_state|]. intros o. destruct modulo as [m|]; cbn [no_zero_modulus].
  - destruct (m =? 0); [intros d; split; [apply confined_refl|done]|]. apply (within_weaken 0 0 true); [done|done|]. apply within_put.
  - apply within_put.
Qed.
Lemma within_extract from h l into : within 0 true (extract (S:=Logged S) from h l into).
Proof. apply (within_bind 0 0); [apply within_state|]. intros o. apply within_put. Qed.

Lemma within_run_all {A} (f : A → driving unit) (c : A → nat) (p : A → bool) l :
  Forall (λ x, within (c x) (p x) (f x)) l → within (list_sum (map c l)) (forallb p l) (run_all (S:=Logged S) f l).
Proof.
  induction 1 as [|x l Hx _ IH]; cbn [run_all map list_sum forallb]; [apply within_ret|]. apply within_bind.
  - eapply within_weaken; [done| |exact Hx]. by intros [? _]%andb_prop.
  - intros _. eapply within_weaken; [done| |exact IH]. by intros [_ ?]%andb_prop.
Qed.

Lemma within_operation op : within (operation_cost op) (no_zero_modulus op) (execute_operation (S:=Logged S) op).
Proof.
  induction op as [op Hs|c a b IHa IHb] using Operation_nested_ind.
  - destruct op as [r v|r i|n|n|r e m t|v m|f h l i|c a b|b|x y z]; cbn [execute_operation operation_cost]; try apply within_ret.
    + cbn [no_zero_modulus]. rewrite <- Nat.add_1_r. apply within_bind; [apply within_value|]. intros x. apply within_write.
    + cbn [no_zero_modulus]. apply (within_bind 1 0); [apply within_read|]. intros x. destruct i; [apply within_put|apply within_ret].
    + apply within_poll.
    + apply within_increment.
    + done.
  - cbn [execute_operation operation_cost no_zero_modulus]. rewrite <- Nat.add_assoc. apply within_bind.
    + eapply within_weaken; [done| |apply within_condition]. done.
    + intros []; (eapply within_weaken; [| |by apply within_run_all]); [lia|by intros [? _]%andb_prop|lia|by intros [_ ?]%andb_prop].
Qed.
Lemma within_operations l : within (operations_cost l) (forallb no_zero_modulus l) (run_all (S:=Logged S) execute_operation l).
Proof. apply within_run_all. apply Forall_forall. intros op _. apply within_operation. Qed.

Lemma within_params values : within 0 true (set_params (S:=Logged S) values).
Proof.
  unfold set_params. generalize (imap pair values). intros l. induction l as [|iv l IH]; cbn [run_all]; [apply within_ret|].
  apply (within_bind 0 0); [apply within_put|]. by intros _.
Qed.
End Confinement.

(** ** Runs *)

Inductive driver_call := Call_initialize | Call_execute (name : text) (values : list Z) | Call_interrupt (irq_status : Z) | Call_set_state (name : text) (v : Z).
Section Runs.
Context {S : Type} `{MmioAccessor S}.

(** A call, and whether it panicked. *)
Definition is_panic {E A} (o : outcome E A) : bool := match o with Panic => true | _ => false end.
Definition driver_do (d : UniversalDriver S) (c : driver_call) : UniversalDriver S * bool :=
  match c with
  | Call_initialize => let '(d, r) := initialize d in (d, is_panic r)
  | Call_execute name values => let '(d, r) := execute name values d in (d, is_panic r)
  | Call_interrupt irq => ((handle_interrupt d irq).1, false)
  | Call_set_state name v => (set_state d name v, false)
  end.
Fixpoint driver_run (calls : list driver_call) (d : UniversalDriver S) : UniversalDriver S * bool :=
  match calls with
  | [] => (d, false)
  | c :: calls => let '(d, p) := driver_do d c in let '(d, q) := driver_run calls d in (d, p || q)
  end.
End Runs.

(** The steps a call can run, by the description. *)
Definition call_steps (h : HardwareDescription) (c : driver_call) : list Operation :=
  match c with
  | Call_initialize => apply_quirks_to_sequence h (init_sequence h)
  | Call_execute name _ => match operations h !! name with Some o => steps o | None => [] end
  | _ => []
  end.
Definition calls_cost (h : HardwareDescription) (calls : list driver_call) : nat := list_sum (map (λ c, operations_cost (call_steps h c)) calls).

Section RunFacts.
Context {S : Type} `{MmioAccessor S}.
Implicit Types d : UniversalDriver (Logged S).

Lemma within_true {A} n p (k : driving (S:=Logged S) A) : within n true k → within n p k.
Proof. by apply within_weaken. Qed.
Lemma within_then {A} l (k : unit → driving (S:=Logged S) A) :
  (∀ u, within 0 true (k u)) → within (operations_cost l) (forallb no_zero_modulus l) (dr_bind (run_all execute_operation l) k).
Proof.
  intros Hk. rewrite <- (Nat.add_0_r (operations_cost l)). apply within_bind; [apply within_operations|]. intros u. apply within_true, Hk.
Qed.
Lemma within_done {A} n p (k : driving (S:=Logged S) A) d : within n p k →
  confined_from n d (let '(d, r) := k d in (d, is_panic r)).1 ∧ (p = true → (let '(d, r) := k d in (d, is_panic r)).2 = false).
Proof. intros Hk. destruct (Hk d) as [H1 H2]. destruct (k d) as [d' r]. split; [done|]. intros Hp. specialize (H2 Hp). by destruct r. Qed.

Lemma driver_do_within d c :
  confined_from (operations_cost (call_steps (description d) c)) d (driver_do d c).1 ∧
  (forallb no_zero_modulus (call_steps (description d) c) = true → (driver_do d c).2 = false).
Proof.
  destruct c as [|name values|irq|name v]; cbn [driver_do call_steps].
  - unfold initialize. destruct (initialized d); [split; [apply confined_refl|done]|].
    apply within_done, within_then. intros u. by apply within_modify.
  - unfold execute. destruct (operations (description d) !! name) as [o|]; [|split; [apply confined_refl|done]].
    apply within_done, (within_bind 0 _); [apply within_true, within_params|]. intros _. apply within_then. intros u d0. split; [|done].
    pose proof (confined_refl 0 d0) as [_ H1]. by split.
  - split; [|done]. pose proof (confined_refl 0 d) as [_ H1]. by split.
  - split; [|done]. pose proof (confined_refl 0 d) as [_ H1]. by split.
Qed.

Lemma driver_run_within calls d :
  confined_from (calls_cost (description d) calls) d (driver_run calls d).1 ∧
  (forallb (λ c, forallb no_zero_modulus (call_steps (description d) c)) calls = true → (driver_run calls d).2 = false).
Proof.
  revert d. induction calls as [|c calls IH]; intros d; [split; [apply confined_refl|done]|]. cbn [driver_run].
  destruct (driver_do_within d c) as [H1 H2]. destruct (driver_do d c) as [d1 p]. cbn [fst snd] in *.
  specialize (IH d1). rewrite (proj1 H1) in IH. destruct IH as [H3 H4]. destruct (driver_run calls d1) as [d2 q]. cbn [fst snd] in *.
  split; [by eapply confined_trans|]. cbn [forallb]. intros [Hz1 Hz2]%andb_prop. by rewrite H2, H4.
Qed.
End RunFacts.

Lemma initialize_again {S : Type} `{MmioAccessor S} (d d' : UniversalDriver S) : initialize d = (d', Ok tt) → initialize d' = (d', Ok tt).
Proof.
  intros E. assert (Hi : initialized d' = true); [|unfold initialize; by rewrite Hi].
  revert E. unfold initialize. destruct (initialized d) eqn:Ei; [by intros [= <-]|]. unfold dr_bind.
  destruct (run_all _ _ d) as [d1 [[]|e|]]; [|done..]. unfold dr_modify. by intros [= <-].
Qed.

(** C34: a driver does to its device what its description declares and no more.  Whatever is asked of a driver made from a
    description - initialising, running named operations with any parameters, interrupts, setting variables -
    every access goes to a declared register at its width, none writes a read-only
    register, and there are no more accesses than the sequences that were run can make, polls included; so every call
    ends.  No call panics when no step counts modulo zero.  An interrupt gives exactly the
    actions of the handlers whose masks meet it, and touches nothing; and a driver that is
    initialised does nothing when asked again. *)
Theorem driver_confined {S : Type} `{MmioAccessor S} (h : HardwareDescription) (s : S) (calls : list driver_call) :
  let r := driver_run calls (attach_mmio (from_description h) ((s, []) : Logged S)) in
  (∃ s' l, mmio r.1 = Some (s', l) ∧ Forall (allowed h) l ∧ (length l <= calls_cost h calls)%nat) ∧
  (forallb (λ c, forallb no_zero_modulus (call_steps h c)) calls = true → r.2 = false) ∧
  (∀ irq, mmio (handle_interrupt r.1 irq).1 = mmio r.1 ∧
     ∀ a, a ∈ (handle_interrupt r.1 irq).2 ↔ ∃ i, i ∈ handlers (interrupts h) ∧ Z.land irq (mask i) ≠ 0 ∧ action i = a) ∧
  ((initialize r.1).2 = Ok tt → initialize (initialize r.1).1 = ((initialize r.1).1, Ok tt)).
Proof.
  cbn zeta. destruct (driver_run_within calls (attach_mmio (from_description h) ((s, []) : Logged S))) as [[E1 H1] H2].
  destruct (driver_run calls _) as [d p]. cbn [attach_mmio from_description dr_set_mmio description mmio fst snd] in *. split; [|split; [done|split]].
  - destruct (mmio d) as [[s' l]|]; [|done]. destruct H1 as (l' & El & Hl & Hf). cbn in El. rewrite app_nil_r in El. subst l'. by exists s', l.
  - intros irq. split; [done|]. intros a. unfold handle_interrupt. cbn [snd]. rewrite E1, list_elem_of_fmap. split.
    + intros (i & -> & (Hm & Hi)%list_elem_of_filter). by exists i.
    + intros (i & Hi & Hm & <-). exists i. split; [done|]. by apply list_elem_of_filter.
  - intros Hi. destruct (initialize d) as [d' o] eqn:E. cbn [fst snd] in *. subst o. by eapply initialize_again.
Qed.

Lemma driver_confined_witness :
  (driver_run [Call_initialize; Call_execute (str "send_packet") [5; 6]] (attach_mmio (from_description test_description) ((∅ : SimulatedMmio, []) : Logged SimulatedMmio))).2 = false.
Proof.
  apply (proj1 (proj2 (driver_confined test_description (∅ : SimulatedMmio) [Call_initialize; Call_execute (str "send_packet") [5; 6]]))).
  vm_compute. reflexivity.
Defined.

(** ** The tests of the source, and beyond *)

Definition sim_driver (h : HardwareDescription) : UniversalDriver SimulatedMmio := attach_mmio (from_description h) ∅.
Definition after_calls (calls : list driver_call) : UniversalDriver SimulatedMmio := (driver_run calls (from_description test_description)).1.
Example test_initialize : register_cache (after_calls [Call_initialize]) !! str "COMMAND" = Some 16.
Proof. vm_compute. reflexivity. Qed.
Example test_increment_with_modulo :
  get_state (after_calls (Call_initialize :: map (λ i, Call_execute (str "send_packet") [4096 + i; 100]) [0; 1; 2; 3; 4])) (str "tx_index") = Some 1.
Proof. vm_compute. reflexivity. Qed.

(** A write reaches the device cut to the register's width, and a read gives it back. *)
Lemma write_read_simulated (d : UniversalDriver SimulatedMmio) m name v r :
  lookup_register (description d) name = Some r → reg_access r ≠ ReadOnly → mmio_width (reg_width r) = true → mmio d = Some m →
  (write_register name v d).2 = Ok tt ∧ (read_register name (write_register name v d).1).2 = Ok (v mod 2 ^ reg_width r).
Proof.
  intros Hr Ha Hw Hm. assert (E : ∀ d' : UniversalDriver SimulatedMmio, description d' = description d → find_register name d' = (d', Ok r)).
  { intros d' Ed. unfold find_register. by rewrite Ed, Hr. }
  unfold write_register, dr_bind, dr_modify. rewrite E by done. rewrite decide_False by done. unfold device_write, dr_modify.
  cbn [dr_set_cache dr_set_stats mmio]. rewrite Hm, Hw. cbn [fst snd]. split; [done|].
  unfold read_register, dr_bind, dr_modify. rewrite E by done. unfold device_read. cbn [dr_set_mmio dr_set_stats mmio]. rewrite Hw.
  cbn [mm_read mm_write SimulatedMmio_accessor snd]. f_equal.
  etrans; [apply (f_equal (λ o, Z.land (default 0 o) _)), (lookup_insert_eq (M:=gmap Z))|].
  pose proof (mmio_width_pos _ Hw). unfold default, from_option, id.
  replace (2 ^ reg_width r - 1) with (Z.ones (reg_width r)) by (rewrite Z.ones_equiv; lia).
  rewrite Z.land_ones by done. by rewrite Z.mod_mod by (apply Z.pow_nonzero; lia).
Qed.

(** A description can make the daemon panic: the parser takes [mod: 0]. *)
Example zero_modulus_panics :
  (d ← from_hdl (S := SimulatedMmio) (join nl [str "device:"; str "  name: x"; str "operations:"; str "  tick:"; str "    steps:"; str "      - increment: n, mod: 0"]);
   Ok (driver_run [Call_execute (str "tick") []] d).2) = Ok true.
Proof. vm_compute. reflexivity. Qed.

(** Parameters are kept: a call with fewer of them runs on those of an earlier one. *)
Example stale_parameters :
  register_cache (after_calls [Call_execute (str "send_packet") [77; 1]; Call_execute (str "send_packet") []]) !! str "TX_ADDR" = Some 77 ∧
  (execute (str "send_packet") [] (from_description test_description : UniversalDriver SimulatedMmio)).2 = Err (DE_InvalidParameter (str "$param0")).
Proof. split; vm_compute; reflexivity. Qed.

(** The region of a register is not used: two regions with one offset are one place. *)
Definition two_bars : HardwareDescription :=
  mkDescription DeviceInfo_empty
    [mkHdlRegion (str "bar0") 256 [mkRegister (str "A") 16 32 ReadWrite [] 1]; mkHdlRegion (str "bar1") 256 [mkRegister (str "B") 16 32 WriteOnly [] 1]]
    (mkInterrupts IT_Polling []) [] ∅ [].
Example regions_alias : (read_register (str "A") (write_register (str "B") 9 (sim_driver two_bars)).1).2 = Ok 9.
Proof. vm_compute. reflexivity. Qed.
(** A write-only register is read, and a write to a field is a write to the whole register that the cache keeps
    under the field's name. *)
Example write_only_is_read : (read_register (str "B") (write_register (str "B") 9 (sim_driver two_bars)).1).2 = Ok 9.
Proof. vm_compute. reflexivity. Qed.
Example field_write_not_cached :
  let d := (write_register (str "COMMAND.RESET") 1 (from_description test_description : UniversalDriver SimulatedMmio)).1 in
  (read_register (str "COMMAND") d).2 = Ok 0 ∧ (read_register (str "COMMAND.RESET") d).2 = Ok 1.
Proof. split; vm_compute; reflexivity. Qed.
