(* ===== verification/HdlSign.v ===== *)
(** * Signed hardware descriptions (axiom-hal/src/universal: signing.rs, secure_parser.rs)

    A description is signed by three comment lines before it.  The verifier reads them, checks the
    time, the trust store and the Ed25519 signature, and the secure parser gives the
    description only then.  Offsets count bytes of the UTF-8 text; slicing inside a character
    panics. *)

From stdpp Require Import base numbers list gmap strings.
From S2P Require Import Prelude Types Text Intent Scan Policy Approval AuditTrail Crypto Interfaces Hdl.

(** ** Errors and keys *)

Inductive SignatureError :=
  | SE_NoHeader | SE_MalformedHeader | SE_SignatureMismatch | SE_UntrustedSigner | SE_Expired | SE_FutureTimestamp | SE_InvalidEncoding
  | SE_InvalidPublicKey.
Inductive SignatureVerification := SV_Valid (signer : list Z) (timestamp : Z) | SV_Invalid (e : SignatureError) | SV_Unsigned.
Record SignatureHeader := mkSignatureHeader { sh_signature : list Z; sh_signer : list Z; sh_timestamp : Z; content_offset : Z }.

Inductive KeyPurpose := KP_Any | KP_NetworkOnly | KP_StorageOnly | KP_Development.
Record TrustedKey := mkTrustedKey { tk_public_key : list Z; tk_name : text; purpose : KeyPurpose; added_at : Z; expires_at : Z; revoked : bool }.
Record HdlTrustStore := mkTrustStore { trusted_keys : list TrustedKey; root_key : option (list Z); max_signature_age_secs : Z; allow_unsigned : bool }.

Definition HdlTrustStore_new : HdlTrustStore := mkTrustStore [] None 0 false.
Definition with_root_key (k : list Z) : HdlTrustStore := mkTrustStore [mkTrustedKey k (str "ROOT") KP_Any 0 0 false] (Some k) 0 false.
Definition allow_unsigned_dev_only (s : HdlTrustStore) : HdlTrustStore := mkTrustStore (trusted_keys s) (root_key s) (max_signature_age_secs s) true.
Definition with_max_age (s : HdlTrustStore) (seconds : Z) : HdlTrustStore := mkTrustStore (trusted_keys s) (root_key s) seconds (allow_unsigned s).
Definition set_keys (s : HdlTrustStore) (l : list TrustedKey) : HdlTrustStore := mkTrustStore l (root_key s) (max_signature_age_secs s) (allow_unsigned s).
Definition add_trusted_key (s : HdlTrustStore) (k : TrustedKey) : HdlTrustStore :=
  if existsb (λ x, bool_decide (tk_public_key x = tk_public_key k)) (trusted_keys s) then s else set_keys s (trusted_keys s ++ [k]).
Definition revoke_key (s : HdlTrustStore) (key : list Z) : HdlTrustStore :=
  set_keys s (map (λ x, if decide (tk_public_key x = key) then mkTrustedKey (tk_public_key x) (tk_name x) (purpose x) (added_at x) (expires_at x) true else x)
    (trusted_keys s)).
Definition is_trusted (s : HdlTrustStore) (key : list Z) (now : Z) : bool :=
  existsb (λ x, bool_decide (tk_public_key x = key) && negb (revoked x) && ((expires_at x =? 0) || (now <? expires_at x))) (trusted_keys s).

(** ** Encodings *)

Definition B64 : text := str "ABCDEFGHIJKLMNOPQRSTUVWXYZabcdefghijklmnopqrstuvwxyz0123456789+/".
Definition b64_value (c : Z) : option Z := (λ x, Z.of_nat x.1) <$> list_find (λ a, a = c) B64.
(** The loop over the characters: a 32-bit buffer and the number of bits not yet put out. *)
Fixpoint b64_loop (bs : list Z) (buffer bits : Z) : outcome SignatureError (list Z) :=
  match bs with
  | [] => Ok []
  | c :: bs =>
      match b64_value c with
      | None => Err SE_InvalidEncoding
      | Some v =>
          let buffer := Z.lor (Z.shiftl buffer 6 mod 2 ^ 32) v in
          let bits := bits + 6 in
          if 8 <=? bits then rest ← b64_loop bs buffer (bits - 8); Ok (Z.shiftr buffer (bits - 8) mod 256 :: rest)
          else b64_loop bs buffer bits
      end
  end.
Definition decode_base64 (input : text) : outcome SignatureError (list Z) := b64_loop (as_bytes (trim_char_end 61 (trim input))) 0 0.

Fixpoint hex_chunks (bs : list Z) : outcome SignatureError (list Z) :=
  match bs with
  | h :: l :: bs =>
      match hex_val h, hex_val l with
      | Some a, Some b => rest ← hex_chunks bs; Ok (Z.lor (Z.shiftl a 4) b :: rest)
      | _, _ => Err SE_InvalidEncoding
      end
  | _ => Ok []
  end.
Definition decode_hex (input : text) : outcome SignatureError (list Z) :=
  let bs := as_bytes (trim input) in
  if negb (len bs mod 2 =? 0) then Err SE_InvalidEncoding else hex_chunks bs.

(** The characters of one chunk of at most three bytes. *)
Definition b64_char (v : Z) : Z := nth (Z.to_nat v) B64 0.
Definition b64_chunk (chunk : list Z) : text :=
  let buffer := foldr Z.lor 0 (imap (λ i b, Z.shiftl b (16 - Z.of_nat i * 8)) chunk) in
  let chars := match length chunk with 3%nat => 4%nat | 2%nat => 3%nat | 1%nat => 2%nat | _ => O end in
  map (λ i, b64_char (Z.land (Z.shiftr buffer (18 - Z.of_nat i * 6)) 63)) (seq 0 chars) ++ replicate (4 - chars) 61.
Fixpoint b64_encode (bs : list Z) : text :=
  match bs with
  | a :: b :: c :: bs => b64_chunk [a; b; c] ++ b64_encode bs
  | [] => []
  | chunk => b64_chunk chunk
  end.

(** ** The header *)

Definition HDL_SIGNATURE : text := str "# HDL-SIGNATURE:".
Definition HDL_SIGNER : text := str "# HDL-SIGNER:".
Definition HDL_TIMESTAMP : text := str "# HDL-TIMESTAMP:".
Definition sized (n : Z) (e : SignatureError) (b : list Z) : outcome SignatureError (list Z) := if len b =? n then Ok b else Err e.
Definition header_fields := (option (list Z) * option (list Z) * option Z)%type.
(** The fields are sought in all comment lines up to the first line of content. *)
Fixpoint scan_header (ls : list text) (acc : header_fields) : outcome SignatureError header_fields :=
  match ls with
  | [] => Ok acc
  | line :: ls =>
      let trimmed := trim line in
      let '(sig, signer, ts) := acc in
      if starts_with trimmed HDL_SIGNATURE then
        b ← decode_base64 (trim (drop 16 trimmed)); b ← sized 64 SE_MalformedHeader b; scan_header ls (Some b, signer, ts)
      else if starts_with trimmed HDL_SIGNER then
        b ← decode_hex (trim (drop 13 trimmed)); b ← sized 32 SE_InvalidPublicKey b; scan_header ls (sig, Some b, ts)
      else if starts_with trimmed HDL_TIMESTAMP then
        scan_header ls (sig, signer, from_str_radix dec_val 10 (2 ^ 64 - 1) (trim (drop 16 trimmed)))
      else if negb (starts_with trimmed (str "#")) && negb (bool_decide (trimmed = [])) then Ok acc
      else scan_header ls acc
  end.
(** The content is taken to start after the leading header lines, each with one byte for its end. *)
Fixpoint actual_offset (ls : list text) : Z :=
  match ls with
  | line :: ls => if starts_with (trim line) (str "# HDL-") then len (as_bytes line) + 1 + actual_offset ls else 0
  | [] => 0
  end.
Definition parse_header (hdl : text) : outcome SignatureError SignatureHeader :=
  f ← scan_header (lines hdl) (None, None, None);
  match f with
  | (Some sig, Some key, Some ts) => Ok (mkSignatureHeader sig key ts (actual_offset (lines hdl)))
  | (None, None, None) => Err SE_NoHeader
  | _ => Err SE_MalformedHeader
  end.

(** [&hdl[offset..]], by bytes. *)
Definition content_from (bs : list Z) (offset : Z) : outcome SignatureError (list Z) :=
  if offset <? len bs then
    let rest := drop (Z.to_nat offset) bs in
    if continuation (default 0 (head rest)) then Panic else Ok rest
  else Ok [].

(** ** Verification *)

Section Verifier.
Context `{Ed25519}.

Definition verify_ed25519 (key message signature : list Z) : bool := ed_valid_key key && ed_verify key message signature.
(** The verifier is its trust store. *)
Definition hdl_verify (s : HdlTrustStore) (hdl : text) (now : Z) : outcome SignatureError SignatureVerification :=
  match parse_header hdl with
  | Err SE_NoHeader => Ok SV_Unsigned
  | Err e => Ok (SV_Invalid e)
  | Panic => Panic
  | Ok h =>
      if u64_add now 300 <? sh_timestamp h then Ok (SV_Invalid SE_FutureTimestamp)
      else if (0 <? max_signature_age_secs s) && (max_signature_age_secs s <? u64_saturating_sub now (sh_timestamp h)) then Ok (SV_Invalid SE_Expired)
      else if negb (is_trusted s (sh_signer h) now) then Ok (SV_Invalid SE_UntrustedSigner)
      else
        content ← content_from (as_bytes hdl) (content_offset h);
        if verify_ed25519 (sh_signer h) content (sh_signature h) then Ok (SV_Valid (sh_signer h) (sh_timestamp h))
        else Ok (SV_Invalid SE_SignatureMismatch)
  end.

Record HdlSigner := mkHdlSigner { private_key : list Z; signer_public_key : list Z }.
Definition HdlSigner_from_bytes (key : list Z) : HdlSigner := mkHdlSigner key (ed_public key).
Definition header_text (signature key : list Z) (timestamp : Z) : text :=
  HDL_SIGNATURE ++ str " " ++ b64_encode signature ++ nl ++ HDL_SIGNER ++ str " " ++ flat_map fmt_02x key ++ nl ++
  HDL_TIMESTAMP ++ str " " ++ fmt_int timestamp ++ nl.
Definition HdlSigner_sign (s : HdlSigner) (hdl : text) (timestamp : Z) : text :=
  header_text (ed_sign (private_key s) (as_bytes hdl)) (signer_public_key s) timestamp ++ hdl.

(** ** The secure parser *)

Context `{Blake3} `{Lowercase}.
Inductive SecureParseError := SPE_Unsigned | SPE_SignatureError (e : SignatureError) | SPE_ParseError (e : ParseError).
Record VerifiedHdl := mkVerified { v_description : HardwareDescription; v_signer : list Z; signature_timestamp : Z; content_hash : list Z }.
Record SecureHdlParser := mkSecureParser { verifier : HdlTrustStore; dev_mode_warned : bool }.
Definition SecureHdlParser_new (s : HdlTrustStore) : SecureHdlParser := mkSecureParser s false.
Definition compute_hash (hdl : text) : list Z := blake3 (as_bytes hdl).

Definition parse_as (hdl : text) (signer : list Z) (timestamp : Z) : outcome SecureParseError VerifiedHdl :=
  match hdl_parse hdl with
  | Ok d => Ok (mkVerified d signer timestamp (compute_hash hdl))
  | Err e => Err (SPE_ParseError e)
  | Panic => Panic
  end.
Definition parse_verified (p : SecureHdlParser) (hdl : text) (now : Z) : SecureHdlParser * outcome SecureParseError VerifiedHdl :=
  match hdl_verify (verifier p) hdl now with
  | Ok (SV_Valid signer timestamp) => (p, parse_as hdl signer timestamp)
  | Ok (SV_Invalid e) => (p, Err (SPE_SignatureError e))
  | Ok SV_Unsigned =>
      if negb (allow_unsigned (verifier p)) then (p, Err SPE_Unsigned)
      else (mkSecureParser (verifier p) true, parse_as hdl (replicate 32 0) 0)
  | Err e => (p, Err (SPE_SignatureError e))
  | Panic => (p, Panic)
  end.
Definition parse_strict (p : SecureHdlParser) (hdl : text) (now : Z) : outcome SecureParseError VerifiedHdl :=
  match hdl_verify (verifier p) hdl now with
  | Ok (SV_Valid signer timestamp) => parse_as hdl signer timestamp
  | Ok (SV_Invalid e) => Err (SPE_SignatureError e)
  | Ok SV_Unsigned => Err SPE_Unsigned
  | Err e => Err (SPE_SignatureError e)
  | Panic => Panic
  end.

Record ProductionHdlConfig := mkProduction { pc_root_key : list Z; pc_max_signature_age_secs : Z; require_audit : bool }.
Definition ProductionHdlConfig_default : ProductionHdlConfig := mkProduction (replicate 32 0) (86400 * 365) true.
Definition create_production_parser (c : ProductionHdlConfig) : SecureHdlParser :=
  SecureHdlParser_new (with_max_age (with_root_key (pc_root_key c)) (pc_max_signature_age_secs c)).
End Verifier.

(** ** Base64 *)

Lemma b64_value_char v : 0 ≤ v < 64 → b64_value (b64_char v) = Some v.
Proof. revert v. by_enumeration 64%nat. Qed.
Lemma b64_char_printable v : 0 ≤ v < 64 → printable [b64_char v] ∧ b64_char v ≠ 61.
Proof. revert v. apply (forall_below 64 (λ v, printable [b64_char v] ∧ b64_char v ≠ 61)). vm_compute. reflexivity. Qed.

(** One turn of the decoder; only the bits not yet put out matter of the buffer. *)
Lemma b64_push buffer v : 0 ≤ buffer → 0 ≤ v < 64 → Z.lor (Z.shiftl buffer 6 mod 2 ^ 32) v = buffer mod 2 ^ 26 * 64 + v.
Proof.
  intros Hb Hv. rewrite Z.shiftl_mul_pow2 by lia. change (2 ^ 32) with (2 ^ 26 * 2 ^ 6).
  rewrite Z.mul_mod_distr_r by lia. rewrite <- Z.shiftl_mul_pow2 by lia. by rewrite lor_shiftl_add by lia.
Qed.

Lemma b64_loop_char v bs buffer bits :
  0 ≤ v < 64 →
  b64_loop (b64_char v :: bs) buffer bits =
    let buffer := Z.lor (Z.shiftl buffer 6 mod 2 ^ 32) v in
    if 8 <=? bits + 6 then rest ← b64_loop bs buffer (bits + 6 - 8); Ok (Z.shiftr buffer (bits + 6 - 8) mod 256 :: rest)
    else b64_loop bs buffer (bits + 6).
Proof. intros Hv. cbn [b64_loop]. by rewrite b64_value_char. Qed.

(** A turn that completes no byte, and one that does: [low] are the bits not yet put out. *)
Lemma b64_open v bs B : 0 ≤ v < 64 → 0 ≤ B → ∃ B', 0 ≤ B' ∧ B' mod 64 = v ∧ b64_loop (b64_char v :: bs) B 0 = b64_loop bs B' 6.
Proof.
  intros Hv HB. exists (B mod 2 ^ 26 * 64 + v). rewrite b64_loop_char by done. cbn zeta. rewrite b64_push by done.
  split; [dlia|]. split; [dlia|done].
Qed.
Lemma b64_byte bits low v bs B :
  bits = 2 ∨ bits = 4 ∨ bits = 6 → 0 ≤ v < 64 → 0 ≤ B → B mod 2 ^ bits = low →
  ∃ B', 0 ≤ B' ∧ B' mod 2 ^ (bits - 2) = v mod 2 ^ (bits - 2) ∧
    b64_loop (b64_char v :: bs) B bits = (r ← b64_loop bs B' (bits - 2); Ok ((low * 64 + v) / 2 ^ (bits - 2) :: r)).
Proof.
  intros Hbits Hv HB Hlow. exists (B mod 2 ^ 26 * 64 + v). rewrite b64_loop_char by done. cbn zeta. rewrite b64_push by done.
  rewrite Z.shiftr_div_pow2 by lia. replace (bits + 6 - 8) with (bits - 2) by lia.
  assert ((8 <=? bits + 6) = true) as -> by (apply Z.leb_le; lia).
  assert ((B mod 2 ^ 26 * 64 + v) / 2 ^ (bits - 2) mod 256 = (low * 64 + v) / 2 ^ (bits - 2)) as ->.
  { destruct Hbits as [->|[->| ->]]; [change (2 ^ 2) with 4 in Hlow|change (2 ^ 4) with 16 in Hlow|change (2 ^ 6) with 64 in Hlow];
      [change (2 ^ (2 - 2)) with 1|change (2 ^ (4 - 2)) with 4|change (2 ^ (6 - 2)) with 16]; dlia. }
  split; [dlia|]. split; [|done].
  destruct Hbits as [->|[->| ->]]; [change (2 ^ (2 - 2)) with 1|change (2 ^ (4 - 2)) with 4|change (2 ^ (6 - 2)) with 16]; dlia.
Qed.

(** The characters of a chunk, without the padding. *)
Definition b64_values (l : list Z) : list Z :=
  match l with
  | [a] => [a / 4; a mod 4 * 16]
  | [a; b] => [a / 4; a mod 4 * 16 + b / 16; b mod 16 * 4]
  | [a; b; c] => [a / 4; a mod 4 * 16 + b / 16; b mod 16 * 4 + c / 64; c mod 64]
  | _ => []
  end.
Lemma b64_loop_last l B :
  bytes_ok l → (1 ≤ length l < 3)%nat → 0 ≤ B → b64_loop (map b64_char (b64_values l)) B 0 = Ok l.
Proof.
  intros Hl Hn HB. destruct l as [|a [|b [|c l]]]; cbn in Hn; try lia; rewrite !Forall_cons in Hl; cbn [b64_values map].
  - destruct (b64_open (a / 4) [b64_char (a mod 4 * 16)] B) as (B1 & H1 & E1 & ->); [dlia|done|].
    destruct (b64_byte 6 (a / 4) (a mod 4 * 16) [] B1) as (B2 & _ & _ & ->); [tauto|dlia|done|done|]. cbn. do 2 f_equal. dlia.
  - destruct (b64_open (a / 4) [b64_char (a mod 4 * 16 + b / 16); b64_char (b mod 16 * 4)] B) as (B1 & H1 & E1 & ->); [dlia|done|].
    destruct (b64_byte 6 (a / 4) (a mod 4 * 16 + b / 16) [b64_char (b mod 16 * 4)] B1) as (B2 & H2 & E2 & ->); [tauto|dlia|done|done|].
    change (6 - 2) with 4. destruct (b64_byte 4 _ (b mod 16 * 4) [] B2 ltac:(tauto) ltac:(dlia) H2 E2) as (B3 & _ & _ & ->). cbn. do 2 f_equal; [dlia|]. f_equal. dlia.
Qed.
Lemma b64_loop_3 a b c rest B :
  bytes_ok [a; b; c] → 0 ≤ B →
  ∃ B', 0 ≤ B' ∧ b64_loop (map b64_char (b64_values [a; b; c]) ++ rest) B 0 = (r ← b64_loop rest B' 0; Ok (a :: b :: c :: r)).
Proof.
  intros Hl HB. rewrite !Forall_cons in Hl. cbn [b64_values map app].
  destruct (b64_open (a / 4) (b64_char (a mod 4 * 16 + b / 16) :: b64_char (b mod 16 * 4 + c / 64) :: b64_char (c mod 64) :: rest) B)
    as (B1 & H1 & E1 & ->); [dlia|done|].
  destruct (b64_byte 6 (a / 4) (a mod 4 * 16 + b / 16) (b64_char (b mod 16 * 4 + c / 64) :: b64_char (c mod 64) :: rest) B1)
    as (B2 & H2 & E2 & ->); [tauto|dlia|done|done|].
  change (6 - 2) with 4. destruct (b64_byte 4 _ (b mod 16 * 4 + c / 64) (b64_char (c mod 64) :: rest) B2 ltac:(tauto) ltac:(dlia) H2 E2) as (B3 & H3 & E3 & ->).
  change (4 - 2) with 2. destruct (b64_byte 2 _ (c mod 64) rest B3 ltac:(tauto) ltac:(dlia) H3 E3) as (B4 & H4 & _ & ->).
  exists B4. split; [done|]. change (2 - 2) with 0. destruct (b64_loop rest B4 0); cbn; [|done..].
  assert (∀ x y z x' y' z' : Z, x = x' → y = y' → z = z' → ∀ r : list Z, Ok (E:=SignatureError) (x :: y :: z :: r) = Ok (x' :: y' :: z' :: r)) as Hq by (by intros; subst).
  apply Hq; dlia.
Qed.

Lemma b64_buffer_add a b c :
  0 ≤ a → 0 ≤ b < 256 → 0 ≤ c < 256 → Z.lor (Z.shiftl a 16) (Z.lor (Z.shiftl b 8) c) = a * 65536 + b * 256 + c.
Proof.
  intros Ha Hb Hc. rewrite (lor_shiftl_add b) by lia. rewrite lor_shiftl_add by lia. lia.
Qed.
Lemma b64_six x k : 0 ≤ k → Z.land (Z.shiftr x k) 63 = x / 2 ^ k mod 64.
Proof. intros Hk. change 63 with (Z.ones 6). rewrite Z.land_ones by lia. by rewrite Z.shiftr_div_pow2. Qed.
Ltac chars_eq := repeat (apply (f_equal2 (@cons Z)); [first [reflexivity|apply (f_equal b64_char); dlia]|]); reflexivity.
Lemma b64_chunk_values l :
  bytes_ok l → (1 ≤ length l ≤ 3)%nat → b64_chunk l = map b64_char (b64_values l) ++ replicate (3 - length l) 61.
Proof.
  intros Hl Hn. destruct l as [|a [|b [|c [|d l]]]]; cbn [length] in Hn; try lia; rewrite !Forall_cons in Hl; unfold b64_chunk;
    cbn [imap foldr length seq map b64_values replicate Nat.sub app fst snd compose]; rewrite !b64_six by lia.
  all: change (16 - Z.of_nat 0 * 8) with 16; change (16 - Z.of_nat 1 * 8) with 8; change (16 - Z.of_nat 2 * 8) with 0;
    change (2 ^ (18 - Z.of_nat 0 * 6)) with 262144; change (2 ^ (18 - Z.of_nat 1 * 6)) with 4096; change (2 ^ (18 - Z.of_nat 2 * 6)) with 64;
    change (2 ^ (18 - Z.of_nat 3 * 6)) with 1; rewrite ?Z.shiftl_0_r, ?Z.lor_0_r.
  - rewrite Z.shiftl_mul_pow2 by lia. change (2 ^ 16) with 65536. chars_eq.
  - rewrite <- (Z.lor_0_r (Z.shiftl b 8)), b64_buffer_add by lia. chars_eq.
  - rewrite b64_buffer_add by lia. chars_eq.
Qed.

Lemma b64_values_chars l :
  bytes_ok l → printable (map b64_char (b64_values l)) ∧ 61 ∉ map b64_char (b64_values l).
Proof.
  intros Hl. assert (Hv : Forall (λ v, 0 ≤ v < 64) (b64_values l)).
  { destruct l as [|a [|b [|c [|d l]]]]; rewrite ?Forall_cons in Hl; cbn [b64_values]; repeat constructor; dlia. }
  clear Hl. induction Hv as [|v vs Hv _ [IH1 IH2]]; [split; [constructor|set_solver]|]. cbn [map].
  destruct (b64_char_printable v Hv) as [Hp Hn]. apply Forall_cons in Hp as [Hp _]. split; [by constructor|]. set_solver.
Qed.
Lemma b64_encode_body s :
  bytes_ok s → ∃ body k, b64_encode s = body ++ replicate k 61 ∧ printable body ∧ (61 ∉ body) ∧ (∀ B, 0 ≤ B → b64_loop body B 0 = Ok s).
Proof.
  remember (length s) as n eqn:Hn. revert s Hn. induction (lt_wf n) as [n _ IH]. intros s -> Hs.
  assert (Hshort : ∀ l, bytes_ok l → (1 ≤ length l < 3)%nat → b64_encode l = b64_chunk l → ∃ body k,
    b64_encode l = body ++ replicate k 61 ∧ printable body ∧ (61 ∉ body) ∧ (∀ B, 0 ≤ B → b64_loop body B 0 = Ok l)).
  { intros l Hl Hk E. exists (map b64_char (b64_values l)), (3 - length l)%nat. rewrite E, b64_chunk_values by (done || lia).
    destruct (b64_values_chars l Hl). split_and!; [done..|]. intros B HB. by apply b64_loop_last. }
  destruct s as [|a [|b [|c s]]].
  - exists [], O. split_and!; [done|constructor|set_solver|done].
  - apply Hshort; [done|cbn; lia|done].
  - apply Hshort; [done|cbn; lia|done].
  - assert (Hs' : bytes_ok s) by (by repeat (apply Forall_cons in Hs as [_ Hs])).
    assert (H3 : bytes_ok [a; b; c]) by (rewrite !Forall_cons in Hs; repeat constructor; tauto).
    destruct (IH (length s) ltac:(cbn; lia) s eq_refl Hs') as (body & k & E & Hp & Hn & HL).
    destruct (b64_values_chars [a; b; c] H3) as [Hp3 Hn3].
    exists (map b64_char (b64_values [a; b; c]) ++ body), k. cbn [b64_encode]. rewrite b64_chunk_values by (done || cbn; lia).
    rewrite E. cbn [replicate length Nat.sub]. rewrite app_nil_r, app_assoc. split_and!; [done|by apply Forall_app|set_solver|].
    intros B HB. destruct (b64_loop_3 a b c body B H3 HB) as (B' & HB' & ->). by rewrite HL.
Qed.

Lemma trim_char_start_pad c k l : c ∉ l → trim_char_start c (replicate k c ++ l) = l.
Proof.
  intros Hc. induction k as [|k IH]; cbn; [|by rewrite Z.eqb_refl].
  destruct l as [|x l]; [done|]. cbn. destruct (Z.eqb_spec x c); [set_solver|done].
Qed.
Lemma trim_char_end_pad c body k : c ∉ body → trim_char_end c (body ++ replicate k c) = body.
Proof.
  intros Hc. unfold trim_char_end. assert (rev (replicate k c) = replicate k c) as E by (rewrite rev_alt; apply reverse_replicate).
  rewrite rev_app_distr, E, trim_char_start_pad; [apply rev_involutive|].
  intros Hin. apply Hc. by apply list_elem_of_In, in_rev, list_elem_of_In.
Qed.

Lemma b64_encode_printable s : bytes_ok s → printable (b64_encode s).
Proof.
  intros (body & k & -> & Hp & _)%b64_encode_body. apply Forall_app. split; [done|]. apply Forall_replicate. by split.
Qed.
(** The decoder inverts the encoder on every byte string, padding included. *)
Lemma base64_roundtrip s : bytes_ok s → decode_base64 (b64_encode s) = Ok s.
Proof.
  intros Hs. pose proof (b64_encode_printable s Hs) as Hp. unfold decode_base64. rewrite trim_id by done.
  destruct (b64_encode_body s Hs) as (body & k & -> & Hb & Hn & HL). rewrite trim_char_end_pad by done.
  rewrite ascii_as_bytes_printable by done. by apply HL.
Qed.

Lemma flat_map_02x_printable b : bytes_ok b → printable (flat_map fmt_02x b).
Proof. induction 1 as [|x l Hx _ IH]; [constructor|]. cbn [flat_map]. apply Forall_app. split; [by apply fmt_02x_printable|done]. Qed.
Lemma hex_chunks_roundtrip b : bytes_ok b → hex_chunks (flat_map fmt_02x b) = Ok b.
Proof.
  induction 1 as [|x l Hx _ IH]; [done|]. cbn [flat_map fmt_02x app hex_chunks]. rewrite !hex_val_digit by dlia.
  rewrite IH. cbn [mbind outcome_bind]. rewrite lor_shiftl_add by dlia. do 2 f_equal. dlia.
Qed.
Lemma hex_roundtrip b : bytes_ok b → decode_hex (flat_map fmt_02x b) = Ok b.
Proof.
  intros Hb. pose proof (flat_map_02x_printable b Hb) as Hp. unfold decode_hex. rewrite trim_id, ascii_as_bytes_printable by done.
  destruct (ref_hex_digits b Hb) as [Hlen _]. unfold len. rewrite Hlen, Nat2Z.inj_mul.
  assert (((Z.of_nat 2 * Z.of_nat (length b)) mod 2 =? 0) = true) as ->; [|by apply hex_chunks_roundtrip].
  apply Z.eqb_eq. dlia.
Qed.

(** ** Decimal numbers *)

Lemma dec_val_digit d : 0 ≤ d < 10 → dec_val (48 + d) = Some d.
Proof. revert d. by_enumeration 10%nat. Qed.
Lemma radix_digits_app digit radix max acc s t :
  radix_digits digit radix max acc (s ++ t) = acc ← radix_digits digit radix max acc s; radix_digits digit radix max acc t.
Proof.
  revert acc. induction s as [|c s IH]; intros acc; [done|]. cbn. destruct (digit c); [|done]. case_match; [apply IH|done].
Qed.
Lemma dec_digits_value fuel n max :
  0 ≤ n ≤ max → n < 10 ^ Z.of_nat fuel → radix_digits dec_val 10 max 0 (dec_digits fuel n) = Some n.
Proof.
  revert n. induction fuel as [|fuel IH]; intros n Hn Hlt; [cbn in *; f_equal; lia|]. cbn [dec_digits].
  rewrite Nat2Z.inj_succ, Z.pow_succ_r in Hlt by lia.
  assert (Hlast : ∀ a, a = n / 10 → radix_digits dec_val 10 max a [48 + n mod 10] = Some n).
  { intros a ->. cbn [radix_digits]. rewrite dec_val_digit by dlia. destruct (Z.leb_spec (n / 10 * 10 + n mod 10) max); [f_equal|]; dlia. }
  destruct (Z.ltb_spec n 10); [apply (Hlast 0); dlia|]. rewrite radix_digits_app, IH by dlia. by apply Hlast.
Qed.
Lemma dec_digits_chars fuel n : 0 ≤ n → Forall (λ c, 48 ≤ c ≤ 57) (dec_digits fuel n).
Proof.
  revert n. induction fuel as [|fuel IH]; intros n Hn; [constructor|]. cbn [dec_digits]. apply Forall_app. split.
  - destruct (Z.ltb_spec n 10); [constructor|]. apply IH. dlia.
  - repeat constructor; dlia.
Qed.
Lemma fmt_int_printable n : 0 ≤ n → printable (fmt_int n).
Proof.
  intros Hn. unfold fmt_int. destruct (Z.ltb_spec n 0); [lia|]. eapply Forall_impl; [by apply dec_digits_chars|].
  intros c Hc. cbn in Hc. split; [lia|]. unfold is_whitespace. lia.
Qed.
Lemma decimal_roundtrip n : 0 ≤ n < 2 ^ 64 → from_str_radix dec_val 10 (2 ^ 64 - 1) (fmt_int n) = Some n.
Proof.
  intros Hn. unfold fmt_int. destruct (Z.ltb_spec n 0); [lia|]. pose proof (dec_digits_chars 20 n ltac:(lia)) as Hc.
  pose proof (dec_digits_value 20 n (2 ^ 64 - 1) ltac:(lia) ltac:(lia)) as Hv. unfold from_str_radix.
  destruct (dec_digits 20 n) as [|c s] eqn:E.
  - apply (f_equal length) in E. cbn [dec_digits] in E. rewrite length_app in E. cbn in E. lia.
  - apply Forall_cons in Hc as [Hc _]. destruct (Z.eqb_spec c 43); [lia|done].
Qed.

(** ** The header of a signed description *)

Lemma trim_printable_end a body x : printable body → body ≠ [] → is_whitespace x = false → trim (x :: a ++ body) = x :: a ++ body.
Proof.
  intros Hp Hne Hx. destruct (exists_last Hne) as (w & y & E). unfold printable in Hp. rewrite E, Forall_app, Forall_cons in Hp.
  destruct Hp as (_ & [_ Hy] & _). pose proof (trim_word [] (x :: a ++ body) [] x y (a ++ body) (x :: a ++ w)) as H. cbn [app] in H.
  rewrite app_nil_r in H. apply H; [constructor|done|by rewrite E, <- app_assoc|done|done].
Qed.
Lemma trim_spaced body : printable body → trim (32 :: body) = body.
Proof. intros Hp. change (trim (32 :: body)) with (rev (trim_start (rev (trim_start body)))). by apply trim_id. Qed.

Definition header_line (tag body : text) : text := tag ++ 32 :: body.
Lemma trim_header_line tag body :
  printable body → body ≠ [] → tag = HDL_SIGNATURE ∨ tag = HDL_SIGNER ∨ tag = HDL_TIMESTAMP → trim (header_line tag body) = header_line tag body.
Proof.
  intros Hp Hne Htag. assert (∃ t, tag = 35 :: t) as [t ->] by (by destruct Htag as [->|[->| ->]]; eexists).
  unfold header_line. rewrite <- app_comm_cons, cons_middle, app_assoc. by apply trim_printable_end.
Qed.
Lemma starts_with_tag tag body : starts_with (header_line tag body) tag = true.
Proof. apply starts_with_app. by exists (32 :: body). Qed.
Lemma header_text_lines sig key ts :
  header_text sig key ts =
    header_line HDL_SIGNATURE (b64_encode sig) ++ nl ++ header_line HDL_SIGNER (flat_map fmt_02x key) ++ nl ++
    header_line HDL_TIMESTAMP (fmt_int ts) ++ nl.
Proof. unfold header_text, header_line. by rewrite <- !app_assoc. Qed.

(** The three tags: what the scanner makes of a line of each. *)
Lemma scan_signature body ls acc :
  printable body → body ≠ [] →
  scan_header (header_line HDL_SIGNATURE body :: ls) acc =
    (b ← decode_base64 body; b ← sized 64 SE_MalformedHeader b; scan_header ls (Some b, acc.1.2, acc.2)).
Proof.
  intros Hp Hne. destruct acc as [[? ?] ?]. cbn [scan_header]. rewrite trim_header_line by auto. rewrite starts_with_tag.
  change (drop 16 (header_line HDL_SIGNATURE body)) with (32 :: body). by rewrite trim_spaced.
Qed.
Lemma scan_signer body ls acc :
  printable body → body ≠ [] →
  scan_header (header_line HDL_SIGNER body :: ls) acc =
    (b ← decode_hex body; b ← sized 32 SE_InvalidPublicKey b; scan_header ls (acc.1.1, Some b, acc.2)).
Proof.
  intros Hp Hne. destruct acc as [[? ?] ?]. cbn [scan_header]. rewrite trim_header_line by auto.
  change (starts_with (header_line HDL_SIGNER body) HDL_SIGNATURE) with false. rewrite starts_with_tag.
  change (drop 13 (header_line HDL_SIGNER body)) with (32 :: body). by rewrite trim_spaced.
Qed.
Lemma scan_timestamp body ls acc :
  printable body → body ≠ [] →
  scan_header (header_line HDL_TIMESTAMP body :: ls) acc =
    scan_header ls (acc.1.1, acc.1.2, from_str_radix dec_val 10 (2 ^ 64 - 1) body).
Proof.
  intros Hp Hne. destruct acc as [[? ?] ?]. cbn [scan_header]. rewrite trim_header_line by auto.
  change (starts_with (header_line HDL_TIMESTAMP body) HDL_SIGNATURE) with false.
  change (starts_with (header_line HDL_TIMESTAMP body) HDL_SIGNER) with false. rewrite starts_with_tag.
  change (drop 16 (header_line HDL_TIMESTAMP body)) with (32 :: body). by rewrite trim_spaced.
Qed.

(** A description without header lines of its own. *)
Definition HDL_TAG : text := str "# HDL-".
Definition untagged (hdl : text) : Prop := Forall (λ l, starts_with (trim l) HDL_TAG = false) (lines hdl).
#[export] Instance untagged_dec hdl : Decision (untagged hdl) := _.
Lemma untagged_line t l : starts_with t HDL_TAG = false → starts_with t (HDL_TAG ++ l) = false.
Proof.
  intros Ht. apply not_true_iff_false. intros (u & E)%starts_with_app. apply not_true_iff_false in Ht. apply Ht, starts_with_app.
  exists (l ++ u). by rewrite E, <- app_assoc.
Qed.
Lemma scan_untagged ls acc : Forall (λ l, starts_with (trim l) HDL_TAG = false) ls → scan_header ls acc = Ok acc.
Proof.
  induction 1 as [|l ls Hl _ IH]; [done|]. destruct acc as [[? ?] ?]. cbn [scan_header].
  rewrite (untagged_line _ (str "SIGNATURE:") Hl : starts_with _ HDL_SIGNATURE = _), (untagged_line _ (str "SIGNER:") Hl : starts_with _ HDL_SIGNER = _),
    (untagged_line _ (str "TIMESTAMP:") Hl : starts_with _ HDL_TIMESTAMP = _). by case_match.
Qed.
Lemma offset_untagged ls : Forall (λ l, starts_with (trim l) HDL_TAG = false) ls → actual_offset ls = 0.
Proof. destruct 1 as [|l ls Hl _]; [done|]. cbn [actual_offset]. fold HDL_TAG. by rewrite Hl. Qed.

Lemma header_line_facts tag body :
  printable body → body ≠ [] → tag = HDL_SIGNATURE ∨ tag = HDL_SIGNER ∨ tag = HDL_TIMESTAMP →
  lines (header_line tag body ++ nl) = [header_line tag body] ∧ as_bytes (header_line tag body ++ nl) = header_line tag body ++ nl ∧
  starts_with (trim (header_line tag body)) HDL_TAG = true ∧ as_bytes (header_line tag body) = header_line tag body.
Proof.
  intros Hp Hne Htag. rewrite trim_header_line by done.
  assert (Ha : ascii_text (header_line tag body)).
  { apply Forall_app. split; [|constructor; [lia|by apply printable_ascii]].
    destruct Htag as [->|[->| ->]]; apply (bool_decide_unpack _); vm_compute; exact I. }
  assert (Hc : ∀ c, is_whitespace c = true → c ≠ 32 → c ∉ header_line tag body).
  { intros c Hc H32. unfold header_line. rewrite not_elem_of_app, not_elem_of_cons. split_and!; [|done|].
    - destruct Htag as [->|[->| ->]]; intros Hin; repeat (apply elem_of_cons in Hin as [->|Hin]; [done|]); by apply not_elem_of_nil in Hin.
    - intros Hin. unfold printable in Hp. rewrite Forall_forall in Hp. destruct (Hp _ Hin). congruence. }
  split_and!.
  - apply lines_line; by apply Hc.
  - apply as_bytes_ascii, Forall_app. split; [done|]. repeat constructor; lia.
  - apply starts_with_app. unfold header_line, HDL_TAG. destruct Htag as [->|[->| ->]]; cbn [str app]; eexists; reflexivity.
  - by apply as_bytes_ascii.
Qed.

Lemma header_bodies sig key ts :
  array_ok 64 sig → array_ok 32 key → 0 ≤ ts < 2 ^ 64 →
  (printable (b64_encode sig) ∧ b64_encode sig ≠ []) ∧ (printable (flat_map fmt_02x key) ∧ flat_map fmt_02x key ≠ []) ∧
  (printable (fmt_int ts) ∧ fmt_int ts ≠ []).
Proof.
  intros [Hs1 Hs2] [Hk1 Hk2] Ht.
  split_and!; [by apply b64_encode_printable| |by apply flat_map_02x_printable| |apply fmt_int_printable; lia|]; intros E.
  - pose proof (base64_roundtrip sig Hs2) as H. rewrite E in H. injection H as <-. done.
  - pose proof (hex_roundtrip key Hk2) as H. rewrite E in H. injection H as <-. done.
  - pose proof (decimal_roundtrip ts Ht) as H. by rewrite E in H.
Qed.

(** The three lines are a header of their own, in front of any text. *)
Lemma signed_lines sig key ts hdl :
  array_ok 64 sig → array_ok 32 key → 0 ≤ ts < 2 ^ 64 →
  lines (header_text sig key ts ++ hdl) =
    [header_line HDL_SIGNATURE (b64_encode sig); header_line HDL_SIGNER (flat_map fmt_02x key); header_line HDL_TIMESTAMP (fmt_int ts)] ++ lines hdl ∧
  as_bytes (header_text sig key ts) = header_text sig key ts.
Proof.
  intros Hs Hk Ht. destruct (header_bodies sig key ts Hs Hk Ht) as ([P1 N1] & [P2 N2] & [P3 N3]).
  destruct (header_line_facts HDL_SIGNATURE _ P1 N1 ltac:(tauto)) as (L1 & B1 & _).
  destruct (header_line_facts HDL_SIGNER _ P2 N2 ltac:(tauto)) as (L2 & B2 & _).
  destruct (header_line_facts HDL_TIMESTAMP _ P3 N3 ltac:(tauto)) as (L3 & B3 & _).
  rewrite header_text_lines.
  replace (header_line HDL_SIGNATURE (b64_encode sig) ++ nl ++ header_line HDL_SIGNER (flat_map fmt_02x key) ++ nl ++ header_line HDL_TIMESTAMP (fmt_int ts) ++ nl)
    with ((header_line HDL_SIGNATURE (b64_encode sig) ++ nl) ++ (header_line HDL_SIGNER (flat_map fmt_02x key) ++ nl) ++ (header_line HDL_TIMESTAMP (fmt_int ts) ++ nl))
    by (by rewrite <- !app_assoc).
  split; [|by rewrite (as_bytes_app (header_line HDL_SIGNATURE _ ++ nl)), (as_bytes_app (header_line HDL_SIGNER _ ++ nl)), B1, B2, B3].
  assert (Hl : ∀ a s, lines ((a ++ nl) ++ s) = lines (a ++ nl) ++ lines s) by (intros a s; apply lines_app; right; by exists a).
  rewrite <- (app_assoc (header_line HDL_SIGNATURE _ ++ nl)), <- (app_assoc (header_line HDL_SIGNER _ ++ nl)), !Hl, L1, L2, L3. done.
Qed.
Lemma parse_signed sig key ts hdl :
  array_ok 64 sig → array_ok 32 key → 0 ≤ ts < 2 ^ 64 → untagged hdl →
  parse_header (header_text sig key ts ++ hdl) = Ok (mkSignatureHeader sig key ts (len (header_text sig key ts))).
Proof.
  intros Hs Hk Ht Hu. destruct (header_bodies sig key ts Hs Hk Ht) as ([P1 N1] & [P2 N2] & [P3 N3]).
  unfold parse_header. rewrite (proj1 (signed_lines sig key ts hdl Hs Hk Ht)). cbn [app].
  rewrite scan_signature, base64_roundtrip by (done || apply Hs). cbn [mbind outcome_bind]. unfold sized at 1.
  rewrite (proj2 (Z.eqb_eq (len sig) 64)) by (apply (len_array 64 _ Hs)). cbn [mbind outcome_bind].
  rewrite scan_signer, hex_roundtrip by (done || apply Hk). cbn [mbind outcome_bind]. unfold sized at 1.
  rewrite (proj2 (Z.eqb_eq (len key) 32)) by (apply (len_array 32 _ Hk)). cbn [mbind outcome_bind fst snd].
  rewrite scan_timestamp, decimal_roundtrip, scan_untagged by done. cbn [mbind outcome_bind fst snd]. do 2 f_equal.
  destruct (header_line_facts HDL_SIGNATURE _ P1 N1 ltac:(tauto)) as (_ & _ & T1 & B1).
  destruct (header_line_facts HDL_SIGNER _ P2 N2 ltac:(tauto)) as (_ & _ & T2 & B2).
  destruct (header_line_facts HDL_TIMESTAMP _ P3 N3 ltac:(tauto)) as (_ & _ & T3 & B3).
  cbn [actual_offset]. fold HDL_TAG. rewrite T1, T2, T3, B1, B2, B3, offset_untagged by done.
  rewrite header_text_lines, !len_app. change (len nl) with 1. lia.
Qed.

(** ** Comment lines are inert *)

Section Inert.
Context `{Lowercase}.

Definition ok_state (o : outcome ParseError HdlParser) : option (option HdlSection * PartialDescription) :=
  match o with Ok p => Some (section p, result p) | _ => None end.
Definition ok_of {E A} (o : outcome E A) : option A := match o with Ok a => Some a | _ => None end.
(** Line numbers are for the messages only. *)
Lemma parse_line_number n m s r l : ok_state (parse_line (mkParser n s r) l) = ok_state (parse_line (mkParser m s r) l).
Proof.
  unfold parse_line. case_match; [done|]. case_match.
  - unfold handle_list_item. cbn [section result]. repeat case_match; try done; by repeat match goal with |- context [?o ≫= _] => destruct o; cbn end.
  - destruct (split_kv (trim l)) as [[k v]|].
    + unfold handle_kv. cbn [section result]. repeat case_match; try done; by repeat match goal with |- context [?o ≫= _] => destruct o; cbn end.
    + case_match; [|done]. unfold handle_section. cbn [section result line_num]. by repeat case_match.
Qed.
Lemma parse_lines_number n m s r ls : ok_of (parse_lines (mkParser n s r) ls) = ok_of (parse_lines (mkParser m s r) ls).
Proof.
  revert n m s r. induction ls as [|l ls IH]; intros n m s r; [done|]. cbn [parse_lines line_num section result].
  pose proof (parse_line_number (n + 1) (m + 1) s r l) as E.
  destruct (parse_line _ _) as [[n' s' r']|e|], (parse_line (mkParser (m + 1) _ _) _) as [[m' s'' r'']|e'|]; try done; cbn in E |- *.
  injection E as <- <-. apply IH.
Qed.
Lemma parse_comments n s r cs ls :
  Forall (λ l, starts_with (trim l) HDL_TAG = true) cs → ok_of (parse_lines (mkParser n s r) (cs ++ ls)) = ok_of (parse_lines (mkParser n s r) ls).
Proof.
  intros Hc. revert n. induction Hc as [|l cs Hl _ IH]; intros n; [done|]. cbn [app parse_lines line_num section result].
  assert (E : parse_line (mkParser (n + 1) s r) l = Ok (mkParser (n + 1) s r)).
  { unfold parse_line. apply starts_with_app in Hl as [t ->]. done. }
  rewrite E. cbn [mbind outcome_bind]. rewrite IH. apply parse_lines_number.
Qed.
Lemma signed_parse sig key ts hdl :
  array_ok 64 sig → array_ok 32 key → 0 ≤ ts < 2 ^ 64 → ok_of (hdl_parse (header_text sig key ts ++ hdl)) = ok_of (hdl_parse hdl).
Proof.
  intros Hs Hk Ht. destruct (header_bodies sig key ts Hs Hk Ht) as ([P1 N1] & [P2 N2] & [P3 N3]).
  unfold hdl_parse. rewrite (proj1 (signed_lines sig key ts hdl Hs Hk Ht)). apply parse_comments.
  repeat constructor; apply header_line_facts; tauto.
Qed.
End Inert.

(** ** The gate *)

Lemma content_after t hdl : Forall char_ok hdl → content_from (as_bytes t ++ as_bytes hdl) (len (as_bytes t)) = Ok (as_bytes hdl).
Proof.
  intros Hc. assert (E0 : drop (Z.to_nat (len (as_bytes t))) (as_bytes t ++ as_bytes hdl) = as_bytes hdl) by (unfold len; by rewrite Nat2Z.id, drop_app_length).
  unfold content_from. rewrite E0, len_app.
  destruct (as_bytes hdl) as [|b r] eqn:E; [by rewrite len_nil, Z.add_0_r, Z.ltb_irrefl|]. rewrite len_cons. pose proof (len_nonneg r).
  destruct (Z.ltb_spec (len (as_bytes t)) (len (as_bytes t) + (1 + len r))); [|lia]. cbn [head default].
  assert (Hb : continuation b = false) by (apply as_bytes_head in E; [|done]; unfold continuation, in_range; lia). cbn. by rewrite Hb.
Qed.

Section Gate.
Context `{Ed25519} `{Blake3} `{Lowercase}.

(** The time window of a header. *)
Definition timely (s : HdlTrustStore) (ts now : Z) : Prop :=
  ts ≤ u64_add now 300 ∧ (max_signature_age_secs s = 0 ∨ now - ts ≤ max_signature_age_secs s).
(** What the verifier accepts: a header whose signer is trusted now, whose time is in the window and
    whose signature holds of the bytes after it. *)
Definition accepted (s : HdlTrustStore) (hdl : text) (now : Z) (signer : list Z) (ts : Z) : Prop :=
  ∃ h content, parse_header hdl = Ok h ∧ sh_signer h = signer ∧ sh_timestamp h = ts ∧ timely s ts now ∧ is_trusted s signer now = true ∧
    content_from (as_bytes hdl) (content_offset h) = Ok content ∧ verify_ed25519 signer content (sh_signature h) = true.
Lemma timely_iff s ts now :
  0 ≤ max_signature_age_secs s →
  timely s ts now ↔
    (u64_add now 300 <? ts) = false ∧ ((0 <? max_signature_age_secs s) && (max_signature_age_secs s <? u64_saturating_sub now ts)) = false.
Proof. intros Hs. unfold timely, u64_saturating_sub. rewrite andb_false_iff, !Z.ltb_ge. lia. Qed.
Lemma hdl_verify_valid s hdl now signer ts :
  0 ≤ max_signature_age_secs s → hdl_verify s hdl now = Ok (SV_Valid signer ts) ↔ accepted s hdl now signer ts.
Proof.
  intros Hs. unfold hdl_verify, accepted. destruct (parse_header hdl) as [h|e|] eqn:E.
  2: by split; [destruct e|intros (h & ? & ? & _)].
  2: by split; [|intros (h & ? & ? & _)].
  split.
  - case_match eqn:E1; [done|]. case_match eqn:E2; [done|]. destruct (is_trusted s (sh_signer h) now) eqn:E3; [|done]. cbn [negb].
    intros (content & Hc & Hv)%bind_Ok_inv. case_match eqn:E4; [|done]. injection Hv as <- <-. exists h, content.
    split_and!; try done; by apply timely_iff.
  - intros (h' & content & [= <-] & <- & <- & [E1 E2]%timely_iff & E3 & E4 & E5); [|done].
    by rewrite E1, E2, E3, E4; cbn; rewrite E5.
Qed.

Lemma parse_as_ok hdl signer ts v : parse_as hdl signer ts = Ok v ↔ hdl_parse hdl = Ok (v_description v) ∧ v = mkVerified (v_description v) signer ts (blake3 (as_bytes hdl)).
Proof.
  unfold parse_as, compute_hash. split.
  - destruct (hdl_parse hdl) eqn:E; [|done..]. by intros [= <-].
  - intros [-> ->]. done.
Qed.
Lemma parse_strict_ok p hdl now v :
  0 ≤ max_signature_age_secs (verifier p) →
  parse_strict p hdl now = Ok v ↔
    accepted (verifier p) hdl now (v_signer v) (signature_timestamp v) ∧ hdl_parse hdl = Ok (v_description v) ∧ content_hash v = blake3 (as_bytes hdl).
Proof.
  intros Hs. unfold parse_strict. split.
  - destruct (hdl_verify _ _ _) as [[signer ts|e|]|e|] eqn:E; [|done..]. intros [Hp Hv]%parse_as_ok. rewrite Hv. cbn. split_and!; [|done..].
    by apply hdl_verify_valid.
  - intros (Ha & Hp & Hh). apply hdl_verify_valid in Ha; [|done]. rewrite Ha. apply parse_as_ok. split; [done|]. destruct v. cbn in *. by rewrite Hh.
Qed.
Lemma hdl_verify_unsigned s hdl now : hdl_verify s hdl now = Ok SV_Unsigned ↔ parse_header hdl = Err SE_NoHeader.
Proof.
  unfold hdl_verify. destruct (parse_header hdl) as [h|e|]; [|by destruct e|done]. split; [|done].
  repeat (case_match; [done|]). destruct (content_from _ _); cbn; [|done..]. by case_match.
Qed.
Lemma parse_verified_ok p hdl now v :
  (parse_verified p hdl now).2 = Ok v ↔
    parse_strict p hdl now = Ok v ∨
    allow_unsigned (verifier p) = true ∧ parse_header hdl = Err SE_NoHeader ∧ hdl_parse hdl = Ok (v_description v) ∧
    v = mkVerified (v_description v) (replicate 32 0) 0 (blake3 (as_bytes hdl)).
Proof.
  rewrite <- (hdl_verify_unsigned (verifier p) hdl now). unfold parse_verified, parse_strict.
  destruct (hdl_verify _ _ _) as [[signer ts|e|]|e|].
  3: { destruct (allow_unsigned (verifier p)); cbn; [|naive_solver]. rewrite parse_as_ok. naive_solver. }
  all: cbn; naive_solver.
Qed.
Lemma revoked_untrusted s key now : is_trusted (revoke_key s key) key now = false.
Proof.
  apply not_true_iff_false. unfold is_trusted, revoke_key. cbn. rewrite existsb_exists. intros (x & (y & Hy & Hin)%in_map_iff & Hx).
  subst x. destruct (decide (tk_public_key y = key)); cbn in Hx; [by rewrite andb_false_r in Hx|]. by rewrite bool_decide_false in Hx.
Qed.
Lemma revoked_mono s key k now : is_trusted (revoke_key s key) k now = true → is_trusted s k now = true.
Proof.
  unfold is_trusted, revoke_key. cbn. rewrite !existsb_exists. intros (x & (y & Hy & Hin)%in_map_iff & Hx). exists y. split; [done|].
  subst x. destruct (decide (tk_public_key y = key)); [|done]. cbn in Hx. by rewrite andb_false_r in Hx.
Qed.

(** A header in front of a description: which times the verifier takes depends on the header only, not
    on what was signed. *)
Lemma accepted_signed s sig key ts hdl now :
  array_ok 64 sig → array_ok 32 key → 0 ≤ ts < 2 ^ 64 → untagged hdl → Forall char_ok hdl →
  timely s ts now → is_trusted s key now = true → verify_ed25519 key (as_bytes hdl) sig = true →
  accepted s (header_text sig key ts ++ hdl) now key ts.
Proof.
  intros Hs Hk Ht Hu Hc Htime Htrust Hv. exists (mkSignatureHeader sig key ts (len (header_text sig key ts))), (as_bytes hdl).
  split_and!; [by apply parse_signed|done..| |done]. cbn [content_offset].
  rewrite as_bytes_app. rewrite <- (proj2 (signed_lines sig key ts hdl Hs Hk Ht)) at 2. by apply content_after.
Qed.
End Gate.

(** C22: nothing is parsed as verified unless a trusted signature covers it.  [parse_strict] gives a
    description exactly when the text has a complete header, its signer is in the trust
    store and neither revoked nor expired, its time is in the window, the Ed25519
    signature holds of all bytes after the header, and those parse; [parse_verified] does the same, and takes a
    text without any header line only if the store was told to allow unsigned ones.  Once a key is revoked, no
    text it signed is given again, and no other becomes acceptable.  What the signer writes for a
    description, which has no header lines of its own, parses at every accepting verifier to
    the description itself; but the time is not signed, so the same holds of any other time written in its place. *)
Theorem hdl_gate `{Ed25519} `{Blake3} `{Lowercase} (p : SecureHdlParser) (now : Z) :
  let s := verifier p in
  0 ≤ max_signature_age_secs s →
  (∀ hdl v, parse_strict p hdl now = Ok v ↔
    accepted s hdl now (v_signer v) (signature_timestamp v) ∧ hdl_parse hdl = Ok (v_description v) ∧ content_hash v = blake3 (as_bytes hdl)) ∧
  (∀ hdl v, (parse_verified p hdl now).2 = Ok v ↔
    parse_strict p hdl now = Ok v ∨
    allow_unsigned s = true ∧ parse_header hdl = Err SE_NoHeader ∧ hdl_parse hdl = Ok (v_description v) ∧
    v = mkVerified (v_description v) (replicate 32 0) 0 (blake3 (as_bytes hdl))) ∧
  (∀ key hdl signer ts, accepted (revoke_key s key) hdl now signer ts → signer ≠ key ∧ accepted s hdl now signer ts) ∧
  (∀ sk hdl ts ts',
    array_ok 32 sk → Forall char_ok hdl → untagged hdl → 0 ≤ ts' < 2 ^ 64 → timely s ts' now → is_trusted s (ed_public sk) now = true →
    let signed := header_text (ed_sign sk (as_bytes hdl)) (ed_public sk) ts' ++ hdl in
    (ts' = ts → signed = HdlSigner_sign (HdlSigner_from_bytes sk) hdl ts) ∧
    ∀ d, hdl_parse hdl = Ok d ↔ parse_strict p signed now = Ok (mkVerified d (ed_public sk) ts' (blake3 (as_bytes signed)))).
Proof.
  intros s Hs. split_and!.
  - intros hdl v. by apply parse_strict_ok.
  - intros hdl v. apply parse_verified_ok.
  - intros key hdl signer ts (h & content & E & <- & <- & Ht & Htr & Hc). split.
    + intros E'. rewrite E' in Htr. by rewrite revoked_untrusted in Htr.
    + exists h, content. split_and!; try done; [by eapply revoked_mono|apply Hc..].
  - intros sk hdl ts ts' Hsk Hc Hu Ht Htime Htr signed. split; [by intros ->|]. intros d.
    rewrite parse_strict_ok by done. cbn [v_signer signature_timestamp v_description content_hash].
    assert (Ha : accepted s signed now (ed_public sk) ts').
    { apply accepted_signed; try done; [apply ed_sign_ok|apply ed_public_ok|]. unfold verify_ed25519.
      by rewrite ed_public_valid, (ed_strict_implies _ _ _ (ed_sign_verifies sk _ Hsk)). }
    pose proof (signed_parse (ed_sign sk (as_bytes hdl)) (ed_public sk) ts' hdl (ed_sign_ok _ _) (ed_public_ok _) Ht) as E.
    fold signed in E. split; [intros Hd|intros (_ & Hd & _)].
    + split_and!; [done| |done]. rewrite Hd in E. destruct (hdl_parse signed); [|done..]. cbn in E. congruence.
    + rewrite Hd in E. destruct (hdl_parse hdl); [|done..]. cbn in E. congruence.
Qed.

(** ** Concrete runs *)

#[local] Existing Instance ed_reference.
#[local] Existing Instance prefix_digest.
Definition sample_sk : list Z := to_be 32 7.
Definition sample_hdl : text := join nl [str "device:"; str "  name: Test"; str "  class: network"].
Definition sample_store : HdlTrustStore := with_max_age (add_trusted_key HdlTrustStore_new (mkTrustedKey (ed_public sample_sk) (str "test") KP_StorageOnly 0 0 false)) 3600.
Definition sample_parser : SecureHdlParser := SecureHdlParser_new sample_store.
Definition sample_signed : text := HdlSigner_sign (HdlSigner_from_bytes sample_sk) sample_hdl 1000.
Definition verdict (o : outcome SignatureError SignatureVerification) : option (SignatureError + Z) :=
  match o with Ok (SV_Valid _ ts) => Some (inr ts) | Ok (SV_Invalid e) => Some (inl e) | _ => None end.
Example test_sign_and_verify : verdict (hdl_verify sample_store sample_signed 1000) = Some (inr 1000).
Proof. vm_compute. reflexivity. Qed.
Example test_tampered : verdict (hdl_verify sample_store (sample_signed ++ str "x") 1000) = Some (inl SE_SignatureMismatch).
Proof. vm_compute. reflexivity. Qed.
Example test_revoked : verdict (hdl_verify (revoke_key sample_store (ed_public sample_sk)) sample_signed 1000) = Some (inl SE_UntrustedSigner).
Proof. vm_compute. reflexivity. Qed.
(** An hour and a bit later the description is too old, until somebody changes its date. *)
Example expired_and_redated :
  verdict (hdl_verify sample_store sample_signed 5000) = Some (inl SE_Expired) ∧
  verdict (hdl_verify sample_store (header_text (ed_sign sample_sk (as_bytes sample_hdl)) (ed_public sample_sk) 4999 ++ sample_hdl) 5000) = Some (inr 4999).
Proof. vm_compute. split; reflexivity. Qed.
(** A key for storage devices signs a network device: the purpose of a key is not looked at. *)
Example purpose_ignored :
  (v ← parse_strict sample_parser sample_signed 1000; Ok (device_class (device (v_description v)))) = Ok DC_Network.
Proof. vm_compute. reflexivity. Qed.
(** With line ends of two bytes the offset of the content is wrong by one for each header line. *)
Definition crlf (t : text) : text := flat_map (λ c, if c =? 10 then [13; 10] else [c]) t.
Example crlf_header :
  verdict (hdl_verify sample_store (crlf (header_text (ed_sign sample_sk (as_bytes sample_hdl)) (ed_public sample_sk) 1000) ++ sample_hdl) 1000) =
    Some (inl SE_SignatureMismatch).
Proof. vm_compute. reflexivity. Qed.
(** ... and a text that nobody signed makes the verifier slice inside a character: four header lines
    with such ends, the last of them ending in a character of three bytes. *)
Example slicing_panics :
  hdl_verify sample_store (crlf (header_text (replicate 64 0) (ed_public sample_sk) 1000 ++ HDL_TAG ++ [8364; 10]) ++ sample_hdl) 1000 = Panic.
Proof. vm_compute. reflexivity. Qed.
Example test_unsigned : hdl_verify sample_store sample_hdl 1000 = Ok SV_Unsigned.
Proof. vm_compute. reflexivity. Qed.

(** The test of the source, a day in the life of one key. *)
Lemma hdl_gate_witness :
  let signed t := header_text (ed_sign sample_sk (as_bytes sample_hdl)) (ed_public sample_sk) t ++ sample_hdl in
  0 ≤ max_signature_age_secs sample_store ∧ signed 1000 = HdlSigner_sign (HdlSigner_from_bytes sample_sk) sample_hdl 1000 ∧
  (∃ d, parse_strict sample_parser (signed 4999) 5000 = Ok (mkVerified d (ed_public sample_sk) 4999 (blake3 (as_bytes (signed 4999)))) ∧
    device_name (device d) = str "Test") ∧
  ∀ hdl signer ts, accepted (revoke_key sample_store (ed_public sample_sk)) hdl 1000 signer ts → signer ≠ ed_public sample_sk.
Proof.
  intros signed.
  assert (Hage : 0 ≤ max_signature_age_secs sample_store) by (cbn; lia).
  destruct (hdl_gate sample_parser 5000 Hage) as (_ & _ & Hrevoked & Hsigned).
  assert (Hc : Forall char_ok sample_hdl) by (apply (bool_decide_unpack _); vm_compute; exact I).
  assert (Hu : untagged sample_hdl) by (apply (bool_decide_unpack _); vm_compute; exact I).
  split_and!; [done|done| |].
  - destruct (hdl_parse sample_hdl) as [d|e|] eqn:E; [|by vm_compute in E..]. exists d. split.
    + apply (Hsigned sample_sk sample_hdl 1000 4999); try done; [split; [apply length_to_be|apply to_be_bytes_ok]|split; vm_compute; [done|by right]].
    + vm_compute in E. injection E as <-. done.
  - intros hdl signer ts Ha. eapply (proj1 (proj1 (proj2 (proj2 (hdl_gate sample_parser 1000 Hage))) _ _ _ _ Ha)).
Defined.
