(* ===== verification/Compliance.v ===== *)
(** * The compliance log (axiom-audit: event.rs, sensitivity.rs, log.rs, retention.rs)

    Audit events, the hash-chained log of a node with its indexes and alerts, and the retention
    rules of the data it is about. *)

From stdpp Require Import base numbers list gmap strings.
From S2P Require Import Prelude Types Text Intent Approval Crypto.

(** ** Sensitivity *)

Inductive Sensitivity := SN_Public | SN_Internal | SN_Confidential | SN_Phi | SN_Pii | SN_Restricted.
Definition Sensitivity_rank (s : Sensitivity) : Z :=
  match s with SN_Public => 0 | SN_Internal => 1 | SN_Confidential => 2 | SN_Phi => 3 | SN_Pii => 4 | SN_Restricted => 5 end.
#[export] Instance Sensitivity_eq_dec : EqDecision Sensitivity.
Proof. solve_decision. Defined.
#[export] Instance Sensitivity_countable : Countable Sensitivity.
Proof.
  refine (inj_countable' Sensitivity_rank (λ n, nth (Z.to_nat n) [SN_Public; SN_Internal; SN_Confidential; SN_Phi; SN_Pii; SN_Restricted] SN_Public) _).
  by intros [].
Defined.
Definition requires_encryption_at_rest (s : Sensitivity) : bool := Sensitivity_rank SN_Confidential <=? Sensitivity_rank s.
Definition requires_access_logging (s : Sensitivity) : bool := Sensitivity_rank SN_Confidential <=? Sensitivity_rank s.
Definition is_regulated (s : Sensitivity) : bool := match s with SN_Phi | SN_Pii => true | _ => false end.
Definition min_retention_days (s : Sensitivity) : Z :=
  match s with SN_Phi => 2190 | SN_Pii => 1095 | SN_Restricted => 2555 | _ => 365 end.
Definition max_retention_days (s : Sensitivity) : option Z := match s with SN_Pii => Some 1095 | _ => None end.

Inductive PhiType :=
  | PT_Name | PT_Geography | PT_Dates | PT_Phone | PT_Fax | PT_Email | PT_Ssn | PT_Mrn | PT_HealthPlanId | PT_AccountNumber | PT_LicenseNumber
  | PT_VehicleId | PT_DeviceId | PT_Url | PT_IpAddress | PT_Biometric | PT_Photo | PT_Other.
Definition all_hipaa_identifiers : list PhiType :=
  [PT_Name; PT_Geography; PT_Dates; PT_Phone; PT_Fax; PT_Email; PT_Ssn; PT_Mrn; PT_HealthPlanId; PT_AccountNumber; PT_LicenseNumber;
   PT_VehicleId; PT_DeviceId; PT_Url; PT_IpAddress; PT_Biometric; PT_Photo; PT_Other].
Record DataClassification := mkClassification {
  dc_sensitivity : Sensitivity; phi_types : list PhiType; dc_owner : list Z; classified_at : Z; dc_reason : option text; retention_override : option Z
}.
Definition DataClassification_new (s : Sensitivity) (owner : list Z) (now : Z) : DataClassification := mkClassification s [] owner now None None.
Definition with_phi (c : DataClassification) (l : list PhiType) : DataClassification :=
  mkClassification SN_Phi l (dc_owner c) (classified_at c) (dc_reason c) (retention_override c).
Definition with_reason (c : DataClassification) (r : text) : DataClassification :=
  mkClassification (dc_sensitivity c) (phi_types c) (dc_owner c) (classified_at c) (Some r) (retention_override c).
Definition with_retention (c : DataClassification) (days : Z) : DataClassification :=
  mkClassification (dc_sensitivity c) (phi_types c) (dc_owner c) (classified_at c) (dc_reason c) (Some days).
Definition retention_days (c : DataClassification) : Z := default (min_retention_days (dc_sensitivity c)) (retention_override c).
Definition can_safe_harbor_deidentify (c : DataClassification) : bool := bool_decide (dc_sensitivity c = SN_Phi).
Definition requires_baa (c : DataClassification) : bool := bool_decide (dc_sensitivity c = SN_Phi).

(** ** Events *)

Inductive EventType :=
  | ET_Access | ET_Authentication | ET_Authorization | ET_ConfigChange | ET_Security | ET_System | ET_Network | ET_KeyManagement | ET_DataLifecycle
  | ET_Compliance.
Definition all_event_types : list EventType :=
  [ET_Access; ET_Authentication; ET_Authorization; ET_ConfigChange; ET_Security; ET_System; ET_Network; ET_KeyManagement; ET_DataLifecycle; ET_Compliance].
#[export] Instance EventType_eq_dec : EqDecision EventType.
Proof. solve_decision. Defined.
Definition EventType_index (t : EventType) : nat := default O (fst <$> list_find (λ x, x = t) all_event_types).
#[export] Instance EventType_countable : Countable EventType.
Proof. refine (inj_countable' EventType_index (λ n, nth n all_event_types ET_Access) _). by intros []. Defined.
Inductive AccessType := AT_Read | AT_Create | AT_Update | AT_Delete | AT_Export | AT_Print | AT_Transmit | AT_Query.
Inductive AccessOutcome :=
  | AO_Success | AO_DeniedPrivilege | AO_DeniedNotFound | AO_DeniedPolicy | AO_DeniedRateLimit | AO_Failed | AO_Pending.
#[export] Instance AccessOutcome_eq_dec : EqDecision AccessOutcome.
Proof. solve_decision. Defined.
Definition outcome_u8 (o : AccessOutcome) : Z :=
  match o with
  | AO_Success => 0 | AO_DeniedPrivilege => 1 | AO_DeniedNotFound => 2 | AO_DeniedPolicy => 3 | AO_DeniedRateLimit => 4 | AO_Failed => 5 | AO_Pending => 6
  end.
Definition is_success (o : AccessOutcome) : bool := bool_decide (o = AO_Success).
Definition is_denied (o : AccessOutcome) : bool :=
  match o with AO_DeniedPrivilege | AO_DeniedNotFound | AO_DeniedPolicy | AO_DeniedRateLimit => true | _ => false end.
Definition is_security_relevant (o : AccessOutcome) : bool := match o with AO_DeniedPrivilege | AO_DeniedPolicy => true | _ => false end.
Inductive AuthMethod := AM_Signature | AM_PreSharedKey | AM_Certificate | AM_MultiFactor | AM_Delegated | AM_Anonymous.
Inductive SecurityEventType :=
  | SET_AuthFailure | SET_BruteForce | SET_Impersonation | SET_PrivilegeEscalation | SET_Anomaly | SET_Malformed | SET_RateLimitExceeded | SET_TrustChange.

(** [{:?}] of the enumerations. *)
Definition AccessType_debug (a : AccessType) : text :=
  str match a with
      | AT_Read => "Read" | AT_Create => "Create" | AT_Update => "Update" | AT_Delete => "Delete" | AT_Export => "Export" | AT_Print => "Print"
      | AT_Transmit => "Transmit" | AT_Query => "Query"
      end.
Definition AuthMethod_debug (m : AuthMethod) : text :=
  str match m with
      | AM_Signature => "Signature" | AM_PreSharedKey => "PreSharedKey" | AM_Certificate => "Certificate" | AM_MultiFactor => "MultiFactor"
      | AM_Delegated => "Delegated" | AM_Anonymous => "Anonymous"
      end.
Definition SecurityEventType_debug (s : SecurityEventType) : text :=
  str match s with
      | SET_AuthFailure => "AuthFailure" | SET_BruteForce => "BruteForce" | SET_Impersonation => "Impersonation"
      | SET_PrivilegeEscalation => "PrivilegeEscalation" | SET_Anomaly => "Anomaly" | SET_Malformed => "Malformed"
      | SET_RateLimitExceeded => "RateLimitExceeded" | SET_TrustChange => "TrustChange"
      end.
Definition outcome_debug (o : AccessOutcome) : text :=
  str match o with
      | AO_Success => "Success" | AO_DeniedPrivilege => "DeniedPrivilege" | AO_DeniedNotFound => "DeniedNotFound" | AO_DeniedPolicy => "DeniedPolicy"
      | AO_DeniedRateLimit => "DeniedRateLimit" | AO_Failed => "Failed" | AO_Pending => "Pending"
      end.
Definition Sensitivity_debug (s : Sensitivity) : text :=
  str match s with
      | SN_Public => "Public" | SN_Internal => "Internal" | SN_Confidential => "Confidential" | SN_Phi => "Phi" | SN_Pii => "Pii"
      | SN_Restricted => "Restricted"
      end.
Definition EventType_debug (t : EventType) : text :=
  str match t with
      | ET_Access => "Access" | ET_Authentication => "Authentication" | ET_Authorization => "Authorization" | ET_ConfigChange => "ConfigChange"
      | ET_Security => "Security" | ET_System => "System" | ET_Network => "Network" | ET_KeyManagement => "KeyManagement"
      | ET_DataLifecycle => "DataLifecycle" | ET_Compliance => "Compliance"
      end.

Record AuditEvent := mkAuditEvent {
  event_type : EventType; ae_timestamp : Z; subject : list Z; resource : option (list Z); ae_action : text; ae_outcome : AccessOutcome;
  ae_sensitivity : option Sensitivity; source_location : option text; ae_context : list (text * text)
}.
Definition event_access (s r : list Z) (a : AccessType) (o : AccessOutcome) (sn : Sensitivity) (ts : Z) : AuditEvent :=
  mkAuditEvent ET_Access ts s (Some r) (AccessType_debug a) o (Some sn) None [].
Definition event_authentication (s : list Z) (m : AuthMethod) (success : bool) (ts : Z) : AuditEvent :=
  mkAuditEvent ET_Authentication ts s None (AuthMethod_debug m) (if success then AO_Success else AO_DeniedPrivilege) None None [].
Definition event_security (s : list Z) (t : SecurityEventType) (details : text) (ts : Z) : AuditEvent :=
  mkAuditEvent ET_Security ts s None (SecurityEventType_debug t) AO_Failed None None [(str "details", details)].
Definition event_system (action details : text) (ts : Z) : AuditEvent :=
  mkAuditEvent ET_System ts (replicate 32 0) None action AO_Success None None [(str "details", details)].
Definition key_event (s : list Z) (action : text) (key_id : list Z) (ts : Z) : AuditEvent :=
  mkAuditEvent ET_KeyManagement ts s (Some key_id) action AO_Success (Some SN_Restricted) None [].
Definition with_source (e : AuditEvent) (location : text) : AuditEvent :=
  mkAuditEvent (event_type e) (ae_timestamp e) (subject e) (resource e) (ae_action e) (ae_outcome e) (ae_sensitivity e) (Some location) (ae_context e).
Definition with_context (e : AuditEvent) (k v : text) : AuditEvent :=
  mkAuditEvent (event_type e) (ae_timestamp e) (subject e) (resource e) (ae_action e) (ae_outcome e) (ae_sensitivity e) (source_location e)
    (ae_context e ++ [(k, v)]).
Definition is_alertable (e : AuditEvent) : bool :=
  match event_type e with
  | ET_Security | ET_KeyManagement => true
  | ET_Authentication => is_denied (ae_outcome e)
  | ET_Access => is_security_relevant (ae_outcome e)
  | _ => false
  end.
Definition hipaa_description (e : AuditEvent) : text :=
  match event_type e with
  | ET_Access =>
      str "Access " ++ ae_action e ++ str " to " ++ match ae_sensitivity e with Some s => Sensitivity_debug s | None => str "Unknown" end ++
      str " data: " ++ outcome_debug (ae_outcome e)
  | ET_Authentication => str "Authentication via " ++ ae_action e ++ str ": " ++ outcome_debug (ae_outcome e)
  | ET_Security => str "Security event: " ++ ae_action e
  | t => EventType_debug t ++ str ": " ++ ae_action e
  end.

(** ** Records *)

Inductive AuditError := IntegrityViolation (n : Z) | RecordNotFound (n : Z) | LogSealed | InvalidChain.
Record ChainVerification := mkVerification { valid : bool; records_verified : Z; first_invalid : option Z; final_hash : list Z }.
Record AuditRecord := mkRecord { sequence : Z; event : AuditEvent; rec_prev_hash : list Z; rec_hash : list Z; rec_signature : option (list Z) }.

Section Chain.
Context `{Blake3} `{Ed25519}.

(** What the hash of a record covers. *)
Definition record_bytes (n : Z) (prev : list Z) (e : AuditEvent) : list Z :=
  to_le 8 n ++ prev ++ to_le 8 (ae_timestamp e) ++ subject e ++ default [] (resource e) ++ as_bytes (ae_action e) ++ [outcome_u8 (ae_outcome e)].
Definition compute_hash (r : AuditRecord) : list Z := blake3 (record_bytes (sequence r) (rec_prev_hash r) (event r)).
Definition AuditRecord_new (n : Z) (e : AuditEvent) (prev : list Z) : AuditRecord :=
  let r := mkRecord n e prev (replicate 32 0) None in mkRecord n e prev (compute_hash r) None.
Definition record_verify (r : AuditRecord) : bool := bool_decide (rec_hash r = compute_hash r).
Definition record_sign (r : AuditRecord) (k : Keypair) : AuditRecord :=
  mkRecord (sequence r) (event r) (rec_prev_hash r) (rec_hash r) (Some (Keypair_sign k (rec_hash r))).
Definition verify_signature (r : AuditRecord) (public_key : list Z) : bool :=
  match rec_signature r with Some s => NodeId_verify public_key (rec_hash r) s | None => true end.

(** ** The log *)

(** [alerts] are the events the handler, when there is one, has been called with. *)
Record AuditLog := mkAuditLog {
  node_id : list Z; records : list AuditRecord; idx_type : gmap EventType (list Z); idx_subject : gmap (list Z) (list Z);
  idx_resource : gmap (list Z) (list Z); head_hash : list Z; sealed : bool; signing_key : option Keypair; alert_handler : bool; alerts : list AuditEvent
}.
Definition GENESIS : list Z := replicate 32 0.
Definition AuditLog_new (id : list Z) : AuditLog := mkAuditLog id [] ∅ ∅ ∅ GENESIS false None false [].
Definition with_signing_key (l : AuditLog) (k : Keypair) : AuditLog :=
  mkAuditLog (node_id l) (records l) (idx_type l) (idx_subject l) (idx_resource l) (head_hash l) (sealed l) (Some k) (alert_handler l) (alerts l).
Definition with_alert_handler (l : AuditLog) : AuditLog :=
  mkAuditLog (node_id l) (records l) (idx_type l) (idx_subject l) (idx_resource l) (head_hash l) (sealed l) (signing_key l) true (alerts l).
Definition seal (l : AuditLog) : AuditLog :=
  mkAuditLog (node_id l) (records l) (idx_type l) (idx_subject l) (idx_resource l) (head_hash l) true (signing_key l) (alert_handler l) (alerts l).

Definition should_sign (e : AuditEvent) : bool :=
  match event_type e with
  | ET_Security | ET_KeyManagement => true
  | ET_Access => bool_decide (ae_sensitivity e = Some SN_Phi) || bool_decide (ae_sensitivity e = Some SN_Restricted)
  | _ => false
  end.
(** [entry(k).or_default().push(n)]. *)
Definition push_index `{Countable K} (m : gmap K (list Z)) (k : K) (n : Z) : gmap K (list Z) := <[k := default [] (m !! k) ++ [n]]> m.
Definition signed_record (l : AuditLog) (r : AuditRecord) : AuditRecord :=
  match signing_key l with Some k => if should_sign (event r) then record_sign r k else r | None => r end.
Definition log_record (l : AuditLog) (e : AuditEvent) : AuditLog * outcome AuditError Z :=
  if sealed l then (l, Err LogSealed)
  else
    let n := len (records l) in
    let r := signed_record l (AuditRecord_new n e (head_hash l)) in
    (mkAuditLog (node_id l) (records l ++ [r]) (push_index (idx_type l) (event_type e) n) (push_index (idx_subject l) (subject e) n)
       match resource e with Some x => push_index (idx_resource l) x n | None => idx_resource l end
       (rec_hash r) (sealed l) (signing_key l) (alert_handler l) (if is_alertable e && alert_handler l then alerts l ++ [e] else alerts l),
     Ok n).

Definition log_get (l : AuditLog) (n : Z) : option AuditRecord := records l !! Z.to_nat n.
Definition query (l : AuditLog) (o : option (list Z)) : list AuditRecord := match o with Some seqs => omap (log_get l) seqs | None => [] end.
Definition by_type (l : AuditLog) (t : EventType) : list AuditRecord := query l (idx_type l !! t).
Definition by_subject (l : AuditLog) (s : list Z) : list AuditRecord := query l (idx_subject l !! s).
Definition by_resource (l : AuditLog) (r : list Z) : list AuditRecord := query l (idx_resource l !! r).
Definition in_time_range (l : AuditLog) (start stop : Z) : list AuditRecord :=
  filter (λ r, start ≤ ae_timestamp (event r) ≤ stop) (records l).
Definition export_range := in_time_range.
Definition count_by_type (l : AuditLog) (start stop : Z) : gmap EventType Z :=
  foldl (λ m r, <[event_type (event r) := default 0 (m !! event_type (event r)) + 1]> m) ∅ (in_time_range l start stop).
Definition security_events (l : AuditLog) : list AuditRecord := by_type l ET_Security.
Definition phi_access_events (l : AuditLog) : list AuditRecord :=
  filter (λ r, event_type (event r) = ET_Access ∧ ae_sensitivity (event r) = Some SN_Phi) (records l).

(** The loop of [verify_chain]: records, the hash they must follow, and how many came before. *)
Fixpoint verify_from (rs : list AuditRecord) (prev : list Z) (n : Z) : ChainVerification + list Z :=
  match rs with
  | [] => inr prev
  | r :: rs =>
      if negb (bool_decide (rec_prev_hash r = prev)) then inl (mkVerification false n (Some n) prev)
      else if negb (record_verify r) then inl (mkVerification false n (Some n) prev)
      else verify_from rs (rec_hash r) (n + 1)
  end.
Definition verify_chain (l : AuditLog) : ChainVerification :=
  match verify_from (records l) GENESIS 0 with
  | inl v => v
  | inr _ => mkVerification true (len (records l)) None (head_hash l)
  end.
End Chain.

(** ** Retention *)

Inductive RetentionAction := RA_Delete | RA_Archive | RA_Anonymize | RA_Review | RA_Manual.
#[export] Instance RetentionAction_eq_dec : EqDecision RetentionAction.
Proof. solve_decision. Defined.
Record RetentionPolicy := mkRetention {
  rp_name : text; applies_to : list Sensitivity; min_days : Z; max_days : option Z; on_min_expire : RetentionAction; on_max_expire : RetentionAction;
  legal_hold_exempt : bool
}.
Definition hipaa_phi : RetentionPolicy := mkRetention (str "HIPAA PHI Retention") [SN_Phi] 2190 None RA_Archive RA_Manual false.
Definition gdpr_pii : RetentionPolicy := mkRetention (str "GDPR PII Retention") [SN_Pii] 0 (Some 1095) RA_Review RA_Delete false.
Definition audit_logs : RetentionPolicy :=
  mkRetention (str "Audit Log Retention") [SN_Public; SN_Internal; SN_Confidential; SN_Phi; SN_Pii; SN_Restricted] 2555 None RA_Archive RA_Manual false.
Definition applies (p : RetentionPolicy) (s : Sensitivity) : bool := bool_decide (s ∈ applies_to p).

Inductive RetentionStatus := RS_Active (days_remaining : Z) | RS_PastMinimum (action : RetentionAction) (days_over : Z) | RS_Expired (action : RetentionAction) (days_over : Z).
(** [((now - created_at) / 86400) as u32]: the difference wraps, and so does the number of days. *)
Definition age_in_days (created_at now : Z) : Z := ((now - created_at) mod 2 ^ 64 / 86400) mod 2 ^ 32.
Definition retention_status (p : RetentionPolicy) (created_at now : Z) : RetentionStatus :=
  let age := age_in_days created_at now in
  let rest := if min_days p <=? age then RS_PastMinimum (on_min_expire p) (age - min_days p) else RS_Active (min_days p - age) in
  match max_days p with
  | Some m => if m <=? age then RS_Expired (on_max_expire p) (age - m) else rest
  | None => rest
  end.

Inductive LifecycleEventType :=
  | LE_Created | LE_Accessed | LE_Modified | LE_Archived | LE_Restored | LE_Anonymized | LE_Deleted | LE_LegalHoldApplied | LE_LegalHoldReleased
  | LE_ReviewCompleted.
Record LifecycleEvent := mkLifecycleEvent { le_timestamp : Z; le_type : LifecycleEventType; le_details : text; triggered_by : option (list Z) }.
Record DataLifecycle := mkLifecycle {
  data_id : list Z; created_at : Z; lc_sensitivity : Sensitivity; lc_policy : text; legal_hold : bool; lc_events : list LifecycleEvent
}.
Definition add_event (d : DataLifecycle) (t : LifecycleEventType) (details : text) (by_ : option (list Z)) (ts : Z) : DataLifecycle :=
  mkLifecycle (data_id d) (created_at d) (lc_sensitivity d) (lc_policy d) (legal_hold d) (lc_events d ++ [mkLifecycleEvent ts t details by_]).
Definition DataLifecycle_new (id : list Z) (s : Sensitivity) (policy : text) (now : Z) : DataLifecycle :=
  add_event (mkLifecycle id now s policy false []) LE_Created (str "Data created") None now.
Definition set_hold (d : DataLifecycle) (b : bool) : DataLifecycle :=
  mkLifecycle (data_id d) (created_at d) (lc_sensitivity d) (lc_policy d) b (lc_events d).
Definition apply_legal_hold (d : DataLifecycle) (reason : text) (who : list Z) (now : Z) : DataLifecycle :=
  if legal_hold d then d else add_event (set_hold d true) LE_LegalHoldApplied reason (Some who) now.
Definition release_legal_hold (d : DataLifecycle) (reason : text) (who : list Z) (now : Z) : DataLifecycle :=
  if legal_hold d then add_event (set_hold d false) LE_LegalHoldReleased reason (Some who) now else d.
Definition can_delete (d : DataLifecycle) (p : RetentionPolicy) (now : Z) : bool :=
  if legal_hold d then false
  else
    match retention_status p (created_at d) now with
    | RS_Active _ => false
    | RS_PastMinimum a _ | RS_Expired a _ => bool_decide (a = RA_Delete)
    end.
Definition age_days (d : DataLifecycle) (now : Z) : Z := age_in_days (created_at d) now.

Record RetentionManager := mkManager {
  policies : gmap text RetentionPolicy; default_policies : gmap Sensitivity text; lifecycles : gmap (list Z) DataLifecycle
}.
Definition RetentionManager_new : RetentionManager :=
  mkManager (<[rp_name audit_logs := audit_logs]> (<[rp_name gdpr_pii := gdpr_pii]> (<[rp_name hipaa_phi := hipaa_phi]> ∅)))
    (<[SN_Pii := rp_name gdpr_pii]> (<[SN_Phi := rp_name hipaa_phi]> ∅)) ∅.
Definition add_policy (m : RetentionManager) (p : RetentionPolicy) : RetentionManager :=
  mkManager (<[rp_name p := p]> (policies m)) (default_policies m) (lifecycles m).
Definition set_default (m : RetentionManager) (s : Sensitivity) (name : text) : RetentionManager :=
  if decide (is_Some (policies m !! name)) then mkManager (policies m) (<[s := name]> (default_policies m)) (lifecycles m) else m.
Definition get_policy (m : RetentionManager) (s : Sensitivity) : option RetentionPolicy :=
  name ← default_policies m !! s; policies m !! name.
Definition rm_track (m : RetentionManager) (id : list Z) (s : Sensitivity) (now : Z) : RetentionManager :=
  mkManager (policies m) (default_policies m)
    (<[id := DataLifecycle_new id s (default (str "default") (default_policies m !! s)) now]> (lifecycles m)).
Definition get_lifecycle (m : RetentionManager) (id : list Z) : option DataLifecycle := lifecycles m !! id.
(** What a caller does through [get_lifecycle_mut]. *)
Definition update_lifecycle (m : RetentionManager) (id : list Z) (f : DataLifecycle → DataLifecycle) : RetentionManager :=
  mkManager (policies m) (default_policies m) (alter f id (lifecycles m)).
Definition actionable (m : RetentionManager) (now : Z) (x : list Z * DataLifecycle) : option (list Z * RetentionAction) :=
  if legal_hold x.2 then None
  else
    match get_policy m (lc_sensitivity x.2) with
    | Some p => match retention_status p (created_at x.2) now with RS_Expired a _ => Some (x.1, a) | _ => None end
    | None => None
    end.
Definition find_actionable (m : RetentionManager) (now : Z) : list (list Z * RetentionAction) := omap (actionable m now) (map_to_list (lifecycles m)).

(** ** The chain *)

Section ChainLemmas.
Context `{Blake3} `{Ed25519}.
Implicit Types (r : AuditRecord) (rs : list AuditRecord) (l : AuditLog).

Lemma verify_from_app rs rs' prev n :
  verify_from (rs ++ rs') prev n = match verify_from rs prev n with inl v => inl v | inr h => verify_from rs' h (n + len rs) end.
Proof.
  revert prev n. induction rs as [|r rs IH]; intros prev n; cbn [app verify_from]; [by rewrite len_nil, Z.add_0_r|].
  case_match; [done|]. case_match; [done|]. rewrite IH, len_cons. by replace (n + 1 + len rs) with (n + (1 + len rs)) by lia.
Qed.
Lemma verify_from_one r prev n h :
  verify_from [r] prev n = inr h ↔ rec_prev_hash r = prev ∧ rec_hash r = compute_hash r ∧ h = rec_hash r.
Proof.
  cbn [verify_from]. unfold record_verify. split.
  - case_bool_decide as E1; [|done]. case_bool_decide as E2; [|done]. by intros [= <-].
  - intros (E1 & E2 & ->). by rewrite !bool_decide_true by done.
Qed.
Lemma record_new_verifies n e prev : let r := AuditRecord_new n e prev in rec_prev_hash r = prev ∧ rec_hash r = compute_hash r.
Proof. done. Qed.
Lemma signed_record_same l r :
  let r' := signed_record l r in
  sequence r' = sequence r ∧ event r' = event r ∧ rec_prev_hash r' = rec_prev_hash r ∧ rec_hash r' = rec_hash r.
Proof. unfold signed_record. by repeat case_match. Qed.

(** *** Indexes *)

(** The positions of the records that satisfy [P], the first record at [i]. *)
Fixpoint positions (P : AuditRecord → bool) (i : Z) (rs : list AuditRecord) : list Z :=
  match rs with [] => [] | r :: rs => (if P r then [i] else []) ++ positions P (i + 1) rs end.
Lemma positions_app P i rs rs' : positions P i (rs ++ rs') = positions P i rs ++ positions P (i + len rs) rs'.
Proof.
  revert i. induction rs as [|r rs IH]; intros i; cbn [app positions]; [by rewrite len_nil, Z.add_0_r|].
  rewrite IH, len_cons, <- app_assoc. by replace (i + 1 + len rs) with (i + (1 + len rs)) by lia.
Qed.
Lemma positions_query P pre rs :
  omap (λ n, (pre ++ rs) !! Z.to_nat n) (positions P (len pre) rs) = filter (λ r, P r = true) rs.
Proof.
  revert pre. induction rs as [|r rs IH]; intros pre; [done|]. cbn [positions]. rewrite omap_app.
  pose proof (IH (pre ++ [r])) as E. rewrite <- app_assoc, len_app in E. cbn [app] in E. change (len [r]) with 1 in E. rewrite E.
  rewrite filter_cons. destruct (P r) eqn:EP; cbn; [|done]. unfold len. rewrite Nat2Z.id, list_lookup_middle by done. done.
Qed.

(** An index holds the positions of the records under each key. *)
Definition indexes `{Countable K} (key : AuditRecord → option K) (m : gmap K (list Z)) (rs : list AuditRecord) : Prop :=
  ∀ k, default [] (m !! k) = positions (λ r, bool_decide (key r = Some k)) 0 rs.
Lemma indexes_push `{Countable K} (key : AuditRecord → option K) m rs r :
  indexes key m rs → indexes key match key r with Some k => push_index m k (len rs) | None => m end (rs ++ [r]).
Proof.
  intros Hm k. rewrite positions_app. cbn [positions]. rewrite app_nil_r, Z.add_0_l, <- Hm.
  destruct (key r) as [k'|] eqn:E; [|by rewrite bool_decide_false, app_nil_r].
  unfold push_index. destruct (decide (k' = k)) as [->|Hne].
  - by rewrite lookup_insert_eq, bool_decide_true.
  - rewrite lookup_insert_ne by done. rewrite bool_decide_false, app_nil_r by congruence. done.
Qed.
Lemma indexes_query `{Countable K} (key : AuditRecord → option K) m l k :
  indexes key m (records l) → query l (m !! k) = filter (λ r, key r = Some k) (records l).
Proof.
  intros Hm. pose proof (Hm k) as E. unfold query, log_get.
  replace (match m !! k with Some seqs => omap (λ n, records l !! Z.to_nat n) seqs | None => [] end)
    with (omap (λ n, ([] ++ records l) !! Z.to_nat n) (default [] (m !! k))) by (by destruct (m !! k)).
  rewrite E. change 0 with (len (@nil AuditRecord)). rewrite positions_query. apply list_filter_iff. intros r. apply bool_decide_eq_true.
Qed.
End ChainLemmas.

(** ** A log in use *)

Inductive log_op := Op_record (e : AuditEvent) | Op_seal.
Section Runs.
Context `{Blake3} `{Ed25519}.
Implicit Types (r : AuditRecord) (rs : list AuditRecord) (l : AuditLog).

Definition log_do l (o : log_op) : AuditLog := match o with Op_record e => (log_record l e).1 | Op_seal => seal l end.
Definition log_run l (ops : list log_op) : AuditLog := foldl log_do l ops.
(** A log with its key and its handler, before anything is recorded. *)
Definition log_start (id : list Z) (key : option Keypair) (handler : bool) : AuditLog :=
  let l := AuditLog_new id in
  let l := match key with Some k => with_signing_key l k | None => l end in
  if handler then with_alert_handler l else l.
(** What is accepted: everything up to the first seal. *)
Fixpoint accepted_events (ops : list log_op) : list AuditEvent :=
  match ops with Op_record e :: ops => e :: accepted_events ops | _ => [] end.

Definition signed_as (key : option Keypair) r : Prop :=
  rec_signature r = (k ← key; if should_sign (event r) then Some (Keypair_sign k (rec_hash r)) else None).
Record log_ok l : Prop := {
  lo_chain : verify_from (records l) GENESIS 0 = inr (head_hash l);
  lo_numbers : ∀ i r, records l !! i = Some r → sequence r = Z.of_nat i;
  lo_type : indexes (λ r, Some (event_type (event r))) (idx_type l) (records l);
  lo_subject : indexes (λ r, Some (subject (event r))) (idx_subject l) (records l);
  lo_resource : indexes (λ r, resource (event r)) (idx_resource l) (records l);
  lo_signed : Forall (signed_as (signing_key l)) (records l);
  lo_alerts : alerts l = if alert_handler l then filter (λ e, is_alertable e = true) (event <$> records l) else []
}.

Lemma log_start_ok id key handler : log_ok (log_start id key handler).
Proof.
  assert (Hi : ∀ K `{Countable K} (key : AuditRecord → option K), indexes key ∅ []) by (intros K ? ? ? k; by rewrite lookup_empty).
  unfold log_start. destruct key, handler; split; try apply Hi; try done; constructor.
Qed.
Lemma signed_record_as l n e prev : signed_as (signing_key l) (signed_record l (AuditRecord_new n e prev)).
Proof.
  unfold signed_as, signed_record. destruct (signing_key l) as [k|]; [|done]. change (event (AuditRecord_new n e prev)) with e.
  destruct (should_sign e) eqn:E; cbn; by rewrite E.
Qed.
Lemma log_record_ok l e : log_ok l → log_ok (log_record l e).1.
Proof.
  intros Hl. unfold log_record. destruct (sealed l); [done|]. cbn zeta.
  pose proof (signed_record_same l (AuditRecord_new (len (records l)) e (head_hash l))) as (En & Ee & Ep & Eh).
  pose proof (signed_record_as l (len (records l)) e (head_hash l)) as Hs.
  set (r := signed_record l (AuditRecord_new (len (records l)) e (head_hash l))) in *. destruct Hl.
  split; cbn [fst records idx_type idx_subject idx_resource head_hash signing_key alert_handler alerts].
  - rewrite verify_from_app, lo_chain0. apply verify_from_one. split_and!; [done| |done]. unfold compute_hash. by rewrite En, Ee, Ep, Eh.
  - intros i r' [Hi|(Hlt & Hi)]%lookup_app_Some; [by apply lo_numbers0|].
    destruct (i - length (records l))%nat as [|k] eqn:E; [|done]. injection Hi as <-. rewrite En. cbn. unfold len. lia.
  - pose proof (indexes_push (λ r, Some (event_type (event r))) (idx_type l) (records l) r lo_type0) as Hx. cbn in Hx. by rewrite Ee in Hx.
  - pose proof (indexes_push (λ r, Some (subject (event r))) (idx_subject l) (records l) r lo_subject0) as Hx. cbn in Hx. by rewrite Ee in Hx.
  - pose proof (indexes_push (λ r, resource (event r)) (idx_resource l) (records l) r lo_resource0) as Hx. cbn in Hx. by rewrite Ee in Hx.
  - apply Forall_app. split; [done|by constructor].
  - rewrite fmap_app, filter_app. cbn [fmap list_fmap]. rewrite Ee. change (event (AuditRecord_new _ e _)) with e. rewrite filter_cons, lo_alerts0.
    destruct (alert_handler l); [|by rewrite andb_false_r]. rewrite andb_true_r. destruct (is_alertable e); cbn; [done|by rewrite app_nil_r].
Qed.
Lemma log_run_ok l ops : log_ok l → log_ok (log_run l ops).
Proof.
  revert l. induction ops as [|[e|] ops IH]; intros l Hl; [done|apply IH; by apply log_record_ok|]. apply IH. by destruct Hl.
Qed.
Lemma sealed_stays l ops : sealed l = true → log_run l ops = l.
Proof.
  intros Hl. induction ops as [|[e|] ops IH]; [done| |]; unfold log_run in *; cbn.
  - unfold log_record. by rewrite Hl.
  - replace (seal l) with l; [done|]. destruct l. cbn in Hl. by subst.
Qed.
Lemma log_run_events l ops :
  sealed l = false →
  let l' := log_run l ops in
  (event <$> records l') = (event <$> records l) ++ accepted_events ops ∧ signing_key l' = signing_key l ∧ alert_handler l' = alert_handler l ∧
  node_id l' = node_id l.
Proof.
  cbn zeta. revert l. induction ops as [|[e|] ops IH]; intros l Hl.
  - cbn. by rewrite app_nil_r.
  - unfold log_run. cbn [foldl log_do accepted_events]. fold (log_run (log_record l e).1 ops).
    unfold log_record. rewrite Hl. cbn zeta.
    match goal with |- context [log_run ?x ops] => destruct (IH x eq_refl) as (E & Ek & Ea & En); rewrite E, Ek, Ea, En end. cbn [fst records signing_key alert_handler node_id].
    pose proof (signed_record_same l (AuditRecord_new (len (records l)) e (head_hash l))) as (_ & Ee & _).
    split; [|done]. rewrite fmap_app, <- app_assoc. do 2 f_equal. cbn. by rewrite Ee.
  - unfold log_run. cbn [foldl log_do accepted_events]. fold (log_run (seal l) ops). rewrite sealed_stays by done. cbn. by rewrite app_nil_r.
Qed.
End Runs.

(** ** What tampering shows *)

Section Tamper.
Context `{Blake3} `{Ed25519}.
Implicit Types (r : AuditRecord) (rs : list AuditRecord) (l : AuditLog).

(** The widths of the fields. *)
Definition record_ok r : Prop :=
  0 ≤ sequence r < 2 ^ 64 ∧ array_ok 32 (rec_prev_hash r) ∧ 0 ≤ ae_timestamp (event r) < 2 ^ 64 ∧ array_ok 32 (subject (event r)) ∧
  match resource (event r) with Some x => array_ok 32 x | None => True end.
Definition bytes_of r : list Z := record_bytes (sequence r) (rec_prev_hash r) (event r).
(** Two records the chain cannot tell apart. *)
Definition same_cover r r' : Prop :=
  rec_hash r = rec_hash r' ∧ sequence r = sequence r' ∧ rec_prev_hash r = rec_prev_hash r' ∧ ae_timestamp (event r) = ae_timestamp (event r') ∧
  subject (event r) = subject (event r') ∧ ae_outcome (event r) = ae_outcome (event r') ∧
  default [] (resource (event r)) ++ as_bytes (ae_action (event r)) = default [] (resource (event r')) ++ as_bytes (ae_action (event r')).
(** A collision of the hash function at two records in one place. *)
Definition collides rs rs' : Prop :=
  ∃ i r r', rs !! i = Some r ∧ rs' !! i = Some r' ∧ bytes_of r ≠ bytes_of r' ∧ blake3 (bytes_of r) = blake3 (bytes_of r').

Lemma outcome_u8_inj o o' : outcome_u8 o = outcome_u8 o' → o = o'.
Proof. by destruct o, o'. Qed.
Lemma bytes_of_inj r r' : record_ok r → record_ok r' → rec_hash r = rec_hash r' → bytes_of r = bytes_of r' → same_cover r r'.
Proof.
  intros (S1 & [P1 _] & T1 & [U1 _] & _) (S2 & [P2 _] & T2 & [U2 _] & _) Eh E. unfold bytes_of, record_bytes in E.
  apply app_inj_1 in E as [En E]; [|by unfold to_le; rewrite !length_rev, !length_to_be]. apply app_inj_1 in E as [Ep E]; [|by rewrite P1, P2].
  apply app_inj_1 in E as [Et E]; [|by unfold to_le; rewrite !length_rev, !length_to_be]. apply app_inj_1 in E as [Eu E]; [|by rewrite U1, U2].
  rewrite !app_assoc in E. apply app_inj_2 in E as [Ea [= Eo]]; [|done].
  split_and!; [done| |done| |done|by apply outcome_u8_inj|done]; by apply (to_le_inj 8).
Qed.
Lemma verified_equal rs : ∀ rs' prev prev' n n' h,
  length rs = length rs' → Forall record_ok rs → Forall record_ok rs' →
  verify_from rs prev n = inr h → verify_from rs' prev' n' = inr h → prev = prev' ∧ Forall2 same_cover rs rs' ∨ collides rs rs'.
Proof.
  induction rs as [|r rs IH] using rev_ind; intros rs' prev prev' n n' h Hlen Ho Ho' Hv Hv'.
  - destruct rs'; [|done]. left. cbn in Hv, Hv'. split; [congruence|constructor].
  - destruct rs' as [|r' rs' _] using rev_ind; [by rewrite length_app, Nat.add_comm in Hlen|].
    rewrite !length_app in Hlen. cbn in Hlen. apply Forall_app in Ho as [Ho Hr], Ho' as [Ho' Hr']. apply Forall_inv in Hr, Hr'.
    rewrite verify_from_app in Hv, Hv'. destruct (verify_from rs prev n) as [|g] eqn:E; [done|]. destruct (verify_from rs' prev' n') as [|g'] eqn:E'; [done|].
    apply verify_from_one in Hv as (Hp & Hh & ->), Hv' as (Hp' & Hh' & Heq).
    destruct (decide (bytes_of r = bytes_of r')) as [Eb|Nb].
    + pose proof (bytes_of_inj r r' Hr Hr' Heq Eb) as Hc. assert (g = g') as <- by (destruct Hc as (_ & _ & Hc & _); congruence).
      destruct (IH rs' prev prev' n n' g ltac:(lia) Ho Ho' E E') as [[-> Hf]|(i & x & x' & Hx & Hx' & Hn)].
      * left. split; [done|]. apply Forall2_app; [done|by constructor].
      * right. exists i, x, x'. split_and!; [by apply lookup_app_l_Some..|apply Hn|apply Hn].
    + right. exists (length rs), r, r'. rewrite list_lookup_middle by done. assert (length rs = length rs') as -> by lia.
      rewrite list_lookup_middle by done. split_and!; [done..|]. change (compute_hash r = compute_hash r'). congruence.
Qed.
End Tamper.

Lemma sealed_run `{Blake3} `{Ed25519} l ops : sealed l = true ∨ Op_seal ∈ ops → sealed (log_run l ops) = true.
Proof.
  revert l. induction ops as [|o ops IH]; intros l; [intros [|Hin]; [done|by apply not_elem_of_nil in Hin]|].
  intros Hs. apply IH. rewrite elem_of_cons in Hs. destruct (sealed l) eqn:E; [left|destruct Hs as [?|[<-|?]]; [done|by left|by right]].
  destruct o; cbn; [|done]. unfold log_record. by rewrite E.
Qed.


(** ** Retention, as time passes *)

Definition status_rank (s : RetentionStatus) : nat := match s with RS_Active _ => 0 | RS_PastMinimum _ _ => 1 | RS_Expired _ _ => 2 end.
(** Times for which neither the difference nor the number of days wraps. *)
Definition sane_time (created now : Z) : Prop := 0 ≤ created ≤ now ∧ now < 2 ^ 48.
Lemma age_sane created now : sane_time created now → age_in_days created now = (now - created) / 86400.
Proof. intros [H1 H2]. unfold age_in_days. rewrite (Z.mod_small (now - created)) by lia. apply Z.mod_small. dlia. Qed.
Lemma status_advances p created now now' :
  sane_time created now → sane_time created now' → now ≤ now' →
  (status_rank (retention_status p created now) <= status_rank (retention_status p created now'))%nat.
Proof.
  intros H1 H2 Hle. unfold retention_status. rewrite !age_sane by done.
  assert ((now - created) / 86400 ≤ (now' - created) / 86400) by (apply Z.div_le_mono; lia).
  destruct (max_days p) as [m|]; repeat case_match; cbn; lia.
Qed.

(** What is done to the data of a manager with the default policies. *)
Inductive rm_op :=
  | Rm_track (id : list Z) (s : Sensitivity) (now : Z) | Rm_hold (id : list Z) (reason : text) (who : list Z) (now : Z)
  | Rm_release (id : list Z) (reason : text) (who : list Z) (now : Z).
Definition rm_do (m : RetentionManager) (o : rm_op) : RetentionManager :=
  match o with
  | Rm_track id s now => rm_track m id s now
  | Rm_hold id reason who now => update_lifecycle m id (λ d, apply_legal_hold d reason who now)
  | Rm_release id reason who now => update_lifecycle m id (λ d, release_legal_hold d reason who now)
  end.
Definition rm_run (ops : list rm_op) : RetentionManager := foldl rm_do RetentionManager_new ops.
Lemma rm_policies ops m s : get_policy (foldl rm_do m ops) s = get_policy m s.
Proof. revert m. induction ops as [|[] ops IH]; intros m; [done|cbn; by rewrite IH..]. Qed.
Lemma default_policy s : get_policy RetentionManager_new s = match s with SN_Phi => Some hipaa_phi | SN_Pii => Some gdpr_pii | _ => None end.
Proof. by destruct s; vm_compute. Qed.

(** The retention rules, with the default policies.  The status of data only moves forward in time; data under a
    legal hold cannot be deleted under any policy, and what can be deleted is past the end of a period whose
    action is deletion.  Of all tracked data exactly what is personal (PII), not held and at least 1095 days
    old is reported, for deletion. *)
Theorem retention_rules (ops : list rm_op) (now : Z) :
  let m := rm_run ops in
  (∀ p created t t', sane_time created t → sane_time created t' → t ≤ t' →
     (status_rank (retention_status p created t) <= status_rank (retention_status p created t'))%nat) ∧
  (∀ d p, can_delete d p now = true → sane_time (created_at d) now →
     legal_hold d = false ∧
     ((on_max_expire p = RA_Delete ∧ ∃ n, max_days p = Some n ∧ n * 86400 ≤ now - created_at d) ∨
      (on_min_expire p = RA_Delete ∧ min_days p * 86400 ≤ now - created_at d))) ∧
  (∀ d p reason who t, can_delete (apply_legal_hold d reason who t) p now = false) ∧
  (∀ id a, (∀ i d, lifecycles m !! i = Some d → sane_time (created_at d) now) →
     (id, a) ∈ find_actionable m now ↔
     ∃ d, lifecycles m !! id = Some d ∧ legal_hold d = false ∧ lc_sensitivity d = SN_Pii ∧ 1095 * 86400 ≤ now - created_at d ∧ a = RA_Delete).
Proof.
  intros m. split_and!; [intros; by apply status_advances| | |].
  - intros d p. unfold can_delete. destruct (legal_hold d); [done|]. intros Hd Hs. split; [done|]. revert Hd.
    unfold retention_status. rewrite age_sane by done. pose proof (Z.mul_div_le (now - created_at d) 86400 ltac:(lia)).
    destruct (max_days p) as [n|]; repeat case_match; intros E; try done; apply bool_decide_eq_true in E; simplify_eq; try (right; split; [done|lia]).
    left. split; [done|]. exists n. split; [done|lia].
  - intros d p reason who t. unfold can_delete, apply_legal_hold. destruct (legal_hold d) eqn:E; [by rewrite E|done].
  - intros id a Hs. unfold find_actionable. rewrite list_elem_of_omap. split.
    + intros ([i d] & Hin%elem_of_map_to_list & E). unfold actionable in E. cbn [fst snd] in E. destruct (legal_hold d) eqn:El; [done|].
      unfold m, rm_run in E. rewrite rm_policies, default_policy in E.
      destruct (lc_sensitivity d) eqn:Esn; try done; unfold retention_status in E; rewrite age_sane in E by eauto; cbn [max_days gdpr_pii hipaa_phi] in E.
      { by repeat case_match. }
      pose proof (Z.mul_div_le (now - created_at d) 86400 ltac:(lia)). destruct (Z.leb_spec 1095 ((now - created_at d) / 86400)); [|by repeat case_match].
      injection E as <- <-. exists d. split_and!; [done..|lia|done].
    + intros (d & Hd & El & Esn & Ha & ->). exists (id, d). split; [by apply elem_of_map_to_list|]. unfold actionable. cbn [fst snd]. rewrite El, Esn.
      unfold m, rm_run. rewrite rm_policies, default_policy. unfold retention_status. rewrite age_sane by eauto. cbn [max_days gdpr_pii on_max_expire].
      destruct (Z.leb_spec 1095 ((now - created_at d) / 86400)); [done|]. assert (1095 ≤ (now - created_at d) / 86400); [|lia].
      apply Z.div_le_lower_bound; lia.
Qed.

(** ** Concrete runs *)

#[local] Existing Instance prefix_digest.
#[local] Existing Instance ed_reference.
Definition sample_subject : list Z := replicate 32 1.
Definition sample_access (o : AccessOutcome) : AuditEvent := event_access sample_subject (replicate 32 2) AT_Read o SN_Phi 1000.
Definition sample_impersonation : AuditEvent := event_security (replicate 32 3) SET_Impersonation (str "Test") 5000.
Definition sample_ops : list log_op :=
  [Op_record (sample_access AO_Success); Op_record sample_impersonation; Op_record (sample_access AO_DeniedPolicy); Op_seal; Op_record sample_impersonation].
Definition sample_log : AuditLog := log_run (log_start (replicate 32 0) (Some (mkKeypair (to_be 32 7))) true) sample_ops.

Example test_access_event : is_alertable (sample_access AO_Success) = false ∧ is_alertable (sample_access AO_DeniedPrivilege) = true.
Proof. by split. Qed.
Example test_sealed_log : (log_record sample_log sample_impersonation).2 = Err LogSealed.
Proof. vm_compute. reflexivity. Qed.
Example test_by_subject_index : length (by_subject sample_log sample_subject) = 2%nat ∧ length (by_subject sample_log (replicate 32 3)) = 1%nat.
Proof. vm_compute. by split. Qed.
Example test_descriptions :
  hipaa_description (sample_access AO_Success) = str "Access Read to Phi data: Success" ∧
  hipaa_description (event_system (str "boot") [] 0) = str "System: boot".
Proof. by split. Qed.

(** The hash covers neither the type of an event nor its sensitivity, source and context: a security event
    can be turned into a system event of a public kind, and the chain still verifies. *)
Definition harmless (r : AuditRecord) : AuditRecord :=
  let e := event r in
  mkRecord (sequence r)
    (mkAuditEvent ET_System (ae_timestamp e) (subject e) (resource e) (ae_action e) (ae_outcome e) (Some SN_Public) None []) (rec_prev_hash r) (rec_hash r)
    (rec_signature r).
Definition with_records (l : AuditLog) (rs : list AuditRecord) : AuditLog :=
  mkAuditLog (node_id l) rs (idx_type l) (idx_subject l) (idx_resource l) (head_hash l) (sealed l) (signing_key l) (alert_handler l) (alerts l).
Lemma kind_not_covered `{Blake3} `{Ed25519} rs prev n : verify_from (harmless <$> rs) prev n = verify_from rs prev n.
Proof. revert prev n. induction rs as [|r rs IH]; intros prev n; [done|]. cbn -[record_bytes blake3]. by rewrite IH. Qed.
(** Nor does it separate the resource from the action: two events, one hash. *)
Example resource_action_ambiguous `{Blake3} (n : Z) (prev x : list Z) (a : text) :
  ascii_text x →
  let e r b := mkAuditEvent ET_Access 1000 sample_subject r b AO_Success None None [] in
  rec_hash (AuditRecord_new n (e (Some x) a) prev) = rec_hash (AuditRecord_new n (e None (x ++ a)) prev).
Proof.
  intros Hx. unfold AuditRecord_new, compute_hash, record_bytes. cbn [rec_hash sequence event rec_prev_hash ae_timestamp subject resource ae_action ae_outcome default].
  rewrite as_bytes_app, (as_bytes_ascii x Hx), <- !app_assoc. done.
Qed.
(** A log that lost its last records still says that it verifies, and gives the head hash it had before. *)
Example truncated_log_valid :
  verify_chain (with_records sample_log (take 1 (records sample_log))) = mkVerification true 1 None (head_hash sample_log) ∧
  (rec_hash <$> last (take 1 (records sample_log))) ≠ Some (head_hash sample_log).
Proof. split; vm_compute; [reflexivity|discriminate]. Qed.


(** Data tracked again is new data: its age starts over and a legal hold on it is gone. *)
Definition tracked (ops : list rm_op) (id : list Z) : option (Z * bool) := (λ d, (created_at d, legal_hold d)) <$> lifecycles (rm_run ops) !! id.
Example hold_lost_by_tracking :
  tracked [Rm_track [1] SN_Pii 0; Rm_hold [1] (str "Litigation") [2] 10] [1] = Some (0, true) ∧
  tracked [Rm_track [1] SN_Pii 0; Rm_hold [1] (str "Litigation") [2] 10; Rm_track [1] SN_Pii 20] [1] = Some (20, false).
Proof. split; vm_compute; reflexivity. Qed.
(** Data from a clock one second ahead is the oldest there can be: it is reported for deletion at once. *)
Example future_dated_expired : find_actionable (rm_run [Rm_track [1] SN_Pii 1001]) 1000 = [([1], RA_Delete)].
Proof. vm_compute. reflexivity. Qed.
(** Health data is never reported, not even for the archive, and an unset default policy keeps everything. *)
Example phi_never_reported : find_actionable (rm_run [Rm_track [1] SN_Phi 0; Rm_track [2] SN_Restricted 0]) (100 * 365 * 86400) = [].
Proof. vm_compute. reflexivity. Qed.
Example test_retention_status :
  retention_status hipaa_phi 0 (100 * 86400) = RS_Active 2090 ∧ retention_status hipaa_phi 0 (3000 * 86400) = RS_PastMinimum RA_Archive 810.
Proof. split; vm_compute; reflexivity. Qed.
(** The override of a classification is used by nothing but [retention_days]. *)
Example override_of_classification : retention_days (with_retention (with_phi (DataClassification_new SN_Public [] 0) [PT_Name]) 30) = 30.
Proof. done. Qed.

Lemma retention_rules_witness :
  let ops := [Rm_track [1] SN_Pii 0; Rm_track [2] SN_Pii 0; Rm_hold [2] (str "Litigation") [9] 5; Rm_track [3] SN_Phi 0] in
  ([1], RA_Delete) ∈ find_actionable (rm_run ops) (1095 * 86400) ∧ ¬ ([2], RA_Delete) ∈ find_actionable (rm_run ops) (1095 * 86400).
Proof.
  intros ops. destruct (retention_rules ops (1095 * 86400)) as (_ & _ & _ & Hf).
  assert (Hs : ∀ i d, lifecycles (rm_run ops) !! i = Some d → sane_time (created_at d) (1095 * 86400)).
  { intros i d Hd%elem_of_map_to_list. assert (Hall : Forall (λ x, created_at x.2 = 0) (map_to_list (lifecycles (rm_run ops))))
      by (apply (bool_decide_unpack _); vm_compute; exact I).
    rewrite Forall_forall in Hall. specialize (Hall _ Hd). cbn in Hall. rewrite Hall. split; lia. }
  split.
  - apply (Hf [1] RA_Delete Hs). eexists. split; [vm_compute; reflexivity|]. by vm_compute.
  - intros Hin. apply (Hf [2] RA_Delete Hs) in Hin as (d & Hd & El & _). vm_compute in Hd. injection Hd as <-. done.
Defined.
