(* ===== verification/Collector.v ===== *)
(** * External audit (axiom-audit/src/external.rs)

    The writer on a node, which chains and signs its entries and keeps them until a receipt comes; the
    collector, which checks signature and chain and stores them; and the store in a file. *)

From stdpp Require Import base numbers list gmap strings.
From S2P Require Import Prelude Types Text Intent AuditTrail Crypto.

(** ** Events *)

Inductive AuditEventType :=
  | HdlLoaded | TrustLevelChange | KeyTrustAdded | KeyRevoked | AuthAttempt | SessionEstablished | SessionTerminated | SecurityAlert
  | DataRead | DataWrite | DataDelete | CapabilityGranted | CapabilityRevoked
  | LegacyTranslation | MacClaimed | GatewayTraffic | AttackDetected
  | NodeStartup | NodeShutdown | ConfigChange | SoftwareUpdate
  | PhiAccess | ConsentChange | RetentionAction | XE_Unknown.
Definition all_audit_events : list AuditEventType :=
  [HdlLoaded; TrustLevelChange; KeyTrustAdded; KeyRevoked; AuthAttempt; SessionEstablished; SessionTerminated; SecurityAlert;
   DataRead; DataWrite; DataDelete; CapabilityGranted; CapabilityRevoked; LegacyTranslation; MacClaimed; GatewayTraffic; AttackDetected;
   NodeStartup; NodeShutdown; ConfigChange; SoftwareUpdate; PhiAccess; ConsentChange; RetentionAction].
Definition event_code (t : AuditEventType) : Z :=
  match t with
  | HdlLoaded => 1 | TrustLevelChange => 2 | KeyTrustAdded => 3 | KeyRevoked => 4 | AuthAttempt => 5 | SessionEstablished => 6
  | SessionTerminated => 7 | SecurityAlert => 8
  | DataRead => 256 | DataWrite => 257 | DataDelete => 258 | CapabilityGranted => 259 | CapabilityRevoked => 260
  | LegacyTranslation => 512 | MacClaimed => 513 | GatewayTraffic => 514 | AttackDetected => 515
  | NodeStartup => 768 | NodeShutdown => 769 | ConfigChange => 770 | SoftwareUpdate => 771
  | PhiAccess => 1024 | ConsentChange => 1025 | RetentionAction => 1026 | XE_Unknown => 65535
  end.
Definition from_u16 (v : Z) : AuditEventType := default XE_Unknown (snd <$> list_find (λ t, event_code t = v) all_audit_events).
Definition is_critical (t : AuditEventType) : bool :=
  match t with
  | HdlLoaded | TrustLevelChange | KeyTrustAdded | KeyRevoked | SecurityAlert | AttackDetected | PhiAccess => true
  | _ => false
  end.
#[export] Instance AuditEventType_eq_dec : EqDecision AuditEventType.
Proof. solve_decision. Defined.

Record ExternalAuditEntry := mkEntry {
  entry_id : Z; xe_node_id : list Z; timestamp_ms : Z; xe_prev_hash : list Z; xe_type : AuditEventType; xe_payload : list Z; entry_hash : list Z;
  xe_signature : list Z
}.
#[export] Instance ExternalAuditEntry_eq_dec : EqDecision ExternalAuditEntry.
Proof. solve_decision. Defined.
Record WitnessReceipt := mkReceipt {
  rc_entry_id : Z; rc_entry_hash : list Z; rc_collector_id : list Z; received_at_ms : Z; collector_signature : list Z; chain_position : Z
}.
Record PendingEntry := mkPending { p_entry : ExternalAuditEntry; attempts : Z; first_sent_ms : Z }.
Record CollectorEndpoint := mkEndpoint { ep_node_id : list Z; address : text; is_healthy : bool; last_success_ms : Z }.
Record WriterConfig := mkWriterConfig { wc_max_pending : Z; retry_timeout_ms : Z; wc_max_retries : Z; require_receipt_for_critical : bool }.
Definition WriterConfig_default : WriterConfig := mkWriterConfig 1000 5000 10 true.
Record ExternalAuditWriter := mkWriter {
  w_node_id : list Z; w_signing_key : list Z; next_entry_id : Z; w_prev_hash : list Z; pending : list PendingEntry;
  collectors : list CollectorEndpoint; config : WriterConfig
}.
Inductive ExternalAuditError :=
  | NoCollectors | CollectorsUnreachable | InvalidReceipt | QueueFull | CriticalNotAcknowledged | ChainError | SerializationError.

Definition GENESIS : list Z := replicate 32 0.
Definition writer_new (id key : list Z) : ExternalAuditWriter := mkWriter id key 1 GENESIS [] [] WriterConfig_default.
Definition add_collector (w : ExternalAuditWriter) (c : CollectorEndpoint) : ExternalAuditWriter :=
  mkWriter (w_node_id w) (w_signing_key w) (next_entry_id w) (w_prev_hash w) (pending w) (collectors w ++ [c]) (config w).
Definition with_config (w : ExternalAuditWriter) (c : WriterConfig) : ExternalAuditWriter :=
  mkWriter (w_node_id w) (w_signing_key w) (next_entry_id w) (w_prev_hash w) (pending w) (collectors w) c.
Definition set_pending (w : ExternalAuditWriter) (l : list PendingEntry) : ExternalAuditWriter :=
  mkWriter (w_node_id w) (w_signing_key w) (next_entry_id w) (w_prev_hash w) l (collectors w) (config w).

(** ** The writer *)

Section Writer.
Context `{Blake3} `{Ed25519}.

Definition compute_hash (id : Z) (node : list Z) (ts : Z) (prev : list Z) (t : AuditEventType) (payload : list Z) : list Z :=
  blake3 (to_be 8 id ++ node ++ to_be 8 ts ++ prev ++ to_be 2 (event_code t) ++ payload).
(** The entry [log] makes. *)
Definition make_entry (w : ExternalAuditWriter) (t : AuditEventType) (payload : list Z) (ts : Z) : ExternalAuditEntry :=
  let h := compute_hash (next_entry_id w) (w_node_id w) ts (w_prev_hash w) t payload in
  mkEntry (next_entry_id w) (w_node_id w) ts (w_prev_hash w) t payload h (ed_sign (w_signing_key w) h).
Definition writer_log (w : ExternalAuditWriter) (t : AuditEventType) (payload : list Z) (ts : Z) : ExternalAuditWriter * outcome ExternalAuditError Z :=
  if decide (collectors w = []) then (w, Err NoCollectors)
  else if wc_max_pending (config w) <=? len (pending w) then (w, Err QueueFull)
  else
    let e := make_entry w t payload ts in
    (mkWriter (w_node_id w) (w_signing_key w) (u64_add (next_entry_id w) 1) (entry_hash e) (pending w ++ [mkPending e 0 ts]) (collectors w) (config w),
     Ok (entry_id e)).
(** A text with its length, as [u16], before it. *)
Definition prefixed (s : text) : list Z := to_be 2 (len (as_bytes s) mod 2 ^ 16) ++ as_bytes s.
Definition log_hdl_loaded (w : ExternalAuditWriter) (hdl_hash signer : list Z) (device_name : text) (ts : Z) :=
  writer_log w HdlLoaded (hdl_hash ++ signer ++ prefixed device_name) ts.
Definition log_security_alert (w : ExternalAuditWriter) (alert_type severity : Z) (description : text) (ts : Z) :=
  writer_log w SecurityAlert (to_be 2 alert_type ++ [severity] ++ prefixed description) ts.
Definition log_trust_change (w : ExternalAuditWriter) (peer : list Z) (old_level new_level ts : Z) :=
  writer_log w TrustLevelChange (peer ++ [old_level; new_level]) ts.
Definition log_legacy_translation (w : ExternalAuditWriter) (node ipv4 : list Z) (bytes_transferred ts : Z) :=
  writer_log w LegacyTranslation (node ++ ipv4 ++ to_be 8 bytes_transferred) ts.

Definition receipt_message (id : Z) (h : list Z) (at_ms : Z) : list Z := to_be 8 id ++ h ++ to_be 8 at_ms.
Definition verify_collector_signature (r : WitnessReceipt) : bool :=
  ed_valid_key (rc_collector_id r) &&
  ed_verify (rc_collector_id r) (receipt_message (rc_entry_id r) (rc_entry_hash r) (received_at_ms r)) (collector_signature r).
(** A receipt for an entry that is not pending changes nothing. *)
Definition process_receipt (w : ExternalAuditWriter) (r : WitnessReceipt) : ExternalAuditWriter * outcome ExternalAuditError unit :=
  match list_find (λ p, entry_id (p_entry p) = rc_entry_id r) (pending w) with
  | Some (i, p) =>
      if negb (bool_decide (rc_entry_hash r = entry_hash (p_entry p))) then (w, Err InvalidReceipt)
      else if negb (verify_collector_signature r) then (w, Err InvalidReceipt)
      else (set_pending w (delete i (pending w)), Ok tt)
  | None => (w, Ok tt)
  end.
Definition get_pending_entries (w : ExternalAuditWriter) : list ExternalAuditEntry := p_entry <$> pending w.
Definition pending_count (w : ExternalAuditWriter) : Z := len (pending w).
Definition has_pending_critical (w : ExternalAuditWriter) : bool := existsb (λ p, is_critical (xe_type (p_entry p))) (pending w).
End Writer.

(** ** The collector *)

Record ChainState := mkChainState { last_entry_id : Z; last_hash : list Z; entry_count : Z }.
Definition ChainState_zero : ChainState := mkChainState 0 GENESIS 0.
(** [append]; the other functions of the trait are not called. *)
Class ImmutableStore (S : Type) := { store_append : S → ExternalAuditEntry → S * outcome ExternalAuditError Z }.
Record ExternalAuditCollector (S : Type) := mkCollector {
  c_id : list Z; c_signing_key : list Z; store : S; chain_state : gmap (list Z) ChainState
}.
Arguments mkCollector {S} _ _ _ _.
Arguments c_id {S} _.
Arguments c_signing_key {S} _.
Arguments store {S} _.
Arguments chain_state {S} _.

Section Collector.
Context `{Ed25519} {S : Type} `{ImmutableStore S}.
Implicit Types (c : ExternalAuditCollector S).

Definition collector_new (id key : list Z) (s : S) : ExternalAuditCollector S := mkCollector id key s ∅.
Definition set_chain c (node : list Z) (st : ChainState) (s : S) : ExternalAuditCollector S :=
  mkCollector (c_id c) (c_signing_key c) s (<[node := st]> (chain_state c)).
Definition verify_entry_signature (e : ExternalAuditEntry) : bool :=
  ed_valid_key (xe_node_id e) && ed_verify (xe_node_id e) (entry_hash e) (xe_signature e).
Definition sign_receipt c (id : Z) (h : list Z) (at_ms : Z) : list Z := ed_sign (c_signing_key c) (receipt_message id h at_ms).
Definition receive_entry c (e : ExternalAuditEntry) (now_ms : Z) : ExternalAuditCollector S * outcome ExternalAuditError WitnessReceipt :=
  if negb (verify_entry_signature e) then (c, Err InvalidReceipt)
  else
    let st := default ChainState_zero (chain_state c !! xe_node_id e) in
    let c := set_chain c (xe_node_id e) st (store c) in
    if negb (bool_decide (xe_prev_hash e = last_hash st)) then (c, Err ChainError)
    else if negb (entry_id e =? u64_add (last_entry_id st) 1) && negb ((last_entry_id st =? 0) && (entry_id e =? 1)) then (c, Err ChainError)
    else
      match store_append (store c) e with
      | (s, Ok position) =>
          let st := mkChainState (entry_id e) (entry_hash e) (u64_add (entry_count st) 1) in
          (set_chain c (xe_node_id e) st s,
           Ok (mkReceipt (entry_id e) (entry_hash e) (c_id c) now_ms (sign_receipt c (entry_id e) (entry_hash e) now_ms) position))
      | (s, Err er) => (set_chain c (xe_node_id e) st s, Err er)
      | (s, Panic) => (c, Panic)
      end.
End Collector.

(** ** The store in a file *)

(** What becomes of a write: all of it, or a failure after some characters. *)
Inductive write_result := WriteDone | WriteFailed (k : nat).
(** The text of the file, the counters, and the results of the writes to come (all good after those given). *)
Record FileImmutableStore := mkFileStore { fs_text : text; fs_count : Z; fs_last_hash : list Z; fs_io : list write_result }.
Section FileStore.
Context `{HexCodec}.
(** [{:016x}]. *)
Definition hex16 (n : Z) : text := flat_map fmt_02x (to_be 8 n).
Definition entry_line (e : ExternalAuditEntry) : text := str "ENTRY:" ++ hex16 (entry_id e) ++ str ":" ++ hex_encode (entry_hash e) ++ [10].
Definition file_open (contents : text) (io : list write_result) : FileImmutableStore :=
  mkFileStore contents (len (filter (λ l, starts_with l (str "ENTRY:") = true) (lines contents))) GENESIS io.
#[export] Instance FileImmutableStore_store : ImmutableStore FileImmutableStore := {|
  store_append s e :=
    match fs_io s with
    | WriteFailed k :: io => (mkFileStore (fs_text s ++ take k (entry_line e)) (fs_count s) (fs_last_hash s) io, Err SerializationError)
    | io => (mkFileStore (fs_text s ++ entry_line e) (u64_add (fs_count s) 1) (entry_hash e) (drop 1 io), Ok (fs_count s))
    end |}.
Definition file_len (s : FileImmutableStore) : Z := fs_count s.
(** [read] and [verify_chain] of the file store look at nothing. *)
Definition file_read (s : FileImmutableStore) (position : Z) : option ExternalAuditEntry := None.
Definition file_verify_chain (s : FileImmutableStore) : bool := true.
End FileStore.

(** ** Chains of entries *)

Section Protocol.
Context `{Blake3} `{Ed25519} {S : Type} `{ImmutableStore S}.
Implicit Types (c : ExternalAuditCollector S) (e : ExternalAuditEntry) (es : list ExternalAuditEntry) (w : ExternalAuditWriter).

(** Entries of one node that follow number [n] and hash [h]. *)
Fixpoint chained (node h : list Z) (n : Z) es : Prop :=
  match es with
  | [] => True
  | e :: es => xe_node_id e = node ∧ entry_id e = n + 1 ∧ xe_prev_hash e = h ∧ verify_entry_signature e = true ∧ chained node (entry_hash e) (n + 1) es
  end.
Definition end_hash (h : list Z) es : list Z := default h (entry_hash <$> last es).
Lemma chained_snoc node h n es e :
  chained node h n es → xe_node_id e = node → entry_id e = n + len es + 1 → xe_prev_hash e = end_hash h es → verify_entry_signature e = true →
  chained node h n (es ++ [e]).
Proof.
  revert h n. induction es as [|x es IH]; intros h n Hc Hn Hi Hp Hv; cbn [app chained].
  - rewrite len_nil in Hi. split_and!; [done|lia|done..].
  - destruct Hc as (? & ? & ? & ? & Hc). split_and!; [done..|]. rewrite len_cons in Hi. apply IH; [done|done|lia| |done].
    rewrite Hp. unfold end_hash. by destruct es as [|y es] using rev_ind; [|rewrite app_comm_cons, !last_snoc].
Qed.
Lemma end_hash_snoc h es e : end_hash h (es ++ [e]) = entry_hash e.
Proof. unfold end_hash. by rewrite last_snoc. Qed.

(** A collector that is sent entries by anybody, and what it accepts. *)
Fixpoint collect c (ins : list (ExternalAuditEntry * Z)) : ExternalAuditCollector S * list ExternalAuditEntry :=
  match ins with
  | [] => (c, [])
  | (e, now) :: ins =>
      let '(c, r) := receive_entry c e now in
      let '(c, es) := collect c ins in
      (c, match r with Ok _ => e :: es | _ => es end)
  end.
Definition state_of c (node : list Z) : ChainState := default ChainState_zero (chain_state c !! node).
(** What the collector remembers of a node is where its chain of accepted entries ends. *)
Definition follows c node es : Prop :=
  chained node GENESIS 0 es ∧ last_entry_id (state_of c node) = len es ∧ last_hash (state_of c node) = end_hash GENESIS es.
Lemma receive_ok c e now c' r :
  receive_entry c e now = (c', Ok r) →
  verify_entry_signature e = true ∧ xe_prev_hash e = last_hash (state_of c (xe_node_id e)) ∧
  entry_id e = u64_add (last_entry_id (state_of c (xe_node_id e))) 1 ∧
  last_entry_id (state_of c' (xe_node_id e)) = entry_id e ∧ last_hash (state_of c' (xe_node_id e)) = entry_hash e ∧
  rc_entry_id r = entry_id e ∧ rc_entry_hash r = entry_hash e ∧ rc_collector_id r = c_id c.
Proof.
  unfold receive_entry. fold (state_of c (xe_node_id e)). set (st := state_of c (xe_node_id e)).
  destruct (verify_entry_signature e); [|done]. case_bool_decide as E1; [|done]. cbn [negb].
  destruct (negb _ && negb _) eqn:E2; [done|]. cbn [store set_chain]. destruct (store_append (store c) e) as [s [pos|er|]]; [|done..].
  intros [= <- <-]. assert (Hs : ∀ x s', state_of (set_chain (set_chain c (xe_node_id e) st (store c)) (xe_node_id e) x s') (xe_node_id e) = x)
    by (intros; unfold state_of, set_chain; cbn; by rewrite lookup_insert_eq).
  rewrite Hs. cbn. split_and!; try done. apply andb_false_iff in E2 as [E2|E2]; apply negb_false_iff in E2; [lia|].
  apply andb_true_iff in E2 as [E2 E3]. apply Z.eqb_eq in E2, E3. by rewrite E2, E3.
Qed.
Lemma receive_other c e now c' r node : receive_entry c e now = (c', r) → node ≠ xe_node_id e ∨ (∀ x, r ≠ Ok x) → state_of c' node = state_of c node.
Proof.
  assert (Hs : ∀ c0 x s', state_of c0 (xe_node_id e) = x ∨ node ≠ xe_node_id e → state_of (set_chain c0 (xe_node_id e) x s') node = state_of c0 node).
  { intros c0 x s' Hx. unfold state_of, set_chain. cbn. destruct (decide (node = xe_node_id e)) as [->|Hne].
    - rewrite lookup_insert_eq. cbn. by destruct Hx as [<-|].
    - by rewrite lookup_insert_ne. }
  unfold receive_entry. fold (state_of c (xe_node_id e)). intros E Hn. revert E.
  assert (Hb : state_of (set_chain c (xe_node_id e) (state_of c (xe_node_id e)) (store c)) node = state_of c node) by (apply Hs; by left).
  repeat (case_match; try by intros [= <- <-]). 
  - intros [= <- <-]. rewrite Hs; [done|]. destruct Hn as [?|Hr]; [by right|]. exfalso. by eapply Hr.
  - intros [= <- <-]. rewrite Hs; [done|]. left. unfold state_of, set_chain. cbn. by rewrite lookup_insert_eq.
Qed.

Definition accepted_of (r : outcome ExternalAuditError WitnessReceipt) e node : list ExternalAuditEntry :=
  match r with Ok _ => if decide (xe_node_id e = node) then [e] else [] | _ => [] end.
Lemma receive_follows c e now c' r node es :
  receive_entry c e now = (c', r) → follows c node es → len es < 2 ^ 64 - 1 → follows c' node (es ++ accepted_of r e node).
Proof.
  intros E (Hc & Hi & Hh) Hlen.
  assert (Hsame : node ≠ xe_node_id e ∨ (∀ x, r ≠ Ok x) → follows c' node es).
  { intros Hn. unfold follows. by rewrite (receive_other c e now c' r node E Hn). }
  unfold accepted_of. destruct r as [r|er|]; [|rewrite app_nil_r; apply Hsame; by right..].
  destruct (decide (xe_node_id e = node)) as [<-|Hne]; [|rewrite app_nil_r; apply Hsame; left; congruence].
  apply receive_ok in E as (Hv & Hp & Hid & Hi' & Hh' & _). rewrite Hi in Hid. unfold u64_add in Hid. pose proof (len_nonneg es).
  rewrite Z.mod_small in Hid by lia. unfold follows. rewrite Hi', Hh', len_app, end_hash_snoc. change (len [e]) with 1. split_and!; [|lia|done].
  apply chained_snoc; [done|done|lia|congruence|done].
Qed.
Lemma collect_follows ins : ∀ c c' es node es0,
  collect c ins = (c', es) → follows c node es0 → len es0 + len ins < 2 ^ 64 - 1 → follows c' node (es0 ++ filter (λ e, xe_node_id e = node) es).
Proof.
  induction ins as [|[e now] ins IH]; intros c c' es node es0 E Hf Hlen; cbn [collect] in E.
  - injection E as <- <-. by rewrite app_nil_r.
  - destruct (receive_entry c e now) as [c1 r] eqn:Er. destruct (collect c1 ins) as [c2 es2] eqn:Ec. injection E as <- <-.
    rewrite len_cons in Hlen. pose proof (len_nonneg ins). pose proof (receive_follows c e now c1 r node es0 Er Hf ltac:(lia)) as Hf1.
    assert (Hl : len (es0 ++ accepted_of r e node) ≤ len es0 + 1).
    { rewrite len_app. unfold accepted_of. destruct r; [case_decide|..]; unfold len; cbn; lia. }
    pose proof (IH _ _ _ node _ Ec Hf1 ltac:(lia)) as Hf2. unfold accepted_of in Hf2. rewrite <- app_assoc in Hf2.
    destruct r; cbn [app] in Hf2; [|done..]. rewrite filter_cons. by case_decide.
Qed.
Lemma collect_length ins c : (length (collect c ins).2 <= length ins)%nat.
Proof.
  revert c. induction ins as [|[e now] ins IH]; intros c; [done|]. cbn [collect]. destruct (receive_entry c e now) as [c1 r]. specialize (IH c1).
  destruct (collect c1 ins) as [c2 es]. cbn in *. destruct r; cbn; lia.
Qed.
Lemma new_follows id key s node : follows (collector_new id key s) node [].
Proof. unfold follows, state_of. cbn. by rewrite lookup_empty. Qed.
Lemma chained_numbers node h n es e : chained node h n es → e ∈ es → n < entry_id e ≤ n + len es ∧ xe_node_id e = node ∧ verify_entry_signature e = true.
Proof.
  revert h n. induction es as [|x es IH]; intros h n Hc He; [by apply not_elem_of_nil in He|]. destruct Hc as (Hn & Hi & _ & Hv & Hc).
  rewrite len_cons. pose proof (len_nonneg es). apply elem_of_cons in He as [->|He]; [split; [lia|done]|].
  destruct (IH _ _ Hc He) as (? & ? & ?). split; [lia|done].
Qed.
(** What was accepted is never accepted again, so no second receipt is ever made for it. *)
Lemma accepted_refused c node es e now :
  follows c node es → len es < 2 ^ 64 - 1 → e ∈ es → (receive_entry c e now).2 = Err ChainError.
Proof.
  intros (Hc & Hi & Hh) Hlen He. destruct (chained_numbers _ _ _ _ e Hc He) as (Hid & <- & Hv).
  assert (Hne : ∀ c' r, receive_entry c e now ≠ (c', Ok r)).
  { intros c' r E. apply receive_ok in E as (_ & _ & E & _). rewrite Hi in E. unfold u64_add in E. pose proof (len_nonneg es). rewrite Z.mod_small in E by lia. lia. }
  revert Hne. unfold receive_entry. rewrite Hv. fold (state_of c (xe_node_id e)). rewrite Hi. cbn [negb]. case_match; [done|].
  destruct (negb _ && negb _) eqn:E2; [done|]. exfalso. unfold u64_add in E2. pose proof (len_nonneg es). rewrite Z.mod_small in E2 by lia.
  apply andb_false_iff in E2 as [E2|E2]; apply negb_false_iff in E2; [lia|]. apply andb_true_iff in E2 as [E2 E3]. lia.
Qed.
End Protocol.

(** ** An honest writer and an honest collector *)

Section Exchange.
Context `{Blake3} `{Ed25519} {S : Type} `{ImmutableStore S}.
Implicit Types (c : ExternalAuditCollector S) (e : ExternalAuditEntry) (es : list ExternalAuditEntry) (w : ExternalAuditWriter).

Definition audit_event := (AuditEventType * list Z * Z)%type.
Definition writer_logs w (evs : list audit_event) : ExternalAuditWriter := foldl (λ w x, (writer_log w x.1.1 x.1.2 x.2).1) w evs.
Definition event_of e : audit_event := (xe_type e, xe_payload e, timestamp_ms e).
(** A writer under its own key whose entries are all still pending. *)
Definition writer_ok w es : Prop :=
  (array_ok 32 (w_signing_key w) ∧ w_node_id w = ed_public (w_signing_key w) ∧ collectors w ≠ []) ∧
  get_pending_entries w = es ∧ chained (w_node_id w) GENESIS 0 es ∧ next_entry_id w = len es + 1 ∧ w_prev_hash w = end_hash GENESIS es.
Lemma writer_log_ok w es t payload ts :
  writer_ok w es → len es < wc_max_pending (config w) → len es < 2 ^ 64 - 2 →
  let r := writer_log w t payload ts in
  r.2 = Ok (len es + 1) ∧ writer_ok r.1 (es ++ [make_entry w t payload ts]) ∧ config r.1 = config w ∧ w_node_id r.1 = w_node_id w.
Proof.
  intros ((Hk & Hn & Hc) & Hp & Hch & Hid & Hh) Hlt Hw. unfold writer_log. rewrite decide_False by done.
  assert (Hlen : len (pending w) = len es) by (rewrite <- Hp; unfold get_pending_entries, len; by rewrite length_fmap).
  rewrite Hlen. destruct (Z.leb_spec (wc_max_pending (config w)) (len es)); [lia|]. cbn zeta. cbn [fst snd]. pose proof (len_nonneg es).
  split; [cbn [entry_id make_entry]; by rewrite Hid|]. split; [|done]. unfold writer_ok. cbn [w_signing_key w_node_id collectors next_entry_id w_prev_hash].
  split_and!; [done..| | | |].
  - unfold get_pending_entries in *. cbn [pending]. by rewrite fmap_app, Hp.
  - apply chained_snoc; [done|done|cbn [entry_id make_entry]; lia|done|]. unfold verify_entry_signature. cbn [xe_node_id entry_hash xe_signature make_entry].
    rewrite Hn, ed_public_valid by done. by rewrite (ed_strict_implies _ _ _ (ed_sign_verifies _ _ Hk)).
  - rewrite Hid, len_app. unfold u64_add. rewrite Z.mod_small by lia. change (len [make_entry w t payload ts]) with 1. lia.
  - by rewrite end_hash_snoc.
Qed.
Lemma writer_logs_ok evs : ∀ w es,
  writer_ok w es → len es + len evs ≤ wc_max_pending (config w) → len es + len evs < 2 ^ 64 - 2 →
  ∃ es', writer_ok (writer_logs w evs) (es ++ es') ∧ map event_of es' = evs ∧ w_node_id (writer_logs w evs) = w_node_id w.
Proof.
  induction evs as [|[[t payload] ts] evs IH]; intros w es Hw Hl Hb; [exists []; by rewrite app_nil_r|].
  rewrite len_cons in Hl, Hb. pose proof (len_nonneg evs).
  destruct (writer_log_ok w es t payload ts Hw ltac:(lia) ltac:(lia)) as (_ & Hw' & Ec & En). unfold writer_logs. cbn [foldl fst snd].
  destruct (IH (writer_log w t payload ts).1 _ Hw') as (es' & Hes & Em & En').
  1,2: rewrite ?Ec, len_app; change (len [make_entry w t payload ts]) with 1; lia.
  exists (make_entry w t payload ts :: es'). rewrite <- app_assoc in Hes. split_and!; [done|by cbn; rewrite Em|by rewrite <- En].
Qed.

(** Each entry is sent, and its receipt comes back. *)
Fixpoint exchange c w (ins : list (ExternalAuditEntry * Z)) : ExternalAuditCollector S * ExternalAuditWriter :=
  match ins with
  | [] => (c, w)
  | (e, now) :: ins =>
      let '(c, r) := receive_entry c e now in
      exchange c match r with Ok r => (process_receipt w r).1 | _ => w end ins
  end.
Context (good : S → Prop) (Hgood : ∀ s e, good s → ∃ s' n, store_append s e = (s', Ok n) ∧ good s').
Definition collector_ok c : Prop := array_ok 32 (c_signing_key c) ∧ c_id c = ed_public (c_signing_key c) ∧ good (store c).
Lemma receive_next c e now node es :
  collector_ok c → follows c node es → len es < 2 ^ 64 - 1 →
  xe_node_id e = node → entry_id e = len es + 1 → xe_prev_hash e = end_hash GENESIS es → verify_entry_signature e = true →
  ∃ c' r, receive_entry c e now = (c', Ok r) ∧ collector_ok c' ∧ follows c' node (es ++ [e]) ∧
    rc_entry_id r = entry_id e ∧ rc_entry_hash r = entry_hash e ∧ verify_collector_signature r = true.
Proof.
  intros (Hk & Hc & Hg) Hf Hlen Hn Hi Hp Hv. destruct (Hgood (store c) e Hg) as (s' & pos & Hs & Hg').
  pose proof (len_nonneg es). destruct (receive_entry c e now) as [c' r] eqn:E. pose proof (receive_follows c e now c' r node es E Hf Hlen) as Hf'.
  revert E. unfold receive_entry. destruct Hf as (_ & Hid & Hh). fold (state_of c (xe_node_id e)). rewrite Hn, Hv, Hid, Hh.
  rewrite bool_decide_true by done. unfold u64_add at 1. rewrite Z.mod_small by lia. rewrite Hi, Z.eqb_refl. cbn [negb andb store set_chain]. rewrite Hs.
  intros [= <- <-]. eexists _, _. split; [done|]. split; [done|]. unfold accepted_of in Hf'. rewrite decide_True in Hf' by done.
  split; [exact Hf'|]. split_and!; [done..|]. unfold verify_collector_signature, sign_receipt. cbn. rewrite Hc, ed_public_valid by done.
  by rewrite (ed_strict_implies _ _ _ (ed_sign_verifies _ _ Hk)).
Qed.
Lemma process_head_receipt w p ps r :
  pending w = p :: ps → rc_entry_id r = entry_id (p_entry p) → rc_entry_hash r = entry_hash (p_entry p) → verify_collector_signature r = true →
  process_receipt w r = (set_pending w ps, Ok tt).
Proof.
  intros Hp Hi Hh Hv. unfold process_receipt. rewrite Hp. cbn [list_find]. rewrite decide_True by done. cbn. by rewrite bool_decide_true, Hv by done.
Qed.
Lemma exchange_all todo : ∀ c w node es nows,
  collector_ok c → follows c node es → chained node (end_hash GENESIS es) (len es) todo → get_pending_entries w = todo →
  length nows = length todo → len es + len todo < 2 ^ 64 - 1 →
  let r := exchange c w (zip todo nows) in
  collector_ok r.1 ∧ follows r.1 node (es ++ todo) ∧ pending r.2 = [] ∧ (collect c (zip todo nows)).2 = todo.
Proof.
  induction todo as [|e todo IH]; intros c w node es [|now nows] Hc Hf Hch Hp Hn Hl; try done.
  - cbn. rewrite app_nil_r. unfold get_pending_entries in Hp. apply fmap_nil_inv in Hp. done.
  - destruct Hch as (He & Hi & Hpr & Hv & Hch). rewrite len_cons in Hl. pose proof (len_nonneg todo).
    destruct (receive_next c e now node es Hc Hf ltac:(lia) He Hi Hpr Hv) as (c' & r & E & Hc' & Hf' & Ri & Rh & Rv).
    unfold get_pending_entries in Hp. destruct (pending w) as [|p ps] eqn:Ep; [done|]. cbn in Hp. injection Hp as <- Hps.
    cbn [zip zip_with exchange collect]. rewrite E, (process_head_receipt w p ps r Ep Ri Rh Rv). cbn [fst].
    destruct (IH c' (set_pending w ps) node (es ++ [p_entry p]) nows Hc' Hf') as (Ho & Hfo & Hpo & Hco).
    + by rewrite end_hash_snoc, len_app.
    + done.
    + by injection Hn.
    + rewrite len_app. change (len [p_entry p]) with 1. lia.
    + rewrite <- app_assoc in Hfo. split_and!; [done..|]. destruct (collect c' (zip todo nows)) as [c2 es2]. cbn in Hco |- *. by rewrite Hco.
Qed.
End Exchange.

(** C5: what the collector holds of a node is one chain.  Whatever anybody sends, the entries accepted under a node's name
    are numbered from one without a gap, each links to the hash of the one before, and each hash is signed
    with the node's key; and an entry that was accepted is refused ever after.  When an honest writer logs
    any events, not more than it may keep pending, and its entries reach a collector whose store works, all of
    them are accepted, in order and with what was logged, the receipts verify, and nothing stays pending. *)
Theorem external_audit `{Blake3} `{Ed25519} {S : Type} `{ImmutableStore S} (cid ck : list Z) (s : S) :
  (∀ ins, len ins < 2 ^ 64 - 1 →
     let r := collect (collector_new cid ck s) ins in
     (∀ node, chained node GENESIS 0 (filter (λ e, xe_node_id e = node) r.2)) ∧
     ∀ e now, e ∈ r.2 → (receive_entry r.1 e now).2 = Err ChainError) ∧
  (∀ (good : S → Prop) wk endpoint cfg evs nows,
     good s → (∀ s e, good s → ∃ s' n, store_append s e = (s', Ok n) ∧ good s') →
     array_ok 32 ck → cid = ed_public ck → array_ok 32 wk → len evs ≤ wc_max_pending cfg → len evs < 2 ^ 64 - 2 → length nows = length evs →
     let w := writer_logs (with_config (add_collector (writer_new (ed_public wk) wk) endpoint) cfg) evs in
     let es := get_pending_entries w in
     map event_of es = evs ∧ (collect (collector_new cid ck s) (zip es nows)).2 = es ∧
     let r := exchange (collector_new cid ck s) w (zip es nows) in
     pending r.2 = [] ∧ last_entry_id (state_of r.1 (ed_public wk)) = len evs).
Proof.
  split.
  - intros ins Hlen r. pose proof (collect_follows ins (collector_new cid ck s) r.1 r.2) as Hf. unfold r in *. destruct (collect _ ins) as [c es] eqn:Ec. cbn [fst snd] in *.
    assert (Hn : ∀ node, follows c node (filter (λ e, xe_node_id e = node) es)) by (intros node; by apply (Hf node [] eq_refl (new_follows _ _ _ _))).
    split; [intros node; apply Hn|]. intros e now He. apply (accepted_refused c (xe_node_id e) (filter (λ x, xe_node_id x = xe_node_id e) es)); [apply Hn| |by apply list_elem_of_filter].
    pose proof (collect_length ins (collector_new cid ck s)) as Hl. rewrite Ec in Hl. cbn in Hl.
    pose proof (length_filter (λ x, xe_node_id x = xe_node_id e) es). unfold len in *. lia.
  - intros good wk endpoint cfg evs nows Hg Hgood Hck Hcid Hwk Hmax Hb Hn w es.
    assert (Hw0 : writer_ok (with_config (add_collector (writer_new (ed_public wk) wk) endpoint) cfg) []) by done.
    destruct (writer_logs_ok evs _ [] Hw0) as (es' & Hw & Em & En); [cbn; unfold len; cbn; fold (len evs); lia..|].
    fold w in Hw, En. cbn [app] in Hw. destruct Hw as (_ & Hp & Hch & _). assert (es = es') as -> by done.
    assert (Hlen : length es' = length evs) by (by rewrite <- Em, length_map).
    destruct (exchange_all good Hgood es' (collector_new cid ck s) w (w_node_id w) [] nows) as (_ & (_ & Hlast & _) & Hpend & Hcol);
      [done|apply new_follows|done|done|lia|unfold len in *; cbn; lia|]. cbn zeta. rewrite En in Hlast. cbn [app] in Hlast.
    split_and!; [done|done|done|]. etrans; [exact Hlast|]. unfold len. by rewrite Hlen.
Qed.

(** The file of a collector whose writes succeed holds one line for each accepted entry, in order. *)
Lemma file_text `{Ed25519} `{HexCodec} ins : ∀ c : ExternalAuditCollector FileImmutableStore,
  fs_io (store c) = [] →
  let r := collect c ins in
  fs_io (store r.1) = [] ∧ fs_text (store r.1) = fs_text (store c) ++ flat_map entry_line r.2.
Proof.
  induction ins as [|[e now] ins IH]; intros c Hio; cbn zeta; cbn [collect]; [by rewrite app_nil_r|].
  destruct (receive_entry c e now) as [c1 r] eqn:E.
  assert (H1 : fs_io (store c1) = [] ∧ fs_text (store c1) = fs_text (store c) ++ match r with Ok _ => entry_line e | _ => [] end).
  { revert E. unfold receive_entry. cbn [store set_chain store_append FileImmutableStore_store]. rewrite Hio.
    repeat (case_match; [intros [= <- <-]; cbn; by rewrite app_nil_r|]). by intros [= <- <-]. }
  destruct H1 as [Hio1 Ht1]. specialize (IH c1 Hio1). destruct (collect c1 ins) as [c2 es]. cbn in *. destruct IH as [? ->]. split; [done|].
  rewrite Ht1, <- app_assoc. by destruct r.
Qed.

(** ** Concrete runs *)

#[local] Existing Instance prefix_digest.
#[local] Existing Instance ed_reference.
Definition sample_wk : list Z := to_be 32 7.
Definition sample_ck : list Z := to_be 32 9.
Definition sample_endpoint : CollectorEndpoint := mkEndpoint (ed_public sample_ck) (str "collector.local") true 0.
Definition sample_writer : ExternalAuditWriter := with_config (add_collector (writer_new (ed_public sample_wk) sample_wk) sample_endpoint) WriterConfig_default.
(** A store that keeps what it is given. *)
#[local] Instance list_store : ImmutableStore (list ExternalAuditEntry) := {| store_append s e := (s ++ [e], Ok (len s)) |}.
Definition sample_collector : ExternalAuditCollector (list ExternalAuditEntry) := collector_new (ed_public sample_ck) sample_ck [].
Definition sample_events : list audit_event := [(NodeStartup, [1; 2; 3], 1000); (HdlLoaded, [4], 2000)].
Definition sample_logged : ExternalAuditWriter := writer_logs sample_writer sample_events.
Definition entry_at (i : nat) : ExternalAuditEntry := default (mkEntry 0 [] 0 [] XE_Unknown [] [] []) (get_pending_entries sample_logged !! i).
Definition accepts (c : ExternalAuditCollector (list ExternalAuditEntry)) (e : ExternalAuditEntry) : bool :=
  match (receive_entry c e 3000).2 with Ok _ => true | _ => false end.
Definition after (es : list ExternalAuditEntry) : ExternalAuditCollector (list ExternalAuditEntry) := (collect sample_collector ((λ e, (e, 3000)) <$> es)).1.

Example test_writer_no_collectors_error : (writer_log (writer_new (replicate 32 1) (replicate 32 2)) NodeStartup [] 1000).2 = Err NoCollectors.
Proof. done. Qed.
Example test_writer_chain_linking :
  xe_prev_hash (entry_at 0) = GENESIS ∧ xe_prev_hash (entry_at 1) = entry_hash (entry_at 0) ∧ has_pending_critical sample_logged = true.
Proof. vm_compute. done. Qed.
Example event_codes_roundtrip : forallb (λ t, bool_decide (from_u16 (event_code t) = t)) (XE_Unknown :: all_audit_events) = true.
Proof. vm_compute. reflexivity. Qed.

(** The collector never computes the hash of an entry: with another type and payload it is accepted under
    the same signature. *)
Definition tampered (e : ExternalAuditEntry) : ExternalAuditEntry :=
  mkEntry (entry_id e) (xe_node_id e) 0 (xe_prev_hash e) NodeShutdown [] (entry_hash e) (xe_signature e).
Example content_not_checked : accepts sample_collector (tampered (entry_at 0)) = true.
Proof. vm_compute. reflexivity. Qed.
(** Number and link are not signed either: whoever has seen one entry of a node can extend its chain
    with it, and the next entry of the node itself is refused. *)
Definition replayed (e : ExternalAuditEntry) : ExternalAuditEntry :=
  mkEntry (entry_id e + 1) (xe_node_id e) (timestamp_ms e) (entry_hash e) (xe_type e) (xe_payload e) (entry_hash e) (xe_signature e).
Example replay_displaces :
  accepts (after [entry_at 0]) (entry_at 1) = true ∧ accepts (after [entry_at 0]) (replayed (entry_at 0)) = true ∧
  (receive_entry (after [entry_at 0; replayed (entry_at 0)]) (entry_at 1) 3000).2 = Err ChainError.
Proof. vm_compute. done. Qed.
(** A receipt signed by anybody at all, no collector of the writer's, ends the wait for an entry that was never stored. *)
Definition stranger_sk : list Z := to_be 32 11.
Definition stranger_receipt (e : ExternalAuditEntry) : WitnessReceipt :=
  mkReceipt (entry_id e) (entry_hash e) (ed_public stranger_sk) 5 (ed_sign stranger_sk (receipt_message (entry_id e) (entry_hash e) 5)) 0.
Example receipt_of_a_stranger :
  pending_count sample_logged = 2 ∧ pending_count (process_receipt sample_logged (stranger_receipt (entry_at 1))).1 = 1 ∧
  has_pending_critical (process_receipt sample_logged (stranger_receipt (entry_at 1))).1 = false.
Proof. vm_compute. done. Qed.
(** When a receipt is lost its entry can never be acknowledged, and a writer whose queue such entries fill logs nothing more. *)
Definition small_writer : ExternalAuditWriter := writer_logs (with_config sample_writer (mkWriterConfig 1 5000 10 true)) (take 1 sample_events).
Example lost_receipt_blocks :
  (receive_entry (after [entry_at 0]) (entry_at 0) 4000).2 = Err ChainError ∧ (writer_log small_writer HdlLoaded [4] 2000).2 = Err QueueFull.
Proof. vm_compute. done. Qed.
(** The collector keeps its chains in memory: started again, it refuses every node that has logged before. *)
Example restart_refuses : (receive_entry sample_collector (entry_at 1) 3000).2 = Err ChainError.
Proof. vm_compute. reflexivity. Qed.
(** Critical events are not waited for, whatever the configuration says. *)
Example critical_not_awaited : (writer_log sample_logged DataRead [] 3000).2 = Ok 3 ∧ require_receipt_for_critical (config sample_logged) = true.
Proof. vm_compute. done. Qed.

Lemma external_audit_witness :
  let es := get_pending_entries sample_logged in
  map event_of es = sample_events ∧ (collect sample_collector (zip es [10; 20])).2 = es ∧
  pending (exchange sample_collector sample_logged (zip es [10; 20])).2 = [] ∧
  (receive_entry (after [entry_at 0]) (entry_at 0) 4000).2 = Err ChainError.
Proof.
  intros es. destruct (external_audit (ed_public sample_ck) sample_ck ([] : list ExternalAuditEntry)) as [Hany Hhonest].
  destruct (Hhonest (λ _, True) sample_wk sample_endpoint WriterConfig_default sample_events [10; 20]) as (E1 & E2 & E3 & _).
  - exact I.
  - intros s e _. by eexists _, _.
  - split; [apply length_to_be|apply to_be_bytes_ok].
  - reflexivity.
  - split; [apply length_to_be|apply to_be_bytes_ok].
  - unfold len. cbn. lia.
  - reflexivity.
  - reflexivity.
  - split; [exact E1|]. split; [exact E2|]. split; [exact E3|].
    apply (proj2 (Hany [(entry_at 0, 3000)] ltac:(reflexivity))). vm_compute. left.
Defined.
